(* ===== verification/_CoqProject ===== *)
-Q . S2P
Prelude.v
Hash.v
UMap.v
FieldValue.v
FieldValueFacts.v
DimensionKey.v
DimensionKeyFacts.v
Matchers.v
UidMap.v
UidMapFacts.v
LogEvent.v
LogEventFacts.v
StatsEvent.v
StatsEventFacts.v
MatcherTrackers.v
MatcherTrackersFacts.v
Conditions.v
ConditionsFacts.v
ConfigUpdate.v
ConfigUpdateFacts.v
PriorityQueue.v
Alarms.v
Anomaly.v
AnomalyFacts.v
State.v
StateFacts.v
MetricProducer.v
MetricProducerFacts.v
CountMetric.v
CountMetricFacts.v
DurationTrackers.v
DurationTrackersFacts.v
MaxDurationFacts.v
MetricShared.v
EventMetric.v
GaugeMetric.v
GaugeMetricFacts.v
ValueMetric.v
ValueMetricFacts.v
DurationMetric.v
DurationMetricFacts.v
AnyMetric.v
AnyMetricFacts.v
Sorting.v
PullerUtil.v
PullerUtilFacts.v
Pullers.v
PullersFacts.v
LogEventQueue.v
Storage.v
MetricsConfig.v
MetricsUpdate.v
MetricsConfigFacts.v
ConfigParts.v
MetricsManager.v
MetricsManagerFacts.v
ManagerInvariants.v
MetricsUpdateFacts.v
ManagerSources.v
ManagerOps.v
TrainEvents.v
StorageFacts.v
TrainEventsFacts.v
LogProcessor.v
LogProcessorFacts.v
ProcessorEvents.v
ProcessorInvariants.v
ProcessorData.v
ProtoOutput.v
StatsdStats.v
StatsdStatsFacts.v
StatsdWriter.v
SocketListener.v
SocketFacts.v
Subscribers.v
PullCallbacks.v
ShellSubscriber.v
ConfigManager.v
Service.v
ServiceFacts.v
