(* ===== verification/Prelude.v ===== *)
(** * Statsd: a verification development

    Statsd receives events ("atoms") from the whole device, matches them against the configurations
    of its clients, and keeps aggregated metrics, with alarms when an aggregate is anomalous.  This
    library models it, from the client libraries under src/lib/ over the socket to the service in
    src/bin/src/, and proves it correct.

    ** The program and its parts

    A log event is a list of field values.  The matchers of a configuration decide which events it
    is about; conditions turn matched start and stop events into a three-valued state, per
    dimension key when they are sliced; state trackers remember the last state of every primary
    key; metric producers aggregate the matched events per dimension key in buckets of time, while
    the condition holds and the metric is active; anomaly trackers watch the buckets of a metric
    and use alarms to wake statsd up.  A metrics manager holds all these parts of one configuration,
    builds them from its message, updates them when the message changes and routes every event to
    the metrics it concerns.  Events come from clients, which encode them with the library
    libstatssocket and send them over a socket, whose listener puts them into a queue, and from pullers,
    which ask other processes for them.  The uid map says which apps a uid stands for, the configuration
    manager which configurations are set, and the storage keeps configurations, reports and train info on disk.
    The log processor takes the events from the queue, completes those about trains, replaces isolated uids, and
    passes every event to the managers of all configurations; it listens to the configuration manager and the
    uid map, sends broadcasts, and writes reports to disk.  Alerts inform subscribers.  The service receives the calls of
    other processes and the commands of the shell, checks the caller, and passes them on to these parts; a
    shell client may also subscribe to atoms as they are logged.

    ** Files

    Every component has a file of definitions and, where the proofs are long, a file of facts.

    - Prelude: this file; machine integers, list lemmas, tactics, the hint database [statsd].
    - Hash: hash.h, hash.cpp, the hash of messages and strings.
    - UMap: std::unordered_map and std::map keyed by a class with its own [operator==]:
      association lists searched with that operator (classes [KeyEq], [KeyPER]).
    - FieldValue, FieldValueFacts: FieldValue.h, FieldValue.cpp.  The 32-bit encoding of the
      position of a field, the bit-mask [Matcher]s and their translation from [FieldMatcher]
      messages, the tagged union [Value] with its operators, the annotation bit mask.
    - DimensionKey, DimensionKeyFacts: HashableDimensionKey.h/.cpp, stats_util.h.  Extraction of
      keys from events, links between metric, condition and state, comparison and hash of keys,
      the parcel sent to subscribers.
    - Matchers: matchers/matcher_util.cpp, the event type of logd/LogEvent.h.
    - UidMap, UidMapFacts: packages/UidMap; an instance of the interface [UidMapOps] of Matchers.
    - LogEvent, LogEventFacts: logd/LogEvent.cpp, the parser of the bytes of an event.
    - StatsEvent, StatsEventFacts: the encoder of the client library, stats_event.c.
    - LogEventQueue: logd/LogEventQueue, the bounded queue before the log processor.
    - MatcherTrackers, MatcherTrackersFacts: the simple and combination matching trackers, the
      event matcher wizard, initAtomMatchingTrackers of parsing_utils/metrics_manager_util.cpp.
    - Conditions, ConditionsFacts: condition/ as a whole: condition_util, the simple and
      combination condition trackers, the wizard, the timer, initConditions.
    - ConfigUpdate, ConfigUpdateFacts: the update of matchers, conditions and states in
      parsing_utils/config_update_utils.cpp.
    - PriorityQueue, Alarms: anomaly/indexed_priority_queue.h, AlarmMonitor, AlarmTracker.
    - Anomaly, AnomalyFacts: AnomalyTracker, DurationAnomalyTracker, metadata_util.cpp.
    - State, StateFacts: state/StateTracker, state/StateManager.
    - MetricProducer, MetricProducerFacts: metrics/MetricProducer.h/.cpp, the part all metrics
      share: activations, conditions, states, buckets.
    - CountMetric, CountMetricFacts: metrics/CountMetricProducer.
    - DurationTrackers, DurationTrackersFacts, MaxDurationFacts: metrics/duration_helper/, the two
      trackers of a duration metric; DurationMetric, DurationMetricFacts:
      metrics/DurationMetricProducer, which owns them.
    - MetricShared: skipped buckets, truncation of time stamps and the record [Outside] of what a
      metric that pulls asks of the rest; EventMetric, GaugeMetric, ValueMetric, the last two with Facts:
      metrics/EventMetricProducer, GaugeMetricProducer, ValueMetricProducer.
    - AnyMetric, AnyMetricFacts: the virtual methods of metrics/MetricProducer.h, dispatched on
      the five kinds of metric.
    - MetricsConfig, MetricsUpdate, with MetricsConfigFacts and ConfigParts: how
      parsing_utils/metrics_manager_util.cpp builds metrics, alerts, alarms and routing tables from a
      message, and how config_update_utils.cpp and onConfigUpdatedLocked carry them over to a new
      version of it; MetricsUpdateFacts compares the two.
    - MetricsManager: metrics/MetricsManager.  MetricsManagerFacts (what an event does),
      ManagerInvariants (all histories of a manager), ManagerSources (log sources and the uid map).
    - Sorting: std::sort as any function with its laws (class [StdSort]).
    - PullerUtil, PullerUtilFacts: external/puller_util.cpp, the merging of isolated uids.
    - Pullers, PullersFacts: external/StatsPuller, StatsCallbackPuller and StatsPullerManager.
    - Storage, StorageFacts: storage/StorageManager, on directories as lists of named contents.
    - ManagerOps: what the log processor asks of a metrics manager, as a class with its instance.
    - TrainEvents, TrainEventsFacts: the events about trains and isolated uids that
      StatsLogProcessor.cpp rewrites, and external/TrainInfoPuller.
    - LogProcessor: StatsLogProcessor.  LogProcessorFacts (rate limits over all histories),
      ProcessorEvents (what an event does), ProcessorInvariants (registrations), ProcessorData (reports).
    - ProtoOutput: stats_log_util.cpp, the nested messages of keys and atoms in reports.
    - StatsdStats, StatsdStatsFacts: guardrail/StatsdStats, what statsd counts about itself.
    - StatsdWriter: statsd_writer.c and stats_buffer_writer.c of the client library; SocketListener:
      socket/StatsSocketListener; SocketFacts: the way of an event from one to the other.
    - Subscribers: subscriber/ and anomaly/subscriber_util.cpp.
    - PullCallbacks: the client library libstatspull, with the threads it starts.
    - ShellSubscriber: shell/ShellSubscriber, with its threads.
    - ConfigManager: config/ConfigManager, config/ConfigKey.
    - Service: StatsService and utils/MultiConditionTrigger, composed from the files above; ServiceFacts.

    ** How code is modelled

    A class is a record of its members and a method a function from the old record to the new one;
    the definitions keep the names of the source, with a prefix where two classes use the same
    name.  Every definition is executable, so that concrete runs evaluate.

    - Integers.  Signed counters, sums and times are unbounded integers: their overflow is undefined
      in C++, and none of them can overflow in the life of a device.  Conversions to a narrower or
      an unsigned type and operations on unsigned types wrap explicitly ([wrap32], [wrap64], [u32]); bit
      operations are those of [Z]; the C++ operators [/] and [%] are [Z.quot] and [Z.rem].  The
      number of buckets a duration tracker or a pull receiver moves forward is an [int] and wraps;
      the theorems about it have the range as a hypothesis.  FLOAT and DOUBLE values are IEEE numbers of SpecFloat.
    - Containers.  A container keyed by a class is a [umap]; one keyed by a scalar a [gmap].  The
      order of an unordered container is the order of insertion.  A std::set of keys is kept in
      the order of [operator<] (DurationTrackers.keySet).
    - Shared objects.  The trackers of a configuration refer to each other by index in a vector:
      operations pass the vector.  Activations are shared by two maps of pointers: they live in a
      store.  Alarms are compared by address: they carry one.  Counters that are handed over and
      never written again are values.
    - Virtual methods.  [MetricOps] is the interface a producer overrides, [MetricLaws] what the
      shared code relies on; the facts on activations are proved against [MetricLaws], which the
      count metric satisfies (an instance in CountMetricFacts).  Metrics ask conditions through
      [ConditionWizardOps], whose instance is the wizard of Conditions.  The uid map, which
      resolves package names, is the class [UidMapOps], whose instance is in UidMap.  The log processor
      and the service are written against [ManagerOps] and proved against [ManagerLaws], whose instance for
      the metrics manager is in ProcessorEvents.
    - Parameters.  What a metric asks of the puller, the clock, the matchers, the states and the
      conditions is the record [Outside]; what a pull finds in the world is [PullEnv] and
      [PullWorld]; std::sort, the sizes of objects in memory, the hash of strings and the
      serialization of configurations are section variables.  Directories and times are arguments.
      The log processor finds clocks and answers of other services in [Env] and libraries in
      [Library]; the system calls of the client library are [Kernel] and the layout of its messages
      [LogFormat], with their documented behaviour as [KernelLaws] and [FormatLaws] and a concrete instance of both in
      SocketFacts; the protobuf stream of the shell subscriber is [ProtoStream].
    - Threads.  Operations run under a lock and are functions; where threads of their own are part of the
      behaviour (the pull callbacks, the shell subscriptions, the steps of the service) they are a step relation, and
      theorems hold for every interleaving of the steps.
    - Configurations.  Building and updating return an [Outcome]: a result, [Rejected] where the
      source returns false, or [Crashed] where it would dereference a null pointer or index out of
      range.  The message is a record; its serialization is a parameter, of which the theorems only
      use that the hashes of different messages with the same id differ.
    - Faults.  Reads outside a buffer, the dereference of an end iterator, the exception of
      [vector::at] and a loop without end are [None]; the parser and the encoder are partial in
      this sense, and their theorems show that no fault happens.
    - Effects.  Calls that leave the modelled part (listeners of a state, subscribers of an alert,
      the companion service) are recorded in order.  Members the source leaves uninitialized are
      arguments named [uninit].
    - Recursion.  Loops over containers are structural.  The recursion over the graphs of matchers
      and conditions and the loop that pops due alarms take fuel and return [None] without it.
      Enough fuel is proved, not assumed: n + 2 ([initFuel]) for the initialization and the update
      of n matchers or conditions (MatcherTrackersFacts, ConfigUpdateFacts), one more than the number of trackers for a query of the wizard
      (an acyclic graph has dense ranks), the size of the queue for popping, 4 n + 4 for a parcel
      of n values; evaluation of matchers terminates for some fuel, and every larger one.  The
      encoder doubles its buffer at most 64 times, more than the sizes of a buffer allow.  The
      handler of a gauge metric calls itself through its puller: the depth of calls is an argument,
      and exceeding it is a fault (GaugeMetricFacts shows when it happens and when not).  The loop
      over the experiment ids of train info has the length of the file as fuel.

    ** What is proved

    - Matchers.  Initialization succeeds exactly on well-formed acyclic configurations, and builds
      the configured graph; evaluation with its cache computes the boolean meaning of every
      matcher.  The mask compiled from a field matcher accepts exactly the positions it denotes.
    - Keys and values.  Encodings round trip; the operators of [Value] form one total order, the
      order of keys agrees with their equality, equal keys have equal hashes; the exceptions are
      hypotheses (NaN, two UNKNOWN values, FLOAT zeros).  Extraction, renaming and parcels keep
      the values.
    - Conditions.  A simple condition refines a counter per key, also over whole histories; the
      wizard answers with the three-valued meaning of the configured predicate; the guard rail
      bounds the tracked keys; the timer measures exactly the time the condition was true.
    - Configuration updates.  Updating the matchers in place gives exactly what a restart gives, and
      replaces exactly what changed; conditions and metrics that did not change keep their
      counters, buckets and activations (a pulled gauge of one sample may get atoms it pulls during the update), all
      others are replaced, and the routing tables are those of a restart.
    - The manager.  An event acts on each metric by calls of its own, which are those its message
      asks for; in every reachable state the producers, the id maps and the tables of positions fit the message, and the
      manager is active exactly when one of its metrics is.  The log sources follow the uid map.
    - Anomalies.  The circular buffer refines an unbounded history cut to a window; declared
      anomalies of a key are a refractory period apart; metadata survives a restart.  The priority
      queue refines a set with a minimum; the monitor registers the soonest alarm.
    - States.  Listeners hear exactly the changes; nested states count; trackers exist exactly
      while they have listeners.
    - Events.  The parser is safe on every buffer; an event written with the client library is
      parsed back to its values, types, annotations and time; the queue is a bounded FIFO.
    - Metrics.  A metric is active exactly when it has no activations or a live one; saving and
      loading activations keeps what remains of them.  A count metric loses and duplicates no
      event other than in the past buckets it is told to drop, and its buckets lie on the grid of its time base.  An oring duration tracker measures
      the union of its intervals; a max duration tracker reports the longest one; a duration
      metric of sums without a sliced condition reports for a key the time it was started while the metric was active and its
      condition true.  The buckets and skipped buckets of a value metric divide its time without
      gaps; the differences it sums telescope, and its intervals hold the aggregates of their
      events.  A gauge metric keeps the first atoms of each bucket and its handler terminates; an
      event metric reports every accepted event once.
    - Pulled atoms.  Merging of isolated uids loses nothing and leaves nothing to merge; a puller
      asks at most once in its cool down and serves only answers that came in time; the pull alarm
      serves exactly the receivers that are due and is always in time for the next one.
    - Uid map, configurations and storage.  The memory of the uid map is bounded and its loops end; a
      change is kept until every configuration was told of it.  Listeners know exactly the
      configurations that are set, and every uid stays within its limit.  File names and train info
      round trip, trimming respects its limits and removes the oldest files first, a report kept as
      local history is delivered once, an accepted configuration is read back.
    - The log processor.  An event reaches every manager by itself; activation broadcasts tell the truth;
      broadcasts are rate limited over all histories; the data of removed and updated configurations are
      delivered by the next dump; a pull asks the current manager of a configuration; experiment ids stay distinct, and
      every isolated uid is replaced by its host.
    - Reports and statistics.  The messages of a report hold every value in order, and the key of an event, written as leaves, is read
      back with the paths of its metric by a reader of the proto message; the statistics are bounded and keep the latest times.
    - Clients.  An event that was sent is queued as it was written, and every event that was not is counted, sooner or later
      reported; once threads and handlers of deaths have ended, statsd knows the callbacks that are set, but for atoms that met one of
      three exceptions (statsd not found, threads of an atom that overtake each other, a change while a handler registers its
      copy), each of which is shown to lose a callback; an intent that is alive is the one that is used;
      the shell subscription in use is the newest with a living client, and its helper thread keeps pace.
    - The service.  Only callers that may do so change configurations; the processor has managers for configurations that are set
      only; the end of the boot is announced once.
    - Deviations.  Some theorems show behaviour that differs from the intent: a full bucket that
      leaks into the next one for an event exactly at the edge, metadata that does not restore
      STORAGE keys, a write to an erased map entry, a write past the buffer of the encoder, a double
      lost under the zero default base, an end iterator dereferenced for a NaN, a gauge metric
      triggered by the atom it pulls, additive fields that keep equal events apart, apps that a
      snapshot hides or that are forgotten although installed, a first installation that is not
      announced, a metric kept by an update because its states are not listed in order, the saved configuration of a uid
      whose number ends like another's, data lost when the time to live of a configuration ends just after a write, reports of
      the same second that overwrite each other, a rate limit of one uid that silences others, train info of the shell
      that is ignored, a negative atom id that is counted outside the table, a count of dropped changes
      that doubles, a dead intent that stays, callbacks that are lost or come back in the pull library, an older shell subscription that
      replaces a newer one, a short datagram that is read past its end, and configuration ids that are read in
      different bases.

    ** What is not modelled

    Errors of the file system other than a missing file, the byte layout of protobuf messages (the library writes it;
    messages are trees or records here), the text of dumps, logging and the output of commands.  The calls that
    count something in StatsdStats inside other components are left out, except where a theorem is about them.  A mutex
    is held for a whole operation, so operations of one component run one at a time; races between components that
    release a lock in between are not explored, apart from the threads named above.  Alarm trackers have their own view of
    the shared alarm monitor, so the service is given the periodic alarms it pops.  main.cpp (the set up of
    the process), external/Perfetto.cpp (it starts another process), and the Java code and interface
    definitions of framework, service and apex have no model. *)
From stdpp Require Export base numbers list gmap strings.
From Stdlib Require Export ZArith Lia Bool.

#[global] Open Scope Z_scope.

(** ** Proof automation of the development *)

Create HintDb statsd.

(** Case analysis on the boolean test of the goal or of a hypothesis. *)
Ltac destr_if :=
  match goal with
  | |- context [if ?b then _ else _] => destruct b eqn:?
  | H : context [if ?b then _ else _] |- _ => destruct b eqn:?
  end.

(** Turns boolean integer tests into the propositions they decide. *)
Ltac bool_to_prop :=
  repeat match goal with
  | H : (_ && _)%bool = true |- _ => apply andb_true_iff in H; destruct H
  | H : (_ && _)%bool = false |- _ => apply andb_false_iff in H
  | H : (_ || _)%bool = true |- _ => apply orb_true_iff in H
  | H : (_ || _)%bool = false |- _ => apply orb_false_iff in H; destruct H
  | H : negb _ = true |- _ => apply negb_true_iff in H
  | H : negb _ = false |- _ => apply negb_false_iff in H
  | H : (_ =? _) = true |- _ => apply Z.eqb_eq in H
  | H : (_ =? _) = false |- _ => apply Z.eqb_neq in H
  | H : (_ <? _) = true |- _ => apply Z.ltb_lt in H
  | H : (_ <? _) = false |- _ => apply Z.ltb_ge in H
  | H : (_ <=? _) = true |- _ => apply Z.leb_le in H
  | H : (_ <=? _) = false |- _ => apply Z.leb_gt in H
  end.

(** ** Machine integers

    A C++ [int32_t]/[int64_t] is a [Z] kept in its signed range, a
    [uint32_t]/[uint64_t] a [Z] in its unsigned range; the functions below are the
    conversions to each width. *)

Definition wrap32 (z : Z) : Z := (z + 2 ^ 31) mod 2 ^ 32 - 2 ^ 31.
Definition wrap64 (z : Z) : Z := (z + 2 ^ 63) mod 2 ^ 64 - 2 ^ 63.
Definition u32 (z : Z) : Z := z mod 2 ^ 32.

Definition int32 (z : Z) : Prop := - 2 ^ 31 <= z < 2 ^ 31.
Definition int64 (z : Z) : Prop := - 2 ^ 63 <= z < 2 ^ 63.

Lemma wrap32_range z : int32 (wrap32 z).
Proof. unfold int32, wrap32. pose proof (Z.mod_pos_bound (z + 2 ^ 31) (2 ^ 32)). lia. Qed.

Lemma wrap64_range z : int64 (wrap64 z).
Proof. unfold int64, wrap64. pose proof (Z.mod_pos_bound (z + 2 ^ 63) (2 ^ 64)). lia. Qed.

Lemma wrap32_id z : int32 z → wrap32 z = z.
Proof. unfold int32, wrap32. intros ?. rewrite Z.mod_small; lia. Qed.

Lemma wrap64_id z : int64 z → wrap64 z = z.
Proof. unfold int64, wrap64. intros ?. rewrite Z.mod_small; lia. Qed.

Lemma u32_range z : 0 <= u32 z < 2 ^ 32.
Proof. apply Z.mod_pos_bound. lia. Qed.

Lemma u32_id z : 0 <= z < 2 ^ 32 → u32 z = z.
Proof. apply Z.mod_small. Qed.

#[export] Hint Resolve wrap32_range wrap64_range u32_range : statsd.

Lemma quot_div_nonneg a b : 0 <= a → 0 < b → Z.quot a b = a / b.
Proof. intros. apply Z.quot_div_nonneg; lia. Qed.

(** ** Lists *)

(** A [for] loop that stops at the first index satisfying [p]. *)
Fixpoint find_index {A} (p : A → bool) (l : list A) : option nat :=
  match l with
  | [] => None
  | x :: l' => if p x then Some 0%nat else S <$> find_index p l'
  end.

Lemma existsb_elem_of {A} (p : A → bool) (l : list A) :
  existsb p l = true ↔ ∃ x, x ∈ l ∧ p x = true.
Proof. rewrite existsb_exists. by setoid_rewrite list_elem_of_In. Qed.

Lemma forallb_elem_of {A} (p : A → bool) (l : list A) :
  forallb p l = true ↔ ∀ x, x ∈ l → p x = true.
Proof. rewrite forallb_forall. by setoid_rewrite list_elem_of_In. Qed.

Definition sumZ (l : list Z) : Z := foldr Z.add 0 l.

Lemma sumZ_cons x l : sumZ (x :: l) = x + sumZ l.
Proof. done. Qed.

Lemma sumZ_app l1 l2 : sumZ (l1 ++ l2) = sumZ l1 + sumZ l2.
Proof. induction l1; simpl; lia. Qed.

Lemma sumZ_nonneg l : Forall (Z.le 0) l → 0 <= sumZ l.
Proof. induction 1; simpl; lia. Qed.
