(* ===== verification/Hash.v ===== *)
(** * Hashing (hash.{h,cpp})

    The murmur2 hashes that statsd uses to notice that a part of a configuration has changed and to
    shorten the strings of a report.  A buffer is the list of its bytes; unsigned words wrap.  The
    theorem shows what the update of a configuration relies on: a change confined to one block
    always changes the hash. *)
From S2P Require Import Prelude.

(** ** Words of [w] bits *)

Definition mulw (w a b : Z) : Z := (a * b) mod 2 ^ w.
(** [h ^= h >> r] *)
Definition xorshift (r h : Z) : Z := Z.lxor h (Z.shiftr h r).

(** ** Reading a buffer *)

(** [static_cast<unsigned char>] and [ByteAs32], [ByteAs64]: a byte whatever the sign of [char]. *)
Definition byteAs (c : Z) : Z := Z.land c 255.

Definition DecodeFixed32 (b0 b1 b2 b3 : Z) : Z :=
  Z.lor (Z.lor (Z.lor (byteAs b0) (Z.shiftl (byteAs b1) 8)) (Z.shiftl (byteAs b2) 16))
    (Z.shiftl (byteAs b3) 24).

Definition DecodeFixed64 (b0 b1 b2 b3 b4 b5 b6 b7 : Z) : Z :=
  let lo := DecodeFixed32 b0 b1 b2 b3 in
  let hi := DecodeFixed32 b4 b5 b6 b7 in
  Z.lor (Z.shiftl hi 32) lo.

(** The cases of the last bytes: the highest byte first, each falling through to the next. *)
Fixpoint xorTail (i : Z) (data : list Z) (h : Z) : Z :=
  match data with
  | [] => h
  | c :: data' => Z.lxor (xorTail (i + 1) data' h) (Z.shiftl (byteAs c) (8 * i))
  end.

Definition hashTail (w m : Z) (data : list Z) (h : Z) : Z :=
  match data with [] => h | _ :: _ => mulw w (xorTail 0 data h) m end.

(** ** Hash32 *)

Definition m32 : Z := 0x5bd1e995.

Definition mix32 (k : Z) : Z := mulw 32 (xorshift 24 (mulw 32 k m32)) m32.

Fixpoint blocks32 (data : list Z) (h : Z) : list Z * Z :=
  match data with
  | b0 :: b1 :: b2 :: b3 :: data' =>
      blocks32 data' (Z.lxor (mulw 32 h m32) (mix32 (DecodeFixed32 b0 b1 b2 b3)))
  | _ => (data, h)
  end.

(** The length is a [size_t]; its low word enters the seed. *)
Definition Hash32_seed (data : list Z) (seed : Z) : Z :=
  let n := Z.of_nat (length data) in
  let h := u32 (Z.lxor seed n) in
  let '(data, h) := blocks32 data h in
  let h := hashTail 32 m32 data h in
  xorshift 15 (mulw 32 (xorshift 13 h) m32).

Definition Hash32 (data : list Z) : Z := Hash32_seed data 0xBEEF.

(** ** Hash64 *)

Definition m64 : Z := 0xc6a4a7935bd1e995.

Definition mix64 (k : Z) : Z := mulw 64 (xorshift 47 (mulw 64 k m64)) m64.

Fixpoint blocks64 (data : list Z) (h : Z) : list Z * Z :=
  match data with
  | b0 :: b1 :: b2 :: b3 :: b4 :: b5 :: b6 :: b7 :: data' =>
      blocks64 data' (mulw 64 (Z.lxor h (mix64 (DecodeFixed64 b0 b1 b2 b3 b4 b5 b6 b7))) m64)
  | _ => (data, h)
  end.

Definition Hash64_seed (data : list Z) (seed : Z) : Z :=
  let n := Z.of_nat (length data) in
  let h := Z.lxor seed (mulw 64 n m64) in
  let '(data, h) := blocks64 data h in
  let h := hashTail 64 m64 data h in
  xorshift 47 (mulw 64 (xorshift 47 h) m64).

Definition Hash64 (data : list Z) : Z := Hash64_seed data 0xDECAFCAFFE.

(** The bytes of a string. *)
Definition bytesOf (s : string) : list Z :=
  (λ c, Z.of_N (Ascii.N_of_ascii c)) <$> String.list_ascii_of_string s.

Definition Hash64_string (s : string) : Z := Hash64 (bytesOf s).

(** ** Facts on words *)

Definition word (w z : Z) : Prop := 0 <= z < 2 ^ w.
Definition isByte (c : Z) : Prop := 0 <= c < 256.

Lemma word_bits w z : 0 <= w → word w z ↔ 0 <= z ∧ ∀ i, w <= i → Z.testbit z i = false.
Proof.
  intros Hw. unfold word. split.
  - intros [Hz Hlt]. split; [done|]. intros i Hi. apply Z.testbit_false; [lia|].
    rewrite Z.div_small; [done|]. split; [done|].
    eapply Z.lt_le_trans; [exact Hlt|]. by apply Z.pow_le_mono_r.
  - intros [Hz Hb]. split; [done|]. apply Z.nle_gt. intros Hge.
    assert (0 < z) by (pose proof (Z.pow_pos_nonneg 2 w); lia).
    pose proof (Hb (Z.log2 z)) as H'. rewrite Z.bit_log2 in H' by lia.
    assert (w <= Z.log2 z) by (rewrite <- Z.log2_le_pow2; lia). specialize (H' ltac:(done)). done.
Qed.

Lemma word_lxor w a b : 0 <= w → word w a → word w b → word w (Z.lxor a b).
Proof.
  intros Hw. rewrite !word_bits by done. intros [Ha Ha'] [Hb Hb']. split.
  - apply Z.lxor_nonneg. lia.
  - intros i Hi. rewrite Z.lxor_spec, Ha', Hb' by done. done.
Qed.

Lemma word_shiftr w a r : 0 <= w → 0 <= r → word w a → word w (Z.shiftr a r).
Proof.
  intros Hw Hr. rewrite !word_bits by done. intros [Ha Ha']. split.
  - by apply Z.shiftr_nonneg.
  - intros i Hi. rewrite Z.shiftr_spec by lia. apply Ha'. lia.
Qed.

Lemma word_mulw w a b : 0 <= w → word w (mulw w a b).
Proof. intros Hw. apply Z.mod_pos_bound. by apply Z.pow_pos_nonneg. Qed.

Lemma word_xorshift w r h : 0 <= w → 0 <= r → word w h → word w (xorshift r h).
Proof. intros. apply word_lxor; [done..|]. by apply word_shiftr. Qed.

(** Proves that the result of word operations is a word. *)
Ltac words := repeat (apply word_xorshift || apply word_mulw || apply word_lxor); done || lia.

Lemma lxor_inj_r a b b' : Z.lxor a b = Z.lxor a b' → b = b'.
Proof.
  intros H. apply (f_equal (Z.lxor a)) in H.
  by rewrite <- !Z.lxor_assoc, Z.lxor_nilpotent, !Z.lxor_0_l in H.
Qed.

Lemma lxor_inj_l a a' b : Z.lxor a b = Z.lxor a' b → a = a'.
Proof. rewrite !(Z.lxor_comm _ b). apply lxor_inj_r. Qed.

(** Multiplication by an odd constant: it has an inverse. *)
Lemma mulw_inj w m minv a a' :
  0 <= w → (m * minv) mod 2 ^ w = 1 mod 2 ^ w → word w a → word w a' →
  mulw w a m = mulw w a' m → a = a'.
Proof.
  intros Hw Hinv Ha Ha' H. unfold mulw in H.
  assert (Hpos : 0 < 2 ^ w) by by apply Z.pow_pos_nonneg.
  assert (Hid : ∀ x, word w x → ((x * m) mod 2 ^ w * minv) mod 2 ^ w = x).
  { intros x Hx. rewrite Z.mul_mod_idemp_l, <- Z.mul_assoc by lia.
    rewrite <- Z.mul_mod_idemp_r, Hinv, Z.mul_mod_idemp_r, Z.mul_1_r by lia. by apply Z.mod_small. }
  by rewrite <- (Hid a Ha), H, Hid.
Qed.

(** The top bits of a word are those of its mixture, and every bit is given by higher ones. *)
Lemma xorshift_inj w r a a' :
  0 <= w → 0 < r → word w a → word w a' → xorshift r a = xorshift r a' → a = a'.
Proof.
  intros Hw Hr. rewrite !word_bits by done. intros [Ha Ha2] [Hb Hb2] H.
  assert (Hbits : ∀ n : nat, ∀ i, w - Z.of_nat n <= i → 0 <= i → Z.testbit a i = Z.testbit a' i).
  { induction n as [|n IH]; intros i Hi Hi0; [by rewrite Ha2, Hb2 by lia|].
    apply (f_equal (λ z, Z.testbit z i)) in H. unfold xorshift in H.
    rewrite !Z.lxor_spec, !Z.shiftr_spec, (IH (i + r)) in H by lia.
    destruct (Z.testbit a i), (Z.testbit a' i), (Z.testbit a' (i + r)); done. }
  apply Z.bits_inj'. intros i Hi. apply (Hbits (Z.to_nat w)); lia.
Qed.

(** ** Facts on blocks *)

Lemma byteAs_id c : isByte c → byteAs c = c.
Proof. unfold isByte, byteAs. intros. change 255 with (Z.ones 8). rewrite Z.land_ones by lia.
  apply Z.mod_small. lia. Qed.

Lemma byte_bits c i : isByte c → 8 <= i → Z.testbit c i = false.
Proof. intros Hc. apply (word_bits 8); [lia|]. unfold isByte in Hc. split; lia. Qed.

(** The bits a sequence of bytes stands for. *)
Fixpoint littleEndian (data : list Z) : Z :=
  match data with [] => 0 | c :: data' => c + 256 * littleEndian data' end.

Lemma littleEndian_word data :
  Forall isByte data → word (8 * Z.of_nat (length data)) (littleEndian data).
Proof.
  induction 1 as [|c data Hc _ IH]; cbn [littleEndian length]; [done|].
  unfold word, isByte in *. replace (8 * Z.of_nat (S (length data)))
    with (8 + 8 * Z.of_nat (length data)) by lia.
  rewrite Z.pow_add_r by lia. change (2 ^ 8) with 256. nia.
Qed.

Lemma littleEndian_inj data data' :
  Forall isByte data → Forall isByte data' → length data = length data' →
  littleEndian data = littleEndian data' → data = data'.
Proof.
  intros H. revert data'. induction H as [|c data Hc _ IH]; intros [|c' data'] H' Hl Heq;
    try discriminate; [done|].
  apply Forall_cons in H' as [Hc' H']. cbn [littleEndian] in Heq. unfold isByte in *.
  assert (c = c' ∧ littleEndian data = littleEndian data') as [-> E].
  { assert (littleEndian data = littleEndian data') by nia. split; [|done]. nia. }
  f_equal. apply IH; [done| |done]. simpl in Hl. lia.
Qed.

(** An exclusive or with the bytes, shifted to their places, is one with the number. *)
Lemma xorTail_littleEndian data i h :
  Forall isByte data → 0 <= i →
  xorTail i data h = Z.lxor h (Z.shiftl (littleEndian data) (8 * i)).
Proof.
  intros H. revert i. induction H as [|c data Hc _ IH]; intros i Hi; cbn [xorTail littleEndian].
  { by rewrite Z.shiftl_0_l, Z.lxor_0_r. }
  rewrite IH, byteAs_id, Z.lxor_assoc by (done || lia). f_equal.
  replace (8 * (i + 1)) with (8 + 8 * i) by lia.
  replace (256 * littleEndian data) with (Z.shiftl (littleEndian data) 8)
    by (rewrite Z.shiftl_mul_pow2; lia).
  rewrite <- Z.shiftl_shiftl by lia.
  assert (E : c + Z.shiftl (littleEndian data) 8 = Z.lxor c (Z.shiftl (littleEndian data) 8)).
  { apply Z.add_nocarry_lxor. apply Z.bits_inj'. intros j Hj.
    rewrite Z.land_spec, Z.bits_0. destruct (decide (j < 8)).
    - rewrite (Z.shiftl_spec_low _ 8 j) by lia. apply andb_false_r.
    - rewrite byte_bits by (done || lia). done. }
  rewrite E, Z.shiftl_lxor. apply Z.lxor_comm.
Qed.

Lemma lor_shift w a b : 0 <= w → word w a → Z.lor a (Z.shiftl b w) = a + b * 2 ^ w.
Proof.
  intros Hw Ha. rewrite <- Z.shiftl_mul_pow2 by done. symmetry. rewrite <- Z.add_lor_land.
  enough (Z.land a (Z.shiftl b w) = 0) as -> by lia.
  apply (word_bits w a Hw) in Ha as [_ Ha]. apply Z.bits_inj'. intros j Hj.
  rewrite Z.land_spec, Z.bits_0. destruct (decide (j < w)).
  - rewrite Z.shiftl_spec_low by lia. apply andb_false_r.
  - rewrite Ha by lia. done.
Qed.

Lemma DecodeFixed32_littleEndian b0 b1 b2 b3 :
  Forall isByte [b0; b1; b2; b3] → DecodeFixed32 b0 b1 b2 b3 = littleEndian [b0; b1; b2; b3].
Proof.
  rewrite !Forall_cons. intros (H0 & H1 & H2 & H3 & _). unfold DecodeFixed32.
  rewrite !byteAs_id by done. unfold isByte in *.
  rewrite (lor_shift 8), (lor_shift 16), (lor_shift 24) by (unfold word; lia).
  cbn [littleEndian]. lia.
Qed.

Lemma DecodeFixed64_littleEndian b0 b1 b2 b3 b4 b5 b6 b7 :
  Forall isByte [b0; b1; b2; b3; b4; b5; b6; b7] →
  DecodeFixed64 b0 b1 b2 b3 b4 b5 b6 b7 = littleEndian [b0; b1; b2; b3; b4; b5; b6; b7].
Proof.
  intros H. assert (Forall isByte [b0; b1; b2; b3] ∧ Forall isByte [b4; b5; b6; b7]) as [H1 H2].
  { apply Forall_app. exact H. }
  unfold DecodeFixed64. rewrite !DecodeFixed32_littleEndian by done. rewrite Z.lor_comm.
  rewrite (lor_shift 32) by (lia || exact (littleEndian_word _ H1)). cbn [littleEndian]. lia.
Qed.

(** ** One block of Hash64 *)

Lemma m64_inverse : (m64 * 6879827495036328381) mod 2 ^ 64 = 1 mod 2 ^ 64.
Proof. vm_compute. reflexivity. Qed.

Lemma mulw64_inj a a' : word 64 a → word 64 a' → mulw 64 a m64 = mulw 64 a' m64 → a = a'.
Proof. apply (mulw_inj 64 m64 6879827495036328381); [lia|apply m64_inverse]. Qed.

Lemma mix64_word k : word 64 (mix64 k).
Proof. apply word_mulw. lia. Qed.

Lemma mix64_inj k k' : word 64 k → word 64 k' → mix64 k = mix64 k' → k = k'.
Proof.
  intros Hk Hk' H. apply mulw64_inj in H; [|words..].
  apply (xorshift_inj 64) in H; [|words..]. by apply mulw64_inj.
Qed.

(** A list, eight elements at a time. *)
Lemma blocks8_ind {A} (P : list A → Prop) :
  (∀ data, (length data < 8)%nat → P data) →
  (∀ k data, length k = 8%nat → P data → P (k ++ data)) → ∀ data, P data.
Proof.
  intros Hend Hstep data. induction data as [data IH] using (induction_ltof1 _ (@length A)).
  destruct (decide (length data < 8)%nat) as [H|H]; [by apply Hend|].
  rewrite <- (take_drop 8 data). apply Hstep; [rewrite length_take; lia|].
  apply IH. unfold ltof. rewrite length_drop. lia.
Qed.

Lemma blocks64_end data h : (length data < 8)%nat → blocks64 data h = (data, h).
Proof. do 8 (destruct data as [|? data]; [done|]). simpl. lia. Qed.

(** The step of the loop, for a block given as a list. *)
Definition step64 (k : list Z) (h : Z) : Z := mulw 64 (Z.lxor h (mix64 (littleEndian k))) m64.

Lemma blocks64_step k data h :
  length k = 8%nat → Forall isByte k → blocks64 (k ++ data) h = blocks64 data (step64 k h).
Proof.
  intros Hl Hk. do 8 (destruct k as [|? k]; [done|]). destruct k; [|simpl in Hl; lia].
  cbn [app blocks64]. by rewrite DecodeFixed64_littleEndian.
Qed.

Lemma step64_inj_h k h h' : word 64 h → word 64 h' → step64 k h = step64 k h' → h = h'.
Proof.
  intros Hh Hh' H. pose proof (mix64_word (littleEndian k)).
  apply mulw64_inj in H; [|words..]. by apply lxor_inj_l in H.
Qed.

Lemma step64_inj_k k k' h :
  word 64 h → length k = 8%nat → length k' = 8%nat → Forall isByte k → Forall isByte k' →
  step64 k h = step64 k' h → k = k'.
Proof.
  intros Hh Hl Hl' Hk Hk' H.
  pose proof (mix64_word (littleEndian k)). pose proof (mix64_word (littleEndian k')).
  apply mulw64_inj in H; [|words..]. apply lxor_inj_r in H.
  pose proof (littleEndian_word k Hk) as W. pose proof (littleEndian_word k' Hk') as W'.
  rewrite Hl in W. rewrite Hl' in W'.
  apply mix64_inj in H; [|done..]. apply littleEndian_inj in H; [done..|congruence].
Qed.

Lemma step64_word k h : word 64 (step64 k h).
Proof. apply word_mulw. lia. Qed.

(** What follows the loop of blocks. *)
Definition finish64 (data : list Z) (h : Z) : Z :=
  xorshift 47 (mulw 64 (xorshift 47 (hashTail 64 m64 data h)) m64).

Definition run64 (data : list Z) (h : Z) : Z :=
  let '(data, h) := blocks64 data h in finish64 data h.

Lemma Hash64_run data seed :
  Hash64_seed data seed = run64 data (Z.lxor seed (mulw 64 (Z.of_nat (length data)) m64)).
Proof. unfold Hash64_seed, run64, finish64. by destruct (blocks64 _ _). Qed.

Lemma hashTail64 data h :
  Forall isByte data → hashTail 64 m64 data h
  = if decide (data = []) then h else mulw 64 (Z.lxor h (littleEndian data)) m64.
Proof.
  intros H. destruct data as [|c data]; [done|]. case_decide as E; [done|].
  unfold hashTail. by rewrite xorTail_littleEndian by (done || lia).
Qed.

Lemma tail_word (data : list Z) :
  Forall isByte data → (length data <= 8)%nat → word 64 (littleEndian data).
Proof.
  intros H Hl. destruct (littleEndian_word data H) as [H0 H1]. split; [done|].
  eapply Z.lt_le_trans; [exact H1|]. apply Z.pow_le_mono_r; lia.
Qed.

Lemma final64_inj a a' : word 64 a → word 64 a' →
  xorshift 47 (mulw 64 (xorshift 47 a) m64) = xorshift 47 (mulw 64 (xorshift 47 a') m64) → a = a'.
Proof.
  intros Ha Ha' H. apply (xorshift_inj 64) in H; [|words..].
  apply mulw64_inj in H; [|words..].
  by apply (xorshift_inj 64) in H; [|lia..| |].
Qed.

Lemma hashTail64_word data h :
  Forall isByte data → (length data <= 8)%nat → word 64 h → word 64 (hashTail 64 m64 data h).
Proof.
  intros H Hl Hh. rewrite hashTail64 by done. case_decide; [done|]. apply word_mulw. lia.
Qed.

Lemma finish64_inj_h data h h' :
  Forall isByte data → (length data < 8)%nat → word 64 h → word 64 h' →
  finish64 data h = finish64 data h' → h = h'.
Proof.
  intros Hd Hl Hh Hh' H. apply final64_inj in H; [|apply hashTail64_word; done || lia..].
  rewrite !hashTail64 in H by done. case_decide; [done|].
  pose proof (tail_word data Hd ltac:(lia)).
  apply mulw64_inj in H; [|words..]. by apply lxor_inj_l in H.
Qed.

Lemma finish64_inj_data data data' h :
  Forall isByte data → Forall isByte data' → length data = length data' → (length data < 8)%nat →
  word 64 h → finish64 data h = finish64 data' h → data = data'.
Proof.
  intros Hd Hd' Hl Hlt Hh H. apply final64_inj in H; [|apply hashTail64_word; done || lia..].
  rewrite !hashTail64 in H by done. case_decide as E.
  - subst. by destruct data'.
  - rewrite decide_False in H by (destruct data, data'; done).
    pose proof (tail_word data Hd ltac:(lia)). pose proof (tail_word data' Hd' ltac:(lia)).
    apply mulw64_inj in H; [|words..]. apply lxor_inj_r in H.
    by apply littleEndian_inj.
Qed.

(** The rest of the computation is a bijection of the accumulator. *)
Lemma run64_inj_h data : Forall isByte data → ∀ h h', word 64 h → word 64 h' →
  run64 data h = run64 data h' → h = h'.
Proof.
  induction data as [data Hl|k data Hl IH] using blocks8_ind; intros Hd h h' Hh Hh'; unfold run64.
  - rewrite !blocks64_end by done. by apply finish64_inj_h.
  - apply Forall_app in Hd as [Hk Hd]. rewrite !blocks64_step by done. intros H.
    apply (IH Hd) in H; [|apply step64_word..]. by apply step64_inj_h in H.
Qed.

Lemma run64_app pre h :
  Forall isByte pre → (8 | Z.of_nat (length pre)) → word 64 h →
  ∃ h', word 64 h' ∧ ∀ suf, run64 (pre ++ suf) h = run64 suf h'.
Proof.
  revert h. induction pre as [pre Hl|k pre Hl IH] using blocks8_ind; intros h Hp Hdiv Hh.
  - destruct pre; [by exists h|]. destruct Hdiv as [q Hq]. simpl in *. lia.
  - apply Forall_app in Hp as [Hk Hp].
    destruct (IH (step64 k h)) as (h' & Hw & Heq); [done| |apply step64_word|].
    { rewrite length_app, Hl in Hdiv. destruct Hdiv as [q Hq]. exists (q - 1). lia. }
    exists h'. split; [done|]. intros suf. rewrite <- Heq, <- app_assoc. unfold run64.
    by rewrite blocks64_step.
Qed.

(** Hash64 notices every change that is confined to one aligned block of eight bytes, or to the last,
    shorter one: two buffers of the same length that differ there have different hashes. *)
Theorem hash64_detects_block_change pre k k' suf :
  Forall isByte (pre ++ k ++ suf) → Forall isByte k' → (8 | Z.of_nat (length pre)) →
  length k = length k' → (length k = 8%nat ∨ (length k < 8)%nat ∧ suf = []) →
  k ≠ k' → Hash64 (pre ++ k ++ suf) ≠ Hash64 (pre ++ k' ++ suf).
Proof.
  intros Hb Hk' Hdiv Hlen Hblock Hne H. apply Hne. unfold Hash64 in H. rewrite !Hash64_run in H.
  rewrite !Forall_app in Hb. destruct Hb as (Hp & Hk & Hs).
  replace (length (pre ++ k' ++ suf)) with (length (pre ++ k ++ suf)) in H
    by (rewrite !length_app; lia).
  destruct (run64_app pre (Z.lxor 0xDECAFCAFFE (mulw 64 (Z.of_nat (length (pre ++ k ++ suf))) m64)))
    as (h & Hh & E); [done..| |].
  { apply word_lxor; [lia| |apply word_mulw; lia]. unfold word. lia. }
  rewrite !E in H. destruct Hblock as [Hl|[Hl ->]].
  - unfold run64 in H. rewrite !blocks64_step in H by (done || congruence).
    apply (run64_inj_h suf Hs) in H; [|apply step64_word..].
    apply step64_inj_k in H; done || congruence.
  - rewrite !app_nil_r in H. unfold run64 in H. rewrite !blocks64_end in H by lia.
    by apply finish64_inj_data in H.
Qed.

Lemma hash64_detects_block_change_witness :
  Hash64 ([1;2;3;4;5;6;7;8] ++ [9;9] ++ []) ≠ Hash64 ([1;2;3;4;5;6;7;8] ++ [9;10] ++ []).
Proof.
  apply hash64_detects_block_change.
  - repeat (constructor; [unfold isByte; lia|]). constructor.
  - repeat (constructor; [unfold isByte; lia|]). constructor.
  - exists 1. reflexivity.
  - reflexivity.
  - right. split; [simpl; lia|reflexivity].
  - discriminate.
Defined.
