(* ===== verification/UMap.v ===== *)
(** * Keyed containers

    [std::unordered_map] and [std::map] keyed by a class with its own comparison
    operator.  The operator is not Leibniz equality (annotations are ignored, a NaN is
    not equal to itself, [-0.0 == 0.0]), so a map is an association list searched with
    the boolean operator of the key type, supplied by the class [KeyEq].  The laws the
    clients need are those of a partial equivalence ([KeyPER]); reflexivity is a
    hypothesis on the keys where it matters.  Entries are kept in insertion order: the
    code iterates over these maps only where the order does not matter or where it is
    unspecified. *)
From S2P Require Import Prelude.

Class KeyEq (K : Type) := key_eqb : K → K → bool.

Class KeyPER (K : Type) `{KeyEq K} : Prop := {
  key_eqb_sym : ∀ a b : K, key_eqb a b = true → key_eqb b a = true;
  key_eqb_trans : ∀ a b c : K, key_eqb a b = true → key_eqb b c = true → key_eqb a c = true
}.

Declare Scope umap_scope.
Delimit Scope umap_scope with umap.
Notation "a =k b" := (key_eqb a b = true) (at level 70) : umap_scope.
Notation "a <>k b" := (key_eqb a b = false) (at level 70) : umap_scope.
#[global] Open Scope umap_scope.

Abbreviation umap K V := (list (K * V)).

Section umap.
Context {K V : Type} `{KeyEq K}.

(** [m.find(k)] *)
Fixpoint um_find (k : K) (m : umap K V) : option V :=
  match m with
  | [] => None
  | (k', v) :: m' => if key_eqb k k' then Some v else um_find k m'
  end.

(** [m[k] = v]: the stored key of an existing entry is kept. *)
Fixpoint um_set (k : K) (v : V) (m : umap K V) : umap K V :=
  match m with
  | [] => [(k, v)]
  | (k', v') :: m' => if key_eqb k k' then (k', v) :: m' else (k', v') :: um_set k v m'
  end.

(** [m.erase(k)] *)
Definition um_erase (k : K) (m : umap K V) : umap K V :=
  List.filter (λ p, negb (key_eqb k p.1)) m.

(** [m.find(k) != m.end()] *)
Definition um_mem (k : K) (m : umap K V) : bool :=
  match um_find k m with Some _ => true | None => false end.

(** [m[k]] read through [operator\[\]] on a value type whose default is [d]. *)
Definition um_get (d : V) (k : K) (m : umap K V) : V := default d (um_find k m).

(** [m.insert({k, v})]: nothing happens when the key is present. *)
Definition um_insert (k : K) (v : V) (m : umap K V) : umap K V :=
  if um_mem k m then m else um_set k v m.

(** No two entries have equal keys. *)
Fixpoint um_wf (m : umap K V) : Prop :=
  match m with
  | [] => True
  | (k, _) :: m' => um_find k m' = None ∧ um_wf m'
  end.
End umap.

Section umap_laws.
Context {K V : Type} `{KeyPER K}.
Implicit Types (k : K) (v : V) (m : umap K V).

Lemma key_eqb_comm k k' : key_eqb k k' = key_eqb k' k.
Proof.
  destruct (key_eqb k k') eqn:E, (key_eqb k' k) eqn:E'; try done;
    [apply key_eqb_sym in E | apply key_eqb_sym in E']; congruence.
Qed.

Lemma key_eqb_cong_l k1 k2 k : k1 =k k2 → key_eqb k1 k = key_eqb k2 k.
Proof.
  intros E. destruct (key_eqb k1 k) eqn:E1, (key_eqb k2 k) eqn:E2; try done.
  - pose proof (key_eqb_trans _ _ _ (key_eqb_sym _ _ E) E1). congruence.
  - pose proof (key_eqb_trans _ _ _ E E2). congruence.
Qed.

Lemma key_eqb_cong_r k1 k2 k : k1 =k k2 → key_eqb k k1 = key_eqb k k2.
Proof. intros E. rewrite !(key_eqb_comm k). by apply key_eqb_cong_l. Qed.

Lemma um_find_cong k k' m : k =k k' → um_find k m = um_find k' m.
Proof.
  intros E. induction m as [|[k1 v1] m IH]; [done|]. simpl.
  by rewrite (key_eqb_cong_l _ _ _ E), IH.
Qed.

Lemma um_find_set_eq k k' v m : k =k k' → um_find k' (um_set k v m) = Some v.
Proof.
  intros E. induction m as [|[k1 v1] m IH]; simpl.
  - by rewrite (key_eqb_sym _ _ E).
  - destruct (key_eqb k k1) eqn:E1; simpl; rewrite <- (key_eqb_cong_l _ _ _ E), E1; auto.
Qed.

Lemma um_find_set_ne k k' v m : k <>k k' → um_find k' (um_set k v m) = um_find k' m.
Proof.
  intros E. induction m as [|[k1 v1] m IH]; simpl.
  - by rewrite key_eqb_comm, E.
  - destruct (key_eqb k k1) eqn:E1; simpl.
    + rewrite (key_eqb_comm k' k1), <- (key_eqb_cong_l _ _ _ E1), E. done.
    + by rewrite IH.
Qed.

Lemma um_find_erase_eq k k' m : k =k k' → um_find k' (um_erase k m) = None.
Proof.
  intros E. induction m as [|[k1 v1] m IH]; [done|]. unfold um_erase in *. simpl.
  destruct (key_eqb k k1) eqn:E1; simpl; [done|].
  by rewrite <- (key_eqb_cong_l _ _ _ E), E1.
Qed.

Lemma um_find_erase_ne k k' m : k <>k k' → um_find k' (um_erase k m) = um_find k' m.
Proof.
  intros E. induction m as [|[k1 v1] m IH]; [done|]. unfold um_erase in *. simpl.
  destruct (key_eqb k k1) eqn:E1; simpl; [|by rewrite IH].
  rewrite (key_eqb_comm k' k1), <- (key_eqb_cong_l _ _ _ E1), E. done.
Qed.

Lemma um_wf_set k v m : um_wf m → um_wf (um_set k v m).
Proof.
  induction m as [|[k1 v1] m IH]; [done|]. simpl. intros [H1 H2].
  destruct (key_eqb k k1) eqn:E; simpl; [done|]. split; [|auto].
  rewrite um_find_set_ne; auto.
Qed.

Lemma um_wf_erase k m : um_wf m → um_wf (um_erase k m).
Proof.
  induction m as [|[k1 v1] m IH]; [done|]. simpl. intros [H1 H2]. unfold um_erase in *. simpl.
  destruct (key_eqb k k1) eqn:E; simpl; [auto|]. split; [|auto].
  fold (um_erase k m). rewrite um_find_erase_ne; auto.
Qed.

Lemma um_set_size k v m :
  length (um_set k v m) = (if um_mem k m then length m else S (length m)).
Proof.
  unfold um_mem. induction m as [|[k1 v1] m IH]; [done|]. simpl.
  destruct (key_eqb k k1); simpl; [done|]. rewrite IH. by destruct (um_find k m).
Qed.

Lemma um_erase_size k m : (length (um_erase k m) <= length m)%nat.
Proof. apply List.filter_length_le. Qed.

Lemma um_find_elem k v m : um_find k m = Some v → ∃ k', (k', v) ∈ m ∧ k =k k'.
Proof.
  induction m as [|[k1 v1] m IH]; [done|]. simpl. destruct (key_eqb k k1) eqn:E.
  - intros [= ->]. exists k1. split; [left|done].
  - intros (k' & Hin & Hk)%IH. exists k'. split; [by right|done].
Qed.

Lemma um_find_None k m : um_find k m = None ↔ ∀ k' v, (k', v) ∈ m → k <>k k'.
Proof.
  split.
  - induction m as [|[k1 v1] m IH]; intros Hf k' v Hin; [by apply not_elem_of_nil in Hin|].
    simpl in Hf. destruct (key_eqb k k1) eqn:E; [done|].
    apply elem_of_cons in Hin as [[= -> ->]|Hin]; eauto.
  - intros Hall. destruct (um_find k m) eqn:E; [|done].
    apply um_find_elem in E as (k' & Hin & Hk). rewrite (Hall _ _ Hin) in Hk. done.
Qed.

Lemma um_find_elem_wf k k' v m : um_wf m → (k', v) ∈ m → k =k k' → um_find k m = Some v.
Proof.
  induction m as [|[k1 v1] m IH]; intros Hwf Hin E; [by apply not_elem_of_nil in Hin|].
  simpl in *. destruct Hwf as [Hn Hwf]. apply elem_of_cons in Hin as [[= -> ->]|Hin].
  - by rewrite E.
  - destruct (key_eqb k k1) eqn:E1; [|auto]. exfalso.
    apply (proj1 (um_find_None k1 m)) with (k' := k') (v := v) in Hn; [|done].
    rewrite <- (key_eqb_cong_l _ _ _ E1) in Hn. congruence.
Qed.
End umap_laws.

#[export] Hint Resolve um_wf_set um_wf_erase : statsd.
#[export] Hint Rewrite @um_find_set_eq @um_find_set_ne @um_find_erase_eq @um_find_erase_ne
  using (done || assumption) : statsd.

(** ** [std::set] of keys, as the list of its elements *)
Section uset.
Context {K : Type} `{KeyEq K}.

Definition us_mem (k : K) (s : list K) : bool := existsb (key_eqb k) s.

(** [s.insert(k)] *)
Definition us_insert (k : K) (s : list K) : list K := if us_mem k s then s else s ++ [k].

Lemma us_mem_insert k k' s :
  us_mem k (us_insert k' s) = true → us_mem k s = true ∨ k =k k'.
Proof.
  unfold us_insert. destruct (us_mem k' s); [auto|]. unfold us_mem.
  rewrite existsb_app. simpl. rewrite orb_false_r. intros ?%orb_true_iff. tauto.
Qed.

Lemma us_insert_mem k s : k =k k → us_mem k (us_insert k s) = true.
Proof.
  intros E. unfold us_insert. destruct (us_mem k s) eqn:Hm; [done|]. unfold us_mem in *.
  rewrite existsb_app. simpl. rewrite E, orb_true_r. done.
Qed.
End uset.

(** Integer keys compare with [==] on the integers. *)
#[export] Instance key_eq_Z : KeyEq Z := Z.eqb.
#[export] Instance key_per_Z : KeyPER Z.
Proof.
  split; unfold key_eqb, key_eq_Z; intros *; rewrite !Z.eqb_eq; congruence.
Qed.

(** ** Sums over keyed containers *)

Section sums.
Context {K V : Type} `{KeyEq K} (f : V → Z).
Implicit Types (m : umap K V).

Definition sumOf m : Z := sumZ ((λ e, f e.2) <$> m).

Lemma sumOf_cons k v m : sumOf ((k, v) :: m) = f v + sumOf m.
Proof. done. Qed.

Lemma sumOf_app m1 m2 : sumOf (m1 ++ m2) = sumOf m1 + sumOf m2.
Proof. unfold sumOf. by rewrite fmap_app, sumZ_app. Qed.

Lemma sumOf_set k v m : sumOf (um_set k v m) = sumOf m + f v - from_option f 0 (um_find k m).
Proof.
  induction m as [|[k' v'] m IH]; cbn [um_set um_find].
  - rewrite sumOf_cons. cbn. lia.
  - destruct (key_eqb k k'); rewrite !sumOf_cons; [cbn; lia|]. rewrite IH. lia.
Qed.

Lemma sumOf_find_le k m : (∀ e, e ∈ m → 0 <= f e.2) → 0 <= from_option f 0 (um_find k m) <= sumOf m.
Proof.
  induction m as [|[k' v'] m IH]; intros Hm; [cbn; lia|]. rewrite sumOf_cons. cbn [um_find].
  assert (0 <= f v') by (apply (Hm (k', v')); set_solver).
  assert (0 <= from_option f 0 (um_find k m) <= sumOf m) by (apply IH; set_solver).
  destruct (key_eqb k k'); cbn; lia.
Qed.
End sums.

(** ** Fresh keys *)

Section fresh.
Context {K V : Type} `{KeyPER K}.
Implicit Types (m : umap K V).

Lemma um_set_fresh k v m : um_find k m = None → um_set k v m = m ++ [(k, v)].
Proof.
  induction m as [|[k' v'] m IH]; [done|]. cbn [um_find um_set].
  destruct (key_eqb k k'); [done|]. intros Hf. cbn. by rewrite IH.
Qed.

Lemma um_wf_app_fresh m1 k v m2 : um_wf (m1 ++ (k, v) :: m2) → um_find k m1 = None.
Proof.
  induction m1 as [|[k' v'] m1 IH]; [done|]. cbn [app um_wf um_find]. intros [Hf Hwf].
  destruct (key_eqb k k') eqn:E; [|by apply IH]. exfalso.
  assert (um_find k' (m1 ++ (k, v) :: m2) ≠ None) as Hn; [|done].
  clear -E H0. induction m1 as [|[k1 v1] m1 IH]; cbn [app um_find].
  - by rewrite key_eqb_comm, E.
  - by destruct (key_eqb k' k1).
Qed.
End fresh.

Lemma um_get_option {K V} `{KeyEq K} (d : V) (f : V → Z) k (m : umap K V) :
  f d = 0 → f (um_get d k m) = from_option f 0 (um_find k m).
Proof. intros Hd. unfold um_get. by destruct (um_find k m). Qed.

Lemma um_set_elem_of {K V} `{KeyEq K} k (v : V) (m : umap K V) e :
  e ∈ um_set k v m → e ∈ m ∨ e.2 = v.
Proof.
  induction m as [|[k' v'] m IH]; cbn [um_set].
  - intros ->%list_elem_of_singleton. by right.
  - destruct (key_eqb k k'); intros [->|Hin]%elem_of_cons; cbn; try (left; set_solver); try (by right).
    destruct (IH Hin); [left; set_solver|by right].
Qed.

Lemma um_get_elem {K V} `{KeyEq K} (d : V) k (m : umap K V) :
  um_get d k m = d ∨ ∃ e, e ∈ m ∧ e.2 = um_get d k m.
Proof.
  unfold um_get. induction m as [|[k' v] m IH]; cbn [um_find]; [by left|].
  destruct (key_eqb k k'); cbn [default].
  - right. exists (k', v). set_solver.
  - destruct IH as [?|(e & ? & ?)]; [by left|right; exists e; set_solver].
Qed.

(** ** Maps over the values *)

Section maps.
Context {K V W : Type} `{KeyEq K} (f : V → W).
Implicit Types (m : umap K V).

Definition um_map m : umap K W := (λ e, (e.1, f e.2)) <$> m.

Lemma um_map_find k m : um_find k (um_map m) = f <$> um_find k m.
Proof using. induction m as [|[k' v] m IH]; [done|]. cbn. by destruct (key_eqb k k'). Qed.

Lemma um_map_set k v m : um_map (um_set k v m) = um_set k (f v) (um_map m).
Proof using. induction m as [|[k' v'] m IH]; [done|]. cbn. destruct (key_eqb k k'); cbn; [done|]. f_equal. exact IH. Qed.

Lemma um_map_erase k m : um_map (um_erase k m) = um_erase k (um_map m).
Proof using.
  unfold um_erase. induction m as [|[k' v'] m IH]; [done|]. cbn.
  destruct (key_eqb k k'); cbn; [done|]. f_equal. exact IH.
Qed.

Lemma um_map_size m : length (um_map m) = length m.
Proof using. unfold um_map. by rewrite length_fmap. Qed.

End maps.

(** ** Positions and elements *)

Section splits.
Context {K V : Type} `{KeyPER K}.
Implicit Types (m : umap K V).

Lemma um_find_middle m1 k v m2 : k =k k → um_find k m1 = None → um_find k (m1 ++ (k, v) :: m2) = Some v.
Proof using.
  intros E. induction m1 as [|[k' v'] m1 IH]; cbn; [by rewrite E|]. by destruct (key_eqb k k').
Qed.

Lemma um_set_middle m1 k v v' m2 :
  k =k k → um_find k m1 = None → um_set k v' (m1 ++ (k, v) :: m2) = m1 ++ (k, v') :: m2.
Proof using.
  intros E. induction m1 as [|[k1 v1] m1 IH]; cbn; [by rewrite E|].
  destruct (key_eqb k k1); [done|]. intros Hf. by rewrite IH.
Qed.

Lemma um_wf_map {W} (f : V → W) m : um_wf m → um_wf (um_map f m).
Proof using.
  induction m as [|[k v] m IH]; [done|]. cbn. intros [H1 H2]. split; [|by apply IH].
  change ((λ e, (e.1, f e.2)) <$> m) with (um_map f m). by rewrite um_map_find, H1.
Qed.

Lemma um_find_app k m1 m2 :
  um_find k (m1 ++ m2) = match um_find k m1 with Some v => Some v | None => um_find k m2 end.
Proof using. induction m1 as [|[k1 v1] m1 IH]; cbn; [done|]. by destruct (key_eqb k k1). Qed.

Lemma um_wf_replace m1 k v v' m2 : um_wf (m1 ++ (k, v) :: m2) → um_wf (m1 ++ (k, v') :: m2).
Proof using.
  induction m1 as [|[k1 v1] m1 IH]; [done|]. cbn. intros [Hf Hwf]. split; [|by apply IH].
  rewrite um_find_app in *. destruct (um_find k1 m1); [done|]. cbn in *. by destruct (key_eqb k1 k).
Qed.

(** The entries after an insertion are the old ones and the new one. *)
Lemma um_set_Forall (P : K * V → Prop) k v m :
  P (k, v) → (∀ k' v', P (k', v') → P (k', v)) → Forall P m → Forall P (um_set k v m).
Proof using.
  intros Hk Hk'. induction 1 as [|[k1 v1] m H1 H2 IH]; cbn.
  - by apply Forall_cons_2; [|apply Forall_nil_2].
  - destruct (key_eqb k k1) eqn:E; apply Forall_cons_2; try done. by eapply Hk'.
Qed.

Lemma um_erase_fresh k m : um_find k m = None → um_erase k m = m.
Proof using.
  unfold um_erase. induction m as [|[k' v] m IH]; [done|]. cbn.
  destruct (key_eqb k k'); [done|]. cbn. intros Hf. by rewrite IH.
Qed.

Lemma um_erase_set k v v' m : um_find k m = Some v → um_erase k (um_set k v' m) = um_erase k m.
Proof using.
  unfold um_erase. induction m as [|[k1 v1] m IH]; [done|]. cbn.
  destruct (key_eqb k k1) eqn:E; cbn; rewrite E; cbn; [done|]. intros Hf. by rewrite IH.
Qed.

Lemma um_erase_Forall (P : K * V → Prop) k m : Forall P m → Forall P (um_erase k m).
Proof using.
  unfold um_erase. induction 1 as [|[k1 v1] m H1 H2 IH]; cbn; [done|].
  destruct (key_eqb k k1); cbn; [done|]. by apply Forall_cons_2.
Qed.

Lemma um_find_Forall (P : K * V → Prop) k v m :
  um_find k m = Some v → Forall P m → ∃ k', P (k', v).
Proof using.
  intros Hf HP. induction HP as [|[k1 v1] m H1 H2 IH]; [done|]. cbn in Hf.
  destruct (key_eqb k k1); [|by apply IH]. injection Hf as ->. by exists k1.
Qed.

Lemma um_get_set (d v : V) k k' m :
  um_get d k (um_set k' v m) = if key_eqb k' k then v else um_get d k m.
Proof using H0.
  unfold um_get. destruct (key_eqb k' k) eqn:E.
  - by rewrite (um_find_set_eq k' k v m E).
  - by rewrite (um_find_set_ne k' k v m E).
Qed.

Lemma um_get_cons (d v : V) k k' m :
  um_get d k ((k', v) :: m) = if key_eqb k k' then v else um_get d k m.
Proof using. unfold um_get. cbn [um_find]. by destruct (key_eqb k k'). Qed.

(** The number of different keys bounds the number of entries. *)
Lemma keys_bound m : ∀ (l : list K),
  um_wf m → Forall (λ e, us_mem e.1 l = true) m → (length m <= length l)%nat.
Proof using H0.
  induction m as [|[key tr] m IH]; intros l Hwf Hall; [cbn; lia|].
  destruct Hwf as [Hf Hwf]. apply Forall_cons_1 in Hall as [H1 Hall]. cbn [fst] in H1.
  unfold us_mem in H1. apply existsb_elem_of in H1 as (x & Hx & Ex).
  apply list_elem_of_split in Hx as (l1 & l2 & ->).
  assert (length m <= length (l1 ++ l2))%nat.
  { apply IH; [done|]. rewrite Forall_forall in Hall |- *. intros [key' tr'] Hin. specialize (Hall _ Hin).
    cbn [fst] in *. unfold us_mem in *. rewrite existsb_app in *. cbn in Hall.
    apply orb_true_iff in Hall as [H'|H']; [by rewrite H'|]. apply orb_true_iff in H' as [H'|H'];
      [|by rewrite H', orb_true_r].
    exfalso. rewrite um_find_None in Hf. specialize (Hf _ _ Hin).
    rewrite (key_eqb_trans _ x key') in Hf; [done|done|by apply key_eqb_sym]. }
  rewrite length_app in *. cbn. lia.
Qed.

End splits.
