(* ===== verification/FieldValue.v ===== *)
(** * Field values (FieldValue.h, FieldValue.cpp)

    The encoding of a position in an atom into one 32-bit word, the bit-mask matchers
    derived from a [FieldMatcher], and the tagged union [Value] with its comparison and
    arithmetic operators. *)
From Stdlib Require Import SpecFloat.
From S2P Require Import Prelude UMap.

(** ** Field: the encoded path of a leaf *)

Definition kMaxLogDepth : Z := 2.
Definition kLastBitMask : Z := 0x80.
Definition kClearLastBitDeco : Z := 0x7f.
Definition kClearAllPositionMatcherMask : Z := wrap32 0xffff00ff.

(** [pos\[i\]] of an [int32_t\[\]] argument. *)
Definition arr (a : list Z) (i : nat) : Z := default 0 (a !! i).

Definition getEncodedField (pos : list Z) (depth : Z) (includeDepth : bool) : Z :=
  let field :=
    fold_left
      (λ field i,
        let shiftBits := 8 * (kMaxLogDepth - Z.of_nat i) in
        Z.lor field (wrap32 (Z.shiftl (arr pos i) shiftBits)))
      (seq 0 (Z.to_nat (depth + 1))) 0 in
  if includeDepth then Z.lor field (wrap32 (Z.shiftl depth 24)) else field.

Definition encodeMatcherMask (mask : list Z) (depth : Z) : Z :=
  wrap32 (Z.lor (getEncodedField mask depth false) 0xff000000).

Definition getSimpleField (field : Z) : Z := wrap32 (Z.shiftl (wrap32 field) (8 * 2)).

Record Field := mkField { mTag : Z; mField : Z }.

Definition Field_of_pos (tag : Z) (pos : list Z) (depth : Z) : Field :=
  mkField tag (getEncodedField pos depth true).

Definition setField (f : Field) (field : Z) : Field := mkField (mTag f) field.
Definition setTag (f : Field) (tag : Z) : Field := mkField tag (mField f).

Definition decorateLastPos (f : Field) (depth : Z) : Field :=
  let mask := wrap32 (Z.shiftl kLastBitMask (8 * (kMaxLogDepth - depth))) in
  mkField (mTag f) (Z.lor (mField f) mask).

Definition getDepth (f : Field) : Z := Z.shiftr (mField f) 24.

Definition getPath (f : Field) (depth : Z) : Z :=
  if (2 <? depth) || (depth <? 0) then 0
  else
    let field := Z.land (mField f) 0x00ffffff in
    Z.land field (Z.shiftl (-1) (8 * (kMaxLogDepth - depth))).

Definition getPrefix (f : Field) (depth : Z) : Z :=
  if depth =? 0 then 0 else getPath f (depth - 1).

(** [getRawPosAtDepth] and [getRawMaskAtDepth] are the same code on [mField] and [mMask]. *)
Definition rawAtDepth (word depth : Z) : Z :=
  let field := Z.land word 0x00ffffff in
  let shift := 8 * (kMaxLogDepth - depth) in
  let mask := Z.shiftl 0xff shift in
  Z.shiftr (Z.land field mask) shift.

Definition getRawPosAtDepth (f : Field) (depth : Z) : Z := rawAtDepth (mField f) depth.

Definition getPosAtDepth (f : Field) (depth : Z) : Z :=
  Z.land (getRawPosAtDepth f depth) kClearLastBitDeco.

Definition isLastPos (f : Field) (depth : Z) : bool :=
  let field := Z.land (mField f) 0x00ffffff in
  let mask := Z.shiftl kLastBitMask (8 * (kMaxLogDepth - depth)) in
  negb (Z.land field mask =? 0).

Definition isAnyPosMatcher (f : Field) (depth : Z) : bool :=
  (depth <=? getDepth f) && (getRawPosAtDepth f depth =? 0).

Definition isLastPosMatcher (f : Field) (depth : Z) : bool :=
  (depth <=? getDepth f) && (getRawPosAtDepth f depth =? kLastBitMask).

Definition Field_eqb (f g : Field) : bool := (mTag f =? mTag g) && (mField f =? mField g).

Definition Field_neqb (f g : Field) : bool :=
  negb (mTag f =? mTag g) || negb (mField f =? mField g).

Definition Field_ltb (f g : Field) : bool :=
  if negb (mTag f =? mTag g) then mTag f <? mTag g
  else if negb (mField f =? mField g) then mField f <? mField g
  else false.

(** ** Matcher: a field and a bit mask *)

Record Matcher := mkMatcher { mMatcher : Field; mMask : Z }.

Definition getRawMaskAtDepth (m : Matcher) (depth : Z) : Z := rawAtDepth (mMask m) depth.

Definition hasAllPositionMatcher (m : Matcher) : bool :=
  (getDepth (mMatcher m) =? 2) && (getRawMaskAtDepth m 1 =? 0x7f).

(** The [int\* prefix] out-parameter is the value of [Some]. *)
Definition hasAnyPositionMatcher (m : Matcher) : option Z :=
  if (getDepth (mMatcher m) =? 2) && (getRawPosAtDepth (mMatcher m) 1 =? 0)
  then Some (getPrefix (mMatcher m) 1) else None.

Definition Matcher_eqb (a b : Matcher) : bool :=
  Field_eqb (mMatcher a) (mMatcher b) && (mMask a =? mMask b).

Definition Matcher_neqb (a b : Matcher) : bool :=
  Field_neqb (mMatcher a) (mMatcher b) || negb (mMask a =? mMask b).

Definition getSimpleMatcher (tag field : Z) : Matcher :=
  mkMatcher (mkField tag (getSimpleField field)) (wrap32 0xff7f0000).

Definition getFirstUidMatcher (atomId : Z) : Matcher :=
  mkMatcher (Field_of_pos atomId [1; 1; 1] 2) (wrap32 0xff7f7f7f).

(** [Field::matches] *)
Definition matches (f : Field) (m : Matcher) : bool :=
  if negb (mTag f =? mTag (mMatcher m)) then false
  else if Z.land (mField f) (mMask m) =? mField (mMatcher m) then true
  else if hasAllPositionMatcher m
          && (Z.land (mField f) (Z.land (mMask m) kClearAllPositionMatcherMask)
              =? mField (mMatcher m))
  then true
  else false.

(** ** FieldMatcher messages of the configuration (statsd_config.proto) *)

Inductive Position := POSITION_UNKNOWN | FIRST | LAST | ANY | ALL.

#[export] Instance Position_eq_dec : EqDecision Position.
Proof. solve_decision. Defined.

Inductive FieldMatcher :=
  mkFieldMatcher { fm_field : Z; fm_position : option Position; fm_child : list FieldMatcher }.

(** The two scratch arrays and the output vector of the recursion. *)
Record TranslateState := mkTranslate {
  ts_pos : list Z; ts_mask : list Z; ts_output : list Matcher
}.

Definition setAt (st : TranslateState) (depth p m : Z) : TranslateState :=
  mkTranslate (<[Z.to_nat depth := p]> (ts_pos st)) (<[Z.to_nat depth := m]> (ts_mask st))
    (ts_output st).

Definition positionCode (p : Position) : Z * Z :=
  match p with
  | ALL => (0x00, 0x7f)
  | ANY => (0, 0)
  | FIRST => (1, 0x7f)
  | LAST => (0x80, 0x80)
  | POSITION_UNKNOWN => (0, 0)
  end.

Fixpoint translateFieldMatcher_rec (tag : Z) (matcher : FieldMatcher) (depth : Z)
    (st : TranslateState) {struct matcher} : TranslateState :=
  let finish st depth :=
    match fm_child matcher with
    | [] =>
        mkTranslate (ts_pos st) (ts_mask st)
          (ts_output st ++
             [mkMatcher (Field_of_pos tag (ts_pos st) depth) (encodeMatcherMask (ts_mask st) depth)])
    | _ =>
        (fix go cs st :=
           match cs with
           | [] => st
           | child :: cs' => go cs' (translateFieldMatcher_rec tag child (depth + 1) st)
           end) (fm_child matcher) st
    end in
  if kMaxLogDepth <? depth then st
  else
    let st := setAt st depth (fm_field matcher) 0x7f in
    match fm_position matcher with
    | Some p =>
        let depth := depth + 1 in
        if 2 <? depth then st
        else finish (setAt st depth (positionCode p).1 (positionCode p).2) depth
    | None => finish st depth
    end.

Definition translateFieldMatcher (matcher : FieldMatcher) : list Matcher :=
  ts_output
    (fold_left (λ st child, translateFieldMatcher_rec (fm_field matcher) child 0 st)
       (fm_child matcher) (mkTranslate [1; 1; 1] [0x7f; 0x7f; 0x7f] [])).

Fixpoint HasPositionANY (matcher : FieldMatcher) : bool :=
  match fm_position matcher with
  | Some ANY => true
  | _ =>
      (fix go cs := match cs with [] => false | c :: cs' => HasPositionANY c || go cs' end)
        (fm_child matcher)
  end.

Fixpoint HasPositionALL (matcher : FieldMatcher) : bool :=
  match fm_position matcher with
  | Some ALL => true
  | _ =>
      (fix go cs := match cs with [] => false | c :: cs' => HasPositionALL c || go cs' end)
        (fm_child matcher)
  end.

Definition equalDimensions (dimension_a dimension_b : list Matcher) : bool :=
  (fix go (a b : list Matcher) (eq : bool) {struct a} : bool :=
     match a, b with
     | x :: a', y :: b' => if eq then go a' b' (if Matcher_neqb y x then false else eq) else eq
     | _, _ => eq
     end) dimension_a dimension_b
    (Z.of_nat (length dimension_a) =? Z.of_nat (length dimension_b)).

Definition subsetDimensions (dimension_a dimension_b : list Matcher) : bool :=
  if Z.of_nat (length dimension_b) <? Z.of_nat (length dimension_a) then false
  else forallb (λ a, existsb (λ b, Matcher_eqb a b) dimension_b) dimension_a.

(** ** Value: the tagged union *)

Inductive Value :=
  | VUNKNOWN
  | VINT (int_value : Z)
  | VLONG (long_value : Z)
  | VFLOAT (float_value : spec_float)
  | VDOUBLE (double_value : spec_float)
  | VSTRING (str_value : string)
  | VSTORAGE (storage_value : list Z).

Inductive Type_ := UNKNOWN | INT | LONG | FLOAT | DOUBLE | STRING | STORAGE.

#[export] Instance Type_eq_dec : EqDecision Type_.
Proof. solve_decision. Defined.

Definition getType (v : Value) : Type_ :=
  match v with
  | VUNKNOWN => UNKNOWN | VINT _ => INT | VLONG _ => LONG | VFLOAT _ => FLOAT
  | VDOUBLE _ => DOUBLE | VSTRING _ => STRING | VSTORAGE _ => STORAGE
  end.

(** The numeric value of an enumerator of [Type]. *)
Definition type_ord (t : Type_) : Z :=
  match t with
  | UNKNOWN => 0 | INT => 1 | LONG => 2 | FLOAT => 3 | DOUBLE => 4 | STRING => 5 | STORAGE => 6
  end.

(** IEEE 754 single and double precision of the [float] and [double] types. *)
Definition f32_prec := 24.
Definition f32_emax := 128.
Definition f64_prec := 53.
Definition f64_emax := 1024.

(** [std::numeric_limits<float>::epsilon()] is 2^-23, the one of [double] 2^-52. *)
Definition f32_epsilon : spec_float := S754_finite false (2 ^ 23)%positive (-46).
Definition f64_epsilon : spec_float := S754_finite false (2 ^ 52)%positive (-104).

(** The bytes of a float in memory, for reads of the union through another member. *)
Definition sf_bits (mbits ebias : Z) (f : spec_float) : Z :=
  let sign (s : bool) := if s then 2 ^ (mbits + (if mbits =? 23 then 8 else 11)) else 0 in
  let expmask := Z.shiftl (if mbits =? 23 then 0xff else 0x7ff) mbits in
  match f with
  | S754_zero s => sign s
  | S754_infinity s => sign s + expmask
  | S754_nan => expmask + 2 ^ (mbits - 1)
  | S754_finite s m e =>
      sign s + (if Zpos m <? 2 ^ mbits then Zpos m
                else Z.shiftl (e + ebias) mbits + (Zpos m - 2 ^ mbits))
  end.

(** A read of the union member [int_value]: the low 32 bits of whatever member was
    written; [None] when no numeric member was ever written. *)
Definition int_value (v : Value) : option Z :=
  match v with
  | VINT z => Some z
  | VLONG z => Some (wrap32 z)
  | VFLOAT f => Some (wrap32 (sf_bits 23 150 f))
  | VDOUBLE f => Some (wrap32 (sf_bits 52 1075 f))
  | _ => None
  end.

Fixpoint list_ltb (a b : list Z) : bool :=
  match a, b with
  | [], [] => false
  | [], _ :: _ => true
  | _ :: _, [] => false
  | x :: a', y :: b' => if x <? y then true else if y <? x then false else list_ltb a' b'
  end.

Definition Value_isZero (v : Value) : bool :=
  match v with
  | VINT z => z =? 0
  | VLONG z => z =? 0
  | VFLOAT f => SFleb (SFabs f) f32_epsilon
  | VDOUBLE f => SFleb (SFabs f) f64_epsilon
  | VSTRING s => (String.length s =? 0)%nat
  | VSTORAGE b => (length b =? 0)%nat
  | VUNKNOWN => false
  end.

(** [operator==] *)
Definition Value_eqb (a b : Value) : bool :=
  match a, b with
  | VINT x, VINT y => x =? y
  | VLONG x, VLONG y => x =? y
  | VFLOAT x, VFLOAT y => SFeqb x y
  | VDOUBLE x, VDOUBLE y => SFeqb x y
  | VSTRING x, VSTRING y => String.eqb x y
  | VSTORAGE x, VSTORAGE y => bool_decide (x = y)
  | _, _ => false
  end.

(** [operator!=] *)
Definition Value_neqb (a b : Value) : bool :=
  match a, b with
  | VINT x, VINT y => negb (x =? y)
  | VLONG x, VLONG y => negb (x =? y)
  | VFLOAT x, VFLOAT y => negb (SFeqb x y)
  | VDOUBLE x, VDOUBLE y => negb (SFeqb x y)
  | VSTRING x, VSTRING y => negb (String.eqb x y)
  | VSTORAGE x, VSTORAGE y => negb (bool_decide (x = y))
  | VUNKNOWN, VUNKNOWN => false
  | _, _ => true
  end.

(** [operator<] *)
Definition Value_ltb (a b : Value) : bool :=
  match a, b with
  | VINT x, VINT y => x <? y
  | VLONG x, VLONG y => x <? y
  | VFLOAT x, VFLOAT y => SFltb x y
  | VDOUBLE x, VDOUBLE y => SFltb x y
  | VSTRING x, VSTRING y => String.ltb x y
  | VSTORAGE x, VSTORAGE y => list_ltb x y
  | _, _ => type_ord (getType a) <? type_ord (getType b)
  end.

(** [operator>] *)
Definition Value_gtb (a b : Value) : bool :=
  match a, b with
  | VINT x, VINT y => y <? x
  | VLONG x, VLONG y => y <? x
  | VFLOAT x, VFLOAT y => SFltb y x
  | VDOUBLE x, VDOUBLE y => SFltb y x
  | VSTRING x, VSTRING y => String.ltb y x
  | VSTORAGE x, VSTORAGE y => list_ltb y x
  | _, _ => type_ord (getType b) <? type_ord (getType a)
  end.

(** [operator>=]; two [UNKNOWN] values reach the [default] branch, which is [false]. *)
Definition Value_geb (a b : Value) : bool :=
  match a, b with
  | VINT x, VINT y => y <=? x
  | VLONG x, VLONG y => y <=? x
  | VFLOAT x, VFLOAT y => SFleb y x
  | VDOUBLE x, VDOUBLE y => SFleb y x
  | VSTRING x, VSTRING y => negb (String.ltb x y)
  | VSTORAGE x, VSTORAGE y => negb (list_ltb x y)
  | VUNKNOWN, VUNKNOWN => false
  | _, _ => type_ord (getType b) <=? type_ord (getType a)
  end.

(** [operator-] *)
Definition Value_minus (a b : Value) : Value :=
  match a, b with
  | VINT x, VINT y => VINT (wrap32 (x - y))
  | VLONG x, VLONG y => VLONG (wrap64 (x - y))
  | VFLOAT x, VFLOAT y => VFLOAT (SFsub f32_prec f32_emax x y)
  | VDOUBLE x, VDOUBLE y => VDOUBLE (SFsub f64_prec f64_emax x y)
  | _, _ => VUNKNOWN
  end.

(** [operator+=]: the new value of the left operand. *)
Definition Value_plus (a b : Value) : Value :=
  match a, b with
  | VINT x, VINT y => VINT (wrap32 (x + y))
  | VLONG x, VLONG y => VLONG (wrap64 (x + y))
  | VFLOAT x, VFLOAT y => VFLOAT (SFadd f32_prec f32_emax x y)
  | VDOUBLE x, VDOUBLE y => VDOUBLE (SFadd f64_prec f64_emax x y)
  | _, _ => a
  end.

(** ** Annotations of a field value: one byte of flags *)

Definition NESTED_POS := 0.
Definition PRIMARY_POS := 1.
Definition EXCLUSIVE_POS := 2.
Definition UID_POS := 3.

(** [mBooleanBitmask &= ~(1 << pos); mBooleanBitmask |= (value << pos)] on a [uint8_t]. *)
Definition setBitmaskAtPos (mBooleanBitmask pos : Z) (value : bool) : Z :=
  let cleared := Z.land mBooleanBitmask (Z.lnot (Z.shiftl 1 pos)) mod 256 in
  Z.lor cleared (Z.shiftl (if value then 1 else 0) pos) mod 256.

Definition getValueFromBitmask (mBooleanBitmask pos : Z) : bool :=
  negb (Z.land (Z.shiftr mBooleanBitmask pos) 1 =? 0).

(** The constructor sets the nested flag. *)
Definition Annotations_new : Z := setBitmaskAtPos 0 NESTED_POS true.

Definition setNested (a : Z) (b : bool) := setBitmaskAtPos a NESTED_POS b.
Definition setPrimaryField (a : Z) (b : bool) := setBitmaskAtPos a PRIMARY_POS b.
Definition setExclusiveState (a : Z) (b : bool) := setBitmaskAtPos a EXCLUSIVE_POS b.
Definition setUidField (a : Z) (b : bool) := setBitmaskAtPos a UID_POS b.
Definition isNested (a : Z) := getValueFromBitmask a NESTED_POS.
Definition isPrimaryField (a : Z) := getValueFromBitmask a PRIMARY_POS.
Definition isExclusiveState (a : Z) := getValueFromBitmask a EXCLUSIVE_POS.
Definition isUidFieldA (a : Z) := getValueFromBitmask a UID_POS.

(** ** FieldValue *)

Record FieldValue := mkFieldValue { fv_field : Field; fv_value : Value; fv_annotations : Z }.

(** [FieldValue(field, value)]: default annotations. *)
Definition FieldValue_of (f : Field) (v : Value) : FieldValue := mkFieldValue f v Annotations_new.

Definition FieldValue_eqb (a b : FieldValue) : bool :=
  Field_eqb (fv_field a) (fv_field b) && Value_eqb (fv_value a) (fv_value b).

Definition FieldValue_neqb (a b : FieldValue) : bool :=
  Field_neqb (fv_field a) (fv_field b) || Value_neqb (fv_value a) (fv_value b).

Definition FieldValue_ltb (a b : FieldValue) : bool :=
  if Field_neqb (fv_field a) (fv_field b) then Field_ltb (fv_field a) (fv_field b)
  else if Value_neqb (fv_value a) (fv_value b) then Value_ltb (fv_value a) (fv_value b)
  else false.

Definition isAttributionUidField (field : Field) (value : Value) : bool :=
  let f := Z.land (mField field) 0xff007f in
  (f =? 0x10001) && bool_decide (getType value = INT).

Definition isUidField (fv : FieldValue) : bool := isUidFieldA (fv_annotations fv).

Definition getUidIfExists (fv : FieldValue) : option Z :=
  if isAttributionUidField (fv_field fv) (fv_value fv) || isUidField fv
  then int_value (fv_value fv) else Some (-1).
