(* ===== verification/FieldValueFacts.v ===== *)
(** * Facts about field encodings, matchers and values

    The byte layout of an encoded field, the meaning of every position selector of a
    [FieldMatcher], and the laws of the [Value] operators. *)
From Stdlib Require Import SpecFloat Ascii.
From S2P Require Import Prelude UMap FieldValue.

(** ** Byte layout *)

Definition byte (b : Z) : Prop := 0 <= b < 256.

(** The 32-bit word with the bytes [d], [a], [b], [c], most significant first; [d] is
    the signed top byte. *)
Definition pack (d a b c : Z) : Z := d * 2 ^ 24 + a * 2 ^ 16 + b * 2 ^ 8 + c.

Lemma div_mod_inj n x y : 0 < n → x / n = y / n → x mod n = y mod n → x = y.
Proof. intros ? H1 H2. rewrite (Z.div_mod x n), (Z.div_mod y n) by lia. congruence. Qed.

Lemma split_div n x y : 0 <= n → 0 <= y < 2 ^ n → (x * 2 ^ n + y) / 2 ^ n = x.
Proof.
  intros. assert (0 < 2 ^ n) by (apply Z.pow_pos_nonneg; lia).
  rewrite Z.div_add_l, Z.div_small by lia. lia.
Qed.

Lemma split_mod n x y : 0 <= n → 0 <= y < 2 ^ n → (x * 2 ^ n + y) mod 2 ^ n = y.
Proof.
  intros. assert (0 < 2 ^ n) by (apply Z.pow_pos_nonneg; lia).
  rewrite Z.add_comm, Z.mod_add, Z.mod_small by lia. lia.
Qed.

Lemma land_div_pow2 n x y : 0 <= n → Z.land x y / 2 ^ n = Z.land (x / 2 ^ n) (y / 2 ^ n).
Proof. intros. rewrite <- !Z.shiftr_div_pow2 by lia. apply Z.shiftr_land. Qed.

Lemma lor_div_pow2 n x y : 0 <= n → Z.lor x y / 2 ^ n = Z.lor (x / 2 ^ n) (y / 2 ^ n).
Proof. intros. rewrite <- !Z.shiftr_div_pow2 by lia. apply Z.shiftr_lor. Qed.

Lemma land_mod_pow2 n x y :
  0 <= n → Z.land x y mod 2 ^ n = Z.land (x mod 2 ^ n) (y mod 2 ^ n).
Proof.
  intros. rewrite <- !Z.land_ones by lia. apply Z.bits_inj'. intros i ?.
  rewrite !Z.land_spec. destruct (Z.testbit (Z.ones n) i), (Z.testbit x i), (Z.testbit y i); done.
Qed.

Lemma lor_mod_pow2 n x y :
  0 <= n → Z.lor x y mod 2 ^ n = Z.lor (x mod 2 ^ n) (y mod 2 ^ n).
Proof. intros. rewrite <- !Z.land_ones by lia. apply Z.land_lor_distr_l. Qed.

Section combine.
Variables (n x y x' y' : Z).
Hypotheses (Hn : 0 <= n) (Hy : 0 <= y < 2 ^ n) (Hy' : 0 <= y' < 2 ^ n).

Lemma land_combine :
  Z.land (x * 2 ^ n + y) (x' * 2 ^ n + y') = Z.land x x' * 2 ^ n + Z.land y y'.
Proof using Hn Hy Hy'.
  assert (0 < 2 ^ n) by (apply Z.pow_pos_nonneg; lia).
  assert (0 <= Z.land y y' < 2 ^ n).
  { rewrite <- (Z.mod_small y (2 ^ n)), <- (Z.mod_small y' (2 ^ n)) by lia.
    rewrite <- land_mod_pow2 by lia. apply Z.mod_pos_bound. lia. }
  apply (div_mod_inj (2 ^ n)); [lia| |].
  - rewrite land_div_pow2, !split_div by lia. done.
  - rewrite land_mod_pow2, !split_mod by lia. done.
Qed.

Lemma lor_combine :
  Z.lor (x * 2 ^ n + y) (x' * 2 ^ n + y') = Z.lor x x' * 2 ^ n + Z.lor y y'.
Proof using Hn Hy Hy'.
  assert (0 < 2 ^ n) by (apply Z.pow_pos_nonneg; lia).
  assert (0 <= Z.lor y y' < 2 ^ n).
  { rewrite <- (Z.mod_small y (2 ^ n)), <- (Z.mod_small y' (2 ^ n)) by lia.
    rewrite <- lor_mod_pow2 by lia. apply Z.mod_pos_bound. lia. }
  apply (div_mod_inj (2 ^ n)); [lia| |].
  - rewrite lor_div_pow2, !split_div by lia. done.
  - rewrite lor_mod_pow2, !split_mod by lia. done.
Qed.
End combine.

Lemma land_byte a b : byte a → byte b → byte (Z.land a b).
Proof.
  unfold byte. change 256 with (2 ^ 8). intros.
  rewrite <- (Z.mod_small a (2 ^ 8)), <- (Z.mod_small b (2 ^ 8)), <- land_mod_pow2 by lia.
  apply Z.mod_pos_bound. lia.
Qed.

Lemma lor_byte a b : byte a → byte b → byte (Z.lor a b).
Proof.
  unfold byte. change 256 with (2 ^ 8). intros.
  rewrite <- (Z.mod_small a (2 ^ 8)), <- (Z.mod_small b (2 ^ 8)), <- lor_mod_pow2 by lia.
  apply Z.mod_pos_bound. lia.
Qed.

Lemma pack_horner d a b c : pack d a b c = ((d * 2 ^ 8 + a) * 2 ^ 8 + b) * 2 ^ 8 + c.
Proof. unfold pack. lia. Qed.

Section pack_ops.
Variables (d a b c d' a' b' c' : Z).
Hypotheses (Ha : byte a) (Hb : byte b) (Hc : byte c) (Ha' : byte a') (Hb' : byte b')
  (Hc' : byte c').

Lemma land_pack :
  Z.land (pack d a b c) (pack d' a' b' c')
  = pack (Z.land d d') (Z.land a a') (Z.land b b') (Z.land c c').
Proof using Ha Hb Hc Ha' Hb' Hc'.
  unfold byte in *. rewrite !pack_horner. rewrite !land_combine by lia. done.
Qed.

Lemma lor_pack :
  Z.lor (pack d a b c) (pack d' a' b' c')
  = pack (Z.lor d d') (Z.lor a a') (Z.lor b b') (Z.lor c c').
Proof using Ha Hb Hc Ha' Hb' Hc'.
  unfold byte in *. rewrite !pack_horner. rewrite !lor_combine by lia. done.
Qed.

Lemma pack_inj : pack d a b c = pack d' a' b' c' ↔ d = d' ∧ a = a' ∧ b = b' ∧ c = c'.
Proof using Ha Hb Hc Ha' Hb' Hc'. unfold pack, byte in *. lia. Qed.
End pack_ops.

Lemma pack_0 : pack 0 0 0 0 = 0.
Proof. done. Qed.

Lemma byte_0 : byte 0.
Proof. unfold byte. lia. Qed.

#[export] Hint Resolve byte_0 land_byte lor_byte : statsd.
#[export] Hint Extern 1 (byte _) => (unfold byte in *; lia) : statsd.

(** Decides a fact about all pairs of bytes below the given bounds by evaluation. *)
Definition forall_below (n : Z) (p : Z → bool) : bool :=
  forallb p (Z.of_nat <$> seq 0 (Z.to_nat n)).

Lemma forall_below_spec n p z : forall_below n p = true → 0 <= z < n → p z = true.
Proof.
  unfold forall_below. rewrite forallb_elem_of. intros H ?. apply H.
  apply list_elem_of_fmap. exists (Z.to_nat z). split; [lia|].
  apply elem_of_seq. lia.
Qed.

(** ** Encoded fields *)

Definition upto (depth i x : Z) : Z := if i <=? depth then x else 0.

Lemma shift_pack a : byte a →
  wrap32 (Z.shiftl a 16) = pack 0 a 0 0 ∧ wrap32 (Z.shiftl a 8) = pack 0 0 a 0
  ∧ wrap32 (Z.shiftl a 0) = pack 0 0 0 a.
Proof.
  unfold byte. intros. rewrite !Z.shiftl_mul_pow2 by lia.
  rewrite !wrap32_id by (unfold int32; lia). unfold pack. lia.
Qed.

Lemma wrap_depth d : 0 <= d <= 2 → wrap32 (Z.shiftl d 24) = pack d 0 0 0.
Proof.
  intros. rewrite Z.shiftl_mul_pow2 by lia. rewrite wrap32_id by (unfold int32; lia).
  unfold pack. lia.
Qed.

Lemma getEncodedField_pack a b c depth (includeDepth : bool) :
  byte a → byte b → byte c → 0 <= depth <= 2 →
  getEncodedField [a; b; c] depth includeDepth
  = pack (if includeDepth then depth else 0) a (upto depth 1 b) (upto depth 2 c).
Proof.
  intros Ha Hb Hc Hd.
  destruct (shift_pack a Ha) as (E1 & _ & _), (shift_pack b Hb) as (_ & E2 & _),
    (shift_pack c Hc) as (_ & _ & E3).
  assert (depth = 0 ∨ depth = 1 ∨ depth = 2) as [-> | [-> | ->]] by lia;
    unfold getEncodedField;
    [change (seq 0 (Z.to_nat (0 + 1))) with [0%nat]
    |change (seq 0 (Z.to_nat (1 + 1))) with [0%nat; 1%nat]
    |change (seq 0 (Z.to_nat (2 + 1))) with [0%nat; 1%nat; 2%nat]];
    cbn -[Z.lor wrap32 Z.shiftl pack kMaxLogDepth Z.of_nat];
    change (8 * (kMaxLogDepth - Z.of_nat 0)) with 16;
    change (8 * (kMaxLogDepth - Z.of_nat 1)) with 8;
    change (8 * (kMaxLogDepth - Z.of_nat 2)) with 0;
    rewrite ?E1, ?E2, ?E3, ?wrap_depth by lia;
    rewrite Z.lor_0_l; destruct includeDepth;
    repeat rewrite lor_pack by auto 6 with statsd;
    rewrite ?Z.lor_0_l, ?Z.lor_0_r; done.
Qed.

Lemma word_below_pack d a b c : byte a → byte b → byte c →
  Z.land (pack d a b c) 0x00ffffff = pack 0 a b c.
Proof.
  intros. change 0x00ffffff with (pack 0 255 255 255). rewrite land_pack by auto with statsd.
  rewrite Z.land_0_r. change 255 with (Z.ones 8). rewrite !Z.land_ones by lia.
  unfold byte in *. by rewrite !Z.mod_small by lia.
Qed.

(** The byte at a depth. *)
Definition byteAt (depth a b c : Z) : Z := if depth =? 0 then a else if depth =? 1 then b else c.

Lemma land_255 a : byte a → Z.land a 255 = a.
Proof.
  intros. change 255 with (Z.ones 8). rewrite Z.land_ones by lia.
  apply Z.mod_small. unfold byte in *. lia.
Qed.

Lemma rawAtDepth_pack d a b c depth :
  byte a → byte b → byte c → 0 <= depth <= 2 →
  rawAtDepth (pack d a b c) depth = byteAt depth a b c.
Proof.
  intros. unfold rawAtDepth. rewrite word_below_pack by done.
  assert (depth = 0 ∨ depth = 1 ∨ depth = 2) as [-> | [-> | ->]] by lia;
    [change (Z.shiftl 255 (8 * (kMaxLogDepth - 0))) with (pack 0 255 0 0)
    |change (Z.shiftl 255 (8 * (kMaxLogDepth - 1))) with (pack 0 0 255 0)
    |change (Z.shiftl 255 (8 * (kMaxLogDepth - 2))) with (pack 0 0 0 255)];
    rewrite land_pack by auto with statsd; rewrite !Z.land_0_r, land_255 by done;
    unfold byteAt; cbn [Z.eqb Pos.eqb];
    rewrite Z.shiftr_div_pow2 by (unfold kMaxLogDepth; lia);
    unfold kMaxLogDepth, pack, byte in *;
    symmetry; apply Z.div_unique with 0; lia.
Qed.

Lemma getDepth_pack tag d a b c :
  byte a → byte b → byte c → getDepth (mkField tag (pack d a b c)) = d.
Proof.
  unfold getDepth, byte, pack. intros. cbn [mField]. rewrite Z.shiftr_div_pow2 by lia.
  symmetry. apply Z.div_unique with (a * 2 ^ 16 + b * 2 ^ 8 + c); lia.
Qed.

Lemma decorate_pack tag d a b c depth :
  byte a → byte b → byte c → 0 <= depth <= 2 →
  decorateLastPos (mkField tag (pack d a b c)) depth
  = mkField tag (pack d (if depth =? 0 then Z.lor a 0x80 else a)
      (if depth =? 1 then Z.lor b 0x80 else b) (if depth =? 2 then Z.lor c 0x80 else c)).
Proof.
  intros. unfold decorateLastPos. cbn [mTag mField]. f_equal.
  assert (depth = 0 ∨ depth = 1 ∨ depth = 2) as [-> | [-> | ->]] by lia;
    cbn [Z.eqb Pos.eqb];
    [change (wrap32 (Z.shiftl kLastBitMask (8 * (kMaxLogDepth - 0)))) with (pack 0 128 0 0)
    |change (wrap32 (Z.shiftl kLastBitMask (8 * (kMaxLogDepth - 1)))) with (pack 0 0 128 0)
    |change (wrap32 (Z.shiftl kLastBitMask (8 * (kMaxLogDepth - 2)))) with (pack 0 0 0 128)];
    rewrite lor_pack by auto with statsd; by rewrite !Z.lor_0_r.
Qed.

Lemma isLastPos_pack tag d a b c depth :
  byte a → byte b → byte c → 0 <= depth <= 2 →
  isLastPos (mkField tag (pack d a b c)) depth = negb (Z.land (byteAt depth a b c) 0x80 =? 0).
Proof.
  intros. unfold isLastPos. cbn [mField]. rewrite word_below_pack by done. f_equal.
  assert (depth = 0 ∨ depth = 1 ∨ depth = 2) as [-> | [-> | ->]] by lia;
    [change (Z.shiftl kLastBitMask (8 * (kMaxLogDepth - 0))) with (pack 0 128 0 0)
    |change (Z.shiftl kLastBitMask (8 * (kMaxLogDepth - 1))) with (pack 0 0 128 0)
    |change (Z.shiftl kLastBitMask (8 * (kMaxLogDepth - 2))) with (pack 0 0 0 128)];
    rewrite land_pack by auto with statsd; rewrite !Z.land_0_r; unfold byteAt; cbn [Z.eqb Pos.eqb];
    match goal with
    | |- context [Z.land ?x 128] =>
        let H := fresh in
        assert (byte (Z.land x 128)) as H by auto with statsd;
        unfold byte, pack in *; destruct (Z.eqb_spec (Z.land x 128) 0); lia
    end.
Qed.

(** A position byte with and without the last-element flag. *)
Lemma pos_byte_facts p : 0 <= p < 128 →
  Z.land p 0x7f = p ∧ Z.land (Z.lor p 0x80) 0x7f = p ∧ Z.land p 0x80 = 0
  ∧ Z.land (Z.lor p 0x80) 0x80 = 0x80.
Proof.
  intros Hp.
  enough ((Z.land p 0x7f =? p) && (Z.land (Z.lor p 0x80) 0x7f =? p)
          && (Z.land p 0x80 =? 0) && (Z.land (Z.lor p 0x80) 0x80 =? 0x80) = true)
    by (bool_to_prop; auto).
  revert p Hp. intros p. apply (forall_below_spec 128 (λ p,
    (Z.land p 0x7f =? p) && (Z.land (Z.lor p 0x80) 0x7f =? p)
    && (Z.land p 0x80 =? 0) && (Z.land (Z.lor p 0x80) 0x80 =? 0x80))).
  vm_compute. done.
Qed.

Lemma wrap32_pack_high a b c : byte a → byte b → byte c →
  wrap32 (pack 255 a b c) = pack (-1) a b c.
Proof.
  unfold wrap32, pack, byte. intros.
  replace (255 * 2 ^ 24 + a * 2 ^ 16 + b * 2 ^ 8 + c + 2 ^ 31)
    with (1 * 2 ^ 32 + (127 * 2 ^ 24 + a * 2 ^ 16 + b * 2 ^ 8 + c)) by lia.
  rewrite Z.add_comm, Z.mod_add, Z.mod_small; lia.
Qed.

Lemma upto_byte depth i x : byte x → byte (upto depth i x).
Proof. unfold upto. intros. destr_if; auto with statsd. Qed.
#[export] Hint Resolve upto_byte : statsd.

Lemma encodeMatcherMask_pack a b c depth :
  byte a → byte b → byte c → 0 <= depth <= 2 →
  encodeMatcherMask [a; b; c] depth = pack (-1) a (upto depth 1 b) (upto depth 2 c).
Proof.
  intros. unfold encodeMatcherMask. rewrite getEncodedField_pack by done.
  change 0xff000000 with (pack 255 0 0 0). rewrite lor_pack by auto with statsd.
  rewrite !Z.lor_0_r, Z.lor_0_l. apply wrap32_pack_high; auto with statsd.
Qed.

(** [Field::matches] byte by byte: the bytes of the field selected by the mask must be
    those of the matcher, except that the position byte of an ALL matcher is ignored. *)
Lemma matches_pack t d a b c t' d' a' b' c' ma mb mc :
  byte a → byte b → byte c → byte a' → byte b' → byte c' → byte ma → byte mb → byte mc →
  matches (mkField t (pack d a b c)) (mkMatcher (mkField t' (pack d' a' b' c')) (pack (-1) ma mb mc))
  = (t =? t') && (d =? d') && (Z.land a ma =? a') && (Z.land c mc =? c')
    && ((Z.land b mb =? b') || ((d' =? 2) && (mb =? 0x7f) && (b' =? 0))).
Proof.
  intros. unfold matches, hasAllPositionMatcher, getRawMaskAtDepth.
  cbn [mTag mField mMatcher mMask].
  change kClearAllPositionMatcherMask with (pack (-1) 255 0 255).
  rewrite getDepth_pack, rawAtDepth_pack by (auto with statsd; lia).
  rewrite !land_pack by auto with statsd.
  rewrite ?Z.land_0_r, !land_255, ?Z.land_diag, ?Z.land_m1_r, ?Z.land_0_r by done.
  assert (∀ x y, byte x → byte y →
            (pack d (Z.land a ma) x (Z.land c mc) =? pack d' a' y c')
            = (d =? d') && (Z.land a ma =? a') && (Z.land c mc =? c') && (x =? y)) as Hp.
  { intros x y Hx Hy. apply eq_true_iff_eq. rewrite Z.eqb_eq, !andb_true_iff, !Z.eqb_eq.
    rewrite pack_inj by auto with statsd. tauto. }
  rewrite !Hp by auto with statsd.
  change (byteAt 1 ma mb mc) with mb. rewrite (Z.eqb_sym 0 b').
  destruct (t =? t'), (d =? d'), (Z.land a ma =? a'), (Z.land c mc =? c'), (Z.land b mb =? b'),
    (d' =? 2), (mb =? 127), (b' =? 0); done.
Qed.

(** The encoded field of the attribution-node leaf [p2] of node [p1] of field [p0],
    with the last-element flags the parser sets. *)
Definition leafField (tag p0 p1 p2 : Z) (last1 last2 : bool) : Field :=
  let f := Field_of_pos tag [p0; p1; p2] 2 in
  let f := if last1 then decorateLastPos f 1 else f in
  if last2 then decorateLastPos f 2 else f.

Definition flagged (last : bool) (p : Z) : Z := if last then Z.lor p 0x80 else p.

Lemma flagged_byte last p : 0 <= p < 128 → byte (flagged last p).
Proof. unfold flagged. intros. destruct last; auto with statsd. Qed.
#[export] Hint Resolve flagged_byte : statsd.

Lemma leafField_pack tag p0 p1 p2 last1 last2 :
  0 <= p0 < 128 → 0 <= p1 < 128 → 0 <= p2 < 128 →
  leafField tag p0 p1 p2 last1 last2
  = mkField tag (pack 2 p0 (flagged last1 p1) (flagged last2 p2)).
Proof.
  intros. unfold leafField, Field_of_pos.
  rewrite getEncodedField_pack by (auto with statsd; lia).
  change (upto 2 1 p1) with p1. change (upto 2 2 p2) with p2.
  destruct last1, last2; cbn zeta iota;
    repeat (rewrite decorate_pack by (auto with statsd; lia); cbn [Z.eqb Pos.eqb]); done.
Qed.

Lemma flagged_pos last p : 0 <= p < 128 →
  Z.land (flagged last p) 0x7f = p ∧ Z.land (flagged last p) 0x80 = (if last then 0x80 else 0).
Proof.
  intros H. destruct (pos_byte_facts p H) as (? & ? & ? & ?). by destruct last.
Qed.

(** What each position selector means for the node position [p1]. *)
Definition selects (p : Position) (p1 : Z) (last1 : bool) : bool :=
  match p with
  | FIRST => p1 =? 1
  | LAST => last1
  | ANY | ALL | POSITION_UNKNOWN => true
  end.

(** The matcher for field [f0], position selector [p], sub-field [f2] of atom [tag]. *)
Definition nodeMatcher (tag f0 : Z) (p : Position) (f2 : Z) : FieldMatcher :=
  mkFieldMatcher tag None [mkFieldMatcher f0 (Some p) [mkFieldMatcher f2 None []]].

Lemma translate_nodeMatcher tag f0 p f2 :
  translateFieldMatcher (nodeMatcher tag f0 p f2)
  = [mkMatcher (Field_of_pos tag [f0; (positionCode p).1; f2] 2)
       (encodeMatcherMask [0x7f; (positionCode p).2; 0x7f] 2)].
Proof. done. Qed.

(** ** Properties *)

(** Encoding a path and decoding it gives the path back: the depth, the tag and each
    7-bit position up to the depth are recovered, no last-element flag is set, and setting
    the last-element flag at one level sets exactly that flag and leaves the depth and
    every decoded position unchanged. *)
Theorem field_encode_decode_roundtrip (tag p0 p1 p2 depth : Z) :
  0 <= p0 < 128 → 0 <= p1 < 128 → 0 <= p2 < 128 → 0 <= depth <= 2 →
  let f := Field_of_pos tag [p0; p1; p2] depth in
  getDepth f = depth
  ∧ ∀ i, 0 <= i <= depth →
      getPosAtDepth f i = byteAt i p0 p1 p2
      ∧ isLastPos f i = false
      ∧ isLastPos (decorateLastPos f i) i = true
      ∧ getDepth (decorateLastPos f i) = depth
      ∧ ∀ j, 0 <= j <= 2 →
          getPosAtDepth (decorateLastPos f i) j = getPosAtDepth f j
          ∧ (j ≠ i → isLastPos (decorateLastPos f i) j = isLastPos f j).
Proof.
  intros H0 H1 H2 Hd f.
  destruct (pos_byte_facts p0 H0) as (A1 & A2 & A3 & A4), (pos_byte_facts p1 H1) as (B1 & B2 & B3 & B4),
    (pos_byte_facts p2 H2) as (C1 & C2 & C3 & C4).
  assert (f = mkField tag (pack depth p0 (upto depth 1 p1) (upto depth 2 p2))) as ->.
  { unfold f, Field_of_pos. rewrite getEncodedField_pack by auto with statsd. done. }
  rewrite getDepth_pack by auto with statsd. split; [done|]. intros i Hi.
  unfold getPosAtDepth, getRawPosAtDepth, kClearLastBitDeco.
  rewrite decorate_pack by (auto with statsd; lia). cbn [mField].
  assert (i = 0 ∨ i = 1 ∨ i = 2) as [-> | [-> | ->]] by lia; cbn [Z.eqb Pos.eqb];
    rewrite !rawAtDepth_pack, !isLastPos_pack, getDepth_pack by (auto with statsd; lia);
    unfold byteAt; cbn [Z.eqb Pos.eqb];
    (assert (depth = 0 ∨ depth = 1 ∨ depth = 2) as [-> | [-> | ->]] by lia; try lia);
    unfold upto; cbn [Z.leb Z.compare Pos.compare Pos.compare_cont];
    rewrite ?A1, ?A3, ?A4, ?B1, ?B3, ?B4, ?C1, ?C3, ?C4;
    (split_and!; [done..|]); intros j Hj;
    rewrite !rawAtDepth_pack, !isLastPos_pack by (auto with statsd; lia);
    (assert (j = 0 ∨ j = 1 ∨ j = 2) as [-> | [-> | ->]] by lia);
    unfold byteAt; cbn [Z.eqb Pos.eqb]; rewrite ?A1, ?A2, ?B1, ?B2, ?C1, ?C2; (split; [done|]); intros; done || lia.
Qed.

Lemma field_encode_decode_roundtrip_witness :
  getDepth (Field_of_pos 10 [1; 5; 2] 2) = 2 ∧ getPosAtDepth (Field_of_pos 10 [1; 5; 2] 2) 1 = 5.
Proof.
  destruct (field_encode_decode_roundtrip 10 1 5 2 2) as [Hd H]; [lia..|].
  split; [exact Hd|]. destruct (H 1) as [Hp _]; [lia|exact Hp].
Defined.

(** The bit-mask matcher compiled from a field matcher with a position selector accepts
    exactly the leaves that selector denotes: the atom, the field and the sub-field must be
    the configured ones, FIRST requires node position 1, LAST the last-element flag of the
    node, and ANY and ALL accept every node. *)
Theorem translated_matcher_selects (tag f0 f2 : Z) (p : Position)
    (tag' p0 p1 p2 : Z) (last1 last2 : bool) :
  0 <= f0 < 128 → 0 <= f2 < 128 → 0 <= p0 < 128 → 1 <= p1 < 128 → 0 <= p2 < 128 →
  ∃ m, translateFieldMatcher (nodeMatcher tag f0 p f2) = [m]
    ∧ matches (leafField tag' p0 p1 p2 last1 last2) m
      = (tag' =? tag) && (p0 =? f0) && (p2 =? f2) && selects p p1 last1.
Proof.
  intros Hf0 Hf2 H0 H1 H2. rewrite translate_nodeMatcher. eexists. split; [done|].
  destruct (pos_byte_facts p0 H0) as (A1 & _), (flagged_pos last1 p1 ltac:(lia)) as (B1 & B2),
    (flagged_pos last2 p2 H2) as (C1 & _).
  assert (byte (positionCode p).1 ∧ byte (positionCode p).2) as [] by (destruct p; unfold byte; simpl; lia).
  assert (byte (flagged last1 p1)) by (apply flagged_byte; lia).
  rewrite leafField_pack by lia. unfold Field_of_pos.
  rewrite getEncodedField_pack, encodeMatcherMask_pack by (auto with statsd; lia).
  unfold upto. cbn [Z.leb Z.compare Pos.compare Pos.compare_cont].
  rewrite matches_pack by (auto with statsd; lia). rewrite A1, C1. cbn [Z.eqb Pos.eqb].
  destruct p; cbn [positionCode fst snd selects];
    rewrite ?B1, ?B2, ?Z.land_0_r; cbn [Z.eqb Pos.eqb];
    rewrite ?(proj2 (Z.eqb_neq p1 0)) by lia;
    destruct (tag' =? tag), (p0 =? f0), (p2 =? f2), last1; try done;
    destruct (p1 =? 1); done.
Qed.

Lemma translated_matcher_selects_witness :
  ∃ m, translateFieldMatcher (nodeMatcher 10 1 LAST 1) = [m]
    ∧ matches (leafField 10 1 3 1 true false) m = true.
Proof.
  destruct (translated_matcher_selects 10 1 1 LAST 10 1 3 1 true false) as (m & H1 & H2); [lia..|].
  exists m. split; [exact H1|]. rewrite H2. reflexivity.
Defined.

(** ** Comparison of values *)

(** Every comparison of values of one type goes through a three-way comparison; [None]
    is the unordered result of a NaN. *)
Definition Value_compare (a b : Value) : option comparison :=
  match a, b with
  | VINT x, VINT y | VLONG x, VLONG y => Some (Z.compare x y)
  | VFLOAT x, VFLOAT y | VDOUBLE x, VDOUBLE y => SFcompare x y
  | VSTRING x, VSTRING y => Some (String.compare x y)
  | VSTORAGE x, VSTORAGE y =>
      Some (if list_ltb x y then Lt else if list_ltb y x then Gt else Eq)
  | _, _ => Some (Z.compare (type_ord (getType a)) (type_ord (getType b)))
  end.

Lemma SFcompare_swap x y : SFcompare y x = CompOpp <$> SFcompare x y.
Proof.
  destruct x as [[]|[]| |[] m e], y as [[]|[]| |[] m' e']; try reflexivity; simpl;
    rewrite (Z.compare_antisym e e');
    change (Pos.compare_cont Eq) with Pos.compare; rewrite (Pos.compare_antisym m m');
    destruct (Z.compare e e'), (Pos.compare m m'); reflexivity.
Qed.

Definition sf_zero (x : spec_float) : bool := match x with S754_zero _ => true | _ => false end.

Lemma SFcompare_eq x y :
  SFcompare x y = Some Eq → x = y ∨ (sf_zero x = true ∧ sf_zero y = true).
Proof.
  destruct x as [[]|[]| |[] m e], y as [[]|[]| |[] m' e']; simpl; try discriminate; auto;
    change (Pos.compare_cont Eq) with Pos.compare;
    destruct (Z.compare_spec e e'), (Pos.compare_spec m m'); intros; try discriminate; subst; auto.
Qed.

Definition nan_free (v : Value) : bool :=
  match v with
  | VFLOAT x | VDOUBLE x => match x with S754_nan => false | _ => true end
  | _ => true
  end.

Lemma SFcompare_refl x : x ≠ S754_nan → SFcompare x x = Some Eq.
Proof.
  destruct x as [[]|[]| |[] m e]; simpl; try done; intros _;
    change (Pos.compare_cont Eq) with Pos.compare; by rewrite Z.compare_refl, Pos.compare_refl.
Qed.

Lemma list_ltb_irrefl l : list_ltb l l = false.
Proof. induction l as [|x l IH]; simpl; [done|]. by rewrite Z.ltb_irrefl. Qed.

Lemma list_ltb_asym l l' : list_ltb l l' = true → list_ltb l' l = false.
Proof.
  revert l'. induction l as [|x l IH]; intros [|y l']; simpl; try done.
  destruct (Z.ltb_spec x y), (Z.ltb_spec y x); try done; try lia. apply IH.
Qed.

Lemma list_ltb_total l l' : list_ltb l l' = false → list_ltb l' l = false → l = l'.
Proof.
  revert l'. induction l as [|x l IH]; intros [|y l']; simpl; try done.
  destruct (Z.ltb_spec x y), (Z.ltb_spec y x); try done; try lia. intros.
  f_equal; [lia|auto].
Qed.

Lemma Value_compare_swap a b : Value_compare b a = CompOpp <$> Value_compare a b.
Proof.
  destruct a, b; simpl; try reflexivity; try (f_equal; apply Z.compare_antisym);
    try apply SFcompare_swap.
  - f_equal. rewrite String.compare_antisym at 1. done.
  - f_equal. destruct (list_ltb storage_value storage_value0) eqn:E1,
      (list_ltb storage_value0 storage_value) eqn:E2; try done.
    apply list_ltb_asym in E1. congruence.
Qed.

Lemma Value_compare_total a b :
  nan_free a = true → nan_free b = true → is_Some (Value_compare a b).
Proof.
  destruct a, b; simpl; intros Ha Hb; eauto;
    repeat match goal with x : spec_float |- _ => destruct x as [[]|[]| |[]] end;
    simpl in *; try discriminate; eauto.
Qed.

Definition both_unknown (a b : Value) : bool :=
  match a, b with VUNKNOWN, VUNKNOWN => true | _, _ => false end.

Definition cmp_lt (o : option comparison) := match o with Some Lt => true | _ => false end.
Definition cmp_gt (o : option comparison) := match o with Some Gt => true | _ => false end.
Definition cmp_eq (o : option comparison) := match o with Some Eq => true | _ => false end.
Definition cmp_ge (o : option comparison) := match o with Some (Gt | Eq) => true | _ => false end.

Lemma Z_ops_compare x y :
  (x <? y) = cmp_lt (Some (Z.compare x y)) ∧ (y <? x) = cmp_gt (Some (Z.compare x y))
  ∧ (x =? y) = cmp_eq (Some (Z.compare x y)) ∧ (y <=? x) = cmp_ge (Some (Z.compare x y)).
Proof. destruct (Z.compare_spec x y); subst; simpl; split_and!; lia. Qed.

Lemma SF_ops_compare x y :
  SFltb y x = cmp_gt (SFcompare x y) ∧ SFleb y x = cmp_ge (SFcompare x y).
Proof.
  unfold SFltb, SFleb. rewrite SFcompare_swap. by destruct (SFcompare x y) as [[]|].
Qed.

Lemma string_ops_compare x y :
  String.ltb x y = cmp_lt (Some (String.compare x y))
  ∧ String.ltb y x = cmp_gt (Some (String.compare x y))
  ∧ String.eqb x y = cmp_eq (Some (String.compare x y)).
Proof.
  unfold String.ltb. rewrite (String.compare_antisym y x).
  split_and!; [by destruct (String.compare x y)..|].
  destruct (String.eqb_spec x y) as [->|Hne].
  - pose proof (String.compare_antisym y y). by destruct (String.compare y y).
  - destruct (String.compare x y) eqn:E; [|done..]. by apply String.compare_eq_iff in E.
Qed.

Lemma storage_eq_compare x y :
  bool_decide (x = y)
  = cmp_eq (Some (if list_ltb x y then Lt else if list_ltb y x then Gt else Eq)).
Proof.
  case_bool_decide; subst; [by rewrite list_ltb_irrefl|].
  destruct (list_ltb x y) eqn:E1; [done|]. destruct (list_ltb y x) eqn:E2; [done|].
  by pose proof (list_ltb_total _ _ E1 E2).
Qed.

(** The five operators in terms of the three-way comparison; two [UNKNOWN] values are
    the exception, for which every operator is [false]. *)
Lemma Value_ops_compare a b : both_unknown a b = false →
  Value_ltb a b = cmp_lt (Value_compare a b)
  ∧ Value_gtb a b = cmp_gt (Value_compare a b)
  ∧ Value_eqb a b = cmp_eq (Value_compare a b)
  ∧ Value_neqb a b = negb (cmp_eq (Value_compare a b))
  ∧ Value_geb a b = cmp_ge (Value_compare a b).
Proof.
  intros Hu.
  destruct a as [|x|x|x|x|x|x], b as [|y|y|y|y|y|y]; try done; simpl;
    first
      [ destruct (Z_ops_compare x y) as (E1 & E2 & E3 & E4);
        simpl in E1, E2, E3, E4; rewrite E1, E2, E3, E4; done
      | destruct (SF_ops_compare x y) as (E1 & E2); simpl in E1, E2; rewrite E1, E2; done
      | idtac ].
  - destruct (string_ops_compare x y) as (E1 & E2 & E3). rewrite E1, E2, E3.
    split_and!; try done. by destruct (String.compare x y).
  - rewrite storage_eq_compare. pose proof (list_ltb_asym x y).
    destruct (list_ltb x y) eqn:E; [rewrite H by done; done|]. by destruct (list_ltb y x).
Qed.

Lemma Value_cong_eq a b c : both_unknown a b = false → Value_compare a b = Some Eq →
  Value_compare b c = Value_compare a c.
Proof.
  assert (∀ x y z, SFcompare x y = Some Eq → SFcompare y z = SFcompare x z) as HF.
  { intros x y z [->|[Hx Hy]]%SFcompare_eq; [done|].
    destruct x, y; try discriminate. by destruct z. }
  destruct a as [|x|x|x|x|x|x], b as [|y|y|y|y|y|y]; try done; simpl; intros _ [= E].
  1,2: apply Z.compare_eq in E; by subst.
  1,2: destruct c as [|z|z|z|z|z|z]; try done; by apply HF.
  - apply String.compare_eq_iff in E. by subst.
  - destruct (list_ltb x y) eqn:E1; [done|]. destruct (list_ltb y x) eqn:E2; [done|].
    by pose proof (list_ltb_total _ _ E1 E2) as ->.
Qed.

(** On values without NaN, not both UNKNOWN, the six operators of [Value] describe one
    total order: exactly one of less, equal and greater holds, [>] is the converse of [<],
    [>=] the negation of [<] and [!=] the negation of [==]. *)
Theorem value_operators_total_order (a b : Value) :
  nan_free a = true → nan_free b = true → both_unknown a b = false →
  ((Value_ltb a b = true ∧ Value_eqb a b = false ∧ Value_gtb a b = false)
   ∨ (Value_ltb a b = false ∧ Value_eqb a b = true ∧ Value_gtb a b = false)
   ∨ (Value_ltb a b = false ∧ Value_eqb a b = false ∧ Value_gtb a b = true))
  ∧ Value_gtb a b = Value_ltb b a
  ∧ Value_geb a b = negb (Value_ltb a b)
  ∧ Value_neqb a b = negb (Value_eqb a b).
Proof.
  intros Ha Hb Hu. destruct (Value_compare_total a b Ha Hb) as [c Hc].
  assert (both_unknown b a = false) as Hu' by (by destruct a, b).
  destruct (Value_ops_compare a b Hu) as (-> & -> & -> & -> & ->).
  destruct (Value_ops_compare b a Hu') as (-> & _).
  rewrite (Value_compare_swap a b), Hc. destruct c; simpl; split_and!; auto 10.
Qed.

Lemma value_operators_total_order_witness :
  Value_geb (VFLOAT (S754_zero true)) (VFLOAT (S754_zero false)) = true
  ∧ Value_gtb (VSTRING "b") (VSTRING "a") = Value_ltb (VSTRING "a") (VSTRING "b").
Proof.
  split.
  - pose proof (value_operators_total_order (VFLOAT (S754_zero true)) (VFLOAT (S754_zero false))
      eq_refl eq_refl eq_refl) as (_ & _ & H & _). rewrite H. reflexivity.
  - exact (proj1 (proj2 (value_operators_total_order (VSTRING "b") (VSTRING "a")
      eq_refl eq_refl eq_refl))).
Defined.

(** Subtraction and [+=] are inverse on integer values of the same type for every pair of
    in-range operands, wrap-around included, and neither changes the type of the result;
    mixed types give UNKNOWN for [-] and leave the left operand unchanged for [+=]. *)
Theorem value_add_sub_inverse (a b : Value) :
  (match a, b with
   | VINT x, VINT y => int32 x
   | VLONG x, VLONG y => int64 x
   | _, _ => False
   end → Value_plus (Value_minus a b) b = a ∧ Value_minus (Value_plus a b) b = a)
  ∧ (getType a ≠ getType b → Value_minus a b = VUNKNOWN ∧ Value_plus a b = a).
Proof.
  assert (∀ n m x y, 0 < n → 0 <= m → ((x + m) mod n - m + y + m) mod n = (x + y + m) mod n) as Hm.
  { intros n m x y Hn Hm'. replace ((x + m) mod n - m + y + m) with ((x + m) mod n + y) by lia.
    rewrite Z.add_mod_idemp_l by lia. f_equal. lia. }
  split; [|destruct a, b; done].
  destruct a as [|x|x|x|x|x|x], b as [|y|y|y|y|y|y]; try done; simpl; intros Hr; split; f_equal;
    unfold Z.sub; first [rewrite <- (wrap32_id x) at 2 by done | rewrite <- (wrap64_id x) at 2 by done];
    unfold wrap32, wrap64; f_equal;
    [rewrite (Hm (2 ^ 32) (2 ^ 31)) by lia | rewrite (Hm (2 ^ 32) (2 ^ 31)) by lia
    |rewrite (Hm (2 ^ 64) (2 ^ 63)) by lia | rewrite (Hm (2 ^ 64) (2 ^ 63)) by lia]; f_equal; lia.
Qed.

Lemma value_add_sub_inverse_witness :
  int32 (-(2 ^ 31)) ∧ Value_plus (Value_minus (VINT (-(2 ^ 31))) (VINT 1)) (VINT 1) = VINT (-(2 ^ 31)).
Proof.
  assert (int32 (-(2 ^ 31))) as H by (unfold int32; lia). split; [exact H|].
  exact (proj1 (proj1 (value_add_sub_inverse (VINT (-(2 ^ 31))) (VINT 1)) H)).
Defined.

(** ** Translation of whole field matcher trees *)

Lemma FieldMatcher_tree_ind (P : FieldMatcher → Prop) :
  (∀ f p cs, Forall P cs → P (mkFieldMatcher f p cs)) → ∀ m, P m.
Proof.
  intros H. fix IH 1. intros [f p cs]. apply H. induction cs; constructor; auto.
Defined.

(** Every field number of the tree fits the seven bits of a position. *)
Fixpoint fm_ok (m : FieldMatcher) : Prop :=
  0 <= fm_field m < 128 ∧ (fix go cs := match cs with [] => True | c :: cs' => fm_ok c ∧ go cs' end) (fm_child m).

Lemma fm_ok_children m : fm_ok m → Forall fm_ok (fm_child m).
Proof. destruct m as [f p cs]. simpl. intros [_ H]. induction cs; constructor; tauto. Qed.

Section translate.
Context (tag : Z).

Definition leaf_ok (m : Matcher) : Prop :=
  mTag (mMatcher m) = tag ∧ 0 <= getDepth (mMatcher m) <= 2 ∧ matches (mMatcher m) m = true.

(** The scratch arrays hold three masked bytes and every emitted matcher is sound. *)
Definition translate_inv (st : TranslateState) : Prop :=
  (∃ a b c ma mb mc, ts_pos st = [a; b; c] ∧ ts_mask st = [ma; mb; mc]
     ∧ byte a ∧ byte b ∧ byte c ∧ byte ma ∧ byte mb ∧ byte mc
     ∧ Z.land a ma = a ∧ Z.land b mb = b ∧ Z.land c mc = c)
  ∧ Forall leaf_ok (ts_output st).

Lemma translate_inv_set st depth p m :
  translate_inv st → 0 <= depth <= 2 → byte p → byte m → Z.land p m = p →
  translate_inv (setAt st depth p m).
Proof.
  intros [(a & b & c & ma & mb & mc & E1 & E2 & ?) Ho] Hd Hp Hm Hl. split; [|done].
  unfold setAt. cbn [ts_pos ts_mask]. rewrite E1, E2.
  assert (depth = 0 ∨ depth = 1 ∨ depth = 2) as [-> | [-> | ->]] by lia; simpl;
    do 6 eexists; split_and!; try done; tauto.
Qed.

Lemma upto_masked depth i x m : Z.land x m = x → Z.land (upto depth i x) (upto depth i m) = upto depth i x.
Proof. unfold upto. by destr_if. Qed.

Lemma translate_inv_emit st depth :
  translate_inv st → 0 <= depth <= 2 →
  leaf_ok (mkMatcher (Field_of_pos tag (ts_pos st) depth) (encodeMatcherMask (ts_mask st) depth)).
Proof.
  intros [(a & b & c & ma & mb & mc & E1 & E2 & ? & ? & ? & ? & ? & ? & La & Lb & Lc) Ho] Hd.
  unfold leaf_ok, Field_of_pos. rewrite E1, E2. cbn [mMatcher mTag].
  rewrite getEncodedField_pack, encodeMatcherMask_pack by done.
  rewrite getDepth_pack by auto with statsd. split_and!; try done; try lia.
  rewrite matches_pack by auto with statsd.
  rewrite La, !upto_masked, !Z.eqb_refl by done. done.
Qed.

Lemma translate_rec_inv m : fm_ok m →
  ∀ depth st, 0 <= depth → translate_inv st →
  translate_inv (translateFieldMatcher_rec tag m depth st).
Proof.
  induction m as [f p cs IH] using FieldMatcher_tree_ind. intros Hok depth st Hd Hinv.
  pose proof (fm_ok_children _ Hok) as Hcs. destruct Hok as [Hf _]. simpl in Hf, Hcs.
  cbn [translateFieldMatcher_rec fm_child fm_field fm_position].
  assert (∀ st depth, 0 <= depth <= 2 → translate_inv st → translate_inv
    match cs with
    | [] => mkTranslate (ts_pos st) (ts_mask st) (ts_output st ++
             [mkMatcher (Field_of_pos tag (ts_pos st) depth) (encodeMatcherMask (ts_mask st) depth)])
    | _ => (fix go cs st := match cs with [] => st
            | child :: cs' => go cs' (translateFieldMatcher_rec tag child (depth + 1) st) end) cs st
    end) as Hfin.
  { intros st' d' Hd' Hi'. destruct cs as [|c0 cs0].
    - split; [apply Hi'|]. cbn [ts_output]. apply Forall_app. split; [apply Hi'|].
      apply Forall_singleton. by apply translate_inv_emit.
    - change (translate_inv ((fix go cs st := match cs with [] => st
        | child :: cs' => go cs' (translateFieldMatcher_rec tag child (d' + 1) st) end)
        (c0 :: cs0) st')). generalize dependent (c0 :: cs0). intros l IH Hcs. revert st' Hi'.
      induction l as [|c l IHl]; intros st' Hi'; [done|].
      apply Forall_cons in IH as [IHc IH], Hcs as [Hc Hcs]. apply IHl; [done..|].
      apply IHc; [done|lia|done]. }
  unfold kMaxLogDepth. destruct (Z.ltb_spec 2 depth); [done|].
  assert (translate_inv (setAt st depth f 0x7f)).
  { apply translate_inv_set; [done|lia|auto with statsd..|]. by apply pos_byte_facts. }
  destruct p as [p|]; [|by apply Hfin; [lia|]].
  destruct (Z.ltb_spec 2 (depth + 1)); [done|]. apply Hfin; [lia|].
  apply translate_inv_set; [done|lia|..]; destruct p; unfold byte; simpl; done || lia.
Qed.
End translate.

(** Every matcher compiled from a field matcher tree whose field numbers fit seven bits
    carries the atom id of the tree, has depth at most two, and accepts its own field, so no
    compiled matcher is unsatisfiable. *)
Theorem translated_matchers_satisfiable (fm : FieldMatcher) :
  Forall fm_ok (fm_child fm) →
  ∀ m, m ∈ translateFieldMatcher fm →
    mTag (mMatcher m) = fm_field fm ∧ 0 <= getDepth (mMatcher m) <= 2
    ∧ matches (mMatcher m) m = true.
Proof.
  intros Hok m Hm. unfold translateFieldMatcher in Hm.
  enough (∀ cs st, Forall fm_ok cs → translate_inv (fm_field fm) st →
    translate_inv (fm_field fm)
      (fold_left (λ st child, translateFieldMatcher_rec (fm_field fm) child 0 st) cs st)) as H.
  { change (leaf_ok (fm_field fm) m). revert m Hm. apply Forall_forall, H; [done|].
    split; [|constructor]. do 6 eexists. split_and!; try done; unfold byte; lia. }
  clear. induction cs as [|c cs IH]; intros st Hcs Hst; [done|].
  apply Forall_cons in Hcs as [Hc Hcs]. simpl. apply IH; [done|].
  apply translate_rec_inv; [done|lia|done].
Qed.

Lemma translated_matchers_satisfiable_witness :
  ∃ m, m ∈ translateFieldMatcher (nodeMatcher 10 1 ALL 2) ∧ matches (mMatcher m) m = true.
Proof.
  eexists. split; [left|].
  apply (translated_matchers_satisfiable (nodeMatcher 10 1 ALL 2)); [|left].
  repeat constructor; simpl; lia.
Defined.

(** ** Comparison of dimension lists *)

Lemma Matcher_eqb_eq a b : Matcher_eqb a b = true ↔ a = b.
Proof.
  destruct a as [[t f] m], b as [[t' f'] m']. unfold Matcher_eqb, Field_eqb. simpl.
  rewrite !andb_true_iff, !Z.eqb_eq. naive_solver.
Qed.

Lemma Matcher_neqb_negb a b : Matcher_neqb a b = negb (Matcher_eqb a b).
Proof. unfold Matcher_neqb, Matcher_eqb, Field_neqb, Field_eqb. by rewrite !negb_andb. Qed.

(** [equalDimensions] decides equality of two dimension lists, and [subsetDimensions]
    decides that the first is no longer than the second and all its matchers occur in it. *)
Theorem dimension_comparisons_correct (a b : list Matcher) :
  (equalDimensions a b = true ↔ a = b)
  ∧ (subsetDimensions a b = true ↔ (length a <= length b)%nat ∧ ∀ m, m ∈ a → m ∈ b).
Proof.
  split.
  - unfold equalDimensions. split.
    + destruct (Z.eqb_spec (Z.of_nat (length a)) (Z.of_nat (length b))) as [E|E].
      2: { intros H. destruct a, b; done. }
      assert (length a = length b) as El by lia. clear E. revert b El.
      induction a as [|x a IH]; intros [|y b] El; try done.
      rewrite Matcher_neqb_negb. destruct (Matcher_eqb y x) eqn:Exy; simpl.
      * intros H. apply Matcher_eqb_eq in Exy. f_equal; [done|]. apply IH; [by simpl in El; lia|done].
      * destruct a, b; done.
    + intros <-. rewrite Z.eqb_refl. induction a as [|x a IH]; [done|].
      rewrite Matcher_neqb_negb, (proj2 (Matcher_eqb_eq x x) eq_refl). exact IH.
  - unfold subsetDimensions. destr_if; bool_to_prop; [split; [done|]; intros [? _]; lia|].
    rewrite forallb_elem_of. setoid_rewrite existsb_elem_of. setoid_rewrite Matcher_eqb_eq.
    split; [|naive_solver]. intros H. split; [lia|]. naive_solver.
Qed.

(** ** Strings as lists of numbers *)

(** The order of strings is that of the lists of their characters. *)
Fixpoint codes (s : string) : list Z :=
  match s with EmptyString => [] | String c s => Z.of_N (N_of_ascii c) :: codes s end.

Lemma list_ltb_trans a : ∀ b c, list_ltb a b = true → list_ltb b c = true → list_ltb a c = true.
Proof.
  induction a as [|x a IH]; intros [|y b] [|z c]; cbn [list_ltb]; try done.
  destruct (Z.ltb_spec x y), (Z.ltb_spec y x), (Z.ltb_spec y z), (Z.ltb_spec z y), (Z.ltb_spec x z),
    (Z.ltb_spec z x); try lia; try done. apply IH.
Qed.

Lemma codes_ltb s : ∀ t, String.ltb s t = list_ltb (codes s) (codes t).
Proof.
  induction s as [|c s IH]; intros [|d t]; cbn [codes list_ltb]; try done.
  specialize (IH t). unfold String.ltb in *. cbn [String.compare]. unfold Ascii.compare.
  destruct (N.compare_spec (N_of_ascii c) (N_of_ascii d)) as [E|E|E].
  - rewrite E. by rewrite Z.ltb_irrefl.
  - by rewrite (proj2 (Z.ltb_lt _ _)) by lia.
  - rewrite (proj2 (Z.ltb_ge _ _)) by lia. by rewrite (proj2 (Z.ltb_lt _ _)) by lia.
Qed.

Lemma codes_inj s : ∀ t, codes s = codes t → s = t.
Proof.
  induction s as [|c s IH]; intros [|d t] E; try done. cbn in E. injection E as E1 E2.
  f_equal; [|by apply IH]. apply N2Z.inj in E1. rewrite <- (ascii_N_embedding c), <- (ascii_N_embedding d).
  by rewrite E1.
Qed.

Lemma string_ltb_irrefl s : String.ltb s s = false.
Proof. rewrite codes_ltb. apply list_ltb_irrefl. Qed.

Lemma string_ltb_trans a b c : String.ltb a b = true → String.ltb b c = true → String.ltb a c = true.
Proof. rewrite !codes_ltb. apply list_ltb_trans. Qed.

Lemma string_ltb_total a b : String.ltb a b = false → String.ltb b a = false → a = b.
Proof. rewrite !codes_ltb. intros H1 H2. by apply codes_inj, list_ltb_total. Qed.
