(* ===== verification/DimensionKey.v ===== *)
(** * Dimension keys (HashableDimensionKey.h, HashableDimensionKey.cpp, stats_util.h)

    Keys built from the field values of an event, their comparison operators, the hash,
    the links between metric, condition and state dimensions, and the conversion to the
    parcel sent to subscribers. *)
From S2P Require Import Prelude UMap FieldValue.

Record Metric2Condition := mkMetric2Condition {
  mc_conditionId : Z; mc_metricFields : list Matcher; mc_conditionFields : list Matcher
}.

Record Metric2State := mkMetric2State {
  ms_stateAtomId : Z; ms_metricFields : list Matcher; ms_stateFields : list Matcher
}.

Record HashableDimensionKey := mkKey { mValues : list FieldValue }.

Definition DEFAULT_DIMENSION_KEY : HashableDimensionKey := mkKey [].

Definition addValue (k : HashableDimensionKey) (v : FieldValue) : HashableDimensionKey :=
  mkKey (mValues k ++ [v]).

(** A write through [mutableValue(i)]: nothing to write to when the index is out of range. *)
Definition mutateValue (k : HashableDimensionKey) (i : nat) (f : FieldValue → FieldValue)
    : HashableDimensionKey := mkKey (alter f i (mValues k)).

Definition setFieldAndTag (field tag : Z) (v : FieldValue) : FieldValue :=
  mkFieldValue (mkField tag field) (fv_value v) (fv_annotations v).

(** ** Extraction of keys from events *)

(** [filterValues(matcherField, values, output)]: the first matching value. *)
Definition filterValues_one (matcherField : Matcher) (values : list FieldValue)
    : option FieldValue :=
  List.find (λ v, matches (fv_field v) matcherField) values.

Definition filterValues_step (value : FieldValue) (st : HashableDimensionKey * nat)
    (matcher : Matcher) : HashableDimensionKey * nat :=
  let (output, num_matches) := st in
  if matches (fv_field value) matcher then
    let output := addValue output value in
    (mutateValue output num_matches
       (setFieldAndTag (Z.land (mField (fv_field value)) (mMask matcher)) (mTag (fv_field value))),
     S num_matches)
  else st.

(** [filterValues(matcherFields, values, output)]; the boolean is the returned value. *)
Definition filterValues (matcherFields : list Matcher) (values : list FieldValue)
    (output : HashableDimensionKey) : bool * HashableDimensionKey :=
  let (output, num_matches) :=
    fold_left (λ st value, fold_left (filterValues_step value) matcherFields st) values
      (output, 0%nat) in
  (0 <? Z.of_nat num_matches, output).

Definition filterPrimaryKey_step (st : HashableDimensionKey * nat) (value : FieldValue)
    : HashableDimensionKey * nat :=
  let (output, num_matches) := st in
  if isPrimaryField (fv_annotations value) then
    let output := addValue output value in
    let mask := if isAttributionUidField (fv_field value) (fv_value value)
                then wrap32 0xff7f7f7f else wrap32 0xff7f0000 in
    (mutateValue output num_matches
       (setFieldAndTag (Z.land (mField (fv_field value)) mask) (mTag (fv_field value))),
     S num_matches)
  else st.

Definition filterPrimaryKey (values : list FieldValue) (output : HashableDimensionKey)
    : bool * HashableDimensionKey :=
  let (output, num_matches) := fold_left filterPrimaryKey_step values (output, 0%nat) in
  (0 <? Z.of_nat num_matches, output).

Definition filterGaugeValues (matcherFields : list Matcher) (values output : list FieldValue)
    : list FieldValue :=
  fold_left
    (λ output field,
      fold_left
        (λ output value, if matches (fv_field value) field then output ++ [value] else output)
        values output)
    matcherFields output.

(** The renaming loop shared by [getDimensionForCondition] and [getDimensionForState]. *)
Definition renameFields (fields : list Matcher) (key : HashableDimensionKey)
    : HashableDimensionKey :=
  let count := length (mValues key) in
  if negb (Z.of_nat count =? Z.of_nat (length fields)) then key
  else
    fold_left
      (λ key i,
        match fields !! i with
        | Some m => mutateValue key i (setFieldAndTag (mField (mMatcher m)) (mTag (mMatcher m)))
        | None => key
        end)
      (seq 0 count) key.

Definition getDimensionForCondition (eventValues : list FieldValue) (links : Metric2Condition)
    (conditionDimension : HashableDimensionKey) : HashableDimensionKey :=
  let (_, conditionDimension) :=
    filterValues (mc_metricFields links) eventValues conditionDimension in
  renameFields (mc_conditionFields links) conditionDimension.

Definition getDimensionForState (eventValues : list FieldValue) (link : Metric2State)
    (statePrimaryKey : HashableDimensionKey) : HashableDimensionKey :=
  let (_, statePrimaryKey) := filterValues (ms_metricFields link) eventValues statePrimaryKey in
  renameFields (ms_stateFields link) statePrimaryKey.

(** [metricFields\[i\]] beyond the end is out of bounds in the source; no link is found there. *)
Definition linked (stateLinks : list Metric2State) (stateAtomId : Z)
    (stateField metricField : Field) : bool :=
  existsb
    (λ stateLink,
      if negb (ms_stateAtomId stateLink =? stateAtomId) then false
      else
        existsb
          (λ i,
            match ms_stateFields stateLink !! i, ms_metricFields stateLink !! i with
            | Some s, Some m =>
                Field_eqb (mMatcher s) stateField && Field_eqb (mMatcher m) metricField
            | _, _ => false
            end)
          (seq 0 (length (ms_stateFields stateLink))))
    stateLinks.

Definition containsLinkedStateValues (whatKey primaryKey : HashableDimensionKey)
    (stateLinks : list Metric2State) (stateAtomId : Z) : bool :=
  if Z.of_nat (length (mValues whatKey)) <? Z.of_nat (length (mValues primaryKey)) then false
  else
    forallb
      (λ primaryValue,
        existsb
          (λ whatValue,
            linked stateLinks stateAtomId (fv_field primaryValue) (fv_field whatValue)
            && Value_eqb (fv_value primaryValue) (fv_value whatValue))
          (mValues whatKey))
      (mValues primaryKey).

(** ** Comparison *)

Fixpoint LessThan_loop (s1 s2 : list FieldValue) : bool :=
  match s1, s2 with
  | a :: s1', b :: s2' => if FieldValue_neqb a b then FieldValue_ltb a b else LessThan_loop s1' s2'
  | _, _ => false
  end.

Definition LessThan (s1 s2 : list FieldValue) : bool :=
  let n1 := Z.of_nat (length s1) in
  let n2 := Z.of_nat (length s2) in
  if negb (n1 =? n2) then n1 <? n2 else LessThan_loop s1 s2.

Fixpoint sameValues (s1 s2 : list FieldValue) : bool :=
  match s1, s2 with
  | a :: s1', b :: s2' => if FieldValue_neqb a b then false else sameValues s1' s2'
  | _, _ => true
  end.

(** [HashableDimensionKey::operator==] *)
Definition hdk_eqb (a b : HashableDimensionKey) : bool :=
  if negb (Z.of_nat (length (mValues a)) =? Z.of_nat (length (mValues b))) then false
  else sameValues (mValues a) (mValues b).

(** [HashableDimensionKey::operator<] *)
Definition hdk_ltb (a b : HashableDimensionKey) : bool := LessThan (mValues a) (mValues b).

(** [HashableDimensionKey::contains] *)
Definition contains (this that : HashableDimensionKey) : bool :=
  let n := Z.of_nat (length (mValues this)) in
  let n' := Z.of_nat (length (mValues that)) in
  if n <? n' then false
  else if n =? n' then hdk_eqb this that
  else
    forallb
      (λ value,
        existsb
          (λ myValue,
            Field_eqb (fv_field value) (fv_field myValue)
            && Value_eqb (fv_value value) (fv_value myValue))
          (mValues this))
      (mValues that).

Record MetricDimensionKey := mkMetricKey {
  mDimensionKeyInWhat : HashableDimensionKey; mStateValuesKey : HashableDimensionKey
}.

Definition DEFAULT_METRIC_DIMENSION_KEY : MetricDimensionKey :=
  mkMetricKey DEFAULT_DIMENSION_KEY DEFAULT_DIMENSION_KEY.

Definition hasStateValuesKey (k : MetricDimensionKey) : bool :=
  0 <? Z.of_nat (length (mValues (mStateValuesKey k))).

Definition mdk_eqb (a b : MetricDimensionKey) : bool :=
  hdk_eqb (mDimensionKeyInWhat a) (mDimensionKeyInWhat b)
  && hdk_eqb (mStateValuesKey a) (mStateValuesKey b).

Definition mdk_ltb (a b : MetricDimensionKey) : bool :=
  if hdk_ltb (mDimensionKeyInWhat a) (mDimensionKeyInWhat b) then true
  else if hdk_ltb (mDimensionKeyInWhat b) (mDimensionKeyInWhat a) then false
  else hdk_ltb (mStateValuesKey a) (mStateValuesKey b).

#[export] Instance key_eq_hdk : KeyEq HashableDimensionKey := hdk_eqb.
#[export] Instance key_eq_mdk : KeyEq MetricDimensionKey := mdk_eqb.

(** ** Hash

    The mixing functions are those of the platform's Jenkins hash and of [std::hash]:
    parameters here. *)
Section hash.
Context (JenkinsHashMix : Z → Z → Z) (JenkinsHashWhiten : Z → Z)
  (hash_int hash_long : Z → Z) (hash_float : SpecFloat.spec_float → Z) (hash_string : string → Z).

Definition hashValue (hash : Z) (v : Value) : Z :=
  match v with
  | VINT z => JenkinsHashMix hash (hash_int z)
  | VLONG z => JenkinsHashMix hash (hash_long z)
  | VSTRING s => JenkinsHashMix hash (u32 (hash_string s))
  | VFLOAT f => JenkinsHashMix hash (hash_float f)
  | _ => hash
  end.

Definition hashDimension (value : HashableDimensionKey) : Z :=
  JenkinsHashWhiten
    (fold_left
       (λ hash fv,
         let hash := JenkinsHashMix hash (hash_int (mField (fv_field fv))) in
         let hash := JenkinsHashMix hash (hash_int (mTag (fv_field fv))) in
         let hash := JenkinsHashMix hash (hash_int (type_ord (getType (fv_value fv)))) in
         hashValue hash (fv_value fv))
       (mValues value) 0).

(** [std::hash<MetricDimensionKey>] *)
Definition hashMetricDimension (key : MetricDimensionKey) : Z :=
  let hash := hashDimension (mDimensionKeyInWhat key) in
  JenkinsHashWhiten (JenkinsHashMix hash (hashDimension (mStateValuesKey key))).
End hash.

(** ** Parcel for subscribers *)

Definition STATS_DIMENSIONS_VALUE_STRING_TYPE := 2.
Definition STATS_DIMENSIONS_VALUE_INT_TYPE := 3.
Definition STATS_DIMENSIONS_VALUE_LONG_TYPE := 4.
Definition STATS_DIMENSIONS_VALUE_FLOAT_TYPE := 6.
Definition STATS_DIMENSIONS_VALUE_TUPLE_TYPE := 7.

(** [StatsDimensionsValueParcel]: the scalar members are the [Value] that was stored,
    [VUNKNOWN] when none was. *)
Inductive Parcel :=
  mkParcel { pc_field : Z; pc_valueType : Z; pc_value : Value; pc_tupleValue : list Parcel }.

Definition leafParcel (childDepth : Z) (dim : FieldValue) : Parcel :=
  let field := getPosAtDepth (fv_field dim) childDepth in
  match fv_value dim with
  | VINT z => mkParcel field STATS_DIMENSIONS_VALUE_INT_TYPE (VINT z) []
  | VLONG z => mkParcel field STATS_DIMENSIONS_VALUE_LONG_TYPE (VLONG z) []
  | VFLOAT f => mkParcel field STATS_DIMENSIONS_VALUE_FLOAT_TYPE (VFLOAT f) []
  | VSTRING s => mkParcel field STATS_DIMENSIONS_VALUE_STRING_TYPE (VSTRING s) []
  | _ => mkParcel field 0 VUNKNOWN []
  end.

(** The loop and its recursion, on the suffix of [dims] from [index]; the result is the
    children pushed into the parent and the suffix left.  [None]: out of fuel. *)
Fixpoint populateStatsDimensionsValueParcelChildren (fuel : nat) (childDepth childPrefix : Z)
    (dims : list FieldValue) : option (list Parcel * list FieldValue) :=
  match fuel with
  | O => None
  | S fuel =>
      if 2 <? childDepth then Some ([], dims)
      else
        match dims with
        | [] => Some ([], [])
        | dim :: rest =>
            let fieldDepth := getDepth (fv_field dim) in
            let fieldPrefix := getPrefix (fv_field dim) childDepth in
            if (fieldDepth =? childDepth) && (fieldPrefix =? childPrefix) then
              '(children, rest') ← populateStatsDimensionsValueParcelChildren fuel childDepth
                                     childPrefix rest;
              Some (leafParcel childDepth dim :: children, rest')
            else if (childDepth <? fieldDepth) && (fieldPrefix =? childPrefix) then
              '(sub, dims') ← populateStatsDimensionsValueParcelChildren fuel (childDepth + 1)
                                (getPrefix (fv_field dim) (childDepth + 1)) dims;
              '(children, rest') ← populateStatsDimensionsValueParcelChildren fuel childDepth
                                     childPrefix dims';
              Some (mkParcel (getPosAtDepth (fv_field dim) childDepth)
                      STATS_DIMENSIONS_VALUE_TUPLE_TYPE VUNKNOWN sub :: children, rest')
            else Some ([], dims)
        end
  end.

(** Enough fuel for [n] values: each is visited at most once per depth. *)
Definition parcelFuel (n : nat) : nat := (4 * n + 4)%nat.

Definition toStatsDimensionsValueParcel (key : HashableDimensionKey) : option Parcel :=
  match mValues key with
  | [] => Some (mkParcel 0 0 VUNKNOWN [])
  | v :: _ =>
      '(children, _) ← populateStatsDimensionsValueParcelChildren
                         (parcelFuel (length (mValues key))) 0 0 (mValues key);
      Some (mkParcel (mTag (fv_field v)) STATS_DIMENSIONS_VALUE_TUPLE_TYPE VUNKNOWN children)
  end.
