(* ===== verification/DimensionKeyFacts.v ===== *)
(** * Facts about dimension keys

    [operator==] on keys is a partial equivalence, reflexive on keys without NaN; the
    order agrees with it; equal keys hash equally; extraction and parcelling preserve
    the data of the event. *)
From Stdlib Require Import SpecFloat.
From S2P Require Import Prelude UMap FieldValue FieldValueFacts DimensionKey.

(** ** Equality of field values as the code of the keys uses it *)

Lemma Field_neqb_false f g : Field_neqb f g = false ↔ f = g.
Proof.
  destruct f, g. unfold Field_neqb. simpl.
  rewrite orb_false_iff, !negb_false_iff, !Z.eqb_eq. naive_solver.
Qed.

Lemma Field_eqb_true f g : Field_eqb f g = true ↔ f = g.
Proof. destruct f, g. unfold Field_eqb. simpl. rewrite andb_true_iff, !Z.eqb_eq. naive_solver. Qed.

Lemma Value_neqb_false a b :
  Value_neqb a b = false ↔ both_unknown a b = true ∨ Value_compare a b = Some Eq.
Proof.
  destruct (both_unknown a b) eqn:E; [destruct a, b; simpl in *; naive_solver|].
  destruct (Value_ops_compare a b E) as (_ & _ & _ & -> & _).
  destruct (Value_compare a b) as [[]|]; naive_solver.
Qed.

Lemma both_unknown_sym a b : both_unknown a b = both_unknown b a.
Proof. by destruct a, b. Qed.

Lemma Value_neqb_false_sym a b : Value_neqb a b = false → Value_neqb b a = false.
Proof.
  rewrite !Value_neqb_false, (both_unknown_sym b a). intros [?|E]; [auto|].
  right. by rewrite Value_compare_swap, E.
Qed.

Lemma Value_neqb_false_trans a b c :
  Value_neqb a b = false → Value_neqb b c = false → Value_neqb a c = false.
Proof.
  intros Hab Hbc.
  destruct (both_unknown a b) eqn:E.
  { by destruct a, b. }
  apply Value_neqb_false in Hab as [?|Hab]; [congruence|].
  apply Value_neqb_false in Hbc as [?|Hbc]; apply Value_neqb_false.
  - destruct a, b, c; done.
  - right. by rewrite <- (Value_cong_eq a b c E Hab).
Qed.

Lemma FieldValue_neqb_false a b :
  FieldValue_neqb a b = false ↔ fv_field a = fv_field b ∧ Value_neqb (fv_value a) (fv_value b) = false.
Proof. unfold FieldValue_neqb. by rewrite orb_false_iff, Field_neqb_false. Qed.

(** Two value lists that [operator==] identifies. *)
Definition same_values (l l' : list FieldValue) : Prop :=
  Forall2 (λ a b, FieldValue_neqb a b = false) l l'.

Lemma hdk_eqb_spec a b : hdk_eqb a b = true ↔ same_values (mValues a) (mValues b).
Proof.
  destruct a as [l], b as [l']. unfold hdk_eqb, same_values. simpl.
  destruct (Z.eqb_spec (Z.of_nat (length l)) (Z.of_nat (length l'))) as [E|E]; simpl.
  - assert (length l = length l') as El by lia. clear E. revert l' El.
    induction l as [|x l IH]; intros [|y l'] El; try done; simpl in *.
    destruct (FieldValue_neqb x y) eqn:E; split.
    + discriminate.
    + intros H. inversion H; congruence.
    + intros. constructor; [done|]. apply IH; [lia|done].
    + intros H. inversion H; subst. apply IH; [lia|done].
  - split; [done|]. intros H%Forall2_length. lia.
Qed.

Lemma same_values_trans l1 l2 l3 : same_values l1 l2 → same_values l2 l3 → same_values l1 l3.
Proof.
  unfold same_values. intros H. revert l3.
  induction H as [|x y l1 l2 Hxy Hl IH]; intros l3 H3; inversion H3 as [|? z ? ? Hyz]; subst;
    constructor; [|auto].
  rewrite FieldValue_neqb_false in *. destruct Hxy as [-> ?], Hyz as [-> ?]. split; [done|].
  by eapply Value_neqb_false_trans.
Qed.

#[export] Instance key_per_hdk : KeyPER HashableDimensionKey.
Proof.
  split; unfold key_eqb, key_eq_hdk; intros *; rewrite !hdk_eqb_spec;
    [|apply same_values_trans].
  - unfold same_values. intros H%Forall2_flip. eapply Forall2_impl; [exact H|]. simpl. intros x y.
    rewrite !FieldValue_neqb_false. intros [-> ?]. split; [done|]. by apply Value_neqb_false_sym.
Qed.

#[export] Instance key_per_mdk : KeyPER MetricDimensionKey.
Proof.
  split; unfold key_eqb, key_eq_mdk, mdk_eqb; intros *; rewrite !andb_true_iff.
  - intros [??]. split; by apply (key_eqb_sym (K := HashableDimensionKey)).
  - intros [??] [??]. split; by eapply (key_eqb_trans (K := HashableDimensionKey)).
Qed.

(** ** Keys without NaN *)

Definition key_nan_free (k : HashableDimensionKey) : Prop :=
  Forall (λ v, nan_free (fv_value v) = true) (mValues k).

Definition mkey_nan_free (k : MetricDimensionKey) : Prop :=
  key_nan_free (mDimensionKeyInWhat k) ∧ key_nan_free (mStateValuesKey k).

Lemma Value_neqb_refl v : nan_free v = true → Value_neqb v v = false.
Proof.
  intros Hv. apply Value_neqb_false. destruct v as [|x|x|x|x|x|x]; simpl; auto; right.
  1,2: by rewrite Z.compare_refl.
  1,2: apply SFcompare_refl; by intros ->.
  - f_equal. pose proof (String.compare_antisym x x). by destruct (String.compare x x).
  - by rewrite list_ltb_irrefl.
Qed.

Lemma hdk_refl (k : HashableDimensionKey) : key_nan_free k → k =k k.
Proof.
  intros H. apply hdk_eqb_spec. unfold same_values. induction H; constructor; [|done].
  apply FieldValue_neqb_false. split; [done|]. by apply Value_neqb_refl.
Qed.

Lemma mdk_refl (k : MetricDimensionKey) : mkey_nan_free k → k =k k.
Proof.
  intros [??]. unfold key_eqb, key_eq_mdk, mdk_eqb. apply andb_true_iff.
  split; by apply hdk_refl.
Qed.
#[export] Hint Resolve hdk_refl mdk_refl : statsd.

Lemma FieldValue_ltb_asym a b :
  nan_free (fv_value a) = true → nan_free (fv_value b) = true → FieldValue_neqb a b = true →
  FieldValue_ltb b a = negb (FieldValue_ltb a b).
Proof.
  intros Ha Hb Hne. unfold FieldValue_ltb, FieldValue_neqb in *.
  assert (Field_neqb (fv_field b) (fv_field a) = Field_neqb (fv_field a) (fv_field b)) as ->
    by (unfold Field_neqb; by rewrite (Z.eqb_sym (mTag (fv_field b))), (Z.eqb_sym (mField (fv_field b)))).
  destruct (Field_neqb (fv_field a) (fv_field b)) eqn:Ef.
  - unfold Field_neqb, Field_ltb in *.
    rewrite (Z.eqb_sym (mTag (fv_field b))), (Z.eqb_sym (mField (fv_field b))).
    destruct (Z.eqb_spec (mTag (fv_field a)) (mTag (fv_field b))); simpl in *; [|lia].
    destruct (Z.eqb_spec (mField (fv_field a)) (mField (fv_field b))); simpl in *; [done|lia].
  - simpl in Hne. rewrite Hne.
    destruct (both_unknown (fv_value a) (fv_value b)) eqn:Hu; [by destruct (fv_value a), (fv_value b)|].
    destruct (Value_neqb (fv_value b) (fv_value a)) eqn:Hne';
      [|apply Value_neqb_false_sym in Hne'; congruence].
    destruct (Value_compare_total _ _ Ha Hb) as [c Hc].
    pose proof (Value_ops_compare _ _ Hu) as (-> & _ & _ & E & _).
    rewrite both_unknown_sym in Hu. pose proof (Value_ops_compare _ _ Hu) as (-> & _).
    rewrite (Value_compare_swap (fv_value a)). rewrite Hc in *. rewrite E in Hne. by destruct c.
Qed.

(** Two keys without NaN are equal and not ordered, or ordered in exactly one direction. *)
Lemma hdk_order_cases (a b : HashableDimensionKey) :
  key_nan_free a → key_nan_free b →
  if hdk_eqb a b then hdk_ltb a b = false ∧ hdk_ltb b a = false
  else hdk_ltb b a = negb (hdk_ltb a b).
Proof.
  intros Ha Hb. destruct a as [l], b as [l'].
  unfold hdk_eqb, hdk_ltb, LessThan, key_nan_free in *. simpl in *.
  rewrite (Z.eqb_sym (Z.of_nat (length l'))).
  destruct (Z.eqb_spec (Z.of_nat (length l)) (Z.of_nat (length l'))) as [E|E]; simpl; [|lia].
  assert (length l = length l') as El by lia. clear E. revert l' Hb El.
  induction Ha as [|x l Hx Hl IH]; intros [|y l'] Hb El; try done; simpl in *.
  apply Forall_cons in Hb as [Hy Hb].
  destruct (FieldValue_neqb x y) eqn:E, (FieldValue_neqb y x) eqn:E'.
  - by apply FieldValue_ltb_asym.
  - apply FieldValue_neqb_false in E' as [Ef Ev%Value_neqb_false_sym].
    assert (FieldValue_neqb x y = false) by (by apply FieldValue_neqb_false). congruence.
  - apply FieldValue_neqb_false in E as [Ef Ev%Value_neqb_false_sym].
    assert (FieldValue_neqb y x = false) by (by apply FieldValue_neqb_false). congruence.
  - apply IH; [done|lia].
Qed.

(** On keys without NaN, [operator<] is compatible with [operator==]: two keys are
    equivalent for an ordered container exactly when they are equal, and two different keys
    are ordered in exactly one direction. *)
Theorem key_order_agrees_with_equality (a b : HashableDimensionKey) :
  key_nan_free a → key_nan_free b →
  (hdk_eqb a b = true ↔ hdk_ltb a b = false ∧ hdk_ltb b a = false)
  ∧ (hdk_eqb a b = false → hdk_ltb b a = negb (hdk_ltb a b)).
Proof.
  intros Ha Hb. pose proof (hdk_order_cases a b Ha Hb) as H.
  destruct (hdk_eqb a b); [naive_solver|]. split; [|done]. rewrite H.
  destruct (hdk_ltb a b); naive_solver.
Qed.

Lemma key_order_agrees_with_equality_witness :
  hdk_eqb (mkKey [FieldValue_of (mkField 1 0) VUNKNOWN]) (mkKey [FieldValue_of (mkField 1 0) VUNKNOWN])
  = true.
Proof.
  apply (key_order_agrees_with_equality (mkKey [FieldValue_of (mkField 1 0) VUNKNOWN])
    (mkKey [FieldValue_of (mkField 1 0) VUNKNOWN])).
  - repeat constructor.
  - repeat constructor.
  - split; reflexivity.
Defined.

(** ** Hash *)

Definition float_free (v : Value) : bool := match v with VFLOAT _ => false | _ => true end.

(** Equal keys have equal hashes, whatever the mixing functions are, when no value is a
    FLOAT (so [-0.0f] against [0.0f] is the only way to break the contract of an unordered
    container); UNKNOWN, DOUBLE and STORAGE values hash by their type alone. *)
Theorem equal_keys_hash_equal (mix : Z → Z → Z) (whiten hash_int hash_long : Z → Z)
    (hash_float : spec_float → Z) (hash_string : string → Z) (a b : HashableDimensionKey) :
  Forall (λ v, float_free (fv_value v) = true) (mValues a) → hdk_eqb a b = true →
  hashDimension mix whiten hash_int hash_long hash_float hash_string a
  = hashDimension mix whiten hash_int hash_long hash_float hash_string b.
Proof.
  intros Hf He. apply hdk_eqb_spec in He. unfold hashDimension. f_equal.
  destruct a as [l], b as [l']. simpl in *. generalize 0. revert Hf. unfold same_values in He.
  induction He as [|x y l l' Hxy Hl IH]; intros Hf h; [done|].
  apply Forall_cons in Hf as [Hx Hf]. simpl. rewrite IH by done. f_equal.
  apply FieldValue_neqb_false in Hxy as [-> Hv].
  apply Value_neqb_false in Hv as [Hv|Hv]; [by destruct (fv_value x), (fv_value y)|].
  destruct (fv_value x), (fv_value y); simpl in *; try done.
  all: try (injection Hv as Hv; apply Z.compare_eq in Hv; by subst).
  injection Hv as Hv. apply String.compare_eq_iff in Hv. by subst.
Qed.

Lemma equal_keys_hash_equal_witness :
  let h := hashDimension (λ h x, (h * 31 + x) mod 2 ^ 32) (λ h, h) (λ x, x) (λ x, x) (λ _, 0) (λ _, 7) in
  h (mkKey [mkFieldValue (mkField 1 2) (VINT 3) 1]) = h (mkKey [mkFieldValue (mkField 1 2) (VINT 3) 9]).
Proof.
  intros h. apply equal_keys_hash_equal; [repeat constructor|reflexivity].
Defined.

(** ** Extraction *)

(** One value of the key per matching (value, matcher) pair, in event order, with the field
    masked by the matcher. *)
Definition filterSpec (matchers : list Matcher) (values : list FieldValue) : list FieldValue :=
  flat_map
    (λ v, omap
       (λ m, if matches (fv_field v) m
             then Some (setFieldAndTag (Z.land (mField (fv_field v)) (mMask m)) (mTag (fv_field v)) v)
             else None) matchers)
    values.
Arguments filterSpec : simpl never.

Lemma mutate_last l v f :
  mutateValue (addValue (mkKey l) v) (length l) f = mkKey (l ++ [f v]).
Proof.
  unfold mutateValue, addValue. simpl. f_equal. rewrite <- (Nat.add_0_r (length l)).
  by rewrite alter_app_r.
Qed.

Lemma filterValues_inner v matchers l :
  fold_left (filterValues_step v) matchers (mkKey l, length l)
  = (mkKey (l ++ filterSpec matchers [v]), length (l ++ filterSpec matchers [v])).
Proof.
  revert l. induction matchers as [|m ms IH]; intros l.
  { unfold filterSpec. simpl. by rewrite app_nil_r. }
  cbn [fold_left]. unfold filterValues_step at 2.
  unfold filterSpec in *. simpl in *. rewrite app_nil_r in *.
  destruct (matches (fv_field v) m); [|apply IH].
  rewrite mutate_last.
  set (x := setFieldAndTag (Z.land (mField (fv_field v)) (mMask m)) (mTag (fv_field v)) v).
  assert (∀ r, l ++ x :: r = (l ++ [x]) ++ r) as Hr by (intros; by rewrite <- app_assoc).
  rewrite (Hr (list_omap _ _ _ _)). replace (S (length l)) with (length (l ++ [x])) by (rewrite length_app; simpl; lia).
  apply IH.
Qed.

Lemma filterValues_outer values matchers l :
  fold_left (λ st v, fold_left (filterValues_step v) matchers st) values (mkKey l, length l)
  = (mkKey (l ++ filterSpec matchers values), length (l ++ filterSpec matchers values)).
Proof.
  revert l. induction values as [|v values IH]; intros l; simpl; [by rewrite app_nil_r|].
  rewrite filterValues_inner, IH.
  assert (filterSpec matchers (v :: values) = filterSpec matchers [v] ++ filterSpec matchers values)
    as -> by (unfold filterSpec; simpl; by rewrite app_nil_r).
  by rewrite app_assoc.
Qed.

(** Starting from an empty key, [filterValues] returns one value per matching pair of an
    event value and a matcher, in event order, with unchanged data and the field masked by
    the matcher; it reports success exactly when the key is not empty. *)
Theorem filterValues_correct (matchers : list Matcher) (values : list FieldValue) :
  filterValues matchers values DEFAULT_DIMENSION_KEY
  = (negb (bool_decide (filterSpec matchers values = [])), mkKey (filterSpec matchers values)).
Proof.
  unfold filterValues, DEFAULT_DIMENSION_KEY.
  pose proof (filterValues_outer values matchers []) as H. simpl in H. rewrite H. f_equal.
  destruct (filterSpec matchers values); [done|]. rewrite bool_decide_eq_false_2 by done.
  apply Z.ltb_lt. cbn [length]. lia.
Qed.

Definition renamed (fields : list Matcher) (l : list FieldValue) : list FieldValue :=
  zip_with (λ m v, setFieldAndTag (mField (mMatcher m)) (mTag (mMatcher m)) v) fields l.

Lemma renameFields_correct fields key :
  mValues (renameFields fields key)
  = if bool_decide (length (mValues key) = length fields)
    then renamed fields (mValues key) else mValues key.
Proof.
  unfold renameFields. destruct key as [l]. simpl.
  destruct (Z.eqb_spec (Z.of_nat (length l)) (Z.of_nat (length fields))) as [E|E]; simpl;
    case_bool_decide; try lia; [|done]. clear E.
  assert (∀ n pre suf pref suff, length pre = n → length pref = n → length suf = length suff →
    mValues (fold_left (λ key i, match (pref ++ suff) !! i with
        | Some m => mutateValue key i (setFieldAndTag (mField (mMatcher m)) (mTag (mMatcher m)))
        | None => key end) (seq n (length suf)) (mkKey (pre ++ suf)))
    = pre ++ renamed suff suf) as H'.
  { intros n pre suf. revert n pre. induction suf as [|v suf IH]; intros n pre pref suff H1 H2 H3.
    - destruct suff; done.
    - destruct suff as [|m suff]; [done|]. simpl.
      rewrite lookup_app_r, H2, Nat.sub_diag by lia. simpl.
      assert (mutateValue (mkKey (pre ++ v :: suf)) n
          (setFieldAndTag (mField (mMatcher m)) (mTag (mMatcher m)))
        = mkKey ((pre ++ [setFieldAndTag (mField (mMatcher m)) (mTag (mMatcher m)) v]) ++ suf)) as ->.
      { unfold mutateValue. simpl. f_equal. rewrite <- (Nat.add_0_r n), <- H1, alter_app_r.
        by rewrite <- app_assoc. }
      rewrite (cons_middle m pref suff), app_assoc.
      rewrite IH; [by rewrite <- app_assoc|..]; rewrite ?length_app; simpl in *; lia. }
  apply (H' 0%nat [] l [] fields); done.
Qed.

(** The key with which a metric queries its condition carries the values the link selects
    from the event, in order, under the fields of the condition's dimensions, whenever the
    link selects as many values as the condition has fields; otherwise the extracted key is
    left under the fields of the event. *)
Theorem condition_key_renamed (values : list FieldValue) (link : Metric2Condition) :
  let extracted := filterSpec (mc_metricFields link) values in
  let key := getDimensionForCondition values link DEFAULT_DIMENSION_KEY in
  fv_value <$> mValues key = fv_value <$> extracted
  ∧ (length extracted = length (mc_conditionFields link) →
     fv_field <$> mValues key = mMatcher <$> mc_conditionFields link)
  ∧ (length extracted ≠ length (mc_conditionFields link) → mValues key = extracted).
Proof.
  intros extracted key. unfold key, getDimensionForCondition. rewrite filterValues_correct.
  fold extracted. rewrite renameFields_correct. simpl. case_bool_decide as E.
  - unfold renamed. revert E. generalize (mc_conditionFields link).
    induction extracted as [|v l IH]; intros [|m ms] E; try done.
    csimpl in *. destruct (IH ms) as (-> & IH2 & _); [lia|]. split_and!; [done| |lia].
    intros _. rewrite IH2 by lia. by destruct m as [[]].
  - split_and!; done.
Qed.

Lemma condition_key_renamed_witness :
  let v := FieldValue_of (mkField 10 0x00010000) (VINT 5) in
  let link := mkMetric2Condition 1 [getSimpleMatcher 10 1] [getSimpleMatcher 20 2] in
  mValues (getDimensionForCondition [v] link DEFAULT_DIMENSION_KEY)
  = [mkFieldValue (mkField 20 0x00020000) (VINT 5) 1].
Proof.
  intros v link. destruct (condition_key_renamed [v] link) as (H1 & H2 & _).
  specialize (H2 eq_refl). vm_compute. reflexivity.
Defined.

(** ** Parcels *)

(** The leaves of a parcel with their paths. *)
Fixpoint parcelLeaves (path : list Z) (p : Parcel) {struct p} : list (list Z * Value) :=
  if pc_valueType p =? STATS_DIMENSIONS_VALUE_TUPLE_TYPE then
    (fix go cs := match cs with [] => [] | c :: cs' => parcelLeaves (path ++ [pc_field p]) c ++ go cs' end)
      (pc_tupleValue p)
  else [(path ++ [pc_field p], pc_value p)].

Lemma parcelLeaves_tuple path field cs :
  parcelLeaves path (mkParcel field STATS_DIMENSIONS_VALUE_TUPLE_TYPE VUNKNOWN cs)
  = flat_map (parcelLeaves (path ++ [field])) cs.
Proof. simpl. induction cs; simpl; congruence. Qed.

Lemma parcelLeaves_leaf path cd d :
  parcelLeaves path (leafParcel cd d)
  = [(path ++ [getPosAtDepth (fv_field d) cd], pc_value (leafParcel cd d))].
Proof. unfold leafParcel. by destruct (fv_value d). Qed.

(** The scalar a parcel can carry. *)
Definition parcelValue (v : Value) : Value :=
  match v with VINT _ | VLONG _ | VFLOAT _ | VSTRING _ => v | _ => VUNKNOWN end.

Lemma leafParcel_value cd d : pc_value (leafParcel cd d) = parcelValue (fv_value d).
Proof. unfold leafParcel. by destruct (fv_value d). Qed.

(** The decoded positions of a field from a depth down to its own. *)
Definition pathFrom (cd : Z) (d : FieldValue) : list Z :=
  getPosAtDepth (fv_field d) <$> seqZ cd (getDepth (fv_field d) - cd + 1).

Lemma pathFrom_leaf cd d :
  getDepth (fv_field d) = cd → pathFrom cd d = [getPosAtDepth (fv_field d) cd].
Proof.
  intros E. unfold pathFrom. rewrite E, seqZ_cons by lia.
  by rewrite seqZ_nil by lia.
Qed.

Lemma pathFrom_cons cd d : cd < getDepth (fv_field d) →
  pathFrom cd d = getPosAtDepth (fv_field d) cd :: pathFrom (cd + 1) d.
Proof.
  intros E. unfold pathFrom. rewrite seqZ_cons, fmap_cons by lia.
  replace (Z.pred (getDepth (fv_field d) - cd + 1)) with (getDepth (fv_field d) - (cd + 1) + 1) by lia.
  by rewrite Z.add_1_r.
Qed.

(** Fields with the same prefix have the same position at the last depth of the prefix. *)
Lemma same_prefix_same_pos f g cd : 0 <= cd <= 2 →
  getPrefix f (cd + 1) = getPrefix g (cd + 1) → getPosAtDepth f cd = getPosAtDepth g cd.
Proof.
  intros Hcd. unfold getPrefix, getPosAtDepth, getRawPosAtDepth, rawAtDepth.
  replace (cd + 1 =? 0) with false by lia. replace (cd + 1 - 1) with cd by lia.
  unfold getPath. replace ((2 <? cd) || (cd <? 0)) with false by lia.
  set (s := 8 * (kMaxLogDepth - cd)). intros E. f_equal.
  assert (∀ w, Z.land (Z.land w 0xffffff) (Z.shiftl 0xff s)
    = Z.land (Z.land (Z.land w 0xffffff) (Z.shiftl (-1) s)) (Z.shiftl 0xff s)) as H.
  { intros w. rewrite <- (Z.land_assoc _ (Z.shiftl (-1) s)), <- Z.shiftl_land.
    by rewrite Z.land_m1_l. }
  rewrite (H (mField f)), (H (mField g)), E. done.
Qed.

(** ... and the same shorter prefix. *)
Lemma same_prefix_shorter f g cd : 0 <= cd <= 2 →
  getPrefix f (cd + 1) = getPrefix g (cd + 1) → getPrefix f cd = getPrefix g cd.
Proof.
  intros Hcd. unfold getPrefix. replace (cd + 1 =? 0) with false by lia.
  replace (cd + 1 - 1) with cd by lia. destruct (Z.eqb_spec cd 0); [done|].
  unfold getPath. replace ((2 <? cd) || (cd <? 0)) with false by lia.
  replace ((2 <? cd - 1) || (cd - 1 <? 0)) with false by lia.
  replace (8 * (kMaxLogDepth - (cd - 1))) with (8 + 8 * (kMaxLogDepth - cd)) by (unfold kMaxLogDepth; lia).
  set (s := 8 * (kMaxLogDepth - cd)). intros E.
  assert (∀ w, Z.land w (Z.shiftl (-1) (8 + s))
    = Z.land (Z.land w (Z.shiftl (-1) s)) (Z.shiftl (-1) (8 + s))) as H.
  { intros w. rewrite <- (Z.land_assoc w), <- (Z.shiftl_shiftl (-1) 8 s), <- Z.shiftl_land by lia.
    by rewrite Z.land_m1_l. }
  by rewrite (H (Z.land (mField f) _)), (H (Z.land (mField g) _)), E.
Qed.

Definition depth_ok (d : FieldValue) : Prop := 0 <= getDepth (fv_field d) <= 2.

(** The head of the suffix can be attached under the current parent. *)
Definition attachable (cd cp : Z) (d : FieldValue) : Prop :=
  cd <= getDepth (fv_field d) ∧ getPrefix (fv_field d) cd = cp.

Definition populate_post (cd cp : Z) (dims : list FieldValue)
    (res : list Parcel * list FieldValue) : Prop :=
  ∃ consumed, dims = consumed ++ res.2
    ∧ Forall (attachable cd cp) consumed
    ∧ (∀ P, flat_map (parcelLeaves P) res.1
         = (λ d, (P ++ pathFrom cd d, parcelValue (fv_value d))) <$> consumed)
    ∧ match res.2 with [] => True | d :: _ => ¬ attachable cd cp d end.

Lemma populate_correct fuel : ∀ cd cp dims,
  0 <= cd <= 2 → Forall depth_ok dims → (4 * length dims + Z.to_nat (3 - cd) < fuel)%nat →
  ∃ res, populateStatsDimensionsValueParcelChildren fuel cd cp dims = Some res
    ∧ populate_post cd cp dims res.
Proof.
  induction fuel as [|fuel IH]; intros cd cp dims Hcd Hok Hfuel; [lia|].
  cbn [populateStatsDimensionsValueParcelChildren]. replace (2 <? cd) with false by lia.
  destruct dims as [|dim rest].
  { exists ([], []). split; [done|]. exists []. repeat split; constructor. }
  pose proof Hok as [Hd Hrest]%Forall_cons. unfold depth_ok in Hd. simpl in Hfuel.
  destruct ((getDepth (fv_field dim) =? cd) && (getPrefix (fv_field dim) cd =? cp)) eqn:E1.
  { bool_to_prop. destruct (IH cd cp rest) as ([cs r] & -> & con & -> & Hat & Hl & Hr); [done..|lia|].
    simpl. eexists. split; [done|]. exists (dim :: con). split_and!; [done| | |done].
    - constructor; [|done]. split; [lia|done].
    - intros P. simpl. rewrite parcelLeaves_leaf, leafParcel_value, pathFrom_leaf, Hl by done. done. }
  destruct ((cd <? getDepth (fv_field dim)) && (getPrefix (fv_field dim) cd =? cp)) eqn:E2.
  2: { eexists. split; [done|]. exists []. split_and!; [done|constructor|done|].
       cbn [snd]. intros [??]. lia. }
  bool_to_prop.
  destruct (IH (cd + 1) (getPrefix (fv_field dim) (cd + 1)) (dim :: rest))
    as ([sub dims'] & -> & con & Hsplit & Hat & Hl & Hr); [lia|done|cbn [length]; lia|]. cbn [fst snd] in *.
  assert (∃ con', con = dim :: con' ∧ rest = con' ++ dims') as (con' & -> & ->).
  { destruct con as [|c con']; cbn [app] in Hsplit.
    - subst dims'. destruct Hr. split; [lia|done].
    - injection Hsplit as -> ->. eauto. }
  assert (Forall depth_ok dims') as Hok' by (apply Forall_app in Hrest; tauto).
  rewrite length_app in Hfuel. cbn [mbind option_bind].
  destruct (IH cd cp dims') as ([cs r] & -> & con2 & -> & Hat2 & Hl2 & Hr2); [done..|lia|].
  cbn [mbind option_bind]. eexists. split; [done|]. exists ((dim :: con') ++ con2). cbn [fst snd] in *.
  split_and!; [by rewrite <- app_assoc| | |done].
  - apply Forall_app. split; [|done]. eapply Forall_impl; [exact Hat|].
    intros d [? Hp]. split; [lia|]. subst cp. by apply same_prefix_shorter.
  - intros P. cbn [flat_map]. rewrite parcelLeaves_tuple, Hl, Hl2, fmap_app. f_equal.
    apply list_fmap_ext. intros i d Hi%list_elem_of_lookup_2.
    destruct (proj1 (Forall_forall _ _) Hat d Hi) as [? Hp].
    rewrite <- app_assoc. simpl. rewrite (pathFrom_cons cd d) by lia.
    by rewrite (same_prefix_same_pos _ _ cd ltac:(lia) Hp).
Qed.

(** Converting a key whose fields have depth at most two into a parcel terminates, loses
    nothing and keeps the order: the leaves of the parcel tree, read left to right with the
    field numbers on their paths, are the decoded positions and the values of the key. *)
Theorem parcel_preserves_key (key : HashableDimensionKey) :
  Forall depth_ok (mValues key) →
  ∃ p, toStatsDimensionsValueParcel key = Some p
    ∧ flat_map (parcelLeaves []) (pc_tupleValue p)
      = (λ d, (pathFrom 0 d, parcelValue (fv_value d))) <$> mValues key
    ∧ (∀ v, head (mValues key) = Some v → pc_field p = mTag (fv_field v)).
Proof.
  intros Hok. unfold toStatsDimensionsValueParcel. destruct key as [l]. simpl in *.
  destruct l as [|v l]; [by eexists|].
  destruct (populate_correct (parcelFuel (length (v :: l))) 0 0 (v :: l))
    as ([cs r] & -> & con & Heq & _ & Hl & Hr); [lia|done|unfold parcelFuel; simpl; lia|].
  simpl in *. assert (r = []) as ->.
  { destruct r as [|d r]; [done|]. destruct Hr. rewrite Heq in Hok.
    apply Forall_app in Hok as [_ [Hd _]%Forall_cons]. by split; [apply Hd|]. }
  rewrite app_nil_r in Heq. subst con. eexists. split; [done|]. simpl. split; [|by intros ? [= ->]].
  rewrite Hl. done.
Qed.

Lemma parcel_preserves_key_witness :
  ∃ p, toStatsDimensionsValueParcel
    (mkKey [FieldValue_of (Field_of_pos 10 [1; 1; 1] 2) (VINT 1000);
            FieldValue_of (Field_of_pos 10 [2; 0; 0] 0) (VSTRING "x")]) = Some p
    ∧ flat_map (parcelLeaves []) (pc_tupleValue p) = [([1; 1; 1], VINT 1000); ([2], VSTRING "x")].
Proof.
  destruct (parcel_preserves_key
    (mkKey [FieldValue_of (Field_of_pos 10 [1; 1; 1] 2) (VINT 1000);
            FieldValue_of (Field_of_pos 10 [2; 0; 0] 0) (VSTRING "x")])) as (p & H1 & H2 & _).
  - repeat constructor; vm_compute; congruence.
  - exists p. split; [exact H1|]. rewrite H2. vm_compute. reflexivity.
Defined.
