(* ===== verification/Matchers.v ===== *)
(** * Atom matchers (matchers/matcher_util.cpp, SimpleAtomMatchingTracker.cpp,
      CombinationAtomMatchingTracker.cpp, EventMatcherWizard.cpp)

    Matching of one event against the matchers of a configuration: value predicates on
    the field tree of the event, boolean combinations with a per-event result cache, and
    the initialization of the combination graph with its cycle detection. *)
From Stdlib Require Import SpecFloat.
From S2P Require Import Prelude UMap FieldValue DimensionKey.

(** The part of a log event the matchers, conditions and metrics read (logd/LogEvent.h). *)
Record LogEvent := mkLogEvent {
  GetTagId : Z;
  GetUid : Z;
  GetElapsedTimestampNs : Z;
  getValues : list FieldValue;
  getExclusiveStateFieldIndex : Z;
  getResetState : Z;
  shouldTruncateTimestamp : bool
}.

Inductive LogicalOperation := LOGICAL_OPERATION_UNSPECIFIED | AND | OR | NOT | NAND | NOR.

#[export] Instance LogicalOperation_eq_dec : EqDecision LogicalOperation.
Proof. solve_decision. Defined.

(** The boolean operations of the configuration language, on the list of operands
    (specification). *)
Definition combine_op (op : LogicalOperation) (bs : list bool) : bool :=
  match op with
  | AND => forallb id bs
  | OR => existsb id bs
  | NOT => negb (default true (head bs))
  | NAND => negb (forallb id bs)
  | NOR => negb (existsb id bs)
  | LOGICAL_OPERATION_UNSPECIFIED => false
  end.

Inductive MatchingState := kNotComputed | kNotMatched | kMatched.

#[export] Instance MatchingState_eq_dec : EqDecision MatchingState.
Proof. solve_decision. Defined.

Definition is_matched (s : MatchingState) : bool := bool_decide (s = kMatched).

(** [matcherResults\[i\]] *)
Definition resultAt (matcherResults : list MatchingState) (i : nat) : MatchingState :=
  default kNotComputed (matcherResults !! i).

Definition combinationMatch (children : list nat) (operation : LogicalOperation)
    (matcherResults : list MatchingState) : bool :=
  match operation with
  | AND => forallb (λ c, is_matched (resultAt matcherResults c)) children
  | OR => existsb (λ c, is_matched (resultAt matcherResults c)) children
  | NOT =>
      match children with
      | c :: _ => bool_decide (resultAt matcherResults c = kNotMatched)
      | [] => false
      end
  | NAND => existsb (λ c, negb (is_matched (resultAt matcherResults c))) children
  | NOR => negb (existsb (λ c, is_matched (resultAt matcherResults c)) children)
  | LOGICAL_OPERATION_UNSPECIFIED => false
  end.

(** ** What the matchers use of the uid map (packages/UidMap.h) *)

Class UidMapOps (U : Type) := {
  (** [UidMap::sAidToUidMapping.find] *)
  sAidToUidMapping : string → option Z;
  (** [getAppNamesFromUid(uid, returnNormalized)] *)
  getAppNamesFromUid : U → Z → bool → list string
}.

(** ** FieldValueMatcher messages *)

Inductive FieldValueMatcher :=
  | mkFVM (field : Z) (position : option Position) (value_matcher : ValueMatcher)
with ValueMatcher :=
  | kMatchesTuple (field_value_matcher : list FieldValueMatcher)
  | kEqBool (eq_bool : bool)
  | kEqString (eq_string : string)
  | kNeqAnyString (str_value : list string)
  | kEqAnyString (str_value : list string)
  | kEqInt (eq_int : Z)
  | kLtInt (lt_int : Z)
  | kGtInt (gt_int : Z)
  | kLtFloat (lt_float : spec_float)
  | kGtFloat (gt_float : spec_float)
  | kLteInt (lte_int : Z)
  | kGteInt (gte_int : Z)
  | VALUE_MATCHER_NOT_SET.

Definition fvm_field (m : FieldValueMatcher) : Z := let 'mkFVM f _ _ := m in f.
Definition fvm_position (m : FieldValueMatcher) : option Position := let 'mkFVM _ p _ := m in p.
Definition fvm_value_matcher (m : FieldValueMatcher) : ValueMatcher := let 'mkFVM _ _ v := m in v.

Record SimpleAtomMatcher := mkSimpleAtomMatcher {
  sam_atom_id : option Z; sam_field_value_matcher : list FieldValueMatcher
}.

Section matching.
Context {U : Type} `{!UidMapOps U} (uidMap : U).

Definition tryMatchString (fieldValue : FieldValue) (str_match : string) : bool :=
  if isAttributionUidField (fv_field fieldValue) (fv_value fieldValue) || isUidField fieldValue
  then
    match int_value (fv_value fieldValue) with
    | None => false
    | Some uid =>
        match sAidToUidMapping (U := U) str_match with
        | Some aid => wrap32 aid =? uid
        | None => existsb (String.eqb str_match) (getAppNamesFromUid uidMap uid true)
        end
    end
  else
    match fv_value fieldValue with
    | VSTRING s => String.eqb s str_match
    | _ => false
    end.

(** An integer test covering both INT and LONG values. *)
Definition intTest (p : Z → bool) (v : Value) : bool :=
  match v with VINT x => p x | VLONG x => p x | _ => false end.

(** The test of one value in the branches after the range has been found. *)
Definition valueMatches (vm : ValueMatcher) (fv : FieldValue) : bool :=
  match vm with
  | kMatchesTuple _ => false
  | kEqBool b => intTest (λ x, Bool.eqb (negb (x =? 0)) b) (fv_value fv)
  | kEqString s => tryMatchString fv s
  | kNeqAnyString l => negb (existsb (tryMatchString fv) l)
  | kEqAnyString l => existsb (tryMatchString fv) l
  | kEqInt n => intTest (λ x, n =? x) (fv_value fv)
  | kLtInt n => intTest (λ x, x <? n) (fv_value fv)
  | kGtInt n => intTest (λ x, n <? x) (fv_value fv)
  | kLtFloat f => match fv_value fv with VFLOAT x => SFltb x f | _ => false end
  | kGtFloat f => match fv_value fv with VFLOAT x => SFltb f x | _ => false end
  | kLteInt n => intTest (λ x, x <=? n) (fv_value fv)
  | kGteInt n => intTest (λ x, n <=? x) (fv_value fv)
  | VALUE_MATCHER_NOT_SET => false
  end.

Section range.
Context (values : list FieldValue).

Definition posAt (depth : Z) (i : nat) : Z :=
  match values !! i with Some v => getPosAtDepth (fv_field v) depth | None => 0 end.

Definition lastAt (depth : Z) (i : nat) : bool :=
  match values !! i with Some v => isLastPos (fv_field v) depth | None => false end.

(** The first loop: the range of the entry field; stops at a larger position. *)
Fixpoint scanField (depth field : Z) (i n : nat) (newStart : option nat) (newEnd : nat)
    : option nat * nat :=
  match n with
  | O => (newStart, newEnd)
  | S n' =>
      let pos := posAt depth i in
      if pos =? field then
        scanField depth field (S i) n'
          (match newStart with None => Some i | Some _ => newStart end) (S i)
      else if field <? pos then (newStart, newEnd)
      else scanField depth field (S i) n' newStart newEnd
  end.

(** [for (i = start; i < end; i++) if (p(i)) { x = i; break; }] with [x] initially [d]. *)
Fixpoint scanFirst (p : nat → bool) (i n d : nat) : nat :=
  match n with
  | O => d
  | S n' => if p i then i else scanFirst p (S i) n' d
  end.

(** Position ANY: the ranges of the sub trees. *)
Fixpoint scanGroups (depth : Z) (i n : nat) (newStart : nat) (currentPos : Z) (end_ : nat)
    : list (nat * nat) :=
  match n with
  | O => [(newStart, end_)]
  | S n' =>
      let newPos := posAt depth i in
      if negb (newPos =? currentPos)
      then (newStart, i) :: scanGroups depth (S i) n' i newPos end_
      else scanGroups depth (S i) n' newStart currentPos end_
  end.

(** The range left for value matching and the ranges for tuple matching. *)
Definition selectPosition (p : Position) (depth : Z) (start end_ : nat)
    : nat * nat * list (nat * nat) :=
  match p with
  | FIRST =>
      let e := scanFirst (λ i, negb (posAt depth i =? 1)) start (end_ - start) end_ in
      (start, e, [(start, e)])
  | LAST =>
      let s := scanFirst (lastAt depth) start (end_ - start) start in
      (s, end_, [(s, end_)])
  | ANY => (start, end_, scanGroups depth start (end_ - start) start (posAt depth start) end_)
  | ALL => (start, end_, [])
  | POSITION_UNKNOWN => (start, end_, [])
  end.

Definition anyInRange (p : FieldValue → bool) (start end_ : nat) : bool :=
  existsb (λ i, match values !! i with Some v => p v | None => false end)
    (seq start (end_ - start)).

(** [matchesSimple(uidMap, matcher, values, start, end, depth)] *)
Fixpoint matchesSimple_range (matcher : FieldValueMatcher) (start end_ : nat) (depth : Z)
    {struct matcher} : bool :=
  let finish depth start end_ (ranges : list (nat * nat)) :=
    match fvm_value_matcher matcher with
    | kMatchesTuple subs =>
        existsb
          (λ range,
            (fix all subs :=
               match subs with
               | [] => true
               | sub :: subs' =>
                   if matchesSimple_range sub range.1 range.2 (depth + 1)
                   then all subs' else false
               end) subs)
          ranges
    | vm => anyInRange (valueMatches vm) start end_
    end in
  if 2 <? depth then false
  else if (end_ <=? start)%nat then false
  else
    match scanField depth (fvm_field matcher) start (end_ - start) None end_ with
    | (None, _) => false
    | (Some start, end_) =>
        match fvm_position matcher with
        | None => finish depth start end_ [(start, end_)]
        | Some p =>
            let depth := depth + 1 in
            if 2 <? depth then false
            else
              let '(start, end_, ranges) := selectPosition p depth start end_ in
              finish depth start end_ ranges
        end
    end.
End range.

(** [matchesSimple(uidMap, simpleMatcher, event)]; an absent [atom_id()] reads as 0. *)
Definition matchesSimple (simpleMatcher : SimpleAtomMatcher) (event : LogEvent) : bool :=
  if negb (GetTagId event =? default 0 (sam_atom_id simpleMatcher)) then false
  else
    forallb
      (λ m, matchesSimple_range (getValues event) m 0 (length (getValues event)) 0)
      (sam_field_value_matcher simpleMatcher).
End matching.
