(* ===== verification/UidMap.v ===== *)
(** * The uid map (packages/UidMap.{h,cpp})

    Which packages belong to a uid, with their versions; the changes since each configuration was last
    told; isolated uids.  The strings of the code are UTF-8 conversions of the ones it is given.  What
    the map tells its listener is the second part of an operation's result.  The loop that keeps the
    changes below a limit of memory may not end: [None] is a loop without end. *)
From Stdlib Require Import Ascii.
From S2P Require Import Prelude Matchers.

(** ** Data *)

Record AppData := mkAppData {
  versionCode : Z; versionString : string; installer : string; deleted : bool
}.

Record ChangeRecord := mkChangeRecord {
  cr_deletion : bool;
  cr_timestampNs : Z;
  cr_package : string;
  cr_uid : Z;
  cr_version : Z;
  cr_prevVersion : Z;
  cr_versionString : string;
  cr_prevVersionString : string
}.

(** [ConfigKey]: uid and id. *)
Abbreviation ConfigKey := (Z * Z)%type.

Definition ConfigKey_ltb (a b : ConfigKey) : bool :=
  if a.1 <? b.1 then true else if b.1 <? a.1 then false else a.2 <? b.2.

Record UidMap := mkUidMap {
  mMap : gmap (Z * string) AppData;
  mIsolatedUidMap : gmap Z Z;
  mChanges : list ChangeRecord;
  mDeletedApps : list (Z * string);
  mSubscriber : bool;
  mLastUpdatePerConfigKey : gmap ConfigKey Z;
  maxBytesOverride : Z;
  mBytesUsed : Z
}.

Definition UidMap_new : UidMap := mkUidMap ∅ ∅ [] [] false ∅ 0 0.

Definition set_apps (m : gmap (Z * string) AppData) (deletedApps : list (Z * string)) (u : UidMap) : UidMap :=
  mkUidMap m (mIsolatedUidMap u) (mChanges u) deletedApps (mSubscriber u) (mLastUpdatePerConfigKey u)
    (maxBytesOverride u) (mBytesUsed u).
Definition set_changes (l : list ChangeRecord) (bytes : Z) (u : UidMap) : UidMap :=
  mkUidMap (mMap u) (mIsolatedUidMap u) l (mDeletedApps u) (mSubscriber u) (mLastUpdatePerConfigKey u)
    (maxBytesOverride u) bytes.
Definition set_isolated (m : gmap Z Z) (u : UidMap) : UidMap :=
  mkUidMap (mMap u) m (mChanges u) (mDeletedApps u) (mSubscriber u) (mLastUpdatePerConfigKey u)
    (maxBytesOverride u) (mBytesUsed u).
Definition set_last (m : gmap ConfigKey Z) (u : UidMap) : UidMap :=
  mkUidMap (mMap u) (mIsolatedUidMap u) (mChanges u) (mDeletedApps u) (mSubscriber u) m
    (maxBytesOverride u) (mBytesUsed u).

(** What the listener is told. *)
Inductive Broadcast :=
  | onUidMapReceived (timestamp : Z)
  | notifyAppUpgraded (timestamp : Z) (app : string) (uid version : Z)
  | notifyAppRemoved (timestamp : Z) (app : string) (uid : Z).

(** ** Queries *)

Definition hasApp (uid : Z) (packageName : string) (u : UidMap) : bool :=
  match mMap u !! (uid, packageName) with Some a => negb (deleted a) | None => false end.

(** [::tolower] in the C locale *)
Definition tolower (c : ascii) : ascii :=
  let n := N_of_ascii c in if ((65 <=? n) && (n <=? 90))%N then ascii_of_N (n + 32) else c.

Fixpoint normalizeAppName (appName : string) : string :=
  match appName with
  | EmptyString => EmptyString
  | String c s => String (tolower c) (normalizeAppName s)
  end.

(** The names of the apps of a uid, a set. *)
Definition appNamesFromUid (u : UidMap) (uid : Z) (returnNormalized : bool) : list string :=
  remove_dups (omap (λ kv : Z * string * AppData,
    if (kv.1.1 =? uid) && negb (deleted kv.2)
    then Some (if returnNormalized then normalizeAppName kv.1.2 else kv.1.2) else None)
    (map_to_list (mMap u))).

Definition getAppVersion (uid : Z) (packageName : string) (u : UidMap) : Z :=
  match mMap u !! (uid, packageName) with
  | Some a => if deleted a then 0 else versionCode a
  | None => 0
  end.

Definition getAppUid (package : string) (u : UidMap) : list Z :=
  remove_dups (omap (λ kv : Z * string * AppData,
    if bool_decide (kv.1.2 = package) && negb (deleted kv.2) then Some kv.1.1 else None)
    (map_to_list (mMap u))).

Definition assignIsolatedUid (isolatedUid parentUid : Z) (u : UidMap) : UidMap :=
  set_isolated (<[isolatedUid := parentUid]> (mIsolatedUidMap u)) u.

Definition removeIsolatedUid (isolatedUid : Z) (u : UidMap) : UidMap :=
  set_isolated (delete isolatedUid (mIsolatedUidMap u)) u.

Definition getHostUidOrSelf (uid : Z) (u : UidMap) : Z := default uid (mIsolatedUidMap u !! uid).

Definition aidToUid : list (string * Z) := [
    ("AID_ROOT", 0); ("AID_SYSTEM", 1000); ("AID_RADIO", 1001); ("AID_BLUETOOTH", 1002);
    ("AID_GRAPHICS", 1003); ("AID_INPUT", 1004); ("AID_AUDIO", 1005); ("AID_CAMERA", 1006);
    ("AID_LOG", 1007); ("AID_COMPASS", 1008); ("AID_MOUNT", 1009); ("AID_WIFI", 1010);
    ("AID_ADB", 1011); ("AID_INSTALL", 1012); ("AID_MEDIA", 1013); ("AID_DHCP", 1014);
    ("AID_SDCARD_RW", 1015); ("AID_VPN", 1016); ("AID_KEYSTORE", 1017); ("AID_USB", 1018);
    ("AID_DRM", 1019); ("AID_MDNSR", 1020); ("AID_GPS", 1021); ("AID_MEDIA_RW", 1023);
    ("AID_MTP", 1024); ("AID_DRMRPC", 1026); ("AID_NFC", 1027); ("AID_SDCARD_R", 1028);
    ("AID_CLAT", 1029); ("AID_LOOP_RADIO", 1030); ("AID_MEDIA_DRM", 1031);
    ("AID_PACKAGE_INFO", 1032); ("AID_SDCARD_PICS", 1033); ("AID_SDCARD_AV", 1034);
    ("AID_SDCARD_ALL", 1035); ("AID_LOGD", 1036); ("AID_SHARED_RELRO", 1037);
    ("AID_DBUS", 1038); ("AID_TLSDATE", 1039); ("AID_MEDIA_EX", 1040);
    ("AID_AUDIOSERVER", 1041); ("AID_METRICS_COLL", 1042); ("AID_METRICSD", 1043);
    ("AID_WEBSERV", 1044); ("AID_DEBUGGERD", 1045); ("AID_MEDIA_CODEC", 1046);
    ("AID_CAMERASERVER", 1047); ("AID_FIREWALL", 1048); ("AID_TRUNKS", 1049);
    ("AID_NVRAM", 1050); ("AID_DNS", 1051); ("AID_DNS_TETHER", 1052);
    ("AID_WEBVIEW_ZYGOTE", 1053); ("AID_VEHICLE_NETWORK", 1054); ("AID_MEDIA_AUDIO", 1055);
    ("AID_MEDIA_VIDEO", 1056); ("AID_MEDIA_IMAGE", 1057); ("AID_TOMBSTONED", 1058);
    ("AID_MEDIA_OBB", 1059); ("AID_ESE", 1060); ("AID_OTA_UPDATE", 1061);
    ("AID_AUTOMOTIVE_EVS", 1062); ("AID_LOWPAN", 1063); ("AID_HSM", 1064);
    ("AID_RESERVED_DISK", 1065); ("AID_STATSD", 1066); ("AID_INCIDENTD", 1067);
    ("AID_SECURE_ELEMENT", 1068); ("AID_LMKD", 1069); ("AID_LLKD", 1070); ("AID_IORAPD", 1071);
    ("AID_GPU_SERVICE", 1072); ("AID_NETWORK_STACK", 1073); ("AID_GSID", 1074);
    ("AID_FSVERITY_CERT", 1075); ("AID_CREDSTORE", 1076); ("AID_EXTERNAL_STORAGE", 1077);
    ("AID_EXT_DATA_RW", 1078); ("AID_EXT_OBB_RW", 1079); ("AID_CONTEXT_HUB", 1080);
    ("AID_SHELL", 2000); ("AID_CACHE", 2001); ("AID_DIAG", 2002)
].

(** What the matchers use. *)
#[export] Instance uid_map_ops : UidMapOps UidMap := {|
  sAidToUidMapping name := (λ e, e.2) <$> find (λ e, String.eqb e.1 name) aidToUid;
  Matchers.getAppNamesFromUid := appNamesFromUid
|}.

(** ** Updates *)

Definition kMaxBytesUsedUidMap : Z := 50 * 1024.
Definition kMaxDeletedAppsInUidMap : Z := 100.

Section records.
(** [kBytesChangeRecord] is [sizeof(ChangeRecord)], [Hash64] the hash of strings of the reports. *)
Context (kBytesChangeRecord : Z) (Hash64 : string → Z).

(** The loop of [ensureBytesUsedBelowLimit]. *)
Fixpoint dropChanges (limit : Z) (changes : list ChangeRecord) (bytes : Z)
    : option (list ChangeRecord * Z) :=
  if bytes <=? limit then Some (changes, bytes)
  else
    match changes with
    | [] => None
    | _ :: changes => dropChanges limit changes (bytes - kBytesChangeRecord)
    end.

Definition ensureBytesUsedBelowLimit (u : UidMap) : option UidMap :=
  let limit := if maxBytesOverride u <=? 0 then kMaxBytesUsedUidMap else maxBytesOverride u in
  '(changes, bytes) ← dropChanges limit (mChanges u) (mBytesUsed u);
  Some (set_changes changes bytes u).

(** Tells the listener, if there is one. *)
Definition told (b : Broadcast) (u : UidMap) : option Broadcast := if mSubscriber u then Some b else None.

(** The apps of a snapshot: the arguments are arrays of the same length. *)
Definition snapshotApps (apps : list (Z * string * AppData)) : gmap (Z * string) AppData :=
  foldl (λ m '(key, a), <[key := a]> m) ∅ apps.

Definition updateMap (timestamp : Z) (apps : list (Z * string * AppData)) (u : UidMap)
    : option (UidMap * option Broadcast) :=
  let deletedApps := filter (λ kv : Z * string * AppData, deleted kv.2 = true) (map_to_list (mMap u)) in
  let m := snapshotApps apps in
  let m := foldl (λ (m : gmap (Z * string) AppData) '(key, a),
             match m !! key with Some _ => <[key := a]> m | None => m end) m deletedApps in
  u ← ensureBytesUsedBelowLimit (set_apps m (mDeletedApps u) u);
  Some (u, told (onUidMapReceived timestamp) u).

(** The new entry of an app in a snapshot or an update. *)
Definition newApp (version : Z) (versionString installer : string) : AppData :=
  mkAppData version versionString installer false.

Definition pushChange (c : ChangeRecord) (u : UidMap) : UidMap :=
  set_changes (mChanges u ++ [c]) (mBytesUsed u + kBytesChangeRecord) u.

(** The previous version passes through an [int32_t]. *)
Definition updateApp (timestamp : Z) (appName : string) (uid version : Z)
    (newVersionString installer : string) (u : UidMap) : option (UidMap * option Broadcast) :=
  let found := mMap u !! (uid, appName) in
  let prevVersion := match found with Some a => wrap32 (versionCode a) | None => 0 end in
  let prevVersionString := match found with Some a => versionString a | None => EmptyString end in
  let u := set_apps (<[(uid, appName) := newApp version newVersionString installer]> (mMap u))
             (mDeletedApps u) u in
  u ← ensureBytesUsedBelowLimit
        (pushChange (mkChangeRecord false timestamp appName uid version prevVersion newVersionString
                       prevVersionString) u);
  Some (u, match found with
           | Some _ => told (notifyAppUpgraded timestamp appName uid version) u
           | None => None
           end).

Definition removeApp (timestamp : Z) (app : string) (uid : Z) (u : UidMap)
    : option (UidMap * option Broadcast) :=
  let key := (uid, app) in
  let '(prevVersion, prevVersionString, u) :=
    match mMap u !! key with
    | Some a =>
        if deleted a then (0, EmptyString, u)
        else (versionCode a, versionString a,
              set_apps (<[key := mkAppData (versionCode a) (versionString a) (installer a) true]> (mMap u))
                (mDeletedApps u ++ [key]) u)
    | None => (0, EmptyString, u)
    end in
  let u :=
    match mDeletedApps u with
    | oldest :: rest =>
        if kMaxDeletedAppsInUidMap <? Z.of_nat (length (mDeletedApps u))
        then set_apps (delete oldest (mMap u)) rest u else u
    | [] => u
    end in
  u ← ensureBytesUsedBelowLimit
        (pushChange (mkChangeRecord true timestamp app uid 0 prevVersion EmptyString prevVersionString) u);
  Some (u, told (notifyAppRemoved timestamp app uid) u).

Definition setListener (listener : bool) (u : UidMap) : UidMap :=
  mkUidMap (mMap u) (mIsolatedUidMap u) (mChanges u) (mDeletedApps u) listener
    (mLastUpdatePerConfigKey u) (maxBytesOverride u) (mBytesUsed u).

(** ** Output *)

Definition clearOutput (u : UidMap) : UidMap := set_changes [] 0 u.

(** A time of zero counts as not yet set. *)
Definition getMinimumTimestampNs (u : UidMap) : Z :=
  foldl (λ m (kv : ConfigKey * Z), if m =? 0 then kv.2 else if kv.2 <? m then kv.2 else m) 0
    (map_to_list (mLastUpdatePerConfigKey u)).

Definition getBytesUsed (u : UidMap) : Z := mBytesUsed u.

(** A string in the output: itself, or its hash when the report collects its strings in a set. *)
Inductive OutString := Plain (s : string) | Hashed (hash : Z).

Record PackageInfo := mkPackageInfo {
  pi_name : OutString; pi_versionString : option OutString; pi_installer : option OutString;
  pi_version : Z; pi_uid : Z; pi_deleted : bool
}.

Record ChangeInfo := mkChangeInfo {
  ci_deletion : bool; ci_timestamp : Z; ci_package : OutString;
  ci_versionStrings : option (OutString * OutString);
  ci_uid : Z; ci_version : Z; ci_prevVersion : Z
}.

(** [hashed]: the caller passes a set for the strings ([str_set] is not null). *)
Definition outString (hashed : bool) (s : string) : OutString := if hashed then Hashed (Hash64 s) else Plain s.

(** The packages of a snapshot and the strings inserted into the set. *)
Definition writeUidMapSnapshot (includeVersionStrings includeInstaller : bool)
    (interestingUids : list Z) (hashed : bool) (u : UidMap) : list PackageInfo * list string :=
  let written := List.filter (λ kv : Z * string * AppData,
    bool_decide (interestingUids = []) || bool_decide (kv.1.1 ∈ interestingUids)) (map_to_list (mMap u)) in
  (map (λ kv : Z * string * AppData,
     mkPackageInfo (outString hashed kv.1.2)
       (if includeVersionStrings then Some (outString hashed (versionString kv.2)) else None)
       (if includeInstaller then Some (outString hashed (installer kv.2)) else None)
       (versionCode kv.2) kv.1.1 (deleted kv.2)) written,
   if hashed then
     concat (map (λ kv : Z * string * AppData,
       kv.1.2 :: (if includeVersionStrings then [versionString kv.2] else [])
         ++ (if includeInstaller then [installer kv.2] else [])) written)
   else []).

Definition writeChange (includeVersionStrings hashed : bool) (r : ChangeRecord) : ChangeInfo :=
  mkChangeInfo (cr_deletion r) (cr_timestampNs r) (outString hashed (cr_package r))
    (if includeVersionStrings
     then Some (outString hashed (cr_versionString r), outString hashed (cr_prevVersionString r)) else None)
    (cr_uid r) (cr_version r) (cr_prevVersion r).

(** [appendUidMap]: the changes and the snapshot it writes, the strings it inserts into the set, and the
    map.  Reading the time of a configuration that is not known inserts zero for it, which the update
    overwrites. *)
Definition appendUidMap (timestamp : Z) (key : ConfigKey)
    (includeVersionStrings includeInstaller hashed : bool)
    (u : UidMap) : list ChangeInfo * list PackageInfo * list string * UidMap :=
  let since := default 0 (mLastUpdatePerConfigKey u !! key) in
  let records := List.filter (λ r, since <? cr_timestampNs r) (mChanges u) in
  let changes := map (writeChange includeVersionStrings hashed) records in
  let strings := if hashed then
      concat (map (λ r, cr_package r ::
        (if includeVersionStrings then [cr_versionString r; cr_prevVersionString r] else [])) records)
    else [] in
  let '(snapshot, strings') := writeUidMapSnapshot includeVersionStrings includeInstaller [] hashed u in
  let u := match mChanges u with
           | [] => u
           | _ :: _ => set_last (<[key := since]> (mLastUpdatePerConfigKey u)) u
           end in
  let prevMin := getMinimumTimestampNs u in
  let u := set_last (<[key := timestamp]> (mLastUpdatePerConfigKey u)) u in
  let newMin := getMinimumTimestampNs u in
  let u :=
    if prevMin <? newMin then
      let kept := List.filter (λ r, negb (cr_timestampNs r <? newMin)) (mChanges u) in
      set_changes kept
        (mBytesUsed u - kBytesChangeRecord * Z.of_nat (length (mChanges u) - length kept)) u
    else u in
  (changes, snapshot, strings ++ strings', u).

Definition uidmap_OnConfigUpdated (key : ConfigKey) (u : UidMap) : UidMap :=
  set_last (<[key := -1]> (mLastUpdatePerConfigKey u)) u.

Definition uidmap_OnConfigRemoved (key : ConfigKey) (u : UidMap) : UidMap :=
  set_last (delete key (mLastUpdatePerConfigKey u)) u.
End records.
