(* ===== verification/UidMapFacts.v ===== *)
(** * Facts on the uid map

    The memory of the changes stays below its limit and the loop that ensures it ends; a change is
    kept until every configuration was told of it; two faults of the code on deleted apps. *)
From S2P Require Import Prelude Matchers UidMap.

Section records.
Context (k : Z) (Hash64 : string → Z) (Hk : 0 < k).
Implicit Types (u : UidMap).

(** ** Memory *)

Definition limitOf (u : UidMap) : Z :=
  if maxBytesOverride u <=? 0 then kMaxBytesUsedUidMap else maxBytesOverride u.

Lemma limitOf_nonneg u : 0 <= limitOf u.
Proof. unfold limitOf, kMaxBytesUsedUidMap. destruct (Z.leb_spec (maxBytesOverride u) 0); lia. Qed.

(** The bytes used are those of the changes. *)
Definition counted (u : UidMap) : Prop := mBytesUsed u = k * Z.of_nat (length (mChanges u)).

Lemma dropChanges_ends limit changes bytes :
  0 <= limit → bytes = k * Z.of_nat (length changes) →
  ∃ changes' bytes', dropChanges k limit changes bytes = Some (changes', bytes')
    ∧ bytes' = k * Z.of_nat (length changes') ∧ bytes' <= limit ∧ ∃ dropped, changes = dropped ++ changes'.
Proof using Hk.
  intros Hl. revert bytes. induction changes as [|c changes IH]; intros bytes Hb; cbn [dropChanges].
  - destruct (Z.leb_spec bytes limit); [|cbn in Hb; lia]. exists [], bytes. split_and!; try done. by exists [].
  - destruct (Z.leb_spec bytes limit).
    + exists (c :: changes), bytes. split_and!; try done. by exists [].
    + destruct (IH (bytes - k)) as (c' & b' & -> & Hb' & Hle & dropped & ->); [cbn [length] in Hb; lia|].
      exists c', b'. split_and!; try done. by exists (c :: dropped).
Qed.

Lemma ensure_ends u :
  counted u → ∃ u', ensureBytesUsedBelowLimit k u = Some u' ∧ counted u' ∧ mBytesUsed u' <= limitOf u'
    ∧ mMap u' = mMap u ∧ mDeletedApps u' = mDeletedApps u
    ∧ mLastUpdatePerConfigKey u' = mLastUpdatePerConfigKey u ∧ limitOf u' = limitOf u
    ∧ ∃ dropped, mChanges u = dropped ++ mChanges u'.
Proof using Hk.
  intros Hc. unfold ensureBytesUsedBelowLimit. fold (limitOf u).
  destruct (dropChanges_ends (limitOf u) (mChanges u) (mBytesUsed u) (limitOf_nonneg u) Hc)
    as (c' & b' & -> & Hb & Hle & Hd).
  eexists. split; [reflexivity|]. by split_and!.
Qed.

Lemma pushChange_counted c u : counted u → counted (pushChange k c u).
Proof using. unfold counted, pushChange. cbn. rewrite length_app. cbn. lia. Qed.

(** ** Operations *)

Inductive UidOp :=
  | OpUpdateMap (t : Z) (apps : list (Z * string * AppData))
  | OpUpdateApp (t : Z) (app : string) (uid version : Z) (versionString installer : string)
  | OpRemoveApp (t : Z) (app : string) (uid : Z)
  | OpAppend (t : Z) (key : ConfigKey) (versions installers hashed : bool)
  | OpClearOutput
  | OpConfigUpdated (key : ConfigKey)
  | OpConfigRemoved (key : ConfigKey).

Definition stepUid (o : UidOp) (u : UidMap) : option UidMap :=
  match o with
  | OpUpdateMap t apps => fst <$> updateMap k t apps u
  | OpUpdateApp t app uid v vs i => fst <$> updateApp k t app uid v vs i u
  | OpRemoveApp t app uid => fst <$> removeApp k t app uid u
  | OpAppend t key versions installers hashed => Some (appendUidMap k Hash64 t key versions installers hashed u).2
  | OpClearOutput => Some (clearOutput u)
  | OpConfigUpdated key => Some (uidmap_OnConfigUpdated key u)
  | OpConfigRemoved key => Some (uidmap_OnConfigRemoved key u)
  end.

Definition runUid (l : list UidOp) (u : UidMap) : option UidMap :=
  foldl (λ r o, u ← r; stepUid o u) (Some u) l.

Lemma filter_length_le {A} (f : A → bool) l : (length (List.filter f l) <= length l)%nat.
Proof using. apply List.filter_length_le. Qed.

Definition memoryInv (u : UidMap) : Prop := counted u ∧ mBytesUsed u <= limitOf u.

(** An operation that ends with the check of the memory. *)
Lemma ensure_memory {A} (f : UidMap → A) u :
  counted u → ∃ u', ensureBytesUsedBelowLimit k u ≫= (λ u, Some (u, f u)) = Some (u', f u') ∧ memoryInv u'
    ∧ limitOf u' = limitOf u.
Proof using Hk.
  intros Hc. destruct (ensure_ends u Hc) as (u' & -> & Hc' & Hle & _ & _ & _ & Hl & _). by exists u'.
Qed.

Lemma append_memory t key versions installers hashed u :
  memoryInv u → memoryInv (appendUidMap k Hash64 t key versions installers hashed u).2
                ∧ limitOf (appendUidMap k Hash64 t key versions installers hashed u).2 = limitOf u.
Proof using Hk.
  intros [Hc Hl]. unfold appendUidMap. destruct (writeUidMapSnapshot _ _ _ _ _ _) as [? ?]. cbv zeta. cbn [snd].
  set (u1 := match mChanges u with [] => u | _ :: _ => _ end).
  assert (H1 : mChanges u1 = mChanges u ∧ mBytesUsed u1 = mBytesUsed u ∧ limitOf u1 = limitOf u)
    by (subst u1; destruct (mChanges u) eqn:E; cbn; by rewrite ?E).
  clearbody u1. destruct H1 as (Hch & Hb & Hlim). set (u2 := set_last _ u1).
  destruct (_ <? _); [|split; [|done]; split; unfold counted; cbn; rewrite ?Hch, ?Hb; [done|by rewrite <- Hlim in Hl]].
  set (kept := List.filter _ _). pose proof (filter_length_le (λ r, negb (cr_timestampNs r <? getMinimumTimestampNs u2)) (mChanges u2)) as Hlen.
  fold kept in Hlen. change (mChanges u2) with (mChanges u1) in *. rewrite Hch in *. unfold counted in Hc.
  split; [|done]. split; unfold counted; cbn; rewrite Hb, Hc.
  - rewrite Nat2Z.inj_sub by done. lia.
  - change (limitOf (set_changes kept (k * Z.of_nat (length (mChanges u)) - k * Z.of_nat (length (mChanges u) - length kept)) u2)) with (limitOf u1).
    rewrite Hlim. rewrite Hc in Hl. pose proof (Nat2Z.is_nonneg (length (mChanges u) - length kept)). nia.
Qed.

Lemma step_memory o u : memoryInv u → ∃ u', stepUid o u = Some u' ∧ memoryInv u' ∧ limitOf u' = limitOf u.
Proof using Hk.
  intros Hu. pose proof Hu as [Hc Hl]. destruct o as [t apps|t app uid v vs i|t app uid|t key vs is_ h| |key|key]; cbn [stepUid].
  - unfold updateMap. set (v := set_apps _ _ u).
    destruct (ensure_memory (told (onUidMapReceived t)) v Hc) as (u' & E & Hi & Hlim). rewrite E. by exists u'.
  - unfold updateApp. set (w := set_apps _ _ u). set (c := mkChangeRecord _ _ _ _ _ _ _ _).
    destruct (ensure_memory (λ u', match mMap u !! (uid, app) with
      | Some _ => told (notifyAppUpgraded t app uid v) u' | None => None end) (pushChange k c w)
      (pushChange_counted c w Hc)) as (u' & E & Hi & Hlim). rewrite E. by exists u'.
  - unfold removeApp. destruct (match mMap u !! _ with Some _ => _ | None => _ end) as [[pv pvs] u1] eqn:E1.
    assert (H1 : counted u1 ∧ limitOf u1 = limitOf u).
    { destruct (mMap u !! _) as [a|]; [destruct (deleted a)|]; by simplify_eq. }
    set (u2 := match mDeletedApps u1 with [] => u1 | _ :: _ => _ end).
    assert (H2 : counted u2 ∧ limitOf u2 = limitOf u).
    { subst u2. destruct (mDeletedApps u1); [done|]. by destruct (_ <? _). }
    destruct H2 as [H2 Hl2].
    destruct (ensure_memory (told (notifyAppRemoved t app uid))
      (pushChange k (mkChangeRecord true t app uid 0 pv EmptyString pvs) u2)
      (pushChange_counted _ _ H2)) as (u' & E & Hi & Hlim). rewrite E. exists u'. by rewrite Hlim.
  - eexists. split; [reflexivity|]. by apply append_memory.
  - eexists. split; [reflexivity|]. split; [|done]. split; [unfold counted; cbn; lia|]. cbn.
    change (0 <= limitOf u). apply limitOf_nonneg.
  - by eexists.
  - by eexists.
Qed.

Lemma run_memory l : ∀ u, memoryInv u → ∃ u', runUid l u = Some u' ∧ memoryInv u' ∧ limitOf u' = limitOf u.
Proof using Hk.
  unfold runUid. induction l as [|o l IH]; intros u Hu; cbn [foldl]; [by exists u|].
  destruct (step_memory o u Hu) as (u1 & E & H1 & Hl1). cbn. rewrite E.
  destruct (IH u1 H1) as (u2 & E2 & H2 & Hl2). exists u2. by rewrite Hl2.
Qed.
End records.

(** C37: the memory of the uid map stays below its limit.  Whatever snapshots, updates and removals of
    apps, reports and configuration changes arrive, every operation returns (the loop that drops old
    changes ends), the bytes counted are exactly those of the changes kept, and they are at most the
    limit. *)
Theorem uid_map_memory_bounded (k : Z) (Hash64 : string → Z) (l : list UidOp) :
  0 < k →
  ∃ u, runUid k Hash64 l UidMap_new = Some u ∧ mBytesUsed u = k * Z.of_nat (length (mChanges u))
       ∧ mBytesUsed u <= kMaxBytesUsedUidMap.
Proof.
  intros Hk. destruct (run_memory k Hash64 Hk l UidMap_new) as (u & -> & [Hc Hl] & Hlim).
  { split; [unfold counted; cbn; lia|done]. }
  exists u. rewrite Hlim in Hl. by split_and!.
Qed.

Lemma uid_map_memory_bounded_witness :
  ∃ u, runUid 30000 (λ _, 0) [OpUpdateApp 1 "a" 10 1 "" ""; OpUpdateApp 2 "b" 11 1 "" ""; OpRemoveApp 3 "a" 10]
         UidMap_new = Some u
       ∧ mBytesUsed u = 30000 * Z.of_nat (length (mChanges u)) ∧ mBytesUsed u <= kMaxBytesUsedUidMap.
Proof. apply uid_map_memory_bounded. lia. Defined.

(** ** Delivery of changes *)

Definition minStep (m : Z) (kv : ConfigKey * Z) : Z :=
  if m =? 0 then kv.2 else if kv.2 <? m then kv.2 else m.

Lemma minStep_fold l : ∀ m,
  (∀ kv, kv ∈ l → kv.2 ≠ 0) →
  (m ≠ 0 → foldl minStep m l <= m) ∧ ∀ kv, kv ∈ l → foldl minStep m l <= kv.2.
Proof.
  induction l as [|kv l IH]; intros m Hl; cbn [foldl]; [split; [lia|set_solver]|].
  assert (Hkv : kv.2 ≠ 0) by (apply Hl; set_solver).
  destruct (IH (minStep m kv)) as [H1 H2]; [set_solver|].
  assert (Hm : minStep m kv ≠ 0 ∧ minStep m kv <= kv.2 ∧ (m ≠ 0 → minStep m kv <= m)).
  { unfold minStep. destruct (Z.eqb_spec m 0); [lia|]. destruct (Z.ltb_spec kv.2 m); lia. }
  destruct Hm as (Hm0 & Hm1 & Hm2). specialize (H1 Hm0). split; [intros Hn; specialize (Hm2 Hn); lia|].
  intros kv' [-> |Hin]%elem_of_cons; [lia|by apply H2].
Qed.

Lemma minimum_le u key t :
  (∀ q t, mLastUpdatePerConfigKey u !! q = Some t → t ≠ 0) →
  mLastUpdatePerConfigKey u !! key = Some t → getMinimumTimestampNs u <= t.
Proof.
  intros Hall Hk. destruct (minStep_fold (map_to_list (mLastUpdatePerConfigKey u)) 0) as [_ H].
  - intros [q s] Hin%elem_of_map_to_list. by eapply Hall.
  - apply (H (key, t)). by apply elem_of_map_to_list.
Qed.

(** A change is kept until every configuration was told of it.  A report of the uid map to a
    configuration lists exactly the changes after the previous report to it, and a change that another
    configuration has not been told of yet is still there for it afterwards (times of reports are not
    zero). *)
Theorem change_kept_until_told k Hash64 timestamp key versions installers hashed u r since :
  mLastUpdatePerConfigKey u !! key = Some since → timestamp ≠ 0 →
  (∀ q t, mLastUpdatePerConfigKey u !! q = Some t → t ≠ 0) → r ∈ mChanges u →
  let '(changes, snapshot, strings, u') := appendUidMap k Hash64 timestamp key versions installers hashed u in
  (writeChange Hash64 versions hashed r ∈ changes ↔ since < cr_timestampNs r)
  ∧ ∀ key' t', key' ≠ key → mLastUpdatePerConfigKey u !! key' = Some t' → t' < cr_timestampNs r →
      r ∈ mChanges u' ∧ mLastUpdatePerConfigKey u' !! key' = Some t'.
Proof.
  intros Hkey Ht Hall Hr. unfold appendUidMap. rewrite Hkey. destruct (writeUidMapSnapshot _ _ _ _ _ _) as [? ?]. cbv zeta. cbn [default from_option id]. split.
  { rewrite list_elem_of_In, in_map_iff. setoid_rewrite filter_In. setoid_rewrite <- list_elem_of_In.
    setoid_rewrite Z.ltb_lt. split; [|intros H; by exists r].
    intros (r' & Heq & _ & Hlt). apply (f_equal ci_timestamp) in Heq. cbn in Heq. lia. }
  intros key' t' Hne Hk' Hlt. set (u1 := match mChanges u with [] => u | _ :: _ => _ end).
  assert (H1 : mChanges u1 = mChanges u ∧ mLastUpdatePerConfigKey u1 = mLastUpdatePerConfigKey u).
  { subst u1. destruct (mChanges u) eqn:E; [by rewrite E|]. cbn. rewrite E. split; [done|]. by apply insert_id. }
  clearbody u1. destruct H1 as [Hch Hlast]. set (u2 := set_last _ u1).
  assert (Hl2 : mLastUpdatePerConfigKey u2 !! key' = Some t').
  { subst u2. cbn. by rewrite lookup_insert_ne, Hlast. }
  destruct (_ <? _); [|cbn; by rewrite Hch, lookup_insert_ne, Hlast]. split; [|done]. cbn.
  rewrite Hch, list_elem_of_In, filter_In, <- list_elem_of_In. split; [done|]. apply negb_true_iff, Z.ltb_ge.
  transitivity t'; [|lia]. apply (minimum_le u2 key'); [|done]. intros q t. subst u2. cbn. rewrite Hlast.
  destruct (decide (q = key)) as [-> |Hq]; [rewrite lookup_insert_eq; congruence|].
  rewrite lookup_insert_ne by done. apply Hall.
Qed.

Lemma change_kept_until_told_witness :
  let r := mkChangeRecord false 5 "a" 10 1 0 "" "" in
  let u := mkUidMap ∅ ∅ [r] [] false (<[(1, 1) := -1]> (<[(2, 2) := 3]> ∅)) 0 100 in
  let '(changes, snapshot, strings, u') := appendUidMap 100 (λ _, 0) 9 (1, 1) false false false u in
  (writeChange (λ _, 0) false false r ∈ changes ↔ -1 < 5) ∧
  ∀ key' t', key' ≠ (1, 1) → mLastUpdatePerConfigKey u !! key' = Some t' → t' < 5 →
    r ∈ mChanges u' ∧ mLastUpdatePerConfigKey u' !! key' = Some t'.
Proof.
  cbv zeta. apply (change_kept_until_told 100 (λ _, 0) 9 (1, 1) false false false); [reflexivity|done| |set_solver].
  intros q t. cbn [mLastUpdatePerConfigKey]. intros [[_ <-]|[_ [[_ <-]|[_ ?]]%lookup_insert_Some]]%lookup_insert_Some;
    [done|done|]. by rewrite lookup_empty in *.
Defined.

(** ** Deleted apps *)

Lemma snapshot_lookup apps key : ∀ m : gmap (Z * string) AppData,
  is_Some (m !! key) ∨ key ∈ apps.*1 → is_Some (foldl (λ m '(key, a), <[key := a]> m) m apps !! key).
Proof.
  induction apps as [|[key' a] apps IH]; intros m H; cbn [foldl]; [destruct H; [done|set_solver]|].
  apply IH. destruct (decide (key' = key)) as [-> |Hne]; [left; rewrite lookup_insert_eq; by eexists|].
  rewrite lookup_insert_ne by done. destruct H as [H|H]; [by left|right].
  rewrite fmap_cons in H. apply elem_of_cons in H as [H|H]; [by cbn in H|done].
Qed.

(** The deleted entries overwrite those of the snapshot. *)
Lemma deleted_overwrite l key a : ∀ m : gmap (Z * string) AppData,
  is_Some (m !! key) → (key, a) ∈ l → (∀ a', (key, a') ∈ l → a' = a) →
  foldl (λ (m : gmap (Z * string) AppData) '(key, a),
    match m !! key with Some _ => <[key := a]> m | None => m end) m l !! key = Some a.
Proof.
  assert (Hstep : ∀ l (m : gmap (Z * string) AppData), m !! key = Some a →
    (∀ a', (key, a') ∈ l → a' = a) →
    foldl (λ (m : gmap (Z * string) AppData) '(key, a),
      match m !! key with Some _ => <[key := a]> m | None => m end) m l !! key = Some a).
  { clear l. induction l as [|[key' b] l IH]; intros m Hm Hu; cbn [foldl]; [done|]. apply IH; [|set_solver].
    destruct (m !! key') eqn:E; [|done]. destruct (decide (key' = key)) as [-> |Hne].
    - rewrite lookup_insert_eq. f_equal. apply Hu. set_solver.
    - by rewrite lookup_insert_ne. }
  induction l as [|[key' b] l IH]; intros m Hm Hin Hu; cbn [foldl]; [set_solver|].
  destruct (decide (key' = key)) as [-> |Hne].
  - destruct Hm as [x Hm]. rewrite Hm. apply Hstep; [|set_solver]. rewrite lookup_insert_eq. f_equal.
    apply Hu. set_solver.
  - apply IH; [|set_solver|set_solver]. destruct (m !! key'); [by rewrite lookup_insert_ne|done].
Qed.

(** A snapshot hides apps that were installed again.  When an app that the map remembers as deleted
    is in the new snapshot, its fresh entry is overwritten by the deleted one, so the map says that the
    app is not installed. *)
Theorem updateMap_hides_reinstalled k t apps u key a :
  0 < k → counted k u → mMap u !! key = Some a → deleted a = true → key ∈ apps.*1 →
  ∃ u' b, updateMap k t apps u = Some (u', b) ∧ mMap u' !! key = Some a ∧ hasApp key.1 key.2 u' = false.
Proof.
  intros Hk Hc Ha Hd Hin. unfold updateMap. set (v := set_apps _ _ u).
  destruct (ensure_ends k Hk v Hc) as (u' & -> & _ & _ & Hm & _). cbn [mbind option_bind]. eexists _, _. split; [reflexivity|].
  assert (Hu : mMap u' !! key = Some a).
  { rewrite Hm. subst v. cbn [mMap set_apps]. apply deleted_overwrite.
    - apply snapshot_lookup. by right.
    - apply list_elem_of_filter. split; [done|]. by apply elem_of_map_to_list.
    - intros a' [_ Ha'%elem_of_map_to_list]%list_elem_of_filter. congruence. }
  split; [done|]. unfold hasApp. destruct key as [uid app]. cbn [fst snd]. by rewrite Hu, Hd.
Qed.

Lemma updateMap_hides_reinstalled_witness :
  let key := (10, "com.app"%string) in
  let u := mkUidMap (<[key := mkAppData 1 "" "" true]> ∅) ∅ [] [key] false ∅ 0 0 in
  ∃ u' b, updateMap 100 7 [(key, mkAppData 2 "" "" false)] u = Some (u', b)
    ∧ mMap u' !! key = Some (mkAppData 1 "" "" true) ∧ hasApp 10 "com.app" u' = false.
Proof.
  cbv zeta. apply (updateMap_hides_reinstalled 100 7 _ _ (10, "com.app"%string)); try reflexivity; [set_solver].
Defined.

(** An app that is installed can be forgotten.  The list of deleted apps keeps an app that was
    installed again; when the list overflows, the oldest app on it is erased from the map although it
    is installed. *)
Theorem removeApp_forgets_installed k t appName uid u a oldest rest :
  0 < k → counted k u → mMap u !! (uid, appName) = Some a → deleted a = false →
  mDeletedApps u = oldest :: rest → Z.of_nat (length (mDeletedApps u)) = kMaxDeletedAppsInUidMap →
  hasApp oldest.1 oldest.2 u = true → oldest ≠ (uid, appName) →
  ∃ u' b, removeApp k t appName uid u = Some (u', b) ∧ mMap u' !! oldest = None
    ∧ hasApp oldest.1 oldest.2 u' = false.
Proof.
  intros Hk Hc Ha Hd Hl Hlen Hlive Hne. unfold removeApp. rewrite Ha, Hd. cbn [mDeletedApps set_apps].
  rewrite Hl. cbn [app]. rewrite (proj2 (Z.ltb_lt _ _)).
  2: { rewrite <- Hlen, Hl. cbn [length]. rewrite length_app. cbn. lia. }
  set (v := pushChange _ _ _). destruct (ensure_ends k Hk v) as (u' & -> & _ & _ & Hm & _).
  { by apply pushChange_counted. }
  cbn [mbind option_bind]. eexists _, _. split; [reflexivity|].
  assert (Hu : mMap u' !! oldest = None) by (rewrite Hm; cbn; apply lookup_delete_eq).
  split; [done|]. unfold hasApp. destruct oldest as [uid' app']. cbn [fst snd]. by rewrite Hu.
Qed.

Lemma removeApp_forgets_installed_witness :
  let live := mkAppData 1 "" "" false in
  let u := mkUidMap (<[(10, "com.app"%string) := live]> (<[(11, "com.other"%string) := live]> ∅)) ∅ []
             ((10, "com.app"%string) :: replicate 99 (12, "x"%string)) false ∅ 0 0 in
  hasApp 10 "com.app" u = true
  ∧ ∃ u' b, removeApp 100 7 "com.other" 11 u = Some (u', b) ∧ mMap u' !! (10, "com.app"%string) = None
      ∧ hasApp 10 "com.app" u' = false.
Proof.
  cbv zeta. split; [reflexivity|].
  by eapply (removeApp_forgets_installed 100 7 "com.other" 11 _ _ (10, "com.app"%string)); try reflexivity.
Defined.
