(* ===== verification/LogEvent.v ===== *)
(** * Parsing of log events (logd/LogEvent.h, logd/LogEvent.cpp)

    The decoder of the socket encoding of an atom.  It runs in a small monad whose state is the
    event under construction and the rest of the buffer; [None] is an access outside the buffer or
    outside the vector of values, so that a theorem that the parser returns is a theorem on its
    memory safety. *)
From Stdlib Require Import SpecFloat Ascii.
From S2P Require Import Prelude UMap FieldValue DimensionKey Matchers.

(** ** Data *)

Definition INT32_TYPE : Z := 0x00.
Definition INT64_TYPE : Z := 0x01.
Definition STRING_TYPE : Z := 0x02.
Definition FLOAT_TYPE : Z := 0x04.
Definition BOOL_TYPE : Z := 0x05.
Definition BYTE_ARRAY_TYPE : Z := 0x06.
Definition OBJECT_TYPE : Z := 0x07.
Definition KEY_VALUE_PAIRS_TYPE : Z := 0x08.
Definition ATTRIBUTION_CHAIN_TYPE : Z := 0x09.
Definition ERROR_TYPE : Z := 0x0F.

Definition ANNOTATION_ID_IS_UID : Z := 1.
Definition ANNOTATION_ID_TRUNCATE_TIMESTAMP : Z := 2.
Definition ANNOTATION_ID_PRIMARY_FIELD : Z := 3.
Definition ANNOTATION_ID_EXCLUSIVE_STATE : Z := 4.
Definition ANNOTATION_ID_PRIMARY_FIELD_FIRST_UID : Z := 5.
Definition ANNOTATION_ID_TRIGGER_STATE_RESET : Z := 7.
Definition ANNOTATION_ID_STATE_NESTED : Z := 8.

Definition INT8_MAX : Z := 127.

(** The members of a LogEvent, and the parsing state [mBuf], [mRemainingLen], [mValid]. *)
Record Parsing := mkParsing {
  mBuf : list Z;
  mRemainingLen : Z;
  mValid : bool;
  le_values : list FieldValue;
  mElapsedTimestampNs : Z;
  mTagId : Z;
  mTruncateTimestamp : bool;
  mResetState : Z;
  mUidFieldIndex : Z;
  mAttributionChainStartIndex : Z;
  mAttributionChainEndIndex : Z;
  mExclusiveStateFieldIndex : Z
}.

(** A new event; [mElapsedTimestampNs] is uninitialized. *)
Definition LogEvent_new (uninit : Z) : Parsing :=
  mkParsing [] 0 true [] uninit 0 false (-1) (-1) (-1) (-1) (-1).

Definition set_buf (buf : list Z) (len : Z) (e : Parsing) : Parsing :=
  mkParsing buf len (mValid e) (le_values e) (mElapsedTimestampNs e) (mTagId e) (mTruncateTimestamp e)
    (mResetState e) (mUidFieldIndex e) (mAttributionChainStartIndex e) (mAttributionChainEndIndex e)
    (mExclusiveStateFieldIndex e).
Definition set_invalid (e : Parsing) : Parsing :=
  mkParsing (mBuf e) (mRemainingLen e) false (le_values e) (mElapsedTimestampNs e) (mTagId e)
    (mTruncateTimestamp e) (mResetState e) (mUidFieldIndex e) (mAttributionChainStartIndex e)
    (mAttributionChainEndIndex e) (mExclusiveStateFieldIndex e).
Definition set_values (l : list FieldValue) (e : Parsing) : Parsing :=
  mkParsing (mBuf e) (mRemainingLen e) (mValid e) l (mElapsedTimestampNs e) (mTagId e)
    (mTruncateTimestamp e) (mResetState e) (mUidFieldIndex e) (mAttributionChainStartIndex e)
    (mAttributionChainEndIndex e) (mExclusiveStateFieldIndex e).
Definition set_header (timestamp tag : Z) (e : Parsing) : Parsing :=
  mkParsing (mBuf e) (mRemainingLen e) (mValid e) (le_values e) timestamp tag
    (mTruncateTimestamp e) (mResetState e) (mUidFieldIndex e) (mAttributionChainStartIndex e)
    (mAttributionChainEndIndex e) (mExclusiveStateFieldIndex e).
Definition set_truncate (b : bool) (e : Parsing) : Parsing :=
  mkParsing (mBuf e) (mRemainingLen e) (mValid e) (le_values e) (mElapsedTimestampNs e) (mTagId e)
    b (mResetState e) (mUidFieldIndex e) (mAttributionChainStartIndex e)
    (mAttributionChainEndIndex e) (mExclusiveStateFieldIndex e).
Definition set_reset (state : Z) (e : Parsing) : Parsing :=
  mkParsing (mBuf e) (mRemainingLen e) (mValid e) (le_values e) (mElapsedTimestampNs e) (mTagId e)
    (mTruncateTimestamp e) state (mUidFieldIndex e) (mAttributionChainStartIndex e)
    (mAttributionChainEndIndex e) (mExclusiveStateFieldIndex e).
Definition set_uid (i : Z) (e : Parsing) : Parsing :=
  mkParsing (mBuf e) (mRemainingLen e) (mValid e) (le_values e) (mElapsedTimestampNs e) (mTagId e)
    (mTruncateTimestamp e) (mResetState e) i (mAttributionChainStartIndex e)
    (mAttributionChainEndIndex e) (mExclusiveStateFieldIndex e).
Definition set_chain (first last : Z) (e : Parsing) : Parsing :=
  mkParsing (mBuf e) (mRemainingLen e) (mValid e) (le_values e) (mElapsedTimestampNs e) (mTagId e)
    (mTruncateTimestamp e) (mResetState e) (mUidFieldIndex e) first last
    (mExclusiveStateFieldIndex e).
Definition set_exclusive (i : Z) (e : Parsing) : Parsing :=
  mkParsing (mBuf e) (mRemainingLen e) (mValid e) (le_values e) (mElapsedTimestampNs e) (mTagId e)
    (mTruncateTimestamp e) (mResetState e) (mUidFieldIndex e) (mAttributionChainStartIndex e)
    (mAttributionChainEndIndex e) i.

(** ** The monad *)

Definition Parser (A : Type) : Type := Parsing → option (A * Parsing).

#[export] Instance parser_ret : MRet Parser := λ A a e, Some (a, e).
#[export] Instance parser_bind : MBind Parser := λ A B f p e,
  match p e with Some (a, e') => f a e' | None => None end.

Definition get : Parser Parsing := λ e, Some (e, e).
Definition modify (f : Parsing → Parsing) : Parser unit := λ e, Some (tt, f e).
Definition fault {A} : Parser A := λ _, None.
Definition invalidate : Parser unit := modify set_invalid.

(** ** Reading *)

Fixpoint le_decode (bytes : list Z) : Z :=
  match bytes with [] => 0 | b :: bytes => b + 256 * le_decode bytes end.

(** [readNextValue<T>] for an unsigned type of [n] bytes. *)
Definition readNext (n : nat) : Parser Z :=
  e ← get;
  if mRemainingLen e <? Z.of_nat n then _ ← invalidate; mret 0
  else if (length (mBuf e) <? n)%nat then fault
  else
    _ ← modify (set_buf (drop n (mBuf e)) (mRemainingLen e - Z.of_nat n));
    mret (le_decode (take n (mBuf e))).

Definition read_uint8 : Parser Z := readNext 1.
Definition read_int32 : Parser Z := v ← readNext 4; mret (wrap32 v).
Definition read_int64 : Parser Z := v ← readNext 8; mret (wrap64 v).
Definition read_bool : Parser bool := v ← readNext 1; mret (negb (v =? 0)).

(** The IEEE single with the given bit pattern. *)
Definition float_of_bits (bits : Z) : spec_float :=
  let sign := Z.testbit bits 31 in
  let exponent := Z.land (Z.shiftr bits 23) 0xff in
  let mantissa := Z.land bits 0x7fffff in
  if exponent =? 0xff then (if mantissa =? 0 then S754_infinity sign else S754_nan)
  else if exponent =? 0 then
    match mantissa with Zpos m => S754_finite sign m (-149) | _ => S754_zero sign end
  else
    match mantissa + 2 ^ 23 with
    | Zpos m => S754_finite sign m (exponent - 150)
    | _ => S754_zero sign
    end.

Definition read_float : Parser spec_float := v ← readNext 4; mret (float_of_bits v).

(** [(mBuf, mBuf + numBytes)] with the checks and updates of parseString and parseByteArray:
    [None] when there are not enough bytes. *)
Definition readBlock : Parser (option (list Z)) :=
  numBytes ← read_int32;
  e ← get;
  if mRemainingLen e <? u32 numBytes then _ ← invalidate; mret None
  else if (numBytes <? 0) || (Z.of_nat (length (mBuf e)) <? numBytes) then fault
  else
    _ ← modify (set_buf (drop (Z.to_nat numBytes) (mBuf e)) (u32 (mRemainingLen e - numBytes)));
    mret (Some (take (Z.to_nat numBytes) (mBuf e))).

Definition string_of_bytes (bytes : list Z) : string :=
  String.string_of_list_ascii ((λ b, ascii_of_N (Z.to_N b)) <$> bytes).

(** ** Values *)

(** [addToValues]: the last position is marked at the depths between 0 and [depth]. *)
Definition decorate (depth : Z) (last : list bool) (f : Field) : Field :=
  fold_left (λ f i, if default false (last !! i) then decorateLastPos f (Z.of_nat i) else f)
    (seq 1 (Z.to_nat (depth - 1))) f.

Definition addToValues (pos : list Z) (depth : Z) (value : Value) (last : list bool) : Parser unit :=
  modify (λ e,
    set_values (le_values e ++ [FieldValue_of (decorate depth last (Field_of_pos (mTagId e) pos depth)) value]) e).

Definition getTypeId (typeInfo : Z) : Z := Z.land typeInfo 0x0F.
Definition getNumAnnotations (typeInfo : Z) : Z := Z.land (Z.shiftr typeInfo 4) 0x0F.

(** ** Annotations *)

(** [mValues.size() - 1] as a [size_t] *)
Definition lastIndex (e : Parsing) : Z := (Z.of_nat (length (le_values e)) - 1) mod 2 ^ 64.

Definition values_empty (e : Parsing) : bool := match le_values e with [] => true | _ => false end.

(** [mValues\[i\].mAnnotations = f(mValues\[i\].mAnnotations)] *)
Definition annotate (i : Z) (f : Z → Z) : Parser unit :=
  e ← get;
  if i <? 0 then fault
  else
    match le_values e !! Z.to_nat i with
    | None => fault
    | Some v =>
        modify (set_values (<[Z.to_nat i := mkFieldValue (fv_field v) (fv_value v) (f (fv_annotations v))]>
                              (le_values e)))
    end.

Definition checkPreviousValueType (expected : Type_) (e : Parsing) : bool :=
  match last (le_values e) with
  | Some v => bool_decide (getType (fv_value v) = expected)
  | None => false
  end.

Definition parseIsUidAnnotation (annotationType : Z) : Parser unit :=
  e ← get;
  if values_empty e || (INT8_MAX <? lastIndex e) || negb (checkPreviousValueType INT e)
     || negb (annotationType =? BOOL_TYPE) then invalidate
  else
    isUid ← read_bool;
    _ ← (if isUid : bool then modify (set_uid (lastIndex e)) else mret tt);
    annotate (lastIndex e) (λ a, setUidField a isUid).

Definition parseTruncateTimestampAnnotation (annotationType : Z) : Parser unit :=
  e ← get;
  if negb (values_empty e) || negb (annotationType =? BOOL_TYPE) then invalidate
  else b ← read_bool; modify (set_truncate b).

Definition parsePrimaryFieldAnnotation (annotationType : Z) : Parser unit :=
  e ← get;
  if values_empty e || negb (annotationType =? BOOL_TYPE) then invalidate
  else primaryField ← read_bool; annotate (lastIndex e) (λ a, setPrimaryField a primaryField).

Definition parsePrimaryFieldFirstUidAnnotation (annotationType firstUidInChainIndex : Z) : Parser unit :=
  e ← get;
  if values_empty e || negb (annotationType =? BOOL_TYPE) || (-1 =? firstUidInChainIndex) then invalidate
  else if wrap32 (lastIndex e) <? firstUidInChainIndex then invalidate
  else primaryField ← read_bool; annotate firstUidInChainIndex (λ a, setPrimaryField a primaryField).

Definition parseExclusiveStateAnnotation (annotationType : Z) : Parser unit :=
  e ← get;
  if values_empty e || negb (annotationType =? BOOL_TYPE) then invalidate
  else if INT8_MAX <? lastIndex e then invalidate
  else
    exclusiveState ← read_bool;
    _ ← modify (set_exclusive (lastIndex e));
    annotate (lastIndex e) (λ a, setExclusiveState a exclusiveState).

Definition parseTriggerStateResetAnnotation (annotationType : Z) : Parser unit :=
  e ← get;
  if values_empty e || negb (annotationType =? INT32_TYPE) then invalidate
  else state ← read_int32; modify (set_reset state).

Definition parseStateNestedAnnotation (annotationType : Z) : Parser unit :=
  e ← get;
  if values_empty e || negb (annotationType =? BOOL_TYPE) then invalidate
  else nested ← read_bool; annotate (lastIndex e) (λ a, setNested a nested).

(** One annotation; [false]: the loop over the annotations ends. *)
Definition parseAnnotation (firstUidInChainIndex : Z) : Parser bool :=
  annotationId ← read_uint8;
  annotationType ← read_uint8;
  if annotationId =? ANNOTATION_ID_IS_UID then _ ← parseIsUidAnnotation annotationType; mret true
  else if annotationId =? ANNOTATION_ID_TRUNCATE_TIMESTAMP then
    _ ← parseTruncateTimestampAnnotation annotationType; mret true
  else if annotationId =? ANNOTATION_ID_PRIMARY_FIELD then
    _ ← parsePrimaryFieldAnnotation annotationType; mret true
  else if annotationId =? ANNOTATION_ID_PRIMARY_FIELD_FIRST_UID then
    _ ← parsePrimaryFieldFirstUidAnnotation annotationType firstUidInChainIndex; mret true
  else if annotationId =? ANNOTATION_ID_EXCLUSIVE_STATE then
    _ ← parseExclusiveStateAnnotation annotationType; mret true
  else if annotationId =? ANNOTATION_ID_TRIGGER_STATE_RESET then
    _ ← parseTriggerStateResetAnnotation annotationType; mret true
  else if annotationId =? ANNOTATION_ID_STATE_NESTED then
    _ ← parseStateNestedAnnotation annotationType; mret true
  else _ ← invalidate; mret false.

Fixpoint parseAnnotations (numAnnotations : nat) (firstUidInChainIndex : Z) : Parser unit :=
  match numAnnotations with
  | O => mret tt
  | S n =>
      continue ← parseAnnotation firstUidInChainIndex;
      if continue : bool then parseAnnotations n firstUidInChainIndex else mret tt
  end.

(** ** Fields *)

Section fields.
Context (pos : list Z) (depth : Z) (last : list bool) (numAnnotations : nat).

Definition parseInt32 : Parser unit :=
  value ← read_int32;
  _ ← addToValues pos depth (VINT value) last;
  parseAnnotations numAnnotations (-1).

Definition parseInt64 : Parser unit :=
  value ← read_int64;
  _ ← addToValues pos depth (VLONG value) last;
  parseAnnotations numAnnotations (-1).

Definition parseString : Parser unit :=
  block ← readBlock;
  match block with
  | None => mret tt
  | Some bytes =>
      _ ← addToValues pos depth (VSTRING (string_of_bytes bytes)) last;
      parseAnnotations numAnnotations (-1)
  end.

Definition parseFloat : Parser unit :=
  value ← read_float;
  _ ← addToValues pos depth (VFLOAT value) last;
  parseAnnotations numAnnotations (-1).

Definition parseBool : Parser unit :=
  value ← read_uint8;
  _ ← addToValues pos depth (VINT value) last;
  parseAnnotations numAnnotations (-1).

Definition parseByteArray : Parser unit :=
  block ← readBlock;
  match block with
  | None => mret tt
  | Some bytes =>
      _ ← addToValues pos depth (VSTORAGE bytes) last;
      parseAnnotations numAnnotations (-1)
  end.
End fields.

(** One key-value pair: [pos] and [last] are the arrays when the iteration begins.  The value of a
    pair is at the position of its type in KeyValuePair; [last\[2\]] is set by the first pair. *)
Definition parseKeyValuePair (pos : list Z) (last : list bool) : Parser unit :=
  _ ← parseInt32 (<[2%nat := 1]> pos) 2 last 0;
  let last := <[2%nat := true]> last in
  typeInfo ← read_uint8;
  let typeId := getTypeId typeInfo in
  if typeId =? INT32_TYPE then parseInt32 (<[2%nat := 2]> pos) 2 last 0
  else if typeId =? INT64_TYPE then parseInt64 (<[2%nat := 3]> pos) 2 last 0
  else if typeId =? STRING_TYPE then parseString (<[2%nat := 4]> pos) 2 last 0
  else if typeId =? FLOAT_TYPE then parseFloat (<[2%nat := 5]> pos) 2 last 0
  else invalidate.

(** The iterations [i], [i + 1], ... of a loop over [n] more nodes or pairs of [total]. *)
Fixpoint parseNodes (node : list Z → list bool → Parser unit) (pos : list Z) (last : list bool)
    (total : Z) (n : nat) (i : Z) : Parser unit :=
  match n with
  | O => mret tt
  | S n =>
      let last := <[1%nat := (i =? total)]> last in
      _ ← node (<[1%nat := i]> pos) last;
      parseNodes node pos (<[2%nat := true]> last) total n (i + 1)
  end.

(** [parseKeyValuePairs]; the code resets the positions below depth 0 to their initial values
    afterwards. *)
Definition parseKeyValuePairs (pos : list Z) (last : list bool) (numAnnotations : nat) : Parser unit :=
  numPairs ← read_uint8;
  _ ← parseNodes parseKeyValuePair pos last numPairs (Z.to_nat numPairs) 1;
  parseAnnotations numAnnotations (-1).

Definition parseAttributionNode (pos : list Z) (last : list bool) : Parser unit :=
  _ ← parseInt32 (<[2%nat := 1]> pos) 2 last 0;
  parseString (<[2%nat := 2]> pos) 2 (<[2%nat := true]> last) 0.

Definition parseAttributionChain (pos : list Z) (last : list bool) (numAnnotations : nat) : Parser unit :=
  e ← get;
  let firstUidInChainIndex := u32 (Z.of_nat (length (le_values e))) in
  numNodes ← read_uint8;
  _ ← parseNodes parseAttributionNode pos last numNodes (Z.to_nat numNodes) 1;
  e ← get;
  _ ← (if INT8_MAX <? lastIndex e then invalidate
       else if firstUidInChainIndex <? lastIndex e then
         modify (set_chain firstUidInChainIndex (lastIndex e))
       else mret tt);
  e ← get;
  if mValid e then parseAnnotations numAnnotations firstUidInChainIndex else mret tt.

(** ** The event *)

Definition parseField (pos : list Z) (last : list bool) : Parser unit :=
  typeInfo ← read_uint8;
  let typeId := getTypeId typeInfo in
  let n := Z.to_nat (getNumAnnotations typeInfo) in
  if typeId =? BOOL_TYPE then parseBool pos 0 last n
  else if typeId =? INT32_TYPE then parseInt32 pos 0 last n
  else if typeId =? INT64_TYPE then parseInt64 pos 0 last n
  else if typeId =? FLOAT_TYPE then parseFloat pos 0 last n
  else if typeId =? BYTE_ARRAY_TYPE then parseByteArray pos 0 last n
  else if typeId =? STRING_TYPE then parseString pos 0 last n
  else if typeId =? KEY_VALUE_PAIRS_TYPE then parseKeyValuePairs pos last n
  else if typeId =? ATTRIBUTION_CHAIN_TYPE then parseAttributionChain pos last n
  else if typeId =? ERROR_TYPE then _ ← read_int32; invalidate
  else invalidate.

(** The loop over the fields: [n] of them are left from [pos\[0\] = i]. *)
Fixpoint parseFields (numElements : Z) (n : nat) (i : Z) : Parser unit :=
  match n with
  | O => mret tt
  | S n =>
      e ← get;
      if mValid e then
        _ ← parseField [i; 1; 1] [i =? numElements; false; false];
        parseFields numElements n (i + 1)
      else mret tt
  end.

(** [if (...) mValid = false] *)
Definition require (b : bool) : Parser unit := if b then mret tt else invalidate.

Definition parseBody : Parser bool :=
  typeInfo ← read_uint8;
  _ ← require (getTypeId typeInfo =? OBJECT_TYPE);
  numElements ← read_uint8;
  _ ← require (negb ((numElements <? 2) || (127 <? numElements)));
  typeInfo ← read_uint8;
  _ ← require (getTypeId typeInfo =? INT64_TYPE);
  timestamp ← read_int64;
  let numElements := (numElements - 1) mod 2 ^ 8 in
  _ ← modify (λ e, set_header timestamp (mTagId e) e);
  typeInfo ← read_uint8;
  _ ← require (getTypeId typeInfo =? INT32_TYPE);
  tag ← read_int32;
  let numElements := (numElements - 1) mod 2 ^ 8 in
  _ ← modify (λ e, set_header (mElapsedTimestampNs e) tag e);
  _ ← parseAnnotations (Z.to_nat (getNumAnnotations typeInfo)) (-1);
  _ ← parseFields numElements (Z.to_nat numElements) 1;
  e ← get;
  _ ← require (mRemainingLen e =? 0);
  e ← get;
  mret (mValid e).

(** [parseBuffer(buf, len)]; afterwards [mBuf] is null. *)
Definition parseBuffer (buf : list Z) (len : Z) (e : Parsing) : option (bool * Parsing) :=
  match parseBody (set_buf buf (u32 len) e) with
  | Some (b, e) => Some (b, set_buf [] (mRemainingLen e) e)
  | None => None
  end.

(** The view of the other components on an event. *)
Definition toLogEvent (uid : Z) (e : Parsing) : LogEvent :=
  mkLogEvent (mTagId e) uid (mElapsedTimestampNs e) (le_values e) (mExclusiveStateFieldIndex e)
    (mResetState e) (mTruncateTimestamp e).

(** ** Access to the values *)

Inductive status_t := OK | BAD_INDEX | BAD_TYPE.

(** The loop the getters share: the value of the field, unless a later field comes first. *)
Fixpoint findValue (key : Z) (values : list FieldValue) : option Value :=
  match values with
  | [] => None
  | v :: values =>
      if mField (fv_field v) =? getSimpleField key then Some (fv_value v)
      else if key <? getPosAtDepth (fv_field v) 0 then None
      else findValue key values
  end.

(** A getter: the result and the error it sets. *)
Definition getter {A} (d : A) (f : Value → option A) (key : Z) (e : Parsing) : A * status_t :=
  match findValue key (le_values e) with
  | None => (d, BAD_INDEX)
  | Some v => match f v with Some a => (a, OK) | None => (d, BAD_TYPE) end
  end.

Definition GetLong : Z → Parsing → Z * status_t :=
  getter 0 (λ v, match v with VLONG x | VINT x => Some x | _ => None end).
Definition GetInt : Z → Parsing → Z * status_t :=
  getter 0 (λ v, match v with VINT x => Some x | _ => None end).
(** A null pointer is [None]. *)
Definition GetString : Z → Parsing → option string * status_t :=
  getter None (λ v, match v with VSTRING s => Some (Some s) | _ => None end).
Definition GetBool : Z → Parsing → bool * status_t :=
  getter false (λ v, match v with VLONG x | VINT x => Some (negb (x =? 0)) | _ => None end).
Definition GetFloat : Z → Parsing → spec_float * status_t :=
  getter (S754_zero false) (λ v, match v with VFLOAT x => Some x | _ => None end).
Definition GetStorage : Z → Parsing → list Z * status_t :=
  getter [] (λ v, match v with VSTORAGE x => Some x | _ => None end).

Fixpoint updateValues (field : Z) (value : Value) (type : Type_) (values : list FieldValue)
    : list FieldValue * status_t :=
  match values with
  | [] => ([], BAD_INDEX)
  | v :: values =>
      if mField (fv_field v) =? field then
        if bool_decide (getType (fv_value v) = type)
        then (mkFieldValue (fv_field v) value (fv_annotations v) :: values, OK)
        else (v :: values, BAD_TYPE)
      else let r := updateValues field value type values in (v :: r.1, r.2)
  end.

Definition updateValue (key : Z) (value : Value) (type : Type_) (e : Parsing) : Parsing * status_t :=
  let r := updateValues (getSimpleField key) value type (le_values e) in (set_values r.1 e, r.2).

Definition hasAttributionChain (e : Parsing) : option (Z * Z) :=
  if (mAttributionChainStartIndex e =? -1) || (mAttributionChainEndIndex e =? -1) then None
  else Some (mAttributionChainStartIndex e, mAttributionChainEndIndex e).
