(* ===== verification/LogEventFacts.v ===== *)
(** * Facts about the parser of log events

    The parser never reads outside the buffer or the vector of values, whatever the bytes are, and
    the indices it stores point to values of the event. *)
From Stdlib Require Import SpecFloat.
From S2P Require Import Prelude UMap FieldValue FieldValueFacts DimensionKey Matchers LogEvent.

(** ** The invariant of a parser run *)

Definition nvalues (e : Parsing) : Z := Z.of_nat (length (le_values e)).

(** The indices an event stores: [-1], or the index of a value. *)
Record indices_ok (e : Parsing) : Prop := {
  io_uid : -1 <= mUidFieldIndex e < nvalues e ∨ mUidFieldIndex e = -1;
  io_exclusive : -1 <= mExclusiveStateFieldIndex e < nvalues e ∨ mExclusiveStateFieldIndex e = -1;
  io_chain : (mAttributionChainStartIndex e = -1 ∧ mAttributionChainEndIndex e = -1) ∨
             (0 <= mAttributionChainStartIndex e < mAttributionChainEndIndex e ∧
              mAttributionChainEndIndex e < nvalues e)
}.

(** Every value carries the tag of the event. *)
Definition tags_ok (e : Parsing) : Prop := Forall (λ v, mTag (fv_field v) = mTagId e) (le_values e).

Record parsing_ok (e : Parsing) : Prop := {
  pk_len : mRemainingLen e = Z.of_nat (length (mBuf e));
  pk_small : mRemainingLen e < 2 ^ 31;
  pk_bytes : Forall byte (mBuf e);
  pk_indices : indices_ok e;
  pk_tags : tags_ok e
}.

(** [m] run from [e] returns, keeps the invariant, adds at most [k] values, and its result satisfies
    [Q]. *)
Definition runs_at {A} (k : Z) (Q : A → Prop) (m : Parser A) (e : Parsing) : Prop :=
  parsing_ok e → nvalues e + k < 2 ^ 31 →
  ∃ a e', m e = Some (a, e') ∧ parsing_ok e' ∧ nvalues e <= nvalues e' <= nvalues e + k ∧ Q a.

Definition runs {A} (k : Z) (Q : A → Prop) (m : Parser A) : Prop := ∀ e, runs_at k Q m e.

Abbreviation any := (λ _, True).

Lemma runs_ret {A} (Q : A → Prop) a : Q a → runs 0 Q (mret a).
Proof. intros HQ e Hok _. exists a, e. split_and!; done || lia. Qed.

Lemma runs_at_seq {A B} k1 k2 (Q1 : A → Prop) (Q2 : B → Prop) (m : Parser A) (f : A → Parser B) e :
  0 <= k2 → runs_at k1 Q1 m e →
  (∀ a e', Q1 a → nvalues e <= nvalues e' <= nvalues e + k1 → runs_at k2 Q2 (f a) e') →
  runs_at (k1 + k2) Q2 (m ≫= f) e.
Proof.
  intros Hk2 Hm Hf Hok Hs. destruct (Hm Hok ltac:(lia)) as (a & e1 & E1 & Hok1 & Hn1 & HQ1).
  destruct (Hf a e1 HQ1 Hn1 Hok1 ltac:(lia)) as (b & e2 & E2 & Hok2 & Hn2 & HQ2).
  exists b, e2. split_and!; try done; try lia.
  unfold mbind, parser_bind. by rewrite E1.
Qed.

Lemma runs_at_bind {A B} k1 k2 (Q1 : A → Prop) (Q2 : B → Prop) (m : Parser A) (f : A → Parser B) e :
  0 <= k2 → runs_at k1 Q1 m e → (∀ a, Q1 a → runs k2 Q2 (f a)) → runs_at (k1 + k2) Q2 (m ≫= f) e.
Proof. intros Hk Hm Hf. eapply runs_at_seq; [done..|]. intros a e' Ha _. by apply Hf. Qed.

Lemma runs_bind {A B} k1 k2 (Q1 : A → Prop) (Q2 : B → Prop) (m : Parser A) (f : A → Parser B) :
  0 <= k2 → runs k1 Q1 m → (∀ a, Q1 a → runs k2 Q2 (f a)) → runs (k1 + k2) Q2 (m ≫= f).
Proof. intros Hk Hm Hf e. by eapply runs_at_bind. Qed.

(** The common case: neither part adds values. *)
Lemma runs_bind0 {A B} (Q1 : A → Prop) (Q2 : B → Prop) (m : Parser A) (f : A → Parser B) :
  runs 0 Q1 m → (∀ a, Q1 a → runs 0 Q2 (f a)) → runs 0 Q2 (m ≫= f).
Proof. intros Hm Hf. apply (runs_bind 0 0 Q1); done. Qed.

Lemma runs_get {A} k (Q : A → Prop) (f : Parsing → Parser A) :
  (∀ e, parsing_ok e → nvalues e + k < 2 ^ 31 → runs_at k Q (f e) e) → runs k Q (get ≫= f).
Proof. intros Hf e Hok Hs. by apply Hf. Qed.

Lemma runs_mono {A} k k' (Q Q' : A → Prop) (m : Parser A) :
  k <= k' → (∀ a, Q a → Q' a) → runs k Q m → runs k' Q' m.
Proof.
  intros Hk HQ Hm e Hok Hs. destruct (Hm e Hok ltac:(lia)) as (a & e1 & ? & ? & ? & ?).
  exists a, e1. split_and!; try done; try lia. by apply HQ.
Qed.

(** ** Reading *)

Lemma le_decode_range l : Forall byte l → 0 <= le_decode l < 256 ^ Z.of_nat (length l).
Proof.
  induction 1 as [|b l Hb _ IH]; [done|]. cbn [le_decode length]. unfold byte in Hb.
  rewrite Nat2Z.inj_succ, Z.pow_succ_r by lia. lia.
Qed.

Lemma invalidate_runs : runs 0 any invalidate.
Proof.
  intros e [H1 H2 H3 [? ? ?] H5] _. exists tt, (set_invalid e).
  split; [done|]. split; [by constructor; try constructor|]. split; [unfold nvalues; cbn; lia|done].
Qed.

Lemma set_buf_ok e n : (n <= length (mBuf e))%nat → parsing_ok e →
  parsing_ok (set_buf (drop n (mBuf e)) (mRemainingLen e - Z.of_nat n) e).
Proof.
  intros Hn []. constructor; cbn [set_buf mBuf mRemainingLen].
  - rewrite length_drop. lia.
  - lia.
  - by apply Forall_drop.
  - destruct pk_indices0. by constructor.
  - done.
Qed.

Lemma readNext_runs n : runs 0 (λ v, 0 <= v < 256 ^ Z.of_nat n) (readNext n).
Proof.
  unfold readNext. apply runs_get. intros e Hok Hs. destruct (Z.ltb_spec (mRemainingLen e) (Z.of_nat n)).
  - apply (runs_at_bind 0 0 any); [done|apply invalidate_runs|]. intros _ _. apply runs_ret.
    split; [done|]. apply Z.pow_pos_nonneg; lia.
  - assert (Hl : (n <= length (mBuf e))%nat) by (destruct Hok; lia).
    destruct (Nat.ltb_spec (length (mBuf e)) n); [lia|].
    intros _ _. eexists _, _. split; [reflexivity|].
    split; [by apply set_buf_ok|]. split; [unfold nvalues; cbn; lia|].
    replace (256 ^ Z.of_nat n) with (256 ^ Z.of_nat (length (take n (mBuf e)))).
    2:{ by rewrite length_take, Nat.min_l. }
    apply le_decode_range, Forall_take. by destruct Hok.
Qed.

Lemma read_uint8_runs : runs 0 byte read_uint8.
Proof. eapply runs_mono; [| |apply readNext_runs]; [done|]. intros a Ha. exact Ha. Qed.

Lemma read_then {A} n (f : Z → A) : runs 0 any (v ← readNext n; mret (f v)).
Proof. eapply runs_bind0; [apply readNext_runs|]. intros v _. by apply runs_ret. Qed.

Lemma readBlock_runs : runs 0 any readBlock.
Proof.
  unfold readBlock. eapply (runs_bind0 int32).
  { unfold read_int32. eapply runs_bind0; [apply readNext_runs|]. intros v _. apply runs_ret, wrap32_range. }
  intros n Hn. apply runs_get. intros e Hok Hs.
  destruct (Z.ltb_spec (mRemainingLen e) (u32 n)).
  { apply (runs_at_bind 0 0 any); [done|apply invalidate_runs|]. intros _ _. by apply runs_ret. }
  pose proof Hok as [Hlen Hsmall Hb Hi _].
  assert (Hn' : 0 <= n).
  { destruct (Z.le_gt_cases 0 n); [done|]. exfalso. unfold u32 in *.
    rewrite <- (Z.mod_add n 1 (2 ^ 32)), Z.mod_small in H by (unfold int32 in Hn; lia).
    unfold int32 in Hn. lia. }
  unfold int32 in Hn. rewrite u32_id in H by lia.
  destruct (Z.ltb_spec n 0); [lia|]. destruct (Z.ltb_spec (Z.of_nat (length (mBuf e))) n); [lia|].
  cbn [orb]. intros _ _. eexists _, _. split; [reflexivity|]. rewrite u32_id by lia.
  replace (mRemainingLen e - n) with (mRemainingLen e - Z.of_nat (Z.to_nat n)) by lia.
  split; [apply set_buf_ok; [lia|done]|]. split; [unfold nvalues; cbn; lia|done].
Qed.

(** ** Annotations *)

Lemma lastIndex_id e : le_values e ≠ [] → nvalues e < 2 ^ 31 → lastIndex e = nvalues e - 1.
Proof.
  intros He Hs. unfold lastIndex, nvalues in *. destruct (le_values e); [done|].
  apply Z.mod_small. cbn in *. lia.
Qed.

Lemma values_empty_false e : values_empty e = false → le_values e ≠ [].
Proof. unfold values_empty. by destruct (le_values e). Qed.

(** An update of the members that only change the stored indices. *)
Lemma modify_runs (f : Parsing → Parsing) e :
  mBuf (f e) = mBuf e → mRemainingLen (f e) = mRemainingLen e → (tags_ok e → tags_ok (f e)) →
  nvalues (f e) = nvalues e → (indices_ok e → indices_ok (f e)) → runs_at 0 any (modify f) e.
Proof.
  intros H1 H2 H3 H4 H5 [] _. exists tt, (f e). split; [done|]. split; [|split; [lia|done]].
  constructor; rewrite ?H1, ?H2; try done; [by apply H5|by apply H3].
Qed.

Lemma annotate_runs i f e : 0 <= i < nvalues e → runs_at 0 any (annotate i f) e.
Proof.
  intros Hi. unfold annotate. intros Hok Hs. unfold mbind, parser_bind, get.
  destruct (Z.ltb_spec i 0); [lia|].
  destruct (le_values e !! Z.to_nat i) as [v|] eqn:E.
  2:{ apply lookup_ge_None in E. unfold nvalues in Hi. lia. }
  refine (modify_runs (set_values _) e eq_refl eq_refl _ _ _ Hok Hs).
  - intros Ht. unfold tags_ok in *. cbn. apply Forall_insert; [done|]. cbn.
    by eapply (Forall_lookup_1 _ _ _ _ Ht).
  - unfold nvalues. cbn. by rewrite length_insert.
  - intros []. constructor; unfold nvalues in *; cbn; by rewrite length_insert.
Qed.

Lemma annotate_last_runs f e e' :
  values_empty e = false → nvalues e < 2 ^ 31 → nvalues e <= nvalues e' <= nvalues e + 0 →
  runs_at 0 any (annotate (lastIndex e) f) e'.
Proof.
  intros He%values_empty_false Hs Hn. apply annotate_runs. rewrite lastIndex_id by done.
  unfold nvalues in *. destruct (le_values e); [done|]. cbn in *. lia.
Qed.

Ltac annotation :=
  apply runs_get; let e := fresh "e" in intros e Hok Hs;
  match goal with
  | |- runs_at _ _ (if ?b then _ else _) _ =>
      let E := fresh "E" in destruct b eqn:E; [apply invalidate_runs|]; bool_to_prop
  end.

Lemma read_bool_runs : runs 0 any read_bool.
Proof. apply read_then. Qed.

Lemma parseIsUid_runs ty : runs 0 any (parseIsUidAnnotation ty).
Proof.
  unfold parseIsUidAnnotation. annotation.
  apply (runs_at_seq 0 0 any); [done|apply read_bool_runs|]. intros b e1 _ Hn1.
  apply (runs_at_seq 0 0 any); [done| |].
  - destruct b; [|by apply runs_ret]. apply modify_runs; try done.
    intros []. constructor; try done. cbn. rewrite lastIndex_id by (by apply values_empty_false || lia).
    unfold nvalues in *. cbn. lia.
  - intros _ e2 _ Hn2. apply annotate_last_runs; [done|lia|lia].
Qed.

Lemma parseTruncate_runs ty : runs 0 any (parseTruncateTimestampAnnotation ty).
Proof.
  unfold parseTruncateTimestampAnnotation. annotation.
  apply (runs_at_bind 0 0 any); [done|apply read_bool_runs|]. intros b _ e1.
  apply modify_runs; try done. by intros [].
Qed.

Lemma parsePrimary_runs ty : runs 0 any (parsePrimaryFieldAnnotation ty).
Proof.
  unfold parsePrimaryFieldAnnotation. annotation.
  apply (runs_at_seq 0 0 any); [done|apply read_bool_runs|]. intros b e1 _ Hn1.
  apply annotate_last_runs; [done|lia|lia].
Qed.

Lemma parseNested_runs ty : runs 0 any (parseStateNestedAnnotation ty).
Proof.
  unfold parseStateNestedAnnotation. annotation.
  apply (runs_at_seq 0 0 any); [done|apply read_bool_runs|]. intros b e1 _ Hn1.
  apply annotate_last_runs; [done|lia|lia].
Qed.

Lemma parseReset_runs ty : runs 0 any (parseTriggerStateResetAnnotation ty).
Proof.
  unfold parseTriggerStateResetAnnotation. annotation.
  apply (runs_at_bind 0 0 any); [done|apply read_then|]. intros v _ e1.
  apply modify_runs; try done. by intros [].
Qed.

Lemma parseExclusive_runs ty : runs 0 any (parseExclusiveStateAnnotation ty).
Proof.
  unfold parseExclusiveStateAnnotation. annotation.
  destruct (INT8_MAX <? lastIndex e) eqn:E'; [apply invalidate_runs|].
  apply (runs_at_seq 0 0 any); [done|apply read_bool_runs|]. intros b e1 _ Hn1.
  apply (runs_at_seq 0 0 any); [done| |].
  - apply modify_runs; try done. intros []. constructor; try done. cbn.
    rewrite lastIndex_id by (by apply values_empty_false || lia). unfold nvalues in *. cbn. lia.
  - intros _ e2 _ Hn2. apply annotate_last_runs; [done|lia|lia].
Qed.

(** [first] is [-1] or an index no greater than the number of values. *)
Lemma parseFirstUid_runs ty first : -1 <= first → runs 0 any (parsePrimaryFieldFirstUidAnnotation ty first).
Proof.
  intros Hf. unfold parsePrimaryFieldFirstUidAnnotation. annotation.
  destruct (Z.ltb_spec (wrap32 (lastIndex e)) first) as [|Hge]; [apply invalidate_runs|].
  apply (runs_at_seq 0 0 any); [done|apply read_bool_runs|]. intros b e1 _ Hn1.
  apply annotate_runs. assert (He : le_values e ≠ []) by by apply values_empty_false.
  rewrite lastIndex_id, wrap32_id in Hge by (done || lia || (unfold int32, nvalues in *; lia)).
  lia.
Qed.

Lemma parseAnnotation_runs first : -1 <= first → runs 0 any (parseAnnotation first).
Proof.
  intros Hf. unfold parseAnnotation. eapply runs_bind0; [apply read_uint8_runs|]. intros id _.
  eapply runs_bind0; [apply read_uint8_runs|]. intros ty _.
  repeat match goal with |- runs _ _ (if ?b then _ else _) => destruct b end;
    (eapply runs_bind0; [|intros _ _; by apply runs_ret]).
  - apply parseIsUid_runs.
  - apply parseTruncate_runs.
  - apply parsePrimary_runs.
  - by apply parseFirstUid_runs.
  - apply parseExclusive_runs.
  - apply parseReset_runs.
  - apply parseNested_runs.
  - apply invalidate_runs.
Qed.

Lemma parseAnnotations_runs n first : -1 <= first → runs 0 any (parseAnnotations n first).
Proof.
  intros Hf. induction n as [|n IH]; [by apply runs_ret|]. cbn [parseAnnotations].
  eapply runs_bind0; [by apply parseAnnotation_runs|]. intros [] _; [done|by apply runs_ret].
Qed.

(** ** Fields *)

Lemma decorate_tag depth last f : mTag (decorate depth last f) = mTag f.
Proof.
  unfold decorate. generalize (seq 1 (Z.to_nat (depth - 1))) as l. intros l. revert f.
  induction l as [|i l IH]; intros f; [done|]. cbn [fold_left]. rewrite IH.
  by destruct (default false (last !! i)).
Qed.

Lemma addToValues_runs pos depth v last : runs 1 any (addToValues pos depth v last).
Proof.
  intros e [H1 H2 H3 [Hu He Hc] Ht] Hs. eexists tt, _. split; [reflexivity|].
  unfold nvalues in *.
  split; [constructor; try done|].
  - constructor; unfold nvalues; cbn; rewrite length_app; cbn; lia.
  - unfold tags_ok in *. cbn. apply Forall_app. split; [done|]. apply Forall_cons_2; [|apply Forall_nil_2].
    cbn. by rewrite decorate_tag.
  -   split; [cbn; rewrite length_app; cbn; lia|done].
Qed.

Lemma value_runs {A} (read : Parser A) (v : A → Value) pos depth last n :
  runs 0 any read →
  runs 1 any (a ← read; _ ← addToValues pos depth (v a) last; parseAnnotations n (-1)).
Proof.
  intros Hr. apply (runs_bind 0 1 any); [done|done|]. intros a _.
  apply (runs_bind 1 0 any); [done|apply addToValues_runs|]. intros _ _. by apply parseAnnotations_runs.
Qed.

Lemma parseInt32_runs pos depth last n : runs 1 any (parseInt32 pos depth last n).
Proof. apply value_runs, read_then. Qed.
Lemma parseInt64_runs pos depth last n : runs 1 any (parseInt64 pos depth last n).
Proof. apply value_runs, read_then. Qed.
Lemma parseFloat_runs pos depth last n : runs 1 any (parseFloat pos depth last n).
Proof. apply value_runs, read_then. Qed.
Lemma parseBool_runs pos depth last n : runs 1 any (parseBool pos depth last n).
Proof. apply value_runs. eapply runs_mono; [| |apply read_uint8_runs]; done. Qed.

Lemma block_runs (v : list Z → Value) pos depth last n :
  runs 1 any (block ← readBlock;
    match block with
    | None => mret tt
    | Some bytes => _ ← addToValues pos depth (v bytes) last; parseAnnotations n (-1)
    end).
Proof.
  apply (runs_bind 0 1 any); [done|apply readBlock_runs|]. intros [bytes|] _.
  - apply (runs_bind 1 0 any); [done|apply addToValues_runs|]. intros _ _. by apply parseAnnotations_runs.
  - apply (runs_mono 0 1 any any); [done|done|by apply runs_ret].
Qed.

Lemma parseString_runs pos depth last n : runs 1 any (parseString pos depth last n).
Proof. apply block_runs. Qed.
Lemma parseByteArray_runs pos depth last n : runs 1 any (parseByteArray pos depth last n).
Proof. apply block_runs. Qed.

#[local] Hint Resolve parseInt32_runs parseInt64_runs parseFloat_runs parseBool_runs parseString_runs
  parseByteArray_runs : statsd.

Lemma runs_weaken {A} k (m : Parser A) : 0 <= k → runs 0 any m → runs k any m.
Proof. intros. by apply (runs_mono 0 k any any). Qed.

Lemma parseKeyValuePair_runs pos last : runs 2 any (parseKeyValuePair pos last).
Proof.
  unfold parseKeyValuePair. apply (runs_bind 1 1 any); [done|auto with statsd|]. intros _ _.
  apply (runs_bind 0 1 byte); [done|apply read_uint8_runs|]. intros ty _.
  repeat match goal with |- runs _ _ (if ?b then _ else _) => destruct b end; auto with statsd.
  apply runs_weaken; [done|apply invalidate_runs].
Qed.

Lemma parseAttributionNode_runs pos last : runs 2 any (parseAttributionNode pos last).
Proof.
  unfold parseAttributionNode. apply (runs_bind 1 1 any); [done|auto with statsd|]. intros _ _.
  auto with statsd.
Qed.

Lemma parseNodes_runs node pos total n : ∀ last i,
  (∀ pos last, runs 2 any (node pos last)) →
  runs (2 * Z.of_nat n) any (parseNodes node pos last total n i).
Proof.
  induction n as [|n IH]; intros last i Hn; [by apply runs_ret|]. cbn [parseNodes].
  replace (2 * Z.of_nat (S n)) with (2 + 2 * Z.of_nat n) by lia.
  apply (runs_bind _ _ any); [lia|done|]. intros _ _. by apply IH.
Qed.

Lemma nodes_runs node pos last b :
  byte b → (∀ pos last, runs 2 any (node pos last)) →
  runs 510 any (parseNodes node pos last b (Z.to_nat b) 1).
Proof.
  intros Hb Hn. unfold byte in Hb. eapply runs_mono; [|done|by apply parseNodes_runs]. lia.
Qed.

Lemma parseKeyValuePairs_runs pos last n : runs 510 any (parseKeyValuePairs pos last n).
Proof.
  unfold parseKeyValuePairs. apply (runs_bind 0 510 byte); [done|apply read_uint8_runs|]. intros b Hb.
  apply (runs_bind 510 0 any); [done|apply nodes_runs; [done|apply parseKeyValuePair_runs]|].
  intros _ _. by apply parseAnnotations_runs.
Qed.

Lemma parseAttributionChain_runs pos last n : runs 510 any (parseAttributionChain pos last n).
Proof.
  unfold parseAttributionChain. apply runs_get. intros e Hok Hs.
  apply (runs_at_seq 0 510 byte); [done|apply read_uint8_runs|]. intros b e1 Hb Hn1.
  assert (He : 0 <= nvalues e) by (unfold nvalues; lia).
  assert (Hu : u32 (Z.of_nat (length (le_values e))) = nvalues e).
  { apply u32_id. unfold nvalues in *. lia. }
  rewrite Hu. apply (runs_at_seq 510 0 any);
    [done|apply nodes_runs; [done|apply parseAttributionNode_runs]|]. intros _ e2 _ Hn2.
  apply runs_get. intros e3 Hok3 Hs3.
  apply (runs_at_bind 0 0 any); [done| |].
  - destruct (Z.ltb_spec INT8_MAX (lastIndex e3)) as [|Hle]; [apply invalidate_runs|].
    destruct (Z.ltb_spec (nvalues e) (lastIndex e3)) as [Hlt|]; [|by apply runs_ret].
    apply modify_runs; try done. intros []. constructor; try done. right. cbn.
    assert (le_values e3 ≠ []).
    { intros E. unfold lastIndex in Hle. rewrite E in Hle. done. }
    rewrite lastIndex_id in * by (done || lia). unfold nvalues in *. cbn. lia.
  - intros _ _. apply runs_get. intros e4 Hok4 Hs4. destruct (mValid e4); [|by apply runs_ret].
    apply parseAnnotations_runs. lia.
Qed.

#[local] Hint Resolve parseKeyValuePairs_runs parseAttributionChain_runs : statsd.

Lemma parseField_runs pos last : runs 510 any (parseField pos last).
Proof.
  unfold parseField. apply (runs_bind 0 510 byte); [done|apply read_uint8_runs|]. intros ty _.
  assert (Hone : ∀ m : Parser unit, runs 1 any m → runs 510 any m)
    by (intros m; by apply (runs_mono 1 510 any any)).
  repeat match goal with |- runs _ _ (if ?b then _ else _) => destruct b end; auto with statsd;
    apply runs_weaken; try done.
  - eapply runs_bind0; [apply read_then|]. intros _ _. apply invalidate_runs.
  - apply invalidate_runs.
Qed.

Lemma parseFields_runs total n : ∀ i, runs (510 * Z.of_nat n) any (parseFields total n i).
Proof.
  induction n as [|n IH]; intros i; [by apply runs_ret|]. cbn [parseFields].
  replace (510 * Z.of_nat (S n)) with (510 + 510 * Z.of_nat n) by lia.
  apply runs_get. intros e _ _. destruct (mValid e).
  - apply (runs_at_bind _ _ any); [lia|apply parseField_runs|]. intros _ _. apply IH.
  - eapply runs_weaken; [lia|by apply runs_ret].
Qed.

(** ** The parser *)

Lemma require_runs b : runs 0 any (require b).
Proof. unfold require. destruct b; [by apply runs_ret|apply invalidate_runs]. Qed.

(** The rest of the parser, from the atom id on. *)
Definition parseAtom (typeInfo numElements tag : Z) : Parser bool :=
  _ ← modify (λ e, set_header (mElapsedTimestampNs e) tag e);
  _ ← parseAnnotations (Z.to_nat (getNumAnnotations typeInfo)) (-1);
  _ ← parseFields numElements (Z.to_nat numElements) 1;
  e ← get;
  _ ← require (mRemainingLen e =? 0);
  e ← get;
  mret (mValid e).

Lemma parseAtom_runs ty n tag e :
  0 <= n < 256 → nvalues e = 0 → runs_at 130050 any (parseAtom ty n tag) e.
Proof.
  intros Hn He. unfold parseAtom. apply (runs_at_bind 0 130050 any); [done| |].
  { apply modify_runs; try done; [|by intros []]. intros _. unfold tags_ok, nvalues in *. cbn.
    by destruct (le_values e). }
  intros _ _. apply (runs_bind 0 130050 any); [done|by apply parseAnnotations_runs|]. intros _ _.
  apply (runs_bind 130050 0 any); [done|eapply runs_mono; [|done|apply parseFields_runs]; lia|]. intros _ _.
  apply runs_get. intros e1 _ _. apply (runs_at_bind 0 0 any); [done|apply require_runs|]. intros _ _.
  apply runs_get. intros e2 _ _. by apply runs_ret.
Qed.

Lemma bind_inv {A B} (m : Parser A) (f : A → Parser B) e b e' :
  (m ≫= f) e = Some (b, e') → ∃ a e1, m e = Some (a, e1) ∧ f a e1 = Some (b, e').
Proof. unfold mbind, parser_bind. destruct (m e) as [[a e1]|]; [|done]. intros H. by exists a, e1. Qed.

(** The parser answers whether the event is valid, and a valid event leaves no byte. *)
Lemma parseBody_result e b e' :
  parseBody e = Some (b, e') → b = mValid e' ∧ (b = true → mRemainingLen e' = 0).
Proof.
  unfold parseBody. intros H.
  do 14 (apply bind_inv in H as (? & ? & _ & H)).
  apply bind_inv in H as (e1 & e2 & H1 & H). injection H1 as <- <-.
  apply bind_inv in H as ([] & e2 & H2 & H).
  apply bind_inv in H as (e3 & e4 & H3 & H). injection H3 as <- <-. injection H as <- <-.
  split; [done|]. intros Hv. unfold require in H2.
  destruct (mRemainingLen _ =? 0) eqn:E in H2; injection H2 as <-; [by bool_to_prop|done].
Qed.

Lemma parseBody_runs e : nvalues e = 0 → runs_at 130050 any parseBody e.
Proof.
  intros He. unfold parseBody.
  apply (runs_at_seq 0 130050 byte); [done|apply read_uint8_runs|]. intros ty1 e1 _ Hn1.
  apply (runs_at_seq 0 130050 any); [done|apply require_runs|]. intros _ e2 _ Hn2.
  apply (runs_at_seq 0 130050 byte); [done|apply read_uint8_runs|]. intros n e3 _ Hn3.
  apply (runs_at_seq 0 130050 any); [done|apply require_runs|]. intros _ e4 _ Hn4.
  apply (runs_at_seq 0 130050 byte); [done|apply read_uint8_runs|]. intros ty2 e5 _ Hn5.
  apply (runs_at_seq 0 130050 any); [done|apply require_runs|]. intros _ e6 _ Hn6.
  apply (runs_at_seq 0 130050 any); [done|apply read_then|]. intros time e7 _ Hn7.
  apply (runs_at_seq 0 130050 any); [done| |].
  { apply modify_runs; try done. by intros []. }
  intros _ e8 _ Hn8.
  apply (runs_at_seq 0 130050 byte); [done|apply read_uint8_runs|]. intros ty3 e9 _ Hn9.
  apply (runs_at_seq 0 130050 any); [done|apply require_runs|]. intros _ e10 _ Hn10.
  apply (runs_at_seq 0 130050 any); [done|apply read_then|]. intros tag e11 _ Hn11.
  apply parseAtom_runs; [|lia]. pose proof (Z.mod_pos_bound ((n - 1) mod 2 ^ 8 - 1) (2 ^ 8)). lia.
Qed.

(** C18: The parser of log events is safe on every input.  For any sequence of bytes (shorter than
    2^31, which the socket guarantees by far) it returns without an access outside the buffer or
    the vector of values; the uid, exclusive-state and attribution-chain indices it stores are
    absent or point to values of the event, every value carries the atom id, and if it accepts the
    event, all bytes were consumed. *)
Theorem parser_safe (buf : list Z) (uninit : Z) :
  Forall byte buf → Z.of_nat (length buf) < 2 ^ 31 →
  ∃ b e, parseBuffer buf (Z.of_nat (length buf)) (LogEvent_new uninit) = Some (b, e) ∧
    indices_ok e ∧ tags_ok e ∧ nvalues e <= 130050 ∧
    b = mValid e ∧ (b = true → mRemainingLen e = 0).
Proof.
  intros Hb Hlen. unfold parseBuffer. set (e0 := set_buf buf _ (LogEvent_new uninit)).
  assert (Hu : u32 (Z.of_nat (length buf)) = Z.of_nat (length buf)) by (apply u32_id; lia).
  assert (H0 : parsing_ok e0).
  { constructor; unfold e0; cbn; rewrite ?Hu; try done; [|apply Forall_nil_2].
    constructor; cbn; auto. }
  destruct (parseBody_runs e0 eq_refl H0) as (b & e & E & [_ _ _ Hi Ht] & Hn & _); [done|].
  rewrite E. exists b, (set_buf [] (mRemainingLen e) e). destruct (parseBody_result _ _ _ E) as [-> Hr].
  split; [done|]. destruct Hi. split; [by constructor|]. split; [done|]. split; [exact (proj2 Hn)|done].
Qed.

Lemma parser_safe_witness :
  let buf := [OBJECT_TYPE; 2; INT64_TYPE; 1; 0; 0; 0; 0; 0; 0; 0; INT32_TYPE; 5; 0; 0; 0] in
  ∃ e, parseBuffer buf 16 (LogEvent_new 0) = Some (true, e) ∧ mRemainingLen e = 0.
Proof.
  intros buf. destruct (parser_safe buf 0) as (b & e & E & _ & _ & _ & Hb & Hr).
  - repeat first [apply Forall_nil_2|apply Forall_cons_2]; by vm_compute.
  - done.
  - change (Z.of_nat (length buf)) with 16 in E. exists e. destruct b; [by split; [|apply Hr]|].
    exfalso. vm_compute in E. discriminate E.
Defined.
