(* ===== verification/StatsEvent.v ===== *)
(** * Encoding of events by the clients (lib/libstatssocket/stats_event.c)

    A client builds the socket encoding of an atom in a growing buffer.  A write is a copy into the
    buffer: [None] is a write outside of it.  Cells the allocator returns without a defined value
    are an arbitrary [junk]. *)
From S2P Require Import Prelude UMap FieldValue DimensionKey Matchers LogEvent.

Definition LOGGER_ENTRY_MAX_PAYLOAD : Z := 4068.
Definition MAX_PUSH_EVENT_PAYLOAD : Z := LOGGER_ENTRY_MAX_PAYLOAD - 4.
Definition MAX_PULL_EVENT_PAYLOAD : Z := 50 * 1024.

Definition POS_NUM_ELEMENTS : Z := 1.
Definition POS_TIMESTAMP : Z := POS_NUM_ELEMENTS + 1.
Definition POS_ATOM_ID : Z := POS_TIMESTAMP + 1 + 8.

Definition MAX_ANNOTATION_COUNT : Z := 15.
Definition MAX_BYTE_VALUE : Z := 127.

Definition ERROR_NO_ATOM_ID : Z := 0x2.
Definition ERROR_OVERFLOW : Z := 0x4.
Definition ERROR_ATTRIBUTION_CHAIN_TOO_LONG : Z := 0x8.
Definition ERROR_ANNOTATION_DOES_NOT_FOLLOW_FIELD : Z := 0x20.
Definition ERROR_ANNOTATION_ID_TOO_LARGE : Z := 0x80.
Definition ERROR_TOO_MANY_ANNOTATIONS : Z := 0x100.
Definition ERROR_TOO_MANY_FIELDS : Z := 0x200.
Definition ERROR_STRING_NOT_NULL_TERMINATED : Z := 0x800.
Definition ERROR_ATOM_ID_INVALID_POSITION : Z := 0x2000.

Record AStatsEvent := mkStatsEvent {
  buf : list Z;
  lastFieldPos : Z;
  numBytesWritten : Z;
  numElements : Z;
  atomId : Z;
  errors : Z;
  built : bool;
  bufSize : Z
}.

Definition set_ebuf (b : list Z) (n : Z) (e : AStatsEvent) : AStatsEvent :=
  mkStatsEvent b (lastFieldPos e) n (numElements e) (atomId e) (errors e) (built e) (bufSize e).
Definition grow_buf (b : list Z) (size : Z) (e : AStatsEvent) : AStatsEvent :=
  mkStatsEvent b (lastFieldPos e) (numBytesWritten e) (numElements e) (atomId e) (errors e) (built e) size.
Definition start_at (pos : Z) (e : AStatsEvent) : AStatsEvent :=
  mkStatsEvent (buf e) pos (numBytesWritten e) (numElements e) (atomId e) (errors e) (built e) (bufSize e).
Definition set_elements (n : Z) (e : AStatsEvent) : AStatsEvent :=
  mkStatsEvent (buf e) (lastFieldPos e) (numBytesWritten e) n (atomId e) (errors e) (built e) (bufSize e).
Definition set_atom (id : Z) (e : AStatsEvent) : AStatsEvent :=
  mkStatsEvent (buf e) (lastFieldPos e) (numBytesWritten e) (numElements e) id (errors e) (built e) (bufSize e).
(** [event->errors |= error] *)
Definition add_error (error : Z) (e : AStatsEvent) : AStatsEvent :=
  mkStatsEvent (buf e) (lastFieldPos e) (numBytesWritten e) (numElements e) (atomId e)
    (Z.lor (errors e) error) (built e) (bufSize e).
Definition set_built (e : AStatsEvent) : AStatsEvent :=
  mkStatsEvent (buf e) (lastFieldPos e) (numBytesWritten e) (numElements e) (atomId e) (errors e) true (bufSize e).

(** [memcpy(&buf\[pos\], bytes, n)] *)
Definition store (pos : Z) (bytes b : list Z) : option (list Z) :=
  if (0 <=? pos) && (pos + Z.of_nat (length bytes) <=? Z.of_nat (length b))
  then Some (take (Z.to_nat pos) b ++ bytes ++ drop (Z.to_nat pos + length bytes) b) else None.

(** The bytes of an unsigned value, least significant first. *)
Fixpoint le_encode (n : nat) (v : Z) : list Z :=
  match n with O => [] | S n => v mod 256 :: le_encode n (v / 256) end.

Section encoder.
Context (junk : Z).

(** The loop [do bufSize *= 2 while (bufSize <= totalBytesNeeded)]; 51200 is reached from the
    initial size in four doublings. *)
Fixpoint doubleSize (fuel : nat) (size total : Z) : Z :=
  match fuel with
  | O => size
  | S fuel => let size := 2 * size in if size <=? total then doubleSize fuel size total else size
  end.

(** [overflows]: the answer, and the event with the error or the larger buffer. *)
Definition overflows (size : Z) (e : AStatsEvent) : bool * AStatsEvent :=
  let totalBytesNeeded := numBytesWritten e + size in
  if MAX_PULL_EVENT_PAYLOAD <? totalBytesNeeded then (true, add_error ERROR_OVERFLOW e)
  else if (bufSize e <? MAX_PULL_EVENT_PAYLOAD) && (bufSize e <? totalBytesNeeded) then
    let size := Z.min (doubleSize 64 (bufSize e) totalBytesNeeded) MAX_PULL_EVENT_PAYLOAD in
    (false, grow_buf (resize (Z.to_nat size) junk (buf e)) size e)
  else (false, e).

(** The append functions: the bytes of the value are copied to the end of the event. *)
Definition append (bytes : list Z) (e : AStatsEvent) : option AStatsEvent :=
  let '(full, e) := overflows (Z.of_nat (length bytes)) e in
  if full then Some e
  else
    b ← store (numBytesWritten e) bytes (buf e);
    Some (set_ebuf b (numBytesWritten e + Z.of_nat (length bytes)) e).

Definition append_byte (value : Z) : AStatsEvent → option AStatsEvent := append [value].
Definition append_bool (value : bool) : AStatsEvent → option AStatsEvent :=
  append_byte (if value then 1 else 0).
Definition append_int32 (value : Z) : AStatsEvent → option AStatsEvent :=
  append (le_encode 4 (value mod 2 ^ 32)).
Definition append_int64 (value : Z) : AStatsEvent → option AStatsEvent :=
  append (le_encode 8 (value mod 2 ^ 64)).
(** A float is given by its bit pattern. *)
Definition append_float (bits : Z) : AStatsEvent → option AStatsEvent := append (le_encode 4 bits).
Definition append_byte_array (bytes : list Z) : AStatsEvent → option AStatsEvent := append bytes.

(** A C string: its characters before the terminating NUL. *)
Definition append_string (chars : list Z) (e : AStatsEvent) : option AStatsEvent :=
  if MAX_PULL_EVENT_PAYLOAD <=? Z.of_nat (length chars)
  then Some (add_error ERROR_STRING_NOT_NULL_TERMINATED e)
  else
    e ← append_int32 (Z.of_nat (length chars)) e;
    append_byte_array chars e.

Definition start_field (typeId : Z) (e : AStatsEvent) : option AStatsEvent :=
  e ← append_byte typeId (start_at (numBytesWritten e) e);
  Some (set_elements (u32 (numElements e + 1)) e).

Definition writeInt32 (value : Z) (e : AStatsEvent) : option AStatsEvent :=
  e ← start_field INT32_TYPE e; append_int32 value e.
Definition writeInt64 (value : Z) (e : AStatsEvent) : option AStatsEvent :=
  e ← start_field INT64_TYPE e; append_int64 value e.
Definition writeFloat (bits : Z) (e : AStatsEvent) : option AStatsEvent :=
  e ← start_field FLOAT_TYPE e; append_float bits e.
Definition writeBool (value : bool) (e : AStatsEvent) : option AStatsEvent :=
  e ← start_field BOOL_TYPE e; append_bool value e.

(** A null pointer is [None], with its size. *)
Definition writeByteArray (bytes : option (list Z)) (e : AStatsEvent) : option AStatsEvent :=
  e ← start_field BYTE_ARRAY_TYPE e;
  let bytes := default [] bytes in
  e ← append_int32 (Z.of_nat (length bytes)) e;
  if 0 <? Z.of_nat (length bytes) then append_byte_array bytes e else Some e.

Definition writeString (value : option (list Z)) (e : AStatsEvent) : option AStatsEvent :=
  e ← start_field STRING_TYPE e; append_string (default [] value) e.

Fixpoint writeNodes (nodes : list (Z * option (list Z))) (e : AStatsEvent) : option AStatsEvent :=
  match nodes with
  | [] => Some e
  | (uid, tag) :: nodes =>
      e ← append_int32 uid e;
      e ← append_string (default [] tag) e;
      writeNodes nodes e
  end.

(** [numNodes] is the length of both arrays. *)
Definition writeAttributionChain (nodes : list (Z * option (list Z))) (e : AStatsEvent)
    : option AStatsEvent :=
  if MAX_BYTE_VALUE <? Z.of_nat (length nodes) then Some (add_error ERROR_ATTRIBUTION_CHAIN_TOO_LONG e)
  else
    e ← start_field ATTRIBUTION_CHAIN_TYPE e;
    e ← append_byte (Z.of_nat (length nodes)) e;
    writeNodes nodes e.

Definition increment_annotation_count (e : AStatsEvent) : option AStatsEvent :=
  typeInfo ← buf e !! Z.to_nat (lastFieldPos e);
  let fieldType := Z.land typeInfo 0x0F in
  let oldAnnotationCount := Z.shiftr (Z.land typeInfo 0xF0) 4 in
  let newAnnotationCount := oldAnnotationCount + 1 in
  if MAX_ANNOTATION_COUNT <? newAnnotationCount then Some (add_error ERROR_TOO_MANY_ANNOTATIONS e)
  else
    b ← store (lastFieldPos e)
          [Z.lor (Z.land (Z.shiftl newAnnotationCount 4) 0xF0) fieldType] (buf e);
    Some (set_ebuf b (numBytesWritten e) e).

(** The checks both functions that add an annotation begin with. *)
Definition addAnnotation (annotationId : Z) (write : AStatsEvent → option AStatsEvent) (e : AStatsEvent)
    : option AStatsEvent :=
  if numElements e <? 2 then Some (add_error ERROR_ANNOTATION_DOES_NOT_FOLLOW_FIELD e)
  else if MAX_BYTE_VALUE <? annotationId then Some (add_error ERROR_ANNOTATION_ID_TOO_LARGE e)
  else
    e ← append_byte annotationId e;
    e ← write e;
    increment_annotation_count e.

Definition addBoolAnnotation (annotationId : Z) (value : bool) : AStatsEvent → option AStatsEvent :=
  addAnnotation annotationId (λ e, e ← append_byte BOOL_TYPE e; append_bool value e).
Definition addInt32Annotation (annotationId value : Z) : AStatsEvent → option AStatsEvent :=
  addAnnotation annotationId (λ e, e ← append_byte INT32_TYPE e; append_int32 value e).

(** [AStatsEvent_obtain]; [timestamp] is the elapsed time of the device. *)
Definition obtain (timestamp : Z) : option AStatsEvent :=
  let b := OBJECT_TYPE :: replicate (Z.to_nat MAX_PUSH_EVENT_PAYLOAD - 1) 0 in
  writeInt64 timestamp (mkStatsEvent b 0 2 0 0 0 false MAX_PUSH_EVENT_PAYLOAD).

Definition setAtomId (id : Z) (e : AStatsEvent) : option AStatsEvent :=
  if negb (atomId e =? 0) then Some e
  else if negb (numElements e =? 1) then Some (add_error ERROR_ATOM_ID_INVALID_POSITION e)
  else writeInt32 id (set_atom id e).

Definition overwriteTimestamp (timestampNs : Z) (e : AStatsEvent) : option AStatsEvent :=
  b ← store (POS_TIMESTAMP + 1) (le_encode 8 (timestampNs mod 2 ^ 64)) (buf e);
  Some (set_ebuf b (numBytesWritten e) e).

Definition error_if (b : bool) (error : Z) (e : AStatsEvent) : AStatsEvent :=
  if b then add_error error e else e.

Definition build_internal (push : bool) (e : AStatsEvent) : option AStatsEvent :=
  let e := error_if (MAX_BYTE_VALUE <? numElements e) ERROR_TOO_MANY_FIELDS e in
  let e := error_if (0 =? atomId e) ERROR_NO_ATOM_ID e in
  let e := error_if (push && (MAX_PUSH_EVENT_PAYLOAD <? numBytesWritten e)) ERROR_OVERFLOW e in
  e ← (if negb (errors e =? 0) then
         b ← store POS_ATOM_ID [INT32_TYPE] (buf e);
         let e := set_ebuf b (POS_ATOM_ID + 1 + 4) (set_elements 2 e) in
         e ← start_field ERROR_TYPE e;
         append_int32 (errors e) e
       else Some e);
  b ← store POS_NUM_ELEMENTS [numElements e mod 256] (buf e);
  Some (set_ebuf b (numBytesWritten e) e).

Definition build (e : AStatsEvent) : option AStatsEvent :=
  if built e then Some e else e ← build_internal false e; Some (set_built e).

(** [AStatsEvent_write]: the event and what is sent to statsd, the bytes and the atom id. *)
Definition write (e : AStatsEvent) : option (AStatsEvent * (list Z * Z)) :=
  e ← build_internal true e;
  Some (e, (take (Z.to_nat (numBytesWritten e)) (buf e), atomId e)).

(** [getBuffer]: the bytes of the event. *)
Definition getBuffer (e : AStatsEvent) : list Z := take (Z.to_nat (numBytesWritten e)) (buf e).
End encoder.
