(* ===== verification/StatsEventFacts.v ===== *)
(** * The protocol between the clients and statsd

    What a client writes is what statsd reads: an event that was built without an error is parsed to
    exactly the values and annotations that were written, and an event with an error is rejected. *)
From Stdlib Require Import SpecFloat.
From S2P Require Import Prelude UMap FieldValue FieldValueFacts DimensionKey Matchers LogEvent LogEventFacts.
From S2P Require Import StatsEvent.

(** ** What a client writes *)

Inductive EField :=
| EInt32 (value : Z)
| EInt64 (value : Z)
| EFloat (bits : Z)
| EBool (value : bool)
| EBytes (bytes : option (list Z))
| EString (chars : option (list Z))
| EChain (nodes : list (Z * option (list Z))).

Inductive EAnnotation :=
| AIsUid (b : bool)
| APrimary (b : bool)
| AExclusive (b : bool)
| AFirstUid (b : bool)
| AReset (state : Z)
| ANested (b : bool).

Record EEvent := mkEEvent {
  ev_timestamp : Z;
  ev_atom : Z;
  ev_truncate : option bool;
  ev_fields : list (EField * list EAnnotation)
}.

(** ** The wire format *)

Definition int32_bytes (v : Z) : list Z := le_encode 4 (v mod 2 ^ 32).
Definition int64_bytes (v : Z) : list Z := le_encode 8 (v mod 2 ^ 64).
Definition block_bytes (l : list Z) : list Z := int32_bytes (Z.of_nat (length l)) ++ l.
Definition bool_byte (b : bool) : Z := if b then 1 else 0.

Definition node_bytes (n : Z * option (list Z)) : list Z := int32_bytes n.1 ++ block_bytes (default [] n.2).

Definition field_type (f : EField) : Z :=
  match f with
  | EInt32 _ => INT32_TYPE | EInt64 _ => INT64_TYPE | EFloat _ => FLOAT_TYPE | EBool _ => BOOL_TYPE
  | EBytes _ => BYTE_ARRAY_TYPE | EString _ => STRING_TYPE | EChain _ => ATTRIBUTION_CHAIN_TYPE
  end.

Definition payload (f : EField) : list Z :=
  match f with
  | EInt32 v => int32_bytes v
  | EInt64 v => int64_bytes v
  | EFloat bits => le_encode 4 bits
  | EBool b => [bool_byte b]
  | EBytes l | EString l => block_bytes (default [] l)
  | EChain nodes => Z.of_nat (length nodes) :: concat (node_bytes <$> nodes)
  end.

Definition annotation_id (a : EAnnotation) : Z :=
  match a with
  | AIsUid _ => ANNOTATION_ID_IS_UID | APrimary _ => ANNOTATION_ID_PRIMARY_FIELD
  | AExclusive _ => ANNOTATION_ID_EXCLUSIVE_STATE | AFirstUid _ => ANNOTATION_ID_PRIMARY_FIELD_FIRST_UID
  | AReset _ => ANNOTATION_ID_TRIGGER_STATE_RESET | ANested _ => ANNOTATION_ID_STATE_NESTED
  end.

Definition annotation_value (a : EAnnotation) : list Z :=
  match a with
  | AIsUid b | APrimary b | AExclusive b | AFirstUid b | ANested b => [BOOL_TYPE; bool_byte b]
  | AReset v => INT32_TYPE :: int32_bytes v
  end.

Definition annotation_bytes (a : EAnnotation) : list Z := annotation_id a :: annotation_value a.

(** The type byte of a field with [n] annotations. *)
Definition type_byte (ty : Z) (n : nat) : Z := Z.lor (Z.land (Z.shiftl (Z.of_nat n) 4) 0xF0) ty.

Definition field_bytes (f : EField * list EAnnotation) : list Z :=
  type_byte (field_type f.1) (length f.2) :: payload f.1 ++ concat (annotation_bytes <$> f.2).

Definition truncate_bytes (b : bool) : list Z := [ANNOTATION_ID_TRUNCATE_TIMESTAMP; BOOL_TYPE; bool_byte b].

(** The bytes after the number of elements. *)
Definition body_bytes (ev : EEvent) : list Z :=
  INT64_TYPE :: int64_bytes (ev_timestamp ev) ++
  type_byte INT32_TYPE (match ev_truncate ev with Some _ => 1 | None => 0 end) :: int32_bytes (ev_atom ev) ++
  from_option truncate_bytes [] (ev_truncate ev) ++
  concat (field_bytes <$> ev_fields ev).

Definition wire (ev : EEvent) : list Z :=
  OBJECT_TYPE :: Z.of_nat (length (ev_fields ev)) + 2 :: body_bytes ev.

(** ** The event statsd should see *)

Definition node_values (tag i total j : Z) (n : Z * option (list Z)) : list FieldValue :=
  let mark := decorate 2 [false; j =? total; false] in
  [FieldValue_of (mark (Field_of_pos tag [i; j; 1] 2)) (VINT (wrap32 n.1));
   FieldValue_of (mark (Field_of_pos tag [i; j; 2] 2)) (VSTRING (string_of_bytes (default [] n.2)))].

Fixpoint chain_values (tag i total j : Z) (nodes : list (Z * option (list Z))) : list FieldValue :=
  match nodes with
  | [] => []
  | n :: nodes => node_values tag i total j n ++ chain_values tag i total (j + 1) nodes
  end.

Definition field_values (tag i : Z) (f : EField) : list FieldValue :=
  let simple v := [FieldValue_of (Field_of_pos tag [i; 1; 1] 0) v] in
  match f with
  | EInt32 v => simple (VINT (wrap32 v))
  | EInt64 v => simple (VLONG (wrap64 v))
  | EFloat bits => simple (VFLOAT (float_of_bits bits))
  | EBool b => simple (VINT (bool_byte b))
  | EBytes l => simple (VSTORAGE (default [] l))
  | EString l => simple (VSTRING (string_of_bytes (default [] l)))
  | EChain nodes => chain_values tag i (Z.of_nat (length nodes)) 1 nodes
  end.

Definition annotateValue (g : Z → Z) (v : FieldValue) : FieldValue :=
  mkFieldValue (fv_field v) (fv_value v) (g (fv_annotations v)).

Definition annotateAt (i : Z) (g : Z → Z) (e : Parsing) : Parsing :=
  set_values (alter (annotateValue g) (Z.to_nat i) (le_values e)) e.

(** The meaning of an annotation of the last value of [e]; [first] is the index of the first uid of
    an attribution chain. *)
Definition spec_annotation (first : Z) (e : Parsing) (a : EAnnotation) : Parsing :=
  let last := nvalues e - 1 in
  match a with
  | AIsUid b => annotateAt last (λ x, setUidField x b) (if b then set_uid last e else e)
  | APrimary b => annotateAt last (λ x, setPrimaryField x b) e
  | AExclusive b => annotateAt last (λ x, setExclusiveState x b) (set_exclusive last e)
  | AFirstUid b => annotateAt first (λ x, setPrimaryField x b) e
  | AReset s => set_reset (wrap32 s) e
  | ANested b => annotateAt last (λ x, setNested x b) e
  end.

Definition spec_field (i : Z) (e : Parsing) (f : EField * list EAnnotation) : Parsing :=
  let first := nvalues e in
  let e := set_values (le_values e ++ field_values (mTagId e) i f.1) e in
  let e := match f.1 with EChain (_ :: _) => set_chain first (nvalues e - 1) e | _ => e end in
  foldl (spec_annotation first) e f.2.

Fixpoint spec_fields (i : Z) (e : Parsing) (fs : list (EField * list EAnnotation)) : Parsing :=
  match fs with [] => e | f :: fs => spec_fields (i + 1) (spec_field i e f) fs end.

Definition spec_event (uninit : Z) (ev : EEvent) : Parsing :=
  let e := set_header (wrap64 (ev_timestamp ev)) (wrap32 (ev_atom ev)) (LogEvent_new uninit) in
  let e := from_option (λ b, set_truncate b e) e (ev_truncate ev) in
  spec_fields 1 e (ev_fields ev).

(** Which annotations a field can have. *)
Definition annotation_allowed (f : EField) (a : EAnnotation) : bool :=
  match a, f with
  | AIsUid _, EInt32 _ | AIsUid _, EBool _ => true
  | AIsUid _, _ => false
  | AFirstUid _, EChain (_ :: _) => true
  | AFirstUid _, _ => false
  | _, EChain [] => false
  | _, _ => true
  end.

Definition num_values (f : EField) : nat :=
  match f with EChain nodes => 2 * length nodes | _ => 1 end.

(** ** Reading what was written *)

Lemma length_le_encode n v : length (le_encode n v) = n.
Proof. revert v. induction n as [|n IH]; intros v; [done|]. cbn. by rewrite IH. Qed.

Lemma le_decode_encode n v : 0 <= v < 256 ^ Z.of_nat n → le_decode (le_encode n v) = v.
Proof.
  revert v. induction n as [|n IH]; intros v Hv; cbn [le_encode le_decode]; [cbn in Hv; lia|].
  rewrite Nat2Z.inj_succ, Z.pow_succ_r in Hv by lia.
  rewrite IH; [pose proof (Z.div_mod v 256); lia|].
  split; [apply Z.div_pos; lia|]. apply Z.div_lt_upper_bound; lia.
Qed.

Lemma wrap32_mod v : wrap32 (v mod 2 ^ 32) = wrap32 v.
Proof. unfold wrap32. by rewrite Zplus_mod_idemp_l. Qed.
Lemma wrap64_mod v : wrap64 (v mod 2 ^ 64) = wrap64 v.
Proof. unfold wrap64. by rewrite Zplus_mod_idemp_l. Qed.

Definition at_buf (rest : list Z) (e : Parsing) : Parsing := set_buf rest (Z.of_nat (length rest)) e.

(** [m] reads exactly [bytes] from the buffer, returns [a] and turns the event [e] into [e']. *)
Definition consumes {A} (m : Parser A) (bytes : list Z) (e : Parsing) (a : A) (e' : Parsing) : Prop :=
  ∀ rest, Z.of_nat (length (bytes ++ rest)) < 2 ^ 31 → m (at_buf (bytes ++ rest) e) = Some (a, at_buf rest e').

Lemma consumes_ret {A} (a : A) e : consumes (mret a) [] e a e.
Proof. by intros rest _. Qed.

Lemma consumes_bind {A B} (m : Parser A) (f : A → Parser B) b1 b2 e a e1 c e2 :
  consumes m b1 e a e1 → consumes (f a) b2 e1 c e2 → consumes (m ≫= f) (b1 ++ b2) e c e2.
Proof.
  intros Hm Hf rest Hl. unfold mbind, parser_bind. rewrite <- app_assoc in *. rewrite Hm by done.
  apply Hf. rewrite length_app in Hl. lia.
Qed.

(** A step that reads nothing. *)
Lemma consumes_step {A B} (m : Parser A) (f : A → Parser B) b e a e1 c e2 :
  consumes m [] e a e1 → consumes (f a) b e1 c e2 → consumes (m ≫= f) b e c e2.
Proof. apply consumes_bind. Qed.

Lemma consumes_modify f e :
  (∀ rest, f (at_buf rest e) = at_buf rest (f e)) → consumes (modify f) [] e tt (f e).
Proof. intros Hf rest _. unfold modify. by rewrite Hf. Qed.

Lemma readNext_consumes n bytes e : length bytes = n → consumes (readNext n) bytes e (le_decode bytes) e.
Proof.
  intros Hn rest Hl. unfold readNext, mbind, parser_bind, get, modify. cbn [at_buf set_buf mBuf mRemainingLen].
  rewrite length_app in *. destruct (Z.ltb_spec (Z.of_nat (length bytes + length rest)) (Z.of_nat n)); [lia|].
  destruct (Nat.ltb_spec (length bytes + length rest) n); [lia|].
  rewrite take_app_length', drop_app_length' by done. unfold mret, parser_ret, at_buf, set_buf. cbn.
  do 3 f_equal. lia.
Qed.

Lemma read_uint8_consumes b e : consumes read_uint8 [b] e b e.
Proof. pose proof (readNext_consumes 1 [b] e eq_refl) as H. cbn in H. rewrite Z.add_0_r in H. exact H. Qed.

Lemma read_bool_consumes b e : consumes read_bool [bool_byte b] e b e.
Proof.
  unfold read_bool. rewrite <- (app_nil_r [bool_byte b]).
  eapply consumes_bind; [by apply readNext_consumes|]. destruct b; apply consumes_ret.
Qed.

Lemma read_int32_consumes v e : consumes read_int32 (int32_bytes v) e (wrap32 v) e.
Proof.
  unfold read_int32, int32_bytes. rewrite <- (app_nil_r (le_encode _ _)).
  eapply consumes_bind; [apply readNext_consumes, length_le_encode|].
  rewrite le_decode_encode, wrap32_mod by (apply Z.mod_pos_bound; lia). apply consumes_ret.
Qed.

Lemma read_int64_consumes v e : consumes read_int64 (int64_bytes v) e (wrap64 v) e.
Proof.
  unfold read_int64, int64_bytes. rewrite <- (app_nil_r (le_encode _ _)).
  eapply consumes_bind; [apply readNext_consumes, length_le_encode|].
  rewrite le_decode_encode, wrap64_mod by (apply Z.mod_pos_bound; lia). apply consumes_ret.
Qed.

Lemma read_float_consumes bits e :
  0 <= bits < 2 ^ 32 → consumes read_float (le_encode 4 bits) e (float_of_bits bits) e.
Proof.
  intros Hb. unfold read_float. rewrite <- (app_nil_r (le_encode 4 bits)).
  eapply consumes_bind; [apply readNext_consumes, length_le_encode|].
  rewrite le_decode_encode by done. apply consumes_ret.
Qed.

Lemma readBlock_consumes l e : consumes readBlock (block_bytes l) e (Some l) e.
Proof.
  intros rest Hl. unfold block_bytes in *. rewrite <- app_assoc in *. unfold readBlock.
  unfold mbind at 1, parser_bind at 1. rewrite read_int32_consumes by done.
  rewrite !length_app in Hl. rewrite wrap32_id by (unfold int32; lia).
  unfold mbind, parser_bind, get, modify. cbn [at_buf set_buf mBuf mRemainingLen].
  rewrite length_app, u32_id by lia.
  destruct (Z.ltb_spec (Z.of_nat (length l + length rest)) (Z.of_nat (length l))); [lia|].
  destruct (Z.ltb_spec (Z.of_nat (length l)) 0); [lia|].
  destruct (Z.ltb_spec (Z.of_nat (length l + length rest)) (Z.of_nat (length l))); [lia|]. cbn [orb].
  rewrite u32_id by lia. rewrite Nat2Z.id, take_app_length, drop_app_length.
  unfold mret, parser_ret, at_buf, set_buf. cbn. do 3 f_equal. lia.
Qed.

(** *** Annotations *)

Lemma consumes_get {A} (f : Parsing → Parser A) b e a e' :
  (∀ rest, consumes (f (at_buf rest e)) b e a e') → consumes (get ≫= f) b e a e'.
Proof. intros Hf rest Hl. exact (Hf (b ++ rest) rest Hl). Qed.

Lemma alter_insert {A} (f : A → A) i (l : list A) v : l !! i = Some v → alter f i l = <[i := f v]> l.
Proof. revert i. induction l as [|x l IH]; intros [|i] Hv; try done; cbn in *; [congruence|]. f_equal. by apply IH. Qed.

Lemma annotate_consumes i g e : 0 <= i < nvalues e → consumes (annotate i g) [] e tt (annotateAt i g e).
Proof.
  intros Hi. unfold annotate. apply consumes_get. intros rest. destruct (Z.ltb_spec i 0); [lia|].
  cbn [at_buf set_buf le_values]. destruct (le_values e !! Z.to_nat i) as [v|] eqn:E.
  - unfold annotateAt. rewrite (alter_insert _ _ _ _ E). by apply consumes_modify.
  - apply lookup_ge_None in E. unfold nvalues in Hi. lia.
Qed.

(** The events on which the parser accepts annotations. *)
Record annotated_ok (first : Z) (e : Parsing) : Prop := {
  an_some : 1 <= nvalues e;
  an_few : nvalues e <= 128;
  an_first : first = -1 ∨ 0 <= first < nvalues e
}.

Definition annotation_ok (first : Z) (e : Parsing) (a : EAnnotation) : Prop :=
  match a with
  | AIsUid _ => checkPreviousValueType INT e = true
  | AFirstUid _ => 0 <= first
  | _ => True
  end.

Lemma lastIndex_at rest first e : annotated_ok first e → lastIndex (at_buf rest e) = nvalues e - 1.
Proof.
  intros [H1 H2 _]. change (nvalues e) with (nvalues (at_buf rest e)) in *. apply lastIndex_id; [|lia].
  unfold nvalues in H1. by destruct (le_values _).
Qed.

Lemma not_empty_at rest first e : annotated_ok first e → values_empty (at_buf rest e) = false.
Proof. intros [H1 _ _]. unfold nvalues, values_empty in *. cbn. by destruct (le_values e). Qed.

Lemma bool_annotation_consumes first e b (k : Z) g :
  annotated_ok first e → 0 <= k < nvalues e →
  consumes (v ← read_bool; annotate k (λ x, g x v)) [bool_byte b] e tt (annotateAt k (λ x, g x b) e).
Proof.
  intros Hok Hk. change [bool_byte b] with ([bool_byte b] ++ []).
  eapply consumes_bind; [apply read_bool_consumes|]. by apply annotate_consumes.
Qed.

Lemma parseAnnotation_consumes first a e :
  annotated_ok first e → annotation_ok first e a →
  consumes (parseAnnotation first) (annotation_bytes a) e true (spec_annotation first e a).
Proof.
  intros Hok Ha. pose proof Hok as [H1 H2 H3]. unfold parseAnnotation, annotation_bytes.
  change (annotation_id a :: annotation_value a) with ([annotation_id a] ++ annotation_value a).
  eapply consumes_bind; [apply read_uint8_consumes|].
  assert (Hend : ∀ m : Parser unit, ∀ b e', consumes m b e tt e' → consumes (_ ← m; mret true) b e true e').
  { intros m b e' Hm. rewrite <- (app_nil_r b). eapply consumes_bind; [exact Hm|apply consumes_ret]. }
  destruct a as [b|b|b|b|s|b]; cbn [annotation_id annotation_value];
    change (BOOL_TYPE :: ?l) with ([BOOL_TYPE] ++ l); try change (INT32_TYPE :: ?l) with ([INT32_TYPE] ++ l);
    (eapply consumes_bind; [apply read_uint8_consumes|]); cbn [Z.eqb Pos.eqb ANNOTATION_ID_IS_UID
      ANNOTATION_ID_TRUNCATE_TIMESTAMP ANNOTATION_ID_PRIMARY_FIELD ANNOTATION_ID_EXCLUSIVE_STATE
      ANNOTATION_ID_PRIMARY_FIELD_FIRST_UID ANNOTATION_ID_TRIGGER_STATE_RESET ANNOTATION_ID_STATE_NESTED];
    apply Hend; apply consumes_get; intros rest; rewrite ?(not_empty_at rest _ _ Hok), ?(lastIndex_at rest _ _ Hok).
  - cbn in Ha. change (checkPreviousValueType INT (at_buf rest e)) with (checkPreviousValueType INT e).
    rewrite Ha. destruct (Z.ltb_spec INT8_MAX (nvalues e - 1)); [unfold INT8_MAX in *; lia|]. cbn [orb negb Z.eqb].
    change [bool_byte b] with ([bool_byte b] ++ []). eapply consumes_bind; [apply read_bool_consumes|].
    eapply consumes_step; [|apply annotate_consumes; destruct b; unfold nvalues in *; cbn; lia].
    destruct b; [by apply consumes_modify|apply consumes_ret].
  - cbn [orb negb Z.eqb]. eapply bool_annotation_consumes; [exact Hok|lia].
  - cbn [orb negb Z.eqb]. destruct (Z.ltb_spec INT8_MAX (nvalues e - 1)); [unfold INT8_MAX in *; lia|].
    change [bool_byte b] with ([bool_byte b] ++ []). eapply consumes_bind; [apply read_bool_consumes|].
    eapply consumes_step; [by apply consumes_modify|]. apply annotate_consumes. unfold nvalues in *. cbn. lia.
  - cbn in Ha. destruct (Z.eqb_spec (-1) first); [lia|]. cbn [orb negb Z.eqb].
    rewrite wrap32_id by (unfold int32; lia). destruct (Z.ltb_spec (nvalues e - 1) first); [lia|].
    eapply bool_annotation_consumes; [exact Hok|lia].
  - cbn [orb negb Z.eqb]. rewrite <- (app_nil_r (int32_bytes s)).
    eapply consumes_bind; [apply read_int32_consumes|by apply consumes_modify].
  - cbn [orb negb Z.eqb]. eapply bool_annotation_consumes; [exact Hok|lia].
Qed.

(** What an annotation leaves unchanged. *)
Definition shape (e : Parsing) : list (Field * Value) := (λ v, (fv_field v, fv_value v)) <$> le_values e.

Lemma annotateAt_shape i g e : shape (annotateAt i g e) = shape e.
Proof.
  unfold shape, annotateAt. cbn. generalize (Z.to_nat i) as k, (le_values e) as l. clear.
  intros k l. revert k. induction l as [|v l IH]; intros [|k]; cbn; try done. f_equal. apply IH.
Qed.

Lemma spec_annotation_keeps first e a :
  shape (spec_annotation first e a) = shape e ∧ mValid (spec_annotation first e a) = mValid e ∧
  mTagId (spec_annotation first e a) = mTagId e.
Proof.
  destruct a as [[]| | | | |]; cbn [spec_annotation]; split_and!; rewrite ?annotateAt_shape; reflexivity.
Qed.

Lemma nvalues_shape e e' : shape e = shape e' → nvalues e = nvalues e'.
Proof. unfold shape, nvalues. intros H. apply (f_equal length) in H. rewrite !length_fmap in H. by rewrite H. Qed.

Lemma previousType_shape ty e e' :
  shape e = shape e' → checkPreviousValueType ty e = checkPreviousValueType ty e'.
Proof.
  unfold shape, checkPreviousValueType. intros H. apply (f_equal last) in H. rewrite !fmap_last in H.
  destruct (last (le_values e)), (last (le_values e')); try done. cbn in H. by injection H as _ ->.
Qed.

Lemma annotation_ok_shape first e e' a : shape e = shape e' → annotation_ok first e a → annotation_ok first e' a.
Proof. intros H. destruct a; cbn; try done. by rewrite (previousType_shape _ _ _ H). Qed.

Lemma annotated_ok_shape first e e' : shape e = shape e' → annotated_ok first e → annotated_ok first e'.
Proof. intros H%nvalues_shape []. constructor; lia. Qed.

Lemma parseAnnotations_consumes first l : ∀ e,
  annotated_ok first e ∨ l = [] → Forall (annotation_ok first e) l →
  consumes (parseAnnotations (length l) first) (concat (annotation_bytes <$> l)) e tt
    (foldl (spec_annotation first) e l).
Proof.
  induction l as [|a l IH]; intros e Hok Ha; [apply consumes_ret|].
  destruct Hok as [Hok|]; [|done]. apply Forall_cons in Ha as [Ha Hl].
  cbn [length parseAnnotations foldl fmap list_fmap concat].
  eapply consumes_bind; [by apply parseAnnotation_consumes|].
  destruct (spec_annotation_keeps first e a) as (Hs & _ & _). symmetry in Hs.
  apply IH; [left; by eapply annotated_ok_shape|].
  eapply Forall_impl; [exact Hl|]. intros a' Ha'. by eapply annotation_ok_shape.
Qed.

(** *** Fields *)

Lemma type_byte_spec ty n :
  0 <= ty < 16 → (n <= 15)%nat →
  getTypeId (type_byte ty n) = ty ∧ getNumAnnotations (type_byte ty n) = Z.of_nat n.
Proof.
  intros Hty Hn.
  assert (Hall : forallb (λ n, forallb (λ t, let b := type_byte (Z.of_nat t) n in
    (getTypeId b =? Z.of_nat t) && (getNumAnnotations b =? Z.of_nat n)) (seq 0 16)) (seq 0 16) = true)
    by (vm_compute; reflexivity).
  rewrite forallb_forall in Hall. assert (Hn' : In n (seq 0 16)) by (apply in_seq; lia).
  specialize (Hall n Hn'). rewrite forallb_forall in Hall.
  assert (Ht' : In (Z.to_nat ty) (seq 0 16)) by (apply in_seq; lia).
  specialize (Hall _ Ht'). rewrite Z2Nat.id in Hall by lia. cbv zeta in Hall.
  by rewrite andb_true_iff, !Z.eqb_eq in Hall.
Qed.

Lemma addToValues_consumes pos depth v last e :
  consumes (addToValues pos depth v last) [] e tt
    (set_values (le_values e ++ [FieldValue_of (decorate depth last (Field_of_pos (mTagId e) pos depth)) v]) e).
Proof. by intros rest _. Qed.

Definition field_ok (f : EField * list EAnnotation) : Prop :=
  (length f.2 <= 15)%nat ∧ Forall (λ a, annotation_allowed f.1 a = true) f.2 ∧
  match f.1 with
  | EFloat bits => 0 <= bits < 2 ^ 32
  | EChain nodes => nodes ≠ [] ∧ (length nodes <= 127)%nat
  | _ => True
  end.

(** The event after the value of a field and before its annotations. *)
Definition with_value (e : Parsing) (i : Z) (f : EField) : Parsing :=
  set_values (le_values e ++ field_values (mTagId e) i f) e.

Lemma spec_annotation_first first first' e a f :
  annotation_allowed f a = true → (∀ nodes, f ≠ EChain nodes) →
  spec_annotation first e a = spec_annotation first' e a.
Proof. destruct a, f as [| | | | | |[]]; try done; naive_solver. Qed.

Lemma foldl_annotation_first first first' f l : ∀ e,
  Forall (λ a, annotation_allowed f a = true) l → (∀ nodes, f ≠ EChain nodes) →
  foldl (spec_annotation first) e l = foldl (spec_annotation first') e l.
Proof.
  induction l as [|a l IH]; intros e Hl Hf; [done|]. apply Forall_cons in Hl as [Ha Hl]. cbn [foldl].
  rewrite (spec_annotation_first first first' e a f) by done. by apply IH.
Qed.

(** A field with one value: [read] consumes the payload and gives the value. *)
Lemma simple_field_consumes {A} (read : Parser A) (v : A → Value) (a : A) bytes e i last (f : EField) l :
  consumes read bytes e a e → field_values (mTagId e) i f = [FieldValue_of (Field_of_pos (mTagId e) [i; 1; 1] 0) (v a)] →
  nvalues e + 1 <= 128 → Forall (λ x, annotation_allowed f x = true) l →
  (∀ nodes, f ≠ EChain nodes) → (∀ b, annotation_allowed f (AIsUid b) = true → getType (v a) = INT) →
  consumes (x ← read; _ ← addToValues [i; 1; 1] 0 (v x) last; parseAnnotations (length l) (-1))
    (bytes ++ concat (annotation_bytes <$> l)) e tt
    (foldl (spec_annotation (nvalues e)) (with_value e i f) l).
Proof.
  intros Hr Hv Hn Hl Hf Hu. eapply consumes_bind; [exact Hr|].
  eapply consumes_step; [apply addToValues_consumes|].
  rewrite (foldl_annotation_first _ (-1) f) by done. unfold with_value. rewrite Hv.
  assert (Hlen : nvalues (set_values (le_values e ++ [FieldValue_of (Field_of_pos (mTagId e) [i; 1; 1] 0) (v a)]) e)
    = nvalues e + 1) by (unfold nvalues; cbn; rewrite length_app; cbn; lia).
  apply parseAnnotations_consumes.
  - left. constructor; cbn [decorate]; rewrite ?Hlen; unfold nvalues in *; lia.
  - eapply Forall_impl; [exact Hl|]. intros x Hx. destruct x; cbn; try done.
    + unfold checkPreviousValueType. cbn. rewrite last_snoc. cbn. apply bool_decide_eq_true. by eapply Hu.
    + exfalso. destruct f as [| | | | | |[]]; naive_solver.
Qed.

(** The same for the fields that are a block of bytes. *)
Lemma block_field_consumes (v : list Z → Value) bytes e i last (f : EField) l :
  field_values (mTagId e) i f = [FieldValue_of (Field_of_pos (mTagId e) [i; 1; 1] 0) (v bytes)] →
  nvalues e + 1 <= 128 → Forall (λ x, annotation_allowed f x = true) l →
  (∀ nodes, f ≠ EChain nodes) → (∀ b, annotation_allowed f (AIsUid b) = false) →
  consumes (block ← readBlock;
      match block with
      | None => mret tt
      | Some bytes => _ ← addToValues [i; 1; 1] 0 (v bytes) last; parseAnnotations (length l) (-1)
      end)
    (block_bytes bytes ++ concat (annotation_bytes <$> l)) e tt
    (foldl (spec_annotation (nvalues e)) (with_value e i f) l).
Proof.
  intros Hv Hn Hl Hf Hu.
  pose proof (simple_field_consumes (mret bytes) v bytes [] e i last f l (consumes_ret bytes e) Hv Hn Hl Hf) as H.
  eapply consumes_bind; [apply readBlock_consumes|]. apply H. intros b Hb. by rewrite Hu in Hb.
Qed.

(** *** Attribution chains *)

Lemma set_values_app e l1 l2 : set_values ((le_values e ++ l1) ++ l2) e = set_values (le_values e ++ l1 ++ l2) e.
Proof. by rewrite app_assoc. Qed.

Lemma node_consumes n i j total x y e :
  consumes (parseAttributionNode (<[1%nat := j]> [i; 1; 1]) (<[1%nat := (j =? total)]> [x; y; false])) (node_bytes n)
    e tt (set_values (le_values e ++ node_values (mTagId e) i total j n) e) ∧
  consumes (parseAttributionNode (<[1%nat := j]> [i; 1; 1]) (<[1%nat := (j =? total)]> [x; y; true])) (node_bytes n)
    e tt (set_values (le_values e ++ node_values (mTagId e) i total j n) e).
Proof.
  assert (H : ∀ last, length last = 3%nat → last !! 1%nat = Some (j =? total) →
    consumes (parseAttributionNode [i; j; 1] last) (node_bytes n)
      e tt (set_values (le_values e ++ node_values (mTagId e) i total j n) e)).
  { intros last Hlen Hl. unfold parseAttributionNode, node_bytes. cbn [insert list_insert].
    assert (Hd : ∀ last' f, last' !! 1%nat = Some (j =? total) →
      decorate 2 last' f = decorate 2 [false; j =? total; false] f).
    { intros last' f Hl'.
      change (decorate 2 last' f) with (if default false (last' !! 1%nat) then decorateLastPos f 1 else f).
      by rewrite Hl'. }
    eapply consumes_bind.
    - unfold parseInt32. rewrite <- (app_nil_r (int32_bytes n.1)).
      eapply consumes_bind; [apply read_int32_consumes|].
      eapply consumes_step; [apply addToValues_consumes|]. apply consumes_ret.
    - unfold parseString. rewrite <- (app_nil_r (block_bytes _)).
      eapply consumes_bind; [apply readBlock_consumes|]. cbn [fst snd].
      eapply consumes_step; [apply addToValues_consumes|].
      cbn [set_values le_values mTagId]. rewrite (Hd last _ Hl).
      rewrite (Hd (<[2%nat := true]> last)) by by rewrite list_lookup_insert_ne.
      unfold node_values. cbn [parseAnnotations]. intros rest Hr.
      unfold mret, parser_ret, at_buf, set_buf, set_values. cbn. by rewrite <- app_assoc. }
  split; apply H; done.
Qed.

Lemma nodes_consumes nodes i total x : ∀ y z j e,
  consumes (parseNodes parseAttributionNode [i; 1; 1] [x; y; z] total (length nodes) j)
    (concat (node_bytes <$> nodes)) e tt
    (set_values (le_values e ++ chain_values (mTagId e) i total j nodes) e).
Proof.
  induction nodes as [|n nodes IH]; intros y z j e.
  { cbn. rewrite app_nil_r. intros rest _. by destruct e. }
  cbn [length parseNodes fmap list_fmap concat chain_values].
  destruct (node_consumes n i j total x y e) as [H1 H2].
  eapply consumes_bind; [destruct z; [apply H2|apply H1]|].
  cbn [insert list_insert]. specialize (IH (j =? total) true (j + 1)
    (set_values (le_values e ++ node_values (mTagId e) i total j n) e)).
  cbn [set_values le_values mTagId] in IH. rewrite <- app_assoc in IH. exact IH.
Qed.

Lemma length_chain_values tag i total nodes : ∀ j,
  length (chain_values tag i total j nodes) = (2 * length nodes)%nat.
Proof. induction nodes as [|n nodes IH]; intros j; [done|]. cbn [chain_values]. rewrite length_app, IH. cbn. lia. Qed.

Lemma chain_consumes nodes i x l e :
  mValid e = true → nodes ≠ [] → (length nodes <= 127)%nat →
  nvalues e + 2 * Z.of_nat (length nodes) <= 128 →
  Forall (λ a, annotation_allowed (EChain nodes) a = true) l →
  consumes (parseAttributionChain [i; 1; 1] [x; false; false] (length l))
    (payload (EChain nodes) ++ concat (annotation_bytes <$> l)) e tt
    (spec_field i e (EChain nodes, l)).
Proof.
  intros Hv Hne Hlen Hfew Hl. unfold parseAttributionChain. apply consumes_get. intros rest0.
  cbn [at_buf set_buf le_values]. assert (0 <= nvalues e) by (unfold nvalues; lia).
  assert (Hpos : 1 <= Z.of_nat (length nodes)) by (destruct nodes; [done|cbn; lia]).
  rewrite u32_id by (unfold nvalues in *; lia). fold (nvalues e).
  cbn [payload]. change (Z.of_nat (length nodes) :: ?b) with ([Z.of_nat (length nodes)] ++ b).
  rewrite <- app_assoc. eapply consumes_bind; [apply read_uint8_consumes|]. rewrite Nat2Z.id.
  eapply consumes_bind; [apply nodes_consumes|]. apply consumes_get. intros rest1.
  set (e1 := set_values _ e).
  assert (Hn1 : nvalues e1 = nvalues e + 2 * Z.of_nat (length nodes)).
  { unfold nvalues, e1. cbn. rewrite length_app, length_chain_values. lia. }
  rewrite (lastIndex_at rest1 (-1)) by (constructor; lia).
  destruct (Z.ltb_spec INT8_MAX (nvalues e1 - 1)); [unfold INT8_MAX in *; lia|].
  destruct (Z.ltb_spec (nvalues e) (nvalues e1 - 1)); [|lia].
  eapply consumes_step; [by apply consumes_modify|]. apply consumes_get. intros rest2.
  cbn [at_buf set_buf set_chain mValid e1 set_values]. rewrite Hv.
  unfold spec_field. cbn [fst snd field_values]. fold e1.
  replace (match nodes with [] => e1 | _ :: _ => set_chain (nvalues e) (nvalues e1 - 1) e1 end)
    with (set_chain (nvalues e) (nvalues e1 - 1) e1) by by destruct nodes.
  apply parseAnnotations_consumes.
  - left. constructor; change (nvalues (set_chain _ _ e1)) with (nvalues e1); lia.
  - eapply Forall_impl; [exact Hl|]. intros a Ha. by destruct a.
Qed.

(** *** Whole events *)

Lemma field_type_range f : 0 <= field_type f < 16.
Proof. destruct f; vm_compute; split; congruence. Qed.

Lemma spec_field_simple i e f l :
  (∀ nodes, f ≠ EChain nodes) → spec_field i e (f, l) = foldl (spec_annotation (nvalues e)) (with_value e i f) l.
Proof. intros Hf. unfold spec_field. cbn [fst snd]. destruct f; try done. naive_solver. Qed.

Lemma field_consumes i x e f :
  mValid e = true → field_ok f → nvalues e + Z.of_nat (num_values f.1) <= 128 →
  consumes (parseField [i; 1; 1] [x; false; false]) (field_bytes f) e tt (spec_field i e f).
Proof.
  intros Hv (Hlen & Hall & Hf) Hfew. destruct f as [f l]. cbn [fst snd] in *.
  unfold parseField, field_bytes. cbn [fst snd].
  change (type_byte (field_type f) (length l) :: ?b) with ([type_byte (field_type f) (length l)] ++ b).
  eapply consumes_bind; [apply read_uint8_consumes|].
  destruct (type_byte_spec (field_type f) (length l) (field_type_range f) Hlen) as [-> ->]. rewrite Nat2Z.id.
  destruct f as [v|v|bits|b|bytes|chars|nodes]; cbn [field_type payload];
    cbn [Z.eqb Pos.eqb INT32_TYPE INT64_TYPE STRING_TYPE FLOAT_TYPE BOOL_TYPE BYTE_ARRAY_TYPE
         KEY_VALUE_PAIRS_TYPE ATTRIBUTION_CHAIN_TYPE];
    [rewrite spec_field_simple by done..|].
  - apply (simple_field_consumes read_int32 VINT (wrap32 v)); try done. apply read_int32_consumes.
  - apply (simple_field_consumes read_int64 VLONG (wrap64 v)); try done. apply read_int64_consumes.
  - apply (simple_field_consumes read_float VFLOAT (float_of_bits bits)); try done.
    by apply read_float_consumes.
  - apply (simple_field_consumes read_uint8 VINT (bool_byte b)); try done. apply read_uint8_consumes.
  - unfold parseByteArray. apply block_field_consumes; done.
  - unfold parseString. apply block_field_consumes; done.
  - destruct Hf as [Hne Hn]. apply chain_consumes; try done. cbn [num_values] in Hfew. lia.
Qed.

Lemma length_field_values tag i f : length (field_values tag i f) = num_values f.
Proof. destruct f; try done. apply length_chain_values. Qed.

Lemma foldl_annotation_keeps first l : ∀ e,
  nvalues (foldl (spec_annotation first) e l) = nvalues e ∧ mValid (foldl (spec_annotation first) e l) = mValid e.
Proof.
  induction l as [|a l IH]; intros e; [done|]. cbn [foldl].
  destruct (spec_annotation_keeps first e a) as (Hs%nvalues_shape & Hv & _).
  destruct (IH (spec_annotation first e a)) as [-> ->]. done.
Qed.

Lemma spec_field_keeps i e f :
  nvalues (spec_field i e f) = nvalues e + Z.of_nat (num_values f.1) ∧ mValid (spec_field i e f) = mValid e.
Proof.
  unfold spec_field. set (e1 := set_values _ e).
  set (e2 := match f.1 with EChain (_ :: _) => set_chain (nvalues e) (nvalues e1 - 1) e1 | _ => e1 end).
  destruct (foldl_annotation_keeps (nvalues e) f.2 e2) as [-> ->].
  assert (nvalues e2 = nvalues e1 ∧ mValid e2 = mValid e1) as [-> ->]
    by (unfold e2; by destruct f.1 as [| | | | | |[]]).
  split; [|done]. unfold nvalues, e1. cbn. rewrite length_app, length_field_values. lia.
Qed.

Definition total_values (fs : list (EField * list EAnnotation)) : Z :=
  sumZ ((λ f, Z.of_nat (num_values f.1)) <$> fs).

Lemma total_values_nonneg fs : 0 <= total_values fs.
Proof.
  induction fs as [|f fs IH]; [done|].
  change (total_values (f :: fs)) with (Z.of_nat (num_values f.1) + total_values fs). lia.
Qed.

Lemma fields_consumes total fs : ∀ i e,
  mValid e = true → Forall field_ok fs → nvalues e + total_values fs <= 128 →
  consumes (parseFields total (length fs) i) (concat (field_bytes <$> fs)) e tt (spec_fields i e fs).
Proof.
  induction fs as [|f fs IH]; intros i e Hv Hok Hfew; [apply consumes_ret|].
  apply Forall_cons in Hok as [Hf Hfs]. cbn [length parseFields fmap list_fmap concat spec_fields].
  apply consumes_get. intros rest. cbn [at_buf set_buf mValid]. rewrite Hv.
  pose proof (total_values_nonneg fs) as Hnn.
  change (total_values (f :: fs)) with (Z.of_nat (num_values f.1) + total_values fs) in Hfew.
  destruct (spec_field_keeps i e f) as [Hn Hv'].
  eapply consumes_bind; [apply field_consumes; done || lia|].
  apply IH; [by rewrite Hv'|done|lia].
Qed.

Lemma spec_fields_valid fs : ∀ i e, mValid (spec_fields i e fs) = mValid e.
Proof.
  induction fs as [|f fs IH]; intros i e; [done|]. cbn [spec_fields]. rewrite IH. apply spec_field_keeps.
Qed.

(** The events that can be sent: at most 125 fields with at most 128 values, and for every field
    at most 15 annotations that suit it. *)
Record event_ok (ev : EEvent) : Prop := {
  ek_fields : Forall field_ok (ev_fields ev);
  ek_few : (length (ev_fields ev) <= 125)%nat;
  ek_values : total_values (ev_fields ev) <= 128
}.

Lemma truncate_consumes b e :
  le_values e = [] →
  consumes (parseAnnotations 1 (-1)) (truncate_bytes b) e tt (set_truncate b e).
Proof.
  intros He. cbn [parseAnnotations]. rewrite <- (app_nil_r (truncate_bytes b)).
  eapply (consumes_bind _ _ _ _ _ true); [|apply consumes_ret]. unfold parseAnnotation, truncate_bytes.
  change [?a; ?t; ?v] with ([a] ++ [t] ++ [v] ++ []).
  eapply consumes_bind; [apply read_uint8_consumes|]. eapply consumes_bind; [apply read_uint8_consumes|].
  cbn [Z.eqb Pos.eqb ANNOTATION_ID_IS_UID ANNOTATION_ID_TRUNCATE_TIMESTAMP].
  rewrite <- (app_nil_r ([bool_byte b] ++ [])). eapply consumes_bind; [|apply consumes_ret].
  apply consumes_get. intros rest. unfold values_empty. cbn [at_buf set_buf le_values]. rewrite He.
  cbn [negb orb Z.eqb Pos.eqb BOOL_TYPE].
  eapply consumes_bind; [apply read_bool_consumes|]. by apply consumes_modify.
Qed.

Lemma body_consumes uninit ev :
  event_ok ev →
  consumes (_ ← parseAnnotations (match ev_truncate ev with Some _ => 1 | None => 0 end) (-1);
            parseFields (Z.of_nat (length (ev_fields ev))) (length (ev_fields ev)) 1)
    (from_option truncate_bytes [] (ev_truncate ev) ++ concat (field_bytes <$> ev_fields ev))
    (set_header (wrap64 (ev_timestamp ev)) (wrap32 (ev_atom ev)) (LogEvent_new uninit)) tt
    (spec_event uninit ev).
Proof.
  intros [Hf Hn Hv]. unfold spec_event. destruct (ev_truncate ev) as [b|].
  - eapply consumes_bind; [by apply truncate_consumes|by apply fields_consumes].
  - eapply consumes_bind; [apply consumes_ret|by apply fields_consumes].
Qed.

(** [m] reads the whole buffer. *)
Definition consumes_all {A} (m : Parser A) (bytes : list Z) (e : Parsing) (a : A) (e' : Parsing) : Prop :=
  Z.of_nat (length bytes) < 2 ^ 31 → m (at_buf bytes e) = Some (a, at_buf [] e').

Lemma consumes_then {A B} (m : Parser A) (f : A → Parser B) b1 b2 e a e1 c e2 :
  consumes m b1 e a e1 → consumes_all (f a) b2 e1 c e2 → consumes_all (m ≫= f) (b1 ++ b2) e c e2.
Proof.
  intros Hm Hf Hl. unfold mbind, parser_bind. rewrite Hm by done. apply Hf. rewrite length_app in Hl. lia.
Qed.

Lemma consumes_then_step {A B} (m : Parser A) (f : A → Parser B) b e a e1 c e2 :
  consumes m [] e a e1 → consumes_all (f a) b e1 c e2 → consumes_all (m ≫= f) b e c e2.
Proof. apply consumes_then. Qed.

Lemma finish_consumes e :
  mValid e = true →
  consumes_all (e ← get; _ ← require (mRemainingLen e =? 0); e ← get; mret (mValid e)) [] e true e.
Proof. intros Hv _. destruct e. cbn in Hv. by subst. Qed.

(** The parser on the wire format. *)
Lemma parse_wire uninit ev :
  event_ok ev → Z.of_nat (length (wire ev)) < 2 ^ 31 →
  parseBuffer (wire ev) (Z.of_nat (length (wire ev))) (LogEvent_new uninit) =
    Some (true, set_buf [] 0 (spec_event uninit ev)).
Proof.
  intros Hok Hlen. unfold parseBuffer. rewrite u32_id by lia.
  change (set_buf (wire ev) _ (LogEvent_new uninit)) with (at_buf (wire ev) (LogEvent_new uninit)).
  pose proof (ek_few _ Hok) as Hn.
  assert (Hc : consumes_all parseBody (wire ev) (LogEvent_new uninit) true (spec_event uninit ev)).
  2:{ by rewrite Hc. }
  unfold parseBody, wire. set (n := Z.of_nat (length (ev_fields ev)) + 2).
  change (OBJECT_TYPE :: n :: ?b) with ([OBJECT_TYPE] ++ [n] ++ b).
  eapply consumes_then; [apply read_uint8_consumes|]. cbn [require getTypeId Z.land Pos.land Z.eqb Pos.eqb OBJECT_TYPE].
  eapply consumes_then_step; [apply consumes_ret|]. eapply consumes_then; [apply read_uint8_consumes|].
  replace (negb ((n <? 2) || (127 <? n))) with true.
  2:{ destruct (Z.ltb_spec n 2), (Z.ltb_spec 127 n); done || lia. }
  eapply consumes_then_step; [apply consumes_ret|]. unfold body_bytes.
  change (INT64_TYPE :: ?b) with ([INT64_TYPE] ++ b).
  eapply consumes_then; [apply read_uint8_consumes|]. cbn [require getTypeId Z.land Pos.land Z.eqb Pos.eqb INT64_TYPE].
  eapply consumes_then_step; [apply consumes_ret|]. eapply consumes_then; [apply read_int64_consumes|].
  eapply consumes_then_step; [by apply consumes_modify|].
  set (k := match ev_truncate ev with Some _ => 1%nat | None => 0%nat end).
  assert (Hk : (k <= 15)%nat) by (unfold k; destruct (ev_truncate ev); lia).
  change (type_byte INT32_TYPE k :: ?b) with ([type_byte INT32_TYPE k] ++ b).
  eapply consumes_then; [apply read_uint8_consumes|].
  destruct (type_byte_spec INT32_TYPE k ltac:(done) Hk) as [-> ->]. cbn [require Z.eqb INT32_TYPE].
  eapply consumes_then_step; [apply consumes_ret|]. eapply consumes_then; [apply read_int32_consumes|].
  eapply consumes_then_step; [by apply consumes_modify|].
  rewrite Nat2Z.id. replace (((n - 1) mod 2 ^ 8 - 1) mod 2 ^ 8) with (Z.of_nat (length (ev_fields ev))).
  2:{ rewrite (Z.mod_small (n - 1)), Z.mod_small by lia. lia. }
  rewrite Nat2Z.id. pose proof (body_consumes uninit ev Hok) as Hb. fold k in Hb.
  intros Hl. pose proof (Hb []) as Hb'. rewrite app_nil_r in Hb'. specialize (Hb' Hl).
  unfold mbind, parser_bind in Hb'. unfold mbind at 1, parser_bind at 1.
  cbn [set_header mElapsedTimestampNs mTagId LogEvent_new] in *.
  destruct (parseAnnotations k (-1) _) as [[[] e1]|]; [|done].
  unfold mbind at 1, parser_bind at 1. rewrite Hb'.
  apply finish_consumes; [|done]. unfold spec_event. rewrite spec_fields_valid. by destruct (ev_truncate ev).
Qed.

(** ** The encoder *)

(** A client that writes an event. *)
Section client.
Context (junk : Z).

Definition write_annotation (a : EAnnotation) : AStatsEvent → option AStatsEvent :=
  match a with
  | AIsUid b | APrimary b | AExclusive b | AFirstUid b | ANested b => addBoolAnnotation junk (annotation_id a) b
  | AReset s => addInt32Annotation junk (annotation_id a) s
  end.

Fixpoint write_annotations (l : list EAnnotation) (e : AStatsEvent) : option AStatsEvent :=
  match l with [] => Some e | a :: l => e ← write_annotation a e; write_annotations l e end.

Definition write_value (f : EField) : AStatsEvent → option AStatsEvent :=
  match f with
  | EInt32 v => writeInt32 junk v
  | EInt64 v => writeInt64 junk v
  | EFloat bits => writeFloat junk bits
  | EBool b => writeBool junk b
  | EBytes l => writeByteArray junk l
  | EString l => writeString junk l
  | EChain nodes => writeAttributionChain junk nodes
  end.

Fixpoint write_fields (fs : list (EField * list EAnnotation)) (e : AStatsEvent) : option AStatsEvent :=
  match fs with
  | [] => Some e
  | f :: fs => e ← write_value f.1 e; e ← write_annotations f.2 e; write_fields fs e
  end.

(** The calls that fill an event. *)
Definition fill (ev : EEvent) : option AStatsEvent :=
  e ← obtain junk (ev_timestamp ev);
  e ← setAtomId junk (ev_atom ev) e;
  e ← match ev_truncate ev with
      | Some b => addBoolAnnotation junk ANNOTATION_ID_TRUNCATE_TIMESTAMP b e
      | None => Some e
      end;
  write_fields (ev_fields ev) e.

Definition client (ev : EEvent) : option AStatsEvent := e ← fill ev; build junk e.
End client.

Definition MAX : nat := Z.to_nat MAX_PULL_EVENT_PAYLOAD.

(** The event holds [bytes]; its last field begins at [pos], it has [n] elements and no error. *)
Record holds (bytes : list Z) (pos n id : Z) (e : AStatsEvent) : Prop := {
  ho_length : Z.of_nat (length (buf e)) = bufSize e;
  ho_size : MAX_PUSH_EVENT_PAYLOAD <= bufSize e <= MAX_PULL_EVENT_PAYLOAD;
  ho_written : numBytesWritten e = Z.of_nat (length bytes);
  ho_fits : Z.of_nat (length bytes) <= bufSize e;
  ho_bytes : take (length bytes) (buf e) = bytes;
  ho_pos : lastFieldPos e = pos;
  ho_elements : numElements e = n;
  ho_atom : atomId e = id;
  ho_errors : errors e = 0;
  ho_built : built e = false
}.

(** The loop that doubles the size of the buffer ends with enough room. *)
Lemma doubleSize_enough fuel size total :
  0 < size → total < size * 2 ^ Z.of_nat fuel → (1 <= fuel)%nat →
  total < doubleSize fuel size total ∧ size <= doubleSize fuel size total.
Proof.
  revert size. induction fuel as [|fuel IH]; intros size Hs Hf H1; [lia|]. cbn [doubleSize].
  rewrite Nat2Z.inj_succ, Z.pow_succ_r in Hf by lia.
  destruct (Z.leb_spec (2 * size) total) as [Hle|]; [|lia].
  destruct fuel as [|fuel]; [cbn in Hf; lia|].
  destruct (IH (2 * size)); [lia|lia|lia|]. lia.
Qed.

Lemma overflows_room junk size e bytes pos n id :
  holds bytes pos n id e → 0 <= size → Z.of_nat (length bytes) + size <= MAX_PULL_EVENT_PAYLOAD →
  ∃ e', overflows junk size e = (false, e') ∧ holds bytes pos n id e' ∧
    Z.of_nat (length bytes) + size <= bufSize e'.
Proof.
  intros [H1 H2 H3 H4 H5 H6 H7 H8 H9 H10] Hs Hroom. unfold overflows. rewrite H3.
  destruct (Z.ltb_spec MAX_PULL_EVENT_PAYLOAD (Z.of_nat (length bytes) + size)); [lia|].
  set (total := Z.of_nat (length bytes) + size) in *.
  destruct ((bufSize e <? MAX_PULL_EVENT_PAYLOAD) && (bufSize e <? total)) eqn:E; bool_to_prop.
  - destruct (doubleSize_enough 64 (bufSize e) total) as [Hd1 Hd2];
      [unfold MAX_PUSH_EVENT_PAYLOAD, LOGGER_ENTRY_MAX_PAYLOAD in *; lia| |lia|].
    { unfold MAX_PUSH_EVENT_PAYLOAD, MAX_PULL_EVENT_PAYLOAD, LOGGER_ENTRY_MAX_PAYLOAD in *.
      change (2 ^ Z.of_nat 64) with 18446744073709551616. nia. }
    set (d := doubleSize 64 (bufSize e) total) in *. eexists. split; [reflexivity|].
    split; [|cbn [grow_buf bufSize]; lia].
    constructor; cbn [grow_buf buf bufSize numBytesWritten lastFieldPos numElements atomId errors built];
      try done; try lia.
    + rewrite length_resize. lia.
    + rewrite take_resize_le; [|lia]. rewrite resize_le by lia. done.
  - exists e. split; [done|]. split; [by constructor|]. destruct E; lia.
Qed.

(** A write at the end of the event. *)
Lemma append_holds junk new e bytes pos n id :
  holds bytes pos n id e → Z.of_nat (length bytes) + Z.of_nat (length new) <= MAX_PULL_EVENT_PAYLOAD →
  ∃ e', append junk new e = Some e' ∧ holds (bytes ++ new) pos n id e'.
Proof.
  intros Hh Hroom. unfold append.
  destruct (overflows_room junk (Z.of_nat (length new)) e bytes pos n id Hh) as (e1 & -> & [] & Hr); [lia|done|].
  unfold store. rewrite ho_written0.
  destruct (Z.leb_spec 0 (Z.of_nat (length bytes))); [|lia].
  destruct (Z.leb_spec (Z.of_nat (length bytes) + Z.of_nat (length new)) (Z.of_nat (length (buf e1)))); [|lia].
  cbn [andb mbind option_bind]. eexists. split; [reflexivity|]. rewrite Nat2Z.id.
  constructor; cbn; try done.
  - rewrite !length_app, length_take, length_drop. lia.
  - rewrite length_app. lia.
  - rewrite length_app. lia.
  - rewrite ho_bytes0, app_assoc, take_app_length. done.
Qed.

Lemma append_then {B} junk new e bytes pos n id (k : AStatsEvent → option B) (P : B → Prop) :
  holds bytes pos n id e → Z.of_nat (length bytes) + Z.of_nat (length new) <= MAX_PULL_EVENT_PAYLOAD →
  (∀ e', holds (bytes ++ new) pos n id e' → ∃ b, k e' = Some b ∧ P b) →
  ∃ b, (e ← append junk new e; k e) = Some b ∧ P b.
Proof.
  intros Hh Hr Hk. destruct (append_holds junk new e bytes pos n id Hh Hr) as (e' & E & Hh').
  destruct (Hk e' Hh') as (b & Hb & HP). exists b. cbn. by rewrite E.
Qed.

Lemma start_field_holds junk ty e bytes pos n id :
  holds bytes pos n id e → Z.of_nat (length bytes) + 1 <= MAX_PULL_EVENT_PAYLOAD → 0 <= n < 2 ^ 31 →
  ∃ e', start_field junk ty e = Some e' ∧ holds (bytes ++ [ty]) (Z.of_nat (length bytes)) (n + 1) id e'.
Proof.
  intros Hh Hr Hn. unfold start_field, append_byte.
  assert (Hs : holds bytes (Z.of_nat (length bytes)) n id (start_at (numBytesWritten e) e)).
  { destruct Hh. constructor; cbn; try done. }
  eapply append_then; [exact Hs|done|]. intros e' [].
  eexists. split; [reflexivity|]. constructor; cbn; try done. rewrite ho_elements0. apply u32_id. lia.
Qed.

Lemma start_then {B} junk ty e bytes pos n id (k : AStatsEvent → option B) (P : B → Prop) :
  holds bytes pos n id e → Z.of_nat (length bytes) + 1 <= MAX_PULL_EVENT_PAYLOAD → 0 <= n < 2 ^ 31 →
  (∀ e', holds (bytes ++ [ty]) (Z.of_nat (length bytes)) (n + 1) id e' → ∃ b, k e' = Some b ∧ P b) →
  ∃ b, (e ← start_field junk ty e; k e) = Some b ∧ P b.
Proof.
  intros Hh Hr Hn Hk. destruct (start_field_holds junk ty e bytes pos n id Hh Hr Hn) as (e' & E & Hh').
  destruct (Hk e' Hh') as (b & Hb & HP). exists b. cbn. by rewrite E.
Qed.

Lemma length_int32 v : length (int32_bytes v) = 4%nat.
Proof. apply length_le_encode. Qed.
Lemma length_int64 v : length (int64_bytes v) = 8%nat.
Proof. apply length_le_encode. Qed.

Lemma append_string_holds junk chars e bytes pos n id :
  holds bytes pos n id e →
  Z.of_nat (length bytes) + Z.of_nat (length (block_bytes chars)) <= MAX_PULL_EVENT_PAYLOAD →
  ∃ e', append_string junk chars e = Some e' ∧ holds (bytes ++ block_bytes chars) pos n id e'.
Proof.
  intros Hh Hr. unfold append_string, append_int32, append_byte_array, block_bytes in *.
  fold (int32_bytes (Z.of_nat (length chars))) in *. rewrite length_app, length_int32 in Hr.
  destruct (Z.leb_spec MAX_PULL_EVENT_PAYLOAD (Z.of_nat (length chars))); [lia|].
  eapply append_then; [exact Hh|rewrite length_int32; lia|]. intros e' Hh'. rewrite app_assoc.
  apply append_holds; [done|]. rewrite length_app, length_int32. lia.
Qed.

Lemma writeNodes_holds junk nodes : ∀ e bytes pos n id,
  holds bytes pos n id e →
  Z.of_nat (length bytes) + Z.of_nat (length (concat (node_bytes <$> nodes))) <= MAX_PULL_EVENT_PAYLOAD →
  ∃ e', writeNodes junk nodes e = Some e' ∧ holds (bytes ++ concat (node_bytes <$> nodes)) pos n id e'.
Proof.
  induction nodes as [|[uid tag] nodes IH]; intros e bytes pos n id Hh Hr.
  { exists e. cbn. rewrite app_nil_r. by split. }
  cbn [fmap list_fmap concat writeNodes] in *. unfold node_bytes in Hr at 1. cbn [fst snd] in Hr.
  rewrite !length_app, length_int32 in Hr. unfold append_int32. fold (int32_bytes uid).
  eapply append_then; [exact Hh|rewrite length_int32; lia|]. intros e1 Hh1.
  destruct (append_string_holds junk (default [] tag) e1 _ _ _ _ Hh1) as (e2 & E2 & Hh2);
    [rewrite length_app, length_int32; lia|].
  cbn. rewrite E2. destruct (IH e2 _ _ _ _ Hh2) as (e3 & E3 & Hh3);
    [rewrite !length_app, length_int32; lia|].
  exists e3. split; [done|]. unfold node_bytes at 1. cbn [fst snd]. by rewrite <- !app_assoc in *.
Qed.

Lemma write_value_holds junk f e bytes pos n id :
  holds bytes pos n id e → 0 <= n < 2 ^ 31 →
  (∀ nodes, f = EChain nodes → (length nodes <= 127)%nat) →
  Z.of_nat (length bytes) + 1 + Z.of_nat (length (payload f)) <= MAX_PULL_EVENT_PAYLOAD →
  ∃ e', write_value junk f e = Some e' ∧
    holds (bytes ++ field_type f :: payload f) (Z.of_nat (length bytes)) (n + 1) id e'.
Proof.
  intros Hh Hn Hch Hr. change (field_type f :: payload f) with ([field_type f] ++ payload f).
  rewrite app_assoc.
  assert (Hsimple : ∀ new, payload f = new → ∃ e',
    (e ← start_field junk (field_type f) e; append junk new e) = Some e' ∧
    holds ((bytes ++ [field_type f]) ++ payload f) (Z.of_nat (length bytes)) (n + 1) id e').
  { intros new Hnew. eapply start_then; [exact Hh|lia|done|]. intros e' Hh'. rewrite Hnew in *.
    apply append_holds; [done|]. rewrite length_app. cbn. lia. }
  destruct f as [v|v|bits|b|l|l|nodes]; cbn [write_value field_type payload] in *; try by apply Hsimple.
  - unfold writeByteArray. eapply start_then; [exact Hh|lia|done|]. intros e1 Hh1.
    unfold block_bytes, append_int32 in *. fold (int32_bytes (Z.of_nat (length (default [] l)))).
    rewrite length_app, length_int32 in Hr. cbn [append_byte_array].
    eapply append_then; [exact Hh1|rewrite length_app, length_int32; cbn; lia|]. intros e2 Hh2.
    rewrite app_assoc. destruct (Z.ltb_spec 0 (Z.of_nat (length (default [] l)))).
    + apply append_holds; [done|]. rewrite !length_app, length_int32. cbn. lia.
    + destruct (default [] l); [|cbn in *; lia]. exists e2. rewrite app_nil_r. by split.
  - unfold writeString. eapply start_then; [exact Hh|lia|done|]. intros e1 Hh1.
    apply append_string_holds; [done|]. rewrite length_app. cbn [length]. lia.
  - unfold writeAttributionChain.
    assert (Hlen : (length nodes <= 127)%nat) by by apply Hch.
    destruct (Z.ltb_spec MAX_BYTE_VALUE (Z.of_nat (length nodes))); [unfold MAX_BYTE_VALUE in *; lia|].
    eapply start_then; [exact Hh|lia|done|]. intros e1 Hh1. cbn [length] in Hr. unfold append_byte.
    eapply append_then; [exact Hh1|rewrite length_app; cbn; lia|]. intros e2 Hh2.
    destruct (writeNodes_holds junk nodes e2 _ _ _ _ Hh2) as (e3 & E3 & Hh3);
      [rewrite !length_app; cbn [length]; lia|].
    exists e3. split; [done|]. by rewrite <- !app_assoc in *.
Qed.

(** *** Annotations *)

Lemma type_byte_step ty k :
  0 <= ty < 16 → (k <= 15)%nat →
  let b := type_byte ty k in
  Z.shiftr (Z.land b 0xF0) 4 = Z.of_nat k ∧ Z.land b 0x0F = ty.
Proof.
  intros Hty Hk. destruct (type_byte_spec ty k Hty Hk) as [H1 H2]. split; [|exact H1].
  unfold getNumAnnotations in H2. rewrite <- H2, Z.shiftr_land. done.
Qed.

Lemma type_byte_zero ty : type_byte ty 0 = ty.
Proof. reflexivity. Qed.

Lemma increment_holds pre ty k post n id e :
  holds (pre ++ type_byte ty k :: post) (Z.of_nat (length pre)) n id e → 0 <= ty < 16 → (k < 15)%nat →
  ∃ e', increment_annotation_count e = Some e' ∧
    holds (pre ++ type_byte ty (S k) :: post) (Z.of_nat (length pre)) n id e'.
Proof.
  intros [H1 H2 H3 H4 H5 H6 H7 H8 H9 H10] Hty Hk. unfold increment_annotation_count. rewrite H6, Nat2Z.id.
  assert (Hb : buf e = (pre ++ type_byte ty k :: post) ++ drop (length (pre ++ type_byte ty k :: post)) (buf e)).
  { rewrite <- H5 at 1. by rewrite take_drop. }
  set (rest := drop _ (buf e)) in Hb. rewrite length_app in *. cbn [length] in *.
  assert (Hl : buf e !! length pre = Some (type_byte ty k)).
  { rewrite Hb, <- app_assoc, lookup_app_r, Nat.sub_diag by lia. done. }
  rewrite Hl. cbn [mbind option_bind]. destruct (type_byte_step ty k Hty) as [E1 E2]; [lia|]. rewrite E1, E2.
  destruct (Z.ltb_spec MAX_ANNOTATION_COUNT (Z.of_nat k + 1)); [unfold MAX_ANNOTATION_COUNT in *; lia|].
  unfold store. cbn [length].
  destruct (Z.leb_spec 0 (Z.of_nat (length pre))); [|lia].
  destruct (Z.leb_spec (Z.of_nat (length pre) + Z.of_nat 1) (Z.of_nat (length (buf e)))); [|lia].
  cbn [andb]. eexists. split; [reflexivity|]. rewrite Nat2Z.id.
  replace (Z.lor (Z.land (Z.shiftl (Z.of_nat k + 1) 4) 240) ty) with (type_byte ty (S k))
    by (unfold type_byte; by rewrite Nat2Z.inj_succ, Z.add_1_r).
  assert (Hnew : take (length pre) (buf e) ++ [type_byte ty (S k)] ++ drop (length pre + 1) (buf e)
    = (pre ++ type_byte ty (S k) :: post) ++ rest).
  { rewrite Hb, <- app_assoc, take_app_length, drop_app_add. cbn. by rewrite <- app_assoc. }
  constructor; cbn [set_ebuf buf bufSize numBytesWritten lastFieldPos numElements atomId errors built]; try done.
  - rewrite Hnew. rewrite Hb, !length_app in H1. rewrite !length_app. cbn [length] in *. lia.
  - rewrite H3, !length_app. done.
  - rewrite length_app. cbn [length]. lia.
  - rewrite Hnew, !length_app. by rewrite <- length_app, take_app_length.
Qed.

Lemma addAnnotation_holds junk aid ty' new pre ty k post n id e :
  holds (pre ++ type_byte ty k :: post) (Z.of_nat (length pre)) n id e → 0 <= ty < 16 → (k < 15)%nat → 2 <= n →
  0 <= aid <= 127 →
  Z.of_nat (length (pre ++ type_byte ty k :: post)) + Z.of_nat (length (aid :: ty' :: new)) <= MAX_PULL_EVENT_PAYLOAD →
  ∃ e', addAnnotation junk aid (λ e, e ← append_byte junk ty' e; append junk new e) e = Some e' ∧
    holds (pre ++ type_byte ty (S k) :: post ++ aid :: ty' :: new) (Z.of_nat (length pre)) n id e'.
Proof.
  intros Hh Hty Hk Hn Haid Hr. unfold addAnnotation, append_byte.
  assert (numElements e = n) as -> by by destruct Hh.
  destruct (Z.ltb_spec n 2); [lia|]. destruct (Z.ltb_spec MAX_BYTE_VALUE aid); [unfold MAX_BYTE_VALUE in *; lia|].
  cbn [length] in Hr.
  eapply append_then; [exact Hh|cbn [length]; lia|]. intros e1 Hh1.
  destruct (append_holds junk [ty'] e1 _ _ _ _ Hh1) as (e2 & E2 & Hh2); [rewrite length_app; cbn [length]; lia|].
  destruct (append_holds junk new e2 _ _ _ _ Hh2) as (e3 & E3 & Hh3); [rewrite !length_app in *; cbn [length] in *; lia|].
  cbn [mbind option_bind]. rewrite E2. cbn [mbind option_bind]. rewrite E3.
  rewrite <- !app_assoc in Hh3. cbn [app] in Hh3. by apply increment_holds in Hh3.
Qed.

Lemma annotation_holds junk a pre ty k post n id e :
  holds (pre ++ type_byte ty k :: post) (Z.of_nat (length pre)) n id e → 0 <= ty < 16 → (k < 15)%nat → 2 <= n →
  Z.of_nat (length (pre ++ type_byte ty k :: post)) + Z.of_nat (length (annotation_bytes a)) <= MAX_PULL_EVENT_PAYLOAD →
  ∃ e', write_annotation junk a e = Some e' ∧
    holds (pre ++ type_byte ty (S k) :: post ++ annotation_bytes a) (Z.of_nat (length pre)) n id e'.
Proof.
  intros Hh Hty Hk Hn Hr.
  destruct a; cbn [write_annotation annotation_id]; unfold addBoolAnnotation, addInt32Annotation;
    apply addAnnotation_holds; try done; vm_compute; split; congruence.
Qed.

Lemma annotations_hold junk l : ∀ pre ty k post n id e,
  holds (pre ++ type_byte ty k :: post) (Z.of_nat (length pre)) n id e → 0 <= ty < 16 →
  (k + length l <= 15)%nat → 2 <= n →
  Z.of_nat (length (pre ++ type_byte ty k :: post)) + Z.of_nat (length (concat (annotation_bytes <$> l)))
    <= MAX_PULL_EVENT_PAYLOAD →
  ∃ e', write_annotations junk l e = Some e' ∧
    holds (pre ++ type_byte ty (k + length l) :: post ++ concat (annotation_bytes <$> l))
      (Z.of_nat (length pre)) n id e'.
Proof.
  induction l as [|a l IH]; intros pre ty k post n id e Hh Hty Hk Hn Hr.
  { exists e. cbn. rewrite app_nil_r, Nat.add_0_r. by split. }
  cbn [fmap list_fmap concat write_annotations length] in *. rewrite !length_app in Hr. cbn [length] in Hr.
  destruct (annotation_holds junk a pre ty k post n id e Hh Hty) as (e1 & E1 & Hh1);
    [lia|done|rewrite !length_app; cbn [length]; lia|].
  cbn. rewrite E1. destruct (IH pre ty (S k) _ n id e1 Hh1 Hty) as (e2 & E2 & Hh2);
    [lia|done|rewrite !length_app; cbn [length]; rewrite !length_app; lia|].
  exists e2. split; [done|]. rewrite <- !app_assoc in Hh2.
  by replace (k + S (length l))%nat with (S k + length l)%nat by lia.
Qed.

(** *** Fields and events *)

Lemma field_holds junk f e bytes pos n id :
  holds bytes pos n id e → field_ok f → 1 <= n < 2 ^ 31 - 1 →
  Z.of_nat (length bytes) + Z.of_nat (length (field_bytes f)) <= MAX_PULL_EVENT_PAYLOAD →
  ∃ e', (e ← write_value junk f.1 e; write_annotations junk f.2 e) = Some e' ∧
    holds (bytes ++ field_bytes f) (Z.of_nat (length bytes)) (n + 1) id e'.
Proof.
  intros Hh (Hlen & _ & Hf) Hn Hr. unfold field_bytes in Hr. cbn [length] in Hr. rewrite length_app in Hr.
  destruct (write_value_holds junk f.1 e bytes pos n id Hh) as (e1 & E1 & Hh1); [lia| |lia|].
  { intros nodes E. rewrite E in Hf. apply Hf. }
  cbn. rewrite E1. rewrite <- (type_byte_zero (field_type f.1)) in Hh1.
  destruct (annotations_hold junk f.2 _ _ _ _ _ _ _ Hh1 (field_type_range f.1)) as (e2 & E2 & Hh2);
    [lia|lia|rewrite length_app; cbn [length]; lia|].
  exists e2. by split.
Qed.

Lemma fields_hold junk fs : ∀ e bytes pos n id,
  holds bytes pos n id e → Forall field_ok fs → 1 <= n → n + Z.of_nat (length fs) < 2 ^ 31 - 1 →
  Z.of_nat (length bytes) + Z.of_nat (length (concat (field_bytes <$> fs))) <= MAX_PULL_EVENT_PAYLOAD →
  ∃ e' pos', write_fields junk fs e = Some e' ∧
    holds (bytes ++ concat (field_bytes <$> fs)) pos' (n + Z.of_nat (length fs)) id e'.
Proof.
  induction fs as [|f fs IH]; intros e bytes pos n id Hh Hok Hn Hm Hr.
  { exists e, pos. cbn [fmap list_fmap concat length write_fields]. rewrite app_nil_r, Z.add_0_r. by split. }
  apply Forall_cons in Hok as [Hf Hfs]. cbn [fmap list_fmap concat length write_fields] in *.
  rewrite length_app in Hr.
  destruct (field_holds junk f e bytes pos n id Hh Hf) as (e1 & E1 & Hh1); [lia|lia|].
  destruct (IH e1 _ _ _ _ Hh1 Hfs) as (e2 & pos' & E2 & Hh2); [lia|lia|rewrite length_app; lia|].
  exists e2, pos'. cbn [mbind option_bind] in E1 |- *. destruct (write_value junk f.1 e) as [e0|]; [|done].
  cbn [mbind option_bind] in *. rewrite E1. split; [done|]. rewrite app_assoc.
  by replace (n + Z.of_nat (S (length fs))) with (n + 1 + Z.of_nat (length fs)) by lia.
Qed.

Lemma obtain_holds junk t :
  ∃ e, obtain junk t = Some e ∧ holds ([OBJECT_TYPE; 0] ++ INT64_TYPE :: int64_bytes t) 2 1 0 e.
Proof.
  unfold obtain. set (e0 := mkStatsEvent _ 0 2 0 0 0 false MAX_PUSH_EVENT_PAYLOAD).
  assert (H0 : holds [OBJECT_TYPE; 0] 0 0 0 e0) by (constructor; vm_compute; try done; split; congruence).
  apply (write_value_holds junk (EInt64 t) e0 _ _ _ _ H0); [lia|done|].
  cbn [payload]. rewrite length_int64. vm_compute. congruence.
Qed.

Lemma build_internal_holds junk push rest pos n id e :
  holds (OBJECT_TYPE :: 0 :: rest) pos n id e → 0 <= n <= 127 → id ≠ 0 →
  (push = true → Z.of_nat (length rest) + 2 <= MAX_PUSH_EVENT_PAYLOAD) →
  ∃ e', build_internal junk push e = Some e' ∧ getBuffer e' = OBJECT_TYPE :: n :: rest ∧ errors e' = 0 ∧ atomId e' = id.
Proof.
  intros [H1 H2 H3 H4 H5 H6 H7 H8 H9 H10] Hn Hid Hp. unfold build_internal. rewrite H7.
  destruct (Z.ltb_spec MAX_BYTE_VALUE n); [unfold MAX_BYTE_VALUE in *; lia|]. cbn [error_if]. rewrite H8.
  destruct (Z.eqb_spec 0 id); [lia|]. cbn [error_if andb].
  assert (push && (MAX_PUSH_EVENT_PAYLOAD <? numBytesWritten e) = false) as ->.
  { destruct push; [|done]. specialize (Hp eq_refl). cbn [andb]. apply Z.ltb_ge. rewrite H3. cbn [length]. lia. }
  cbn [error_if]. rewrite H9. cbn [Z.eqb negb mbind option_bind].
  destruct (buf e) as [|x [|y b]] eqn:Eb; [done|done|]. cbn [length] in *.
  injection H5 as -> -> Hb. unfold store. cbn [length]. unfold POS_NUM_ELEMENTS.
  destruct (Z.leb_spec (1 + Z.of_nat 1) (Z.of_nat (S (S (length b))))); [|lia].
  cbn [andb Z.leb]. eexists. split; [reflexivity|]. split; [|done].
  unfold getBuffer. cbn [set_built set_ebuf buf numBytesWritten]. rewrite H3, Nat2Z.id. cbn [length].
  change (Z.to_nat 1 + 1)%nat with 2%nat. change (Z.to_nat 1) with 1%nat. cbn [take drop app].
  rewrite H7, Z.mod_small by lia. by rewrite drop_0, Hb.
Qed.

Lemma build_holds junk rest pos n id e :
  holds (OBJECT_TYPE :: 0 :: rest) pos n id e → 0 <= n <= 127 → id ≠ 0 →
  ∃ e', build junk e = Some e' ∧ getBuffer e' = OBJECT_TYPE :: n :: rest ∧ errors e' = 0.
Proof.
  intros Hh Hn Hid. destruct (build_internal_holds junk false _ _ _ _ _ Hh Hn Hid) as (e' & E & Hb & He & _); [done|].
  unfold build. rewrite (ho_built _ _ _ _ _ Hh), E. eexists. split; [reflexivity|]. by split.
Qed.

(** What [AStatsEvent_write] sends of an event that fits. *)
Lemma write_holds junk rest pos n id e :
  holds (OBJECT_TYPE :: 0 :: rest) pos n id e → 0 <= n <= 127 → id ≠ 0 → Z.of_nat (length rest) + 2 <= MAX_PUSH_EVENT_PAYLOAD →
  ∃ e', write junk e = Some (e', (OBJECT_TYPE :: n :: rest, id)) ∧ errors e' = 0.
Proof.
  intros Hh Hn Hid Hl. destruct (build_internal_holds junk true _ _ _ _ _ Hh Hn Hid) as (e' & E & Hb & He & Ha); [done|].
  exists e'. split; [|done]. unfold write. rewrite E. cbn [mbind option_bind]. fold (getBuffer e'). by rewrite Hb, Ha.
Qed.

(** Filling an event leaves its wire format, but for the number of elements, in the buffer. *)
Lemma fill_holds (junk : Z) (ev : EEvent) :
  event_ok ev → 0 < ev_atom ev < 2 ^ 31 → Z.of_nat (length (wire ev)) <= MAX_PULL_EVENT_PAYLOAD →
  ∃ e pos, fill junk ev = Some e ∧
    holds (OBJECT_TYPE :: 0 :: body_bytes ev) pos (Z.of_nat (length (ev_fields ev)) + 2) (ev_atom ev) e.
Proof.
  intros Hok Hid Hlen.
  unfold fill. destruct (obtain_holds junk (ev_timestamp ev)) as (e1 & E1 & Hh1). rewrite E1.
  cbn [mbind option_bind]. unfold wire, body_bytes in Hlen. cbn [length] in Hlen. rewrite !length_app in Hlen. cbn [length] in Hlen.
  rewrite !length_app, length_int64, length_int32 in Hlen.
  unfold setAtomId. assert (atomId e1 = 0 ∧ numElements e1 = 1) as [-> ->] by by destruct Hh1.
  cbn [negb Z.eqb Pos.eqb].
  assert (Hh1' : holds ([OBJECT_TYPE; 0] ++ INT64_TYPE :: int64_bytes (ev_timestamp ev)) 2 1 (ev_atom ev)
    (set_atom (ev_atom ev) e1)) by (destruct Hh1; by constructor).
  destruct (write_value_holds junk (EInt32 (ev_atom ev)) _ _ _ _ _ Hh1') as (e2 & E2 & Hh2); [lia|done| |].
  { cbn [payload]. rewrite length_app. cbn [length]. rewrite length_int64, length_int32.
    unfold MAX_PULL_EVENT_PAYLOAD in *. lia. }
  cbn [write_value] in E2. rewrite E2. cbn [mbind option_bind]. cbn [field_type payload] in Hh2.
  set (head := [OBJECT_TYPE; 0] ++ INT64_TYPE :: int64_bytes (ev_timestamp ev)) in *.
  assert (Hhead : length head = 11%nat) by (unfold head; cbn [length app]; by rewrite length_int64).
  set (k := match ev_truncate ev with Some _ => 1%nat | None => 0%nat end) in *.
  enough (∃ e3 pos, match ev_truncate ev with
      | Some b => addBoolAnnotation junk ANNOTATION_ID_TRUNCATE_TIMESTAMP b e2
      | None => Some e2
      end = Some e3 ∧
    holds (head ++ type_byte INT32_TYPE k :: int32_bytes (ev_atom ev) ++ from_option truncate_bytes [] (ev_truncate ev))
      pos 2 (ev_atom ev) e3) as (e3 & pos & E3 & Hh3).
  { rewrite E3. cbn [mbind option_bind]. destruct Hok as [Hf Hn _].
    destruct (fields_hold junk (ev_fields ev) e3 _ _ _ _ Hh3 Hf) as (e4 & pos' & E4 & Hh4); [lia|lia| |].
    { rewrite length_app, Hhead. cbn [length]. rewrite length_app, length_int32. lia. }
    exists e4, pos'. split; [done|]. rewrite (Z.add_comm _ 2). unfold body_bytes. fold k. unfold head in Hh4.
    cbn [app] in Hh4 |- *. rewrite <- !app_assoc in Hh4. cbn [app] in Hh4. by rewrite <- !app_assoc in Hh4. }
  rewrite <- (type_byte_zero INT32_TYPE) in Hh2. unfold k. destruct (ev_truncate ev) as [b|].
  - destruct (addAnnotation_holds junk ANNOTATION_ID_TRUNCATE_TIMESTAMP BOOL_TYPE [bool_byte b] _ _ _ _ _ _ _ Hh2)
      as (e3 & E3 & Hh3); [done|lia|lia|vm_compute; split; congruence| |].
    { rewrite length_app, Hhead. cbn [length]. rewrite length_int32. cbn in Hlen. lia. }
    exists e3, (Z.of_nat (length head)). split; [exact E3|exact Hh3].
  - exists e2, (Z.of_nat (length head)). rewrite app_nil_r. by split.
Qed.

(** C21: What a client writes is what statsd reads.  For every event that can be sent (at most 125
    fields, 15 annotations that suit each field, 128 values, 50 KB), the calls of a client that
    writes it never leave the buffer and record no error, and the parser accepts the buffer and
    returns exactly the timestamp, the atom id, the values with their positions, and the
    annotations that were written. *)
Theorem event_roundtrip (junk uninit : Z) (ev : EEvent) :
  event_ok ev → 0 < ev_atom ev < 2 ^ 31 → Z.of_nat (length (wire ev)) <= MAX_PULL_EVENT_PAYLOAD →
  ∃ e, client junk ev = Some e ∧ errors e = 0 ∧
    parseBuffer (getBuffer e) (Z.of_nat (length (getBuffer e))) (LogEvent_new uninit) =
      Some (true, set_buf [] 0 (spec_event uninit ev)).
Proof.
  intros Hok Hid Hlen. destruct (fill_holds junk ev Hok Hid Hlen) as (e & pos & E & Hh). unfold client. rewrite E.
  cbn [mbind option_bind]. pose proof (ek_few _ Hok) as Hn. destruct (build_holds junk _ _ _ _ _ Hh) as (e' & E' & Hb & He); [lia|lia|].
  exists e'. split; [done|]. split; [done|]. rewrite Hb. apply parse_wire; [done|]. unfold MAX_PULL_EVENT_PAYLOAD in *. lia.
Qed.

Definition example_event : EEvent :=
  mkEEvent 1000 42 (Some true)
    [(EInt32 (-7), [AIsUid true; APrimary true]); (EString (Some [104; 105]), []);
     (EChain [(1000, Some [97]); (2000, None)], [AFirstUid true]); (EInt64 (-1), [AExclusive true; AReset 5])].

Lemma example_event_ok : event_ok example_event.
Proof.
  constructor; [|cbn; lia|vm_compute; congruence].
  repeat apply Forall_cons_2; try apply Forall_nil_2; (split; [cbn; lia|split; [|first [done|split; [done|cbn; lia]]]]);
    cbn; repeat apply Forall_cons_2; try apply Forall_nil_2; done.
Qed.

Lemma event_roundtrip_witness :
  ∃ e, client 0 example_event = Some e ∧
    parseBuffer (getBuffer e) (Z.of_nat (length (getBuffer e))) (LogEvent_new 0) =
      Some (true, set_buf [] 0 (spec_event 0 example_event)) ∧
    mUidFieldIndex (spec_event 0 example_event) = 0 ∧
    hasAttributionChain (spec_event 0 example_event) = Some (2, 5) ∧
    GetInt 1 (spec_event 0 example_event) = (-7, OK).
Proof.
  destruct (event_roundtrip 0 0 example_event) as (e & H1 & H2 & H3).
  - apply example_event_ok.
  - cbn. lia.
  - vm_compute. congruence.
  - exists e. split; [exact H1|]. split; [exact H3|]. repeat split; vm_compute; reflexivity.
Defined.

(** ** Events with errors *)

Inductive ClientOp :=
| OpValue (f : EField)
| OpBoolAnnotation (id : Z) (b : bool)
| OpInt32Annotation (id v : Z)
| OpSetAtomId (id : Z)
| OpOverwriteTimestamp (t : Z).

Definition client_step (junk : Z) (op : ClientOp) : AStatsEvent → option AStatsEvent :=
  match op with
  | OpValue f => write_value junk f
  | OpBoolAnnotation id b => addBoolAnnotation junk id b
  | OpInt32Annotation id v => addInt32Annotation junk id v
  | OpSetAtomId id => setAtomId junk id
  | OpOverwriteTimestamp t => overwriteTimestamp t
  end.

Fixpoint client_run (junk : Z) (ops : list ClientOp) (e : AStatsEvent) : option AStatsEvent :=
  match ops with [] => Some e | op :: ops => e ← client_step junk op e; client_run junk ops e end.

(** The header of an event under construction. *)
Record framed (e : AStatsEvent) : Prop := {
  fr_length : Z.of_nat (length (buf e)) = bufSize e;
  fr_size : MAX_PUSH_EVENT_PAYLOAD <= bufSize e <= MAX_PULL_EVENT_PAYLOAD;
  fr_written : 11 <= numBytesWritten e <= bufSize e;
  fr_pos : 2 <= numElements e → 11 <= lastFieldPos e;
  fr_head : take 3 (buf e) = [OBJECT_TYPE; 0; INT64_TYPE]
}.

(** [op] keeps the frame when it returns. *)
Definition keeps_frame (op : AStatsEvent → option AStatsEvent) : Prop :=
  ∀ e e', framed e → op e = Some e' → framed e'.

Lemma keeps_bind op1 op2 : keeps_frame op1 → keeps_frame op2 → keeps_frame (λ e, e ← op1 e; op2 e).
Proof. intros H1 H2 e e' Hf. cbn. destruct (op1 e) as [e1|] eqn:E; [|done]. intros H. eauto. Qed.

Lemma add_error_framed x e : framed e → framed (add_error x e).
Proof. intros []. by constructor. Qed.

Lemma keeps_error x : keeps_frame (λ e, Some (add_error x e)).
Proof. intros e e' Hf [= <-]. by apply add_error_framed. Qed.

Lemma keeps_id : keeps_frame Some.
Proof. by intros e e' Hf [= <-]. Qed.

Lemma store_spec pos bytes b b' :
  store pos bytes b = Some b' →
  0 <= pos ∧ pos + Z.of_nat (length bytes) <= Z.of_nat (length b) ∧ length b' = length b ∧
  b' = take (Z.to_nat pos) b ++ bytes ++ drop (Z.to_nat pos + length bytes) b.
Proof.
  unfold store. destruct (_ && _) eqn:E; [|done]. bool_to_prop. intros [= <-]. split; [lia|]. split; [lia|].
  split; [|done]. rewrite !length_app, length_take, length_drop. lia.
Qed.

Lemma store_head n pos bytes b b' :
  store pos bytes b = Some b' → Z.of_nat n <= pos → take n b' = take n b.
Proof.
  intros (H1 & H2 & _ & ->)%store_spec Hn. rewrite take_app_le, take_take by (rewrite length_take; lia).
  f_equal. lia.
Qed.

Lemma overflows_framed junk size e full e' :
  framed e → 0 <= size → overflows junk size e = (full, e') →
  framed e' ∧ (full = false → numBytesWritten e' = numBytesWritten e ∧ numBytesWritten e + size <= bufSize e').
Proof.
  intros [H1 H2 H3 H4 H5] Hs. unfold overflows.
  destruct (Z.ltb_spec MAX_PULL_EVENT_PAYLOAD (numBytesWritten e + size)); [intros [= <- <-]; split; [by constructor|done]|].
  set (total := numBytesWritten e + size) in *.
  destruct ((bufSize e <? MAX_PULL_EVENT_PAYLOAD) && (bufSize e <? total)) eqn:E; bool_to_prop.
  - destruct (doubleSize_enough 64 (bufSize e) total) as [Hd1 Hd2];
      [unfold MAX_PUSH_EVENT_PAYLOAD, LOGGER_ENTRY_MAX_PAYLOAD in *; lia| |lia|].
    { unfold MAX_PUSH_EVENT_PAYLOAD, MAX_PULL_EVENT_PAYLOAD, LOGGER_ENTRY_MAX_PAYLOAD in *.
      change (2 ^ Z.of_nat 64) with 18446744073709551616. nia. }
    generalize dependent (doubleSize 64 (bufSize e) total). intros d Hd1 Hd2 [= <- <-].
    split; [|intros _; cbn [grow_buf bufSize numBytesWritten]; lia].
    constructor; cbn [grow_buf buf bufSize numBytesWritten lastFieldPos numElements]; try done; try lia.
    + rewrite length_resize. lia.
    + unfold MAX_PUSH_EVENT_PAYLOAD, LOGGER_ENTRY_MAX_PAYLOAD in *.
      rewrite take_resize_le by lia. by rewrite resize_le by lia.
  - intros [= <- <-]. split; [by constructor|]. intros _. split; [done|]. destruct E; lia.
Qed.

Lemma append_framed junk new : keeps_frame (append junk new).
Proof.
  intros e e' Hf. unfold append. destruct (overflows junk _ e) as [full e1] eqn:E.
  destruct (overflows_framed junk (Z.of_nat (length new)) e full e1 Hf ltac:(lia) E) as [[H1 H2 H3 H4 H5] Hr].
  destruct full; [by intros [= <-]|]. destruct (Hr eq_refl) as [Hw Hroom]. destruct Hf.
  destruct (store _ _ _) as [b|] eqn:Es; [|done]. cbn [mbind option_bind]. intros [= <-].
  pose proof (store_head 3 _ _ _ _ Es ltac:(lia)) as Hh.
  apply store_spec in Es as (_ & _ & Hl & _).
  constructor; cbn [set_ebuf buf bufSize numBytesWritten lastFieldPos numElements]; try done; try lia.
  by rewrite Hh.
Qed.

Lemma start_field_framed junk ty : keeps_frame (start_field junk ty).
Proof.
  intros e e' Hf. unfold start_field, append_byte.
  assert (Hs : framed (start_at (numBytesWritten e) e)) by (destruct Hf; constructor; cbn; done || lia).
  destruct (append junk [ty] _) as [e1|] eqn:E; [|done].
  cbn [mbind option_bind]. intros [= <-]. pose proof (append_framed _ _ _ _ Hs E) as [H1 H2 H3 H4 H5].
  constructor; cbn [set_elements buf bufSize numBytesWritten lastFieldPos numElements]; try done.
  intros _. unfold append in E. destruct (overflows junk _ _) as [full e2] eqn:Eo.
  assert (lastFieldPos e2 = numBytesWritten e) as Hl.
  { unfold overflows in Eo. repeat case_match; simplify_eq; done. }
  destruct full; [injection E as <-; destruct Hf; lia|].
  destruct (store _ _ _); [|done]. injection E as <-. cbn. destruct Hf. lia.
Qed.

Lemma append_string_framed junk chars : keeps_frame (append_string junk chars).
Proof.
  intros e e' Hf. unfold append_string. destruct (_ <=? _); [by apply keeps_error|].
  revert e e' Hf. apply keeps_bind; apply append_framed.
Qed.

Lemma writeNodes_framed junk nodes : keeps_frame (writeNodes junk nodes).
Proof.
  induction nodes as [|[uid tag] nodes IH]; [apply keeps_id|]. cbn [writeNodes].
  apply keeps_bind; [apply append_framed|]. apply keeps_bind; [apply append_string_framed|done].
Qed.

Lemma write_value_framed junk f : keeps_frame (write_value junk f).
Proof.
  destruct f as [v|v|bits|b|l|l|nodes]; cbn [write_value];
    try (apply keeps_bind; [apply start_field_framed|apply append_framed]).
  - apply keeps_bind; [apply start_field_framed|]. apply keeps_bind; [apply append_framed|].
    intros e e' Hf. destruct (0 <? _); [by apply append_framed|by apply keeps_id].
  - apply keeps_bind; [apply start_field_framed|apply append_string_framed].
  - intros e e' Hf. unfold writeAttributionChain. destruct (_ <? _); [by apply keeps_error|].
    revert e e' Hf. apply keeps_bind; [apply start_field_framed|].
    apply keeps_bind; [apply append_framed|apply writeNodes_framed].
Qed.

(** The annotation count is written behind the header. *)
Lemma increment_framed e e' :
  framed e → 2 <= numElements e → increment_annotation_count e = Some e' → framed e'.
Proof.
  intros Hf Hn. unfold increment_annotation_count. destruct (buf e !! _) as [b|]; [|done].
  cbn [mbind option_bind]. destruct (_ <? _); [by apply keeps_error|].
  destruct (store _ _ _) as [b'|] eqn:Es; [|done]. cbn [mbind option_bind]. intros [= <-].
  destruct Hf as [H1 H2 H3 H4 H5]. specialize (H4 Hn).
  pose proof (store_head 3 _ _ _ _ Es ltac:(lia)) as Hh. apply store_spec in Es as (_ & _ & Hl & _).
  constructor; cbn [set_ebuf buf bufSize numBytesWritten lastFieldPos numElements]; try done; try lia.
  by rewrite Hh.
Qed.

Lemma append_elements junk new e e' : append junk new e = Some e' → numElements e' = numElements e.
Proof.
  unfold append. destruct (overflows junk _ e) as [full e1] eqn:Eo.
  assert (numElements e1 = numElements e) as Hl.
  { unfold overflows in Eo. repeat case_match; simplify_eq; done. }
  destruct full; [by intros [= <-]|]. destruct (store _ _ _); [|done]. cbn. by intros [= <-].
Qed.

Lemma addAnnotation_framed junk id ty new :
  keeps_frame (addAnnotation junk id (λ e, e ← append_byte junk ty e; append junk new e)).
Proof.
  intros e e' Hf. unfold addAnnotation. destruct (Z.ltb_spec (numElements e) 2); [by apply keeps_error|].
  destruct (_ <? _); [by apply keeps_error|]. unfold append_byte. cbn [mbind option_bind].
  destruct (append junk [id] e) as [e1|] eqn:E1; [|done]. cbn [mbind option_bind].
  destruct (append junk [ty] e1) as [e2|] eqn:E2; [|done]. cbn [mbind option_bind].
  destruct (append junk new e2) as [e3|] eqn:E3; [|done]. cbn [mbind option_bind].
  apply increment_framed.
  - eapply append_framed; [|exact E3]. eapply append_framed; [|exact E2]. by eapply append_framed.
  - apply append_elements in E1, E2, E3. lia.
Qed.

Lemma client_step_framed junk op : keeps_frame (client_step junk op).
Proof.
  destruct op as [f|id b|id v|id|t]; cbn [client_step].
  - apply write_value_framed.
  - apply addAnnotation_framed.
  - apply addAnnotation_framed.
  - intros e e' Hf. unfold setAtomId. destruct (negb _); [by apply keeps_id|].
    destruct (negb _); [by apply keeps_error|].
    apply (write_value_framed junk (EInt32 id)). destruct Hf. by constructor.
  - intros e e' Hf. unfold overwriteTimestamp. destruct (store _ _ _) as [b|] eqn:Es; [|done].
    cbn [mbind option_bind]. intros [= <-]. destruct Hf as [H1 H2 H3 H4 H5].
    pose proof (store_head 3 _ _ _ _ Es ltac:(vm_compute; congruence)) as Hh. apply store_spec in Es as (_ & _ & Hl & _).
    constructor; cbn [set_ebuf buf bufSize numBytesWritten lastFieldPos numElements]; try done; try lia.
    by rewrite Hh.
Qed.

Lemma client_run_framed junk ops : keeps_frame (client_run junk ops).
Proof.
  induction ops as [|op ops IH]; [apply keeps_id|]. cbn [client_run].
  apply keeps_bind; [apply client_step_framed|done].
Qed.

Lemma obtain_framed junk t : ∃ e, obtain junk t = Some e ∧ framed e.
Proof.
  destruct (obtain_holds junk t) as (e & E & []). exists e. split; [done|]. constructor; try done.
  - rewrite ho_written0. rewrite length_app in *. cbn [length] in *. rewrite length_int64 in *. lia.
  - lia.
  - rewrite length_app in ho_bytes0. cbn [length] in ho_bytes0. rewrite length_int64 in ho_bytes0.
    apply (f_equal (take 3)) in ho_bytes0. rewrite take_take in ho_bytes0. exact ho_bytes0.
Qed.

(** An event that announces an error is not valid. *)
Lemma parse_error_event uninit ts id err :
  length ts = 8%nat → length id = 4%nat → length err = 4%nat →
  ∃ p, parseBuffer (OBJECT_TYPE :: 3 :: INT64_TYPE :: ts ++ INT32_TYPE :: id ++ ERROR_TYPE :: err) 21
         (LogEvent_new uninit) = Some (false, p).
Proof.
  intros Ht Hi He. unfold parseBuffer. rewrite u32_id by lia.
  set (bytes := OBJECT_TYPE :: _). assert (Hlen : length bytes = 21%nat).
  { unfold bytes. cbn [length]. rewrite length_app. cbn [length]. rewrite length_app. cbn [length]. lia. }
  change 21 with (Z.of_nat 21). rewrite <- Hlen.
  change (set_buf bytes _ (LogEvent_new uninit)) with (at_buf bytes (LogEvent_new uninit)).
  enough (Hc : ∃ e', consumes_all parseBody bytes (LogEvent_new uninit) false e').
  { destruct Hc as [e' Hc]. rewrite Hc by (rewrite Hlen; lia). by eexists. }
  eexists. unfold parseBody, bytes.
  change (OBJECT_TYPE :: 3 :: INT64_TYPE :: ?b) with ([OBJECT_TYPE] ++ [3] ++ [INT64_TYPE] ++ b).
  eapply consumes_then; [apply read_uint8_consumes|]. eapply consumes_then_step; [apply consumes_ret|].
  eapply consumes_then; [apply read_uint8_consumes|]. eapply consumes_then_step; [apply consumes_ret|].
  eapply consumes_then; [apply read_uint8_consumes|]. eapply consumes_then_step; [apply consumes_ret|].
  assert (H64 : ∀ l e, length l = 8%nat → consumes read_int64 l e (wrap64 (le_decode l)) e).
  { intros l e Hl. rewrite <- (app_nil_r l). eapply consumes_bind; [by apply readNext_consumes|].
    rewrite app_nil_r. apply consumes_ret. }
  assert (H32 : ∀ l e, length l = 4%nat → consumes read_int32 l e (wrap32 (le_decode l)) e).
  { intros l e Hl. rewrite <- (app_nil_r l). eapply consumes_bind; [by apply readNext_consumes|].
    rewrite app_nil_r. apply consumes_ret. }
  eapply consumes_then; [by apply H64|]. eapply consumes_then_step; [by apply consumes_modify|].
  change (INT32_TYPE :: ?b) with ([INT32_TYPE] ++ b).
  eapply consumes_then; [apply read_uint8_consumes|]. eapply consumes_then_step; [apply consumes_ret|].
  eapply consumes_then; [by apply H32|]. eapply consumes_then_step; [by apply consumes_modify|].
  eapply consumes_then_step; [apply consumes_ret|].
  change (ERROR_TYPE :: err) with ([ERROR_TYPE] ++ err).
  rewrite <- (app_nil_r ([ERROR_TYPE] ++ err)). eapply consumes_then.
  - change (parseFields _ _ 1) with (parseFields 1 1 1). cbn [parseFields].
    rewrite <- (app_nil_r ([ERROR_TYPE] ++ err)). apply consumes_get. intros rest. cbn [at_buf set_buf mValid set_header LogEvent_new].
    eapply consumes_bind; [|apply consumes_ret]. eapply consumes_bind; [apply read_uint8_consumes|].
    rewrite <- (app_nil_r err). eapply consumes_bind; [by apply H32|]. by apply consumes_modify.
  - intros _. cbn. reflexivity.
Qed.

Lemma store_direct pos bytes b :
  0 <= pos → pos + Z.of_nat (length bytes) <= Z.of_nat (length b) →
  store pos bytes b = Some (take (Z.to_nat pos) b ++ bytes ++ drop (Z.to_nat pos + length bytes) b).
Proof.
  intros H1 H2. unfold store. destruct (Z.leb_spec 0 pos); [|lia].
  destruct (Z.leb_spec (pos + Z.of_nat (length bytes)) (Z.of_nat (length b))); [done|lia].
Qed.

Lemma append_direct junk new e :
  0 <= numBytesWritten e → numBytesWritten e + Z.of_nat (length new) <= bufSize e → bufSize e <= MAX_PULL_EVENT_PAYLOAD →
  Z.of_nat (length (buf e)) = bufSize e →
  append junk new e =
    Some (set_ebuf (take (Z.to_nat (numBytesWritten e)) (buf e) ++ new ++
                    drop (Z.to_nat (numBytesWritten e) + length new) (buf e))
            (numBytesWritten e + Z.of_nat (length new)) e).
Proof.
  intros H1 H2 H3 H4. unfold append, overflows.
  destruct (Z.ltb_spec MAX_PULL_EVENT_PAYLOAD (numBytesWritten e + Z.of_nat (length new))); [lia|].
  destruct (Z.ltb_spec (bufSize e) (numBytesWritten e + Z.of_nat (length new))); [lia|]. rewrite andb_false_r.
  by rewrite store_direct by lia.
Qed.

Lemma error_if_framed c x e : framed e → framed (error_if c x e).
Proof. unfold error_if. destruct c; [apply add_error_framed|done]. Qed.

Ltac layout :=
  unfold POS_ATOM_ID, POS_TIMESTAMP, POS_NUM_ELEMENTS, MAX_PULL_EVENT_PAYLOAD in *;
  cbn; rewrite ?drop_0, ?length_app; cbn; lia.

Lemma build_error junk e e' :
  framed e → built e = false → build junk e = Some e' → errors e' ≠ 0 →
  ∃ ts id err, length ts = 8%nat ∧ length id = 4%nat ∧ length err = 4%nat ∧
    getBuffer e' = OBJECT_TYPE :: 3 :: INT64_TYPE :: ts ++ INT32_TYPE :: id ++ ERROR_TYPE :: err.
Proof.
  intros Hf Hb. unfold build, build_internal. rewrite Hb. cbn [andb].
  set (e1 := error_if _ ERROR_OVERFLOW _).
  assert (Hf1 : framed e1) by (unfold e1; by repeat apply error_if_framed). clearbody e1. clear Hf Hb e.
  destruct (Z.eqb_spec (errors e1) 0) as [E|_]; cbn [negb].
  { cbn [mbind option_bind]. destruct (store _ _ _); [|done]. cbn. intros [= <-]. done. }
  destruct Hf1 as [H1 H2 H3 _ H5]. destruct e1 as [b p nw ne ai er bu bs]. cbn in H1, H2, H3, H5.
  unfold MAX_PUSH_EVENT_PAYLOAD, LOGGER_ENTRY_MAX_PAYLOAD, MAX_PULL_EVENT_PAYLOAD in H2.
  do 21 (destruct b as [|? b]; [cbn [length] in H1; lia|]). injection H5 as -> -> ->.
  assert (Hlen : Z.of_nat (length b) = bs - 21) by (cbn [length] in H1; lia). clear H1.
  change POS_ATOM_ID with 11. change POS_NUM_ELEMENTS with 1. change (11 + 1 + 4) with 16.
  rewrite store_direct by layout. change (Z.to_nat 11) with 11%nat.
  cbn [mbind option_bind length Nat.add take drop app]. unfold start_field, append_byte.
  cbn [start_at set_ebuf set_elements numBytesWritten buf].
  rewrite append_direct by layout. cbn [start_at set_ebuf set_elements numBytesWritten buf length].
  change (Z.to_nat 16) with 16%nat. change (16 + Z.of_nat 1) with 17.
  cbn [mbind option_bind length Nat.add take drop app]. unfold append_int32.
  rewrite append_direct by layout.
  cbn [start_at set_ebuf set_elements numBytesWritten buf errors mbind option_bind].
  change (Z.to_nat 17) with 17%nat. rewrite length_le_encode. change (17 + Z.of_nat 4) with 21.
  cbn [Nat.add take drop app le_encode].
  rewrite store_direct by layout. cbn [mbind option_bind].
  intros [= <-] _. eexists [_; _; _; _; _; _; _; _], [_; _; _; _], [_; _; _; _].
  split; [done|]. split; [done|]. split; [done|]. unfold getBuffer. cbn. reflexivity.
Qed.

(** No call of a client sets the built flag. *)
Definition keeps_built (op : AStatsEvent → option AStatsEvent) : Prop :=
  ∀ e e', op e = Some e' → built e' = built e.

Lemma built_bind op1 op2 : keeps_built op1 → keeps_built op2 → keeps_built (λ e, e ← op1 e; op2 e).
Proof. intros H1 H2 e e'. cbn. destruct (op1 e) as [e1|] eqn:E; [|done]. intros H. rewrite (H2 _ _ H). eauto. Qed.

Lemma append_built junk new : keeps_built (append junk new).
Proof.
  intros e e'. unfold append. destruct (overflows junk _ e) as [full e1] eqn:Eo.
  assert (built e1 = built e) as Hl.
  { unfold overflows in Eo. repeat case_match; simplify_eq; done. }
  destruct full; [by intros [= <-]|]. destruct (store _ _ _); [|done]. cbn. by intros [= <-].
Qed.

Lemma start_field_built junk ty : keeps_built (start_field junk ty).
Proof.
  intros e e'. unfold start_field. destruct (append_byte junk ty _) as [e1|] eqn:E; [|done].
  cbn. intros [= <-]. cbn. by rewrite (append_built _ _ _ _ E).
Qed.

Lemma append_string_built junk chars : keeps_built (append_string junk chars).
Proof.
  intros e e'. unfold append_string. destruct (_ <=? _); [by intros [= <-]|].
  revert e e'. apply built_bind; apply append_built.
Qed.

Lemma write_value_built junk f : keeps_built (write_value junk f).
Proof.
  destruct f as [v|v|bits|b|l|l|nodes]; cbn [write_value];
    try (apply built_bind; [apply start_field_built|apply append_built]).
  - apply built_bind; [apply start_field_built|]. apply built_bind; [apply append_built|].
    intros e e'. destruct (0 <? _); [apply append_built|by intros [= <-]].
  - apply built_bind; [apply start_field_built|apply append_string_built].
  - intros e e'. unfold writeAttributionChain. destruct (_ <? _); [by intros [= <-]|].
    revert e e'. apply built_bind; [apply start_field_built|].
    apply built_bind; [apply append_built|].
    induction nodes as [|[uid tag] nodes IH]; [by intros e e' [= <-]|]. cbn [writeNodes].
    apply built_bind; [apply append_built|]. by apply built_bind; [apply append_string_built|].
Qed.

Lemma addAnnotation_built junk id ty new :
  keeps_built (addAnnotation junk id (λ e, e ← append_byte junk ty e; append junk new e)).
Proof.
  intros e e'. unfold addAnnotation. destruct (_ <? _); [by intros [= <-]|].
  destruct (_ <? _); [by intros [= <-]|]. revert e e'. apply built_bind; [apply append_built|].
  apply built_bind; [apply built_bind; apply append_built|].
  intros e e'. unfold increment_annotation_count. destruct (buf e !! _); [|done]. cbn.
  destruct (_ <? _); [by intros [= <-]|]. destruct (store _ _ _); [|done]. cbn. by intros [= <-].
Qed.

Lemma client_run_built junk ops : keeps_built (client_run junk ops).
Proof.
  induction ops as [|op ops IH]; [by intros e e' [= <-]|]. cbn [client_run]. apply built_bind; [|done].
  destruct op; cbn [client_step]; [apply write_value_built|apply addAnnotation_built..| |].
  - intros e e'. unfold setAtomId. destruct (negb _); [by intros [= <-]|]. destruct (negb _); [by intros [= <-]|].
    intros H. by apply (write_value_built junk (EInt32 id)) in H.
  - intros e e'. unfold overwriteTimestamp. destruct (store _ _ _); [|done]. cbn. by intros [= <-].
Qed.

Lemma obtain_built junk t e : obtain junk t = Some e → built e = false.
Proof. intros H. by apply (write_value_built junk (EInt64 t)) in H. Qed.

(** An error of a client never becomes data.  Whatever calls a client made on an event: when an
    error was recorded or is found by the build (no atom id, too many fields, overflow, a bad
    annotation, an unterminated string), the parser of statsd rejects the event. *)
Theorem error_event_rejected (junk uninit t : Z) (ops : list ClientOp) (e0 e e' : AStatsEvent) :
  obtain junk t = Some e0 → client_run junk ops e0 = Some e → build junk e = Some e' → errors e' ≠ 0 →
  ∃ p, parseBuffer (getBuffer e') (Z.of_nat (length (getBuffer e'))) (LogEvent_new uninit) = Some (false, p).
Proof.
  intros H0 Hr Hb He. destruct (obtain_framed junk t) as (e1 & E1 & Hf). rewrite H0 in E1. injection E1 as ->.
  pose proof (client_run_framed _ _ _ _ Hf Hr) as Hf'.
  assert (Hbuilt : built e = false).
  { rewrite (client_run_built _ _ _ _ Hr). by rewrite (obtain_built _ _ _ H0). }
  destruct (build_error junk e e' Hf' Hbuilt Hb He) as (ts & id & err & Ht & Hi & Hr' & ->).
  destruct (parse_error_event uninit ts id err Ht Hi Hr') as [p Hp]. exists p.
  replace (Z.of_nat _) with 21; [exact Hp|]. cbn [length]. rewrite length_app. cbn [length].
  rewrite length_app. cbn [length]. lia.
Qed.

Lemma error_event_rejected_witness :
  ∃ e0 e e' p, obtain 0 5 = Some e0 ∧ client_run 0 [OpValue (EInt32 1)] e0 = Some e ∧ build 0 e = Some e' ∧
    errors e' = ERROR_NO_ATOM_ID ∧
    parseBuffer (getBuffer e') (Z.of_nat (length (getBuffer e'))) (LogEvent_new 0) = Some (false, p).
Proof.
  destruct (obtain 0 5) as [e0|] eqn:E0; [|vm_compute in E0; discriminate].
  destruct (client_run 0 [OpValue (EInt32 1)] e0) as [e|] eqn:E1.
  2:{ vm_compute in E0. injection E0 as <-. vm_compute in E1. discriminate. }
  destruct (build 0 e) as [e'|] eqn:E2.
  2:{ vm_compute in E0. injection E0 as <-. vm_compute in E1. injection E1 as <-. vm_compute in E2. discriminate. }
  assert (He : errors e' = ERROR_NO_ATOM_ID).
  { vm_compute in E0. injection E0 as <-. vm_compute in E1. injection E1 as <-. vm_compute in E2.
    injection E2 as <-. reflexivity. }
  destruct (error_event_rejected 0 0 5 [OpValue (EInt32 1)] e0 e e' E0 E1 E2) as [p Hp].
  - rewrite He. discriminate.
  - exists e0, e, e', p. repeat split; done.
Defined.

(** An append to a full buffer records the error and writes nothing. *)
Lemma append_full junk new e :
  numBytesWritten e = MAX_PULL_EVENT_PAYLOAD → (0 < length new)%nat →
  append junk new e = Some (add_error ERROR_OVERFLOW e).
Proof.
  intros Hn Hl. unfold append, overflows. rewrite Hn. destruct (Z.ltb_spec MAX_PULL_EVENT_PAYLOAD (MAX_PULL_EVENT_PAYLOAD + Z.of_nat (length new))); [done|lia].
Qed.

(** Writing a field to a full buffer, and then an annotation of it. *)
Lemma full_then_annotate junk e bytes pos n id :
  holds bytes pos n id e → Z.of_nat (length bytes) = MAX_PULL_EVENT_PAYLOAD → 1 <= n < 2 ^ 31 →
  ∃ e', write_value junk (EInt32 1) e = Some e' ∧ errors e' = ERROR_OVERFLOW ∧
    addBoolAnnotation junk ANNOTATION_ID_IS_UID true e' = None.
Proof.
  intros [] Hl Hn. cbn [write_value]. unfold writeInt32, start_field, append_byte, append_int32.
  rewrite append_full by (cbn; lia). cbn [mbind option_bind].
  rewrite append_full by (cbn; lia). eexists. split; [done|]. split; [cbn; rewrite ho_errors0; done|].
  unfold addBoolAnnotation, addAnnotation, append_bool, append_byte. cbn [numElements add_error set_elements start_at].
  rewrite ho_elements0. unfold u32. rewrite Z.mod_small by lia.
  destruct (Z.ltb_spec (n + 1) 2); [lia|]. cbn [Z.ltb Z.compare].
  change (MAX_BYTE_VALUE <? ANNOTATION_ID_IS_UID) with false. cbv iota.
  do 3 (rewrite append_full by (cbn; lia); cbn [mbind option_bind]).
  unfold increment_annotation_count. cbn [buf lastFieldPos add_error set_elements start_at].
  rewrite lookup_ge_None_2; [done|]. lia.
Qed.

Lemma fill_then_annotate junk l :
  Z.of_nat (length l) = 51179 →
  ∃ e0 e, obtain junk 0 = Some e0 ∧
    client_run junk [OpSetAtomId 1; OpValue (EBytes (Some l)); OpValue (EInt32 1)] e0 = Some e ∧
    errors e = ERROR_OVERFLOW ∧ addBoolAnnotation junk ANNOTATION_ID_IS_UID true e = None.
Proof.
  intros Hl. destruct (obtain_holds junk 0) as (e0 & E0 & Hh0). exists e0.
  assert (Hh0' : holds ([OBJECT_TYPE; 0] ++ INT64_TYPE :: int64_bytes 0) 2 1 1 (set_atom 1 e0))
    by (destruct Hh0; by constructor).
  destruct (write_value_holds junk (EInt32 1) _ _ _ _ _ Hh0') as (e1 & E1 & Hh1);
    [lia|done|vm_compute; congruence|].
  destruct (write_value_holds junk (EBytes (Some l)) _ _ _ _ _ Hh1) as (e2 & E2 & Hh2); [lia|done| |].
  { change (payload (EBytes (Some l))) with (block_bytes l). unfold block_bytes.
    rewrite !length_app. cbn [length payload]. rewrite !length_int32, length_int64.
    change MAX_PULL_EVENT_PAYLOAD with 51200. lia. }
  destruct (full_then_annotate junk _ _ _ _ _ Hh2) as (e3 & E3 & He & Ha); [|lia|].
  { change (payload (EBytes (Some l))) with (block_bytes l). unfold block_bytes.
    rewrite !length_app. cbn [length payload]. rewrite !length_app, !length_int32, length_int64. cbn [length].
    change MAX_PULL_EVENT_PAYLOAD with 51200. lia. }
  exists e3. split; [done|]. split; [|done].
  assert (Es : client_step junk (OpSetAtomId 1) e0 = Some e1).
  { cbn [client_step]. unfold setAtomId. destruct Hh0. rewrite ho_atom0, ho_elements0. exact E1. }
  apply bind_Some. exists e1. split; [exact Es|]. apply bind_Some. exists e2. split; [exact E2|].
  apply bind_Some. exists e3. by split; [exact E3|].
Qed.

(** An annotation after an overflow leaves the buffer.  A client that fills the buffer to its
    last byte and then writes another field with an annotation makes the encoder access the byte
    behind the buffer: the field does not fit, but its annotation count is still updated at the
    position where it would have begun. *)
Theorem annotation_past_buffer (junk : Z) :
  ∃ e0 e, obtain junk 0 = Some e0 ∧
    client_run junk [OpSetAtomId 1; OpValue (EBytes (Some (replicate (Z.to_nat 51179) 0))); OpValue (EInt32 1)] e0 = Some e ∧
    errors e = ERROR_OVERFLOW ∧ addBoolAnnotation junk ANNOTATION_ID_IS_UID true e = None.
Proof. apply fill_then_annotate. rewrite length_replicate. apply Z2Nat.id. lia. Qed.
