(* ===== verification/MatcherTrackers.v ===== *)
(** * Matcher trackers (matchers/SimpleAtomMatchingTracker.cpp,
      matchers/CombinationAtomMatchingTracker.cpp, matchers/EventMatcherWizard.cpp,
      initAtomMatchingTrackers of metrics/parsing_utils/metrics_manager_util.cpp)

    The trackers of a configuration form a vector of shared objects which [init] and
    [onLogEvent] traverse recursively, from a combination to its children.  The vector is
    explicit state; the recursion is bounded by fuel, and MatcherTrackersFacts shows the
    fuel that is always enough. *)
From S2P Require Import Prelude UMap FieldValue DimensionKey Matchers.

(** ** Configuration (AtomMatcher messages) *)

Record AtomMatcher_Combination := mkCombination {
  comb_operation : option LogicalOperation; comb_matcher : list Z
}.

Inductive AtomMatcherContents :=
  | kSimpleAtomMatcher (m : SimpleAtomMatcher)
  | kCombination (c : AtomMatcher_Combination)
  | CONTENTS_NOT_SET.

Record AtomMatcher := mkAtomMatcher { am_id : Z; am_contents : AtomMatcherContents }.

(** [allAtomMatchers\[i\].combination()]: the default message when the case is another. *)
Definition combinationAt (allAtomMatchers : list AtomMatcher) (i : nat) : AtomMatcher_Combination :=
  match am_contents <$> allAtomMatchers !! i with
  | Some (kCombination c) => c
  | _ => mkCombination None []
  end.

(** ** Trackers *)

Inductive TrackerKind :=
  | SimpleTracker (mMatcher : SimpleAtomMatcher)
  | CombinationTracker (mLogicalOperation : LogicalOperation) (mChildren : list nat).

Record AtomMatchingTracker := mkTracker {
  mId : Z; mIndex : nat; mInitialized : bool; mAtomIds : gset Z; mKind : TrackerKind
}.

Definition tracker_children (t : AtomMatchingTracker) : list nat :=
  match mKind t with SimpleTracker _ => [] | CombinationTracker _ cs => cs end.

Definition tracker_operation (t : AtomMatchingTracker) : LogicalOperation :=
  match mKind t with
  | SimpleTracker _ => LOGICAL_OPERATION_UNSPECIFIED
  | CombinationTracker op _ => op
  end.

Definition SimpleAtomMatchingTracker_new (id : Z) (index : nat) (matcher : SimpleAtomMatcher)
    : AtomMatchingTracker :=
  match sam_atom_id matcher with
  | None => mkTracker id index false ∅ (SimpleTracker matcher)
  | Some a => mkTracker id index true {[a]} (SimpleTracker matcher)
  end.

(** [mLogicalOperation] is not initialized by the constructor. *)
Definition CombinationAtomMatchingTracker_new (id : Z) (index : nat) : AtomMatchingTracker :=
  mkTracker id index false ∅ (CombinationTracker LOGICAL_OPERATION_UNSPECIFIED []).

Definition createAtomMatchingTracker (logMatcher : AtomMatcher) (index : nat)
    : option AtomMatchingTracker :=
  match am_contents logMatcher with
  | kSimpleAtomMatcher m => Some (SimpleAtomMatchingTracker_new (am_id logMatcher) index m)
  | kCombination _ => Some (CombinationAtomMatchingTracker_new (am_id logMatcher) index)
  | CONTENTS_NOT_SET => None
  end.

Definition set_operation (op : LogicalOperation) (t : AtomMatchingTracker) : AtomMatchingTracker :=
  mkTracker (mId t) (mIndex t) (mInitialized t) (mAtomIds t)
    (CombinationTracker op (tracker_children t)).

(** [mChildren.push_back(childIndex)] and the insertion of the child's atom ids. *)
Definition push_child (childIndex : nat) (ids : gset Z) (t : AtomMatchingTracker)
    : AtomMatchingTracker :=
  mkTracker (mId t) (mIndex t) (mInitialized t) (mAtomIds t ∪ ids)
    (CombinationTracker (tracker_operation t) (tracker_children t ++ [childIndex])).

Definition set_initialized (t : AtomMatchingTracker) : AtomMatchingTracker :=
  mkTracker (mId t) (mIndex t) true (mAtomIds t) (mKind t).

(** ** Initialization *)

(** What [init] changes: the trackers and the recursion stack. *)
Record InitState := mkInit { is_trackers : list AtomMatchingTracker; is_stack : list bool }.

Definition on_trackers (f : list AtomMatchingTracker → list AtomMatchingTracker) (s : InitState)
    : InitState := mkInit (f (is_trackers s)) (is_stack s).

Definition on_stack (i : nat) (b : bool) (s : InitState) : InitState :=
  mkInit (is_trackers s) (<[i := b]> (is_stack s)).

Section init.
Context (allAtomMatchers : list AtomMatcher) (matcherMap : gmap Z nat).

(** The loop over the children of a combination; [rec] is the virtual call [init]. *)
Fixpoint init_children (rec : nat → InitState → option (bool * InitState)) (i : nat)
    (children : list Z) (s : InitState) : option (bool * InitState) :=
  match children with
  | [] => Some (true, s)
  | child :: children' =>
      match matcherMap !! child with
      | None => Some (false, s)
      | Some childIndex =>
          if default false (is_stack s !! childIndex) then Some (false, s)
          else
            match rec childIndex s with
            | None => None
            | Some (false, s) => Some (false, s)
            | Some (true, s) =>
                let ids := default ∅ (mAtomIds <$> is_trackers s !! childIndex) in
                init_children rec i children'
                  (on_trackers (alter (push_child childIndex ids) i) s)
            end
      end
  end.

(** [AtomMatchingTracker::init] of tracker [i]; [None]: out of fuel. *)
Fixpoint init (fuel : nat) (i : nat) (s : InitState) : option (bool * InitState) :=
  match fuel with
  | O => None
  | S fuel =>
      match is_trackers s !! i with
      | None => Some (false, s)
      | Some t =>
          match mKind t with
          | SimpleTracker _ => Some (mInitialized t, s)
          | CombinationTracker _ _ =>
              if mInitialized t then Some (true, s)
              else
                let s := on_stack i true s in
                let matcher := combinationAt allAtomMatchers i in
                match comb_operation matcher with
                | None => Some (false, s)
                | Some op =>
                    let s := on_trackers (alter (set_operation op) i) s in
                    if bool_decide (op = NOT)
                       && negb (Z.of_nat (length (comb_matcher matcher)) =? 1)
                    then Some (false, s)
                    else
                      match init_children (init fuel) i (comb_matcher matcher) s with
                      | None => None
                      | Some (false, s) => Some (false, s)
                      | Some (true, s) =>
                          let s := on_trackers (alter set_initialized i) s in
                          Some (true, on_stack i false s)
                      end
                end
          end
      end
  end.

(** The loop of [initAtomMatchingTrackers] over the created trackers. *)
Fixpoint init_all (fuel : nat) (idxs : list nat) (s : InitState) (allTagIds : gset Z)
    : option (bool * InitState * gset Z) :=
  match idxs with
  | [] => Some (true, s, allTagIds)
  | i :: idxs' =>
      match init fuel i s with
      | None => None
      | Some (false, s) => Some (false, s, allTagIds)
      | Some (true, s) =>
          init_all fuel idxs' s
            (allTagIds ∪ default ∅ (mAtomIds <$> is_trackers s !! i))
      end
  end.
End init.

(** The creation loop: trackers and id map, [None] on a malformed or duplicate matcher. *)
Fixpoint create_all (configs : list AtomMatcher) (i : nat) (trackers : list AtomMatchingTracker)
    (map : gmap Z nat) : option (list AtomMatchingTracker * gmap Z nat) :=
  match configs with
  | [] => Some (trackers, map)
  | m :: configs' =>
      match createAtomMatchingTracker m i with
      | None => None
      | Some t =>
          match map !! am_id m with
          | Some _ => None
          | None => create_all configs' (S i) (trackers ++ [t]) (<[am_id m := i]> map)
          end
      end
  end.

(** One level of recursion per tracker on the stack, one more for a tracker that is not a
    combination. *)
Definition initFuel (n : nat) : nat := (n + 2)%nat.

(** [initAtomMatchingTrackers]: the trackers, the id map and all tag ids on success. *)
Definition initAtomMatchingTrackers (config : list AtomMatcher)
    : option (list AtomMatchingTracker * gmap Z nat * gset Z) :=
  '(trackers, map) ← create_all config 0 [] ∅;
  let n := length trackers in
  '(ok, s, tags) ← init_all config map (initFuel n) (seq 0 n)
                     (mkInit trackers (replicate n false)) ∅;
  if (ok : bool) then Some (is_trackers s, map, tags) else None.

(** [onConfigUpdated] *)
Definition CombinationAtomMatchingTracker_onConfigUpdated (matcher : AtomMatcher) (index : nat)
    (atomMatchingTrackerMap : gmap Z nat) (t : AtomMatchingTracker) : bool * AtomMatchingTracker :=
  let comb := match am_contents matcher with kCombination c => c | _ => mkCombination None [] end in
  let fix go (children : list Z) (acc : list nat) : bool * list nat :=
    match children with
    | [] => (true, acc)
    | child :: children' =>
        match atomMatchingTrackerMap !! child with
        | None => (false, acc)
        | Some i => go children' (acc ++ [i])
        end
    end in
  let (ok, cs) := go (comb_matcher comb) [] in
  (ok, mkTracker (mId t) index (mInitialized t) (mAtomIds t)
         (CombinationTracker (tracker_operation t) cs)).

Definition SimpleAtomMatchingTracker_onConfigUpdated (index : nat) (t : AtomMatchingTracker)
    : bool * AtomMatchingTracker :=
  (mInitialized t, mkTracker (mId t) index (mInitialized t) (mAtomIds t) (mKind t)).

(** ** Evaluation of an event *)

Definition toState (b : bool) : MatchingState := if b then kMatched else kNotMatched.

Section onLogEvent.
Context {U : Type} `{!UidMapOps U} (uidMap : U).
Context (allAtomMatchingTrackers : list AtomMatchingTracker) (event : LogEvent).

(** The loop of a combination over its children: only those without a result are visited. *)
Fixpoint visitChildren (rec : nat → list MatchingState → option (list MatchingState))
    (cs : list nat) (results : list MatchingState) : option (list MatchingState) :=
  match cs with
  | [] => Some results
  | c :: cs' =>
      if bool_decide (resultAt results c = kNotComputed) then
        results ← rec c results; visitChildren rec cs' results
      else visitChildren rec cs' results
  end.

(** [onLogEvent] of tracker [i] on the result cache; [None]: out of fuel. *)
Fixpoint onLogEvent (fuel : nat) (i : nat) (matcherResults : list MatchingState)
    : option (list MatchingState) :=
  match fuel with
  | O => None
  | S fuel =>
      match allAtomMatchingTrackers !! i with
      | None => Some matcherResults
      | Some t =>
          if negb (bool_decide (resultAt matcherResults (mIndex t) = kNotComputed))
          then Some matcherResults
          else if negb (bool_decide (GetTagId event ∈ mAtomIds t))
          then Some (<[mIndex t := kNotMatched]> matcherResults)
          else
            match mKind t with
            | SimpleTracker m =>
                let matched := matchesSimple uidMap m event in
                Some (<[mIndex t := toState matched]> matcherResults)
            | CombinationTracker op children =>
                match visitChildren (onLogEvent fuel) children matcherResults with
                | None => None
                | Some results =>
                    let matched := combinationMatch children op results in
                    Some (<[mIndex t := toState matched]> results)
                end
            end
      end
  end.

(** [EventMatcherWizard::matchLogEvent] *)
Definition matchLogEvent (fuel : nat) (matcher_index : Z) : option MatchingState :=
  let n := length allAtomMatchingTrackers in
  if (matcher_index <? 0) || (Z.of_nat n <=? matcher_index) then Some kNotComputed
  else
    matcherCache ← onLogEvent fuel (Z.to_nat matcher_index) (replicate n kNotComputed);
    Some (resultAt matcherCache (Z.to_nat matcher_index)).

(** The loop of [MetricsManager::onLogEvent] that evaluates all matchers on an event. *)
Definition evaluateAllMatchers (fuel : nat) : option (list MatchingState) :=
  let n := length allAtomMatchingTrackers in
  foldl (λ cache i, matcherCache ← cache; onLogEvent fuel i matcherCache)
    (Some (replicate n kNotComputed)) (seq 0 n).
End onLogEvent.
