(* ===== verification/MatcherTrackersFacts.v ===== *)
(** * Facts about matcher trackers

    Initialization always terminates, succeeds only on acyclic configurations and builds
    exactly the configured graph; evaluation of an event computes the boolean semantics of
    the graph, with or without cached results. *)
From S2P Require Import Prelude UMap FieldValue DimensionKey Matchers MatcherTrackers.

(** ** Initialization *)

(** Number of trackers not on the recursion stack. *)
Definition free (stack : list bool) : nat := length (List.filter negb stack).

Lemma free_set stack i : stack !! i = Some false → S (free (<[i := true]> stack)) = free stack.
Proof.
  unfold free. revert i. induction stack as [|b stack IH]; intros [|i] H; try done; simpl in *.
  - by injection H as ->.
  - destruct b; simpl; rewrite <- (IH i) by done; done.
Qed.

Lemma free_le stack : (free stack <= length stack)%nat.
Proof. apply List.filter_length_le. Qed.

Section init_facts.
Context (cfg : list AtomMatcher) (map : gmap Z nat).
Notation trackers := (list AtomMatchingTracker).

Definition ids_of (ts : trackers) (c : nat) : gset Z := default ∅ (mAtomIds <$> ts !! c).

(** A tracker of [ts] whose whole sub-graph is the configured one: initialized, with the
    configured operation and children, the atom ids of its children, one child for NOT. *)
Inductive wf_node (ts : trackers) (i : nat) : Prop :=
  | wf_simple t m :
      ts !! i = Some t → mKind t = SimpleTracker m → mInitialized t = true → wf_node ts i
  | wf_comb t op cs :
      ts !! i = Some t → mKind t = CombinationTracker op cs → mInitialized t = true →
      comb_operation (combinationAt cfg i) = Some op →
      Forall2 (λ id c, map !! id = Some c) (comb_matcher (combinationAt cfg i)) cs →
      (op = NOT → length cs = 1%nat) →
      mAtomIds t = ⋃ (ids_of ts <$> cs) →
      (∀ c, c ∈ cs → wf_node ts c) → wf_node ts i.

(** Initialized trackers do not change. *)
Definition keeps (ts ts' : trackers) : Prop :=
  ∀ j t, ts !! j = Some t → mInitialized t = true → ts' !! j = Some t.

Lemma wf_node_initialized ts i : wf_node ts i → ∃ t, ts !! i = Some t ∧ mInitialized t = true.
Proof. destruct 1; eauto. Qed.

Lemma wf_node_keeps ts ts' i : keeps ts ts' → wf_node ts i → wf_node ts' i.
Proof.
  intros Hk. induction 1 as [i t m Ht Hm Hi|i t op cs Ht Hkd Hi Hop Hcs Hnot Hids Hsub IH].
  - eapply wf_simple; eauto.
  - eapply wf_comb; eauto. rewrite Hids. f_equal. apply list_fmap_ext.
    intros ? c Hc%list_elem_of_lookup_2. unfold ids_of.
    destruct (wf_node_initialized _ _ (Hsub c Hc)) as (t' & Ht' & Hi').
    by rewrite Ht', (Hk _ _ Ht' Hi').
Qed.

Lemma keeps_refl ts : keeps ts ts.
Proof. by intros ???. Qed.

Lemma keeps_trans ts1 ts2 ts3 : keeps ts1 ts2 → keeps ts2 ts3 → keeps ts1 ts3.
Proof. unfold keeps. eauto. Qed.

Lemma keeps_alter ts i f t :
  ts !! i = Some t → mInitialized t = false → keeps ts (alter f i ts).
Proof.
  intros Ht Hi j t' Hj Hj'. destruct (decide (i = j)) as [->|]; [congruence|].
  by rewrite list_lookup_alter_ne.
Qed.

(** What initialization never changes of a tracker. *)
Definition shape (t : AtomMatchingTracker) : nat * option (SimpleAtomMatcher * bool) :=
  (mIndex t, match mKind t with
             | SimpleTracker m => Some (m, mInitialized t)
             | CombinationTracker _ _ => None
             end).

(** Shape of the state between calls. *)
Record init_ok (s : InitState) : Prop := {
  io_length : length (is_stack s) = length (is_trackers s);
  io_fresh : ∀ j t op cs, is_trackers s !! j = Some t → mKind t = CombinationTracker op cs →
    mInitialized t = false → is_stack s !! j = Some false → cs = [] ∧ mAtomIds t = ∅;
  io_init : ∀ j t, is_trackers s !! j = Some t → mInitialized t = true →
    wf_node (is_trackers s) j
}.

Record init_post (i : nat) (s : InitState) (b : bool) (s' : InitState) : Prop := {
  ip_length : length (is_trackers s') = length (is_trackers s)
    ∧ length (is_stack s') = length (is_stack s);
  ip_keeps : keeps (is_trackers s) (is_trackers s');
  ip_stacked : ∀ j, is_stack s !! j = Some true → is_trackers s' !! j = is_trackers s !! j;
  ip_shape : ∀ j, shape <$> is_trackers s' !! j = shape <$> is_trackers s !! j;
  ip_success : b = true →
    is_stack s' = is_stack s ∧ init_ok s' ∧ wf_node (is_trackers s') i
}.

Lemma alter_shape (ts : trackers) i f t j :
  ts !! i = Some t → shape (f t) = shape t → shape <$> alter f i ts !! j = shape <$> ts !! j.
Proof.
  intros Ht Hf. destruct (decide (i = j)) as [<-|].
  - rewrite list_lookup_alter_eq, Ht. simpl. by rewrite Hf.
  - by rewrite list_lookup_alter_ne.
Qed.

(** The children [done] of combination [i] have been visited: it is on the stack, not yet
    initialized, and its children and atom ids are those of [done]. *)
Record visiting (i : nat) (op : LogicalOperation) (done : list Z) (s : InitState) : Prop := {
  vi_ok : init_ok s;
  vi_stack : is_stack s !! i = Some true;
  vi_node : ∃ t cs, is_trackers s !! i = Some t ∧ mInitialized t = false ∧
    mKind t = CombinationTracker op cs ∧ Forall2 (λ id c, map !! id = Some c) done cs ∧
    mAtomIds t = ⋃ (ids_of (is_trackers s) <$> cs) ∧
    (∀ c, c ∈ cs → wf_node (is_trackers s) c)
}.

Lemma ids_of_keeps ts ts' (cs : list nat) :
  keeps ts ts' → (∀ c, c ∈ cs → wf_node ts c) → ids_of ts' <$> cs = ids_of ts <$> cs.
Proof.
  intros Hk Hsub. apply list_fmap_ext. intros ? c Hc%list_elem_of_lookup_2. unfold ids_of.
  destruct (wf_node_initialized _ _ (Hsub c Hc)) as (t' & Ht' & Hi').
  by rewrite Ht', (Hk _ _ Ht' Hi').
Qed.

Lemma init_ok_alter_stacked s i f t :
  init_ok s → is_stack s !! i = Some true → is_trackers s !! i = Some t →
  mInitialized t = false → mInitialized (f t) = false →
  init_ok (on_trackers (alter f i) s).
Proof.
  intros [Hl Hf Hw] Hs Ht Hi Hi'. split; simpl.
  - by rewrite length_alter.
  - intros j t' op cs. destruct (decide (i = j)) as [->|].
    + intros _ _ _. by rewrite Hs.
    + rewrite list_lookup_alter_ne by done. apply Hf.
  - intros j t' Hj Hinit. apply wf_node_keeps with (is_trackers s).
    { by eapply keeps_alter. }
    destruct (decide (i = j)) as [<-|].
    + rewrite list_lookup_alter_eq, Ht in Hj. injection Hj as <-. congruence.
    + rewrite list_lookup_alter_ne in Hj by done. eauto.
Qed.

Lemma visiting_push i op done s id c ids :
  visiting i op done s → map !! id = Some c → wf_node (is_trackers s) c →
  ids = ids_of (is_trackers s) c →
  visiting i op (done ++ [id]) (on_trackers (alter (push_child c ids) i) s).
Proof.
  intros [Hok Hs (t & cs & Ht & Hi & Hk & Hcs & Hids & Hsub)] Hm Hc ->.
  assert (Hkeep : keeps (is_trackers s)
    (alter (push_child c (ids_of (is_trackers s) c)) i (is_trackers s))) by by eapply keeps_alter.
  split; [by eapply init_ok_alter_stacked|done|].
  exists (push_child c (ids_of (is_trackers s) c) t), (cs ++ [c]). simpl.
  rewrite list_lookup_alter_eq, Ht. unfold tracker_operation, tracker_children. rewrite Hk.
  assert (Hsub' : ∀ c', c' ∈ cs ++ [c] → wf_node (is_trackers s) c').
  { intros c' [?| ->%list_elem_of_singleton]%elem_of_app; auto. }
  split_and!; try done.
  - apply Forall2_app; [done|]. by constructor.
  - rewrite (ids_of_keeps (is_trackers s)) by done.
    rewrite fmap_app, union_list_app_L, Hids. simpl. set_solver.
  - intros c' Hc'. eapply wf_node_keeps; eauto.
Qed.

(** What the loop over the children guarantees: [init_post] up to the stacked [i]. *)
Record loop_post (i : nat) (s s' : InitState) : Prop := {
  lp_length : length (is_trackers s') = length (is_trackers s)
    ∧ length (is_stack s') = length (is_stack s);
  lp_keeps : keeps (is_trackers s) (is_trackers s');
  lp_stacked : ∀ j, j ≠ i → is_stack s !! j = Some true →
    is_trackers s' !! j = is_trackers s !! j;
  lp_shape : ∀ j, shape <$> is_trackers s' !! j = shape <$> is_trackers s !! j
}.

Lemma loop_post_refl i s : loop_post i s s.
Proof. split; auto using keeps_refl. Qed.

Lemma loop_post_trans i s1 s2 s3 :
  is_stack s2 = is_stack s1 → loop_post i s1 s2 → loop_post i s2 s3 → loop_post i s1 s3.
Proof.
  intros Hs [[??] Hk1 Hs1 Hi1] [[??] Hk2 Hs2 Hi2]. split.
  - split; congruence.
  - by eapply keeps_trans.
  - intros j Hj Hj'. rewrite Hs2, Hs1; congruence.
  - intros j. by rewrite Hi2, Hi1.
Qed.

Lemma loop_post_of_init i c s b s' : init_post c s b s' → loop_post i s s'.
Proof. intros [? ? ? ? _]. split; auto. Qed.

Lemma loop_post_alter i f t s :
  is_trackers s !! i = Some t → mInitialized t = false → shape (f t) = shape t →
  loop_post i s (on_trackers (alter f i) s).
Proof.
  intros Ht Hi Hf. split; simpl.
  - by rewrite length_alter.
  - by eapply keeps_alter.
  - intros j Hj _. by apply list_lookup_alter_ne.
  - intros j. by eapply alter_shape.
Qed.

Lemma visiting_after i op done s c s' :
  visiting i op done s → init_post c s true s' → visiting i op done s'.
Proof.
  intros [Hok Hs (t & cs & Ht & Hi & Hk & Hcs & Hids & Hsub)] [_ Hkeep Hst _ Hsucc].
  destruct (Hsucc eq_refl) as (Hst' & Hok' & _). split; [done|congruence|].
  exists t, cs. rewrite Hst by done. split_and!; try done.
  - by rewrite (ids_of_keeps (is_trackers s)).
  - intros c' Hc'. eapply wf_node_keeps; eauto.
Qed.

Lemma init_children_spec rec i op stk :
  (∀ c s, init_ok s → is_stack s = stk → default false (stk !! c) = false →
     ∃ b s', rec c s = Some (b, s') ∧ init_post c s b s') →
  ∀ todo done s, visiting i op done s → is_stack s = stk →
  ∃ b s', init_children map rec i todo s = Some (b, s') ∧ loop_post i s s' ∧
    (b = true → is_stack s' = stk ∧ visiting i op (done ++ todo) s').
Proof.
  intros Hrec todo. induction todo as [|id todo IH]; intros dn s Hv Hstk; cbn [init_children].
  { exists true, s. rewrite app_nil_r. auto using loop_post_refl. }
  destruct (map !! id) as [c|] eqn:Hm; [|by exists false, s; split_and!; auto using loop_post_refl].
  destruct (default false (is_stack s !! c)) eqn:Hc;
    [by exists false, s; split_and!; auto using loop_post_refl|].
  rewrite Hstk in Hc.
  destruct (Hrec c s (vi_ok _ _ _ _ Hv) Hstk Hc) as (b & s1 & -> & Hp).
  destruct b; [|by exists false, s1; split_and!; eauto using loop_post_of_init].
  destruct (ip_success _ _ _ _ Hp eq_refl) as (Hs1 & _ & Hwf).
  pose proof (visiting_after _ _ _ _ _ _ Hv Hp) as Hv1.
  destruct (vi_node _ _ _ _ Hv1) as (t & cs & Ht & Hi & Hk & _).
  fold (ids_of (is_trackers s1) c).
  destruct (IH (dn ++ [id])
    (on_trackers (alter (push_child c (ids_of (is_trackers s1) c)) i) s1))
    as (b & s2 & -> & Hl & Hb).
  { by apply visiting_push. }
  { simpl. congruence. }
  rewrite <- app_assoc in Hb. exists b, s2. split_and!; [done| |done].
  eapply loop_post_trans; [|by eapply loop_post_of_init|]; [done|].
  eapply loop_post_trans; [| |exact Hl]; [done|]. eapply loop_post_alter; [done|done|].
  unfold shape. by rewrite Hk.
Qed.

(** The state in which the loop over the children of [i] starts. *)
Lemma visiting_start i s t op0 cs0 op :
  init_ok s → is_trackers s !! i = Some t → mKind t = CombinationTracker op0 cs0 →
  mInitialized t = false → is_stack s !! i = Some false →
  visiting i op [] (on_trackers (alter (set_operation op) i) (on_stack i true s)).
Proof.
  intros [Hl Hf Hw] Ht Hk Hi Hs.
  destruct (Hf _ _ _ _ Ht Hk Hi Hs) as [-> Hids].
  assert (Hlt : (i < length (is_stack s))%nat) by by eapply lookup_lt_Some.
  split; simpl.
  - eapply init_ok_alter_stacked; simpl; try done; [|by rewrite list_lookup_insert_eq].
    split; simpl; [by rewrite length_insert| |done].
    intros j t' op' cs'. destruct (decide (i = j)) as [->|].
    + intros _ _ _. by rewrite list_lookup_insert_eq.
    + rewrite list_lookup_insert_ne by done. apply Hf.
  - by rewrite list_lookup_insert_eq.
  - exists (set_operation op t), []. rewrite list_lookup_alter_eq, Ht.
    cbn [fmap option_fmap option_map]. unfold set_operation, tracker_children. rewrite Hk. simpl.
    split_and!; try done. by intros c ?%not_elem_of_nil.
Qed.

(** The end of [init]: the visited combination becomes a well-formed node. *)
Lemma visiting_finish i op s :
  visiting i op (comb_matcher (combinationAt cfg i)) s →
  comb_operation (combinationAt cfg i) = Some op →
  (op = NOT → length (comb_matcher (combinationAt cfg i)) = 1%nat) →
  let s' := on_stack i false (on_trackers (alter set_initialized i) s) in
  init_ok s' ∧ wf_node (is_trackers s') i.
Proof.
  intros [[Hl Hf Hw] Hs (t & cs & Ht & Hi & Hk & Hcs & Hids & Hsub)] Hop Hnot s'.
  assert (Hkeep : keeps (is_trackers s) (is_trackers s')) by by eapply keeps_alter.
  assert (Hlt : (i < length (is_stack s))%nat) by by eapply lookup_lt_Some.
  assert (Hnode : wf_node (is_trackers s') i).
  { eapply (wf_comb _ _ (set_initialized t) op cs); try done; simpl.
    - by rewrite list_lookup_alter_eq, Ht.
    - intros E. rewrite <- (Hnot E). symmetry. by eapply Forall2_length.
    - by rewrite (ids_of_keeps (is_trackers s)).
    - intros c Hc. eapply wf_node_keeps; eauto. }
  split; [|done]. split; simpl.
  - by rewrite length_alter, length_insert.
  - intros j t' op' cs'. destruct (decide (i = j)) as [->|].
    + rewrite list_lookup_alter_eq, Ht. intros [= <-]. done.
    + rewrite list_lookup_alter_ne, list_lookup_insert_ne by done. apply Hf.
  - intros j t' Hj Hinit. destruct (decide (i = j)) as [<-|]; [done|].
    rewrite list_lookup_alter_ne in Hj by done. eapply wf_node_keeps; eauto.
Qed.

Lemma init_post_of_loop i s b s' :
  loop_post i s s' → is_stack s !! i = Some false →
  (b = true → is_stack s' = is_stack s ∧ init_ok s' ∧ wf_node (is_trackers s') i) →
  init_post i s b s'.
Proof.
  intros [Hl Hk Hs Hi] Hst Hb. split; auto. intros j Hj. apply Hs; congruence.
Qed.

(** Between the test of the stack and the loop over the children. *)
Lemma loop_post_start i s t op op0 cs0 :
  is_trackers s !! i = Some t → mInitialized t = false →
  mKind t = CombinationTracker op0 cs0 →
  loop_post i s (on_trackers (alter (set_operation op) i) (on_stack i true s)).
Proof.
  intros Ht Hi Hk. split; simpl.
  - by rewrite length_alter, length_insert.
  - by eapply keeps_alter.
  - intros j Hj _. by apply list_lookup_alter_ne.
  - intros j. eapply alter_shape; [done|]. unfold shape. by rewrite Hk.
Qed.

Lemma loop_post_finish i s0 s1 s2 :
  loop_post i s0 s1 → is_stack s1 = <[i := true]> (is_stack s0) → loop_post i s1 s2 →
  loop_post i s0 s2.
Proof.
  intros [[??] Hk1 Hs1 Hi1] Hst [[??] Hk2 Hs2 Hi2]. split.
  - split; congruence.
  - by eapply keeps_trans.
  - intros j Hj Hj'. rewrite Hs2, Hs1; try done. by rewrite Hst, list_lookup_insert_ne.
  - intros j. by rewrite Hi2, Hi1.
Qed.

Lemma loop_post_end i s f s' t :
  loop_post i s s' → is_trackers s' !! i = Some t → mInitialized t = false →
  shape (f t) = shape t → loop_post i s (on_trackers (alter f i) s').
Proof.
  intros [[??] Hk Hs Hi] Ht Hinit Hf. split; simpl.
  - by rewrite length_alter.
  - eapply keeps_trans; [done|]. by eapply keeps_alter.
  - intros j Hj Hj'. rewrite list_lookup_alter_ne by done. auto.
  - intros j. erewrite alter_shape by done. auto.
Qed.

Lemma loop_post_on_stack i s s' b : loop_post i s s' → loop_post i s (on_stack i b s').
Proof. intros [[??]???]. split; simpl; rewrite ?length_insert; auto. Qed.

(** [init] of a tracker that is not on the stack always returns. *)
Lemma init_spec fuel : ∀ i s,
  init_ok s → default false (is_stack s !! i) = false → (free (is_stack s) < fuel)%nat →
  ∃ b s', init cfg map fuel i s = Some (b, s') ∧ init_post i s b s'.
Proof.
  induction fuel as [|fuel IH]; intros i s Hok Hst Hfuel; [lia|]. cbn [init].
  destruct (is_trackers s !! i) as [t|] eqn:Ht;
    [|by exists false, s; split; [done|split; auto using keeps_refl]].
  destruct (mKind t) as [m|op0 cs0] eqn:Hk.
  { exists (mInitialized t), s. split; [done|]. split; auto using keeps_refl.
    intros Hi. split_and!; try done. by eapply io_init. }
  destruct (mInitialized t) eqn:Hi.
  { exists true, s. split; [done|]. split; auto using keeps_refl.
    intros _. split_and!; try done. by eapply io_init. }
  assert (Hs : is_stack s !! i = Some false).
  { apply lookup_lt_Some in Ht. rewrite <- (io_length _ Hok) in Ht.
    destruct (lookup_lt_is_Some_2 _ _ Ht) as [b Hb]. rewrite Hb in *. by simpl in Hst; subst. }
  assert (Hstack : loop_post i s (on_stack i true s)).
  { split; simpl; [by rewrite length_insert|apply keeps_refl|done|done]. }
  destruct (comb_operation (combinationAt cfg i)) as [op|] eqn:Hop;
    [|by exists false, (on_stack i true s); split; [done|by apply init_post_of_loop]].
  pose proof (loop_post_start i s t op op0 cs0 Ht Hi Hk) as Hl0.
  pose proof (visiting_start _ _ _ _ _ op Hok Ht Hk Hi Hs) as Hv.
  set (s1 := on_trackers _ (on_stack i true s)) in *. destruct (_ && _) eqn:Hnot;
    [by exists false, s1; split; [done|by apply init_post_of_loop]|].
  destruct (init_children_spec (init cfg map fuel) i op (is_stack s1)) with
    (todo := comb_matcher (combinationAt cfg i)) (done := @nil Z) (s := s1)
    as (b & s2 & -> & Hl & Hb); [|done|done|].
  { intros c s' Hok' Hs' Hc. apply IH; rewrite ?Hs'; try done. simpl.
    pose proof (free_set _ _ Hs). lia. }
  assert (Hl2 : loop_post i s s2) by by eapply loop_post_finish.
  destruct b; [|by exists false, s2; split; [done|by apply init_post_of_loop]].
  destruct (Hb eq_refl) as [Hs2 Hv2]. eexists true, _. split; [done|].
  destruct (vi_node _ _ _ _ Hv2) as (t2 & cs2 & Ht2 & Hi2 & Hk2 & _).
  destruct (visiting_finish i op s2 Hv2 Hop) as [Hok3 Hwf3].
  { intros ->. rewrite bool_decide_true in Hnot by done. simpl in Hnot. lia. }
  apply init_post_of_loop; [|done|].
  - apply loop_post_on_stack, (loop_post_end _ _ _ _ t2); try done.
    unfold shape. simpl. by rewrite Hk2.
  - intros _. split_and!; [|done|done]. simpl. rewrite Hs2. simpl.
    by rewrite list_insert_insert_eq, list_insert_id.
Qed.

(** *** Completeness *)

(** A matcher whose whole sub-graph is well configured, hence finite and acyclic. *)
Inductive good (i : nat) : Prop :=
  | good_simple m sm a :
      cfg !! i = Some m → am_contents m = kSimpleAtomMatcher sm → sam_atom_id sm = Some a → good i
  | good_comb m c op :
      cfg !! i = Some m → am_contents m = kCombination c → comb_operation c = Some op →
      (op = NOT → length (comb_matcher c) = 1%nat) →
      (∀ id, id ∈ comb_matcher c → is_Some (map !! id)) →
      (∀ id j, id ∈ comb_matcher c → map !! id = Some j → good j) → good i.

Definition child (i j : nat) : Prop :=
  ∃ id, id ∈ comb_matcher (combinationAt cfg i) ∧ map !! id = Some j.

Lemma combinationAt_eq i m c :
  cfg !! i = Some m → am_contents m = kCombination c → combinationAt cfg i = c.
Proof. intros Hm Hc. unfold combinationAt. rewrite Hm. simpl. by rewrite Hc. Qed.

Lemma good_acyclic i : good i → ¬ tc child i i.
Proof.
  induction 1 as [i m sm a Hm Hc _|i m c op Hm Hc _ _ _ _ IH]; intros Ht.
  - assert (∃ j, child i j) as (j & id & Hid & _) by (inversion Ht; subst; eauto).
    unfold combinationAt in Hid. rewrite Hm in Hid. simpl in Hid. rewrite Hc in Hid.
    by apply not_elem_of_nil in Hid.
  - assert (∃ j, child i j ∧ tc child j j) as (j & (id & Hid & Hj) & Hjj).
    { inversion Ht as [? ? H|? j ? H Hji]; subst; [by exists i|].
      exists j. split; [done|]. by eapply tc_r. }
    rewrite (combinationAt_eq i m c) in Hid by done. by eapply IH.
Qed.

(** The trackers were created from the configuration. *)
Definition from_config (ts : trackers) : Prop :=
  ∀ i m, cfg !! i = Some m → shape <$> ts !! i =
    Some (i, match am_contents m with
             | kSimpleAtomMatcher sm => Some (sm, bool_decide (is_Some (sam_atom_id sm)))
             | _ => None
             end).

Lemma from_config_shape ts ts' :
  (∀ j, shape <$> ts' !! j = shape <$> ts !! j) → from_config ts → from_config ts'.
Proof. intros H Hf i m Hm. rewrite H. auto. Qed.

Lemma init_children_complete rec i op stk :
  (∀ c s, init_ok s → is_stack s = stk → from_config (is_trackers s) → child i c →
     default false (stk !! c) = false ∧ ∃ s', rec c s = Some (true, s') ∧ init_post c s true s') →
  (∀ id, id ∈ comb_matcher (combinationAt cfg i) → is_Some (map !! id)) →
  ∀ todo done s, visiting i op done s → is_stack s = stk → from_config (is_trackers s) →
  (∀ id, id ∈ todo → id ∈ comb_matcher (combinationAt cfg i)) →
  ∃ s', init_children map rec i todo s = Some (true, s').
Proof.
  intros Hrec Hmap todo.
  induction todo as [|id todo IH]; intros dn s Hv Hstk Hfc Htodo; cbn [init_children]; [by eauto|].
  assert (Hid : id ∈ comb_matcher (combinationAt cfg i)) by (apply Htodo; by left).
  destruct (Hmap id Hid) as [c Hc]. rewrite Hc.
  destruct (Hrec c s (vi_ok _ _ _ _ Hv) Hstk Hfc) as (Hst & s1 & -> & Hp); [by exists id|].
  rewrite Hstk, Hst.
  destruct (ip_success _ _ _ _ Hp eq_refl) as (Hs1 & _ & Hwf).
  pose proof (visiting_after _ _ _ _ _ _ Hv Hp) as Hv1.
  destruct (vi_node _ _ _ _ Hv1) as (t & cs & Ht & Hi & Hk & _).
  fold (ids_of (is_trackers s1) c). apply (IH (dn ++ [id])).
  - by apply visiting_push.
  - simpl. congruence.
  - eapply from_config_shape, (from_config_shape (is_trackers s)); [|apply Hp|done].
    intros j. eapply alter_shape; [done|]. unfold shape. by rewrite Hk.
  - intros id' ?. apply Htodo. by right.
Qed.

Lemma init_complete fuel : ∀ i s,
  init_ok s → from_config (is_trackers s) → (free (is_stack s) < fuel)%nat → good i →
  (∀ j, is_stack s !! j = Some true → tc child j i) →
  ∃ s', init cfg map fuel i s = Some (true, s') ∧ init_post i s true s'.
Proof.
  induction fuel as [|fuel IH]; intros i s Hok Hfc Hfuel Hg Hanc; [lia|].
  assert (Hst : default false (is_stack s !! i) = false).
  { destruct (is_stack s !! i) as [[]|] eqn:E; try done. by destruct (good_acyclic i Hg); auto. }
  destruct (init_spec (S fuel) i s Hok Hst Hfuel) as (b & s' & Hinit & Hpost).
  enough (b = true) as -> by eauto.
  cbn [init] in Hinit. destruct Hg as [m sm a Hm Hc Ha|m c op Hm Hc Hop Hnot Hmap Hsub];
    specialize (Hfc i m Hm) as Ht; rewrite Hc in Ht;
    apply fmap_Some in Ht as (t & Ht & Hshape); rewrite Ht in Hinit.
  { unfold shape in Hshape. destruct (mKind t) as [m'|]; [|done].
    rewrite bool_decide_true in Hshape by by rewrite Ha. congruence. }
  destruct (mKind t) as [m'|op0 cs0] eqn:Hk; [by unfold shape in Hshape; rewrite Hk in Hshape|].
  destruct (mInitialized t) eqn:Hi; [congruence|].
  rewrite (combinationAt_eq i m c), Hop in Hinit by done.
  assert (Hs : is_stack s !! i = Some false).
  { apply lookup_lt_Some in Ht. rewrite <- (io_length _ Hok) in Ht.
    destruct (lookup_lt_is_Some_2 _ _ Ht) as [b' Hb]. rewrite Hb in *. by simpl in Hst; subst. }
  pose proof (loop_post_start i s t op op0 cs0 Ht Hi Hk) as Hl0.
  pose proof (visiting_start _ _ _ _ _ op Hok Ht Hk Hi Hs) as Hv.
  set (s1 := on_trackers _ (on_stack i true s)) in *.
  destruct (_ && _) eqn:Hb.
  { exfalso. apply andb_prop in Hb as [Hb1%bool_decide_eq_true Hb2].
    rewrite (Hnot Hb1) in Hb2. done. }
  pose proof (combinationAt_eq i m c Hm Hc) as Hcomb.
  destruct (init_children_complete (init cfg map fuel) i op (is_stack s1)) with
    (todo := comb_matcher c) (done := @nil Z) (s := s1) as (s2 & Hs2);
    [| |done|done| | |rewrite Hs2 in Hinit; congruence].
  - intros c' s3 Hok' Hs' Hfc' Hch. pose proof Hch as (id & Hid & Hcc).
    rewrite Hcomb in Hid.
    assert (Hanc' : ∀ j, is_stack s1 !! j = Some true → tc child j c').
    { intros j. simpl. destruct (decide (i = j)) as [<-|]; [by constructor|].
      rewrite list_lookup_insert_ne by done. intros ?%Hanc. by eapply tc_r. }
    split.
    + destruct (is_stack s1 !! c') as [[]|] eqn:E; try done.
      by destruct (good_acyclic c'); eauto.
    + apply IH; rewrite ?Hs'; eauto. simpl. pose proof (free_set _ _ Hs). lia.
  - by rewrite Hcomb.
  - eapply from_config_shape; [apply Hl0|done].
  - by rewrite Hcomb.
Qed.

(** Every well-formed node comes from a well-configured matcher. *)
Lemma wf_node_good ts i :
  from_config ts → length ts = length cfg → (∀ m, m ∈ cfg → am_contents m ≠ CONTENTS_NOT_SET) →
  wf_node ts i → good i.
Proof.
  intros Hfc Hlen Hset.
  induction 1 as [i t m Ht Hk Hi|i t op cs Ht Hk Hi Hop Hcs Hnot Hids Hsub IH];
    assert (is_Some (cfg !! i)) as [am Ham]
      by (apply lookup_lt_is_Some; rewrite <- Hlen; by eapply lookup_lt_Some);
    pose proof (Hfc i am Ham) as Hsh; rewrite Ht in Hsh; simpl in Hsh; unfold shape in Hsh;
    rewrite Hk in Hsh; destruct (am_contents am) as [sm|c|] eqn:Hc; try done.
  - rewrite Hi in Hsh. injection Hsh as _ -> Hb. symmetry in Hb.
    apply bool_decide_eq_true in Hb as [a Ha]. by eapply good_simple.
  - rewrite (combinationAt_eq i am c) in * by done.
    eapply good_comb; eauto.
    + intros ->. rewrite <- (Hnot eq_refl). by eapply Forall2_length.
    + intros id (k & Hid)%list_elem_of_lookup.
      destruct (Forall2_lookup_l _ _ _ _ _ Hcs Hid) as (j & _ & Hj). eauto.
    + intros id j (k & Hid)%list_elem_of_lookup Hj.
      destruct (Forall2_lookup_l _ _ _ _ _ Hcs Hid) as (j' & Hcsj & Hj').
      apply IH, list_elem_of_lookup. exists k. congruence.
  - apply list_elem_of_lookup_2 in Ham. by destruct (Hset am Ham).
Qed.

(** The loop over all trackers, started with an empty stack. *)
Lemma init_all_spec fuel : ∀ idxs s tags,
  init_ok s → (∀ j, is_stack s !! j ≠ Some true) → (free (is_stack s) < fuel)%nat →
  from_config (is_trackers s) →
  ∃ b s' tags', init_all cfg map fuel idxs s tags = Some (b, s', tags') ∧
    length (is_trackers s') = length (is_trackers s) ∧
    keeps (is_trackers s) (is_trackers s') ∧ from_config (is_trackers s') ∧
    (b = true → Forall (wf_node (is_trackers s')) idxs ∧
      tags' = tags ∪ ⋃ (ids_of (is_trackers s') <$> idxs)) ∧
    (Forall good idxs → b = true).
Proof.
  induction idxs as [|i idxs IH]; intros s tags Hok Hst Hfuel Hfc; cbn [init_all].
  { exists true, s, tags. split_and!; auto using keeps_refl. simpl. split; [done|set_solver]. }
  destruct (init_spec fuel i s) as (b & s1 & Hinit & Hp); try done.
  { by destruct (is_stack s !! i) as [[]|] eqn:E; try done; destruct (Hst i). }
  rewrite Hinit.
  assert (Hfc1 : from_config (is_trackers s1)) by (eapply from_config_shape; [apply Hp|done]).
  destruct (ip_length _ _ _ _ Hp) as [Hlen _]. destruct b.
  - destruct (ip_success _ _ _ _ Hp eq_refl) as (Hs1 & Hok1 & Hwf).
    destruct (IH s1 (tags ∪ ids_of (is_trackers s1) i) Hok1)
      as (b & s2 & tags2 & Hall & Hlen2 & Hk2 & Hfc2 & Hb & Hc); rewrite ?Hs1; try done.
    exists b, s2, tags2. split_and!; try done.
    + congruence.
    + eapply keeps_trans; [apply Hp|done].
    + intros E. destruct (Hb E) as [Hw ->].
      pose proof (wf_node_keeps _ _ _ Hk2 Hwf) as Hwf2. split; [by constructor|].
      pose proof (ids_of_keeps _ _ [i] Hk2) as Hids. simpl in Hids.
      rewrite fmap_cons. simpl.
      assert (ids_of (is_trackers s2) i = ids_of (is_trackers s1) i) as ->; [|set_solver].
      assert (Hone : ∀ c, c ∈ [i] → wf_node (is_trackers s1) c)
        by by intros c ->%list_elem_of_singleton.
      specialize (Hids Hone). congruence.
    + intros Hg. apply Hc. by inversion Hg.
  - exists false, s1, tags. split_and!; try done; [apply Hp|].
    intros Hg. inversion_clear Hg as [|?? Hgi _].
    destruct (init_complete fuel i s) as (s' & Heq & _); try done; congruence.
Qed.
End init_facts.

(** *** Creation *)

(** The trackers [ts] and ids [map] created from the matchers [pre]. *)
Record created (pre : list AtomMatcher) (ts : list AtomMatchingTracker) (map : gmap Z nat) : Prop := {
  cr_length : length ts = length pre;
  cr_nodup : NoDup (am_id <$> pre);
  cr_tracker : ∀ k m, pre !! k = Some m →
    ∃ t, createAtomMatchingTracker m k = Some t ∧ ts !! k = Some t;
  cr_map : ∀ id k, map !! id = Some k ↔ am_id <$> pre !! k = Some id
}.

Lemma created_snoc pre ts map m t :
  created pre ts map → createAtomMatchingTracker m (length pre) = Some t → map !! am_id m = None →
  created (pre ++ [m]) (ts ++ [t]) (<[am_id m := length pre]> map).
Proof.
  intros [Hl Hn Ht Hm] Hc Hnew. split.
  - rewrite !length_app. simpl. lia.
  - rewrite fmap_app. apply NoDup_app. split_and!; [done| |apply NoDup_singleton].
    intros id Hid. simpl. intros ->%list_elem_of_singleton.
    apply list_elem_of_lookup in Hid as [k Hk]. rewrite list_lookup_fmap in Hk.
    apply Hm in Hk. congruence.
  - intros k m' [[_ Hk]|[-> <-]]%lookup_snoc_Some.
    + destruct (Ht k m' Hk) as (t' & ? & ?). exists t'. split; [done|].
      by apply lookup_app_l_Some.
    + exists t. rewrite <- Hl at 2. split; [done|]. by apply list_lookup_middle.
  - intros id k. rewrite fmap_Some. setoid_rewrite lookup_snoc_Some. rewrite lookup_insert_Some.
    split.
    + intros [[<- <-]|[Hid Hk]]; [by eauto|].
      apply Hm, fmap_Some in Hk as (m' & Hk & ->). exists m'. split; [|done]. left.
      split; [by eapply lookup_lt_Some|done].
    + intros (m' & [[_ Hk]|[-> ->]] & ->); [|by left]. right.
      assert (Hk' : map !! am_id m' = Some k) by (apply Hm; by rewrite Hk). split; congruence.
Qed.

(** The creation loop succeeds exactly on matchers with contents and distinct ids. *)
Lemma create_all_spec : ∀ cfg pre ts map,
  created pre ts map →
  match create_all cfg (length pre) ts map with
  | Some (ts', map') => created (pre ++ cfg) ts' map' ∧
      (∀ m, m ∈ cfg → am_contents m ≠ CONTENTS_NOT_SET)
  | None => ¬ ((∀ m, m ∈ cfg → am_contents m ≠ CONTENTS_NOT_SET) ∧ NoDup (am_id <$> pre ++ cfg))
  end.
Proof.
  induction cfg as [|m cfg IH]; intros pre ts map Hc; cbn [create_all].
  { rewrite app_nil_r. split; [done|]. by intros m ?%not_elem_of_nil. }
  destruct (createAtomMatchingTracker m (length pre)) as [t|] eqn:Ht.
  2:{ intros [Hset _]. destruct (Hset m); [by left|].
      unfold createAtomMatchingTracker in Ht. by destruct (am_contents m). }
  destruct (map !! am_id m) as [k|] eqn:Hm.
  { intros [_ Hn]. apply (cr_map _ _ _ Hc) in Hm. rewrite fmap_app, fmap_cons in Hn.
    apply NoDup_app in Hn as (_ & Hdis & _). destruct (Hdis (am_id m)); [|by left].
    apply list_elem_of_lookup. exists k. by rewrite list_lookup_fmap. }
  specialize (IH (pre ++ [m]) (ts ++ [t]) (<[am_id m := length pre]> map)
    (created_snoc _ _ _ _ _ Hc Ht Hm)).
  rewrite length_app, Nat.add_1_r, <- app_assoc in IH. simpl in IH.
  assert (Hcons : (∀ m', m' ∈ m :: cfg → am_contents m' ≠ CONTENTS_NOT_SET) ↔
    (∀ m', m' ∈ cfg → am_contents m' ≠ CONTENTS_NOT_SET)).
  { split; intros H m' Hin; [by apply H; right|]. apply elem_of_cons in Hin as [->|]; [|auto].
    unfold createAtomMatchingTracker in Ht. by destruct (am_contents m). }
  destruct (create_all cfg _ _ _) as [[ts' map']|]; by rewrite Hcons.
Qed.

(** What [initAtomMatchingTrackers] accepts: contents set, distinct ids, and every matcher the
    root of a finite acyclic graph of well-configured matchers. *)
Definition good_config (cfg : list AtomMatcher) : Prop :=
  (∀ m, m ∈ cfg → am_contents m ≠ CONTENTS_NOT_SET) ∧ NoDup (am_id <$> cfg) ∧
  ∀ map : gmap Z nat, (∀ id k, map !! id = Some k ↔ am_id <$> cfg !! k = Some id) →
    ∀ i, (i < length cfg)%nat → good cfg map i.

(** What the creation loop guarantees of the configuration. *)
Definition created_config (cfg : list AtomMatcher) (map : gmap Z nat) : Prop :=
  (∀ m, m ∈ cfg → am_contents m ≠ CONTENTS_NOT_SET) ∧ NoDup (am_id <$> cfg) ∧
  (∀ id k, map !! id = Some k ↔ am_id <$> cfg !! k = Some id).

Lemma created_start cfg map ts :
  created cfg ts map → from_config cfg ts ∧
  init_ok cfg map (mkInit ts (replicate (length ts) false)).
Proof.
  intros [Hl _ Ht _]. split; [|split; simpl].
  - intros i m Hm. destruct (Ht i m Hm) as (t & Hc & ->). cbn [fmap option_fmap option_map].
    unfold createAtomMatchingTracker, SimpleAtomMatchingTracker_new in Hc. unfold shape.
    destruct (am_contents m) as [sm|c|]; simplify_eq; try done.
    by destruct (sam_atom_id sm); simplify_eq.
  - apply length_replicate.
  - intros j t op cs Hj Hk _ _. assert (is_Some (cfg !! j)) as [m Hm].
    { apply lookup_lt_is_Some. rewrite <- Hl. by eapply lookup_lt_Some. }
    destruct (Ht j m Hm) as (t' & Hc & Hj'). simplify_eq.
    unfold createAtomMatchingTracker, SimpleAtomMatchingTracker_new in Hc.
    destruct (am_contents m) as [sm|c|]; simplify_eq; simpl in *; simplify_eq; try done.
    by destruct (sam_atom_id sm); simplify_eq.
  - intros j t Hj Hi. assert (is_Some (cfg !! j)) as [m Hm].
    { apply lookup_lt_is_Some. rewrite <- Hl. by eapply lookup_lt_Some. }
    destruct (Ht j m Hm) as (t' & Hc & Hj'). simplify_eq.
    unfold createAtomMatchingTracker, SimpleAtomMatchingTracker_new in Hc.
    destruct (am_contents m) as [sm|c|]; simplify_eq; try done.
    destruct (sam_atom_id sm) eqn:E; simplify_eq; try done. by eapply wf_simple.
Qed.

Lemma free_replicate n : (free (replicate n false) <= n)%nat.
Proof. etrans; [apply free_le|]. by rewrite length_replicate. Qed.

Lemma created_nil : created [] [] ∅.
Proof.
  split; [done|constructor|done|]. intros id k. rewrite lookup_empty, lookup_nil. done.
Qed.

(** The initialization loop, on the trackers just created. *)
Lemma init_all_created cfg ts map :
  created cfg ts map →
  ∃ b s tags, init_all cfg map (initFuel (length ts)) (seq 0 (length ts))
      (mkInit ts (replicate (length ts) false)) ∅ = Some (b, s, tags) ∧
    length (is_trackers s) = length cfg ∧ from_config cfg (is_trackers s) ∧
    (b = true → (∀ i, (i < length cfg)%nat → wf_node cfg map (is_trackers s) i) ∧
      tags = ⋃ (mAtomIds <$> is_trackers s)) ∧
    ((∀ i, (i < length cfg)%nat → good cfg map i) → b = true).
Proof.
  intros Hcr. destruct (created_start cfg map ts Hcr) as [Hfc Hok].
  destruct (init_all_spec cfg map (initFuel (length ts)) (seq 0 (length ts)) _ ∅ Hok)
    as (b & s & tags & Hall & Hlen & _ & Hfc' & Hb & Hc); simpl; try done.
  { intros j [? _]%lookup_replicate. done. }
  { pose proof (free_replicate (length ts)). unfold initFuel. lia. }
  pose proof (cr_length _ _ _ Hcr) as Hn. simpl in Hlen. rewrite <- Hn. exists b, s, tags.
  split_and!; try done.
  - intros E. destruct (Hb E) as [Hw ->]. split.
    + intros i Hi. rewrite Forall_forall in Hw. apply Hw, elem_of_seq. lia.
    + rewrite union_empty_l_L. f_equal. apply list_eq. intros k. rewrite !list_lookup_fmap.
      destruct (decide (k < length ts)%nat).
      * rewrite lookup_seq_lt by done. simpl. unfold ids_of.
        destruct (lookup_lt_is_Some_2 (is_trackers s) k) as [t ->]; [|done].
        by rewrite Hlen.
      * rewrite lookup_seq_ge, lookup_ge_None_2; [done| |lia].
        rewrite Hlen. lia.
  - intros Hg. apply Hc, Forall_forall. intros i [_ ?]%elem_of_seq. apply Hg. lia.
Qed.

(** What a successful initialization returns. *)
Lemma initAtomMatchingTrackers_Some cfg ts map tags :
  initAtomMatchingTrackers cfg = Some (ts, map, tags) →
  created_config cfg map ∧ length ts = length cfg ∧ from_config cfg ts ∧
  (∀ i, (i < length ts)%nat → wf_node cfg map ts i) ∧ tags = ⋃ (mAtomIds <$> ts).
Proof.
  pose proof (create_all_spec cfg [] [] ∅ created_nil) as Hcr. simpl in Hcr.
  unfold initAtomMatchingTrackers.
  destruct (create_all cfg 0 [] ∅) as [[ts0 map0]|]; [simpl|done].
  destruct Hcr as [Hcr Hset].
  destruct (init_all_created _ _ _ Hcr) as (b & s & tags0 & -> & Hlen & Hfc & Hb & _).
  simpl. destruct b; [|done]. intros [= <- <- <-]. destruct (Hb eq_refl) as [Hwf ->].
  rewrite Hlen. split_and!; try done. by split_and!; try apply Hcr.
Qed.

(** Initialization of the matchers succeeds exactly on well-configured, acyclic
    configurations; it then builds the configured graph (every tracker initialized, with the
    configured operation and children and the union of their atom ids), the map of the ids to
    the positions, and the set of all atom ids of interest.  The recursion never exhausts its
    fuel. *)
Theorem init_trackers_iff_good cfg :
  (∀ ts map, create_all cfg 0 [] ∅ = Some (ts, map) →
     init_all cfg map (initFuel (length ts)) (seq 0 (length ts))
       (mkInit ts (replicate (length ts) false)) ∅ ≠ None) ∧
  match initAtomMatchingTrackers cfg with
  | None => ¬ good_config cfg
  | Some (ts, map, tags) =>
      good_config cfg ∧ length ts = length cfg ∧
      (∀ id k, map !! id = Some k ↔ am_id <$> cfg !! k = Some id) ∧
      (∀ i, (i < length ts)%nat → wf_node cfg map ts i) ∧
      tags = ⋃ (mAtomIds <$> ts)
  end.
Proof.
  pose proof (create_all_spec cfg [] [] ∅ created_nil) as Hcr. simpl in Hcr. split.
  - intros ts map E. rewrite E in Hcr. destruct Hcr as [Hcr _].
    by destruct (init_all_created _ _ _ Hcr) as (b & s & tags & -> & _).
  - destruct (initAtomMatchingTrackers cfg) as [[[ts map] tags]|] eqn:E.
    + apply initAtomMatchingTrackers_Some in E as ((Hset & Hn & Hmap) & Hlen & Hfc & Hwf & Htags).
      split_and!; try done. split_and!; [done|done|]. intros map' Hmap' i Hi.
      assert (map' = map) as ->; [|by eapply wf_node_good; eauto; apply Hwf; lia].
      apply map_eq. intros id. apply option_eq. intros k. by rewrite Hmap', Hmap.
    + intros (Hs & Hn & Hg). unfold initAtomMatchingTrackers in E.
      destruct (create_all cfg 0 [] ∅) as [[ts map]|]; [simpl in E|by apply Hcr].
      destruct Hcr as [Hcr _].
      destruct (init_all_created _ _ _ Hcr) as (b & s & tags & Hall & _ & _ & _ & Hc).
      rewrite Hall, (Hc (Hg map (cr_map _ _ _ Hcr))) in E. done.
Qed.

(** ** Evaluation *)

Section evaluation.
Context {U : Type} `{!UidMapOps U} (uidMap : U).
Context (cfg : list AtomMatcher) (map : gmap Z nat) (ts : list AtomMatchingTracker).
Context (event : LogEvent).
Context (Hindex : ∀ i t, ts !! i = Some t → mIndex t = i).

(** The meaning of tracker [i] on the event, without any cache: a tracker that is not
    interested in the event's atom does not match it. *)
Inductive evals (i : nat) : bool → Prop :=
  | ev_skip t : ts !! i = Some t → GetTagId event ∉ mAtomIds t → evals i false
  | ev_simple t m :
      ts !! i = Some t → GetTagId event ∈ mAtomIds t → mKind t = SimpleTracker m →
      evals i (matchesSimple uidMap m event)
  | ev_comb t op cs bs :
      ts !! i = Some t → GetTagId event ∈ mAtomIds t → mKind t = CombinationTracker op cs →
      length bs = length cs →
      (∀ k c b, cs !! k = Some c → bs !! k = Some b → evals c b) →
      evals i (combine_op op bs).

(** Every computed result is the meaning of its tracker. *)
Definition cache_ok (results : list MatchingState) : Prop :=
  length results = length ts ∧
  ∀ j r, results !! j = Some r → r ≠ kNotComputed → ∃ b, r = toState b ∧ evals j b.

Definition extends (results results' : list MatchingState) : Prop :=
  ∀ j r, results !! j = Some r → r ≠ kNotComputed → results' !! j = Some r.

Lemma is_matched_toState b : is_matched (toState b) = b.
Proof. by destruct b. Qed.

(** [combinationMatch] on computed results is the boolean operation on the meanings. *)
Lemma combinationMatch_combine op cs bs results :
  Forall2 (λ c b, resultAt results c = toState b) cs bs → (op = NOT → length cs = 1%nat) →
  combinationMatch cs op results = combine_op op bs.
Proof.
  intros H Hnot.
  assert (HA : forallb (λ c, is_matched (resultAt results c)) cs = forallb id bs).
  { clear Hnot. induction H as [|c b cs bs Hc _ IH]; [done|]. cbn [forallb].
    by rewrite Hc, is_matched_toState, IH. }
  assert (HE : existsb (λ c, is_matched (resultAt results c)) cs = existsb id bs).
  { clear Hnot HA. induction H as [|c b cs bs Hc _ IH]; [done|]. cbn [existsb].
    by rewrite Hc, is_matched_toState, IH. }
  destruct op; simpl; try done; try congruence.
  - destruct H as [|c b cs bs Hc _]; [by specialize (Hnot eq_refl)|].
    rewrite Hc. by destruct b.
  - clear Hnot HE. rewrite <- HA. clear HA H. induction cs as [|c cs IH]; [done|]. cbn [forallb existsb].
    by rewrite IH, negb_andb.
Qed.

(** [onLogEvent] of tracker [i] with enough fuel: it returns, keeps the computed results and
    the cache consistent, and computes the result of [i]. *)
Definition evaluated (i : nat) (N : nat) : Prop :=
  ∀ fuel results, (N <= fuel)%nat → cache_ok results →
  ∃ results' b, onLogEvent uidMap ts event fuel i results = Some results' ∧
    cache_ok results' ∧ extends results results' ∧
    results' !! i = Some (toState b) ∧ evals i b.

Lemma toState_computed b : toState b ≠ kNotComputed.
Proof. by destruct b. Qed.

Lemma cache_ok_set results i b :
  cache_ok results → evals i b → cache_ok (<[i := toState b]> results).
Proof.
  intros [Hl Hc] He. split; [by rewrite length_insert|]. intros j r.
  rewrite list_lookup_insert_Some. intros [(<- & <- & _)|[_ Hj]]; eauto.
Qed.

Lemma visitChildren_spec rec cs : ∀ results,
  (∀ c results, c ∈ cs → cache_ok results → ∃ results' b, rec c results = Some results' ∧
    cache_ok results' ∧ extends results results' ∧ results' !! c = Some (toState b) ∧ evals c b) →
  cache_ok results → (∀ c, c ∈ cs → (c < length ts)%nat) →
  ∃ results' bs, visitChildren rec cs results = Some results' ∧ cache_ok results' ∧
    extends results results' ∧
    Forall2 (λ c b, results' !! c = Some (toState b) ∧ evals c b) cs bs.
Proof.
  induction cs as [|c cs IH]; intros results Hrec Hok Hlt; cbn [visitChildren].
  { exists results, []. split_and!; try done. by intros j r Hj _. }
  assert (∃ results1 b, (if bool_decide (resultAt results c = kNotComputed)
      then results ← rec c results; visitChildren rec cs results
      else visitChildren rec cs results) = visitChildren rec cs results1 ∧
      cache_ok results1 ∧ extends results results1 ∧ results1 !! c = Some (toState b) ∧ evals c b)
    as (results1 & b & -> & Hok1 & Hext1 & Hc & He).
  { case_bool_decide as Hn.
    - destruct (Hrec c results) as (results1 & b & -> & ?); [by left|done|].
      exists results1, b. done.
    - destruct (lookup_lt_is_Some_2 results c) as [r Hr].
      { rewrite (proj1 Hok). apply Hlt. by left. }
      unfold resultAt in Hn. rewrite Hr in Hn. simpl in Hn.
      destruct (proj2 Hok c r Hr Hn) as (b & -> & He).
      exists results, b. split_and!; try done. by intros ???. }
  destruct (IH results1) as (results2 & bs & -> & Hok2 & Hext2 & Hf); try done.
  { intros; apply Hrec; [by right|done]. }
  { intros; apply Hlt; by right. }
  exists results2, (b :: bs). split_and!; try done.
  - intros j r Hj Hr. auto.
  - constructor; [|done]. split; [|done]. apply Hext2; [done|]. apply toState_computed.
Qed.

Lemma evaluated_all (cs : list nat) :
  (∀ c, c ∈ cs → ∃ N, evaluated c N) → ∃ N, ∀ c, c ∈ cs → evaluated c N.
Proof.
  induction cs as [|c cs IH]; intros H; [by exists 0%nat; intros c ?%not_elem_of_nil|].
  destruct (H c) as [N1 H1]; [by left|]. destruct IH as [N2 H2]; [intros; apply H; by right|].
  exists (N1 `max` N2)%nat. intros c' [->|Hc]%elem_of_cons fuel results Hf.
  - apply H1. lia.
  - apply H2; [done|lia].
Qed.

(** The common prologue of both kinds of trackers. *)
Lemma evaluated_intro i t N :
  ts !! i = Some t →
  (∀ fuel results, (N <= fuel)%nat → cache_ok results → GetTagId event ∈ mAtomIds t →
     resultAt results i = kNotComputed →
     ∃ results' b, onLogEvent uidMap ts event (S fuel) i results =
         Some (<[i := toState b]> results') ∧
       cache_ok results' ∧ extends results results' ∧ evals i b) →
  evaluated i (S N).
Proof.
  intros Ht Hbody [|fuel] results Hf Hok; [lia|].
  assert (Hlt : (i < length results)%nat)
    by (rewrite (proj1 Hok); by eapply lookup_lt_Some).
  destruct (lookup_lt_is_Some_2 results i Hlt) as [r Hr].
  destruct (decide (r = kNotComputed)) as [->|Hn].
  2:{ destruct (proj2 Hok i r Hr Hn) as (b & -> & He). exists results, b. cbn [onLogEvent].
      rewrite Ht, (Hindex i t Ht), bool_decide_false; [by split_and!; try done; intros ???|].
      unfold resultAt. by rewrite Hr. }
  assert (Hra : resultAt results i = kNotComputed) by (unfold resultAt; by rewrite Hr).
  assert (∃ results' b, onLogEvent uidMap ts event (S fuel) i results =
         Some (<[i := toState b]> results') ∧
       cache_ok results' ∧ extends results results' ∧ evals i b)
    as (results' & b & -> & Hok' & Hext & He).
  { destruct (decide (GetTagId event ∈ mAtomIds t)); [by apply Hbody; [lia|..]|].
    exists results, false. cbn [onLogEvent].
    rewrite Ht, (Hindex i t Ht), Hra, bool_decide_true, bool_decide_false by done.
    split_and!; [done|done|by intros ???|by eapply ev_skip]. }
  exists (<[i := toState b]> results'), b. split_and!; try done.
  - by apply cache_ok_set.
  - intros j r Hj Hr'. rewrite list_lookup_insert_ne by congruence. auto.
  - apply list_lookup_insert_eq. by rewrite (proj1 Hok'), <- (proj1 Hok).
Qed.

Lemma wf_node_evaluated i : wf_node cfg map ts i → ∃ N, evaluated i N.
Proof.
  induction 1 as [i t m Ht Hk _|i t op cs Ht Hk _ _ _ Hnot _ Hsub IH].
  - exists 1%nat. eapply evaluated_intro; [done|]. intros fuel results _ Hok Htag Hn.
    exists results, (matchesSimple uidMap m event). cbn [onLogEvent].
    rewrite Ht, (Hindex i t Ht), Hn, !bool_decide_true, Hk by done.
    split_and!; [done|done|by intros ???|by eapply ev_simple].
  - destruct (evaluated_all cs IH) as [N HN]. exists (S N).
    eapply evaluated_intro; [done|]. intros fuel results Hf Hok Htag Hn.
    destruct (visitChildren_spec (onLogEvent uidMap ts event fuel) cs results)
      as (results' & bs & Hvis & Hok' & Hext & Hbs); [intros; by apply HN|done| |].
    { intros c Hc. destruct (wf_node_initialized _ _ _ _ (Hsub c Hc)) as (t' & ? & _).
      by eapply lookup_lt_Some. }
    exists results', (combine_op op bs). cbn [onLogEvent].
    rewrite Ht, (Hindex i t Ht), Hn, !bool_decide_true, Hk by done. cbn [negb].
    rewrite Hvis, (combinationMatch_combine op cs bs); [|
      by eapply Forall2_impl; [done|]; intros c b [Hc _]; unfold resultAt; rewrite Hc|done].
    split_and!; [done|done|done|]. eapply ev_comb; eauto.
    + symmetry. by eapply Forall2_length.
    + intros k c b Hc Hb. by destruct (Forall2_lookup_lr _ _ _ _ _ _ Hbs Hc Hb).
Qed.

Lemma evals_functional i b1 : evals i b1 → ∀ b2, evals i b2 → b1 = b2.
Proof.
  induction 1 as [i t Ht Htag|i t m Ht Htag Hk|i t op cs bs Ht Htag Hk Hl Hsub IH];
    intros b2 H2; destruct H2 as [t' Ht' Htag'|t' m' Ht' Htag' Hk'|t' op' cs' bs' Ht' Htag' Hk' Hl' Hs'];
    rewrite Ht in Ht'; injection Ht' as <-; try done; rewrite Hk in Hk'; try congruence.
  injection Hk' as <- <-. f_equal.
  apply list_eq_same_length with (length cs); [done|done|].
  intros k b b' Hlt Hb Hb'. destruct (lookup_lt_is_Some_2 cs k Hlt) as [c Hc]. eauto.
Qed.

(** All matchers, evaluated in order with one shared cache. *)
Lemma fold_evaluated N :
  (∀ i, (i < length ts)%nat → evaluated i N) →
  ∀ idxs results fuel, (N <= fuel)%nat → cache_ok results →
  (∀ i, i ∈ idxs → (i < length ts)%nat) →
  ∃ results', foldl (λ cache i, matcherCache ← cache; onLogEvent uidMap ts event fuel i matcherCache)
      (Some results) idxs = Some results' ∧ cache_ok results' ∧ extends results results' ∧
    ∀ i, i ∈ idxs → ∃ b, results' !! i = Some (toState b) ∧ evals i b.
Proof.
  intros HN. induction idxs as [|i idxs IH]; intros results fuel Hf Hok Hlt.
  { exists results. split_and!; try done; [by intros ???|by intros i ?%not_elem_of_nil]. }
  cbn [foldl]. destruct (HN i) with fuel results as (results1 & b & Heq & Hok1 & Hext1 & Hb & He);
    [apply Hlt; by left|done|done|].
  simpl. rewrite Heq. destruct (IH results1 fuel) as (results2 & -> & Hok2 & Hext2 & Hall); try done.
  { intros; apply Hlt; by right. }
  exists results2. split_and!; try done.
  - intros j r Hj Hr. auto.
  - intros j [->|Hj]%elem_of_cons; [|auto]. exists b. split; [|done].
    apply Hext2; [done|]. apply toState_computed.
Qed.

Lemma cache_ok_start : cache_ok (replicate (length ts) kNotComputed).
Proof.
  split; [apply length_replicate|]. by intros j r [-> _]%lookup_replicate.
Qed.
End evaluation.

Lemma from_config_index cfg ts :
  from_config cfg ts → length ts = length cfg → ∀ i t, ts !! i = Some t → mIndex t = i.
Proof.
  intros Hfc Hl i t Ht. destruct (lookup_lt_is_Some_2 cfg i) as [m Hm].
  { rewrite <- Hl. by eapply lookup_lt_Some. }
  specialize (Hfc i m Hm). rewrite Ht in Hfc. by injection Hfc.
Qed.

(** C17: on trackers returned by initialization, the evaluation of an event always returns,
    and the shared cache ends with exactly one meaning per matcher: the boolean combination,
    by the configured operations, of the simple matchers.  Evaluating one matcher alone
    ([EventMatcherWizard]) gives the same answer. *)
Theorem matchers_evaluate_configuration {U : Type} `{!UidMapOps U} (uidMap : U)
    cfg ts map tags event :
  initAtomMatchingTrackers cfg = Some (ts, map, tags) →
  ∃ N results, length results = length ts ∧
    (∀ fuel, (N <= fuel)%nat → evaluateAllMatchers uidMap ts event fuel = Some results) ∧
    ∀ i, (i < length ts)%nat → ∃ b, results !! i = Some (toState b) ∧
      (∀ b', evals uidMap ts event i b' ↔ b' = b) ∧
      (∀ fuel, (N <= fuel)%nat →
         matchLogEvent uidMap ts event fuel (Z.of_nat i) = Some (toState b)).
Proof.
  intros (_ & Hl & Hfc & Hwf & _)%initAtomMatchingTrackers_Some.
  pose proof (from_config_index _ _ Hfc Hl) as Hidx.
  destruct (evaluated_all uidMap ts event (seq 0 (length ts))) as [N HN].
  { intros i [_ Hi]%elem_of_seq. eapply wf_node_evaluated; [done|]. by apply Hwf. }
  assert (HN' : ∀ i, (i < length ts)%nat → evaluated uidMap ts event i N).
  { intros i Hi. apply HN, elem_of_seq. lia. }
  assert (Hall : ∀ fuel, (N <= fuel)%nat → ∃ results,
    evaluateAllMatchers uidMap ts event fuel = Some results ∧ cache_ok uidMap ts event results ∧
    ∀ i, (i < length ts)%nat → ∃ b, results !! i = Some (toState b) ∧ evals uidMap ts event i b).
  { intros fuel Hf. destruct (fold_evaluated uidMap ts event N HN' (seq 0 (length ts))
      (replicate (length ts) kNotComputed) fuel Hf) as (results & Heq & Hok & _ & Hres).
    - apply cache_ok_start.
    - intros i ?%elem_of_seq. lia.
    - exists results. split_and!; try done. intros i Hi. apply Hres, elem_of_seq. lia. }
  destruct (Hall N) as (results & _ & [Hlen _] & Hres); [done|].
  exists N, results. split_and!; [done| |].
  - intros fuel Hf. destruct (Hall fuel Hf) as (results' & -> & [Hlen' _] & Hres'). f_equal.
    apply list_eq_same_length with (length ts); [done|done|]. intros i r r' Hi Hr Hr'.
    destruct (Hres i Hi) as (b & Hb & He), (Hres' i Hi) as (b' & Hb' & He').
    pose proof (evals_functional _ _ _ _ _ He _ He'). congruence.
  - intros i Hi. destruct (Hres i Hi) as (b & Hb & He). exists b. split_and!; [done| |].
    + intros b'. split; [|by intros ->]. intros He'. by eapply evals_functional.
    + intros fuel Hf. destruct (HN' i Hi fuel (replicate (length ts) kNotComputed) Hf)
        as (results1 & b1 & Heq & _ & _ & Hb1 & He1); [apply cache_ok_start|].
      unfold matchLogEvent. rewrite (proj2 (Z.ltb_ge _ _)), (proj2 (Z.leb_gt _ _)) by lia.
      simpl. rewrite Nat2Z.id, Heq. simpl. unfold resultAt. rewrite Hb1. simpl.
      by rewrite (evals_functional _ _ _ _ _ He _ He1).
Qed.

(** A uid map without packages, for closed examples. *)
Definition noUidMap : UidMapOps unit :=
  {| sAidToUidMapping _ := None; getAppNamesFromUid _ _ _ := [] |}.

(** Two simple matchers on different atoms, NOT of the first, OR of the negation and the
    second. *)
Definition exampleMatchers : list AtomMatcher :=
  [ mkAtomMatcher 11 (kCombination (mkCombination (Some OR) [12; 14]));
    mkAtomMatcher 12 (kCombination (mkCombination (Some NOT) [13]));
    mkAtomMatcher 13 (kSimpleAtomMatcher (mkSimpleAtomMatcher (Some 5)
      [mkFVM 1 None (kEqInt 3)]));
    mkAtomMatcher 14 (kSimpleAtomMatcher (mkSimpleAtomMatcher (Some 6) [])) ].

(** Atom 5 with the value 4 in field 1. *)
Definition exampleEvent : LogEvent :=
  mkLogEvent 5 1000 100 [FieldValue_of (mkField 5 (getSimpleField 1)) (VINT 4)] (-1) (-1) false.

Lemma matchers_evaluate_configuration_witness :
  ∃ ts map tags, initAtomMatchingTrackers exampleMatchers = Some (ts, map, tags) ∧
  ∃ N results, ∀ fuel, (N <= fuel)%nat →
    @evaluateAllMatchers unit noUidMap tt ts exampleEvent fuel = Some results.
Proof.
  destruct (initAtomMatchingTrackers exampleMatchers) as [[[ts map] tags]|] eqn:E.
  - exists ts, map, tags. split; [done|].
    destruct (@matchers_evaluate_configuration unit noUidMap tt exampleMatchers ts map tags
      exampleEvent E) as (N & results & _ & H & _).
    exists N, results. exact H.
  - exfalso. vm_compute in E. discriminate E.
Defined.

(** The same evaluation run: the negation and the disjunction match, in one pass with the
    shared cache. *)
Example matchers_example_run :
  (match initAtomMatchingTrackers exampleMatchers with
   | Some (ts, _, _) => @evaluateAllMatchers unit noUidMap tt ts exampleEvent 5
   | None => None
   end) = Some [kMatched; kMatched; kNotMatched; kNotMatched].
Proof. by vm_compute. Qed.

(** A cycle is rejected. *)
Example matchers_cycle_rejected :
  initAtomMatchingTrackers
    [ mkAtomMatcher 1 (kCombination (mkCombination (Some NOT) [2]));
      mkAtomMatcher 2 (kCombination (mkCombination (Some NOT) [1])) ] = None.
Proof. by vm_compute. Qed.
