(* ===== verification/Conditions.v ===== *)
(** * Conditions (condition/condition_util.cpp, condition/SimpleConditionTracker.cpp,
      condition/CombinationConditionTracker.cpp, condition/ConditionWizard.cpp,
      condition/ConditionTimer.h, initConditions of
      metrics/parsing_utils/metrics_manager_util.cpp)

    A simple condition counts, per dimension key, the start events that were not yet stopped;
    a combination applies a three-valued logical operation to its children.  The trackers of
    a configuration are a vector of shared objects, so the recursive operations pass the
    vector explicitly and are bounded by fuel. *)
From S2P Require Import Prelude UMap FieldValue DimensionKey Matchers.

(** ** condition_util *)

Inductive ConditionState := kNotEvaluated | kUnknown | kFalse | kTrue.

#[export] Instance ConditionState_eq_dec : EqDecision ConditionState.
Proof. solve_decision. Defined.

(** The numeric values of the enumeration. *)
Definition cs_value (s : ConditionState) : Z :=
  match s with kNotEvaluated => -2 | kUnknown => -1 | kFalse => 0 | kTrue => 1 end.

(** [operator|] *)
Definition cs_or (l r : ConditionState) : ConditionState :=
  if cs_value r <=? cs_value l then l else r.

(** [conditionCache\[i\]] *)
Definition conditionAt (conditionCache : list ConditionState) (i : nat) : ConditionState :=
  default kNotEvaluated (conditionCache !! i).

(** The scan of the children: (hasUnknown, hasFalse, hasTrue); stops at an unknown child. *)
Fixpoint scanChildStates (children : list nat) (conditionCache : list ConditionState)
    (hasFalse hasTrue : bool) : bool * bool * bool :=
  match children with
  | [] => (false, hasFalse, hasTrue)
  | childIndex :: children' =>
      let childState := conditionAt conditionCache childIndex in
      if bool_decide (childState = kUnknown) then (true, hasFalse, hasTrue)
      else
        scanChildStates children' conditionCache
          (hasFalse || bool_decide (childState = kFalse))
          (hasTrue || bool_decide (childState = kTrue))
  end.

Definition evaluateCombinationCondition (children : list nat) (operation : LogicalOperation)
    (conditionCache : list ConditionState) : ConditionState :=
  let '(hasUnknown, hasFalse, hasTrue) := scanChildStates children conditionCache false false in
  if (hasUnknown : bool) then kUnknown
  else
    match operation with
    | AND => if (hasFalse : bool) then kFalse else kTrue
    | OR => if (hasTrue : bool) then kTrue else kFalse
    | NOT =>
        match children with
        | [] => kUnknown
        | c :: _ => if bool_decide (conditionAt conditionCache c = kFalse) then kTrue else kFalse
        end
    | NAND => if hasFalse then kTrue else kFalse
    | NOR => if hasTrue then kFalse else kTrue
    | LOGICAL_OPERATION_UNSPECIFIED => kFalse
    end.

(** ** Configuration (Predicate messages); the getters with a default are plain fields *)

Inductive InitialValue := InitialValue_UNKNOWN | InitialValue_FALSE.

Record SimplePredicate := mkSimplePredicate {
  sp_start : option Z; sp_stop : option Z; sp_count_nesting : bool; sp_stop_all : option Z;
  sp_initial_value : InitialValue; sp_dimensions : option FieldMatcher
}.

Record Predicate_Combination := mkPredicateCombination {
  pc_operation : option LogicalOperation; pc_predicate : list Z
}.

Inductive PredicateContents :=
  | kSimplePredicate (p : SimplePredicate)
  | kPredicateCombination (c : Predicate_Combination)
  | PREDICATE_NOT_SET.

Record Predicate := mkPredicate { pr_id : Z; pr_contents : PredicateContents }.

(** ** SimpleConditionTracker *)

Record SimpleConditionTracker := mkSimple {
  sc_id : Z;
  sc_index : nat;
  sc_trackerIndex : gset Z;
  sc_sliced : bool;
  mStartLogMatcherIndex : Z;
  mStopLogMatcherIndex : Z;
  mCountNesting : bool;
  mStopAllLogMatcherIndex : Z;
  mInitialValue : ConditionState;
  mOutputDimensions : list Matcher;
  mContainANYPositionInInternalDimensions : bool;
  mLastChangedToTrueDimensions : list HashableDimensionKey;
  mLastChangedToFalseDimensions : list HashableDimensionKey;
  mSlicedConditionState : umap HashableDimensionKey Z
}.

Definition set_indices (start stop stopAll : Z) (trackers : gset Z) (t : SimpleConditionTracker) :=
  mkSimple (sc_id t) (sc_index t) trackers (sc_sliced t) start stop (mCountNesting t) stopAll
    (mInitialValue t) (mOutputDimensions t) (mContainANYPositionInInternalDimensions t)
    (mLastChangedToTrueDimensions t) (mLastChangedToFalseDimensions t) (mSlicedConditionState t).

Definition set_changed (toTrue toFalse : list HashableDimensionKey) (t : SimpleConditionTracker) :=
  mkSimple (sc_id t) (sc_index t) (sc_trackerIndex t) (sc_sliced t) (mStartLogMatcherIndex t)
    (mStopLogMatcherIndex t) (mCountNesting t) (mStopAllLogMatcherIndex t) (mInitialValue t)
    (mOutputDimensions t) (mContainANYPositionInInternalDimensions t) toTrue toFalse
    (mSlicedConditionState t).

Definition set_states (initial : ConditionState) (states : umap HashableDimensionKey Z)
    (t : SimpleConditionTracker) :=
  mkSimple (sc_id t) (sc_index t) (sc_trackerIndex t) (sc_sliced t) (mStartLogMatcherIndex t)
    (mStopLogMatcherIndex t) (mCountNesting t) (mStopAllLogMatcherIndex t) initial
    (mOutputDimensions t) (mContainANYPositionInInternalDimensions t)
    (mLastChangedToTrueDimensions t) (mLastChangedToFalseDimensions t) states.

Definition set_sc_index (index : nat) (t : SimpleConditionTracker) :=
  mkSimple (sc_id t) index (sc_trackerIndex t) (sc_sliced t) (mStartLogMatcherIndex t)
    (mStopLogMatcherIndex t) (mCountNesting t) (mStopAllLogMatcherIndex t) (mInitialValue t)
    (mOutputDimensions t) (mContainANYPositionInInternalDimensions t)
    (mLastChangedToTrueDimensions t) (mLastChangedToFalseDimensions t) (mSlicedConditionState t).

Definition changedToTrue (k : HashableDimensionKey) (t : SimpleConditionTracker) :=
  set_changed (us_insert k (mLastChangedToTrueDimensions t)) (mLastChangedToFalseDimensions t) t.

Definition changedToFalse (k : HashableDimensionKey) (t : SimpleConditionTracker) :=
  set_changed (mLastChangedToTrueDimensions t) (us_insert k (mLastChangedToFalseDimensions t)) t.

(** [setMatcherIndices]: an unknown matcher id leaves the remaining indices as they were. *)
Definition setMatcherIndices (p : SimplePredicate) (atomMatchingTrackerMap : gmap Z nat)
    (t : SimpleConditionTracker) : SimpleConditionTracker :=
  let find id := (Z.of_nat <$> atomMatchingTrackerMap !! id) : option Z in
  let t := set_indices (mStartLogMatcherIndex t) (mStopLogMatcherIndex t)
             (mStopAllLogMatcherIndex t) ∅ t in
  let stopAll (t : SimpleConditionTracker) :=
    match sp_stop_all p with
    | None => set_indices (mStartLogMatcherIndex t) (mStopLogMatcherIndex t) (-1)
                (sc_trackerIndex t) t
    | Some id =>
        match find id with
        | None => t
        | Some i => set_indices (mStartLogMatcherIndex t) (mStopLogMatcherIndex t) i
                      (sc_trackerIndex t ∪ {[i]}) t
        end
    end in
  let stop (t : SimpleConditionTracker) :=
    match sp_stop p with
    | None => stopAll (set_indices (mStartLogMatcherIndex t) (-1) (mStopAllLogMatcherIndex t)
                         (sc_trackerIndex t) t)
    | Some id =>
        match find id with
        | None => t
        | Some i => stopAll (set_indices (mStartLogMatcherIndex t) i (mStopAllLogMatcherIndex t)
                               (sc_trackerIndex t ∪ {[i]}) t)
        end
    end in
  match sp_start p with
  | None => stop (set_indices (-1) (mStopLogMatcherIndex t) (mStopAllLogMatcherIndex t)
                    (sc_trackerIndex t) t)
  | Some id =>
      match find id with
      | None => t
      | Some i => stop (set_indices i (mStopLogMatcherIndex t) (mStopAllLogMatcherIndex t)
                          (sc_trackerIndex t ∪ {[i]}) t)
      end
  end.

(** The constructor; [uninit] are the indeterminate values of the three indices, which
    [setMatcherIndices] does not set when a matcher is missing. *)
Definition SimpleConditionTracker_new (uninit : Z * Z * Z) (id : Z) (index : nat)
    (p : SimplePredicate) (atomMatchingTrackerMap : gmap Z nat) : SimpleConditionTracker :=
  let dims := match sp_dimensions p with Some d => translateFieldMatcher d | None => [] end in
  let any := match sp_dimensions p with Some d => HasPositionANY d | None => false end in
  let initial :=
    match sp_initial_value p with
    | InitialValue_FALSE => kFalse
    | InitialValue_UNKNOWN => kUnknown
    end in
  let '(u1, u2, u3) := uninit in
  setMatcherIndices p atomMatchingTrackerMap
    (mkSimple id index ∅ (0 <? Z.of_nat (length dims)) u1 u2 (sp_count_nesting p) u3 initial
       dims any [] [] []).

Definition SimpleConditionTracker_onConfigUpdated (p : SimplePredicate) (index : nat)
    (atomMatchingTrackerMap : gmap Z nat) (t : SimpleConditionTracker)
    : bool * SimpleConditionTracker :=
  (true, setMatcherIndices p atomMatchingTrackerMap (set_sc_index index t)).

Definition kDimensionKeySizeSoftLimit : Z := 500.
Definition kDimensionKeySizeHardLimit : Z := 800.

Definition size {K V} (m : umap K V) : Z := Z.of_nat (length m).

(** [hitGuardRail] *)
Definition hitGuardRail (newKey : HashableDimensionKey) (t : SimpleConditionTracker) : bool :=
  if negb (sc_sliced t) || um_mem newKey (mSlicedConditionState t) then false
  else if kDimensionKeySizeSoftLimit - 1 <? size (mSlicedConditionState t) then
    let newTupleCount := size (mSlicedConditionState t) + 1 in
    kDimensionKeySizeHardLimit <? newTupleCount
  else false.

(** [handleStopAll]: the tracker, its condition and whether it changed. *)
Definition handleStopAll (t : SimpleConditionTracker)
    : SimpleConditionTracker * ConditionState * bool :=
  let changed :=
    if bool_decide (mInitialValue t = kFalse) && (size (mSlicedConditionState t) =? 0)
    then false else true in
  let stopped := List.filter (λ cond, 0 <? cond.2) (mSlicedConditionState t) in
  let toFalse := foldl (λ s cond, us_insert cond.1 s) (mLastChangedToFalseDimensions t) stopped in
  (set_states kFalse [] (set_changed (mLastChangedToTrueDimensions t) toFalse t), kFalse, changed).

(** [handleConditionEvent]: the tracker, [*conditionCache] and [*conditionChangedCache]. *)
Definition handleConditionEvent (outputKey : HashableDimensionKey) (matchStart : bool)
    (t : SimpleConditionTracker) : SimpleConditionTracker * ConditionState * bool :=
  let states := mSlicedConditionState t in
  let initial := mInitialValue t in
  if hitGuardRail outputKey t then (t, kUnknown, false)
  else
    match um_find outputKey states with
    | None =>
        let newCondition := if matchStart then kTrue else kFalse in
        if matchStart && negb (bool_decide (initial = kTrue)) then
          (changedToTrue outputKey (set_states initial (um_set outputKey 1 states) t),
           newCondition, true)
        else if negb (bool_decide (initial = kFalse)) then
          (changedToFalse outputKey (set_states initial (um_set outputKey 0 states) t),
           newCondition, true)
        else (t, newCondition, false)
    | Some startedCount =>
        let newCondition := if 0 <? startedCount then kTrue else kFalse in
        if matchStart then
          let t1 := if startedCount =? 0 then changedToTrue outputKey t else t in
          (set_states initial (um_set outputKey (startedCount + 1) states) t1, kTrue,
           startedCount =? 0)
        else
          let count := if 0 <? startedCount
                       then if mCountNesting t then startedCount - 1 else 0
                       else startedCount in
          let newCondition :=
            if (0 <? startedCount) && (count =? 0) then kFalse else newCondition in
          let changed := (0 <? startedCount) && (count =? 0) in
          let t1 := if changed then changedToFalse outputKey t else t in
          let states :=
            if bool_decide (initial = kFalse) && (count =? 0) then um_erase outputKey states
            else um_set outputKey count states in
          (set_states initial states t1, newCondition, changed)
    end.

(** The caches [evaluateCondition] fills. *)
Record EvalCaches := mkCaches { ec_condition : list ConditionState; ec_changed : list bool }.

Definition set_caches (i : nat) (s : ConditionState) (b : bool) (c : EvalCaches) : EvalCaches :=
  mkCaches (<[i := s]> (ec_condition c)) (<[i := b]> (ec_changed c)).

(** A matcher index that is set and matched. *)
Definition matchedAt (eventMatcherValues : list MatchingState) (i : Z) : bool :=
  (0 <=? i) && is_matched (resultAt eventMatcherValues (Z.to_nat i)).

(** The condition reported when the event is not for this tracker. *)
Definition currentCondition (t : SimpleConditionTracker) : ConditionState :=
  if sc_sliced t then
    if existsb (λ slicedCondition, 0 <? slicedCondition.2) (mSlicedConditionState t)
    then kTrue else mInitialValue t
  else
    match um_find DEFAULT_DIMENSION_KEY (mSlicedConditionState t) with
    | None => mInitialValue t
    | Some count => if 0 <? count then kTrue else kFalse
    end.

(** [SimpleConditionTracker::evaluateCondition] *)
Definition evaluateSimple (event : LogEvent) (eventMatcherValues : list MatchingState)
    (t : SimpleConditionTracker) (c : EvalCaches) : SimpleConditionTracker * EvalCaches :=
  let i := sc_index t in
  if negb (bool_decide (conditionAt (ec_condition c) i = kNotEvaluated)) then (t, c)
  else
    let t := set_changed [] [] t in
    if matchedAt eventMatcherValues (mStopAllLogMatcherIndex t)
       && (mStopAllLogMatcherIndex t <? Z.of_nat (length eventMatcherValues))
    then
      let '(t, state, changed) := handleStopAll t in (t, set_caches i state changed c)
    else
      let matchedState :=
        if matchedAt eventMatcherValues (mStopLogMatcherIndex t) then 0
        else if matchedAt eventMatcherValues (mStartLogMatcherIndex t) then 1 else -1 in
      if matchedState <? 0 then (t, set_caches i (currentCondition t) false c)
      else
        let '(t, overallState, overallChanged) :=
          if Z.of_nat (length (mOutputDimensions t)) =? 0 then
            handleConditionEvent DEFAULT_DIMENSION_KEY (matchedState =? 1) t
          else if negb (mContainANYPositionInInternalDimensions t) then
            let outputValue :=
              (filterValues (mOutputDimensions t) (getValues event) (mkKey [])).2 in
            handleConditionEvent outputValue (matchedState =? 1) t
          else (t, mInitialValue t, false) in
        (t, set_caches i overallState overallChanged c).

(** A query by condition id (ConditionKey). *)
Definition ConditionKey := gmap Z HashableDimensionKey.

Definition sliceState (count : Z) : ConditionState := if 0 <? count then kTrue else kFalse.

(** The state [SimpleConditionTracker::isConditionMet] computes for its cache entry. *)
Definition simpleConditionFor (conditionParameters : ConditionKey) (isPartialLink : bool)
    (t : SimpleConditionTracker) : ConditionState :=
  let conditionState := cs_or kNotEvaluated (mInitialValue t) in
  let merge found :=
    match found with
    | Some count => cs_or conditionState (sliceState count)
    | None => conditionState
    end in
  match conditionParameters !! sc_id t with
  | None =>
      if negb (sc_sliced t) then merge (um_find DEFAULT_DIMENSION_KEY (mSlicedConditionState t))
      else conditionState
  | Some key =>
      if isPartialLink then
        foldl (λ state slice,
                 if contains slice.1 key then cs_or state (sliceState slice.2) else state)
          conditionState (mSlicedConditionState t)
      else merge (um_find key (mSlicedConditionState t))
  end.

Definition isConditionMet_simple (conditionParameters : ConditionKey) (isPartialLink : bool)
    (t : SimpleConditionTracker) (conditionCache : list ConditionState) : list ConditionState :=
  if negb (bool_decide (conditionAt conditionCache (sc_index t) = kNotEvaluated))
  then conditionCache
  else <[sc_index t := simpleConditionFor conditionParameters isPartialLink t]> conditionCache.

(** ** Condition trackers *)

Record CombinationConditionTracker := mkComb {
  cc_id : Z;
  cc_index : nat;
  cc_initialized : bool;
  cc_trackerIndex : gset Z;
  mUnSlicedPartCondition : ConditionState;
  cc_sliced : bool;
  mLogicalOperation : LogicalOperation;
  mChildren : list nat;
  mSlicedChildren : list nat;
  mUnSlicedChildren : list nat
}.

Inductive ConditionTracker :=
  | SimpleCondition (t : SimpleConditionTracker)
  | CombinationCondition (t : CombinationConditionTracker).

Definition getIndex (t : ConditionTracker) : nat :=
  match t with SimpleCondition t => sc_index t | CombinationCondition t => cc_index t end.

Definition isSliced (t : ConditionTracker) : bool :=
  match t with SimpleCondition t => sc_sliced t | CombinationCondition t => cc_sliced t end.

Definition getAtomMatchingTrackerIndex (t : ConditionTracker) : gset Z :=
  match t with
  | SimpleCondition t => sc_trackerIndex t
  | CombinationCondition t => cc_trackerIndex t
  end.

(** [mLogicalOperation] is not initialized by the constructor. *)
Definition CombinationConditionTracker_new (id : Z) (index : nat) : CombinationConditionTracker :=
  mkComb id index false ∅ kUnknown false LOGICAL_OPERATION_UNSPECIFIED [] [] [].

Definition set_cc_operation (op : LogicalOperation) (t : CombinationConditionTracker) :=
  mkComb (cc_id t) (cc_index t) (cc_initialized t) (cc_trackerIndex t) (mUnSlicedPartCondition t)
    (cc_sliced t) op (mChildren t) (mSlicedChildren t) (mUnSlicedChildren t).

(** A visited child: its slicing, its index and its matcher indices are recorded. *)
Definition push_condition_child (childIndex : nat) (childSliced setsSliced : bool)
    (childTrackers : gset Z) (t : CombinationConditionTracker) :=
  mkComb (cc_id t) (cc_index t) (cc_initialized t) (cc_trackerIndex t ∪ childTrackers)
    (mUnSlicedPartCondition t) (cc_sliced t || setsSliced) (mLogicalOperation t)
    (mChildren t ++ [childIndex])
    (if childSliced then mSlicedChildren t ++ [childIndex] else mSlicedChildren t)
    (if childSliced then mUnSlicedChildren t else mUnSlicedChildren t ++ [childIndex]).

Definition set_unsliced (s : ConditionState) (initialized : bool) (t : CombinationConditionTracker) :=
  mkComb (cc_id t) (cc_index t) initialized (cc_trackerIndex t) s (cc_sliced t)
    (mLogicalOperation t) (mChildren t) (mSlicedChildren t) (mUnSlicedChildren t).

(** What [onConfigUpdated] resets before it visits the children again. *)
Definition reset_children (index : nat) (t : CombinationConditionTracker) :=
  mkComb (cc_id t) index (cc_initialized t) ∅ (mUnSlicedPartCondition t) (cc_sliced t)
    (mLogicalOperation t) [] [] [].

Definition on_comb (f : CombinationConditionTracker → CombinationConditionTracker)
    (t : ConditionTracker) : ConditionTracker :=
  match t with CombinationCondition c => CombinationCondition (f c) | SimpleCondition _ => t end.

Definition childAt (ts : list ConditionTracker) (i : nat) : bool * gset Z :=
  match ts !! i with
  | Some t => (isSliced t, getAtomMatchingTrackerIndex t)
  | None => (false, ∅)
  end.

(** *** init *)

Record CondInitState := mkCondInit {
  ci_trackers : list ConditionTracker; ci_stack : list bool; ci_cache : list ConditionState
}.

Definition ci_on_trackers (f : list ConditionTracker → list ConditionTracker) (s : CondInitState) :=
  mkCondInit (f (ci_trackers s)) (ci_stack s) (ci_cache s).
Definition ci_set_stack (i : nat) (b : bool) (s : CondInitState) :=
  mkCondInit (ci_trackers s) (<[i := b]> (ci_stack s)) (ci_cache s).
Definition ci_set_cache (i : nat) (v : ConditionState) (s : CondInitState) :=
  mkCondInit (ci_trackers s) (ci_stack s) (<[i := v]> (ci_cache s)).

Definition predicateCombinationAt (cfg : list Predicate) (i : nat) : Predicate_Combination :=
  match pr_contents <$> cfg !! i with
  | Some (kPredicateCombination c) => c
  | _ => mkPredicateCombination None []
  end.

Definition predicateSimpleAt (cfg : list Predicate) (i : nat) : SimplePredicate :=
  match pr_contents <$> cfg !! i with
  | Some (kSimplePredicate p) => p
  | _ => mkSimplePredicate None None true None InitialValue_UNKNOWN None
  end.

Section condition_init.
Context (allConditionConfig : list Predicate) (conditionIdIndexMap : gmap Z nat).

(** [SimpleConditionTracker::init]: queries itself with the default key. *)
Definition initSimple (t : SimpleConditionTracker) (s : CondInitState) : bool * CondInitState :=
  let conditionKey : ConditionKey :=
    if sc_sliced t then {[ sc_id t := DEFAULT_DIMENSION_KEY ]} else ∅ in
  (true, mkCondInit (ci_trackers s) (ci_stack s)
           (isConditionMet_simple conditionKey (sc_sliced t) t (ci_cache s))).

(** The loop of an initialized combination, which only fills the cache. *)
Fixpoint refreshChildren (rec : nat → CondInitState → option (bool * CondInitState))
    (cs : list nat) (s : CondInitState) : option CondInitState :=
  match cs with
  | [] => Some s
  | c :: cs' =>
      if bool_decide (conditionAt (ci_cache s) c = kNotEvaluated) then
        '(_, s) ← rec c s; refreshChildren rec cs' s
      else refreshChildren rec cs' s
  end.

Fixpoint initConditionChildren (rec : nat → CondInitState → option (bool * CondInitState))
    (i : nat) (children : list Z) (s : CondInitState) : option (bool * CondInitState) :=
  match children with
  | [] => Some (true, s)
  | child :: children' =>
      match conditionIdIndexMap !! child with
      | None => Some (false, s)
      | Some childIndex =>
          if default false (ci_stack s !! childIndex) then Some (false, s)
          else
            match rec childIndex s with
            | None => None
            | Some (false, s) => Some (false, s)
            | Some (true, s) =>
                let '(sliced, trackers) := childAt (ci_trackers s) childIndex in
                initConditionChildren rec i children'
                  (ci_on_trackers
                     (alter (on_comb (push_condition_child childIndex sliced sliced trackers)) i) s)
            end
      end
  end.

(** [ConditionTracker::init] of tracker [i]; [None]: out of fuel. *)
Fixpoint initCondition (fuel : nat) (i : nat) (s : CondInitState)
    : option (bool * CondInitState) :=
  match fuel with
  | O => None
  | S fuel =>
      match ci_trackers s !! i with
      | None => Some (false, s)
      | Some (SimpleCondition t) => Some (initSimple t s)
      | Some (CombinationCondition t) =>
          if cc_initialized t then
            s ← refreshChildren (initCondition fuel) (mChildren t) s;
            let state :=
              evaluateCombinationCondition (mChildren t) (mLogicalOperation t) (ci_cache s) in
            Some (true, ci_set_cache i state s)
          else
            let s := ci_set_stack i true s in
            let combination := predicateCombinationAt allConditionConfig i in
            match pc_operation combination with
            | None => Some (false, s)
            | Some op =>
                let s := ci_on_trackers (alter (on_comb (set_cc_operation op)) i) s in
                if bool_decide (op = NOT)
                   && negb (Z.of_nat (length (pc_predicate combination)) =? 1)
                then Some (false, s)
                else
                  match initConditionChildren (initCondition fuel) i (pc_predicate combination) s with
                  | None => None
                  | Some (false, s) => Some (false, s)
                  | Some (true, s) =>
                      match ci_trackers s !! i with
                      | Some (CombinationCondition t) =>
                          let unsliced :=
                            evaluateCombinationCondition (mUnSlicedChildren t)
                              (mLogicalOperation t) (ci_cache s) in
                          let state :=
                            evaluateCombinationCondition (mChildren t) (mLogicalOperation t)
                              (ci_cache s) in
                          let s := ci_on_trackers (alter (on_comb (set_unsliced unsliced true)) i) s in
                          Some (true, ci_set_stack i false (ci_set_cache i state s))
                      | _ => Some (false, s)
                      end
                  end
            end
      end
  end.
End condition_init.

Definition createConditionTracker (uninit : Z * Z * Z) (predicate : Predicate) (index : nat)
    (atomMatchingTrackerMap : gmap Z nat) : option ConditionTracker :=
  match pr_contents predicate with
  | kSimplePredicate p =>
      Some (SimpleCondition
              (SimpleConditionTracker_new uninit (pr_id predicate) index p atomMatchingTrackerMap))
  | kPredicateCombination _ =>
      Some (CombinationCondition (CombinationConditionTracker_new (pr_id predicate) index))
  | PREDICATE_NOT_SET => None
  end.

Fixpoint createConditions (uninit : Z * Z * Z) (atomMatchingTrackerMap : gmap Z nat)
    (configs : list Predicate) (i : nat) (trackers : list ConditionTracker) (map : gmap Z nat)
    : option (list ConditionTracker * gmap Z nat) :=
  match configs with
  | [] => Some (trackers, map)
  | p :: configs' =>
      match createConditionTracker uninit p i atomMatchingTrackerMap with
      | None => None
      | Some t =>
          match map !! pr_id p with
          | Some _ => None
          | None =>
              createConditions uninit atomMatchingTrackerMap configs' (S i) (trackers ++ [t])
                (<[pr_id p := i]> map)
          end
      end
  end.

(** [trackerToConditionMap\[trackerIndex\].push_back(i)] for every matcher of tracker [i]. *)
Definition addTrackerToCondition (i : nat) (m : gmap Z (list nat)) (trackerIndex : Z)
    : gmap Z (list nat) :=
  <[trackerIndex := default [] (m !! trackerIndex) ++ [i]]> m.

Fixpoint initAllConditions (cfg : list Predicate) (map : gmap Z nat) (fuel : nat) (idxs : list nat)
    (s : CondInitState) (trackerToConditionMap : gmap Z (list nat))
    : option (bool * CondInitState * gmap Z (list nat)) :=
  match idxs with
  | [] => Some (true, s, trackerToConditionMap)
  | i :: idxs' =>
      match initCondition cfg map fuel i s with
      | None => None
      | Some (false, s) => Some (false, s, trackerToConditionMap)
      | Some (true, s) =>
          initAllConditions cfg map fuel idxs' s
            (foldl (addTrackerToCondition i) trackerToConditionMap
               (elements (childAt (ci_trackers s) i).2))
      end
  end.

(** [initConditions]: trackers, id map, matcher-to-condition map and initial conditions. *)
Definition initConditions (uninit : Z * Z * Z) (config : list Predicate)
    (atomMatchingTrackerMap : gmap Z nat) (fuel : nat)
    : option (list ConditionTracker * gmap Z nat * gmap Z (list nat) * list ConditionState) :=
  '(trackers, map) ← createConditions uninit atomMatchingTrackerMap config 0 [] ∅;
  let n := length trackers in
  '(ok, s, trackerToConditionMap) ←
     initAllConditions config map fuel (seq 0 n)
       (mkCondInit trackers (replicate n false) (replicate n kNotEvaluated)) ∅;
  if (ok : bool) then Some (ci_trackers s, map, trackerToConditionMap, ci_cache s) else None.

(** *** onConfigUpdated *)
Section condition_update.
Context (allConditionProtos : list Predicate).
Context (atomMatchingTrackerMap conditionTrackerMap : gmap Z nat).

Fixpoint updateChildren
    (rec : nat → list ConditionTracker → option (bool * list ConditionTracker))
    (i : nat) (children : list Z) (ts : list ConditionTracker)
    : option (bool * list ConditionTracker) :=
  match children with
  | [] => Some (true, ts)
  | child :: children' =>
      match conditionTrackerMap !! child with
      | None => Some (false, ts)
      | Some childIndex =>
          match rec childIndex ts with
          | None => None
          | Some (false, ts) => Some (false, ts)
          | Some (true, ts) =>
              let '(sliced, trackers) := childAt ts childIndex in
              updateChildren rec i children'
                (alter (on_comb (push_condition_child childIndex sliced false trackers)) i ts)
          end
      end
  end.

(** [ConditionTracker::onConfigUpdated] of the tracker at [i], which becomes its index. *)
Fixpoint onConditionConfigUpdated (fuel : nat) (i : nat) (ts : list ConditionTracker)
    : option (bool * list ConditionTracker) :=
  match fuel with
  | O => None
  | S fuel =>
      match ts !! i with
      | None => Some (false, ts)
      | Some (SimpleCondition t) =>
          let '(ok, t) :=
            SimpleConditionTracker_onConfigUpdated (predicateSimpleAt allConditionProtos i) i
              atomMatchingTrackerMap t in
          Some (ok, <[i := SimpleCondition t]> ts)
      | Some (CombinationCondition t) =>
          updateChildren (onConditionConfigUpdated fuel) i
            (pc_predicate (predicateCombinationAt allConditionProtos i))
            (<[i := CombinationCondition (reset_children i t)]> ts)
      end
  end.
End condition_update.

(** *** evaluateCondition *)
Section evaluate.
Context (event : LogEvent) (eventMatcherValues : list MatchingState).
Notation state := (list ConditionTracker * EvalCaches)%type.

Fixpoint evaluateChildren (rec : nat → state → option state) (cs : list nat) (s : state)
    : option state :=
  match cs with
  | [] => Some s
  | c :: cs' =>
      if bool_decide (conditionAt (ec_condition s.2) c = kNotEvaluated) then
        s ← rec c s; evaluateChildren rec cs' s
      else evaluateChildren rec cs' s
  end.

(** The end of [CombinationConditionTracker::evaluateCondition]. *)
Definition finishCombination (i : nat) (t : CombinationConditionTracker) (s : state) : state :=
  let '(ts, c) := s in
  let newCondition :=
    evaluateCombinationCondition (mChildren t) (mLogicalOperation t) (ec_condition c) in
  if negb (cc_sliced t) then
    let nonSlicedChanged := negb (bool_decide (mUnSlicedPartCondition t = newCondition)) in
    (alter (on_comb (set_unsliced newCondition (cc_initialized t))) i ts,
     set_caches (cc_index t) newCondition nonSlicedChanged c)
  else
    let unsliced :=
      evaluateCombinationCondition (mUnSlicedChildren t) (mLogicalOperation t) (ec_condition c) in
    let changed :=
      if existsb (λ childIndex, default false (ec_changed c !! childIndex)) (mChildren t)
      then <[cc_index t := true]> (ec_changed c) else ec_changed c in
    (alter (on_comb (set_unsliced unsliced (cc_initialized t))) i ts,
     mkCaches (<[cc_index t := newCondition]> (ec_condition c)) changed).

(** [ConditionTracker::evaluateCondition] of tracker [i]; [None]: out of fuel. *)
Fixpoint evaluateCondition (fuel : nat) (i : nat) (s : state) : option state :=
  match fuel with
  | O => None
  | S fuel =>
      match s.1 !! i with
      | None => Some s
      | Some (SimpleCondition t) =>
          let (t, c) := evaluateSimple event eventMatcherValues t s.2 in
          Some (<[i := SimpleCondition t]> s.1, c)
      | Some (CombinationCondition t) =>
          if negb (bool_decide (conditionAt (ec_condition s.2) (cc_index t) = kNotEvaluated))
          then Some s
          else
            s ← evaluateChildren (evaluateCondition fuel) (mChildren t) s;
            Some (finishCombination i t s)
      end
  end.

(** The loop of [MetricsManager::onLogEvent] over the conditions to evaluate. *)
Definition evaluateConditions (fuel : nat) (conditionToBeEvaluated : list bool)
    (ts : list ConditionTracker) : option state :=
  let n := length ts in
  foldl (λ st i, s ← st;
           if default false (conditionToBeEvaluated !! i)
           then evaluateCondition fuel i s else Some s)
    (Some (ts, mkCaches (replicate n kNotEvaluated) (replicate n false))) (seq 0 n).
End evaluate.

(** *** isConditionMet and the wizard *)
Section query.
Context (conditionParameters : ConditionKey) (isPartialLink : bool).
Context (allConditions : list ConditionTracker).

Fixpoint queryChildren (rec : nat → list ConditionState → option (list ConditionState))
    (cs : list nat) (cache : list ConditionState) : option (list ConditionState) :=
  match cs with
  | [] => Some cache
  | c :: cs' =>
      if bool_decide (conditionAt cache c = kNotEvaluated) then
        cache ← rec c cache; queryChildren rec cs' cache
      else queryChildren rec cs' cache
  end.

Fixpoint isConditionMet (fuel : nat) (i : nat) (cache : list ConditionState)
    : option (list ConditionState) :=
  match fuel with
  | O => None
  | S fuel =>
      match allConditions !! i with
      | None => Some cache
      | Some (SimpleCondition t) =>
          Some (isConditionMet_simple conditionParameters isPartialLink t cache)
      | Some (CombinationCondition t) =>
          cache ← queryChildren (isConditionMet fuel) (mChildren t) cache;
          Some (<[cc_index t :=
                    evaluateCombinationCondition (mChildren t) (mLogicalOperation t) cache]> cache)
      end
  end.

(** [ConditionWizard::query] *)
Definition query (fuel : nat) (index : nat) : option ConditionState :=
  cache ← isConditionMet fuel index (replicate (length allConditions) kNotEvaluated);
  Some (conditionAt cache index).
End query.

(** [getChangedToTrueDimensions], [getChangedToFalseDimensions]: the first sliced child. *)
Section changed_dimensions.
Context (select : SimpleConditionTracker → list HashableDimensionKey).
Context (allConditions : list ConditionTracker).

Fixpoint getChangedDimensions (fuel : nat) (i : nat) : option (list HashableDimensionKey) :=
  match fuel with
  | O => None
  | S fuel =>
      match allConditions !! i with
      | None => None
      | Some (SimpleCondition t) => if sc_sliced t then Some (select t) else None
      | Some (CombinationCondition t) =>
          (fix first cs :=
             match cs with
             | [] => None
             | c :: cs' =>
                 match getChangedDimensions fuel c with Some l => Some l | None => first cs' end
             end) (mChildren t)
      end
  end.
End changed_dimensions.

Definition getChangedToTrueDimensions := getChangedDimensions mLastChangedToTrueDimensions.
Definition getChangedToFalseDimensions := getChangedDimensions mLastChangedToFalseDimensions.

Definition IsChangedDimensionTrackable (allConditions : list ConditionTracker) (index : Z) : bool :=
  if (0 <=? index) && (index <? Z.of_nat (length allConditions)) then
    match allConditions !! Z.to_nat index with
    | Some (SimpleCondition _) => true
    | Some (CombinationCondition t) =>
        bool_decide (mLogicalOperation t = AND)
        && (Z.of_nat (length (mSlicedChildren t)) =? 1)
    | None => false
    end
  else false.

(** [getSlicedDimensionMap] *)
Fixpoint getSlicedDimensionMap (allConditions : list ConditionTracker) (fuel : nat) (i : nat)
    : option (umap HashableDimensionKey Z) :=
  match fuel with
  | O => None
  | S fuel =>
      match allConditions !! i with
      | None => None
      | Some (SimpleCondition t) => Some (mSlicedConditionState t)
      | Some (CombinationCondition t) =>
          match mSlicedChildren t with
          | [c] => getSlicedDimensionMap allConditions fuel c
          | _ => None
          end
      end
  end.

(** [equalOutputDimensions] *)
Fixpoint equalOutputDimensions (allConditions : list ConditionTracker) (fuel : nat) (i : nat)
    (dimensions : list Matcher) : bool :=
  match fuel with
  | O => false
  | S fuel =>
      match allConditions !! i with
      | None => false
      | Some (SimpleCondition t) => equalDimensions (mOutputDimensions t) dimensions
      | Some (CombinationCondition t) =>
          match mSlicedChildren t with
          | [c] =>
              if (length allConditions <=? c)%nat || negb (bool_decide (mLogicalOperation t = AND))
              then false
              else equalOutputDimensions allConditions fuel c dimensions
          | _ => false
          end
      end
  end.

(** ** ConditionTimer *)

Record ConditionTimer := mkTimer {
  mTimerNs : Z; mLastConditionTrueTimestampNs : Z; mCondition : bool
}.

Definition ConditionTimer_new (initCondition : bool) (bucketStartNs : Z) : ConditionTimer :=
  mkTimer 0 (if initCondition then bucketStartNs else 0) initCondition.

(** [newBucketStart]: the time returned and the timer. *)
Definition newBucketStart (nextBucketStartNs : Z) (t : ConditionTimer) : Z * ConditionTimer :=
  if mCondition t then
    (mTimerNs t + (nextBucketStartNs - mLastConditionTrueTimestampNs t),
     mkTimer 0 nextBucketStartNs true)
  else (mTimerNs t, mkTimer 0 (mLastConditionTrueTimestampNs t) false).

Definition timer_onConditionChanged (newCondition : bool) (timestampNs : Z) (t : ConditionTimer)
    : ConditionTimer :=
  if Bool.eqb newCondition (mCondition t) then t
  else if newCondition then mkTimer (mTimerNs t) timestampNs true
  else mkTimer (mTimerNs t + (timestampNs - mLastConditionTrueTimestampNs t))
         (mLastConditionTrueTimestampNs t) false.
