(* ===== verification/ConditionsFacts.v ===== *)
(** * Facts about conditions

    A simple condition refines a counter per key; combinations compute a three-valued logic;
    the wizard's answer is the meaning of the configured predicate; the guard rail bounds the
    tracked keys; the timer measures the time the condition was true. *)
From S2P Require Import Prelude UMap FieldValue DimensionKey DimensionKeyFacts Matchers Conditions.

(** ** Simple conditions as counters *)

(** What an event means to a simple condition. *)
Inductive CondEvent :=
  | CStart (k : HashableDimensionKey)
  | CStop (k : HashableDimensionKey)
  | CStopAll
  | CNone.

(** Stop-all has priority over stop, stop over start. *)
Definition observe (event : LogEvent) (values : list MatchingState) (t : SimpleConditionTracker)
    : CondEvent :=
  let key := if Z.of_nat (length (mOutputDimensions t)) =? 0 then DEFAULT_DIMENSION_KEY
             else (filterValues (mOutputDimensions t) (getValues event) (mkKey [])).2 in
  if matchedAt values (mStopAllLogMatcherIndex t)
     && (mStopAllLogMatcherIndex t <? Z.of_nat (length values)) then CStopAll
  else if matchedAt values (mStopLogMatcherIndex t) then CStop key
  else if matchedAt values (mStartLogMatcherIndex t) then CStart key
  else CNone.

(** Started-but-not-stopped count of a key; [None] when nothing is known of it. *)
Definition view (t : SimpleConditionTracker) (k : HashableDimensionKey) : option Z :=
  match um_find k (mSlicedConditionState t) with
  | Some count => Some count
  | None => if bool_decide (mInitialValue t = kFalse) then Some 0 else None
  end.

Definition truth (v : option Z) : ConditionState :=
  match v with None => kUnknown | Some count => sliceState count end.

(** The counter of key [k] after an event. *)
Definition spec_step (nesting : bool) (ev : CondEvent) (k : HashableDimensionKey) (v : option Z)
    : option Z :=
  match ev with
  | CStart k' => if key_eqb k' k then Some (default 0 v + 1) else v
  | CStop k' =>
      if key_eqb k' k then Some (if nesting then Z.max 0 (default 0 v - 1) else 0) else v
  | CStopAll => Some 0
  | CNone => v
  end.

Record simple_ok (t : SimpleConditionTracker) : Prop := {
  so_wf : um_wf (mSlicedConditionState t);
  so_initial : mInitialValue t = kFalse ∨ mInitialValue t = kUnknown;
  so_counts : ∀ k c, (k, c) ∈ mSlicedConditionState t → 0 <= c;
  so_no_zero : mInitialValue t = kFalse → ∀ k c, (k, c) ∈ mSlicedConditionState t → c ≠ 0;
  so_refl : ∀ k c, (k, c) ∈ mSlicedConditionState t → k =k k
}.

Lemma um_set_elem {V} (k : HashableDimensionKey) (v : V) m k' v' :
  (k', v') ∈ um_set k v m → v' = v ∨ (k', v') ∈ m.
Proof.
  induction m as [|[k1 v1] m IH]; simpl.
  - intros [= -> ->]%list_elem_of_singleton. by left.
  - destruct (key_eqb k k1).
    + intros [[= -> ->]|H]%elem_of_cons; [by left|right; by right].
    + intros [[= -> ->]|H]%elem_of_cons; [right; by left|].
      destruct (IH H); [by left|right; by right].
Qed.

Lemma um_set_keys {V} (k : HashableDimensionKey) (v : V) m k' v' :
  (k', v') ∈ um_set k v m → k' = k ∨ ∃ v'', (k', v'') ∈ m.
Proof.
  induction m as [|[k1 v1] m IH]; simpl.
  - intros [= -> ->]%list_elem_of_singleton. by left.
  - destruct (key_eqb k k1).
    + intros [[= -> ->]|H]%elem_of_cons; right; eexists; [by left|by right].
    + intros [[= -> ->]|H]%elem_of_cons; [right; eexists; by left|].
      destruct (IH H) as [->|[v'' ?]]; [by left|right; eexists; by right].
Qed.

Lemma um_erase_elem {V} (k : HashableDimensionKey) (m : umap HashableDimensionKey V) p :
  p ∈ um_erase k m → p ∈ m.
Proof. unfold um_erase. rewrite !list_elem_of_In. by intros [? _]%filter_In. Qed.

(** Setting or erasing the count of one key keeps the invariant. *)
Lemma simple_ok_set t k c tt ff :
  simple_ok t → k =k k → 0 <= c → (mInitialValue t = kFalse → c ≠ 0) →
  simple_ok (set_states (mInitialValue t) (um_set k c (mSlicedConditionState t))
               (set_changed tt ff t)).
Proof.
  intros [Hw Hi Hc Hz Hr] Hk H0 H1. split; cbn [mSlicedConditionState set_states mInitialValue];
    [by apply um_wf_set|done| | |].
  - intros k' c' [->|H]%um_set_elem; eauto.
  - intros E k' c' [->|H]%um_set_elem; eauto.
  - intros k' c' [->|[c'' H]]%um_set_keys; eauto.
Qed.

Lemma simple_ok_erase t k tt ff :
  simple_ok t →
  simple_ok (set_states (mInitialValue t) (um_erase k (mSlicedConditionState t))
               (set_changed tt ff t)).
Proof.
  intros [Hw Hi Hc Hz Hr]. split; cbn [mSlicedConditionState set_states mInitialValue];
    [by apply um_wf_erase|done| | |].
  - intros k' c' H%um_erase_elem. eauto.
  - intros E k' c' H%um_erase_elem. eauto.
  - intros k' c' H%um_erase_elem. eauto.
Qed.

Lemma view_set t k c tt ff k' :
  view (set_states (mInitialValue t) (um_set k c (mSlicedConditionState t)) (set_changed tt ff t)) k'
  = if key_eqb k k' then Some c else view t k'.
Proof.
  unfold view. simpl. destruct (key_eqb k k') eqn:E.
  - by rewrite um_find_set_eq.
  - by rewrite um_find_set_ne.
Qed.

Lemma view_erase t k tt ff k' :
  mInitialValue t = kFalse →
  view (set_states (mInitialValue t) (um_erase k (mSlicedConditionState t)) (set_changed tt ff t)) k'
  = if key_eqb k k' then Some 0 else view t k'.
Proof.
  intros Hi. unfold view. simpl. destruct (key_eqb k k') eqn:E.
  - by rewrite um_find_erase_eq, bool_decide_true.
  - by rewrite um_find_erase_ne.
Qed.

Lemma view_nonneg t k c : simple_ok t → view t k = Some c → 0 <= c.
Proof.
  intros Hok. unfold view. destruct (um_find k _) as [c'|] eqn:E.
  - intros [= <-]. apply um_find_elem in E as (k' & Hin & _). by eapply so_counts.
  - by case_bool_decide; intros [= <-].
Qed.

Lemma view_cong t k k' : k =k k' → view t k = view t k'.
Proof. intros E. unfold view. by rewrite (um_find_cong k k'). Qed.

(** The part of a tracker that events do not change. *)
Definition config_of (t : SimpleConditionTracker) :=
  (sc_id t, sc_index t, sc_sliced t, mCountNesting t, mOutputDimensions t,
   (mStartLogMatcherIndex t, mStopLogMatcherIndex t, mStopAllLogMatcherIndex t),
   mContainANYPositionInInternalDimensions t).

Definition event_of (start : bool) (k : HashableDimensionKey) : CondEvent :=
  if start then CStart k else CStop k.

(** The result of an event on key [k] of tracker [t]: the counter, the reported condition and
    change, the sets of changed keys. *)
Definition event_post (start : bool) (k : HashableDimensionKey) (t : SimpleConditionTracker)
    (r : SimpleConditionTracker * ConditionState * bool) : Prop :=
  let '(t', s, b) := r in
  simple_ok t' ∧ config_of t' = config_of t ∧
  (∀ k', view t' k' = spec_step (mCountNesting t) (event_of start k) k' (view t k')) ∧
  s = truth (view t' k) ∧ b = negb (bool_decide (truth (view t k) = truth (view t' k))) ∧
  mLastChangedToTrueDimensions t' = (if b && start then [k] else []) ∧
  mLastChangedToFalseDimensions t' = (if b && negb start then [k] else []).

(** Every outcome that writes count [c] for [k], or erases [k] for count 0. *)
Lemma event_post_intro start k t c (erase b : bool) :
  simple_ok t → k =k k → 0 <= c →
  Some c = spec_step (mCountNesting t) (event_of start k) k (view t k) →
  (if erase then mInitialValue t = kFalse ∧ c = 0 else mInitialValue t = kFalse → c ≠ 0) →
  b = negb (bool_decide (truth (view t k) = sliceState c)) →
  event_post start k t
    (set_states (mInitialValue t)
       (if erase then um_erase k (mSlicedConditionState t)
        else um_set k c (mSlicedConditionState t))
       (set_changed (if b && start then [k] else []) (if b && negb start then [k] else []) t),
     sliceState c, b).
Proof.
  intros Hok Hk Hc Hspec He Hb.
  assert (Hview : ∀ k', view (set_states (mInitialValue t)
       (if erase then um_erase k (mSlicedConditionState t)
        else um_set k c (mSlicedConditionState t))
       (set_changed (if b && start then [k] else []) (if b && negb start then [k] else []) t)) k'
    = if key_eqb k k' then Some c else view t k').
  { intros k'. destruct erase; [|apply view_set]. destruct He as [? ->]. by apply view_erase. }
  unfold event_post. split_and!; try done.
  - destruct erase; [by apply simple_ok_erase|by apply simple_ok_set].
  - intros k'. rewrite Hview. destruct (key_eqb k k') eqn:E.
    + rewrite Hspec, <- (view_cong t k k' E). destruct start; simpl; by rewrite Hk, E.
    + destruct start; simpl; by rewrite E.
  - by rewrite Hview, Hk.
  - by rewrite Hview, Hk.
Qed.

(** The shapes of the trackers [handleConditionEvent] returns. *)
Lemma unchanged_shape t i m :
  mLastChangedToTrueDimensions t = [] → mLastChangedToFalseDimensions t = [] →
  set_states i m t = set_states i m (set_changed [] [] t).
Proof. destruct t; simpl. intros -> ->. done. Qed.

Lemma changedToTrue_shape k t i m :
  mLastChangedToTrueDimensions t = [] → mLastChangedToFalseDimensions t = [] →
  changedToTrue k (set_states i m t) = set_states i m (set_changed [k] [] t) ∧
  set_states i m (changedToTrue k t) = set_states i m (set_changed [k] [] t).
Proof. destruct t; simpl. intros -> ->. done. Qed.

Lemma changedToFalse_shape k t i m :
  mLastChangedToTrueDimensions t = [] → mLastChangedToFalseDimensions t = [] →
  changedToFalse k (set_states i m t) = set_states i m (set_changed [] [k] t) ∧
  set_states i m (changedToFalse k t) = set_states i m (set_changed [] [k] t).
Proof. destruct t; simpl. intros -> ->. done. Qed.

Lemma um_erase_absent {V} (k : HashableDimensionKey) (m : umap HashableDimensionKey V) :
  um_find k m = None → um_erase k m = m.
Proof.
  induction m as [|[k1 v1] m IH]; [done|]. unfold um_erase in *. simpl.
  destruct (key_eqb k k1); [done|]. simpl. intros H. by rewrite IH.
Qed.

(** A key without an entry. *)
Lemma handle_new_key k start t :
  simple_ok t → k =k k → hitGuardRail k t = false →
  mLastChangedToTrueDimensions t = [] → mLastChangedToFalseDimensions t = [] →
  um_find k (mSlicedConditionState t) = None →
  event_post start k t (handleConditionEvent k start t).
Proof.
  intros Hok Hk Hg Ht Hf Hn. unfold handleConditionEvent. rewrite Hg, Hn.
  assert (Hv : view t k = if bool_decide (mInitialValue t = kFalse) then Some 0 else None)
    by (unfold view; by rewrite Hn).
  assert (Hnt : bool_decide (mInitialValue t = kTrue) = false)
    by (apply bool_decide_eq_false; destruct (so_initial t Hok); congruence).
  rewrite Hnt. destruct start; cbn [andb negb].
  - rewrite (proj1 (changedToTrue_shape _ _ _ _ Ht Hf)).
    apply (event_post_intro true k t 1 false true); try done; rewrite Hv;
      destruct (bool_decide (mInitialValue t = kFalse)); try done.
    all: cbn [spec_step event_of]; by rewrite Hk.
  - destruct (decide (mInitialValue t = kFalse)) as [Hi|Hi].
    + rewrite bool_decide_true in * by done. cbn [negb].
      assert (Hshape : t = set_states (mInitialValue t) (um_erase k (mSlicedConditionState t))
        (set_changed [] [] t)).
      { rewrite <- unchanged_shape, um_erase_absent by done. by destruct t. }
      assert (Hpost : event_post false k t
        (set_states (mInitialValue t) (um_erase k (mSlicedConditionState t)) (set_changed [] [] t),
         kFalse, false)); [|by rewrite <- Hshape in Hpost].
      apply (event_post_intro false k t 0 true false); try done;
        rewrite Hv; cbn [spec_step event_of]; rewrite ?Hk; by destruct (mCountNesting t).
    + rewrite bool_decide_false in * by done. cbn [negb].
      rewrite (proj1 (changedToFalse_shape _ _ _ _ Ht Hf)).
      apply (event_post_intro false k t 0 false true); try done;
        rewrite Hv; cbn [spec_step event_of]; rewrite ?Hk; by destruct (mCountNesting t).
Qed.

(** A key with an entry. *)
Lemma handle_known_key k start t n :
  simple_ok t → k =k k → hitGuardRail k t = false →
  mLastChangedToTrueDimensions t = [] → mLastChangedToFalseDimensions t = [] →
  um_find k (mSlicedConditionState t) = Some n →
  event_post start k t (handleConditionEvent k start t).
Proof.
  intros Hok Hk Hg Ht Hf Hn. unfold handleConditionEvent. rewrite Hg, Hn.
  assert (Hv : view t k = Some n) by (unfold view; by rewrite Hn).
  pose proof (view_nonneg _ _ _ Hok Hv) as H0.
  assert (Hspec : spec_step (mCountNesting t) (event_of start k) k (view t k) =
    Some (if start then n + 1 else if mCountNesting t then Z.max 0 (n - 1) else 0)).
  { rewrite Hv. destruct start; cbn [spec_step event_of]; by rewrite Hk. }
  destruct start.
  - replace (set_states _ _ _) with (set_states (mInitialValue t)
      (um_set k (n + 1) (mSlicedConditionState t))
      (set_changed (if (n =? 0) && true then [k] else []) (if (n =? 0) && false then [k] else []) t)).
    2:{ rewrite andb_false_r, andb_true_r. symmetry. destruct (n =? 0);
          [by apply changedToTrue_shape|by apply unchanged_shape]. }
    replace kTrue with (sliceState (n + 1)) by (unfold sliceState; by rewrite (proj2 (Z.ltb_lt _ _)) by lia).
    apply (event_post_intro true k t (n + 1) false (n =? 0)); try done; try lia.
    rewrite Hv. unfold truth, sliceState. rewrite (proj2 (Z.ltb_lt 0 (n + 1))) by lia.
    destruct (Z.ltb_spec 0 n), (Z.eqb_spec n 0); try done; lia.
  - set (c := if 0 <? n then if mCountNesting t then n - 1 else 0 else n).
    set (b := (0 <? n) && (c =? 0)).
    set (erase := bool_decide (mInitialValue t = kFalse) && (c =? 0)).
    assert (Hc : c = if mCountNesting t then Z.max 0 (n - 1) else 0).
    { unfold c. destruct (Z.ltb_spec 0 n), (mCountNesting t); lia. }
    replace (set_states _ _ _) with (set_states (mInitialValue t)
      (if erase then um_erase k (mSlicedConditionState t) else um_set k c (mSlicedConditionState t))
      (set_changed (if b && false then [k] else []) (if b && negb false then [k] else []) t)).
    2:{ rewrite andb_false_r, andb_true_r. symmetry. destruct b;
          [by apply changedToFalse_shape|by apply unchanged_shape]. }
    replace (if b then kFalse else if 0 <? n then kTrue else kFalse) with (sliceState c).
    2:{ unfold sliceState, b, c. destruct (Z.ltb_spec 0 n), (mCountNesting t); simpl; try done;
          try (destruct (Z.ltb_spec 0 n); [lia|done]);
          destruct (Z.eqb_spec (n - 1) 0), (Z.ltb_spec 0 (n - 1)); try done; lia. }
    apply (event_post_intro false k t c erase b); try done.
    + destruct (mCountNesting t); lia.
    + by rewrite Hspec, Hc.
    + unfold erase. case_bool_decide as Hi; destruct (Z.eqb_spec c 0); simpl; done.
    + rewrite Hv. unfold truth, sliceState, b, c.
      destruct (Z.ltb_spec 0 n), (mCountNesting t); simpl; try done;
        try (destruct (Z.ltb_spec 0 n); [lia|done]);
        destruct (Z.eqb_spec (n - 1) 0), (Z.ltb_spec 0 (n - 1)); try done; lia.
Qed.

Lemma handleConditionEvent_spec k start t :
  simple_ok t → k =k k → hitGuardRail k t = false →
  mLastChangedToTrueDimensions t = [] → mLastChangedToFalseDimensions t = [] →
  event_post start k t (handleConditionEvent k start t).
Proof.
  intros. destruct (um_find k (mSlicedConditionState t)) eqn:?;
    eauto using handle_new_key, handle_known_key.
Qed.

(** *** Stop all *)

Lemma view_stopAll t k : view (handleStopAll t).1.1 k = Some 0.
Proof. done. Qed.

Lemma us_mem_cong (k k' : HashableDimensionKey) s : k =k k' → us_mem k s = us_mem k' s.
Proof.
  intros E. unfold us_mem. induction s as [|x s IH]; [done|]. cbn [existsb].
  by rewrite (key_eqb_cong_l _ _ x E), IH.
Qed.

Lemma us_insert_keeps (k k' : HashableDimensionKey) s :
  us_mem k s = true → us_mem k (us_insert k' s) = true.
Proof.
  unfold us_insert. destruct (us_mem k' s); [done|]. unfold us_mem. rewrite existsb_app.
  by intros ->.
Qed.

Lemma us_insert_new (k k' : HashableDimensionKey) s :
  k =k k' → k' =k k' → us_mem k (us_insert k' s) = true.
Proof.
  intros E E'. rewrite (us_mem_cong k k') by done. by apply us_insert_mem.
Qed.

(** The keys [handleStopAll] reports: those whose condition was true. *)
Lemma us_mem_foldl (l : umap HashableDimensionKey Z) : ∀ s k,
  us_mem k (foldl (λ s cond, us_insert cond.1 s) s l) = true ↔
  us_mem k s = true ∨ ∃ p, p ∈ l ∧ k =k p.1.
Proof.
  induction l as [|p l IH]; intros s k; cbn [foldl].
  - split; [by left|]. by intros [?|(p & ?%not_elem_of_nil & _)].
  - rewrite IH. split.
    + intros [[?|?]%us_mem_insert|(q & ? & ?)]; [by left|right|right].
      * exists p. split; [by left|done].
      * exists q. split; [by right|done].
    + intros [?|(q & [->|?]%elem_of_cons & Hq)].
      * left. by apply us_insert_keeps.
      * left. apply us_insert_new; [done|].
        eapply key_eqb_trans; [by apply key_eqb_sym|done].
      * right. eauto.
Qed.

Lemma handleStopAll_changedToFalse t k :
  simple_ok t → mLastChangedToFalseDimensions t = [] →
  us_mem k (mLastChangedToFalseDimensions (handleStopAll t).1.1) = true ↔ truth (view t k) = kTrue.
Proof.
  intros Hok Hf. simpl. rewrite us_mem_foldl, Hf. unfold view. split.
  - intros [?|([k' c] & [Hc Hin]%list_elem_of_In%filter_In%(and_comm _ _) & Hk)]; [done|].
    rewrite <- list_elem_of_In in Hin. simpl in Hc, Hk.
    rewrite (um_find_elem_wf k k' c) by (done || apply so_wf, Hok). simpl. unfold sliceState.
    by rewrite Hc.
  - destruct (um_find k _) as [c|] eqn:E; [|by case_bool_decide].
    simpl. unfold sliceState. destruct (0 <? c) eqn:Hc; [|done]. intros _. right.
    apply um_find_elem in E as (k' & Hin & Hk). exists (k', c). split; [|done].
    rewrite list_elem_of_In. apply filter_In. by rewrite <- list_elem_of_In.
Qed.

(** No finite map has an entry for every key. *)
Lemma fresh_key {V} (m : umap HashableDimensionKey V) :
  ∃ k, um_find k m = None.
Proof.
  set (n := S (max_list ((λ p, length (mValues p.1)) <$> m))).
  exists (mkKey (replicate n (FieldValue_of (mkField 0 0) (VINT 0)))).
  apply um_find_None. intros k' v Hin.
  destruct (key_eqb _ k') eqn:E; [|done]. exfalso.
  apply hdk_eqb_spec, Forall2_length in E. simpl in E. rewrite length_replicate in E.
  assert (length (mValues k') <= max_list ((λ p, length (mValues p.1)) <$> m))%nat; [|lia].
  apply max_list_elem_of_le. change (length (mValues k')) with ((λ p, length (mValues p.1)) (k', v)).
  by apply list_elem_of_fmap_2.
Qed.

Lemma handleStopAll_changed t :
  simple_ok t → (handleStopAll t).2 = true ↔ ∃ k, truth (view t k) ≠ kFalse.
Proof.
  intros Hok. simpl. destruct (decide (mInitialValue t = kFalse)) as [Hi|Hi].
  - rewrite bool_decide_true by done. cbn [andb].
    destruct (mSlicedConditionState t) as [|[k c] m] eqn:E.
    + split; [done|]. intros [k Hk]. unfold view in Hk. rewrite E in Hk. simpl in Hk.
      by rewrite bool_decide_true in Hk.
    + split; [|done]. intros _. exists k.
      assert (Hin : (k, c) ∈ mSlicedConditionState t) by (rewrite E; by left).
      unfold view. rewrite (um_find_elem_wf k k c);
        [|by apply so_wf|done|by eapply so_refl].
      pose proof (so_counts t Hok k c Hin). pose proof (so_no_zero t Hok Hi k c Hin).
      simpl. unfold sliceState. by destruct (Z.ltb_spec 0 c); [|lia].
  - rewrite bool_decide_false by done. cbn [andb]. split; [|done]. intros _.
    destruct (fresh_key (mSlicedConditionState t)) as [k Hk]. exists k. unfold view.
    by rewrite Hk, bool_decide_false.
Qed.

(** *** The refinement *)

(** The event is not dropped by the guard rail and its key has no NaN. *)
Definition accepted (event : LogEvent) (values : list MatchingState) (t : SimpleConditionTracker)
    : Prop :=
  mContainANYPositionInInternalDimensions t = false ∧
  match observe event values t with
  | CStart k | CStop k => k =k k ∧ hitGuardRail k t = false
  | _ => True
  end.

(** The caches have an entry for tracker [i], not yet evaluated. *)
Definition pending (i : nat) (c : EvalCaches) : Prop :=
  ec_condition c !! i = Some kNotEvaluated ∧ (i < length (ec_changed c))%nat.

(** What an evaluation reports about the counters before ([t]) and after ([t']). *)
Record reports (ev : CondEvent) (t t' : SimpleConditionTracker) (c' : EvalCaches) : Prop := {
  rp_changed : ec_changed c' !! sc_index t = Some true ↔ ∃ k, truth (view t k) ≠ truth (view t' k);
  rp_true : ∀ k, us_mem k (mLastChangedToTrueDimensions t') = true ↔
    truth (view t k) ≠ kTrue ∧ truth (view t' k) = kTrue;
  rp_false : ∀ k, truth (view t k) = kTrue → truth (view t' k) ≠ kTrue →
    us_mem k (mLastChangedToFalseDimensions t') = true;
  rp_false_only : ∀ k, us_mem k (mLastChangedToFalseDimensions t') = true →
    truth (view t k) ≠ kFalse ∧ truth (view t' k) = kFalse;
  rp_condition : ec_condition c' !! sc_index t =
    Some (match ev with
          | CStart k | CStop k => truth (view t' k)
          | CStopAll => kFalse
          | CNone => currentCondition t
          end)
}.

Lemma set_caches_lookup i s b c :
  pending i c → ec_condition (set_caches i s b c) !! i = Some s ∧
  ec_changed (set_caches i s b c) !! i = Some b.
Proof.
  intros [H1%lookup_lt_Some H2]. simpl. by rewrite !list_lookup_insert_eq.
Qed.

Lemma us_mem_one (k k' : HashableDimensionKey) : us_mem k [k'] = key_eqb k' k.
Proof. unfold us_mem. cbn [existsb]. by rewrite orb_false_r, key_eqb_comm. Qed.

Lemma us_mem_opt (k k' : HashableDimensionKey) (b : bool) :
  us_mem k (if b then [k'] else []) = b && key_eqb k' k.
Proof. destruct b; [apply us_mem_one|done]. Qed.

Lemma truth_start v : (∀ c, v = Some c → 0 <= c) → truth (Some (default 0 v + 1)) = kTrue.
Proof.
  intros H. simpl. unfold sliceState. destruct (Z.ltb_spec 0 (default 0 v + 1)) as [|E]; [done|].
  destruct v as [c|]; simpl in E; [specialize (H c eq_refl)|]; lia.
Qed.

(** A start cannot make a condition false, a stop cannot make it true. *)
Lemma truth_stop (nesting : bool) v :
  truth (Some (if nesting then Z.max 0 (default 0 v - 1) else 0)) = kTrue → truth v = kTrue.
Proof.
  destruct nesting; [|done]. destruct v as [c|]; simpl; unfold sliceState; [|done].
  destruct (Z.ltb_spec 0 (Z.max 0 (c - 1))), (Z.ltb_spec 0 c); try done; lia.
Qed.

Lemma truth_cases v : truth v = kTrue ∨ truth v = kFalse ∨ truth v = kUnknown.
Proof. destruct v as [c|]; simpl; [unfold sliceState; destruct (0 <? c)|]; auto. Qed.

Lemma event_reports start k t t' s b c :
  simple_ok t → k =k k → event_post start k t (t', s, b) → pending (sc_index t) c →
  reports (event_of start k) t t' (set_caches (sc_index t) s b c).
Proof.
  intros Hok Hk (_ & _ & Hv & -> & -> & Ht & Hf) Hp.
  destruct (set_caches_lookup _ (truth (view t' k))
    (negb (bool_decide (truth (view t k) = truth (view t' k)))) _ Hp) as [H1 H2].
  assert (Hother : ∀ k', key_eqb k k' = false → view t' k' = view t k').
  { intros k' E. rewrite Hv. destruct start; cbn [event_of spec_step]; by rewrite E. }
  assert (Hsame : ∀ k', key_eqb k k' = true → view t' k' = view t' k ∧ view t k' = view t k).
  { intros k' E. by rewrite !(view_cong _ k k' E). }
  assert (Hdir : if start then truth (view t' k) = kTrue
                 else (truth (view t' k) = kTrue → truth (view t k) = kTrue) ∧
                      truth (view t' k) ≠ kUnknown).
  { rewrite Hv. destruct start; cbn [event_of spec_step]; rewrite Hk.
    - apply truth_start. intros c' Hc. by eapply view_nonneg.
    - split; [apply truth_stop|]. simpl. unfold sliceState. by destruct (0 <? _). }
  set (b := negb (bool_decide (truth (view t k) = truth (view t' k)))) in *.
  assert (Hb : b = true ↔ truth (view t k) ≠ truth (view t' k)).
  { unfold b. rewrite negb_true_iff. apply bool_decide_eq_false. }
  clearbody b. pose proof (truth_cases (view t k)) as HT.
  split; rewrite ?Ht, ?Hf, ?H1, ?H2; [|intros k'..|by destruct start].
  - split.
    + intros [= ->]. exists k. by apply Hb.
    + intros [k' Hk']. destruct (key_eqb k k') eqn:E; [|by rewrite (Hother _ E) in Hk'].
      destruct (Hsame k' E) as [E1 E2]. rewrite E1, E2 in Hk'. f_equal. by apply Hb.
  - rewrite us_mem_opt. destruct (key_eqb k k') eqn:E.
    + destruct (Hsame k' E) as [-> ->]. destruct start, b; simpl; intuition congruence.
    + rewrite andb_false_r, (Hother k' E). intuition congruence.
  - rewrite us_mem_opt. destruct (key_eqb k k') eqn:E.
    + destruct (Hsame k' E) as [-> ->]. destruct start, b; simpl; intuition congruence.
    + rewrite (Hother k' E). congruence.
  - rewrite us_mem_opt. destruct (key_eqb k k') eqn:E; [|by rewrite andb_false_r].
    destruct (Hsame k' E) as [-> ->]. pose proof (truth_cases (view t' k)).
    destruct start, b; simpl; intuition congruence.
Qed.

Lemma simple_ok_clear t : simple_ok t → simple_ok (set_changed [] [] t).
Proof. by intros [?????]; split. Qed.

Lemma reports_clear ev t t' c' : reports ev (set_changed [] [] t) t' c' → reports ev t t' c'.
Proof. by intros [?????]; split. Qed.

(** [evaluateSimple] on a pending tracker is one of its three branches. *)
Lemma evaluateSimple_cases event values t c :
  pending (sc_index t) c → accepted event values t →
  evaluateSimple event values t c =
  match observe event values t with
  | CStopAll => let '(t', s, b) := handleStopAll (set_changed [] [] t) in
                (t', set_caches (sc_index t) s b c)
  | CStart k => let '(t', s, b) := handleConditionEvent k true (set_changed [] [] t) in
                (t', set_caches (sc_index t) s b c)
  | CStop k => let '(t', s, b) := handleConditionEvent k false (set_changed [] [] t) in
               (t', set_caches (sc_index t) s b c)
  | CNone => (set_changed [] [] t, set_caches (sc_index t) (currentCondition t) false c)
  end.
Proof.
  intros [Hn _] [Hany _]. unfold evaluateSimple, observe.
  rewrite bool_decide_true by (unfold conditionAt; by rewrite Hn). cbn [negb].
  change (mStopAllLogMatcherIndex (set_changed [] [] t)) with (mStopAllLogMatcherIndex t).
  change (mStopLogMatcherIndex (set_changed [] [] t)) with (mStopLogMatcherIndex t).
  change (mStartLogMatcherIndex (set_changed [] [] t)) with (mStartLogMatcherIndex t).
  change (mOutputDimensions (set_changed [] [] t)) with (mOutputDimensions t).
  change (mContainANYPositionInInternalDimensions (set_changed [] [] t))
    with (mContainANYPositionInInternalDimensions t).
  rewrite Hany. cbn [negb].
  destruct (matchedAt values (mStopAllLogMatcherIndex t) && _); [done|].
  destruct (matchedAt values (mStopLogMatcherIndex t)); cbn [Z.ltb Z.compare Z.eqb Pos.eqb];
    [by destruct (Z.of_nat (length (mOutputDimensions t)) =? 0)|].
  destruct (matchedAt values (mStartLogMatcherIndex t)); cbn [Z.ltb Z.compare Z.eqb Pos.eqb];
    [by destruct (Z.of_nat (length (mOutputDimensions t)) =? 0)|done].
Qed.

(** A tracker after one evaluation, against the counters. *)
Definition refined (ev : CondEvent) (t t' : SimpleConditionTracker) (c' : EvalCaches) : Prop :=
  simple_ok t' ∧ config_of t' = config_of t ∧
  (∀ k, view t' k = spec_step (mCountNesting t) ev k (view t k)) ∧ reports ev t t' c'.

Lemma evaluateSimple_refined event values t c :
  simple_ok t → pending (sc_index t) c → accepted event values t →
  refined (observe event values t) t (evaluateSimple event values t c).1
    (evaluateSimple event values t c).2.
Proof.
  intros Hok Hp Ha. rewrite evaluateSimple_cases by done. destruct Ha as [_ Ha].
  pose proof (simple_ok_clear t Hok) as Hok0. set (t0 := set_changed [] [] t) in *.
  destruct (observe event values t) as [k|k| |].
  - destruct Ha as [Hk Hg].
    pose proof (handleConditionEvent_spec k true t0 Hok0 Hk Hg eq_refl eq_refl) as Hpost.
    destruct (handleConditionEvent k true t0) as [[t' s] b].
    pose proof (event_reports true k t0 t' s b c Hok0 Hk Hpost Hp) as Hr.
    destruct Hpost as (? & ? & ? & _). by split_and!; try apply reports_clear.
  - destruct Ha as [Hk Hg].
    pose proof (handleConditionEvent_spec k false t0 Hok0 Hk Hg eq_refl eq_refl) as Hpost.
    destruct (handleConditionEvent k false t0) as [[t' s] b].
    pose proof (event_reports false k t0 t' s b c Hok0 Hk Hpost Hp) as Hr.
    destruct Hpost as (? & ? & ? & _). by split_and!; try apply reports_clear.
  - pose proof (handleStopAll_changed t0 Hok0) as Hch.
    pose proof (λ k, handleStopAll_changedToFalse t0 k Hok0 eq_refl) as Hf.
    assert (Hview : ∀ k, view (handleStopAll t0).1.1 k = Some 0) by done.
    assert (HokS : simple_ok (handleStopAll t0).1.1).
    { split; simpl; [done|by left| | |]; intros; exfalso; by eapply not_elem_of_nil. }
    assert (Hcfg : config_of (handleStopAll t0).1.1 = config_of t) by done.
    assert (Hst : (handleStopAll t0).1.2 = kFalse) by done.
    assert (Htrue : mLastChangedToTrueDimensions (handleStopAll t0).1.1 = []) by done.
    destruct (handleStopAll t0) as [[t' s] b]. simpl in Hch, Hf, Hview, Hcfg, Hst, Htrue, HokS. subst s.
    destruct (set_caches_lookup _ kFalse b _ Hp) as [H1 H2].
    split_and!; try done. split; [| | | |done]; simpl fst; simpl snd.
    + rewrite H2. setoid_rewrite Hview. transitivity (b = true); [split; congruence|].
      rewrite Hch. done.
    + intros k. rewrite Htrue, Hview. split; [done|by intros [_ ?]].
    + intros k Hk _. by apply Hf.
    + intros k Hk%Hf. rewrite Hview. change (view t k) with (view t0 k). by rewrite Hk.
  - destruct (set_caches_lookup _ (currentCondition t) false _ Hp) as [H1 H2].
    split_and!; try done. split; [| | | |done]; simpl fst; simpl snd.
    + rewrite H2. split; [done|]. by intros [k Hk].
    + intros k. change (view t0 k) with (view t k). split; [done|by intros [??]].
    + intros k. by change (view t0 k) with (view t k).
    + done.
Qed.

(** C22: one event that the guard rail does not refuse, with a key without NaN, refines one step of
    a counter per key of a condition without position ANY in its dimensions: a start adds one, a stop removes
    one (or all when nesting is not counted), a stop-all resets every key, an unknown key
    becomes known at its first event.  The change flag is set exactly when the condition of
    some key changed, and the sets of changed keys are exactly the keys that became true and
    contain the keys that stopped being true. *)
Theorem simple_condition_refines_counters event values t c :
  simple_ok t → pending (sc_index t) c → accepted event values t →
  let t' := (evaluateSimple event values t c).1 in
  let c' := (evaluateSimple event values t c).2 in
  simple_ok t' ∧ config_of t' = config_of t ∧
  (∀ k, view t' k = spec_step (mCountNesting t) (observe event values t) k (view t k)) ∧
  reports (observe event values t) t t' c'.
Proof. apply evaluateSimple_refined. Qed.

Lemma setMatcherIndices_state p m t :
  mSlicedConditionState (setMatcherIndices p m t) = mSlicedConditionState t ∧
  mInitialValue (setMatcherIndices p m t) = mInitialValue t ∧
  sc_id (setMatcherIndices p m t) = sc_id t ∧ sc_index (setMatcherIndices p m t) = sc_index t ∧
  sc_sliced (setMatcherIndices p m t) = sc_sliced t ∧
  mOutputDimensions (setMatcherIndices p m t) = mOutputDimensions t ∧
  mCountNesting (setMatcherIndices p m t) = mCountNesting t.
Proof.
  unfold setMatcherIndices.
  destruct (sp_start p) as [a|]; [destruct (m !! a)|]; simpl; try done;
    (destruct (sp_stop p) as [b|]; [destruct (m !! b)|]; simpl; try done;
     (destruct (sp_stop_all p) as [d|]; [destruct (m !! d)|]; simpl; done)).
Qed.

(** What the constructor builds. *)
Lemma SimpleConditionTracker_new_spec uninit id index p m :
  let t := SimpleConditionTracker_new uninit id index p m in
  simple_ok t ∧ mSlicedConditionState t = [] ∧ sc_id t = id ∧ sc_index t = index ∧
  mCountNesting t = sp_count_nesting p ∧
  sc_sliced t = (0 <? Z.of_nat (length (mOutputDimensions t))) ∧
  mInitialValue t = (match sp_initial_value p with
                     | InitialValue_FALSE => kFalse
                     | InitialValue_UNKNOWN => kUnknown
                     end).
Proof.
  intros t. subst t. unfold SimpleConditionTracker_new. destruct uninit as [[u1 u2] u3].
  destruct (setMatcherIndices_state p m (mkSimple id index ∅
    (0 <? Z.of_nat (length (match sp_dimensions p with
                            | Some d => translateFieldMatcher d | None => [] end)))
    u1 u2 (sp_count_nesting p) u3
    (match sp_initial_value p with InitialValue_FALSE => kFalse | InitialValue_UNKNOWN => kUnknown end)
    (match sp_dimensions p with Some d => translateFieldMatcher d | None => [] end)
    (match sp_dimensions p with Some d => HasPositionANY d | None => false end) [] [] []))
    as (H1 & H2 & H3 & H4 & H5 & H6 & H7).
  rewrite H1, H3, H4, H5, H6, H7. split_and!; try done.
  split; rewrite ?H1, ?H2; simpl; [done|destruct (sp_initial_value p); auto| | |];
    intros; exfalso; by eapply not_elem_of_nil.
Qed.

(** *** Histories *)

Definition History := list (LogEvent * list MatchingState).

(** [MetricsManager::onLogEvent] evaluates every event with fresh caches. *)
Definition freshCaches (i : nat) : EvalCaches :=
  mkCaches (replicate (S i) kNotEvaluated) (replicate (S i) false).

Definition stepSimple (t : SimpleConditionTracker) (e : LogEvent * list MatchingState) :=
  (evaluateSimple e.1 e.2 t (freshCaches (sc_index t))).1.

Definition runSimple (es : History) (t : SimpleConditionTracker) : SimpleConditionTracker :=
  foldl stepSimple t es.

(** The guard rail drops none of the events. *)
Fixpoint acceptedAll (es : History) (t : SimpleConditionTracker) : Prop :=
  match es with
  | [] => True
  | e :: es' => accepted e.1 e.2 t ∧ acceptedAll es' (stepSimple t e)
  end.

(** The counter of key [k] after the events, for a tracker with the matchers of [t]. *)
Definition countAfter (es : History) (t : SimpleConditionTracker) (k : HashableDimensionKey)
    (v : option Z) : option Z :=
  foldl (λ v e, spec_step (mCountNesting t) (observe e.1 e.2 t) k v) v es.

Lemma pending_fresh i : pending i (freshCaches i).
Proof.
  split; unfold freshCaches; cbn [ec_condition ec_changed].
  - apply lookup_replicate_2. lia.
  - rewrite length_replicate. lia.
Qed.

Lemma observe_config e t t' : config_of t' = config_of t → observe e.1 e.2 t' = observe e.1 e.2 t.
Proof. unfold config_of, observe. intros [=]. by repeat match goal with H : _ = _ |- _ => rewrite H; clear H end. Qed.

Lemma countAfter_config es t t' k v :
  config_of t' = config_of t → countAfter es t' k v = countAfter es t k v.
Proof.
  intros H. revert v. unfold countAfter. induction es as [|e es IH]; intros v; [done|]. cbn [foldl].
  rewrite (observe_config e t t' H), IH. by injection H as _ _ _ -> _.
Qed.

Lemma runSimple_refined es : ∀ t,
  simple_ok t → acceptedAll es t →
  simple_ok (runSimple es t) ∧ config_of (runSimple es t) = config_of t ∧
  ∀ k, view (runSimple es t) k = countAfter es t k (view t k).
Proof.
  induction es as [|e es IH]; intros t Hok Ha; [done|]. destruct Ha as [Ha Hall].
  destruct (evaluateSimple_refined e.1 e.2 t (freshCaches (sc_index t)) Hok
    (pending_fresh _) Ha) as (Hok' & Hcfg & Hview & _).
  fold (stepSimple t e) in Hok', Hcfg, Hview.
  destruct (IH _ Hok' Hall) as (Hok2 & Hcfg2 & Hview2).
  change (runSimple (e :: es) t) with (runSimple es (stepSimple t e)).
  split_and!; [done|congruence|]. intros k. rewrite Hview2, Hview.
  by rewrite (countAfter_config es t (stepSimple t e)).
Qed.

(** An exact query reads the counter. *)
Lemma simpleConditionFor_view t params k :
  simple_ok t → params !! sc_id t = Some k →
  simpleConditionFor params false t = truth (view t k).
Proof.
  intros Hok Hp. unfold simpleConditionFor, view. rewrite Hp.
  destruct (um_find k (mSlicedConditionState t)) as [c|]; simpl.
  - unfold sliceState. destruct (so_initial t Hok) as [-> | ->]; by destruct (0 <? c).
  - by destruct (so_initial t Hok) as [-> | ->].
Qed.

(** For every sequence of events that the guard rail accepts, the condition of a key
    answered by a new simple condition is the truth value of the number of starts of that key
    not yet stopped. *)
Theorem simple_condition_history uninit id index p m es params k :
  let t0 := SimpleConditionTracker_new uninit id index p m in
  acceptedAll es t0 → params !! id = Some k →
  simpleConditionFor params false (runSimple es t0) =
    truth (countAfter es t0 k
             (match sp_initial_value p with
              | InitialValue_FALSE => Some 0
              | InitialValue_UNKNOWN => None
              end)).
Proof.
  intros t0 Ha Hp.
  destruct (SimpleConditionTracker_new_spec uninit id index p m)
    as (Hok & Hst & Hid & _ & _ & _ & Hi); fold t0 in Hok, Hst, Hid, Hi.
  destruct (runSimple_refined es t0 Hok Ha) as (Hok' & Hcfg & Hview).
  rewrite (simpleConditionFor_view _ params k), Hview; [|done|injection Hcfg; congruence].
  do 2 f_equal. unfold view. rewrite Hst, Hi. by destruct (sp_initial_value p).
Qed.

(** A predicate started by matcher 1, stopped by matcher 2, stopped for all by matcher 3. *)
Definition examplePredicate : SimplePredicate :=
  mkSimplePredicate (Some 1) (Some 2) true (Some 3) InitialValue_UNKNOWN None.

Definition exampleMatcherMap : gmap Z nat := {[1 := 0%nat; 2 := 1%nat; 3 := 2%nat]}.

Definition exampleLogEvent : LogEvent := mkLogEvent 10 1000 5 [] (-1) (-1) false.

(** Start, start, stop: started once more than stopped. *)
Definition exampleHistory : History :=
  [ (exampleLogEvent, [kMatched; kNotMatched; kNotMatched]);
    (exampleLogEvent, [kMatched; kNotMatched; kNotMatched]);
    (exampleLogEvent, [kNotMatched; kMatched; kNotMatched]) ].

Definition exampleTracker : SimpleConditionTracker :=
  SimpleConditionTracker_new (0, 0, 0) 7 0 examplePredicate exampleMatcherMap.

Lemma simple_condition_refines_counters_witness :
  let e := (exampleLogEvent, [kMatched; kNotMatched; kNotMatched]) in
  view (stepSimple exampleTracker e) DEFAULT_DIMENSION_KEY = Some 1.
Proof.
  destruct (simple_condition_refines_counters exampleLogEvent [kMatched; kNotMatched; kNotMatched]
    exampleTracker (freshCaches 0)) as (_ & _ & H & _).
  - apply SimpleConditionTracker_new_spec.
  - apply pending_fresh.
  - by vm_compute.
  - unfold stepSimple. rewrite H. by vm_compute.
Defined.

Lemma simple_condition_history_witness :
  simpleConditionFor {[7 := DEFAULT_DIMENSION_KEY]} false
    (runSimple exampleHistory exampleTracker) = kTrue.
Proof.
  unfold exampleTracker. rewrite (simple_condition_history (0, 0, 0) 7 0 examplePredicate
    exampleMatcherMap exampleHistory {[7 := DEFAULT_DIMENSION_KEY]} DEFAULT_DIMENSION_KEY).
  - by vm_compute.
  - by vm_compute.
  - by vm_compute.
Defined.

(** *** The guard rail *)

Definition bounded (t : SimpleConditionTracker) : Prop :=
  sc_sliced t = (0 <? Z.of_nat (length (mOutputDimensions t))) ∧
  if sc_sliced t then size (mSlicedConditionState t) <= kDimensionKeySizeHardLimit
  else mSlicedConditionState t = [] ∨ ∃ c, mSlicedConditionState t = [(DEFAULT_DIMENSION_KEY, c)].

(** The states after an event on a key: unchanged, or one key set or erased. *)
Lemma handleConditionEvent_states k start t :
  let t' := (handleConditionEvent k start t).1.1 in
  config_of t' = config_of t ∧
  (mSlicedConditionState t' = mSlicedConditionState t ∨
   mSlicedConditionState t' = um_erase k (mSlicedConditionState t) ∨
   (hitGuardRail k t = false ∧
    ∃ c, mSlicedConditionState t' = um_set k c (mSlicedConditionState t))).
Proof.
  unfold handleConditionEvent. destruct (hitGuardRail k t); [by auto|].
  destruct (um_find k _) as [n|].
  - destruct start.
    + destruct (n =? 0); simpl; eauto 6.
    + destruct ((0 <? n) && _), (bool_decide (mInitialValue t = kFalse) && _); simpl; eauto 6.
  - destruct (start && _); simpl; [by eauto 6|].
    destruct (negb _); simpl; eauto 6.
Qed.

Lemma default_key_refl : DEFAULT_DIMENSION_KEY =k DEFAULT_DIMENSION_KEY.
Proof. done. Qed.

Lemma bounded_event k start t :
  bounded t → (sc_sliced t = false → k = DEFAULT_DIMENSION_KEY) →
  bounded (handleConditionEvent k start t).1.1.
Proof.
  intros [Hs Hb] Hk. destruct (handleConditionEvent_states k start t) as [Hcfg Hst].
  set (t' := (handleConditionEvent k start t).1.1) in *.
  injection Hcfg as _ _ Hsl _ Hd _ _. unfold bounded. rewrite Hsl, Hd. split; [done|].
  destruct (sc_sliced t) eqn:Hsliced.
  - destruct Hst as [->|[->|(Hg & c & ->)]]; [done| |].
    + pose proof (um_erase_size k (mSlicedConditionState t)). unfold size in *. lia.
    + unfold hitGuardRail in Hg. rewrite Hsliced in Hg. unfold size in *. rewrite um_set_size.
      cbn [negb orb] in Hg. destruct (um_mem k _); [lia|].
      unfold kDimensionKeySizeSoftLimit, kDimensionKeySizeHardLimit in *.
      destruct (Z.ltb_spec (500 - 1) (Z.of_nat (length (mSlicedConditionState t)))); lia.
  - rewrite (Hk eq_refl) in Hst.
    destruct Hst as [->|[->|(Hg & c & ->)]]; [done| |];
      destruct Hb as [->|[c' ->]]; simpl; eauto.
Qed.

Lemma bounded_step t e : bounded t → bounded (stepSimple t e).
Proof.
  intros Hb. unfold stepSimple, evaluateSimple.
  destruct (negb _); [done|]. destruct (_ && _); [|destruct (_ <? 0); [done|]].
  - destruct Hb as [Hs Hb]. split; [done|]. simpl. destruct (sc_sliced t); [|by left].
    unfold size, kDimensionKeySizeHardLimit. simpl. lia.
  - assert (Hev : ∀ k b, (sc_sliced t = false → k = DEFAULT_DIMENSION_KEY) →
      bounded (handleConditionEvent k b (set_changed [] [] t)).1.1).
    { intros k b Hk. by apply bounded_event. }
    destruct (Z.of_nat _ =? 0) eqn:Hd.
    + specialize (Hev DEFAULT_DIMENSION_KEY
        ((if matchedAt e.2 (mStopLogMatcherIndex (set_changed [] [] t)) then 0
          else if matchedAt e.2 (mStartLogMatcherIndex (set_changed [] [] t)) then 1 else -1) =? 1)).
      destruct (handleConditionEvent _ _ _) as [[t' s] b]. by apply Hev.
    + destruct (negb _); [|done].
      match goal with |- context [handleConditionEvent ?k ?b _] => specialize (Hev k b) end.
      destruct (handleConditionEvent _ _ _) as [[t' s] b]. apply Hev.
      destruct Hb as [Hs _]. rewrite Hs. simpl in Hd. apply Z.eqb_neq in Hd.
      intros ?%Z.ltb_ge. lia.
Qed.

(** Whatever events arrive, a simple condition never tracks more keys than the hard
    limit of the guard rail. *)
Theorem simple_condition_guardrail uninit id index p m es :
  size (mSlicedConditionState (runSimple es (SimpleConditionTracker_new uninit id index p m)))
    <= kDimensionKeySizeHardLimit.
Proof.
  set (t0 := SimpleConditionTracker_new uninit id index p m).
  assert (Hb : bounded (runSimple es t0)).
  { destruct (SimpleConditionTracker_new_spec uninit id index p m) as (_ & Hst & _ & _ & _ & Hs & _).
    fold t0 in Hst, Hs. unfold runSimple.
    assert (Hb0 : bounded t0).
    { split; [done|]. rewrite Hst. destruct (sc_sliced t0); [done|by left]. }
    clearbody t0. clear Hst Hs. revert t0 Hb0.
    induction es as [|e es IH]; intros t0 Hb0; [done|]. cbn [foldl].
    apply IH. by apply bounded_step. }
  destruct Hb as [_ Hb]. destruct (sc_sliced _); [done|].
  unfold size, kDimensionKeySizeHardLimit. destruct Hb as [->|[c ->]]; simpl; lia.
Qed.

(** ** Combinations: three-valued logic *)

Definition of_bool (b : bool) : ConditionState := if b then kTrue else kFalse.

(** An unknown operand makes the combination unknown; otherwise the boolean operation. *)
Definition combine3 (op : LogicalOperation) (ss : list ConditionState) : ConditionState :=
  if existsb (λ s, bool_decide (s = kUnknown)) ss then kUnknown
  else of_bool (combine_op op ((λ s, bool_decide (s = kTrue)) <$> ss)).

Lemma scanChildStates_spec cs cache ss : ∀ f t,
  Forall2 (λ c s, conditionAt cache c = s) cs ss →
  scanChildStates cs cache f t =
  if existsb (λ s, bool_decide (s = kUnknown)) ss
  then (true, (scanChildStates cs cache f t).1.2, (scanChildStates cs cache f t).2)
  else (false, f || existsb (λ s, bool_decide (s = kFalse)) ss,
        t || existsb (λ s, bool_decide (s = kTrue)) ss).
Proof.
  intros f t H. revert f t. induction H as [|c s cs ss Hc _ IH]; intros f t; simpl.
  - by rewrite !orb_false_r.
  - rewrite Hc. destruct (bool_decide (s = kUnknown)); [done|]. cbn [orb].
    rewrite IH. destruct (existsb _ ss); [done|]. simpl. by rewrite !orb_assoc.
Qed.

Lemma existsb_not_forallb {A} (p q : A → bool) l :
  (∀ x, x ∈ l → p x = negb (q x)) → existsb p l = negb (forallb q l).
Proof.
  induction l as [|x l IH]; intros H; [done|]. cbn [existsb forallb].
  rewrite negb_andb, IH, (H x); [done|by left|]. intros; apply H; by right.
Qed.

Lemma existsb_fmap_id {A} (p : A → bool) (l : list A) : existsb id (p <$> l) = existsb p l.
Proof. induction l as [|x l IH]; [done|]. rewrite fmap_cons. cbn [existsb forallb]. by rewrite IH. Qed.

Lemma forallb_fmap_id {A} (p : A → bool) (l : list A) : forallb id (p <$> l) = forallb p l.
Proof. induction l as [|x l IH]; [done|]. rewrite fmap_cons. cbn [existsb forallb]. by rewrite IH. Qed.

Lemma evaluateCombination_combine3 cs op cache ss :
  Forall2 (λ c s, conditionAt cache c = s) cs ss → kNotEvaluated ∉ ss →
  (op = NOT → length cs = 1%nat) →
  evaluateCombinationCondition cs op cache = combine3 op ss.
Proof.
  intros H Hev Hnot. unfold evaluateCombinationCondition, combine3.
  rewrite (scanChildStates_spec cs cache ss) by done.
  destruct (existsb _ ss) eqn:Hu; [done|]. cbn [orb].
  assert (Hfalse : existsb (λ s, bool_decide (s = kFalse)) ss
                   = negb (forallb (λ s, bool_decide (s = kTrue)) ss)).
  { apply existsb_not_forallb. intros s Hs. destruct s; try done.
    exfalso. apply not_true_iff_false in Hu. apply Hu, existsb_elem_of. by exists kUnknown. }
  rewrite Hfalse. destruct op; cbn [combine_op]; rewrite ?existsb_fmap_id, ?forallb_fmap_id;
    try done; try (by destruct (forallb _ _));
    try (by destruct (existsb (λ s, bool_decide (s = kTrue)) ss)).
  destruct H as [|c s cs ss Hc _]; [by specialize (Hnot eq_refl)|]. rewrite Hc.
  clear Hfalse. destruct s; try done; exfalso; apply Hev; by left.
Qed.

(** On evaluated operands a combination is unknown when an operand is, and otherwise the
    boolean operation of the configuration. *)
Theorem combination_three_valued cs op cache :
  (∀ c, c ∈ cs → conditionAt cache c ≠ kNotEvaluated) → (op = NOT → length cs = 1%nat) →
  evaluateCombinationCondition cs op cache = combine3 op (conditionAt cache <$> cs).
Proof.
  intros Hev Hnot. apply evaluateCombination_combine3; [| |done].
  - clear. induction cs; constructor; auto.
  - intros (c & Hc & Hin)%list_elem_of_fmap. by eapply Hev.
Qed.

Lemma combination_three_valued_witness :
  evaluateCombinationCondition [0%nat; 1%nat] NAND [kTrue; kFalse] = kTrue.
Proof.
  rewrite combination_three_valued; [done| |done].
  intros c [->|[->|[]%not_elem_of_nil]%elem_of_cons]%elem_of_cons; done.
Defined.

(** ** The wizard *)

Section query_facts.
Context (params : ConditionKey) (partial : bool) (ts : list ConditionTracker).
Context (rank : nat → nat).

(** The meaning of condition [i] for the query, without any cache. *)
Inductive meaning (i : nat) : ConditionState → Prop :=
  | mn_simple t : ts !! i = Some (SimpleCondition t) → meaning i (simpleConditionFor params partial t)
  | mn_comb t ss :
      ts !! i = Some (CombinationCondition t) → length ss = length (mChildren t) →
      (∀ k c s, mChildren t !! k = Some c → ss !! k = Some s → meaning c s) →
      meaning i (combine3 (mLogicalOperation t) ss).

(** An initialized vector of trackers: own indices, existing children of smaller rank, one
    child for NOT. *)
Definition graph_ok : Prop :=
  ∀ i t, ts !! i = Some t → getIndex t = i ∧
    match t with
    | SimpleCondition t => simple_ok t
    | CombinationCondition t =>
        (mLogicalOperation t = NOT → length (mChildren t) = 1%nat) ∧
        ∀ c, c ∈ mChildren t → (c < length ts)%nat ∧ (rank c < rank i)%nat
    end.

Definition cond_cache_ok (cache : list ConditionState) : Prop :=
  length cache = length ts ∧
  ∀ j s, cache !! j = Some s → s ≠ kNotEvaluated → meaning j s.

Definition cond_extends (c c' : list ConditionState) : Prop :=
  ∀ j s, c !! j = Some s → s ≠ kNotEvaluated → c' !! j = Some s.

Lemma simpleConditionFor_evaluated t :
  simple_ok t → simpleConditionFor params partial t ≠ kNotEvaluated.
Proof.
  intros Hok. unfold simpleConditionFor.
  assert (Hi : cs_or kNotEvaluated (mInitialValue t) ≠ kNotEvaluated)
    by (by destruct (so_initial t Hok) as [-> | ->]).
  assert (Hm : ∀ s c, s ≠ kNotEvaluated → cs_or s (sliceState c) ≠ kNotEvaluated).
  { intros s c Hs. unfold sliceState. by destruct s, (0 <? c). }
  destruct (params !! sc_id t) as [key|].
  - destruct partial.
    + revert Hi. generalize (cs_or kNotEvaluated (mInitialValue t)). clear Hok.
      induction (mSlicedConditionState t) as [|p l IH]; intros s Hs; [done|]. cbn [foldl].
      apply IH. destruct (contains p.1 key); auto.
    + destruct (um_find key _); auto.
  - destruct (negb _); [|done]. destruct (um_find _ _); auto.
Qed.

Lemma meaning_evaluated i s : graph_ok → meaning i s → s ≠ kNotEvaluated.
Proof.
  intros Hg. destruct 1 as [t Ht|t ss Ht _ _].
  - apply simpleConditionFor_evaluated. by destruct (Hg i _ Ht).
  - unfold combine3. destruct (existsb _ ss); [done|]. unfold of_bool. by destruct (combine_op _ _).
Qed.

Lemma meaning_functional i s1 : meaning i s1 → ∀ s2, meaning i s2 → s1 = s2.
Proof.
  induction 1 as [i t Ht|i t ss Ht Hl Hsub IH]; intros s2 H2;
    destruct H2 as [t' Ht'|t' ss' Ht' Hl' Hsub']; rewrite Ht in Ht'; try done.
  - by injection Ht' as ->.
  - injection Ht' as <-. f_equal.
    apply list_eq_same_length with (length (mChildren t)); [done|done|].
    intros k b b' Hlt Hb Hb'. destruct (lookup_lt_is_Some_2 _ k Hlt) as [c Hc]. eauto.
Qed.

(** [isConditionMet] of [i] answers with the meaning of [i]. *)
Definition answered (rec : nat → list ConditionState → option (list ConditionState)) (i : nat) :=
  ∀ cache, cond_cache_ok cache → ∃ cache' s, rec i cache = Some cache' ∧ cond_cache_ok cache' ∧
    cond_extends cache cache' ∧ cache' !! i = Some s ∧ meaning i s.

Lemma queryChildren_spec rec cs :
  graph_ok → (∀ c, c ∈ cs → answered rec c ∧ (c < length ts)%nat) →
  ∀ cache, cond_cache_ok cache →
  ∃ cache' ss, queryChildren rec cs cache = Some cache' ∧ cond_cache_ok cache' ∧
    cond_extends cache cache' ∧ Forall2 (λ c s, cache' !! c = Some s ∧ meaning c s) cs ss.
Proof.
  intros Hg. induction cs as [|c cs IH]; intros Hrec cache Hok; cbn [queryChildren].
  { exists cache, []. split_and!; try done. by intros ???. }
  destruct (Hrec c) as [Hans Hlt]; [by left|].
  assert (∃ cache1 s, (if bool_decide (conditionAt cache c = kNotEvaluated)
      then cache ← rec c cache; queryChildren rec cs cache
      else queryChildren rec cs cache) = queryChildren rec cs cache1 ∧ cond_cache_ok cache1 ∧
      cond_extends cache cache1 ∧ cache1 !! c = Some s ∧ meaning c s)
    as (cache1 & s & -> & Hok1 & Hext1 & Hc & Hm).
  { case_bool_decide as Hn.
    - destruct (Hans cache Hok) as (cache1 & s & -> & ?). exists cache1, s. done.
    - destruct (lookup_lt_is_Some_2 cache c) as [s Hs]; [by rewrite (proj1 Hok)|].
      unfold conditionAt in Hn. rewrite Hs in Hn. simpl in Hn.
      exists cache, s. split_and!; try done; [by intros ???|]. by apply Hok. }
  destruct (IH (λ c' H', Hrec c' (list_elem_of_further _ _ _ H')) cache1 Hok1)
    as (cache2 & ss & -> & Hok2 & Hext2 & Hall).
  exists cache2, (s :: ss). split_and!; try done.
  - intros j r Hj Hr. auto.
  - constructor; [|done]. split; [|done]. apply Hext2; [done|]. by eapply meaning_evaluated.
Qed.

Lemma isConditionMet_answered : graph_ok →
  ∀ fuel i, (rank i < fuel)%nat → (i < length ts)%nat →
  answered (isConditionMet params partial ts fuel) i.
Proof.
  intros Hg. induction fuel as [|fuel IH]; intros i Hr Hi cache Hok; [lia|].
  cbn [isConditionMet]. destruct (lookup_lt_is_Some_2 ts i Hi) as [t Ht]. rewrite Ht.
  destruct (Hg i t Ht) as [Hidx Ht2].
  assert (Hlt : (i < length cache)%nat) by by rewrite (proj1 Hok).
  assert (Hset : ∀ cache' s, cond_cache_ok cache' → meaning i s → cond_cache_ok (<[i := s]> cache')).
  { intros cache' s [Hl Hc] Hs. split; [by rewrite length_insert|]. intros j r.
    rewrite list_lookup_insert_Some. intros [(<- & <- & _)|[_ Hj]]; auto. }
  assert (Hext : ∀ cache' s, cond_cache_ok cache' → meaning i s → cond_extends cache' (<[i := s]> cache')).
  { intros cache' s [Hl Hc] Hs j r Hj Hne. rewrite list_lookup_insert_Some.
    destruct (decide (i = j)) as [<-|]; [left|by right].
    rewrite (meaning_functional i s Hs r) by auto. split_and!; try done. by eapply lookup_lt_Some. }
  destruct t as [t|t]; simpl in Hidx.
  - unfold isConditionMet_simple. rewrite Hidx. case_bool_decide as Hn; cbn [negb].
    + assert (Hm : meaning i (simpleConditionFor params partial t)) by by apply mn_simple.
      eexists _, _. split_and!; [done|by apply Hset|by apply Hext| |done].
      by rewrite list_lookup_insert_eq.
    + destruct (lookup_lt_is_Some_2 cache i Hlt) as [s Hs]. unfold conditionAt in Hn.
      rewrite Hs in Hn. exists cache, s. split_and!; try done; [by intros ???|]. by apply Hok.
  - destruct Ht2 as [Hnot Hch].
    destruct (queryChildren_spec (isConditionMet params partial ts fuel) (mChildren t) Hg)
      with cache as (cache' & ss & -> & Hok' & Hext' & Hall); [|done|].
    { intros c Hc. destruct (Hch c Hc). split; [apply IH; lia|done]. }
    cbn [mbind option_bind]. rewrite Hidx.
    assert (Hm : meaning i (combine3 (mLogicalOperation t) ss)).
    { eapply mn_comb; [done|symmetry; by eapply Forall2_length|].
      intros k c s Hc Hs. by destruct (Forall2_lookup_lr _ _ _ _ _ _ Hall Hc Hs). }
    rewrite (evaluateCombination_combine3 _ _ _ ss);
      [| |intros Hin|done].
    + exists (<[i := combine3 (mLogicalOperation t) ss]> cache'), (combine3 (mLogicalOperation t) ss).
      split_and!; [done|by apply Hset| |by rewrite list_lookup_insert_eq; [|rewrite (proj1 Hok'), <- (proj1 Hok)]|done].
      intros j r Hj Hne. by apply Hext; [done|done|apply Hext'|].
    + eapply Forall2_impl; [done|]. intros c s [Hc _]. unfold conditionAt. by rewrite Hc.
    + apply list_elem_of_lookup in Hin as [k Hk].
      destruct (Forall2_lookup_r _ _ _ _ _ Hall Hk) as (c & _ & _ & Hmc).
      by eapply meaning_evaluated.
Qed.
End query_facts.

(** A query is answered with the meaning of the condition, with fuel above the rank. *)
Lemma query_meaning params partial ts rank fuel i :
  graph_ok ts rank → (i < length ts)%nat → (rank i < fuel)%nat →
  ∃ s, query params partial ts fuel i = Some s ∧
    ∀ s', meaning params partial ts i s' ↔ s' = s.
Proof.
  intros Hg Hi Hf.
  destruct (isConditionMet_answered params partial ts rank Hg fuel i Hf Hi
    (replicate (length ts) kNotEvaluated)) as (cache & s & Heq & _ & _ & Hs & Hm).
  { split; [apply length_replicate|]. by intros j s [-> _]%lookup_replicate. }
  exists s. split.
  - unfold query. rewrite Heq. simpl. unfold conditionAt. by rewrite Hs.
  - intros s'. split; [|by intros ->]. intros Hs'. by eapply meaning_functional.
Qed.

(** A negation above a simple condition that was started once. *)
Definition exampleConditions : list ConditionTracker :=
  [ CombinationCondition (mkComb 8 0 true ∅ kUnknown false NOT [1%nat] [] [1%nat]);
    SimpleCondition (mkSimple 7 1 ∅ false 0 1 true 2 kUnknown [] false [] []
      [(DEFAULT_DIMENSION_KEY, 1)]) ].

Lemma exampleConditions_ok : graph_ok exampleConditions (λ i, 1 - i)%nat.
Proof.
  intros [|[|i]] t Ht; [| |done]; injection Ht as <-; split; [done| |done|].
  - split; [done|]. intros c ->%list_elem_of_singleton. simpl. lia.
  - split; simpl; [done|by right| |done|]; by intros k c [= -> ->]%list_elem_of_singleton.
Qed.

(** ** The condition timer *)

(** The inputs of a timer in order of time: condition changes and bucket starts. *)
Inductive TimerEvent := TChange (condition : bool) (ts : Z) | TBucket (ts : Z).

Definition timerTime (e : TimerEvent) : Z := match e with TChange _ ts => ts | TBucket ts => ts end.

(** Runs the timer and returns the times of the buckets that were closed. *)
Fixpoint runTimer (es : list TimerEvent) (t : ConditionTimer) : list Z * ConditionTimer :=
  match es with
  | [] => ([], t)
  | TChange b ts :: es' => runTimer es' (timer_onConditionChanged b ts t)
  | TBucket ts :: es' =>
      let (time, t) := newBucketStart ts t in
      let (times, t) := runTimer es' t in (time :: times, t)
  end.

(** Reference: the time the condition was true in every bucket, from the last event at [now],
    with [acc] already measured in the open bucket. *)
Fixpoint trueTimes (es : list TimerEvent) (now : Z) (condition : bool) (acc : Z) : list Z :=
  match es with
  | [] => []
  | e :: es' =>
      let acc := if condition then acc + (timerTime e - now) else acc in
      match e with
      | TChange b ts => trueTimes es' ts b acc
      | TBucket ts => acc :: trueTimes es' ts condition 0
      end
  end.

Lemma runTimer_trueTimes es : ∀ now t acc,
  acc = (if mCondition t then mTimerNs t + (now - mLastConditionTrueTimestampNs t)
         else mTimerNs t) →
  (runTimer es t).1 = trueTimes es now (mCondition t) acc.
Proof.
  induction es as [|[b ts|ts] es IH]; intros now t acc Hacc; [done| |]; cbn [runTimer trueTimes timerTime].
  - rewrite (IH ts (timer_onConditionChanged b ts t)
      (if mCondition t then acc + (ts - now) else acc)).
    + f_equal. unfold timer_onConditionChanged. by destruct b, (mCondition t) eqn:E.
    + subst acc. unfold timer_onConditionChanged.
      destruct b, (mCondition t) eqn:E; simpl; rewrite ?E; lia.
  - unfold newBucketStart. destruct (mCondition t) eqn:E.
    + specialize (IH ts (mkTimer 0 ts true) 0). simpl in IH.
      destruct (runTimer es _) as [times t']. simpl in *. rewrite <- IH by lia. f_equal. lia.
    + specialize (IH ts (mkTimer 0 (mLastConditionTrueTimestampNs t) false) 0). simpl in IH.
      destruct (runTimer es _) as [times t']. simpl in *. rewrite <- IH by lia. by f_equal.
Qed.

(** A condition timer returns at every bucket start exactly the time during which the
    condition was true since the previous bucket start. *)
Theorem condition_timer_measures es initCondition bucketStartNs :
  (runTimer es (ConditionTimer_new initCondition bucketStartNs)).1 =
  trueTimes es bucketStartNs initCondition 0.
Proof.
  rewrite (runTimer_trueTimes es bucketStartNs _ 0); [done|].
  unfold ConditionTimer_new. destruct initCondition; simpl; lia.
Qed.
