(* ===== verification/ConfigUpdate.v ===== *)
(** * Update of a configuration: matchers, conditions and states
      (metrics/parsing_utils/config_update_utils.cpp)

    When a configuration is replaced by a newer version, every part whose message and dependencies
    have not changed keeps its tracker, and with it the state collected so far.  The statuses of
    matchers and of conditions are computed by the same recursion over the graph of the new
    configuration; what the two functions decide about a node before they recurse is its view. *)
From S2P Require Import Prelude Hash UMap FieldValue DimensionKey Matchers MatcherTrackers.
From S2P Require Import Conditions.

Inductive UpdateStatus := UPDATE_UNKNOWN | UPDATE_PRESERVE | UPDATE_REPLACE | UPDATE_NEW.
#[export] Instance UpdateStatus_eq_dec : EqDecision UpdateStatus.
Proof. solve_decision. Defined.

(** ** The recursion *)

(** What is known of a node without its children: its status, or the ids of the children that decide
    it, or that the function fails. *)
Inductive NodeView := Settled (s : UpdateStatus) | Descend (children : list Z) | Malformed.

(** The vectors the recursion writes. *)
Record StatusState := mkStatusState { ss_status : list UpdateStatus; ss_cycle : list bool }.

Definition ss_set_status (i : nat) (st : UpdateStatus) (s : StatusState) : StatusState :=
  mkStatusState (<[i := st]> (ss_status s)) (ss_cycle s).
Definition ss_set_cycle (i : nat) (b : bool) (s : StatusState) : StatusState :=
  mkStatusState (ss_status s) (<[i := b]> (ss_cycle s)).
Definition statusAt (s : StatusState) (i : nat) : UpdateStatus :=
  default UPDATE_UNKNOWN (ss_status s !! i).

Section determine.
Context (view : nat → NodeView) (newMap : gmap Z nat).

(** The loop over the children, left at the first one that is replaced: the status of the parent, or
    [None] when the function fails. *)
Fixpoint determineChildren (rec : nat → StatusState → option (bool * StatusState))
    (children : list Z) (s : StatusState) : option (option UpdateStatus * StatusState) :=
  match children with
  | [] => Some (Some UPDATE_PRESERVE, s)
  | child :: children' =>
      match newMap !! child with
      | None => Some (None, s)
      | Some childIdx =>
          if default false (ss_cycle s !! childIdx) then Some (None, s)
          else
            match rec childIdx s with
            | None => None
            | Some (false, s) => Some (None, s)
            | Some (true, s) =>
                if bool_decide (statusAt s childIdx = UPDATE_REPLACE)
                then Some (Some UPDATE_REPLACE, s)
                else determineChildren rec children' s
            end
      end
  end.

(** [determineMatcherUpdateStatus], [determineConditionUpdateStatus]; [None]: out of fuel. *)
Fixpoint determineUpdateStatus (fuel : nat) (i : nat) (s : StatusState)
    : option (bool * StatusState) :=
  match fuel with
  | O => None
  | S fuel =>
      if negb (bool_decide (statusAt s i = UPDATE_UNKNOWN)) then Some (true, s)
      else
        match view i with
        | Malformed => Some (false, s)
        | Settled st => Some (true, ss_set_status i st s)
        | Descend children =>
            let s := ss_set_cycle i true s in
            match determineChildren (determineUpdateStatus fuel) children s with
            | None => None
            | Some (None, s) => Some (false, s)
            | Some (Some st, s) => Some (true, ss_set_cycle i false (ss_set_status i st s))
            end
        end
  end.

(** The loop over all nodes. *)
Fixpoint determineAll (fuel : nat) (idxs : list nat) (s : StatusState)
    : option (bool * StatusState) :=
  match idxs with
  | [] => Some (true, s)
  | i :: idxs' =>
      match determineUpdateStatus fuel i s with
      | Some (true, s) => determineAll fuel idxs' s
      | r => r
      end
  end.
End determine.

(** One level of recursion per node on the stack. *)
Definition statusFuel (n : nat) : nat := S (S n).

(** The statuses of [n] nodes; [None]: the update fails. *)
Definition updateStatuses (view : nat → NodeView) (newMap : gmap Z nat) (n : nat)
    : option (list UpdateStatus) :=
  match determineAll view newMap (statusFuel n) (seq 0 n)
          (mkStatusState (replicate n UPDATE_UNKNOWN) (replicate n false)) with
  | Some (true, s) => Some (ss_status s)
  | _ => None
  end.

(** Maps ids to positions; [None]: a duplicate. *)
Fixpoint indexIds (ids : list Z) (i : nat) (m : gmap Z nat) : option (gmap Z nat) :=
  match ids with
  | [] => Some m
  | id :: ids' =>
      match m !! id with
      | Some _ => None
      | None => indexIds ids' (S i) (<[id := i]> m)
      end
  end.

(** ** Matchers *)

Section matchers.
(** [SerializeToString] of the generated class; [None]: it fails. *)
Context (serialize : AtomMatcher → option (list Z)).

Definition matcherHash (m : AtomMatcher) : option Z := Hash64 <$> serialize m.

Context (config : list AtomMatcher).
(** The existing trackers, with the hash each was created with. *)
Context (oldAtomMatchingTrackerMap : gmap Z nat) (oldAtomMatchingTrackers : list AtomMatchingTracker).
Context (oldProtoHashes : list Z).

Definition matcherView (i : nat) : NodeView :=
  match config !! i with
  | None => Malformed
  | Some matcher =>
      match oldAtomMatchingTrackerMap !! am_id matcher with
      | None => Settled UPDATE_NEW
      | Some old =>
          match matcherHash matcher with
          | None => Malformed
          | Some newProtoHash =>
              if negb (bool_decide (oldProtoHashes !! old = Some newProtoHash))
              then Settled UPDATE_REPLACE
              else
                match am_contents matcher with
                | kSimpleAtomMatcher _ => Settled UPDATE_PRESERVE
                | kCombination c => Descend (comb_matcher c)
                | CONTENTS_NOT_SET => Malformed
                end
          end
      end
  end.

(** [AtomMatchingTracker::onConfigUpdated] *)
Definition AtomMatchingTracker_onConfigUpdated (matcher : AtomMatcher) (index : nat)
    (newMap : gmap Z nat) (t : AtomMatchingTracker) : bool * AtomMatchingTracker :=
  match mKind t with
  | SimpleTracker _ => SimpleAtomMatchingTracker_onConfigUpdated index t
  | CombinationTracker _ _ => CombinationAtomMatchingTracker_onConfigUpdated matcher index newMap t
  end.

(** [createAtomMatchingTracker], with the hash the tracker keeps. *)
Definition createHashedTracker (matcher : AtomMatcher) (i : nat) : option (AtomMatchingTracker * Z) :=
  protoHash ← matcherHash matcher;
  tracker ← createAtomMatchingTracker matcher i;
  Some (tracker, protoHash).

(** The tracker of a matcher in the new configuration. *)
Definition updateMatcher (newMap : gmap Z nat) (st : UpdateStatus) (matcher : AtomMatcher) (i : nat)
    : option (AtomMatchingTracker * Z) :=
  match st with
  | UPDATE_PRESERVE =>
      old ← oldAtomMatchingTrackerMap !! am_id matcher;
      tracker ← oldAtomMatchingTrackers !! old;
      protoHash ← oldProtoHashes !! old;
      let '(ok, tracker) := AtomMatchingTracker_onConfigUpdated matcher i newMap tracker in
      if (ok : bool) then Some (tracker, protoHash) else None
  | UPDATE_REPLACE | UPDATE_NEW => createHashedTracker matcher i
  | UPDATE_UNKNOWN => None
  end.

Fixpoint updateMatchers (newMap : gmap Z nat) (statuses : list UpdateStatus)
    (matchers : list AtomMatcher) (i : nat)
    : option (list (AtomMatchingTracker * Z)) :=
  match matchers with
  | [] => Some []
  | matcher :: matchers' =>
      st ← statuses !! i;
      t ← updateMatcher newMap st matcher i;
      ts ← updateMatchers newMap statuses matchers' (S i);
      Some (t :: ts)
  end.

Definition replacedIds (statuses : list UpdateStatus) (ids : list Z) : gset Z :=
  list_to_set (omap (λ '(st, id), if bool_decide (st = UPDATE_REPLACE) then Some id else None)
                 (zip statuses ids)).

Record MatcherUpdate := mkMatcherUpdate {
  mu_trackers : list AtomMatchingTracker;
  mu_hashes : list Z;
  mu_map : gmap Z nat;
  mu_tagIds : gset Z;
  mu_replaced : gset Z
}.

Definition updateAtomMatchingTrackers : option MatcherUpdate :=
  let n := length config in
  newMap ← indexIds (am_id <$> config) 0 ∅;
  statuses ← updateStatuses matcherView newMap n;
  hashed ← updateMatchers newMap statuses config 0;
  '(ok, s, tags) ← init_all config newMap (initFuel n) (seq 0 n)
                     (mkInit hashed.*1 (replicate n false)) ∅;
  if (ok : bool)
  then Some (mkMatcherUpdate (is_trackers s) hashed.*2 newMap tags
               (replacedIds statuses (am_id <$> config)))
  else None.
End matchers.

(** ** Conditions *)

Section conditions.
Context (serialize : Predicate → option (list Z)).

Definition predicateHash (p : Predicate) : option Z := Hash64 <$> serialize p.

Context (uninit : Z * Z * Z) (config : list Predicate).
Context (atomMatchingTrackerMap : gmap Z nat) (replacedMatchers : gset Z).
Context (oldConditionTrackerMap : gmap Z nat) (oldConditionTrackers : list ConditionTracker).
Context (oldProtoHashes : list Z).

Definition replacedMatcher (id : option Z) : bool :=
  match id with None => false | Some id => bool_decide (id ∈ replacedMatchers) end.

Definition conditionView (i : nat) : NodeView :=
  match config !! i with
  | None => Malformed
  | Some predicate =>
      match oldConditionTrackerMap !! pr_id predicate with
      | None => Settled UPDATE_NEW
      | Some old =>
          match predicateHash predicate with
          | None => Malformed
          | Some newProtoHash =>
              if negb (bool_decide (oldProtoHashes !! old = Some newProtoHash))
              then Settled UPDATE_REPLACE
              else
                match pr_contents predicate with
                | kSimplePredicate p =>
                    if replacedMatcher (sp_start p) then Settled UPDATE_REPLACE
                    else if replacedMatcher (sp_stop p) then Settled UPDATE_REPLACE
                    else if replacedMatcher (sp_stop_all p) then Settled UPDATE_REPLACE
                    else Settled UPDATE_PRESERVE
                | kPredicateCombination c => Descend (pc_predicate c)
                | PREDICATE_NOT_SET => Malformed
                end
          end
      end
  end.

Definition updateCondition (st : UpdateStatus) (predicate : Predicate) (i : nat)
    : option (ConditionTracker * Z) :=
  match st with
  | UPDATE_PRESERVE =>
      old ← oldConditionTrackerMap !! pr_id predicate;
      tracker ← oldConditionTrackers !! old;
      protoHash ← oldProtoHashes !! old;
      Some (tracker, protoHash)
  | UPDATE_REPLACE | UPDATE_NEW =>
      protoHash ← predicateHash predicate;
      tracker ← createConditionTracker uninit predicate i atomMatchingTrackerMap;
      Some (tracker, protoHash)
  | UPDATE_UNKNOWN => None
  end.

Fixpoint updateConditionTrackers (statuses : list UpdateStatus) (predicates : list Predicate) (i : nat)
    : option (list (ConditionTracker * Z)) :=
  match predicates with
  | [] => Some []
  | predicate :: predicates' =>
      st ← statuses !! i;
      t ← updateCondition st predicate i;
      ts ← updateConditionTrackers statuses predicates' (S i);
      Some (t :: ts)
  end.

(** The preserved conditions learn their new indices, in the order of the set of their indices. *)
Fixpoint updatePreserved (newMap : gmap Z nat) (fuel : nat) (preserved : list nat)
    (ts : list ConditionTracker) : option (list ConditionTracker) :=
  match preserved with
  | [] => Some ts
  | i :: preserved' =>
      match onConditionConfigUpdated config atomMatchingTrackerMap newMap fuel i ts with
      | Some (true, ts) => updatePreserved newMap fuel preserved' ts
      | _ => None
      end
  end.

Definition preservedIndices (statuses : list UpdateStatus) : list nat :=
  List.filter (λ i, bool_decide (statuses !! i = Some UPDATE_PRESERVE)) (seq 0 (length statuses)).

Record ConditionUpdate := mkConditionUpdate {
  cu_trackers : list ConditionTracker;
  cu_hashes : list Z;
  cu_map : gmap Z nat;
  cu_trackerToCondition : gmap Z (list nat);
  cu_cache : list ConditionState;
  cu_replaced : gset Z
}.

Definition updateConditions : option ConditionUpdate :=
  let n := length config in
  newMap ← indexIds (pr_id <$> config) 0 ∅;
  statuses ← updateStatuses conditionView newMap n;
  hashed ← updateConditionTrackers statuses config 0;
  ts ← updatePreserved newMap (initFuel n) (preservedIndices statuses) hashed.*1;
  '(ok, s, trackerToConditionMap) ←
     initAllConditions config newMap (initFuel n) (seq 0 n)
       (mkCondInit ts (replicate n false) (replicate n kNotEvaluated)) ∅;
  if (ok : bool)
  then Some (mkConditionUpdate (ci_trackers s) hashed.*2 newMap trackerToConditionMap (ci_cache s)
               (replacedIds statuses (pr_id <$> config)))
  else None.
End conditions.

(** ** States *)

(** The State message: the groups of its map. *)
Record StateGroup := mkStateGroup { sg_group_id : Z; sg_value : list Z }.
Record State := mkState { st_id : Z; st_atom_id : Z; st_map : list StateGroup }.

Section states.
Context (serialize : State → option (list Z)).

Definition stateHash (s : State) : option Z := Hash64 <$> serialize s.

Record StateTables := mkStateTables {
  stateAtomIdMap : gmap Z Z;
  allStateGroupMaps : gmap Z (gmap Z Z);
  stateProtoHashes : gmap Z Z
}.

Definition StateTables_new : StateTables := mkStateTables ∅ ∅ ∅.

(** [allStateGroupMaps\[stateId\]\[value\] = group_id] for every value of the map; the entry of the state
    comes into being with its first value. *)
Definition addGroups (stateId : Z) (groups : list StateGroup) (m : gmap Z (gmap Z Z))
    : gmap Z (gmap Z Z) :=
  foldl (λ m g, foldl (λ m value,
    <[stateId := <[value := sg_group_id g]> (default ∅ (m !! stateId))]> m) m (sg_value g)) m groups.

Fixpoint initStates (states : list State) (t : StateTables) : option StateTables :=
  match states with
  | [] => Some t
  | state :: states' =>
      hash ← stateHash state;
      initStates states'
        (mkStateTables (<[st_id state := st_atom_id state]> (stateAtomIdMap t))
           (addGroups (st_id state) (st_map state) (allStateGroupMaps t))
           (<[st_id state := hash]> (stateProtoHashes t)))
  end.

(** The ids whose hash is another in the new table. *)
Definition changedStates (oldHashes newHashes : gmap Z Z) : gset Z :=
  list_to_set (omap (λ '(id, hash),
    match newHashes !! id with
    | Some hash' => if hash' =? hash then None else Some id
    | None => None
    end) (map_to_list oldHashes : list (Z * Z))).

Definition updateStates (states : list State) (oldStateProtoHashes : gmap Z Z)
    : option (StateTables * gset Z) :=
  t ← initStates states StateTables_new;
  Some (t, changedStates oldStateProtoHashes (stateProtoHashes t)).
End states.
