(* ===== verification/ConfigUpdateFacts.v ===== *)
(** * Facts about the update of a configuration

    The statuses are exactly those of a declarative reading of "changed": a part is replaced when its
    message or one of its transitive dependencies changed.  Updating the matchers gives the same
    trackers as reading the new configuration from scratch. *)
From S2P Require Import Prelude Hash UMap FieldValue DimensionKey Matchers MatcherTrackers.
From S2P Require Import MatcherTrackersFacts Conditions ConfigUpdate.

(** ** Statuses *)

Section statuses.
Context (view : nat → NodeView) (newMap : gmap Z nat).

(** A node is replaced when it changed or a child of it is replaced. *)
Inductive replaced (i : nat) : Prop :=
  | replaced_changed : view i = Settled UPDATE_REPLACE → replaced i
  | replaced_child cs id j :
      view i = Descend cs → id ∈ cs → newMap !! id = Some j → replaced j → replaced i.

(** A node is kept when it has not changed and its children are kept or new. *)
Inductive kept (i : nat) : Prop :=
  | kept_leaf : view i = Settled UPDATE_PRESERVE → kept i
  | kept_parent cs :
      view i = Descend cs →
      (∀ id, id ∈ cs → is_Some (newMap !! id)) →
      (∀ id j, id ∈ cs → newMap !! id = Some j → view j ≠ Settled UPDATE_NEW → kept j) → kept i.

(** A node on which the recursion cannot fail: well-founded, with every child present. *)
Inductive sound (i : nat) : Prop :=
  | sound_settled st : view i = Settled st → st ≠ UPDATE_UNKNOWN → sound i
  | sound_descend cs :
      view i = Descend cs →
      (∀ id, id ∈ cs → is_Some (newMap !! id)) →
      (∀ id j, id ∈ cs → newMap !! id = Some j → sound j) → sound i.

Lemma kept_not_replaced i : kept i → ¬ replaced i.
Proof.
  induction 1 as [i Hv|i cs Hv _ _ IH]; intros Hr; inversion Hr as [H|cs' id j H Hin Hj Hrj]; subst;
    try congruence.
  assert (cs' = cs) as -> by congruence. eapply (IH id j); try done.
  intros Hn. inversion Hrj; congruence.
Qed.

(** What a status that has been written means. *)
Definition correct (st : UpdateStatus) (i : nat) : Prop :=
  match st with
  | UPDATE_UNKNOWN => False
  | UPDATE_PRESERVE => kept i
  | UPDATE_REPLACE => replaced i
  | UPDATE_NEW => view i = Settled UPDATE_NEW
  end.

Context (n : nat) (Hsettled : ∀ i, view i ≠ Settled UPDATE_UNKNOWN).
Context (Hmap : ∀ id j, newMap !! id = Some j → (j < n)%nat).

Record status_ok (s : StatusState) : Prop := {
  so_length : length (ss_status s) = n ∧ length (ss_cycle s) = n;
  so_correct : ∀ i, statusAt s i ≠ UPDATE_UNKNOWN → correct (statusAt s i) i
}.

(** What a call changes: statuses are only added, and a successful call leaves the stack as it was. *)
Record status_post (i : nat) (s : StatusState) (b : bool) (s' : StatusState) : Prop := {
  sp_ok : status_ok s';
  sp_keeps : ∀ j, statusAt s j ≠ UPDATE_UNKNOWN → statusAt s' j = statusAt s j;
  sp_success : b = true → ss_cycle s' = ss_cycle s ∧ statusAt s' i ≠ UPDATE_UNKNOWN
}.

Lemma statusAt_set s i st j :
  statusAt (ss_set_status i st s) j
  = if decide (i = j ∧ (j < length (ss_status s))%nat) then st else statusAt s j.
Proof.
  unfold statusAt, ss_set_status. simpl. rewrite list_lookup_insert.
  repeat destruct (decide _); (done || (exfalso; naive_solver)).
Qed.

Lemma status_ok_set s i st :
  status_ok s → correct st i → status_ok (ss_set_status i st s).
Proof.
  intros [[Hl Hl2] Hc] Hst. split; [simpl; by rewrite length_insert|]. intros j.
  rewrite statusAt_set. case_decide as E; [|apply Hc]. by destruct E as [<- _].
Qed.

Lemma status_ok_cycle s i b : status_ok s → status_ok (ss_set_cycle i b s).
Proof. intros [[Hl Hl2] Hc]. split; [simpl; by rewrite length_insert|]. exact Hc. Qed.

(** The loop over the children, given what a call guarantees. *)
Lemma determineChildren_spec rec (stk : list bool) cs :
  (∀ id j s, id ∈ cs → newMap !! id = Some j → status_ok s → ss_cycle s = stk →
     default false (stk !! j) = false → ∃ b s', rec j s = Some (b, s') ∧ status_post j s b s') →
  ∀ s, status_ok s → ss_cycle s = stk →
  ∃ r s', determineChildren newMap rec cs s = Some (r, s') ∧ status_ok s' ∧
    (∀ j, statusAt s j ≠ UPDATE_UNKNOWN → statusAt s' j = statusAt s j) ∧
    match r with
    | None => True
    | Some st => ss_cycle s' = stk ∧
        (st = UPDATE_REPLACE ∧ (∃ id j, id ∈ cs ∧ newMap !! id = Some j ∧ replaced j)
         ∨ st = UPDATE_PRESERVE ∧ ∀ id, id ∈ cs → ∃ j, newMap !! id = Some j ∧
             (view j = Settled UPDATE_NEW ∨ kept j))
    end.
Proof.
  induction cs as [|id cs IH]; intros Hrec s Hok Hstk; cbn [determineChildren].
  { exists (Some UPDATE_PRESERVE), s. split_and!; try done. right. split; [done|]. by intros ??%not_elem_of_nil. }
  destruct (newMap !! id) as [j|] eqn:Hj; [|by exists None, s; split_and!].
  destruct (default false (ss_cycle s !! j)) eqn:Hst; [by exists None, s; split_and!|].
  destruct (Hrec id j s) as (b & s1 & -> & Hp); [by left|done..|by rewrite <- Hstk|].
  pose proof (sp_ok _ _ _ _ Hp) as Hok1. pose proof (sp_keeps _ _ _ _ Hp) as Hk1.
  destruct b; [|by exists None, s1]. destruct (sp_success _ _ _ _ Hp eq_refl) as [Hc1 Hst1].
  pose proof (so_correct _ Hok1 j Hst1) as Hcor. case_bool_decide as E.
  - rewrite E in Hcor. exists (Some UPDATE_REPLACE), s1. split_and!; [done..|congruence|].
    left. split; [done|]. exists id, j. split_and!; [by left|done..].
  - destruct (IH) with (s := s1) as (r & s2 & -> & Hok2 & Hk2 & Hr); [|done|congruence|].
    { intros id' j' s' Hin. apply Hrec. by right. }
    exists r, s2. split_and!; [done..| |].
    { intros k Hk. rewrite Hk2, Hk1; [done..|]. by rewrite Hk1. }
    destruct r as [st|]; [|done]. destruct Hr as [Hc2 Hr]. split; [done|].
    destruct Hr as [(-> & id' & j' & Hin & ?)|[-> Hall]].
    + left. split; [done|]. exists id', j'. split; [by right|done].
    + right. split; [done|]. intros id' [->|Hin]%elem_of_cons; [|by apply Hall].
      exists j. split; [done|]. destruct (statusAt s1 j); try done; [by right|by left].
Qed.

(** A call on a node that is not on the stack returns, with correct statuses. *)
Lemma determine_spec fuel : ∀ i s,
  status_ok s → (i < n)%nat → default false (ss_cycle s !! i) = false →
  (free (ss_cycle s) < fuel)%nat →
  ∃ b s', determineUpdateStatus view newMap fuel i s = Some (b, s') ∧ status_post i s b s'.
Proof using Hsettled Hmap.
  induction fuel as [|fuel IH]; intros i s Hok Hi Hst Hfuel; [lia|]. cbn [determineUpdateStatus].
  case_bool_decide as Hunk; simpl.
  2:{ exists true, s. split; [done|]. by split. }
  destruct (view i) as [st|cs|] eqn:Hv.
  - exists true, (ss_set_status i st s). split; [done|].
    assert (st ≠ UPDATE_UNKNOWN) by (intros ->; by apply (Hsettled i)).
    destruct Hok as [[Hl Hl2] Hc] eqn:Eok. rewrite <- Hl in Hi. split.
    + apply status_ok_set; [done|]. by destruct st; simpl; [|constructor..|].
    + intros j Hj. rewrite statusAt_set. case_decide as E; [|done]. by destruct E as [<- _].
    + intros _. split; [done|]. rewrite statusAt_set. by rewrite decide_True.
  - assert (Hs : ss_cycle s !! i = Some false).
    { destruct (lookup_lt_is_Some_2 (ss_cycle s) i) as [b Hb];
        [by rewrite (proj2 (so_length _ Hok))|]. rewrite Hb in *. by simpl in Hst; subst. }
    destruct (determineChildren_spec (determineUpdateStatus view newMap fuel) (<[i := true]> (ss_cycle s)) cs)
      with (s := ss_set_cycle i true s) as (r & s2 & -> & Hok2 & Hk2 & Hr);
      [|by apply status_ok_cycle|done|].
    { intros id j s' Hin Hj Hok' Hs' Hstj. apply IH; rewrite ?Hs'; try done.
      - by eapply Hmap.
      - pose proof (free_set _ _ Hs). lia. }
    destruct r as [st|]; [|by exists false, s2]. destruct Hr as [Hc2 Hr].
    exists true, (ss_set_cycle i false (ss_set_status i st s2)). split; [done|].
    assert (Hlt2 : (i < length (ss_status s2))%nat) by by rewrite (proj1 (so_length _ Hok2)).
    assert (Hcor : correct st i).
    { destruct Hr as [(-> & id & j & Hin & Hj & Hrj)|[-> Hall]]; simpl.
      - by eapply replaced_child.
      - eapply kept_parent; [done| |].
        + intros id Hin. destruct (Hall id Hin) as (j & -> & _). done.
        + intros id j Hin Hj Hn. destruct (Hall id Hin) as (j' & Hj' & [H|H]); congruence. }
    split.
    + by apply status_ok_cycle, status_ok_set.
    + intros j Hj. change (statusAt (ss_set_status i st s2) j = statusAt s j). rewrite statusAt_set.
      case_decide as E; [by destruct E as [<- _]|]. by apply Hk2.
    + intros _. split.
      * simpl. by rewrite Hc2, list_insert_insert_eq, list_insert_id.
      * change (statusAt (ss_set_status i st s2) i ≠ UPDATE_UNKNOWN). rewrite statusAt_set, decide_True by done.
        by destruct Hr as [[-> _]|[-> _]].
  - exists false, s. by split; [|split].
Qed.

(** *** Completeness *)

Definition viewChild (i j : nat) : Prop :=
  ∃ cs id, view i = Descend cs ∧ id ∈ cs ∧ newMap !! id = Some j.

Lemma sound_acyclic i : sound i → ¬ tc viewChild i i.
Proof using.
  induction 1 as [i st Hv _|i cs Hv _ _ IH]; intros Ht.
  - assert (∃ j, viewChild i j) as (j & cs & id & H & _) by (inversion Ht; subst; eauto).
    congruence.
  - assert (∃ j, viewChild i j ∧ tc viewChild j j) as (j & (cs' & id & Hv' & Hid & Hj) & Hjj).
    { inversion Ht as [? ? H|? j ? H Hji]; subst; [by exists i|].
      exists j. split; [done|]. by eapply tc_r. }
    assert (cs' = cs) as -> by congruence. by eapply IH.
Qed.

Lemma determineChildren_complete rec (stk : list bool) cs :
  (∀ id, id ∈ cs → is_Some (newMap !! id)) →
  (∀ id j s, id ∈ cs → newMap !! id = Some j → status_ok s → ss_cycle s = stk →
     default false (stk !! j) = false ∧ ∃ s', rec j s = Some (true, s') ∧ status_post j s true s') →
  ∀ s, status_ok s → ss_cycle s = stk →
  ∃ st s', determineChildren newMap rec cs s = Some (Some st, s').
Proof using.
  induction cs as [|id cs IH]; intros Hex Hrec s Hok Hstk; cbn [determineChildren]; [by eauto|].
  destruct (Hex id ltac:(by left)) as [j Hj]. rewrite Hj.
  destruct (Hrec id j s) as (Hst & s1 & -> & Hp); [by left|done..|].
  rewrite Hstk, Hst. case_bool_decide; [by eauto|].
  apply IH; [intros ??; apply Hex; by right| |by apply Hp|].
  - intros id' j' s' Hin. apply Hrec. by right.
  - destruct (sp_success _ _ _ _ Hp eq_refl). congruence.
Qed.

Lemma determine_complete fuel : ∀ i s,
  status_ok s → (i < n)%nat → sound i → (free (ss_cycle s) < fuel)%nat →
  (∀ j, ss_cycle s !! j = Some true → tc viewChild j i) →
  ∃ s', determineUpdateStatus view newMap fuel i s = Some (true, s') ∧ status_post i s true s'.
Proof using Hsettled Hmap.
  induction fuel as [|fuel IH]; intros i s Hok Hi Hg Hfuel Hanc; [lia|].
  assert (Hst : default false (ss_cycle s !! i) = false).
  { destruct (ss_cycle s !! i) as [[]|] eqn:E; try done. by destruct (sound_acyclic i Hg); auto. }
  destruct (determine_spec (S fuel) i s Hok Hi Hst Hfuel) as (b & s' & Hd & Hp).
  enough (b = true) as -> by eauto.
  cbn [determineUpdateStatus] in Hd. case_bool_decide; simpl in Hd; [|congruence].
  destruct Hg as [st Hv _|cs Hv Hex Hsub]; rewrite Hv in Hd; [congruence|].
  assert (Hs : ss_cycle s !! i = Some false).
  { destruct (lookup_lt_is_Some_2 (ss_cycle s) i) as [b' Hb];
      [by rewrite (proj2 (so_length _ Hok))|]. rewrite Hb in *. by simpl in Hst; subst. }
  destruct (determineChildren_complete (determineUpdateStatus view newMap fuel)
    (<[i := true]> (ss_cycle s)) cs) with (s := ss_set_cycle i true s) as (st & s2 & E);
    [done| |by apply status_ok_cycle|done|rewrite E in Hd; congruence].
  intros id j s3 Hin Hj Hok' Hs'.
  assert (Hanc' : ∀ k, <[i := true]> (ss_cycle s) !! k = Some true → tc viewChild k j).
  { intros k. destruct (decide (i = k)) as [<-|]; [intros _; constructor; by exists cs, id|].
    rewrite list_lookup_insert_ne by done. intros ?%Hanc. eapply tc_r; [done|]. by exists cs, id. }
  split.
  - destruct (<[i := true]> (ss_cycle s) !! j) as [[]|] eqn:E; try done.
    by destruct (sound_acyclic j); eauto.
  - apply IH; rewrite ?Hs'; eauto. pose proof (free_set _ _ Hs). lia.
Qed.

Lemma determineAll_spec fuel : ∀ idxs s,
  status_ok s → (∀ j, ss_cycle s !! j ≠ Some true) → (free (ss_cycle s) < fuel)%nat →
  Forall (λ i, (i < n)%nat) idxs →
  ∃ b s', determineAll view newMap fuel idxs s = Some (b, s') ∧ status_ok s' ∧
    (b = true → (∀ j, statusAt s j ≠ UPDATE_UNKNOWN → statusAt s' j = statusAt s j) ∧
                Forall (λ i, statusAt s' i ≠ UPDATE_UNKNOWN) idxs) ∧
    (Forall sound idxs → b = true).
Proof using Hsettled Hmap.
  induction idxs as [|i idxs IH]; intros s Hok Hst Hfuel Hlt; cbn [determineAll].
  { exists true, s. by split_and!. }
  apply Forall_cons_1 in Hlt as [Hi Hlt].
  destruct (determine_spec fuel i s) as (b & s1 & Hd & Hp); try done.
  { by destruct (ss_cycle s !! i) as [[]|] eqn:E; try done; destruct (Hst i). }
  rewrite Hd. destruct b.
  - destruct (sp_success _ _ _ _ Hp eq_refl) as [Hc Hs1].
    destruct (IH s1) as (b & s2 & -> & Hok2 & Hb & Hg); rewrite ?Hc; try done; [apply Hp|].
    exists b, s2. split_and!; [done..| |].
    + intros E. destruct (Hb E) as [Hk Hall]. split.
      * intros j Hj. rewrite Hk; rewrite (sp_keeps _ _ _ _ Hp) by done; done.
      * constructor; [|done]. by rewrite Hk.
    + intros [_ ?]%Forall_cons_1. auto.
  - exists false, s1. split_and!; [done|apply Hp|done|]. intros [Hs _]%Forall_cons_1.
    destruct (determine_complete fuel i s) as (s' & E & _); try done; [|congruence].
    intros j Hj. by destruct (Hst j).
Qed.

Lemma statusAt_replicate k c i : statusAt (mkStatusState (replicate k UPDATE_UNKNOWN) c) i = UPDATE_UNKNOWN.
Proof using.
  unfold statusAt. simpl. destruct (replicate k UPDATE_UNKNOWN !! i) eqn:E; [|done].
  by apply lookup_replicate in E as [-> _].
Qed.

(** The statuses of all nodes are the declared ones, and they exist when every node is sound. *)
Lemma updateStatuses_spec :
  match updateStatuses view newMap n with
  | Some statuses => length statuses = n ∧ ∀ i st, statuses !! i = Some st → correct st i
  | None => ¬ ∀ i, (i < n)%nat → sound i
  end.
Proof using Hsettled Hmap.
  unfold updateStatuses.
  destruct (determineAll_spec (statusFuel n) (seq 0 n)
    (mkStatusState (replicate n UPDATE_UNKNOWN) (replicate n false))) as (b & s & -> & Hok & Hb & Hc).
  - split; [simpl; by rewrite !length_replicate|]. intros i. by rewrite statusAt_replicate.
  - intros j [? _]%lookup_replicate. done.
  - simpl. pose proof (free_replicate n). unfold statusFuel. lia.
  - apply Forall_forall. intros i [_ ?]%elem_of_seq. lia.
  - destruct b.
    + destruct (Hb eq_refl) as [_ Hall]. split; [apply Hok|]. intros i st Hi.
      assert (Hlt : (i < n)%nat) by (rewrite <- (proj1 (so_length _ Hok)); by eapply lookup_lt_Some).
      rewrite Forall_forall in Hall. specialize (Hall i). rewrite elem_of_seq in Hall.
      specialize (Hall ltac:(lia)). pose proof (so_correct _ Hok i Hall) as Hcor.
      unfold statusAt in Hcor. by rewrite Hi in Hcor.
    + intros Hs. enough (false = true) by done. apply Hc, Forall_forall.
      intros i [_ ?]%elem_of_seq. apply Hs. lia.
Qed.
End statuses.

(** ** Positions of ids *)

Definition positions (ids : list Z) (m : gmap Z nat) : Prop :=
  ∀ id k, m !! id = Some k ↔ ids !! k = Some id.

Lemma positions_unique ids m m' : positions ids m → positions ids m' → m = m'.
Proof.
  intros H H'. apply map_eq. intros id. apply option_eq. intros k. by rewrite (H id k), (H' id k).
Qed.

Lemma indexIds_spec : ∀ ids pre m,
  NoDup pre → positions pre m →
  match indexIds ids (length pre) m with
  | Some m' => NoDup (pre ++ ids) ∧ positions (pre ++ ids) m'
  | None => ¬ NoDup (pre ++ ids)
  end.
Proof.
  induction ids as [|id ids IH]; intros pre m Hn Hp; cbn [indexIds]; [by rewrite app_nil_r|].
  destruct (m !! id) as [k|] eqn:E.
  - intros (_ & Hdis & _)%NoDup_app. apply Hp in E. apply list_elem_of_lookup_2 in E.
    by destruct (Hdis id E); left.
  - assert (Hnot : id ∉ pre).
    { intros (k & Hk)%list_elem_of_lookup. apply Hp in Hk. congruence. }
    specialize (IH (pre ++ [id]) (<[id := length pre]> m)).
    rewrite length_app, Nat.add_1_r, <- app_assoc in IH. simpl in IH. apply IH.
    + apply NoDup_app. split_and!; [done| |apply NoDup_singleton].
      by intros x Hx ->%list_elem_of_singleton.
    + intros id' k. rewrite lookup_insert_Some, lookup_snoc_Some, (Hp id' k). split.
      * intros [[<- <-]|[Hne Hk]]; [by right|left]. split; [by eapply lookup_lt_Some|done].
      * intros [[_ Hk]|[-> ->]]; [|by left]. right. split; [|done].
        intros ->. by apply list_elem_of_lookup_2 in Hk.
Qed.

Lemma indexIds_nodup ids :
  match indexIds ids 0 ∅ with
  | Some m => NoDup ids ∧ positions ids m
  | None => ¬ NoDup ids
  end.
Proof. apply (indexIds_spec ids [] ∅); [constructor|]. intros id k. by rewrite lookup_nil, lookup_empty. Qed.

(** ** What identifies the trackers of a configuration *)

Section built.
Context (cfg : list AtomMatcher) (map : gmap Z nat).

(** Initialization never changes the id of a tracker. *)
Definition same_ids (s s' : InitState) : Prop := mId <$> is_trackers s' = mId <$> is_trackers s.

Lemma alter_ids f i (ts : list AtomMatchingTracker) :
  (∀ t, mId (f t) = mId t) → mId <$> alter f i ts = mId <$> ts.
Proof.
  intros Hf. apply list_eq. intros j. rewrite !list_lookup_fmap.
  destruct (decide (i = j)) as [->|]; [|by rewrite list_lookup_alter_ne].
  rewrite list_lookup_alter_eq. destruct (ts !! j); simpl; by rewrite ?Hf.
Qed.

Lemma init_children_ids rec i :
  (∀ c s b s', rec c s = Some (b, s') → same_ids s s') →
  ∀ cs s b s', init_children map rec i cs s = Some (b, s') → same_ids s s'.
Proof.
  intros Hrec cs. induction cs as [|c cs IH]; intros s b s' H; cbn [init_children] in H.
  { by simplify_eq. }
  destruct (map !! c) as [ci|]; [|by simplify_eq]. destruct (default false _); [by simplify_eq|].
  destruct (rec ci s) as [[[] s1]|] eqn:E; [|simplify_eq|done]; [|by eapply Hrec].
  apply Hrec in E. apply IH in H. unfold same_ids in *. rewrite H. simpl. rewrite alter_ids; done.
Qed.

Lemma init_ids fuel : ∀ i s b s', init cfg map fuel i s = Some (b, s') → same_ids s s'.
Proof.
  induction fuel as [|fuel IH]; intros i s b s' H; cbn [init] in H; [done|].
  destruct (is_trackers s !! i) as [t|]; [|by simplify_eq].
  destruct (mKind t); [by simplify_eq|]. destruct (mInitialized t); [by simplify_eq|].
  destruct (comb_operation _); [|by simplify_eq]. destruct (_ && _).
  { simplify_eq. unfold same_ids. simpl. by apply alter_ids. }
  destruct (init_children _ _ _ _ _) as [[[] s1]|] eqn:E; simplify_eq;
    eapply init_children_ids in E; [|eauto..]; unfold same_ids in *; simpl in *;
    rewrite ?alter_ids, E, ?alter_ids; done.
Qed.

Lemma init_all_ids fuel : ∀ idxs s tags b s' tags',
  init_all cfg map fuel idxs s tags = Some (b, s', tags') → same_ids s s'.
Proof.
  induction idxs as [|i idxs IH]; intros s tags b s' tags' H; cbn [init_all] in H; [by simplify_eq|].
  destruct (init cfg map fuel i s) as [[[] s1]|] eqn:E; simplify_eq; apply init_ids in E; [|done].
  apply IH in H. unfold same_ids in *. congruence.
Qed.

(** The trackers that belong to the configuration: there is only one such vector. *)
Record built (ts : list AtomMatchingTracker) : Prop := {
  bu_config : from_config cfg ts;
  bu_length : length ts = length cfg;
  bu_ids : mId <$> ts = am_id <$> cfg;
  bu_simple : ∀ i m sm, cfg !! i = Some m → am_contents m = kSimpleAtomMatcher sm →
    ts !! i = Some (SimpleAtomMatchingTracker_new (am_id m) i sm);
  bu_wf : ∀ i, (i < length ts)%nat → wf_node cfg map ts i
}.

Lemma built_tracker ts i m c :
  built ts → cfg !! i = Some m → am_contents m = kCombination c →
  ∃ op cs, comb_operation c = Some op ∧ Forall2 (λ id j, map !! id = Some j) (comb_matcher c) cs ∧
    ts !! i = Some (mkTracker (am_id m) i true (⋃ (ids_of ts <$> cs)) (CombinationTracker op cs)) ∧
    (∀ j, j ∈ cs → (j < length ts)%nat) ∧ (op = NOT → length cs = 1%nat).
Proof.
  intros [Hfc Hl Hids Hs Hwf] Hm Hc.
  assert (Hi : (i < length ts)%nat) by (rewrite Hl; by eapply lookup_lt_Some).
  pose proof (Hfc i m Hm) as Hsh. rewrite Hc in Hsh. apply fmap_Some in Hsh as (t & Ht & Hsh).
  assert (Hid : mId t = am_id m).
  { apply (f_equal (.!! i)) in Hids. rewrite !list_lookup_fmap, Ht, Hm in Hids. by injection Hids. }
  destruct (Hwf i Hi) as [t' sm Ht' Hk _|t' op cs Ht' Hk Hin Hop Hcs Hnot Hat Hsub]; simplify_eq.
  { unfold shape in Hsh. by rewrite Hk in Hsh. }
  rewrite (combinationAt_eq cfg i m c) in * by done. exists op, cs. split_and!; try done.
  - rewrite Ht. f_equal. unfold shape in Hsh. destruct t; simpl in *. rewrite Hk in Hsh. by simplify_eq.
  - intros j Hj. destruct (wf_node_initialized _ _ _ _ (Hsub j Hj)) as (? & ? & _).
    by eapply lookup_lt_Some.
Qed.

Lemma built_unique ts ts' : built ts → built ts' → ts = ts'.
Proof.
  intros Hb Hb'. assert (Hall : ∀ i, wf_node cfg map ts i → ts !! i = ts' !! i).
  { intros i Hw. induction Hw as [i t sm Ht Hk Hi|i t op cs Ht Hk Hi Hop Hcs Hnot Hids Hsub IH].
    all: assert (is_Some (cfg !! i)) as [m Hm]
      by (apply lookup_lt_is_Some; rewrite <- (bu_length _ Hb); by eapply lookup_lt_Some).
    all: pose proof (bu_config _ Hb i m Hm) as Hsh; rewrite Ht in Hsh; simpl in Hsh;
      unfold shape in Hsh; rewrite Hk in Hsh.
    - destruct (am_contents m) as [sm'| |] eqn:Hc; try done.
      by rewrite (bu_simple _ Hb i m sm' Hm Hc), (bu_simple _ Hb' i m sm' Hm Hc).
    - destruct (am_contents m) as [|c|] eqn:Hc; try done.
      + destruct (built_tracker ts i m c Hb Hm Hc) as (op1 & cs1 & Ho1 & Hf1 & E1 & _).
        destruct (built_tracker ts' i m c Hb' Hm Hc) as (op2 & cs2 & Ho2 & Hf2 & E2 & _).
        rewrite E1, E2. assert (op1 = op2) as -> by congruence.
        assert (cs1 = cs2) as ->.
        { eapply list_eq. intros k. destruct (comb_matcher c !! k) as [id|] eqn:Hk'.
          - destruct (Forall2_lookup_l _ _ _ _ _ Hf1 Hk') as (j1 & -> & ?).
            destruct (Forall2_lookup_l _ _ _ _ _ Hf2 Hk') as (j2 & -> & ?). congruence.
          - apply lookup_ge_None in Hk'. pose proof (Forall2_length _ _ _ Hf1).
            pose proof (Forall2_length _ _ _ Hf2).
            rewrite (lookup_ge_None_2 cs1), (lookup_ge_None_2 cs2) by lia. done. }
        assert (cs = cs2) as -> by (rewrite E1 in Ht; injection Ht as <-; simpl in Hk; congruence).
        do 2 f_equal. f_equal. apply list_fmap_ext. intros ? j Hj%list_elem_of_lookup_2.
        unfold ids_of. by rewrite (IH j Hj).
      + unfold combinationAt in Hop. rewrite Hm in Hop. simpl in Hop. by rewrite Hc in Hop. }
  apply list_eq. intros i. destruct (decide (i < length ts)%nat) as [Hi|Hi].
  - apply Hall, (bu_wf _ Hb), Hi.
  - rewrite !lookup_ge_None_2; [done| |lia]. rewrite (bu_length _ Hb'), <- (bu_length _ Hb). lia.
Qed.
End built.

(** ** Initialization from any consistent vector of trackers *)

(** Trackers that [init] can complete: those of simple matchers are as created. *)
Record startable (cfg : list AtomMatcher) (map : gmap Z nat) (ts : list AtomMatchingTracker) : Prop := {
  st_length : length ts = length cfg;
  st_ids : mId <$> ts = am_id <$> cfg;
  st_config : from_config cfg ts;
  st_simple : ∀ i m sm, cfg !! i = Some m → am_contents m = kSimpleAtomMatcher sm →
    ts !! i = Some (SimpleAtomMatchingTracker_new (am_id m) i sm);
  st_ok : init_ok cfg map (mkInit ts (replicate (length cfg) false))
}.

Lemma init_all_built cfg map ts :
  startable cfg map ts →
  ∃ b s tags, init_all cfg map (initFuel (length cfg)) (seq 0 (length cfg))
      (mkInit ts (replicate (length cfg) false)) ∅ = Some (b, s, tags) ∧
    (b = true → built cfg map (is_trackers s) ∧ tags = ⋃ (mAtomIds <$> is_trackers s)) ∧
    ((∀ i, (i < length cfg)%nat → good cfg map i) → b = true).
Proof.
  intros [Hl Hids Hfc Hsim Hok]. set (n := length cfg) in *.
  destruct (init_all_spec cfg map (initFuel n) (seq 0 n) _ ∅ Hok)
    as (b & s & tags & Hall & Hlen & Hk & Hfc' & Hb & Hc); simpl in *; try done.
  { intros j [? _]%lookup_replicate. done. }
  { pose proof (free_replicate n). unfold initFuel. lia. }
  exists b, s, tags. split; [done|]. split.
  2:{ intros Hg. apply Hc, Forall_forall. intros i [_ ?]%elem_of_seq. apply Hg. lia. }
  intros E. destruct (Hb E) as [Hw ->]. rewrite Forall_forall in Hw.
  assert (Hwf : ∀ i, (i < n)%nat → wf_node cfg map (is_trackers s) i).
  { intros i Hi. apply Hw, elem_of_seq. lia. }
  split.
  - split; [done|lia| | |].
    + apply init_all_ids in Hall. unfold same_ids in Hall. simpl in Hall. congruence.
    + intros i m sm Hm Hsm. pose proof (Hsim i m sm Hm Hsm) as Ht. apply Hk; [done|].
      assert (Hi : (i < n)%nat) by by eapply lookup_lt_Some.
      destruct (wf_node_initialized _ _ _ _ (Hwf i Hi)) as (t & Ht' & Hinit).
      pose proof (Hfc' i m Hm) as Hsh. rewrite Ht', Hsm in Hsh. simpl in Hsh. unfold shape in Hsh.
      destruct (mKind t); [|done]. rewrite Hinit in Hsh. injection Hsh as _ _ Hb'.
      symmetry in Hb'. apply bool_decide_eq_true in Hb' as [a Ha].
      unfold SimpleAtomMatchingTracker_new. by rewrite Ha.
    + intros i Hi. apply Hwf. congruence.
  - rewrite union_empty_l_L. f_equal. apply list_eq. intros k. rewrite !list_lookup_fmap.
    destruct (decide (k < n)%nat).
    + rewrite lookup_seq_lt by done. simpl. unfold ids_of.
      destruct (lookup_lt_is_Some_2 (is_trackers s) k) as [t ->]; [|done]. by rewrite Hlen, Hl.
    + rewrite lookup_seq_ge, lookup_ge_None_2; [done| |lia]. rewrite Hlen. lia.
Qed.

Lemma created_startable cfg ts map : created cfg ts map → startable cfg map ts.
Proof.
  intros Hcr. destruct (created_start cfg map ts Hcr) as [Hfc Hok].
  pose proof (cr_length _ _ _ Hcr) as Hl. rewrite Hl in Hok. split; try done.
  - apply list_eq. intros k. rewrite !list_lookup_fmap. destruct (cfg !! k) as [m|] eqn:Hm.
    + destruct (cr_tracker _ _ _ Hcr k m Hm) as (t & Ht & ->). simpl. f_equal.
      unfold createAtomMatchingTracker, SimpleAtomMatchingTracker_new in Ht.
      destruct (am_contents m) as [sm| |]; simplify_eq; try done. by destruct (sam_atom_id sm); simplify_eq.
    + rewrite lookup_ge_None_2; [done|]. rewrite Hl. by apply lookup_ge_None.
  - intros i m sm Hm Hsm. destruct (cr_tracker _ _ _ Hcr i m Hm) as (t & Ht & ->).
    unfold createAtomMatchingTracker in Ht. rewrite Hsm in Ht. by simplify_eq.
Qed.

(** A configuration read from scratch. *)
Lemma initAtomMatchingTrackers_built cfg :
  match initAtomMatchingTrackers cfg with
  | Some (ts, map, tags) =>
      good_config cfg ∧ built cfg map ts ∧ positions (am_id <$> cfg) map ∧
      tags = ⋃ (mAtomIds <$> ts)
  | None => ¬ good_config cfg
  end.
Proof.
  pose proof (init_trackers_iff_good cfg) as [_ Hgood].
  destruct (initAtomMatchingTrackers cfg) as [[[ts map] tags]|] eqn:E; [|done].
  destruct Hgood as (Hg & _ & Hpos & _ & Htags). split; [done|].
  pose proof (create_all_spec cfg [] [] ∅ created_nil) as Hcr. simpl in Hcr.
  unfold initAtomMatchingTrackers in E.
  destruct (create_all cfg 0 [] ∅) as [[ts0 map0]|]; [simpl in E|done]. destruct Hcr as [Hcr _].
  pose proof (cr_length _ _ _ Hcr) as Hl. rewrite Hl in E.
  destruct (init_all_built cfg map0 ts0 (created_startable _ _ _ Hcr)) as (b & s & tags0 & Hi & Hb & _).
  rewrite Hi in E. simpl in E. destruct b; simplify_eq. destruct (Hb eq_refl) as [Hbu _].
  split_and!; try done. intros id k. rewrite list_lookup_fmap. apply Hpos.
Qed.

(** ** Matchers *)

Section matcher_update.
Context (serialize : AtomMatcher → option (list Z)) (cfg oldCfg : list AtomMatcher).
Context (oldMap : gmap Z nat) (oldTs : list AtomMatchingTracker) (oldHashes : list Z).
Context (Hbuilt : built oldCfg oldMap oldTs) (Hpos : positions (am_id <$> oldCfg) oldMap).
Context (Hhashes : ∀ k m, oldCfg !! k = Some m → oldHashes !! k = matcherHash serialize m).
Context (Hserial : ∀ m, m ∈ cfg → is_Some (serialize m)).
Context (Hinj : ∀ m m', m ∈ oldCfg → m' ∈ cfg → am_id m = am_id m' →
  matcherHash serialize m = matcherHash serialize m' → m = m').
Context (newMap : gmap Z nat) (Hnew : positions (am_id <$> cfg) newMap).

Notation mview := (matcherView serialize cfg oldMap oldHashes).

Lemma newMap_cfg id j : newMap !! id = Some j → ∃ m, cfg !! j = Some m ∧ am_id m = id.
Proof using Hnew.
  intros Hj. apply Hnew in Hj. rewrite list_lookup_fmap in Hj.
  apply fmap_Some in Hj as (m & ? & ->). eauto.
Qed.

Lemma mview_lt i : mview i ≠ Malformed → (i < length cfg)%nat.
Proof using.
  unfold matcherView. destruct (cfg !! i) eqn:E; [|done]. intros _. by eapply lookup_lt_Some.
Qed.

Lemma mview_settled i : mview i ≠ Settled UPDATE_UNKNOWN.
Proof using. unfold matcherView. by repeat case_match. Qed.

(** A matcher that is not new and whose hash is the old one has the old message. *)
Lemma unchanged_old i m old :
  cfg !! i = Some m → oldMap !! am_id m = Some old → oldHashes !! old = matcherHash serialize m →
  oldCfg !! old = Some m.
Proof using Hpos Hhashes Hinj.
  intros Hm Hold Hh. apply Hpos in Hold. rewrite list_lookup_fmap in Hold.
  apply fmap_Some in Hold as (m' & Hm' & Hid). rewrite (Hhashes _ _ Hm') in Hh.
  rewrite Hm'. f_equal. apply Hinj; try done; by eapply list_elem_of_lookup_2.
Qed.

Lemma mview_cases i :
  match mview i with
  | Settled UPDATE_PRESERVE => ∃ m sm old, cfg !! i = Some m ∧ am_contents m = kSimpleAtomMatcher sm ∧
      oldMap !! am_id m = Some old ∧ oldCfg !! old = Some m ∧ is_Some (oldHashes !! old)
  | Descend cs => ∃ m c old, cfg !! i = Some m ∧ am_contents m = kCombination c ∧ cs = comb_matcher c ∧
      oldMap !! am_id m = Some old ∧ oldCfg !! old = Some m ∧ is_Some (oldHashes !! old)
  | Settled UPDATE_NEW => ∃ m, cfg !! i = Some m ∧ oldMap !! am_id m = None
  | Settled UPDATE_REPLACE => ∃ m, cfg !! i = Some m ∧ is_Some (oldMap !! am_id m)
  | Settled UPDATE_UNKNOWN => False
  | Malformed => ∀ m, cfg !! i = Some m → am_contents m = CONTENTS_NOT_SET
  end.
Proof using Hpos Hhashes Hinj Hserial.
  unfold matcherView. destruct (cfg !! i) as [m|] eqn:Hm; [|done].
  destruct (oldMap !! am_id m) as [old|] eqn:Ho; [|by exists m].
  destruct (matcherHash serialize m) as [h|] eqn:Hh.
  2:{ unfold matcherHash in Hh. destruct (Hserial m) as [? E]; [by eapply list_elem_of_lookup_2|].
      by rewrite E in Hh. }
  case_bool_decide as E; simpl; [|by exists m]. rewrite <- Hh in E.
  pose proof (unchanged_old i m old Hm Ho E) as Hold. rewrite Hh in E.
  destruct (am_contents m) as [sm|c|] eqn:Hc.
  - exists m, sm, old. by rewrite E.
  - exists m, c, old. by rewrite E.
  - by intros ? [= <-].
Qed.

Lemma children_indices (m : gmap Z nat) (ids : list Z) :
  (∀ id, id ∈ ids → is_Some (m !! id)) → ∃ js, Forall2 (λ id j, m !! id = Some j) ids js.
Proof using.
  induction ids as [|id ids IH]; intros H; [by exists []|].
  destruct (H id ltac:(by left)) as [j Hj]. destruct IH as [js Hjs]; [intros ??; apply H; by right|].
  exists (j :: js). by constructor.
Qed.

Lemma combination_onConfigUpdated m c i map t js :
  am_contents m = kCombination c → Forall2 (λ id j, map !! id = Some j) (comb_matcher c) js →
  CombinationAtomMatchingTracker_onConfigUpdated m i map t
  = (true, mkTracker (mId t) i (mInitialized t) (mAtomIds t) (CombinationTracker (tracker_operation t) js)).
Proof using.
  intros Hc Hjs. unfold CombinationAtomMatchingTracker_onConfigUpdated. rewrite Hc.
  match goal with |- (let '(_, _) := ?go _ [] in _) = _ => set (loop := go) end.
  assert (E : ∀ ids js acc, Forall2 (λ id j, map !! id = Some j) ids js →
    loop ids acc = (true, acc ++ js)).
  { intros ids js' acc H. revert acc. induction H as [|id j ids js' Hj _ IH]; intros acc; simpl.
    - by rewrite app_nil_r.
    - by rewrite Hj, IH, <- app_assoc. }
  by rewrite (E _ js [] Hjs).
Qed.

Lemma updateMatchers_spec statuses : ∀ ms i,
  match updateMatchers serialize oldMap oldTs oldHashes newMap statuses ms i with
  | Some hashed => length hashed = length ms ∧
      ∀ k m, ms !! k = Some m → ∃ st, statuses !! (i + k)%nat = Some st ∧
        hashed !! k = updateMatcher serialize oldMap oldTs oldHashes newMap st m (i + k)
  | None => ∃ k m, ms !! k = Some m ∧ ∀ st, statuses !! (i + k)%nat = Some st →
      updateMatcher serialize oldMap oldTs oldHashes newMap st m (i + k) = None
  end.
Proof using.
  induction ms as [|m ms IH]; intros i; cbn [updateMatchers]; [done|].
  destruct (statuses !! i) as [st|] eqn:Hst; simpl.
  2:{ exists 0%nat, m. rewrite Nat.add_0_r, Hst. done. }
  destruct (updateMatcher _ _ _ _ _ st m i) as [t|] eqn:Ht; simpl.
  2:{ exists 0%nat, m. rewrite Nat.add_0_r, Hst. split; [done|]. by intros ? [= <-]. }
  specialize (IH (S i)).
  destruct (updateMatchers _ _ _ _ _ statuses ms (S i)) as [ts|]; simpl.
  - destruct IH as [Hl IH]. split; [by rewrite Hl|]. intros [|k] m' Hk; simpl in *.
    + simplify_eq. exists st. by rewrite Nat.add_0_r, Ht.
    + destruct (IH k m' Hk) as (st' & ? & ?). exists st'. by rewrite Nat.add_succ_r.
  - destruct IH as (k & m' & Hk & IH). exists (S k), m'. by rewrite Nat.add_succ_r.
Qed.

(** The tracker of a matcher that is kept. *)
Record keptTracker (i : nat) (m : AtomMatcher) (t : AtomMatchingTracker) : Prop := {
  kt_id : mId t = am_id m;
  kt_index : mIndex t = i;
  kt_init : mInitialized t = true;
  kt_atoms : ∃ old, oldMap !! am_id m = Some old ∧ mAtomIds t = ids_of oldTs old;
  kt_kind : match am_contents m with
            | kSimpleAtomMatcher sm => t = SimpleAtomMatchingTracker_new (am_id m) i sm
            | kCombination c => ∃ op cs, comb_operation c = Some op ∧
                mKind t = CombinationTracker op cs ∧ (op = NOT → length cs = 1%nat) ∧
                Forall2 (λ id j, newMap !! id = Some j) (comb_matcher c) cs ∧
                ∃ ocs, Forall2 (λ id j, oldMap !! id = Some j) (comb_matcher c) ocs ∧
                  mAtomIds t = ⋃ (ids_of oldTs <$> ocs)
            | CONTENTS_NOT_SET => False
            end
}.

Notation mkept := (kept mview newMap).

Lemma kept_updates i :
  mkept i → ∃ m t h, cfg !! i = Some m ∧
    updateMatcher serialize oldMap oldTs oldHashes newMap UPDATE_PRESERVE m i = Some (t, h) ∧
    keptTracker i m t.
Proof using Hbuilt Hpos Hhashes Hserial Hinj.
  intros Hk. pose proof (mview_cases i) as Hv. unfold updateMatcher.
  inversion Hk as [E|cs E Hex _]; rewrite E in Hv.
  - destruct Hv as (m & sm & old & Hm & Hc & Ho & Hold & [h Hh]).
    pose proof (bu_simple _ _ _ Hbuilt old m sm Hold Hc) as Ht.
    assert (Hlt : (old < length oldTs)%nat) by by eapply lookup_lt_Some.
    destruct (wf_node_initialized _ _ _ _ (bu_wf _ _ _ Hbuilt old Hlt)) as (t & Ht' & Hi).
    rewrite Ht in Ht'. simplify_eq. unfold SimpleAtomMatchingTracker_new in *.
    destruct (sam_atom_id sm) as [a|] eqn:Ha; [|done].
    exists m. rewrite Ho. simpl. rewrite Ht. simpl. rewrite Hh. simpl. eexists _, h.
    split_and!; [done..|]. split; try done.
    + exists old. split; [done|]. unfold ids_of. by rewrite Ht.
    + rewrite Hc. unfold SimpleAtomMatchingTracker_new. by rewrite Ha.
  - destruct Hv as (m & c & old & Hm & Hc & -> & Ho & Hold & [h Hh]).
    destruct (built_tracker _ _ _ _ _ _ Hbuilt Hold Hc) as (op & ocs & Hop & Hocs & Ht & _ & Hnot).
    destruct (children_indices newMap (comb_matcher c) Hex) as [js Hjs].
    exists m. rewrite Ho. simpl. rewrite Ht. simpl. rewrite Hh. simpl. unfold AtomMatchingTracker_onConfigUpdated.
    simpl. rewrite (combination_onConfigUpdated m c i newMap _ js Hc Hjs). simpl. eexists _, h.
    split_and!; [done..|]. split; try done.
    + exists old. split; [done|]. unfold ids_of. by rewrite Ht.
    + rewrite Hc. exists op, js. split_and!; try done; [|by exists ocs].
      intros E'. rewrite <- (Hnot E'), <- (Forall2_length _ _ _ Hjs), <- (Forall2_length _ _ _ Hocs). done.
Qed.

Lemma not_new id j : newMap !! id = Some j → is_Some (oldMap !! id) → mview j ≠ Settled UPDATE_NEW.
Proof using Hnew Hpos Hhashes Hserial Hinj.
  intros Hj [o Ho] E. pose proof (mview_cases j) as Hv. rewrite E in Hv. destruct Hv as (m & Hm & Hn).
  destruct (newMap_cfg id j Hj) as (m' & Hm' & Hid). congruence.
Qed.

Lemma kept_wf ts :
  (∀ i, mkept i → ∃ m t, cfg !! i = Some m ∧ ts !! i = Some t ∧ keptTracker i m t) →
  ∀ i, mkept i → wf_node cfg newMap ts i.
Proof using Hnew Hpos Hhashes Hserial Hinj.
  intros Hts i Hk. induction Hk as [i E|i cs E Hex Hsub IH].
  all: pose proof (mview_cases i) as Hv; rewrite E in Hv.
  - destruct Hv as (m & sm & old & Hm & Hc & _).
    destruct (Hts i ltac:(by apply kept_leaf)) as (m' & t & Hm' & Ht & Hkt). simplify_eq.
    pose proof (kt_init _ _ _ Hkt) as Hi. pose proof (kt_kind _ _ _ Hkt) as Hkind.
    rewrite Hc in Hkind. eapply (wf_simple _ _ _ _ t sm); [done| |done].
    rewrite Hkind. unfold SimpleAtomMatchingTracker_new. by destruct (sam_atom_id sm).
  - destruct Hv as (m & c & old & Hm & Hc & -> & _).
    destruct (Hts i ltac:(by eapply kept_parent)) as (m' & t & Hm' & Ht & Hkt). simplify_eq.
    pose proof (kt_init _ _ _ Hkt) as Hi. pose proof (kt_kind _ _ _ Hkt) as Hkind.
    rewrite Hc in Hkind. destruct Hkind as (op & cs & Hop & Hkd & Hnot & Hcs & ocs & Hocs & Hat).
    assert (Hch : ∀ k j, cs !! k = Some j → ∃ id o, id ∈ comb_matcher c ∧ newMap !! id = Some j ∧
      ocs !! k = Some o ∧ oldMap !! id = Some o ∧ mkept j).
    { intros k j Hkj. destruct (Forall2_lookup_r _ _ _ _ _ Hcs Hkj) as (id & Hid & Hj).
      destruct (Forall2_lookup_l _ _ _ _ _ Hocs Hid) as (o & Ho & Hio). exists id, o.
      pose proof (list_elem_of_lookup_2 _ _ _ Hid) as Hin. split_and!; try done.
      eapply Hsub; [done..|]. eapply not_new; [done|]. by rewrite Hio. }
    eapply (wf_comb _ _ _ _ t op cs); try done; rewrite ?(combinationAt_eq cfg i m c) by done; try done.
    + rewrite Hat. f_equal. apply list_eq. intros k. rewrite !list_lookup_fmap.
      destruct (cs !! k) as [j|] eqn:Hkj.
      * destruct (Hch k j Hkj) as (id & o & Hin & Hj & -> & Ho & Hkj'). simpl. f_equal.
        destruct (Hts j Hkj') as (mj & tj & Hmj & Htj & Hktj). unfold ids_of at 2. rewrite Htj. simpl.
        destruct (kt_atoms _ _ _ Hktj) as (o' & Ho' & ->). f_equal.
        destruct (newMap_cfg id j Hj) as (mj' & Hmj' & Hid). congruence.
      * apply lookup_ge_None in Hkj. pose proof (Forall2_length _ _ _ Hcs).
        pose proof (Forall2_length _ _ _ Hocs). by rewrite lookup_ge_None_2 by lia.
    + intros j (k & Hkj)%list_elem_of_lookup.
      destruct (Hch k j Hkj) as (id & o & Hin & Hj & _ & Ho & _).
      eapply IH; [done..|]. eapply not_new; [done|]. by rewrite Ho.
Qed.

(** The trackers before [init]: created ones, and kept ones that are already complete. *)
Definition updated (i : nat) (m : AtomMatcher) (t : AtomMatchingTracker) : Prop :=
  createAtomMatchingTracker m i = Some t ∨ mkept i ∧ keptTracker i m t.

Lemma updated_tracker i m t : updated i m t →
  mId t = am_id m ∧
  shape t = (i, match am_contents m with
                | kSimpleAtomMatcher sm => Some (sm, bool_decide (is_Some (sam_atom_id sm)))
                | _ => None
                end) ∧
  (∀ sm, am_contents m = kSimpleAtomMatcher sm → t = SimpleAtomMatchingTracker_new (am_id m) i sm) ∧
  (∀ op cs, mKind t = CombinationTracker op cs → mInitialized t = false → cs = [] ∧ mAtomIds t = ∅) ∧
  am_contents m ≠ CONTENTS_NOT_SET.
Proof using.
  assert (Hsimple : ∀ id sm, shape (SimpleAtomMatchingTracker_new id i sm)
    = (i, Some (sm, bool_decide (is_Some (sam_atom_id sm))))).
  { intros id sm. unfold SimpleAtomMatchingTracker_new. by destruct (sam_atom_id sm). }
  intros [H|[_ H]].
  - unfold createAtomMatchingTracker in H. destruct (am_contents m) as [sm|c|]; simplify_eq.
    + rewrite Hsimple. unfold SimpleAtomMatchingTracker_new.
      split_and!; [by destruct (sam_atom_id sm)|done|by intros ? [= ->]| |done].
      destruct (sam_atom_id sm); done.
    + split_and!; try done. simpl. intros op cs [= <- <-]. done.
  - destruct H as [Hid Hix Hin Hat Hkind]. split; [done|].
    destruct (am_contents m) as [sm|c|]; [| |done].
    + subst t. rewrite Hsimple. split_and!; [done|by intros ? [= ->]|by rewrite Hin|done].
    + destruct Hkind as (op & cs & _ & Hk & _). unfold shape. rewrite Hix, Hk.
      split_and!; try done. by rewrite Hin.
Qed.

Lemma updated_startable ts :
  length ts = length cfg →
  (∀ i m, cfg !! i = Some m → ∃ t, ts !! i = Some t ∧ updated i m t ∧ (mkept i → keptTracker i m t)) →
  startable cfg newMap ts.
Proof using Hnew Hpos Hhashes Hserial Hinj.
  intros Hl Hts. split; [done| | | |split; simpl].
  - apply list_eq. intros k. rewrite !list_lookup_fmap. destruct (cfg !! k) as [m|] eqn:Hm.
    + destruct (Hts k m Hm) as (t & -> & Hu & _). simpl. f_equal. by apply updated_tracker in Hu as [? _].
    + rewrite lookup_ge_None_2; [done|]. rewrite Hl. by apply lookup_ge_None.
  - intros i m Hm. destruct (Hts i m Hm) as (t & -> & Hu & _). simpl. f_equal.
    by apply updated_tracker in Hu as (_ & ? & _).
  - intros i m sm Hm Hsm. destruct (Hts i m Hm) as (t & -> & Hu & _). f_equal.
    apply updated_tracker in Hu as (_ & _ & H & _). auto.
  - by rewrite length_replicate.
  - intros j t op cs Hj Hk Hi _. assert (is_Some (cfg !! j)) as [m Hm].
    { apply lookup_lt_is_Some. rewrite <- Hl. by eapply lookup_lt_Some. }
    destruct (Hts j m Hm) as (t' & Ht' & Hu & _). simplify_eq.
    apply updated_tracker in Hu as (_ & _ & _ & H & _). eauto.
  - intros j t Hj Hi. assert (is_Some (cfg !! j)) as [m Hm].
    { apply lookup_lt_is_Some. rewrite <- Hl. by eapply lookup_lt_Some. }
    destruct (Hts j m Hm) as (t' & Ht' & Hu & Hkj). simplify_eq. destruct Hu as [Hc|[Hkept _]].
    + unfold createAtomMatchingTracker in Hc. destruct (am_contents m) as [sm|c|]; try done; simplify_eq; try done.
      unfold SimpleAtomMatchingTracker_new in *. destruct (sam_atom_id sm) eqn:E; [|done].
      by eapply wf_simple.
    + apply kept_wf; [|done]. intros k Hk. assert (is_Some (cfg !! k)) as [mk Hmk].
      { apply lookup_lt_is_Some, mview_lt. inversion Hk; congruence. }
      destruct (Hts k mk Hmk) as (tk & ? & _ & Htk). exists mk, tk. auto.
Qed.

(** The status of a matcher and its tracker. *)
Lemma updateMatcher_cases st i m t h :
  cfg !! i = Some m → correct mview newMap st i →
  updateMatcher serialize oldMap oldTs oldHashes newMap st m i = Some (t, h) →
  updated i m t ∧ (mkept i → keptTracker i m t) ∧ matcherHash serialize m = Some h.
Proof using Hbuilt Hpos Hhashes Hserial Hinj.
  intros Hm Hcor Hu. destruct (decide (st = UPDATE_PRESERVE)) as [->|Hne].
  - destruct (kept_updates i Hcor) as (m' & t' & h' & Hm' & Hu' & Hkt). simplify_eq.
    split_and!; [by right|done|]. simpl in Hu.
    destruct (oldMap !! am_id m) as [old|] eqn:Ho; [simpl in Hu|done].
    destruct (oldTs !! old); [simpl in Hu|done].
    destruct (oldHashes !! old) as [h'|] eqn:Hh; [simpl in Hu|done].
    assert (h' = h) as -> by by (destruct (AtomMatchingTracker_onConfigUpdated _ _ _ _) as [[] ?]; simplify_eq).
    pose proof (mview_cases i) as Hv.
    inversion Hcor as [E|cs E _ _]; rewrite E in Hv.
    + destruct Hv as (? & ? & old' & ? & _ & ? & Hold & _). simplify_eq. by rewrite <- (Hhashes _ _ Hold).
    + destruct Hv as (? & ? & old' & ? & _ & _ & ? & Hold & _). simplify_eq. by rewrite <- (Hhashes _ _ Hold).
  - assert (Hu' : createHashedTracker serialize m i = Some (t, h)) by (destruct st; done).
    unfold createHashedTracker in Hu'. destruct (matcherHash serialize m) as [h'|] eqn:Hh; [|done].
    simpl in Hu'. destruct (createAtomMatchingTracker m i) as [t'|] eqn:Ht; [|done].
    injection Hu' as -> ->. split_and!; [by left| |done]. intros Hk. exfalso. destruct st; simpl in Hcor; try done.
    + by eapply kept_not_replaced.
    + inversion Hk; congruence.
Qed.

(** On a good configuration nothing fails. *)
Lemma good_sound i : good cfg newMap i → sound mview newMap i.
Proof using Hpos Hhashes Hserial Hinj.
  induction 1 as [i m sm a Hm Hc Ha|i m c op Hm Hc Hop Hnot Hex Hsub IH];
    pose proof (mview_cases i) as Hv; destruct (mview i) as [st|cs|] eqn:E.
  - eapply sound_settled; [done|]. by intros ->.
  - destruct Hv as (? & ? & ? & ? & ? & _). congruence.
  - specialize (Hv m Hm). congruence.
  - eapply sound_settled; [done|]. by intros ->.
  - destruct Hv as (m' & c' & ? & Hm' & Hc' & -> & _). assert (m' = m) as -> by congruence.
    assert (c' = c) as -> by congruence. by eapply sound_descend.
  - specialize (Hv m Hm). congruence.
Qed.

Lemma updateMatcher_total st i m :
  cfg !! i = Some m → am_contents m ≠ CONTENTS_NOT_SET → correct mview newMap st i →
  is_Some (updateMatcher serialize oldMap oldTs oldHashes newMap st m i).
Proof using Hbuilt Hpos Hhashes Hserial Hinj.
  intros Hm Hset Hcor.
  assert (Hcreate : is_Some (createHashedTracker serialize m i)).
  { unfold createHashedTracker, matcherHash.
    destruct (Hserial m) as [b ->]; [by eapply list_elem_of_lookup_2|]. simpl.
    unfold createAtomMatchingTracker. by destruct (am_contents m). }
  destruct st; try done.
  destruct (kept_updates i Hcor) as (m' & t & h & Hm' & E & _).
  assert (m' = m) as -> by congruence. by rewrite E.
Qed.
End matcher_update.

Section matcher_update_spec.
Context (serialize : AtomMatcher → option (list Z)) (cfg oldCfg : list AtomMatcher).
Context (oldMap : gmap Z nat) (oldTs : list AtomMatchingTracker) (oldHashes : list Z).
Context (Hbuilt : built oldCfg oldMap oldTs) (Hpos : positions (am_id <$> oldCfg) oldMap).
Context (Hhashes : ∀ k m, oldCfg !! k = Some m → oldHashes !! k = matcherHash serialize m).
Context (Hserial : ∀ m, m ∈ cfg → is_Some (serialize m)).
Context (Hinj : ∀ m m', m ∈ oldCfg → m' ∈ cfg → am_id m = am_id m' →
  matcherHash serialize m = matcherHash serialize m' → m = m').

Lemma replacedIds_elem (statuses : list UpdateStatus) (ids : list Z) id :
  id ∈ replacedIds statuses ids ↔ ∃ i, statuses !! i = Some UPDATE_REPLACE ∧ ids !! i = Some id.
Proof using.
  unfold replacedIds. rewrite elem_of_list_to_set, list_elem_of_omap. split.
  - intros ([st id'] & (i & Hi)%list_elem_of_lookup & H). apply lookup_zip_Some in Hi as [H1 H2].
    case_bool_decide; simplify_eq. eauto.
  - intros (i & H1 & H2). exists (UPDATE_REPLACE, id). split; [|done].
    apply list_elem_of_lookup. exists i. by apply lookup_zip_Some.
Qed.

Lemma matchers_update_spec :
  match updateAtomMatchingTrackers serialize cfg oldMap oldTs oldHashes with
  | Some u =>
      good_config cfg ∧ built cfg (mu_map u) (mu_trackers u) ∧
      positions (am_id <$> cfg) (mu_map u) ∧ mu_tagIds u = ⋃ (mAtomIds <$> mu_trackers u) ∧
      (∀ k m, cfg !! k = Some m → mu_hashes u !! k = matcherHash serialize m) ∧
      ∀ id, id ∈ mu_replaced u ↔ ∃ i, am_id <$> cfg !! i = Some id ∧
        replaced (matcherView serialize cfg oldMap oldHashes) (mu_map u) i
  | None => ¬ good_config cfg
  end.
Proof using Hbuilt Hpos Hhashes Hserial Hinj.
  unfold updateAtomMatchingTrackers. pose proof (indexIds_nodup (am_id <$> cfg)) as Hidx.
  destruct (indexIds (am_id <$> cfg) 0 ∅) as [newMap|]; simpl; [|intros (_ & ? & _); done].
  destruct Hidx as [Hn Hnew].
  assert (Hgood : good_config cfg → ∀ i, (i < length cfg)%nat → good cfg newMap i).
  { intros (_ & _ & Hg) i. apply Hg. intros id k. rewrite <- list_lookup_fmap. apply Hnew. }
  pose proof (updateStatuses_spec (matcherView serialize cfg oldMap oldHashes) newMap (length cfg)
    (mview_settled _ _ _ _)) as Hst.
  destruct (updateStatuses _ newMap (length cfg)) as [statuses|]; simpl.
  2:{ intros Hg. apply Hst; [|intros i Hi; eapply good_sound; eauto].
      intros id j Hj. apply Hnew in Hj. apply lookup_lt_Some in Hj. by rewrite length_fmap in Hj. }
  destruct Hst as [Hsl Hcor].
  { intros id j Hj. apply Hnew in Hj. apply lookup_lt_Some in Hj. by rewrite length_fmap in Hj. }
  pose proof (updateMatchers_spec serialize oldMap oldTs oldHashes newMap statuses cfg 0) as Hum.
  destruct (updateMatchers _ _ _ _ newMap statuses cfg 0) as [hashed|]; simpl in *.
  2:{ intros (Hset & _ & _). destruct Hum as (k & m & Hm & Hnone).
      destruct (lookup_lt_is_Some_2 statuses k) as [st Hst]; [rewrite Hsl; by eapply lookup_lt_Some|].
      destruct (updateMatcher_total serialize cfg oldCfg oldMap oldTs oldHashes) with
        (newMap := newMap) (st := st) (i := k) (m := m) as [x Hx]; try done; [| |by rewrite Hnone in Hx].
      - apply Hset. by eapply list_elem_of_lookup_2.
      - by apply Hcor. }
  destruct Hum as [Hhl Hum].
  assert (Hall : ∀ i m, cfg !! i = Some m → ∃ t h, hashed !! i = Some (t, h) ∧
    updated serialize cfg oldMap oldTs oldHashes newMap i m t ∧
    (kept (matcherView serialize cfg oldMap oldHashes) newMap i → keptTracker oldMap oldTs newMap i m t) ∧
    matcherHash serialize m = Some h).
  { intros i m Hm. destruct (Hum i m Hm) as (st & Hsti & Hhi).
    destruct (lookup_lt_is_Some_2 hashed i) as [[t h] Hth]; [rewrite Hhl; by eapply lookup_lt_Some|].
    rewrite Hth in Hhi. exists t, h. split; [done|].
    eapply updateMatcher_cases; eauto. }
  destruct (init_all_built cfg newMap hashed.*1) as (b & s & tags & -> & Hb & Hg).
  { eapply (updated_startable serialize cfg oldCfg oldMap oldTs oldHashes); try done;
      [by rewrite length_fmap|]. intros i m Hm. destruct (Hall i m Hm) as (t & h & Hth & Hu & Hk & _). exists t.
    by rewrite list_lookup_fmap, Hth. }
  simpl. destruct b; simpl.
  2:{ intros Hgc. enough (false = true) by done. by apply Hg, Hgood. }
  destruct (Hb eq_refl) as [Hbu ->].
  assert (Hset : ∀ m, m ∈ cfg → am_contents m ≠ CONTENTS_NOT_SET).
  { intros m (i & Hm)%list_elem_of_lookup. destruct (Hall i m Hm) as (t & h & _ & Hu & _).
    by apply updated_tracker in Hu as (_ & _ & _ & _ & ?). }
  split_and!; [|done..| |].
  - split_and!; [done..|]. intros map Hmap i Hi.
    assert (map = newMap) as ->.
    { eapply positions_unique; [|exact Hnew]. intros id k. rewrite list_lookup_fmap. apply Hmap. }
    eapply wf_node_good; [apply Hbu|apply Hbu|done|]. apply (bu_wf _ _ _ Hbu).
    by rewrite (bu_length _ _ _ Hbu).
  - intros k m Hm. destruct (Hall k m Hm) as (t & h & Hth & _ & _ & ->).
    by rewrite list_lookup_fmap, Hth.
  - intros id. rewrite replacedIds_elem. split; intros (i & H1 & H2); exists i.
    + rewrite list_lookup_fmap in H2. split; [done|]. by apply (Hcor i UPDATE_REPLACE).
    + rewrite list_lookup_fmap. split; [|done].
      assert (Hi : (i < length cfg)%nat) by (apply fmap_Some in H1 as (? & ? & _); by eapply lookup_lt_Some).
      destruct (lookup_lt_is_Some_2 statuses i) as [st Hst]; [by rewrite Hsl|]. rewrite Hst. f_equal.
      pose proof (Hcor i st Hst) as Hc. destruct st; simpl in Hc; try done.
      * by destruct (kept_not_replaced _ _ _ Hc).
      * inversion H2; congruence.
Qed.
End matcher_update_spec.

(** Reading the hashes the trackers keep: those of the messages they were created from. *)
Definition hashesOf (serialize : AtomMatcher → option (list Z)) (cfg : list AtomMatcher) (hashes : list Z)
    : Prop := ∀ k m, cfg !! k = Some m → hashes !! k = matcherHash serialize m.

(** The hash tells the matchers of two versions of a configuration apart. *)
Definition hashSeparates (serialize : AtomMatcher → option (list Z)) (oldCfg cfg : list AtomMatcher)
    : Prop := ∀ m m', m ∈ oldCfg → m' ∈ cfg → am_id m = am_id m' →
  matcherHash serialize m = matcherHash serialize m' → m = m'.

(** What changed between two versions: a matcher with another message, or a combination of which an
    operand changed. *)
Inductive matcherChanged (oldCfg cfg : list AtomMatcher) (id : Z) : Prop :=
  | changed_message m m' :
      m ∈ oldCfg → m' ∈ cfg → am_id m = id → am_id m' = id → m ≠ m' → matcherChanged oldCfg cfg id
  | changed_operand m c child :
      m ∈ oldCfg → m ∈ cfg → am_id m = id → am_contents m = kCombination c →
      child ∈ comb_matcher c → matcherChanged oldCfg cfg child → matcherChanged oldCfg cfg id.

Section changed.
Context (serialize : AtomMatcher → option (list Z)) (oldCfg cfg : list AtomMatcher).
Context (oldMap newMap : gmap Z nat) (oldHashes : list Z).
Context (Hpos : positions (am_id <$> oldCfg) oldMap) (Hnew : positions (am_id <$> cfg) newMap).
Context (Hhashes : hashesOf serialize oldCfg oldHashes).
Context (Hserial : ∀ m, m ∈ cfg → is_Some (serialize m)).
Context (Hinj : hashSeparates serialize oldCfg cfg).

Lemma positions_elem (l : list AtomMatcher) map m :
  positions (am_id <$> l) map → m ∈ l → ∃ k, map !! am_id m = Some k ∧ l !! k = Some m.
Proof using.
  intros Hp (k & Hk)%list_elem_of_lookup. exists k. split; [|done]. apply Hp.
  by rewrite list_lookup_fmap, Hk.
Qed.

Lemma replaced_changed_matcher i id :
  replaced (matcherView serialize cfg oldMap oldHashes) newMap i → am_id <$> cfg !! i = Some id →
  matcherChanged oldCfg cfg id.
Proof using Hpos Hnew Hhashes Hserial Hinj.
  intros Hr. revert id. induction Hr as [i Hv|i cs ch j Hv Hin Hj _ IH]; intros id Hid;
    pose proof (mview_cases serialize cfg oldCfg oldMap oldHashes Hpos Hhashes Hserial Hinj i) as Hc;
    rewrite Hv in Hc.
  - destruct Hc as (m & Hm & [old Ho]). rewrite Hm in Hid. injection Hid as <-.
    pose proof Ho as Ho'. apply Hpos in Ho'. rewrite list_lookup_fmap in Ho'.
    apply fmap_Some in Ho' as (m0 & Hm0 & Hid).
    apply (changed_message _ _ _ m0 m); try done; [by eapply list_elem_of_lookup_2..|].
    intros <-. unfold matcherView in Hv. rewrite Hm, Ho in Hv.
    destruct (matcherHash serialize m0) as [h|] eqn:Hh; [|done].
    rewrite bool_decide_true in Hv by by rewrite (Hhashes _ _ Hm0). simpl in Hv.
    by destruct (am_contents m0).
  - destruct Hc as (m & c & old & Hm & Hc & -> & Ho & Hold & _). rewrite Hm in Hid. injection Hid as <-.
    apply (changed_operand _ _ _ m c ch); try done; [by eapply list_elem_of_lookup_2..|].
    apply IH. apply Hnew in Hj. by rewrite list_lookup_fmap in Hj.
Qed.

Lemma changed_matcher_replaced id :
  matcherChanged oldCfg cfg id → ∃ i, newMap !! id = Some i ∧
    replaced (matcherView serialize cfg oldMap oldHashes) newMap i.
Proof using Hpos Hnew Hhashes Hserial Hinj.
  induction 1 as [id m m' Hm Hm' Hid Hid' Hne|id m c ch Hm Hm' Hid Hc Hch _ (j & Hj & Hr)].
  - destruct (positions_elem _ _ _ Hpos Hm) as (old & Ho & Hold).
    destruct (positions_elem _ _ _ Hnew Hm') as (i & Hi & Hci). exists i. split; [congruence|].
    apply replaced_changed. unfold matcherView. rewrite Hci, Hid', <- Hid, Ho.
    destruct (Hserial m' Hm') as [b Hb]. unfold matcherHash at 1. rewrite Hb. simpl.
    rewrite bool_decide_false; [done|]. rewrite (Hhashes _ _ Hold). intros E. apply Hne.
    apply Hinj; [done..|congruence|]. rewrite E. unfold matcherHash. by rewrite Hb.
  - destruct (positions_elem _ _ _ Hpos Hm) as (old & Ho & Hold).
    destruct (positions_elem _ _ _ Hnew Hm') as (i & Hi & Hci). exists i. split; [congruence|].
    apply (replaced_child _ _ _ (comb_matcher c) ch j); try done.
    unfold matcherView. rewrite Hci, Ho. destruct (Hserial m Hm') as [b Hb].
    unfold matcherHash at 1. rewrite Hb. simpl.
    rewrite bool_decide_true; [simpl; by rewrite Hc|].
    rewrite (Hhashes _ _ Hold). unfold matcherHash. by rewrite Hb.
Qed.
End changed.

(** C12: updating the matchers of a configuration in place gives exactly what reading the new version
    from scratch gives: the same trackers, ids and atoms of interest, and failure on the same
    configurations; the hashes kept for the next update are those of the new messages.  No two different
    messages of a matcher have the same hash. *)
Theorem matcher_update_equals_restart serialize oldCfg cfg oldTs oldMap oldTags oldHashes :
  initAtomMatchingTrackers oldCfg = Some (oldTs, oldMap, oldTags) →
  hashesOf serialize oldCfg oldHashes →
  (∀ m, m ∈ cfg → is_Some (serialize m)) → hashSeparates serialize oldCfg cfg →
  let update := updateAtomMatchingTrackers serialize cfg oldMap oldTs oldHashes in
  (λ u, (mu_trackers u, mu_map u, mu_tagIds u)) <$> update = initAtomMatchingTrackers cfg ∧
  ∀ u, update = Some u → hashesOf serialize cfg (mu_hashes u).
Proof.
  intros Hold Hh Hs Hi. pose proof (initAtomMatchingTrackers_built oldCfg) as Hb. rewrite Hold in Hb.
  destruct Hb as (_ & Hb & Hp & _). intros update.
  pose proof (matchers_update_spec serialize cfg oldCfg oldMap oldTs oldHashes Hb Hp Hh Hs Hi) as Hu.
  fold update in Hu. pose proof (initAtomMatchingTrackers_built cfg) as Hf.
  destruct update as [u|], (initAtomMatchingTrackers cfg) as [[[ts map] tags]|]; try done; cbn.
  - destruct Hu as (_ & Hbu & Hpu & Htu & Hhu & _). destruct Hf as (_ & Hbf & Hpf & ->).
    assert (Em : mu_map u = map) by by eapply positions_unique. rewrite Em in *.
    assert (Et : mu_trackers u = ts) by by eapply built_unique. rewrite Htu, Et. split; [done|].
    by intros ? [= <-].
  - by destruct Hf, Hu.
  - by destruct Hu, Hf.
Qed.

(** The matchers that an update reports as replaced, and on which conditions and metrics are
    replaced in turn, are exactly those whose message changed or of which a transitive operand
    changed. *)
Theorem matcher_update_replaces_changed serialize oldCfg cfg oldTs oldMap oldTags oldHashes u :
  initAtomMatchingTrackers oldCfg = Some (oldTs, oldMap, oldTags) →
  hashesOf serialize oldCfg oldHashes →
  (∀ m, m ∈ cfg → is_Some (serialize m)) → hashSeparates serialize oldCfg cfg →
  updateAtomMatchingTrackers serialize cfg oldMap oldTs oldHashes = Some u →
  ∀ id, id ∈ mu_replaced u ↔ matcherChanged oldCfg cfg id.
Proof.
  intros Hold Hh Hs Hi Eu id. pose proof (initAtomMatchingTrackers_built oldCfg) as Hb.
  rewrite Hold in Hb. destruct Hb as (_ & Hb & Hp & _).
  pose proof (matchers_update_spec serialize cfg oldCfg oldMap oldTs oldHashes Hb Hp Hh Hs Hi) as Hu.
  rewrite Eu in Hu. destruct Hu as (_ & _ & Hpu & _ & _ & ->). split.
  - intros (i & Hid & Hr). by eapply replaced_changed_matcher.
  - intros Hc. destruct (changed_matcher_replaced serialize oldCfg cfg oldMap (mu_map u) oldHashes
      Hp Hpu Hh Hs Hi id Hc) as (i & Hmi & Hr). exists i. split; [|done].
    apply Hpu in Hmi. by rewrite list_lookup_fmap in Hmi.
Qed.

(** *** An update that keeps one matcher, replaces two and adds one *)

Definition exampleSerialize (m : AtomMatcher) : option (list Z) :=
  Some (am_id m :: match am_contents m with
                   | kSimpleAtomMatcher sm => [1; default 0 (sam_atom_id sm)]
                   | kCombination c => 2 :: comb_matcher c
                   | CONTENTS_NOT_SET => []
                   end).

Definition simpleMatcher (id atom : Z) : AtomMatcher :=
  mkAtomMatcher id (kSimpleAtomMatcher (mkSimpleAtomMatcher (Some atom) [])).
Definition orMatcher (id : Z) (operands : list Z) : AtomMatcher :=
  mkAtomMatcher id (kCombination (mkCombination (Some OR) operands)).

Definition oldMatchers : list AtomMatcher := [simpleMatcher 1 10; orMatcher 2 [1; 3]; simpleMatcher 3 11].
Definition newMatchers : list AtomMatcher :=
  [orMatcher 2 [1; 3]; simpleMatcher 3 12; simpleMatcher 1 10; simpleMatcher 4 13].
Definition oldMatcherHashes : list Z := omap (matcherHash exampleSerialize) oldMatchers.

Definition oldMatcherTables : list AtomMatchingTracker * gmap Z nat :=
  match initAtomMatchingTrackers oldMatchers with Some (ts, map, _) => (ts, map) | None => ([], ∅) end.

Definition exampleUpdate : option MatcherUpdate :=
  updateAtomMatchingTrackers exampleSerialize newMatchers oldMatcherTables.2 oldMatcherTables.1
    oldMatcherHashes.

Lemma example_separates : hashSeparates exampleSerialize oldMatchers newMatchers.
Proof.
  intros m m' Hm Hm' Hid Hh. unfold oldMatchers, newMatchers in *.
  rewrite ?elem_of_cons, ?elem_of_nil in Hm. rewrite ?elem_of_cons, ?elem_of_nil in Hm'.
  destruct_or? Hm; subst m; destruct_or? Hm'; subst m'; try discriminate Hid; try reflexivity.
  exfalso. vm_compute in Hh. discriminate Hh.
Qed.

Lemma example_hashes : hashesOf exampleSerialize oldMatchers oldMatcherHashes.
Proof.
  intros k m Hk. do 3 (destruct k as [|k]; [injection Hk as <-; vm_compute; reflexivity|]). done.
Qed.

Lemma matcher_update_equals_restart_witness :
  (λ u, (mu_trackers u, mu_map u, mu_tagIds u)) <$> exampleUpdate = initAtomMatchingTrackers newMatchers
  ∧ ∀ u, exampleUpdate = Some u → hashesOf exampleSerialize newMatchers (mu_hashes u).
Proof.
  apply (matcher_update_equals_restart exampleSerialize oldMatchers newMatchers oldMatcherTables.1
           oldMatcherTables.2 {[10; 11]} oldMatcherHashes).
  - vm_compute. reflexivity.
  - exact example_hashes.
  - intros m _. by eexists.
  - exact example_separates.
Defined.

Lemma matcher_update_replaces_changed_witness :
  ∃ u, exampleUpdate = Some u ∧ elements (mu_replaced u) = [3; 2] ∧
    matcherChanged oldMatchers newMatchers 2 ∧ ¬ matcherChanged oldMatchers newMatchers 1.
Proof.
  assert (El : (λ u, elements (mu_replaced u)) <$> exampleUpdate = Some [3; 2])
    by (vm_compute; reflexivity).
  destruct exampleUpdate as [u|] eqn:E; [|discriminate El]. exists u. split; [done|].
  injection El as El.
  split; [done|].
  assert (H : ∀ id, id ∈ mu_replaced u ↔ matcherChanged oldMatchers newMatchers id).
  { apply (matcher_update_replaces_changed exampleSerialize oldMatchers newMatchers oldMatcherTables.1
           oldMatcherTables.2 {[10; 11]} oldMatcherHashes).
    - vm_compute. reflexivity.
    - exact example_hashes.
    - intros m _. by eexists.
    - exact example_separates.
    - exact E. }
  rewrite <- !H, <- !elem_of_elements, El. clear. split; set_solver.
Defined.

(** ** Conditions *)

(** What changed: another message, a replaced matcher below, or a changed operand. *)
Inductive conditionChanged (oldCfg cfg : list Predicate) (replacedMatchers : gset Z) (id : Z) : Prop :=
  | changed_predicate p p' :
      p ∈ oldCfg → p' ∈ cfg → pr_id p = id → pr_id p' = id → p ≠ p' →
      conditionChanged oldCfg cfg replacedMatchers id
  | changed_matcher p sp matcher :
      p ∈ oldCfg → p ∈ cfg → pr_id p = id → pr_contents p = kSimplePredicate sp →
      Some matcher ∈ [sp_start sp; sp_stop sp; sp_stop_all sp] → matcher ∈ replacedMatchers →
      conditionChanged oldCfg cfg replacedMatchers id
  | changed_operand_condition p c child :
      p ∈ oldCfg → p ∈ cfg → pr_id p = id → pr_contents p = kPredicateCombination c →
      child ∈ pc_predicate c → conditionChanged oldCfg cfg replacedMatchers child →
      conditionChanged oldCfg cfg replacedMatchers id.

Section condition_update.
Context (serialize : Predicate → option (list Z)) (uninit : Z * Z * Z) (cfg oldCfg : list Predicate).
Context (matcherMap : gmap Z nat) (replacedMatchers : gset Z).
Context (oldMap : gmap Z nat) (oldTs : list ConditionTracker) (oldHashes : list Z).
Context (Hpos : positions (pr_id <$> oldCfg) oldMap).
Context (Hhashes : ∀ k p, oldCfg !! k = Some p → oldHashes !! k = predicateHash serialize p).
Context (Hserial : ∀ p, p ∈ cfg → is_Some (serialize p)).
Context (Hinj : ∀ p p', p ∈ oldCfg → p' ∈ cfg → pr_id p = pr_id p' →
  predicateHash serialize p = predicateHash serialize p' → p = p').

Notation cview := (conditionView serialize cfg replacedMatchers oldMap oldHashes).

Lemma predicate_position (l : list Predicate) map p :
  positions (pr_id <$> l) map → p ∈ l → ∃ k, map !! pr_id p = Some k ∧ l !! k = Some p.
Proof using.
  intros Hp (k & Hk)%list_elem_of_lookup. exists k. split; [|done]. apply Hp.
  by rewrite list_lookup_fmap, Hk.
Qed.

Lemma replacedMatcher_true (sp : SimplePredicate) :
  (∃ matcher, Some matcher ∈ [sp_start sp; sp_stop sp; sp_stop_all sp] ∧ matcher ∈ replacedMatchers) ↔
  replacedMatcher replacedMatchers (sp_start sp) || replacedMatcher replacedMatchers (sp_stop sp)
  || replacedMatcher replacedMatchers (sp_stop_all sp) = true.
Proof using.
  rewrite !orb_true_iff. split.
  - intros (x & Hin & Hx). rewrite !elem_of_cons, elem_of_nil in Hin.
    destruct Hin as [<-|[<-|[<-|[]]]]; simpl; rewrite bool_decide_true by done; auto.
  - assert (H : ∀ o, replacedMatcher replacedMatchers o = true → ∃ x, o = Some x ∧ x ∈ replacedMatchers).
    { intros [x|]; simpl; [|done]. intros ?%bool_decide_eq_true. eauto. }
    intros [[(x & -> & ?)%H|(x & -> & ?)%H]|(x & -> & ?)%H]; exists x; (split; [|done]);
      rewrite !elem_of_cons; auto.
Qed.

Definition anyReplaced (sp : SimplePredicate) : bool :=
  replacedMatcher replacedMatchers (sp_start sp) || replacedMatcher replacedMatchers (sp_stop sp)
  || replacedMatcher replacedMatchers (sp_stop_all sp).

(** The view of a predicate with an unchanged message. *)
Lemma cview_same i p old :
  cfg !! i = Some p → oldMap !! pr_id p = Some old → oldCfg !! old = Some p →
  cview i = match pr_contents p with
            | kSimplePredicate sp =>
                if anyReplaced sp then Settled UPDATE_REPLACE else Settled UPDATE_PRESERVE
            | kPredicateCombination c => Descend (pc_predicate c)
            | PREDICATE_NOT_SET => Malformed
            end.
Proof using Hhashes Hserial.
  intros Hp Ho Hold. unfold conditionView. rewrite Hp, Ho.
  destruct (Hserial p) as [b Hb]; [by eapply list_elem_of_lookup_2|].
  unfold predicateHash at 1. rewrite Hb. simpl.
  rewrite bool_decide_true by (rewrite (Hhashes _ _ Hold); unfold predicateHash; by rewrite Hb).
  simpl. destruct (pr_contents p) as [sp| |]; [|done..]. unfold anyReplaced.
  by repeat destruct (replacedMatcher _ _).
Qed.

Lemma cview_changed i p old p0 :
  cfg !! i = Some p → oldMap !! pr_id p = Some old → oldCfg !! old = Some p0 → p0 ≠ p →
  cview i = Settled UPDATE_REPLACE.
Proof using Hpos Hhashes Hserial Hinj.
  intros Hp Ho Hold Hne. unfold conditionView. rewrite Hp, Ho.
  assert (Hin : p ∈ cfg) by by eapply list_elem_of_lookup_2.
  destruct (Hserial p Hin) as [b Hb]. unfold predicateHash at 1. rewrite Hb. simpl.
  rewrite bool_decide_false; [done|]. rewrite (Hhashes _ _ Hold). intros E. apply Hne.
  apply Hinj; [by eapply list_elem_of_lookup_2|done| |].
  - apply Hpos in Ho. rewrite list_lookup_fmap, Hold in Ho. by injection Ho.
  - rewrite E. unfold predicateHash. by rewrite Hb.
Qed.

Lemma same_or_changed (p p0 : Predicate) i old :
  cfg !! i = Some p → oldMap !! pr_id p = Some old → oldCfg !! old = Some p0 → p0 = p ∨ p0 ≠ p.
Proof using Hpos Hhashes Hserial Hinj.
  intros Hp Ho Hold. assert (Hin : p ∈ cfg) by by eapply list_elem_of_lookup_2.
  destruct (decide (predicateHash serialize p0 = predicateHash serialize p)) as [E|E].
  - left. apply Hinj; [by eapply list_elem_of_lookup_2|done| |done].
    apply Hpos in Ho. rewrite list_lookup_fmap, Hold in Ho. by injection Ho.
  - right. by intros ->.
Qed.

Lemma cview_cases i :
  match cview i with
  | Malformed => True
  | Settled UPDATE_UNKNOWN => False
  | Settled UPDATE_NEW => ∃ p, cfg !! i = Some p ∧ oldMap !! pr_id p = None
  | Settled st => ∃ p old p0, cfg !! i = Some p ∧ oldMap !! pr_id p = Some old ∧
      oldCfg !! old = Some p0 ∧ pr_id p0 = pr_id p ∧
      (p0 ≠ p ∧ st = UPDATE_REPLACE ∨
       p0 = p ∧ ∃ sp, pr_contents p = kSimplePredicate sp ∧
         st = if anyReplaced sp then UPDATE_REPLACE else UPDATE_PRESERVE)
  | Descend cs => ∃ p c old, cfg !! i = Some p ∧ pr_contents p = kPredicateCombination c ∧
      cs = pc_predicate c ∧ oldMap !! pr_id p = Some old ∧ oldCfg !! old = Some p
  end.
Proof using Hpos Hhashes Hserial Hinj.
  destruct (cfg !! i) as [p|] eqn:Hp; [|by unfold conditionView; rewrite Hp].
  destruct (oldMap !! pr_id p) as [old|] eqn:Ho.
  2:{ unfold conditionView. rewrite Hp, Ho. by exists p. }
  pose proof Ho as Ho'. apply Hpos in Ho'. rewrite list_lookup_fmap in Ho'.
  apply fmap_Some in Ho' as (p0 & Hp0 & Hid).
  destruct (same_or_changed p p0 i old Hp Ho Hp0) as [->|Hne].
  - rewrite (cview_same i p old) by done. destruct (pr_contents p) as [sp|c|] eqn:Hc; [| |done].
    + destruct (anyReplaced sp) eqn:E; exists p, old, p; split_and!; try done; right;
        (split; [done|]); exists sp; by rewrite E.
    + by exists p, c, old.
  - rewrite (cview_changed i p old p0) by done. exists p, old, p0. split_and!; try done. by left.
Qed.

Context (newMap : gmap Z nat) (Hnew : positions (pr_id <$> cfg) newMap).

Lemma replaced_changed_condition i id :
  replaced cview newMap i → pr_id <$> cfg !! i = Some id →
  conditionChanged oldCfg cfg replacedMatchers id.
Proof using Hpos Hhashes Hserial Hinj Hnew.
  intros Hr. revert id. induction Hr as [i Hv|i cs ch j Hv Hin Hj _ IH]; intros id Hid;
    pose proof (cview_cases i) as Hc; rewrite Hv in Hc.
  - destruct Hc as (p & old & p0 & Hp & Ho & Hold & Hpid & Hc). rewrite Hp in Hid. injection Hid as <-.
    apply list_elem_of_lookup_2 in Hp, Hold. destruct Hc as [[Hne _]|(-> & sp & Hsp & Hst)].
    + by apply (changed_predicate _ _ _ _ p0 p).
    + destruct (anyReplaced sp) eqn:E; [|done]. apply replacedMatcher_true in E as (x & Hx & Hr).
      by apply (changed_matcher _ _ _ _ p sp x).
  - destruct Hc as (p & c & old & Hp & Hc & -> & Ho & Hold). rewrite Hp in Hid. injection Hid as <-.
    apply list_elem_of_lookup_2 in Hp, Hold.
    apply (changed_operand_condition _ _ _ _ p c ch); try done.
    apply IH. apply Hnew in Hj. by rewrite list_lookup_fmap in Hj.
Qed.

Lemma changed_condition_replaced id :
  conditionChanged oldCfg cfg replacedMatchers id →
  ∃ i, newMap !! id = Some i ∧ replaced cview newMap i.
Proof using Hpos Hhashes Hserial Hinj Hnew.
  induction 1 as [id p p' Hp Hp' Hid Hid' Hne|id p sp x Hp Hp' Hid Hsp Hx Hr
                 |id p c ch Hp Hp' Hid Hc Hch _ (j & Hj & Hr)];
    destruct (predicate_position _ _ _ Hpos Hp) as (old & Ho & Hold);
    destruct (predicate_position _ _ _ Hnew Hp') as (i & Hi & Hci); exists i; (split; [congruence|]).
  - apply replaced_changed, (cview_changed i p' old p); congruence.
  - apply replaced_changed. rewrite (cview_same i p old), Hsp by done.
    unfold anyReplaced. rewrite (proj1 (replacedMatcher_true sp)) by by exists x. done.
  - apply (replaced_child _ _ _ (pc_predicate c) ch j); try done.
    by rewrite (cview_same i p old), Hc.
Qed.
End condition_update.

(** *** The state of the simple conditions *)

(** Initialization leaves simple trackers alone. *)
Definition sameSimple (ts ts' : list ConditionTracker) : Prop :=
  ∀ j t, ts !! j = Some (SimpleCondition t) → ts' !! j = Some (SimpleCondition t).

Lemma sameSimple_alter f i ts : sameSimple ts (alter (on_comb f) i ts).
Proof.
  intros j t Hj. destruct (decide (i = j)) as [->|]; [|by rewrite list_lookup_alter_ne].
  by rewrite list_lookup_alter_eq, Hj.
Qed.

#[local] Instance sameSimple_refl : Reflexive sameSimple.
Proof. by intros ts j t. Qed.

Lemma sameSimple_trans ts1 ts2 ts3 : sameSimple ts1 ts2 → sameSimple ts2 ts3 → sameSimple ts1 ts3.
Proof. unfold sameSimple. eauto. Qed.

Lemma refreshChildren_simple rec cs :
  (∀ c s b s', rec c s = Some (b, s') → sameSimple (ci_trackers s) (ci_trackers s')) →
  ∀ s s', refreshChildren rec cs s = Some s' → sameSimple (ci_trackers s) (ci_trackers s').
Proof.
  intros Hrec. induction cs as [|c cs IH]; intros s s' H; cbn [refreshChildren] in H; [by simplify_eq|].
  case_bool_decide; [|by eapply IH]. destruct (rec c s) as [[b s1]|] eqn:E; [simpl in H|done].
  eapply sameSimple_trans; eauto.
Qed.

Lemma initConditionChildren_simple map rec i cs :
  (∀ c s b s', rec c s = Some (b, s') → sameSimple (ci_trackers s) (ci_trackers s')) →
  ∀ s b s', initConditionChildren map rec i cs s = Some (b, s') →
  sameSimple (ci_trackers s) (ci_trackers s').
Proof.
  intros Hrec. induction cs as [|c cs IH]; intros s b s' H; cbn [initConditionChildren] in H.
  { by simplify_eq. }
  destruct (map !! c) as [ci|]; [|by simplify_eq]. destruct (default false _); [by simplify_eq|].
  destruct (rec ci s) as [[[] s1]|] eqn:E; [| |done].
  - destruct (childAt _ _) as [sl tr]. apply IH in H. eapply sameSimple_trans; [by eapply Hrec|].
    eapply sameSimple_trans; [|done]. apply sameSimple_alter.
  - simplify_eq. by eapply Hrec.
Qed.

Lemma initCondition_simple cfg map fuel : ∀ i s b s',
  initCondition cfg map fuel i s = Some (b, s') → sameSimple (ci_trackers s) (ci_trackers s').
Proof.
  induction fuel as [|fuel IH]; intros i s b s' H; cbn [initCondition] in H; [done|].
  destruct (ci_trackers s !! i) as [[t|t]|] eqn:Ht; [by injection H as <- <-| |by simplify_eq].
  destruct (cc_initialized t).
  { destruct (refreshChildren _ _ _) as [s1|] eqn:E; [simpl in H; simplify_eq|done].
    eapply refreshChildren_simple in E; [exact E|exact IH]. }
  destruct (pc_operation _) as [op|]; [|by simplify_eq].
  assert (H0 : sameSimple (ci_trackers s)
    (ci_trackers (ci_on_trackers (alter (on_comb (set_cc_operation op)) i) (ci_set_stack i true s)))).
  { apply sameSimple_alter. }
  destruct (_ && _); [by simplify_eq|].
  destruct (initConditionChildren _ _ _ _ _) as [[[] s1]|] eqn:E; [| |done];
    eapply initConditionChildren_simple in E; [|done| |done].
  - eapply sameSimple_trans; [exact H0|]. eapply sameSimple_trans; [exact E|].
    destruct (ci_trackers s1 !! i) as [[?|t1]|]; simplify_eq; try done. apply sameSimple_alter.
  - simplify_eq. by eapply sameSimple_trans.
Qed.

Lemma initAllConditions_simple cfg map fuel : ∀ idxs s m b s' m',
  initAllConditions cfg map fuel idxs s m = Some (b, s', m') →
  sameSimple (ci_trackers s) (ci_trackers s').
Proof.
  induction idxs as [|i idxs IH]; intros s m b s' m' H; cbn [initAllConditions] in H; [by simplify_eq|].
  destruct (initCondition _ _ _ _ _) as [[[] s1]|] eqn:E; [| |done].
  - eapply sameSimple_trans; [by eapply initCondition_simple|]. by eapply IH.
  - simplify_eq. by eapply initCondition_simple.
Qed.

(** The index a matcher id of a predicate resolves to, [-1] when the field is absent. *)
Definition indexOf (m : gmap Z nat) (o : option Z) : option Z :=
  match o with None => Some (-1) | Some id => Z.of_nat <$> m !! id end.

(** [setMatcherIndices] writes the indices up to the first id it does not find. *)
Lemma setMatcherIndices_form p m : ∃ trackers, ∀ t,
  setMatcherIndices p m t
  = set_indices (default (mStartLogMatcherIndex t) (indexOf m (sp_start p)))
      (default (mStopLogMatcherIndex t) (indexOf m (sp_start p) ≫= λ _, indexOf m (sp_stop p)))
      (default (mStopAllLogMatcherIndex t)
         (indexOf m (sp_start p) ≫= λ _, indexOf m (sp_stop p) ≫= λ _, indexOf m (sp_stop_all p)))
      trackers t.
Proof.
  pose (add (o : option Z) (i : Z) (s : gset Z) := match o with None => s | Some _ => s ∪ {[i]} end).
  exists (match indexOf m (sp_start p) with
          | None => ∅
          | Some i =>
              let s := add (sp_start p) i ∅ in
              match indexOf m (sp_stop p) with
              | None => s
              | Some i =>
                  let s := add (sp_stop p) i s in
                  match indexOf m (sp_stop_all p) with
                  | None => s
                  | Some i => add (sp_stop_all p) i s
                  end
              end
          end).
  intros t. unfold setMatcherIndices, indexOf, add.
  destruct (sp_start p) as [a|]; [destruct (m !! a)|];
    (destruct (sp_stop p) as [b|]; [destruct (m !! b)|]);
    (destruct (sp_stop_all p) as [c|]; [destruct (m !! c)|]); reflexivity.
Qed.

Section simple_update.
Context (cfg : list Predicate) (matcherMap newMap : gmap Z nat).

(** The new indices of the simple condition at [j]. *)
Definition reindex (j : nat) (t : SimpleConditionTracker) : SimpleConditionTracker :=
  setMatcherIndices (predicateSimpleAt cfg j) matcherMap (set_sc_index j t).

Lemma reindex_idem j t : reindex j (reindex j t) = reindex j t.
Proof.
  unfold reindex. destruct (setMatcherIndices_form (predicateSimpleAt cfg j) matcherMap) as [tr E].
  assert (Hd : ∀ (o : option Z) x, default (default x o) o = default x o) by by intros [].
  rewrite !E. unfold set_indices, set_sc_index. cbn. by rewrite !Hd.
Qed.

Lemma reindex_state j t : mSlicedConditionState (reindex j t) = mSlicedConditionState t.
Proof.
  unfold reindex. destruct (setMatcherIndices_form (predicateSimpleAt cfg j) matcherMap) as [tr ->].
  done.
Qed.

(** An update gives simple trackers their indices and nothing else. *)
Definition reindexed (ts ts' : list ConditionTracker) : Prop :=
  ∀ j t, ts !! j = Some (SimpleCondition t) →
    ts' !! j = Some (SimpleCondition t) ∨ ts' !! j = Some (SimpleCondition (reindex j t)).

Lemma reindexed_trans ts1 ts2 ts3 : reindexed ts1 ts2 → reindexed ts2 ts3 → reindexed ts1 ts3.
Proof.
  intros H12 H23 j t Hj. destruct (H12 j t Hj) as [H|H]; destruct (H23 j _ H) as [H'|H']; auto.
  right. by rewrite reindex_idem in H'.
Qed.

Lemma reindexed_done ts ts' j t :
  reindexed ts ts' → ts !! j = Some (SimpleCondition (reindex j t)) →
  ts' !! j = Some (SimpleCondition (reindex j t)).
Proof. intros H Hj. destruct (H j _ Hj) as [?|H']; [done|]. by rewrite reindex_idem in H'. Qed.

Lemma sameSimple_reindexed ts ts' : sameSimple ts ts' → reindexed ts ts'.
Proof. intros H j t Hj. left. auto. Qed.

Lemma updateChildren_reindexed rec i cs :
  (∀ c ts ts', rec c ts = Some (true, ts') → reindexed ts ts') →
  ∀ ts ts', updateChildren newMap rec i cs ts = Some (true, ts') → reindexed ts ts'.
Proof.
  intros Hrec. induction cs as [|c cs IH]; intros ts ts' H; cbn [updateChildren] in H.
  { simplify_eq. by apply sameSimple_reindexed. }
  destruct (newMap !! c) as [ci|]; [|done]. destruct (rec ci ts) as [[[] ts1]|] eqn:E; [|done..].
  destruct (childAt _ _) as [sl tr]. apply IH in H. eapply reindexed_trans; [by eapply Hrec|].
  eapply reindexed_trans; [|done]. apply sameSimple_reindexed, sameSimple_alter.
Qed.

Lemma onConditionConfigUpdated_reindexed fuel : ∀ i ts ts',
  onConditionConfigUpdated cfg matcherMap newMap fuel i ts = Some (true, ts') →
  reindexed ts ts' ∧
  ∀ t, ts !! i = Some (SimpleCondition t) → ts' !! i = Some (SimpleCondition (reindex i t)).
Proof.
  induction fuel as [|fuel IH]; intros i ts ts' H; cbn [onConditionConfigUpdated] in H; [done|].
  destruct (ts !! i) as [[t|t]|] eqn:Ht; [| |done].
  - simpl in H. injection H as <-. fold (reindex i t).
    assert (Hi : (i < length ts)%nat) by by eapply lookup_lt_Some. split.
    + intros j t' Hj. destruct (decide (i = j)) as [<-|]; [|by rewrite list_lookup_insert_ne; auto].
      rewrite list_lookup_insert_eq by done. right. congruence.
    + intros t' [= <-]. by rewrite list_lookup_insert_eq.
  - split; [|by intros ? [=]]. eapply updateChildren_reindexed in H; [|intros c s s' E; by eapply IH].
    eapply reindexed_trans; [|exact H]. apply sameSimple_reindexed. intros j t' Hj.
    rewrite list_lookup_insert_ne; [done|]. intros <-. congruence.
Qed.

Lemma updatePreserved_reindexed fuel : ∀ idxs ts ts',
  updatePreserved cfg matcherMap newMap fuel idxs ts = Some ts' →
  reindexed ts ts' ∧ ∀ i t, i ∈ idxs → ts !! i = Some (SimpleCondition t) →
    ts' !! i = Some (SimpleCondition (reindex i t)).
Proof.
  induction idxs as [|i idxs IH]; intros ts ts' H; cbn [updatePreserved] in H.
  { simplify_eq. split; [by apply sameSimple_reindexed|]. by intros ?? ?%not_elem_of_nil. }
  destruct (onConditionConfigUpdated _ _ _ _ _ _) as [[[] ts1]|] eqn:E; [|done..].
  apply onConditionConfigUpdated_reindexed in E as [E1 E2]. apply IH in H as [H1 H2].
  split; [by eapply reindexed_trans|]. intros j t [->|Hj]%elem_of_cons Ht.
  - eapply reindexed_done; [done|]. by apply E2.
  - destruct (E1 j t Ht) as [Hj'|Hj']; [by apply H2|]. by eapply reindexed_done.
Qed.
End simple_update.

Lemma updateConditionTrackers_spec serialize uninit matcherMap oldMap oldTs oldHashes statuses :
  ∀ ps i hashed,
  updateConditionTrackers serialize uninit matcherMap oldMap oldTs oldHashes statuses ps i = Some hashed →
  ∀ k p, ps !! k = Some p → ∃ st, statuses !! (i + k)%nat = Some st ∧
    hashed !! k = updateCondition serialize uninit matcherMap oldMap oldTs oldHashes st p (i + k).
Proof.
  induction ps as [|p ps IH]; intros i hashed H k q Hk; cbn [updateConditionTrackers] in H; [done|].
  destruct (statuses !! i) as [st|] eqn:Hst; [simpl in H|done].
  destruct (updateCondition _ _ _ _ _ _ st p i) as [t|] eqn:Ht; [simpl in H|done].
  destruct (updateConditionTrackers _ _ _ _ _ _ statuses ps (S i)) as [ts|] eqn:E; [simpl in H|done].
  injection H as <-. destruct k as [|k]; simpl in *.
  - injection Hk as <-. exists st. by rewrite Nat.add_0_r, Ht.
  - destruct (IH _ _ E k q Hk) as (st' & ? & ?). exists st'. by rewrite Nat.add_succ_r.
Qed.

Lemma preservedIndices_elem statuses i :
  statuses !! i = Some UPDATE_PRESERVE → i ∈ preservedIndices statuses.
Proof.
  intros H. apply list_elem_of_In, List.filter_In. split.
  - apply list_elem_of_In, elem_of_seq. apply lookup_lt_Some in H. lia.
  - by apply bool_decide_eq_true.
Qed.

Lemma cview_settled serialize cfg replacedMatchers oldMap oldHashes i :
  conditionView serialize cfg replacedMatchers oldMap oldHashes i ≠ Settled UPDATE_UNKNOWN.
Proof. unfold conditionView. by repeat case_match. Qed.

(** C13: an update replaces exactly the conditions whose message, matchers or operands changed, and every
    other simple condition goes on with the counters it had: its tracker is the old one with the
    positions of the new configuration.  No two different messages of a condition have the same hash. *)
Theorem condition_update_keeps_state serialize uninit oldCfg cfg matcherMap replacedMatchers oldMap oldTs
    oldHashes u :
  positions (pr_id <$> oldCfg) oldMap →
  (∀ k p, oldCfg !! k = Some p → oldHashes !! k = predicateHash serialize p) →
  (∀ p, p ∈ cfg → is_Some (serialize p)) →
  (∀ p p', p ∈ oldCfg → p' ∈ cfg → pr_id p = pr_id p' →
     predicateHash serialize p = predicateHash serialize p' → p = p') →
  updateConditions serialize uninit cfg matcherMap replacedMatchers oldMap oldTs oldHashes = Some u →
  (∀ id, id ∈ cu_replaced u ↔ conditionChanged oldCfg cfg replacedMatchers id) ∧
  ∀ i p old t, cfg !! i = Some p → oldMap !! pr_id p = Some old →
    oldTs !! old = Some (SimpleCondition t) →
    ¬ conditionChanged oldCfg cfg replacedMatchers (pr_id p) →
    ∃ t', cu_trackers u !! i = Some (SimpleCondition t') ∧ t' = reindex cfg matcherMap i t ∧
      mSlicedConditionState t' = mSlicedConditionState t.
Proof.
  intros Hpos Hh Hs Hi. unfold updateConditions.
  pose proof (indexIds_nodup (pr_id <$> cfg)) as Hidx.
  destruct (indexIds (pr_id <$> cfg) 0 ∅) as [newMap|]; [cbn [mbind option_bind]|done].
  destruct Hidx as [_ Hnew].
  assert (Hlt : ∀ id j, newMap !! id = Some j → (j < length cfg)%nat).
  { intros id j Hj. apply Hnew in Hj. apply lookup_lt_Some in Hj. by rewrite length_fmap in Hj. }
  pose proof (updateStatuses_spec (conditionView serialize cfg replacedMatchers oldMap oldHashes) newMap
    (length cfg) (cview_settled _ _ _ _ _) Hlt) as Hst.
  destruct (updateStatuses _ newMap (length cfg)) as [statuses|]; [cbn [mbind option_bind]|done].
  destruct Hst as [Hsl Hcor].
  destruct (updateConditionTrackers _ _ _ _ _ _ statuses cfg 0) as [hashed|] eqn:Eh;
    [cbn [mbind option_bind]|done].
  destruct (updatePreserved _ _ newMap _ _ _) as [ts|] eqn:Ep; [cbn [mbind option_bind]|done].
  destruct (initAllConditions _ newMap _ _ _ _) as [[[b s] m]|] eqn:Ea; [cbn [mbind option_bind]|done].
  destruct b; [|done]. intros [= <-]. cbn [cu_replaced cu_trackers].
  assert (Hrep : ∀ i st, statuses !! i = Some st →
    (st = UPDATE_REPLACE ↔ replaced (conditionView serialize cfg replacedMatchers oldMap oldHashes) newMap i)).
  { intros i st Hst. pose proof (Hcor i st Hst) as Hc. split; [by intros ->|]. intros Hr.
    destruct st; simpl in Hc; try done; [by destruct (kept_not_replaced _ _ _ Hc)|].
    inversion Hr; congruence. }
  split.
  - intros id. rewrite replacedIds_elem. split.
    + intros (i & H1 & H2). rewrite list_lookup_fmap in H2. apply Hrep in H1.
      by eapply replaced_changed_condition; [..|apply H1, eq_refl|].
    + intros Hc. eapply changed_condition_replaced in Hc as (i & Hi' & Hr); [|done..].
      exists i. apply Hnew in Hi'. split; [|done].
      destruct (lookup_lt_is_Some_2 statuses i) as [st Hst].
      { rewrite Hsl, <- (length_fmap pr_id). by eapply lookup_lt_Some. }
      rewrite Hst. f_equal. by apply (Hrep i st Hst).
  - intros i p old t Hp Ho Ht Hnc. exists (reindex cfg matcherMap i t).
    split_and!; [|done|apply reindex_state].
    eapply initAllConditions_simple; [exact Ea|]. cbn [ci_trackers].
    destruct (updateConditionTrackers_spec _ _ _ _ _ _ _ _ _ _ Eh i p Hp) as (st & Hst & Hhi).
    simpl in Hst, Hhi.
    assert (st = UPDATE_PRESERVE) as ->.
    { pose proof (Hcor i st Hst) as Hc. destruct st; simpl in Hc; try done.
      - exfalso. apply Hnc. eapply replaced_changed_condition; [..|exact Hc|by rewrite Hp]; done.
      - unfold conditionView in Hc. rewrite Hp, Ho in Hc. by repeat case_match. }
    apply (updatePreserved_reindexed _ _ _ _ _ _ _ Ep); [by apply preservedIndices_elem|].
    rewrite list_lookup_fmap. rewrite Hhi. simpl. rewrite Ho. simpl. rewrite Ht. simpl.
    assert (Hold : oldCfg !! old = Some p).
    { pose proof (Hcor i _ Hst) as Hc. simpl in Hc.
      pose proof (cview_cases serialize cfg oldCfg replacedMatchers oldMap oldHashes Hpos Hh Hs Hi i) as Hv.
      inversion Hc as [E|cs E _ _]; rewrite E in Hv.
      - destruct Hv as (p' & old' & p0 & Hp' & Ho' & Hold & _ & [[_ ?]|[-> _]]); [done|]. congruence.
      - destruct Hv as (p' & c & old' & Hp' & _ & _ & Ho' & Hold). congruence. }
    rewrite (Hh _ _ Hold). unfold predicateHash. destruct (Hs p) as [x ->]; [|done].
    by eapply list_elem_of_lookup_2.
Qed.


(** *** An update that moves a condition with a count *)

Definition examplePredicateBytes (p : Predicate) : option (list Z) :=
  Some (pr_id p :: match pr_contents p with
                   | kSimplePredicate sp => [default 0 (sp_start sp); default 0 (sp_stop sp)]
                   | kPredicateCombination c => pc_predicate c
                   | PREDICATE_NOT_SET => []
                   end).

Definition startStop (id start stop : Z) : Predicate :=
  mkPredicate id (kSimplePredicate
    (mkSimplePredicate (Some start) (Some stop) true None InitialValue_FALSE None)).

(** Started twice before the update. *)
Definition countedTracker : SimpleConditionTracker :=
  set_states kFalse [(DEFAULT_DIMENSION_KEY, 2)]
    (SimpleConditionTracker_new (0, 0, 0) 7 0
       (mkSimplePredicate (Some 1) (Some 3) true None InitialValue_FALSE None)
       {[1 := 0%nat; 3 := 1%nat]}).

Definition movedConditions : option ConditionUpdate :=
  updateConditions examplePredicateBytes (0, 0, 0) [startStop 8 3 1; startStop 7 1 3]
    {[3 := 0%nat; 1 := 1%nat]} ∅ {[7 := 0%nat]} [SimpleCondition countedTracker]
    (omap (predicateHash examplePredicateBytes) [startStop 7 1 3]).

Lemma singleton_position id : positions [id] {[id := 0%nat]}.
Proof.
  intros id' [|k]; simpl; rewrite lookup_singleton_Some; naive_solver.
Qed.

Lemma condition_update_keeps_state_witness :
  ∃ u t', movedConditions = Some u ∧ cu_trackers u !! 1%nat = Some (SimpleCondition t') ∧
    mSlicedConditionState t' = [(DEFAULT_DIMENSION_KEY, 2)] ∧ mStartLogMatcherIndex t' = 1.
Proof.
  assert (Es : is_Some movedConditions) by (vm_compute; by eexists). destruct Es as [u E].
  destruct (condition_update_keeps_state examplePredicateBytes (0, 0, 0) [startStop 7 1 3]
    [startStop 8 3 1; startStop 7 1 3] {[3 := 0%nat; 1 := 1%nat]} ∅ {[7 := 0%nat]}
    [SimpleCondition countedTracker] (omap (predicateHash examplePredicateBytes) [startStop 7 1 3]) u)
    as [Hrep Hkeep].
  - exact (singleton_position 7).
  - intros [|k] p [= <-]. vm_compute. reflexivity.
  - intros p _. by eexists.
  - intros p p' Hp Hp'. apply list_elem_of_singleton in Hp as ->.
    rewrite elem_of_cons, list_elem_of_singleton in Hp'. intros Hid _. by destruct Hp' as [->| ->].
  - exact E.
  - destruct (Hkeep 1%nat (startStop 7 1 3) 0%nat countedTracker) as (t' & Ht' & -> & Hst);
      [done..| |].
    + rewrite <- Hrep. intros Hin.
      assert (Hnone : (λ u, elements (cu_replaced u)) <$> movedConditions = Some [])
        by (vm_compute; reflexivity).
      rewrite E in Hnone. injection Hnone as Hnone. apply elem_of_elements in Hin.
      rewrite Hnone in Hin. by apply not_elem_of_nil in Hin.
    + eexists u, _. split; [done|]. split; [exact Ht'|]. split; [exact Hst|reflexivity].
Defined.
