(* ===== verification/PriorityQueue.v ===== *)
(** * Indexed priority queue (anomaly/indexed_priority_queue.h)

    A binary min-heap of shared pointers with the position of every element, so that interior
    elements can be removed.  Pointers are compared by address: the element type has decidable
    equality.  The vector [pq] of the source is 1-indexed with a null pointer at 0; here [pq]
    lists the slots 1, 2, ..., and [at_ q i] reads slot [i]; the entry of the null pointer in
    [indices] is likewise left out. *)
From S2P Require Import Prelude.

Section queue.
Context {A : Type} `{Countable A} (comparator : A → A → bool).

Record indexed_priority_queue := mkQueue { pq : list A; indices : gmap A nat }.

(** [pq\[i\]]; the null pointer at 0 and nothing past the end. *)
Definition at_ (q : indexed_priority_queue) (i : nat) : option A :=
  match i with O => None | S i => pq q !! i end.

Definition init_queue : indexed_priority_queue := mkQueue [] ∅.

Definition queue_size (q : indexed_priority_queue) : nat := length (pq q).
Definition queue_empty (q : indexed_priority_queue) : bool := (queue_size q <? 1)%nat.

Definition in_range (q : indexed_priority_queue) (i : nat) : bool :=
  (0 <? i)%nat && (i <? S (queue_size q))%nat.

Definition higher (idx1 idx2 : nat) (q : indexed_priority_queue) : bool :=
  if negb (in_range q idx1 && in_range q idx2) then false
  else
    match at_ q idx1, at_ q idx2 with
    | Some a, Some b => comparator a b
    | _, _ => false
    end.

Definition queue_contains (a : option A) (q : indexed_priority_queue) : bool :=
  match a with
  | None => false
  | Some a => bool_decide (is_Some (indices q !! a))
  end.

Definition set_slot (i : nat) (a : A) (l : list A) : list A :=
  match i with O => l | S i => <[i := a]> l end.

Definition swap_indices (i j : nat) (q : indexed_priority_queue) : indexed_priority_queue :=
  if negb (in_range q i && in_range q j) then q
  else
    match at_ q i, at_ q j with
    | Some val_i, Some val_j =>
        mkQueue (set_slot j val_i (set_slot i val_j (pq q)))
          (<[val_j := i]> (<[val_i := j]> (indices q)))
    | _, _ => q
    end.

(** The loop of [sift_up]; [idx] halves, so [idx] steps are enough. *)
Fixpoint sift_up_loop (fuel idx : nat) (q : indexed_priority_queue) : indexed_priority_queue :=
  match fuel with
  | O => q
  | S fuel =>
      if (1 <? idx)%nat then
        let parent := (idx / 2)%nat in
        if higher idx parent q then sift_up_loop fuel parent (swap_indices idx parent q) else q
      else q
  end.

Definition sift_up (idx : nat) (q : indexed_priority_queue) : indexed_priority_queue :=
  sift_up_loop idx idx q.

(** The loop of [sift_down]; [idx] doubles, so [size()] steps are enough. *)
Fixpoint sift_down_loop (fuel idx : nat) (q : indexed_priority_queue) : indexed_priority_queue :=
  match fuel with
  | O => q
  | S fuel =>
      if (2 * idx <=? queue_size q)%nat then
        let child := (2 * idx)%nat in
        let child :=
          if (child <? queue_size q)%nat && higher (child + 1) child q
          then (child + 1)%nat else child in
        if higher child idx q then sift_down_loop fuel child (swap_indices child idx q) else q
      else q
  end.

Definition sift_down (idx : nat) (q : indexed_priority_queue) : indexed_priority_queue :=
  sift_down_loop (queue_size q) idx q.

Definition push (a : option A) (q : indexed_priority_queue) : indexed_priority_queue :=
  match a with
  | None => q
  | Some a =>
      if queue_contains (Some a) q then q
      else
        let l := pq q ++ [a] in
        let idx := length l in
        sift_up idx (mkQueue l (<[a := idx]> (indices q)))
  end.

Definition top (q : indexed_priority_queue) : option A :=
  if queue_empty q then None else at_ q 1.

(** [pq.pop_back()] *)
Definition pop_back (l : list A) : list A := take (pred (length l)) l.

(** Moves the last element to [idx] and deletes [a]. *)
Definition replace_by_last (idx : nat) (a : A) (q : indexed_priority_queue)
    : indexed_priority_queue :=
  match last (pq q) with
  | None => q
  | Some last_a =>
      mkQueue (pop_back (set_slot idx last_a (pq q)))
        (delete a (<[last_a := idx]> (indices q)))
  end.

Definition remove (a : option A) (q : indexed_priority_queue) : bool * indexed_priority_queue :=
  match a with
  | None => (false, q)
  | Some a =>
      match indices q !! a with
      | None => (false, q)
      | Some idx =>
          if (S (queue_size q) <=? idx)%nat then (false, q)
          else if (idx =? queue_size q)%nat then
            (true, mkQueue (pop_back (pq q)) (delete a (indices q)))
          else (true, sift_down idx (sift_up idx (replace_by_last idx a q)))
      end
  end.

Definition pop (q : indexed_priority_queue) : indexed_priority_queue :=
  match top q with
  | None => q
  | Some a =>
      if (1 =? queue_size q)%nat then
        mkQueue (pop_back (pq q)) (delete a (indices q))
      else sift_down 1 (replace_by_last 1 a q)
  end.

Definition clear (q : indexed_priority_queue) : indexed_priority_queue := init_queue.
End queue.

Arguments indexed_priority_queue A {_ _}.
Arguments mkQueue {A _ _}.
Arguments init_queue {A _ _}.
Arguments pq {A _ _}.
Arguments indices {A _ _}.

(** ** Facts *)

Section queue_facts.
Context {A : Type} `{Countable A} (lt : A → A → bool).

(** The comparator is a strict weak order. *)
Class StrictWeakOrder : Prop := {
  lt_asym : ∀ a b, lt a b = true → lt b a = false;
  lt_negtrans : ∀ a b c, lt b a = false → lt c b = false → lt c a = false
}.
Context `{!StrictWeakOrder}.
Implicit Types q : indexed_priority_queue A.

(** Slot [i] does not come after slot [j]. *)
Definition le_at q (i j : nat) : Prop :=
  ∀ a b, at_ q i = Some a → at_ q j = Some b → lt b a = false.

Definition heap q : Prop := ∀ i, (2 <= i)%nat → le_at q (i / 2) i.

(** The index map is the inverse of the vector. *)
Definition indexed q : Prop := ∀ a i, indices q !! a = Some i ↔ at_ q i = Some a.

Definition elems q : gset A := list_to_set (pq q).

Lemma at_range q i : in_range q i = true ↔ is_Some (at_ q i).
Proof.
  unfold in_range, at_, queue_size. destruct i as [|i]; simpl; [by split; [|intros []]|].
  rewrite Nat.ltb_lt, lookup_lt_is_Some. lia.
Qed.

Lemma at_elem q i a : at_ q i = Some a → a ∈ elems q.
Proof.
  unfold elems. destruct i as [|i]; [done|]. simpl. intros ?%list_elem_of_lookup_2.
  by apply elem_of_list_to_set.
Qed.

Lemma elem_at q a : a ∈ elems q → ∃ i, (1 <= i <= queue_size q)%nat ∧ at_ q i = Some a.
Proof.
  unfold elems. intros (i & Hi)%elem_of_list_to_set%list_elem_of_lookup.
  exists (S i). split; [|done]. apply lookup_lt_Some in Hi. unfold queue_size. lia.
Qed.

Lemma indexed_inj q i j a : indexed q → at_ q i = Some a → at_ q j = Some a → i = j.
Proof. intros Hx Hi%Hx Hj%Hx. congruence. Qed.

Lemma higher_at idx1 idx2 q a b :
  at_ q idx1 = Some a → at_ q idx2 = Some b → higher lt idx1 idx2 q = lt a b.
Proof.
  intros H1 H2. unfold higher.
  rewrite (proj2 (at_range q idx1)), (proj2 (at_range q idx2)), H1, H2 by eauto. done.
Qed.

(** *** Swapping *)
Lemma at_swap q i j a b k :
  at_ q i = Some a → at_ q j = Some b → i ≠ j →
  at_ (swap_indices i j q) k =
    if decide (k = i) then Some b else if decide (k = j) then Some a else at_ q k.
Proof.
  intros Hi Hj Hne. unfold swap_indices.
  rewrite (proj2 (at_range q i)), (proj2 (at_range q j)) by eauto. simpl. rewrite Hi, Hj.
  destruct i as [|i], j as [|j]; try done. destruct k as [|k]; simpl in *; [done|].
  apply lookup_lt_Some in Hi as Hli. apply lookup_lt_Some in Hj as Hlj.
  destruct (decide (S k = S i)) as [[= ->]|Hki].
  - rewrite list_lookup_insert_ne by congruence. by rewrite list_lookup_insert_eq.
  - destruct (decide (S k = S j)) as [[= ->]|Hkj].
    + rewrite list_lookup_insert_eq; [done|]. by rewrite length_insert.
    + by rewrite !list_lookup_insert_ne by congruence.
Qed.

Lemma swap_size q i j : queue_size (swap_indices i j q) = queue_size q.
Proof.
  unfold swap_indices, queue_size. destruct (negb _); [done|].
  destruct (at_ q i), (at_ q j); try done. simpl. unfold set_slot.
  destruct i, j; simpl; rewrite ?length_insert; done.
Qed.

Lemma swap_indexed q i j a b :
  indexed q → at_ q i = Some a → at_ q j = Some b → i ≠ j → indexed (swap_indices i j q).
Proof.
  intros Hx Hi Hj Hne.
  assert (Hab : a ≠ b) by (intros ->; by eapply Hne, indexed_inj).
  intros c k. rewrite (at_swap q i j a b) by done.
  unfold swap_indices. rewrite (proj2 (at_range q i)), (proj2 (at_range q j)) by eauto.
  simpl. rewrite Hi, Hj. simpl.
  destruct (decide (c = b)) as [->|Hcb]; [rewrite lookup_insert_eq|
    rewrite lookup_insert_ne by done; destruct (decide (c = a)) as [->|Hca];
    [rewrite lookup_insert_eq|rewrite lookup_insert_ne by done; rewrite (Hx c k)]];
    repeat case_decide; simplify_eq; try (by split; congruence);
    try (split; intros E; [congruence|]; exfalso;
         match goal with H : ?k ≠ ?i |- _ => apply H; by eapply (indexed_inj q) end).
  all: split; congruence.
Qed.

Lemma swap_elems q i j a b :
  at_ q i = Some a → at_ q j = Some b → i ≠ j → elems (swap_indices i j q) = elems q.
Proof.
  intros Hi Hj Hne. apply set_eq. intros c. split; intros (k & _ & Hk)%elem_at.
  - rewrite (at_swap q i j a b) in Hk by done. repeat case_decide; simplify_eq; by eapply at_elem.
  - destruct (decide (k = i)) as [->|]; [apply (at_elem _ j)|
      destruct (decide (k = j)) as [->|]; [apply (at_elem _ i)|apply (at_elem _ k)]];
      rewrite (at_swap q i j a b) by done; repeat case_decide; congruence.
Qed.

(** *** Sifting

    A heap except around slot [idx]: every other edge is in order, and the parent of [idx]
    is not after its children. *)
Definition hole q (idx : nat) : Prop :=
  (∀ i, (2 <= i)%nat → i ≠ idx → (i / 2)%nat ≠ idx → le_at q (i / 2) i) ∧
  ((2 <= idx)%nat → ∀ c, (2 <= c)%nat → (c / 2)%nat = idx → le_at q (idx / 2) c).
Definition children_ok q (idx : nat) : Prop :=
  ∀ c, (2 <= c)%nat → (c / 2)%nat = idx → le_at q idx c.
Definition parent_ok q (idx : nat) : Prop := (2 <= idx)%nat → le_at q (idx / 2) idx.

Lemma heap_of_hole q idx : hole q idx → children_ok q idx → parent_ok q idx → heap q.
Proof.
  intros [H1 _] Hc Hp i Hi. destruct (decide (i = idx)) as [->|]; [by apply Hp|].
  destruct (decide ((i / 2)%nat = idx)) as [<-|]; [by apply Hc|]. by apply H1.
Qed.

Lemma half_lt i : (1 <= i)%nat → (i / 2 < i)%nat.
Proof. intros. apply Nat.div_lt; lia. Qed.

Lemma half_pos i : (2 <= i)%nat → (1 <= i / 2)%nat.
Proof. intros. apply Nat.div_le_lower_bound; lia. Qed.

Lemma le_at_trans q i j k b :
  at_ q j = Some b → le_at q i j → le_at q j k → le_at q i k.
Proof. intros Hb H1 H2 a c Ha Hc. eapply lt_negtrans; [by apply H1|by apply H2]. Qed.

(** Slots of a swapped queue. *)
Ltac swapped H :=
  repeat (rewrite H; repeat case_decide; subst; try lia; try done).

Lemma swap_up q idx a b :
  (2 <= idx)%nat → at_ q idx = Some a → at_ q (idx / 2) = Some b → lt a b = true → hole q idx →
  hole (swap_indices idx (idx / 2) q) (idx / 2) ∧
  children_ok (swap_indices idx (idx / 2) q) (idx / 2).
Proof.
  intros Hi Ha Hb Hlt [H1 H2]. pose proof (half_lt idx) as Hp. pose proof (half_pos idx) as Hp1.
  set (p := (idx / 2)%nat) in *. pose proof (half_lt p) as Hpp.
  assert (Hat : ∀ k, at_ (swap_indices idx p q) k =
    if decide (k = idx) then Some b else if decide (k = p) then Some a else at_ q k).
  { intros k. apply at_swap; [done|done|lia]. }
  assert (Hpc : ∀ c, (2 <= c)%nat → (c / 2)%nat = p → c ≠ idx → le_at q p c).
  { intros c Hc <- Hne. apply H1; [done|done|]. lia. }
  assert (Hgp : (2 <= p)%nat → le_at q (p / 2) p) by (intros; apply H1; lia).
  assert (Hab : lt b a = false) by by apply lt_asym.
  split; [split|].
  - intros i Hi2 Hip Hip2 x y. pose proof (half_lt i).
    destruct (decide (i = idx)) as [->|]; [done|].
    rewrite !Hat. rewrite (decide_False (P := i = idx)), (decide_False (P := i = p)) by done.
    rewrite (decide_False (P := (i / 2)%nat = p)) by done. case_decide as E.
    + intros [= <-] Hy. by apply (H2 Hi i Hi2 E b y).
    + apply (H1 i); done.
  - intros Hp2 c Hc Hcp x y. pose proof (half_lt c). rewrite !Hat.
    rewrite (decide_False (P := (p / 2)%nat = idx)), (decide_False (P := (p / 2)%nat = p)) by lia.
    rewrite (decide_False (P := c = p)) by lia. intros Hx. case_decide as E.
    + intros [= <-]. by apply (Hgp Hp2).
    + intros Hy. eapply (le_at_trans q (p / 2) p c b); eauto.
  - intros c Hc Hcp x y. pose proof (half_lt c). rewrite !Hat.
    rewrite (decide_False (P := p = idx)), (decide_True (P := p = p)) by lia.
    rewrite (decide_False (P := c = p)) by lia. intros [= <-]. case_decide as E.
    + by intros [= <-].
    + intros Hy. eapply lt_negtrans; [exact Hab|]. by apply (Hpc c Hc Hcp E b y).
Qed.

Lemma swap_down q idx m a b :
  (2 <= m)%nat → (m / 2)%nat = idx → at_ q idx = Some a → at_ q m = Some b → lt b a = true →
  (∀ c, (2 <= c)%nat → (c / 2)%nat = idx → le_at q m c) → hole q idx →
  hole (swap_indices m idx q) m ∧ parent_ok (swap_indices m idx q) m.
Proof.
  intros Hm Hmi Ha Hb Hlt Hmin [H1 H2]. pose proof (half_lt m) as Hlt1. rewrite Hmi in Hlt1.
  assert (Hat : ∀ k, at_ (swap_indices m idx q) k =
    if decide (k = m) then Some a else if decide (k = idx) then Some b else at_ q k).
  { intros k. apply at_swap; [done|done|lia]. }
  split; [split|].
  - intros i Hi Him Him2 x y. pose proof (half_lt i). rewrite !Hat.
    rewrite (decide_False (P := (i / 2)%nat = m)), (decide_False (P := i = m)) by done.
    destruct (decide (i = idx)) as [->|].
    + rewrite (decide_False (P := (idx / 2)%nat = idx)) by lia. intros Hx [= <-].
      by apply (H2 Hi m Hm Hmi).
    + case_decide as E.
      * intros [= <-] Hy. by apply (Hmin i Hi E).
      * by apply H1.
  - intros _ c Hc Hcm x y. pose proof (half_lt c). rewrite !Hat, Hmi.
    rewrite (decide_False (P := idx = m)), (decide_True (P := idx = idx)) by lia.
    rewrite (decide_False (P := c = m)), (decide_False (P := c = idx)) by lia.
    intros [= <-] Hy. apply (H1 c Hc); [lia|lia|by rewrite Hcm|done].
  - intros _ x y. rewrite !Hat, Hmi.
    rewrite (decide_False (P := idx = m)), (decide_True (P := idx = idx)) by lia.
    rewrite (decide_True (P := m = m)) by done. intros [= <-] [= <-]. by apply lt_asym.
Qed.

(** What sifting keeps. *)
Definition same_content q q' : Prop :=
  indexed q' ∧ elems q' = elems q ∧ queue_size q' = queue_size q.

Lemma same_content_refl q : indexed q → same_content q q.
Proof. intros ?. by split_and!. Qed.

Lemma swap_content q i j a b :
  indexed q → at_ q i = Some a → at_ q j = Some b → i ≠ j → same_content q (swap_indices i j q).
Proof. intros. split_and!; [by eapply swap_indexed|by eapply swap_elems|apply swap_size]. Qed.

Lemma same_content_trans q1 q2 q3 : same_content q1 q2 → same_content q2 q3 → same_content q1 q3.
Proof. intros (? & ? & ?) (? & ? & ?). split_and!; [done|congruence..]. Qed.

Lemma at_some q i : (1 <= i <= queue_size q)%nat → ∃ a, at_ q i = Some a.
Proof.
  intros Hi. apply at_range. unfold in_range. apply andb_true_iff. rewrite !Nat.ltb_lt. lia.
Qed.

Lemma at_bound q i a : at_ q i = Some a → (1 <= i <= queue_size q)%nat.
Proof.
  intros Ha. assert (in_range q i = true) as Hr by (apply at_range; eauto).
  unfold in_range in Hr. apply andb_true_iff in Hr. rewrite !Nat.ltb_lt in Hr. lia.
Qed.

Lemma sift_up_spec fuel : ∀ idx q a,
  (idx <= fuel)%nat → indexed q → at_ q idx = Some a → hole q idx → children_ok q idx →
  heap (sift_up_loop lt fuel idx q) ∧ same_content q (sift_up_loop lt fuel idx q).
Proof.
  induction fuel as [|fuel IH]; intros idx q a Hf Hx Ha Hh Hc; cbn [sift_up_loop].
  { pose proof (at_bound _ _ _ Ha). lia. }
  destruct (Nat.ltb_spec 1 idx) as [Hi|Hi].
  2:{ split; [|by apply same_content_refl]. eapply heap_of_hole; eauto. intros ?. lia. }
  pose proof (half_lt idx). pose proof (half_pos idx). pose proof (at_bound _ _ _ Ha).
  destruct (at_some q (idx / 2)) as [b Hb]; [lia|]. rewrite (higher_at _ _ _ a b) by done.
  destruct (lt a b) eqn:Hlt.
  - destruct (swap_up q idx a b) as [Hh' Hc']; [lia|done..|].
    pose proof (swap_content q idx (idx / 2) a b Hx Ha Hb) as Hcont.
    assert (same_content q (swap_indices idx (idx / 2) q)) as Hs by (apply Hcont; lia).
    destruct (IH (idx / 2)%nat (swap_indices idx (idx / 2) q) a) as [Hheap Hs2]; try done.
    + lia.
    + apply Hs.
    + rewrite (at_swap q idx (idx / 2) a b) by (done || lia).
      rewrite decide_False by lia. by rewrite decide_True.
    + split; [done|]. by eapply same_content_trans.
  - split; [|by apply same_content_refl]. eapply heap_of_hole; eauto.
    intros _ x y Hx' Hy. congruence.
Qed.

Lemma lt_irrefl a : lt a a = false.
Proof. destruct (lt a a) eqn:E; [|done]. by rewrite (lt_asym _ _ E) in E. Qed.

(** The child [sift_down] compares with comes first among the children. *)
Definition first_child q (idx : nat) : nat :=
  let child := (2 * idx)%nat in
  if (child <? queue_size q)%nat && higher lt (child + 1) child q then (child + 1)%nat else child.

Lemma half_cases c idx : (c / 2)%nat = idx → c = (2 * idx)%nat ∨ c = (2 * idx + 1)%nat.
Proof. intros <-. pose proof (Nat.div_mod_eq c 2). pose proof (Nat.mod_upper_bound c 2). lia. Qed.

Lemma half_double idx : (2 * idx / 2)%nat = idx ∧ ((2 * idx + 1) / 2)%nat = idx.
Proof.
  split; [rewrite Nat.mul_comm; apply Nat.div_mul; lia|].
  symmetry. apply (Nat.div_unique _ 2 idx 1); lia.
Qed.

Lemma first_child_spec q idx :
  (1 <= idx)%nat → (2 * idx <= queue_size q)%nat →
  let m := first_child q idx in
  (2 <= m <= queue_size q)%nat ∧ (idx < m)%nat ∧ (m / 2)%nat = idx ∧
  ∀ c, (2 <= c)%nat → (c / 2)%nat = idx → le_at q m c.
Proof.
  intros H1 H2 m. subst m. unfold first_child. destruct (half_double idx) as [E1 E2].
  destruct (at_some q (2 * idx)) as [a Ha]; [lia|].
  destruct (Nat.ltb_spec (2 * idx) (queue_size q)) as [Hs|Hs]; cbn [andb].
  - destruct (at_some q (2 * idx + 1)) as [b Hb]; [lia|]. rewrite (higher_at _ _ _ b a) by done.
    destruct (lt b a) eqn:Hlt; (split_and!; [lia|lia|lia|done|]);
      intros c Hc [->| ->]%half_cases x y Hx Hy; simplify_eq; try done.
    + by apply lt_asym.
    + apply lt_irrefl.
    + apply lt_irrefl.
  - split_and!; [lia|lia|lia|done|].
    intros c Hc [->| ->]%half_cases x y Hx Hy; simplify_eq.
    + apply lt_irrefl.
    + apply at_bound in Hy. lia.
Qed.

Lemma sift_down_spec fuel : ∀ idx q a,
  (queue_size q < fuel + idx)%nat → indexed q → at_ q idx = Some a → hole q idx →
  parent_ok q idx →
  heap (sift_down_loop lt fuel idx q) ∧ same_content q (sift_down_loop lt fuel idx q).
Proof.
  induction fuel as [|fuel IH]; intros idx q a Hf Hx Ha Hh Hp; cbn [sift_down_loop];
    pose proof (at_bound _ _ _ Ha) as Hb; [lia|].
  destruct (Nat.leb_spec (2 * idx) (queue_size q)) as [Hs|Hs].
  2:{ split; [|by apply same_content_refl]. eapply heap_of_hole; eauto.
      intros c Hc Hci%half_cases x y Hx' Hy%at_bound. lia. }
  fold (first_child q idx). destruct (first_child_spec q idx) as (Hm & Hlt & Hmi & Hmin);
    [lia|lia|]. set (m := first_child q idx) in *.
  destruct (at_some q m) as [b Hbm]; [lia|]. rewrite (higher_at _ _ _ b a) by done.
  destruct (lt b a) eqn:Hba.
  - destruct (swap_down q idx m a b) as [Hh' Hp']; [lia|done..|].
    assert (Hs' : same_content q (swap_indices m idx q)) by (eapply swap_content; eauto; lia).
    destruct (IH m (swap_indices m idx q) a) as [Hheap Hs2]; try done.
    + rewrite (proj2 (proj2 Hs')). lia.
    + apply Hs'.
    + rewrite (at_swap q m idx b a) by (done || lia). by rewrite decide_True.
    + split; [done|]. by eapply same_content_trans.
  - split; [|by apply same_content_refl]. eapply heap_of_hole; eauto.
    intros c Hc Hci. apply (le_at_trans q idx m c b); [done| |by apply Hmin].
    intros x y Hx' Hy. congruence.
Qed.

Lemma heap_hole q idx : heap q → hole q idx ∧ children_ok q idx ∧ parent_ok q idx.
Proof.
  intros Hh. split; [split|split].
  - intros i Hi _ _. by apply Hh.
  - intros Hi c Hc <- x y Hx Hy. pose proof (half_lt c). pose proof (at_bound _ _ _ Hy).
    destruct (at_some q (c / 2)) as [b Hb]; [lia|].
    eapply (le_at_trans q (c / 2 / 2) (c / 2) c b); eauto.
  - intros c Hc <-. by apply Hh.
  - intros Hi. by apply Hh.
Qed.

(** [sift_up] after an interior replacement: either the heap is restored, or nothing moved
    and only the children of [idx] can be out of order. *)
Lemma sift_up_hole idx q a :
  indexed q → at_ q idx = Some a → hole q idx →
  same_content q (sift_up lt idx q) ∧
  (heap (sift_up lt idx q) ∨ sift_up lt idx q = q ∧ parent_ok q idx).
Proof.
  intros Hx Ha Hh. unfold sift_up. destruct idx as [|idx]; [done|]. cbn [sift_up_loop].
  destruct (Nat.ltb_spec 1 (S idx)) as [Hi|Hi].
  2:{ split; [by apply same_content_refl|]. right. split; [done|]. intros ?. lia. }
  pose proof (half_lt (S idx)). pose proof (half_pos (S idx)). pose proof (at_bound _ _ _ Ha).
  destruct (at_some q (S idx / 2)) as [b Hb]; [lia|]. rewrite (higher_at _ _ _ a b) by done.
  destruct (lt a b) eqn:Hlt.
  - destruct (swap_up q (S idx) a b) as [Hh' Hc']; [lia|done..|].
    assert (Hs : same_content q (swap_indices (S idx) (S idx / 2) q))
      by (eapply swap_content; eauto; lia).
    destruct (sift_up_spec idx (S idx / 2) (swap_indices (S idx) (S idx / 2) q) a)
      as [Hheap Hs2]; try done.
    + lia.
    + apply Hs.
    + rewrite (at_swap q (S idx) (S idx / 2) a b) by (done || lia).
      rewrite decide_False by lia. by rewrite decide_True.
    + split; [by eapply same_content_trans|by left].
  - split; [by apply same_content_refl|]. right. split; [done|].
    intros _ x y Hx' Hy. congruence.
Qed.

(** *** Operations *)

Record queue_ok q : Prop := { qo_indexed : indexed q; qo_heap : heap q }.

Lemma top_min q a b : heap q → at_ q 1 = Some a → b ∈ elems q → lt b a = false.
Proof.
  intros Hh Ha (i & Hi & Hb)%elem_at. revert b Hb.
  induction i as [i IH] using (well_founded_induction lt_wf); intros b Hb.
  destruct (decide (i = 1%nat)) as [->|]; [replace b with a by congruence; apply lt_irrefl|].
  pose proof (half_lt i). pose proof (half_pos i). pose proof (at_bound _ _ _ Hb).
  destruct (at_some q (i / 2)) as [c Hc]; [lia|].
  eapply lt_negtrans; [by apply (IH (i / 2)%nat); [lia|lia|exact Hc]|].
  by apply (Hh i); [lia|..].
Qed.

Lemma at_push (l : list A) x m k :
  at_ (mkQueue (l ++ [x]) m) k = if decide (k = S (length l)) then Some x else at_ (mkQueue l m) k.
Proof.
  destruct k as [|k]; simpl; [done|]. case_decide as E.
  - injection E as ->. by apply list_lookup_middle.
  - destruct (decide (k < length l)%nat); [by rewrite lookup_app_l|].
    rewrite !lookup_ge_None_2; [done|lia|]. rewrite length_app. simpl. lia.
Qed.

Lemma push_spec a q :
  queue_ok q → queue_ok (push lt (Some a) q) ∧ elems (push lt (Some a) q) = {[a]} ∪ elems q.
Proof.
  intros [Hx Hh]. unfold push, queue_contains. case_bool_decide as Hc.
  { destruct Hc as [i Hi%Hx]. apply at_elem in Hi. split; [done|set_solver]. }
  set (q0 := mkQueue (pq q ++ [a]) (<[a := length (pq q ++ [a])]> (indices q))).
  assert (Hlen : length (pq q ++ [a]) = S (length (pq q))) by (rewrite length_app; simpl; lia).
  assert (Hat : ∀ k, at_ q0 k = if decide (k = S (length (pq q))) then Some a else at_ q k).
  { intros k. unfold q0. by rewrite at_push; destruct k. }
  assert (Hnew : ∀ k, at_ q k ≠ Some a) by (intros k ?%Hx; eauto).
  assert (Hx0 : indexed q0).
  { intros c k. rewrite Hat. simpl. rewrite Hlen.
    destruct (decide (c = a)) as [->|]; [rewrite lookup_insert_eq|rewrite lookup_insert_ne by done].
    - case_decide; split; congruence.
    - rewrite (Hx c k). case_decide; [|done]. subst. split; [|congruence].
      intros ?%at_bound. unfold queue_size in *. lia. }
  assert (Hnone : ∀ k, (S (length (pq q)) < k)%nat → at_ q0 k = None).
  { intros k Hk. rewrite Hat, decide_False by lia. destruct (at_ q k) eqn:E; [|done].
    apply at_bound in E. unfold queue_size in E. lia. }
  destruct (sift_up_spec (length (pq q ++ [a])) (length (pq q ++ [a])) q0 a)
    as [Hheap (Hx1 & He & _)]; try done.
  - by rewrite Hat, decide_True.
  - rewrite Hlen. split.
    + intros i Hi Hi1 Hi2 x y. rewrite !Hat, !decide_False by done. by apply Hh.
    + intros _ c Hge Hc2 x y Hx1 Hy. pose proof (half_lt c). rewrite Hnone in Hy; [done|lia].
  - intros c Hge Hc2 x y Hx1 Hy. pose proof (half_lt c). rewrite Hnone in Hy; [done|lia].
  - split; [by split|]. unfold sift_up. rewrite He. unfold elems, q0. simpl.
    rewrite list_to_set_app_L. simpl. set_solver.
Qed.

Lemma at_pop_back (l : list A) m k :
  at_ (mkQueue (pop_back l) m) k =
  if decide (k < length l)%nat then at_ (mkQueue l m) k else None.
Proof.
  unfold pop_back. destruct k as [|k]; simpl; [by case_decide|]. case_decide.
  - rewrite lookup_take_lt; [done|lia].
  - rewrite lookup_take_ge; [done|lia].
Qed.

(** Elements of a queue whose slots are known. *)
Lemma elems_delete q q' a :
  indexed q' → (∀ b, (∃ i, at_ q' i = Some b) ↔ (∃ i, at_ q i = Some b) ∧ b ≠ a) →
  elems q' = elems q ∖ {[a]}.
Proof.
  intros _ Hiff. apply set_eq. intros b. rewrite elem_of_difference, elem_of_singleton. split.
  - intros (i & _ & Hi)%elem_at. destruct (proj1 (Hiff b)) as [[j Hj] Hne]; [by eauto|].
    split; [by eapply at_elem|done].
  - intros [(i & _ & Hi)%elem_at Hne]. destruct (proj2 (Hiff b)) as [j Hj]; [by eauto|].
    by eapply at_elem.
Qed.

(** Removing the last slot. *)
Lemma remove_last_spec q a :
  queue_ok q → at_ q (queue_size q) = Some a →
  let q' := mkQueue (pop_back (pq q)) (delete a (indices q)) in
  queue_ok q' ∧ elems q' = elems q ∖ {[a]}.
Proof.
  intros [Hx Hh] Ha q'.
  assert (Hat : ∀ k, at_ q' k = if decide (k < queue_size q)%nat then at_ q k else None).
  { intros k. unfold q'. rewrite at_pop_back. by destruct q. }
  assert (Hx' : indexed q').
  { intros b k. simpl. rewrite Hat. destruct (decide (a = b)) as [<-|].
    - rewrite lookup_delete_eq. split; [done|]. case_decide; [|done]. intros Hk.
      pose proof (indexed_inj q _ _ _ Hx Hk Ha). lia.
    - rewrite lookup_delete_ne by done. rewrite (Hx b k). case_decide; [done|].
      split; [|done]. intros Hk. pose proof (at_bound _ _ _ Hk).
      assert (k = queue_size q) as -> by lia. congruence. }
  split; [split; [done|]|apply elems_delete; [done|]].
  - intros i Hi x y. rewrite !Hat. do 2 case_decide; try done. by apply Hh.
  - intros b. split.
    + intros [i Hi]. rewrite Hat in Hi. case_decide; [|done]. split; [by eauto|]. intros ->.
      pose proof (indexed_inj q _ _ _ Hx Hi Ha). lia.
    + intros [[i Hi] Hne]. exists i. rewrite Hat. case_decide; [done|].
      pose proof (at_bound _ _ _ Hi). assert (i = queue_size q) as -> by lia. congruence.
Qed.

Lemma at_replace q idx a l k :
  at_ q (queue_size q) = Some l → (1 <= idx < queue_size q)%nat →
  at_ (replace_by_last idx a q) k =
  if decide (k = idx) then Some l else if decide (k < queue_size q)%nat then at_ q k else None.
Proof.
  intros Hl Hi. unfold replace_by_last. rewrite last_lookup.
  unfold queue_size in *. destruct (length (pq q)) as [|n] eqn:Hn; [lia|]. simpl in *. rewrite Hl.
  rewrite at_pop_back. destruct idx as [|idx]; [lia|]. cbn [set_slot]. rewrite length_insert, Hn.
  destruct k as [|k]; simpl; [by repeat case_decide|].
  destruct (decide (S k = S idx)) as [[= ->]|].
  - rewrite decide_True by lia. rewrite list_lookup_insert_eq; [done|lia].
  - rewrite list_lookup_insert_ne by congruence. done.
Qed.

(** Replacing an interior element by the last one leaves a heap except around it. *)
Lemma replace_spec q idx a :
  queue_ok q → at_ q idx = Some a → (idx < queue_size q)%nat →
  let q' := replace_by_last idx a q in
  indexed q' ∧ hole q' idx ∧ elems q' = elems q ∖ {[a]} ∧ (∃ l, at_ q' idx = Some l) ∧
  queue_size q' = pred (queue_size q).
Proof.
  intros [Hx Hh] Ha Hi q'. pose proof (at_bound _ _ _ Ha).
  destruct (at_some q (queue_size q)) as [l Hl]; [lia|].
  assert (Hal : a ≠ l). { intros ->. pose proof (indexed_inj q _ _ _ Hx Ha Hl). lia. }
  assert (Hat : ∀ k, at_ q' k =
    if decide (k = idx) then Some l else if decide (k < queue_size q)%nat then at_ q k else None).
  { intros k. apply at_replace; [done|lia]. }
  assert (Hind : indices q' = delete a (<[l := idx]> (indices q))).
  { unfold q', replace_by_last. rewrite last_lookup. unfold queue_size in Hl.
    destruct (length (pq q)) eqn:E; [done|]. simpl in *. by rewrite Hl. }
  assert (Hx' : indexed q').
  { intros b k. rewrite Hind, Hat. destruct (decide (a = b)) as [<-|].
    - rewrite lookup_delete_eq. split; [done|]. repeat case_decide; try done; [congruence|].
      intros Hk. by pose proof (indexed_inj q _ _ _ Hx Hk Ha).
    - rewrite lookup_delete_ne by done. destruct (decide (l = b)) as [<-|].
      + rewrite lookup_insert_eq. repeat case_decide; split; try congruence.
        intros Hk. pose proof (indexed_inj q _ _ _ Hx Hk Hl). lia.
      + rewrite lookup_insert_ne by done. rewrite (Hx b k). repeat case_decide; subst;
          split; try congruence.
        intros Hk. pose proof (at_bound _ _ _ Hk).
        assert (k = queue_size q) as -> by lia. congruence. }
  split_and!; [done| | | |].
  - assert (Hmono : ∀ i j, i ≠ idx → j ≠ idx → le_at q i j → le_at q' i j).
    { intros i j Hne1 Hne2 Hle x y. rewrite !Hat, (decide_False (P := i = idx)),
        (decide_False (P := j = idx)) by done. do 2 case_decide; try done. apply Hle. }
    destruct (heap_hole q idx Hh) as ([_ H2] & _ & _). split.
    + intros i Hi2 Hne Hne2. apply Hmono; auto.
    + intros Hi2 c Hc Hci. pose proof (half_lt c). pose proof (half_lt idx).
      apply Hmono; [lia|lia|auto].
  - apply elems_delete; [done|]. intros b. split.
    + intros [i Hb]. rewrite Hat in Hb. repeat case_decide; simplify_eq.
      * split; [by eauto|done].
      * split; [by eauto|]. intros ->. by pose proof (indexed_inj q _ _ _ Hx Hb Ha).
    + intros [[i Hb] Hne]. destruct (decide (i = queue_size q)) as [->|].
      * exists idx. rewrite Hat, decide_True by done. congruence.
      * pose proof (at_bound _ _ _ Hb). exists i. rewrite Hat, decide_False by congruence.
        by rewrite decide_True by lia.
  - exists l. by rewrite Hat, decide_True.
  - unfold q', replace_by_last, queue_size in *. rewrite last_lookup.
    destruct (length (pq q)) eqn:E; [lia|]. simpl in Hl |- *. rewrite Hl. simpl.
    unfold pop_back. destruct idx; simpl; [lia|]. rewrite length_take, length_insert, E. lia.
Qed.

Lemma remove_spec q a :
  queue_ok q →
  (remove lt (Some a) q).1 = bool_decide (a ∈ elems q) ∧ queue_ok (remove lt (Some a) q).2 ∧
  elems (remove lt (Some a) q).2 = elems q ∖ {[a]}.
Proof.
  intros Hok. pose proof Hok as [Hx Hh]. unfold remove.
  destruct (indices q !! a) as [idx|] eqn:Hi.
  2:{ assert (Hn : a ∉ elems q). { intros (i & _ & ?%Hx)%elem_at. congruence. }
      rewrite bool_decide_false by done. split_and!; [done|done|]. simpl. set_solver. }
  apply Hx in Hi. pose proof (at_bound _ _ _ Hi) as Hb.
  rewrite bool_decide_true by by eapply at_elem.
  destruct (Nat.leb_spec (S (queue_size q)) idx); [lia|].
  destruct (Nat.eqb_spec idx (queue_size q)) as [->|Hne].
  { split; [done|]. by apply remove_last_spec. }
  destruct (replace_spec q idx a Hok Hi) as (Hx0 & Hh0 & He0 & [l Hl] & Hs0); [lia|].
  set (q0 := replace_by_last idx a q) in *. simpl. split; [done|].
  destruct (sift_up_hole idx q0 l Hx0 Hl Hh0) as [(Hx1 & He1 & Hs1) Hor].
  assert (∃ l', at_ (sift_up lt idx q0) idx = Some l') as [l' Hl'] by (apply at_some; lia).
  assert (hole (sift_up lt idx q0) idx ∧ parent_ok (sift_up lt idx q0) idx) as [Hh1 Hp1].
  { destruct Hor as [Hheap|[-> Hp]]; [|done]. by destruct (heap_hole _ idx Hheap) as (? & _ & ?). }
  destruct (sift_down_spec (queue_size (sift_up lt idx q0)) idx (sift_up lt idx q0) l')
    as [Hheap (Hx2 & He2 & _)]; try done; [lia|].
  split; [by split|]. unfold sift_down. by rewrite He2, He1.
Qed.

Lemma top_spec q :
  queue_ok q →
  match top q with
  | None => elems q = ∅
  | Some a => at_ q 1 = Some a ∧ a ∈ elems q ∧ ∀ b, b ∈ elems q → lt b a = false
  end.
Proof.
  intros [Hx Hh]. unfold top, queue_empty. destruct (Nat.ltb_spec (queue_size q) 1).
  - apply set_eq. intros a. split; [|set_solver]. intros (i & ? & _)%elem_at. lia.
  - destruct (at_some q 1) as [a Ha]; [lia|]. rewrite Ha.
    split_and!; [done|by eapply at_elem|]. intros b Hb. by eapply top_min.
Qed.

Lemma pop_spec q :
  queue_ok q → queue_ok (pop lt q) ∧
  elems (pop lt q) = match top q with Some a => elems q ∖ {[a]} | None => elems q end.
Proof.
  intros Hok. pose proof (top_spec q Hok) as Ht. unfold pop. destruct (top q) as [a|]; [|done].
  destruct Ht as (Ha & _ & _). pose proof (at_bound _ _ _ Ha).
  destruct (Nat.eqb_spec 1 (queue_size q)) as [E|].
  { apply remove_last_spec; [done|]. by rewrite <- E. }
  destruct (replace_spec q 1 a Hok Ha) as (Hx0 & Hh0 & He0 & [l Hl] & Hs0); [lia|].
  assert (Hp : parent_ok (replace_by_last 1 a q) 1) by (intros ?; lia).
  destruct (sift_down_spec (queue_size (replace_by_last 1 a q)) 1 (replace_by_last 1 a q) l)
    as [Hheap (Hx2 & He2 & _)]; [lia|done..|].
  split; [by split|]. unfold sift_down. by rewrite He2.
Qed.

Lemma init_queue_ok : queue_ok init_queue.
Proof.
  split.
  - intros a i. simpl. rewrite lookup_empty. by destruct i.
  - intros i _ a b. by destruct (i / 2)%nat.
Qed.

(** *** Abstract specification: a finite set *)

Inductive QueueOp := QPush (a : A) | QRemove (a : A) | QPop | QClear.

Definition run_op (op : QueueOp) q : indexed_priority_queue A :=
  match op with
  | QPush a => push lt (Some a) q
  | QRemove a => (remove lt (Some a) q).2
  | QPop => pop lt q
  | QClear => clear q
  end.

(** What the operation does to the set of elements; [pop] removes an element that no other
    precedes. *)
Definition spec_op (op : QueueOp) (s s' : gset A) : Prop :=
  match op with
  | QPush a => s' = {[a]} ∪ s
  | QRemove a => s' = s ∖ {[a]}
  | QPop => (s = ∅ ∧ s' = ∅) ∨ ∃ a, a ∈ s ∧ (∀ b, b ∈ s → lt b a = false) ∧ s' = s ∖ {[a]}
  | QClear => s' = ∅
  end.

Lemma run_op_ok op q : queue_ok q → queue_ok (run_op op q) ∧ spec_op op (elems q) (elems (run_op op q)).
Proof.
  intros Hok. destruct op as [a|a| |]; simpl.
  - by apply push_spec.
  - destruct (remove_spec q a Hok) as (_ & ? & ?). done.
  - destruct (pop_spec q Hok) as [Hok' ->]. split; [done|].
    pose proof (top_spec q Hok) as Ht. destruct (top q) as [a|]; [|by left].
    right. exists a. by destruct Ht as (_ & ? & ?).
  - split; [apply init_queue_ok|done].
Qed.
End queue_facts.

Arguments QueueOp : clear implicits.

Section queue_refinement.
Context {A : Type} `{Countable A} (lt : A → A → bool) `{!StrictWeakOrder lt}.

(** Sequences of operations of the specification. *)
Inductive spec_run : list (QueueOp A) → gset A → gset A → Prop :=
  | sr_nil s : spec_run [] s s
  | sr_cons op ops s1 s2 s3 : spec_op lt op s1 s2 → spec_run ops s2 s3 → spec_run (op :: ops) s1 s3.

Definition run_ops (ops : list (QueueOp A)) (q : indexed_priority_queue A)
    : indexed_priority_queue A := foldl (λ q op, run_op lt op q) q ops.

Lemma run_ops_ok ops : ∀ q,
  queue_ok lt q → queue_ok lt (run_ops ops q) ∧ spec_run ops (elems q) (elems (run_ops ops q)).
Proof.
  induction ops as [|op ops IH]; intros q Hok; [by split; [|constructor]|].
  destruct (run_op_ok lt op q Hok) as [Hok' Hop].
  destruct (IH _ Hok') as [Hok2 Hrun]. split; [done|]. by econstructor.
Qed.

Lemma indexed_NoDup (q : indexed_priority_queue A) : indexed q → NoDup (pq q).
Proof.
  intros Hx. apply NoDup_alt. intros i j a Hi Hj.
  pose proof (indexed_inj q (S i) (S j) a Hx Hi Hj). lia.
Qed.

(** C39: the indexed priority queue refines a finite set under any sequence of operations:
    the heap order and the inverse index map are kept, [contains] is membership, [size] is
    the number of elements, [top] is an element that no other element precedes, and [remove]
    reports whether the element was present. *)
Theorem queue_refines_set ops :
  let q := run_ops ops init_queue in
  heap lt q ∧ indexed q ∧ spec_run ops ∅ (elems q) ∧ queue_size q = size (elems q) ∧
  (∀ a, queue_contains (Some a) q = bool_decide (a ∈ elems q)) ∧
  (∀ a, (remove lt (Some a) q).1 = bool_decide (a ∈ elems q)) ∧
  match top q with
  | None => elems q = ∅
  | Some a => a ∈ elems q ∧ ∀ b, b ∈ elems q → lt b a = false
  end.
Proof.
  intros q. destruct (run_ops_ok ops init_queue (init_queue_ok lt)) as [Hok Hrun]. fold q in Hok, Hrun.
  pose proof Hok as [Hx Hh]. split_and!; try done.
  - unfold queue_size, elems. symmetry. apply size_list_to_set. by apply indexed_NoDup.
  - intros a. unfold queue_contains. apply bool_decide_ext. split.
    + intros [i Hi%Hx]. by eapply at_elem.
    + intros (i & _ & Hi%Hx)%elem_at. eauto.
  - intros a. by apply (remove_spec lt q a).
  - pose proof (top_spec lt q Hok) as Ht. destruct (top q); [|done]. by destruct Ht as (_ & ?).
Qed.
End queue_refinement.

#[export] Instance Zltb_order : StrictWeakOrder Z.ltb.
Proof. split; intros *; rewrite ?Z.ltb_lt, ?Z.ltb_ge; lia. Qed.

(** Pushes out of order, an interior removal and a pop. *)
Definition exampleQueue : indexed_priority_queue Z :=
  run_ops Z.ltb [QPush 5; QPush 3; QPush 8; QPush 1; QRemove 3; QPop; QPush 4] init_queue.

Lemma queue_refines_set_witness :
  heap Z.ltb exampleQueue ∧ queue_size exampleQueue = 3%nat ∧ top exampleQueue = Some 4.
Proof.
  destruct (queue_refines_set Z.ltb [QPush 5; QPush 3; QPush 8; QPush 1; QRemove 3; QPop; QPush 4])
    as (Hheap & _).
  split; [exact Hheap|]. split; vm_compute; reflexivity.
Defined.
