(* ===== verification/Alarms.v ===== *)
(** * Alarms (anomaly/AlarmMonitor.cpp, anomaly/AlarmTracker.cpp)

    The monitor keeps the alarms in the indexed priority queue and tells the companion service
    one time at which to wake statsd up.  Calls of the companion service are recorded in order.
    An alarm is a heap object: it is compared by its address. *)
From S2P Require Import Prelude PriorityQueue.

Record InternalAlarm := mkAlarm { alarm_address : Z; timestampSec : Z }.

#[export] Instance InternalAlarm_eq_dec : EqDecision InternalAlarm.
Proof. solve_decision. Defined.

#[export] Instance InternalAlarm_countable : Countable InternalAlarm.
Proof.
  refine (inj_countable' (λ a, (alarm_address a, timestampSec a)) (λ p, mkAlarm p.1 p.2) _).
  by intros [].
Defined.

Definition SmallerTimestamp (a b : InternalAlarm) : bool := timestampSec a <? timestampSec b.

(** What the monitor asks of the companion service. *)
Inductive ServiceCall := UpdateAlarm (timeMs : Z) | CancelAlarm.

Record AlarmMonitor := mkMonitor {
  mRegisteredAlarmTimeSec : Z;
  mPq : indexed_priority_queue InternalAlarm;
  mMinUpdateTimeSec : Z;
  mStatsCompanionService : bool;
  serviceCalls : list ServiceCall
}.

Definition AlarmMonitor_new (minDiffToUpdateRegisteredAlarmTimeSec : Z) : AlarmMonitor :=
  mkMonitor 0 init_queue minDiffToUpdateRegisteredAlarmTimeSec false [].

Definition set_pq (q : indexed_priority_queue InternalAlarm) (m : AlarmMonitor) : AlarmMonitor :=
  mkMonitor (mRegisteredAlarmTimeSec m) q (mMinUpdateTimeSec m) (mStatsCompanionService m)
    (serviceCalls m).

Definition secToMs (timeSec : Z) : Z := timeSec * 1000.

Definition updateRegisteredAlarmTime_l (t : Z) (m : AlarmMonitor) : AlarmMonitor :=
  mkMonitor t (mPq m) (mMinUpdateTimeSec m) (mStatsCompanionService m)
    (serviceCalls m ++ [UpdateAlarm (secToMs t)]).

Definition cancelRegisteredAlarmTime_l (m : AlarmMonitor) : AlarmMonitor :=
  mkMonitor 0 (mPq m) (mMinUpdateTimeSec m) (mStatsCompanionService m)
    (serviceCalls m ++ [CancelAlarm]).

Definition setStatsCompanionService (service : bool) (m : AlarmMonitor) : AlarmMonitor :=
  let m := mkMonitor (mRegisteredAlarmTimeSec m) (mPq m) (mMinUpdateTimeSec m) service
             (serviceCalls m) in
  if negb service then m
  else
    match top (mPq m) with
    | Some t => updateRegisteredAlarmTime_l (timestampSec t) m
    | None => m
    end.

(** [add]; the sums are of [uint32_t]. *)
Definition add (alarm : option InternalAlarm) (m : AlarmMonitor) : AlarmMonitor :=
  match alarm with
  | None => m
  | Some alarm =>
      if timestampSec alarm <? 1 then m
      else
        let m := set_pq (push SmallerTimestamp (Some alarm) (mPq m)) m in
        if (mRegisteredAlarmTimeSec m <? 1)
           || (u32 (timestampSec alarm + mMinUpdateTimeSec m) <? mRegisteredAlarmTimeSec m)
        then updateRegisteredAlarmTime_l (timestampSec alarm) m
        else m
  end.

Definition remove_alarm (alarm : option InternalAlarm) (m : AlarmMonitor) : AlarmMonitor :=
  match alarm with
  | None => m
  | Some alarm =>
      let (wasPresent, q) := remove SmallerTimestamp (Some alarm) (mPq m) in
      let m := set_pq q m in
      if negb wasPresent then m
      else
        match top (mPq m) with
        | None => cancelRegisteredAlarmTime_l m
        | Some t =>
            let soonestAlarmTimeSec := timestampSec t in
            if u32 (mRegisteredAlarmTimeSec m + mMinUpdateTimeSec m) <? soonestAlarmTimeSec
            then updateRegisteredAlarmTime_l soonestAlarmTimeSec m
            else m
        end
  end.

(** The loop of [popSoonerThan]; every step removes an element. *)
Fixpoint popLoop (fuel : nat) (t : Z) (q : indexed_priority_queue InternalAlarm)
    (oldAlarms : list InternalAlarm) : list InternalAlarm * indexed_priority_queue InternalAlarm :=
  match fuel with
  | O => (oldAlarms, q)
  | S fuel =>
      match top q with
      | None => (oldAlarms, q)
      | Some a =>
          if timestampSec a <=? t then popLoop fuel t (pop SmallerTimestamp q) (oldAlarms ++ [a])
          else (oldAlarms, q)
      end
  end.

Definition popSoonerThan (t : Z) (m : AlarmMonitor) : list InternalAlarm * AlarmMonitor :=
  let (oldAlarms, q) := popLoop (queue_size (mPq m)) t (mPq m) [] in
  let m := set_pq q m in
  match oldAlarms with
  | [] => (oldAlarms, m)
  | _ =>
      match top (mPq m) with
      | None => (oldAlarms, cancelRegisteredAlarmTime_l m)
      | Some a => (oldAlarms, updateRegisteredAlarmTime_l (timestampSec a) m)
      end
  end.

(** ** AlarmTracker *)

Definition MS_PER_SEC : Z := 1000.
Definition NS_PER_SEC : Z := 1000000000.

(** The Alarm message. *)
Record Alarm := mkAlarmConfig { al_id : Z; offset_millis : Z; period_millis : Z }.

Record AlarmTracker := mkAlarmTracker {
  mAlarmConfig : Alarm; mAlarmSec : Z; mInternalAlarm : InternalAlarm; at_subscriptions : nat
}.

Definition findNextAlarmSec (period alarmSec currentTimeSec : Z) : Z :=
  if currentTimeSec <? alarmSec then alarmSec
  else
    let periodsForward := Z.quot ((currentTimeSec - alarmSec) * MS_PER_SEC) period + 1 in
    alarmSec + Z.quot (periodsForward * period) MS_PER_SEC.

Definition addToMonitor (a : InternalAlarm) (monitor : option AlarmMonitor) : option AlarmMonitor :=
  add (Some a) <$> monitor.

(** The constructor; [fresh] is the address of the new alarm. *)
Definition AlarmTracker_new (fresh startMillis currentMillis : Z) (alarm : Alarm)
    (monitor : option AlarmMonitor) : AlarmTracker * option AlarmMonitor :=
  let alarmSec := Z.quot (startMillis + offset_millis alarm) MS_PER_SEC in
  let alarmSec := findNextAlarmSec (period_millis alarm) alarmSec (Z.quot currentMillis MS_PER_SEC) in
  let internal := mkAlarm fresh (u32 alarmSec) in
  (mkAlarmTracker alarm alarmSec internal 0, addToMonitor internal monitor).

(** [informAlarmsFired]: the tracker, the remaining fired alarms, the monitor and whether the
    subscribers are triggered. *)
Definition informAlarmsFired (fresh timestampNs : Z) (firedAlarms : list InternalAlarm)
    (t : AlarmTracker) (monitor : option AlarmMonitor)
    : AlarmTracker * list InternalAlarm * option AlarmMonitor * bool :=
  if negb (bool_decide (mInternalAlarm t ∈ firedAlarms)) then (t, firedAlarms, monitor, false)
  else
    let triggered := (0 <? Z.of_nat (at_subscriptions t)) in
    let firedAlarms := List.filter (λ a, negb (bool_decide (a = mInternalAlarm t))) firedAlarms in
    let alarmSec := findNextAlarmSec (period_millis (mAlarmConfig t)) (mAlarmSec t)
                      (Z.quot (timestampNs - 1) NS_PER_SEC + 1) in
    let internal := mkAlarm fresh (u32 alarmSec) in
    (mkAlarmTracker (mAlarmConfig t) alarmSec internal (at_subscriptions t), firedAlarms,
     addToMonitor internal monitor, triggered).

(** [initAlarms]: rejects alarms without positive offset and period. *)
Fixpoint initAlarms (alarms : list Alarm) (timeBaseNs currentTimeNs fresh : Z)
    (monitor : option AlarmMonitor) : option (list AlarmTracker * option AlarmMonitor) :=
  let startMillis := Z.quot (Z.quot timeBaseNs 1000) 1000 in
  let currentTimeMillis := Z.quot (Z.quot currentTimeNs 1000) 1000 in
  match alarms with
  | [] => Some ([], monitor)
  | alarm :: alarms' =>
      if (offset_millis alarm <=? 0) || (period_millis alarm <=? 0) then None
      else
        let (t, monitor) := AlarmTracker_new fresh startMillis currentTimeMillis alarm monitor in
        '(ts, monitor) ← initAlarms alarms' timeBaseNs currentTimeNs (fresh + 1) monitor;
        Some (t :: ts, monitor)
  end.

(** ** Facts *)

#[export] Instance SmallerTimestamp_order : StrictWeakOrder SmallerTimestamp.
Proof.
  unfold SmallerTimestamp. split; intros *; rewrite ?Z.ltb_lt, ?Z.ltb_ge; lia.
Qed.

(** The registered time is set exactly when there are alarms, and within the minimal update
    time of the soonest one. *)
Record monitor_ok (m : AlarmMonitor) : Prop := {
  mo_queue : queue_ok SmallerTimestamp (mPq m);
  mo_min : 0 <= mMinUpdateTimeSec m;
  mo_times : ∀ a, a ∈ elems (mPq m) → 1 <= timestampSec a < 2 ^ 32 - mMinUpdateTimeSec m;
  mo_registered :
    match top (mPq m) with
    | None => mRegisteredAlarmTimeSec m = 0
    | Some a =>
        1 <= mRegisteredAlarmTimeSec m < 2 ^ 32 - mMinUpdateTimeSec m ∧
        Z.abs (timestampSec a - mRegisteredAlarmTimeSec m) <= mMinUpdateTimeSec m
    end
}.

Lemma top_elem q a :
  queue_ok SmallerTimestamp q → top q = Some a →
  a ∈ elems q ∧ ∀ b, b ∈ elems q → timestampSec a <= timestampSec b.
Proof.
  intros Hok Ht. pose proof (top_spec SmallerTimestamp q Hok) as H. rewrite Ht in H.
  destruct H as (_ & Ha & Hmin). split; [done|]. intros b Hb. specialize (Hmin b Hb).
  unfold SmallerTimestamp in Hmin. lia.
Qed.

Lemma top_none q : queue_ok SmallerTimestamp q → top q = None → elems q = ∅.
Proof. intros Hok Ht. pose proof (top_spec SmallerTimestamp q Hok) as H. by rewrite Ht in H. Qed.

Lemma add_ok a m :
  monitor_ok m → timestampSec a < 2 ^ 32 - mMinUpdateTimeSec m → monitor_ok (add (Some a) m).
Proof.
  intros [Hq Hmin Ht Hr] Ha. unfold add. destruct (Z.ltb_spec (timestampSec a) 1) as [|Ha1]; [done|].
  destruct (push_spec SmallerTimestamp a (mPq m) Hq) as [Hq' He].
  set (q' := push SmallerTimestamp (Some a) (mPq m)) in *.
  assert (Ht' : ∀ b, b ∈ elems q' → 1 <= timestampSec b < 2 ^ 32 - mMinUpdateTimeSec m).
  { intros b. rewrite He. intros [->%elem_of_singleton|?]%elem_of_union; [lia|auto]. }
  assert (∃ b, top q' = Some b) as [b Hb].
  { destruct (top q') eqn:E; [by eauto|]. apply top_none in E; [|done]. set_solver. }
  destruct (top_elem q' b Hq' Hb) as [Hbe Hbmin].
  assert (Hba : timestampSec b <= timestampSec a) by (apply Hbmin; set_solver).
  cbn [set_pq mRegisteredAlarmTimeSec mMinUpdateTimeSec mPq].
  rewrite u32_id by lia.
  assert (Hor : b = a ∨ b ∈ elems (mPq m)) by set_solver.
  destruct (top (mPq m)) as [t|] eqn:Htop.
  - destruct Hr as [Hr1 Hr2]. destruct (top_elem _ _ Hq Htop) as [Hte Htmin].
    assert (Hbt : timestampSec b <= timestampSec t) by (apply Hbmin; set_solver).
    assert (Hor' : b = a ∨ timestampSec t <= timestampSec b)
      by (destruct Hor; [by left|right; auto]).
    destruct (_ || _) eqn:E; split; simpl; try done; rewrite Hb.
    + assert (timestampSec b = timestampSec a) by (destruct Hor' as [->|]; lia). lia.
    + destruct Hor' as [->|]; lia.
  - rewrite Hr. simpl. assert (b = a) as -> by (apply top_none in Htop; set_solver).
    split; simpl; try done. rewrite Hb. lia.
Qed.

Lemma remove_ok a m : monitor_ok m → monitor_ok (remove_alarm (Some a) m).
Proof.
  intros [Hq Hmin Ht Hr]. unfold remove_alarm.
  destruct (remove_spec SmallerTimestamp (mPq m) a Hq) as (Hb & Hq' & He).
  destruct (remove SmallerTimestamp (Some a) (mPq m)) as [b q']. simpl in Hb, Hq', He.
  assert (Ht' : ∀ c, c ∈ elems q' → 1 <= timestampSec c < 2 ^ 32 - mMinUpdateTimeSec m).
  { intros c. rewrite He. intros [? _]%elem_of_difference. auto. }
  cbn [set_pq mRegisteredAlarmTimeSec mMinUpdateTimeSec mPq].
  destruct (top (mPq m)) as [t|] eqn:Htop.
  - destruct Hr as [Hr1 Hr2]. destruct (top_elem _ _ Hq Htop) as [Hte Htmin].
    destruct b; cbn [negb].
    + destruct (top q') as [t'|] eqn:Htop'.
      * destruct (top_elem _ _ Hq' Htop') as [Hte' _]. pose proof (Ht' _ Hte').
        assert (timestampSec t <= timestampSec t') by (apply Htmin; set_solver).
        rewrite u32_id by lia. destruct (_ <? timestampSec t') eqn:E; split; simpl; try done;
          rewrite Htop'; lia.
      * split; simpl; try done. by rewrite Htop'.
    + symmetry in Hb. apply bool_decide_eq_false in Hb.
      assert (Heq : elems q' = elems (mPq m)) by set_solver.
      destruct (top q') as [t'|] eqn:Htop'; split; simpl; try done; rewrite Htop'.
      * destruct (top_elem _ _ Hq' Htop') as [Hte' Htmin'].
        assert (timestampSec t = timestampSec t').
        { apply Z.le_antisymm; [apply Htmin|apply Htmin']; set_solver. }
        lia.
      * exfalso. apply top_none in Htop'; [|done]. set_solver.
  - apply top_none in Htop; [|done]. assert (b = false) as ->.
    { rewrite Hb. apply bool_decide_eq_false. set_solver. }
    split; simpl; try done. destruct (top q') as [t'|] eqn:Htop'; [|done].
    apply top_elem in Htop' as [? _]; [|done]. set_solver.
Qed.

(** The loop removes exactly the alarms up to the given time. *)
Lemma popLoop_spec fuel t : ∀ q old,
  queue_ok SmallerTimestamp q → (size (elems q) <= fuel)%nat →
  let r := popLoop fuel t q old in
  queue_ok SmallerTimestamp r.2 ∧
  ∃ popped, r.1 = old ++ popped ∧
    (∀ a, a ∈ popped ↔ a ∈ elems q ∧ timestampSec a <= t) ∧
    (∀ a, a ∈ elems r.2 ↔ a ∈ elems q ∧ t < timestampSec a).
Proof.
  induction fuel as [|fuel IH]; intros q old Hq Hs; cbn [popLoop].
  { assert (elems q = ∅) as He by (apply size_empty_inv in Hs || apply leibniz_equiv, size_empty_inv; lia).
    split; [done|]. exists []. rewrite app_nil_r. split_and!; [done|set_solver|].
    simpl. set_solver. }
  destruct (top q) as [a|] eqn:Htop.
  2:{ apply top_none in Htop; [|done]. split; [done|]. exists []. rewrite app_nil_r.
      split_and!; [done|set_solver|]. simpl. set_solver. }
  destruct (top_elem _ _ Hq Htop) as [Ha Hmin]. destruct (Z.leb_spec (timestampSec a) t) as [Hle|Hgt].
  - destruct (pop_spec SmallerTimestamp q Hq) as [Hq' He]. rewrite Htop in He.
    destruct (IH (pop SmallerTimestamp q) (old ++ [a]) Hq') as (Hq2 & popped & Hr & Hp & Hrest).
    { rewrite He, size_difference, size_singleton by set_solver. lia. }
    split; [done|]. exists (a :: popped). rewrite Hr, <- app_assoc. split_and!; [done| |].
    + intros b. rewrite elem_of_cons, Hp, He. destruct (decide (b = a)) as [->|]; set_solver.
    + intros b. rewrite Hrest, He. split; [set_solver|]. intros [Hb Hlt]. split; [|done].
      apply elem_of_difference. split; [done|]. intros ->%elem_of_singleton. lia.
  - split; [done|]. exists []. rewrite app_nil_r. split_and!; [done| |].
    + intros b. split; [by intros ?%not_elem_of_nil|]. intros [Hb Hle].
      specialize (Hmin b Hb). lia.
    + intros b. simpl. split; [|by intros []]. intros Hb. specialize (Hmin b Hb). split; [done|lia].
Qed.

Lemma queue_size_elems q : queue_ok SmallerTimestamp q → queue_size q = size (elems q).
Proof.
  intros [Hx _]. unfold queue_size, elems. symmetry. apply size_list_to_set. by apply indexed_NoDup.
Qed.

Lemma popSoonerThan_ok t m :
  monitor_ok m →
  let r := popSoonerThan t m in
  monitor_ok r.2 ∧
  (∀ a, a ∈ r.1 ↔ a ∈ elems (mPq m) ∧ timestampSec a <= t) ∧
  (∀ a, a ∈ elems (mPq r.2) ↔ a ∈ elems (mPq m) ∧ t < timestampSec a).
Proof.
  intros [Hq Hmin Ht Hr]. unfold popSoonerThan.
  destruct (popLoop_spec (queue_size (mPq m)) t (mPq m) [] Hq) as (Hq' & popped & Hp & Hin & Hrest).
  { by rewrite queue_size_elems. }
  destruct (popLoop (queue_size (mPq m)) t (mPq m) []) as [old q']. simpl in Hq', Hp, Hrest.
  subst old. assert (Ht' : ∀ c, c ∈ elems q' → 1 <= timestampSec c < 2 ^ 32 - mMinUpdateTimeSec m).
  { intros c [Hc _]%Hrest. by apply Ht. }
  destruct popped as [|a popped].
  - split; [|by split]. split; simpl; try done.
    assert (He : elems q' = elems (mPq m)).
    { apply set_eq. intros b. rewrite Hrest. split; [by intros []|]. intros Hb. split; [done|].
      destruct (Z.le_gt_cases (timestampSec b) t) as [Hle|]; [|lia].
      by destruct (not_elem_of_nil b); apply Hin. }
    destruct (top q') as [t'|] eqn:E', (top (mPq m)) as [t0|] eqn:E0; try done.
    + destruct (top_elem _ _ Hq' E') as [H1 H2], (top_elem _ _ Hq E0) as [H3 H4].
      assert (timestampSec t0 = timestampSec t')
        by (apply Z.le_antisymm; [apply H4|apply H2]; set_solver). lia.
    + apply top_none in E0; [|done]. apply top_elem in E' as [? _]; [|done]. set_solver.
    + apply top_none in E'; [|done]. apply top_elem in E0 as [? _]; [|done]. set_solver.
  - simpl. destruct (top q') as [t'|] eqn:E'; simpl; (split; [|by split]).
    + destruct (top_elem _ _ Hq' E') as [H1 _]. pose proof (Ht' _ H1).
      split; simpl; try done. rewrite E'. lia.
    + split; simpl; try done. by rewrite E'.
Qed.

(** Operations of the monitor with any argument. *)
Inductive MonitorOp :=
  | MAdd (a : InternalAlarm) | MRemove (a : InternalAlarm) | MPop (t : Z) | MService (b : bool).

Definition monitor_op (op : MonitorOp) (m : AlarmMonitor) : AlarmMonitor :=
  match op with
  | MAdd a => add (Some a) m
  | MRemove a => remove_alarm (Some a) m
  | MPop t => (popSoonerThan t m).2
  | MService b => setStatsCompanionService b m
  end.

Definition op_ok (minUpdate : Z) (op : MonitorOp) : Prop :=
  match op with MAdd a => timestampSec a < 2 ^ 32 - minUpdate | _ => True end.

Lemma monitor_op_ok op m :
  monitor_ok m → op_ok (mMinUpdateTimeSec m) op →
  monitor_ok (monitor_op op m) ∧ mMinUpdateTimeSec (monitor_op op m) = mMinUpdateTimeSec m.
Proof.
  intros Hok Hop. destruct op as [a|a|t|b]; cbn [monitor_op].
  - split; [by apply add_ok|]. unfold add. by repeat destr_if.
  - split; [by apply remove_ok|]. unfold remove_alarm.
    destruct (remove SmallerTimestamp (Some a) (mPq m)) as [w q]. destruct w; [|done]. cbn [negb].
    destruct (top _); [|done]. by destr_if.
  - split; [by apply popSoonerThan_ok|]. unfold popSoonerThan.
    destruct (popLoop _ _ _ _) as [old q]. destruct old; [done|]. simpl. by destruct (top q).
  - destruct Hok as [Hq Hmin Ht Hr]. unfold setStatsCompanionService. destruct b; simpl.
    + destruct (top (mPq m)) as [a|] eqn:E; (split; [|done]); split; simpl; try done; rewrite E; try done.
      destruct (top_elem _ _ Hq E) as [Ha _]. pose proof (Ht _ Ha). lia.
    + done.
Qed.

Lemma AlarmMonitor_new_ok minUpdate : 0 <= minUpdate → monitor_ok (AlarmMonitor_new minUpdate).
Proof.
  intros. split; simpl; [apply init_queue_ok|done| |done].
  intros a Ha. unfold elems in Ha. simpl in Ha. set_solver.
Qed.

(** After any sequence of operations on the alarm monitor the time registered with the
    companion service is set exactly when an alarm is pending and differs from the soonest
    pending alarm by at most the minimal update time; popping removes and returns exactly the
    alarms that are due.  The timestamps stay below the wrap-around of their 32-bit sums. *)
Theorem monitor_registers_soonest minUpdate ops t :
  0 <= minUpdate → Forall (op_ok minUpdate) ops →
  let m := foldl (λ m op, monitor_op op m) (AlarmMonitor_new minUpdate) ops in
  (match top (mPq m) with
   | None => elems (mPq m) = ∅ ∧ mRegisteredAlarmTimeSec m = 0
   | Some a => (∀ b, b ∈ elems (mPq m) → timestampSec a <= timestampSec b) ∧
       1 <= mRegisteredAlarmTimeSec m ∧
       Z.abs (timestampSec a - mRegisteredAlarmTimeSec m) <= minUpdate
   end) ∧
  (∀ a, a ∈ (popSoonerThan t m).1 ↔ a ∈ elems (mPq m) ∧ timestampSec a <= t) ∧
  (∀ a, a ∈ elems (mPq (popSoonerThan t m).2) ↔ a ∈ elems (mPq m) ∧ t < timestampSec a).
Proof.
  intros Hmin Hops m.
  assert (monitor_ok m ∧ mMinUpdateTimeSec m = minUpdate) as [Hok Hmu].
  { subst m. assert (H0 : monitor_ok (AlarmMonitor_new minUpdate)) by by apply AlarmMonitor_new_ok.
    assert (H1 : mMinUpdateTimeSec (AlarmMonitor_new minUpdate) = minUpdate) by done.
    revert H0 H1. generalize (AlarmMonitor_new minUpdate).
    induction Hops as [|op ops Hop _ IH]; intros m H0 H1; [done|]. simpl.
    rewrite <- H1 in Hop. destruct (monitor_op_ok op m H0 Hop) as [H2 H3].
    apply IH; congruence. }
  destruct (popSoonerThan_ok t m Hok) as (_ & H1 & H2). split; [|by split].
  pose proof Hok as [Hq _ _ Hr]. destruct (top (mPq m)) as [a|] eqn:E.
  - destruct (top_elem _ _ Hq E) as [_ Hle]. rewrite Hmu in Hr. split_and!; [done|lia|lia].
  - split; [by apply top_none|done].
Qed.

Lemma monitor_registers_soonest_witness :
  (popSoonerThan 20
     (foldl (λ m op, monitor_op op m) (AlarmMonitor_new 5)
        [MAdd (mkAlarm 1 30); MAdd (mkAlarm 2 12); MAdd (mkAlarm 3 14); MRemove (mkAlarm 2 12)])).1
  = [mkAlarm 3 14].
Proof.
  destruct (monitor_registers_soonest 5
    [MAdd (mkAlarm 1 30); MAdd (mkAlarm 2 12); MAdd (mkAlarm 3 14); MRemove (mkAlarm 2 12)] 20)
    as (_ & _ & _).
  - lia.
  - repeat constructor; simpl; lia.
  - vm_compute. reflexivity.
Defined.

(** The next alarm is never before the current time; when the period is a whole number
    of seconds it is the first time after the current one on the grid of periods that starts
    at the configured alarm. *)
Theorem next_alarm_on_grid period alarmSec currentTimeSec :
  0 < period →
  let next := findNextAlarmSec period alarmSec currentTimeSec in
  currentTimeSec <= next ∧ alarmSec <= next ∧
  (period mod MS_PER_SEC = 0 →
   currentTimeSec < next ∧
   (∃ k, 0 <= k ∧ next = alarmSec + k * (period / MS_PER_SEC)) ∧
   (alarmSec < next → next - period / MS_PER_SEC <= currentTimeSec)).
Proof.
  intros Hp next. subst next. unfold findNextAlarmSec, MS_PER_SEC.
  destruct (Z.ltb_spec currentTimeSec alarmSec) as [Hlt|Hge].
  { split_and!; [lia|lia|]. intros _. split_and!; [lia| |lia]. exists 0. lia. }
  set (d := currentTimeSec - alarmSec).
  rewrite (quot_div_nonneg (d * 1000)) by lia.
  pose proof (Z.div_mod (d * 1000) period) as Hdm. pose proof (Z.mod_pos_bound (d * 1000) period Hp).
  set (k := d * 1000 / period) in *. assert (Hk : 0 <= k) by (apply Z.div_pos; lia).
  rewrite quot_div_nonneg by nia.
  assert (Hle : d <= (k + 1) * period / 1000) by (apply Z.div_le_lower_bound; nia).
  split_and!; [lia|lia|]. intros Hmod.
  pose proof (Z.div_mod period 1000) as Hpd. rewrite Hmod in Hpd.
  set (P := period / 1000) in *. assert (HP : period = 1000 * P) by lia.
  assert (Hex : (k + 1) * period / 1000 = (k + 1) * P).
  { rewrite HP. replace ((k + 1) * (1000 * P)) with ((k + 1) * P * 1000) by lia.
    apply Z.div_mul. lia. }
  rewrite Hex in *. split_and!; [nia| |intros _; nia]. exists (k + 1). lia.
Qed.

Lemma next_alarm_on_grid_witness :
  findNextAlarmSec 60000 100 230 = 280 ∧ 230 < findNextAlarmSec 60000 100 230.
Proof.
  split; [reflexivity|]. apply (next_alarm_on_grid 60000 100 230); [lia|reflexivity].
Defined.

(** With a period that is not a whole number of seconds the next alarm can be the current
    time again. *)
Example next_alarm_not_advanced : findNextAlarmSec 500 100 100 = 100.
Proof. reflexivity. Qed.
