(* ===== verification/Anomaly.v ===== *)
(** * Anomaly detection (anomaly/AnomalyTracker.cpp, anomaly/DurationAnomalyTracker.cpp,
      metadata_util.cpp)

    A tracker keeps the buckets of the recent past in a ring and their sum per dimension key,
    and declares an anomaly when the sum and the current bucket exceed a threshold, at most
    once per refractory period.  Informing the subscribers is recorded in a log. *)
From Stdlib Require Import SpecFloat.
From S2P Require Import Prelude UMap FieldValue DimensionKey PriorityQueue Alarms.

(** The Alert message. *)
Record Alert := mkAlert {
  alert_id : Z; metric_id : Z; num_buckets : Z;
  refractory_period_secs : option Z; trigger_if_sum_gt : option spec_float
}.

Abbreviation DimToValMap := (umap MetricDimensionKey Z).

(** A declared anomaly: time, key and value given to the subscribers. *)
Record Declared := mkDeclared { d_timestampNs : Z; d_key : MetricDimensionKey; d_value : Z }.

Record AnomalyTracker := mkAnomaly {
  mAlert : Alert;
  mNumOfPastBuckets : Z;
  mPastBuckets : list (option DimToValMap);
  mSumOverPastBuckets : DimToValMap;
  mMostRecentBucketNum : Z;
  mRefractoryPeriodEndsSec : umap MetricDimensionKey Z;
  declared : list Declared
}.

Definition set_buckets (past : list (option DimToValMap)) (sum : DimToValMap) (recent : Z)
    (t : AnomalyTracker) : AnomalyTracker :=
  mkAnomaly (mAlert t) (mNumOfPastBuckets t) past sum recent (mRefractoryPeriodEndsSec t)
    (declared t).

Definition resetStorage (t : AnomalyTracker) : AnomalyTracker :=
  set_buckets (replicate (Z.to_nat (mNumOfPastBuckets t)) None) [] (mMostRecentBucketNum t) t.

Definition AnomalyTracker_new (alert : Alert) : AnomalyTracker :=
  resetStorage (mkAnomaly alert (num_buckets alert - 1) [] [] (-1) [] []).

(** [index]: a slot of the ring. *)
Definition index (bucketNum : Z) (t : AnomalyTracker) : nat :=
  Z.to_nat (Z.rem bucketNum (mNumOfPastBuckets t)).

Definition slotAt (i : nat) (past : list (option DimToValMap)) : option DimToValMap :=
  default None (past !! i).

Definition subtractValueFromSum (key : MetricDimensionKey) (bucketValue : Z) (sum : DimToValMap)
    : DimToValMap :=
  match um_find key sum with
  | None => sum
  | Some s => let s := s - bucketValue in if s =? 0 then um_erase key sum else um_set key s sum
  end.

Definition subtractBucketFromSum (bucket : option DimToValMap) (sum : DimToValMap) : DimToValMap :=
  match bucket with
  | None => sum
  | Some b => foldl (λ sum kv, subtractValueFromSum kv.1 kv.2 sum) sum b
  end.

(** [mSumOverPastBuckets\[key\] += value] *)
Definition addValueToSum (key : MetricDimensionKey) (value : Z) (sum : DimToValMap) : DimToValMap :=
  um_set key (um_get 0 key sum + value) sum.

Definition addBucketToSum (bucket : option DimToValMap) (sum : DimToValMap) : DimToValMap :=
  match bucket with
  | None => sum
  | Some b => foldl (λ sum kv, addValueToSum kv.1 kv.2 sum) sum b
  end.

(** The loop of [advanceMostRecentBucketTo] from bucket [i], [n] times. *)
Fixpoint clearBuckets (n : nat) (i : Z) (t : AnomalyTracker) : AnomalyTracker :=
  match n with
  | O => t
  | S n =>
      let idx := index i t in
      clearBuckets n (i + 1)
        (set_buckets (<[idx := None]> (mPastBuckets t))
           (subtractBucketFromSum (slotAt idx (mPastBuckets t)) (mSumOverPastBuckets t))
           (mMostRecentBucketNum t) t)
  end.

Definition set_recent (recent : Z) (t : AnomalyTracker) : AnomalyTracker :=
  set_buckets (mPastBuckets t) (mSumOverPastBuckets t) recent t.

Definition advanceMostRecentBucketTo (bucketNum : Z) (t : AnomalyTracker) : AnomalyTracker :=
  if mNumOfPastBuckets t <=? 0 then t
  else if bucketNum <=? mMostRecentBucketNum t then t
  else if mMostRecentBucketNum t + mNumOfPastBuckets t <=? bucketNum
  then set_recent bucketNum (resetStorage t)
  else
    let n := Z.to_nat (bucketNum - mMostRecentBucketNum t) in
    set_recent bucketNum (clearBuckets n (mMostRecentBucketNum t + 1) t).

(** A bucket number that the ring cannot hold. *)
Definition tooOld (bucketNum : Z) (t : AnomalyTracker) : bool :=
  (mNumOfPastBuckets t =? 0) || (bucketNum <? 0)
  || (bucketNum <=? mMostRecentBucketNum t - mNumOfPastBuckets t).

(** [addPastBucket(bucket, bucketNum)] *)
Definition addPastBucket (bucket : option DimToValMap) (bucketNum : Z) (t : AnomalyTracker)
    : AnomalyTracker :=
  if tooOld bucketNum t then t
  else
    let t :=
      if bucketNum <=? mMostRecentBucketNum t then
        set_buckets (mPastBuckets t)
          (subtractBucketFromSum (slotAt (index bucketNum t) (mPastBuckets t))
             (mSumOverPastBuckets t)) (mMostRecentBucketNum t) t
      else advanceMostRecentBucketTo bucketNum t in
    set_buckets (<[index bucketNum t := bucket]> (mPastBuckets t))
      (addBucketToSum bucket (mSumOverPastBuckets t)) (mMostRecentBucketNum t) t.

(** [addPastBucket(key, bucketValue, bucketNum)] *)
Definition addPastBucketValue (key : MetricDimensionKey) (bucketValue bucketNum : Z)
    (t : AnomalyTracker) : AnomalyTracker :=
  if tooOld bucketNum t then t
  else
    let bucketIndex := index bucketNum t in
    match (if bucketNum <=? mMostRecentBucketNum t then slotAt bucketIndex (mPastBuckets t) else None) with
    | Some bucket =>
        let sum :=
          match um_find key bucket with
          | Some old => subtractValueFromSum key old (mSumOverPastBuckets t)
          | None => mSumOverPastBuckets t
          end in
        set_buckets (<[bucketIndex := Some (um_set key bucketValue bucket)]> (mPastBuckets t))
          (addValueToSum key bucketValue sum) (mMostRecentBucketNum t) t
    | None => addPastBucket (Some [(key, bucketValue)]) bucketNum t
    end.

Definition getPastBucketValue (key : MetricDimensionKey) (bucketNum : Z) (t : AnomalyTracker) : Z :=
  if (bucketNum <? 0) || (mMostRecentBucketNum t <? 0)
     || (bucketNum <=? mMostRecentBucketNum t - mNumOfPastBuckets t)
     || (mMostRecentBucketNum t <? bucketNum)
  then 0
  else
    match slotAt (index bucketNum t) (mPastBuckets t) with
    | None => 0
    | Some b => um_get 0 key b
    end.

Definition getSumOverPastBuckets (key : MetricDimensionKey) (t : AnomalyTracker) : Z :=
  um_get 0 key (mSumOverPastBuckets t).

(** The conversion of an integer to [double]. *)
Definition toDouble (z : Z) : spec_float := binary_normalize f64_prec f64_emax z 0 false.

(** [sum > threshold] with the integer converted to [double]. *)
Definition exceeds (sum : Z) (threshold : spec_float) : bool := SFltb threshold (toDouble sum).

Definition detectAnomaly (currentBucketNum : Z) (key : MetricDimensionKey) (currentBucketValue : Z)
    (t : AnomalyTracker) : bool * AnomalyTracker :=
  let t := if mMostRecentBucketNum t + 1 <? currentBucketNum
           then advanceMostRecentBucketTo (currentBucketNum - 1) t else t in
  (match trigger_if_sum_gt (mAlert t) with
   | None => false
   | Some threshold => exceeds (getSumOverPastBuckets key t + currentBucketValue) threshold
   end, t).

Definition isInRefractoryPeriod (timestampNs : Z) (key : MetricDimensionKey) (t : AnomalyTracker)
    : bool :=
  match um_find key (mRefractoryPeriodEndsSec t) with
  | Some ends => timestampNs <? ends * NS_PER_SEC
  | None => false
  end.

Definition set_refractory (r : umap MetricDimensionKey Z) (t : AnomalyTracker) : AnomalyTracker :=
  mkAnomaly (mAlert t) (mNumOfPastBuckets t) (mPastBuckets t) (mSumOverPastBuckets t)
    (mMostRecentBucketNum t) r (declared t).

Definition log_declared (d : Declared) (t : AnomalyTracker) : AnomalyTracker :=
  mkAnomaly (mAlert t) (mNumOfPastBuckets t) (mPastBuckets t) (mSumOverPastBuckets t)
    (mMostRecentBucketNum t) (mRefractoryPeriodEndsSec t) (declared t ++ [d]).

Definition declareAnomaly (timestampNs : Z) (key : MetricDimensionKey) (metricValue : Z)
    (t : AnomalyTracker) : AnomalyTracker :=
  if isInRefractoryPeriod timestampNs key t then t
  else
    let t :=
      match refractory_period_secs (mAlert t) with
      | Some secs =>
          let ends := u32 (Z.quot (timestampNs + NS_PER_SEC - 1) NS_PER_SEC + secs) in
          set_refractory (um_set key ends (mRefractoryPeriodEndsSec t)) t
      | None => t
      end in
    log_declared (mkDeclared timestampNs key metricValue) t.

Definition detectAndDeclareAnomaly (timestampNs currBucketNum : Z) (key : MetricDimensionKey)
    (currentBucketValue : Z) (t : AnomalyTracker) : AnomalyTracker :=
  let (detected, t) := detectAnomaly currBucketNum key currentBucketValue t in
  if (detected : bool) then declareAnomaly timestampNs key currentBucketValue t else t.

(** ** Metadata (metadata_util.cpp) *)

(** The metadata messages of a value, a field with its value and a dimension key. *)
Inductive MetaValue :=
  | kValueInt (v : Z) | kValueLong (v : Z) | kValueFloat (v : spec_float)
  | kValueDouble (v : spec_float) | kValueStr (v : string) | kValueStorage (v : string)
  | VALUE_NOT_SET.

Record MetaFieldValue := mkMetaFieldValue { mf_tag : Z; mf_field : Z; mf_value : MetaValue }.

Record MetaDimensionKey := mkMetaKey {
  dimension_key_in_what : list MetaFieldValue; state_values_key : list MetaFieldValue
}.

(** A C string: the bytes before the first NUL. *)
Fixpoint c_str (s : string) : string :=
  match s with
  | EmptyString => EmptyString
  | String c s' => if Ascii.eqb c Ascii.zero then EmptyString else String c (c_str s')
  end.

Definition bytes_to_string (l : list Z) : string :=
  foldr (λ b s, String (Ascii.ascii_of_N (Z.to_N (b mod 256))) s) EmptyString l.

Definition writeValueToProto (v : Value) : MetaValue :=
  match v with
  | VINT x => kValueInt x
  | VLONG x => kValueLong x
  | VFLOAT x => kValueFloat x
  | VDOUBLE x => kValueDouble x
  | VSTRING s => kValueStr (c_str s)
  | VSTORAGE l => kValueStorage (c_str (bytes_to_string l))
  | VUNKNOWN => VALUE_NOT_SET
  end.

Definition writeFieldValueToMetadata (fv : FieldValue) : MetaFieldValue :=
  mkMetaFieldValue (mTag (fv_field fv)) (mField (fv_field fv)) (writeValueToProto (fv_value fv)).

Definition writeMetricDimensionKeyToMetadataDimensionKey (k : MetricDimensionKey) : MetaDimensionKey :=
  mkMetaKey (map writeFieldValueToMetadata (mValues (mDimensionKeyInWhat k)))
    (map writeFieldValueToMetadata (mValues (mStateValuesKey k))).

(** [value_storage()] is a [std::string], so the value read is a STRING. *)
Definition readValueFromProto (v : MetaValue) : Value :=
  match v with
  | kValueInt x => VINT x
  | kValueLong x => VLONG x
  | kValueFloat x => VFLOAT x
  | kValueDouble x => VDOUBLE x
  | kValueStr s => VSTRING s
  | kValueStorage s => VSTRING s
  | VALUE_NOT_SET => VUNKNOWN
  end.

Definition writeFieldValuesFromMetadata (l : list MetaFieldValue) : list FieldValue :=
  map (λ m, FieldValue_of (mkField (mf_tag m) (mf_field m)) (readValueFromProto (mf_value m))) l.

Definition loadMetricDimensionKeyFromProto (k : MetaDimensionKey) : MetricDimensionKey :=
  mkMetricKey (mkKey (writeFieldValuesFromMetadata (dimension_key_in_what k)))
    (mkKey (writeFieldValuesFromMetadata (state_values_key k))).

(** ** Alert metadata *)

Definition AlertMetadata : Type := list (MetaDimensionKey * Z).

(** The keyed data written by [writeAlertMetadataToProto]; it is empty iff it returns false. *)
Definition writeAlertMetadataToProto (currentWallClockTimeNs systemElapsedTimeNs : Z)
    (t : AnomalyTracker) : AlertMetadata :=
  flat_map
    (λ it : MetricDimensionKey * Z,
      if it.2 <? Z.quot systemElapsedTimeNs NS_PER_SEC then []
      else
        [(writeMetricDimensionKeyToMetadataDimensionKey it.1,
          wrap32 (Z.quot currentWallClockTimeNs NS_PER_SEC
                  + (it.2 - Z.quot systemElapsedTimeNs NS_PER_SEC)))])
    (mRefractoryPeriodEndsSec t).

(** An [int64_t] converted to [uint64_t]. *)
Definition u64 (z : Z) : Z := z mod 2 ^ 64.

(** The body of the loop of [loadAlertMetadata]. *)
Definition loadKeyedData (currentWallClockTimeNs systemElapsedTimeNs : Z) (t : AnomalyTracker)
    (keyedData : MetaDimensionKey * Z) : AnomalyTracker :=
  if u64 keyedData.2 <? u64 (Z.quot currentWallClockTimeNs NS_PER_SEC) then t
  else
    let refractoryPeriodEndsSec :=
      wrap32 (keyedData.2 - Z.quot currentWallClockTimeNs NS_PER_SEC
              + Z.quot systemElapsedTimeNs NS_PER_SEC) in
    set_refractory
      (um_set (loadMetricDimensionKeyFromProto keyedData.1) (u32 refractoryPeriodEndsSec)
         (mRefractoryPeriodEndsSec t)) t.

Definition loadAlertMetadata (alertMetadata : AlertMetadata)
    (currentWallClockTimeNs systemElapsedTimeNs : Z) (t : AnomalyTracker) : AnomalyTracker :=
  foldl (loadKeyedData currentWallClockTimeNs systemElapsedTimeNs) t alertMetadata.

(** ** DurationAnomalyTracker *)

Record DurationAnomalyTracker := mkDurationAnomaly {
  base : AnomalyTracker;
  mAlarms : umap MetricDimensionKey InternalAlarm;
  mAlarmMonitor : option AlarmMonitor
}.

Definition DurationAnomalyTracker_new (alert : Alert) (monitor : option AlarmMonitor)
    : DurationAnomalyTracker := mkDurationAnomaly (AnomalyTracker_new alert) [] monitor.

(** [startAlarm]; [fresh] is the address of the new alarm. *)
Definition startAlarm (fresh : Z) (dimensionKey : MetricDimensionKey) (timestampNs : Z)
    (t : DurationAnomalyTracker) : DurationAnomalyTracker :=
  let tsSec := u32 (u32 (Z.quot (timestampNs - 1) NS_PER_SEC) + 1) in
  if isInRefractoryPeriod timestampNs dimensionKey (base t) then t
  else
    let monitor :=
      match um_find dimensionKey (mAlarms t), mAlarmMonitor t with
      | Some old, Some m => Some (remove_alarm (Some old) m)
      | _, m => m
      end in
    let alarm := mkAlarm fresh tsSec in
    mkDurationAnomaly (base t) (um_set dimensionKey alarm (mAlarms t)) (add (Some alarm) <$> monitor).

(** Truncation of a [double] to an integer. *)
Definition truncate (f : spec_float) : Z :=
  match f with
  | S754_finite s m e =>
      let n := if 0 <=? e then Zpos m * 2 ^ e else Z.quot (Zpos m) (2 ^ (- e)) in
      if s then - n else n
  | _ => 0
  end.

(** [trigger_if_sum_gt() + (timestampNs / NS_PER_SEC) - timestampSec], in [double]. *)
Definition alarmMetricValue (timestampNs : Z) (alarm : InternalAlarm) (t : AnomalyTracker) : Z :=
  let threshold := default (S754_zero false) (trigger_if_sum_gt (mAlert t)) in
  truncate
    (SFsub f64_prec f64_emax
       (SFadd f64_prec f64_emax threshold (toDouble (Z.quot timestampNs NS_PER_SEC)))
       (toDouble (timestampSec alarm))).

Definition stopAlarm (dimensionKey : MetricDimensionKey) (timestampNs : Z)
    (t : DurationAnomalyTracker) : DurationAnomalyTracker :=
  match um_find dimensionKey (mAlarms t) with
  | None => t
  | Some alarm =>
      let b :=
        if NS_PER_SEC * timestampSec alarm <=? timestampNs
        then declareAnomaly timestampNs dimensionKey
               (alarmMetricValue timestampNs alarm (base t)) (base t)
        else base t in
      mkDurationAnomaly b (um_erase dimensionKey (mAlarms t))
        (remove_alarm (Some alarm) <$> mAlarmMonitor t)
  end.

Definition cancelAllAlarms (t : DurationAnomalyTracker) : DurationAnomalyTracker :=
  mkDurationAnomaly (base t) []
    ((λ m, foldl (λ m itr, remove_alarm (Some itr.2) m) m (mAlarms t)) <$> mAlarmMonitor t).

(** [informAlarmsFired]: the tracker and the fired alarms that are left. *)
Definition duration_informAlarmsFired (timestampNs : Z) (firedAlarms : list InternalAlarm)
    (t : DurationAnomalyTracker) : DurationAnomalyTracker * list InternalAlarm :=
  let matchedAlarms := List.filter (λ kv, bool_decide (kv.2 ∈ firedAlarms)) (mAlarms t) in
  foldl
    (λ st kv,
      let '(t, fired) := st in
      let b := declareAnomaly timestampNs kv.1 (alarmMetricValue timestampNs kv.2 (base t)) (base t) in
      (mkDurationAnomaly b (um_erase kv.1 (mAlarms t)) (mAlarmMonitor t),
       List.filter (λ a, negb (bool_decide (a = kv.2))) fired))
    (t, firedAlarms) matchedAlarms.
