(* ===== verification/AnomalyFacts.v ===== *)
(** * Facts about anomaly detection

    The ring refines an unbounded history cut to the last buckets; the cached sums are the
    sums over the window; declared anomalies respect the refractory period; metadata survives
    a restart. *)
From Stdlib Require Import SpecFloat.
From S2P Require Import Prelude UMap FieldValue FieldValueFacts DimensionKey DimensionKeyFacts.
From S2P Require Import PriorityQueue Alarms Anomaly.

(** ** Sums *)

Definition val (b : option DimToValMap) (k : MetricDimensionKey) : Z :=
  match b with None => 0 | Some m => um_get 0 k m end.

(** Keys are distinct and values are not negative, as the class comment requires. *)
Definition bucket_ok (b : option DimToValMap) : Prop :=
  match b with
  | None => True
  | Some m => um_wf m ∧ ∀ k v, (k, v) ∈ m → 0 <= v
  end.

Lemma val_nonneg b k : bucket_ok b → 0 <= val b k.
Proof.
  destruct b as [m|]; simpl; [|done]. intros [_ Hv]. unfold um_get.
  destruct (um_find k m) as [v|] eqn:E; simpl; [|done].
  apply um_find_elem in E as (k' & Hin & _). eauto.
Qed.

Lemma get_set key (v : Z) m k : um_get 0 k (um_set key v m) = if key_eqb key k then v else um_get 0 k m.
Proof.
  unfold um_get. destruct (key_eqb key k) eqn:E.
  - by rewrite um_find_set_eq.
  - by rewrite um_find_set_ne.
Qed.

Lemma get_addValue key v (sum : DimToValMap) k :
  um_get 0 k (addValueToSum key v sum) = um_get 0 k sum + if key_eqb key k then v else 0.
Proof.
  unfold addValueToSum. rewrite get_set. destruct (key_eqb key k) eqn:E; [|lia].
  unfold um_get. by rewrite (um_find_cong key k).
Qed.

Lemma get_subtractValue key v (sum : DimToValMap) k :
  0 <= v → (key_eqb key k = true → v <= um_get 0 k sum) →
  um_get 0 k (subtractValueFromSum key v sum) = um_get 0 k sum - if key_eqb key k then v else 0.
Proof.
  intros Hv Hle. unfold subtractValueFromSum. destruct (um_find key sum) as [s|] eqn:Hs.
  - destruct (Z.eqb_spec (s - v) 0) as [E|E].
    + unfold um_get. destruct (key_eqb key k) eqn:Ek.
      * rewrite um_find_erase_eq, <- (um_find_cong key k), Hs by done. simpl. lia.
      * rewrite um_find_erase_ne by done. lia.
    + rewrite get_set. destruct (key_eqb key k) eqn:Ek; [|lia].
      unfold um_get. rewrite <- (um_find_cong key k), Hs by done. done.
  - destruct (key_eqb key k) eqn:Ek; [|lia]. specialize (Hle eq_refl).
    unfold um_get in *. rewrite <- (um_find_cong key k), Hs in * by done. simpl in *. lia.
Qed.

Lemma val_cons key v (b : DimToValMap) k :
  um_wf ((key, v) :: b) →
  um_get 0 k ((key, v) :: b) = (if key_eqb key k then v else 0) + um_get 0 k b.
Proof.
  intros [Hn _]. unfold um_get. cbn [um_find]. rewrite (key_eqb_comm k key).
  destruct (key_eqb key k) eqn:E; [|done]. simpl. rewrite <- (um_find_cong key k), Hn by done.
  simpl. lia.
Qed.

Lemma get_addBucket b sum k :
  bucket_ok b → um_get 0 k (addBucketToSum b sum) = um_get 0 k sum + val b k.
Proof.
  destruct b as [m|]; simpl; [|lia]. intros [Hw _]. revert sum.
  induction m as [|[key v] m IH]; intros sum; [unfold um_get at 3; simpl; lia|].
  rewrite val_cons by done. cbn [foldl fst snd]. rewrite IH by apply Hw.
  rewrite get_addValue. lia.
Qed.

Lemma get_subtractBucket b sum k :
  bucket_ok b → (∀ k, val b k <= um_get 0 k sum) →
  um_get 0 k (subtractBucketFromSum b sum) = um_get 0 k sum - val b k.
Proof.
  destruct b as [m|]; simpl; [|lia]. intros [Hw Hv]. revert sum.
  induction m as [|[key v] m IH]; intros sum Hle; [unfold um_get at 3; simpl; lia|].
  assert (Hv0 : 0 <= v) by (eapply Hv; by left).
  assert (Hm : ∀ k, 0 <= um_get 0 k m).
  { intros k'. apply (val_nonneg (Some m)). split; [apply Hw|]. intros; eapply Hv; by right. }
  cbn [foldl fst snd].
  assert (Hget : ∀ k', um_get 0 k' (subtractValueFromSum key v sum)
    = um_get 0 k' sum - if key_eqb key k' then v else 0).
  { intros k'. apply get_subtractValue; [done|]. intros E. specialize (Hle k').
    rewrite val_cons, E in Hle by done. specialize (Hm k'). lia. }
  rewrite IH.
  - rewrite Hget, val_cons by done. lia.
  - apply Hw.
  - intros; eapply Hv; by right.
  - intros k'. rewrite Hget. specialize (Hle k'). rewrite val_cons in Hle by done. lia.
Qed.

(** ** The ring *)

(** Sum of a key over the slots. *)
Definition slotSum (past : list (option DimToValMap)) (k : MetricDimensionKey) : Z :=
  sumZ ((λ b, val b k) <$> past).

Lemma slotSum_insert past i b b0 k :
  past !! i = Some b0 → slotSum (<[i := b]> past) k = slotSum past k - val b0 k + val b k.
Proof.
  unfold slotSum. revert i. induction past as [|x past IH]; intros [|i] Hi; try done.
  - injection Hi as ->. cbn [insert list_insert]. rewrite !fmap_cons, !sumZ_cons. lia.
  - change (<[S i := b]> (x :: past)) with (x :: <[i := b]> past).
    rewrite !fmap_cons, !sumZ_cons, (IH i) by done. lia.
Qed.

Lemma slotSum_ge past i b k :
  Forall bucket_ok past → past !! i = Some b → val b k <= slotSum past k.
Proof.
  unfold slotSum. intros Hok. revert i. induction Hok as [|x past Hx Hok IH]; intros [|i] Hi; try done; rewrite fmap_cons, sumZ_cons.
  - injection Hi as ->. assert (0 <= sumZ ((λ b, val b k) <$> past)); [|lia].
    apply sumZ_nonneg, Forall_fmap. eapply Forall_impl; [done|]. intros ? ?. by apply val_nonneg.
  - pose proof (val_nonneg x k Hx). specialize (IH i Hi). lia.
Qed.

(** The abstract history: the most recent bucket and the contents of the buckets. *)
Record History := mkHistory { h_recent : Z; h_bucket : Z → option DimToValMap }.

Definition h_advance (n b : Z) (h : History) : History :=
  if b <=? h_recent h then h
  else mkHistory b (λ i, if i <=? b - n then None else h_bucket h i).

Definition h_add (n : Z) (bucket : option DimToValMap) (b : Z) (h : History) : History :=
  if (b <? 0) || (b <=? h_recent h - n) then h
  else
    let h := h_advance n b h in
    mkHistory (h_recent h) (λ i, if i =? b then bucket else h_bucket h i).

(** The ring holds the last [n] buckets of the history and the sums over them. *)
Record ring (n : Z) (h : History) (t : AnomalyTracker) : Prop := {
  rg_num : mNumOfPastBuckets t = n;
  rg_pos : 0 < n;
  rg_recent : mMostRecentBucketNum t = h_recent h ∧ -1 <= h_recent h;
  rg_length : Z.of_nat (length (mPastBuckets t)) = n;
  rg_slots : ∀ b, h_recent h - n < b <= h_recent h →
    mPastBuckets t !! Z.to_nat (b mod n) = Some (h_bucket h b);
  rg_window : ∀ b, b <= h_recent h - n ∨ h_recent h < b ∨ b < 0 → h_bucket h b = None;
  rg_ok : Forall bucket_ok (mPastBuckets t);
  rg_sum : ∀ k, um_get 0 k (mSumOverPastBuckets t) = slotSum (mPastBuckets t) k
}.

(** The part of the invariant that does not mention the history. *)
Record store_ok (n : Z) (t : AnomalyTracker) : Prop := {
  st_num : mNumOfPastBuckets t = n;
  st_pos : 0 < n;
  st_length : Z.of_nat (length (mPastBuckets t)) = n;
  st_ok : Forall bucket_ok (mPastBuckets t);
  st_sum : ∀ k, um_get 0 k (mSumOverPastBuckets t) = slotSum (mPastBuckets t) k
}.

Lemma ring_store n h t : ring n h t → store_ok n t.
Proof. by intros [????????]. Qed.

Lemma index_mod n b t : store_ok n t → 0 <= b → index b t = Z.to_nat (b mod n).
Proof. intros [H ? _ _ _] Hb. unfold index. rewrite H, Z.rem_mod_nonneg by lia. done. Qed.

Lemma slot_exists n b t : store_ok n t → ∃ x, mPastBuckets t !! Z.to_nat (b mod n) = Some x.
Proof.
  intros [_ Hp Hl _ _]. apply lookup_lt_is_Some. pose proof (Z.mod_pos_bound b n Hp). lia.
Qed.

(** Replacing the contents of a slot together with the sums. *)
Lemma store_replace n t b x y recent :
  store_ok n t → mPastBuckets t !! Z.to_nat (b mod n) = Some x → bucket_ok y →
  store_ok n (set_buckets (<[Z.to_nat (b mod n) := y]> (mPastBuckets t))
    (addBucketToSum y (subtractBucketFromSum x (mSumOverPastBuckets t))) recent t).
Proof.
  intros [Hn Hp Hl Hok Hs] Hx Hy. split; simpl; try done.
  - by rewrite length_insert.
  - by apply Forall_insert.
  - intros k. assert (Hxok : bucket_ok x) by by eapply Forall_lookup_1.
    rewrite get_addBucket, get_subtractBucket, Hs, (slotSum_insert _ _ _ x) by
      (done || (intros k'; rewrite Hs; by eapply slotSum_ge)). done.
Qed.

Lemma slotAt_eq past i x : past !! i = Some x → slotAt i past = x.
Proof. unfold slotAt. by intros ->. Qed.

Lemma mod_neq a b n : 0 < n → 0 < a - b < n → a mod n ≠ b mod n.
Proof.
  intros Hn Hab E. pose proof (Z.div_mod a n) as H1. pose proof (Z.div_mod b n) as H2.
  assert (Hd : a - b = n * (a / n - b / n)) by lia.
  destruct (Z.le_gt_cases (a / n - b / n) 0); nia.
Qed.

Lemma to_nat_mod_inj a b n : 0 < n → Z.to_nat (a mod n) = Z.to_nat (b mod n) → a mod n = b mod n.
Proof. intros Hn E. pose proof (Z.mod_pos_bound a n Hn). pose proof (Z.mod_pos_bound b n Hn). lia. Qed.

(** After clearing [m] buckets from [i], every slot is either cleared or untouched. *)
Lemma clearBuckets_spec n m : ∀ i t,
  store_ok n t → 0 <= i →
  let t' := clearBuckets m i t in
  store_ok n t' ∧ mMostRecentBucketNum t' = mMostRecentBucketNum t ∧
  ∀ b, (mPastBuckets t' !! Z.to_nat (b mod n) = Some None ∧
        ∃ j, i <= j < i + Z.of_nat m ∧ j mod n = b mod n) ∨
       (mPastBuckets t' !! Z.to_nat (b mod n) = mPastBuckets t !! Z.to_nat (b mod n) ∧
        ∀ j, i <= j < i + Z.of_nat m → j mod n ≠ b mod n).
Proof.
  induction m as [|m IH]; intros i t Hst Hi; cbn [clearBuckets].
  { split_and!; try done. intros b. right. split; [done|]. lia. }
  destruct (slot_exists n i t Hst) as [x Hx].
  rewrite (index_mod n) by done. rewrite (slotAt_eq _ _ x) by done.
  set (t1 := set_buckets _ _ _ t).
  assert (Hst1 : store_ok n t1) by by apply (store_replace n t i x None).
  destruct (IH (i + 1) t1 Hst1) as (Hst2 & Hrec & Hslots); [lia|].
  split_and!; [done|done|]. intros b.
  destruct (Hslots b) as [[Hnone (j & Hj & Hjb)]|[Hsame Hno]].
  { left. split; [done|]. exists j. split; [lia|done]. }
  rewrite Hsame. destruct (decide (i mod n = b mod n)) as [E|E].
  - left. split; [|exists i; split; [lia|done]]. simpl. rewrite <- E.
    apply list_lookup_insert_eq. by eapply lookup_lt_Some.
  - right. split.
    + simpl. apply list_lookup_insert_ne. intros Hn. apply E.
      apply to_nat_mod_inj; [by eapply st_pos|done].
    + intros j Hj. destruct (decide (j = i)) as [->|]; [done|]. apply Hno. lia.
Qed.

Lemma store_reset n t : store_ok n t → store_ok n (resetStorage t).
Proof.
  intros [Hn Hp Hl _ _]. split; simpl; try done.
  - rewrite length_replicate. lia.
  - by apply Forall_replicate.
  - intros k. unfold slotSum. generalize (Z.to_nat (mNumOfPastBuckets t)) as m.
    induction m as [|m IH]; [done|]. cbn [replicate]. rewrite fmap_cons, sumZ_cons, <- IH. done.
Qed.

Lemma store_recent n t r : store_ok n t → store_ok n (set_recent r t).
Proof. by intros [?????]; split. Qed.

Lemma ring_of_store n h t :
  store_ok n t → mMostRecentBucketNum t = h_recent h → -1 <= h_recent h →
  (∀ b, h_recent h - n < b <= h_recent h →
    mPastBuckets t !! Z.to_nat (b mod n) = Some (h_bucket h b)) →
  (∀ b, b <= h_recent h - n ∨ h_recent h < b ∨ b < 0 → h_bucket h b = None) → ring n h t.
Proof. by intros [?????]; split. Qed.

Lemma ring_advance n h t b : ring n h t → ring n (h_advance n b h) (advanceMostRecentBucketTo b t).
Proof.
  intros Hr. pose proof (ring_store _ _ _ Hr) as Hst. destruct Hr as [Hn Hp [Hrec Hge] Hl Hsl Hw _ _].
  unfold advanceMostRecentBucketTo, h_advance. rewrite Hn, Hrec.
  destruct (Z.leb_spec n 0); [lia|]. destruct (Z.leb_spec b (h_recent h)) as [Hle|Hgt].
  { by apply ring_of_store. }
  destruct (Z.leb_spec (h_recent h + n) b) as [Hfar|Hnear]; apply ring_of_store; simpl; try lia.
  - apply store_recent. by apply store_reset.
  - intros c Hc. rewrite Hn. destruct (Z.leb_spec c (b - n)); [lia|]. rewrite Hw by lia.
    apply lookup_replicate_2. pose proof (Z.mod_pos_bound c n Hp). lia.
  - intros c Hc. destruct (Z.leb_spec c (b - n)); [done|]. apply Hw. lia.
  - apply store_recent. apply (clearBuckets_spec n); [done|lia].
  - destruct (clearBuckets_spec n (Z.to_nat (b - h_recent h)) (h_recent h + 1) t Hst)
      as (_ & _ & Hslots); [lia|].
    rewrite Z2Nat.id in Hslots by lia.
    intros c Hc. destruct (Z.leb_spec c (b - n)); [lia|].
    destruct (Hslots c) as [[-> (j & Hj & E)]|[-> Hno]].
    + destruct (decide (h_recent h < c)); [by rewrite Hw by lia|].
      exfalso. revert E. apply mod_neq; lia.
    + destruct (decide (h_recent h < c)); [exfalso; apply (Hno c); [lia|done]|]. apply Hsl. lia.
  - intros c Hc. destruct (Z.leb_spec c (b - n)); [done|]. apply Hw. lia.
Qed.

Lemma h_advance_recent n b h : h_recent (h_advance n b h) = Z.max (h_recent h) b.
Proof. unfold h_advance. destruct (Z.leb_spec b (h_recent h)); simpl; lia. Qed.

(** Writing a bucket inside the window. *)
Lemma ring_write n h t bucket b x :
  ring n h t → bucket_ok bucket → 0 <= b → h_recent h - n < b <= h_recent h →
  mPastBuckets t !! Z.to_nat (b mod n) = Some x →
  ring n (mkHistory (h_recent h) (λ i, if i =? b then bucket else h_bucket h i))
    (set_buckets (<[Z.to_nat (b mod n) := bucket]> (mPastBuckets t))
       (addBucketToSum bucket (subtractBucketFromSum x (mSumOverPastBuckets t)))
       (mMostRecentBucketNum t) t).
Proof.
  intros Hr Hb Hb0 Hwin Hx. pose proof (ring_store _ _ _ Hr) as Hst.
  destruct Hr as [Hn Hp [Hrec Hge] Hl Hsl Hw _ _]. apply ring_of_store; simpl; try done.
  - by apply store_replace.
  - intros c Hc. destruct (Z.eqb_spec c b) as [->|Hne].
    + apply list_lookup_insert_eq. by eapply lookup_lt_Some.
    + rewrite list_lookup_insert_ne; [by apply Hsl|]. intros E.
      apply to_nat_mod_inj in E; [|done]. revert E.
      destruct (Z.le_gt_cases b c); [intros E; symmetry in E; revert E|]; apply mod_neq; lia.
  - intros c Hc. destruct (Z.eqb_spec c b) as [->|]; [lia|]. by apply Hw.
Qed.

Lemma set_buckets_same t : set_buckets (mPastBuckets t) (mSumOverPastBuckets t) (mMostRecentBucketNum t) t = t.
Proof. by destruct t. Qed.

Lemma ring_add n h t bucket b :
  ring n h t → bucket_ok bucket → ring n (h_add n bucket b h) (addPastBucket bucket b t).
Proof.
  intros Hr Hb. unfold addPastBucket, h_add, tooOld.
  pose proof Hr as [Hn Hp [Hrec Hge] _ Hsl Hw _ _]. rewrite Hn, Hrec.
  rewrite (proj2 (Z.eqb_neq n 0)) by lia. cbn [orb].
  destruct ((b <? 0) || (b <=? h_recent h - n)) eqn:Hold; [done|]. bool_to_prop.
  destruct (Z.leb_spec b (h_recent h)) as [Hle|Hgt].
  - assert (h_advance n b h = h) as -> by (unfold h_advance; destruct (Z.leb_spec b (h_recent h)); [done|lia]).
    assert (Hx : mPastBuckets t !! Z.to_nat (b mod n) = Some (h_bucket h b)) by (apply Hsl; lia).
    unfold index. simpl. rewrite Hn, Z.rem_mod_nonneg by lia. rewrite (slotAt_eq _ _ _ Hx).
    pose proof (ring_write n h t bucket b (h_bucket h b) Hr Hb) as Hwr. rewrite Hrec in Hwr.
    apply Hwr; (done || lia).
  - pose proof (ring_advance n h t b Hr) as Hr1. set (t1 := advanceMostRecentBucketTo b t) in *.
    pose proof (h_advance_recent n b h) as Hrec1.
    rewrite (index_mod n b t1) by (done || by eapply ring_store).
    assert (Hx : mPastBuckets t1 !! Z.to_nat (b mod n) = Some (h_bucket (h_advance n b h) b))
      by (eapply rg_slots; [done|lia]).
    assert (Hnone : h_bucket (h_advance n b h) b = None).
    { unfold h_advance. destruct (Z.leb_spec b (h_recent h)); [lia|]. simpl.
      destruct (b <=? b - n); [done|]. apply Hw. lia. }
    rewrite Hnone in Hx. by apply (ring_write n (h_advance n b h) t1 bucket b None); try lia.
Qed.

(** A value written for one key, into the bucket of that number. *)
Definition h_set (n : Z) (key : MetricDimensionKey) (v b : Z) (h : History) : History :=
  if (b <? 0) || (b <=? h_recent h - n) then h
  else
    match h_bucket h b with
    | Some m => mkHistory (h_recent h) (λ i, if i =? b then Some (um_set key v m) else h_bucket h i)
    | None => h_add n (Some [(key, v)]) b h
    end.

Lemma um_set_values key (v : Z) (m : DimToValMap) k w :
  (k, w) ∈ um_set key v m → w = v ∨ (k, w) ∈ m.
Proof.
  induction m as [|[k1 v1] m IH]; simpl.
  - intros [= -> ->]%list_elem_of_singleton. by left.
  - destruct (key_eqb key k1).
    + intros [[= -> ->]|H]%elem_of_cons; [by left|right; by right].
    + intros [[= -> ->]|H]%elem_of_cons; [right; by left|].
      destruct (IH H); [by left|right; by right].
Qed.

Lemma bucket_ok_set key v m : 0 <= v → bucket_ok (Some m) → bucket_ok (Some (um_set key v m)).
Proof.
  intros Hv [Hw Hm]. split; [by apply um_wf_set|]. intros k w [->|H]%um_set_values; eauto.
Qed.

Lemma ring_set n h t key v b :
  ring n h t → 0 <= v → ring n (h_set n key v b h) (addPastBucketValue key v b t).
Proof.
  intros Hr Hv. unfold addPastBucketValue, h_set.
  pose proof Hr as [Hn Hp [Hrec Hge] Hl Hsl Hw Hok Hsum].
  assert (Hone : bucket_ok (Some [(key, v)])).
  { split; [done|]. by intros k w [= -> ->]%list_elem_of_singleton. }
  unfold tooOld. rewrite Hn, Hrec, (proj2 (Z.eqb_neq n 0)) by lia. cbn [orb].
  destruct ((b <? 0) || (b <=? h_recent h - n)) eqn:Hold; [done|]. bool_to_prop.
  destruct (Z.leb_spec b (h_recent h)) as [Hle|Hgt].
  2:{ rewrite Hw by lia. by apply ring_add. }
  assert (Hx : mPastBuckets t !! Z.to_nat (b mod n) = Some (h_bucket h b)) by (apply Hsl; lia).
  rewrite (index_mod n b t), (slotAt_eq _ _ _ Hx) by (done || by eapply ring_store).
  destruct (h_bucket h b) as [m|]; [|by apply ring_add].
  assert (Hm : bucket_ok (Some m)) by by eapply Forall_lookup_1.
  pose proof (ring_write n h t (Some (um_set key v m)) b (Some m) Hr) as Hwr.
  destruct Hwr as [? ? ? Hl' Hsl' Hw' Hok' _]; [by apply bucket_ok_set|lia|lia|done|].
  rewrite Hrec in *. split; try done. intros k. simpl.
  rewrite get_addValue, (slotSum_insert _ _ _ (Some m)) by done.
  assert (Hmk : um_get 0 k m <= um_get 0 k (mSumOverPastBuckets t)).
  { rewrite Hsum. apply (slotSum_ge _ _ (Some m) k Hok Hx). }
  assert (Hget : um_get 0 k (match um_find key m with
     | Some old => subtractValueFromSum key old (mSumOverPastBuckets t)
     | None => mSumOverPastBuckets t end) =
     um_get 0 k (mSumOverPastBuckets t) - if key_eqb key k then um_get 0 k m else 0).
  { destruct (um_find key m) as [old|] eqn:Hf.
    - rewrite get_subtractValue.
      + destruct (key_eqb key k) eqn:E; [|done]. unfold um_get at 3.
        by rewrite <- (um_find_cong key k), Hf.
      + apply um_find_elem in Hf as (k' & Hin & _). by eapply (proj2 Hm).
      + intros E. unfold um_get in Hmk at 1. by rewrite <- (um_find_cong key k), Hf in Hmk.
    - destruct (key_eqb key k) eqn:E; [|lia]. unfold um_get at 3.
      rewrite <- (um_find_cong key k), Hf by done. simpl. lia. }
  rewrite Hget, Hsum. simpl. rewrite get_set. destruct (key_eqb key k); lia.
Qed.

(** The buckets of the window, oldest first. *)
Definition window (n : Z) (h : History) : list (option DimToValMap) :=
  h_bucket h <$> seqZ (h_recent h - n + 1) n.

Definition windowSum (n : Z) (h : History) (k : MetricDimensionKey) : Z :=
  sumZ ((λ b, val b k) <$> window n h).

(** The window is a rotation of the ring. *)
Lemma window_rotation n h t :
  ring n h t → ∃ r, window n h = drop r (mPastBuckets t) ++ take r (mPastBuckets t).
Proof.
  intros [_ Hp [_ Hge] Hl Hsl _ _ _]. set (r := (h_recent h + 1) mod n).
  pose proof (Z.mod_pos_bound (h_recent h + 1) n Hp) as Hr. fold r in Hr.
  exists (Z.to_nat r). apply list_eq. intros i. unfold window. rewrite list_lookup_fmap.
  destruct (decide (Z.of_nat i < n)) as [Hi|Hi].
  - rewrite lookup_seqZ_lt by lia. simpl.
    set (b := h_recent h - n + 1 + Z.of_nat i).
    assert (Hb : b mod n = if Z.ltb (r + Z.of_nat i) n then r + Z.of_nat i else r + Z.of_nat i - n).
    { unfold b. replace (h_recent h - n + 1 + Z.of_nat i)
        with ((h_recent h + 1 + Z.of_nat i) + (-1) * n) by lia.
      rewrite Z.mod_add, Z.add_mod by lia. fold r. rewrite (Z.mod_small (Z.of_nat i)) by lia.
      destruct (Z.ltb_spec (r + Z.of_nat i) n); [apply Z.mod_small; lia|].
      symmetry. apply (Z.mod_unique _ _ 1); lia. }
    rewrite <- Hsl by (unfold b; lia). rewrite Hb.
    destruct (Z.ltb_spec (r + Z.of_nat i) n).
    + rewrite lookup_app_l, lookup_drop by (rewrite length_drop; lia). f_equal. lia.
    + rewrite lookup_app_r by (rewrite length_drop; lia).
      rewrite length_drop, lookup_take_lt by lia. f_equal. lia.
  - rewrite lookup_seqZ_ge by lia. symmetry. apply lookup_ge_None_2.
    rewrite length_app, length_drop, length_take. lia.
Qed.

Lemma windowSum_slots n h t k : ring n h t → windowSum n h k = slotSum (mPastBuckets t) k.
Proof.
  intros Hr. destruct (window_rotation n h t Hr) as [r E]. unfold windowSum, slotSum. rewrite E.
  rewrite fmap_app, sumZ_app. rewrite <- (take_drop r (mPastBuckets t)) at 3.
  rewrite fmap_app, sumZ_app. lia.
Qed.

Lemma ring_value n h t k b : ring n h t → getPastBucketValue k b t = val (h_bucket h b) k.
Proof.
  intros Hr. pose proof (ring_store _ _ _ Hr) as Hst.
  destruct Hr as [Hn Hp [Hrec Hge] Hl Hsl Hw _ _]. unfold getPastBucketValue. rewrite Hn, Hrec.
  destruct (_ || _ || _ || _) eqn:E; bool_to_prop.
  - rewrite Hw; [done|].
    repeat match goal with H : _ ∨ _ |- _ => destruct H end; bool_to_prop; lia.
  - rewrite (index_mod n), (slotAt_eq _ _ (h_bucket h b)); [|by apply Hsl|done|done]. done.
Qed.

(** ** Operation sequences *)

Inductive AnomalyOp :=
  | OAddBucket (bucket : DimToValMap) (b : Z)
  | OAddValue (key : MetricDimensionKey) (v b : Z)
  | ODetect (b : Z) (key : MetricDimensionKey) (v : Z).

Definition anomaly_op (op : AnomalyOp) (t : AnomalyTracker) : AnomalyTracker :=
  match op with
  | OAddBucket m b => addPastBucket (Some m) b t
  | OAddValue key v b => addPastBucketValue key v b t
  | ODetect b key v => (detectAnomaly b key v t).2
  end.

Definition history_op (n : Z) (op : AnomalyOp) (h : History) : History :=
  match op with
  | OAddBucket m b => h_add n (Some m) b h
  | OAddValue key v b => h_set n key v b h
  | ODetect b _ _ => h_advance n (b - 1) h
  end.

(** Buckets with distinct keys and values that are not negative. *)
Definition anomaly_op_ok (op : AnomalyOp) : Prop :=
  match op with
  | OAddBucket m _ => bucket_ok (Some m)
  | OAddValue _ v _ => 0 <= v
  | ODetect _ _ _ => True
  end.

Lemma detect_ring n h t b key v :
  ring n h t → ring n (h_advance n (b - 1) h) (detectAnomaly b key v t).2.
Proof.
  intros Hr. unfold detectAnomaly. simpl. pose proof Hr as [_ _ [Hrec _] _ _ _ _ _].
  rewrite Hrec. destruct (Z.ltb_spec (h_recent h + 1) b); [by apply ring_advance|].
  unfold h_advance. by destruct (Z.leb_spec (b - 1) (h_recent h)); [|lia].
Qed.

Lemma op_ring n op h t : ring n h t → anomaly_op_ok op → ring n (history_op n op h) (anomaly_op op t).
Proof.
  intros Hr Hop. destruct op as [m b|key v b|b key v]; cbn [history_op anomaly_op].
  - by apply ring_add.
  - by apply ring_set.
  - by apply detect_ring.
Qed.

Lemma ring_new alert :
  2 <= num_buckets alert →
  ring (num_buckets alert - 1) (mkHistory (-1) (λ _, None)) (AnomalyTracker_new alert).
Proof.
  intros Hn. apply ring_of_store; simpl; try done.
  - split; simpl; try lia.
    + rewrite length_replicate. lia.
    + by apply Forall_replicate.
    + intros k. unfold slotSum. generalize (Z.to_nat (num_buckets alert - 1)) as m.
      induction m as [|m IH]; [done|]. cbn [replicate]. by rewrite fmap_cons, sumZ_cons, <- IH.
  - intros b Hb. apply lookup_replicate_2.
    pose proof (Z.mod_pos_bound b (num_buckets alert - 1)). lia.
Qed.

Lemma ops_ring n ops : ∀ h t,
  ring n h t → Forall anomaly_op_ok ops →
  ring n (foldl (λ h op, history_op n op h) h ops) (foldl (λ t op, anomaly_op op t) t ops).
Proof.
  induction ops as [|op ops IH]; intros h t Hr Hops; [done|]. inversion_clear Hops.
  cbn [foldl]. apply IH; [|done]. by apply op_ring.
Qed.

Lemma anomaly_op_alert op t : mAlert (anomaly_op op t) = mAlert t.
Proof.
  assert (Hc : ∀ m i t, mAlert (clearBuckets m i t) = mAlert t).
  { induction m as [|m IH]; intros i t'; [done|]. cbn [clearBuckets]. by rewrite IH. }
  assert (Ha : ∀ b t, mAlert (advanceMostRecentBucketTo b t) = mAlert t).
  { intros b t'. unfold advanceMostRecentBucketTo. repeat destr_if; try done. simpl. apply Hc. }
  assert (Hb : ∀ m b t, mAlert (addPastBucket m b t) = mAlert t).
  { intros m b t'. unfold addPastBucket. destr_if; [done|]. simpl. destr_if; [done|]. apply Ha. }
  destruct op as [m b|key v b|b key v]; simpl.
  - apply Hb.
  - unfold addPastBucketValue. destr_if; [done|].
    destruct (if _ <=? _ then _ else _); [done|apply Hb].
  - destr_if; [apply Ha|done].
Qed.

(** C38: after any sequence of operations with non-negative values, the ring answers like an
    unbounded history cut to the last buckets, the cached sum of a key is the sum of its
    values over the window, and an anomaly is detected exactly when that sum over the window
    before the current bucket, plus the current value, exceeds the threshold. *)
Theorem anomaly_sums_window alert ops b key v :
  2 <= num_buckets alert → Forall anomaly_op_ok ops →
  let n := num_buckets alert - 1 in
  let h := foldl (λ h op, history_op n op h) (mkHistory (-1) (λ _, None)) ops in
  let t := foldl (λ t op, anomaly_op op t) (AnomalyTracker_new alert) ops in
  (∀ k i, getPastBucketValue k i t = val (h_bucket h i) k) ∧
  (∀ k, getSumOverPastBuckets k t = windowSum n h k) ∧
  (detectAnomaly b key v t).1 =
    match trigger_if_sum_gt alert with
    | None => false
    | Some threshold => exceeds (windowSum n (h_advance n (b - 1) h) key + v) threshold
    end.
Proof.
  intros Hn Hops n h t. pose proof (ops_ring n ops _ _ (ring_new alert Hn) Hops) as Hr.
  fold h t in Hr. split_and!.
  - intros k i. by eapply ring_value.
  - intros k. unfold getSumOverPastBuckets. by rewrite (rg_sum _ _ _ Hr), (windowSum_slots _ _ t).
  - assert (Hal : mAlert t = alert).
    { unfold t. assert (H0 : mAlert (AnomalyTracker_new alert) = alert) by done. revert H0.
      generalize (AnomalyTracker_new alert). clear.
      induction ops as [|op ops IH]; intros t H0; [done|]. cbn [foldl]. apply IH.
      by rewrite anomaly_op_alert. }
    pose proof (anomaly_op_alert (ODetect b key v) t) as Hal2.
    cbn [anomaly_op] in Hal2. rewrite Hal in Hal2.
    pose proof (detect_ring n h t b key v Hr) as Hr2.
    rewrite (windowSum_slots _ _ _ key Hr2), <- (rg_sum _ _ _ Hr2).
    unfold detectAnomaly in *. simpl in *. by rewrite Hal2.
Qed.

(** A key with one integer value. *)
Definition exampleKey (v : Z) : MetricDimensionKey :=
  mkMetricKey (mkKey [FieldValue_of (mkField 10 0) (VINT v)]) (mkKey []).

Definition exampleAlert : Alert := mkAlert 1 2 3 (Some 10) (Some (toDouble 9)).

Lemma anomaly_sums_window_witness :
  let ops := [OAddBucket [(exampleKey 1, 4); (exampleKey 2, 7)] 0; OAddValue (exampleKey 1) 5 1;
              OAddValue (exampleKey 1) 6 1] in
  let t := foldl (λ t op, anomaly_op op t) (AnomalyTracker_new exampleAlert) ops in
  getSumOverPastBuckets (exampleKey 1) t = 10 ∧ (detectAnomaly 2 (exampleKey 1) 0 t).1 = true.
Proof.
  intros ops t.
  destruct (anomaly_sums_window exampleAlert ops 2 (exampleKey 1) 0) as (_ & Hsum & Hdet).
  - simpl. lia.
  - repeat constructor; simpl; try lia.
    intros k v Hin%list_elem_of_In. destruct Hin as [E|[E|[]]]; apply (f_equal snd) in E; simpl in E; lia.
  - fold t in Hsum, Hdet. rewrite Hsum, Hdet. split; vm_compute; reflexivity.
Defined.

(** ** Refractory periods *)

Record Call := mkCall { cl_ts : Z; cl_key : MetricDimensionKey; cl_value : Z }.

Definition declareAll (calls : list Call) (t : AnomalyTracker) : AnomalyTracker :=
  foldl (λ t c, declareAnomaly (cl_ts c) (cl_key c) (cl_value c) t) t calls.

(** Declared anomalies of a key are apart, and its refractory period covers the last one. *)
Record refractory_ok (secs : Z) (t : AnomalyTracker) : Prop := {
  rf_alert : refractory_period_secs (mAlert t) = Some secs;
  rf_apart : ∀ i j d1 d2, (i < j)%nat → declared t !! i = Some d1 → declared t !! j = Some d2 →
    d_key d1 =k d_key d2 → d_timestampNs d1 + secs * NS_PER_SEC <= d_timestampNs d2;
  rf_ends : ∀ d k, d ∈ declared t → k =k d_key d →
    ∃ ends, um_find k (mRefractoryPeriodEndsSec t) = Some ends ∧
      d_timestampNs d + secs * NS_PER_SEC <= ends * NS_PER_SEC
}.

Lemma round_up_sec ts : 0 <= ts → ts <= Z.quot (ts + NS_PER_SEC - 1) NS_PER_SEC * NS_PER_SEC.
Proof.
  intros. unfold NS_PER_SEC. rewrite quot_div_nonneg by lia.
  pose proof (Z.div_mod (ts + 1000000000 - 1) 1000000000).
  pose proof (Z.mod_pos_bound (ts + 1000000000 - 1) 1000000000). lia.
Qed.

Lemma declare_refractory secs c t :
  refractory_ok secs t → 0 <= secs → 0 <= cl_ts c →
  Z.quot (cl_ts c + NS_PER_SEC - 1) NS_PER_SEC + secs < 2 ^ 32 →
  refractory_ok secs (declareAnomaly (cl_ts c) (cl_key c) (cl_value c) t).
Proof.
  intros [Hal Hap Hen] Hs Hts Hlt. unfold declareAnomaly. destr_if; [done|]. rewrite Hal.
  pose proof (round_up_sec _ Hts) as Hup. set (up := Z.quot _ _) in *.
  assert (0 <= up) by (unfold up, NS_PER_SEC; apply Z.quot_pos; lia).
  rewrite (u32_id (up + secs)) by lia.
  assert (Hprev : ∀ d, d ∈ declared t → d_key d =k cl_key c →
    d_timestampNs d + secs * NS_PER_SEC <= cl_ts c).
  { intros d Hd Hk. destruct (Hen d (cl_key c) Hd) as (ends & Hf & Hle); [by apply key_eqb_sym|].
    unfold isInRefractoryPeriod in Heqb. rewrite Hf in Heqb. bool_to_prop. lia. }
  split; simpl; [done| |].
  - intros i j d1 d2 Hij Hi Hj Hk. apply lookup_snoc_Some in Hi as [[Hi' Hi]|[Hi _]],
      Hj as [[Hj' Hj]|[Hj <-]]; try lia; [by eauto|]. simpl in *.
    apply Hprev; [by eapply list_elem_of_lookup_2|done].
  - intros d k Hd Hk. destruct (key_eqb (cl_key c) k) eqn:E.
    + exists (up + secs). split; [by apply um_find_set_eq|].
      apply elem_of_app in Hd as [Hd| ->%list_elem_of_singleton]; simpl in *; [|lia].
      assert (d_timestampNs d + secs * NS_PER_SEC <= cl_ts c); [|unfold NS_PER_SEC in *; lia].
      apply Hprev; [done|]. apply key_eqb_sym. by eapply key_eqb_trans.
    + apply elem_of_app in Hd as [Hd| ->%list_elem_of_singleton].
      * destruct (Hen d k Hd Hk) as (ends & Hf & Hle). exists ends. split; [|done].
        by rewrite um_find_set_ne.
      * simpl in Hk. apply key_eqb_sym in Hk. congruence.
Qed.

(** Whatever anomalies are reported, two of them declared for the same key are at least
    the refractory period apart. *)
Theorem declared_anomalies_apart alert secs calls i j d1 d2 :
  refractory_period_secs alert = Some secs → 0 <= secs →
  Forall (λ c, 0 <= cl_ts c ∧ Z.quot (cl_ts c + NS_PER_SEC - 1) NS_PER_SEC + secs < 2 ^ 32) calls →
  let t := declareAll calls (AnomalyTracker_new alert) in
  (i < j)%nat → declared t !! i = Some d1 → declared t !! j = Some d2 → d_key d1 =k d_key d2 →
  d_timestampNs d1 + secs * NS_PER_SEC <= d_timestampNs d2.
Proof.
  intros Hal Hs Hcalls t. enough (Hok : refractory_ok secs t) by (intros; by eapply rf_apart).
  subst t. assert (H0 : refractory_ok secs (AnomalyTracker_new alert)).
  { split; simpl; [done|by intros ????; rewrite lookup_nil|by intros ?? ?%not_elem_of_nil]. }
  revert H0. generalize (AnomalyTracker_new alert). clear Hal.
  induction Hcalls as [|c calls [Hc1 Hc2] _ IH]; intros t H0; [done|].
  unfold declareAll. cbn [foldl]. apply IH. by apply declare_refractory.
Qed.

Lemma declared_anomalies_apart_witness :
  let t := declareAll [mkCall 5000000000 (exampleKey 1) 3; mkCall 6000000000 (exampleKey 1) 4;
                       mkCall 15000000001 (exampleKey 1) 5] (AnomalyTracker_new exampleAlert) in
  length (declared t) = 2%nat ∧ 5000000000 + 10 * NS_PER_SEC <= 15000000001.
Proof.
  intros t. split; [vm_compute; reflexivity|].
  apply (declared_anomalies_apart exampleAlert 10
    [mkCall 5000000000 (exampleKey 1) 3; mkCall 6000000000 (exampleKey 1) 4;
     mkCall 15000000001 (exampleKey 1) 5] 0 1
    (mkDeclared 5000000000 (exampleKey 1) 3) (mkDeclared 15000000001 (exampleKey 1) 5)).
  - reflexivity.
  - lia.
  - repeat constructor; vm_compute; congruence.
  - lia.
  - vm_compute. reflexivity.
  - vm_compute. reflexivity.
  - vm_compute. reflexivity.
Defined.

(** ** Metadata *)

(** A value that survives: no bytes (read back as a string) and no NUL in a string. *)
Definition storable (v : Value) : Prop :=
  match v with
  | VSTRING s => c_str s = s
  | VSTORAGE _ => False
  | _ => True
  end.

Definition key_storable (k : HashableDimensionKey) : Prop :=
  Forall (λ fv, storable (fv_value fv) ∧ nan_free (fv_value fv) = true) (mValues k).

Lemma field_values_roundtrip l :
  Forall (λ fv, storable (fv_value fv) ∧ nan_free (fv_value fv) = true) l →
  same_values (writeFieldValuesFromMetadata (map writeFieldValueToMetadata l)) l.
Proof.
  induction 1 as [|fv l [Hs Hn] _ IH]; [constructor|]. constructor; [|done].
  apply FieldValue_neqb_false. simpl. destruct fv as [[tag f] v a]. simpl in *. split; [done|].
  replace (readValueFromProto (writeValueToProto v)) with v; [by apply Value_neqb_refl|].
  destruct v; simpl in *; done || congruence.
Qed.

Lemma metadata_key_roundtrip k :
  key_storable (mDimensionKeyInWhat k) → key_storable (mStateValuesKey k) →
  loadMetricDimensionKeyFromProto (writeMetricDimensionKeyToMetadataDimensionKey k) =k k.
Proof.
  intros H1 H2. apply andb_true_iff.
  split; apply hdk_eqb_spec; by apply field_values_roundtrip.
Qed.

(** The end of a refractory period after a restart: what was left of it in wall clock time. *)
Definition restarted (w1 e1 w2 e2 ends : Z) : Z :=
  Z.quot e2 NS_PER_SEC + (ends - Z.quot e1 NS_PER_SEC)
  - (Z.quot w2 NS_PER_SEC - Z.quot w1 NS_PER_SEC).

(** The period has not ended at either time and the seconds fit their fields. *)
Definition survives (w1 e1 w2 e2 ends : Z) : Prop :=
  let wallEnds := Z.quot w1 NS_PER_SEC + (ends - Z.quot e1 NS_PER_SEC) in
  Z.quot e1 NS_PER_SEC <= ends ∧ 0 <= wallEnds < 2 ^ 31 ∧
  0 <= Z.quot w2 NS_PER_SEC <= wallEnds ∧ 0 <= restarted w1 e1 w2 e2 ends < 2 ^ 32.

Lemma u32_wrap32 z : 0 <= z < 2 ^ 32 → u32 (wrap32 z) = z.
Proof.
  intros Hz. unfold u32, wrap32. rewrite Zminus_mod, Zmod_mod, <- Zminus_mod.
  replace (z + 2 ^ 31 - 2 ^ 31) with z by lia. by apply Z.mod_small.
Qed.

Lemma loadKeyedData_survives w1 e1 w2 e2 ends t mk :
  survives w1 e1 w2 e2 ends →
  loadKeyedData w2 e2 t
    (mk, wrap32 (Z.quot w1 NS_PER_SEC + (ends - Z.quot e1 NS_PER_SEC))) =
  set_refractory (um_set (loadMetricDimensionKeyFromProto mk) (restarted w1 e1 w2 e2 ends)
    (mRefractoryPeriodEndsSec t)) t.
Proof.
  intros (H1 & H2 & H3 & H4). unfold loadKeyedData. cbn [fst snd].
  rewrite wrap32_id by (unfold int32; lia). unfold u64. rewrite !Z.mod_small by lia.
  rewrite (proj2 (Z.ltb_ge _ _)) by lia. do 2 f_equal.
  rewrite <- (u32_wrap32 (restarted w1 e1 w2 e2 ends)) by done. do 2 f_equal. unfold restarted. lia.
Qed.

Lemma load_metadata_find w1 e1 w2 e2 (m : umap MetricDimensionKey Z) :
  (∀ k ends, (k, ends) ∈ m → survives w1 e1 w2 e2 ends ∧
     key_storable (mDimensionKeyInWhat k) ∧ key_storable (mStateValuesKey k)) →
  ∀ t t0, mRefractoryPeriodEndsSec t = m → um_wf m →
  ∀ k, um_find k (mRefractoryPeriodEndsSec (loadAlertMetadata (writeAlertMetadataToProto w1 e1 t) w2 e2 t0)) =
    match um_find k m with
    | Some ends => Some (restarted w1 e1 w2 e2 ends)
    | None => um_find k (mRefractoryPeriodEndsSec t0)
    end.
Proof.
  intros Hm t t0 Ht. unfold writeAlertMetadataToProto. rewrite Ht. clear Ht t. revert t0.
  induction m as [|[k1 ends1] m IH]; intros t0 Hw k; [done|]. destruct Hw as [Hn Hw].
  destruct (Hm k1 ends1) as (Hsv & Hs1 & Hs2); [by left|].
  cbn [flat_map fst snd]. rewrite (proj2 (Z.ltb_ge _ _)) by apply Hsv. cbn [app].
  match goal with |- context [loadAlertMetadata (?x :: ?l) w2 e2 t0] =>
    change (loadAlertMetadata (x :: l) w2 e2 t0) with (loadAlertMetadata l w2 e2 (loadKeyedData w2 e2 t0 x))
  end.
  rewrite IH; [|intros; apply Hm; by right|done].
  rewrite loadKeyedData_survives by done. cbn [mRefractoryPeriodEndsSec set_refractory um_find].
  set (k1' := loadMetricDimensionKeyFromProto _).
  assert (Hk1 : k1' =k k1) by by apply metadata_key_roundtrip.
  destruct (key_eqb k k1) eqn:E.
  - rewrite (um_find_cong k k1), Hn by done. apply um_find_set_eq.
    eapply key_eqb_trans; [done|]. by apply key_eqb_sym.
  - destruct (um_find k m); [done|]. apply um_find_set_ne.
    rewrite (key_eqb_cong_l _ _ _ Hk1). by rewrite key_eqb_comm.
Qed.

(** Refractory periods survive a restart: for every key without bytes, NaN or NUL whose
    period has not ended, the loaded period ends after what was left of it, corrected by the
    wall clock time that passed; expired and absent keys are not in a period. *)
Theorem refractory_metadata_roundtrip w1 e1 w2 e2 t alert k :
  um_wf (mRefractoryPeriodEndsSec t) →
  (∀ k ends, (k, ends) ∈ mRefractoryPeriodEndsSec t → survives w1 e1 w2 e2 ends ∧
     key_storable (mDimensionKeyInWhat k) ∧ key_storable (mStateValuesKey k)) →
  um_find k (mRefractoryPeriodEndsSec
    (loadAlertMetadata (writeAlertMetadataToProto w1 e1 t) w2 e2 (AnomalyTracker_new alert))) =
  restarted w1 e1 w2 e2 <$> um_find k (mRefractoryPeriodEndsSec t).
Proof.
  intros Hw Hm. rewrite (load_metadata_find w1 e1 w2 e2 (mRefractoryPeriodEndsSec t)) by done.
  by destruct (um_find k (mRefractoryPeriodEndsSec t)).
Qed.

Lemma refractory_metadata_roundtrip_witness :
  let t := declareAnomaly 5000000000 (exampleKey 1) 3 (AnomalyTracker_new exampleAlert) in
  um_find (exampleKey 1) (mRefractoryPeriodEndsSec
    (loadAlertMetadata (writeAlertMetadataToProto 1005000000000 6000000000 t)
       1009000000000 2000000000 (AnomalyTracker_new exampleAlert))) = Some 7.
Proof.
  intros t. rewrite refractory_metadata_roundtrip.
  - vm_compute. reflexivity.
  - vm_compute. auto.
  - intros k ends Hin. vm_compute in Hin. apply list_elem_of_singleton in Hin.
    injection Hin as -> ->. split; [vm_compute; repeat split; congruence|].
    split; vm_compute; repeat constructor.
Defined.

(** A dimension key with a bytes value does not survive a restart: the key loaded from the
    metadata is different from the key that was written. *)
Theorem storage_key_not_restored :
  let k := mkMetricKey (mkKey [FieldValue_of (mkField 10 0) (VSTORAGE [65; 66])]) (mkKey []) in
  loadMetricDimensionKeyFromProto (writeMetricDimensionKeyToMetadataDimensionKey k) <>k k.
Proof. vm_compute. reflexivity. Qed.
