(* ===== verification/State.v ===== *)
(** * State tracking (state/StateTracker.cpp, state/StateManager.cpp)

    A tracker keeps the current state of every primary key of one atom and tells its
    listeners when it changes; the manager owns one tracker per atom that has listeners.
    Notifications are recorded in order. *)
From S2P Require Import Prelude UMap FieldValue DimensionKey DimensionKeyFacts Matchers.

Definition kStateUnknown : Z := -1.

Record StateValueInfo := mkStateValueInfo { sv_state : Z; sv_count : Z }.

Definition StateValueInfo_default : StateValueInfo := mkStateValueInfo kStateUnknown 0.

(** One call of [notifyListeners]: every listener receives the same arguments. *)
Record Notification := mkNotification {
  nt_time : Z; nt_listeners : gset Z; nt_key : HashableDimensionKey;
  nt_old : FieldValue; nt_new : FieldValue
}.

Record StateTracker := mkStateTracker {
  st_field : Field;
  mStateMap : umap HashableDimensionKey StateValueInfo;
  mListeners : gset Z;
  notifications : list Notification;
  danglingWrites : nat
}.

Definition StateTracker_new (atomId : Z) : StateTracker :=
  mkStateTracker (mkField atomId 0) [] ∅ [] 0.

Definition set_stateMap (m : umap HashableDimensionKey StateValueInfo) (t : StateTracker) :=
  mkStateTracker (st_field t) m (mListeners t) (notifications t) (danglingWrites t).
Definition set_stateField (f : Field) (t : StateTracker) :=
  mkStateTracker f (mStateMap t) (mListeners t) (notifications t) (danglingWrites t).
Definition set_listeners (l : gset Z) (t : StateTracker) :=
  mkStateTracker (st_field t) (mStateMap t) l (notifications t) (danglingWrites t).
Definition add_dangling (t : StateTracker) :=
  mkStateTracker (st_field t) (mStateMap t) (mListeners t) (notifications t) (S (danglingWrites t)).

Definition registerListener (listener : Z) (t : StateTracker) : StateTracker :=
  set_listeners (mListeners t ∪ {[listener]}) t.
Definition unregisterListener (listener : Z) (t : StateTracker) : StateTracker :=
  set_listeners (mListeners t ∖ {[listener]}) t.
Definition getListenersCount (t : StateTracker) : nat := size (mListeners t).

Definition notifyListeners (eventTimeNs : Z) (primaryKey : HashableDimensionKey)
    (oldState newState : FieldValue) (t : StateTracker) : StateTracker :=
  mkStateTracker (st_field t) (mStateMap t) (mListeners t)
    (notifications t ++ [mkNotification eventTimeNs (mListeners t) primaryKey oldState newState])
    (danglingWrites t).

(** Writes through [stateValueInfo]: the entry of the key, or freed memory when the key has
    just been erased from the map. *)
Definition writeInfo (primaryKey : HashableDimensionKey) (erased : bool) (info : StateValueInfo)
    (t : StateTracker) : StateTracker :=
  if erased then add_dangling t else set_stateMap (um_set primaryKey info (mStateMap t)) t.

(** [updateStateForPrimaryKey]; [info] is what [stateValueInfo] points to. *)
Definition updateStateForPrimaryKey (eventTimeNs : Z) (primaryKey : HashableDimensionKey)
    (newState : FieldValue) (nested : bool) (info : StateValueInfo) (t : StateTracker)
    : StateTracker :=
  let oldState := FieldValue_of (st_field t) (VINT (sv_state info)) in
  let oldStateValue := sv_state info in
  let newStateValue := default 0 (int_value (fv_value newState)) in
  let erased := newStateValue =? kStateUnknown in
  let t := if erased then set_stateMap (um_erase primaryKey (mStateMap t)) t else t in
  let notify := notifyListeners eventTimeNs primaryKey oldState newState in
  if negb nested then
    let t := writeInfo primaryKey erased (mkStateValueInfo newStateValue 1) t in
    if negb (oldStateValue =? newStateValue) then notify t else t
  else if newStateValue =? kStateUnknown then
    if negb (oldStateValue =? kStateUnknown) then notify t else t
  else if oldStateValue =? kStateUnknown then
    notify (writeInfo primaryKey erased (mkStateValueInfo newStateValue 1) t)
  else if oldStateValue =? newStateValue then
    writeInfo primaryKey erased (mkStateValueInfo oldStateValue (sv_count info + 1)) t
  else if sv_count info - 1 =? 0 then
    notify (writeInfo primaryKey erased (mkStateValueInfo newStateValue 1) t)
  else writeInfo primaryKey erased (mkStateValueInfo oldStateValue (sv_count info - 1)) t.

Definition clearStateForPrimaryKey (eventTimeNs : Z) (primaryKey : HashableDimensionKey)
    (t : StateTracker) : StateTracker :=
  match um_find primaryKey (mStateMap t) with
  | None => t
  | Some info =>
      updateStateForPrimaryKey eventTimeNs primaryKey
        (FieldValue_of (st_field t) (VINT kStateUnknown)) false info t
  end.

(** [handleReset]: the loop over the entries present at its start. *)
Definition handleReset (eventTimeNs : Z) (newState : FieldValue) (t : StateTracker) : StateTracker :=
  foldl (λ t entry, updateStateForPrimaryKey eventTimeNs entry.1 newState false entry.2 t)
    t (mStateMap t).

(** [getStateFieldValueFromLogEvent] *)
Definition getStateFieldValueFromLogEvent (event : LogEvent) : option FieldValue :=
  if getExclusiveStateFieldIndex event =? -1 then None
  else getValues event !! Z.to_nat (getExclusiveStateFieldIndex event).

(** [StateTracker::onLogEvent] *)
Definition onLogEvent (event : LogEvent) (t : StateTracker) : StateTracker :=
  let eventTimeNs := GetElapsedTimestampNs event in
  let primaryKey := (filterPrimaryKey (getValues event) (mkKey [])).2 in
  match getStateFieldValueFromLogEvent event with
  | None => clearStateForPrimaryKey eventTimeNs primaryKey t
  | Some newState =>
      let t := set_stateField (setField (st_field t) (mField (fv_field newState))) t in
      match int_value (fv_value newState) with
      | None => clearStateForPrimaryKey eventTimeNs primaryKey t
      | Some _ =>
          if negb (getResetState event =? -1) then
            handleReset eventTimeNs (FieldValue_of (st_field t) (VINT (getResetState event))) t
          else
            let nested := isNested (fv_annotations newState) in
            let info := um_get StateValueInfo_default primaryKey (mStateMap t) in
            let t := set_stateMap (um_insert primaryKey StateValueInfo_default (mStateMap t)) t in
            updateStateForPrimaryKey eventTimeNs primaryKey newState nested info t
      end
  end.

(** [getStateValue]: whether the key is present and the output. *)
Definition getStateValue (queryKey : HashableDimensionKey) (t : StateTracker) : bool * FieldValue :=
  match um_find queryKey (mStateMap t) with
  | Some info => (true, FieldValue_of (st_field t) (VINT (sv_state info)))
  | None => (false, FieldValue_of (st_field t) (VINT kStateUnknown))
  end.

(** ** StateManager *)

Record StateManager := mkStateManager {
  mStateTrackers : gmap Z StateTracker; mAllowedPkg : list string; mAllowedLogSources : gset Z
}.

Definition StateManager_new : StateManager := mkStateManager ∅ ["com.android.systemui"%string] ∅.

Definition AID_ROOT : Z := 0.

Definition manager_clear (m : StateManager) : StateManager :=
  mkStateManager ∅ (mAllowedPkg m) (mAllowedLogSources m).

Definition manager_onLogEvent (event : LogEvent) (m : StateManager) : StateManager :=
  let uid := GetUid event in
  if (uid =? AID_ROOT) || ((1000 <=? uid) && (uid <? 2000))
     || bool_decide (uid ∈ mAllowedLogSources m)
  then mkStateManager (alter (onLogEvent event) (GetTagId event) (mStateTrackers m))
         (mAllowedPkg m) (mAllowedLogSources m)
  else m.

Definition manager_registerListener (atomId listener : Z) (m : StateManager) : StateManager :=
  let t := default (StateTracker_new atomId) (mStateTrackers m !! atomId) in
  mkStateManager (<[atomId := registerListener listener t]> (mStateTrackers m))
    (mAllowedPkg m) (mAllowedLogSources m).

Definition manager_unregisterListener (atomId listener : Z) (m : StateManager) : StateManager :=
  match mStateTrackers m !! atomId with
  | None => m
  | Some t =>
      let t := unregisterListener listener t in
      mkStateManager
        (if (getListenersCount t =? 0)%nat then delete atomId (mStateTrackers m)
         else <[atomId := t]> (mStateTrackers m))
        (mAllowedPkg m) (mAllowedLogSources m)
  end.

Definition manager_getStateValue (atomId : Z) (key : HashableDimensionKey) (m : StateManager)
    : bool * option FieldValue :=
  match mStateTrackers m !! atomId with
  | Some t => let (found, out) := getStateValue key t in (found, Some out)
  | None => (false, None)
  end.

(** [updateLogSources]; [getAppUid] is the uid map's answer for a package. *)
Definition updateLogSources (getAppUid : string → list Z) (m : StateManager) : StateManager :=
  mkStateManager (mStateTrackers m) (mAllowedPkg m)
    (list_to_set (flat_map getAppUid (mAllowedPkg m))).

Definition notifyAppChanged (apk : string) (getAppUid : string → list Z) (m : StateManager)
    : StateManager :=
  if existsb (String.eqb apk) (mAllowedPkg m) then updateLogSources getAppUid m else m.
