(* ===== verification/StateFacts.v ===== *)
(** * Facts about state tracking

    Listeners are told exactly the changes of the visible state of a key; nested states count
    opposite events; a tracker exists exactly while it has listeners. *)
From S2P Require Import Prelude UMap FieldValue FieldValueFacts DimensionKey DimensionKeyFacts.
From S2P Require Import Matchers State.

(** The visible state of a key. *)
Definition stateOf (t : StateTracker) (k : HashableDimensionKey) : Z :=
  sv_state (um_get StateValueInfo_default k (mStateMap t)).

Record state_ok (t : StateTracker) : Prop := {
  sk_wf : um_wf (mStateMap t);
  sk_known : ∀ k i, (k, i) ∈ mStateMap t → sv_state i ≠ kStateUnknown;
  sk_count : ∀ k i, (k, i) ∈ mStateMap t → 1 <= sv_count i;
  sk_refl : ∀ k i, (k, i) ∈ mStateMap t → k =k k
}.

(** The entry of a key after an update; [None]: removed. *)
Definition next (nested : bool) (info : StateValueInfo) (new : Z) : option StateValueInfo :=
  if new =? kStateUnknown then None
  else if negb nested then Some (mkStateValueInfo new 1)
  else if sv_state info =? kStateUnknown then Some (mkStateValueInfo new 1)
  else if sv_state info =? new then Some (mkStateValueInfo new (sv_count info + 1))
  else if sv_count info - 1 =? 0 then Some (mkStateValueInfo new 1)
  else Some (mkStateValueInfo (sv_state info) (sv_count info - 1)).

Definition stateOfInfo (i : option StateValueInfo) : Z := sv_state (default StateValueInfo_default i).

Definition notification (eventTimeNs : Z) (key : HashableDimensionKey) (newState : FieldValue)
    (info : StateValueInfo) (t : StateTracker) : Notification :=
  mkNotification eventTimeNs (mListeners t) key
    (FieldValue_of (st_field t) (VINT (sv_state info))) newState.

Definition int_of (v : FieldValue) : Z := default 0 (int_value (fv_value v)).

(** The map that [updateStateForPrimaryKey] leaves. *)
Definition updated_map (key : HashableDimensionKey) (i : option StateValueInfo)
    (m : umap HashableDimensionKey StateValueInfo) :=
  match i with None => um_erase key m | Some i => um_set key i m end.

Lemma update_spec time key newState nested info t :
  let i := next nested info (int_of newState) in
  let t' := updateStateForPrimaryKey time key newState nested info t in
  mStateMap t' = updated_map key i (mStateMap t) ∧
  notifications t' = notifications t ++
    (if sv_state info =? stateOfInfo i then [] else [notification time key newState info t]) ∧
  st_field t' = st_field t ∧ mListeners t' = mListeners t ∧
  danglingWrites t' = (danglingWrites t +
    if (negb nested && (int_of newState =? kStateUnknown))%Z then 1 else 0)%nat.
Proof.
  intros i t'. subst i t'. unfold updateStateForPrimaryKey, next, stateOfInfo, int_of, writeInfo, notification.
  set (new := default 0 (int_value (fv_value newState))).
  destruct (Z.eqb_spec new kStateUnknown) as [->|Hn].
  - simpl. destruct nested; simpl; destruct (Z.eqb_spec (sv_state info) kStateUnknown); simpl;
      rewrite ?app_nil_r, ?Nat.add_0_r, ?Nat.add_1_r; done.
  - destruct nested; simpl; rewrite ?Nat.add_0_r.
    + destruct (Z.eqb_spec (sv_state info) kStateUnknown) as [E|E]; simpl.
      * rewrite E. rewrite (proj2 (Z.eqb_neq kStateUnknown new)) by congruence. done.
      * destruct (Z.eqb_spec (sv_state info) new) as [E'|E']; simpl.
        { rewrite E', Z.eqb_refl, app_nil_r. done. }
        destruct (Z.eqb_spec (sv_count info - 1) 0); simpl.
        { by rewrite (proj2 (Z.eqb_neq _ _) E'). }
        { by rewrite Z.eqb_refl, app_nil_r. }
    + destruct (Z.eqb_spec (sv_state info) new); simpl; by rewrite ?app_nil_r.
Qed.

Lemma updated_map_find key i m k :
  um_find k (updated_map key i m) = if key_eqb key k then i else um_find k m.
Proof.
  destruct i as [i|]; simpl; destruct (key_eqb key k) eqn:E.
  - by rewrite um_find_set_eq.
  - by rewrite um_find_set_ne.
  - by rewrite um_find_erase_eq.
  - by rewrite um_find_erase_ne.
Qed.

Lemma um_set_elem_pair (k : HashableDimensionKey) (v : StateValueInfo) m p :
  p ∈ um_set k v m → p.2 = v ∧ (p.1 = k ∨ ∃ v', (p.1, v') ∈ m) ∨ p ∈ m.
Proof.
  induction m as [|[k1 v1] m IH]; simpl.
  - intros ->%list_elem_of_singleton. left. split; [done|by left].
  - destruct (key_eqb k k1).
    + intros [->|H]%elem_of_cons; [|right; by right]. left. split; [done|]. right. exists v1. by left.
    + intros [->|H]%elem_of_cons; [right; by left|].
      destruct (IH H) as [[? [?|[v' ?]]]|]; [left; split; auto|left; split; [done|]|right; by right].
      right. exists v'. by right.
Qed.

Lemma updated_map_ok key i t t' :
  state_ok t → key =k key →
  (∀ j, i = Some j → sv_state j ≠ kStateUnknown ∧ 1 <= sv_count j) →
  mStateMap t' = updated_map key i (mStateMap t) → state_ok t'.
Proof.
  intros [Hw Hk Hc Hr] Hkey Hi E. destruct i as [i|]; simpl in E.
  - destruct (Hi i eq_refl) as [H1 H2]. split; rewrite E; [by apply um_wf_set|..];
      intros k j Hin; destruct (um_set_elem_pair _ _ _ _ Hin) as [[E1 E2]|Hin']; simpl in *; eauto;
      subst; try done.
    destruct E2 as [->|[v' ?]]; eauto.
  - split; rewrite E; [by apply um_wf_erase|..]; intros k j Hin; unfold um_erase in Hin;
      rewrite list_elem_of_In in Hin; apply filter_In in Hin as [Hin _];
      rewrite <- list_elem_of_In in Hin; eauto.
Qed.

Lemma next_ok nested info new j :
  (sv_state info ≠ kStateUnknown → 1 <= sv_count info) → next nested info new = Some j →
  sv_state j ≠ kStateUnknown ∧ 1 <= sv_count j.
Proof.
  intros Hc. unfold next. destruct (Z.eqb_spec new kStateUnknown); [done|].
  destruct nested; simpl; [|by intros [= <-]].
  destruct (Z.eqb_spec (sv_state info) kStateUnknown); [by intros [= <-]|].
  specialize (Hc n0). destruct (Z.eqb_spec (sv_state info) new); [intros [= <-]; simpl; split; [done|lia]|].
  destruct (Z.eqb_spec (sv_count info - 1) 0); intros [= <-]; simpl; split; try done; lia.
Qed.

(** The notifications [ns] are exactly the changes of visible state from [t] to [t']. *)
Definition reports_changes (t t' : StateTracker) (ns : list Notification) : Prop :=
  notifications t' = notifications t ++ ns ∧
  (∀ n, n ∈ ns → fv_value (nt_old n) = VINT (stateOf t (nt_key n)) ∧
     int_value (fv_value (nt_new n)) = Some (stateOf t' (nt_key n)) ∧
     stateOf t (nt_key n) ≠ stateOf t' (nt_key n) ∧ nt_listeners n = mListeners t) ∧
  (∀ k, stateOf t k ≠ stateOf t' k → ∃ n, n ∈ ns ∧ nt_key n =k k).

Lemma stateOf_find t k : stateOf t k = stateOfInfo (um_find k (mStateMap t)).
Proof. done. Qed.

Lemma next_changes nested info new : 
  sv_state info ≠ stateOfInfo (next nested info new) → stateOfInfo (next nested info new) = new.
Proof.
  unfold next, stateOfInfo. destruct (Z.eqb_spec new kStateUnknown) as [->|]; [done|].
  destruct nested; simpl; [|done].
  destruct (Z.eqb_spec (sv_state info) kStateUnknown); [done|].
  destruct (Z.eqb_spec (sv_state info) new); [done|].
  destruct (Z.eqb_spec (sv_count info - 1) 0); simpl; done.
Qed.

(** An update of one key, from the entry (or default entry) it has in [t0]. *)
Lemma update_reports time key newState nested t0 t v :
  state_ok t0 → key =k key → int_value (fv_value newState) = Some v →
  (∀ k, key_eqb key k = false → um_find k (mStateMap t) = um_find k (mStateMap t0)) →
  notifications t = notifications t0 → mListeners t = mListeners t0 →
  let info := um_get StateValueInfo_default key (mStateMap t0) in
  let t' := updateStateForPrimaryKey time key newState nested info t in
  (∃ ns, reports_changes t0 t' ns) ∧
  (∀ k, um_find k (mStateMap t') = if key_eqb key k then next nested info v else um_find k (mStateMap t0)).
Proof.
  intros Hok Hk Hv Hother Hnt Hl info t'.
  destruct (update_spec time key newState nested info t) as (Hm & Hn & _ & Hl' & _).
  assert (Hi : int_of newState = v) by (unfold int_of; by rewrite Hv). rewrite Hi in *.
  assert (Hfind : ∀ k, um_find k (mStateMap t') =
    if key_eqb key k then next nested info v else um_find k (mStateMap t0)).
  { intros k. unfold t'. rewrite Hm, updated_map_find. destruct (key_eqb key k) eqn:E; auto. }
  split; [|done]. eexists. unfold reports_changes. unfold t' at 1. rewrite Hn, Hnt.
  split_and!; [done| |].
  - intros n Hin. destruct (Z.eqb_spec (sv_state info) (stateOfInfo (next nested info v))) as [E|E];
      [by apply not_elem_of_nil in Hin|].
    apply list_elem_of_singleton in Hin as ->. simpl.
    rewrite Hv, !stateOf_find, Hfind, Hk, Hl. split_and!; [done| |done|done].
    f_equal. symmetry. by apply (next_changes nested info v).
  - intros k. rewrite !stateOf_find, Hfind. destruct (key_eqb key k) eqn:E; [|done].
    intros Hne. exists (notification time key newState info t). split; [|done].
    rewrite <- (um_find_cong key k) in Hne by done. fold (um_get StateValueInfo_default key (mStateMap t0)) in Hne.
    rewrite (proj2 (Z.eqb_neq (sv_state info) _)); [by left|done].
Qed.

(** The reset loop over the entries [l]. *)
Lemma reset_loop time newState v l : ∀ t,
  int_value (fv_value newState) = Some v → v ≠ kStateUnknown → um_wf l →
  (∀ k i, (k, i) ∈ l → k =k k) →
  let t' := foldl (λ t entry, updateStateForPrimaryKey time entry.1 newState false entry.2 t) t l in
  notifications t' = notifications t ++
    flat_map (λ e, if sv_state e.2 =? v then [] else [notification time e.1 newState e.2 t]) l ∧
  st_field t' = st_field t ∧ mListeners t' = mListeners t ∧
  (∀ k, um_find k (mStateMap t') =
    if um_mem k l then Some (mkStateValueInfo v 1) else um_find k (mStateMap t)).
Proof.
  induction l as [|[k0 i0] l IH]; intros t Hv Hne Hw Hr; cbn [foldl flat_map].
  { by rewrite app_nil_r. }
  destruct Hw as [Hn Hw]. cbn [fst snd].
  destruct (update_spec time k0 newState false i0 t) as (Hm & Hnt & Hf & Hl & _).
  assert (Hi : int_of newState = v) by (unfold int_of; by rewrite Hv). rewrite Hi in *.
  assert (Hnext : next false i0 v = Some (mkStateValueInfo v 1)).
  { unfold next. by rewrite (proj2 (Z.eqb_neq _ _) Hne). }
  rewrite Hnext in *. set (t1 := updateStateForPrimaryKey time k0 newState false i0 t) in *.
  destruct (IH t1 Hv Hne Hw) as (Hnt2 & Hf2 & Hl2 & Hfind).
  { intros k i Hin. eapply Hr. by right. }
  split_and!; [|congruence|congruence|].
  - rewrite Hnt2, Hnt, <- app_assoc. unfold stateOfInfo. simpl. f_equal. f_equal.
    unfold notification. by rewrite Hf, Hl.
  - intros k. rewrite Hfind, Hm, updated_map_find. unfold um_mem. cbn [um_find].
    rewrite (key_eqb_comm k k0). destruct (key_eqb k0 k) eqn:E; [|done].
    by destruct (um_find k l).
Qed.

Lemma flat_map_elem {A B} (f : A → list B) l y : y ∈ flat_map f l ↔ ∃ x, x ∈ l ∧ y ∈ f x.
Proof. rewrite list_elem_of_In, in_flat_map. by setoid_rewrite list_elem_of_In. Qed.

Lemma reset_reports time newState v t :
  state_ok t → int_value (fv_value newState) = Some v → v ≠ kStateUnknown →
  ∃ ns, reports_changes t (handleReset time newState t) ns.
Proof.
  intros Hok Hv Hne. unfold handleReset.
  destruct (reset_loop time newState v (mStateMap t) t Hv Hne (sk_wf t Hok) (sk_refl t Hok))
    as (Hn & _ & _ & Hfind). set (t' := foldl _ t _) in *.
  eexists. split; [exact Hn|]. split.
  - intros n ([k i] & Hin & Hn')%flat_map_elem. simpl in Hn'.
    destruct (Z.eqb_spec (sv_state i) v) as [|Hd]; [by apply not_elem_of_nil in Hn'|].
    apply list_elem_of_singleton in Hn' as ->. simpl. pose proof (sk_refl t Hok k i Hin) as Hk.
    pose proof (um_find_elem_wf k k i _ (sk_wf t Hok) Hin Hk) as Hf.
    rewrite !stateOf_find, Hfind. unfold um_mem. rewrite Hf, Hv. done.
  - intros k. rewrite !stateOf_find, Hfind. unfold um_mem.
    destruct (um_find k (mStateMap t)) as [i|] eqn:Hf; [|done]. simpl. intros Hd.
    apply um_find_elem in Hf as (k' & Hin & Hk). exists (notification time k' newState i t).
    split; [|by apply key_eqb_sym]. apply flat_map_elem. exists (k', i). split; [done|]. simpl.
    unfold stateOfInfo in Hd. simpl in Hd. rewrite (proj2 (Z.eqb_neq _ _)); [by left|done].
Qed.

(** An event tells the listeners exactly the keys whose visible state it changed, each
    with its old and its new state, in all three cases of an event: a new state (counted or
    not), a reset of every key, and an event without a usable state. *)
Theorem state_changes_notified event t :
  state_ok t →
  let pk := (filterPrimaryKey (getValues event) (mkKey [])).2 in pk =k pk →
  ∃ ns, reports_changes t (onLogEvent event t) ns.
Proof.
  intros Hok pk Hk. unfold onLogEvent. fold pk.
  assert (Hclear : ∀ t1, mStateMap t1 = mStateMap t → notifications t1 = notifications t →
    mListeners t1 = mListeners t →
    ∃ ns, reports_changes t (clearStateForPrimaryKey (GetElapsedTimestampNs event) pk t1) ns).
  { intros t1 Hm Hn Hl. unfold clearStateForPrimaryKey. rewrite Hm.
    destruct (um_find pk (mStateMap t)) as [info|] eqn:Hf.
    - destruct (update_reports (GetElapsedTimestampNs event) pk
        (FieldValue_of (st_field t1) (VINT kStateUnknown)) false t t1 kStateUnknown) as [H _];
        try done; [by intros; rewrite Hm|]. unfold um_get in H. by rewrite Hf in H.
    - exists []. split; [by rewrite app_nil_r|]. split; [by intros n ?%not_elem_of_nil|].
      intros k. rewrite !stateOf_find, Hm. done. }
  destruct (getStateFieldValueFromLogEvent event) as [newState|]; [|by apply Hclear].
  set (t1 := set_stateField _ t).
  destruct (int_value (fv_value newState)) as [v|] eqn:Hv; [|by apply Hclear].
  destruct (Z.eqb_spec (getResetState event) (-1)) as [|Hr]; cbn [negb].
  - apply (update_reports (GetElapsedTimestampNs event) pk newState
      (isNested (fv_annotations newState)) t _ v); try done.
    intros k E. simpl. unfold um_insert. destruct (um_mem pk (mStateMap t)); [done|].
    by rewrite um_find_set_ne.
  - destruct (reset_reports (GetElapsedTimestampNs event)
      (FieldValue_of (st_field t1) (VINT (getResetState event))) (getResetState event) t1)
      as [ns H]; try done.
    + by destruct Hok as [????]; split.
    + exists ns. exact H.
Qed.

Definition exampleStateEvent (pk state : Z) : LogEvent :=
  mkLogEvent 20 1000 100
    [mkFieldValue (mkField 20 (getSimpleField 1)) (VINT pk) 2;
     mkFieldValue (mkField 20 (getSimpleField 2)) (VINT state) 5] 1 (-1) false.

Definition exampleStateKey : HashableDimensionKey :=
  (filterPrimaryKey (getValues (exampleStateEvent 7 1)) (mkKey [])).2.

Lemma StateTracker_new_ok atomId : state_ok (StateTracker_new atomId).
Proof. split; simpl; [done|..]; by intros k i ?%not_elem_of_nil. Qed.

Lemma state_changes_notified_witness :
  ∃ ns, reports_changes (StateTracker_new 20)
    (onLogEvent (exampleStateEvent 7 1) (StateTracker_new 20)) ns ∧ length ns = 1%nat.
Proof.
  destruct (state_changes_notified (exampleStateEvent 7 1) (StateTracker_new 20)) as [ns H].
  - apply StateTracker_new_ok.
  - vm_compute. reflexivity.
  - exists ns. split; [exact H|]. destruct H as [H _].
    change (notifications (StateTracker_new 20)) with (@nil Notification) in H.
    rewrite app_nil_l in H. rewrite <- H. vm_compute. reflexivity.
Defined.

(** ** Nested states *)

(** An event of key [pk] with nested state [v]. *)
Definition nested_event (pk : HashableDimensionKey) (v : Z) (e : LogEvent) : Prop :=
  (filterPrimaryKey (getValues e) (mkKey [])).2 = pk ∧ getResetState e = -1 ∧
  ∃ newState, getStateFieldValueFromLogEvent e = Some newState ∧ fv_value newState = VINT v ∧
    isNested (fv_annotations newState) = true.

Lemma nested_event_step pk v e t :
  nested_event pk v e → pk =k pk →
  um_find pk (mStateMap (onLogEvent e t)) =
  next true (um_get StateValueInfo_default pk (mStateMap t)) v.
Proof.
  intros (Hpk & Hr & newState & Hs & Hv & Hn) Hk. unfold onLogEvent.
  rewrite Hpk, Hs, Hv. simpl. rewrite Hr, Hn. simpl.
  edestruct update_spec as (Hm & _). rewrite Hm, updated_map_find, Hk. unfold int_of. by rewrite Hv.
Qed.

(** The entry of a binary state as one number: the surplus of [on] over [off]. *)
Definition surplus (on off w : Z) : StateValueInfo :=
  if 0 <=? w then mkStateValueInfo on (w + 1) else mkStateValueInfo off (- w).

Lemma surplus_next on off w (b : bool) :
  on ≠ off → on ≠ kStateUnknown → off ≠ kStateUnknown →
  next true (surplus on off w) (if b then on else off) =
  Some (surplus on off (if b then w + 1 else w - 1)).
Proof.
  intros Hd H1 H2. unfold next, surplus.
  rewrite (proj2 (Z.eqb_neq (if b then on else off) kStateUnknown)) by by destruct b.
  destruct (Z.leb_spec 0 w); simpl.
  - rewrite (proj2 (Z.eqb_neq on kStateUnknown)) by done. destruct b.
    + rewrite Z.eqb_refl. by destruct (Z.leb_spec 0 (w + 1)); [|lia].
    + rewrite (proj2 (Z.eqb_neq on off)) by done.
      destruct (Z.eqb_spec (w + 1 - 1) 0), (Z.leb_spec 0 (w - 1)); try lia; do 2 f_equal; lia.
  - rewrite (proj2 (Z.eqb_neq off kStateUnknown)) by done. destruct b.
    + rewrite (proj2 (Z.eqb_neq off on)) by done.
      destruct (Z.eqb_spec (- w - 1) 0), (Z.leb_spec 0 (w + 1)); try lia; do 2 f_equal; lia.
    + rewrite Z.eqb_refl. destruct (Z.leb_spec 0 (w - 1)); [lia|]. do 2 f_equal. lia.
Qed.

Definition balance (bs : list bool) : Z := sumZ ((λ b : bool, if b then 1 else -1) <$> bs).

Lemma nested_run pk on off : ∀ es bs t w,
  on ≠ off → on ≠ kStateUnknown → off ≠ kStateUnknown → pk =k pk →
  Forall2 (λ (b : bool) e, nested_event pk (if b then on else off) e) bs es →
  um_find pk (mStateMap t) = Some (surplus on off w) →
  um_find pk (mStateMap (foldl (λ t e, onLogEvent e t) t es)) =
  Some (surplus on off (w + balance bs)).
Proof.
  induction es as [|e es IH]; intros bs t w Hd H1 H2 Hk Hes Hf;
    inversion Hes as [|b ? bs' ? He Hes']; subst.
  - unfold balance. simpl. by rewrite Z.add_0_r.
  - cbn [foldl]. rewrite (IH bs' (onLogEvent e t) (if b then w + 1 else w - 1)); try done.
    + unfold balance. rewrite fmap_cons, sumZ_cons. do 2 f_equal. destruct b; lia.
    + rewrite (nested_event_step pk (if b then on else off)) by done.
      unfold um_get. rewrite Hf. simpl. by apply surplus_next.
Qed.

(** A nested binary state (on/off) counts opposite events: after a first event [b0] and
    further events [bs], the key is on exactly when the surplus of on events over off events
    since the first one has not been used up. *)
Theorem nested_state_counts pk on off b0 bs e0 es atomId :
  on ≠ off → on ≠ kStateUnknown → off ≠ kStateUnknown → pk =k pk →
  Forall2 (λ (b : bool) e, nested_event pk (if b then on else off) e) (b0 :: bs) (e0 :: es) →
  stateOf (foldl (λ t e, onLogEvent e t) (StateTracker_new atomId) (e0 :: es)) pk =
  if 0 <=? (if b0 then 0 else -1) + balance bs then on else off.
Proof.
  intros Hd H1 H2 Hk Hes. inversion Hes as [|? ? ? ? He Hes']; subst.
  rewrite stateOf_find. cbn [foldl].
  rewrite (nested_run pk on off es bs _ (if b0 then 0 else -1)); try done.
  - unfold surplus. by destruct (0 <=? _).
  - rewrite (nested_event_step pk (if b0 then on else off)) by done.
    unfold next. simpl. rewrite (proj2 (Z.eqb_neq _ kStateUnknown)) by by destruct b0.
    by destruct b0.
Qed.

Lemma nested_state_counts_witness :
  stateOf (foldl (λ t e, onLogEvent e t) (StateTracker_new 20)
    [exampleStateEvent 7 1; exampleStateEvent 7 1; exampleStateEvent 7 0]) exampleStateKey = 1.
Proof.
  rewrite (nested_state_counts exampleStateKey 1 0 true [true; false] (exampleStateEvent 7 1)
    [exampleStateEvent 7 1; exampleStateEvent 7 0] 20).
  - reflexivity.
  - lia.
  - unfold kStateUnknown. lia.
  - unfold kStateUnknown. lia.
  - vm_compute. reflexivity.
  - assert (H : ∀ b : bool, nested_event exampleStateKey (if b then 1 else 0)
      (exampleStateEvent 7 (if b then 1 else 0))).
    { intros b. split; [by destruct b; vm_compute|]. split; [done|].
      eexists. split; [reflexivity|]. split; [by destruct b|done]. }
    constructor; [exact (H true)|]. constructor; [exact (H true)|].
    constructor; [exact (H false)|]. constructor.
Defined.

(** Clearing the state of a tracked key erases its entry from the map and then writes through
    the pointer into that entry: a write to freed memory. *)
Theorem clear_writes_erased_entry time key t info :
  um_find key (mStateMap t) = Some info →
  danglingWrites (clearStateForPrimaryKey time key t) = S (danglingWrites t).
Proof.
  intros Hf. unfold clearStateForPrimaryKey. rewrite Hf.
  edestruct update_spec as (_ & _ & _ & _ & Hd). rewrite Hd. simpl. lia.
Qed.

Lemma clear_writes_erased_entry_witness :
  danglingWrites (clearStateForPrimaryKey 5 DEFAULT_DIMENSION_KEY
    (set_stateMap [(DEFAULT_DIMENSION_KEY, mkStateValueInfo 2 1)] (StateTracker_new 10))) = 1%nat.
Proof.
  apply (clear_writes_erased_entry 5 DEFAULT_DIMENSION_KEY
    (set_stateMap [(DEFAULT_DIMENSION_KEY, mkStateValueInfo 2 1)] (StateTracker_new 10))
    (mkStateValueInfo 2 1)).
  reflexivity.
Defined.

(** ** The manager *)

Inductive ManagerOp :=
  | MgRegister (atomId listener : Z)
  | MgUnregister (atomId listener : Z)
  | MgEvent (event : LogEvent)
  | MgSources (uids : string → list Z)
  | MgClear.

Definition manager_op (op : ManagerOp) (m : StateManager) : StateManager :=
  match op with
  | MgRegister a l => manager_registerListener a l m
  | MgUnregister a l => manager_unregisterListener a l m
  | MgEvent e => manager_onLogEvent e m
  | MgSources f => updateLogSources f m
  | MgClear => manager_clear m
  end.

(** The registrations the operations amount to. *)
Definition registered_op (op : ManagerOp) (r : gset (Z * Z)) : gset (Z * Z) :=
  match op with
  | MgRegister a l => r ∪ {[(a, l)]}
  | MgUnregister a l => r ∖ {[(a, l)]}
  | MgClear => ∅
  | _ => r
  end.

Definition manager_ok (r : gset (Z * Z)) (m : StateManager) : Prop :=
  ∀ a, match mStateTrackers m !! a with
       | None => ∀ l, (a, l) ∉ r
       | Some t => (∀ l, l ∈ mListeners t ↔ (a, l) ∈ r) ∧ mListeners t ≠ ∅
       end.

Lemma update_listeners time key ns nested info t :
  mListeners (updateStateForPrimaryKey time key ns nested info t) = mListeners t.
Proof. by edestruct update_spec as (_ & _ & _ & -> & _). Qed.

Lemma reset_listeners time ns l : ∀ t,
  mListeners (foldl (λ t entry, updateStateForPrimaryKey time entry.1 ns false entry.2 t) t l)
  = mListeners t.
Proof.
  induction l as [|x l IH]; intros t; [done|]. cbn [foldl]. by rewrite IH, update_listeners.
Qed.

Lemma onLogEvent_listeners e t : mListeners (onLogEvent e t) = mListeners t.
Proof.
  assert (Hc : ∀ time k t, mListeners (clearStateForPrimaryKey time k t) = mListeners t).
  { intros time k t'. unfold clearStateForPrimaryKey. destruct (um_find k _) as [i|]; [|done].
    apply update_listeners. }
  unfold onLogEvent. destruct (getStateFieldValueFromLogEvent e) as [ns|]; [|apply Hc].
  destruct (int_value (fv_value ns)); [|by rewrite Hc]. destruct (negb _).
  - unfold handleReset. by rewrite reset_listeners.
  - by rewrite update_listeners.
Qed.

Lemma manager_op_ok op r m : manager_ok r m → manager_ok (registered_op op r) (manager_op op m).
Proof.
  intros Hm. destruct op as [a l|a l|e|f|]; cbn [manager_op registered_op]; intros b;
    specialize (Hm b) as Hb.
  - unfold manager_registerListener. cbn [mStateTrackers]. destruct (decide (a = b)) as [<-|].
    + rewrite lookup_insert_eq. simpl. destruct (mStateTrackers m !! a) as [t|]; simpl.
      * split; [|set_solver]. intros l'. rewrite elem_of_union, (proj1 Hb). set_solver.
      * split; [|set_solver]. intros l'. specialize (Hb l'). set_solver.
    + rewrite lookup_insert_ne by done. destruct (mStateTrackers m !! b) as [t|].
      * split; [|apply Hb]. intros l'. rewrite (proj1 Hb). set_solver.
      * intros l'. specialize (Hb l'). set_solver.
  - unfold manager_unregisterListener. destruct (decide (a = b)) as [<-|Hne].
    + destruct (mStateTrackers m !! a) as [t|] eqn:Ht; simpl.
      * destruct Hb as [Hl Hne]. unfold getListenersCount. simpl.
        destruct (Nat.eqb_spec (size (mListeners t ∖ {[l]})) 0) as [Hs|Hs].
        -- rewrite lookup_delete_eq. apply size_empty_inv in Hs. intros l' Hin.
           assert (l' ∈ mListeners t ∖ {[l]}); [|set_solver].
           apply elem_of_difference. split; [apply Hl; set_solver|set_solver].
        -- rewrite lookup_insert_eq. simpl. split.
           ++ intros l'. rewrite elem_of_difference, Hl. set_solver.
           ++ intros E. apply Hs. rewrite E. apply size_empty.
      * rewrite Ht. intros l'. specialize (Hb l'). set_solver.
    + assert (Hcase : mStateTrackers (manager_unregisterListener a l m) !! b = mStateTrackers m !! b).
      { unfold manager_unregisterListener. destruct (mStateTrackers m !! a); [|done]. simpl.
        destruct (_ =? _)%nat; [by rewrite lookup_delete_ne|by rewrite lookup_insert_ne]. }
      unfold manager_unregisterListener in Hcase. rewrite Hcase.
      destruct (mStateTrackers m !! b) as [t|].
      * split; [|apply Hb]. intros l'. rewrite (proj1 Hb). set_solver.
      * intros l'. specialize (Hb l'). set_solver.
  - unfold manager_onLogEvent. destr_if; [|done]. simpl.
    destruct (decide (GetTagId e = b)) as [<-|].
    + rewrite lookup_alter_eq. destruct (mStateTrackers m !! GetTagId e); [|done]. simpl.
      by rewrite onLogEvent_listeners.
    + by rewrite lookup_alter_ne.
  - done.
  - unfold manager_clear. cbn [mStateTrackers]. rewrite lookup_empty. intros l. apply not_elem_of_empty.
Qed.

(** The manager has a tracker for an atom exactly when some listener is registered for
    it and not yet unregistered, and that tracker has exactly those listeners. *)
Theorem manager_trackers_have_listeners ops a :
  let m := foldl (λ m op, manager_op op m) StateManager_new ops in
  let r := foldl (λ r op, registered_op op r) ∅ ops in
  match mStateTrackers m !! a with
  | None => ∀ l, (a, l) ∉ r
  | Some t => (∀ l, l ∈ mListeners t ↔ (a, l) ∈ r) ∧ mListeners t ≠ ∅
  end.
Proof.
  intros m r. assert (Hok : manager_ok r m); [|apply Hok].
  subst m r. assert (H0 : manager_ok ∅ StateManager_new).
  { intros b. cbn [mStateTrackers StateManager_new]. rewrite lookup_empty. intros l. apply not_elem_of_empty. }
  revert H0. generalize (∅ : gset (Z * Z)), StateManager_new.
  induction ops as [|op ops IH]; intros r m H0; [done|]. cbn [foldl]. apply IH.
  by apply manager_op_ok.
Qed.

(** Only events of system uids and of the allowed packages reach a tracker. *)
Lemma manager_ignores_other_uids event m :
  GetUid event ≠ AID_ROOT → ¬ (1000 <= GetUid event < 2000) →
  GetUid event ∉ mAllowedLogSources m → manager_onLogEvent event m = m.
Proof.
  intros H1 H2 H3. unfold manager_onLogEvent.
  rewrite (proj2 (Z.eqb_neq _ _) H1), (bool_decide_false _ H3), orb_false_r. simpl.
  destruct (Z.leb_spec 1000 (GetUid event)), (Z.ltb_spec (GetUid event) 2000); simpl; try done; lia.
Qed.
