(* ===== verification/MetricProducer.v ===== *)
(** * Metric producers: the part every metric shares (metrics/MetricProducer.{h,cpp})

    The virtual methods a concrete producer overrides are the class [MetricOps], and what the
    shared code relies on of an override is the class [MetricLaws].  The activations of a metric
    are objects reached both from [mEventActivationMap] and from [mEventDeactivationMap]: they
    live in a store addressed by the pointers the two maps hold. *)
From S2P Require Import Prelude UMap FieldValue DimensionKey Matchers Conditions Anomaly State.

(** ** Data *)

Inductive DumpReportReason :=
  | DEVICE_SHUTDOWN | CONFIG_UPDATED | CONFIG_REMOVED | GET_DATA_CALLED | ADB_DUMP
  | CONFIG_RESET | STATSCOMPANION_DIED | TERMINATION_SIGNAL_RECEIVED.

Inductive ActivationState := kNotActive | kActive | kActiveOnBoot.
#[export] Instance ActivationState_eq_dec : EqDecision ActivationState.
Proof. solve_decision. Defined.

Inductive ActivationType := ACTIVATION_TYPE_UNKNOWN | ACTIVATE_IMMEDIATELY | ACTIVATE_ON_BOOT.
#[export] Instance ActivationType_eq_dec : EqDecision ActivationType.
Proof. solve_decision. Defined.

Record Activation := mkActivation {
  ttl_ns : Z; start_ns : Z; act_state : ActivationState; activationType : ActivationType
}.

Definition Activation_new (type : ActivationType) (ttlNs : Z) : Activation :=
  mkActivation ttlNs 0 kNotActive type.

Definition set_state (s : ActivationState) (a : Activation) : Activation :=
  mkActivation (ttl_ns a) (start_ns a) s (activationType a).
Definition set_start (t : Z) (a : Activation) : Activation :=
  mkActivation (ttl_ns a) t (act_state a) (activationType a).

(** The activation members of a producer, with the store the pointers refer to. *)
Record Activity := mkActivity {
  mActivations : gmap nat Activation;
  mEventActivationMap : gmap Z nat;
  mEventDeactivationMap : gmap Z (list nat);
  mIsActive : bool
}.

Definition set_active (b : bool) (a : Activity) : Activity :=
  mkActivity (mActivations a) (mEventActivationMap a) (mEventDeactivationMap a) b.
Definition on_activation (p : nat) (f : Activation → Activation) (a : Activity) : Activity :=
  mkActivity (alter f p (mActivations a)) (mEventActivationMap a) (mEventDeactivationMap a)
    (mIsActive a).

(** The members that only the constructor and a configuration update write. *)
Record ProducerConfig := mkProducerConfig {
  mMetricId : Z;
  mTimeBaseNs : Z;
  mBucketSizeNs : Z;
  mConditionTrackerIndex : Z;
  mConditionSliced : bool;
  mContainANYPositionInDimensionsInWhat : bool;
  mSliceByPositionALL : bool;
  mDimensionsInWhat : list Matcher;
  mHasLinksToAllConditionDimensionsInTracker : bool;
  mMetric2ConditionLinks : list Metric2Condition;
  mSlicedStateAtoms : list Z;
  mStateGroupMap : gmap Z (gmap Z Z);
  mMetric2StateLinks : list Metric2State
}.

Record MetricProducer := mkMetricProducer {
  mConfig : ProducerConfig;
  mCurrentBucketStartTimeNs : Z;
  mCurrentBucketNum : Z;
  mCondition : ConditionState;
  mAnomalyTrackers : list AnomalyTracker;
  mActivity : Activity
}.

Definition set_bucket (start num : Z) (p : MetricProducer) : MetricProducer :=
  mkMetricProducer (mConfig p) start num (mCondition p) (mAnomalyTrackers p) (mActivity p).
Definition set_condition (c : ConditionState) (p : MetricProducer) : MetricProducer :=
  mkMetricProducer (mConfig p) (mCurrentBucketStartTimeNs p) (mCurrentBucketNum p) c
    (mAnomalyTrackers p) (mActivity p).
Definition on_anomaly_trackers (f : AnomalyTracker → AnomalyTracker) (p : MetricProducer)
    : MetricProducer :=
  mkMetricProducer (mConfig p) (mCurrentBucketStartTimeNs p) (mCurrentBucketNum p) (mCondition p)
    (f <$> mAnomalyTrackers p) (mActivity p).
Definition set_activity (a : Activity) (p : MetricProducer) : MetricProducer :=
  mkMetricProducer (mConfig p) (mCurrentBucketStartTimeNs p) (mCurrentBucketNum p) (mCondition p)
    (mAnomalyTrackers p) a.
Definition addAnomalyTracker (t : AnomalyTracker) (p : MetricProducer) : MetricProducer :=
  mkMetricProducer (mConfig p) (mCurrentBucketStartTimeNs p) (mCurrentBucketNum p) (mCondition p)
    (mAnomalyTrackers p ++ [t]) (mActivity p).

(** An index outside the cache reads past the vector; the configuration gives indices of
    existing conditions. *)
Definition initialCondition (conditionIndex : Z) (initialConditionCache : list ConditionState)
    : ConditionState :=
  if 0 <=? conditionIndex then conditionAt initialConditionCache (Z.to_nat conditionIndex)
  else kTrue.

(** The constructor: the metric starts active when no event activates it. *)
Definition MetricProducer_new (cfg : ProducerConfig) (initialConditionCache : list ConditionState)
    (activations : gmap nat Activation) (eventActivationMap : gmap Z nat)
    (eventDeactivationMap : gmap Z (list nat)) : MetricProducer :=
  mkMetricProducer cfg (mTimeBaseNs cfg) 0
    (initialCondition (mConditionTrackerIndex cfg) initialConditionCache) []
    (mkActivity activations eventActivationMap eventDeactivationMap
       (bool_decide (eventActivationMap = ∅))).

(** ** Buckets *)

Definition getCurrentBucketEndTimeNs (p : MetricProducer) : Z :=
  mTimeBaseNs (mConfig p) + (mCurrentBucketNum p + 1) * mBucketSizeNs (mConfig p).

Definition getBucketNumFromEndTimeNs (endNs : Z) (p : MetricProducer) : Z :=
  Z.quot (endNs - mTimeBaseNs (mConfig p)) (mBucketSizeNs (mConfig p)) - 1.

Inductive TimeUnit :=
  | TIME_UNIT_UNSPECIFIED | ONE_MINUTE | FIVE_MINUTES | TEN_MINUTES | THIRTY_MINUTES | ONE_HOUR
  | THREE_HOURS | SIX_HOURS | TWELVE_HOURS | ONE_DAY | ONE_WEEK | CTS.

Definition TimeUnitToBucketSizeInMillis (unit_ : TimeUnit) : Z :=
  match unit_ with
  | ONE_MINUTE => 60 * 1000
  | FIVE_MINUTES => 5 * 60 * 1000
  | TEN_MINUTES => 10 * 60 * 1000
  | THIRTY_MINUTES => 30 * 60 * 1000
  | ONE_HOUR => 60 * 60 * 1000
  | THREE_HOURS => 3 * 60 * 60 * 1000
  | SIX_HOURS => 6 * 60 * 60 * 1000
  | TWELVE_HOURS => 12 * 60 * 60 * 1000
  | ONE_DAY => 24 * 60 * 60 * 1000
  | ONE_WEEK => 7 * 24 * 60 * 60 * 1000
  | CTS => 1000
  | TIME_UNIT_UNSPECIFIED => -1
  end.

Definition AID_SHELL : Z := 2000.

Definition TimeUnitToBucketSizeInMillisGuardrailed (uid : Z) (unit_ : TimeUnit) : Z :=
  let bucketSizeMillis := TimeUnitToBucketSizeInMillis unit_ in
  if (1000 <? bucketSizeMillis) && (bucketSizeMillis <? 5 * 60 * 1000)
     && negb (uid =? AID_SHELL) && negb (uid =? AID_ROOT)
  then 5 * 60 * 1000 else bucketSizeMillis.

(** ** State values *)

(** [queryStateValue]: [uninit] is the field number a default constructed [Field] holds. *)
Definition queryStateValue (uninit : Z) (m : StateManager) (atomId : Z)
    (queryKey : HashableDimensionKey) : FieldValue :=
  match manager_getStateValue atomId queryKey m with
  | (true, Some value) => value
  | (_, Some value) =>
      mkFieldValue (setTag (fv_field value) atomId) (VINT kStateUnknown) (fv_annotations value)
  | (_, None) => FieldValue_of (mkField atomId uninit) (VINT kStateUnknown)
  end.

Definition mapStateValue (cfg : ProducerConfig) (atomId : Z) (value : FieldValue) : FieldValue :=
  match mStateGroupMap cfg !! atomId with
  | None => value
  | Some groups =>
      let v :=
        match int_value (fv_value value) ≫= (λ i, groups !! i) with
        | Some group => VLONG group
        | None => VINT kStateUnknown
        end in
      mkFieldValue (fv_field value) v (fv_annotations value)
  end.

Definition getUnknownStateKey (uninit : Z) (cfg : ProducerConfig) : HashableDimensionKey :=
  mkKey ((λ atom, FieldValue_of (mkField atom uninit) (VINT kStateUnknown))
         <$> mSlicedStateAtoms cfg).

(** ** What a producer asks of the condition wizard *)

Class ConditionWizardOps (W : Type) :=
  wizard_query : W → Z → ConditionKey → bool → ConditionState.

(** The wizard holds the vector of condition trackers; an index outside it is unknown.  The
    fuel is above the depth of any acyclic vector of trackers. *)
#[export] Instance condition_trackers_wizard : ConditionWizardOps (list ConditionTracker) :=
  λ ts index params partial,
    if (0 <=? index) && (index <? Z.of_nat (length ts)) then
      default kUnknown (query params partial ts (S (length ts)) (Z.to_nat index))
    else kUnknown.

(** ** The virtual methods of a producer *)

(** [MetricProducer::onActiveStateChangedLocked], which a producer may override, for a producer with
    the given flushes: a metric that has become inactive closes its current bucket. *)
Definition base_onActiveStateChangedLocked {P : Type} (base : P → MetricProducer)
    (flushIfNeeded : Z → P → P) (flushCurrentBucket : Z → Z → P → P) (eventTimeNs : Z) (p : P) : P :=
  if mIsActive (mActivity (base p)) then p
  else flushCurrentBucket eventTimeNs eventTimeNs (flushIfNeeded eventTimeNs p).

Class MetricOps (P : Type) := {
  base : P → MetricProducer;
  set_base : MetricProducer → P → P;
  flushIfNeededLocked : Z → P → P;
  flushCurrentBucketLocked : Z → Z → P → P;
  onActiveStateChangedLocked : Z → P → P;
  onMatchedLogEventInternalLocked :
    nat → MetricDimensionKey → ConditionKey → bool → LogEvent → gmap Z HashableDimensionKey →
    P → P
}.

(** What the shared code relies on: the overrides leave the activations alone. *)
Class MetricLaws (P : Type) `{MetricOps P} : Prop := {
  base_set_base b p : base (set_base b p) = b;
  flushIfNeeded_activity t p : mActivity (base (flushIfNeededLocked t p)) = mActivity (base p);
  flushCurrentBucket_activity t n p :
    mActivity (base (flushCurrentBucketLocked t n p)) = mActivity (base p);
  onActiveStateChanged_activity t p :
    mActivity (base (onActiveStateChangedLocked t p)) = mActivity (base p);
  matched_activity i k ck c e pk p :
    mActivity (base (onMatchedLogEventInternalLocked i k ck c e pk p)) = mActivity (base p)
}.

(** One entry of the save file: [ActiveEventActivation]. *)
Inductive SavedState := SAVED_ACTIVE | SAVED_ACTIVATE_ON_BOOT.
Record ActiveEventActivation := mkActiveEventActivation {
  atom_matcher_index : Z; remaining_ttl_nanos : Z; saved_state : option SavedState
}.

Section producer.
Context {P : Type} `{MetricOps P}.

Definition activity (p : P) : Activity := mActivity (base p).
Definition on_activity (f : Activity → Activity) (p : P) : P :=
  set_base (set_activity (f (activity p)) (base p)) p.

Definition flushLocked (eventTimeNs : Z) (p : P) : P :=
  flushCurrentBucketLocked eventTimeNs eventTimeNs (flushIfNeededLocked eventTimeNs p).

Definition notifyAppUpgrade (eventTimeNs : Z) (p : P) : P := flushLocked eventTimeNs p.
Definition onStatsdInitCompleted (eventTimeNs : Z) (p : P) : P := flushLocked eventTimeNs p.

(** *** Activations *)

(** One iteration of the loop of [evaluateActiveStateLocked]. *)
Definition expireStep (elapsedTimestampNs : Z) (s : gmap nat Activation * bool) (p : nat)
    : gmap nat Activation * bool :=
  let (store, isActive) := s in
  match store !! p with
  | None => s
  | Some a =>
      let a :=
        if bool_decide (act_state a = kActive)
           && (ttl_ns a + start_ns a <? elapsedTimestampNs)
        then set_state kNotActive a else a in
      (<[p := a]> store, isActive || bool_decide (act_state a = kActive))
  end.

Definition evaluateActiveStateLocked (elapsedTimestampNs : Z) (a : Activity) : bool * Activity :=
  let (store, isActive) :=
    foldl (expireStep elapsedTimestampNs)
      (mActivations a, bool_decide (mEventActivationMap a = ∅))
      ((map_to_list (mEventActivationMap a)).*2) in
  (isActive,
   mkActivity store (mEventActivationMap a) (mEventDeactivationMap a) (mIsActive a)).

Definition flushIfExpire (elapsedTimestampNs : Z) (p : P) : P :=
  if negb (mIsActive (activity p)) then p
  else
    let (isActive, a) := evaluateActiveStateLocked elapsedTimestampNs (activity p) in
    let p := on_activity (λ _, set_active isActive a) p in
    if isActive then p else onActiveStateChangedLocked elapsedTimestampNs p.

Definition activateLocked (activationTrackerIndex elapsedTimestampNs : Z) (p : P) : P :=
  let a := activity p in
  match mEventActivationMap a !! activationTrackerIndex with
  | None => p
  | Some ptr =>
      match mActivations a !! ptr with
      | None => p
      | Some activation =>
          if bool_decide (activationType activation = ACTIVATE_ON_BOOT) then
            if bool_decide (act_state activation = kNotActive) then
              on_activity (on_activation ptr (set_state kActiveOnBoot)) p
            else p
          else
            let p' := on_activity (λ a, set_active true
              (on_activation ptr (λ x, set_state kActive (set_start elapsedTimestampNs x)) a)) p in
            if mIsActive a then p' else onActiveStateChangedLocked elapsedTimestampNs p'
      end
  end.

Definition cancelEventActivationLocked (deactivationTrackerIndex : Z) (p : P) : P :=
  match mEventDeactivationMap (activity p) !! deactivationTrackerIndex with
  | None => p
  | Some ptrs =>
      on_activity (λ a, foldl (λ a ptr, on_activation ptr (set_state kNotActive) a) a ptrs) p
  end.

(** One saved activation of [loadActiveMetricLocked]. *)
Definition loadActivation (currentTimeNs : Z) (a : Activity) (saved : ActiveEventActivation)
    : Activity :=
  match mEventActivationMap a !! atom_matcher_index saved with
  | None => a
  | Some ptr =>
      match saved_state saved with
      | None | Some SAVED_ACTIVE =>
          set_active true (on_activation ptr (λ x, set_state kActive
            (set_start (currentTimeNs + remaining_ttl_nanos saved - ttl_ns x) x)) a)
      | Some SAVED_ACTIVATE_ON_BOOT => on_activation ptr (set_state kActiveOnBoot) a
      end
  end.

Definition loadActiveMetricLocked (activeMetric : list ActiveEventActivation)
    (currentTimeNs : Z) (p : P) : P :=
  if bool_decide (mEventActivationMap (activity p) = ∅) then p
  else on_activity (λ a, foldl (loadActivation currentTimeNs) a activeMetric) p.

(** The message one activation is saved as, if it is saved. *)
Definition saveActivation (currentTimeNs : Z) (reason : DumpReportReason) (index : Z)
    (a : Activation) : option ActiveEventActivation :=
  match act_state a with
  | kNotActive => None
  | kActive =>
      if start_ns a + ttl_ns a <? currentTimeNs then None
      else Some (mkActiveEventActivation index (start_ns a + ttl_ns a - currentTimeNs)
                   (Some SAVED_ACTIVE))
  | kActiveOnBoot =>
      Some match reason with
           | DEVICE_SHUTDOWN | TERMINATION_SIGNAL_RECEIVED =>
               mkActiveEventActivation index (ttl_ns a) (Some SAVED_ACTIVE)
           | STATSCOMPANION_DIED =>
               mkActiveEventActivation index 0 (Some SAVED_ACTIVATE_ON_BOOT)
           | _ => mkActiveEventActivation index 0 None
           end
  end.

(** [writeActiveMetricToProtoOutputStream]: the repeated activation messages. *)
Definition writeActiveMetricToProtoOutputStream (currentTimeNs : Z) (reason : DumpReportReason)
    (p : P) : list ActiveEventActivation :=
  omap (λ '(index, ptr),
          a ← mActivations (activity p) !! ptr; saveActivation currentTimeNs reason index a)
    (map_to_list (mEventActivationMap (activity p))).

(** *** Matched events *)

Context {W : Type} `{!ConditionWizardOps W}.

Definition conditionKeyOf (links : list Metric2Condition) (values : list FieldValue)
    : ConditionKey :=
  foldl (λ (ck : ConditionKey) link,
    <[mc_conditionId link :=
        getDimensionForCondition values link (default (mkKey []) (ck !! mc_conditionId link))]> ck)
    ∅ links.

Definition statePrimaryKeysOf (links : list Metric2State) (values : list FieldValue)
    : gmap Z HashableDimensionKey :=
  foldl (λ (m : gmap Z HashableDimensionKey) link,
    <[ms_stateAtomId link :=
        getDimensionForState values link (default (mkKey []) (m !! ms_stateAtomId link))]> m)
    ∅ links.

(** The values of the sliced states for an event. *)
Definition stateValuesKeyOf (uninit : Z) (m : StateManager) (cfg : ProducerConfig)
    (statePrimaryKeys : gmap Z HashableDimensionKey) : HashableDimensionKey :=
  mkKey ((λ atomId,
    mapStateValue cfg atomId
      (queryStateValue uninit m atomId
         (default DEFAULT_DIMENSION_KEY (statePrimaryKeys !! atomId))))
    <$> mSlicedStateAtoms cfg).

Definition onMatchedLogEventLocked (uninit : Z) (m : StateManager) (wizard : W)
    (matcherIndex : nat) (event : LogEvent) (p : P) : P :=
  let b := base p in
  let cfg := mConfig b in
  if negb (mIsActive (mActivity b)) then p
  else if GetElapsedTimestampNs event <? mTimeBaseNs cfg then p
  else
    let conditionKey :=
      if mConditionSliced cfg then conditionKeyOf (mMetric2ConditionLinks cfg) (getValues event)
      else ∅ in
    let condition :=
      if mConditionSliced cfg then
        bool_decide (wizard_query wizard (mConditionTrackerIndex cfg) conditionKey
          (negb (mHasLinksToAllConditionDimensionsInTracker cfg)) = kTrue)
      else bool_decide (mCondition b = kTrue) in
    let statePrimaryKeys := statePrimaryKeysOf (mMetric2StateLinks cfg) (getValues event) in
    let stateValuesKey := stateValuesKeyOf uninit m cfg statePrimaryKeys in
    let (_, dimensionInWhat) := filterValues (mDimensionsInWhat cfg) (getValues event) (mkKey []) in
    onMatchedLogEventInternalLocked matcherIndex
      (mkMetricKey dimensionInWhat stateValuesKey) conditionKey condition event
      statePrimaryKeys p.
End producer.
