(* ===== verification/MetricProducerFacts.v ===== *)
(** * Facts on metric producers

    The activation life cycle, proved for every producer that satisfies the interface
    [MetricLaws]: when a metric is active, what expires it, and what saving and loading the
    activations keeps. *)
From S2P Require Import Prelude UMap FieldValue DimensionKey Matchers Conditions ConditionsFacts.
From S2P Require Import Anomaly State MetricProducer.

(** ** Expiration *)

Definition expiry (a : Activation) : Z := start_ns a + ttl_ns a.

(** An activation that keeps its metric active at time [t]. *)
Definition alive (t : Z) (a : Activation) : Prop := act_state a = kActive ∧ t <= expiry a.
#[export] Instance alive_dec t a : Decision (alive t a).
Proof. unfold alive. apply _. Defined.

Definition expire (t : Z) (a : Activation) : Activation :=
  if bool_decide (act_state a = kActive) && (ttl_ns a + start_ns a <? t)
  then set_state kNotActive a else a.

Lemma expire_active t a : act_state (expire t a) = kActive ↔ alive t a.
Proof.
  unfold expire, alive, expiry. case_bool_decide as Ha; simpl; [|naive_solver].
  destruct (Z.ltb_spec (ttl_ns a + start_ns a) t); simpl; rewrite ?Ha; intuition (discriminate || lia).
Qed.

Lemma expire_idemp t a : expire t (expire t a) = expire t a.
Proof.
  unfold expire at 2 3. case_bool_decide as Ha; simpl; [|unfold expire; by rewrite bool_decide_false].
  destruct (ttl_ns a + start_ns a <? t) eqn:E; simpl; unfold expire; simpl.
  - done.
  - by rewrite E, andb_false_r.
Qed.

Lemma expire_fold t ptrs store b :
  let r := foldl (expireStep t) (store, b) ptrs in
  (∀ q, r.1 !! q = if bool_decide (q ∈ ptrs) then expire t <$> store !! q else store !! q) ∧
  (r.2 = true ↔ b = true ∨ ∃ q a, q ∈ ptrs ∧ store !! q = Some a ∧ alive t a).
Proof.
  revert store b. induction ptrs as [|q ptrs IH]; intros store b.
  { split; [done|]. cbn [foldl snd]. set_solver. }
  cbn [foldl]. unfold expireStep at 2 4. destruct (store !! q) as [a|] eqn:Ha.
  - fold (expire t a). destruct (IH (<[q := expire t a]> store) (b || bool_decide (act_state (expire t a) = kActive)))
      as [Hs Hb]. split.
    + intros q'. rewrite Hs. destruct (decide (q' = q)) as [->|Hne].
      * rewrite lookup_insert_eq, (bool_decide_true (q ∈ q :: ptrs)) by set_solver.
        rewrite Ha. cbn [fmap option_fmap option_map]. rewrite expire_idemp. by destruct (bool_decide (q ∈ ptrs)).
      * rewrite lookup_insert_ne by done.
        by rewrite (bool_decide_ext (q' ∈ ptrs) (q' ∈ q :: ptrs)) by set_solver.
    + rewrite Hb, orb_true_iff, bool_decide_eq_true, expire_active. split.
      * intros [[?|?]|(q' & a' & Hq' & Hl & Hal)]; [by left|right; exists q, a; set_solver|right].
        destruct (decide (q' = q)) as [->|Hne].
        -- exists q, a. split; [set_solver|]. split; [done|].
           rewrite lookup_insert_eq in Hl. injection Hl as <-.
           apply expire_active. by rewrite <- (expire_idemp t), expire_active.
        -- rewrite lookup_insert_ne in Hl by done. exists q', a'. set_solver.
      * intros [?|(q' & a' & [->|Hq']%elem_of_cons & Hl & Hal)]; [by left; left| |].
        -- left. right. by simplify_eq.
        -- destruct (decide (q' = q)) as [->|Hne]; [left; right; by simplify_eq|].
           right. exists q', a'. by rewrite lookup_insert_ne.
  - destruct (IH store b) as [Hs Hb]. split.
    + intros q'. rewrite Hs. destruct (decide (q' = q)) as [->|Hne].
      * rewrite Ha. by destruct (bool_decide (q ∈ ptrs)), (bool_decide (q ∈ q :: ptrs)).
      * by rewrite (bool_decide_ext (q' ∈ ptrs) (q' ∈ q :: ptrs)) by set_solver.
    + rewrite Hb. split; [set_solver|]. intros [?|(q' & a' & [->|Hq']%elem_of_cons & Hl & Hal)];
        [by left|congruence|right; eauto].
Qed.

(** Some event of the map keeps the metric active at [t]. *)
Definition kept_alive (t : Z) (a : Activity) : Prop :=
  ∃ i ptr x, mEventActivationMap a !! i = Some ptr ∧ mActivations a !! ptr = Some x ∧ alive t x.

Lemma evaluateActiveState_spec t a :
  let (b, a') := evaluateActiveStateLocked t a in
  (b = true ↔ mEventActivationMap a = ∅ ∨ kept_alive t a) ∧
  mEventActivationMap a' = mEventActivationMap a ∧
  mEventDeactivationMap a' = mEventDeactivationMap a ∧
  (∀ i q, mEventActivationMap a !! i = Some q → mActivations a' !! q = expire t <$> mActivations a !! q) ∧
  (∀ q, is_Some (mActivations a' !! q) ↔ is_Some (mActivations a !! q)).
Proof.
  unfold evaluateActiveStateLocked.
  destruct (foldl _ _ _) as [store b] eqn:E.
  destruct (expire_fold t ((map_to_list (mEventActivationMap a)).*2) (mActivations a)
    (bool_decide (mEventActivationMap a = ∅))) as [Hs Hb].
  rewrite E in Hs, Hb. cbn [fst snd] in Hs, Hb. cbn.
  assert (Hin : ∀ q, q ∈ (map_to_list (mEventActivationMap a)).*2 ↔
                     ∃ i, mEventActivationMap a !! i = Some q).
  { intros q. rewrite list_elem_of_fmap. split.
    - intros ([i q'] & -> & Hq%elem_of_map_to_list). by exists i.
    - intros [i Hi]. exists (i, q). split; [done|]. by apply elem_of_map_to_list. }
  split_and!; try done.
  - rewrite Hb, bool_decide_eq_true. unfold kept_alive. setoid_rewrite Hin. naive_solver.
  - intros i q Hi. rewrite Hs, bool_decide_true; [done|]. apply Hin. eauto.
  - intros q. rewrite Hs. destruct (bool_decide (q ∈ _)); [apply fmap_is_Some|done].
Qed.

(** ** The life cycle *)

Section life_cycle.
Context {P : Type} `{MetricLaws P} {W : Type} `{!ConditionWizardOps W}.
Implicit Types (p : P) (a : Activity).

Lemma on_activity_activity f p : activity (on_activity f p) = f (activity p).
Proof. unfold activity, on_activity. by rewrite base_set_base. Qed.

Lemma flushLocked_activity t p : activity (flushLocked t p) = activity p.
Proof.
  unfold activity, flushLocked. by rewrite flushCurrentBucket_activity, flushIfNeeded_activity.
Qed.

Lemma activeStateChanged_keeps t p : activity (onActiveStateChangedLocked t p) = activity p.
Proof. apply onActiveStateChanged_activity. Qed.

Lemma flushIfExpire_activity t p :
  activity (flushIfExpire t p) =
    if mIsActive (activity p)
    then let (b, a) := evaluateActiveStateLocked t (activity p) in set_active b a
    else activity p.
Proof.
  unfold flushIfExpire. destruct (mIsActive (activity p)); simpl; [|done].
  destruct (evaluateActiveStateLocked t (activity p)) as [[] a];
    by rewrite ?activeStateChanged_keeps, on_activity_activity.
Qed.

(** What an activation event does to the activations. *)
Definition activated (i t : Z) (a : Activity) : Activity :=
  match mEventActivationMap a !! i with
  | None => a
  | Some ptr =>
      match mActivations a !! ptr with
      | None => a
      | Some x =>
          if bool_decide (activationType x = ACTIVATE_ON_BOOT) then
            if bool_decide (act_state x = kNotActive)
            then on_activation ptr (set_state kActiveOnBoot) a else a
          else set_active true (on_activation ptr (λ x, set_state kActive (set_start t x)) a)
      end
  end.

Lemma activateLocked_activity i t p : activity (activateLocked i t p) = activated i t (activity p).
Proof.
  unfold activateLocked, activated. destruct (mEventActivationMap _ !! i) as [ptr|]; [|done].
  destruct (mActivations _ !! ptr) as [x|]; [|done].
  repeat destr_if; by rewrite ?activeStateChanged_keeps, ?on_activity_activity.
Qed.

(** The operations on a producer that can touch the activations or flush. *)
Inductive producer_step : P → P → Prop :=
  | step_activate i t p : producer_step p (activateLocked i t p)
  | step_cancel j p : producer_step p (cancelEventActivationLocked j p)
  | step_expire t p : producer_step p (flushIfExpire t p)
  | step_load l t p : producer_step p (loadActiveMetricLocked l t p)
  | step_upgrade t p : producer_step p (notifyAppUpgrade t p)
  | step_init_completed t p : producer_step p (onStatsdInitCompleted t p)
  | step_event uninit m (w : W) i e p :
      producer_step p (onMatchedLogEventLocked uninit m w i e p).

(** The pointers are valid, and an inactive metric has activations and none of them active. *)
Definition activity_ok a : Prop :=
  (∀ i ptr, mEventActivationMap a !! i = Some ptr → is_Some (mActivations a !! ptr)) ∧
  (mIsActive a = false → mEventActivationMap a ≠ ∅ ∧
     ∀ i ptr x, mEventActivationMap a !! i = Some ptr → mActivations a !! ptr = Some x →
       act_state x ≠ kActive).

Lemma on_activation_lookup q f a r :
  mActivations (on_activation q f a) !! r =
    if bool_decide (r = q) then f <$> mActivations a !! r else mActivations a !! r.
Proof.
  cbn. case_bool_decide as E; [subst; apply lookup_alter_eq|by apply lookup_alter_ne].
Qed.

Lemma activity_ok_quiet q s a : s ≠ kActive → activity_ok a → activity_ok (on_activation q (set_state s) a).
Proof.
  intros Hs [Hv Ha]. split.
  - intros i ptr Hi. rewrite on_activation_lookup. apply Hv in Hi as [x Hx]. rewrite Hx.
    case_bool_decide; eauto.
  - intros Hf. destruct (Ha Hf) as [Hne Hna]. split; [done|]. intros i ptr x Hi.
    rewrite on_activation_lookup. case_bool_decide; [|by eauto].
    intros (y & Hy & ->)%fmap_Some. done.
Qed.

Lemma activity_ok_wake q f a : activity_ok a → activity_ok (set_active true (on_activation q f a)).
Proof.
  intros [Hv _]. split; [|done]. intros i ptr [x Hx]%Hv. cbn.
  destruct (decide (ptr = q)) as [->|Hne].
  - rewrite lookup_alter_eq, Hx. eauto.
  - rewrite lookup_alter_ne by done. eauto.
Qed.

Lemma activity_ok_expire t a :
  activity_ok a → mIsActive a = true →
  activity_ok (let (b, a') := evaluateActiveStateLocked t a in set_active b a').
Proof.
  intros [Hv _] _. pose proof (evaluateActiveState_spec t a) as Hspec.
  destruct (evaluateActiveStateLocked t a) as [b a'].
  destruct Hspec as (Hb & Hm & _ & Hs & Hd). split; cbn; rewrite Hm.
  - intros i ptr Hi. apply Hd. eauto.
  - intros ->. assert (¬ (mEventActivationMap a = ∅ ∨ kept_alive t a)) as Hn
      by (rewrite <- Hb; discriminate).
    split; [naive_solver|]. intros i ptr x Hi. rewrite (Hs i ptr Hi).
    intros (y & Hy & ->)%fmap_Some Hx%expire_active. apply Hn. right. by exists i, ptr, y.
Qed.

Lemma activity_ok_load t l a : activity_ok a → activity_ok (foldl (loadActivation t) a l).
Proof.
  revert a. induction l as [|s l IH]; intros a Ha; [done|]. cbn [foldl]. apply IH.
  unfold loadActivation. destruct (_ !! _) as [ptr|]; [|done].
  destruct (saved_state s) as [[]|]; auto using activity_ok_wake.
  by apply activity_ok_quiet.
Qed.

Lemma step_ok p p' : producer_step p p' → activity_ok (activity p) → activity_ok (activity p').
Proof.
  destruct 1 as [i t p|j p|t p|l t p|t p|t p|uninit m w i e p]; intros Hok.
  - rewrite activateLocked_activity. unfold activated.
    repeat (case_match; try done); auto using activity_ok_wake. by apply activity_ok_quiet.
  - unfold cancelEventActivationLocked. destruct (_ !! j) as [ptrs|]; [|done].
    rewrite on_activity_activity. generalize dependent (activity p).
    induction ptrs as [|q ptrs IH]; intros a Ha; [done|].
    cbn [foldl]. apply IH. by apply activity_ok_quiet.
  - rewrite flushIfExpire_activity. destruct (mIsActive (activity p)) eqn:E; [|done].
    by apply activity_ok_expire.
  - unfold loadActiveMetricLocked. case_bool_decide; [done|]. rewrite on_activity_activity.
    by apply activity_ok_load.
  - unfold notifyAppUpgrade. by rewrite flushLocked_activity.
  - unfold onStatsdInitCompleted. by rewrite flushLocked_activity.
  - unfold onMatchedLogEventLocked. repeat (destr_if; try done).
    all: destruct (filterValues _ _ _); unfold activity; by rewrite matched_activity.
Qed.

Lemma reachable_ok p p' :
  rtc producer_step p p' → activity_ok (activity p) → activity_ok (activity p').
Proof. induction 1; eauto using step_ok. Qed.
End life_cycle.

(** The activations a configuration creates: valid pointers, none active. *)
Definition fresh_activations (store : gmap nat Activation) (m : gmap Z nat) : Prop :=
  ∀ i ptr, m !! i = Some ptr → ∃ x, store !! ptr = Some x ∧ act_state x = kNotActive.

Lemma fresh_ok cfg cache store m dm :
  fresh_activations store m → activity_ok (mActivity (MetricProducer_new cfg cache store m dm)).
Proof.
  intros Hf. split; cbn.
  - intros i ptr (x & -> & _)%Hf. eauto.
  - intros Hm%bool_decide_eq_false. split; [done|].
    intros i ptr x (y & Hy & Hs)%Hf Hx. congruence.
Qed.

Section life_cycle_theorems.
Context {P : Type} `{MetricLaws P} {W : Type} `{!ConditionWizardOps W}.
Context (cfg : ProducerConfig) (cache : list ConditionState) (store : gmap nat Activation).
Context (m : gmap Z nat) (dm : gmap Z (list nat)).

(** Whatever was activated, cancelled, loaded, expired, flushed or matched before, a metric
    asked at time [t] whether it is active ([flushIfExpire], then [isActive]) is active exactly
    when its configuration has no activation event or one of its activations is active and not
    past its time to live. *)
Theorem metric_active_iff (p0 p : P) t :
  fresh_activations store m →
  base p0 = MetricProducer_new cfg cache store m dm →
  rtc (producer_step (W := W)) p0 p →
  mIsActive (activity (flushIfExpire t p)) = true ↔
    mEventActivationMap (activity p) = ∅ ∨ kept_alive t (activity p).
Proof.
  intros Hf Hb Hr. assert (activity_ok (activity p)) as [_ Hok].
  { eapply reachable_ok; [done|]. unfold activity. rewrite Hb. by apply fresh_ok. }
  rewrite flushIfExpire_activity. destruct (mIsActive (activity p)) eqn:E.
  - pose proof (evaluateActiveState_spec t (activity p)) as Hspec.
    destruct (evaluateActiveStateLocked t (activity p)) as [b a']. apply Hspec.
  - destruct Hok as [Hne Hna]; [done|]. rewrite E. split; [done|].
    intros [?|(i & ptr & x & Hi & Hx & Hs & _)]; [done|]. by destruct (Hna i ptr x).
Qed.

(** An event that activates a metric immediately keeps it active for the time to live of
    the activation, whatever state the metric was in. *)
Theorem activation_lasts_ttl (p : P) i t t' ptr x :
  mEventActivationMap (activity p) !! i = Some ptr →
  mActivations (activity p) !! ptr = Some x →
  activationType x ≠ ACTIVATE_ON_BOOT →
  t' <= t + ttl_ns x →
  mIsActive (activity (flushIfExpire t' (activateLocked i t p))) = true.
Proof.
  intros Hi Hx Htype Ht. rewrite flushIfExpire_activity, !activateLocked_activity.
  unfold activated. rewrite Hi, Hx, bool_decide_false by done. cbn [mIsActive set_active].
  pose proof (evaluateActiveState_spec t'
    (set_active true (on_activation ptr (λ x, set_state kActive (set_start t x)) (activity p))))
    as Hspec.
  destruct (evaluateActiveStateLocked _ _) as [b a']. destruct Hspec as [Hb _]. cbn.
  apply Hb. right. exists i, ptr. eexists. split; [done|]. cbn.
  rewrite lookup_alter_eq, Hx. split; [done|]. split; [done|]. cbn. unfold expiry. cbn. lia.
Qed.
End life_cycle_theorems.

(** ** Saving and loading the activations *)

Definition load_one (t : Z) (s : ActiveEventActivation) (x : Activation) : Activation :=
  match saved_state s with
  | None | Some SAVED_ACTIVE =>
      set_state kActive (set_start (t + remaining_ttl_nanos s - ttl_ns x) x)
  | Some SAVED_ACTIVATE_ON_BOOT => set_state kActiveOnBoot x
  end.

Lemma loadActivation_lookup t a s q :
  mEventActivationMap (loadActivation t a s) = mEventActivationMap a ∧
  mActivations (loadActivation t a s) !! q =
    (if bool_decide (mEventActivationMap a !! atom_matcher_index s = Some q)
     then load_one t s <$> mActivations a !! q else mActivations a !! q).
Proof.
  unfold loadActivation, load_one.
  destruct (mEventActivationMap a !! atom_matcher_index s) as [ptr|] eqn:E; [|done].
  destruct (saved_state s) as [[]|]; (split; [done|]); cbn;
    (destruct (decide (q = ptr)) as [->|Hne];
     [by rewrite lookup_alter_eq, bool_decide_true
     |by rewrite lookup_alter_ne, bool_decide_false by congruence]).
Qed.

(** No two events share an activation object. *)
Definition unshared (m : gmap Z nat) : Prop :=
  ∀ i j ptr, m !! i = Some ptr → m !! j = Some ptr → i = j.

Lemma load_fold t l a i ptr :
  unshared (mEventActivationMap a) → mEventActivationMap a !! i = Some ptr →
  NoDup (atom_matcher_index <$> l) →
  mActivations (foldl (loadActivation t) a l) !! ptr =
    match List.find (λ s, atom_matcher_index s =? i) l with
    | Some s => load_one t s <$> mActivations a !! ptr
    | None => mActivations a !! ptr
    end.
Proof.
  revert a. induction l as [|s l IH]; intros a Hu Hi Hnd; [done|]. cbn [foldl List.find].
  rewrite fmap_cons, NoDup_cons in Hnd. destruct Hnd as [Hnot Hnd].
  destruct (loadActivation_lookup t a s ptr) as [Hm Hl].
  rewrite IH by (by rewrite ?Hm). rewrite Hl.
  destruct (Z.eqb_spec (atom_matcher_index s) i) as [<-|Hne].
  - rewrite bool_decide_true by done.
    destruct (List.find _ l) as [s'|] eqn:E; [|done].
    apply find_some in E as [Hs' Hi'%Z.eqb_eq]. destruct Hnot. rewrite <- Hi'.
    by apply list_elem_of_fmap_2, list_elem_of_In.
  - rewrite bool_decide_false; [done|]. intros Hj. by destruct Hne; eapply Hu.
Qed.

Lemma saveActivation_index t r i x s : saveActivation t r i x = Some s → atom_matcher_index s = i.
Proof. unfold saveActivation. repeat case_match; naive_solver. Qed.

Section save_load.
Context {P : Type} `{MetricLaws P}.

Definition saveEntry (t : Z) (r : DumpReportReason) (p : P) (e : Z * nat)
    : option ActiveEventActivation :=
  a ← mActivations (activity p) !! e.2; saveActivation t r e.1 a.

Lemma saved_is_omap t r p :
  writeActiveMetricToProtoOutputStream t r p =
    omap (saveEntry t r p) (map_to_list (mEventActivationMap (activity p))).
Proof.
  unfold writeActiveMetricToProtoOutputStream. apply list_omap_ext, Forall_Forall2_diag.
  by apply Forall_true; intros [].
Qed.

Lemma saveEntry_index t r p e s : saveEntry t r p e = Some s → atom_matcher_index s = e.1.
Proof. unfold saveEntry. intros (a & _ & Hs)%bind_Some. by eapply saveActivation_index. Qed.

Lemma saved_find t r p i (l : list (Z * nat)) :
  NoDup l.*1 →
  NoDup (atom_matcher_index <$> omap (saveEntry t r p) l) ∧
  (∀ ptr, (i, ptr) ∈ l →
     List.find (λ s, atom_matcher_index s =? i) (omap (saveEntry t r p) l) =
       saveEntry t r p (i, ptr)).
Proof.
  induction l as [|[j q] l IH]; intros Hnd; [split; [constructor|set_solver]|].
  rewrite fmap_cons, NoDup_cons in Hnd. destruct Hnd as [Hnot Hnd].
  destruct (IH Hnd) as [Hnd' Hfind]. cbn [omap list_omap].
  assert (Hfresh : ∀ s, s ∈ omap (saveEntry t r p) l → atom_matcher_index s ≠ j).
  { intros s ([j' q'] & Hin & Hs%saveEntry_index)%list_elem_of_omap Hj. cbn in Hs. subst.
    apply Hnot. by apply (list_elem_of_fmap_2 fst _ (_, q')). }
  destruct (saveEntry t r p (j, q)) as [s|] eqn:E.
  - pose proof (saveEntry_index _ _ _ _ _ E) as Hs. cbn in Hs. split.
    + rewrite fmap_cons, NoDup_cons. split; [|done].
      intros (s' & Heq & Hs')%list_elem_of_fmap. apply (Hfresh s' Hs'). congruence.
    + intros ptr [Heq|Hin]%elem_of_cons; cbn [List.find].
      * injection Heq as -> ->. by rewrite Hs, Z.eqb_refl.
      * destruct (Z.eqb_spec (atom_matcher_index s) i) as [Hi|]; [|by apply Hfind].
        destruct Hnot. rewrite <- Hs, Hi. by apply (list_elem_of_fmap_2 fst _ (i, ptr)).
  - split; [done|]. intros ptr [Heq|Hin]%elem_of_cons; [|by apply Hfind].
    injection Heq as -> ->. rewrite E.
    destruct (List.find _ _) as [s|] eqn:Ef; [|done].
    apply find_some in Ef as [Hs%list_elem_of_In Hj%Z.eqb_eq]. by destruct (Hfresh s Hs).
Qed.

(** Activations saved when statsd goes down and loaded when it comes back keep their
    remaining time to live, an activation on boot becomes active by a shutdown or a termination
    signal and stays pending when only the companion service died, and the others are left as
    the configuration created them. *)
Theorem saved_activations_restored (p q : P) t1 t2 reason i ptr x ptr' y :
  mEventActivationMap (activity p) !! i = Some ptr →
  mActivations (activity p) !! ptr = Some x →
  unshared (mEventActivationMap (activity q)) →
  mEventActivationMap (activity q) !! i = Some ptr' →
  mActivations (activity q) !! ptr' = Some y →
  let saved := writeActiveMetricToProtoOutputStream t1 reason p in
  ∃ z, mActivations (activity (loadActiveMetricLocked saved t2 q)) !! ptr' = Some z ∧
    ttl_ns z = ttl_ns y ∧
    match act_state x with
    | kNotActive => z = y
    | kActive =>
        if expiry x <? t1 then z = y
        else act_state z = kActive ∧ expiry z - t2 = expiry x - t1
    | kActiveOnBoot =>
        match reason with
        | DEVICE_SHUTDOWN | TERMINATION_SIGNAL_RECEIVED =>
            act_state z = kActive ∧ expiry z = t2 + ttl_ns x
        | STATSCOMPANION_DIED => act_state z = kActiveOnBoot
        | _ => act_state z = kActive ∧ expiry z = t2
        end
    end.
Proof.
  intros Hi Hx Hu Hi' Hy saved. unfold saved, loadActiveMetricLocked.
  rewrite bool_decide_false by (intros E; by rewrite E in Hi'). rewrite on_activity_activity.
  rewrite saved_is_omap.
  destruct (saved_find t1 reason p i (map_to_list (mEventActivationMap (activity p))))
    as [Hnd Hfind]; [apply NoDup_fst_map_to_list|].
  rewrite (load_fold t2 _ _ i ptr' Hu Hi' Hnd), (Hfind ptr) by by apply elem_of_map_to_list.
  unfold saveEntry. cbn [fst snd]. rewrite Hx, Hy. cbn [mbind option_bind].
  unfold saveActivation. fold (expiry x).
  destruct (act_state x); [by eauto| |].
  - destruct (expiry x <? t1); [by eauto|]. eexists. split; [done|]. cbn. split; [done|].
    unfold expiry at 1. cbn. split; [done|lia].
  - destruct reason; eexists; (split; [done|]); cbn; (split; [done|]); try done;
      unfold expiry; cbn; (split; [done|lia]).
Qed.
End save_load.

(** ** The wizard the producers query *)

Section wizard.
Context (ts : list ConditionTracker) (rank : nat → nat).

(** The number of trackers of smaller rank: a rank below the number of trackers. *)
Definition dense_rank (i : nat) : nat :=
  length (filter (λ j, (rank j < rank i)%nat) (seq 0 (length ts))).

Lemma dense_rank_bound i : (i < length ts)%nat → (dense_rank i < length ts)%nat.
Proof.
  intros Hi. unfold dense_rank. rewrite <- (length_seq (length ts) 0) at 2.
  apply length_filter_lt with i; [apply elem_of_seq; lia|lia].
Qed.

Lemma filter_length_mono (p q : nat → Prop) `{!∀ x, Decision (p x), !∀ x, Decision (q x)} l c :
  (∀ x, p x → q x) → c ∈ l → q c → ¬ p c → (length (filter p l) < length (filter q l))%nat.
Proof.
  intros Hpq Hc Hq Hp.
  assert (Hle : ∀ l, (length (filter p l) <= length (filter q l))%nat).
  { intros l'. induction l' as [|x l' IH]; [done|]. rewrite !filter_cons.
    destruct (decide (p x)), (decide (q x)); cbn; try lia. by destruct n; apply Hpq. }
  induction l as [|x l IH]; [set_solver|]. rewrite !filter_cons.
  apply elem_of_cons in Hc as [<-|Hc].
  - rewrite decide_False, decide_True by done. cbn. specialize (Hle l). lia.
  - specialize (IH Hc). destruct (decide (p x)), (decide (q x)); cbn; try lia.
    by destruct n; apply Hpq.
Qed.

Lemma dense_rank_ok : graph_ok ts rank → graph_ok ts dense_rank.
Proof.
  intros Hg i t Hi. destruct (Hg i t Hi) as [Hidx Ht]. split; [done|].
  destruct t as [t|t]; [done|]. destruct Ht as [Hnot Hc]. split; [done|].
  intros c [Hlt Hr]%Hc. split; [done|]. unfold dense_rank.
  apply filter_length_mono with c; [lia|apply elem_of_seq; lia|lia|lia].
Qed.
End wizard.

(** C23: the condition wizard answers every query about an existing condition of an acyclic
    configuration with the meaning of the configured predicate: simple conditions by their
    counters, combinations by the three-valued operations; it never runs out of fuel. *)
Theorem condition_wizard_answers ts rank index params partial :
  graph_ok ts rank → 0 <= index < Z.of_nat (length ts) →
  ∀ s, meaning params partial ts (Z.to_nat index) s ↔ s = wizard_query ts index params partial.
Proof.
  intros Hg Hi s. unfold wizard_query, condition_trackers_wizard.
  destruct (Z.leb_spec 0 index), (Z.ltb_spec index (Z.of_nat (length ts))); try lia. cbn [andb].
  destruct (query_meaning params partial ts (dense_rank ts rank) (S (length ts)) (Z.to_nat index))
    as (s' & -> & Hm); [by apply dense_rank_ok|lia| |by rewrite Hm].
  pose proof (dense_rank_bound ts rank (Z.to_nat index)). lia.
Qed.

Lemma condition_wizard_answers_witness :
  meaning {[7 := DEFAULT_DIMENSION_KEY]} false exampleConditions 0 kFalse.
Proof.
  apply (condition_wizard_answers exampleConditions (λ i, 1 - i)%nat 0).
  - apply exampleConditions_ok.
  - simpl. lia.
  - vm_compute. reflexivity.
Defined.
