(* ===== verification/CountMetric.v ===== *)
(** * The count metric (metrics/CountMetricProducer.{h,cpp})

    A count metric counts the matched events of every dimension key in buckets of time.  The
    counters are handed to the anomaly trackers through shared pointers and replaced by fresh maps
    afterwards, and the trackers never write to a map they were given this way, so the maps are
    values here. *)
From S2P Require Import Prelude UMap FieldValue DimensionKey Matchers Conditions Anomaly State.
From S2P Require Import MetricProducer.

(** The CountMetric message. *)
Record MetricConditionLink := mkMetricConditionLink {
  link_condition : Z; cl_fields_in_what : FieldMatcher; cl_fields_in_condition : FieldMatcher
}.
Record MetricStateLink := mkMetricStateLink {
  link_state_atom_id : Z; sl_fields_in_what : FieldMatcher; sl_fields_in_state : FieldMatcher
}.
Record CountMetric := mkCountMetric {
  cm_id : Z;
  cm_bucket : option TimeUnit;
  cm_dimensions_in_what : option FieldMatcher;
  cm_links : list MetricConditionLink;
  cm_state_link : list MetricStateLink
}.

Definition toMetric2Condition (link : MetricConditionLink) : Metric2Condition :=
  mkMetric2Condition (link_condition link) (translateFieldMatcher (cl_fields_in_what link))
    (translateFieldMatcher (cl_fields_in_condition link)).

Definition toMetric2State (link : MetricStateLink) : Metric2State :=
  mkMetric2State (link_state_atom_id link) (translateFieldMatcher (sl_fields_in_what link))
    (translateFieldMatcher (sl_fields_in_state link)).

Record CountBucket := mkCountBucket { mBucketStartNs : Z; mBucketEndNs : Z; mCount : Z }.

Record CountMetricProducer := mkCountMetricProducer {
  cm_base : MetricProducer;
  cm_pastBuckets : umap MetricDimensionKey (list CountBucket);
  mCurrentSlicedCounter : DimToValMap;
  mCurrentFullCounters : DimToValMap
}.

Definition set_cm_base (b : MetricProducer) (p : CountMetricProducer) : CountMetricProducer :=
  mkCountMetricProducer b (cm_pastBuckets p) (mCurrentSlicedCounter p) (mCurrentFullCounters p).
Definition set_counter (m : DimToValMap) (p : CountMetricProducer) : CountMetricProducer :=
  mkCountMetricProducer (cm_base p) (cm_pastBuckets p) m (mCurrentFullCounters p).
Definition set_past (m : umap MetricDimensionKey (list CountBucket)) (p : CountMetricProducer)
    : CountMetricProducer :=
  mkCountMetricProducer (cm_base p) m (mCurrentSlicedCounter p) (mCurrentFullCounters p).

(** [mPastBuckets\[key\].push_back(info)] for every counter of the current bucket. *)
Definition pushBuckets (start end_ : Z) (past : umap MetricDimensionKey (list CountBucket))
    (counters : DimToValMap) : umap MetricDimensionKey (list CountBucket) :=
  foldl (λ m '(key, count),
    um_set key (um_get [] key m ++ [mkCountBucket start end_ count]) m) past counters.

(** [mCurrentFullCounters\[key\] += value] for every counter of the current bucket. *)
Definition addCounters (full counters : DimToValMap) : DimToValMap :=
  foldl (λ m '(key, value), um_set key (um_get 0 key m + value) m) full counters.

Definition count_flushCurrentBucketLocked (eventTimeNs nextBucketStartTimeNs : Z)
    (p : CountMetricProducer) : CountMetricProducer :=
  let b := cm_base p in
  let fullBucketEndTimeNs := getCurrentBucketEndTimeNs b in
  let bucketEndNs := if eventTimeNs <? fullBucketEndTimeNs then eventTimeNs else fullBucketEndTimeNs in
  let past := pushBuckets (mCurrentBucketStartTimeNs b) bucketEndNs (cm_pastBuckets p)
                (mCurrentSlicedCounter p) in
  let current := mCurrentSlicedCounter p in
  let '(trackers, full) :=
    if fullBucketEndTimeNs <? eventTimeNs then
      match mCurrentFullCounters p with
      | _ :: _ =>
          let full := addCounters (mCurrentFullCounters p) current in
          (addPastBucket (Some full) (mCurrentBucketNum b), [])
      | [] => (addPastBucket (Some current) (mCurrentBucketNum b), [])
      end
    else (id, addCounters (mCurrentFullCounters p) current) in
  mkCountMetricProducer
    (set_bucket nextBucketStartTimeNs (mCurrentBucketNum b) (on_anomaly_trackers trackers b))
    past [] full.

Definition count_flushIfNeededLocked (eventTimeNs : Z) (p : CountMetricProducer)
    : CountMetricProducer :=
  let currentBucketEndTimeNs := getCurrentBucketEndTimeNs (cm_base p) in
  if eventTimeNs <? currentBucketEndTimeNs then p
  else
    let size := mBucketSizeNs (mConfig (cm_base p)) in
    let numBucketsForward := 1 + Z.quot (eventTimeNs - currentBucketEndTimeNs) size in
    let nextBucketNs := currentBucketEndTimeNs + (numBucketsForward - 1) * size in
    let p := count_flushCurrentBucketLocked eventTimeNs nextBucketNs p in
    let b := cm_base p in
    set_cm_base
      (set_bucket (mCurrentBucketStartTimeNs b) (mCurrentBucketNum b + numBucketsForward) b) p.

(** [hitGuardRailLocked], less the statistics it notes. *)
Definition hitGuardRailLocked (newKey : MetricDimensionKey) (p : CountMetricProducer) : bool :=
  if um_mem newKey (mCurrentSlicedCounter p) then false
  else
    (kDimensionKeySizeSoftLimit - 1 <? size (mCurrentSlicedCounter p))
    && (kDimensionKeySizeHardLimit <? size (mCurrentSlicedCounter p) + 1).

(** The handler of a matched event.  The code looks the counter it wrote up again for the
    trackers; the value read is the one written, for every key that is equal to itself. *)
Definition count_onMatchedLogEventInternalLocked (matcherIndex : nat)
    (eventKey : MetricDimensionKey) (conditionKey : ConditionKey) (condition : bool)
    (event : LogEvent) (statePrimaryKeys : gmap Z HashableDimensionKey) (p : CountMetricProducer)
    : CountMetricProducer :=
  let eventTimeNs := GetElapsedTimestampNs event in
  let p := count_flushIfNeededLocked eventTimeNs p in
  if negb condition then p
  else
    let found := um_find eventKey (mCurrentSlicedCounter p) in
    if (match found with None => hitGuardRailLocked eventKey p | Some _ => false end) then p
    else
      let count := match found with None => 1 | Some count => count + 1 end in
      let p := set_counter (um_set eventKey count (mCurrentSlicedCounter p)) p in
      let countWholeBucket := count + um_get 0 eventKey (mCurrentFullCounters p) in
      set_cm_base
        (on_anomaly_trackers
           (detectAndDeclareAnomaly eventTimeNs (mCurrentBucketNum (cm_base p)) eventKey
              countWholeBucket) (cm_base p)) p.

#[export] Instance count_metric_ops : MetricOps CountMetricProducer := {|
  base := cm_base;
  set_base := set_cm_base;
  flushIfNeededLocked := count_flushIfNeededLocked;
  flushCurrentBucketLocked := count_flushCurrentBucketLocked;
  onActiveStateChangedLocked :=
    base_onActiveStateChangedLocked cm_base count_flushIfNeededLocked count_flushCurrentBucketLocked;
  onMatchedLogEventInternalLocked := count_onMatchedLogEventInternalLocked
|}.

(** The constructor.  A metric without a bucket gets the largest 64-bit number as its size. *)
Definition CountMetricProducer_new (uid : Z) (metric : CountMetric) (conditionIndex : Z)
    (initialConditionCache : list ConditionState) (timeBaseNs startTimeNs : Z)
    (activations : gmap nat Activation) (eventActivationMap : gmap Z nat)
    (eventDeactivationMap : gmap Z (list nat)) (slicedStateAtoms : list Z)
    (stateGroupMap : gmap Z (gmap Z Z)) : CountMetricProducer :=
  let bucketSizeNs :=
    match cm_bucket metric with
    | Some unit_ => TimeUnitToBucketSizeInMillisGuardrailed uid unit_ * 1000000
    | None => 2 ^ 63 - 1
    end in
  let dims := cm_dimensions_in_what metric in
  let cfg := mkProducerConfig (cm_id metric) timeBaseNs bucketSizeNs conditionIndex
    (0 <? Z.of_nat (length (cm_links metric)))
    (from_option HasPositionANY false dims) (from_option HasPositionALL false dims)
    (from_option translateFieldMatcher [] dims) false
    (toMetric2Condition <$> cm_links metric) slicedStateAtoms stateGroupMap
    (toMetric2State <$> cm_state_link metric) in
  let b := MetricProducer_new cfg initialConditionCache activations eventActivationMap
             eventDeactivationMap in
  let p := count_flushIfNeededLocked startTimeNs (mkCountMetricProducer b [] [] []) in
  set_cm_base (set_bucket startTimeNs (mCurrentBucketNum (cm_base p)) (cm_base p)) p.

(** ** Condition changes, reports and dropped data *)

Definition count_onConditionChangedLocked (conditionMet : bool) (eventTime : Z)
    (p : CountMetricProducer) : CountMetricProducer :=
  set_cm_base (set_condition (if conditionMet then kTrue else kFalse) (cm_base p)) p.

Definition NanoToMillis (nano : Z) : Z := Z.quot nano 1000000.

(** The CountBucketInfo message: a partial bucket by its times, a full one by its number. *)
Inductive CountBucketInfo :=
  | PartialBucket (start_bucket_elapsed_millis end_bucket_elapsed_millis count : Z)
  | FullBucket (bucket_num count : Z).

Definition bucketInfo (b : MetricProducer) (bucket : CountBucket) : CountBucketInfo :=
  if negb (mBucketEndNs bucket - mBucketStartNs bucket =? mBucketSizeNs (mConfig b)) then
    PartialBucket (NanoToMillis (mBucketStartNs bucket)) (NanoToMillis (mBucketEndNs bucket))
      (mCount bucket)
  else FullBucket (getBucketNumFromEndTimeNs (mBucketEndNs bucket) b) (mCount bucket).

(** What the report of a metric holds: its id, whether it is active and, when there is any past
    bucket, the time base, the bucket size and the buckets of every key.  The protobuf layout of a
    dimension key is the business of stats_log_util.cpp; the key itself stands for it. *)
Record CountReport := mkCountReport {
  cr_id : Z; cr_is_active : bool;
  cr_data : option (Z * Z * list (MetricDimensionKey * list CountBucketInfo))
}.

Definition reportEntry (b : MetricProducer) (e : MetricDimensionKey * list CountBucket)
    : MetricDimensionKey * list CountBucketInfo := (e.1, bucketInfo b <$> e.2).

Definition count_onDumpReportLocked (dumpTimeNs : Z) (include_current_partial_bucket : bool)
    (erase_data : bool) (p : CountMetricProducer) : CountReport * CountMetricProducer :=
  let p :=
    if include_current_partial_bucket then flushLocked dumpTimeNs p
    else count_flushIfNeededLocked dumpTimeNs p in
  let cfg := mConfig (cm_base p) in
  let isActive := mIsActive (mActivity (cm_base p)) in
  match cm_pastBuckets p with
  | [] => (mkCountReport (mMetricId cfg) isActive None, p)
  | _ :: _ =>
      let data := reportEntry (cm_base p) <$> cm_pastBuckets p in
      (mkCountReport (mMetricId cfg) isActive (Some (mTimeBaseNs cfg, mBucketSizeNs cfg, data)),
       if erase_data then set_past [] p else p)
  end.

Definition count_dropDataLocked (dropTimeNs : Z) (p : CountMetricProducer) : CountMetricProducer :=
  set_past [] (count_flushIfNeededLocked dropTimeNs p).

Definition count_clearPastBucketsLocked (p : CountMetricProducer) : CountMetricProducer :=
  set_past [] p.

(** [sizeof(CountBucket)]: three 64-bit members. *)
Definition kBucketSize : Z := 24.

Definition count_byteSizeLocked (p : CountMetricProducer) : Z :=
  foldl (λ totalSize pair, totalSize + Z.of_nat (length pair.2) * kBucketSize) 0 (cm_pastBuckets p).
