(* ===== verification/CountMetricFacts.v ===== *)
(** * Facts on the count metric

    Every accepted event is counted exactly once, in a bucket whose bounds lie in one full bucket
    of the metric; the memory of the current bucket is bounded. *)
From stdpp Require Import sorting.
From S2P Require Import Prelude UMap FieldValue DimensionKey DimensionKeyFacts Matchers Conditions.
From S2P Require Import Anomaly State MetricProducer MetricProducerFacts CountMetric.

(** ** The interface of a producer *)

Lemma count_flushCurrentBucket_activity t n p :
  mActivity (cm_base (count_flushCurrentBucketLocked t n p)) = mActivity (cm_base p).
Proof. unfold count_flushCurrentBucketLocked. by repeat case_match. Qed.

Lemma count_flushIfNeeded_activity t p :
  mActivity (cm_base (count_flushIfNeededLocked t p)) = mActivity (cm_base p).
Proof.
  unfold count_flushIfNeededLocked. destr_if; [done|]. apply count_flushCurrentBucket_activity.
Qed.

#[export] Instance count_metric_laws : MetricLaws CountMetricProducer.
Proof.
  split; cbn -[count_flushIfNeededLocked count_flushCurrentBucketLocked].
  - done.
  - apply count_flushIfNeeded_activity.
  - apply count_flushCurrentBucket_activity.
  - intros t p. unfold base_onActiveStateChangedLocked. destr_if; [done|].
    by rewrite count_flushCurrentBucket_activity, count_flushIfNeeded_activity.
  - intros i k ck c e pk p. unfold count_onMatchedLogEventInternalLocked.
    repeat case_match; apply count_flushIfNeeded_activity.
Qed.

(** ** The maps of counters *)

Section counters.
Implicit Types (k : MetricDimensionKey) (m : DimToValMap).
Implicit Types (past : umap MetricDimensionKey (list CountBucket)).

Lemma pushBuckets_get s e k cs past :
  um_wf cs →
  um_get [] k (pushBuckets s e past cs) =
    um_get [] k past ++
    match um_find k cs with Some c => [mkCountBucket s e c] | None => [] end.
Proof.
  unfold pushBuckets. revert past. induction cs as [|[k' c] cs IH]; intros past.
  { intros _. by rewrite app_nil_r. }
  intros [Hnew Hwf]. cbn [foldl um_find]. rewrite IH, um_get_set by done.
  rewrite (key_eqb_comm k' k). destruct (key_eqb k k') eqn:E; [|done].
  rewrite (um_find_cong _ _ _ E), Hnew, app_nil_r. unfold um_get. by rewrite (um_find_cong _ _ _ E).
Qed.

Lemma pushBuckets_wf s e cs past : um_wf past → um_wf (pushBuckets s e past cs).
Proof.
  unfold pushBuckets. revert past. induction cs as [|[k c] cs IH]; intros past Hp; [done|].
  cbn [foldl]. apply IH. by apply um_wf_set.
Qed.

Lemma addCounters_get k cs m :
  um_wf cs → um_get 0 k (addCounters m cs) = um_get 0 k m + um_get 0 k cs.
Proof.
  unfold addCounters. revert m. induction cs as [|[k' c] cs IH]; intros m.
  { intros _. cbn [foldl]. change (um_get 0 k []) with 0. lia. }
  intros [Hnew Hwf]. cbn [foldl]. rewrite IH, um_get_set by done.
  rewrite um_get_cons, (key_eqb_comm k' k).
  destruct (key_eqb k k') eqn:E; [|done].
  unfold um_get. rewrite !(um_find_cong _ _ _ E), Hnew. cbn [default]. lia.
Qed.
End counters.

(** The count of a key in the buckets a producer holds. *)
Definition pastCount (k : MetricDimensionKey) (p : CountMetricProducer) : Z :=
  sumZ (mCount <$> um_get [] k (cm_pastBuckets p)).
Definition heldCount (k : MetricDimensionKey) (p : CountMetricProducer) : Z :=
  pastCount k p + um_get 0 k (mCurrentSlicedCounter p).

Definition count_wf (p : CountMetricProducer) : Prop :=
  um_wf (mCurrentSlicedCounter p) ∧ um_wf (cm_pastBuckets p).

(** The end of the bucket a flush at time [t] closes. *)
Definition closedAt (t : Z) (b : MetricProducer) : Z :=
  if t <? getCurrentBucketEndTimeNs b then t else getCurrentBucketEndTimeNs b.

Lemma flushCurrent_fields t n p :
  let p' := count_flushCurrentBucketLocked t n p in
  let b := cm_base p in
  mConfig (cm_base p') = mConfig b ∧ mCurrentBucketNum (cm_base p') = mCurrentBucketNum b ∧
  mCurrentBucketStartTimeNs (cm_base p') = n ∧ mCurrentSlicedCounter p' = [] ∧
  cm_pastBuckets p' = pushBuckets (mCurrentBucketStartTimeNs b) (closedAt t b) (cm_pastBuckets p)
    (mCurrentSlicedCounter p).
Proof.
  unfold count_flushCurrentBucketLocked. fold (closedAt t (cm_base p)).
  by destruct (if getCurrentBucketEndTimeNs (cm_base p) <? t then _ else _).
Qed.

Lemma flushCurrent_counts t n p :
  count_wf p →
  let p' := count_flushCurrentBucketLocked t n p in
  count_wf p' ∧ (∀ k, heldCount k p' = heldCount k p) ∧ mCurrentSlicedCounter p' = [].
Proof.
  intros [Hc Hp] p'. destruct (flushCurrent_fields t n p) as (_ & _ & _ & Hcur & Hpast).
  fold p' in Hcur, Hpast. split_and!; [split|..|done].
  - by rewrite Hcur.
  - rewrite Hpast. by apply pushBuckets_wf.
  - intros k. unfold heldCount, pastCount. rewrite Hpast, Hcur, pushBuckets_get by done.
    rewrite fmap_app, sumZ_app. unfold um_get at 2 4. cbn [um_find].
    destruct (um_find k (mCurrentSlicedCounter p)); cbn; lia.
Qed.

Lemma flushIfNeeded_counts t p :
  count_wf p →
  let p' := count_flushIfNeededLocked t p in
  count_wf p' ∧ ∀ k, heldCount k p' = heldCount k p.
Proof.
  intros Hwf. unfold count_flushIfNeededLocked. destr_if; [done|].
  destruct (flushCurrent_counts t (getCurrentBucketEndTimeNs (cm_base p) +
    (1 + Z.quot (t - getCurrentBucketEndTimeNs (cm_base p)) (mBucketSizeNs (mConfig (cm_base p))) - 1) *
    mBucketSizeNs (mConfig (cm_base p))) p Hwf) as (? & Hk & _). done.
Qed.

Lemma flushLocked_counts t (p : CountMetricProducer) :
  count_wf p → count_wf (flushLocked t p) ∧ ∀ k, heldCount k (flushLocked t p) = heldCount k p.
Proof.
  intros [Hwf Hk]%(flushIfNeeded_counts t). unfold flushLocked. cbn -[count_flushCurrentBucketLocked count_flushIfNeededLocked].
  apply (flushCurrent_counts t t) in Hwf as (Hwf' & Hk' & _). split; [done|].
  intros k. by rewrite Hk', Hk.
Qed.

(** ** Runs *)

(** The operations of a count metric on its data.  A split of its bucket, by an upgrade or at boot, and its deactivation are flushes. *)
Inductive CountOp :=
  | CEvent (key : MetricDimensionKey) (condition : bool) (event : LogEvent)
  | CCondition (conditionMet : bool) (eventTime : Z)
  | CFlush (eventTimeNs : Z)
  | CDump (dumpTimeNs : Z) (include_current_partial_bucket erase_data : bool)
  | CDrop (dropTimeNs : Z)
  | CClear (dumpTimeNs : Z).

Definition opTime (op : CountOp) : Z :=
  match op with
  | CEvent _ _ e => GetElapsedTimestampNs e
  | CCondition _ t | CFlush t | CDump t _ _ | CDrop t | CClear t => t
  end.

Definition count_op (op : CountOp) (p : CountMetricProducer) : CountMetricProducer :=
  match op with
  | CEvent key condition event =>
      onMatchedLogEventInternalLocked 0 key ∅ condition event ∅ p
  | CCondition c t => count_onConditionChangedLocked c t p
  | CFlush t => flushLocked t p
  | CDump t incl erase => (count_onDumpReportLocked t incl erase p).2
  | CDrop t => count_dropDataLocked t p
  | CClear _ => count_clearPastBucketsLocked p
  end.

Definition run (ops : list CountOp) (p : CountMetricProducer) : CountMetricProducer :=
  foldl (λ p op, count_op op p) p ops.

(** The key an operation counts: a matched event under a true condition, unless its key is new
    and the current bucket is full. *)
Definition counted (op : CountOp) (p : CountMetricProducer) : option MetricDimensionKey :=
  match op with
  | CEvent key true e =>
      let p := count_flushIfNeededLocked (GetElapsedTimestampNs e) p in
      if negb (um_mem key (mCurrentSlicedCounter p))
         && (kDimensionKeySizeHardLimit <=? size (mCurrentSlicedCounter p))
      then None else Some key
  | _ => None
  end.

(** The count of a key in the data of a report. *)
Definition infoCount (i : CountBucketInfo) : Z :=
  match i with PartialBucket _ _ c | FullBucket _ c => c end.
Definition reportCount (k : MetricDimensionKey) (r : CountReport) : Z :=
  match cr_data r with
  | None => 0
  | Some (_, _, data) =>
      sumZ ((λ e, if key_eqb k e.1 then sumZ (infoCount <$> e.2) else 0) <$> data)
  end.

(** The count of a key delivered by an operation: in a report that erases the data. *)
Definition deliveredBy (k : MetricDimensionKey) (op : CountOp) (p : CountMetricProducer) : Z :=
  match op with
  | CDump t incl true => reportCount k (count_onDumpReportLocked t incl true p).1
  | _ => 0
  end.

Fixpoint delivered (k : MetricDimensionKey) (ops : list CountOp) (p : CountMetricProducer) : Z :=
  match ops with
  | [] => 0
  | op :: ops => deliveredBy k op p + delivered k ops (count_op op p)
  end.

(** The count of a key that an operation discards: dropping the data first closes the bucket if its time is over. *)
Definition discardedBy (k : MetricDimensionKey) (op : CountOp) (p : CountMetricProducer) : Z :=
  match op with
  | CDrop t => pastCount k (count_flushIfNeededLocked t p)
  | CClear _ => pastCount k p
  | _ => 0
  end.

Fixpoint discarded (k : MetricDimensionKey) (ops : list CountOp) (p : CountMetricProducer) : Z :=
  match ops with
  | [] => 0
  | op :: ops => discardedBy k op p + discarded k ops (count_op op p)
  end.

Fixpoint countedKeys (ops : list CountOp) (p : CountMetricProducer) : list MetricDimensionKey :=
  match ops with
  | [] => []
  | op :: ops =>
      match counted op p with Some key => [key] | None => [] end ++ countedKeys ops (count_op op p)
  end.

Definition occurrences (k : MetricDimensionKey) (l : list MetricDimensionKey) : Z :=
  Z.of_nat (length (List.filter (key_eqb k) l)).

Lemma infoCount_bucketInfo b (l : list CountBucket) : infoCount <$> (bucketInfo b <$> l) = mCount <$> l.
Proof.
  rewrite <- list_fmap_compose. apply list_fmap_ext. intros i x _. cbn.
  unfold bucketInfo. by destr_if.
Qed.

(** A report has all the past buckets of a key. *)
Lemma report_pastCount k b past :
  um_wf past →
  sumZ ((λ e : MetricDimensionKey * list CountBucketInfo,
           if key_eqb k e.1 then sumZ (infoCount <$> e.2) else 0) <$> (reportEntry b <$> past))
  = sumZ (mCount <$> um_get [] k past).
Proof.
  induction past as [|[k' l] past IH]; [done|]. intros [Hnew Hwf]. rewrite !fmap_cons, sumZ_cons.
  rewrite IH by done. rewrite um_get_cons. cbn [reportEntry fst snd].
  destruct (key_eqb k k') eqn:E; [|lia]. rewrite infoCount_bucketInfo.
  unfold um_get. rewrite (um_find_cong _ _ _ E), Hnew. cbn. lia.
Qed.

Lemma guard_rail key p :
  um_find key (mCurrentSlicedCounter p) = None →
  hitGuardRailLocked key p = (kDimensionKeySizeHardLimit <=? size (mCurrentSlicedCounter p)).
Proof.
  intros Hf. unfold hitGuardRailLocked, um_mem. rewrite Hf.
  unfold kDimensionKeySizeSoftLimit, kDimensionKeySizeHardLimit.
  destruct (Z.leb_spec 800 (size (mCurrentSlicedCounter p))),
    (Z.ltb_spec (500 - 1) (size (mCurrentSlicedCounter p))),
    (Z.ltb_spec 800 (size (mCurrentSlicedCounter p) + 1)); cbn; (done || lia).
Qed.

(** The counter maps after an event, by whether it was counted. *)
Lemma event_step key c e p :
  let p0 := count_flushIfNeededLocked (GetElapsedTimestampNs e) p in
  let p' := count_op (CEvent key c e) p in
  cm_pastBuckets p' = cm_pastBuckets p0 ∧ mCurrentFullCounters p' = mCurrentFullCounters p0 ∧
  mCurrentSlicedCounter p' =
    match counted (CEvent key c e) p with
    | None => mCurrentSlicedCounter p0
    | Some key => um_set key (um_get 0 key (mCurrentSlicedCounter p0) + 1) (mCurrentSlicedCounter p0)
    end.
Proof.
  intros p0 p'. unfold p', count_op, counted. cbn [onMatchedLogEventInternalLocked count_metric_ops].
  unfold count_onMatchedLogEventInternalLocked. fold p0. destruct c; [|done]. cbn [negb].
  unfold um_mem, um_get. destruct (um_find key (mCurrentSlicedCounter p0)) as [n|] eqn:E; [cbn; by rewrite E|].
  rewrite guard_rail by done. cbn [negb andb]. destr_if; cbn; by rewrite ?E.
Qed.

Lemma op_counts op p k :
  count_wf p →
  count_wf (count_op op p) ∧
  deliveredBy k op p + discardedBy k op p + heldCount k (count_op op p) =
    heldCount k p + occurrences k (match counted op p with Some key => [key] | None => [] end).
Proof.
  intros Hwf. destruct op as [key c e|c t|t|t incl erase|t|t].
  - destruct (event_step key c e p) as (Hpast & _ & Hcur).
    destruct (flushIfNeeded_counts (GetElapsedTimestampNs e) p Hwf) as [[Hc0 Hp0] Hk0].
    set (p0 := count_flushIfNeededLocked (GetElapsedTimestampNs e) p) in *. rewrite <- (Hk0 k).
    cbn [deliveredBy discardedBy]. split.
    + split; [|by rewrite Hpast]. rewrite Hcur. case_match; [by apply um_wf_set|done].
    + unfold heldCount, pastCount. rewrite Hpast, Hcur.
      destruct (counted (CEvent key c e) p) as [key'|]; [|change (occurrences k []) with 0; lia].
      rewrite um_get_set. unfold occurrences. cbn [List.filter].
      rewrite (key_eqb_comm key' k). destruct (key_eqb k key') eqn:E; cbn [length]; [|lia].
      unfold um_get. rewrite !(um_find_cong _ _ _ E). lia.
  - split; [done|]. cbn [deliveredBy discardedBy counted]. change (occurrences k []) with 0.
    change (heldCount k p = heldCount k p + 0). lia.
  - destruct (flushLocked_counts t p Hwf) as [Hwf' Hk]. split; [done|].
    cbn [deliveredBy discardedBy counted count_op]. rewrite Hk. change (occurrences k []) with 0. lia.
  - cbn [counted count_op deliveredBy discardedBy]. unfold count_onDumpReportLocked.
    set (p0 := if incl then flushLocked t p else count_flushIfNeededLocked t p).
    assert (count_wf p0 ∧ heldCount k p0 = heldCount k p) as [[Hc Hp] Hk].
    { unfold p0. destruct incl.
      - destruct (flushLocked_counts t p Hwf); auto.
      - destruct (flushIfNeeded_counts t p Hwf); auto. }
    rewrite <- Hk. pose proof (report_pastCount k (cm_base p0) (cm_pastBuckets p0) Hp) as Hrep.
    unfold reportCount, heldCount, pastCount.
    destruct (cm_pastBuckets p0) as [|x l] eqn:E.
    + cbn [fst snd cr_data]. split; [split; [done|by rewrite E]|]. rewrite E. change (occurrences k []) with 0. destruct erase; lia.
    + destruct erase; cbn [fst snd cr_data set_past mCurrentSlicedCounter cm_pastBuckets].
      * split; [split; done|]. rewrite Hrep. change (occurrences k []) with 0.
        change (sumZ (mCount <$> um_get [] k [])) with 0. lia.
      * rewrite E. split; [split; [done|by rewrite E]|]. change (occurrences k []) with 0. lia.
  - cbn [deliveredBy discardedBy counted count_op]. destruct (flushIfNeeded_counts t p Hwf) as [[Hc _] Hk]. split; [by split|].
    rewrite <- Hk. unfold heldCount, pastCount, count_dropDataLocked. cbn [set_past cm_pastBuckets mCurrentSlicedCounter].
    change (occurrences k []) with 0. change (sumZ (mCount <$> um_get [] k [])) with 0. lia.
  - cbn [deliveredBy discardedBy counted count_op]. split; [split; [apply Hwf|done]|].
    unfold heldCount, pastCount, count_clearPastBucketsLocked. cbn [set_past cm_pastBuckets mCurrentSlicedCounter].
    change (occurrences k []) with 0. change (sumZ (mCount <$> um_get [] k [])) with 0. lia.
Qed.

Lemma run_counts ops p k :
  count_wf p → delivered k ops p + discarded k ops p + heldCount k (run ops p) = heldCount k p + occurrences k (countedKeys ops p).
Proof.
  revert p. induction ops as [|op ops IH]; intros p Hwf.
  - change (occurrences k (countedKeys [] p)) with 0. cbn. lia.
  - destruct (op_counts op p k Hwf) as [Hwf' Hop]. specialize (IH _ Hwf').
    cbn [delivered discarded countedKeys run foldl]. unfold occurrences in *.
    rewrite List.filter_app, length_app. fold (run ops (count_op op p)). lia.
Qed.

(** ** Buckets of time *)

Section buckets.
Context (cfg : ProducerConfig).

(** The start of full bucket [n]. *)
Definition edge (n : Z) : Z := mTimeBaseNs cfg + n * mBucketSizeNs cfg.

(** A closed bucket lies in one full bucket, not after [start], and counts something. *)
Definition bucket_ok (num start : Z) (b : CountBucket) : Prop :=
  (∃ n, n <= num ∧ edge n <= mBucketStartNs b ∧ mBucketEndNs b <= edge (n + 1)) ∧
  mBucketStartNs b <= mBucketEndNs b <= start ∧ 0 < mCount b.

Definition in_order (a b : CountBucket) : Prop := mBucketEndNs a <= mBucketStartNs b.

Record count_inv (now : Z) (p : CountMetricProducer) : Prop := {
  ci_wf : count_wf p;
  ci_cfg : mConfig (cm_base p) = cfg;
  ci_pos k c : um_find k (mCurrentSlicedCounter p) = Some c → 0 < c;
  ci_start : edge (mCurrentBucketNum (cm_base p)) <= mCurrentBucketStartTimeNs (cm_base p)
               < edge (mCurrentBucketNum (cm_base p) + 1);
  ci_now : mCurrentBucketStartTimeNs (cm_base p) <= now;
  ci_past k :
    Forall (bucket_ok (mCurrentBucketNum (cm_base p)) (mCurrentBucketStartTimeNs (cm_base p)))
      (um_get [] k (cm_pastBuckets p)) ∧
    StronglySorted in_order (um_get [] k (cm_pastBuckets p))
}.

Lemma bucket_ok_later num start num' start' b :
  num <= num' → start <= start' → bucket_ok num start b → bucket_ok num' start' b.
Proof. intros ?? ((n & ? & ?) & ? & ?). split; [exists n|]; lia. Qed.

Lemma sorted_snoc l b :
  StronglySorted in_order l → Forall (λ a, in_order a b) l → StronglySorted in_order (l ++ [b]).
Proof.
  induction 1 as [|a l Hl IH Ha]; intros Hb; [repeat constructor|].
  inversion_clear Hb. cbn. constructor; [by apply IH|]. apply Forall_app. by split; [|constructor].
Qed.

(** Closing the current bucket at [t] keeps the past buckets in order. *)
Lemma flushCurrent_past t next num' now p k :
  count_inv now p → mCurrentBucketStartTimeNs (cm_base p) <= t →
  closedAt t (cm_base p) <= next → mCurrentBucketNum (cm_base p) <= num' →
  let past := cm_pastBuckets (count_flushCurrentBucketLocked t next p) in
  Forall (bucket_ok num' next) (um_get [] k past) ∧ StronglySorted in_order (um_get [] k past).
Proof.
  intros Hinv Ht Hnext Hnum past. destruct Hinv as [[Hwf _] Hcfg Hpos Hstart _ Hpast].
  destruct (flushCurrent_fields t next p) as (_ & _ & _ & _ & Heq). unfold past. rewrite Heq.
  rewrite pushBuckets_get by done. destruct (Hpast k) as [Hok Hsort].
  assert (mCurrentBucketStartTimeNs (cm_base p) <= closedAt t (cm_base p)
            <= edge (mCurrentBucketNum (cm_base p) + 1)) as Hend.
  { unfold closedAt, getCurrentBucketEndTimeNs. rewrite Hcfg. fold (edge (mCurrentBucketNum (cm_base p) + 1)).
    destruct (Z.ltb_spec t (edge (mCurrentBucketNum (cm_base p) + 1))); lia. }
  assert (Hlater : Forall (bucket_ok num' next) (um_get [] k (cm_pastBuckets p))).
  { eapply Forall_impl; [done|]. intros b. apply bucket_ok_later; lia. }
  destruct (um_find k (mCurrentSlicedCounter p)) as [c|] eqn:E; [|by rewrite app_nil_r].
  split.
  - apply Forall_app. split; [done|]. repeat constructor; cbn; try lia; [|by eapply Hpos].
    exists (mCurrentBucketNum (cm_base p)). lia.
  - apply sorted_snoc; [done|]. eapply Forall_impl; [exact Hok|]. intros b (_ & ? & _). unfold in_order. cbn. lia.
Qed.

Context (Hsize : 0 < mBucketSizeNs cfg).

Lemma edge_mono n m : n <= m → edge n <= edge m.
Proof. unfold edge. nia. Qed.

Lemma flushIfNeeded_inv now t p :
  count_inv now p → now <= t →
  let p' := count_flushIfNeededLocked t p in
  count_inv t p' ∧ t < edge (mCurrentBucketNum (cm_base p') + 1) ∧
  (edge (mCurrentBucketNum (cm_base p)) <= t → edge (mCurrentBucketNum (cm_base p')) <= t).
Proof.
  intros Hinv Ht p'. pose proof Hinv as [Hwf Hcfg Hpos Hstart Hnow Hpast].
  pose proof (proj1 (flushIfNeeded_counts t p Hwf)) as Hwf'. fold p' in Hwf'.
  revert Hwf'. unfold p', count_flushIfNeededLocked. cbn zeta.
  set (b := cm_base p) in *. set (num := mCurrentBucketNum b) in *.
  assert (getCurrentBucketEndTimeNs b = edge (num + 1)) as Hend
    by (unfold getCurrentBucketEndTimeNs; by rewrite Hcfg).
  rewrite Hend, Hcfg.
  destruct (Z.ltb_spec t (edge (num + 1))) as [Hlt|Hge].
  { intros _. split; [constructor; try done; fold b; lia|]. by fold b. }
  rewrite quot_div_nonneg by lia.
  set (q := (t - edge (num + 1)) / mBucketSizeNs cfg).
  assert (Hq : 0 <= q ∧ edge (num + 1 + q) <= t < edge (num + 1 + q + 1)).
  { pose proof (Z.div_pos (t - edge (num + 1)) (mBucketSizeNs cfg)).
    pose proof (Z.mul_div_le (t - edge (num + 1)) (mBucketSizeNs cfg) Hsize).
    pose proof (Z.mul_succ_div_gt (t - edge (num + 1)) (mBucketSizeNs cfg) Hsize).
    fold q in H, H0, H1. unfold edge in *. nia. }
  replace (edge (num + 1) + (1 + q - 1) * mBucketSizeNs cfg) with (edge (num + 1 + q))
    by (unfold edge; lia).
  destruct (flushCurrent_fields t (edge (num + 1 + q)) p) as (Hc' & Hn' & Hs' & Hcur' & _).
  intros Hwf'. split; [constructor|]; cbn; fold b in Hn', Hc'; rewrite ?Hn', ?Hs', ?Hcur'; fold num.
  - done.
  - by rewrite Hc'.
  - done.
  - split; [by replace (num + (1 + q)) with (num + 1 + q) by lia|].
    replace (num + (1 + q) + 1) with (num + 1 + q + 1) by lia. unfold edge. lia.
  - lia.
  - intros k. apply flushCurrent_past with now; [done|fold b; lia| |fold b num; lia].
    unfold closedAt. fold b. rewrite Hend. pose proof (edge_mono (num + 1) (num + 1 + q)).
    destruct (Z.ltb_spec t (edge (num + 1))); lia.
  - replace (num + (1 + q) + 1) with (num + 1 + q + 1) by lia.
    replace (num + (1 + q)) with (num + 1 + q) by lia. lia.
Qed.

Lemma flushLocked_inv now t (p : CountMetricProducer) :
  count_inv now p → now <= t → count_inv t (flushLocked t p).
Proof.
  intros Hinv Ht. destruct (flushIfNeeded_inv now t p Hinv Ht) as (Hinv' & Hlt & _).
  unfold flushLocked. cbn -[count_flushCurrentBucketLocked count_flushIfNeededLocked].
  set (p0 := count_flushIfNeededLocked t p) in *.
  pose proof Hinv' as [Hwf Hcfg Hpos Hstart Hnow Hpast].
  destruct (flushCurrent_fields t t p0) as (Hc' & Hn' & Hs' & Hcur' & _).
  destruct (flushCurrent_counts t t p0 Hwf) as (Hwf' & _ & _).
  constructor; rewrite ?Hn', ?Hs', ?Hcur'; try done; try lia.
  - by rewrite Hc'.
  - intros k. apply flushCurrent_past with t; try done; try lia.
    unfold closedAt, getCurrentBucketEndTimeNs. rewrite Hcfg. fold (edge (mCurrentBucketNum (cm_base p0) + 1)).
    destruct (Z.ltb_spec t (edge (mCurrentBucketNum (cm_base p0) + 1))); lia.
Qed.
End buckets.

Lemma event_base key c e p :
  let p0 := count_flushIfNeededLocked (GetElapsedTimestampNs e) p in
  let p' := count_op (CEvent key c e) p in
  mConfig (cm_base p') = mConfig (cm_base p0) ∧
  mCurrentBucketNum (cm_base p') = mCurrentBucketNum (cm_base p0) ∧
  mCurrentBucketStartTimeNs (cm_base p') = mCurrentBucketStartTimeNs (cm_base p0).
Proof.
  unfold count_op. cbn [onMatchedLogEventInternalLocked count_metric_ops].
  unfold count_onMatchedLogEventInternalLocked. by repeat case_match.
Qed.

Section run_buckets.
Context (cfg : ProducerConfig) (Hsize : 0 < mBucketSizeNs cfg).

Lemma op_inv now op p :
  count_inv cfg now p → now <= opTime op → count_inv cfg (opTime op) (count_op op p).
Proof.
  intros Hinv Ht. destruct op as [key c e|c t|t|t incl erase|t|t]; cbn [opTime] in *.
  - destruct (flushIfNeeded_inv cfg Hsize now _ p Hinv Ht) as [[Hwf Hcfg Hpos Hstart Hnow Hpast] _].
    destruct (event_step key c e p) as (Hp & _ & Hcur).
    destruct (event_base key c e p) as (Hc & Hn & Hs).
    set (p0 := count_flushIfNeededLocked (GetElapsedTimestampNs e) p) in *.
    constructor; rewrite ?Hc, ?Hn, ?Hs, ?Hp; try done.
    + by destruct (op_counts (CEvent key c e) p key (ci_wf _ _ _ Hinv)).
    + intros k n. rewrite Hcur. destruct (counted _ _) as [key'|]; [|apply Hpos].
      destruct (key_eqb key' k) eqn:E.
      * rewrite (um_find_set_eq _ _ _ _ E). intros [= <-]. unfold um_get.
        destruct (um_find key' _) as [c'|] eqn:Ef; cbn; [apply Hpos in Ef|]; lia.
      * rewrite (um_find_set_ne _ _ _ _ E). apply Hpos.
  - destruct Hinv as [Hwf Hcfg Hpos Hstart Hnow Hpast]. constructor; try done. cbn. lia.
  - by apply flushLocked_inv with now.
  - cbn [count_op]. unfold count_onDumpReportLocked.
    set (p0 := if incl then flushLocked t p else count_flushIfNeededLocked t p).
    assert (count_inv cfg t p0) as Hinv'.
    { unfold p0. destruct incl; [by apply flushLocked_inv with now|].
      by apply flushIfNeeded_inv with now. }
    destruct (cm_pastBuckets p0) eqn:E; [done|]. cbn [snd]. destruct erase; [|done].
    destruct Hinv' as [[Hwf _] Hcfg Hpos Hstart Hnow Hpast].
    constructor; try done. intros k. split; constructor.
  - destruct (flushIfNeeded_inv cfg Hsize now _ p Hinv Ht) as [[[Hwf _] Hcfg Hpos Hstart Hnow Hpast] _].
    constructor; try done. intros k. split; constructor.
  - destruct Hinv as [[Hwf _] Hcfg Hpos Hstart Hnow Hpast]. constructor; try done; [cbn; lia|]. intros k. split; constructor.
Qed.

Lemma run_inv ops now p :
  count_inv cfg now p → Sorted Z.le (now :: (opTime <$> ops)) →
  ∃ now', count_inv cfg now' (run ops p).
Proof.
  revert now p. induction ops as [|op ops IH]; intros now p Hinv Hs; [by exists now|].
  rewrite fmap_cons in Hs. apply Sorted_inv in Hs as [Hs Hhd]. apply HdRel_inv in Hhd.
  apply (IH (opTime op)); [by apply op_inv with now|done].
Qed.
End run_buckets.

(** ** What the anomaly trackers are told *)

(** The count of a key in the current full bucket, partial buckets included. *)
Definition wholeCount (k : MetricDimensionKey) (p : CountMetricProducer) : Z :=
  um_get 0 k (mCurrentFullCounters p) + um_get 0 k (mCurrentSlicedCounter p).

Definition bucketNum (p : CountMetricProducer) : Z := mCurrentBucketNum (cm_base p).

Lemma flushCurrent_whole t n k p :
  count_wf p →
  wholeCount k (count_flushCurrentBucketLocked t n p) =
    if getCurrentBucketEndTimeNs (cm_base p) <? t then 0 else wholeCount k p.
Proof.
  intros [Hwf _]. unfold wholeCount, count_flushCurrentBucketLocked.
  destruct (getCurrentBucketEndTimeNs (cm_base p) <? t).
  - by destruct (mCurrentFullCounters p).
  - cbn [mCurrentFullCounters mCurrentSlicedCounter]. rewrite addCounters_get by done.
    change (um_get 0 k []) with 0. lia.
Qed.

Section whole.
Context (cfg : ProducerConfig) (Hsize : 0 < mBucketSizeNs cfg).

(** A time that is not the edge of a full bucket. *)
Definition off_edge (t : Z) : Prop := ∀ n, t ≠ edge cfg n.

Lemma bucket_end p :
  mConfig (cm_base p) = cfg → getCurrentBucketEndTimeNs (cm_base p) = edge cfg (bucketNum p + 1).
Proof. intros Hc. unfold getCurrentBucketEndTimeNs. by rewrite Hc. Qed.

Lemma flushIfNeeded_whole t k p :
  count_wf p → mConfig (cm_base p) = cfg → off_edge t →
  let p' := count_flushIfNeededLocked t p in
  mConfig (cm_base p') = cfg ∧ bucketNum p <= bucketNum p' ∧ t < edge cfg (bucketNum p' + 1) ∧
  wholeCount k p' = if bucketNum p' =? bucketNum p then wholeCount k p else 0.
Proof.
  intros Hwf Hc Hoff p'. unfold p', count_flushIfNeededLocked. cbn zeta.
  rewrite (bucket_end p Hc), Hc. destruct (Z.ltb_spec t (edge cfg (bucketNum p + 1))) as [Hlt|Hge].
  { rewrite Z.eqb_refl. split_and!; done || lia. }
  rewrite quot_div_nonneg by lia. set (q := (t - edge cfg (bucketNum p + 1)) / mBucketSizeNs cfg).
  assert (0 <= q) by (apply Z.div_pos; lia).
  match goal with |- context [count_flushCurrentBucketLocked t ?n p] => set (next := n) end.
  destruct (flushCurrent_fields t next p) as (Hc' & Hn' & _).
  unfold bucketNum. cbn [set_cm_base cm_base set_bucket mCurrentBucketNum mConfig].
  rewrite Hc', Hn', Hc. split_and!; [done|lia| |].
  - pose proof (Z.mul_succ_div_gt (t - edge cfg (bucketNum p + 1)) (mBucketSizeNs cfg) Hsize) as Hq.
    fold q in Hq. unfold edge, bucketNum in *. nia.
  - destruct (Z.eqb_spec (mCurrentBucketNum (cm_base p) + (1 + q)) (mCurrentBucketNum (cm_base p))); [lia|].
    pose proof (flushCurrent_whole t next k p Hwf) as Hw.
    rewrite (bucket_end p Hc) in Hw. pose proof (Hoff (bucketNum p + 1)).
    destruct (Z.ltb_spec (edge cfg (bucketNum p + 1)) t); [|lia]. exact Hw.
Qed.

Lemma flushLocked_whole t k (p : CountMetricProducer) :
  count_wf p → mConfig (cm_base p) = cfg → off_edge t →
  let p' := flushLocked t p in
  mConfig (cm_base p') = cfg ∧ bucketNum p <= bucketNum p' ∧
  wholeCount k p' = if bucketNum p' =? bucketNum p then wholeCount k p else 0.
Proof.
  intros Hwf Hc Hoff p'. destruct (flushIfNeeded_whole t k p Hwf Hc Hoff) as (Hc0 & Hn0 & Ht & Hw).
  destruct (flushIfNeeded_counts t p Hwf) as [Hwf0 _].
  unfold p', flushLocked. cbn -[count_flushCurrentBucketLocked count_flushIfNeededLocked].
  set (q := count_flushIfNeededLocked t p) in *.
  destruct (flushCurrent_fields t t q) as (Hc' & Hn' & _). unfold bucketNum in *.
  rewrite Hc', Hn', flushCurrent_whole, (bucket_end q Hc0) by done.
  destruct (Z.ltb_spec (edge cfg (bucketNum q + 1)) t); [unfold bucketNum in *; lia|]. done.
Qed.

Lemma op_whole op k p :
  count_wf p → mConfig (cm_base p) = cfg → off_edge (opTime op) →
  let p' := count_op op p in
  mConfig (cm_base p') = cfg ∧ bucketNum p <= bucketNum p' ∧
  wholeCount k p' = (if bucketNum p' =? bucketNum p then wholeCount k p else 0) +
    occurrences k (match counted op p with Some key => [key] | None => [] end).
Proof.
  intros Hwf Hc Hoff. destruct op as [key c e|c t|t|t incl erase|t|t]; cbn [opTime] in Hoff.
  - destruct (flushIfNeeded_whole _ k p Hwf Hc Hoff) as (Hc0 & Hn0 & _ & Hw).
    destruct (event_step key c e p) as (_ & Hfull & Hcur).
    destruct (event_base key c e p) as (Hc' & Hn' & _).
    set (q := count_flushIfNeededLocked (GetElapsedTimestampNs e) p) in *.
    cbn zeta. unfold bucketNum in *. rewrite Hc', Hn'. split_and!; [done|done|]. rewrite <- Hw.
    unfold wholeCount. rewrite Hfull, Hcur.
    destruct (counted (CEvent key c e) p) as [key'|]; [|change (occurrences k []) with 0; lia].
    rewrite um_get_set. unfold occurrences. cbn [List.filter].
    rewrite (key_eqb_comm key' k). destruct (key_eqb k key') eqn:E; cbn [length]; [|lia].
    unfold um_get. rewrite !(um_find_cong _ _ _ E). lia.
  - cbn zeta. split_and!; [done|done|]. change (bucketNum (count_op (CCondition c t) p)) with (bucketNum p).
    rewrite Z.eqb_refl. change (wholeCount k p = wholeCount k p + 0). lia.
  - destruct (flushLocked_whole t k p Hwf Hc Hoff) as (? & ? & Hw). split_and!; [done|done|].
    change (occurrences k _) with 0. rewrite Z.add_0_r. exact Hw.
  - cbn [counted count_op]. unfold count_onDumpReportLocked.
    set (q := if incl then flushLocked t p else count_flushIfNeededLocked t p).
    assert (mConfig (cm_base q) = cfg ∧ bucketNum p <= bucketNum q ∧
      wholeCount k q = if bucketNum q =? bucketNum p then wholeCount k p else 0) as Hq.
    { unfold q. destruct incl; [by apply flushLocked_whole|].
      destruct (flushIfNeeded_whole t k p Hwf Hc Hoff) as (? & ? & _ & ?). done. }
    change (occurrences k []) with 0. cbn zeta. rewrite Z.add_0_r.
    destruct (cm_pastBuckets q); [exact Hq|]. by destruct erase.
  - destruct (flushIfNeeded_whole _ k p Hwf Hc Hoff) as (Hc0 & Hn0 & _ & Hw). cbn zeta. split_and!; [done|done|].
    change (occurrences k _) with 0. rewrite Z.add_0_r. exact Hw.
  - cbn zeta. split_and!; [done|done|]. change (bucketNum (count_op (CClear t) p)) with (bucketNum p).
    rewrite Z.eqb_refl. change (wholeCount k p = wholeCount k p + 0). lia.
Qed.
End whole.

(** The counted events of a run, each with the number of its full bucket. *)
Fixpoint countedIn (ops : list CountOp) (p : CountMetricProducer) : list (Z * MetricDimensionKey) :=
  match ops with
  | [] => []
  | op :: ops =>
      match counted op p with Some key => [(bucketNum (count_op op p), key)] | None => [] end ++
      countedIn ops (count_op op p)
  end.

(** How many of them have the key and the bucket. *)
Definition inBucket (n : Z) (k : MetricDimensionKey) (l : list (Z * MetricDimensionKey)) : Z :=
  Z.of_nat (length (List.filter (λ e, (e.1 =? n) && key_eqb k e.2) l)).

Lemma inBucket_app n k l1 l2 : inBucket n k (l1 ++ l2) = inBucket n k l1 + inBucket n k l2.
Proof. unfold inBucket. rewrite List.filter_app, length_app. lia. Qed.

Lemma run_whole cfg ops k p :
  0 < mBucketSizeNs cfg → count_wf p → mConfig (cm_base p) = cfg →
  Forall (λ op, off_edge cfg (opTime op)) ops →
  bucketNum p <= bucketNum (run ops p) ∧
  wholeCount k (run ops p) =
    (if bucketNum (run ops p) =? bucketNum p then wholeCount k p else 0) +
    inBucket (bucketNum (run ops p)) k (countedIn ops p).
Proof.
  intros Hsize. revert p. induction ops as [|op ops IH]; intros p Hwf Hc Hoff.
  { cbn [run foldl countedIn]. rewrite Z.eqb_refl.
    change (inBucket (bucketNum p) k []) with 0. lia. }
  apply Forall_cons in Hoff as [Hop Hoff].
  destruct (op_whole cfg Hsize op k p Hwf Hc Hop) as (Hc' & Hn & Hw).
  destruct (op_counts op p k Hwf) as [Hwf' _].
  destruct (IH (count_op op p) Hwf' Hc' Hoff) as [Hn' Hw'].
  cbn [run foldl]. fold (run ops (count_op op p)). split; [lia|].
  cbn [countedIn]. rewrite inBucket_app, Hw', Hw.
  set (n := bucketNum (run ops (count_op op p))) in *.
  assert (inBucket n k (match counted op p with Some key => [(bucketNum (count_op op p), key)] | None => [] end)
    = if n =? bucketNum (count_op op p)
      then occurrences k (match counted op p with Some key => [key] | None => [] end) else 0) as ->.
  { unfold inBucket, occurrences. destruct (counted op p); [|by destr_if]. cbn [List.filter fst snd].
    rewrite (Z.eqb_sym (bucketNum (count_op op p)) n).
    destruct (n =? bucketNum (count_op op p)), (key_eqb k m); done. }
  destruct (Z.eqb_spec n (bucketNum (count_op op p))), (Z.eqb_spec n (bucketNum p)),
    (Z.eqb_spec (bucketNum (count_op op p)) (bucketNum p)); lia.
Qed.

(** A counted event makes every tracker look at the count of the whole bucket. *)
Lemma event_trackers key e p :
  key =k key → counted (CEvent key true e) p = Some key →
  let p' := count_op (CEvent key true e) p in
  mAnomalyTrackers (cm_base p') =
    detectAndDeclareAnomaly (GetElapsedTimestampNs e) (bucketNum p') key (wholeCount key p')
      <$> mAnomalyTrackers (cm_base (count_flushIfNeededLocked (GetElapsedTimestampNs e) p)).
Proof.
  intros Hrefl Hcnt p'. destruct (event_base key true e p) as (_ & Hn & _).
  destruct (event_step key true e p) as (_ & Hfull & Hcur). fold p' in Hn, Hfull, Hcur.
  unfold bucketNum, wholeCount. rewrite Hn, Hfull, Hcur, Hcnt, um_get_set, Hrefl.
  clear Hn Hfull Hcur. revert Hcnt. unfold p', count_op, counted.
  cbn [onMatchedLogEventInternalLocked count_metric_ops].
  unfold count_onMatchedLogEventInternalLocked. cbn [negb].
  set (q := count_flushIfNeededLocked (GetElapsedTimestampNs e) p). unfold um_mem.
  destruct (um_find key (mCurrentSlicedCounter q)) as [n|] eqn:E.
  - intros _. cbn [set_cm_base cm_base on_anomaly_trackers mAnomalyTrackers set_counter mCurrentFullCounters].
    unfold um_get at 3. rewrite E. cbn [default]. by rewrite (Z.add_comm (n + 1)).
  - rewrite guard_rail by done. cbn [negb andb]. destr_if; [done|]. intros _.
    cbn [set_cm_base cm_base on_anomaly_trackers mAnomalyTrackers set_counter mCurrentFullCounters].
    unfold um_get at 3. rewrite E. cbn [default]. by rewrite (Z.add_comm 1).
Qed.

(** The trackers of the alerts are added to a metric after it is created. *)
Definition addTrackers (ts : list AnomalyTracker) (p : CountMetricProducer) : CountMetricProducer :=
  foldl (λ p t, set_cm_base (addAnomalyTracker t (cm_base p)) p) p ts.

Lemma addTrackers_same ts p k :
  let p' := addTrackers ts p in
  mConfig (cm_base p') = mConfig (cm_base p) ∧ (count_wf p → count_wf p') ∧
  wholeCount k p' = wholeCount k p.
Proof.
  unfold addTrackers. revert p. induction ts as [|t ts IH]; intros p; [done|].
  cbn [foldl]. destruct (IH (set_cm_base (addAnomalyTracker t (cm_base p)) p)) as (H1 & H2 & H3).
  cbn zeta in *. rewrite H1, H3. done.
Qed.

Lemma run_app ops1 ops2 p : run (ops1 ++ ops2) p = run ops2 (run ops1 p).
Proof. apply foldl_app. Qed.

Lemma countedIn_app ops1 ops2 p :
  countedIn (ops1 ++ ops2) p = countedIn ops1 p ++ countedIn ops2 (run ops1 p).
Proof.
  revert p. induction ops1 as [|op ops1 IH]; intros p; [done|].
  cbn [app countedIn]. by rewrite IH, app_assoc.
Qed.

Lemma counter_size_bound op p :
  count_wf p → size (mCurrentSlicedCounter p) <= kDimensionKeySizeHardLimit →
  size (mCurrentSlicedCounter (count_op op p)) <= kDimensionKeySizeHardLimit.
Proof.
  assert (Hflush : ∀ t p, size (mCurrentSlicedCounter p) <= kDimensionKeySizeHardLimit →
    size (mCurrentSlicedCounter (count_flushIfNeededLocked t p)) <= kDimensionKeySizeHardLimit).
  { intros t q Hq. unfold count_flushIfNeededLocked. destr_if; [done|].
    match goal with |- context [count_flushCurrentBucketLocked t ?n q] =>
      destruct (flushCurrent_fields t n q) as (_ & _ & _ & Hcur & _) end.
    cbn [set_cm_base mCurrentSlicedCounter]. by rewrite Hcur. }
  intros Hwf Hsz. destruct op as [key c e|c t|t|t incl erase|t|t].
  - destruct (event_step key c e p) as (_ & _ & ->). specialize (Hflush (GetElapsedTimestampNs e) p Hsz).
    set (q := count_flushIfNeededLocked (GetElapsedTimestampNs e) p) in *.
    cbn [counted]. destruct c; [|done]. unfold um_mem. fold q.
    destruct (um_find key (mCurrentSlicedCounter q)) as [n|] eqn:E; cbn [negb andb].
    + unfold size in *. rewrite um_set_size. unfold um_mem. by rewrite E.
    + destruct (Z.leb_spec kDimensionKeySizeHardLimit (size (mCurrentSlicedCounter q))); [done|].
      unfold size in *. rewrite um_set_size. unfold um_mem. rewrite E. lia.
  - done.
  - unfold count_op, flushLocked. cbn [flushCurrentBucketLocked flushIfNeededLocked count_metric_ops].
    destruct (flushCurrent_fields t t (count_flushIfNeededLocked t p)) as (_ & _ & _ & -> & _). done.
  - cbn [count_op]. unfold count_onDumpReportLocked.
    set (q := if incl then flushLocked t p else count_flushIfNeededLocked t p).
    assert (size (mCurrentSlicedCounter q) <= kDimensionKeySizeHardLimit).
    { unfold q. destruct incl; [|by apply Hflush]. unfold flushLocked.
      cbn [flushCurrentBucketLocked flushIfNeededLocked count_metric_ops].
      destruct (flushCurrent_fields t t (count_flushIfNeededLocked t p)) as (_ & _ & _ & -> & _). done. }
    destruct (cm_pastBuckets q); [done|]. by destruct erase.
  - by apply Hflush.
  - done.
Qed.

(** ** The theorems *)

Section from_construction.
Context (uid : Z) (metric : CountMetric) (conditionIndex : Z) (cache : list ConditionState).
Context (timeBaseNs startTimeNs : Z) (store : gmap nat Activation) (am : gmap Z nat).
Context (dm : gmap Z (list nat)) (atoms : list Z) (groups : gmap Z (gmap Z Z)).

Let p0 := CountMetricProducer_new uid metric conditionIndex cache timeBaseNs startTimeNs store am
            dm atoms groups.

Lemma new_wf : count_wf p0 ∧ ∀ k, heldCount k p0 = 0.
Proof.
  unfold p0, CountMetricProducer_new. cbn zeta.
  match goal with |- context [count_flushIfNeededLocked startTimeNs ?q] =>
    destruct (flushIfNeeded_counts startTimeNs q) as [Hwf Hk]; [by split|];
    set (p1 := count_flushIfNeededLocked startTimeNs q) in * end.
  split; [exact Hwf|]. intros k. change (heldCount k p1 = 0). by rewrite Hk.
Qed.

(** C24: every matched event that passes the condition and the guard rail is counted exactly
    once for its dimension key, over any sequence of events, condition changes, flushes, reports
    and commands that drop the data or clear the past buckets: what the erasing reports
    delivered, the past buckets that were dropped or cleared and what the metric still holds add
    up to the number of counted events. *)
Theorem count_events_conserved ops k :
  delivered k ops p0 + discarded k ops p0 + heldCount k (run ops p0) = occurrences k (countedKeys ops p0).
Proof. destruct new_wf as [Hwf Hk]. rewrite run_counts, Hk by done. lia. Qed.

Lemma bucket_size_pos :
  cm_bucket metric ≠ Some TIME_UNIT_UNSPECIFIED → 0 < mBucketSizeNs (mConfig (cm_base p0)).
Proof.
  intros Hb. unfold p0, CountMetricProducer_new. cbn zeta.
  match goal with |- context [count_flushIfNeededLocked startTimeNs ?q] =>
    assert (mConfig (cm_base (count_flushIfNeededLocked startTimeNs q)) = mConfig (cm_base q)) as Hc end.
  { unfold count_flushIfNeededLocked. destr_if; [done|].
    match goal with |- mConfig (cm_base (set_cm_base _ (count_flushCurrentBucketLocked ?t ?n ?q))) = _ =>
      by destruct (flushCurrent_fields t n q) as [? _] end. }
  cbn [set_cm_base cm_base set_bucket mConfig]. rewrite Hc. cbn.
  destruct (cm_bucket metric) as [u|]; [|lia].
  unfold TimeUnitToBucketSizeInMillisGuardrailed. destr_if; [lia|].
  by destruct u; cbn; try lia.
Qed.

Lemma new_inv :
  cm_bucket metric ≠ Some TIME_UNIT_UNSPECIFIED → timeBaseNs <= startTimeNs →
  count_inv (mConfig (cm_base p0)) startTimeNs p0 ∧ mTimeBaseNs (mConfig (cm_base p0)) = timeBaseNs.
Proof.
  intros Hb Ht. pose proof (bucket_size_pos Hb) as Hsize. revert Hsize.
  unfold p0, CountMetricProducer_new. cbn zeta.
  match goal with |- context [count_flushIfNeededLocked startTimeNs ?q] => set (q0 := q) end.
  cbn [set_cm_base cm_base set_bucket mConfig].
  assert (Hc : mConfig (cm_base (count_flushIfNeededLocked startTimeNs q0)) = mConfig (cm_base q0)).
  { unfold count_flushIfNeededLocked. destr_if; [done|].
    match goal with |- mConfig (cm_base (set_cm_base _ (count_flushCurrentBucketLocked ?t ?n ?q))) = _ =>
      by destruct (flushCurrent_fields t n q) as [? _] end. }
  rewrite Hc. intros Hsize.
  destruct (flushIfNeeded_inv (mConfig (cm_base q0)) Hsize timeBaseNs startTimeNs q0)
    as ([Hwf Hcfg Hpos Hstart Hnow Hpast] & Hlt & Hle); [|done|].
  - constructor; try done; try (cbn; lia).
    + cbn [q0 cm_base MetricProducer_new mCurrentBucketNum mCurrentBucketStartTimeNs mConfig].
      unfold edge. cbn in *. lia.
    + intros k. split; constructor.
  - split; [|done]. specialize (Hle ltac:(unfold edge; cbn; lia)).
    constructor; try done; cbn [set_cm_base cm_base set_bucket mCurrentBucketNum mCurrentBucketStartTimeNs].
    intros k. destruct (Hpast k) as [Hok Hsort]. split; [|done].
    eapply Forall_impl; [exact Hok|]. intros b. apply bucket_ok_later; lia.
Qed.

(** The current bucket never has more dimension keys than the hard limit. *)
Theorem count_keys_bounded ops :
  size (mCurrentSlicedCounter (run ops p0)) <= kDimensionKeySizeHardLimit.
Proof.
  destruct new_wf as [Hwf _].
  assert (size (mCurrentSlicedCounter p0) <= kDimensionKeySizeHardLimit) as Hsz.
  { unfold p0, CountMetricProducer_new, count_flushIfNeededLocked. cbn zeta. destr_if; [done|].
    match goal with |- context [count_flushCurrentBucketLocked ?t ?n ?q] =>
      destruct (flushCurrent_fields t n q) as (_ & _ & _ & Hcur & _) end.
    cbn [set_cm_base mCurrentSlicedCounter]. by rewrite Hcur. }
  clearbody p0. revert Hwf Hsz. generalize p0.
  induction ops as [|op ops IH]; intros p Hwf Hsz; [done|]. cbn [run foldl].
  apply IH; [by apply (op_counts op p DEFAULT_METRIC_DIMENSION_KEY)|].
  by apply counter_size_bound.
Qed.

(** When no operation happens exactly at the edge of a full bucket, a counted event makes
    every anomaly tracker of the metric look at the number of the counted events of its key in
    the same full bucket, the event included. *)
Theorem count_anomaly_value ts ops key e :
  cm_bucket metric ≠ Some TIME_UNIT_UNSPECIFIED →
  let p1 := addTrackers ts p0 in
  let p := run ops p1 in
  let ops' := ops ++ [CEvent key true e] in
  Forall (λ op, off_edge (mConfig (cm_base p0)) (opTime op)) ops' →
  key =k key → counted (CEvent key true e) p = Some key →
  mAnomalyTrackers (cm_base (run ops' p1)) =
    detectAndDeclareAnomaly (GetElapsedTimestampNs e) (bucketNum (run ops' p1)) key
      (inBucket (bucketNum (run ops' p1)) key (countedIn ops' p1))
    <$> mAnomalyTrackers (cm_base (count_flushIfNeededLocked (GetElapsedTimestampNs e) p)).
Proof.
  intros Hb p1 p ops' Hoff Hrefl Hcnt. pose proof (bucket_size_pos Hb) as Hsize.
  destruct new_wf as [Hwf _].
  destruct (addTrackers_same ts p0 key) as (Hc1 & Hwf1 & Hw1). fold p1 in Hc1, Hwf1, Hw1.
  destruct (run_whole _ ops' key p1 Hsize (Hwf1 Hwf) Hc1 Hoff) as [_ Hw].
  assert (wholeCount key p0 = 0) as H0.
  { unfold p0, CountMetricProducer_new, count_flushIfNeededLocked. cbn zeta. destr_if; [done|].
    match goal with |- context [count_flushCurrentBucketLocked ?t ?n ?q] =>
      pose proof (flushCurrent_whole t n key q) as Hq end.
    refine (eq_trans (Hq _) _); [done|]. by destr_if. }
  assert (wholeCount key (run ops' p1) = inBucket (bucketNum (run ops' p1)) key (countedIn ops' p1))
    as <-.
  { rewrite Hw, Hw1, H0. destr_if; lia. }
  unfold ops'. rewrite run_app. fold p. by apply (event_trackers key e p).
Qed.

(** When time does not go back, the past buckets of every key are in order of time and do
    not overlap, each lies within one full bucket of the metric counted from its time base, and
    a bucket the report gives by number is exactly the full bucket of that number; the current
    bucket starts within the full bucket of its number. *)
Theorem count_buckets_aligned ops k :
  cm_bucket metric ≠ Some TIME_UNIT_UNSPECIFIED → timeBaseNs <= startTimeNs →
  Sorted Z.le (startTimeNs :: (opTime <$> ops)) →
  let p := run ops p0 in
  let cfg := mConfig (cm_base p0) in
  let buckets := um_get [] k (cm_pastBuckets p) in
  StronglySorted in_order buckets ∧
  (∀ b, b ∈ buckets → ∃ n,
     edge cfg n <= mBucketStartNs b <= mBucketEndNs b ∧ mBucketEndNs b <= edge cfg (n + 1) ∧
     0 < mCount b ∧
     ∀ m c, bucketInfo (cm_base p) b = FullBucket m c →
       m = n ∧ c = mCount b ∧ mBucketStartNs b = edge cfg n ∧ mBucketEndNs b = edge cfg (n + 1)) ∧
  edge cfg (mCurrentBucketNum (cm_base p)) <= mCurrentBucketStartTimeNs (cm_base p)
    < edge cfg (mCurrentBucketNum (cm_base p) + 1).
Proof.
  intros Hb Ht Hs p cfg buckets. pose proof (bucket_size_pos Hb) as Hsize. fold cfg in Hsize.
  destruct (new_inv Hb Ht) as [Hinv0 _]. fold cfg in Hinv0.
  destruct (run_inv cfg Hsize ops startTimeNs p0 Hinv0 Hs)
    as [now [Hwf Hcfg Hpos Hstart Hnow Hpast]].
  fold p in Hcfg, Hstart, Hpast. destruct (Hpast k) as [Hok Hsort].
  split; [done|]. split; [|done]. intros b Hin.
  rewrite Forall_forall in Hok. destruct (Hok b Hin) as ((n & Hn & Hn1 & Hn2) & Hse & Hcnt).
  exists n. split_and!; try done; try lia. intros m c. unfold bucketInfo. rewrite Hcfg.
  destruct (Z.eqb_spec (mBucketEndNs b - mBucketStartNs b) (mBucketSizeNs cfg)) as [Heq|];
    cbn [negb]; [|discriminate].
  assert (edge cfg (n + 1) = edge cfg n + mBucketSizeNs cfg) as He by (unfold edge; lia).
  intros [= <- <-]. split_and!; try done; try lia.
  unfold getBucketNumFromEndTimeNs. rewrite Hcfg.
  replace (mBucketEndNs b - mTimeBaseNs cfg) with ((n + 1) * mBucketSizeNs cfg)
    by (unfold edge in *; lia).
  rewrite Z.quot_mul by lia. lia.
Qed.
End from_construction.

(** ** Concrete runs *)

(** A count metric with buckets of a second from time 0. *)
Definition secondsMetric : CountMetric := mkCountMetric 1 (Some CTS) None [] [].
Definition secondsCounter (store : gmap nat Activation) (am : gmap Z nat) (dm : gmap Z (list nat))
    : CountMetricProducer :=
  CountMetricProducer_new 0 secondsMetric (-1) [] 0 0 store am dm [] ∅.

Definition eventAt (t : Z) : LogEvent := mkLogEvent 10 0 t [] (-1) (-1) false.
Definition countAt (t : Z) : CountOp := CEvent DEFAULT_METRIC_DIMENSION_KEY true (eventAt t).

(** An alert on more than one event in a bucket. *)
Definition overOne : AnomalyTracker := AnomalyTracker_new (mkAlert 3 1 1 None (Some (toDouble 1))).

Lemma count_buckets_aligned_witness :
  let p := run [countAt 5; CFlush 7; countAt 2000000003; CFlush 3000000001] (secondsCounter ∅ ∅ ∅) in
  StronglySorted in_order (um_get [] DEFAULT_METRIC_DIMENSION_KEY (cm_pastBuckets p)) ∧
  um_get [] DEFAULT_METRIC_DIMENSION_KEY (cm_pastBuckets p) =
    [mkCountBucket 0 7 1; mkCountBucket 2000000000 3000000000 1].
Proof.
  split; [|vm_compute; reflexivity].
  apply (count_buckets_aligned 0 secondsMetric (-1) [] 0 0 ∅ ∅ ∅ [] ∅
    [countAt 5; CFlush 7; countAt 2000000003; CFlush 3000000001] DEFAULT_METRIC_DIMENSION_KEY).
  - discriminate.
  - lia.
  - repeat constructor; cbn; lia.
Defined.

Lemma count_anomaly_value_witness :
  let p1 := addTrackers [overOne] (secondsCounter ∅ ∅ ∅) in
  mAnomalyTrackers (cm_base (run [countAt 5; countAt 7] p1)) =
    detectAndDeclareAnomaly 7 0 DEFAULT_METRIC_DIMENSION_KEY 2 <$> [overOne].
Proof.
  refine (eq_trans (count_anomaly_value 0 secondsMetric (-1) [] 0 0 ∅ ∅ ∅ [] ∅ [overOne]
    [countAt 5] DEFAULT_METRIC_DIMENSION_KEY (eventAt 7) _ _ _ _) _).
  - discriminate.
  - cbn [app]. apply Forall_cons_2; [|apply Forall_cons_2; [|apply Forall_nil_2]];
      intros n; unfold edge; change (mBucketSizeNs _) with 1000000000;
      change (mTimeBaseNs _) with 0; cbn [opTime countAt eventAt GetElapsedTimestampNs]; lia.
  - reflexivity.
  - vm_compute. reflexivity.
  - vm_compute. reflexivity.
Defined.

(** An event exactly at the end of a full bucket closes that bucket without handing it to
    the anomaly trackers: its count stays in the counters of the next full bucket, where the alert
    on more than one event fires on the single event of that bucket; one nanosecond later it does
    not. *)
Theorem count_edge_event_leaks :
  let p1 := addTrackers [overOne] (secondsCounter ∅ ∅ ∅) in
  flat_map declared (mAnomalyTrackers (cm_base (run [countAt 5; countAt 1000000000] p1)))
    = [mkDeclared 1000000000 DEFAULT_METRIC_DIMENSION_KEY 2] ∧
  flat_map declared (mAnomalyTrackers (cm_base (run [countAt 5; countAt 1000000001] p1))) = [] ∧
  countedIn [countAt 5; countAt 1000000000] p1 =
    [(0, DEFAULT_METRIC_DIMENSION_KEY); (1, DEFAULT_METRIC_DIMENSION_KEY)].
Proof. vm_compute. auto. Qed.

(** *** Activations of a count metric *)

(** An activation for 10 ns by matcher 4, cancelled by matcher 5. *)
Definition activatedCounter : CountMetricProducer :=
  secondsCounter {[0%nat := Activation_new ACTIVATE_IMMEDIATELY 10]} {[4 := 0%nat]} {[5 := [0%nat]]}.

Lemma metric_active_iff_witness :
  mIsActive (activity (flushIfExpire 30 (activateLocked 4 25 activatedCounter))) = true.
Proof.
  apply (metric_active_iff (P := CountMetricProducer) (W := list ConditionTracker)
    (mConfig (cm_base activatedCounter)) [] {[0%nat := Activation_new ACTIVATE_IMMEDIATELY 10]}
    {[4 := 0%nat]} {[5 := [0%nat]]} activatedCounter).
  - intros i ptr [<- <-]%lookup_singleton_Some. eexists. split; reflexivity.
  - reflexivity.
  - eapply rtc_once, step_activate.
  - right. exists 4, 0%nat. eexists. split; [reflexivity|]. split; [reflexivity|].
    split; [reflexivity|]. vm_compute. discriminate.
Defined.

Lemma activation_lasts_ttl_witness :
  mIsActive (activity (flushIfExpire 35 (activateLocked 4 25 activatedCounter))) = true.
Proof.
  apply (activation_lasts_ttl (P := CountMetricProducer) activatedCounter 4 25 35 0
    (Activation_new ACTIVATE_IMMEDIATELY 10)).
  - reflexivity.
  - reflexivity.
  - discriminate.
  - cbn. lia.
Defined.

Lemma saved_activations_restored_witness :
  let p := activateLocked 4 25 activatedCounter in
  let saved := writeActiveMetricToProtoOutputStream 30 DEVICE_SHUTDOWN p in
  ∃ z, mActivations (activity (loadActiveMetricLocked saved 100 activatedCounter)) !! 0%nat = Some z ∧
    act_state z = kActive ∧ expiry z = 105.
Proof.
  cbn zeta.
  destruct (saved_activations_restored (P := CountMetricProducer) (activateLocked 4 25 activatedCounter)
    activatedCounter 30 100 DEVICE_SHUTDOWN 4 0 (mkActivation 10 25 kActive ACTIVATE_IMMEDIATELY) 0
    (Activation_new ACTIVATE_IMMEDIATELY 10)) as (z & Hz & _ & Hs).
  - reflexivity.
  - vm_compute. reflexivity.
  - change (unshared {[4 := 0%nat]}). intros i j ptr [<- _]%lookup_singleton_Some [<- _]%lookup_singleton_Some. reflexivity.
  - reflexivity.
  - reflexivity.
  - exists z. split; [exact Hz|]. cbn in Hs. destruct Hs as [Hs He]. split; [exact Hs|].
    unfold expiry in He at 2. cbn in He. lia.
Defined.
