(* ===== verification/DurationTrackers.v ===== *)
(** * Duration trackers (metrics/duration_helper/)

    A duration tracker measures the durations of one dimension key of a duration metric.  The
    trackers of a metric share its anomaly trackers: those are passed to and returned by every
    operation ([AnomalyEnv]), with a counter for the addresses of the alarms they create. *)
From Stdlib Require Import SpecFloat.
From S2P Require Import Prelude UMap FieldValue DimensionKey Matchers Conditions.
From S2P Require Import PriorityQueue Alarms Anomaly MetricProducer.

Record DurationBucket := mkDurationBucket { db_start : Z; db_end : Z; db_duration : Z }.

Record DurationValues := mkDurationValues { dv_duration : Z; dv_fullBucket : Z }.

Abbreviation DurationOutput := (umap MetricDimensionKey (list DurationBucket)).

(** The members every duration tracker has (DurationTracker.h). *)
Record DurationTracker := mkDurationTracker {
  mEventKey : MetricDimensionKey;
  dt_conditionTrackerIndex : Z;
  dt_bucketSizeNs : Z;
  mNested : bool;
  dt_bucketStartNs : Z;
  mDuration : Z;
  mStateKeyDurationMap : umap HashableDimensionKey DurationValues;
  dt_bucketNum : Z;
  mStartTimeNs : Z;
  dt_conditionSliced : bool;
  dt_hasLinksToAll : bool
}.

Definition DurationTracker_new (eventKey : MetricDimensionKey) (conditionIndex : Z) (nesting : bool)
    (currentBucketStartNs currentBucketNum startTimeNs bucketSizeNs : Z)
    (conditionSliced fullLink : bool) : DurationTracker :=
  mkDurationTracker eventKey conditionIndex bucketSizeNs nesting currentBucketStartNs 0 []
    currentBucketNum startTimeNs conditionSliced fullLink.

Definition set_eventKey (k : MetricDimensionKey) (d : DurationTracker) : DurationTracker :=
  mkDurationTracker k (dt_conditionTrackerIndex d) (dt_bucketSizeNs d) (mNested d)
    (dt_bucketStartNs d) (mDuration d) (mStateKeyDurationMap d) (dt_bucketNum d) (mStartTimeNs d)
    (dt_conditionSliced d) (dt_hasLinksToAll d).
Definition set_durations (m : umap HashableDimensionKey DurationValues) (d : DurationTracker)
    : DurationTracker :=
  mkDurationTracker (mEventKey d) (dt_conditionTrackerIndex d) (dt_bucketSizeNs d) (mNested d)
    (dt_bucketStartNs d) (mDuration d) m (dt_bucketNum d) (mStartTimeNs d)
    (dt_conditionSliced d) (dt_hasLinksToAll d).
Definition set_max (max : Z) (d : DurationTracker) : DurationTracker :=
  mkDurationTracker (mEventKey d) (dt_conditionTrackerIndex d) (dt_bucketSizeNs d) (mNested d)
    (dt_bucketStartNs d) max (mStateKeyDurationMap d) (dt_bucketNum d) (mStartTimeNs d)
    (dt_conditionSliced d) (dt_hasLinksToAll d).
Definition set_dt_bucket (start num : Z) (d : DurationTracker) : DurationTracker :=
  mkDurationTracker (mEventKey d) (dt_conditionTrackerIndex d) (dt_bucketSizeNs d) (mNested d)
    start (mDuration d) (mStateKeyDurationMap d) num (mStartTimeNs d)
    (dt_conditionSliced d) (dt_hasLinksToAll d).

Definition dt_bucketEndNs (d : DurationTracker) : Z :=
  mStartTimeNs d + (dt_bucketNum d + 1) * dt_bucketSizeNs d.

(** ** The anomaly trackers *)

Record AnomalyEnv := mkAnomalyEnv { env_trackers : list DurationAnomalyTracker; env_fresh : Z }.

Definition env_map (f : DurationAnomalyTracker → DurationAnomalyTracker) (env : AnomalyEnv)
    : AnomalyEnv := mkAnomalyEnv (f <$> env_trackers env) (env_fresh env).

Definition on_anomaly (f : AnomalyTracker → AnomalyTracker) (t : DurationAnomalyTracker)
    : DurationAnomalyTracker := mkDurationAnomaly (f (Anomaly.base t)) (mAlarms t) (mAlarmMonitor t).

(** [startAnomalyAlarm]: [predict] is the overridden [predictAnomalyTimestampNs]. *)
Definition startAnomalyAlarm (predict : AnomalyTracker → Z → Z) (key : MetricDimensionKey)
    (eventTime : Z) (env : AnomalyEnv) : AnomalyEnv :=
  foldl
    (λ env t,
      let alarmTimestampNs := predict (Anomaly.base t) eventTime in
      if 0 <? alarmTimestampNs then
        mkAnomalyEnv (env_trackers env ++ [startAlarm (env_fresh env) key alarmTimestampNs t])
          (env_fresh env + 1)
      else mkAnomalyEnv (env_trackers env ++ [t]) (env_fresh env))
    (mkAnomalyEnv [] (env_fresh env)) (env_trackers env).

Definition stopAnomalyAlarm (key : MetricDimensionKey) (timestamp : Z) (env : AnomalyEnv)
    : AnomalyEnv := env_map (stopAlarm key timestamp) env.

Definition addPastBucketToAnomalyTrackers (key : MetricDimensionKey) (bucketValue bucketNum : Z)
    (env : AnomalyEnv) : AnomalyEnv :=
  env_map (on_anomaly (addPastBucketValue key bucketValue bucketNum)) env.

Definition dt_detectAndDeclareAnomaly (key : MetricDimensionKey)
    (timestamp currBucketNum currentBucketValue : Z) (env : AnomalyEnv) : AnomalyEnv :=
  env_map (on_anomaly (detectAndDeclareAnomaly timestamp currBucketNum key currentBucketValue)) env.

(** [getAnomalyThreshold]: the threshold truncated to an integer. *)
Definition getAnomalyThreshold (t : AnomalyTracker) : Z :=
  truncate (default (S754_zero false) (trigger_if_sum_gt (mAlert t))).

Definition getRefractoryPeriodEndsSec (key : MetricDimensionKey) (t : AnomalyTracker) : Z :=
  um_get 0 key (mRefractoryPeriodEndsSec t).

(** ** OringDurationTracker: overlapping durations count once *)

Record OringDurationTracker := mkOring {
  od_base : DurationTracker;
  mStarted : umap HashableDimensionKey Z;
  mPaused : umap HashableDimensionKey Z;
  mLastStartTime : Z;
  mConditionKeyMap : umap HashableDimensionKey ConditionKey
}.

Definition OringDurationTracker_new (d : DurationTracker) : OringDurationTracker :=
  mkOring d [] [] 0 [].

Definition set_od_base (d : DurationTracker) (o : OringDurationTracker) : OringDurationTracker :=
  mkOring d (mStarted o) (mPaused o) (mLastStartTime o) (mConditionKeyMap o).
Definition set_started (m : umap HashableDimensionKey Z) (o : OringDurationTracker)
    : OringDurationTracker :=
  mkOring (od_base o) m (mPaused o) (mLastStartTime o) (mConditionKeyMap o).
Definition set_paused (m : umap HashableDimensionKey Z) (o : OringDurationTracker)
    : OringDurationTracker :=
  mkOring (od_base o) (mStarted o) m (mLastStartTime o) (mConditionKeyMap o).
Definition set_lastStart (t : Z) (o : OringDurationTracker) : OringDurationTracker :=
  mkOring (od_base o) (mStarted o) (mPaused o) t (mConditionKeyMap o).
Definition set_conditionKeys (m : umap HashableDimensionKey ConditionKey) (o : OringDurationTracker)
    : OringDurationTracker := mkOring (od_base o) (mStarted o) (mPaused o) (mLastStartTime o) m.

Definition stateKey (d : DurationTracker) : HashableDimensionKey := mStateValuesKey (mEventKey d).

Definition getCurrentStateKeyDuration (d : DurationTracker) : Z :=
  from_option dv_duration 0 (um_find (stateKey d) (mStateKeyDurationMap d)).
Definition getCurrentStateKeyFullBucketDuration (d : DurationTracker) : Z :=
  from_option dv_fullBucket 0 (um_find (stateKey d) (mStateKeyDurationMap d)).

(** [mStateKeyDurationMap\[mEventKey.getStateValuesKey()\].mDuration += duration] *)
Definition recordDuration (duration : Z) (d : DurationTracker) : DurationTracker :=
  let v := um_get (mkDurationValues 0 0) (stateKey d) (mStateKeyDurationMap d) in
  set_durations (um_set (stateKey d) (mkDurationValues (dv_duration v + duration) (dv_fullBucket v))
                   (mStateKeyDurationMap d)) d.

Definition oring_hitGuardRail (newKey : HashableDimensionKey) (o : OringDurationTracker) : bool :=
  if um_mem newKey (mConditionKeyMap o) then false
  else (kDimensionKeySizeSoftLimit - 1 <? size (mConditionKeyMap o))
       && (kDimensionKeySizeHardLimit <? size (mConditionKeyMap o) + 1).

(** One iteration over the future buckets of [predictAnomalyTimestampNs]; [n] iterations are left. *)
Fixpoint predictFuture (d : DurationTracker) (t : AnomalyTracker)
    (eventTimestampNs currentStateBucketPastNs : Z) (n : nat) (futureBucketIdx pastNs : Z) : Z :=
  let thresholdNs := getAnomalyThreshold t in
  let currentBucketEndNs := dt_bucketEndNs d in
  let refractoryPeriodEndNs := getRefractoryPeriodEndsSec (mEventKey d) t * NS_PER_SEC in
  match n with
  | O => Z.max (eventTimestampNs + thresholdNs) refractoryPeriodEndNs
  | S n =>
      let bucketEndNs := currentBucketEndNs + futureBucketIdx * dt_bucketSizeNs d in
      let anomalyTimestampNs :=
        Z.max (bucketEndNs - dt_bucketSizeNs d + thresholdNs - pastNs) refractoryPeriodEndNs in
      if anomalyTimestampNs <=? bucketEndNs then anomalyTimestampNs
      else if mNumOfPastBuckets t <=? 0 then
        predictFuture d t eventTimestampNs currentStateBucketPastNs n (futureBucketIdx + 1) pastNs
      else
        let pastNs := pastNs + dt_bucketSizeNs d in
        let pastNs :=
          if futureBucketIdx <? mNumOfPastBuckets t then
            pastNs - getPastBucketValue (mEventKey d)
                       (dt_bucketNum d - mNumOfPastBuckets t + futureBucketIdx) t
          else if futureBucketIdx =? mNumOfPastBuckets t then
            pastNs - (currentStateBucketPastNs + (currentBucketEndNs - eventTimestampNs))
          else pastNs in
        predictFuture d t eventTimestampNs currentStateBucketPastNs n (futureBucketIdx + 1) pastNs
  end.

Definition oring_predictAnomalyTimestampNs (d : DurationTracker) (t : AnomalyTracker)
    (eventTimestampNs : Z) : Z :=
  let thresholdNs := getAnomalyThreshold t in
  let currentBucketEndNs := dt_bucketEndNs d in
  let currentStateBucketPastNs :=
    getCurrentStateKeyDuration d + getCurrentStateKeyFullBucketDuration d in
  let pastNs := currentStateBucketPastNs + getSumOverPastBuckets (mEventKey d) t in
  let refractoryPeriodEndNs := getRefractoryPeriodEndsSec (mEventKey d) t * NS_PER_SEC in
  let anomalyTimestampNs := Z.max (eventTimestampNs + thresholdNs - pastNs) refractoryPeriodEndNs in
  if anomalyTimestampNs <=? currentBucketEndNs then Z.max eventTimestampNs anomalyTimestampNs
  else
    let pastNs :=
      if 0 <? mNumOfPastBuckets t then
        pastNs - getPastBucketValue (mEventKey d) (dt_bucketNum d - mNumOfPastBuckets t) t
        + (currentBucketEndNs - eventTimestampNs)
      else 0 in
    predictFuture d t eventTimestampNs currentStateBucketPastNs
      (Z.to_nat (mNumOfPastBuckets t + 1)) 1 pastNs.

Definition oring_startAlarm (eventTime : Z) (o : OringDurationTracker) (env : AnomalyEnv)
    : AnomalyEnv :=
  startAnomalyAlarm (oring_predictAnomalyTimestampNs (od_base o)) (mEventKey (od_base o)) eventTime env.

Definition oring_stopAlarm (timestamp : Z) (o : OringDurationTracker) (env : AnomalyEnv)
    : AnomalyEnv := stopAnomalyAlarm (mEventKey (od_base o)) timestamp env.

(** [mStateKeyDurationMap\[...\].mDuration += timestamp - mLastStartTime], then
    [detectAndDeclareAnomaly] on the duration of the full bucket. *)
Definition oring_close (timestamp : Z) (o : OringDurationTracker) : OringDurationTracker :=
  set_od_base (recordDuration (timestamp - mLastStartTime o) (od_base o)) o.
Definition oring_detect (timestamp : Z) (o : OringDurationTracker) (env : AnomalyEnv) : AnomalyEnv :=
  let d := od_base o in
  dt_detectAndDeclareAnomaly (mEventKey d) timestamp (dt_bucketNum d)
    (getCurrentStateKeyDuration d + getCurrentStateKeyFullBucketDuration d) env.

Definition incr (key : HashableDimensionKey) (m : umap HashableDimensionKey Z)
    : umap HashableDimensionKey Z := um_set key (um_get 0 key m + 1) m.

Definition oring_noteStart (key : HashableDimensionKey) (condition : bool) (eventTime : Z)
    (conditionKey : ConditionKey) (s : OringDurationTracker * AnomalyEnv)
    : OringDurationTracker * AnomalyEnv :=
  let '(o, env) := s in
  if oring_hitGuardRail key o then (o, env)
  else
    let '(o, env) :=
      if condition then
        let '(o, env) :=
          match mStarted o with
          | [] =>
              let o := set_lastStart eventTime o in (o, oring_startAlarm eventTime o env)
          | _ => (o, env)
          end in
        (set_started (incr key (mStarted o)) o, env)
      else (set_paused (incr key (mPaused o)) o, env) in
    (if dt_conditionSliced (od_base o) && negb (um_mem key (mConditionKeyMap o))
     then set_conditionKeys (um_set key conditionKey (mConditionKeyMap o)) o else o, env).

Definition isEmpty {A} (l : list A) : bool := match l with [] => true | _ => false end.

Definition oring_noteStop (key : HashableDimensionKey) (timestamp : Z) (stopAll : bool)
    (s : OringDurationTracker * AnomalyEnv) : OringDurationTracker * AnomalyEnv :=
  let '(o, env) := s in
  let '(o, env) :=
    match um_find key (mStarted o) with
    | None => (o, env)
    | Some n =>
        let o :=
          if stopAll || negb (mNested (od_base o)) || (n - 1 <=? 0) then
            set_conditionKeys (um_erase key (mConditionKeyMap o))
              (set_started (um_erase key (mStarted o)) o)
          else set_started (um_set key (n - 1) (mStarted o)) o in
        if isEmpty (mStarted o) then
          let o := oring_close timestamp o in (o, oring_detect timestamp o env)
        else (o, env)
    end in
  let o :=
    match um_find key (mPaused o) with
    | None => o
    | Some n =>
        if stopAll || negb (mNested (od_base o)) || (n - 1 <=? 0) then
          set_conditionKeys (um_erase key (mConditionKeyMap o))
            (set_paused (um_erase key (mPaused o)) o)
        else set_paused (um_set key (n - 1) (mPaused o)) o
    end in
  (o, if isEmpty (mStarted o) then oring_stopAlarm timestamp o env else env).

Definition oring_noteStopAll (timestamp : Z) (s : OringDurationTracker * AnomalyEnv)
    : OringDurationTracker * AnomalyEnv :=
  let '(o, env) := s in
  let '(o, env) :=
    if negb (isEmpty (mStarted o)) then
      let o := oring_close timestamp o in (o, oring_detect timestamp o env)
    else (o, env) in
  let env := oring_stopAlarm timestamp o env in
  (set_conditionKeys [] (set_paused [] (set_started [] o)), env).

(** *** Flushing *)

Definition pushDuration (key : MetricDimensionKey) (b : DurationBucket) (output : DurationOutput)
    : DurationOutput := um_set key (um_get [] key output ++ [b]) output.

(** The loop over [mStateKeyDurationMap]: [done] holds the entries already visited.  The code sends
    the full bucket duration of the current state key for every entry it visits. *)
Fixpoint flushStateKeys (d : DurationTracker) (bucketEndNs : Z) (sendFull : bool)
    (done rest : umap HashableDimensionKey DurationValues) (output : DurationOutput)
    (env : AnomalyEnv)
    : umap HashableDimensionKey DurationValues * DurationOutput * AnomalyEnv :=
  match rest with
  | [] => (done, output, env)
  | (k, v) :: rest' =>
      let key := mkMetricKey (mDimensionKeyInWhat (mEventKey d)) k in
      let '(output, v) :=
        if 0 <? dv_duration v then
          (pushDuration key (mkDurationBucket (dt_bucketStartNs d) bucketEndNs (dv_duration v)) output,
           mkDurationValues (dv_duration v) (dv_fullBucket v + dv_duration v))
        else (output, v) in
      let '(env, v) :=
        if sendFull then
          (addPastBucketToAnomalyTrackers key
             (from_option dv_fullBucket 0 (um_find (stateKey d) (done ++ (k, v) :: rest')))
             (dt_bucketNum d) env,
           mkDurationValues (dv_duration v) 0)
        else (env, v) in
      flushStateKeys d bucketEndNs sendFull (done ++ [(k, mkDurationValues 0 (dv_fullBucket v))])
        rest' output env
  end.

(** The full buckets between the closed bucket and the new one: [n] of them from number [i]. *)
Fixpoint fillBuckets (d : DurationTracker) (fullBucketEnd : Z) (n : nat) (i : Z)
    (output : DurationOutput) (env : AnomalyEnv) : DurationOutput * AnomalyEnv :=
  match n with
  | O => (output, env)
  | S n =>
      let start := fullBucketEnd + dt_bucketSizeNs d * (i - 1) in
      let info := mkDurationBucket start (start + dt_bucketSizeNs d) (dt_bucketSizeNs d) in
      fillBuckets d fullBucketEnd n (i + 1) (pushDuration (mEventKey d) info output)
        (addPastBucketToAnomalyTrackers (mEventKey d) (dt_bucketSizeNs d) (dt_bucketNum d + i) env)
  end.

(** How many buckets a flush at [eventTimeNs] moves forward, as the [int] the code keeps. *)
Definition bucketsForward (eventTimeNs : Z) (d : DurationTracker) : Z :=
  if dt_bucketEndNs d <=? eventTimeNs
  then wrap32 (1 + Z.quot (eventTimeNs - dt_bucketEndNs d) (dt_bucketSizeNs d)) else 0.

Definition closedBucketEnd (eventTimeNs : Z) (d : DurationTracker) : Z :=
  if dt_bucketEndNs d <=? eventTimeNs then dt_bucketEndNs d else eventTimeNs.

(** [mCurrentBucketStartTimeNs] and [mCurrentBucketNum] after a flush. *)
Definition nextBucket (eventTimeNs : Z) (d : DurationTracker) : DurationTracker :=
  let n := bucketsForward eventTimeNs d in
  if 0 <? n then
    set_dt_bucket (dt_bucketEndNs d + (n - 1) * dt_bucketSizeNs d) (dt_bucketNum d + n) d
  else set_dt_bucket eventTimeNs (dt_bucketNum d) d.

(** [flushCurrentBucket]: whether the owner may remove the tracker, the tracker, the output. *)
Definition oring_flushCurrentBucket (eventTimeNs : Z) (output : DurationOutput)
    (s : OringDurationTracker * AnomalyEnv)
    : bool * DurationOutput * (OringDurationTracker * AnomalyEnv) :=
  let '(o, env) := s in
  let d := od_base o in
  let numBucketsForward := bucketsForward eventTimeNs d in
  let fullBucketEnd := dt_bucketEndNs d in
  let currentBucketEndTimeNs := closedBucketEnd eventTimeNs d in
  let running := negb (isEmpty (mStarted o)) in
  let d :=
    if running then recordDuration (currentBucketEndTimeNs - mLastStartTime o) d else d in
  let '(durations, output, env) :=
    flushStateKeys d currentBucketEndTimeNs (fullBucketEnd <? eventTimeNs) []
      (mStateKeyDurationMap d) output env in
  let d := set_durations durations d in
  let '(output, env) :=
    if running then
      fillBuckets d fullBucketEnd (Z.to_nat (numBucketsForward - 1)) 1 output env
    else if 2 <=? numBucketsForward then
      (output, addPastBucketToAnomalyTrackers (mEventKey d) 0
                 (dt_bucketNum d + numBucketsForward - 1) env)
    else (output, env) in
  let d := nextBucket eventTimeNs d in
  (isEmpty (mStarted o) && isEmpty (mPaused o), output,
   (set_lastStart (dt_bucketStartNs d) (set_od_base d o), env)).

Definition oring_flushIfNeeded (eventTimeNs : Z) (output : DurationOutput)
    (s : OringDurationTracker * AnomalyEnv)
    : bool * DurationOutput * (OringDurationTracker * AnomalyEnv) :=
  if eventTimeNs <? dt_bucketEndNs (od_base s.1) then (false, output, s)
  else oring_flushCurrentBucket eventTimeNs output s.

(** *** Conditions and states *)

(** [m.insert(first, last)]: entries whose key is present are not inserted. *)
Definition insertAll (m l : umap HashableDimensionKey Z) : umap HashableDimensionKey Z :=
  foldl (λ m '(k, v), um_insert k v m) m l.

Section sliced.
Context {W : Type} `{!ConditionWizardOps W} (wizard : W).

(** The condition of a tracked key, if the key has a condition key. *)
Definition keyCondition (o : OringDurationTracker) (key : HashableDimensionKey)
    : option ConditionState :=
  ck ← um_find key (mConditionKeyMap o);
  Some (wizard_query wizard (dt_conditionTrackerIndex (od_base o)) ck
          (negb (dt_hasLinksToAll (od_base o)))).

Definition isPausing (o : OringDurationTracker) (e : HashableDimensionKey * Z) : bool :=
  match keyCondition o e.1 with Some c => negb (bool_decide (c = kTrue)) | None => false end.
Definition isStarting (o : OringDurationTracker) (e : HashableDimensionKey * Z) : bool :=
  match keyCondition o e.1 with Some c => bool_decide (c = kTrue) | None => false end.

Definition oring_onSlicedConditionMayChange (overallCondition : bool) (timestamp : Z)
    (s : OringDurationTracker * AnomalyEnv) : OringDurationTracker * AnomalyEnv :=
  let '(o, env) := s in
  let startedToPaused := List.filter (isPausing o) (mStarted o) in
  let pausedToStarted := List.filter (isStarting o) (mPaused o) in
  let '(o, env) :=
    if negb (isEmpty (mStarted o)) then
      let o := set_started (List.filter (λ e, negb (isPausing o e)) (mStarted o)) o in
      if isEmpty (mStarted o) then
        let o := oring_close timestamp o in (o, oring_detect timestamp o env)
      else (o, env)
    else (o, env) in
  let o := set_paused (List.filter (λ e, negb (isStarting o e)) (mPaused o)) o in
  let o := if isEmpty (mStarted o) && negb (isEmpty pausedToStarted)
           then set_lastStart timestamp o else o in
  let env := if isEmpty (mStarted o) && negb (isEmpty pausedToStarted)
             then oring_startAlarm timestamp o env else env in
  let o := set_started (insertAll (mStarted o) pausedToStarted) o in
  let o := set_paused (insertAll (mPaused o) startedToPaused) o in
  (o, if isEmpty (mStarted o) then oring_stopAlarm timestamp o env else env).
End sliced.

Definition oring_onConditionChanged (condition : bool) (timestamp : Z)
    (s : OringDurationTracker * AnomalyEnv) : OringDurationTracker * AnomalyEnv :=
  let '(o, env) := s in
  let '(o, env) :=
    if condition then
      if negb (isEmpty (mPaused o)) then
        let first := isEmpty (mStarted o) in
        let o := if first then set_lastStart timestamp o else o in
        let env := if first then oring_startAlarm timestamp o env else env in
        (set_paused [] (set_started (insertAll (mStarted o) (mPaused o)) o), env)
      else (o, env)
    else
      if negb (isEmpty (mStarted o)) then
        let o := oring_close timestamp o in
        let o := set_started [] (set_paused (insertAll (mPaused o) (mStarted o)) o) in
        (o, oring_detect timestamp o env)
      else (o, env) in
  (o, if isEmpty (mStarted o) then oring_stopAlarm timestamp o env else env).

(** [updateCurrentStateKey]: the value of every part of the state key that has the atom's tag. *)
Definition updateCurrentStateKey (atomId : Z) (newState : FieldValue) (d : DurationTracker)
    : DurationTracker :=
  let values :=
    (λ v, if mTag (fv_field v) =? atomId
          then mkFieldValue (fv_field v) (fv_value newState) (fv_annotations v) else v)
    <$> mValues (stateKey d) in
  set_eventKey (mkMetricKey (mDimensionKeyInWhat (mEventKey d)) (mkKey values)) d.

Definition oring_onStateChanged (timestamp atomId : Z) (newState : FieldValue)
    (o : OringDurationTracker) : OringDurationTracker :=
  if isEmpty (mStarted o) then set_od_base (updateCurrentStateKey atomId newState (od_base o)) o
  else
    let o := set_lastStart timestamp (oring_close timestamp o) in
    set_od_base (updateCurrentStateKey atomId newState (od_base o)) o.

(** ** MaxDurationTracker: the longest duration that ended *)

Inductive DurationState := kStopped | kStarted | kPaused.
#[export] Instance DurationState_eq_dec : EqDecision DurationState.
Proof. solve_decision. Defined.

Record DurationInfo := mkDurationInfo {
  di_state : DurationState; startCount : Z; lastStartTime : Z; lastDuration : Z;
  conditionKeys : ConditionKey
}.

Definition DurationInfo_new : DurationInfo := mkDurationInfo kStopped 0 0 0 ∅.

Record MaxDurationTracker := mkMax {
  md_base : DurationTracker;
  mInfos : umap HashableDimensionKey DurationInfo
}.

Definition MaxDurationTracker_new (d : DurationTracker) : MaxDurationTracker := mkMax d [].

Definition max_hitGuardRail (newKey : HashableDimensionKey) (x : MaxDurationTracker) : bool :=
  if um_mem newKey (mInfos x) then false
  else (kDimensionKeySizeSoftLimit - 1 <? size (mInfos x))
       && (kDimensionKeySizeHardLimit <? size (mInfos x) + 1).

Definition anyStarted (x : MaxDurationTracker) : bool :=
  existsb (λ e, bool_decide (di_state e.2 = kStarted)) (mInfos x).

Definition max_predictAnomalyTimestampNs (x : MaxDurationTracker) (t : AnomalyTracker)
    (currentTimestamp : Z) : Z :=
  let maxElapsed :=
    foldl (λ maxElapsed e,
      if bool_decide (di_state e.2 = kStarted) then
        let duration := lastDuration e.2 + (currentTimestamp - lastStartTime e.2) in
        if maxElapsed <? duration then duration else maxElapsed
      else maxElapsed) 0 (mInfos x) in
  let anomalyTimeNs := currentTimestamp + getAnomalyThreshold t - maxElapsed in
  let refractoryEndNs := getRefractoryPeriodEndsSec (mEventKey (md_base x)) t * NS_PER_SEC in
  Z.max anomalyTimeNs refractoryEndNs.

Definition max_startAlarm (eventTime : Z) (x : MaxDurationTracker) (env : AnomalyEnv) : AnomalyEnv :=
  startAnomalyAlarm (max_predictAnomalyTimestampNs x) (mEventKey (md_base x)) eventTime env.
Definition max_stopAlarm (timestamp : Z) (x : MaxDurationTracker) (env : AnomalyEnv) : AnomalyEnv :=
  stopAnomalyAlarm (mEventKey (md_base x)) timestamp env.

(** [mInfos\[key\] = info] *)
Definition set_info (key : HashableDimensionKey) (info : DurationInfo) (x : MaxDurationTracker)
    : MaxDurationTracker := mkMax (md_base x) (um_set key info (mInfos x)).

Definition max_noteStart (key : HashableDimensionKey) (condition : bool) (eventTime : Z)
    (conditionKey : ConditionKey) (s : MaxDurationTracker * AnomalyEnv)
    : MaxDurationTracker * AnomalyEnv :=
  let '(x, env) := s in
  if max_hitGuardRail key x then (x, env)
  else
    let i := um_get DurationInfo_new key (mInfos x) in
    let ck := if dt_conditionSliced (md_base x) then conditionKey else conditionKeys i in
    match di_state i with
    | kStarted | kPaused =>
        (set_info key (mkDurationInfo (di_state i) (startCount i + 1) (lastStartTime i)
                         (lastDuration i) ck) x, env)
    | kStopped =>
        if negb condition then
          (set_info key (mkDurationInfo kPaused 1 (lastStartTime i) (lastDuration i) ck) x, env)
        else
          (** The alarm is predicted with the new start, before the count is set. *)
          let x' := set_info key (mkDurationInfo kStarted (startCount i) eventTime (lastDuration i) ck) x in
          (set_info key (mkDurationInfo kStarted 1 eventTime (lastDuration i) ck) x,
           max_startAlarm eventTime x' env)
    end.

Definition max_noteStop (key : HashableDimensionKey) (eventTime : Z) (forceStop : bool)
    (s : MaxDurationTracker * AnomalyEnv) : MaxDurationTracker * AnomalyEnv :=
  let '(x, env) := s in
  match um_find key (mInfos x) with
  | None => (x, env)
  | Some i =>
      let ends := forceStop || negb (mNested (md_base x)) || (startCount i - 1 <=? 0) in
      let '(i, x, env) :=
        match di_state i with
        | kStopped => (i, x, env)
        | kStarted =>
            if ends then
              let env := max_stopAlarm eventTime x env in
              let i := mkDurationInfo kStopped (startCount i - 1) (lastStartTime i)
                         (lastDuration i + (eventTime - lastStartTime i)) (conditionKeys i) in
              let x := set_info key i x in
              (i, x, if anyStarted x then max_startAlarm eventTime x env else env)
            else
              let i := mkDurationInfo kStarted (startCount i - 1) (lastStartTime i)
                         (lastDuration i) (conditionKeys i) in
              (i, set_info key i x, env)
        | kPaused =>
            let i := mkDurationInfo (if ends then kStopped else kPaused) (startCount i - 1)
                       (lastStartTime i) (lastDuration i) (conditionKeys i) in
            (i, set_info key i x, env)
        end in
      let x :=
        if mDuration (md_base x) <? lastDuration i
        then mkMax (set_max (lastDuration i) (md_base x)) (mInfos x) else x in
      let x :=
        if bool_decide (di_state i = kStopped) then mkMax (md_base x) (um_erase key (mInfos x)) else x in
      (x, env)
  end.

(** [std::set<HashableDimensionKey>::insert]: the elements are kept in the order of [operator<]. *)
Fixpoint keySet_insert (key : HashableDimensionKey) (l : list HashableDimensionKey)
    : list HashableDimensionKey :=
  match l with
  | [] => [key]
  | x :: l' =>
      if hdk_ltb x key then x :: keySet_insert key l'
      else if hdk_ltb key x then key :: l else l
  end.

Definition keySet (m : umap HashableDimensionKey DurationInfo) : list HashableDimensionKey :=
  foldl (λ keys e, keySet_insert e.1 keys) [] m.

Definition max_noteStopAll (eventTime : Z) (s : MaxDurationTracker * AnomalyEnv)
    : MaxDurationTracker * AnomalyEnv :=
  foldl (λ s key, max_noteStop key eventTime true s) s (keySet (mInfos s.1)).

Definition max_flushCurrentBucket (eventTimeNs : Z) (output : DurationOutput)
    (s : MaxDurationTracker * AnomalyEnv)
    : bool * DurationOutput * (MaxDurationTracker * AnomalyEnv) :=
  let '(x, env) := s in
  let d := md_base x in
  let infos := List.filter (λ e, negb (bool_decide (di_state e.2 = kStopped))) (mInfos x) in
  let output :=
    if negb (mDuration d =? 0) then
      pushDuration (mEventKey d)
        (mkDurationBucket (dt_bucketStartNs d) (closedBucketEnd eventTimeNs d) (mDuration d)) output
    else output in
  (isEmpty infos, output, (mkMax (set_max 0 (nextBucket eventTimeNs d)) infos, env)).

Definition max_flushIfNeeded (eventTimeNs : Z) (output : DurationOutput)
    (s : MaxDurationTracker * AnomalyEnv)
    : bool * DurationOutput * (MaxDurationTracker * AnomalyEnv) :=
  if eventTimeNs <? dt_bucketEndNs (md_base s.1) then (false, output, s)
  else max_flushCurrentBucket eventTimeNs output s.

Definition noteConditionChanged (key : HashableDimensionKey) (conditionMet : bool) (timestamp : Z)
    (s : MaxDurationTracker * AnomalyEnv) : MaxDurationTracker * AnomalyEnv :=
  let '(x, env) := s in
  match um_find key (mInfos x) with
  | None => (x, env)
  | Some i =>
      match di_state i with
      | kStarted =>
          if negb conditionMet then
            let env := max_stopAlarm timestamp x env in
            let x := set_info key (mkDurationInfo kPaused (startCount i) (lastStartTime i)
                       (lastDuration i + (timestamp - lastStartTime i)) (conditionKeys i)) x in
            (x, if anyStarted x then max_startAlarm timestamp x env else env)
          else (x, env)
      | kStopped => (x, env)
      | kPaused =>
          if conditionMet then
            let x := set_info key (mkDurationInfo kStarted (startCount i) timestamp
                       (lastDuration i) (conditionKeys i)) x in
            (x, max_startAlarm timestamp x env)
          else (x, env)
      end
  end.

Definition max_onConditionChanged (condition : bool) (timestamp : Z)
    (s : MaxDurationTracker * AnomalyEnv) : MaxDurationTracker * AnomalyEnv :=
  foldl (λ s e, noteConditionChanged e.1 condition timestamp s) s (mInfos s.1).

Definition max_onSlicedConditionMayChange {W : Type} `{!ConditionWizardOps W} (wizard : W)
    (overallCondition : bool) (timestamp : Z) (s : MaxDurationTracker * AnomalyEnv)
    : MaxDurationTracker * AnomalyEnv :=
  foldl (λ s e,
    if bool_decide (di_state e.2 = kStopped) then s
    else
      let conditionState :=
        wizard_query wizard (dt_conditionTrackerIndex (md_base s.1)) (conditionKeys e.2)
          (negb (dt_hasLinksToAll (md_base s.1))) in
      noteConditionChanged e.1 (bool_decide (conditionState = kTrue)) timestamp s)
    s (mInfos s.1).
