(* ===== verification/DurationTrackersFacts.v ===== *)
(** * Facts on duration trackers

    An "oring" tracker measures exactly the time during which the condition is true and some key
    is started.  MaxDurationFacts is about the "max" tracker. *)
From stdpp Require Import sorting.
From S2P Require Import Prelude UMap FieldValue DimensionKey DimensionKeyFacts Matchers Conditions.
From S2P Require Import Anomaly MetricProducer DurationTrackers.

Lemma insertAll_app m l : um_wf (m ++ l) → insertAll m l = m ++ l.
Proof.
  unfold insertAll. revert m. induction l as [|[k v] l IH]; intros m Hwf; [by rewrite app_nil_r|].
  cbn [foldl]. pose proof (um_wf_app_fresh _ _ _ _ Hwf) as Hf.
  unfold um_insert, um_mem. rewrite Hf, um_set_fresh by done.
  rewrite IH; rewrite <- app_assoc; [done|exact Hwf].
Qed.

(** ** Durations recorded and delivered *)

Definition heldDuration (d : DurationTracker) : Z := sumOf dv_duration (mStateKeyDurationMap d).
Definition bucketsDuration (l : list DurationBucket) : Z := sumZ (db_duration <$> l).
Definition outputDuration (output : DurationOutput) : Z := sumOf bucketsDuration output.

Definition durations_ok (m : umap HashableDimensionKey DurationValues) : Prop :=
  ∀ e, e ∈ m → 0 <= dv_duration e.2.

Lemma recordDuration_held x d : heldDuration (recordDuration x d) = heldDuration d + x.
Proof.
  unfold heldDuration, recordDuration. cbn [set_durations mStateKeyDurationMap]. rewrite sumOf_set.
  cbn [dv_duration].
  rewrite (um_get_option (mkDurationValues 0 0) dv_duration) by done. lia.
Qed.

Lemma recordDuration_ok x d :
  0 <= x → durations_ok (mStateKeyDurationMap d) →
  durations_ok (mStateKeyDurationMap (recordDuration x d)).
Proof.
  intros Hx Hd e [Hin|He]%um_set_elem_of; [by apply Hd|]. rewrite He. cbn.
  destruct (um_get_elem (mkDurationValues 0 0) (stateKey d) (mStateKeyDurationMap d))
    as [->|(e' & Hin & <-)]; cbn; [lia|]. specialize (Hd e' Hin). lia.
Qed.

Lemma pushDuration_sum key b output :
  outputDuration (pushDuration key b output) = outputDuration output + db_duration b.
Proof.
  unfold outputDuration, pushDuration. rewrite sumOf_set.
  rewrite <- (um_get_option [] bucketsDuration) by done.
  unfold bucketsDuration. rewrite fmap_app, sumZ_app. cbn. lia.
Qed.

(** The buckets of an output satisfy a predicate. *)
Definition all_buckets (P : DurationBucket → Prop) (output : DurationOutput) : Prop :=
  ∀ e b, e ∈ output → b ∈ e.2 → P b.

Lemma pushDuration_all P key b output :
  P b → all_buckets P output → all_buckets P (pushDuration key b output).
Proof.
  intros Hb Ho e b' [Hin|He]%um_set_elem_of Hb'; [by eapply Ho|]. rewrite He in Hb'.
  apply elem_of_app in Hb' as [Hb'| ->%list_elem_of_singleton]; [|done].
  destruct (um_get_elem [] key output) as [Heq|(e' & Hin & Heq)].
  - rewrite Heq in Hb'. set_solver.
  - rewrite <- Heq in Hb'. by eapply Ho.
Qed.

Lemma durations_sum_nonneg m : durations_ok m → 0 <= sumOf dv_duration m.
Proof.
  induction m as [|[k v] m IH]; intros Hm; [done|]. rewrite sumOf_cons.
  assert (0 <= dv_duration v) by (apply (Hm (k, v)); set_solver).
  assert (0 <= sumOf dv_duration m) by (apply IH; intros e He; apply Hm; set_solver). lia.
Qed.

(** Flushing the state keys moves the recorded durations to the output. *)
Lemma flushStateKeys_spec d e full P rest : ∀ done output env,
  durations_ok rest → all_buckets P output →
  (∀ x, 0 < x <= sumOf dv_duration rest → P (mkDurationBucket (dt_bucketStartNs d) e x)) →
  let r := flushStateKeys d e full done rest output env in
  outputDuration r.1.2 = outputDuration output + sumOf dv_duration rest ∧
  sumOf dv_duration r.1.1 = sumOf dv_duration done ∧
  (durations_ok done → durations_ok r.1.1) ∧ all_buckets P r.1.2.
Proof.
  induction rest as [|[k v] rest IH]; intros done output env Hok Hall HP.
  { cbn [flushStateKeys fst snd]. change (sumOf dv_duration []) with 0. split_and!; done || lia. }
  assert (0 <= dv_duration v) as Hv by (apply (Hok (k, v)); set_solver).
  assert (Hok' : durations_ok rest) by (intros x Hx; apply Hok; set_solver).
  pose proof (durations_sum_nonneg rest Hok') as Hsum. rewrite sumOf_cons in *.
  cbn [flushStateKeys]. set (key := mkMetricKey (mDimensionKeyInWhat (mEventKey d)) k).
  set (b := mkDurationBucket (dt_bucketStartNs d) e (dv_duration v)).
  set (output' := if 0 <? dv_duration v then pushDuration key b output else output).
  assert (Hout : outputDuration output' = outputDuration output + dv_duration v ∧ all_buckets P output').
  { unfold output'. destruct (Z.ltb_spec 0 (dv_duration v)).
    - rewrite pushDuration_sum. split; [done|]. apply pushDuration_all; [|done]. apply HP. lia.
    - split; [lia|done]. }
  destruct Hout as [Hout Hall'].
  assert (Hstep : ∀ f env', let r := flushStateKeys d e full (done ++ [(k, mkDurationValues 0 f)]) rest output' env' in
    outputDuration r.1.2 = outputDuration output + (dv_duration v + sumOf dv_duration rest) ∧
    sumOf dv_duration r.1.1 = sumOf dv_duration done ∧
    (durations_ok done → durations_ok r.1.1) ∧ all_buckets P r.1.2).
  { intros f env'. destruct (IH (done ++ [(k, mkDurationValues 0 f)]) output' env' Hok' Hall')
      as (H1 & H2 & H3 & H4).
    { intros x Hx. apply HP. lia. }
    split_and!; [rewrite H1; lia|rewrite H2, sumOf_app, sumOf_cons; cbn; lia| |done].
    intros Hd. apply H3. intros x [Hx| ->%list_elem_of_singleton]%elem_of_app; [by apply Hd|cbn; lia]. }
  unfold output' in Hstep. destruct (0 <? dv_duration v), full; apply Hstep.
Qed.

Lemma fillBuckets_spec d e P n : ∀ i output env,
  all_buckets P output →
  (∀ s, P (mkDurationBucket s (s + dt_bucketSizeNs d) (dt_bucketSizeNs d))) →
  let r := fillBuckets d e n i output env in
  outputDuration r.1 = outputDuration output + Z.of_nat n * dt_bucketSizeNs d ∧ all_buckets P r.1.
Proof.
  induction n as [|n IH]; intros i output env Hall HP; cbn [fillBuckets].
  { split; [cbn [fst Z.of_nat]; lia|done]. }
  edestruct IH as [H1 H2]; [by apply pushDuration_all|exact HP|].
  split; [|exact H2]. rewrite H1, pushDuration_sum. cbn [db_duration]. lia.
Qed.

(** The duration that is running and not yet recorded. *)
Definition pendingDuration (now : Z) (o : OringDurationTracker) : Z :=
  if isEmpty (mStarted o) then 0 else now - mLastStartTime o.

(** A bucket lasts no longer than its bounds. *)
Definition duration_fits (b : DurationBucket) : Prop :=
  0 < db_duration b <= db_end b - db_start b.

(** The state of a tracker at time [now], in the bucket that contains [now]. *)
Record oring_inv (now : Z) (output : DurationOutput) (o : OringDurationTracker) : Prop := {
  oi_size : 0 < dt_bucketSizeNs (od_base o);
  oi_end : now < dt_bucketEndNs (od_base o);
  oi_start : dt_bucketStartNs (od_base o) <= now;
  oi_last : isEmpty (mStarted o) = false → mLastStartTime o <= now;
  oi_held : durations_ok (mStateKeyDurationMap (od_base o));
  oi_bound : heldDuration (od_base o) + pendingDuration now o <= now - dt_bucketStartNs (od_base o);
  oi_output : all_buckets duration_fits output
}.

(** The number of buckets a flush moves forward fits an [int]. *)
Definition flush_range (t : Z) (d : DurationTracker) : Prop :=
  t < dt_bucketEndNs d + (2 ^ 31 - 2) * dt_bucketSizeNs d.

Lemma bucketsForward_spec t d :
  0 < dt_bucketSizeNs d → flush_range t d →
  let n := bucketsForward t d in
  (t < dt_bucketEndNs d → n = 0) ∧
  (dt_bucketEndNs d <= t → 1 <= n ∧
     dt_bucketEndNs d + (n - 1) * dt_bucketSizeNs d <= t < dt_bucketEndNs d + n * dt_bucketSizeNs d).
Proof.
  intros Hsize Hr n. unfold n, bucketsForward, flush_range in *.
  destruct (Z.leb_spec (dt_bucketEndNs d) t) as [Hge|]; [|split; [done|lia]]. split; [lia|]. intros _.
  rewrite quot_div_nonneg by lia.
  set (q := (t - dt_bucketEndNs d) / dt_bucketSizeNs d).
  pose proof (Z.mul_div_le (t - dt_bucketEndNs d) (dt_bucketSizeNs d) Hsize) as H1.
  pose proof (Z.mul_succ_div_gt (t - dt_bucketEndNs d) (dt_bucketSizeNs d) Hsize) as H2.
  assert (0 <= q < 2 ^ 31 - 2) as Hq.
  { split; [apply Z.div_pos; lia|]. apply Z.div_lt_upper_bound; lia. }
  fold q in H1, H2. rewrite wrap32_id by (unfold int32; lia). nia.
Qed.

(** What a flush keeps of a tracker. *)
Definition same_keys (o o' : OringDurationTracker) : Prop :=
  mStarted o' = mStarted o ∧ mPaused o' = mPaused o ∧ mConditionKeyMap o' = mConditionKeyMap o ∧
  mNested (od_base o') = mNested (od_base o) ∧
  dt_conditionSliced (od_base o') = dt_conditionSliced (od_base o) ∧
  dt_bucketSizeNs (od_base o') = dt_bucketSizeNs (od_base o) ∧
  mStartTimeNs (od_base o') = mStartTimeNs (od_base o).

(** All the time measured so far. *)
Definition measured (now : Z) (output : DurationOutput) (o : OringDurationTracker) : Z :=
  outputDuration output + heldDuration (od_base o) + pendingDuration now o.

Definition running (o : OringDurationTracker) : bool := negb (isEmpty (mStarted o)).

Lemma measured_later now t output o :
  measured t output o = measured now output o + if running o then t - now else 0.
Proof. unfold measured, pendingDuration, running. destruct (isEmpty (mStarted o)); cbn [negb]; lia. Qed.

(** The tracker after the current bucket is closed and before the next one is opened. *)
Definition closing (t : Z) (o : OringDurationTracker) : DurationTracker :=
  if running o then recordDuration (closedBucketEnd t (od_base o) - mLastStartTime o) (od_base o)
  else od_base o.

Lemma closing_fields t o :
  dt_bucketStartNs (closing t o) = dt_bucketStartNs (od_base o) ∧
  dt_bucketSizeNs (closing t o) = dt_bucketSizeNs (od_base o) ∧
  dt_bucketNum (closing t o) = dt_bucketNum (od_base o) ∧
  mStartTimeNs (closing t o) = mStartTimeNs (od_base o) ∧
  mNested (closing t o) = mNested (od_base o) ∧
  dt_conditionSliced (closing t o) = dt_conditionSliced (od_base o).
Proof. unfold closing. by destruct (running o). Qed.

Lemma closedBucketEnd_min t d : closedBucketEnd t d = Z.min t (dt_bucketEndNs d).
Proof. unfold closedBucketEnd. destruct (Z.leb_spec (dt_bucketEndNs d) t); lia. Qed.

Lemma closing_held now output t o :
  oring_inv now output o → now <= t →
  durations_ok (mStateKeyDurationMap (closing t o)) ∧
  heldDuration (closing t o) =
    heldDuration (od_base o) + pendingDuration now o +
    (if running o then closedBucketEnd t (od_base o) - now else 0) ∧
  heldDuration (closing t o) <= closedBucketEnd t (od_base o) - dt_bucketStartNs (od_base o).
Proof.
  intros [Hsize Hend Hstart Hlast Hheld Hbound _] Ht. unfold closing, pendingDuration, running in *.
  rewrite closedBucketEnd_min. destruct (isEmpty (mStarted o)) eqn:E; cbn [negb].
  - split_and!; [done|lia|]. lia.
  - specialize (Hlast eq_refl). rewrite recordDuration_held.
    split_and!; [apply recordDuration_ok; [lia|done]|lia|lia].
Qed.

Lemma nextBucket_spec t d :
  0 < dt_bucketSizeNs d → flush_range t d → dt_bucketStartNs d <= t →
  let d' := nextBucket t d in
  mStateKeyDurationMap d' = mStateKeyDurationMap d ∧ dt_bucketSizeNs d' = dt_bucketSizeNs d ∧
  mStartTimeNs d' = mStartTimeNs d ∧ mNested d' = mNested d ∧
  dt_conditionSliced d' = dt_conditionSliced d ∧
  t < dt_bucketEndNs d' ∧ dt_bucketStartNs d' <= t ∧
  dt_bucketStartNs d' = closedBucketEnd t d + Z.max 0 (bucketsForward t d - 1) * dt_bucketSizeNs d.
Proof.
  intros Hsize Hr Hstart d'. destruct (bucketsForward_spec t d Hsize Hr) as [Hlt Hge].
  unfold d', nextBucket, closedBucketEnd.
  destruct (Z.leb_spec (dt_bucketEndNs d) t) as [Hle|Hgt].
  - destruct (Hge Hle) as [Hn Hb]. destruct (Z.ltb_spec 0 (bucketsForward t d)); [|lia].
    cbn [set_dt_bucket mStateKeyDurationMap dt_bucketSizeNs mStartTimeNs mNested dt_conditionSliced dt_bucketStartNs].
    unfold dt_bucketEndNs at 1.
    cbn [set_dt_bucket mStartTimeNs dt_bucketNum dt_bucketSizeNs].
    split_and!; try done; unfold dt_bucketEndNs in *; nia.
  - rewrite (Hlt Hgt). cbn [Z.ltb Z.compare]. split_and!; try done; cbn; unfold dt_bucketEndNs in *; cbn; lia.
Qed.

Lemma oring_flush_spec now t output o env :
  oring_inv now output o → now <= t → flush_range t (od_base o) →
  let r := oring_flushCurrentBucket t output (o, env) in
  oring_inv t r.1.2 r.2.1 ∧ same_keys o r.2.1 ∧ measured t r.1.2 r.2.1 = measured t output o ∧
  heldDuration (od_base r.2.1) = 0 ∧
  (t < dt_bucketEndNs (od_base o) → mLastStartTime r.2.1 = t).
Proof.
  intros Hinv Ht Hr. destruct (closing_held now output t o Hinv Ht) as (Hok & Hheld & Hfit).
  destruct (closing_fields t o) as (Hcs & Hcz & Hcn & Hct & Hcm & Hcc).
  pose proof Hinv as [Hsize Hend Hstart Hlast _ _ Hout].
  unfold oring_flushCurrentBucket. fold (running o). fold (closing t o).
  destruct (flushStateKeys_spec (closing t o) (closedBucketEnd t (od_base o)) (dt_bucketEndNs (od_base o) <? t)
    duration_fits (mStateKeyDurationMap (closing t o)) [] output env Hok Hout) as (Ho1 & Hs1 & Hd1 & Ha1).
  { intros x Hx. split; cbn; [lia|]. rewrite Hcs. unfold heldDuration in Hfit. lia. }
  destruct (flushStateKeys _ _ _ _ _ _ _) as [[durs out1] env1]. cbn [fst snd] in *.
  set (d1 := set_durations durs (closing t o)).
  assert (Hd1e : dt_bucketEndNs d1 = dt_bucketEndNs (od_base o))
    by (unfold dt_bucketEndNs, d1; cbn; by rewrite Hct, Hcn, Hcz).
  assert (Hbf : bucketsForward t d1 = bucketsForward t (od_base o)).
  { unfold bucketsForward. rewrite Hd1e. unfold d1. cbn. by rewrite Hcz. }
  destruct (nextBucket_spec t d1) as (Hm & Hz & Hst & Hn & Hc & He & Hs & Hse);
    [by unfold d1; cbn; rewrite Hcz|by unfold flush_range in *; rewrite Hd1e; unfold d1; cbn; rewrite Hcz
    |unfold d1; cbn; rewrite Hcs; lia|].
  set (fill := if running o then fillBuckets d1 (dt_bucketEndNs (od_base o))
         (Z.to_nat (bucketsForward t (od_base o) - 1)) 1 out1 env1
       else if 2 <=? bucketsForward t (od_base o)
            then (out1, addPastBucketToAnomalyTrackers (mEventKey d1) 0
                    (dt_bucketNum d1 + bucketsForward t (od_base o) - 1) env1) else (out1, env1)).
  assert (Hfill : outputDuration fill.1 = outputDuration out1 +
      (if running o then Z.max 0 (bucketsForward t (od_base o) - 1) * dt_bucketSizeNs (od_base o) else 0) ∧
      all_buckets duration_fits fill.1).
  { unfold fill. destruct (running o).
    - edestruct fillBuckets_spec as [Hf1 Hf2]; [exact Ha1| |split; [rewrite Hf1|exact Hf2]].
      + intros s. split; unfold d1; cbn; rewrite Hcz; lia.
      + unfold d1. cbn [set_durations dt_bucketSizeNs]. rewrite Hcz. lia.
    - destruct (2 <=? bucketsForward t (od_base o)); cbn [fst]; split; done || lia. }
  cbv zeta. fold d1. fold fill. destruct fill as [out2 env2] eqn:Efill. cbn [fst snd] in *.
  destruct Hfill as [Hfo Hfa].
  assert (Hheld' : heldDuration (nextBucket t d1) = 0).
  { unfold heldDuration. rewrite Hm. unfold d1. cbn [set_durations mStateKeyDurationMap]. by rewrite Hs1. }
  split_and!.
  - constructor; cbn [set_lastStart set_od_base od_base mStarted mLastStartTime]; try done; try lia.
    + rewrite Hz. unfold d1. cbn. by rewrite Hcz.
    + rewrite Hm. unfold d1. cbn. apply Hd1. by intros e He'%elem_of_nil.
    + rewrite Hheld'. unfold pendingDuration. cbn. destruct (isEmpty (mStarted o)); lia.
  - unfold same_keys. cbn. rewrite Hn, Hc, Hz, Hst. unfold d1. cbn. by rewrite Hcm, Hcc, Hcz, Hct.
  - rewrite (measured_later now t output o). unfold measured, pendingDuration, running in *.
    cbn [set_lastStart set_od_base od_base mStarted mLastStartTime].
    rewrite Hheld', Hfo, Ho1. unfold heldDuration in Hheld at 1. rewrite Hheld, Hse, Hbf.
    unfold d1 at 2. cbn [set_durations dt_bucketSizeNs]. rewrite Hcz.
    replace (closedBucketEnd t d1) with (closedBucketEnd t (od_base o))
      by (unfold closedBucketEnd; by rewrite Hd1e).
    unfold pendingDuration. destruct (isEmpty (mStarted o)); cbn [negb]; lia.
  - done.
  - intros Hlt. cbn [set_lastStart mLastStartTime]. rewrite Hse, Hbf, closedBucketEnd_min, Hd1e.
    unfold bucketsForward. destruct (Z.leb_spec (dt_bucketEndNs (od_base o)) t); lia.
Qed.

(** ** Operations at one point in time *)

(** The members of a tracker the invariant speaks of, the durations of the state keys included. *)
Definition same_clock (d d' : DurationTracker) : Prop :=
  dt_bucketSizeNs d' = dt_bucketSizeNs d ∧ dt_bucketEndNs d' = dt_bucketEndNs d ∧
  dt_bucketStartNs d' = dt_bucketStartNs d ∧ mStateKeyDurationMap d' = mStateKeyDurationMap d.

(** The running duration, if there is one, is recorded up to [t]. *)
Definition recorded (t : Z) (o : OringDurationTracker) : DurationTracker :=
  if running o then recordDuration (t - mLastStartTime o) (od_base o) else od_base o.

(** An operation that records the running duration and stops or restarts the clock at [t]. *)
Lemma inv_recorded t output o o' :
  oring_inv t output o → same_clock (recorded t o) (od_base o') →
  (running o' = true → mLastStartTime o' = t) →
  oring_inv t output o' ∧ measured t output o' = measured t output o.
Proof.
  intros [Hsize Hend Hstart Hlast Hheld Hbound Hout] (H1 & H2 & H3 & H4) Hrun.
  assert (Hr : dt_bucketSizeNs (recorded t o) = dt_bucketSizeNs (od_base o) ∧
               dt_bucketEndNs (recorded t o) = dt_bucketEndNs (od_base o) ∧
               dt_bucketStartNs (recorded t o) = dt_bucketStartNs (od_base o) ∧
               durations_ok (mStateKeyDurationMap (recorded t o)) ∧
               heldDuration (recorded t o) = heldDuration (od_base o) + pendingDuration t o).
  { unfold recorded, running, pendingDuration. destruct (isEmpty (mStarted o)); cbn [negb].
    - split_and!; done || lia.
    - specialize (Hlast eq_refl). rewrite recordDuration_held.
      split_and!; try done. apply recordDuration_ok; [lia|done]. }
  destruct Hr as (R1 & R2 & R3 & R4 & R5).
  assert (Hh : heldDuration (od_base o') = heldDuration (recorded t o))
    by (unfold heldDuration; by rewrite H4).
  assert (Hp : pendingDuration t o' = 0).
  { unfold pendingDuration, running in *. destruct (isEmpty (mStarted o')); [done|].
    rewrite Hrun by done. lia. }
  split; [|unfold measured; rewrite Hp, Hh, R5; lia].
  constructor; rewrite ?H1, ?H2, ?H3, ?H4, ?R1, ?R2, ?R3, ?Hp, ?Hh, ?R5; try done; try lia.
  intros E. unfold running in Hrun. rewrite E in Hrun. by rewrite Hrun.
Qed.

(** An operation that does not touch the clock. *)
Lemma inv_kept t output o o' :
  oring_inv t output o → od_base o' = od_base o → running o' = running o →
  mLastStartTime o' = mLastStartTime o →
  oring_inv t output o' ∧ measured t output o' = measured t output o.
Proof.
  intros [] Hb Hr Hl. unfold running in Hr. apply (f_equal negb) in Hr. rewrite !negb_involutive in Hr.
  unfold measured, pendingDuration in *.
  split; [constructor|]; unfold pendingDuration; rewrite ?Hb, ?Hr, ?Hl; done.
Qed.

(** ** Operations on a tracker *)

Inductive DurationOp :=
| OpStart (key : HashableDimensionKey) (conditionKey : ConditionKey)
| OpStop (key : HashableDimensionKey)
| OpStopAll
| OpCondition (condition : bool)
| OpState (atomId : Z) (newState : FieldValue)
| OpFlush.

(** One operation at time [t]: the owner first flushes the buckets that have passed.  A start is
    told the condition [cond] of the metric. *)
Definition oring_apply (cond : bool) (t : Z) (op : DurationOp) (output : DurationOutput)
    (s : OringDurationTracker * AnomalyEnv) : DurationOutput * (OringDurationTracker * AnomalyEnv) :=
  match op with
  | OpStart key ck => (output, oring_noteStart key cond t ck s)
  | OpStop key => (output, oring_noteStop key t false s)
  | OpStopAll => (output, oring_noteStopAll t s)
  | OpCondition c => (output, oring_onConditionChanged c t s)
  | OpState atomId newState => (output, (oring_onStateChanged t atomId newState s.1, s.2))
  | OpFlush => let r := oring_flushCurrentBucket t output s in (r.1.2, r.2)
  end.

Definition oring_step (cond : bool) (t : Z) (op : DurationOp) (output : DurationOutput)
    (s : OringDurationTracker * AnomalyEnv) : DurationOutput * (OringDurationTracker * AnomalyEnv) :=
  let r := oring_flushIfNeeded t output s in oring_apply cond t op r.1.2 r.2.

(** *** The contract: which keys are started, whether the condition holds *)

Record DurationSpec := mkDurationSpec { sp_condition : bool; sp_counts : umap HashableDimensionKey Z }.

Definition spec_active (s : DurationSpec) : bool := sp_condition s && negb (isEmpty (sp_counts s)).

(** Starts nest; a stop ends one start, or all of them when the metric does not nest. *)
Definition spec_stop (nested : bool) (key : HashableDimensionKey) (m : umap HashableDimensionKey Z)
    : umap HashableDimensionKey Z :=
  match um_find key m with
  | None => m
  | Some n => if nested && (1 <? n) then um_set key (n - 1) m else um_erase key m
  end.

Definition spec_apply (nested : bool) (op : DurationOp) (s : DurationSpec) : DurationSpec :=
  match op with
  | OpStart key _ => mkDurationSpec (sp_condition s) (incr key (sp_counts s))
  | OpStop key => mkDurationSpec (sp_condition s) (spec_stop nested key (sp_counts s))
  | OpStopAll => mkDurationSpec (sp_condition s) []
  | OpCondition c => mkDurationSpec c (sp_counts s)
  | OpState _ _ | OpFlush => s
  end.

Fixpoint spec_run (nested : bool) (last : Z) (evs : list (Z * DurationOp)) (s : DurationSpec)
    : Z * DurationSpec :=
  match evs with
  | [] => (0, s)
  | (t, op) :: evs =>
      let r := spec_run nested t evs (spec_apply nested op s) in
      ((if spec_active s then t - last else 0) + r.1, r.2)
  end.

Fixpoint oring_run (evs : list (Z * DurationOp)) (nested : bool) (spec : DurationSpec)
    (output : DurationOutput) (s : OringDurationTracker * AnomalyEnv)
    : DurationOutput * (OringDurationTracker * AnomalyEnv) :=
  match evs with
  | [] => (output, s)
  | (t, op) :: evs =>
      let r := oring_step (sp_condition spec) t op output s in
      oring_run evs nested (spec_apply nested op spec) r.1 r.2
  end.

(** The tracker keeps the started keys in [mStarted] while the condition holds and in [mPaused]
    otherwise. *)
Record oring_sim (nested : bool) (spec : DurationSpec) (o : OringDurationTracker) : Prop := {
  os_started : mStarted o = if sp_condition spec then sp_counts spec else [];
  os_paused : mPaused o = if sp_condition spec then [] else sp_counts spec;
  os_wf : um_wf (sp_counts spec);
  os_nested : mNested (od_base o) = nested;
  os_keys : mConditionKeyMap o = [];
  os_sliced : dt_conditionSliced (od_base o) = false
}.

Lemma sim_running nested spec o : oring_sim nested spec o → running o = spec_active spec.
Proof. intros []. unfold running, spec_active. rewrite os_started0. by destruct (sp_condition spec). Qed.

Lemma sim_same_keys nested spec o o' : same_keys o o' → oring_sim nested spec o → oring_sim nested spec o'.
Proof. intros (H1 & H2 & H3 & H4 & H5 & _) []. constructor; congruence. Qed.

(** What an operation at time [t] must establish. *)
Definition op_ok (nested : bool) (t : Z) (op : DurationOp) (spec : DurationSpec)
    (output : DurationOutput) (o : OringDurationTracker) (output' : DurationOutput)
    (o' : OringDurationTracker) : Prop :=
  (oring_inv t output' o' ∧ measured t output' o' = measured t output o) ∧
  oring_sim nested (spec_apply nested op spec) o' ∧
  dt_bucketSizeNs (od_base o') = dt_bucketSizeNs (od_base o).

Lemma guardRail_open key o : mConditionKeyMap o = [] → oring_hitGuardRail key o = false.
Proof. intros E. unfold oring_hitGuardRail. by rewrite E. Qed.

Lemma isEmpty_set {V} key (v : V) (m : umap HashableDimensionKey V) : isEmpty (um_set key v m) = false.
Proof. destruct m as [|[k w] m]; [done|]. cbn. by destruct (key_eqb key k). Qed.

Lemma stop_when (nested : bool) n :
  (false || negb nested || (n - 1 <=? 0)) = negb (nested && (1 <? n)).
Proof.
  destruct nested; cbn; [|done]. destruct (Z.leb_spec (n - 1) 0), (Z.ltb_spec 1 n); done || lia.
Qed.

Section ops.
Context (nested : bool) (t : Z) (spec : DurationSpec) (output : DurationOutput)
  (o : OringDurationTracker) (env : AnomalyEnv).
Hypothesis Hinv : oring_inv t output o.
Hypothesis Hsim : oring_sim nested spec o.

Lemma noteStart_ok key ck :
  op_ok nested t (OpStart key ck) spec output o output
    (oring_noteStart key (sp_condition spec) t ck (o, env)).1.
Proof using Hinv Hsim.
  destruct Hsim as [Hs Hp Hwf Hn Hk Hc]. unfold oring_noteStart, op_ok.
  rewrite guardRail_open by done. destruct (sp_condition spec) eqn:E.
  - destruct (mStarted o) as [|e l] eqn:El; cbn [fst snd set_started od_base set_lastStart]; rewrite Hc;
      cbn [andb fst].
    + split; [|split; [constructor; cbn; try done|done]].
      * eapply inv_recorded; [done| |done]. unfold recorded, running. rewrite El. done.
      * by rewrite E, <- Hs, <- ?El.
      * by rewrite E.
      * by apply um_wf_set.
    + split; [|split; [constructor; cbn; try done|done]].
      * apply inv_kept; try done. unfold running. cbn [set_started mStarted].
        unfold incr. by rewrite isEmpty_set, El.
      * by rewrite E, <- Hs, <- ?El.
      * by rewrite E.
      * by apply um_wf_set.
  - cbn [fst snd set_paused od_base]; rewrite Hc; cbn [andb fst].
    split; [by apply inv_kept|split; [constructor; cbn; try done|done]].
    * by rewrite E.
    * by rewrite E, Hp.
    * by apply um_wf_set.
Qed.

Lemma stopAll_ok :
  op_ok nested t OpStopAll spec output o output (oring_noteStopAll t (o, env)).1.
Proof using Hinv Hsim.
  destruct Hsim as [Hs Hp Hwf Hn Hk Hc]. unfold oring_noteStopAll, op_ok.
  destruct (isEmpty (mStarted o)) eqn:El; cbn [negb fst].
  - split; [|split; [constructor; cbn; try done; by destruct (sp_condition spec)|done]].
    eapply inv_recorded; [done| |done]. unfold recorded, running. by rewrite El.
  - split; [|split; [constructor; cbn; try done; by destruct (sp_condition spec)|done]].
    eapply inv_recorded; [done| |done]. unfold recorded, running. by rewrite El.
Qed.

Lemma state_ok atomId newState :
  op_ok nested t (OpState atomId newState) spec output o output (oring_onStateChanged t atomId newState o).
Proof using Hinv Hsim.
  destruct Hsim as [Hs Hp Hwf Hn Hk Hc]. unfold oring_onStateChanged, op_ok.
  destruct (isEmpty (mStarted o)) eqn:El.
  - split; [|split; [by constructor|done]].
    eapply inv_recorded; [done| |]; unfold recorded, running; cbn; by rewrite El.
  - split; [|split; [by constructor|done]].
    eapply inv_recorded; [done| |]; unfold recorded, running; cbn; by rewrite El.
Qed.

Lemma condition_ok c :
  op_ok nested t (OpCondition c) spec output o output (oring_onConditionChanged c t (o, env)).1.
Proof using Hinv Hsim.
  destruct Hsim as [Hs Hp Hwf Hn Hk Hc]. unfold oring_onConditionChanged, op_ok.
  destruct c, (sp_condition spec) eqn:E; rewrite ?Hp, ?Hs; cbn [isEmpty negb fst].
  - split; [by apply inv_kept|split; [by constructor|done]].
  - destruct (isEmpty (sp_counts spec)) eqn:El; cbn [negb fst].
    + split; [by apply inv_kept|split; [|done]].
      destruct (sp_counts spec) eqn:Em; [|done]. by constructor; cbn; rewrite ?Em.
    + split; [|split; [|done]].
      * eapply inv_recorded; [done| |done]. unfold recorded, running. by rewrite Hs.
      * constructor; cbn; try done. by rewrite ?Hp, ?Hs, insertAll_app.
  - destruct (isEmpty (sp_counts spec)) eqn:El; cbn [negb fst].
    + split; [by apply inv_kept|split; [|done]].
      destruct (sp_counts spec) eqn:Em; [|done]. by constructor; cbn; rewrite ?Em.
    + split; [|split; [|done]].
      * eapply inv_recorded; [done| |done]. unfold recorded, running. by rewrite Hs, El.
      * constructor; cbn; try done. by rewrite ?Hp, ?Hs, insertAll_app.
  - split; [by apply inv_kept|split; [by constructor|done]].
Qed.

Lemma noteStop_ok key :
  op_ok nested t (OpStop key) spec output o output (oring_noteStop key t false (o, env)).1.
Proof using Hinv Hsim.
  destruct Hsim as [Hs Hp Hwf Hn Hk Hc]. unfold oring_noteStop, op_ok.
  assert (Hwf' : um_wf (spec_stop nested key (sp_counts spec))).
  { unfold spec_stop. destruct (um_find key _); [|done]. destruct (nested && _);
      [by apply um_wf_set|by apply um_wf_erase]. }
  destruct (sp_condition spec) eqn:E; rewrite Hs.
  - unfold spec_apply, spec_stop in *. destruct (um_find key (sp_counts spec)) as [n|] eqn:Ef.
    + rewrite Hn, stop_when. set (b := nested && (1 <? n)) in *. clearbody b.
      set (o' := if negb b then _ else _).
      assert (Ho' : od_base o' = od_base o ∧ mPaused o' = [] ∧ mConditionKeyMap o' = [] ∧
        mLastStartTime o' = mLastStartTime o ∧
        mStarted o' = if b then um_set key (n - 1) (sp_counts spec) else um_erase key (sp_counts spec)).
      { unfold o'. destruct b; cbn; rewrite ?Hk, ?Hs, ?Hp; done. }
      clearbody o'. destruct Ho' as (H1 & H2 & H3 & H4 & H5). rewrite H5.
      assert (Hr : running o = true).
      { unfold running. rewrite Hs. by destruct (sp_counts spec). }
      destruct (isEmpty (if b then _ else _)) eqn:Ee; cbn [fst oring_close set_od_base mPaused]; rewrite H2; cbn.
      * split; [|split; [constructor; cbn; rewrite ?H1; try done; by rewrite E|cbn; by rewrite H1]].
        eapply inv_recorded; [done| |].
        -- unfold recorded. rewrite Hr. cbn. by rewrite H1, H4.
        -- unfold running. cbn. by rewrite H5, Ee.
      * split; [|split; [constructor; rewrite ?H1; try done; cbn; by rewrite E|cbn; by rewrite H1]].
        apply inv_kept; try done. unfold running at 1. by rewrite H5, Ee, Hr.
    + cbn [fst]. rewrite Hp. cbn. split; [by apply inv_kept|split; [by constructor; cbn; rewrite ?E|done]].
  - cbn [um_find fst]. rewrite Hp. unfold spec_apply, spec_stop in *.
    destruct (um_find key (sp_counts spec)) as [n|] eqn:Ef.
    + rewrite Hn, stop_when. destruct (nested && (1 <? n)); cbn [negb fst].
      all: split; [by apply inv_kept|split; [constructor; cbn; rewrite ?E, ?Hk; done|done]].
    + split; [by apply inv_kept|split; [by constructor; cbn; rewrite ?E|done]].
Qed.

Lemma flush_ok :
  let r := oring_flushCurrentBucket t output (o, env) in
  op_ok nested t OpFlush spec output o r.1.2 r.2.1.
Proof using Hinv Hsim.
  destruct (oring_flush_spec t t output o env Hinv) as (H1 & H2 & H3 & _); [lia| |].
  { destruct Hinv. unfold flush_range. nia. }
  split; [done|]. split; [by eapply sim_same_keys|]. by destruct H2 as (_ & _ & _ & _ & _ & H2 & _).
Qed.

Lemma oring_apply_ok op :
  let r := oring_apply (sp_condition spec) t op output (o, env) in
  op_ok nested t op spec output o r.1 r.2.1.
Proof using Hinv Hsim.
  destruct op; [apply noteStart_ok|apply noteStop_ok|apply stopAll_ok|apply condition_ok|
    apply state_ok|apply flush_ok].
Qed.
End ops.

(** *** Runs *)

(** The operations are in the order of their times, and no two of them are so far apart that the
    number of buckets between them overflows an [int]. *)
Fixpoint timed (size last : Z) (evs : list (Z * DurationOp)) : Prop :=
  match evs with
  | [] => True
  | (t, _) :: evs => last <= t < last + (2 ^ 31 - 2) * size ∧ timed size t evs
  end.

Fixpoint lastTime (last : Z) (evs : list (Z * DurationOp)) : Z :=
  match evs with [] => last | (t, _) :: evs => lastTime t evs end.

Lemma oring_step_ok nested now t op spec output o env :
  oring_inv now output o → oring_sim nested spec o →
  now <= t < now + (2 ^ 31 - 2) * dt_bucketSizeNs (od_base o) →
  let r := oring_step (sp_condition spec) t op output (o, env) in
  op_ok nested t op spec output o r.1 r.2.1.
Proof.
  intros Hinv Hsim Ht. unfold oring_step, oring_flushIfNeeded. cbn [fst].
  destruct (Z.ltb_spec t (dt_bucketEndNs (od_base o))) as [Hlt|Hge].
  - apply oring_apply_ok; [|done]. destruct Hinv.
    constructor; try done; [lia|intros E; specialize (oi_last0 E); lia|].
    unfold pendingDuration in *. destruct (isEmpty (mStarted o)); lia.
  - destruct (oring_flush_spec now t output o env Hinv) as (H1 & H2 & H3 & _); [lia| |].
    { destruct Hinv. unfold flush_range. lia. }
    destruct (oring_flushCurrentBucket t output (o, env)) as [[b output'] [o' env']]. cbn [fst snd] in *.
    destruct (oring_apply_ok nested t spec output' o' env' H1 (sim_same_keys _ _ _ _ H2 Hsim) op)
      as [[H4 H5] [H6 H7]].
    split; [split; [done|by rewrite H5]|split; [done|]]. rewrite H7. by destruct H2 as (_ & _ & _ & _ & _ & -> & _).
Qed.

Lemma oring_run_ok nested evs : ∀ now spec output o env,
  oring_inv now output o → oring_sim nested spec o → timed (dt_bucketSizeNs (od_base o)) now evs →
  let r := oring_run evs nested spec output (o, env) in
  let ideal := spec_run nested now evs spec in
  oring_inv (lastTime now evs) r.1 r.2.1 ∧ oring_sim nested ideal.2 r.2.1 ∧
  measured (lastTime now evs) r.1 r.2.1 = measured now output o + ideal.1.
Proof.
  induction evs as [|[t op] evs IH]; intros now spec output o env Hinv Hsim Htimed.
  { cbn [oring_run spec_run lastTime fst snd]. split_and!; done || lia. }
  destruct Htimed as [Ht Htimed]. cbn [oring_run spec_run lastTime fst snd].
  destruct (oring_step_ok nested now t op spec output o env Hinv Hsim Ht) as [[H1 H2] [H3 H4]].
  destruct (oring_step _ _ _ _ _) as [output' [o' env']]. cbn [fst snd] in *.
  destruct (IH t (spec_apply nested op spec) output' o' env' H1 H3) as (G1 & G2 & G3).
  { by rewrite H4. }
  split_and!; [done..|]. rewrite G3, H2, (measured_later now t output o), (sim_running _ _ _ Hsim). lia.
Qed.

(** C28: A duration metric with the "sum" aggregation measures the union of its intervals.  For any
    sequence of starts, stops, condition and state changes and partial flushes, in the order of
    their times, of a tracker without a sliced condition, in which passed buckets are flushed
    before each operation: once the last bucket is closed, the durations in the output add up to
    exactly the time during which the condition was true and some key was started (counting nested
    starts if configured); every bucket in the output has a positive duration no longer than the
    bucket; and the tracker's started and paused keys are those of the contract. *)
Theorem oring_measures_union (eventKey : MetricDimensionKey) (index bucketStart bucketNum start size t0 : Z)
    (nested link cond : bool) (env : AnomalyEnv) (evs : list (Z * DurationOp)) :
  0 < size → bucketStart <= t0 < start + (bucketNum + 1) * size → timed size t0 evs →
  let o := OringDurationTracker_new
             (DurationTracker_new eventKey index nested bucketStart bucketNum start size false link) in
  let ideal := spec_run nested t0 evs (mkDurationSpec cond []) in
  let r := oring_run evs nested (mkDurationSpec cond []) [] (o, env) in
  let flushed := oring_flushCurrentBucket (lastTime t0 evs) r.1 r.2 in
  outputDuration flushed.1.2 = ideal.1 ∧
  all_buckets duration_fits flushed.1.2 ∧
  mStarted r.2.1 = (if sp_condition ideal.2 then sp_counts ideal.2 else []) ∧
  mPaused r.2.1 = (if sp_condition ideal.2 then [] else sp_counts ideal.2).
Proof.
  intros Hsize Hstart Htimed o ideal r.
  assert (Hinv : oring_inv t0 [] o).
  { constructor; unfold heldDuration, dt_bucketEndNs, pendingDuration, durations_ok, all_buckets; cbn;
      try done; try lia; intros; set_solver. }
  assert (Hsim : oring_sim nested (mkDurationSpec cond []) o)
    by (constructor; cbn; try done; by destruct cond).
  destruct (oring_run_ok nested evs t0 _ [] o env Hinv Hsim Htimed) as (H1 & H2 & H3).
  fold r in H1, H2, H3. fold ideal in H2, H3. destruct r as [output [o' env']]. cbn [fst snd] in *.
  destruct (oring_flush_spec _ (lastTime t0 evs) output o' env' H1) as (G1 & _ & G3 & G4 & G5); [lia| |].
  { destruct H1. unfold flush_range. nia. }
  cbv zeta. split_and!; [|by destruct G1|by destruct H2..].
  transitivity (measured (lastTime t0 evs) output o'); [rewrite <- G3; unfold measured, pendingDuration|].
  - rewrite G4, G5 by by destruct H1. destruct (isEmpty _); lia.
  - rewrite H3. change (measured t0 [] o) with 0. lia.
Qed.

Definition example_key (n : Z) : HashableDimensionKey :=
  mkKey [mkFieldValue (mkField 10 0) (VINT n) Annotations_new].
Definition example_mkey : MetricDimensionKey := mkMetricKey (mkKey []) (mkKey []).

(** Two overlapping keys over several buckets of length 10, one of them paused by the condition. *)
Definition example_ops : list (Z * DurationOp) :=
  [(3, OpStart (example_key 1) ∅); (5, OpStart (example_key 2) ∅); (5, OpStart (example_key 2) ∅);
   (8, OpStop (example_key 1)); (31, OpCondition false); (33, OpStop (example_key 2));
   (40, OpCondition true); (47, OpStop (example_key 2)); (49, OpStopAll)].

Lemma oring_measures_union_witness :
  let o := OringDurationTracker_new
             (DurationTracker_new example_mkey (-1) true 0 0 0 10 false false) in
  let r := oring_run example_ops true (mkDurationSpec true []) [] (o, mkAnomalyEnv [] 0) in
  outputDuration (oring_flushCurrentBucket 49 r.1 r.2).1.2 = 35.
Proof.
  refine (proj1 (oring_measures_union example_mkey (-1) 0 0 0 10 0 true false true (mkAnomalyEnv [] 0)
    example_ops _ _ _)); [lia|lia|].
  cbn [timed example_ops]. lia.
Defined.

(** The buckets of that run: two of them are filled by the flush at time 31. *)
Example oring_run_buckets :
  let o := OringDurationTracker_new
             (DurationTracker_new example_mkey (-1) true 0 0 0 10 false false) in
  let r := oring_run example_ops true (mkDurationSpec true []) [] (o, mkAnomalyEnv [] 0) in
  (oring_flushCurrentBucket 49 r.1 r.2).1.2 =
    [(example_mkey,
      [mkDurationBucket 0 10 7; mkDurationBucket 10 20 10; mkDurationBucket 20 30 10;
       mkDurationBucket 30 40 1; mkDurationBucket 40 49 7])].
Proof. vm_compute. reflexivity. Qed.
