(* ===== verification/MaxDurationFacts.v ===== *)
(** * Facts on the "max" duration tracker

    The tracker keeps, per key, the time of the last start and the duration before it.  It refines
    a specification in which every going key has a clock that runs while the condition holds. *)
From S2P Require Import Prelude UMap FieldValue DimensionKey DimensionKeyFacts Matchers Conditions.
From S2P Require Import Anomaly MetricProducer DurationTrackers DurationTrackersFacts.

(** ** The contract *)

Record MaxSpec := mkMaxSpec {
  ms_condition : bool;
  ms_clocks : umap HashableDimensionKey (Z * Z);
  ms_longest : Z
}.

(** Number of starts of a going key, and its clock. *)
Definition clockOf (p : Z * Z) : Z := p.2.

Definition longestClock (m : umap HashableDimensionKey (Z * Z)) : Z :=
  foldr (λ e x, Z.max (clockOf e.2) x) 0 m.

(** Time passes. *)
Definition spec_tick (dt : Z) (s : MaxSpec) : MaxSpec :=
  mkMaxSpec (ms_condition s)
    (if ms_condition s then um_map (λ p : Z * Z, (p.1, p.2 + dt)) (ms_clocks s) else ms_clocks s)
    (ms_longest s).

Definition max_spec_start (key : HashableDimensionKey) (s : MaxSpec) : MaxSpec :=
  match um_find key (ms_clocks s) with
  | Some (n, a) => mkMaxSpec (ms_condition s) (um_set key (n + 1, a) (ms_clocks s)) (ms_longest s)
  | None =>
      if kDimensionKeySizeHardLimit <? size (ms_clocks s) + 1 then s
      else mkMaxSpec (ms_condition s) (um_set key (1, 0) (ms_clocks s)) (ms_longest s)
  end.

(** The last stop of a key ends its duration. *)
Definition max_spec_stop (nested : bool) (key : HashableDimensionKey) (s : MaxSpec) : MaxSpec :=
  match um_find key (ms_clocks s) with
  | None => s
  | Some (n, a) =>
      if nested && (1 <? n)
      then mkMaxSpec (ms_condition s) (um_set key (n - 1, a) (ms_clocks s)) (ms_longest s)
      else mkMaxSpec (ms_condition s) (um_erase key (ms_clocks s)) (Z.max (ms_longest s) a)
  end.

Definition max_spec_stopAll (s : MaxSpec) : MaxSpec :=
  mkMaxSpec (ms_condition s) [] (Z.max (ms_longest s) (longestClock (ms_clocks s))).

Definition max_spec_apply (nested : bool) (op : DurationOp) (s : MaxSpec) : MaxSpec :=
  match op with
  | OpStart key _ => max_spec_start key s
  | OpStop key => max_spec_stop nested key s
  | OpStopAll => max_spec_stopAll s
  | OpCondition c => mkMaxSpec c (ms_clocks s) (ms_longest s)
  | OpState _ _ => s
  | OpFlush => mkMaxSpec (ms_condition s) (ms_clocks s) 0
  end.

(** The bounds between which the duration of a closed bucket lies: the longest duration that ended
    in the bucket, and the longest one that ended or is going. *)
Definition spec_bounds (s : MaxSpec) : Z * Z :=
  (ms_longest s, Z.max (ms_longest s) (longestClock (ms_clocks s))).

Fixpoint max_spec_run (nested : bool) (last : Z) (evs : list (Z * DurationOp)) (s : MaxSpec)
    : list (Z * Z) * MaxSpec :=
  match evs with
  | [] => ([], s)
  | (t, op) :: evs =>
      let s := spec_tick (t - last) s in
      let r := max_spec_run nested t evs (max_spec_apply nested op s) in
      (match op with OpFlush => spec_bounds s :: r.1 | _ => r.1 end, r.2)
  end.

(** ** The tracker *)

Definition max_apply (cond : bool) (t : Z) (op : DurationOp) (output : DurationOutput)
    (s : MaxDurationTracker * AnomalyEnv) : DurationOutput * (MaxDurationTracker * AnomalyEnv) :=
  match op with
  | OpStart key ck => (output, max_noteStart key cond t ck s)
  | OpStop key => (output, max_noteStop key t false s)
  | OpStopAll => (output, max_noteStopAll t s)
  | OpCondition c => (output, max_onConditionChanged c t s)
  | OpState _ _ => (output, s)
  | OpFlush => let r := max_flushCurrentBucket t output s in (r.1.2, r.2)
  end.

Fixpoint max_run (cond : bool) (evs : list (Z * DurationOp)) (output : DurationOutput)
    (s : MaxDurationTracker * AnomalyEnv) : DurationOutput * (MaxDurationTracker * AnomalyEnv) :=
  match evs with
  | [] => (output, s)
  | (t, op) :: evs =>
      let r := max_apply cond t op output s in
      max_run (match op with OpCondition c => c | _ => cond end) evs r.1 r.2
  end.

(** The duration of a going key at time [t]. *)
Definition infoClock (t : Z) (i : DurationInfo) : Z * Z :=
  (startCount i,
   lastDuration i + if bool_decide (di_state i = kStarted) then t - lastStartTime i else 0).

Lemma infoClock_going (c : bool) t i :
  di_state i = (if c then kStarted else kPaused) →
  infoClock t i = (startCount i, lastDuration i + if c then t - lastStartTime i else 0).
Proof. intros E. unfold infoClock. rewrite E. by destruct c. Qed.

Definition info_ok (cond : bool) (t : Z) (e : HashableDimensionKey * DurationInfo) : Prop :=
  key_nan_free e.1 ∧ di_state e.2 = (if cond then kStarted else kPaused) ∧
  0 <= lastDuration e.2 ∧ (cond = true → lastStartTime e.2 <= t).

Record max_sim (nested : bool) (t : Z) (spec : MaxSpec) (x : MaxDurationTracker) : Prop := {
  xs_infos : Forall (info_ok (ms_condition spec) t) (mInfos x);
  xs_clocks : ms_clocks spec = um_map (infoClock t) (mInfos x);
  xs_wf : um_wf (mInfos x);
  xs_nested : mNested (md_base x) = nested;
  xs_longest : 0 <= ms_longest spec;
  xs_bounds : (spec_bounds spec).1 <= mDuration (md_base x) <= (spec_bounds spec).2;
  xs_exact : nested = false → mDuration (md_base x) = ms_longest spec
}.

(** ** The longest clock *)

Lemma longestClock_cons e m : longestClock (e :: m) = Z.max (clockOf e.2) (longestClock m).
Proof. done. Qed.

Lemma longestClock_nonneg m : 0 <= longestClock m.
Proof. induction m as [|e m IH]; [done|]. rewrite longestClock_cons. lia. Qed.

Lemma longestClock_set k n n' a m :
  um_find k m = Some (n, a) → longestClock (um_set k (n', a) m) = longestClock m.
Proof.
  induction m as [|[k' p] m IH]; [done|]. cbn [um_find um_set].
  destruct (key_eqb k k'); rewrite !longestClock_cons.
  - by intros [= ->].
  - intros Hf. by rewrite IH.
Qed.

Lemma longestClock_fresh k n m : um_find k m = None → longestClock (um_set k (n, 0) m) = longestClock m.
Proof.
  induction m as [|[k' p] m IH]; [done|]. cbn [um_find um_set].
  destruct (key_eqb k k'); [done|]. rewrite !longestClock_cons. intros Hf. by rewrite IH.
Qed.

Lemma longestClock_erase k n a m :
  um_wf m → um_find k m = Some (n, a) →
  longestClock m = Z.max a (longestClock (um_erase k m)).
Proof.
  induction m as [|[k' p] m IH]; [done|]. cbn [um_wf um_find]. intros [Hf Hwf].
  unfold um_erase. cbn [List.filter fst]. change (List.filter _ m) with (um_erase k m).
  destruct (key_eqb k k') eqn:E; cbn [negb]; rewrite !longestClock_cons.
  - intros [= ->]. rewrite um_erase_fresh; [done|]. by rewrite (um_find_cong k k').
  - intros Hk. rewrite (IH Hwf Hk). lia.
Qed.

Lemma longestClock_tick dt m :
  0 <= dt → longestClock m <= longestClock (um_map (λ p : Z * Z, (p.1, p.2 + dt)) m).
Proof.
  intros. induction m as [|e m IH]; [done|].
  change (um_map ?f (e :: m)) with ((e.1, f e.2) :: um_map f m).
  rewrite !longestClock_cons. unfold clockOf in *. cbn [snd]. lia.
Qed.

(** ** Simulation *)

Lemma max_tick nested t t' spec x :
  t <= t' → max_sim nested t spec x → max_sim nested t' (spec_tick (t' - t) spec) x.
Proof.
  intros Ht [Hi Hc Hwf Hn Hl Hb He]. constructor; cbn [spec_tick ms_condition ms_clocks ms_longest]; try done.
  - eapply Forall_impl; [exact Hi|]. intros e (H1 & H2 & H3 & H4). split_and!; try done.
    intros E. specialize (H4 E). lia.
  - rewrite Hc. clear -Hi. destruct (ms_condition spec).
    + induction Hi as [|e m (_ & H2 & _) _ IH]; [done|]. cbn. f_equal; [|exact IH].
      unfold infoClock. cbn. rewrite H2, bool_decide_true by done.
      apply (f_equal2 pair); [done|]. apply (f_equal2 pair); [done|lia].
    + induction Hi as [|e m (_ & H2 & _) _ IH]; [done|]. cbn. f_equal; [|exact IH].
      by rewrite !(infoClock_going false).
  - unfold spec_bounds in *. cbn [spec_tick ms_clocks ms_longest fst snd] in *.
    destruct (ms_condition spec); [|done].
    pose proof (longestClock_tick (t' - t) (ms_clocks spec)). lia.
Qed.

Lemma set_max_id d : set_max (mDuration d) d = d.
Proof. by destruct d. Qed.

Section ops.
Context (nested : bool) (t : Z) (spec : MaxSpec) (x : MaxDurationTracker) (env : AnomalyEnv).
Hypothesis Hsim : max_sim nested t spec x.

Lemma clocks_find key : um_find key (ms_clocks spec) = infoClock t <$> um_find key (mInfos x).
Proof using Hsim. destruct Hsim as [_ -> _ _ _ _ _]. apply um_map_find. Qed.

Lemma found_ok key i :
  um_find key (mInfos x) = Some i →
  di_state i = (if ms_condition spec then kStarted else kPaused) ∧
  0 <= lastDuration i ∧ (ms_condition spec = true → lastStartTime i <= t).
Proof using Hsim.
  intros Hf. destruct Hsim as [Hi _ _ _ _ _ _].
  destruct (um_find_Forall _ _ _ _ Hf Hi) as (k' & _ & H1 & H2 & H3). done.
Qed.

(** A going key whose entry is replaced by one with the same clock. *)
Lemma update_ok key i i' spec' max :
  um_find key (mInfos x) = Some i → key_nan_free key →
  di_state i' = di_state i → lastStartTime i' = lastStartTime i → lastDuration i' = lastDuration i →
  spec' = mkMaxSpec (ms_condition spec) (um_set key (startCount i', (infoClock t i).2) (ms_clocks spec))
            (ms_longest spec) →
  mDuration (md_base x) <= max <= Z.max (mDuration (md_base x)) (lastDuration i) →
  (nested = false → max = mDuration (md_base x)) →
  max_sim nested t spec' (mkMax (set_max max (md_base x)) (um_set key i' (mInfos x))).
Proof using Hsim.
  intros Hf Hk Hst Hls Hld -> Hmax Hex. pose proof (clocks_find key) as Hcf. rewrite Hf in Hcf. cbn in Hcf.
  destruct (found_ok key i Hf) as (F1 & F2 & F3). destruct Hsim as [Hi Hc Hwf Hn Hl Hb He].
  assert (Hlong : lastDuration i <= longestClock (ms_clocks spec)).
  { rewrite (longestClock_erase key (startCount i) (infoClock t i).2 (ms_clocks spec)).
    - rewrite (infoClock_going _ _ _ F1). cbn [snd].
      destruct (ms_condition spec); [specialize (F3 eq_refl)|]; lia.
    - rewrite Hc. by apply um_wf_map.
    - exact Hcf. }
  constructor; cbn [ms_condition ms_clocks ms_longest mInfos md_base set_max mDuration mNested]; try done.
  - apply um_set_Forall; [|intros k' v' (G1 & _)|done]; (split; [done|]); cbn; rewrite Hst, Hls, Hld; done.
  - rewrite Hc, um_map_set. f_equal. unfold infoClock. cbn. by rewrite Hst, Hls, Hld.
  - by apply um_wf_set.
  - unfold spec_bounds in *. cbn [ms_clocks ms_longest fst snd] in *.
    rewrite (longestClock_set key (startCount i) _ (infoClock t i).2); [lia|exact Hcf].
  - intros E. by rewrite Hex, He.
Qed.

(** A key that starts. *)
Lemma freshInfo_ok key i :
  um_find key (mInfos x) = None → key_nan_free key →
  di_state i = (if ms_condition spec then kStarted else kPaused) → lastDuration i = 0 →
  startCount i = 1 → (ms_condition spec = true → lastStartTime i = t) →
  max_sim nested t
    (mkMaxSpec (ms_condition spec) (um_set key (1, 0) (ms_clocks spec)) (ms_longest spec))
    (set_info key i x).
Proof using Hsim.
  intros Hf Hk Hst Hld Hn Hls. pose proof (clocks_find key) as Hcf. rewrite Hf in Hcf. cbn in Hcf.
  destruct Hsim as [Hi Hc Hwf Hnest Hl Hb He].
  constructor; cbn [ms_condition ms_clocks ms_longest set_info mInfos md_base]; try done.
  - apply um_set_Forall; [|intros k' v' (G1 & _)|done]; (split; [done|]); cbn; rewrite Hst, Hld;
      (split_and!; [done|lia|intros E; rewrite Hls by done; lia]).
  - rewrite Hc, um_map_set. f_equal. rewrite (infoClock_going _ _ _ Hst), Hn, Hld. f_equal.
    destruct (ms_condition spec); [rewrite Hls by done|]; lia.
  - by apply um_wf_set.
  - unfold spec_bounds in *. cbn [ms_clocks ms_longest fst snd] in *. by rewrite longestClock_fresh.
Qed.

Lemma max_guardRail key :
  um_find key (mInfos x) = None →
  max_hitGuardRail key x = (kDimensionKeySizeHardLimit <? size (ms_clocks spec) + 1).
Proof using Hsim.
  intros Hf. unfold max_hitGuardRail, um_mem. rewrite Hf. destruct Hsim as [_ Hc _ _ _ _ _].
  assert (Hs : size (ms_clocks spec) = size (mInfos x)) by (unfold size; by rewrite Hc, um_map_size).
  rewrite Hs. unfold kDimensionKeySizeSoftLimit, kDimensionKeySizeHardLimit.
  destruct (Z.ltb_spec (500 - 1) (size (mInfos x))), (Z.ltb_spec 800 (size (mInfos x) + 1)); done || lia.
Qed.

Lemma max_noteStart_ok key ck :
  key_nan_free key →
  max_sim nested t (max_spec_start key spec) (max_noteStart key (ms_condition spec) t ck (x, env)).1.
Proof using Hsim.
  intros Hk. unfold max_noteStart, max_spec_start. rewrite clocks_find.
  destruct (um_find key (mInfos x)) as [i|] eqn:Hf.
  - unfold max_hitGuardRail, um_mem, um_get. rewrite Hf. cbn [fmap option_fmap option_map default id].
    destruct (found_ok key i Hf) as (F1 & _ & _).
    set (ck' := if dt_conditionSliced _ then _ else _).
    pose proof (update_ok key i (mkDurationInfo (di_state i) (startCount i + 1) (lastStartTime i)
      (lastDuration i) ck') _ (mDuration (md_base x)) Hf Hk eq_refl eq_refl eq_refl eq_refl) as Hu.
    rewrite set_max_id in Hu.
    destruct (infoClock t i) as [n a] eqn:En. assert (n = startCount i) as -> by (by injection En).
    rewrite F1 in *. destruct (ms_condition spec); apply Hu; done || lia.
  - rewrite max_guardRail by done. cbn [fmap option_fmap option_map].
    destruct (kDimensionKeySizeHardLimit <? _); [exact Hsim|].
    unfold um_get. rewrite Hf. cbn [default di_state DurationInfo_new].
    destruct (ms_condition spec) eqn:E; cbn [negb fst]; rewrite <- E; apply freshInfo_ok; try done;
      cbn; by rewrite E.
Qed.

(** A key whose duration ends. *)
Lemma ended_ok key i a :
  um_find key (mInfos x) = Some i → (infoClock t i).2 = a →
  max_sim nested t
    (mkMaxSpec (ms_condition spec) (um_erase key (ms_clocks spec)) (Z.max (ms_longest spec) a))
    (mkMax (set_max (Z.max (mDuration (md_base x)) a) (md_base x)) (um_erase key (mInfos x))).
Proof using Hsim.
  intros Hf <-. pose proof (clocks_find key) as Hcf. rewrite Hf in Hcf. cbn in Hcf.
  destruct Hsim as [Hi Hc Hwf Hn Hl Hb He].
  constructor; cbn [ms_condition ms_clocks ms_longest mInfos md_base set_max mDuration mNested]; try done.
  - by apply um_erase_Forall.
  - by rewrite Hc, um_map_erase.
  - by apply um_wf_erase.
  - lia.
  - unfold spec_bounds in *. cbn [ms_clocks ms_longest fst snd] in *.
    rewrite (longestClock_erase key (startCount i) (infoClock t i).2 (ms_clocks spec)) in Hb;
      [lia|rewrite Hc; by apply um_wf_map|exact Hcf].
  - intros E. by rewrite He.
Qed.

Lemma max_if d a : (if d <? a then a else d) = Z.max d a.
Proof using. destruct (Z.ltb_spec d a); lia. Qed.

Lemma max_noteStop_ok key force :
  key_nan_free key →
  max_sim nested t (max_spec_stop (nested && negb force) key spec) (max_noteStop key t force (x, env)).1.
Proof using Hsim.
  intros Hk. unfold max_noteStop, max_spec_stop. rewrite clocks_find.
  destruct (um_find key (mInfos x)) as [i|] eqn:Hf; [|exact Hsim].
  cbn [fmap option_fmap option_map]. destruct (found_ok key i Hf) as (F1 & F2 & F3).
  destruct (infoClock t i) as [n a] eqn:En. pose proof En as En'.
  rewrite (infoClock_going _ _ _ F1) in En'. injection En' as <- Ha.
  assert (Hn : mNested (md_base x) = nested) by by destruct Hsim.
  replace (force || negb (mNested (md_base x)) || (startCount i - 1 <=? 0))
    with (negb (nested && negb force && (1 <? startCount i))).
  2:{ rewrite Hn. destruct force, nested; cbn; try done.
      destruct (Z.leb_spec (startCount i - 1) 0), (Z.ltb_spec 1 (startCount i)); done || lia. }
  assert (Hend : (infoClock t i).2 = a) by by rewrite En.
  destruct (nested && negb force && (1 <? startCount i)) eqn:Enf; cbn [negb].
  - assert (nested = true) as Et by (clear -Enf; by destruct nested).
    pose proof (update_ok key i (mkDurationInfo (di_state i) (startCount i - 1) (lastStartTime i)
      (lastDuration i) (conditionKeys i)) _ (Z.max (mDuration (md_base x)) (lastDuration i))
      Hf Hk eq_refl eq_refl eq_refl eq_refl ltac:(lia) ltac:(congruence)) as Hu.
    rewrite Hend in Hu. cbn [startCount] in Hu. rewrite <- max_if in Hu.
    rewrite F1 in *. destruct (ms_condition spec);
      cbn [fst set_info md_base mInfos lastDuration di_state];
      destruct (mDuration (md_base x) <? lastDuration i); rewrite ?set_max_id in Hu;
      exact Hu.
  - pose proof (ended_ok key i a Hf Hend) as He.
    rewrite <- (max_if (mDuration (md_base x)) a) in He. rewrite F1.
    destruct (ms_condition spec); cbn [fst set_info md_base mInfos lastDuration di_state];
      rewrite ?Ha; [|rewrite Z.add_0_r in Ha; rewrite Ha];
      destruct (mDuration (md_base x) <? a); rewrite ?set_max_id in He;
      cbn [fst set_info md_base mInfos]; rewrite (um_erase_set _ i) by done; exact He.
Qed.

(** The entry of a going key after the condition becomes [c]. *)
Definition switched (c : bool) (i : DurationInfo) : DurationInfo :=
  match di_state i with
  | kStarted =>
      if c then i
      else mkDurationInfo kPaused (startCount i) (lastStartTime i)
             (lastDuration i + (t - lastStartTime i)) (conditionKeys i)
  | kStopped => i
  | kPaused =>
      if c then mkDurationInfo kStarted (startCount i) t (lastDuration i) (conditionKeys i) else i
  end.

Lemma noteConditionChanged_middle c m1 k i m2 d env' :
  k =k k → um_find k m1 = None →
  (noteConditionChanged k c t (mkMax d (m1 ++ (k, i) :: m2), env')).1 =
    mkMax d (m1 ++ (k, switched c i) :: m2).
Proof using.
  intros Hk Hf. unfold noteConditionChanged, switched, set_info. cbn [mInfos md_base].
  rewrite um_find_middle by done.
  destruct (di_state i), c; cbn [negb fst]; by rewrite ?um_set_middle.
Qed.

Lemma conditionChanged_all c d m2 : ∀ m1 env',
  um_wf (m1 ++ m2) → Forall (λ e, key_nan_free e.1) m2 →
  (foldl (λ s e, noteConditionChanged e.1 c t s) (mkMax d (m1 ++ m2), env') m2).1 =
    mkMax d (m1 ++ um_map (switched c) m2).
Proof using.
  induction m2 as [|[k i] m2 IH]; intros m1 env' Hwf Hk; [done|].
  apply Forall_cons in Hk as [Hk1 Hk]. cbn [foldl fst].
  pose proof (um_wf_app_fresh _ _ _ _ Hwf) as Hf.
  pose proof (noteConditionChanged_middle c m1 k i m2 d env' (hdk_refl k Hk1) Hf) as Hs.
  destruct (noteConditionChanged _ _ _ _) as [x1 env1]. cbn [fst] in Hs. subst x1.
  change ((k, switched c i) :: m2) with ([(k, switched c i)] ++ m2).
  rewrite app_assoc, IH; [|rewrite <- app_assoc; cbn; by eapply um_wf_replace|done].
  by rewrite <- app_assoc.
Qed.

Lemma max_condition_ok c :
  max_sim nested t (mkMaxSpec c (ms_clocks spec) (ms_longest spec))
    (max_onConditionChanged c t (x, env)).1.
Proof using Hsim.
  destruct Hsim as [Hi Hc Hwf Hn Hl Hb He]. unfold max_onConditionChanged. cbn [fst].
  pose proof (conditionChanged_all c (md_base x) (mInfos x) [] env Hwf) as Hall. cbn [app] in Hall.
  replace (mkMax (md_base x) (mInfos x)) with x in Hall by by destruct x.
  rewrite Hall by (eapply Forall_impl; [exact Hi|]; by intros e (? & _)).
  constructor; cbn [ms_condition ms_clocks ms_longest mInfos md_base]; try done.
  - apply Forall_fmap. eapply Forall_impl; [exact Hi|]. intros e (H1 & H2 & H3 & H4).
    unfold compose, switched. rewrite H2.
    destruct (ms_condition spec), c; split_and!; cbn; try done; try specialize (H4 eq_refl); lia.
  - rewrite Hc. clear -Hi. induction Hi as [|e m (_ & H2 & _) _ IH]; [done|].
    unfold um_map in *. rewrite !fmap_cons. f_equal; [|exact IH]. cbn [fst snd]. f_equal.
    rewrite (infoClock_going _ _ _ H2). unfold switched. rewrite H2.
    destruct (ms_condition spec), c; rewrite ?(infoClock_going _ _ _ H2);
      unfold infoClock; cbn; rewrite ?H2; apply (f_equal2 pair); try done; cbn.
    + rewrite bool_decide_false by done. lia.
    + rewrite bool_decide_true by done. lia.
  - by apply um_wf_map.
Qed.

Lemma max_flush_ok output :
  let r := max_flushCurrentBucket t output (x, env) in
  max_sim nested t (mkMaxSpec (ms_condition spec) (ms_clocks spec) 0) r.2.1 ∧
  mEventKey (md_base r.2.1) = mEventKey (md_base x) ∧
  r.1.2 = (if mDuration (md_base x) =? 0 then output
           else pushDuration (mEventKey (md_base x))
                  (mkDurationBucket (dt_bucketStartNs (md_base x)) (closedBucketEnd t (md_base x))
                     (mDuration (md_base x))) output).
Proof using Hsim.
  destruct Hsim as [Hi Hc Hwf Hn Hl Hb He]. unfold max_flushCurrentBucket.
  assert (Hfil : List.filter (λ e, negb (bool_decide (di_state e.2 = kStopped))) (mInfos x) = mInfos x).
  { clear -Hi. induction Hi as [|e m (_ & H2 & _) _ IH]; [done|]. cbn. rewrite H2.
    destruct (ms_condition spec); cbn; by rewrite IH. }
  rewrite Hfil. cbn [fst snd]. split_and!.
  - constructor; cbn [ms_condition ms_clocks ms_longest mInfos md_base set_max mDuration mNested]; try done.
    + unfold nextBucket. by destruct (0 <? bucketsForward t (md_base x)).
    + unfold spec_bounds. cbn [ms_clocks ms_longest fst snd].
      pose proof (longestClock_nonneg (ms_clocks spec)). lia.
  - cbn. unfold nextBucket. by destruct (0 <? bucketsForward t (md_base x)).
  - by destruct (mDuration (md_base x) =? 0).
Qed.
End ops.

(** ** Stopping all keys *)

Lemma keySet_insert_perm k l :
  key_nan_free k → Forall key_nan_free l → (∀ y, y ∈ l → k <>k y) → keySet_insert k l ≡ₚ k :: l.
Proof.
  intros Hk. induction 1 as [|y l Hy Hl IH]; intros Hne; [done|]. cbn [keySet_insert].
  destruct (hdk_ltb y k) eqn:E1.
  - rewrite IH by set_solver. apply perm_swap.
  - destruct (hdk_ltb k y) eqn:E2; [done|]. exfalso.
    pose proof (hdk_order_cases k y Hk Hy) as Hc. assert (hdk_eqb k y = false) as Hf by (apply Hne; set_solver).
    rewrite Hf, E1, E2 in Hc. done.
Qed.

Lemma keySet_fold_perm m : ∀ acc,
  um_wf m → Forall (λ e, key_nan_free e.1) m → Forall key_nan_free acc →
  (∀ y e, y ∈ acc → e ∈ m → e.1 <>k y) →
  foldl (λ keys (e : HashableDimensionKey * DurationInfo), keySet_insert e.1 keys) acc m ≡ₚ m.*1 ++ acc.
Proof.
  induction m as [|[k i] m IH]; intros acc Hwf Hm Hacc Hne; [done|].
  destruct Hwf as [Hf Hwf]. apply Forall_cons in Hm as [Hk Hm]. cbn [foldl fst fmap list_fmap].
  assert (Hp : keySet_insert k acc ≡ₚ k :: acc).
  { apply keySet_insert_perm; [done..|]. intros y Hy. apply (Hne y (k, i)); set_solver. }
  rewrite IH; [rewrite Hp; symmetry; apply Permutation_middle|done..|rewrite Hp; by apply Forall_cons_2|].
  intros y e. rewrite Hp. intros [->|Hy]%elem_of_cons He; [|apply Hne; set_solver].
  rewrite key_eqb_comm. destruct e as [k' i']. by apply (proj1 (um_find_None _ _) Hf k' i').
Qed.

Lemma um_erase_keys {V} k (m : umap HashableDimensionKey V) :
  um_wf m → k =k k → k ∈ m.*1 → m.*1 ≡ₚ k :: (um_erase k m).*1.
Proof.
  intros Hwf Hk. induction m as [|[k' v] m IH]; [by intros ?%elem_of_nil|].
  destruct Hwf as [Hf Hwf]. cbn [fmap list_fmap fst]. unfold um_erase. cbn [List.filter fst].
  change (List.filter _ m) with (um_erase k m). intros [->|Hin]%elem_of_cons.
  - rewrite Hk. cbn [negb]. by rewrite um_erase_fresh.
  - destruct (key_eqb k k') eqn:E.
    + exfalso. apply list_elem_of_fmap in Hin as ([k1 v1] & -> & Hin).
      eapply um_find_None in Hf; [|exact Hin]. cbn in *. rewrite key_eqb_comm in Hf. congruence.
    + cbn [negb fmap list_fmap fst]. rewrite (IH Hwf Hin) at 1. apply perm_swap.
Qed.

Lemma max_stopAll_fold nested t ks : ∀ spec x env,
  max_sim nested t spec x → Forall key_nan_free ks → (ms_clocks spec).*1 ≡ₚ ks →
  max_sim nested t (max_spec_stopAll spec) (foldl (λ s key, max_noteStop key t true s) (x, env) ks).1.
Proof.
  induction ks as [|k ks IH]; intros spec x env Hsim Hk Hp.
  - apply Permutation_nil_r, fmap_nil_inv in Hp. unfold max_spec_stopAll. rewrite Hp. cbn [foldl fst].
    change (longestClock []) with 0. rewrite Z.max_l by by destruct Hsim.
    rewrite <- Hp. by destruct spec.
  - apply Forall_cons in Hk as [Hk Hks]. cbn [foldl].
    pose proof (max_noteStop_ok nested t spec x env Hsim k true Hk) as Hs. rewrite andb_false_r in Hs.
    destruct (max_noteStop k t true (x, env)) as [x1 env1]. cbn [fst] in Hs.
    assert (Hwf : um_wf (ms_clocks spec)) by (destruct Hsim as [_ -> Hwf _ _ _ _]; by apply um_wf_map).
    assert (Hin : k ∈ (ms_clocks spec).*1) by (rewrite Hp; set_solver).
    pose proof (um_erase_keys k _ Hwf (hdk_refl k Hk) Hin) as He.
    apply list_elem_of_fmap in Hin as ([k' [n a]] & -> & Hin). cbn [fst] in *.
    assert (Hf : um_find k' (ms_clocks spec) = Some (n, a)).
    { by eapply um_find_elem_wf; [|exact Hin|apply hdk_refl]. }
    unfold max_spec_stop in Hs. rewrite Hf in Hs. cbn [andb] in Hs.
    rewrite He in Hp. apply Permutation_cons_inv in Hp.
    pose proof (IH _ x1 env1 Hs Hks Hp) as Hr. unfold max_spec_stopAll in *.
    cbn [ms_condition ms_clocks ms_longest] in Hr.
    rewrite (longestClock_erase k' n a) by done. by rewrite Z.max_assoc.
Qed.

Lemma max_stopAll_ok nested t spec x env :
  max_sim nested t spec x → max_sim nested t (max_spec_stopAll spec) (max_noteStopAll t (x, env)).1.
Proof.
  intros Hsim. unfold max_noteStopAll. cbn [fst].
  assert (Hnan : Forall (λ e, key_nan_free e.1) (mInfos x)).
  { destruct Hsim as [Hi _ _ _ _ _ _]. eapply Forall_impl; [exact Hi|]. by intros e (? & _). }
  assert (Hp : keySet (mInfos x) ≡ₚ (mInfos x).*1).
  { unfold keySet. rewrite keySet_fold_perm; [by rewrite app_nil_r|by destruct Hsim|done|done|set_solver]. }
  apply max_stopAll_fold; [done|rewrite Hp; by apply Forall_fmap|]. rewrite Hp.
  destruct Hsim as [_ -> _ _ _ _ _]. unfold um_map. by rewrite <- list_fmap_compose.
Qed.

(** ** Runs *)

Definition ops_keys_ok (evs : list (Z * DurationOp)) : Prop :=
  Forall (λ e, match e.2 with OpStart k _ | OpStop k => key_nan_free k | _ => True end) evs.

Fixpoint ordered (last : Z) (evs : list (Z * DurationOp)) : Prop :=
  match evs with [] => True | (t, _) :: evs => last <= t ∧ ordered t evs end.

(** The buckets delivered for bounds that bracket them; an empty bucket is not delivered. *)
Inductive delivered : list (Z * Z) → list Z → Prop :=
| delivered_nil : delivered [] []
| delivered_empty lo hi l ds : lo <= 0 <= hi → delivered l ds → delivered ((lo, hi) :: l) ds
| delivered_bucket lo hi d l ds :
    d ≠ 0 → lo <= d <= hi → delivered l ds → delivered ((lo, hi) :: l) (d :: ds).

Definition outputOf (key : MetricDimensionKey) (output : DurationOutput) : list Z :=
  db_duration <$> um_get [] key output.

Lemma outputOf_push key b output :
  key =k key → outputOf key (pushDuration key b output) = outputOf key output ++ [db_duration b].
Proof.
  intros Hk. unfold outputOf, pushDuration, um_get at 1. rewrite um_find_set_eq by done.
  unfold id. cbn [from_option]. by rewrite fmap_app.
Qed.

(** No operation changes the key of the tracker. *)
Lemma max_noteStart_key key c t ck x env :
  mEventKey (md_base (max_noteStart key c t ck (x, env)).1) = mEventKey (md_base x).
Proof. unfold max_noteStart. by repeat case_match. Qed.

Lemma max_noteStop_key key t force s :
  mEventKey (md_base (max_noteStop key t force s).1) = mEventKey (md_base s.1).
Proof.
  destruct s as [x env]. unfold max_noteStop. destruct (um_find key (mInfos x)) as [i|]; [|done].
  destruct (di_state i), (force || negb (mNested (md_base x)) || (startCount i - 1 <=? 0));
    cbn [fst snd]; repeat case_match; done.
Qed.

Lemma noteConditionChanged_key key c t s :
  mEventKey (md_base (noteConditionChanged key c t s).1) = mEventKey (md_base s.1).
Proof. destruct s as [x env]. unfold noteConditionChanged. by repeat case_match. Qed.

Lemma foldl_key {A} (f : MaxDurationTracker * AnomalyEnv → A → MaxDurationTracker * AnomalyEnv) l :
  (∀ s a, mEventKey (md_base (f s a).1) = mEventKey (md_base s.1)) →
  ∀ s, mEventKey (md_base (foldl f s l).1) = mEventKey (md_base s.1).
Proof. intros Hf. induction l as [|a l IH]; intros s; [done|]. cbn [foldl]. by rewrite IH, Hf. Qed.

(** The effect of one operation: the simulation, and the bucket a flush delivers. *)
Lemma max_apply_ok nested t op spec output x env :
  max_sim nested t spec x → ops_keys_ok [(t, op)] →
  mEventKey (md_base x) =k mEventKey (md_base x) →
  let r := max_apply (ms_condition spec) t op output (x, env) in
  max_sim nested t (max_spec_apply nested op spec) r.2.1 ∧
  mEventKey (md_base r.2.1) = mEventKey (md_base x) ∧
  ∃ ds, outputOf (mEventKey (md_base x)) r.1 = outputOf (mEventKey (md_base x)) output ++ ds ∧
    ∀ l ds', delivered l ds' →
      delivered (match op with OpFlush => [spec_bounds spec] | _ => [] end ++ l) (ds ++ ds').
Proof.
  intros Hsim Hkeys Hk. apply Forall_cons in Hkeys as [Hkeys _]. cbn [snd] in Hkeys.
  destruct op as [key ck|key| |c|a v|]; cbn [max_apply max_spec_apply].
  1-5: cbn [fst snd app]; split; [|split; [|exists []; rewrite app_nil_r; by split]].
  - by apply max_noteStart_ok.
  - apply max_noteStart_key.
  - pose proof (max_noteStop_ok nested t spec x env Hsim key false Hkeys) as Hs.
    by rewrite andb_true_r in Hs.
  - by rewrite max_noteStop_key.
  - by apply max_stopAll_ok.
  - apply foldl_key; intros; apply max_noteStop_key.
  - by apply max_condition_ok.
  - apply foldl_key; intros; apply noteConditionChanged_key.
  - done.
  - done.
  - destruct (max_flush_ok nested t spec x env Hsim output) as (H1 & H2 & H3).
    destruct (max_flushCurrentBucket t output (x, env)) as [[b output'] [x' env']]. cbn [fst snd] in *.
    split; [done|]. split; [done|]. subst output'.
    assert (Hb := xs_bounds _ _ _ _ Hsim). destruct (spec_bounds spec) as [lo hi]. cbn [fst snd] in Hb.
    destruct (Z.eqb_spec (mDuration (md_base x)) 0) as [E|E].
    + exists []. rewrite app_nil_r. split; [done|]. intros l ds' Hd. apply delivered_empty; [lia|done].
    + exists [mDuration (md_base x)]. rewrite outputOf_push by done. split; [done|].
      intros l ds' Hd. by apply delivered_bucket.
Qed.

Lemma max_run_ok nested evs : ∀ last spec output x env,
  max_sim nested last spec x → ordered last evs → ops_keys_ok evs →
  mEventKey (md_base x) =k mEventKey (md_base x) →
  let r := max_run (ms_condition spec) evs output (x, env) in
  let ideal := max_spec_run nested last evs spec in
  max_sim nested (lastTime last evs) ideal.2 r.2.1 ∧
  ∃ ds, outputOf (mEventKey (md_base x)) r.1 = outputOf (mEventKey (md_base x)) output ++ ds ∧
    delivered ideal.1 ds.
Proof.
  induction evs as [|[t op] evs IH]; intros last spec output x env Hsim Hord Hkeys Hk.
  { split; [done|]. exists []. rewrite app_nil_r. split; [done|constructor]. }
  destruct Hord as [Ht Hord]. apply Forall_cons in Hkeys as [Hkey Hkeys].
  pose proof (max_tick nested last t spec x Ht Hsim) as Hsim'.
  set (spec' := spec_tick (t - last) spec) in *.
  destruct (max_apply_ok nested t op spec' output x env Hsim') as (H1 & H2 & ds & H3 & H4);
    [by apply Forall_cons_2; [|apply Forall_nil_2]|done|].
  cbn [max_run max_spec_run lastTime fst snd]. fold spec'.
  change (ms_condition spec') with (ms_condition spec) in *.
  destruct (max_apply (ms_condition spec) t op output (x, env)) as [output' [x' env']]. cbn [fst snd] in *.
  replace (match op with OpCondition c => c | _ => ms_condition spec end)
    with (ms_condition (max_spec_apply nested op spec')).
  2:{ destruct op as [key| | | | |]; try done; cbn; unfold max_spec_start, max_spec_stop;
        repeat case_match; done. }
  destruct (IH t _ output' x' env' H1 Hord Hkeys) as (G1 & ds' & G2 & G3); [by rewrite H2|].
  split; [done|]. exists (ds ++ ds'). rewrite H2 in G2. rewrite G2, H3, app_assoc. split; [done|].
  specialize (H4 _ _ G3). by destruct op.
Qed.

(** A duration metric with the "max" aggregation reports the longest duration that ended in
    each bucket.  For any sequence, in the order of time, of starts, stops, changes of an unsliced
    condition and flushes, the tracker keeps the clock of every going key; each flush delivers a
    duration that is at least the longest duration that ended since the flush before, and at most
    the longest one that ended or is still going (nothing when it is 0); without nesting, the
    current maximum is exactly the longest duration that ended. *)
Theorem max_reports_longest (eventKey : MetricDimensionKey) (index bucketStart bucketNum start size t0 : Z)
    (nested sliced link cond : bool) (env : AnomalyEnv) (evs : list (Z * DurationOp)) :
  mkey_nan_free eventKey → ordered t0 evs → ops_keys_ok evs →
  let x := MaxDurationTracker_new
             (DurationTracker_new eventKey index nested bucketStart bucketNum start size sliced link) in
  let ideal := max_spec_run nested t0 evs (mkMaxSpec cond [] 0) in
  let r := max_run cond evs [] (x, env) in
  ms_clocks ideal.2 = um_map (infoClock (lastTime t0 evs)) (mInfos r.2.1) ∧
  delivered ideal.1 (outputOf eventKey r.1) ∧
  ms_longest ideal.2 <= mDuration (md_base r.2.1)
    <= Z.max (ms_longest ideal.2) (longestClock (ms_clocks ideal.2)) ∧
  (nested = false → mDuration (md_base r.2.1) = ms_longest ideal.2).
Proof.
  intros Hk Hord Hkeys x ideal r.
  destruct (max_run_ok nested evs t0 (mkMaxSpec cond [] 0) [] x env) as ([_ Hc _ _ _ Hb He] & ds & H2 & H3);
    [|done|done|by apply mdk_refl|].
  { constructor; cbn; try done; lia. }
  split_and!; [done| |exact (proj1 Hb)|exact (proj2 Hb)|done].
  change (outputOf eventKey r.1 = ds) in H2. rewrite H2. exact H3.
Qed.

(** Two keys without nesting: the longest duration of the first bucket is 7, of the second one 6. *)
Definition example_max_ops : list (Z * DurationOp) :=
  [(1, OpStart (example_key 1) ∅); (2, OpStart (example_key 2) ∅); (5, OpStop (example_key 2));
   (8, OpStop (example_key 1)); (10, OpFlush); (11, OpStart (example_key 2) ∅); (13, OpCondition false);
   (15, OpCondition true); (19, OpStopAll); (20, OpFlush)].

Lemma max_reports_longest_witness :
  let x := MaxDurationTracker_new
             (DurationTracker_new example_mkey (-1) false 0 0 0 10 false false) in
  let r := max_run true example_max_ops [] (x, mkAnomalyEnv [] 0) in
  delivered [(7, 7); (6, 6)] (outputOf example_mkey r.1) ∧ outputOf example_mkey r.1 = [7; 6].
Proof.
  split; [|vm_compute; reflexivity].
  refine (proj1 (proj2 (max_reports_longest example_mkey (-1) 0 0 0 10 0 false false false true
    (mkAnomalyEnv [] 0) example_max_ops _ _ _))).
  - split; apply Forall_nil_2.
  - cbn [ordered example_max_ops]. lia.
  - unfold ops_keys_ok, example_max_ops. repeat apply Forall_cons_2; try apply Forall_nil_2; cbn; try done;
      repeat constructor.
Defined.

(** With nesting, the stop of a nested start of a key that was paused records the part of its
    duration before the pause although the duration has not ended. *)
Example max_nested_stop_reports_part :
  let x := MaxDurationTracker_new
             (DurationTracker_new example_mkey (-1) true 0 0 0 10 false false) in
  let r := max_run true
    [(1, OpStart (example_key 1) ∅); (2, OpStart (example_key 1) ∅); (4, OpCondition false);
     (5, OpStop (example_key 1)); (6, OpFlush)] [] (x, mkAnomalyEnv [] 0) in
  outputOf example_mkey r.1 = [3] ∧ length (mInfos r.2.1) = 1%nat.
Proof. vm_compute. done. Qed.
