(* ===== verification/MetricShared.v ===== *)
(** * What event, gauge and value metrics share

    Skipped buckets and their reasons (metrics/MetricProducer.{h,cpp}), the truncation of time stamps
    (stats_log_util.cpp), what a metric of a pulled atom asks of the rest of the system, and what it
    registers with the puller manager. *)
From S2P Require Import Prelude UMap FieldValue DimensionKey Matchers Conditions.
From S2P Require Import Anomaly State MetricProducer.

(** ** Skipped buckets *)

Inductive BucketDropReason :=
  | DUMP_REPORT_REQUESTED | EVENT_IN_WRONG_BUCKET | CONDITION_UNKNOWN | PULL_FAILED | PULL_DELAYED
  | DIMENSION_GUARDRAIL_REACHED | MULTIPLE_BUCKETS_SKIPPED | BUCKET_TOO_SMALL | NO_DATA.

Record DropEvent := buildDropEvent { dropTimeNs : Z; drop_reason : BucketDropReason }.

Record SkippedBucket := mkSkippedBucket {
  sk_start : Z; sk_end : Z; dropEvents : list DropEvent
}.

(** [SkippedBucket::reset] *)
Definition SkippedBucket_new : SkippedBucket := mkSkippedBucket 0 0 [].

Inductive DumpLatency := FAST | NO_TIME_CONSTRAINTS.

Definition kMaxLoggedBucketDropEvents : Z := 10.

Definition maxDropEventsReached (s : SkippedBucket) : bool :=
  kMaxLoggedBucketDropEvents <=? Z.of_nat (length (dropEvents s)).

(** ** Time stamps *)

Definition kTimestampTruncationStartTag : Z := 300000.
Definition kTimestampTruncationEndTag : Z := 304999.

Definition NS_PER_SEC : Z := 1000000000.

Definition truncateTimestampIfNecessary (event : LogEvent) : Z :=
  if shouldTruncateTimestamp event
     || (kTimestampTruncationStartTag <=? GetTagId event)
        && (GetTagId event <=? kTimestampTruncationEndTag)
  then Z.quot (Z.quot (GetElapsedTimestampNs event) NS_PER_SEC) (5 * 60) * NS_PER_SEC * (5 * 60)
  else GetElapsedTimestampNs event.

(** ** Pulls *)

(** What the metric asks of the rest of the system: the pull of its atom at a time, the elapsed time
    once a pull is done, whether an event matches the "what" of the metric, states, conditions. *)
Record Outside (W : Type) := mkOutside {
  Pull : Z → option (list LogEvent);
  getElapsedRealtimeNs : Z;
  matchesWhat : LogEvent → MatchingState;
  states : StateManager;
  conditions : W
}.

Definition setElapsedTimestampNs (t : Z) (e : LogEvent) : LogEvent :=
  mkLogEvent (GetTagId e) (GetUid e) t (getValues e) (getExclusiveStateFieldIndex e) (getResetState e)
    (shouldTruncateTimestamp e).

Definition kPullMaxDelayNs : Z := 30 * NS_PER_SEC.

(** What the constructor registers with the puller manager. *)
Record Registration := mkRegistration { reg_tag : Z; reg_nextPullTimeNs : Z; reg_intervalNs : Z }.

