(* ===== verification/EventMetric.v ===== *)
(** * The event metric (metrics/EventMetricProducer.{h,cpp})

    An event metric keeps the matched events themselves, with their time stamps, in a protobuf stream
    until they are reported.  The stream is the list of the events written to it. *)
From S2P Require Import Prelude UMap FieldValue DimensionKey Matchers Conditions Anomaly State MetricProducer CountMetric MetricShared.

(** One EventMetricData message. *)
Record EventMetricData := mkEventMetricData {
  elapsed_timestamp_nanos : Z; atom_tag : Z; atom_values : list FieldValue
}.

Record EventMetricProducer := mkEventMetricProducer {
  em_base : MetricProducer; mProto : list EventMetricData
}.

Definition set_em_base (b : MetricProducer) (p : EventMetricProducer) : EventMetricProducer :=
  mkEventMetricProducer b (mProto p).
Definition set_proto (l : list EventMetricData) (p : EventMetricProducer) : EventMetricProducer :=
  mkEventMetricProducer (em_base p) l.

Definition event_onMatchedLogEventInternalLocked (matcherIndex : nat) (eventKey : MetricDimensionKey)
    (conditionKey : ConditionKey) (condition : bool) (event : LogEvent)
    (statePrimaryKeys : gmap Z HashableDimensionKey) (p : EventMetricProducer) : EventMetricProducer :=
  if negb condition then p
  else set_proto (mProto p ++ [mkEventMetricData (truncateTimestampIfNecessary event) (GetTagId event)
                                 (getValues event)]) p.

(** An event metric has no buckets: the flushes are those of the base class, which do nothing. *)
#[export] Instance event_metric_ops : MetricOps EventMetricProducer := {|
  base := em_base;
  set_base := set_em_base;
  flushIfNeededLocked := λ _ p, p;
  flushCurrentBucketLocked := λ _ _ p, p;
  onActiveStateChangedLocked := base_onActiveStateChangedLocked em_base (λ _ p, p) (λ _ _ p, p);
  onMatchedLogEventInternalLocked := event_onMatchedLogEventInternalLocked
|}.

(** The EventMetric message. *)
Record EventMetric := mkEventMetricMessage { evm_id : Z; evm_links : list MetricConditionLink }.

(** The constructor.  It does not set the bucket size, which nothing reads; it is zero here. *)
Definition EventMetricProducer_new (metric : EventMetric) (conditionIndex : Z)
    (initialConditionCache : list ConditionState) (startTimeNs : Z)
    (activations : gmap nat Activation) (eventActivationMap : gmap Z nat)
    (eventDeactivationMap : gmap Z (list nat)) (slicedStateAtoms : list Z)
    (stateGroupMap : gmap Z (gmap Z Z)) : EventMetricProducer :=
  let cfg := mkProducerConfig (evm_id metric) startTimeNs 0 conditionIndex
    (0 <? Z.of_nat (length (evm_links metric))) false false [] false
    (toMetric2Condition <$> evm_links metric) slicedStateAtoms stateGroupMap [] in
  mkEventMetricProducer
    (MetricProducer_new cfg initialConditionCache activations eventActivationMap eventDeactivationMap) [].

Definition event_onConditionChangedLocked (conditionMet : bool) (eventTime : Z) (p : EventMetricProducer)
    : EventMetricProducer :=
  set_em_base (set_condition (if conditionMet then kTrue else kFalse) (em_base p)) p.

(** [onSlicedConditionMayChangeLocked] does nothing. *)
Definition event_onSlicedConditionMayChangeLocked (overallCondition : bool) (eventTime : Z)
    (p : EventMetricProducer) : EventMetricProducer := p.

Record EventReport := mkEventReport {
  er_id : Z; er_is_active : bool; er_data : option (list EventMetricData)
}.

Definition event_onDumpReportLocked (erase_data : bool) (p : EventMetricProducer)
    : EventReport * EventMetricProducer :=
  let id := mMetricId (mConfig (em_base p)) in
  let isActive := mIsActive (mActivity (em_base p)) in
  match mProto p with
  | [] => (mkEventReport id isActive None, p)
  | l => (mkEventReport id isActive (Some l), if erase_data then set_proto [] p else p)
  end.

Definition event_clearPastBucketsLocked (dumpTimeNs : Z) (p : EventMetricProducer)
    : EventMetricProducer := set_proto [] p.

Definition event_dropDataLocked (dropTimeNs : Z) (p : EventMetricProducer) : EventMetricProducer :=
  set_proto [] p.

(** [bytes] gives the size of an encoded message, which libprotoutil determines. *)
Definition event_byteSizeLocked (bytes : EventMetricData → Z) (p : EventMetricProducer) : Z :=
  sumZ (bytes <$> mProto p).

(** * Facts on the event metric

    The event metric satisfies the interface of metric producers, and reports every event it accepts
    once and in order. *)

#[export] Instance event_metric_laws : MetricLaws EventMetricProducer.
Proof.
  split; try done.
  - intros t p. cbn. unfold base_onActiveStateChangedLocked. by destruct (mIsActive _).
  - intros i k ck c e pk p. cbn. unfold event_onMatchedLogEventInternalLocked. by destruct (negb c).
Qed.

(** ** Runs *)

Inductive EventOp :=
  | EvMatched (matcherIndex : nat) (event : LogEvent)
  | EvCondition (conditionMet : bool) (t : Z)
  | EvExpire (t : Z)
  | EvActivate (index t : Z)
  | EvDump (erase_data : bool).

Section runs.
Context (uninit : Z) (states : StateManager) {W : Type} `{!ConditionWizardOps W} (wizard : W).
Implicit Types (p : EventMetricProducer).

(** One operation, with the data of the report that it erases. *)
Definition stepEvent (o : EventOp) (p : EventMetricProducer) : list EventMetricData * EventMetricProducer :=
  match o with
  | EvMatched i e => ([], onMatchedLogEventLocked uninit states wizard i e p)
  | EvCondition c t => ([], event_onConditionChangedLocked c t p)
  | EvExpire t => ([], flushIfExpire t p)
  | EvActivate i t => ([], activateLocked i t p)
  | EvDump erase =>
      let '(report, p') := event_onDumpReportLocked erase p in
      (if erase then default [] (er_data report) else [], p')
  end.

Fixpoint runEvents (l : list EventOp) (p : EventMetricProducer) : list EventMetricData * EventMetricProducer :=
  match l with
  | [] => ([], p)
  | o :: l =>
      let '(reported, p) := stepEvent o p in
      let '(rest, p) := runEvents l p in (reported ++ rest, p)
  end.

(** The contract: whether the metric is active and its condition is what the operations last made
    them. *)
Definition specStep (o : EventOp) (s : Activity * bool) : Activity * bool :=
  match o with
  | EvMatched _ _ | EvDump _ => s
  | EvCondition c _ => (s.1, c)
  | EvExpire t =>
      (if mIsActive s.1 then let (b, a) := evaluateActiveStateLocked t s.1 in set_active b a else s.1, s.2)
  | EvActivate i t =>
      (match mEventActivationMap s.1 !! i with
       | None => s.1
       | Some ptr =>
           match mActivations s.1 !! ptr with
           | None => s.1
           | Some x =>
               if bool_decide (activationType x = ACTIVATE_ON_BOOT) then
                 if bool_decide (act_state x = kNotActive)
                 then on_activation ptr (set_state kActiveOnBoot) s.1 else s.1
               else set_active true
                      (on_activation ptr (λ x, set_state kActive (set_start t x)) s.1)
           end
       end, s.2)
  end.

Definition accepts (timeBase : Z) (o : EventOp) (s : Activity * bool) : list EventMetricData :=
  match o with
  | EvMatched _ e =>
      if mIsActive s.1 && s.2 && (timeBase <=? GetElapsedTimestampNs e)
      then [mkEventMetricData (truncateTimestampIfNecessary e) (GetTagId e) (getValues e)] else []
  | _ => []
  end.

Fixpoint accepted (timeBase : Z) (l : list EventOp) (s : Activity * bool) : list EventMetricData :=
  match l with
  | [] => []
  | o :: l => accepts timeBase o s ++ accepted timeBase l (specStep o s)
  end.

(** What the contract sees of a producer. *)
Definition viewOf (p : EventMetricProducer) : Activity * bool :=
  (mActivity (em_base p), bool_decide (mCondition (em_base p) = kTrue)).

Lemma stepEvent_spec o p :
  mConditionSliced (mConfig (em_base p)) = false →
  let '(reported, p') := stepEvent o p in
  mConfig (em_base p') = mConfig (em_base p) ∧ viewOf p' = specStep o (viewOf p)
  ∧ reported ++ mProto p' = mProto p ++ accepts (mTimeBaseNs (mConfig (em_base p))) o (viewOf p).
Proof.
  intros Hs. destruct o as [i e|c t|t|i t|erase]; cbn [stepEvent].
  - unfold onMatchedLogEventLocked. cbn [base event_metric_ops]. rewrite Hs. cbv zeta.
    unfold accepts, viewOf. cbn [fst snd]. destruct (mIsActive (mActivity (em_base p))); cbn [negb andb];
      [|by rewrite app_nil_r].
    rewrite Z.leb_antisym. destruct (_ <? _); cbn [negb]; [by rewrite andb_false_r, app_nil_r|].
    rewrite andb_true_r. destruct (filterValues _ _ _) as [b key].
    cbn [onMatchedLogEventInternalLocked event_metric_ops]. unfold event_onMatchedLogEventInternalLocked.
    case_bool_decide as E; cbn [negb andb specStep]; split_and!; try done;
      [by rewrite bool_decide_true|by rewrite bool_decide_false|by rewrite app_nil_r].
  - split_and!; [done|by destruct c|by cbn [accepts]; rewrite app_nil_r].
  - unfold flushIfExpire, activity, viewOf. cbn [base event_metric_ops accepts specStep fst snd].
    rewrite app_nil_r. destruct (mIsActive (mActivity (em_base p))) eqn:Ha; cbn [negb]; [|done].
    destruct (evaluateActiveStateLocked t (mActivity (em_base p))) as [b a]. destruct b; [done|].
    cbn. unfold base_onActiveStateChangedLocked. by destruct (mIsActive _).
  - unfold activateLocked, activity, viewOf. cbn [base event_metric_ops accepts specStep fst snd].
    rewrite app_nil_r. destruct (mEventActivationMap _ !! i) as [ptr|]; [|done].
    destruct (mActivations _ !! ptr) as [x|]; [|done]. case_bool_decide; [by case_bool_decide|].
    destruct (mIsActive (mActivity (em_base p))); [done|]. done.
  - unfold event_onDumpReportLocked. cbn [accepts]. rewrite app_nil_r.
    destruct (mProto p) as [|d l] eqn:E; destruct erase; cbn; rewrite ?E, ?app_nil_r; done.
Qed.

(** An event metric reports what it accepts.  Over any sequence of matched events, condition
    changes, activations, expirations and reports, the data of the erasing reports followed by what is
    still held is exactly the list of the events that arrived while the metric was active and its
    condition true, in order, each with its (possibly truncated) time stamp: nothing is lost,
    duplicated or reordered. *)
Theorem event_metric_reports_accepted l p :
  mConditionSliced (mConfig (em_base p)) = false →
  let '(reported, p') := runEvents l p in
  reported ++ mProto p' = mProto p ++ accepted (mTimeBaseNs (mConfig (em_base p))) l (viewOf p).
Proof.
  revert p. induction l as [|o l IH]; intros p Hs; cbn [runEvents accepted]; [by rewrite app_nil_r|].
  pose proof (stepEvent_spec o p Hs) as Hstep. destruct (stepEvent o p) as [reported q].
  destruct Hstep as (Hc & Hv & Hr). specialize (IH q). rewrite Hc, Hv in IH. specialize (IH Hs).
  destruct (runEvents l q) as [rest p']. rewrite <- app_assoc, IH, !app_assoc, Hr. done.
Qed.
End runs.

(** ** An instance of the theorem *)

Definition example_event_metric : EventMetricProducer :=
  EventMetricProducer_new (mkEventMetricMessage 1 []) 0 [kTrue] 0 ∅ ∅ ∅ [] ∅.

Definition example_log (t : Z) (truncate : bool) : LogEvent := mkLogEvent 10 1000 t [] (-1) (-1) truncate.

Lemma event_metric_reports_accepted_witness :
  let '(reported, p') := runEvents 0 StateManager_new ([] : list ConditionTracker)
    [EvMatched 0 (example_log 3 false); EvDump true; EvMatched 0 (example_log 400000000000 true);
     EvCondition false 5; EvMatched 0 (example_log 6 false)] example_event_metric in
  reported ++ mProto p' = [mkEventMetricData 3 10 []; mkEventMetricData 300000000000 10 []].
Proof.
  pose proof (event_metric_reports_accepted 0 StateManager_new ([] : list ConditionTracker)
    [EvMatched 0 (example_log 3 false); EvDump true; EvMatched 0 (example_log 400000000000 true);
     EvCondition false 5; EvMatched 0 (example_log 6 false)] example_event_metric eq_refl) as H.
  destruct (runEvents _ _ _ _ _) as [reported p']. rewrite H. by vm_compute.
Defined.
