(* ===== verification/GaugeMetric.v ===== *)
(** * The gauge metric (metrics/GaugeMetricProducer.{h,cpp})

    A gauge metric keeps, for every dimension key and bucket, the fields of one or of the first few
    matched events, which are pushed, pulled at times of its choice, or pulled when a trigger event
    arrives.  Pulled events are matched like pushed ones, so the handler of an event can call itself
    through a pull: the depth of these calls is bounded by fuel.  The state records the two ways in
    which the handlers fail to be defined: the bound on the depth is exceeded, or the first element of
    an empty vector is read. *)
From S2P Require Import Prelude UMap FieldValue DimensionKey Matchers Conditions.
From S2P Require Import Anomaly State MetricProducer CountMetric MetricShared.

(** ** Data *)

Record GaugeAtom := mkGaugeAtom { ga_fields : list FieldValue; ga_timestamp : Z }.

Record GaugeBucket := mkGaugeBucket { gb_start : Z; gb_end : Z; gb_atoms : list GaugeAtom }.

Inductive SamplingType :=
  | RANDOM_ONE_SAMPLE | ALL_CONDITION_CHANGES | CONDITION_CHANGE_TO_TRUE | FIRST_N_SAMPLES.
#[export] Instance SamplingType_eq_dec : EqDecision SamplingType.
Proof. solve_decision. Defined.

Inductive Fault := CallDepthExceeded | EmptyVectorRead.

(** The members the constructor sets once. *)
Record GaugeConfig := mkGaugeConfig {
  gc_whatMatcherIndex : nat;
  mTriggerAtomId : Z;
  mAtomId : Z;
  gc_isPulled : bool;
  gc_minBucketSizeNs : Z;
  gc_maxPullDelayNs : Z;
  gc_dimensionSoftLimit : Z;
  gc_dimensionHardLimit : Z;
  mGaugeAtomsPerDimensionLimit : Z;
  gc_splitBucketForAppUpgrade : bool;
  mSamplingType : SamplingType;
  gc_fieldMatchers : list Matcher
}.

Record GaugeMetricProducer := mkGaugeMetric {
  gm_base : MetricProducer;
  gm_config : GaugeConfig;
  gm_pastBuckets : umap MetricDimensionKey (list GaugeBucket);
  gm_sliced : umap MetricDimensionKey (list GaugeAtom);
  mCurrentSlicedBucketForAnomaly : DimToValMap;
  gm_skippedBuckets : list SkippedBucket;
  gm_currentSkipped : SkippedBucket;
  gm_fault : option Fault
}.

Definition set_gm_base (b : MetricProducer) (p : GaugeMetricProducer) : GaugeMetricProducer :=
  mkGaugeMetric b (gm_config p) (gm_pastBuckets p) (gm_sliced p) (mCurrentSlicedBucketForAnomaly p)
    (gm_skippedBuckets p) (gm_currentSkipped p) (gm_fault p).
Definition set_gm_past (m : umap MetricDimensionKey (list GaugeBucket)) (skipped : list SkippedBucket)
    (p : GaugeMetricProducer) : GaugeMetricProducer :=
  mkGaugeMetric (gm_base p) (gm_config p) m (gm_sliced p) (mCurrentSlicedBucketForAnomaly p)
    skipped (gm_currentSkipped p) (gm_fault p).
Definition set_gm_sliced (m : umap MetricDimensionKey (list GaugeAtom)) (p : GaugeMetricProducer)
    : GaugeMetricProducer :=
  mkGaugeMetric (gm_base p) (gm_config p) (gm_pastBuckets p) m (mCurrentSlicedBucketForAnomaly p)
    (gm_skippedBuckets p) (gm_currentSkipped p) (gm_fault p).
Definition set_gm_anomaly (m : DimToValMap) (p : GaugeMetricProducer) : GaugeMetricProducer :=
  mkGaugeMetric (gm_base p) (gm_config p) (gm_pastBuckets p) (gm_sliced p) m
    (gm_skippedBuckets p) (gm_currentSkipped p) (gm_fault p).
Definition set_gm_skip (s : SkippedBucket) (p : GaugeMetricProducer) : GaugeMetricProducer :=
  mkGaugeMetric (gm_base p) (gm_config p) (gm_pastBuckets p) (gm_sliced p)
    (mCurrentSlicedBucketForAnomaly p) (gm_skippedBuckets p) s (gm_fault p).

(** The first fault is kept. *)
Definition set_fault (f : Fault) (p : GaugeMetricProducer) : GaugeMetricProducer :=
  mkGaugeMetric (gm_base p) (gm_config p) (gm_pastBuckets p) (gm_sliced p)
    (mCurrentSlicedBucketForAnomaly p) (gm_skippedBuckets p) (gm_currentSkipped p)
    (match gm_fault p with Some f' => Some f' | None => Some f end).

(** ** Flushes *)

(** The number an anomaly tracker gets for a gauge. *)
Definition gaugeVal (value : Value) : Z :=
  match value with VINT z => z | VLONG z => z | _ => 0 end.

Definition updateCurrentSlicedBucketForAnomaly (p : GaugeMetricProducer) : GaugeMetricProducer :=
  foldl (λ p '(key, atoms),
    match atoms with
    | [] => p
    | atom :: _ =>
        match ga_fields atom with
        | [] => set_fault EmptyVectorRead p
        | v :: _ =>
            set_gm_anomaly (um_set key (gaugeVal (fv_value v)) (mCurrentSlicedBucketForAnomaly p)) p
        end
    end) p (gm_sliced p).

(** [mPastBuckets\[key\].push_back(info)] for every slice. *)
Definition pushGaugeBuckets (start end_ : Z) (past : umap MetricDimensionKey (list GaugeBucket))
    (slices : umap MetricDimensionKey (list GaugeAtom)) : umap MetricDimensionKey (list GaugeBucket) :=
  foldl (λ m '(key, atoms),
    um_set key (um_get [] key m ++ [mkGaugeBucket start end_ atoms]) m) past slices.

Definition gauge_flushCurrentBucketLocked (eventTimeNs nextBucketStartTimeNs : Z)
    (p : GaugeMetricProducer) : GaugeMetricProducer :=
  let b := gm_base p in
  let start := mCurrentBucketStartTimeNs b in
  let fullBucketEndTimeNs := getCurrentBucketEndTimeNs b in
  let bucketEndTime := if eventTimeNs <? fullBucketEndTimeNs then eventTimeNs else fullBucketEndTimeNs in
  let p :=
    if gc_minBucketSizeNs (gm_config p) <=? bucketEndTime - start then
      set_gm_past (pushGaugeBuckets start bucketEndTime (gm_pastBuckets p) (gm_sliced p))
        (gm_skippedBuckets p) p
    else
      let s := gm_currentSkipped p in
      let s := mkSkippedBucket start bucketEndTime
                 (if maxDropEventsReached s then dropEvents s
                  else dropEvents s ++ [buildDropEvent eventTimeNs BUCKET_TOO_SMALL]) in
      set_gm_past (gm_pastBuckets p) (gm_skippedBuckets p ++ [s]) (set_gm_skip s p) in
  let p :=
    match mAnomalyTrackers (gm_base p) with
    | [] => p
    | _ :: _ =>
        let p := updateCurrentSlicedBucketForAnomaly p in
        if fullBucketEndTimeNs <? eventTimeNs then
          set_gm_anomaly []
            (set_gm_base (on_anomaly_trackers
               (addPastBucket (Some (mCurrentSlicedBucketForAnomaly p)) (mCurrentBucketNum (gm_base p)))
               (gm_base p)) p)
        else p
    end in
  let p := set_gm_sliced [] p in
  let p := set_gm_base (set_bucket nextBucketStartTimeNs (mCurrentBucketNum (gm_base p)) (gm_base p)) p in
  set_gm_skip SkippedBucket_new p.

Definition gauge_flushIfNeededLocked (eventTimeNs : Z) (p : GaugeMetricProducer) : GaugeMetricProducer :=
  let currentBucketEndTimeNs := getCurrentBucketEndTimeNs (gm_base p) in
  if eventTimeNs <? currentBucketEndTimeNs then p
  else
    let size := mBucketSizeNs (mConfig (gm_base p)) in
    let numBucketsForward := 1 + Z.quot (eventTimeNs - currentBucketEndTimeNs) size in
    let nextBucketNs := currentBucketEndTimeNs + (numBucketsForward - 1) * size in
    let p := gauge_flushCurrentBucketLocked eventTimeNs nextBucketNs p in
    let b := gm_base p in
    set_gm_base
      (set_bucket (mCurrentBucketStartTimeNs b) (mCurrentBucketNum b + numBucketsForward) b) p.

Definition gauge_flushLocked (eventTimeNs : Z) (p : GaugeMetricProducer) : GaugeMetricProducer :=
  gauge_flushCurrentBucketLocked eventTimeNs eventTimeNs (gauge_flushIfNeededLocked eventTimeNs p).

(** ** Events *)

(** [hitGuardRailLocked], less the statistics it notes. *)
Definition gauge_hitGuardRailLocked (newKey : MetricDimensionKey) (p : GaugeMetricProducer) : bool :=
  if um_mem newKey (gm_sliced p) then false
  else (gc_dimensionSoftLimit (gm_config p) - 1 <? size (gm_sliced p))
       && (gc_dimensionHardLimit (gm_config p) <? size (gm_sliced p) + 1).

(** The fields kept of an event: those of the filter, less the dimensions. *)
Definition getGaugeFields (event : LogEvent) (p : GaugeMetricProducer) : list FieldValue :=
  let fields :=
    match gc_fieldMatchers (gm_config p) with
    | [] => getValues event
    | matchers => filterGaugeValues matchers (getValues event) []
    end in
  foldl (λ fields field, List.filter (λ v, negb (matches (fv_field v) field)) fields) fields
    (mDimensionsInWhat (mConfig (gm_base p))).

(** The last steps of the handler of an event: the atom is added to the slice of its key. *)
Definition addGaugeAtom (eventKey : MetricDimensionKey) (event : LogEvent) (p : GaugeMetricProducer)
    : GaugeMetricProducer :=
  let atoms := um_get [] eventKey (gm_sliced p) in
  if mGaugeAtomsPerDimensionLimit (gm_config p) <=? Z.of_nat (length atoms)
  then set_gm_sliced (um_set eventKey atoms (gm_sliced p)) p
  else
    let gaugeAtom := mkGaugeAtom (getGaugeFields event p) (truncateTimestampIfNecessary event) in
    let p := set_gm_sliced (um_set eventKey (atoms ++ [gaugeAtom]) (gm_sliced p)) p in
    match ga_fields gaugeAtom with
    | [v] =>
        set_gm_base (on_anomaly_trackers
          (detectAndDeclareAnomaly (GetElapsedTimestampNs event) (mCurrentBucketNum (gm_base p)) eventKey
             (gaugeVal (fv_value v))) (gm_base p)) p
    | _ => p
    end.

Section outside.
Context (uninit : Z) {W : Type} `{!ConditionWizardOps W} (out : Outside W).

(** Whether a pull is made: a metric of one sample does not pull again in the same bucket. *)
Definition triggerPuller (p : GaugeMetricProducer) : bool :=
  match mSamplingType (gm_config p) with
  | RANDOM_ONE_SAMPLE =>
      bool_decide (mCondition (gm_base p) = kTrue)
      && match gm_sliced p with [] => true | _ :: _ => false end
  | CONDITION_CHANGE_TO_TRUE | FIRST_N_SAMPLES => bool_decide (mCondition (gm_base p) = kTrue)
  | ALL_CONDITION_CHANGES => false
  end.

(** [pullAndMatchEventsLocked], for a given handler of a matched event. *)
Definition pullAndMatchWith (onMatched : LogEvent → GaugeMetricProducer → GaugeMetricProducer)
    (timestampNs : Z) (p : GaugeMetricProducer) : GaugeMetricProducer :=
  if negb (triggerPuller p) then p
  else
    match Pull _ out timestampNs with
    | None => p
    | Some allData =>
        if gc_maxPullDelayNs (gm_config p) <? getElapsedRealtimeNs _ out - timestampNs then p
        else
          foldl (λ p data,
            let localCopy := setElapsedTimestampNs timestampNs data in
            if bool_decide (matchesWhat _ out localCopy = kMatched) then onMatched localCopy p else p)
            p allData
    end.

(** The methods of the shared code, for a given handler of a matched event. *)
Definition gauge_ops_with (onMatchedInternal :
    nat → MetricDimensionKey → ConditionKey → bool → LogEvent → gmap Z HashableDimensionKey →
    GaugeMetricProducer → GaugeMetricProducer)
    (onActiveStateChanged : Z → GaugeMetricProducer → GaugeMetricProducer)
    : MetricOps GaugeMetricProducer := {|
  base := gm_base;
  set_base := set_gm_base;
  flushIfNeededLocked := gauge_flushIfNeededLocked;
  flushCurrentBucketLocked := gauge_flushCurrentBucketLocked;
  onActiveStateChangedLocked := onActiveStateChanged;
  onMatchedLogEventInternalLocked := onMatchedInternal
|}.

(** The handler of a matched event, with at most [depth] pulls inside each other. *)
Fixpoint gauge_onMatchedLogEventInternalLocked (depth : nat) (matcherIndex : nat)
    (eventKey : MetricDimensionKey) (conditionKey : ConditionKey) (condition : bool) (event : LogEvent)
    (statePrimaryKeys : gmap Z HashableDimensionKey) (p : GaugeMetricProducer) : GaugeMetricProducer :=
  let eventTimeNs := GetElapsedTimestampNs event in
  if negb condition then p
  else if eventTimeNs <? mCurrentBucketStartTimeNs (gm_base p) then p
  else
    let p := gauge_flushIfNeededLocked eventTimeNs p in
    if mTriggerAtomId (gm_config p) =? GetTagId event then
      match depth with
      | O => set_fault CallDepthExceeded p
      | S depth =>
          pullAndMatchWith
            (λ data p,
               onMatchedLogEventLocked
                 (H := gauge_ops_with (gauge_onMatchedLogEventInternalLocked depth) (λ _ p, p))
                 uninit (states _ out) (conditions _ out) (gc_whatMatcherIndex (gm_config p)) data p)
            eventTimeNs p
      end
    else if um_mem eventKey (gm_sliced p)
            && bool_decide (mSamplingType (gm_config p) = RANDOM_ONE_SAMPLE) then p
    else if gauge_hitGuardRailLocked eventKey p then p
    else addGaugeAtom eventKey event p.

Section depth.
Context (depth : nat).

Definition gauge_onMatchedLogEventLocked (matcherIndex : nat) (event : LogEvent) (p : GaugeMetricProducer)
    : GaugeMetricProducer :=
  onMatchedLogEventLocked
    (H := gauge_ops_with (gauge_onMatchedLogEventInternalLocked depth) (λ _ p, p))
    uninit (states _ out) (conditions _ out) matcherIndex event p.

Definition gauge_pullAndMatchEventsLocked (timestampNs : Z) (p : GaugeMetricProducer)
    : GaugeMetricProducer :=
  pullAndMatchWith
    (λ data p, gauge_onMatchedLogEventLocked (gc_whatMatcherIndex (gm_config p)) data p) timestampNs p.

Definition gauge_onActiveStateChangedLocked (eventTimeNs : Z) (p : GaugeMetricProducer)
    : GaugeMetricProducer :=
  let p := base_onActiveStateChangedLocked gm_base gauge_flushIfNeededLocked
             gauge_flushCurrentBucketLocked eventTimeNs p in
  if negb (bool_decide (mCondition (gm_base p) = kTrue)) || negb (gc_isPulled (gm_config p)) then p
  else if (mTriggerAtomId (gm_config p) =? -1)
          || mIsActive (mActivity (gm_base p))
             && bool_decide (mSamplingType (gm_config p) = RANDOM_ONE_SAMPLE)
  then gauge_pullAndMatchEventsLocked eventTimeNs p
  else p.

#[export] Instance gauge_metric_ops : MetricOps GaugeMetricProducer :=
  gauge_ops_with (gauge_onMatchedLogEventInternalLocked depth) gauge_onActiveStateChangedLocked.

(** [onDataPulled]: [None] is a failed pull. *)
Definition gauge_onDataPulled (allData : option (list LogEvent)) (originalPullTimeNs : Z)
    (p : GaugeMetricProducer) : GaugeMetricProducer :=
  match allData with
  | None | Some [] => p
  | Some allData =>
      if gc_maxPullDelayNs (gm_config p) <? getElapsedRealtimeNs _ out - originalPullTimeNs then p
      else
        foldl (λ p data,
          if bool_decide (matchesWhat _ out data = kMatched)
          then gauge_onMatchedLogEventLocked (gc_whatMatcherIndex (gm_config p)) data p else p) p allData
  end.

(** A split of the bucket is followed by a pull for the new one. *)
Definition pullForNewBucket (eventTimeNs : Z) (p : GaugeMetricProducer) : GaugeMetricProducer :=
  if gc_isPulled (gm_config p) && bool_decide (mSamplingType (gm_config p) = RANDOM_ONE_SAMPLE)
  then gauge_pullAndMatchEventsLocked eventTimeNs p else p.

Definition gauge_notifyAppUpgrade (eventTimeNs : Z) (p : GaugeMetricProducer) : GaugeMetricProducer :=
  if negb (gc_splitBucketForAppUpgrade (gm_config p)) then p
  else pullForNewBucket eventTimeNs (gauge_flushLocked eventTimeNs p).

Definition gauge_onStatsdInitCompleted (eventTimeNs : Z) (p : GaugeMetricProducer)
    : GaugeMetricProducer :=
  pullForNewBucket eventTimeNs (gauge_flushLocked eventTimeNs p).

Definition gauge_prepareFirstBucketLocked (p : GaugeMetricProducer) : GaugeMetricProducer :=
  if mIsActive (mActivity (gm_base p)) && gc_isPulled (gm_config p)
     && bool_decide (mSamplingType (gm_config p) = RANDOM_ONE_SAMPLE)
  then gauge_pullAndMatchEventsLocked (mCurrentBucketStartTimeNs (gm_base p)) p else p.

(** ** Conditions *)

Definition gauge_onConditionChangedLocked (conditionMet : bool) (eventTimeNs : Z)
    (p : GaugeMetricProducer) : GaugeMetricProducer :=
  let p := set_gm_base (set_condition (if conditionMet then kTrue else kFalse) (gm_base p)) p in
  if negb (mIsActive (mActivity (gm_base p))) then p
  else
    let p := gauge_flushIfNeededLocked eventTimeNs p in
    if gc_isPulled (gm_config p) && (mTriggerAtomId (gm_config p) =? -1)
    then gauge_pullAndMatchEventsLocked eventTimeNs p else p.

(** The code of the two methods is the same. *)
Definition gauge_onSlicedConditionMayChangeLocked (overallCondition : bool) (eventTimeNs : Z)
    (p : GaugeMetricProducer) : GaugeMetricProducer :=
  gauge_onConditionChangedLocked overallCondition eventTimeNs p.
End depth.
End outside.

(** ** Construction *)

(** The GaugeMetric message; no fields filter means that all fields are included. *)
Record GaugeMetric := mkGaugeMetricMessage {
  gmm_id : Z;
  gmm_gauge_fields : option FieldMatcher;
  gmm_dimensions_in_what : option FieldMatcher;
  gmm_bucket : option TimeUnit;
  gmm_links : list MetricConditionLink;
  gmm_sampling_type : SamplingType;
  gmm_min_bucket_size_nanos : Z;
  gmm_max_num_gauge_atoms_per_bucket : Z;
  gmm_max_pull_delay_sec : Z;
  gmm_split_bucket_for_app_upgrade : bool
}.

(** The members of the configuration; the limit on atoms is converted to an unsigned number. *)
Definition toGaugeConfig (sizeLimits : gmap Z (Z * Z)) (metric : GaugeMetric) (whatMatcherIndex : nat)
    (pullTagId triggerAtomId atomId : Z) : GaugeConfig :=
  let limits := default (kDimensionKeySizeSoftLimit, kDimensionKeySizeHardLimit)
                  (sizeLimits !! pullTagId) in
  mkGaugeConfig whatMatcherIndex triggerAtomId atomId (negb (pullTagId =? -1))
    (gmm_min_bucket_size_nanos metric)
    (if 0 <? gmm_max_pull_delay_sec metric then gmm_max_pull_delay_sec metric * NS_PER_SEC
     else kPullMaxDelayNs)
    limits.1 limits.2 (gmm_max_num_gauge_atoms_per_bucket metric mod 2 ^ 64)
    (gmm_split_bucket_for_app_upgrade metric) (gmm_sampling_type metric)
    (from_option translateFieldMatcher [] (gmm_gauge_fields metric)).

Definition GaugeMetricProducer_new (sizeLimits : gmap Z (Z * Z)) (uid : Z) (metric : GaugeMetric)
    (conditionIndex : Z) (initialConditionCache : list ConditionState) (whatMatcherIndex : nat)
    (pullTagId triggerAtomId atomId timeBaseNs startTimeNs : Z) (activations : gmap nat Activation)
    (eventActivationMap : gmap Z nat) (eventDeactivationMap : gmap Z (list nat))
    : GaugeMetricProducer * option Registration :=
  let bucketSizeNs :=
    match gmm_bucket metric with
    | Some unit_ => TimeUnitToBucketSizeInMillisGuardrailed uid unit_
    | None => TimeUnitToBucketSizeInMillis ONE_HOUR
    end * 1000000 in
  let dims := gmm_dimensions_in_what metric in
  let cfg := mkProducerConfig (gmm_id metric) timeBaseNs bucketSizeNs conditionIndex
    (0 <? Z.of_nat (length (gmm_links metric)))
    (from_option HasPositionANY false dims) (from_option HasPositionALL false dims)
    (from_option translateFieldMatcher [] dims) false
    (toMetric2Condition <$> gmm_links metric) [] ∅ [] in
  let b := MetricProducer_new cfg initialConditionCache activations eventActivationMap
             eventDeactivationMap in
  let p := mkGaugeMetric b
             (toGaugeConfig sizeLimits metric whatMatcherIndex pullTagId triggerAtomId atomId)
             [] [] [] [] SkippedBucket_new None in
  let p := gauge_flushIfNeededLocked startTimeNs p in
  let registration :=
    if gc_isPulled (gm_config p) && bool_decide (mSamplingType (gm_config p) = RANDOM_ONE_SAMPLE)
    then Some (mkRegistration pullTagId (getCurrentBucketEndTimeNs (gm_base p)) bucketSizeNs)
    else None in
  (set_gm_base (set_bucket startTimeNs (mCurrentBucketNum (gm_base p)) (gm_base p)) p, registration).

(** ** Reports and dropped data *)

(** The GaugeBucketInfo message: the bucket by times or number, the atoms, their time stamps. *)
Record GaugeBucketInfo := mkGaugeBucketInfo {
  gbi_times : (Z * Z) + Z; gbi_atoms : list (Z * list FieldValue); gbi_timestamps : list Z
}.

Definition gaugeBucketInfo (p : GaugeMetricProducer) (bucket : GaugeBucket) : GaugeBucketInfo :=
  let b := gm_base p in
  mkGaugeBucketInfo
    (if negb (gb_end bucket - gb_start bucket =? mBucketSizeNs (mConfig b))
     then inl (NanoToMillis (gb_start bucket), NanoToMillis (gb_end bucket))
     else inr (getBucketNumFromEndTimeNs (gb_end bucket) b))
    ((λ a, (mAtomId (gm_config p), ga_fields a)) <$> gb_atoms bucket)
    (ga_timestamp <$> gb_atoms bucket).

Record GaugeReport := mkGaugeReport {
  gr_id : Z; gr_is_active : bool;
  gr_data : option (Z * Z * list (Z * Z * list (BucketDropReason * Z))
                    * list (MetricDimensionKey * list GaugeBucketInfo))
}.

Definition gauge_skippedInfo (s : SkippedBucket) : Z * Z * list (BucketDropReason * Z) :=
  (NanoToMillis (sk_start s), NanoToMillis (sk_end s),
   (λ d, (drop_reason d, NanoToMillis (dropTimeNs d))) <$> dropEvents s).

Definition gaugeEntry (p : GaugeMetricProducer) (e : MetricDimensionKey * list GaugeBucket)
    : MetricDimensionKey * list GaugeBucketInfo := (e.1, gaugeBucketInfo p <$> e.2).

Definition gauge_onDumpReportLocked (dumpTimeNs : Z) (include_current_partial_bucket erase_data : bool)
    (p : GaugeMetricProducer) : GaugeReport * GaugeMetricProducer :=
  let p := if include_current_partial_bucket then gauge_flushLocked dumpTimeNs p
           else gauge_flushIfNeededLocked dumpTimeNs p in
  let cfg := mConfig (gm_base p) in
  let isActive := mIsActive (mActivity (gm_base p)) in
  match gm_pastBuckets p, gm_skippedBuckets p with
  | [], [] => (mkGaugeReport (mMetricId cfg) isActive None, p)
  | past, skipped =>
      (mkGaugeReport (mMetricId cfg) isActive
         (Some (mTimeBaseNs cfg, mBucketSizeNs cfg, gauge_skippedInfo <$> skipped,
                gaugeEntry p <$> past)),
       if erase_data then set_gm_past [] [] p else p)
  end.

Definition gauge_clearPastBucketsLocked (dumpTimeNs : Z) (p : GaugeMetricProducer)
    : GaugeMetricProducer := set_gm_past [] [] (gauge_flushIfNeededLocked dumpTimeNs p).

(** The skipped buckets are kept. *)
Definition gauge_dropDataLocked (dropTimeNs : Z) (p : GaugeMetricProducer) : GaugeMetricProducer :=
  let p := gauge_flushIfNeededLocked dropTimeNs p in set_gm_past [] (gm_skippedBuckets p) p.

(** [atomSize] and [fieldSize] are [sizeof(GaugeAtom)] and [sizeof(FieldValue)]. *)
Definition gauge_byteSizeLocked (atomSize fieldSize : Z) (p : GaugeMetricProducer) : Z :=
  foldl (λ totalSize pair,
    foldl (λ totalSize bucket,
      foldl (λ totalSize atom, totalSize + Z.of_nat (length (ga_fields atom)) * fieldSize)
        (totalSize + Z.of_nat (length (gb_atoms bucket)) * atomSize) (gb_atoms bucket))
      totalSize pair.2) 0 (gm_pastBuckets p).
