(* ===== verification/GaugeMetricFacts.v ===== *)
(** * Facts on the gauge metric

    The gauge metric satisfies the interface of metric producers; a bucket holds the first atoms of
    every key; the handlers terminate when no pulled event is a trigger, and do not otherwise. *)
From S2P Require Import Prelude UMap FieldValue DimensionKey DimensionKeyFacts Matchers Conditions.
From S2P Require Import Anomaly State MetricProducer CountMetric MetricShared GaugeMetric.

(** ** What a flush changes *)

(** The members a flush leaves alone. *)
Definition frame (p : GaugeMetricProducer) : GaugeConfig * ProducerConfig * ConditionState * Activity :=
  (gm_config p, mConfig (gm_base p), mCondition (gm_base p), mActivity (gm_base p)).

Lemma update_anomaly_keeps p :
  let q := updateCurrentSlicedBucketForAnomaly p in
  gm_base q = gm_base p ∧ gm_config q = gm_config p ∧ gm_pastBuckets q = gm_pastBuckets p
  ∧ gm_skippedBuckets q = gm_skippedBuckets p.
Proof.
  cbv zeta. unfold updateCurrentSlicedBucketForAnomaly. generalize (gm_sliced p) as l.
  intros l. revert p. induction l as [|[key [|[[|v fields] t] atoms]] l IH]; intros p; cbn [foldl];
    [done|apply IH| |].
  - apply (IH (set_fault EmptyVectorRead p)).
  - apply (IH (set_gm_anomaly (um_set key (gaugeVal (fv_value v)) (mCurrentSlicedBucketForAnomaly p)) p)).
Qed.

Lemma gauge_flushCurrent_fields t n p :
  let q := gauge_flushCurrentBucketLocked t n p in
  frame q = frame p ∧ mCurrentBucketStartTimeNs (gm_base q) = n
  ∧ mCurrentBucketNum (gm_base q) = mCurrentBucketNum (gm_base p) ∧ gm_sliced q = []
  ∧ (mAnomalyTrackers (gm_base p) = [] →
     mAnomalyTrackers (gm_base q) = [] ∧ gm_fault q = gm_fault p).
Proof.
  cbv zeta. unfold gauge_flushCurrentBucketLocked. cbv zeta. set (e := if t <? _ then t else _).
  set (p1 := if _ <=? _ then _ else _).
  assert (H1 : gm_base p1 = gm_base p ∧ gm_config p1 = gm_config p ∧ gm_fault p1 = gm_fault p)
    by (subst p1; by destruct (_ <=? _)).
  clearbody p1. destruct H1 as (Hb & Hc & Hf). rewrite Hb.
  destruct (update_anomaly_keeps p1) as (Ub & Uc & _ & _). unfold frame.
  destruct (mAnomalyTrackers (gm_base p)) as [|tr trs] eqn:Htr.
  - cbn. rewrite Hb, Hc, Htr. split_and!; done.
  - destruct (_ <? t); cbn; rewrite Ub, Hb, ?Uc, ?Hc; split_and!; done.
Qed.

Lemma gauge_ifNeeded_fields t p :
  0 < mBucketSizeNs (mConfig (gm_base p)) →
  let q := gauge_flushIfNeededLocked t p in
  frame q = frame p ∧ t < getCurrentBucketEndTimeNs (gm_base q)
  ∧ (mCurrentBucketStartTimeNs (gm_base p) <= t → mCurrentBucketStartTimeNs (gm_base q) <= t)
  ∧ (mAnomalyTrackers (gm_base p) = [] →
     mAnomalyTrackers (gm_base q) = [] ∧ gm_fault q = gm_fault p).
Proof.
  intros Hs. cbv zeta. unfold gauge_flushIfNeededLocked.
  destruct (Z.ltb_spec t (getCurrentBucketEndTimeNs (gm_base p))) as [Hlt|Hge]; [done|]. cbv zeta.
  set (size := mBucketSizeNs (mConfig (gm_base p))) in *. set (en := getCurrentBucketEndTimeNs (gm_base p)) in *.
  set (n := 1 + Z.quot (t - en) size).
  assert (Hn : en + (n - 1) * size <= t < en + n * size).
  { subst n. rewrite Z.quot_div_nonneg by lia. pose proof (Z_div_mod_eq_full (t - en) size).
    pose proof (Z.mod_pos_bound (t - en) size Hs). nia. }
  destruct (gauge_flushCurrent_fields t (en + (n - 1) * size) p) as (Hf & Hst & Hnum & _ & Htr).
  set (q := gauge_flushCurrentBucketLocked _ _ p) in *. clearbody q n.
  unfold frame in *. injection Hf as H1 H2 H3 H4. cbn.
  unfold getCurrentBucketEndTimeNs in *. cbn. rewrite H1, H2, H3, H4, Hst, Hnum. split_and!; try done; lia.
Qed.

Lemma gauge_ifNeeded_frame t p : frame (gauge_flushIfNeededLocked t p) = frame p.
Proof.
  unfold gauge_flushIfNeededLocked. destruct (_ <? _); [done|]. cbv zeta.
  set (n := 1 + _). destruct (gauge_flushCurrent_fields t (getCurrentBucketEndTimeNs (gm_base p) +
    (n - 1) * mBucketSizeNs (mConfig (gm_base p))) p) as (Hf & _). exact Hf.
Qed.

(** A fault stays. *)
Lemma gauge_flushCurrent_fault t n p f :
  gm_fault p = Some f → gm_fault (gauge_flushCurrentBucketLocked t n p) = Some f.
Proof.
  intros Hp. unfold gauge_flushCurrentBucketLocked. cbv zeta.
  set (e := if t <? _ then t else _). set (p1 := if _ <=? _ then _ else _).
  assert (H1 : gm_fault p1 = Some f) by (subst p1; by destruct (_ <=? _)). clearbody p1.
  assert (Hu : gm_fault (updateCurrentSlicedBucketForAnomaly p1) = Some f).
  { unfold updateCurrentSlicedBucketForAnomaly. generalize (gm_sliced p1) as l. intros l. revert p1 H1.
    induction l as [|[key [|[[|v fields] t'] atoms]] l IH]; intros q Hq; cbn [foldl]; [done|by apply IH| |];
      apply IH; [cbn; by rewrite Hq|done]. }
  destruct (mAnomalyTrackers (gm_base p1)); [done|]. by destruct (_ <? t).
Qed.

Lemma gauge_ifNeeded_fault t p f :
  gm_fault p = Some f → gm_fault (gauge_flushIfNeededLocked t p) = Some f.
Proof.
  intros Hp. unfold gauge_flushIfNeededLocked. destruct (_ <? _); [done|]. by apply gauge_flushCurrent_fault.
Qed.

Lemma addGaugeAtom_keeps key e p :
  let q := addGaugeAtom key e p in
  frame q = frame p ∧ gm_fault q = gm_fault p
  ∧ mCurrentBucketStartTimeNs (gm_base q) = mCurrentBucketStartTimeNs (gm_base p)
  ∧ mCurrentBucketNum (gm_base q) = mCurrentBucketNum (gm_base p)
  ∧ gm_pastBuckets q = gm_pastBuckets p.
Proof.
  cbv zeta. unfold addGaugeAtom. cbv zeta. destruct (_ <=? _); [done|]. cbn [ga_fields].
  by destruct (getGaugeFields e p) as [|v [|v' l]].
Qed.

(** ** The handler of an event *)

Section handler.
Context (uninit : Z) {W : Type} `{!ConditionWizardOps W} (out : Outside W).
Implicit Types (p q : GaugeMetricProducer).

(** What a handler keeps, a pull keeps. *)
Lemma pullWith_keeps (P : GaugeMetricProducer → Prop) f t p :
  (∀ l e q, Pull _ out t = Some l → e ∈ l → matchesWhat _ out (setElapsedTimestampNs t e) = kMatched →
            P q → P (f (setElapsedTimestampNs t e) q)) →
  P p → P (pullAndMatchWith out f t p).
Proof using.
  intros Hf Hp. unfold pullAndMatchWith. destruct (negb (triggerPuller p)); [done|].
  destruct (Pull _ out t) as [l|] eqn:E; [|done]. destruct (_ <? _); [done|].
  assert (Hl : ∀ e, e ∈ l → ∀ q, matchesWhat _ out (setElapsedTimestampNs t e) = kMatched →
                     P q → P (f (setElapsedTimestampNs t e) q)) by eauto.
  clear Hf E. revert p Hp. induction l as [|e l IH]; intros p Hp; cbn [foldl]; [done|].
  apply IH; [set_solver|]. cbv zeta. case_bool_decide; [|done]. apply Hl; [set_solver|done|done].
Qed.

(** What the handler of a matched event keeps, the shared code around it keeps. *)
Lemma onMatched_keeps (P : GaugeMetricProducer → Prop) internal active i e p :
  (∀ key ck c pk, P p → P (internal i key ck c e pk p)) → P p →
  P (onMatchedLogEventLocked (H := gauge_ops_with internal active) uninit (states _ out)
       (conditions _ out) i e p).
Proof using.
  intros Hi Hp. unfold onMatchedLogEventLocked. cbv zeta. destruct (negb _); [done|].
  destruct (_ <? _); [done|]. destruct (filterValues _ _ _) as [b key]. by apply Hi.
Qed.

Abbreviation handler := (gauge_onMatchedLogEventInternalLocked uninit out).

(** Unless the event is a trigger, the handler makes no call of its own. *)
Lemma handler_keeps (P : GaugeMetricProducer → Prop) depth i key ck c e pk p :
  (∀ q, P q → P (gauge_flushIfNeededLocked (GetElapsedTimestampNs e) q)) →
  (∀ q, P q → P (addGaugeAtom key e q)) →
  (∀ q, P q → frame q = frame p → GetTagId e = mTriggerAtomId (gm_config p) →
     P (match depth with
        | O => set_fault CallDepthExceeded q
        | S depth =>
            pullAndMatchWith out
              (λ data q, onMatchedLogEventLocked (H := gauge_ops_with (handler depth) (λ _ q, q)) uninit
                 (states _ out) (conditions _ out) (gc_whatMatcherIndex (gm_config q)) data q)
              (GetElapsedTimestampNs e) q
        end)) →
  P p → P (handler depth i key ck c e pk p).
Proof using.
  intros Hf Ha Ht Hp.
  assert (Hq := gauge_ifNeeded_frame (GetElapsedTimestampNs e) p). specialize (Hf p Hp).
  unfold gauge_onMatchedLogEventInternalLocked. destruct depth as [|depth];
    fold (handler depth) || idtac; cbv zeta; (destruct (negb c); [done|]); (destruct (_ <? _); [done|]);
    set (q := gauge_flushIfNeededLocked _ p) in *; clearbody q;
    (destruct (Z.eqb_spec (mTriggerAtomId (gm_config q)) (GetTagId e)) as [E|_];
      [apply Ht; [done|done|]; unfold frame in Hq; injection Hq as Hq _ _ _; by rewrite <- Hq
      |destruct (_ && _); [done|]; destruct (gauge_hitGuardRailLocked key q); [done|]; by apply Ha]).
Qed.

Lemma handler_frame depth : ∀ i key ck c e pk p, frame (handler depth i key ck c e pk p) = frame p.
Proof using.
  induction depth as [|depth IH]; intros i key ck c e pk p;
    apply (handler_keeps (λ q, frame q = frame p)); try done.
  - intros q <-. apply gauge_ifNeeded_frame.
  - intros q <-. apply addGaugeAtom_keeps.
  - intros q <-. apply gauge_ifNeeded_frame.
  - intros q <-. apply addGaugeAtom_keeps.
  - intros q Hq _ _. apply pullWith_keeps; [|done]. intros l e' r _ _ _ Hr.
    apply (onMatched_keeps (λ q, frame q = frame p)); [|done]. intros. by rewrite IH.
Qed.

(** A fault stays. *)
Lemma handler_fault depth : ∀ i key ck c e pk p f,
  gm_fault p = Some f → gm_fault (handler depth i key ck c e pk p) = Some f.
Proof using.
  induction depth as [|depth IH]; intros i key ck c e pk p f Hp;
    apply (handler_keeps (λ q, gm_fault q = Some f)); try done.
  - intros q. apply gauge_ifNeeded_fault.
  - intros q Hq. by destruct (addGaugeAtom_keeps key e q) as (_ & -> & _).
  - intros q Hq _ _. cbn. by rewrite Hq.
  - intros q. apply gauge_ifNeeded_fault.
  - intros q Hq. by destruct (addGaugeAtom_keeps key e q) as (_ & -> & _).
  - intros q Hq _ _. apply pullWith_keeps; [|done]. intros l e' r _ _ _ Hr.
    apply (onMatched_keeps (λ q, gm_fault q = Some f)); [|done]. intros. by apply IH.
Qed.
(** ** A pull within the current bucket *)

(** Only the current bucket, what the trackers of anomalies know and the faults differ. *)
Definition pulledFrom (p q : GaugeMetricProducer) : Prop :=
  ∃ trackers atoms fault, q =
    mkGaugeMetric
      (mkMetricProducer (mConfig (gm_base p)) (mCurrentBucketStartTimeNs (gm_base p)) (mCurrentBucketNum (gm_base p))
         (mCondition (gm_base p)) trackers (mActivity (gm_base p)))
      (gm_config p) (gm_pastBuckets p) atoms (mCurrentSlicedBucketForAnomaly p) (gm_skippedBuckets p) (gm_currentSkipped p) fault.

Lemma pulledFrom_refl p : pulledFrom p p.
Proof using. exists (mAnomalyTrackers (gm_base p)), (gm_sliced p), (gm_fault p). by destruct p as [[]]. Qed.

Lemma pulledFrom_flush t p q :
  pulledFrom p q → t < getCurrentBucketEndTimeNs (gm_base p) → pulledFrom p (gauge_flushIfNeededLocked t q).
Proof using.
  intros Hq Ht. unfold gauge_flushIfNeededLocked.
  assert (getCurrentBucketEndTimeNs (gm_base q) = getCurrentBucketEndTimeNs (gm_base p)) as -> by (by destruct Hq as (? & ? & ? & ->)).
  by rewrite (proj2 (Z.ltb_lt _ _) Ht).
Qed.

Lemma pulledFrom_add key e p q : pulledFrom p q → pulledFrom p (addGaugeAtom key e q).
Proof using.
  intros (trackers & atoms & fault & ->). unfold addGaugeAtom. cbv zeta. destruct (_ <=? _); [by do 3 eexists|]. cbn [ga_fields].
  destruct (getGaugeFields _ _) as [|v [|v' l]]; by do 3 eexists.
Qed.

Lemma handler_within depth : ∀ i key ck c e pk p q,
  GetElapsedTimestampNs e < getCurrentBucketEndTimeNs (gm_base p) → pulledFrom p q → pulledFrom p (handler depth i key ck c e pk q).
Proof using.
  induction depth as [|depth IH]; intros i key ck c e pk p q Ht Hq; apply (handler_keeps (pulledFrom p)); try done.
  - intros r Hr. by apply pulledFrom_flush.
  - intros r Hr. by apply pulledFrom_add.
  - intros r (trackers & atoms & fault & ->) _ _. by do 3 eexists.
  - intros r Hr. by apply pulledFrom_flush.
  - intros r Hr. by apply pulledFrom_add.
  - intros r Hr _ _. apply pullWith_keeps; [|done]. intros l d s _ _ _ Hs. apply (onMatched_keeps (pulledFrom p)); [|done].
    intros. by apply IH.
Qed.

Lemma pull_within depth t p :
  t < getCurrentBucketEndTimeNs (gm_base p) → pulledFrom p (gauge_pullAndMatchEventsLocked uninit out depth t p).
Proof using.
  intros Ht. apply (pullWith_keeps (pulledFrom p)); [|apply pulledFrom_refl]. intros l d s _ _ _ Hs.
  apply (onMatched_keeps (pulledFrom p)); [|done]. intros. by apply handler_within.
Qed.

(** A metric of one sample that has atoms in its current bucket does not pull. *)
Lemma pull_only_empty depth t p :
  mSamplingType (gm_config p) = RANDOM_ONE_SAMPLE → gm_sliced p ≠ [] → gauge_pullAndMatchEventsLocked uninit out depth t p = p.
Proof using.
  intros Hs Hne. unfold gauge_pullAndMatchEventsLocked, pullAndMatchWith, triggerPuller. rewrite Hs.
  destruct (gm_sliced p); [done|]. by rewrite andb_false_r.
Qed.

(** ** Termination *)

(** No event that a pull returns and the metric matches is a trigger. *)
Definition noTriggerPulled (trigger : Z) : Prop :=
  ∀ t l e, Pull _ out t = Some l → e ∈ l → matchesWhat _ out (setElapsedTimestampNs t e) = kMatched →
  GetTagId e ≠ trigger.

Definition withinDepth (p : GaugeMetricProducer) : Prop := gm_fault p ≠ Some CallDepthExceeded.

Lemma flush_withinDepth t p : withinDepth p → withinDepth (gauge_flushIfNeededLocked t p).
Proof using.
  unfold withinDepth, gauge_flushIfNeededLocked. destruct (_ <? _); [done|]. cbv zeta.
  unfold gauge_flushCurrentBucketLocked. cbv zeta. intros Hp.
  set (e := if t <? _ then t else _). set (p1 := if _ <=? _ then _ else _).
  assert (H1 : gm_fault p1 ≠ Some CallDepthExceeded) by (subst p1; by destruct (_ <=? _)). clearbody p1.
  assert (Hu : gm_fault (updateCurrentSlicedBucketForAnomaly p1) ≠ Some CallDepthExceeded).
  { unfold updateCurrentSlicedBucketForAnomaly. generalize (gm_sliced p1) as l. intros l. revert p1 H1.
    induction l as [|[key [|[[|v fields] t'] atoms]] l IH]; intros q Hq; cbn [foldl]; [done|by apply IH| |];
      apply IH; [cbn; by destruct (gm_fault q)|done]. }
  destruct (mAnomalyTrackers (gm_base p1)); [done|]. by destruct (_ <? t).
Qed.

Lemma handler_plain depth depth' i key ck c e pk p :
  GetTagId e ≠ mTriggerAtomId (gm_config p) →
  handler depth i key ck c e pk p = handler depth' i key ck c e pk p.
Proof using.
  intros Ht. pose proof (gauge_ifNeeded_frame (GetElapsedTimestampNs e) p) as Hq.
  unfold frame in Hq. injection Hq as Hq _ _ _.
  assert (E : (mTriggerAtomId (gm_config (gauge_flushIfNeededLocked (GetElapsedTimestampNs e) p)) =? GetTagId e) = false).
  { rewrite Hq. apply Z.eqb_neq. congruence. }
  destruct depth, depth'; cbn [gauge_onMatchedLogEventInternalLocked]; cbv zeta; by rewrite E.
Qed.

Lemma pullWith_ext (P : GaugeMetricProducer → Prop) f g t p :
  (∀ l e q, Pull _ out t = Some l → e ∈ l → matchesWhat _ out (setElapsedTimestampNs t e) = kMatched →
     P q → f (setElapsedTimestampNs t e) q = g (setElapsedTimestampNs t e) q
           ∧ P (g (setElapsedTimestampNs t e) q)) →
  P p → pullAndMatchWith out f t p = pullAndMatchWith out g t p.
Proof using.
  intros Hf Hp. unfold pullAndMatchWith. destruct (negb (triggerPuller p)); [done|].
  destruct (Pull _ out t) as [l|] eqn:E; [|done]. destruct (_ <? _); [done|].
  assert (Hl : ∀ e, e ∈ l → ∀ q, matchesWhat _ out (setElapsedTimestampNs t e) = kMatched → P q →
    f (setElapsedTimestampNs t e) q = g (setElapsedTimestampNs t e) q
    ∧ P (g (setElapsedTimestampNs t e) q)) by eauto.
  clear Hf E. revert p Hp. induction l as [|e l IH]; intros p Hp; cbn [foldl]; [done|]. cbv zeta.
  case_bool_decide as Hm; [|apply IH; [set_solver|done]].
  destruct (Hl e ltac:(set_solver) p Hm Hp) as [-> Hg]. apply IH; [set_solver|done].
Qed.

Lemma onMatched_ext internal internal' active i e p :
  (∀ key ck c pk, internal i key ck c e pk p = internal' i key ck c e pk p) →
  onMatchedLogEventLocked (H := gauge_ops_with internal active) uninit (states _ out) (conditions _ out) i e p
  = onMatchedLogEventLocked (H := gauge_ops_with internal' active) uninit (states _ out) (conditions _ out) i e p.
Proof using.
  intros Hi. unfold onMatchedLogEventLocked. cbv zeta. cbn [base onMatchedLogEventInternalLocked gauge_ops_with].
  destruct (negb _); [done|]. destruct (_ <? _); [done|]. destruct (filterValues _ _ _) as [b key]. apply Hi.
Qed.

Lemma handler_depth depth i key ck c e pk p :
  noTriggerPulled (mTriggerAtomId (gm_config p)) →
  handler (S depth) i key ck c e pk p = handler 1 i key ck c e pk p.
Proof using.
  intros Hno. cbn [gauge_onMatchedLogEventInternalLocked]. cbv zeta.
  destruct (negb c); [done|]. destruct (_ <? _); [done|].
  pose proof (gauge_ifNeeded_frame (GetElapsedTimestampNs e) p) as Hq.
  set (q := gauge_flushIfNeededLocked _ p) in *. clearbody q.
  destruct (_ =? _); [|done].
  apply (pullWith_ext (λ r, frame r = frame p)); [|done]. intros l d r Hl Hd Hm Hr. split.
  - apply onMatched_ext. intros. apply (handler_plain depth 0). unfold frame in Hr. injection Hr as -> _ _ _.
    by eapply (Hno _ _ _ Hl Hd).
  - apply (onMatched_keeps (λ r, frame r = frame p)); [|done]. intros key' ck' c' pk' _.
    rewrite <- Hr. apply (handler_frame 0 0 key' ck' c' _ pk').
Qed.

Lemma handler_withinDepth i key ck c e pk p :
  noTriggerPulled (mTriggerAtomId (gm_config p)) → withinDepth p → withinDepth (handler 1 i key ck c e pk p).
Proof using.
  intros Hno Hp. apply (handler_keeps withinDepth); [intros q; apply flush_withinDepth| | |done].
  - intros q Hq. unfold withinDepth. by destruct (addGaugeAtom_keeps key e q) as (_ & -> & _).
  - intros q Hq Hfr _. apply (pullWith_keeps (λ r, withinDepth r ∧ frame r = frame p)); [|done].
    intros l d r Hl Hd Hm [Hr Hfr'].
    apply (onMatched_keeps (λ r, withinDepth r ∧ frame r = frame p)); [|done]. intros key' ck' c' pk' _.
    split; [|by rewrite handler_frame].
    apply (handler_keeps withinDepth); [intros q'; apply flush_withinDepth| | |done].
    + intros q' Hq'. unfold withinDepth. by destruct (addGaugeAtom_keeps key' (setElapsedTimestampNs (GetElapsedTimestampNs e) d) q') as (_ & -> & _).
    + intros q' _ _ Htag. exfalso. apply (Hno _ _ _ Hl Hd Hm).
      unfold frame in Hfr'. injection Hfr' as Hc _ _ _. by rewrite <- Hc, <- Htag.
Qed.
End handler.

(** ** A pulled trigger *)

Section runaway.
Context (uninit : Z) {W : Type} `{!ConditionWizardOps W} (out : Outside W) (t : Z).
Abbreviation handler := (gauge_onMatchedLogEventInternalLocked uninit out).

(** The metric is active, its condition is true, it pulls on every trigger. *)
Definition pullsAt (p : GaugeMetricProducer) : Prop :=
  mIsActive (mActivity (gm_base p)) = true ∧ mConditionSliced (mConfig (gm_base p)) = false
  ∧ mCondition (gm_base p) = kTrue
  ∧ (mSamplingType (gm_config p) = FIRST_N_SAMPLES ∨ mSamplingType (gm_config p) = CONDITION_CHANGE_TO_TRUE)
  ∧ 0 < mBucketSizeNs (mConfig (gm_base p)) ∧ mTimeBaseNs (mConfig (gm_base p)) <= t
  ∧ getElapsedRealtimeNs _ out - t <= gc_maxPullDelayNs (gm_config p).

Lemma pullsAt_frame p q : frame q = frame p → pullsAt p → pullsAt q.
Proof using. unfold frame, pullsAt. intros [= -> -> -> ->]. done. Qed.

Lemma runaway_handler d l :
  Pull _ out t = Some (d :: l) → matchesWhat _ out (setElapsedTimestampNs t d) = kMatched →
  ∀ depth i key ck e pk p,
  GetTagId d = mTriggerAtomId (gm_config p) → GetTagId e = mTriggerAtomId (gm_config p) →
  GetElapsedTimestampNs e = t → mCurrentBucketStartTimeNs (gm_base p) <= t →
  pullsAt p → mAnomalyTrackers (gm_base p) = [] → gm_fault p = None →
  gm_fault (handler depth i key ck true e pk p) = Some CallDepthExceeded.
Proof using.
  intros Hl Hm depth. induction depth as [|depth IH]; intros i key ck e pk p Hd He Ht Hst Hp Htr Hf;
    pose proof Hp as (_ & _ & _ & _ & Hs & _ & _);
    destruct (gauge_ifNeeded_fields t p Hs) as (Hq & _ & Hst' & Hk); specialize (Hst' Hst);
    destruct (Hk Htr) as [Htr' Hf'];
    cbn [gauge_onMatchedLogEventInternalLocked]; cbv zeta; rewrite Ht; cbn [negb];
    rewrite (proj2 (Z.ltb_ge t _) Hst); apply (pullsAt_frame _ _ Hq) in Hp as Hpq;
    set (q := gauge_flushIfNeededLocked t p) in *; clearbody q;
    assert (Hc : gm_config q = gm_config p) by (unfold frame in Hq; congruence);
    rewrite Hc, (proj2 (Z.eqb_eq _ _)) by done.
  { cbn. by rewrite Hf', Hf. }
  pose proof Hpq as (Hact & Hsl & Hcond & Hsamp & Hs' & Htb & Hdelay).
  unfold pullAndMatchWith. assert (triggerPuller q = true) as ->.
  { unfold triggerPuller. destruct Hsamp as [-> | ->]; by rewrite bool_decide_true. }
  cbn [negb]. rewrite Hl, (proj2 (Z.ltb_ge _ _)) by done. cbn [foldl]. cbv zeta.
  rewrite bool_decide_true by done.
  set (r := onMatchedLogEventLocked _ _ _ _ _ q).
  assert (Hr : gm_fault r = Some CallDepthExceeded).
  { subst r. unfold onMatchedLogEventLocked. cbv zeta. cbn [base onMatchedLogEventInternalLocked gauge_ops_with].
    rewrite Hact, Hsl. cbn [negb GetElapsedTimestampNs setElapsedTimestampNs].
    rewrite (proj2 (Z.ltb_ge _ _)) by done. destruct (filterValues _ _ _) as [b key'].
    rewrite bool_decide_true by done. apply IH; try done; by rewrite ?Hc, ?Hf'. }
  clearbody r. clear - Hr. revert r Hr. induction l as [|e' l IH]; intros r Hr; cbn [foldl]; [done|].
  apply IH. cbv zeta. case_bool_decide; [|done].
  apply (onMatched_keeps uninit out (λ q, gm_fault q = Some CallDepthExceeded)); [|done].
  intros. by apply handler_fault.
Qed.
End runaway.

(** ** The interface of metric producers *)

Section laws.
Context (uninit : Z) {W : Type} `{!ConditionWizardOps W} (out : Outside W) (depth : nat).

Lemma gauge_pull_frame t p : frame (gauge_pullAndMatchEventsLocked uninit out depth t p) = frame p.
Proof using.
  apply (pullWith_keeps out (λ q, frame q = frame p)); [|done]. intros l e q _ _ _ Hq.
  apply (onMatched_keeps uninit out (λ q, frame q = frame p)); [|done]. intros. by rewrite handler_frame.
Qed.

Lemma gauge_active_frame t p : frame (gauge_onActiveStateChangedLocked uninit out depth t p) = frame p.
Proof using.
  unfold gauge_onActiveStateChangedLocked. set (q := base_onActiveStateChangedLocked _ _ _ t p).
  assert (Hq : frame q = frame p).
  { subst q. unfold base_onActiveStateChangedLocked. destruct (mIsActive _); [done|].
    destruct (gauge_flushCurrent_fields t t (gauge_flushIfNeededLocked t p)) as (-> & _).
    apply gauge_ifNeeded_frame. }
  clearbody q. cbv zeta. destruct (_ || _); [done|]. destruct (_ || _); [|done]. by rewrite gauge_pull_frame.
Qed.

Lemma frame_activity p q : frame q = frame p → mActivity (gm_base q) = mActivity (gm_base p).
Proof using. by intros [= _ _ _ ->]. Qed.

#[export] Instance gauge_metric_laws : MetricLaws (H := gauge_metric_ops uninit out depth) GaugeMetricProducer.
Proof using.
  split; [done|intros t p|intros t n p|intros t p|intros i k ck c e pk p]; apply frame_activity.
  - apply gauge_ifNeeded_frame.
  - apply gauge_flushCurrent_fields.
  - apply gauge_active_frame.
  - apply handler_frame.
Qed.
End laws.

(** ** The atoms of a bucket *)

Section bucket.
Context (uninit : Z) {W : Type} `{!ConditionWizardOps W} (out : Outside W) (depth : nat).
Context (p0 : GaugeMetricProducer) (ks : list MetricDimensionKey).
Context (Hks : Z.of_nat (length ks) <= gc_dimensionHardLimit (gm_config p0)).
Abbreviation handler := (gauge_onMatchedLogEventInternalLocked uninit out).

(** How many atoms a bucket keeps for a key. *)
Definition samples : nat :=
  Z.to_nat (if bool_decide (mSamplingType (gm_config p0) = RANDOM_ONE_SAMPLE)
            then Z.min 1 (mGaugeAtomsPerDimensionLimit (gm_config p0))
            else mGaugeAtomsPerDimensionLimit (gm_config p0)).

Definition gaugeAtomOf (e : LogEvent) : GaugeAtom :=
  mkGaugeAtom (getGaugeFields e p0) (truncateTimestampIfNecessary e).

(** The atoms of the events of a key. *)
Definition atomsFor (k : MetricDimensionKey) (evs : list (MetricDimensionKey * LogEvent)) : list GaugeAtom :=
  (λ ev, gaugeAtomOf ev.2) <$> List.filter (λ ev, key_eqb k ev.1) evs.

(** The event lies in the current bucket and is not a trigger; its key is one of [ks]. *)
Definition inBucket (ev : MetricDimensionKey * LogEvent) : Prop :=
  ev.1 =k ev.1 ∧ us_mem ev.1 ks = true
  ∧ mCurrentBucketStartTimeNs (gm_base p0) <= GetElapsedTimestampNs ev.2 < getCurrentBucketEndTimeNs (gm_base p0)
  ∧ GetTagId ev.2 ≠ mTriggerAtomId (gm_config p0).

Record bucketInv (evs : list (MetricDimensionKey * LogEvent)) (p : GaugeMetricProducer) : Prop := {
  bi_frame : frame p = frame p0;
  bi_start : mCurrentBucketStartTimeNs (gm_base p) = mCurrentBucketStartTimeNs (gm_base p0);
  bi_num : mCurrentBucketNum (gm_base p) = mCurrentBucketNum (gm_base p0);
  bi_past : gm_pastBuckets p = gm_pastBuckets p0;
  bi_wf : um_wf (gm_sliced p);
  bi_keys : Forall (λ e, us_mem e.1 ks = true) (gm_sliced p);
  bi_mem : ∀ k, um_mem k (gm_sliced p) = existsb (λ ev, key_eqb k ev.1) evs;
  bi_atoms : ∀ k, um_get [] k (gm_sliced p) = take samples (atomsFor k evs)
}.

Lemma atomsFor_snoc k evs ev :
  atomsFor k (evs ++ [ev]) = atomsFor k evs ++ (if key_eqb k ev.1 then [gaugeAtomOf ev.2] else []).
Proof.
  unfold atomsFor. rewrite List.filter_app, fmap_app. cbn. by destruct (key_eqb k ev.1).
Qed.

Lemma atomsFor_cong k k' evs : k =k k' → atomsFor k evs = atomsFor k' evs.
Proof.
  intros E. unfold atomsFor. f_equal. induction evs as [|ev evs IH]; [done|]. cbn.
  by rewrite (key_eqb_cong_l _ _ _ E), IH.
Qed.

Lemma atomsFor_mem k evs : existsb (λ ev, key_eqb k ev.1) evs = true → (1 <= length (atomsFor k evs))%nat.
Proof.
  unfold atomsFor. rewrite length_fmap. induction evs as [|ev evs IH]; [done|]. cbn.
  destruct (key_eqb k ev.1); cbn; [lia|]. auto.
Qed.

Lemma getGaugeFields_frame e p : frame p = frame p0 → getGaugeFields e p = getGaugeFields e p0.
Proof. unfold frame, getGaugeFields. by intros [= -> -> _ _]. Qed.

(** Setting the slice of the key of an event keeps the invariant on the slices. *)
Lemma slice_inv evs ev p atoms :
  bucketInv evs p → inBucket ev → atoms = take samples (atomsFor ev.1 (evs ++ [ev])) →
  let m := um_set ev.1 atoms (gm_sliced p) in
  um_wf m ∧ Forall (λ e, us_mem e.1 ks = true) m
  ∧ (∀ k, um_mem k m = existsb (λ ev, key_eqb k ev.1) (evs ++ [ev]))
  ∧ ∀ k, um_get [] k m = take samples (atomsFor k (evs ++ [ev])).
Proof.
  intros [] (Hself & Hin & _) ->. cbv zeta. split_and!.
  - by apply um_wf_set.
  - apply um_set_Forall; try done.
  - intros k. rewrite existsb_app. cbn. rewrite orb_false_r, <- bi_mem0. unfold um_mem.
    destruct (key_eqb ev.1 k) eqn:E.
    + rewrite (um_find_set_eq _ _ _ _ E), (key_eqb_comm k ev.1), E. by rewrite orb_true_r.
    + rewrite (um_find_set_ne _ _ _ _ E), (key_eqb_comm k ev.1), E. by rewrite orb_false_r.
  - intros k. rewrite um_get_set. destruct (key_eqb ev.1 k) eqn:E.
    + by rewrite (atomsFor_cong _ _ _ E).
    + rewrite bi_atoms0, atomsFor_snoc, (key_eqb_comm k ev.1), E. by rewrite app_nil_r.
Qed.

Lemma guard_rail_open evs ev p :
  bucketInv evs p → inBucket ev → gauge_hitGuardRailLocked ev.1 p = false.
Proof.
  intros [] (Hself & Hin & _). unfold gauge_hitGuardRailLocked. destruct (um_mem ev.1 (gm_sliced p)) eqn:E; [done|].
  apply andb_false_iff. right. apply Z.ltb_ge. unfold frame in bi_frame0. injection bi_frame0 as -> _ _ _.
  unfold um_mem in E. destruct (um_find ev.1 (gm_sliced p)) eqn:Ef; [done|].
  assert (Hb : (length (um_set ev.1 [] (gm_sliced p)) <= length ks)%nat).
  { apply keys_bound; [by apply um_wf_set|]. apply um_set_Forall; done. }
  rewrite um_set_fresh in Hb by done. rewrite length_app in Hb. cbn in Hb. unfold size. lia.
Qed.

Lemma addGaugeAtom_sliced evs ev p :
  bucketInv evs p → inBucket ev →
  um_mem ev.1 (gm_sliced p) && bool_decide (mSamplingType (gm_config p0) = RANDOM_ONE_SAMPLE) = false →
  gm_sliced (addGaugeAtom ev.1 ev.2 p) =
    um_set ev.1 (take samples (atomsFor ev.1 (evs ++ [ev]))) (gm_sliced p).
Proof.
  intros [] (Hself & _) Eone.
  assert (Hc : gm_config p = gm_config p0) by (unfold frame in bi_frame0; congruence).
  rewrite atomsFor_snoc, Hself. unfold addGaugeAtom. cbv zeta. rewrite bi_atoms0, Hc, getGaugeFields_frame by done.
  change (mkGaugeAtom (getGaugeFields ev.2 p0) (truncateTimestampIfNecessary ev.2)) with (gaugeAtomOf ev.2).
  assert (Hone : bool_decide (mSamplingType (gm_config p0) = RANDOM_ONE_SAMPLE) = true → atomsFor ev.1 evs = []).
  { intros Er. rewrite Er, andb_true_r, bi_mem0 in Eone. clear -Eone. unfold atomsFor.
    induction evs as [|ev' evs IH]; [done|]. cbn in *. apply orb_false_iff in Eone as [-> E]. by apply IH. }
  unfold samples in *. destruct (bool_decide _) eqn:Er.
  - rewrite Hone by done. rewrite take_nil. cbn [length app]. destruct (Z.leb_spec (mGaugeAtomsPerDimensionLimit (gm_config p0)) (Z.of_nat 0)).
    + cbn. by replace (Z.to_nat (Z.min 1 _)) with 0%nat by lia.
    + replace (Z.to_nat (Z.min 1 _)) with 1%nat by lia. cbn [take].
      by destruct (ga_fields (gaugeAtomOf ev.2)) as [|v [|v' l]].
  - set (n := mGaugeAtomsPerDimensionLimit (gm_config p0)) in *.
    destruct (Z.leb_spec n (Z.of_nat (length (take (Z.to_nat n) (atomsFor ev.1 evs))))) as [Hle|Hlt];
      rewrite length_take in *.
    + cbn. rewrite take_app_le by lia. done.
    + rewrite (take_ge (atomsFor ev.1 evs)) by lia. rewrite (take_ge (_ ++ _)) by (rewrite length_app; cbn; lia).
      by destruct (ga_fields (gaugeAtomOf ev.2)) as [|v [|v' l]].
Qed.

Lemma handler_bucket evs ev p i ck pk :
  bucketInv evs p → inBucket ev → bucketInv (evs ++ [ev]) (handler depth i ev.1 ck true ev.2 pk p).
Proof.
  intros Hinv Hev. pose proof Hinv as []. pose proof Hev as (Hself & Hin & [Ht1 Ht2] & Htag).
  assert (Hc : gm_config p = gm_config p0) by (unfold frame in bi_frame0; congruence).
  assert (Hcfg : mConfig (gm_base p) = mConfig (gm_base p0)) by (unfold frame in bi_frame0; congruence).
  rewrite (handler_plain uninit out depth 0) by (by rewrite Hc). cbn [gauge_onMatchedLogEventInternalLocked].
  cbv zeta. cbn [negb]. rewrite (proj2 (Z.ltb_ge _ _)) by (rewrite bi_start0; done).
  assert (gauge_flushIfNeededLocked (GetElapsedTimestampNs ev.2) p = p) as ->.
  { unfold gauge_flushIfNeededLocked, getCurrentBucketEndTimeNs in *. rewrite Hcfg, bi_num0.
    by rewrite (proj2 (Z.ltb_lt _ _) Ht2). }
  rewrite Hc, (proj2 (Z.eqb_neq _ _)) by congruence.
  destruct (um_mem ev.1 (gm_sliced p) && bool_decide (mSamplingType (gm_config p0) = RANDOM_ONE_SAMPLE)) eqn:Eone.
  { apply andb_true_iff in Eone as [Em Er]. rewrite bi_mem0 in Em.
    assert (Hs : (samples <= 1)%nat) by (unfold samples; rewrite Er; lia).
    pose proof (atomsFor_mem _ _ Em).
    split; try done.
    - intros k. rewrite bi_mem0, existsb_app. cbn. rewrite orb_false_r.
      destruct (key_eqb k ev.1) eqn:E; [|by rewrite orb_false_r]. rewrite orb_true_r.
      rewrite <- Em. clear -E. induction evs as [|ev' evs IH]; [done|]. cbn. by rewrite IH, (key_eqb_cong_l _ _ _ E).
    - intros k. rewrite bi_atoms0, atomsFor_snoc. destruct (key_eqb k ev.1) eqn:E; [|by rewrite app_nil_r].
      rewrite take_app_le; [done|]. rewrite (atomsFor_cong _ _ _ E). lia. }
  rewrite (guard_rail_open evs ev p Hinv Hev).
  pose proof (addGaugeAtom_keeps ev.1 ev.2 p) as (Hfr & _ & Hst & Hnum & Hpast).
  pose proof (addGaugeAtom_sliced evs ev p Hinv Hev Eone) as Hsl.
  destruct (slice_inv evs ev p _ Hinv Hev eq_refl) as (Hw & Hk & Hm & Ha). cbv zeta in *. rewrite <- Hsl in *.
  split; congruence || done.
Qed.
(** The events of a bucket, each with the arguments the shared code computes for it. *)
Definition handleAll (evs : list (nat * ConditionKey * gmap Z HashableDimensionKey * (MetricDimensionKey * LogEvent)))
    (p : GaugeMetricProducer) : GaugeMetricProducer :=
  foldl (λ p '(i, ck, pk, (key, e)), handler depth i key ck true e pk p) p evs.

Lemma handleAll_bucket evs : ∀ done_ p,
  bucketInv done_ p → Forall (λ ev, inBucket ev.2) evs → bucketInv (done_ ++ evs.*2) (handleAll evs p).
Proof.
  induction evs as [|[[[i ck] pk] [key e]] evs IH]; intros done_ p Hp Hall; [by rewrite app_nil_r|].
  apply Forall_cons_1 in Hall as [Hev Hall]. rewrite fmap_cons. cbn [snd].
  replace (done_ ++ (key, e) :: evs.*2) with ((done_ ++ [(key, e)]) ++ evs.*2) by (by rewrite <- app_assoc).
  apply IH; [|done]. by apply (handler_bucket done_ (key, e)).
Qed.
End bucket.

Lemma pushGaugeBuckets_get s e k slices : ∀ past,
  um_wf slices →
  um_get [] k (pushGaugeBuckets s e past slices) =
    um_get [] k past ++ match um_find k slices with Some l => [mkGaugeBucket s e l] | None => [] end.
Proof.
  unfold pushGaugeBuckets. induction slices as [|[k' l] slices IH]; intros past; [by rewrite app_nil_r|].
  intros [Hnew Hwf]. cbn [foldl um_find]. rewrite IH, um_get_set by done.
  rewrite (key_eqb_comm k' k). destruct (key_eqb k k') eqn:E; [|done].
  rewrite (um_find_cong _ _ _ E), Hnew, app_nil_r. unfold um_get. by rewrite (um_find_cong _ _ _ E).
Qed.

Lemma gauge_flush_past t p :
  getCurrentBucketEndTimeNs (gm_base p) <= t →
  gc_minBucketSizeNs (gm_config p)
    <= getCurrentBucketEndTimeNs (gm_base p) - mCurrentBucketStartTimeNs (gm_base p) →
  gm_pastBuckets (gauge_flushIfNeededLocked t p) =
    pushGaugeBuckets (mCurrentBucketStartTimeNs (gm_base p)) (getCurrentBucketEndTimeNs (gm_base p))
      (gm_pastBuckets p) (gm_sliced p).
Proof.
  intros Ht Hmin. unfold gauge_flushIfNeededLocked, gauge_flushCurrentBucketLocked. cbv zeta.
  rewrite (proj2 (Z.ltb_ge _ _) Ht), (proj2 (Z.leb_le _ _) Hmin). cbn [gm_base set_gm_past].
  set (q := set_gm_past _ _ p). destruct (update_anomaly_keeps q) as (_ & _ & Hu & _).
  destruct (mAnomalyTrackers (gm_base p)); [done|]. by destruct (_ <? t).
Qed.

(** ** Theorems *)

(** C27: a closed bucket of a gauge metric holds the first atoms of every key.  For any events of a
    fresh bucket (pushed, or handed over by a pull), with no more different keys than the limit, the
    bucket that the next flush records for a key has exactly the fields and time stamps of its first
    [N] events in order, where [N] is the configured limit, or one for a metric of one sample; a key
    without events gets no bucket. *)
Theorem gauge_bucket_first_atoms uninit {W} `{!ConditionWizardOps W} (out : Outside W) depth p ks evs t k :
  gm_sliced p = [] → Z.of_nat (length ks) <= gc_dimensionHardLimit (gm_config p) →
  Forall (λ ev, inBucket p ks ev.2) evs →
  getCurrentBucketEndTimeNs (gm_base p) <= t →
  gc_minBucketSizeNs (gm_config p)
    <= getCurrentBucketEndTimeNs (gm_base p) - mCurrentBucketStartTimeNs (gm_base p) →
  um_get [] k (gm_pastBuckets (gauge_flushIfNeededLocked t (handleAll uninit out depth evs p))) =
    um_get [] k (gm_pastBuckets p) ++
    if existsb (λ ev, key_eqb k ev.1) (evs.*2)
    then [mkGaugeBucket (mCurrentBucketStartTimeNs (gm_base p)) (getCurrentBucketEndTimeNs (gm_base p))
            (take (samples p) (atomsFor p k (evs.*2)))]
    else [].
Proof.
  intros Hfresh Hks Hall Ht Hmin.
  assert (H0 : bucketInv p ks [] p).
  { split; try done; rewrite Hfresh; try done. intros k'. by destruct (samples p). }
  destruct (handleAll_bucket uninit out depth p ks Hks evs [] p H0 Hall) as [Hfr Hst Hnum Hpast Hwf _ Hmem Hat].
  cbn [app] in *. set (q := handleAll uninit out depth evs p) in *. clearbody q.
  unfold frame in Hfr. injection Hfr as Hc Hcfg _ _.
  assert (He : getCurrentBucketEndTimeNs (gm_base q) = getCurrentBucketEndTimeNs (gm_base p))
    by (unfold getCurrentBucketEndTimeNs; by rewrite Hcfg, Hnum).
  rewrite gauge_flush_past by (rewrite ?He, ?Hst, ?Hc; done).
  rewrite pushGaugeBuckets_get, He, Hst, Hpast by done. f_equal.
  specialize (Hmem k). specialize (Hat k). unfold um_mem, um_get in *.
  destruct (um_find k (gm_sliced q)) as [l|]; rewrite <- Hmem; [|done]. cbn in Hat. by rewrite Hat.
Qed.

(** The handler of an event terminates.  When no event that a pull returns and the metric matches
    is itself a trigger, one pull inside the handler is enough: every greater bound on the depth of
    calls gives the same result, and the bound is not exceeded. *)
Theorem gauge_handler_terminates uninit {W} `{!ConditionWizardOps W} (out : Outside W) depth i key ck c e pk p :
  noTriggerPulled out (mTriggerAtomId (gm_config p)) → gm_fault p ≠ Some CallDepthExceeded →
  gauge_onMatchedLogEventInternalLocked uninit out (S depth) i key ck c e pk p
    = gauge_onMatchedLogEventInternalLocked uninit out 1 i key ck c e pk p
  ∧ gm_fault (gauge_onMatchedLogEventInternalLocked uninit out (S depth) i key ck c e pk p)
      ≠ Some CallDepthExceeded.
Proof.
  intros Hno Hp. rewrite handler_depth by done. split; [done|]. by apply handler_withinDepth.
Qed.

(** A metric whose trigger is the atom it pulls never returns.  If the first event of the pull that
    a trigger event causes is itself a trigger, the handler calls itself through the pull without end:
    no bound on the depth of calls is enough. *)
Theorem gauge_trigger_recursion uninit {W} `{!ConditionWizardOps W} (out : Outside W) d l depth i key ck e pk p :
  let t := GetElapsedTimestampNs e in
  Pull _ out t = Some (d :: l) → matchesWhat _ out (setElapsedTimestampNs t d) = kMatched →
  GetTagId d = mTriggerAtomId (gm_config p) → GetTagId e = mTriggerAtomId (gm_config p) →
  mCurrentBucketStartTimeNs (gm_base p) <= t → pullsAt out t p →
  mAnomalyTrackers (gm_base p) = [] → gm_fault p = None →
  gm_fault (gauge_onMatchedLogEventInternalLocked uninit out depth i key ck true e pk p)
    = Some CallDepthExceeded.
Proof. cbv zeta. intros. by eapply runaway_handler. Qed.

(** ** Instances of the theorems *)

Definition example_gauge_metric (type : SamplingType) : GaugeMetric :=
  mkGaugeMetricMessage 1 None (Some (mkFieldMatcher 10 None [mkFieldMatcher 1 None []])) (Some ONE_HOUR) []
    type 0 2 0 true.

(** A metric of atom 10 that atom 20 triggers, and one that atom 10 triggers. *)
Definition example_gauge (trigger : Z) : GaugeMetricProducer :=
  (GaugeMetricProducer_new ∅ 1000 (example_gauge_metric FIRST_N_SAMPLES) (-1) [] 0 10 trigger 10 0 0 ∅ ∅ ∅).1.

Definition example_gauge_event (tag t v : Z) : LogEvent :=
  mkLogEvent tag 1000 t
    [mkFieldValue (mkField tag 0x10000) (VINT 7) Annotations_new;
     mkFieldValue (mkField tag 0x20000) (VINT v) Annotations_new] (-1) (-1) false.

Definition example_gauge_outside : Outside (list ConditionTracker) :=
  mkOutside _ (λ t, Some [example_gauge_event 10 t 3]) 5
    (λ e, if GetTagId e =? 10 then kMatched else kNotMatched) StateManager_new [].

Definition example_gauge_key : MetricDimensionKey :=
  mkMetricKey (mkKey [mkFieldValue (mkField 10 0x10000) (VINT 7) Annotations_new]) (mkKey []).

Lemma gauge_bucket_first_atoms_witness :
  um_get [] example_gauge_key (gm_pastBuckets (gauge_flushIfNeededLocked 3700000000000
    (handleAll 0 example_gauge_outside 0
       [(0%nat, ∅, ∅, (example_gauge_key, example_gauge_event 10 1 4));
        (0%nat, ∅, ∅, (example_gauge_key, example_gauge_event 10 2 5));
        (0%nat, ∅, ∅, (example_gauge_key, example_gauge_event 10 3 6))] (example_gauge 20)))) =
  [mkGaugeBucket 0 3600000000000
     [mkGaugeAtom [mkFieldValue (mkField 10 0x20000) (VINT 4) Annotations_new] 1;
      mkGaugeAtom [mkFieldValue (mkField 10 0x20000) (VINT 5) Annotations_new] 2]].
Proof.
  rewrite (gauge_bucket_first_atoms 0 example_gauge_outside 0 (example_gauge 20) [example_gauge_key] _
    3700000000000 example_gauge_key); [by vm_compute|reflexivity|done| |done|done].
  repeat (constructor; [by repeat split; vm_compute|]). constructor.
Defined.

Lemma gauge_handler_terminates_witness :
  gm_sliced (gauge_onMatchedLogEventInternalLocked 0 example_gauge_outside 8 0 example_gauge_key ∅ true
               (example_gauge_event 20 1 4) ∅ (example_gauge 20))
  = [(example_gauge_key,
      [mkGaugeAtom [mkFieldValue (mkField 10 0x20000) (VINT 3) Annotations_new] 1])].
Proof.
  rewrite (proj1 (gauge_handler_terminates 0 example_gauge_outside 7 0 example_gauge_key ∅ true
    (example_gauge_event 20 1 4) ∅ (example_gauge 20) ltac:(intros t l e [= <-] ->%list_elem_of_singleton _; done)
    ltac:(done))).
  by vm_compute.
Defined.

Lemma gauge_trigger_recursion_witness :
  gm_fault (gauge_onMatchedLogEventInternalLocked 0 example_gauge_outside 100 0 example_gauge_key ∅ true
              (example_gauge_event 10 1 4) ∅ (example_gauge 10)) = Some CallDepthExceeded.
Proof.
  apply (gauge_trigger_recursion 0 example_gauge_outside (example_gauge_event 10 1 3) []); try reflexivity; [by vm_compute|].
  unfold pullsAt. split_and!; try reflexivity; [by left|by vm_compute|by vm_compute].
Defined.
