(* ===== verification/ValueMetric.v ===== *)
(** * The value metric (metrics/ValueMetricProducer.{h,cpp})

    A value metric aggregates numbers read from pushed or pulled atoms in buckets of time, possibly
    the differences of successive values.  A bucket with incomplete data is skipped, with the
    reasons recorded.  What the metric asks of the rest of the system is a parameter of the
    operations ([Outside]): the pull of an atom, the clock, the matcher of the atom, the states and
    the conditions. *)
From Stdlib Require Import SpecFloat.
From S2P Require Import Prelude UMap FieldValue DimensionKey Matchers Conditions.
From S2P Require Import Anomaly State MetricProducer CountMetric MetricShared.

(** ** Data *)

Inductive ValueAggregation := VSUM | VMIN | VMAX | VAVG.
Inductive ValueDirection := DIRECTION_UNKNOWN | INCREASING | DECREASING | ANY_DIRECTION.

Record ValueBucket := mkValueBucket {
  vb_start : Z; vb_end : Z; vb_valueIndex : list Z; vb_values : list Value; vb_conditionTrueNs : Z
}.

(** The state of an aggregation in the current bucket. *)
Record Interval := mkInterval {
  valueIndex : Z; iv_value : Value; sampleSize : Z; hasValue : bool; seenNewData : bool
}.

Definition Interval_new : Interval := mkInterval 0 VUNKNOWN 0 false false.

(** The last value of a dimension, to which the next one is compared. *)
Record BaseInfo := mkBaseInfo {
  bi_base : Value; hasBase : bool; currentState : HashableDimensionKey; hasCurrentState : bool
}.

Definition BaseInfo_new : BaseInfo := mkBaseInfo VUNKNOWN false (mkKey []) false.

(** The members that the constructor sets once. *)
Record ValueConfig := mkValueConfig {
  mFieldMatchers : list Matcher;
  mWhatMatcherIndex : nat;
  mIsPulled : bool;
  mMinBucketSizeNs : Z;
  mDimensionSoftLimit : Z;
  mDimensionHardLimit : Z;
  mUseAbsoluteValueOnReset : bool;
  vm_aggregation : ValueAggregation;
  mUseDiff : bool;
  mValueDirection : ValueDirection;
  mSkipZeroDiffOutput : bool;
  mUseZeroDefaultBase : bool;
  mMaxPullDelayNs : Z;
  mSplitBucketForAppUpgrade : bool
}.

Record ValueMetricProducer := mkValueMetric {
  vm_base : MetricProducer;
  vm_config : ValueConfig;
  mCurrentSlicedBucket : umap MetricDimensionKey (list Interval);
  mCurrentBaseInfo : umap HashableDimensionKey (list BaseInfo);
  mHasGlobalBase : bool;
  mCurrentFullBucket : DimToValMap;
  vm_pastBuckets : umap MetricDimensionKey (list ValueBucket);
  mSkippedBuckets : list SkippedBucket;
  mCurrentSkippedBucket : SkippedBucket;
  mCurrentBucketIsSkipped : bool;
  mConditionTimer : ConditionTimer;
  mMatchedMetricDimensionKeys : list HashableDimensionKey;
  mStateChangePrimaryKey : Z * HashableDimensionKey
}.

Definition set_vm_base (b : MetricProducer) (p : ValueMetricProducer) : ValueMetricProducer :=
  mkValueMetric b (vm_config p) (mCurrentSlicedBucket p) (mCurrentBaseInfo p) (mHasGlobalBase p)
    (mCurrentFullBucket p) (vm_pastBuckets p) (mSkippedBuckets p) (mCurrentSkippedBucket p)
    (mCurrentBucketIsSkipped p) (mConditionTimer p) (mMatchedMetricDimensionKeys p)
    (mStateChangePrimaryKey p).
Definition set_sliced (m : umap MetricDimensionKey (list Interval)) (p : ValueMetricProducer)
    : ValueMetricProducer :=
  mkValueMetric (vm_base p) (vm_config p) m (mCurrentBaseInfo p) (mHasGlobalBase p)
    (mCurrentFullBucket p) (vm_pastBuckets p) (mSkippedBuckets p) (mCurrentSkippedBucket p)
    (mCurrentBucketIsSkipped p) (mConditionTimer p) (mMatchedMetricDimensionKeys p)
    (mStateChangePrimaryKey p).
Definition set_baseInfo (m : umap HashableDimensionKey (list BaseInfo)) (global : bool)
    (p : ValueMetricProducer) : ValueMetricProducer :=
  mkValueMetric (vm_base p) (vm_config p) (mCurrentSlicedBucket p) m global
    (mCurrentFullBucket p) (vm_pastBuckets p) (mSkippedBuckets p) (mCurrentSkippedBucket p)
    (mCurrentBucketIsSkipped p) (mConditionTimer p) (mMatchedMetricDimensionKeys p)
    (mStateChangePrimaryKey p).
Definition set_full (m : DimToValMap) (p : ValueMetricProducer) : ValueMetricProducer :=
  mkValueMetric (vm_base p) (vm_config p) (mCurrentSlicedBucket p) (mCurrentBaseInfo p) (mHasGlobalBase p)
    m (vm_pastBuckets p) (mSkippedBuckets p) (mCurrentSkippedBucket p)
    (mCurrentBucketIsSkipped p) (mConditionTimer p) (mMatchedMetricDimensionKeys p)
    (mStateChangePrimaryKey p).
Definition set_vm_past (m : umap MetricDimensionKey (list ValueBucket)) (skipped : list SkippedBucket)
    (p : ValueMetricProducer) : ValueMetricProducer :=
  mkValueMetric (vm_base p) (vm_config p) (mCurrentSlicedBucket p) (mCurrentBaseInfo p) (mHasGlobalBase p)
    (mCurrentFullBucket p) m skipped (mCurrentSkippedBucket p)
    (mCurrentBucketIsSkipped p) (mConditionTimer p) (mMatchedMetricDimensionKeys p)
    (mStateChangePrimaryKey p).
Definition set_skip (current : SkippedBucket) (isSkipped : bool) (p : ValueMetricProducer)
    : ValueMetricProducer :=
  mkValueMetric (vm_base p) (vm_config p) (mCurrentSlicedBucket p) (mCurrentBaseInfo p) (mHasGlobalBase p)
    (mCurrentFullBucket p) (vm_pastBuckets p) (mSkippedBuckets p) current isSkipped
    (mConditionTimer p) (mMatchedMetricDimensionKeys p) (mStateChangePrimaryKey p).
Definition set_timer (t : ConditionTimer) (p : ValueMetricProducer) : ValueMetricProducer :=
  mkValueMetric (vm_base p) (vm_config p) (mCurrentSlicedBucket p) (mCurrentBaseInfo p) (mHasGlobalBase p)
    (mCurrentFullBucket p) (vm_pastBuckets p) (mSkippedBuckets p) (mCurrentSkippedBucket p)
    (mCurrentBucketIsSkipped p) t (mMatchedMetricDimensionKeys p) (mStateChangePrimaryKey p).
Definition set_matched (l : list HashableDimensionKey) (p : ValueMetricProducer) : ValueMetricProducer :=
  mkValueMetric (vm_base p) (vm_config p) (mCurrentSlicedBucket p) (mCurrentBaseInfo p) (mHasGlobalBase p)
    (mCurrentFullBucket p) (vm_pastBuckets p) (mSkippedBuckets p) (mCurrentSkippedBucket p)
    (mCurrentBucketIsSkipped p) (mConditionTimer p) l (mStateChangePrimaryKey p).
Definition set_statePrimaryKey (k : Z * HashableDimensionKey) (p : ValueMetricProducer)
    : ValueMetricProducer :=
  mkValueMetric (vm_base p) (vm_config p) (mCurrentSlicedBucket p) (mCurrentBaseInfo p) (mHasGlobalBase p)
    (mCurrentFullBucket p) (vm_pastBuckets p) (mSkippedBuckets p) (mCurrentSkippedBucket p)
    (mCurrentBucketIsSkipped p) (mConditionTimer p) (mMatchedMetricDimensionKeys p) k.

(** ** Skipped buckets *)

Definition skipCurrentBucket (dropTimeNs : Z) (reason : BucketDropReason) (p : ValueMetricProducer)
    : ValueMetricProducer :=
  let s := mCurrentSkippedBucket p in
  set_skip
    (if maxDropEventsReached s then s
     else mkSkippedBucket (sk_start s) (sk_end s) (dropEvents s ++ [buildDropEvent dropTimeNs reason]))
    true p.

(** Less the statistics it notes. *)
Definition invalidateCurrentBucketWithoutResetBase (dropTimeNs : Z) (reason : BucketDropReason)
    (p : ValueMetricProducer) : ValueMetricProducer := skipCurrentBucket dropTimeNs reason p.

Definition dropBase (b : BaseInfo) : BaseInfo :=
  mkBaseInfo (bi_base b) false (currentState b) (hasCurrentState b).

Definition resetBase (p : ValueMetricProducer) : ValueMetricProducer :=
  set_baseInfo (um_map (fmap dropBase) (mCurrentBaseInfo p)) false p.

Definition invalidateCurrentBucket (dropTimeNs : Z) (reason : BucketDropReason)
    (p : ValueMetricProducer) : ValueMetricProducer :=
  resetBase (invalidateCurrentBucketWithoutResetBase dropTimeNs reason p).

(** ** Closing a bucket *)

Definition calcBucketsForwardCount (eventTimeNs : Z) (p : ValueMetricProducer) : Z :=
  let currentBucketEndTimeNs := getCurrentBucketEndTimeNs (vm_base p) in
  if eventTimeNs <? currentBucketEndTimeNs then 0
  else 1 + Z.quot (eventTimeNs - currentBucketEndTimeNs) (mBucketSizeNs (mConfig (vm_base p))).

Definition multipleBucketsSkipped (numBucketsForward : Z) (p : ValueMetricProducer) : bool :=
  (1 <? numBucketsForward) && (mIsPulled (vm_config p) || mUseDiff (vm_config p)).

(** The average of a sum of [n] samples, as a [double]; the sum of a value of no type is what the
    union holds, a NaN here. *)
Definition average (sum : Value) (n : Z) : Value :=
  let d := match sum with VLONG z => toDouble z | VDOUBLE f => f | _ => S754_nan end in
  VDOUBLE (SFdiv f64_prec f64_emax d (toDouble n)).

(** Whether an interval is written to its bucket. *)
Definition reported (cfg : ValueConfig) (i : Interval) : bool :=
  hasValue i && negb (mSkipZeroDiffOutput cfg && mUseDiff cfg && Value_isZero (iv_value i)).

Definition reportedValue (cfg : ValueConfig) (i : Interval) : Value :=
  match vm_aggregation cfg with VAVG => average (iv_value i) (sampleSize i) | _ => iv_value i end.

Definition buildPartialBucket (bucketEndTime : Z) (intervals : list Interval) (p : ValueMetricProducer)
    (conditionTrueNs : Z) : ValueBucket :=
  let l := List.filter (reported (vm_config p)) intervals in
  mkValueBucket (mCurrentBucketStartTimeNs (vm_base p)) bucketEndTime (valueIndex <$> l)
    (reportedValue (vm_config p) <$> l) conditionTrueNs.

(** The loop over the slices: the past buckets, and whether a bucket was added. *)
Definition closeSlices (bucketEndTime conditionTrueNs : Z) (p : ValueMetricProducer)
    : umap MetricDimensionKey (list ValueBucket) * bool :=
  foldl (λ '(past, hasData) '(key, intervals),
    let bucket := buildPartialBucket bucketEndTime intervals p conditionTrueNs in
    match vb_valueIndex bucket with
    | [] => (past, hasData)
    | _ :: _ => (um_set key (um_get [] key past ++ [bucket]) past, true)
    end) (vm_pastBuckets p, false) (mCurrentSlicedBucket p).

(** A read of the union member [long_value]; zero stands for what the union of a value of no type
    holds. *)
Definition long_value (v : Value) : Z :=
  match v with VLONG z => z | VDOUBLE f => wrap64 (sf_bits 52 1075 f) | _ => 0 end.

Definition hitFullBucketGuardRailLocked (newKey : MetricDimensionKey) (p : ValueMetricProducer) : bool :=
  if um_mem newKey (mCurrentFullBucket p) then false
  else (mDimensionSoftLimit (vm_config p) - 1 <? size (mCurrentFullBucket p))
       && (mDimensionHardLimit (vm_config p) <? size (mCurrentFullBucket p) + 1).

(** [mCurrentFullBucket\[slice.first\] += interval.value.long_value] *)
Definition addSlice (p : ValueMetricProducer) (key : MetricDimensionKey) (i : Interval)
    : ValueMetricProducer :=
  if hasValue i
  then set_full (um_set key (um_get 0 key (mCurrentFullBucket p) + long_value (iv_value i))
                   (mCurrentFullBucket p)) p
  else p.

(** [slice.second\[0\]]; every slice has an interval for each value field. *)
Definition firstInterval (l : list Interval) : Interval := default Interval_new (head l).

Definition appendToFullBucket (isFullBucketReached : bool) (p : ValueMetricProducer)
    : ValueMetricProducer :=
  let num := mCurrentBucketNum (vm_base p) in
  if mCurrentBucketIsSkipped p then (if isFullBucketReached then set_full [] p else p)
  else if isFullBucketReached then
    match mCurrentFullBucket p with
    | _ :: _ =>
        let p := foldl (λ p '(key, l),
          if hitFullBucketGuardRailLocked key p then p else addSlice p key (firstInterval l))
          p (mCurrentSlicedBucket p) in
        let p := foldl (λ p '(key, value),
          set_vm_base (on_anomaly_trackers (addPastBucketValue key value num) (vm_base p)) p)
          p (mCurrentFullBucket p) in
        set_full [] p
    | [] =>
        foldl (λ p '(key, l),
          if hasValue (firstInterval l) then
            set_vm_base (on_anomaly_trackers
              (addPastBucketValue key (long_value (iv_value (firstInterval l))) num) (vm_base p)) p
          else p) p (mCurrentSlicedBucket p)
    end
  else foldl (λ p '(key, l), addSlice p key (firstInterval l)) p (mCurrentSlicedBucket p).

Definition resetInterval (i : Interval) : Interval :=
  mkInterval (valueIndex i) (iv_value i) 0 false false.

(** Slices without new data are erased. *)
Definition initCurrentSlicedBucket (nextBucketStartTimeNs : Z) (p : ValueMetricProducer)
    : ValueMetricProducer :=
  let slices := List.filter (λ e, existsb seenNewData e.2) (mCurrentSlicedBucket p) in
  let p := set_sliced (um_map (fmap resetInterval) slices) p in
  let p := set_skip SkippedBucket_new false p in
  set_vm_base (set_bucket nextBucketStartTimeNs (mCurrentBucketNum (vm_base p)) (vm_base p)) p.

Definition value_flushCurrentBucketLocked (eventTimeNs nextBucketStartTimeNs : Z)
    (p : ValueMetricProducer) : ValueMetricProducer :=
  let p :=
    if bool_decide (mCondition (vm_base p) = kUnknown)
    then invalidateCurrentBucketWithoutResetBase eventTimeNs CONDITION_UNKNOWN p else p in
  let fullBucketEndTimeNs := getCurrentBucketEndTimeNs (vm_base p) in
  let numBucketsForward := calcBucketsForwardCount eventTimeNs p in
  let '(p, bucketEndTime) :=
    if multipleBucketsSkipped numBucketsForward p then
      (invalidateCurrentBucketWithoutResetBase eventTimeNs MULTIPLE_BUCKETS_SKIPPED p,
       nextBucketStartTimeNs)
    else (p, if eventTimeNs <? fullBucketEndTimeNs then eventTimeNs else fullBucketEndTimeNs) in
  let '(conditionTrueDuration, timer) := newBucketStart bucketEndTime (mConditionTimer p) in
  let p := set_timer timer p in
  let p :=
    if mMinBucketSizeNs (vm_config p) <=? bucketEndTime - mCurrentBucketStartTimeNs (vm_base p) then p
    else skipCurrentBucket eventTimeNs BUCKET_TOO_SMALL p in
  let p :=
    if mCurrentBucketIsSkipped p then p
    else
      let '(past, bucketHasData) := closeSlices bucketEndTime conditionTrueDuration p in
      let p := set_vm_past past (mSkippedBuckets p) p in
      if bucketHasData then p else skipCurrentBucket eventTimeNs NO_DATA p in
  let p :=
    if mCurrentBucketIsSkipped p then
      let s := mkSkippedBucket (mCurrentBucketStartTimeNs (vm_base p)) bucketEndTime
                 (dropEvents (mCurrentSkippedBucket p)) in
      set_vm_past (vm_pastBuckets p) (mSkippedBuckets p ++ [s]) (set_skip s true p)
    else p in
  let p :=
    if bucketEndTime <? nextBucketStartTimeNs then
      set_vm_past (vm_pastBuckets p)
        (mSkippedBuckets p ++ [mkSkippedBucket bucketEndTime nextBucketStartTimeNs
                                 [buildDropEvent eventTimeNs NO_DATA]]) p
    else p in
  let p := appendToFullBucket (fullBucketEndTimeNs <? eventTimeNs) p in
  let p := initCurrentSlicedBucket nextBucketStartTimeNs p in
  let p := set_timer (newBucketStart nextBucketStartTimeNs (mConditionTimer p)).2 p in
  set_vm_base (set_bucket (mCurrentBucketStartTimeNs (vm_base p))
                 (mCurrentBucketNum (vm_base p) + numBucketsForward) (vm_base p)) p.

Definition value_flushIfNeededLocked (eventTimeNs : Z) (p : ValueMetricProducer) : ValueMetricProducer :=
  let currentBucketEndTimeNs := getCurrentBucketEndTimeNs (vm_base p) in
  if eventTimeNs <? currentBucketEndTimeNs then p
  else
    let numBucketsForward := calcBucketsForwardCount eventTimeNs p in
    value_flushCurrentBucketLocked eventTimeNs
      (currentBucketEndTimeNs + (numBucketsForward - 1) * mBucketSizeNs (mConfig (vm_base p))) p.

(** ** Events *)

Definition hasReachedGuardRailLimit (p : ValueMetricProducer) : bool :=
  mDimensionHardLimit (vm_config p) <=? size (mCurrentSlicedBucket p).

(** [hitGuardRailLocked], less the statistics it notes. *)
Definition value_hitGuardRailLocked (newKey : MetricDimensionKey) (p : ValueMetricProducer) : bool :=
  if um_mem newKey (mCurrentSlicedBucket p) then false
  else (mDimensionSoftLimit (vm_config p) - 1 <? size (mCurrentSlicedBucket p))
       && hasReachedGuardRailLimit p.

(** The conversion of a [float] to [double], which is exact. *)
Definition float_to_double (f : spec_float) : spec_float :=
  match f with
  | S754_finite s m e => binary_normalize f64_prec f64_emax (if s then Zneg m else Zpos m) e s
  | f => f
  end.

(** [getDoubleOrLong]: the first value the matcher accepts. *)
Fixpoint getDoubleOrLong (matcher : Matcher) (values : list FieldValue) : option Value :=
  match values with
  | [] => None
  | value :: values =>
      if matches (fv_field value) matcher then
        match fv_value value with
        | VINT z => Some (VLONG z)
        | VLONG z => Some (VLONG z)
        | VFLOAT f => Some (VDOUBLE (float_to_double f))
        | VDOUBLE f => Some (VDOUBLE f)
        | _ => None
        end
      else getDoubleOrLong matcher values
  end.

(** Both constants are made from an [int64_t]. *)
Definition ZERO_LONG : Value := VLONG 0.
Definition ZERO_DOUBLE : Value := VLONG 0.

(** The difference of a value to its base: [None] when the value moved in the wrong direction. *)
Definition diffOf (cfg : ValueConfig) (value base : Value) : option Value :=
  match mValueDirection cfg with
  | INCREASING =>
      if Value_geb value base then Some (Value_minus value base)
      else if mUseAbsoluteValueOnReset cfg then Some value else None
  | DECREASING =>
      if Value_geb base value then Some (Value_minus base value)
      else if mUseAbsoluteValueOnReset cfg then Some value else None
  | ANY_DIRECTION => Some (Value_minus value base)
  | DIRECTION_UNKNOWN => Some VUNKNOWN
  end.

(** [std::min(a, b)] and [std::max(a, b)] *)
Definition Value_min (a b : Value) : Value := if Value_ltb b a then b else a.
Definition Value_max (a b : Value) : Value := if Value_ltb a b then b else a.

Definition aggregate (cfg : ValueConfig) (value : Value) (i : Interval) : Interval :=
  let new :=
    if hasValue i then
      match vm_aggregation cfg with
      | VSUM | VAVG => Value_plus (iv_value i) value
      | VMIN => Value_min value (iv_value i)
      | VMAX => Value_max value (iv_value i)
      end
    else value in
  mkInterval (valueIndex i) new (sampleSize i + 1) true (seenNewData i).

(** One value field of an event: [None] when the event has no number there, otherwise the new
    states and whether the value may be used for anomaly detection. *)
Definition accumulateField (cfg : ValueConfig) (globalBase : bool) (i : Z) (matcher : Matcher)
    (stateKey : HashableDimensionKey) (values : list FieldValue) (baseInfo : BaseInfo)
    (interval : Interval) : BaseInfo * Interval * option bool :=
  let interval := mkInterval i (iv_value interval) (sampleSize interval) (hasValue interval)
                    (seenNewData interval) in
  let baseInfo := mkBaseInfo (bi_base baseInfo) (hasBase baseInfo) stateKey true in
  let set_value_base (v : Value) := mkBaseInfo v true stateKey true in
  match getDoubleOrLong matcher values with
  | None => (baseInfo, interval, None)
  | Some value =>
      let interval := mkInterval i (iv_value interval) (sampleSize interval) (hasValue interval) true in
      if negb (mUseDiff cfg) then (baseInfo, aggregate cfg value interval, Some true)
      else
        let base :=
          if hasBase baseInfo then Some (bi_base baseInfo)
          else if globalBase && mUseZeroDefaultBase cfg
               then Some (match value with VLONG _ => ZERO_LONG | _ => ZERO_DOUBLE end)
               else None in
        match base with
        | None => (set_value_base value, interval, Some false)
        | Some base =>
            match diffOf cfg value base with
            | None => (set_value_base value, interval, Some false)
            | Some diff => (set_value_base value, aggregate cfg diff interval, Some true)
            end
        end
  end.

(** The loop over the value fields; the fields after one without a number are left alone.  The last
    part of the result is whether the loop was completed with values fit for anomaly detection. *)
Fixpoint accumulateFields (cfg : ValueConfig) (globalBase : bool) (i : Z) (matchers : list Matcher)
    (stateKey : HashableDimensionKey) (values : list FieldValue) (baseInfos : list BaseInfo)
    (intervals : list Interval) (useAnomalyDetection : bool)
    : list BaseInfo * list Interval * bool :=
  match matchers, baseInfos, intervals with
  | matcher :: matchers, b :: baseInfos, v :: intervals =>
      match accumulateField cfg globalBase i matcher stateKey values b v with
      | (b, v, None) => (b :: baseInfos, v :: intervals, false)
      | (b, v, Some ok) =>
          let '(bs, vs, ok) :=
            accumulateFields cfg globalBase (i + 1) matchers stateKey values baseInfos intervals
              (useAnomalyDetection && ok) in
          (b :: bs, v :: vs, ok)
      end
  | _, _, _ => (baseInfos, intervals, useAnomalyDetection)
  end.

(** [l.resize(n)] where [l] is not longer. *)
Definition grow {A} (n : nat) (d : A) (l : list A) : list A :=
  if (length l <? n)%nat then resize n d l else l.

Section outside.
Context (uninit : Z).

(** A base without a state gets the unknown state. *)
Definition initState (cfg : ProducerConfig) (b : BaseInfo) : BaseInfo :=
  if hasCurrentState b then b
  else mkBaseInfo (bi_base b) (hasBase b) (getUnknownStateKey uninit cfg) true.

(** The event of a key, once it is known to be counted. *)
Definition accumulate (eventKey : MetricDimensionKey) (event : LogEvent) (p : ValueMetricProducer)
    : ValueMetricProducer :=
  let cfg := vm_config p in
  let n := length (mFieldMatchers cfg) in
  let whatKey := mDimensionKeyInWhat eventKey in
  let stateKey := mStateValuesKey eventKey in
  let eventTimeNs := GetElapsedTimestampNs event in
  let baseInfos :=
    initState (mConfig (vm_base p)) <$> grow n BaseInfo_new (um_get [] whatKey (mCurrentBaseInfo p)) in
  let oldStateKey := from_option currentState (mkKey []) (head baseInfos) in
  let key := mkMetricKey whatKey oldStateKey in
  let intervals := grow n Interval_new (um_get [] key (mCurrentSlicedBucket p)) in
  let '(baseInfos, intervals, useAnomalyDetection) :=
    accumulateFields cfg (mHasGlobalBase p) 0 (mFieldMatchers cfg) stateKey (getValues event)
      baseInfos intervals true in
  let p := set_baseInfo (um_set whatKey baseInfos (mCurrentBaseInfo p)) (mHasGlobalBase p)
             (set_sliced (um_set key intervals (mCurrentSlicedBucket p)) p) in
  if useAnomalyDetection && negb (multipleBucketsSkipped (calcBucketsForwardCount eventTimeNs p) p) then
    let wholeBucketVal :=
      long_value (iv_value (firstInterval intervals)) + um_get 0 eventKey (mCurrentFullBucket p) in
    set_vm_base
      (on_anomaly_trackers
         (detectAndDeclareAnomaly eventTimeNs (mCurrentBucketNum (vm_base p)) eventKey wholeBucketVal)
         (vm_base p)) p
  else p.

Definition value_onMatchedLogEventInternalLocked (matcherIndex : nat) (eventKey : MetricDimensionKey)
    (conditionKey : ConditionKey) (condition : bool) (event : LogEvent)
    (statePrimaryKeys : gmap Z HashableDimensionKey) (p : ValueMetricProducer) : ValueMetricProducer :=
  let cfg := vm_config p in
  let otherKey :=
    match statePrimaryKeys !! (mStateChangePrimaryKey p).1 with
    | Some key => negb (key_eqb key (mStateChangePrimaryKey p).2)
    | None => false
    end in
  let eventTimeNs := GetElapsedTimestampNs event in
  if otherKey then p
  else if eventTimeNs <? mCurrentBucketStartTimeNs (vm_base p) then p
  else
    let p := set_matched (us_insert (mDimensionKeyInWhat eventKey) (mMatchedMetricDimensionKeys p)) p in
    let p := if mIsPulled cfg then p else value_flushIfNeededLocked eventTimeNs p in
    let shouldSkipForPushMetric := negb (mIsPulled cfg) && negb condition in
    let shouldSkipForPulledMetric :=
      mIsPulled cfg && negb (mUseDiff cfg) && negb (bool_decide (mCondition (vm_base p) = kTrue)) in
    if shouldSkipForPushMetric || shouldSkipForPulledMetric then p
    else if value_hitGuardRailLocked eventKey p then p
    else accumulate eventKey event p.

(** The dispatch of matched events, which is shared with the other metrics, needs these overrides. *)
#[local] Instance value_event_ops : MetricOps ValueMetricProducer := {|
  base := vm_base;
  set_base := set_vm_base;
  flushIfNeededLocked := value_flushIfNeededLocked;
  flushCurrentBucketLocked := value_flushCurrentBucketLocked;
  onActiveStateChangedLocked :=
    base_onActiveStateChangedLocked vm_base value_flushIfNeededLocked value_flushCurrentBucketLocked;
  onMatchedLogEventInternalLocked := value_onMatchedLogEventInternalLocked
|}.

(** ** Pulls *)

Context {W : Type} `{!ConditionWizardOps W} (out : Outside W).

(** The loop over the pulled events. *)
Definition accumulateAll (eventElapsedTimeNs : Z) (allData : list LogEvent) (p : ValueMetricProducer)
    : ValueMetricProducer :=
  foldl (λ p data,
    if bool_decide (matchesWhat _ out data = kMatched) then
      onMatchedLogEventLocked uninit (states _ out) (conditions _ out) (mWhatMatcherIndex (vm_config p))
        (setElapsedTimestampNs eventElapsedTimeNs data) p
    else p) p allData.

(** The bases of the keys that the pull did not return are dropped. *)
Definition dropMissing (p : ValueMetricProducer) : ValueMetricProducer :=
  foldl (λ p '(key, _),
    let whatKey := mDimensionKeyInWhat key in
    if negb (us_mem whatKey (mMatchedMetricDimensionKeys p))
       && contains whatKey (mStateChangePrimaryKey p).2 then
      match um_find whatKey (mCurrentBaseInfo p) with
      | Some l => set_baseInfo (um_set whatKey (dropBase <$> l) (mCurrentBaseInfo p)) (mHasGlobalBase p) p
      | None => p
      end
    else p) p (mCurrentSlicedBucket p).

Definition accumulateEvents (allData : list LogEvent) (originalPullTimeNs eventElapsedTimeNs : Z)
    (p : ValueMetricProducer) : ValueMetricProducer :=
  if eventElapsedTimeNs <? mCurrentBucketStartTimeNs (vm_base p) then
    invalidateCurrentBucket eventElapsedTimeNs EVENT_IN_WRONG_BUCKET p
  else if mMaxPullDelayNs (vm_config p) <? getElapsedRealtimeNs _ out - originalPullTimeNs then
    invalidateCurrentBucket eventElapsedTimeNs PULL_DELAYED p
  else
    let p := accumulateAll eventElapsedTimeNs allData (set_matched [] p) in
    let p := set_matched [] (dropMissing p) in
    let p := set_baseInfo (mCurrentBaseInfo p) true p in
    if hasReachedGuardRailLimit p then
      set_sliced [] (invalidateCurrentBucket eventElapsedTimeNs DIMENSION_GUARDRAIL_REACHED p)
    else p.

Definition pullAndMatchEventsLocked (timestampNs : Z) (p : ValueMetricProducer) : ValueMetricProducer :=
  match Pull _ out timestampNs with
  | None => invalidateCurrentBucket timestampNs PULL_FAILED p
  | Some allData => accumulateEvents allData timestampNs timestampNs p
  end.

Definition calcPreviousBucketEndTime (currentTimeNs : Z) (p : ValueMetricProducer) : Z :=
  let cfg := mConfig (vm_base p) in
  mTimeBaseNs cfg + Z.quot (currentTimeNs - mTimeBaseNs cfg) (mBucketSizeNs cfg) * mBucketSizeNs cfg.

(** [onDataPulled]: [None] is a failed pull. *)
Definition onDataPulled (allData : option (list LogEvent)) (originalPullTimeNs : Z)
    (p : ValueMetricProducer) : ValueMetricProducer :=
  let p :=
    if bool_decide (mCondition (vm_base p) = kTrue) then
      match allData with
      | None => invalidateCurrentBucket originalPullTimeNs PULL_FAILED p
      | Some allData =>
          if originalPullTimeNs <? getCurrentBucketEndTimeNs (vm_base p) then
            accumulateEvents allData originalPullTimeNs originalPullTimeNs p
          else
            accumulateEvents allData originalPullTimeNs
              (calcPreviousBucketEndTime originalPullTimeNs p - 1) p
      end
    else p in
  value_flushIfNeededLocked originalPullTimeNs p.

Definition pullIfTrue (eventTimeNs : Z) (p : ValueMetricProducer) : ValueMetricProducer :=
  if mIsPulled (vm_config p) && bool_decide (mCondition (vm_base p) = kTrue)
  then pullAndMatchEventsLocked eventTimeNs p else p.

Definition value_notifyAppUpgrade (eventTimeNs : Z) (p : ValueMetricProducer) : ValueMetricProducer :=
  if negb (mSplitBucketForAppUpgrade (vm_config p)) then p
  else value_flushCurrentBucketLocked eventTimeNs eventTimeNs (pullIfTrue eventTimeNs p).

Definition value_onStatsdInitCompleted (eventTimeNs : Z) (p : ValueMetricProducer)
    : ValueMetricProducer :=
  value_flushCurrentBucketLocked eventTimeNs eventTimeNs (pullIfTrue eventTimeNs p).

Definition prepareFirstBucketLocked (p : ValueMetricProducer) : ValueMetricProducer :=
  if mIsActive (mActivity (vm_base p)) && mIsPulled (vm_config p)
     && bool_decide (mCondition (vm_base p) = kTrue) && mUseDiff (vm_config p)
  then pullAndMatchEventsLocked (mCurrentBucketStartTimeNs (vm_base p)) p else p.

(** ** States, activations, conditions *)

Definition value_onStateChanged (eventTimeNs atomId : Z) (primaryKey : HashableDimensionKey)
    (oldState newState : FieldValue) (p : ValueMetricProducer) : ValueMetricProducer :=
  let cfg := mConfig (vm_base p) in
  if FieldValue_eqb (mapStateValue cfg atomId oldState) (mapStateValue cfg atomId newState) then p
  else if negb (bool_decide (mCondition (vm_base p) = kTrue)) || negb (mIsActive (mActivity (vm_base p)))
  then p
  else if eventTimeNs <? mCurrentBucketStartTimeNs (vm_base p) then
    invalidateCurrentBucket eventTimeNs EVENT_IN_WRONG_BUCKET p
  else
    let p := set_statePrimaryKey (atomId, primaryKey) p in
    let p := if mIsPulled (vm_config p) then pullAndMatchEventsLocked eventTimeNs p else p in
    let p := set_statePrimaryKey (0, DEFAULT_DIMENSION_KEY) p in
    value_flushIfNeededLocked eventTimeNs p.

Definition value_onActiveStateChangedLocked (eventTimeNs : Z) (p : ValueMetricProducer)
    : ValueMetricProducer :=
  let isEventTooLate := eventTimeNs <? mCurrentBucketStartTimeNs (vm_base p) in
  let p := if isEventTooLate then invalidateCurrentBucket eventTimeNs EVENT_IN_WRONG_BUCKET p else p in
  let p := base_onActiveStateChangedLocked vm_base value_flushIfNeededLocked
             value_flushCurrentBucketLocked eventTimeNs p in
  if negb (bool_decide (mCondition (vm_base p) = kTrue)) then p
  else
    let active := mIsActive (mActivity (vm_base p)) in
    let p :=
      if isEventTooLate then p
      else
        let p := if mIsPulled (vm_config p) then pullAndMatchEventsLocked eventTimeNs p else p in
        if mUseDiff (vm_config p) && negb active then resetBase p else p in
    let p := value_flushIfNeededLocked eventTimeNs p in
    set_timer (timer_onConditionChanged active eventTimeNs (mConditionTimer p)) p.

(** The conversion of a [ConditionState] to [bool]: only [kFalse] is zero. *)
Definition conditionToBool (c : ConditionState) : bool := negb (cs_value c =? 0).

Definition set_value_condition (c : ConditionState) (p : ValueMetricProducer) : ValueMetricProducer :=
  set_vm_base (set_condition c (vm_base p)) p.

Definition value_onConditionChangedLocked (condition : bool) (eventTimeNs : Z) (p : ValueMetricProducer)
    : ValueMetricProducer :=
  let newCondition := if condition then kTrue else kFalse in
  let isEventTooLate := eventTimeNs <? mCurrentBucketStartTimeNs (vm_base p) in
  if negb (mIsActive (mActivity (vm_base p))) then
    set_value_condition (if isEventTooLate then kUnknown else newCondition) p
  else if isEventTooLate then
    let p := set_value_condition kUnknown
               (invalidateCurrentBucket eventTimeNs EVENT_IN_WRONG_BUCKET p) in
    set_timer (timer_onConditionChanged (conditionToBool kUnknown) eventTimeNs (mConditionTimer p)) p
  else
    let old := mCondition (vm_base p) in
    let p := if bool_decide (old = kUnknown)
             then invalidateCurrentBucket eventTimeNs CONDITION_UNKNOWN p else p in
    let p := if mIsPulled (vm_config p) && (condition || bool_decide (old = kTrue))
             then pullAndMatchEventsLocked eventTimeNs p else p in
    let p := if mUseDiff (vm_config p) && bool_decide (old = kTrue) && negb condition
             then resetBase p else p in
    let p := value_flushIfNeededLocked eventTimeNs (set_value_condition newCondition p) in
    set_timer (timer_onConditionChanged (conditionToBool newCondition) eventTimeNs (mConditionTimer p)) p.

(** [onSlicedConditionMayChangeLocked] only logs. *)
Definition value_metric_ops : MetricOps ValueMetricProducer := {|
  base := vm_base;
  set_base := set_vm_base;
  flushIfNeededLocked := value_flushIfNeededLocked;
  flushCurrentBucketLocked := value_flushCurrentBucketLocked;
  onActiveStateChangedLocked := value_onActiveStateChangedLocked;
  onMatchedLogEventInternalLocked := value_onMatchedLogEventInternalLocked
|}.

(** ** Construction *)

(** The ValueMetric message; the duration of [max_pull_delay_sec] is in seconds. *)
Record ValueMetric := mkValueMetricMessage {
  vmm_id : Z;
  vmm_value_field : FieldMatcher;
  vmm_dimensions_in_what : option FieldMatcher;
  vmm_bucket : option TimeUnit;
  vmm_links : list MetricConditionLink;
  vmm_state_link : list MetricStateLink;
  vmm_aggregation_type : ValueAggregation;
  vmm_min_bucket_size_nanos : Z;
  vmm_use_absolute_value_on_reset : bool;
  vmm_use_diff : option bool;
  vmm_value_direction : ValueDirection;
  vmm_skip_zero_diff_output : bool;
  vmm_use_zero_default_base : bool;
  vmm_max_pull_delay_sec : Z;
  vmm_split_bucket_for_app_upgrade : bool
}.

(** The members of the configuration.  [sizeLimits] is [kAtomDimensionKeySizeLimitMap], whose atom ids
    are generated. *)
Definition toValueConfig (sizeLimits : gmap Z (Z * Z)) (metric : ValueMetric) (whatMatcherIndex : nat)
    (pullTagId : Z) : ValueConfig :=
  let isPulled := negb (pullTagId =? -1) in
  let limits := default (kDimensionKeySizeSoftLimit, kDimensionKeySizeHardLimit)
                  (sizeLimits !! pullTagId) in
  mkValueConfig (translateFieldMatcher (vmm_value_field metric)) whatMatcherIndex isPulled
    (vmm_min_bucket_size_nanos metric) limits.1 limits.2 (vmm_use_absolute_value_on_reset metric)
    (vmm_aggregation_type metric) (default isPulled (vmm_use_diff metric))
    (vmm_value_direction metric) (vmm_skip_zero_diff_output metric)
    (vmm_use_zero_default_base metric)
    (if 0 <? vmm_max_pull_delay_sec metric then vmm_max_pull_delay_sec metric * NS_PER_SEC
     else kPullMaxDelayNs)
    (vmm_split_bucket_for_app_upgrade metric).

Definition ValueMetricProducer_new (sizeLimits : gmap Z (Z * Z)) (uid : Z) (metric : ValueMetric)
    (conditionIndex : Z) (initialConditionCache : list ConditionState) (whatMatcherIndex : nat)
    (pullTagId timeBaseNs startTimeNs : Z) (activations : gmap nat Activation)
    (eventActivationMap : gmap Z nat) (eventDeactivationMap : gmap Z (list nat))
    (slicedStateAtoms : list Z) (stateGroupMap : gmap Z (gmap Z Z))
    : ValueMetricProducer * option Registration :=
  let bucketSizeNs :=
    match vmm_bucket metric with
    | Some unit_ => TimeUnitToBucketSizeInMillisGuardrailed uid unit_
    | None => TimeUnitToBucketSizeInMillis ONE_HOUR
    end * 1000000 in
  let dims := vmm_dimensions_in_what metric in
  let cfg := mkProducerConfig (vmm_id metric) timeBaseNs bucketSizeNs conditionIndex
    (0 <? Z.of_nat (length (vmm_links metric)))
    (from_option HasPositionANY false dims) (from_option HasPositionALL false dims)
    (from_option translateFieldMatcher [] dims) false
    (toMetric2Condition <$> vmm_links metric) slicedStateAtoms stateGroupMap
    (toMetric2State <$> vmm_state_link metric) in
  let b := MetricProducer_new cfg initialConditionCache activations eventActivationMap
             eventDeactivationMap in
  let p := mkValueMetric b (toValueConfig sizeLimits metric whatMatcherIndex pullTagId) [] [] false []
             [] [] SkippedBucket_new false (ConditionTimer_new false timeBaseNs) []
             (0, DEFAULT_DIMENSION_KEY) in
  let p := set_vm_base (set_bucket (mCurrentBucketStartTimeNs b)
             (mCurrentBucketNum b + calcBucketsForwardCount startTimeNs p) b) p in
  let p := value_flushIfNeededLocked startTimeNs p in
  let registration :=
    if mIsPulled (vm_config p)
    then Some (mkRegistration pullTagId (getCurrentBucketEndTimeNs (vm_base p)) bucketSizeNs)
    else None in
  let p := set_vm_base (set_bucket startTimeNs (mCurrentBucketNum (vm_base p)) (vm_base p)) p in
  let timer := (newBucketStart startTimeNs (mConditionTimer p)).2 in
  (set_timer (timer_onConditionChanged
     (mIsActive (mActivity (vm_base p)) && bool_decide (mCondition (vm_base p) = kTrue))
     startTimeNs timer) p, registration).

(** ** Reports and dropped data *)

(** One value of a bucket: its index and its number, if it is one. *)
Inductive ValueInfo := LongValue (index long : Z) | DoubleValue (index : Z) (double : spec_float) | NoValue (index : Z).

Definition valueInfo (index : Z) (v : Value) : ValueInfo :=
  match v with VLONG z => LongValue index z | VDOUBLE f => DoubleValue index f | _ => NoValue index end.

(** The ValueBucketInfo message: the bucket by times or number, the time the condition was true when
    the metric has one, the values. *)
Record ValueBucketInfo := mkValueBucketInfo {
  vbi_times : (Z * Z) + Z; vbi_condition_true_nanos : option Z; vbi_values : list ValueInfo
}.

Definition valueBucketInfo (b : MetricProducer) (bucket : ValueBucket) : ValueBucketInfo :=
  mkValueBucketInfo
    (if negb (vb_end bucket - vb_start bucket =? mBucketSizeNs (mConfig b))
     then inl (NanoToMillis (vb_start bucket), NanoToMillis (vb_end bucket))
     else inr (getBucketNumFromEndTimeNs (vb_end bucket) b))
    (if 0 <=? mConditionTrackerIndex (mConfig b) then Some (vb_conditionTrueNs bucket) else None)
    (zip_with valueInfo (vb_valueIndex bucket) (vb_values bucket)).

(** A skipped bucket in a report, in milliseconds. *)
Definition skippedInfo (s : SkippedBucket) : Z * Z * list (BucketDropReason * Z) :=
  (NanoToMillis (sk_start s), NanoToMillis (sk_end s),
   (λ d, (drop_reason d, NanoToMillis (dropTimeNs d))) <$> dropEvents s).

Record ValueReport := mkValueReport {
  vr_id : Z; vr_is_active : bool;
  vr_data : option (Z * Z * list (Z * Z * list (BucketDropReason * Z))
                    * list (MetricDimensionKey * list ValueBucketInfo))
}.

Definition valueEntry (b : MetricProducer) (e : MetricDimensionKey * list ValueBucket)
    : MetricDimensionKey * list ValueBucketInfo := (e.1, valueBucketInfo b <$> e.2).

Definition value_onDumpReportLocked (dumpTimeNs : Z) (include_current_partial_bucket erase_data : bool)
    (dumpLatency : DumpLatency) (p : ValueMetricProducer) : ValueReport * ValueMetricProducer :=
  let p :=
    if include_current_partial_bucket then
      let p :=
        if mIsPulled (vm_config p) && bool_decide (mCondition (vm_base p) = kTrue) then
          match dumpLatency with
          | FAST => invalidateCurrentBucket dumpTimeNs DUMP_REPORT_REQUESTED p
          | NO_TIME_CONSTRAINTS => pullAndMatchEventsLocked dumpTimeNs p
          end
        else p in
      value_flushCurrentBucketLocked dumpTimeNs dumpTimeNs p
    else p in
  let cfg := mConfig (vm_base p) in
  let isActive := mIsActive (mActivity (vm_base p)) in
  match vm_pastBuckets p, mSkippedBuckets p with
  | [], [] => (mkValueReport (mMetricId cfg) isActive None, p)
  | past, skipped =>
      (mkValueReport (mMetricId cfg) isActive
         (Some (mTimeBaseNs cfg, mBucketSizeNs cfg, skippedInfo <$> skipped,
                valueEntry (vm_base p) <$> past)),
       if erase_data then set_vm_past [] [] p else p)
  end.

Definition value_clearPastBucketsLocked (dumpTimeNs : Z) (p : ValueMetricProducer)
    : ValueMetricProducer := set_vm_past [] [] p.

Definition value_dropDataLocked (dropTimeNs : Z) (p : ValueMetricProducer) : ValueMetricProducer :=
  value_clearPastBucketsLocked dropTimeNs (value_flushIfNeededLocked dropTimeNs p).

(** [bucketSize] is [sizeof(ValueBucket)], which depends on the representation of vectors. *)
Definition value_byteSizeLocked (bucketSize : Z) (p : ValueMetricProducer) : Z :=
  foldl (λ totalSize pair, totalSize + Z.of_nat (length pair.2) * bucketSize) 0 (vm_pastBuckets p).
End outside.
