(* ===== verification/ValueMetricFacts.v ===== *)
(** * Facts on the value metric

    The value metric satisfies the interface of metric producers; its buckets and skipped buckets
    tile time; the intervals of a key hold the aggregate of the differences of its values; two
    faults of the code. *)
From Stdlib Require Import SpecFloat Sorting.Sorted.
From S2P Require Import Prelude UMap FieldValue DimensionKey DimensionKeyFacts Matchers Conditions.
From S2P Require Import Anomaly State MetricProducer CountMetric MetricShared ValueMetric.

(** ** What only a flush changes *)

(** The members that say how time was accounted for. *)
Record Ledger := mkLedger {
  lg_config : ProducerConfig; lg_start : Z; lg_num : Z; lg_value : ValueConfig;
  lg_past : umap MetricDimensionKey (list ValueBucket); lg_skipped : list SkippedBucket
}.

Definition ledger (p : ValueMetricProducer) : Ledger :=
  mkLedger (mConfig (vm_base p)) (mCurrentBucketStartTimeNs (vm_base p)) (mCurrentBucketNum (vm_base p))
    (vm_config p) (vm_pastBuckets p) (mSkippedBuckets p).

Definition activity_of (p : ValueMetricProducer) : Activity := mActivity (vm_base p).

(** An operation on the values leaves the ledger, the condition and the activations alone. *)
Definition keeps (f : ValueMetricProducer → ValueMetricProducer) : Prop :=
  ∀ p, ledger (f p) = ledger p ∧ activity_of (f p) = activity_of p
       ∧ mCondition (vm_base (f p)) = mCondition (vm_base p).

Lemma keeps_foldl {A} (f : ValueMetricProducer → A → ValueMetricProducer) l :
  (∀ x, keeps (λ p, f p x)) → keeps (λ p, foldl f p l).
Proof.
  intros Hf. induction l as [|x l IH]; intros p; [done|]. cbn [foldl].
  destruct (IH (f p x)) as (-> & -> & ->). apply Hf.
Qed.

Lemma keeps_skip t r : keeps (skipCurrentBucket t r).
Proof. done. Qed.

Lemma keeps_invalidate t r : keeps (invalidateCurrentBucket t r).
Proof. done. Qed.

Lemma keeps_reset : keeps resetBase.
Proof. done. Qed.

Lemma keeps_addSlice key i : keeps (λ p, addSlice p key i).
Proof. intros p. unfold addSlice. by destruct (hasValue i). Qed.

Lemma keeps_appendToFullBucket b : keeps (appendToFullBucket b).
Proof.
  intros p. unfold appendToFullBucket.
  destruct (mCurrentBucketIsSkipped p); [by destruct b|]. destruct b.
  - destruct (mCurrentFullBucket p) as [|e full] eqn:Hfull.
    + apply keeps_foldl. intros [key l] q. by destruct (hasValue _).
    + set (q := foldl _ p (mCurrentSlicedBucket p)).
      assert (Hq : ledger q = ledger p ∧ activity_of q = activity_of p
                   ∧ mCondition (vm_base q) = mCondition (vm_base p)).
      { apply keeps_foldl. intros [key l] r. destruct (hitFullBucketGuardRailLocked key r); [done|].
        apply keeps_addSlice. }
      set (r := foldl _ q (mCurrentFullBucket q)).
      assert (Hr : ledger r = ledger q ∧ activity_of r = activity_of q
                   ∧ mCondition (vm_base r) = mCondition (vm_base q)).
      { apply keeps_foldl. intros [key v] r'. done. }
      destruct Hq as (Hq1 & Hq2 & Hq3), Hr as (Hr1 & Hr2 & Hr3).
      split_and!; [transitivity (ledger r); [done|]|transitivity (activity_of r); [done|]
        |transitivity (mCondition (vm_base r)); [done|]]; congruence.
  - apply keeps_foldl. intros [key l]. apply keeps_addSlice.
Qed.

(** ** Closing a bucket *)

Definition bounds (b : ValueBucket) : Z * Z := (vb_start b, vb_end b).
Definition sk_bounds (s : SkippedBucket) : Z * Z := (sk_start s, sk_end s).

(** Some key has a past bucket with these bounds. *)
Definition inPast (past : umap MetricDimensionKey (list ValueBucket)) (s : Z * Z) : Prop :=
  ∃ e b, e ∈ past ∧ b ∈ e.2 ∧ bounds b = s.

Lemma inPast_push key b past s :
  inPast (um_set key (um_get [] key past ++ [b]) past) s ↔ inPast past s ∨ s = bounds b.
Proof.
  unfold um_get. induction past as [|[k l] past IH]; cbn [um_set um_find].
  - split.
    + intros (e & b' & ->%list_elem_of_singleton & Hb & <-). cbn in Hb. right. set_solver.
    + intros [(e & b' & Hin & _)| ->]; [set_solver|]. exists (key, [b]), b. set_solver.
  - destruct (key_eqb key k).
    + cbn [default]. split.
      * intros (e & b' & [-> |Hin]%elem_of_cons & Hb & <-).
        -- cbn in Hb. apply elem_of_app in Hb as [Hb|Hb].
           ++ left. exists (k, l), b'. set_solver.
           ++ right. set_solver.
        -- left. exists e, b'. set_solver.
      * intros [(e & b' & [-> |Hin]%elem_of_cons & Hb & <-)| ->].
        -- cbn in Hb. exists (k, l ++ [b]), b'. split; [set_solver|]. cbn. set_solver.
        -- exists e, b'. set_solver.
        -- exists (k, l ++ [b]), b. split; [set_solver|]. cbn. set_solver.
    + assert (Hcons : ∀ m, inPast ((k, l) :: m) s ↔ inPast [(k, l)] s ∨ inPast m s).
      { intros m. unfold inPast. split.
        - intros (e & b' & [-> |Hin]%elem_of_cons & Hb & Hs); [left; exists (k, l), b'|right; exists e, b']; set_solver.
        - intros [(e & b' & Hin & Hb & Hs)|(e & b' & Hin & Hb & Hs)]; exists e, b'; set_solver. }
      rewrite (Hcons (um_set _ _ _)), (Hcons past), IH. tauto.
Qed.

Lemma closeSlices_spec t c p :
  let '(past, hasData) := closeSlices t c p in
  ∀ s, inPast past s ↔
    inPast (vm_pastBuckets p) s ∨ (hasData = true ∧ s = (mCurrentBucketStartTimeNs (vm_base p), t)).
Proof.
  unfold closeSlices. generalize (vm_pastBuckets p) as past.
  assert (Hgen : ∀ l past has,
    let '(past', has') := foldl (λ '(past, hasData) '(key, intervals),
      let bucket := buildPartialBucket t intervals p c in
      match vb_valueIndex bucket with
      | [] => (past, hasData)
      | _ :: _ => (um_set key (um_get [] key past ++ [bucket]) past, true)
      end) (past, has) l in
    (has = true → has' = true) ∧
    ∀ s, has = true → inPast past (mCurrentBucketStartTimeNs (vm_base p), t) →
         (inPast past' s ↔ inPast past s)).
  { induction l as [|[key ivs] l IH]; intros past has; cbn [foldl]; [done|].
    destruct (vb_valueIndex (buildPartialBucket t ivs p c)) as [|i l'].
    - apply IH.
    - specialize (IH (um_set key (um_get [] key past ++ [buildPartialBucket t ivs p c]) past) true).
      destruct (foldl _ _ l) as [past' has']. destruct IH as [Hh Hp]. split; [by intros _; apply Hh|].
      intros s Hhas Hin. rewrite Hp; [|done|rewrite inPast_push; by left].
      rewrite inPast_push. cbn. split; [intros [?| ->]; done|by left]. }
  generalize (mCurrentSlicedBucket p) as l. intros l past. induction l as [|[key ivs] l IH] in past |- *; cbn [foldl].
  { intros s. naive_solver. }
  destruct (vb_valueIndex (buildPartialBucket t ivs p c)) as [|i l']; [apply IH|].
  specialize (Hgen l (um_set key (um_get [] key past ++ [buildPartialBucket t ivs p c]) past) true).
  destruct (foldl _ _ l) as [past' has']. destruct Hgen as [Hh Hp]. rewrite Hh by done.
  intros s. rewrite Hp; [|done|rewrite inPast_push; by right]. rewrite inPast_push. cbn. naive_solver.
Qed.

(** The end of the bucket that a flush closes. *)
Definition closedAt (t next : Z) (p : ValueMetricProducer) : Z :=
  let full := getCurrentBucketEndTimeNs (vm_base p) in
  if multipleBucketsSkipped (calcBucketsForwardCount t p) p then next
  else if t <? full then t else full.

(** The last steps of a flush. *)
Lemma flush_tail b next n q :
  let r := appendToFullBucket b q in
  let r := initCurrentSlicedBucket next r in
  let r := set_timer (newBucketStart next (mConditionTimer r)).2 r in
  let r := set_vm_base (set_bucket (mCurrentBucketStartTimeNs (vm_base r))
                          (mCurrentBucketNum (vm_base r) + n) (vm_base r)) r in
  ledger r = mkLedger (mConfig (vm_base q)) next (mCurrentBucketNum (vm_base q) + n) (vm_config q)
               (vm_pastBuckets q) (mSkippedBuckets q)
  ∧ activity_of r = activity_of q ∧ mCondition (vm_base r) = mCondition (vm_base q).
Proof.
  destruct (keeps_appendToFullBucket b q) as (Hl & Ha & Hc). unfold ledger in Hl. injection Hl as H1 H2 H3 H4 H5 H6.
  cbn -[appendToFullBucket]. unfold ledger, activity_of in *. cbn -[appendToFullBucket].
  by rewrite H1, H3, H4, H5, H6, Ha, Hc.
Qed.

(** [q] is [p] but for its skipped flag, its drop events, its timer and its values. *)
Definition sameLedger (p q : ValueMetricProducer) : Prop :=
  ledger q = ledger p ∧ activity_of q = activity_of p ∧ mCondition (vm_base q) = mCondition (vm_base p).

(** The first steps of a flush: the reasons to skip the bucket. *)
Definition flushReasons (t next : Z) (p : ValueMetricProducer) : ValueMetricProducer * Z :=
  let p :=
    if bool_decide (mCondition (vm_base p) = kUnknown)
    then invalidateCurrentBucketWithoutResetBase t CONDITION_UNKNOWN p else p in
  if multipleBucketsSkipped (calcBucketsForwardCount t p) p
  then (invalidateCurrentBucketWithoutResetBase t MULTIPLE_BUCKETS_SKIPPED p, next)
  else (p, if t <? getCurrentBucketEndTimeNs (vm_base p) then t
           else getCurrentBucketEndTimeNs (vm_base p)).

Lemma flushReasons_keeps t next p :
  (flushReasons t next p).2 = closedAt t next p ∧ sameLedger p (flushReasons t next p).1.
Proof.
  unfold flushReasons, closedAt, sameLedger. destruct (bool_decide _); cbv zeta;
    by destruct (multipleBucketsSkipped _ _) eqn:E; cbn in E |- *; rewrite ?E.
Qed.

(** Then the bucket is closed, unless it is skipped. *)
Definition flushClose (t e cond : Z) (p : ValueMetricProducer) : ValueMetricProducer :=
  let p :=
    if mMinBucketSizeNs (vm_config p) <=? e - mCurrentBucketStartTimeNs (vm_base p) then p
    else skipCurrentBucket t BUCKET_TOO_SMALL p in
  if mCurrentBucketIsSkipped p then p
  else
    let '(past, bucketHasData) := closeSlices e cond p in
    let p := set_vm_past past (mSkippedBuckets p) p in
    if bucketHasData then p else skipCurrentBucket t NO_DATA p.

Lemma flushClose_spec t e cond p :
  let q := flushClose t e cond p in
  activity_of q = activity_of p ∧ mCondition (vm_base q) = mCondition (vm_base p)
  ∧ lg_config (ledger q) = lg_config (ledger p) ∧ lg_value (ledger q) = lg_value (ledger p)
  ∧ lg_start (ledger q) = lg_start (ledger p) ∧ lg_num (ledger q) = lg_num (ledger p)
  ∧ lg_skipped (ledger q) = lg_skipped (ledger p)
  ∧ ∀ s, inPast (lg_past (ledger q)) s ↔ inPast (lg_past (ledger p)) s
      ∨ (mCurrentBucketIsSkipped q = false ∧ s = (lg_start (ledger p), e)).
Proof.
  cbv zeta. unfold flushClose. set (p4 := if _ <=? _ then p else _).
  assert (K4 : sameLedger p p4) by (subst p4; by destruct (_ <=? _)).
  clearbody p4. destruct K4 as (Hl & Ha & Hc). destruct (mCurrentBucketIsSkipped p4) eqn:Hs.
  - rewrite Hs, Hl, Ha, Hc. split_and!; try done. intros s. naive_solver.
  - pose proof (closeSlices_spec e cond p4) as Hclose.
    destruct (closeSlices e cond p4) as [past has].
    rewrite <- Hl, <- Ha, <- Hc. destruct has; split_and!; try done; intros s; cbn; rewrite Hclose, ?Hs;
      naive_solver.
Qed.

(** What a flush does to the ledger: the bucket is closed with data or skipped, and the time up to
    the start of the next bucket, if any, is skipped. *)
Lemma flush_ledger t next p :
  let p' := value_flushCurrentBucketLocked t next p in
  let e := closedAt t next p in
  let start := lg_start (ledger p) in
  lg_config (ledger p') = lg_config (ledger p) ∧ lg_value (ledger p') = lg_value (ledger p)
  ∧ lg_start (ledger p') = next
  ∧ lg_num (ledger p') = lg_num (ledger p) + calcBucketsForwardCount t p
  ∧ activity_of p' = activity_of p ∧ mCondition (vm_base p') = mCondition (vm_base p)
  ∧ ∃ skipped : bool,
      (∀ s, inPast (lg_past (ledger p')) s ↔
            inPast (lg_past (ledger p)) s ∨ (skipped = false ∧ s = (start, e)))
      ∧ sk_bounds <$> lg_skipped (ledger p') =
          (sk_bounds <$> lg_skipped (ledger p)) ++ (if skipped then [(start, e)] else [])
          ++ (if e <? next then [(e, next)] else []).
Proof.
  cbv zeta. destruct (flushReasons_keeps t next p) as [He K].
  assert (Hcalc : ∀ q, sameLedger p q → calcBucketsForwardCount t q = calcBucketsForwardCount t p
    ∧ getCurrentBucketEndTimeNs (vm_base q) = getCurrentBucketEndTimeNs (vm_base p)).
  { intros q (Hl & _). unfold ledger in Hl. injection Hl as H1 H2 H3 _ _ _.
    unfold calcBucketsForwardCount, getCurrentBucketEndTimeNs. by rewrite H1, H3. }
  unfold value_flushCurrentBucketLocked. set (p1 := if bool_decide _ then _ else p).
  assert (sameLedger p p1) as K1 by (subst p1; by destruct (bool_decide _)).
  unfold flushReasons in He, K. fold p1 in He, K. cbv zeta in He, K.
  destruct (Hcalc _ K1) as [Hf Hg]. clearbody p1.
  destruct (if multipleBucketsSkipped _ p1 then _ else _) as [p2 e2]. cbn [fst snd] in He, K. subst e2.
  set (e := closedAt t next p). destruct (newBucketStart e (mConditionTimer p2)) as [cond timer].
  cbv zeta. change (if mMinBucketSizeNs _ <=? _ then _ else _) with
    (if mMinBucketSizeNs (vm_config (set_timer timer p2)) <=?
        e - mCurrentBucketStartTimeNs (vm_base (set_timer timer p2)) then set_timer timer p2
     else skipCurrentBucket t BUCKET_TOO_SMALL (set_timer timer p2)).
  pose proof (flushClose_spec t e cond (set_timer timer p2)) as Hclose.
  unfold flushClose in Hclose. cbv zeta in Hclose.
  set (p4 := if mMinBucketSizeNs _ <=? _ then _ else _) in *.
  set (p5 := if mCurrentBucketIsSkipped p4 then p4 else _) in *. clearbody p5. clear p4.
  destruct Hclose as (Ha & Hc & Hcfg & Hv & Hst & Hn & Hsk & Hpast).
  change (ledger (set_timer timer p2)) with (ledger p2) in *.
  change (activity_of (set_timer timer p2)) with (activity_of p2) in *.
  change (mCondition (vm_base (set_timer timer p2))) with (mCondition (vm_base p2)) in *.
  destruct K as (Kl & Ka & Kc). rewrite Kl in *. rewrite Ka in *. rewrite Kc in *.
  set (q := if e <? next then _ else _).
  destruct (flush_tail (getCurrentBucketEndTimeNs (vm_base p1) <? t) next
    (calcBucketsForwardCount t p1) q) as (-> & -> & ->).
  rewrite Hf. unfold ledger in Hcfg, Hv, Hst, Hn, Hsk. cbn in Hcfg, Hv, Hst, Hn, Hsk.
  cbn [lg_config lg_start lg_num lg_value lg_past lg_skipped].
  assert (Hq : mConfig (vm_base q) = mConfig (vm_base p5) ∧ vm_config q = vm_config p5
    ∧ mCurrentBucketNum (vm_base q) = mCurrentBucketNum (vm_base p5)
    ∧ activity_of q = activity_of p5 ∧ mCondition (vm_base q) = mCondition (vm_base p5)
    ∧ vm_pastBuckets q = vm_pastBuckets p5).
  { subst q. by destruct (e <? next), (mCurrentBucketIsSkipped p5). }
  destruct Hq as (-> & -> & -> & -> & -> & ->). split_and!; try done; [cbn; lia|].
  exists (mCurrentBucketIsSkipped p5). split; [exact Hpast|]. subst q.
  destruct (e <? next), (mCurrentBucketIsSkipped p5); cbn; rewrite ?fmap_app, ?Hsk, ?Hst, <- ?app_assoc, ?app_nil_r; done.
Qed.

(** ** Buckets tile time *)

(** Consecutive intervals of time from one time to another, each with data or skipped. *)
Inductive tiles : Z → list (Z * Z * bool) → Z → Prop :=
  | tiles_nil a : tiles a [] a
  | tiles_snoc a segs b c skipped :
      tiles a segs b → b <= c → tiles a (segs ++ [((b, c), skipped)]) c.

(** The skipped buckets are the skipped tiles, in order, and the others are the intervals for which
    some key has a bucket. *)
Definition accounted (since : Z) (g : Ledger) : Prop :=
  ∃ segs, tiles since segs (lg_start g)
    ∧ sk_bounds <$> lg_skipped g = (List.filter snd segs).*1
    ∧ ∀ s, inPast (lg_past g) s ↔ (s, false) ∈ segs.

Definition endOf (g : Ledger) : Z :=
  mTimeBaseNs (lg_config g) + (lg_num g + 1) * mBucketSizeNs (lg_config g).

Definition timeInv (now since : Z) (g : Ledger) : Prop :=
  0 < mBucketSizeNs (lg_config g) ∧ lg_start g < endOf g ∧ lg_start g <= now ∧ accounted since g.

Lemma accounted_step since g g' e (skipped : bool) :
  accounted since g → lg_start g <= e → e <= lg_start g' →
  (∀ s, inPast (lg_past g') s ↔ inPast (lg_past g) s ∨ (skipped = false ∧ s = (lg_start g, e))) →
  sk_bounds <$> lg_skipped g' = (sk_bounds <$> lg_skipped g) ++
    (if skipped then [(lg_start g, e)] else []) ++ (if e <? lg_start g' then [(e, lg_start g')] else []) →
  accounted since g'.
Proof.
  intros (segs & Ht & Hs & Hp) H1 H2 Hp' Hs'.
  assert (Hone : tiles since (segs ++ [((lg_start g, e), skipped)]) e) by by apply tiles_snoc.
  exists (segs ++ [((lg_start g, e), skipped)]
          ++ if e <? lg_start g' then [((e, lg_start g'), true)] else []).
  split_and!.
  - destruct (Z.ltb_spec e (lg_start g')).
    + rewrite app_assoc. by apply tiles_snoc.
    + rewrite app_nil_r. by replace (lg_start g') with e by lia.
  - rewrite Hs', Hs, !List.filter_app, !fmap_app. f_equal.
    by destruct skipped, (e <? lg_start g').
  - intros s. rewrite Hp', Hp, !elem_of_app, list_elem_of_singleton.
    assert ((s, false) ∈ (if e <? lg_start g' then [(e, lg_start g', true)] else []) ↔ False) as ->.
    { destruct (e <? _); set_solver. }
    split; [intros [?|[-> ->]]; auto|intros [?|[[= -> <-]|[]]]; auto].
Qed.

Lemma forward_bounds t p :
  0 < mBucketSizeNs (mConfig (vm_base p)) → getCurrentBucketEndTimeNs (vm_base p) <= t →
  let n := calcBucketsForwardCount t p in
  let size := mBucketSizeNs (mConfig (vm_base p)) in
  1 <= n ∧ getCurrentBucketEndTimeNs (vm_base p) + (n - 1) * size <= t
  ∧ t < getCurrentBucketEndTimeNs (vm_base p) + n * size.
Proof.
  intros Hs Ht. cbv zeta. unfold calcBucketsForwardCount. destruct (Z.ltb_spec t (getCurrentBucketEndTimeNs (vm_base p))); [lia|].
  rewrite Z.quot_div_nonneg by lia.
  pose proof (Z_div_mod_eq_full (t - getCurrentBucketEndTimeNs (vm_base p)) (mBucketSizeNs (mConfig (vm_base p)))).
  pose proof (Z.mod_pos_bound (t - getCurrentBucketEndTimeNs (vm_base p)) (mBucketSizeNs (mConfig (vm_base p))) Hs).
  pose proof (Z.div_pos (t - getCurrentBucketEndTimeNs (vm_base p)) (mBucketSizeNs (mConfig (vm_base p)))).
  nia.
Qed.

Lemma endOf_ledger p : endOf (ledger p) = getCurrentBucketEndTimeNs (vm_base p).
Proof. done. Qed.

(** A flush whose next bucket starts where [t] lies keeps the invariant. *)
Lemma flush_timeInv now since t next p :
  timeInv now since (ledger p) →
  lg_start (ledger p) <= closedAt t next p → closedAt t next p <= next → next <= t →
  next < endOf (ledger p) + calcBucketsForwardCount t p * mBucketSizeNs (mConfig (vm_base p)) →
  timeInv (Z.max now t) since (ledger (value_flushCurrentBucketLocked t next p)).
Proof.
  intros (Hs & He & Hn & Ha) H1 H2 H3 H4.
  destruct (flush_ledger t next p) as (Hcfg & _ & Hst & Hnum & _ & _ & skipped & Hp & Hk).
  unfold timeInv, endOf in *. rewrite Hcfg, Hst, Hnum. split_and!; [done| |lia|].
  - change (lg_config (ledger p)) with (mConfig (vm_base p)) in *. lia.
  - eapply accounted_step; [done|exact H1|by rewrite Hst|exact Hp|]. by rewrite Hst.
Qed.

Lemma forced_timeInv now since t p :
  timeInv now since (ledger p) → now <= t →
  timeInv (Z.max now t) since (ledger (value_flushCurrentBucketLocked t t p)).
Proof.
  intros Hi Ht. pose proof Hi as (Hs & He & Hn & _). rewrite endOf_ledger in He.
  apply flush_timeInv; try done; unfold closedAt; rewrite ?endOf_ledger.
  - destruct (multipleBucketsSkipped _ _), (Z.ltb_spec t (getCurrentBucketEndTimeNs (vm_base p))); lia.
  - destruct (multipleBucketsSkipped _ _), (Z.ltb_spec t (getCurrentBucketEndTimeNs (vm_base p))); lia.
  - destruct (Z.ltb_spec t (getCurrentBucketEndTimeNs (vm_base p))) as [Hlt|Hge].
    + unfold calcBucketsForwardCount. rewrite (proj2 (Z.ltb_lt _ _) Hlt). lia.
    + by apply forward_bounds.
Qed.

Lemma ifNeeded_timeInv now since t p :
  timeInv now since (ledger p) → timeInv (Z.max now t) since (ledger (value_flushIfNeededLocked t p)).
Proof.
  intros Hi. pose proof Hi as (Hs & He & Hn & Ha). unfold value_flushIfNeededLocked.
  destruct (Z.ltb_spec t (getCurrentBucketEndTimeNs (vm_base p))) as [Hlt|Hge].
  { unfold timeInv in *. split_and!; try done; lia. }
  destruct (forward_bounds t p Hs Hge) as (H1 & H2 & H3). cbv zeta in *. rewrite endOf_ledger in He.
  apply flush_timeInv; try done; unfold closedAt; rewrite ?endOf_ledger;
    change (lg_config (ledger p)) with (mConfig (vm_base p)) in *;
    try destruct (multipleBucketsSkipped _ _);
    try destruct (Z.ltb_spec t (getCurrentBucketEndTimeNs (vm_base p))); nia.
Qed.

(** ** The operations of the producer *)

Section operations.
Context (uninit : Z) {W : Type} `{!ConditionWizardOps W}.
Implicit Types (out : Outside W) (p : ValueMetricProducer).

Lemma keeps_accumulate eventKey event : keeps (accumulate uninit eventKey event).
Proof.
  intros p. unfold accumulate. destruct (accumulateFields _ _ _ _ _ _ _ _ _) as [[bs ivs] ok].
  cbv zeta. by destruct (ok && _).
Qed.

Lemma matched_pulled i key ck c e pk p :
  mIsPulled (vm_config p) = true →
  sameLedger p (value_onMatchedLogEventInternalLocked uninit i key ck c e pk p).
Proof.
  intros Hpull. unfold value_onMatchedLogEventInternalLocked. cbv zeta.
  destruct (match pk !! _ with Some _ => _ | None => _ end); [done|].
  destruct (_ <? _); [done|]. rewrite Hpull. cbn [negb andb orb].
  destruct (_ && _); [done|]. destruct (value_hitGuardRailLocked _ _); [done|].
  apply (keeps_accumulate key e (set_matched _ p)).
Qed.

Lemma sameLedger_trans p q r : sameLedger p q → sameLedger q r → sameLedger p r.
Proof. unfold sameLedger. intuition congruence. Qed.

Lemma sameLedger_pulled p q :
  sameLedger p q → mIsPulled (vm_config p) = true → mIsPulled (vm_config q) = true.
Proof. intros (Hl & _). unfold ledger in Hl. injection Hl as _ _ _ -> _ _. done. Qed.

Lemma accumulateAll_pulled out t l p :
  mIsPulled (vm_config p) = true → sameLedger p (accumulateAll uninit out t l p).
Proof.
  unfold accumulateAll. revert p. induction l as [|e l IH]; intros p Hp; [done|]. cbn [foldl].
  set (q := if bool_decide _ then _ else p).
  assert (sameLedger p q) as Hq.
  { subst q. destruct (bool_decide _); [|done]. unfold onMatchedLogEventLocked. cbv zeta.
    destruct (negb _); [done|]. destruct (_ <? _); [done|].
    destruct (filterValues _ _ _) as [b key]. by apply matched_pulled. }
  eapply sameLedger_trans; [exact Hq|]. apply IH. by eapply sameLedger_pulled.
Qed.

Lemma keeps_dropMissing : keeps dropMissing.
Proof.
  intros p. unfold dropMissing. apply keeps_foldl. intros [key l] q. cbv zeta.
  destruct (_ && _); [|done]. by destruct (um_find _ _).
Qed.

Lemma accumulateEvents_pulled out l t t' p :
  mIsPulled (vm_config p) = true → sameLedger p (accumulateEvents uninit out l t t' p).
Proof.
  intros Hp. unfold accumulateEvents. destruct (t' <? _); [done|]. destruct (_ <? _); [done|]. cbv zeta.
  set (q := accumulateAll _ _ _ _ _).
  assert (sameLedger p q) as Hq by (by apply (accumulateAll_pulled out t' l (set_matched [] p))).
  assert (sameLedger p (dropMissing q)) as Hd
    by (eapply sameLedger_trans; [exact Hq|apply keeps_dropMissing]).
  by destruct (hasReachedGuardRailLimit _).
Qed.

Lemma pull_pulled out t p :
  mIsPulled (vm_config p) = true → sameLedger p (pullAndMatchEventsLocked uninit out t p).
Proof.
  intros Hp. unfold pullAndMatchEventsLocked. destruct (Pull _ out t); [|done].
  by apply accumulateEvents_pulled.
Qed.

Lemma pullIfTrue_keeps out t p : sameLedger p (pullIfTrue uninit out t p).
Proof.
  unfold pullIfTrue. destruct (mIsPulled (vm_config p)) eqn:E; [|done].
  destruct (bool_decide _); [|done]. by apply pull_pulled.
Qed.

Lemma pullWhen_keeps out (b : bool) t p :
  sameLedger p (if mIsPulled (vm_config p) && b then pullAndMatchEventsLocked uninit out t p else p).
Proof.
  destruct (mIsPulled (vm_config p)) eqn:E; [|done]. destruct b; [|done]. by apply pull_pulled.
Qed.
End operations.

Lemma sameLedger_timeInv now since p q :
  sameLedger p q → timeInv now since (ledger p) → timeInv now since (ledger q).
Proof. by intros (-> & _). Qed.

Lemma timeInv_mono now now' since g : timeInv now since g → now <= now' → timeInv now' since g.
Proof. intros (? & ? & ? & ?) ?. split_and!; try done. lia. Qed.

(** ** The invariant, operation by operation *)

Section steps.
Context (uninit : Z) {W : Type} `{!ConditionWizardOps W} (out : Outside W) (now since : Z).
Implicit Types (p : ValueMetricProducer).

Lemma matched_timeInv i key ck c e pk p :
  timeInv now since (ledger p) →
  timeInv (Z.max now (GetElapsedTimestampNs e)) since
    (ledger (value_onMatchedLogEventInternalLocked uninit i key ck c e pk p)).
Proof using.
  intros Hi. destruct (mIsPulled (vm_config p)) eqn:Hpull.
  { eapply timeInv_mono; [|apply Z.le_max_l].
    eapply sameLedger_timeInv; [by apply matched_pulled|done]. }
  assert (Hm : timeInv (Z.max now (GetElapsedTimestampNs e)) since (ledger p))
    by (eapply timeInv_mono; [exact Hi|lia]).
  unfold value_onMatchedLogEventInternalLocked. cbv zeta.
  destruct (match pk !! _ with Some _ => _ | None => _ end); [done|].
  destruct (_ <? _); [done|]. rewrite Hpull. set (m := set_matched _ p).
  pose proof (ifNeeded_timeInv now since (GetElapsedTimestampNs e) m Hi) as Hf.
  destruct (_ || _); [done|]. destruct (value_hitGuardRailLocked _ _); [done|].
  eapply sameLedger_timeInv; [apply keeps_accumulate|done].
Qed.

Lemma onMatched_timeInv m w i e p :
  timeInv now since (ledger p) →
  timeInv (Z.max now (GetElapsedTimestampNs e)) since
    (ledger (onMatchedLogEventLocked (H := value_metric_ops uninit out) uninit m (w : W) i e p)).
Proof using.
  intros Hi.
  assert (Hm : timeInv (Z.max now (GetElapsedTimestampNs e)) since (ledger p))
    by (eapply timeInv_mono; [exact Hi|lia]).
  unfold onMatchedLogEventLocked. cbv zeta. destruct (negb _); [done|]. destruct (_ <? _); [done|].
  destruct (filterValues _ _ _) as [b key]. by apply matched_timeInv.
Qed.

Lemma forcedAfter_timeInv t p :
  timeInv now since (ledger p) → now <= t →
  timeInv (Z.max now t) since
    (ledger (value_flushCurrentBucketLocked t t (value_flushIfNeededLocked t p))).
Proof using.
  intros Hi Ht. replace (Z.max now t) with (Z.max (Z.max now t) t) by lia.
  apply forced_timeInv; [by apply ifNeeded_timeInv|lia].
Qed.

Lemma activeState_timeInv t p :
  timeInv now since (ledger p) → now <= t →
  timeInv (Z.max now t) since (ledger (value_onActiveStateChangedLocked uninit out t p)).
Proof using.
  intros Hi Ht. unfold value_onActiveStateChangedLocked. cbv zeta.
  set (p1 := if t <? _ then _ else p).
  assert (H1 : timeInv now since (ledger p1)) by (subst p1; by destruct (t <? _)). clearbody p1.
  set (p2 := base_onActiveStateChangedLocked _ _ _ t p1).
  assert (H2 : timeInv (Z.max now t) since (ledger p2)).
  { subst p2. unfold base_onActiveStateChangedLocked.
    destruct (mIsActive _); [by eapply timeInv_mono; [exact H1|lia]|by apply forcedAfter_timeInv]. }
  clearbody p2. destruct (negb (bool_decide _)); [done|].
  set (p3 := if t <? _ then p2 else _).
  assert (H3 : timeInv (Z.max now t) since (ledger p3)).
  { subst p3. destruct (t <? _); [done|]. set (q := if mIsPulled _ then _ else p2).
    assert (timeInv (Z.max now t) since (ledger q)).
    { subst q. destruct (mIsPulled (vm_config p2)) eqn:E; [|done].
      eapply sameLedger_timeInv; [by apply pull_pulled|done]. }
    by destruct (_ && _). }
  clearbody p3. change (timeInv (Z.max now t) since (ledger (value_flushIfNeededLocked t p3))).
  replace (Z.max now t) with (Z.max (Z.max now t) t) by lia. by apply ifNeeded_timeInv.
Qed.

Lemma condition_timeInv c t p :
  timeInv now since (ledger p) →
  timeInv (Z.max now t) since (ledger (value_onConditionChangedLocked uninit out c t p)).
Proof using.
  intros Hi. assert (Hm : timeInv (Z.max now t) since (ledger p)) by (eapply timeInv_mono; [exact Hi|lia]).
  unfold value_onConditionChangedLocked. cbv zeta. destruct (negb _); [done|]. destruct (t <? _); [done|].
  set (p1 := if bool_decide _ then _ else p).
  assert (H1 : timeInv now since (ledger p1)) by (subst p1; by destruct (bool_decide _)). clearbody p1.
  set (p2 := if mIsPulled _ && _ then _ else p1).
  assert (H2 : timeInv now since (ledger p2))
    by (eapply sameLedger_timeInv; [apply pullWhen_keeps|done]). clearbody p2.
  set (p3 := if _ && _ && _ then _ else p2).
  assert (H3 : timeInv now since (ledger p3)) by (subst p3; by destruct (_ && _ && _)). clearbody p3.
  apply (ifNeeded_timeInv now since t (set_value_condition (if c then kTrue else kFalse) p3)).
  exact H3.
Qed.

Lemma state_timeInv t atom key old new p :
  timeInv now since (ledger p) →
  timeInv (Z.max now t) since (ledger (value_onStateChanged uninit out t atom key old new p)).
Proof using.
  intros Hi. assert (Hm : timeInv (Z.max now t) since (ledger p)) by (eapply timeInv_mono; [exact Hi|lia]).
  unfold value_onStateChanged. cbv zeta. destruct (FieldValue_eqb _ _); [done|].
  destruct (_ || _); [done|]. destruct (t <? _); [done|].
  set (p1 := set_statePrimaryKey (atom, key) p). set (p2 := if mIsPulled _ then _ else p1).
  assert (H2 : timeInv now since (ledger p2)).
  { subst p2. destruct (mIsPulled (vm_config p1)) eqn:E; [|done].
    eapply sameLedger_timeInv; [by apply pull_pulled|done]. }
  by apply (ifNeeded_timeInv now since t (set_statePrimaryKey _ p2)).
Qed.

Lemma dataPulled_timeInv data t p :
  mIsPulled (vm_config p) = true → timeInv now since (ledger p) →
  timeInv (Z.max now t) since (ledger (onDataPulled uninit out data t p)).
Proof using.
  intros Hp Hi. unfold onDataPulled. cbv zeta. apply ifNeeded_timeInv.
  destruct (bool_decide _); [|done]. destruct data as [l|]; [|done].
  destruct (t <? _); (eapply sameLedger_timeInv; [by apply accumulateEvents_pulled|done]).
Qed.

Lemma splitWithPull_timeInv t p :
  timeInv now since (ledger p) → now <= t →
  timeInv (Z.max now t) since (ledger (value_flushCurrentBucketLocked t t (pullIfTrue uninit out t p))).
Proof using.
  intros Hi Ht. apply forced_timeInv; [|done]. eapply sameLedger_timeInv; [apply pullIfTrue_keeps|done].
Qed.

Lemma expire_timeInv t p :
  timeInv now since (ledger p) → now <= t →
  timeInv (Z.max now t) since (ledger (flushIfExpire (H := value_metric_ops uninit out) t p)).
Proof using.
  intros Hi Ht. assert (Hm : timeInv (Z.max now t) since (ledger p)) by (eapply timeInv_mono; [exact Hi|lia]).
  unfold flushIfExpire. destruct (negb _); [done|]. destruct (evaluateActiveStateLocked _ _) as [b a].
  destruct b; [done|]. by apply activeState_timeInv.
Qed.

Lemma activate_timeInv i t p :
  timeInv now since (ledger p) → now <= t →
  timeInv (Z.max now t) since (ledger (activateLocked (H := value_metric_ops uninit out) i t p)).
Proof using.
  intros Hi Ht. assert (Hm : timeInv (Z.max now t) since (ledger p)) by (eapply timeInv_mono; [exact Hi|lia]).
  unfold activateLocked. cbv zeta. destruct (_ !! i); [|done]. destruct (_ !! _); [|done].
  destruct (bool_decide _); [by destruct (bool_decide _)|]. destruct (mIsActive _); [done|].
  by apply activeState_timeInv.
Qed.

(** An emptied ledger is accounted for from the current bucket on. *)
Lemma erased_accounted p : accounted (lg_start (ledger p)) (ledger (set_vm_past [] [] p)).
Proof using.
  exists []. split_and!; [apply tiles_nil|done|]. intros s. unfold inPast. set_solver.
Qed.

Lemma dump_timeInv t include erase latency p :
  timeInv now since (ledger p) → now <= t →
  let '(r, q) := value_onDumpReportLocked uninit out t include erase latency p in
  timeInv (Z.max now t) (if erase then lg_start (ledger q) else since) (ledger q).
Proof using.
  intros Hi Ht. unfold value_onDumpReportLocked. set (p1 := if include then _ else p).
  assert (H1 : timeInv (Z.max now t) since (ledger p1)).
  { subst p1. destruct include; [|by eapply timeInv_mono; [exact Hi|lia]].
    apply forced_timeInv; [|done]. destruct (mIsPulled (vm_config p)) eqn:E; [|done].
    destruct (bool_decide _); [|done]. destruct latency; [done|].
    eapply sameLedger_timeInv; [by apply pull_pulled|done]. }
  clearbody p1. cbv zeta. destruct H1 as (Hs & He & Hn & Ha).
  destruct (vm_pastBuckets p1) as [|e past] eqn:Hp, (mSkippedBuckets p1) as [|k skipped] eqn:Hk;
    destruct erase; unfold timeInv; split_and!; try done; try apply (erased_accounted p1).
  exists []. split_and!; [apply tiles_nil|cbn; by rewrite Hk|]. intros s. cbn. rewrite Hp. unfold inPast. set_solver.
Qed.

Lemma drop_timeInv t p :
  timeInv now since (ledger p) →
  timeInv (Z.max now t) (lg_start (ledger (value_dropDataLocked t p))) (ledger (value_dropDataLocked t p)).
Proof using.
  intros Hi. destruct (ifNeeded_timeInv now since t p Hi) as (Hs & He & Hn & Ha).
  unfold timeInv. split_and!; try done. apply erased_accounted.
Qed.
End steps.

(** ** Runs *)

(** The operations other components call on the producer. *)
Inductive ValueOp :=
  | OpMatched (matcherIndex : nat) (event : LogEvent)
  | OpDataPulled (allData : option (list LogEvent)) (originalPullTimeNs : Z)
  | OpCondition (condition : bool) (t : Z)
  | OpState (t atomId : Z) (key : HashableDimensionKey) (oldState newState : FieldValue)
  | OpAppUpgrade (t : Z)
  | OpInitCompleted (t : Z)
  | OpFirstBucket (t : Z)
  | OpExpire (t : Z)
  | OpActivate (index t : Z)
  | OpCancel (index t : Z)
  | OpDump (t : Z) (include_current_partial_bucket erase_data : bool) (latency : DumpLatency)
  | OpDrop (t : Z).

Definition opTime (o : ValueOp) : Z :=
  match o with
  | OpMatched _ e => GetElapsedTimestampNs e
  | OpDataPulled _ t | OpCondition _ t | OpState t _ _ _ _ | OpAppUpgrade t | OpInitCompleted t
  | OpFirstBucket t | OpExpire t | OpActivate _ t | OpCancel _ t | OpDump t _ _ _ | OpDrop t => t
  end.

(** The operations that may split the current bucket. *)
Definition splits (o : ValueOp) : bool :=
  match o with
  | OpAppUpgrade _ | OpInitCompleted _ | OpExpire _ | OpActivate _ _ | OpDump _ _ _ _ => true
  | _ => false
  end.

Section runs.
Context (uninit : Z) {W : Type} `{!ConditionWizardOps W}.
Implicit Types (out : Outside W) (p : ValueMetricProducer).

(** One operation, with what the rest of the system answers during it; data are only pulled for a
    metric that registered for it. *)
Definition stepOp (out : Outside W) (o : ValueOp) (p : ValueMetricProducer) : ValueMetricProducer :=
  let ops := value_metric_ops uninit out in
  match o with
  | OpMatched i e => onMatchedLogEventLocked uninit (states _ out) (conditions _ out) i e p
  | OpDataPulled data t => if mIsPulled (vm_config p) then onDataPulled uninit out data t p else p
  | OpCondition c t => value_onConditionChangedLocked uninit out c t p
  | OpState t atom key old new => value_onStateChanged uninit out t atom key old new p
  | OpAppUpgrade t => value_notifyAppUpgrade uninit out t p
  | OpInitCompleted t => value_onStatsdInitCompleted uninit out t p
  | OpFirstBucket _ => prepareFirstBucketLocked uninit out p
  | OpExpire t => flushIfExpire t p
  | OpActivate i t => activateLocked i t p
  | OpCancel i _ => cancelEventActivationLocked i p
  | OpDump t include erase latency => (value_onDumpReportLocked uninit out t include erase latency p).2
  | OpDrop t => value_dropDataLocked t p
  end.

(** The time since which buckets were not erased. *)
Definition sinceAfter (o : ValueOp) (since : Z) (p : ValueMetricProducer) : Z :=
  match o with
  | OpDump _ _ true _ | OpDrop _ => mCurrentBucketStartTimeNs (vm_base p)
  | _ => since
  end.

Fixpoint runOps (l : list (Outside W * ValueOp)) (since : Z) (p : ValueMetricProducer)
    : Z * ValueMetricProducer :=
  match l with
  | [] => (since, p)
  | (out, o) :: l => let p := stepOp out o p in runOps l (sinceAfter o since p) p
  end.

(** No bucket is split at a time before that of an earlier operation; other operations may be late. *)
Fixpoint splitsInOrder (now : Z) (l : list (Outside W * ValueOp)) : Prop :=
  match l with
  | [] => True
  | (_, o) :: l => (splits o = true → now <= opTime o) ∧ splitsInOrder (Z.max now (opTime o)) l
  end.

Lemma step_timeInv out o now since p :
  timeInv now since (ledger p) → (splits o = true → now <= opTime o) →
  timeInv (Z.max now (opTime o)) (sinceAfter o since (stepOp out o p)) (ledger (stepOp out o p)).
Proof.
  intros Hi Hs.
  assert (Hm : timeInv (Z.max now (opTime o)) since (ledger p)) by (eapply timeInv_mono; [exact Hi|lia]).
  destruct o; cbn [stepOp sinceAfter opTime splits] in *.
  - by apply onMatched_timeInv.
  - destruct (mIsPulled (vm_config p)) eqn:E; [by apply dataPulled_timeInv|done].
  - by apply condition_timeInv.
  - by apply state_timeInv.
  - unfold value_notifyAppUpgrade. destruct (negb _); [done|]. apply splitWithPull_timeInv; auto.
  - apply splitWithPull_timeInv; auto.
  - eapply sameLedger_timeInv; [|done]. unfold prepareFirstBucketLocked.
    destruct (mIsActive _); [|done]. destruct (mIsPulled (vm_config p)) eqn:E; [|done].
    destruct (bool_decide _); [|done]. destruct (mUseDiff _); [|done]. by apply pull_pulled.
  - apply expire_timeInv; auto.
  - apply activate_timeInv; auto.
  - unfold cancelEventActivationLocked. by destruct (_ !! _).
  - pose proof (dump_timeInv uninit out now since t include_current_partial_bucket erase_data latency p Hi
      (Hs eq_refl)) as Hd.
    destruct (value_onDumpReportLocked _ _ _ _ _ _ _) as [r q]. by destruct erase_data.
  - by eapply drop_timeInv.
Qed.

Lemma run_timeInv l now since p :
  timeInv now since (ledger p) → splitsInOrder now l →
  let '(since', p') := runOps l since p in accounted since' (ledger p').
Proof.
  revert now since p. induction l as [|[out o] l IH]; intros now since p Hi Ho; cbn [runOps].
  - by destruct Hi as (_ & _ & _ & ?).
  - destruct Ho as [Ho1 Ho2]. eapply IH; [by apply step_timeInv|done].
Qed.
End runs.

(** ** The interface of metric producers *)

Section laws.
Context (uninit : Z) {W : Type} `{!ConditionWizardOps W} (out : Outside W).
Implicit Types (p : ValueMetricProducer).

Lemma flush_activity t next p : activity_of (value_flushCurrentBucketLocked t next p) = activity_of p.
Proof using. by destruct (flush_ledger t next p) as (_ & _ & _ & _ & ? & _). Qed.

Lemma flush_config t next p : vm_config (value_flushCurrentBucketLocked t next p) = vm_config p.
Proof using. by destruct (flush_ledger t next p) as (_ & ? & _). Qed.

Lemma ifNeeded_activity t p : activity_of (value_flushIfNeededLocked t p) = activity_of p.
Proof using. unfold value_flushIfNeededLocked. destruct (_ <? _); [done|]. apply flush_activity. Qed.

Lemma value_matched_activity i key ck c e pk p :
  activity_of (value_onMatchedLogEventInternalLocked uninit i key ck c e pk p) = activity_of p.
Proof using.
  unfold value_onMatchedLogEventInternalLocked. cbv zeta.
  destruct (match pk !! _ with Some _ => _ | None => _ end); [done|]. destruct (_ <? _); [done|].
  set (m := set_matched _ p). set (q := if mIsPulled _ then m else _).
  assert (Hq : activity_of q = activity_of p).
  { subst q. destruct (mIsPulled _); [done|]. by rewrite ifNeeded_activity. }
  destruct (_ || _); [done|]. destruct (value_hitGuardRailLocked _ _); [done|].
  by destruct (keeps_accumulate uninit key e q) as (_ & -> & _).
Qed.

Lemma value_active_activity t p :
  activity_of (value_onActiveStateChangedLocked uninit out t p) = activity_of p.
Proof using.
  unfold value_onActiveStateChangedLocked. cbv zeta. set (p1 := if t <? _ then _ else p).
  assert (H1 : activity_of p1 = activity_of p) by (subst p1; by destruct (t <? _)). clearbody p1.
  set (p2 := base_onActiveStateChangedLocked _ _ _ t p1).
  assert (H2 : activity_of p2 = activity_of p).
  { subst p2. unfold base_onActiveStateChangedLocked. destruct (mIsActive _); [done|].
    by rewrite flush_activity, ifNeeded_activity. }
  clearbody p2. destruct (negb (bool_decide _)); [done|].
  set (p3 := if t <? _ then p2 else _).
  assert (H3 : activity_of p3 = activity_of p).
  { subst p3. destruct (t <? _); [done|]. set (q := if mIsPulled _ then _ else p2).
    assert (activity_of q = activity_of p).
    { subst q. destruct (mIsPulled (vm_config p2)) eqn:E; [|done].
      by destruct (pull_pulled uninit out t p2 E) as (_ & -> & _). }
    by destruct (_ && _). }
  clearbody p3. transitivity (activity_of (value_flushIfNeededLocked t p3)); [done|].
  by rewrite ifNeeded_activity.
Qed.

#[export] Instance value_metric_laws : MetricLaws (H := value_metric_ops uninit out) ValueMetricProducer.
Proof using.
  split; [done|exact ifNeeded_activity|exact flush_activity|exact value_active_activity
         |exact value_matched_activity].
Qed.
End laws.

(** ** A new producer *)

Lemma new_timeInv limits uid metric ci cache wi tag tb start acts eam edm atoms groups :
  vmm_bucket metric ≠ Some TIME_UNIT_UNSPECIFIED →
  timeInv start start (ledger (ValueMetricProducer_new limits uid metric ci cache wi tag tb start acts
                                 eam edm atoms groups).1).
Proof.
  intros Hb. unfold ValueMetricProducer_new. cbv zeta.
  set (size := match vmm_bucket metric with Some u => _ | None => _ end * 1000000).
  assert (Hsize : 0 < size).
  { subst size. destruct (vmm_bucket metric) as [u|]; [|done]. unfold TimeUnitToBucketSizeInMillisGuardrailed.
    destruct u; try done; cbv zeta; destruct (_ && _); done. }
  clearbody size. set (cfg := mkProducerConfig _ _ _ _ _ _ _ _ _ _ _ _ _).
  set (b := MetricProducer_new _ _ _ _ _).
  set (p := mkValueMetric b _ _ _ _ _ _ _ _ _ _ _ _).
  set (q := set_vm_base (set_bucket (mCurrentBucketStartTimeNs b) _ b) p).
  assert (Hend : start < getCurrentBucketEndTimeNs (vm_base q)).
  { change (start < tb + (0 + calcBucketsForwardCount start p + 1) * size).
    destruct (Z.le_gt_cases (getCurrentBucketEndTimeNs (vm_base p)) start) as [Hge|Hlt].
    - destruct (forward_bounds start p Hsize Hge) as (_ & _ & Ht).
      change (start < tb + (0 + 1) * size + calcBucketsForwardCount start p * size) in Ht. lia.
    - unfold calcBucketsForwardCount. rewrite (proj2 (Z.ltb_lt _ _) Hlt).
      change (start < tb + (0 + 1) * size) in Hlt. lia. }
  unfold value_flushIfNeededLocked. rewrite (proj2 (Z.ltb_lt _ _) Hend).
  unfold timeInv. split_and!; [exact Hsize|exact Hend|cbn; lia|].
  exists []. split_and!; [apply tiles_nil|done|]. intros s. unfold inPast. cbn. set_solver.
Qed.

(** ** What an interval holds *)

(** What one integer value adds to a key whose base is [base]. *)
Definition contribution (cfg : ValueConfig) (globalBase : bool) (base : option Z) (v : Z) : list Z :=
  if negb (mUseDiff cfg) then [v]
  else
    match (match base with
           | Some x => Some x
           | None => if globalBase && mUseZeroDefaultBase cfg then Some 0 else None
           end) with
    | None => []
    | Some x =>
        match mValueDirection cfg with
        | INCREASING =>
            if x <=? v then [wrap64 (v - x)] else if mUseAbsoluteValueOnReset cfg then [v] else []
        | DECREASING =>
            if v <=? x then [wrap64 (x - v)] else if mUseAbsoluteValueOnReset cfg then [v] else []
        | _ => [wrap64 (v - x)]
        end
    end.

(** What a sequence of values adds: each value is compared with the one before. *)
Fixpoint contributions (cfg : ValueConfig) (globalBase : bool) (base : option Z) (vs : list Z) : list Z :=
  match vs with
  | [] => []
  | v :: vs => contribution cfg globalBase base v ++ contributions cfg globalBase (Some v) vs
  end.

(** [v] is the aggregate of a non-empty list. *)
Definition is_aggregate (agg : ValueAggregation) (ds : list Z) (v : Z) : Prop :=
  match agg with
  | VSUM | VAVG => v = wrap64 (sumZ ds)
  | VMIN => v ∈ ds ∧ ∀ d, d ∈ ds → v <= d
  | VMAX => v ∈ ds ∧ ∀ d, d ∈ ds → d <= v
  end.

Definition intervalIs (cfg : ValueConfig) (i : Interval) (ds : list Z) : Prop :=
  hasValue i = bool_decide (ds ≠ []) ∧ sampleSize i = Z.of_nat (length ds)
  ∧ (ds ≠ [] → ∃ v, iv_value i = VLONG v ∧ int64 v ∧ is_aggregate (vm_aggregation cfg) ds v).

Definition baseIs (cfg : ValueConfig) (b : BaseInfo) (base : option Z) : Prop :=
  mUseDiff cfg = true →
  match base with Some x => hasBase b = true ∧ bi_base b = VLONG x | None => hasBase b = false end.

Lemma wrap64_add a b : wrap64 (wrap64 a + b) = wrap64 (a + b).
Proof.
  unfold wrap64. f_equal.
  replace ((a + 2 ^ 63) mod 2 ^ 64 - 2 ^ 63 + b + 2 ^ 63) with ((a + 2 ^ 63) mod 2 ^ 64 + b) by lia.
  rewrite Zplus_mod_idemp_l. f_equal. lia.
Qed.

Lemma aggregate_snoc agg ds d v :
  ds ≠ [] → is_aggregate agg ds v →
  is_aggregate agg (ds ++ [d])
    match agg with VSUM | VAVG => wrap64 (v + d) | VMIN => Z.min d v | VMAX => Z.max d v end.
Proof.
  intros Hne. destruct agg; cbn.
  - intros ->. by rewrite sumZ_app, wrap64_add, sumZ_cons, Z.add_0_r.
  - intros [Hin Hle]. split.
    + destruct (Z.min_spec d v) as [[_ ->]|[_ ->]]; set_solver.
    + intros x [Hx| ->%list_elem_of_singleton]%elem_of_app; [specialize (Hle x Hx)|]; lia.
  - intros [Hin Hle]. split.
    + destruct (Z.max_spec d v) as [[_ ->]|[_ ->]]; set_solver.
    + intros x [Hx| ->%list_elem_of_singleton]%elem_of_app; [specialize (Hle x Hx)|]; lia.
  - intros ->. by rewrite sumZ_app, wrap64_add, sumZ_cons, Z.add_0_r.
Qed.

Lemma aggregate_first agg d : int64 d → is_aggregate agg [d] d.
Proof.
  intros Hd. destruct agg; cbn; rewrite ?Z.add_0_r, ?wrap64_id by done; try done;
    (split; [set_solver|]; intros x ->%list_elem_of_singleton; lia).
Qed.

Lemma intervalIs_aggregate cfg i ds d :
  intervalIs cfg i ds → int64 d → intervalIs cfg (aggregate cfg (VLONG d) i) (ds ++ [d]).
Proof.
  intros (Hh & Hs & Hv) Hd. unfold intervalIs, aggregate. cbn [hasValue sampleSize iv_value].
  rewrite Hh, Hs, length_app. split_and!.
  - by rewrite bool_decide_true by (by destruct ds).
  - cbn. lia.
  - intros _. destruct ds as [|d0 ds].
    + rewrite bool_decide_false by naive_solver. exists d. split_and!; [done|done|by apply aggregate_first].
    + rewrite bool_decide_true by done. destruct Hv as (v & -> & Hr & Ha); [done|].
      eexists. split; [|split; [|apply aggregate_snoc; [done|exact Ha]]];
        destruct (vm_aggregation cfg); cbn; auto with statsd; unfold Value_min, Value_max; cbn;
        unfold int64 in *; try lia.
      * destruct (Z.ltb_spec v d); f_equal; lia.
      * destruct (Z.ltb_spec d v); f_equal; lia.
Qed.

(** ** A value of an event *)

Section field.
Context (cfg : ValueConfig) (globalBase : bool) (st : HashableDimensionKey).
Context (Hdir : mValueDirection cfg ≠ DIRECTION_UNKNOWN).

Lemma intervalIs_index k i ds seen :
  intervalIs cfg i ds → intervalIs cfg (mkInterval k (iv_value i) (sampleSize i) (hasValue i) seen) ds.
Proof using. done. Qed.

Lemma diffOf_contribution v x i ds :
  mUseDiff cfg = true → int64 v → intervalIs cfg i ds →
  match diffOf cfg (VLONG v) (VLONG x) with
  | None => contribution cfg globalBase (Some x) v = []
  | Some d => intervalIs cfg (aggregate cfg d i) (ds ++ contribution cfg globalBase (Some x) v)
  end.
Proof using Hdir.
  intros Hd Hv Hi. unfold diffOf, contribution. rewrite Hd. cbn [negb].
  destruct (mValueDirection cfg); [done| | |]; cbn [Value_geb Value_minus].
  - destruct (x <=? v); [by apply intervalIs_aggregate; auto with statsd|].
    destruct (mUseAbsoluteValueOnReset cfg); [by apply intervalIs_aggregate|done].
  - destruct (v <=? x); [by apply intervalIs_aggregate; auto with statsd|].
    destruct (mUseAbsoluteValueOnReset cfg); [by apply intervalIs_aggregate|done].
  - by apply intervalIs_aggregate; auto with statsd.
Qed.

Lemma accumulateField_long k m values v b i base ds :
  getDoubleOrLong m values = Some (VLONG v) → int64 v → baseIs cfg b base → intervalIs cfg i ds →
  ∃ b' i' ok,
    accumulateField cfg globalBase k m st values b i = (b', i', Some ok)
    ∧ baseIs cfg b' (Some v) ∧ intervalIs cfg i' (ds ++ contribution cfg globalBase base v)
    ∧ currentState b' = st ∧ hasCurrentState b' = true ∧ seenNewData i' = true.
Proof using Hdir.
  intros Hv Hr Hb Hi. unfold accumulateField. rewrite Hv. cbn [hasBase bi_base].
  pose proof (intervalIs_index k i ds true Hi) as Hi'.
  destruct (mUseDiff cfg) eqn:Hd; cbn [negb].
  - specialize (Hb Hd).
    set (base' := if hasBase b then _ else _).
    assert (Hc : match base' with
      | None => contribution cfg globalBase base v = []
      | Some w => ∃ x, w = VLONG x ∧ contribution cfg globalBase base v = contribution cfg globalBase (Some x) v
      end).
    { subst base'. unfold contribution. rewrite Hd. destruct base as [x|].
      - destruct Hb as [-> ->]. by exists x.
      - rewrite Hb. destruct (globalBase && _); [|done]. by exists 0. }
    destruct base' as [w|].
    + destruct Hc as (x & -> & ->).
      pose proof (diffOf_contribution v x _ ds Hd Hr Hi') as Hdiff.
      destruct (diffOf cfg (VLONG v) (VLONG x)) as [d|].
      * eexists _, _, _. split; [done|]. split_and!; [done|exact Hdiff|done..].
      * rewrite Hdiff, app_nil_r. eexists _, _, _. split; [done|]. split_and!; done.
    + rewrite Hc, app_nil_r. eexists _, _, _. split; [done|]. split_and!; done.
  - eexists _, _, _. split; [done|]. split_and!; try done; [by intros; congruence|].
    unfold contribution. rewrite Hd. by apply intervalIs_aggregate.
Qed.
End field.

(** ** The events of a key *)

Section key.
Context (uninit : Z) (key : MetricDimensionKey) (m : Matcher).
Context (Hwhat : mDimensionKeyInWhat key =k mDimensionKeyInWhat key) (Hkey : key =k key).
Implicit Types (p : ValueMetricProducer).

(** The key has the base [base], in its present state, and its interval holds [ds]. *)
Definition holds (p : ValueMetricProducer) (base : option Z) (ds : list Z) : Prop :=
  (∃ b, um_find (mDimensionKeyInWhat key) (mCurrentBaseInfo p) = Some [b]
        ∧ hasCurrentState b = true ∧ currentState b = mStateValuesKey key ∧ baseIs (vm_config p) b base)
  ∧ ∃ i, (um_find key (mCurrentSlicedBucket p) = Some [i]
          ∨ um_find key (mCurrentSlicedBucket p) = None ∧ i = Interval_new)
         ∧ intervalIs (vm_config p) i ds.

(** What the events of the key see of the producer. *)
Definition settings (p : ValueMetricProducer) : ValueConfig * bool := (vm_config p, mHasGlobalBase p).

Lemma accumulate_holds e v p base ds :
  mFieldMatchers (vm_config p) = [m] → mValueDirection (vm_config p) ≠ DIRECTION_UNKNOWN →
  getDoubleOrLong m (getValues e) = Some (VLONG v) → int64 v → holds p base ds →
  settings (accumulate uninit key e p) = settings p
  ∧ holds (accumulate uninit key e p) (Some v)
      (ds ++ contribution (vm_config p) (mHasGlobalBase p) base v).
Proof using Hwhat Hkey.
  intros Hm Hdir Hv Hr ((b & Hb & Hbs & Hst & Hbase) & i & Hi & Hint).
  unfold accumulate. rewrite Hm. cbn [length]. unfold um_get. rewrite Hb. change (default [] (Some [b])) with [b].
  assert (Hgrow : grow 1 Interval_new (default [] (um_find key (mCurrentSlicedBucket p))) = [i]).
  { by destruct Hi as [->|[-> ->]]. }
  change (grow 1 BaseInfo_new [b]) with [b]. rewrite list_fmap_singleton.
  replace (initState uninit (mConfig (vm_base p)) b) with b by (unfold initState; by rewrite Hbs).
  cbn [head from_option].
  assert (Hk : mkMetricKey (mDimensionKeyInWhat key) (currentState b) = key).
  { rewrite Hst. by destruct key. }
  rewrite Hk. cbv zeta. rewrite Hgrow. cbn [accumulateFields].
  destruct (accumulateField_long (vm_config p) (mHasGlobalBase p) (mStateValuesKey key) Hdir 0 m
    (getValues e) v b i base ds Hv Hr Hbase Hint) as (b' & i' & ok & -> & Hb' & Hi' & Hs' & Hh' & _).
  cbv iota. set (q := set_baseInfo _ _ _).
  assert (Hq : settings q = settings p ∧ holds q (Some v) (ds ++ contribution (vm_config p) (mHasGlobalBase p) base v)).
  { split; [done|]. split.
    - exists b'. split_and!; try done. apply um_find_set_eq, Hwhat.
    - exists i'. split; [left; apply um_find_set_eq, Hkey|done]. }
  clearbody q. by destruct (_ && _).
Qed.

Lemma accumulate_fold evs vs p base ds :
  mFieldMatchers (vm_config p) = [m] → mValueDirection (vm_config p) ≠ DIRECTION_UNKNOWN →
  Forall2 (λ e v, getDoubleOrLong m (getValues e) = Some (VLONG v) ∧ int64 v) evs vs →
  holds p base ds →
  let p' := foldl (λ p e, accumulate uninit key e p) p evs in
  settings p' = settings p
  ∧ holds p' (match last vs with Some v => Some v | None => base end)
      (ds ++ contributions (vm_config p) (mHasGlobalBase p) base vs).
Proof using Hwhat Hkey.
  intros Hm Hdir Hall. revert p base ds Hm Hdir. induction Hall as [|e v evs vs [Hv Hr] Hall IH];
    intros p base ds Hm Hdir Hh; cbn [foldl contributions].
  { rewrite app_nil_r. by split. }
  destruct (accumulate_holds e v p base ds Hm Hdir Hv Hr Hh) as [Hset Hh'].
  set (q := accumulate uninit key e p) in *. unfold settings in Hset. injection Hset as Hc Hg.
  destruct (IH q (Some v) _ (eq_trans (f_equal mFieldMatchers Hc) Hm) ltac:(by rewrite Hc) Hh') as [Hs Hh''].
  cbv zeta in *. split; [rewrite Hs; unfold settings; by rewrite Hc, Hg|].
  rewrite Hc, Hg, <- app_assoc in Hh''.
  replace (last (v :: vs)) with (match last vs with Some x => Some x | None => Some v end); [by destruct (last vs)|].
  clear. destruct vs as [|w vs]; [done|]. cbn [last]. by destruct (last (w :: vs)) eqn:E; [|apply last_None in E].
Qed.
End key.

Lemma contributions_telescope cfg globalBase x vs :
  mUseDiff cfg = true →
  mValueDirection cfg = ANY_DIRECTION ∨ (mValueDirection cfg = INCREASING ∧ Sorted Z.le (x :: vs)) →
  length (contributions cfg globalBase (Some x) vs) = length vs
  ∧ wrap64 (sumZ (contributions cfg globalBase (Some x) vs)) = wrap64 (default x (last vs) - x).
Proof.
  intros Hd. revert x. induction vs as [|v vs IH]; intros x Hdir; cbn [contributions].
  { cbn. by rewrite Z.sub_diag. }
  assert (Hone : contribution cfg globalBase (Some x) v = [wrap64 (v - x)]).
  { unfold contribution. rewrite Hd. cbn [negb]. destruct Hdir as [->|[-> Hs]]; [done|].
    apply Sorted_inv in Hs as [_ Hle]. inversion Hle as [|? ? Hxv]; subst.
    by rewrite (proj2 (Z.leb_le _ _) Hxv). }
  destruct (IH v) as [Hl Hsum].
  { destruct Hdir as [->|[-> Hs]]; [by left|]. right. split; [done|]. by apply Sorted_inv in Hs as [? _]. }
  rewrite Hone. cbn [app length]. split; [by rewrite Hl|].
  rewrite sumZ_cons, wrap64_add, Z.add_comm, <- wrap64_add, Hsum, wrap64_add. f_equal.
  replace (last (v :: vs)) with (Some (default v (last vs))); [cbn; lia|].
  clear. destruct vs as [|w vs]; [done|]. change (last (v :: w :: vs)) with (last (w :: vs)).
  destruct (last (w :: vs)) eqn:E; [done|]. by apply last_None in E.
Qed.

(** ** Theorems *)


(** The interval of a key holds the aggregate of its values.  For the integer values [vs] of
    successive events of a key in one state, the interval has as many samples as there are
    contributions (the values, or their differences to the previous value in the direction of the
    metric, with resets and missing bases as configured), its value is their sum modulo [2^64], their
    minimum or their maximum, and the last value is the new base. *)
Theorem value_interval_aggregates uninit key m evs vs p base :
  mDimensionKeyInWhat key =k mDimensionKeyInWhat key → key =k key →
  mFieldMatchers (vm_config p) = [m] → mValueDirection (vm_config p) ≠ DIRECTION_UNKNOWN →
  Forall2 (λ e v, getDoubleOrLong m (getValues e) = Some (VLONG v) ∧ int64 v) evs vs →
  holds key p base [] →
  holds key (foldl (λ p e, accumulate uninit key e p) p evs)
    (match last vs with Some v => Some v | None => base end)
    (contributions (vm_config p) (mHasGlobalBase p) base vs).
Proof. intros Hw Hk Hm Hdir Hall Hh. by apply (accumulate_fold uninit key m Hw Hk evs vs p base []). Qed.

(** The differences of a key add up to the difference of the last value and the base: a summed
    metric of differences, in any direction or of values that never decrease, reports exactly how much
    the value moved in the bucket, modulo [2^64], however often it was sampled. *)
Theorem value_differences_telescope uninit key m evs vs v p x :
  mDimensionKeyInWhat key =k mDimensionKeyInWhat key → key =k key →
  mFieldMatchers (vm_config p) = [m] → mUseDiff (vm_config p) = true →
  vm_aggregation (vm_config p) = VSUM →
  mValueDirection (vm_config p) = ANY_DIRECTION
    ∨ (mValueDirection (vm_config p) = INCREASING ∧ Sorted Z.le (x :: vs)) →
  Forall2 (λ e v, getDoubleOrLong m (getValues e) = Some (VLONG v) ∧ int64 v) evs vs →
  last vs = Some v → holds key p (Some x) [] →
  ∃ i, um_find key (mCurrentSlicedBucket (foldl (λ p e, accumulate uninit key e p) p evs)) = Some [i]
    ∧ hasValue i = true ∧ iv_value i = VLONG (wrap64 (v - x)).
Proof.
  intros Hw Hk Hm Hd Hagg Hdir Hall Hlast Hh.
  assert (Hdir' : mValueDirection (vm_config p) ≠ DIRECTION_UNKNOWN) by naive_solver congruence.
  destruct (accumulate_fold uninit key m Hw Hk evs vs p (Some x) [] Hm Hdir' Hall Hh)
    as [Hset [_ (i & Hi & Hhas & _ & Hval)]].
  destruct (contributions_telescope (vm_config p) (mHasGlobalBase p) x vs Hd Hdir) as [Hl Hsum].
  cbn [app] in *. unfold settings in Hset. injection Hset as Hc _.
  assert (Hne : contributions (vm_config p) (mHasGlobalBase p) (Some x) vs ≠ []).
  { intros He. rewrite He in Hl. by destruct vs. }
  rewrite bool_decide_true in Hhas by done. destruct (Hval Hne) as (w & Hw' & _ & Ha).
  rewrite Hc, Hagg in Ha. cbn in Ha. rewrite Hsum, Hlast in Ha. cbn in Ha. subst w.
  exists i. destruct Hi as [Hi|[_ ->]]; [done|]. done.
Qed.

(** A double value is lost under the default base of zero.  The constant meant as the zero of
    doubles is a 64-bit integer, so the first difference of a key without a base has no type, it is
    kept as the value of the interval, later values are not added to it, and the report carries no
    number for it. *)
Theorem zero_default_base_loses_doubles cfg k m st values f b i :
  mUseDiff cfg = true → mUseZeroDefaultBase cfg = true → vm_aggregation cfg = VSUM →
  mValueDirection cfg = INCREASING ∨ mValueDirection cfg = ANY_DIRECTION →
  getDoubleOrLong m values = Some (VDOUBLE f) → hasBase b = false → hasValue i = false →
  let '(b', i', ok) := accumulateField cfg true k m st values b i in
  ok = Some true ∧ hasValue i' = true ∧ reportedValue cfg i' = VUNKNOWN
  ∧ (∀ d, reportedValue cfg (aggregate cfg d i') = VUNKNOWN)
  ∧ valueInfo k (reportedValue cfg i') = NoValue k.
Proof.
  intros Hd Hz Hagg Hdir Hv Hb Hi. unfold accumulateField. rewrite Hv, Hd, Hz. cbn [negb hasBase bi_base]. rewrite Hb.
  cbn [andb]. assert (diffOf cfg (VDOUBLE f) ZERO_DOUBLE = Some VUNKNOWN) as ->.
  { unfold diffOf. by destruct Hdir as [-> | ->]. }
  unfold aggregate, reportedValue. cbn [hasValue iv_value]. rewrite Hi, Hagg. done.
Qed.

(** ** Instances of the theorems *)

(** A pulled metric of hourly buckets that sums the differences of the first field of atom 10. *)
Definition example_value_metric : ValueMetric :=
  mkValueMetricMessage 1 (mkFieldMatcher 10 None [mkFieldMatcher 1 None []]) None (Some ONE_HOUR) [] []
    VSUM 0 false None INCREASING false false 0 true.

Definition example_value_producer : ValueMetricProducer :=
  (ValueMetricProducer_new ∅ 1000 example_value_metric (-1) [] 0 10 0 5 ∅ ∅ ∅ [] ∅).1.

Definition example_value_matcher : Matcher :=
  default (mkMatcher (mkField 0 0) 0) (head (mFieldMatchers (vm_config example_value_producer))).

Definition example_value_event (t v : Z) : LogEvent :=
  mkLogEvent 10 1000 t [mkFieldValue (mkField 10 0x10000) (VLONG v) Annotations_new] (-1) (-1) false.

(** The atom answers [v] to every pull. *)
Definition example_outside (v : Z) : Outside (list ConditionTracker) :=
  mkOutside _ (λ t, Some [example_value_event t v]) 5 (λ _, kMatched) StateManager_new [].

(** A first pull, an app upgrade in the hour, a failed pull at the end of the hour, a pull two hours
    later. *)
Definition example_value_ops : list (Outside (list ConditionTracker) * ValueOp) :=
  [(example_outside 7, OpFirstBucket 5); (example_outside 9, OpAppUpgrade 20);
   (example_outside 9, OpDataPulled None 3600000000000);
   (example_outside 12, OpDataPulled (Some [example_value_event 7300000000000 12]) 10900000000000)].


(** The producer once the key has the base 5. *)
Definition example_value_based : ValueMetricProducer :=
  set_baseInfo [(mkKey [], [mkBaseInfo (VLONG 5) true (mkKey []) true])] true example_value_producer.

Lemma example_holds : holds (mkMetricKey (mkKey []) (mkKey [])) example_value_based (Some 5) [].
Proof. split; [eexists; split; [reflexivity|done]|]. exists Interval_new. split; [by right|done]. Qed.

Lemma value_interval_aggregates_witness :
  holds (mkMetricKey (mkKey []) (mkKey []))
    (foldl (λ p e, accumulate 0 (mkMetricKey (mkKey []) (mkKey [])) e p) example_value_based
       [example_value_event 6 8; example_value_event 7 3; example_value_event 8 10])
    (Some 10) [3; 7].
Proof.
  apply (value_interval_aggregates 0 (mkMetricKey (mkKey []) (mkKey [])) example_value_matcher _ [8; 3; 10]
    example_value_based (Some 5)); [reflexivity|reflexivity|reflexivity|done| |exact example_holds].
  repeat (constructor; [split; [reflexivity|done]|]). constructor.
Defined.

Lemma value_differences_telescope_witness :
  ∃ i, um_find (mkMetricKey (mkKey []) (mkKey [])) (mCurrentSlicedBucket
         (foldl (λ p e, accumulate 0 (mkMetricKey (mkKey []) (mkKey [])) e p) example_value_based
            [example_value_event 6 8; example_value_event 7 9; example_value_event 8 12])) = Some [i]
    ∧ hasValue i = true ∧ iv_value i = VLONG 7.
Proof.
  apply (value_differences_telescope 0 (mkMetricKey (mkKey []) (mkKey [])) example_value_matcher _ [8; 9; 12] 12
    example_value_based 5); try reflexivity; [right; split; [reflexivity|]| |exact example_holds].
  - repeat constructor; lia.
  - repeat (constructor; [split; [reflexivity|done]|]). constructor.
Defined.

Lemma zero_default_base_loses_doubles_witness :
  let cfg := mkValueConfig [example_value_matcher] 0 true 0 500 800 false VSUM true INCREASING false true 0 true in
  let '(b', i', ok) := accumulateField cfg true 0 example_value_matcher (mkKey [])
    [mkFieldValue (mkField 10 0x10000) (VDOUBLE (S754_finite false 1 3)) Annotations_new]
    BaseInfo_new Interval_new in
  ok = Some true ∧ hasValue i' = true ∧ reportedValue cfg i' = VUNKNOWN
  ∧ (∀ d, reportedValue cfg (aggregate cfg d i') = VUNKNOWN)
  ∧ valueInfo 0 (reportedValue cfg i') = NoValue 0.
Proof. eapply zero_default_base_loses_doubles; try reflexivity. by left. Defined.
