(* ===== verification/DurationMetric.v ===== *)
(** * The duration metric (metrics/DurationMetricProducer.{h,cpp})

    A duration metric owns one duration tracker per dimension key, created by the first start event
    of the key and removed by a flush once nothing is started.  The trackers are reached through
    their common base class ([AnyTracker]) and share the anomaly trackers of the metric
    ([AnomalyEnv]).  The handler of an event returns [None] where the code dereferences the end
    iterator of the map of trackers. *)
From Stdlib Require Import SpecFloat.
From S2P Require Import Prelude UMap FieldValue DimensionKey Matchers Conditions.
From S2P Require Import PriorityQueue Alarms Anomaly State MetricProducer CountMetric DurationTrackers.

(** The DurationMetric message. *)
Inductive AggregationType := SUM | MAX_SPARSE.

Record DurationMetric := mkDurationMetricMessage {
  dur_id : Z;
  dur_aggregation : AggregationType;
  dur_bucket : option TimeUnit;
  dur_dimensions_in_what : option FieldMatcher;
  dur_links : list MetricConditionLink;
  dur_state_link : list MetricStateLink
}.

(** ** The trackers behind their base class *)

Inductive AnyTracker := SumTracker (o : OringDurationTracker) | MaxTracker (x : MaxDurationTracker).

Definition dispatch (f : OringDurationTracker * AnomalyEnv → OringDurationTracker * AnomalyEnv)
    (g : MaxDurationTracker * AnomalyEnv → MaxDurationTracker * AnomalyEnv)
    (s : AnyTracker * AnomalyEnv) : AnyTracker * AnomalyEnv :=
  match s with
  | (SumTracker o, env) => let '(o, env) := f (o, env) in (SumTracker o, env)
  | (MaxTracker x, env) => let '(x, env) := g (x, env) in (MaxTracker x, env)
  end.

Definition noteStart (key : HashableDimensionKey) (condition : bool) (eventTime : Z)
    (conditionKey : ConditionKey) : AnyTracker * AnomalyEnv → AnyTracker * AnomalyEnv :=
  dispatch (oring_noteStart key condition eventTime conditionKey)
    (max_noteStart key condition eventTime conditionKey).
Definition noteStop (key : HashableDimensionKey) (eventTime : Z) (stopAll : bool)
    : AnyTracker * AnomalyEnv → AnyTracker * AnomalyEnv :=
  dispatch (oring_noteStop key eventTime stopAll) (max_noteStop key eventTime stopAll).
Definition noteStopAll (eventTime : Z) : AnyTracker * AnomalyEnv → AnyTracker * AnomalyEnv :=
  dispatch (oring_noteStopAll eventTime) (max_noteStopAll eventTime).
Definition onConditionChanged (condition : bool) (timestamp : Z)
    : AnyTracker * AnomalyEnv → AnyTracker * AnomalyEnv :=
  dispatch (oring_onConditionChanged condition timestamp) (max_onConditionChanged condition timestamp).
Definition onSlicedConditionMayChange (wizard : list ConditionTracker) (overallCondition : bool)
    (timestamp : Z) : AnyTracker * AnomalyEnv → AnyTracker * AnomalyEnv :=
  dispatch (oring_onSlicedConditionMayChange wizard overallCondition timestamp)
    (max_onSlicedConditionMayChange wizard overallCondition timestamp).
(** [MaxDurationTracker] only logs an error on a state change. *)
Definition onStateChanged (timestamp atomId : Z) (newState : FieldValue)
    : AnyTracker * AnomalyEnv → AnyTracker * AnomalyEnv :=
  dispatch (λ s, (oring_onStateChanged timestamp atomId newState s.1, s.2)) id.
Definition flushCurrentBucket (eventTimeNs : Z) (output : DurationOutput) (s : AnyTracker * AnomalyEnv)
    : bool * DurationOutput * (AnyTracker * AnomalyEnv) :=
  match s with
  | (SumTracker o, env) =>
      let '(b, output, (o, env)) := oring_flushCurrentBucket eventTimeNs output (o, env) in
      (b, output, (SumTracker o, env))
  | (MaxTracker x, env) =>
      let '(b, output, (x, env)) := max_flushCurrentBucket eventTimeNs output (x, env) in
      (b, output, (MaxTracker x, env))
  end.

(** ** The producer *)

Record DurationConfig := mkDurationConfig {
  mAggregationType : AggregationType;
  mStartIndex : Z;
  mStopIndex : Z;
  mStopAllIndex : Z;
  dm_nested : bool;
  mInternalDimensions : list Matcher;
  mUseWhatDimensionAsInternalDimension : bool;
  dm_valid : bool
}.

Abbreviation TrackerMap := (umap HashableDimensionKey AnyTracker).

Record DurationMetricProducer := mkDurationMetric {
  dm_base : MetricProducer;
  dm_config : DurationConfig;
  dm_unSlicedPartCondition : ConditionState;
  dm_pastBuckets : DurationOutput;
  mCurrentSlicedDurationTrackerMap : TrackerMap;
  dm_anomaly : AnomalyEnv
}.

Definition set_dm_base (b : MetricProducer) (p : DurationMetricProducer) : DurationMetricProducer :=
  mkDurationMetric b (dm_config p) (dm_unSlicedPartCondition p) (dm_pastBuckets p)
    (mCurrentSlicedDurationTrackerMap p) (dm_anomaly p).
Definition set_unSliced (c : ConditionState) (p : DurationMetricProducer) : DurationMetricProducer :=
  mkDurationMetric (dm_base p) (dm_config p) c (dm_pastBuckets p)
    (mCurrentSlicedDurationTrackerMap p) (dm_anomaly p).
Definition set_dm_past (m : DurationOutput) (p : DurationMetricProducer) : DurationMetricProducer :=
  mkDurationMetric (dm_base p) (dm_config p) (dm_unSlicedPartCondition p) m
    (mCurrentSlicedDurationTrackerMap p) (dm_anomaly p).
Definition set_trackers (m : TrackerMap) (env : AnomalyEnv) (p : DurationMetricProducer)
    : DurationMetricProducer :=
  mkDurationMetric (dm_base p) (dm_config p) (dm_unSlicedPartCondition p) (dm_pastBuckets p) m env.

(** A loop over the map of trackers. *)
Fixpoint forEach (f : HashableDimensionKey → AnyTracker * AnomalyEnv → AnyTracker * AnomalyEnv)
    (m : TrackerMap) (env : AnomalyEnv) : TrackerMap * AnomalyEnv :=
  match m with
  | [] => ([], env)
  | (key, tracker) :: m =>
      let '(tracker, env) := f key (tracker, env) in
      let '(m, env) := forEach f m env in
      ((key, tracker) :: m, env)
  end.

Definition forTrackers (f : HashableDimensionKey → AnyTracker * AnomalyEnv → AnyTracker * AnomalyEnv)
    (p : DurationMetricProducer) : DurationMetricProducer :=
  let '(m, env) := forEach f (mCurrentSlicedDurationTrackerMap p) (dm_anomaly p) in
  set_trackers m env p.

(** ** Flushing *)

(** The loop of [flushCurrentBucketLocked], which erases the trackers with nothing started. *)
Fixpoint flushTrackers (eventTimeNs : Z) (m : TrackerMap) (output : DurationOutput) (env : AnomalyEnv)
    : TrackerMap * DurationOutput * AnomalyEnv :=
  match m with
  | [] => ([], output, env)
  | (key, tracker) :: m =>
      let '(erase, output, (tracker, env)) := flushCurrentBucket eventTimeNs output (tracker, env) in
      let '(m, output, env) := flushTrackers eventTimeNs m output env in
      (if erase then m else (key, tracker) :: m, output, env)
  end.

Definition duration_flushCurrentBucketLocked (eventTimeNs nextBucketStartTimeNs : Z)
    (p : DurationMetricProducer) : DurationMetricProducer :=
  let '(m, output, env) :=
    flushTrackers eventTimeNs (mCurrentSlicedDurationTrackerMap p) (dm_pastBuckets p) (dm_anomaly p) in
  let b := dm_base p in
  mkDurationMetric (set_bucket nextBucketStartTimeNs (mCurrentBucketNum b) b) (dm_config p)
    (dm_unSlicedPartCondition p) output m env.

(** The number of buckets is kept in an [int]. *)
Definition duration_flushIfNeededLocked (eventTimeNs : Z) (p : DurationMetricProducer)
    : DurationMetricProducer :=
  let currentBucketEndTimeNs := getCurrentBucketEndTimeNs (dm_base p) in
  if eventTimeNs <? currentBucketEndTimeNs then p
  else
    let size := mBucketSizeNs (mConfig (dm_base p)) in
    let numBucketsForward := wrap32 (1 + Z.quot (eventTimeNs - currentBucketEndTimeNs) size) in
    let nextBucketNs := currentBucketEndTimeNs + (numBucketsForward - 1) * size in
    let p := duration_flushCurrentBucketLocked eventTimeNs nextBucketNs p in
    let b := dm_base p in
    set_dm_base
      (set_bucket (mCurrentBucketStartTimeNs b) (mCurrentBucketNum b + numBucketsForward) b) p.

(** ** Conditions *)

Section wizard.
Context (wizard : list ConditionTracker).

Definition IsSimpleCondition (index : Z) : bool :=
  if (0 <=? index) && (index <? Z.of_nat (length wizard)) then
    match wizard !! Z.to_nat index with Some (SimpleCondition _) => true | _ => false end
  else false.

(** A simple condition never writes the member of its base class.  An index outside the vector of
    trackers reads past it; the callers have checked the index. *)
Definition getUnSlicedPartConditionState (index : Z) : ConditionState :=
  match wizard !! Z.to_nat index with
  | Some (SimpleCondition _) => kUnknown
  | Some (CombinationCondition t) => Conditions.mUnSlicedPartCondition t
  | None => kUnknown
  end.

(** The fuel of the queries through the tree of conditions is above its depth. *)
Definition wizardFuel : nat := S (length wizard).

Definition linkedConditionKey (p : DurationMetricProducer) (whatKey : HashableDimensionKey)
    : HashableDimensionKey :=
  match mMetric2ConditionLinks (mConfig (dm_base p)) with
  | link :: _ => getDimensionForCondition (mValues whatKey) link (mkKey [])
  | [] => mkKey []
  end.

Definition onSlicedConditionMayChangeLocked_opt1 (condition : bool) (eventTime : Z)
    (p : DurationMetricProducer) : DurationMetricProducer :=
  let cfg := mConfig (dm_base p) in
  let index := mConditionTrackerIndex cfg in
  if negb (Z.of_nat (length (mMetric2ConditionLinks cfg)) =? 1)
     || negb (mHasLinksToAllConditionDimensionsInTracker cfg) then p
  else
    let unslicedPartState := getUnSlicedPartConditionState index in
    if negb (IsSimpleCondition index)
       && bool_decide (dm_unSlicedPartCondition p = kFalse) && bool_decide (unslicedPartState = kFalse)
    then p
    else
      let '(p, currentUnSlicedPartCondition) :=
        if negb (IsSimpleCondition index)
        then (set_unSliced unslicedPartState p, 0 <? cs_value unslicedPartState)
        else (p, true) in
      let toTrue := getChangedToTrueDimensions wizard wizardFuel (Z.to_nat index) in
      let toFalse := getChangedToFalseDimensions wizard wizardFuel (Z.to_nat index) in
      let fromUnsliced :=
        match toTrue, toFalse with
        | Some toTrue, Some toFalse => isEmpty toTrue && isEmpty toFalse
        | _, _ => true
        end in
      if fromUnsliced then
        let slicedConditionMap := default [] (getSlicedDimensionMap wizard wizardFuel (Z.to_nat index)) in
        forTrackers (λ whatKey s,
          match um_find (linkedConditionKey p whatKey) slicedConditionMap with
          | Some n => if 0 <? n then onConditionChanged currentUnSlicedPartCondition eventTime s else s
          | None => s
          end) p
      else if currentUnSlicedPartCondition then
        forTrackers (λ whatKey s,
          let key := linkedConditionKey p whatKey in
          let s := if us_mem key (default [] toTrue) then onConditionChanged true eventTime s else s in
          if us_mem key (default [] toFalse) then onConditionChanged false eventTime s else s) p
      else p.

Definition onSlicedConditionMayChangeInternalLocked (overallCondition : bool) (eventTimeNs : Z)
    (p : DurationMetricProducer) : DurationMetricProducer :=
  let cfg := mConfig (dm_base p) in
  if IsChangedDimensionTrackable wizard (mConditionTrackerIndex cfg)
     && mHasLinksToAllConditionDimensionsInTracker cfg
  then onSlicedConditionMayChangeLocked_opt1 overallCondition eventTimeNs p
  else forTrackers (λ _, onSlicedConditionMayChange wizard overallCondition eventTimeNs) p.

Definition duration_onSlicedConditionMayChangeLocked (overallCondition : bool) (eventTime : Z)
    (p : DurationMetricProducer) : DurationMetricProducer :=
  if negb (mIsActive (mActivity (dm_base p))) then p
  else
    let p := duration_flushIfNeededLocked eventTime p in
    if negb (mConditionSliced (mConfig (dm_base p))) then p
    else onSlicedConditionMayChangeInternalLocked overallCondition eventTime p.

Definition duration_onActiveStateChangedLocked (eventTimeNs : Z) (p : DurationMetricProducer)
    : DurationMetricProducer :=
  let p := base_onActiveStateChangedLocked dm_base duration_flushIfNeededLocked
             duration_flushCurrentBucketLocked eventTimeNs p in
  let active := mIsActive (mActivity (dm_base p)) in
  if negb (mConditionSliced (mConfig (dm_base p))) then
    if negb (bool_decide (mCondition (dm_base p) = kTrue)) then p
    else
      let p := if active then duration_flushIfNeededLocked eventTimeNs p else p in
      forTrackers (λ _, onConditionChanged active eventTimeNs) p
  else if active then
    onSlicedConditionMayChangeInternalLocked active eventTimeNs
      (duration_flushIfNeededLocked eventTimeNs p)
  else forTrackers (λ _, onConditionChanged active eventTimeNs) p.

Definition duration_onConditionChangedLocked (conditionMet : bool) (eventTime : Z)
    (p : DurationMetricProducer) : DurationMetricProducer :=
  let p := set_dm_base (set_condition (if conditionMet then kTrue else kFalse) (dm_base p)) p in
  if negb (mIsActive (mActivity (dm_base p))) then p
  else forTrackers (λ _, onConditionChanged conditionMet eventTime)
         (duration_flushIfNeededLocked eventTime p).

(** The overrides of a duration metric.  [onMatchedLogEventLocked] is overridden too, below, so
    [onMatchedLogEventInternalLocked] is never called and only logs. *)
Definition duration_metric_ops : MetricOps DurationMetricProducer := {|
  base := dm_base;
  set_base := set_dm_base;
  flushIfNeededLocked := duration_flushIfNeededLocked;
  flushCurrentBucketLocked := duration_flushCurrentBucketLocked;
  onActiveStateChangedLocked := duration_onActiveStateChangedLocked;
  onMatchedLogEventInternalLocked := λ _ _ _ _ _ _ p, p
|}.

(** ** Events *)

Definition duration_onStateChanged (eventTimeNs atomId : Z) (primaryKey : HashableDimensionKey)
    (oldState newState : FieldValue) (p : DurationMetricProducer) : DurationMetricProducer :=
  let cfg := mConfig (dm_base p) in
  let newStateCopy := mapStateValue cfg atomId newState in
  let p := duration_flushIfNeededLocked eventTimeNs p in
  forTrackers (λ whatKey s,
    if negb (containsLinkedStateValues whatKey primaryKey (mMetric2StateLinks cfg) atomId) then s
    else onStateChanged eventTimeNs atomId newStateCopy s) p.

Definition createDurationTracker (eventKey : MetricDimensionKey) (p : DurationMetricProducer)
    : AnyTracker :=
  let b := dm_base p in
  let cfg := mConfig b in
  let d := DurationTracker_new eventKey (mConditionTrackerIndex cfg) (dm_nested (dm_config p))
             (mCurrentBucketStartTimeNs b) (mCurrentBucketNum b) (mTimeBaseNs cfg) (mBucketSizeNs cfg)
             (mConditionSliced cfg) (mHasLinksToAllConditionDimensionsInTracker cfg) in
  match mAggregationType (dm_config p) with
  | SUM => SumTracker (OringDurationTracker_new d)
  | MAX_SPARSE => MaxTracker (MaxDurationTracker_new d)
  end.

(** [hitGuardRailLocked], less the statistics it notes. *)
Definition duration_hitGuardRailLocked (newKey : MetricDimensionKey) (p : DurationMetricProducer) : bool :=
  let m := mCurrentSlicedDurationTrackerMap p in
  if um_mem (mDimensionKeyInWhat newKey) m then false
  else (kDimensionKeySizeSoftLimit - 1 <? size m) && (kDimensionKeySizeHardLimit <? size m + 1).

(** The key inside a tracker: the fields of the internal dimensions. *)
Definition internalKey (p : DurationMetricProducer) (whatKey : HashableDimensionKey)
    (values : list FieldValue) : HashableDimensionKey :=
  if mUseWhatDimensionAsInternalDimension (dm_config p) then whatKey
  else
    match mInternalDimensions (dm_config p) with
    | [] => DEFAULT_DIMENSION_KEY
    | dims => (filterValues dims values DEFAULT_DIMENSION_KEY).2
    end.

Definition handleStartEvent (eventKey : MetricDimensionKey) (conditionKeys : ConditionKey)
    (condition : bool) (eventTimeNs : Z) (eventValues : list FieldValue) (p : DurationMetricProducer)
    : option DurationMetricProducer :=
  let whatKey := mDimensionKeyInWhat eventKey in
  let found := um_mem whatKey (mCurrentSlicedDurationTrackerMap p) in
  if negb found && duration_hitGuardRailLocked eventKey p then Some p
  else
    let m := mCurrentSlicedDurationTrackerMap p in
    let m := if found then m else um_set whatKey (createDurationTracker eventKey p) m in
    tracker ← um_find whatKey m;
    let '(tracker, env) :=
      noteStart (internalKey p whatKey eventValues) condition eventTimeNs conditionKeys
        (tracker, dm_anomaly p) in
    Some (set_trackers (um_set whatKey tracker m) env p).

Definition handleStopEvent (whatKey : HashableDimensionKey) (values : list FieldValue)
    (eventTimeNs : Z) (p : DurationMetricProducer) : DurationMetricProducer :=
  match um_find whatKey (mCurrentSlicedDurationTrackerMap p) with
  | None => p
  | Some tracker =>
      let '(tracker, env) :=
        noteStop (internalKey p whatKey values) eventTimeNs false (tracker, dm_anomaly p) in
      set_trackers (um_set whatKey tracker (mCurrentSlicedDurationTrackerMap p)) env p
  end.

Definition whatKeyOf (p : DurationMetricProducer) (values : list FieldValue) : HashableDimensionKey :=
  match mDimensionsInWhat (mConfig (dm_base p)) with
  | [] => DEFAULT_DIMENSION_KEY
  | dims => (filterValues dims values DEFAULT_DIMENSION_KEY).2
  end.

Definition handleMatchedLogEventValuesLocked (uninit : Z) (states : StateManager) (matcherIndex : Z)
    (values : list FieldValue) (eventTimeNs : Z) (p : DurationMetricProducer)
    : option DurationMetricProducer :=
  let cfg := mConfig (dm_base p) in
  let active := mIsActive (mActivity (dm_base p)) in
  if eventTimeNs <? mTimeBaseNs cfg then Some p
  else
    let p := if active then duration_flushIfNeededLocked eventTimeNs p else p in
    if matcherIndex =? mStopAllIndex (dm_config p) then
      Some (forTrackers (λ _, noteStopAll eventTimeNs) p)
    else
      let dimensionInWhat := whatKeyOf p values in
      let stateValuesKey :=
        stateValuesKeyOf uninit states cfg (statePrimaryKeysOf (mMetric2StateLinks cfg) values) in
      if matcherIndex =? mStopIndex (dm_config p) then
        Some (handleStopEvent dimensionInWhat values eventTimeNs p)
      else
        let conditionKey :=
          if mConditionSliced cfg then conditionKeyOf (mMetric2ConditionLinks cfg) values else ∅ in
        let condition :=
          if mConditionSliced cfg then
            bool_decide (wizard_query wizard (mConditionTrackerIndex cfg) conditionKey
              (negb (mHasLinksToAllConditionDimensionsInTracker cfg)) = kTrue)
          else bool_decide (mCondition (dm_base p) = kTrue) in
        handleStartEvent (mkMetricKey dimensionInWhat stateValuesKey) conditionKey (condition && active)
          eventTimeNs values p.

Definition duration_onMatchedLogEventLocked (uninit : Z) (states : StateManager) (matcherIndex : nat)
    (event : LogEvent) (p : DurationMetricProducer) : option DurationMetricProducer :=
  handleMatchedLogEventValuesLocked uninit states (Z.of_nat matcherIndex) (getValues event)
    (GetElapsedTimestampNs event) p.

(** ** Construction *)

(** The entries of a [std::map] in the order of its keys. *)
Definition inKeyOrder (m : umap HashableDimensionKey Z) : list (HashableDimensionKey * Z) :=
  (λ k, (k, um_get 0 k m)) <$> foldl (λ keys e, keySet_insert e.1 keys) [] m.

(** [count] fake start events of a key that is already started. *)
Fixpoint fakeStarts (uninit : Z) (states : StateManager) (count : nat) (key : HashableDimensionKey)
    (startTimeNs : Z) (p : DurationMetricProducer) : option DurationMetricProducer :=
  match count with
  | O => Some p
  | S count =>
      p ← handleMatchedLogEventValuesLocked uninit states (mStartIndex (dm_config p)) (mValues key)
            startTimeNs p;
      fakeStarts uninit states count key startTimeNs p
  end.

Definition initTrueDimensions (uninit : Z) (states : StateManager) (whatIndex startTimeNs : Z)
    (p : DurationMetricProducer) : option DurationMetricProducer :=
  if whatIndex =? -1 then Some p
  else
    let slicedWhatMap := default [] (getSlicedDimensionMap wizard wizardFuel (Z.to_nat whatIndex)) in
    foldl (λ p e, p ← p; fakeStarts uninit states (Z.to_nat e.2) e.1 startTimeNs p) (Some p)
      (inKeyOrder slicedWhatMap).

(** Whether the dimensions of the message and of its links lie in the internal dimensions. *)
Definition durationValid (dimensionsInWhat internalDimensions : list Matcher)
    (links : list Metric2Condition) (stateLinks : list Metric2State) : bool :=
  subsetDimensions dimensionsInWhat internalDimensions
  && forallb (λ link, subsetDimensions (mc_metricFields link) internalDimensions) links
  && forallb (λ link, subsetDimensions (ms_metricFields link) internalDimensions) stateLinks.

(** The constructor.  [internalDimensions] is absent when the message has no field. *)
Definition DurationMetricProducer_new (uninit : Z) (states : StateManager) (uid : Z)
    (metric : DurationMetric) (conditionIndex : Z) (initialConditionCache : list ConditionState)
    (whatIndex startIndex stopIndex stopAllIndex : Z) (nesting : bool)
    (internalDimensions : option FieldMatcher) (timeBaseNs startTimeNs : Z)
    (activations : gmap nat Activation) (eventActivationMap : gmap Z nat)
    (eventDeactivationMap : gmap Z (list nat)) (slicedStateAtoms : list Z)
    (stateGroupMap : gmap Z (gmap Z Z)) : option DurationMetricProducer :=
  let bucketSizeNs :=
    match dur_bucket metric with
    | Some unit_ => TimeUnitToBucketSizeInMillisGuardrailed uid unit_ * 1000000
    | None => 2 ^ 63 - 1
    end in
  let dims := dur_dimensions_in_what metric in
  let dimensionsInWhat := from_option translateFieldMatcher [] dims in
  let internal := from_option translateFieldMatcher [] internalDimensions in
  let links := toMetric2Condition <$> dur_links metric in
  let stateLinks := toMetric2State <$> dur_state_link metric in
  let hasLinksToAll :=
    match links with
    | [link] =>
        (0 <=? conditionIndex) && (conditionIndex <? Z.of_nat (length wizard))
        && equalOutputDimensions wizard wizardFuel (Z.to_nat conditionIndex) (mc_conditionFields link)
    | _ => false
    end in
  let cfg := mkProducerConfig (dur_id metric) timeBaseNs bucketSizeNs conditionIndex
    (0 <? Z.of_nat (length links))
    (from_option HasPositionANY false dims) (from_option HasPositionALL false dims)
    dimensionsInWhat hasLinksToAll links slicedStateAtoms stateGroupMap stateLinks in
  let b := MetricProducer_new cfg initialConditionCache activations eventActivationMap
             eventDeactivationMap in
  let dcfg := mkDurationConfig (dur_aggregation metric) startIndex stopIndex stopAllIndex nesting
    internal (equalDimensions dimensionsInWhat internal)
    (durationValid dimensionsInWhat internal links stateLinks) in
  let p := duration_flushIfNeededLocked startTimeNs
             (mkDurationMetric b dcfg kUnknown [] [] (mkAnomalyEnv [] 0)) in
  let p := set_dm_base (set_bucket startTimeNs (mCurrentBucketNum (dm_base p)) (dm_base p)) p in
  initTrueDimensions uninit states whatIndex startTimeNs p.
End wizard.

(** ** Alerts *)

(** An alert on a sum that no number of full buckets reaches is refused. *)
Definition duration_addAnomalyTracker (alert : Alert) (monitor : option AlarmMonitor)
    (p : DurationMetricProducer) : bool * DurationMetricProducer :=
  let possible := num_buckets alert * mBucketSizeNs (mConfig (dm_base p)) in
  let invalid :=
    match mAggregationType (dm_config p) with
    | SUM => SFltb (toDouble possible) (default (S754_zero false) (trigger_if_sum_gt alert))
    | MAX_SPARSE => false
    end in
  if invalid then (false, p)
  else
    let env := dm_anomaly p in
    (true, set_trackers (mCurrentSlicedDurationTrackerMap p)
             (mkAnomalyEnv (env_trackers env ++ [DurationAnomalyTracker_new alert monitor])
                (env_fresh env)) p).

(** ** Reports and dropped data *)

(** The DurationBucketInfo message. *)
Inductive DurationBucketInfo :=
  | PartialDuration (start_bucket_elapsed_millis end_bucket_elapsed_millis duration_nanos : Z)
  | FullDuration (bucket_num duration_nanos : Z).

Definition durationInfo (b : MetricProducer) (bucket : DurationBucket) : DurationBucketInfo :=
  if negb (db_end bucket - db_start bucket =? mBucketSizeNs (mConfig b)) then
    PartialDuration (NanoToMillis (db_start bucket)) (NanoToMillis (db_end bucket)) (db_duration bucket)
  else FullDuration (getBucketNumFromEndTimeNs (db_end bucket) b) (db_duration bucket).

Record DurationReport := mkDurationReport {
  dr_id : Z; dr_is_active : bool;
  dr_data : option (Z * Z * list (MetricDimensionKey * list DurationBucketInfo))
}.

Definition durationEntry (b : MetricProducer) (e : MetricDimensionKey * list DurationBucket)
    : MetricDimensionKey * list DurationBucketInfo := (e.1, durationInfo b <$> e.2).

Definition duration_onDumpReportLocked (dumpTimeNs : Z) (include_current_partial_bucket : bool)
    (erase_data : bool) (p : DurationMetricProducer) : DurationReport * DurationMetricProducer :=
  let p := duration_flushIfNeededLocked dumpTimeNs p in
  let p :=
    if include_current_partial_bucket then duration_flushCurrentBucketLocked dumpTimeNs dumpTimeNs p
    else p in
  let cfg := mConfig (dm_base p) in
  let isActive := mIsActive (mActivity (dm_base p)) in
  match dm_pastBuckets p with
  | [] => (mkDurationReport (mMetricId cfg) isActive None, p)
  | _ :: _ =>
      let data := durationEntry (dm_base p) <$> dm_pastBuckets p in
      (mkDurationReport (mMetricId cfg) isActive (Some (mTimeBaseNs cfg, mBucketSizeNs cfg, data)),
       if erase_data then set_dm_past [] p else p)
  end.

Definition duration_dropDataLocked (dropTimeNs : Z) (p : DurationMetricProducer)
    : DurationMetricProducer := set_dm_past [] (duration_flushIfNeededLocked dropTimeNs p).

Definition duration_clearPastBucketsLocked (dumpTimeNs : Z) (p : DurationMetricProducer)
    : DurationMetricProducer := set_dm_past [] (duration_flushIfNeededLocked dumpTimeNs p).

(** [sizeof(DurationBucket)]: three 64-bit members, as for a count bucket. *)
Definition duration_byteSizeLocked (p : DurationMetricProducer) : Z :=
  foldl (λ totalSize pair, totalSize + Z.of_nat (length pair.2) * kBucketSize) 0 (dm_pastBuckets p).
