(* ===== verification/DurationMetricFacts.v ===== *)
(** * Facts on the duration metric

    The metric keeps its dimension keys apart: seen from one key, it is the single tracker of
    DurationTrackersFacts.  What is proved of a tracker therefore holds of the metric, for every
    key, across the creation and removal of trackers, activations and reports. *)
From S2P Require Import Prelude UMap FieldValue DimensionKey DimensionKeyFacts Matchers Conditions.
From S2P Require Import Anomaly State MetricProducer MetricProducerFacts CountMetric.
From S2P Require Import DurationTrackers DurationTrackersFacts DurationMetric.

Implicit Types (k key : HashableDimensionKey) (m : TrackerMap) (output : DurationOutput).

(** ** The output seen from one key *)

Definition outputFor k output : DurationOutput :=
  List.filter (λ e, key_eqb k (mDimensionKeyInWhat e.1)) output.

Lemma mdk_eqb_what (a b : MetricDimensionKey) :
  a =k b → mDimensionKeyInWhat a =k mDimensionKeyInWhat b.
Proof. unfold key_eqb at 1, key_eq_mdk, mdk_eqb. intros [H _]%andb_true_iff. exact H. Qed.

Lemma outputFor_find k mk output :
  k =k mDimensionKeyInWhat mk → um_find mk (outputFor k output) = um_find mk output.
Proof.
  intros Hk. unfold outputFor. induction output as [|[mk' l] output IH]; [done|]. cbn.
  destruct (key_eqb mk mk') eqn:E.
  - pose proof (mdk_eqb_what _ _ E) as E'. rewrite (key_eqb_trans _ _ _ Hk E'). cbn. by rewrite E.
  - destruct (key_eqb k (mDimensionKeyInWhat mk')); cbn [um_find]; [rewrite E|]; exact IH.
Qed.

Lemma outputFor_set k mk l output :
  outputFor k (um_set mk l output) =
    if key_eqb k (mDimensionKeyInWhat mk) then um_set mk l (outputFor k output) else outputFor k output.
Proof.
  unfold outputFor. induction output as [|[mk' l'] output IH].
  - cbn. by destruct (key_eqb k _).
  - cbn. destruct (key_eqb mk mk') eqn:E.
    + pose proof (key_eqb_cong_r _ _ k (mdk_eqb_what _ _ E)) as E'. cbn. rewrite <- E'.
      destruct (key_eqb k (mDimensionKeyInWhat mk)); cbn; [by rewrite E|done].
    + cbn. destruct (key_eqb k (mDimensionKeyInWhat mk')), (key_eqb k (mDimensionKeyInWhat mk));
        cbn; rewrite ?E, IH; done.
Qed.

Lemma outputFor_push k mk b output :
  outputFor k (pushDuration mk b output) =
    if key_eqb k (mDimensionKeyInWhat mk) then pushDuration mk b (outputFor k output)
    else outputFor k output.
Proof.
  unfold pushDuration. rewrite outputFor_set. destruct (key_eqb k _) eqn:E; [|done].
  unfold um_get. by rewrite outputFor_find.
Qed.

Lemma outputFor_app k o1 o2 : outputFor k (o1 ++ o2) = outputFor k o1 ++ outputFor k o2.
Proof. apply List.filter_app. Qed.

Definition whatOf (d : DurationTracker) : HashableDimensionKey := mDimensionKeyInWhat (mEventKey d).

(** Flushing a tracker appends to the buckets of its own key; nothing else depends on the output. *)
Lemma flushStateKeys_output k d e full rest : ∀ done output env,
  let r := flushStateKeys d e full done rest output env in
  let r' := flushStateKeys d e full done rest (outputFor k output) env in
  if key_eqb k (whatOf d) then r' = (r.1.1, outputFor k r.1.2, r.2)
  else outputFor k r.1.2 = outputFor k output.
Proof.
  induction rest as [|[sk v] rest IH]; intros done output env; [cbn; by destruct (key_eqb k _)|].
  cbn [flushStateKeys]. set (mk := mkMetricKey _ sk). set (b := mkDurationBucket _ e _).
  assert (Hp : outputFor k (pushDuration mk b output) =
    if key_eqb k (whatOf d) then pushDuration mk b (outputFor k output) else outputFor k output)
    by apply outputFor_push.
  destruct (0 <? dv_duration v), full; cbv zeta beta iota;
    match goal with |- context [outputFor k (flushStateKeys d e ?f ?dn rest ?o ?en).1.2] =>
      specialize (IH dn o en) end;
    destruct (key_eqb k (whatOf d)); rewrite ?Hp in IH; exact IH.
Qed.

Lemma fillBuckets_output k d e n : ∀ i output env,
  let r := fillBuckets d e n i output env in
  let r' := fillBuckets d e n i (outputFor k output) env in
  if key_eqb k (whatOf d) then r' = (outputFor k r.1, r.2) else outputFor k r.1 = outputFor k output.
Proof.
  induction n as [|n IH]; intros i output env; [cbn; by destruct (key_eqb k _)|].
  cbn [fillBuckets]. set (b := mkDurationBucket _ _ _). set (env' := addPastBucketToAnomalyTrackers _ _ _ env).
  specialize (IH (i + 1) (pushDuration (mEventKey d) b output) env').
  assert (Hp : outputFor k (pushDuration (mEventKey d) b output) =
    if key_eqb k (whatOf d) then pushDuration (mEventKey d) b (outputFor k output) else outputFor k output)
    by apply outputFor_push.
  destruct (key_eqb k (whatOf d)); rewrite Hp in IH; exact IH.
Qed.

Lemma oring_flush_output k t output o env :
  let r := oring_flushCurrentBucket t output (o, env) in
  let r' := oring_flushCurrentBucket t (outputFor k output) (o, env) in
  if key_eqb k (whatOf (od_base o)) then r' = (r.1.1, outputFor k r.1.2, r.2)
  else outputFor k r.1.2 = outputFor k output.
Proof.
  unfold oring_flushCurrentBucket. fold (running o). fold (closing t o).
  assert (Hw : whatOf (closing t o) = whatOf (od_base o)) by (unfold closing; by destruct (running o)).
  pose proof (flushStateKeys_output k (closing t o) (closedBucketEnd t (od_base o))
    (dt_bucketEndNs (od_base o) <? t) (mStateKeyDurationMap (closing t o)) [] output env) as H1.
  rewrite Hw in H1. destruct (flushStateKeys _ _ _ _ _ output env) as [[durs out1] env1]. cbn [fst snd] in H1.
  pose proof (fillBuckets_output k (set_durations durs (closing t o)) (dt_bucketEndNs (od_base o))
    (Z.to_nat (bucketsForward t (od_base o) - 1)) 1 out1 env1) as H2.
  change (whatOf (set_durations durs (closing t o))) with (whatOf (closing t o)) in H2. rewrite Hw in H2.
  destruct (key_eqb k (whatOf (od_base o))); [rewrite H1|]; cbv zeta beta iota; destruct (running o).
  - destruct (fillBuckets _ _ _ _ out1 env1) as [out2 env2]. cbn [fst snd] in *. by rewrite H2.
  - by destruct (2 <=? bucketsForward t (od_base o)).
  - destruct (fillBuckets _ _ _ _ out1 env1) as [out2 env2]. cbn [fst snd] in *. by rewrite H2.
  - by destruct (2 <=? bucketsForward t (od_base o)).
Qed.

(** ** The place of a tracker in time *)

(** What an operation other than a flush keeps of a tracker. *)
Definition frame (d : DurationTracker) : HashableDimensionKey * (Z * Z) * (Z * Z) :=
  (whatOf d, (dt_bucketStartNs d, dt_bucketNum d), (mStartTimeNs d, dt_bucketSizeNs d)).

Definition keeps_frame (f : OringDurationTracker * AnomalyEnv → OringDurationTracker * AnomalyEnv) : Prop :=
  ∀ o env, frame (od_base (f (o, env)).1) = frame (od_base o).

Lemma noteStart_frame key c t ck : keeps_frame (oring_noteStart key c t ck).
Proof.
  intros o env. unfold oring_noteStart. destruct (oring_hitGuardRail key o); [done|].
  destruct c; [destruct (mStarted o)|]; cbn; by destruct (_ && _).
Qed.

Lemma noteStop_frame key t b : keeps_frame (oring_noteStop key t b).
Proof.
  intros o env. unfold oring_noteStop.
  assert (Hp : ∀ x : OringDurationTracker * AnomalyEnv,
    frame (od_base (match um_find key (mPaused x.1) with
      | None => x.1
      | Some n => if b || negb (mNested (od_base x.1)) || (n - 1 <=? 0) then
          set_conditionKeys (um_erase key (mConditionKeyMap x.1)) (set_paused (um_erase key (mPaused x.1)) x.1)
        else set_paused (um_set key (n - 1) (mPaused x.1)) x.1 end)) = frame (od_base x.1)).
  { intros [x e]. cbn [fst]. destruct (um_find key (mPaused x)); [|done]. by destruct (_ || _). }
  destruct (um_find key (mStarted o)) as [n|]; [|exact (Hp (o, env))].
  set (o' := if _ || _ then _ else _).
  assert (Ho : frame (od_base o') = frame (od_base o)) by (unfold o'; by destruct (_ || _)).
  destruct (isEmpty (mStarted o')); cbn [fst]; rewrite <- Ho.
  - exact (Hp (oring_close t o', env)).
  - exact (Hp (o', env)).
Qed.

Lemma noteStopAll_frame t : keeps_frame (oring_noteStopAll t).
Proof. intros o env. unfold oring_noteStopAll. by destruct (isEmpty (mStarted o)). Qed.

Lemma conditionChanged_frame c t : keeps_frame (oring_onConditionChanged c t).
Proof.
  intros o env. unfold oring_onConditionChanged.
  by destruct c, (isEmpty (mPaused o)), (isEmpty (mStarted o)).
Qed.

Lemma stateChanged_frame t atomId newState :
  keeps_frame (λ s, (oring_onStateChanged t atomId newState s.1, s.2)).
Proof. intros o env. unfold oring_onStateChanged. cbn. by destruct (isEmpty (mStarted o)). Qed.

(** A flush moves the tracker to the bucket of [t]. *)
Lemma oring_flush_frame t output o env :
  frame (od_base (oring_flushCurrentBucket t output (o, env)).2.1) = frame (nextBucket t (od_base o)).
Proof.
  unfold oring_flushCurrentBucket. fold (running o). fold (closing t o).
  assert (Hc : frame (closing t o) = frame (od_base o)) by (unfold closing; by destruct (running o)).
  destruct (flushStateKeys _ _ _ _ _ _ _) as [[durs out1] env1].
  destruct (if running o then _ else _) as [out2 env2]. cbn [snd fst set_lastStart set_od_base od_base].
  assert (Hd : ∀ d d', frame d = frame d' → frame (nextBucket t d) = frame (nextBucket t d')).
  { intros d d' [= H1 H2 H3 H4 H5]. unfold nextBucket, bucketsForward, dt_bucketEndNs.
    rewrite H3, H4, H5. destruct (0 <? _); unfold frame; cbn; unfold whatOf in *; cbn; congruence. }
  by apply Hd.
Qed.

Lemma oring_flush_erases t output o env :
  (oring_flushCurrentBucket t output (o, env)).1.1 = isEmpty (mStarted o) && isEmpty (mPaused o).
Proof.
  unfold oring_flushCurrentBucket. destruct (flushStateKeys _ _ _ _ _ _ _) as [[durs out1] env1].
  by destruct (if negb (isEmpty (mStarted o)) then _ else _) as [out2 env2].
Qed.

(** ** Loops over the trackers *)

Lemma forEach_keys f m : ∀ env, (forEach f m env).1.*1 = m.*1.
Proof.
  induction m as [|[key tr] m IH]; intros env; [done|]. cbn. destruct (f key (tr, env)) as [tr' env'].
  specialize (IH env'). destruct (forEach f m env'). cbn in *. by rewrite IH.
Qed.

Lemma um_find_keys {V W} k (m1 : umap HashableDimensionKey V) (m2 : umap HashableDimensionKey W) :
  m1.*1 = m2.*1 → um_find k m1 = None → um_find k m2 = None.
Proof.
  revert m2. induction m1 as [|[k1 v1] m1 IH]; intros [|[k2 v2] m2]; [done..|].
  cbn. intros [= -> H]. destruct (key_eqb k k2); [done|]. by apply IH.
Qed.

Lemma um_wf_keys {V W} (m1 : umap HashableDimensionKey V) (m2 : umap HashableDimensionKey W) :
  m1.*1 = m2.*1 → um_wf m1 → um_wf m2.
Proof.
  revert m2. induction m1 as [|[k1 v1] m1 IH]; intros [|[k2 v2] m2]; [done..|].
  cbn. intros [= -> H] [Hf Hwf]. split; [by eapply um_find_keys|by apply IH].
Qed.

Lemma forEach_ext f f' m : (∀ key s, f key s = f' key s) → ∀ env, forEach f m env = forEach f' m env.
Proof.
  intros Hf. induction m as [|[key tr] m IH]; intros env; [done|]. cbn. rewrite Hf.
  destruct (f' key (tr, env)). by rewrite IH.
Qed.

Lemma forEach_find f k m : ∀ env, ∃ env' key,
  um_find k (forEach f m env).1 = (λ tr, (f key (tr, env')).1) <$> um_find k m.
Proof.
  induction m as [|[key tr] m IH]; intros env; [by exists env, k|]. cbn.
  destruct (f key (tr, env)) as [tr' env'] eqn:E. destruct (IH env') as (env2 & key2 & H2).
  destruct (forEach f m env') as [m' env3]. cbn in *. destruct (key_eqb k key).
  - exists env, key. cbn. by rewrite E.
  - by exists env2, key2.
Qed.

Lemma forEach_Forall f (P : HashableDimensionKey * AnyTracker → Prop) m :
  (∀ key tr env, P (key, tr) → P (key, (f key (tr, env)).1)) →
  ∀ env, Forall P m → Forall P (forEach f m env).1.
Proof.
  intros Hf. induction m as [|[key tr] m IH]; intros env Hm; [apply Forall_nil_2|].
  apply Forall_cons_1 in Hm as [H1 H2]. cbn. specialize (Hf key tr env H1).
  destruct (f key (tr, env)) as [tr' env']. specialize (IH env' H2).
  destruct (forEach f m env'). by apply Forall_cons_2.
Qed.

(** ** The invariant of the trackers *)

(** Every tracker of a "sum" metric belongs to its key and is in the current bucket. *)
Definition synced (b : MetricProducer) (e : HashableDimensionKey * AnyTracker) : Prop :=
  e.1 =k e.1 ∧ ∃ o, e.2 = SumTracker o ∧
    frame (od_base o) = (e.1, (mCurrentBucketStartTimeNs b, mCurrentBucketNum b),
                         (mTimeBaseNs (mConfig b), mBucketSizeNs (mConfig b))).

Lemma synced_end b key o : synced b (key, SumTracker o) →
  dt_bucketEndNs (od_base o) = getCurrentBucketEndTimeNs b.
Proof.
  intros (_ & o' & [= <-] & [= H1 H2 H3 H4 H5]). unfold dt_bucketEndNs, getCurrentBucketEndTimeNs.
  by rewrite H3, H4, H5.
Qed.

Lemma synced_keeps b f g key tr env :
  keeps_frame f → synced b (key, tr) → synced b (key, (dispatch f g (tr, env)).1).
Proof.
  intros Hf (Hk & o & E & Ho). cbn [snd] in E. subst tr. split; [done|]. cbn [dispatch].
  specialize (Hf o env). destruct (f (o, env)) as [o' env']. exists o'. split; [done|]. etrans; [exact Hf|exact Ho].
Qed.

Lemma flushTrackers_find k t m : ∀ output env,
  um_wf m → Forall (λ e, e.1 =k e.1 ∧ ∃ o, e.2 = SumTracker o ∧ whatOf (od_base o) = e.1) m →
  let r := flushTrackers t m output env in
  match um_find k m with
  | Some (SumTracker o) => ∃ env',
      let r' := oring_flushCurrentBucket t (outputFor k output) (o, env') in
      outputFor k r.1.2 = r'.1.2 ∧ um_find k r.1.1 = if r'.1.1 then None else Some (SumTracker r'.2.1)
  | _ => outputFor k r.1.2 = outputFor k output ∧ um_find k r.1.1 = None
  end.
Proof.
  induction m as [|[key tr] m IH]; intros output env Hwf Hall; [done|].
  destruct Hwf as [Hfr Hwf]. apply Forall_cons_1 in Hall as [(Hk & o & E & Hw) Hall]. cbn [fst snd] in *.
  subst tr. cbn [flushTrackers flushCurrentBucket um_find].
  pose proof (oring_flush_output k t output o env) as Ho. rewrite Hw in Ho.
  destruct (oring_flushCurrentBucket t output (o, env)) as [[erase out1] [o1 env1]]. cbn [fst snd] in Ho.
  specialize (IH out1 env1 Hwf Hall). destruct (flushTrackers t m out1 env1) as [[m2 out2] env2].
  cbn [fst snd] in *. destruct (key_eqb k key) eqn:Ek.
  - rewrite (um_find_cong k key) in IH by done. rewrite Hfr in IH. destruct IH as [H1 H2].
    exists env. rewrite Ho. cbn [fst snd]. split; [done|]. destruct erase; [|cbn; by rewrite Ek].
    exact H2.
  - rewrite Ho in IH.
    assert (Hd : um_find k (if erase then m2 else (key, SumTracker o1) :: m2) = um_find k m2)
      by (destruct erase; [done|]; cbn; by rewrite Ek).
    rewrite Hd. exact IH.
Qed.

Lemma flushTrackers_fresh k t m : ∀ output env,
  um_find k m = None → um_find k (flushTrackers t m output env).1.1 = None.
Proof.
  induction m as [|[key tr] m IH]; intros output env; [done|]. cbn [flushTrackers um_find].
  destruct (key_eqb k key) eqn:Ek; [done|]. intros Hf.
  destruct (flushCurrentBucket t output (tr, env)) as [[erase out1] [tr1 env1]].
  specialize (IH out1 env1 Hf). destruct (flushTrackers t m out1 env1) as [[m2 out2] env2]. cbn [fst] in *.
  destruct erase; [done|]. cbn. by rewrite Ek.
Qed.

Lemma flushTrackers_wf t m : ∀ output env, um_wf m → um_wf (flushTrackers t m output env).1.1.
Proof.
  induction m as [|[key tr] m IH]; intros output env; [done|]. intros [Hf Hwf]. cbn [flushTrackers].
  destruct (flushCurrentBucket t output (tr, env)) as [[erase out1] [tr1 env1]].
  specialize (IH out1 env1 Hwf). pose proof (flushTrackers_fresh key t m out1 env1 Hf).
  destruct (flushTrackers t m out1 env1) as [[m2 out2] env2]. cbn [fst] in *. by destruct erase.
Qed.

Lemma flushTrackers_Forall (P Q : HashableDimensionKey * AnyTracker → Prop) t m :
  (∀ key tr output env, P (key, tr) → Q (key, (flushCurrentBucket t output (tr, env)).2.1)) →
  ∀ output env, Forall P m → Forall Q (flushTrackers t m output env).1.1.
Proof.
  intros Hf. induction m as [|[key tr] m IH]; intros output env Hm; [apply Forall_nil_2|].
  apply Forall_cons_1 in Hm as [H1 H2]. cbn [flushTrackers]. specialize (Hf key tr output env H1).
  destruct (flushCurrentBucket t output (tr, env)) as [[erase out1] [tr1 env1]].
  specialize (IH out1 env1 H2). destruct (flushTrackers t m out1 env1) as [[m2 out2] env2]. cbn [fst snd] in *.
  destruct erase; [done|]. by apply Forall_cons_2.
Qed.

(** ** One operation on the tracker of a key *)

(** An operation of an event. *)
Definition is_event (op : DurationOp) : bool :=
  match op with OpStart _ _ | OpStop _ | OpStopAll => true | _ => false end.

(** While nothing is measured, an event does not look at its time. *)
Lemma idle_timeless t t' op output o env :
  is_event op = true → mStarted o = [] →
  (oring_apply false t op output (o, env)).2.1 = (oring_apply false t' op output (o, env)).2.1.
Proof.
  intros Hop Hs. destruct op as [key ck|key| |c|a v|]; try done; cbn [oring_apply snd].
  - unfold oring_noteStop. by rewrite Hs.
  - unfold oring_noteStopAll. by rewrite Hs.
Qed.

(** An event at time [t], where the tracker was brought up to [now]: up to [t] if it measures. *)
Lemma tracker_step nested now t c counts op output o env :
  is_event op = true ∨ now = t → op ≠ OpFlush → (c = true → now = t) →
  oring_inv now output o → oring_sim nested (mkDurationSpec c counts) o →
  let o' := (oring_apply c t op output (o, env)).2.1 in
  oring_inv now output o' ∧ measured now output o' = measured now output o ∧
  oring_sim nested (spec_apply nested op (mkDurationSpec c counts)) o'.
Proof.
  intros Hop Hf Hc Hinv Hsim.
  assert (E : (oring_apply c t op output (o, env)).2.1 = (oring_apply c now op output (o, env)).2.1).
  { destruct Hop as [Hop| ->]; [|done]. destruct c; [by rewrite Hc|]. apply idle_timeless; [done|].
    by destruct Hsim. }
  cbv zeta. rewrite E.
  destruct (oring_apply_ok nested now (mkDurationSpec c counts) output o env Hinv Hsim op) as ((H1 & H2) & H3 & _).
  assert (Ho : (oring_apply c now op output (o, env)).1 = output) by (by destruct op).
  cbn [sp_condition] in *. rewrite Ho in H1, H2. done.
Qed.

Lemma um_update_Forall {V} (P : HashableDimensionKey * V → Prop) k (v v' : V) (m : umap HashableDimensionKey V) :
  um_find k m = Some v → Forall P m → (∀ k', P (k', v) → P (k', v')) → Forall P (um_set k v' m).
Proof.
  intros Hf Hm HP. induction Hm as [|[k1 v1] m H1 H2 IH]; [done|]. cbn in *.
  destruct (key_eqb k k1); apply Forall_cons_2; [injection Hf as ->; by apply HP|done|done|by apply IH].
Qed.

(** ** What the operations keep of the base class *)

Lemma forTrackers_base f p : dm_base (forTrackers f p) = dm_base p.
Proof. unfold forTrackers. by destruct (forEach f _ _). Qed.

(** The condition and the activations of a metric. *)
Definition switches (p : DurationMetricProducer) : ConditionState * Activity :=
  (mCondition (dm_base p), mActivity (dm_base p)).

Lemma flushCurrentBucket_switches t n p : switches (duration_flushCurrentBucketLocked t n p) = switches p.
Proof. unfold duration_flushCurrentBucketLocked. by destruct (flushTrackers _ _ _ _) as [[]]. Qed.

Lemma flushIfNeeded_switches t p : switches (duration_flushIfNeededLocked t p) = switches p.
Proof. unfold duration_flushIfNeededLocked. destruct (_ <? _); [done|]. apply flushCurrentBucket_switches. Qed.

Lemma forTrackers_switches f p : switches (forTrackers f p) = switches p.
Proof. unfold switches. by rewrite forTrackers_base. Qed.

Lemma slicedConditionInternal_switches wizard c t p :
  switches (onSlicedConditionMayChangeInternalLocked wizard c t p) = switches p.
Proof.
  unfold onSlicedConditionMayChangeInternalLocked. destruct (_ && _); [|apply forTrackers_switches].
  unfold onSlicedConditionMayChangeLocked_opt1. destruct (_ || _); [done|]. destruct (_ && _ && _); [done|].
  destruct (negb (IsSimpleCondition _ _)).
  all: destruct (match getChangedToTrueDimensions _ _ _ with Some _ => _ | None => _ end);
    rewrite ?forTrackers_switches; try (destruct (0 <? _)); rewrite ?forTrackers_switches; done.
Qed.

Lemma activeStateChanged_switches wizard t p :
  switches (duration_onActiveStateChangedLocked wizard t p) = switches p.
Proof.
  unfold duration_onActiveStateChangedLocked.
  set (p1 := base_onActiveStateChangedLocked _ _ _ t p).
  assert (H1 : switches p1 = switches p).
  { unfold p1, base_onActiveStateChangedLocked. destruct (mIsActive _); [done|].
    by rewrite flushCurrentBucket_switches, flushIfNeeded_switches. }
  rewrite <- H1. destruct (negb (mConditionSliced _)), (mIsActive _);
    try (destruct (negb (bool_decide _)); [done|]);
    by rewrite ?slicedConditionInternal_switches, ?forTrackers_switches, ?flushIfNeeded_switches.
Qed.

#[export] Instance duration_metric_laws wizard :
  @MetricLaws DurationMetricProducer (duration_metric_ops wizard).
Proof.
  assert (Hs : ∀ p p', switches p = switches p' → mActivity (dm_base p) = mActivity (dm_base p'))
    by (by intros p p' [= _ H]).
  split; cbn; [done|..]; intros; try done; apply Hs.
  - apply flushIfNeeded_switches.
  - apply flushCurrentBucket_switches.
  - apply activeStateChanged_switches.
Qed.

(** ** The metric seen from one key *)

Definition measuredFor (k : HashableDimensionKey) (now : Z) (p : DurationMetricProducer) : Z :=
  match um_find k (mCurrentSlicedDurationTrackerMap p) with
  | Some (SumTracker o) => measured now (outputFor k (dm_pastBuckets p)) o
  | _ => outputDuration (outputFor k (dm_pastBuckets p))
  end.

Section metric.
Context (wizard : list ConditionTracker) (cfg : ProducerConfig) (dcfg : DurationConfig).
Context (ks : list HashableDimensionKey) (k : HashableDimensionKey).
Context (Hsize : 0 < mBucketSizeNs cfg) (Hsliced : mConditionSliced cfg = false).
Context (Hsum : mAggregationType dcfg = SUM).
Context (Hks : Z.of_nat (length ks) <= kDimensionKeySizeHardLimit).
Context (Hrefl : k =k k).

(** The metric has been brought up to the time [now]; [c] is whether the condition holds and the
    metric is active, [counts] the started keys of [k]. *)
Record metric_inv (now : Z) (c : bool) (counts : umap HashableDimensionKey Z) (p : DurationMetricProducer)
    : Prop := {
  mi_cfg : mConfig (dm_base p) = cfg;
  mi_dcfg : dm_config p = dcfg;
  mi_end : now < getCurrentBucketEndTimeNs (dm_base p);
  mi_start : mCurrentBucketStartTimeNs (dm_base p) <= now;
  mi_wf : um_wf (mCurrentSlicedDurationTrackerMap p);
  mi_sync : Forall (synced (dm_base p)) (mCurrentSlicedDurationTrackerMap p);
  mi_keys : Forall (λ e, us_mem e.1 ks = true) (mCurrentSlicedDurationTrackerMap p);
  mi_fits : all_buckets duration_fits (outputFor k (dm_pastBuckets p));
  mi_tracker :
    match um_find k (mCurrentSlicedDurationTrackerMap p) with
    | Some (SumTracker o) =>
        oring_inv now (outputFor k (dm_pastBuckets p)) o ∧
        oring_sim (dm_nested dcfg) (mkDurationSpec c counts) o
    | Some (MaxTracker _) => False
    | None => counts = []
    end
}.

(** Only the trackers change, the one of [k] by [o']. *)
Lemma metric_inv_trackers now c c' counts counts' m env p :
  metric_inv now c counts p → um_wf m → Forall (synced (dm_base p)) m →
  Forall (λ e, us_mem e.1 ks = true) m →
  match um_find k m, um_find k (mCurrentSlicedDurationTrackerMap p) with
  | Some (SumTracker o'), Some (SumTracker o) =>
      let output := outputFor k (dm_pastBuckets p) in
      oring_inv now output o' ∧ measured now output o' = measured now output o ∧
      oring_sim (dm_nested dcfg) (mkDurationSpec c' counts') o'
  | None, None => counts' = []
  | _, _ => False
  end →
  metric_inv now c' counts' (set_trackers m env p) ∧
  measuredFor k now (set_trackers m env p) = measuredFor k now p.
Proof using.
  intros [] Hwf Hs Hk Ht. unfold measuredFor. cbn [set_trackers mCurrentSlicedDurationTrackerMap dm_pastBuckets].
  destruct (um_find k m) as [[o'|x']|] eqn:E'; destruct (um_find k (mCurrentSlicedDurationTrackerMap p)) as [[o|x]|];
    try done; split.
  - constructor; cbn; try done. rewrite E'. by destruct Ht as (? & _ & ?).
  - by destruct Ht as (_ & ? & _).
  - constructor; cbn; try done. by rewrite E'.
  - done.
Qed.

(** The same operation on all trackers. *)
Lemma forTrackers_ok f g now c c' counts counts' p :
  (∀ key, keeps_frame (f key)) →
  (∀ key output o env, oring_inv now output o → oring_sim (dm_nested dcfg) (mkDurationSpec c counts) o →
     let o' := (f key (o, env)).1 in
     oring_inv now output o' ∧ measured now output o' = measured now output o ∧
     oring_sim (dm_nested dcfg) (mkDurationSpec c' counts') o') →
  (counts = [] → counts' = []) →
  metric_inv now c counts p →
  metric_inv now c' counts' (forTrackers (λ key, dispatch (f key) (g key)) p) ∧
  measuredFor k now (forTrackers (λ key, dispatch (f key) (g key)) p) = measuredFor k now p.
Proof using.
  intros Hf Hop Hn Hinv. unfold forTrackers.
  set (m := mCurrentSlicedDurationTrackerMap p) in *. set (env := dm_anomaly p).
  destruct (forEach_find (λ key, dispatch (f key) (g key)) k m env) as (env' & key & Hfind).
  pose proof (forEach_keys (λ key, dispatch (f key) (g key)) m env) as Hkeys.
  pose proof (forEach_Forall (λ key, dispatch (f key) (g key)) (synced (dm_base p)) m
    (λ key tr env, synced_keeps (dm_base p) (f key) (g key) key tr env (Hf key)) env (mi_sync _ _ _ _ Hinv)) as Hsync.
  pose proof (forEach_Forall (λ key, dispatch (f key) (g key)) (λ e, us_mem e.1 ks = true) m
    (λ key tr env H, H) env (mi_keys _ _ _ _ Hinv)) as Hk.
  destruct (forEach _ m env) as [m' env2]. cbn [fst] in *.
  eapply metric_inv_trackers; [exact Hinv|by eapply um_wf_keys; [|apply Hinv]|done|done|].
  fold m. rewrite Hfind. pose proof (mi_tracker _ _ _ _ Hinv) as Ht. fold m in Ht.
  destruct (um_find k m) as [[o|x]|]; [|done|by apply Hn].
  destruct Ht as [Hi Hs]. cbn [fmap option_fmap option_map dispatch].
  specialize (Hop key _ o env' Hi Hs). destruct (f key (o, env')) as [o' env3]. exact Hop.
Qed.

(** *** Time passes *)

Lemma metric_inv_later now t c counts p :
  metric_inv now c counts p → now <= t < getCurrentBucketEndTimeNs (dm_base p) → metric_inv t c counts p.
Proof using.
  intros [] Ht. constructor; try done; [lia..|].
  destruct (um_find k _) as [[o|x]|] eqn:Ef; [|done..]. destruct mi_tracker0 as [[Z1 Z2 Z3 Z4 Z5 Z6 Z7] Hs]. split; [|done].
  apply um_find_Forall with (P := synced (dm_base p)) in Ef as (key & Hsy); [|done].
  apply synced_end in Hsy.
  constructor; try done; [lia|lia|intros E; specialize (Z4 E); lia|].
  unfold pendingDuration in *. destruct (isEmpty (mStarted o)); lia.
Qed.

Lemma measuredFor_later now t c counts p :
  metric_inv now c counts p →
  measuredFor k t p = measuredFor k now p + if c && negb (isEmpty counts) then t - now else 0.
Proof using.
  intros []. unfold measuredFor. destruct (um_find k _) as [[o|x]|]; [|done|].
  - destruct mi_tracker0 as [_ Hs]. rewrite (measured_later now t), (sim_running _ _ _ Hs). done.
  - subst counts. rewrite andb_false_r. lia.
Qed.

Lemma measured_same now t c counts counts' p p' :
  (c = true → now = t) → metric_inv now c counts p → metric_inv now c counts' p' →
  measuredFor k now p' = measuredFor k now p → measuredFor k t p' = measuredFor k t p.
Proof using.
  intros Hc Hp Hp' Hm. rewrite (measuredFor_later _ t _ _ _ Hp), (measuredFor_later _ t _ _ _ Hp').
  destruct c; [specialize (Hc eq_refl); subst now|]; destruct (isEmpty counts), (isEmpty counts'); cbn; lia.
Qed.

Lemma flush_metric now t c counts p start num :
  metric_inv now c counts p → now <= t →
  t < getCurrentBucketEndTimeNs (dm_base p) + (2 ^ 31 - 2) * mBucketSizeNs cfg →
  let b := dm_base p in
  let b' := set_bucket start num b in
  (∀ d key, frame d = (key, (mCurrentBucketStartTimeNs b, mCurrentBucketNum b), (mTimeBaseNs cfg, mBucketSizeNs cfg)) →
     frame (nextBucket t d) = (key, (start, num), (mTimeBaseNs cfg, mBucketSizeNs cfg))) →
  t < getCurrentBucketEndTimeNs b' → start <= t →
  let r := flushTrackers t (mCurrentSlicedDurationTrackerMap p) (dm_pastBuckets p) (dm_anomaly p) in
  let p' := mkDurationMetric b' (dm_config p) (dm_unSlicedPartCondition p) r.1.2 r.1.1 r.2 in
  metric_inv t c counts p' ∧ measuredFor k t p' = measuredFor k t p.
Proof using.
  intros [] Hnow Hr b b' Hnext Hend Hstart r p'.
  assert (Hall : Forall (λ e, e.1 =k e.1 ∧ ∃ o, e.2 = SumTracker o ∧ whatOf (od_base o) = e.1)
    (mCurrentSlicedDurationTrackerMap p)).
  { eapply Forall_impl; [exact mi_sync0|]. intros [key tr] (Hk & o & -> & [= Hw _ _ _ _]).
    split; [done|]. by exists o. }
  pose proof (flushTrackers_find k t _ (dm_pastBuckets p) (dm_anomaly p) mi_wf0 Hall) as Hfind. fold r in Hfind.
  cbv zeta in Hfind.
  assert (Hcommon : um_wf r.1.1 ∧ Forall (synced b') r.1.1 ∧ Forall (λ e, us_mem e.1 ks = true) r.1.1).
  { split_and!; [by apply flushTrackers_wf| |].
    - eapply (flushTrackers_Forall (synced b)); [|exact mi_sync0].
      intros key tr output env (Hk & o & E & Hfr). cbn [snd fst] in *. subst tr. split; [done|].
      cbn [flushCurrentBucket]. pose proof (oring_flush_frame t output o env) as Hfl.
      destruct (oring_flushCurrentBucket _ _ _) as [[e1 e2] [o1 env1]]. exists o1. split; [done|].
      cbn [snd fst] in *. rewrite Hfl. unfold b'. cbn. unfold b in *. rewrite mi_cfg0 in *. by apply Hnext.
    - eapply (flushTrackers_Forall (λ e, us_mem e.1 ks = true)); [done|exact mi_keys0]. }
  destruct Hcommon as (Hwf & Hsy & Hkeys). unfold measuredFor in *.
  destruct (um_find k (mCurrentSlicedDurationTrackerMap p)) as [[o|x]|] eqn:Ef; [|done|].
  - destruct mi_tracker0 as [Hoi Hos]. destruct Hfind as (env' & Ho & Hf').
    apply um_find_Forall with (P := synced b) in Ef as (key & Hsyo); [|done].
    destruct (oring_flush_spec now t (outputFor k (dm_pastBuckets p)) o env' Hoi Hnow) as (G1 & G2 & G3 & G4 & _).
    { unfold flush_range. rewrite (synced_end _ _ _ Hsyo).
      destruct Hsyo as (_ & o' & [= <-] & [= _ _ _ _ ->]). unfold b. by rewrite mi_cfg0. }
    pose proof (oring_flush_erases t (outputFor k (dm_pastBuckets p)) o env') as He.
    destruct (oring_flushCurrentBucket t (outputFor k (dm_pastBuckets p)) (o, env')) as [[erase out1] [o1 env1]].
    cbn [fst snd] in *.
    destruct erase.
    + assert (Hcounts : counts = []).
      { symmetry in He. apply andb_true_iff in He as [He1 He2]. destruct Hos as [Hs1 Hs2 _ _ _ _]. cbn in Hs1, Hs2.
        rewrite Hs1, Hs2 in *. by destruct c, counts. }
      cbn [p' mCurrentSlicedDurationTrackerMap dm_pastBuckets]. rewrite Hf', Ho. split.
      * constructor; cbn [p' dm_base dm_config mCurrentSlicedDurationTrackerMap dm_pastBuckets]; rewrite ?Hf', ?Ho; try done.
        by destruct G1.
      * rewrite <- G3. unfold measured, pendingDuration. rewrite G4.
        destruct G2 as (-> & _). symmetry in He. apply andb_true_iff in He as [-> _]. lia.
    + cbn [p' mCurrentSlicedDurationTrackerMap dm_pastBuckets]. rewrite Hf', Ho. split; [|done].
      constructor; cbn [p' dm_base dm_config mCurrentSlicedDurationTrackerMap dm_pastBuckets]; rewrite ?Hf', ?Ho; try done;
        [by destruct G1|]. split; [done|].
      by eapply sim_same_keys.
  - destruct Hfind as [Ho Hf']. cbn [p' mCurrentSlicedDurationTrackerMap dm_pastBuckets]. rewrite Hf', Ho.
    split; [|done]. constructor; cbn [p' dm_base dm_config mCurrentSlicedDurationTrackerMap dm_pastBuckets]; rewrite ?Hf', ?Ho; done.
Qed.

Lemma partial_ok t c counts p :
  metric_inv t c counts p →
  metric_inv t c counts (duration_flushCurrentBucketLocked t t p) ∧
  measuredFor k t (duration_flushCurrentBucketLocked t t p) = measuredFor k t p.
Proof using Hsize.
  intros Hinv. unfold duration_flushCurrentBucketLocked.
  pose proof (flush_metric t t c counts p t (mCurrentBucketNum (dm_base p)) Hinv) as Hf. cbv zeta in Hf.
  destruct (flushTrackers _ _ _ _) as [[m out] env]. cbn [fst snd] in Hf.
  pose proof (mi_end _ _ _ _ Hinv) as He. pose proof (mi_cfg _ _ _ _ Hinv) as Hcfg.
  apply Hf; [lia|nia| |done|lia].
  intros d key [= H1 H2 H3 H4 H5]. unfold nextBucket, bucketsForward, dt_bucketEndNs.
  unfold getCurrentBucketEndTimeNs in He. rewrite H3, H4, H5 in *. rewrite Hcfg in He.
  destruct (Z.leb_spec (mTimeBaseNs cfg + (mCurrentBucketNum (dm_base p) + 1) * mBucketSizeNs cfg) t); [lia|].
  unfold frame, whatOf in *. cbn. congruence.
Qed.

Lemma flushIfNeeded_ok now t c counts p :
  metric_inv now c counts p → now <= t → t < now + (2 ^ 31 - 2) * mBucketSizeNs cfg →
  metric_inv t c counts (duration_flushIfNeededLocked t p) ∧
  measuredFor k t (duration_flushIfNeededLocked t p) = measuredFor k t p.
Proof using Hsize.
  intros Hinv Hnow Hr. unfold duration_flushIfNeededLocked.
  pose proof (mi_end _ _ _ _ Hinv) as He. pose proof (mi_cfg _ _ _ _ Hinv) as Hcfg.
  destruct (Z.ltb_spec t (getCurrentBucketEndTimeNs (dm_base p))) as [Hlt|Hge].
  { split; [|done]. by apply metric_inv_later with now. }
  rewrite Hcfg. set (n := wrap32 _).
  set (start := getCurrentBucketEndTimeNs (dm_base p) + (n - 1) * mBucketSizeNs cfg).
  unfold duration_flushCurrentBucketLocked.
  pose proof (flush_metric now t c counts p start (mCurrentBucketNum (dm_base p) + n) Hinv) as Hf. cbv zeta in Hf.
  destruct (flushTrackers _ _ _ _) as [[m out] env]. cbn [fst snd] in Hf.
  assert (Hn : 1 <= n ∧ start <= t < start + mBucketSizeNs cfg).
  { pose (d := DurationTracker_new (mkMetricKey (mkKey []) (mkKey [])) 0 false 0 (mCurrentBucketNum (dm_base p))
      (mTimeBaseNs cfg) (mBucketSizeNs cfg) false false).
    assert (Hde : dt_bucketEndNs d = getCurrentBucketEndTimeNs (dm_base p))
      by (unfold getCurrentBucketEndTimeNs; by rewrite Hcfg).
    destruct (bucketsForward_spec t d) as [_ Hb]; [done|unfold flush_range; rewrite Hde; cbn; nia|].
    rewrite Hde in Hb. destruct (Hb Hge) as [Hb1 Hb2].
    assert (Hbn : bucketsForward t d = n).
    { unfold bucketsForward. rewrite Hde. destruct (Z.leb_spec (getCurrentBucketEndTimeNs (dm_base p)) t); [done|lia]. }
    rewrite Hbn in *. unfold start. cbn [dt_bucketSizeNs DurationTracker_new d] in Hb2. lia. }
  apply Hf; [lia|nia| | |lia].
  - intros d key [= H1 H2 H3 H4 H5]. unfold nextBucket, bucketsForward.
    assert (Hde : dt_bucketEndNs d = getCurrentBucketEndTimeNs (dm_base p)).
    { unfold dt_bucketEndNs, getCurrentBucketEndTimeNs. by rewrite H3, H4, H5, Hcfg. }
    rewrite Hde, H5. destruct (Z.leb_spec (getCurrentBucketEndTimeNs (dm_base p)) t); [|lia]. fold n.
    destruct (Z.ltb_spec 0 n); [|lia]. unfold frame, whatOf in *. cbn. rewrite H5. unfold start. congruence.
  - unfold getCurrentBucketEndTimeNs in *. cbn. rewrite Hcfg. unfold start in Hn. rewrite Hcfg in Hn. lia.
Qed.


(** *** Events *)

(** The tracker found at [wk] is replaced. *)
Lemma update_tracker_ok now c counts counts' wk o o' env p :
  metric_inv now c counts p → um_find wk (mCurrentSlicedDurationTrackerMap p) = Some (SumTracker o) →
  frame (od_base o') = frame (od_base o) →
  (if key_eqb k wk then
     let output := outputFor k (dm_pastBuckets p) in
     oring_inv now output o → oring_sim (dm_nested dcfg) (mkDurationSpec c counts) o →
     oring_inv now output o' ∧ measured now output o' = measured now output o ∧
     oring_sim (dm_nested dcfg) (mkDurationSpec c counts') o'
   else counts' = counts) →
  let p' := set_trackers (um_set wk (SumTracker o') (mCurrentSlicedDurationTrackerMap p)) env p in
  metric_inv now c counts' p' ∧ measuredFor k now p' = measuredFor k now p.
Proof using.
  intros Hinv Hf Hfr Ho. set (m := mCurrentSlicedDurationTrackerMap p) in *.
  eapply metric_inv_trackers; [exact Hinv|apply um_wf_set, Hinv| | |]; fold m.
  - eapply um_update_Forall; [done|apply Hinv|]. intros key (Hk & o1 & [= <-] & H1). split; [done|].
    exists o'. split; [done|]. by rewrite Hfr.
  - by eapply um_update_Forall; [|apply Hinv|].
  - pose proof (mi_tracker _ _ _ _ Hinv) as Ht. fold m in Ht.
    destruct (key_eqb k wk) eqn:Ek.
    + rewrite um_find_set_eq by by apply key_eqb_sym. rewrite (um_find_cong k wk), Hf in * by done.
      destruct Ht as [Hi Hs]. by apply Ho.
    + rewrite um_find_set_ne by by rewrite key_eqb_comm. subst counts'. destruct (um_find k m) as [[]|]; naive_solver.
Qed.

(** A tracker is created for a new key. *)
Lemma create_ok now c counts eventKey env p :
  metric_inv now c counts p → mDimensionKeyInWhat eventKey =k mDimensionKeyInWhat eventKey →
  us_mem (mDimensionKeyInWhat eventKey) ks = true →
  um_find (mDimensionKeyInWhat eventKey) (mCurrentSlicedDurationTrackerMap p) = None →
  ∃ o, createDurationTracker eventKey p = SumTracker o ∧
  let p' := set_trackers (um_set (mDimensionKeyInWhat eventKey) (SumTracker o) (mCurrentSlicedDurationTrackerMap p)) env p in
  metric_inv now c counts p' ∧ measuredFor k now p' = measuredFor k now p.
Proof using Hsize Hsliced Hsum.
  intros Hinv Hr Hmem Hf. pose proof Hinv as []. set (wk := mDimensionKeyInWhat eventKey) in *.
  unfold createDurationTracker. rewrite mi_dcfg0, Hsum, mi_cfg0.
  set (d := DurationTracker_new _ _ _ _ _ _ _ _ _). exists (OringDurationTracker_new d). split; [done|].
  set (o := OringDurationTracker_new d).
  set (m := mCurrentSlicedDurationTrackerMap p) in *.
  assert (Hs : synced (dm_base p) (wk, SumTracker o)).
  { split; [done|]. exists o. split; [done|]. cbn. by rewrite mi_cfg0. }
  assert (Hoi : oring_inv now (outputFor k (dm_pastBuckets p)) o).
  { pose proof (synced_end _ _ _ Hs) as He. constructor; [done|by rewrite He|done|done| | |done].
    - by intros e ?%elem_of_nil.
    - unfold heldDuration, pendingDuration. cbn. lia. }
  rewrite um_set_fresh by done.
  assert (Hk : um_find k (m ++ [(wk, SumTracker o)]) =
    if key_eqb k wk then Some (SumTracker o) else um_find k m).
  { rewrite um_find_app. cbn. destruct (key_eqb k wk) eqn:E; [by rewrite (um_find_cong k wk), Hf|].
    by destruct (um_find k m). }
  unfold measuredFor. cbn [set_trackers mCurrentSlicedDurationTrackerMap dm_pastBuckets]. fold m. rewrite Hk. split.
  - constructor; cbn [set_trackers mCurrentSlicedDurationTrackerMap dm_pastBuckets dm_base dm_config]; try done.
    + rewrite <- um_set_fresh by done. by apply um_wf_set.
    + apply Forall_app_2; [done|]. by apply Forall_cons_2; [|apply Forall_nil_2].
    + apply Forall_app_2; [done|]. by apply Forall_cons_2; [|apply Forall_nil_2].
    + rewrite Hk. destruct (key_eqb k wk) eqn:E; [|done]. rewrite (um_find_cong k wk), Hf in mi_tracker0 by done.
      subst counts. split; [done|]. constructor; cbn; try done; by destruct c.
  - destruct (key_eqb k wk) eqn:E; [|done]. rewrite (um_find_cong k wk), Hf by done.
    unfold measured, heldDuration, pendingDuration. cbn. lia.
Qed.

Lemma noteStart_event_ok now t c counts eventKey ck values p :
  metric_inv now c counts p → (c = true → now = t) →
  let wk := mDimensionKeyInWhat eventKey in
  wk =k wk → us_mem wk ks = true →
  ∃ p', handleStartEvent eventKey ck c t values p = Some p' ∧
    metric_inv now c (if key_eqb k wk then incr (internalKey p wk values) counts else counts) p' ∧
    measuredFor k now p' = measuredFor k now p ∧ dm_base p' = dm_base p.
Proof using Hsize Hsliced Hsum Hks.
  intros Hinv Hc wk Hwk Hmem. unfold handleStartEvent. fold wk.
  set (m := mCurrentSlicedDurationTrackerMap p).
  assert (Hg : negb (um_mem wk m) && duration_hitGuardRailLocked eventKey p = false).
  { unfold duration_hitGuardRailLocked. fold wk m. destruct (um_mem wk m) eqn:Em; [done|]. cbn [negb andb].
    apply andb_false_iff. right. apply Z.ltb_ge. unfold size. unfold um_mem in Em.
    destruct (um_find wk m) eqn:Ef; [done|].
    pose proof (keys_bound (m ++ [(wk, MaxTracker (MaxDurationTracker_new (DurationTracker_new eventKey 0 false 0 0 0 0 false false)))]) ks) as Hb.
    rewrite length_app in Hb. cbn [length] in Hb. rewrite <- um_set_fresh in Hb by done.
    assert (um_wf m) by apply Hinv. assert (Hmm : Forall (λ e, us_mem e.1 ks = true) m) by apply Hinv.
    specialize (Hb (um_wf_set _ _ _ H)). rewrite um_set_fresh in Hb by done.
    assert (length m + 1 <= length ks)%nat; [|lia]. apply Hb, Forall_app_2; [done|].
    by apply Forall_cons_2; [|apply Forall_nil_2]. }
  rewrite Hg.
  set (m1 := if um_mem wk m then m else um_set wk (createDurationTracker eventKey p) m).
  assert (H1 : ∃ o, um_find wk m1 = Some (SumTracker o) ∧
    metric_inv now c counts (set_trackers m1 (dm_anomaly p) p) ∧
    measuredFor k now (set_trackers m1 (dm_anomaly p) p) = measuredFor k now p).
  { unfold m1, um_mem. destruct (um_find wk m) as [tr|] eqn:Ef.
    - destruct (um_find_Forall (synced (dm_base p)) wk tr m Ef (mi_sync _ _ _ _ Hinv)) as (key & _ & o & Eo & _).
      cbn in Eo. subst tr. exists o. by destruct p.
    - destruct (create_ok now c counts eventKey (dm_anomaly p) p Hinv Hwk Hmem Ef) as (o & -> & Hc1 & Hc2).
      exists o. split; [by apply um_find_set_eq|done]. }
  destruct H1 as (o & Hf & Hi1 & Hm1). rewrite Hf. cbn [mbind option_bind noteStart dispatch].
  pose proof (noteStart_frame (internalKey p wk values) c t ck o (dm_anomaly p)) as Hfr.
  set (counts' := if key_eqb k wk then _ else _).
  pose proof (update_tracker_ok now c counts counts' wk o (oring_noteStart (internalKey p wk values) c t ck (o, dm_anomaly p)).1
    (oring_noteStart (internalKey p wk values) c t ck (o, dm_anomaly p)).2 _ Hi1 Hf Hfr) as Hu.
  destruct (oring_noteStart _ _ _ _ _) as [o' env'] eqn:Eo. cbn [fst snd] in Hu. eexists. split; [done|].
  destruct Hu as [H2 H3].
  { unfold counts'. destruct (key_eqb k wk); [|done]. intros Hoi Hos.
    destruct (tracker_step (dm_nested dcfg) now t c counts (OpStart (internalKey p wk values) ck) (outputFor k (dm_pastBuckets p)) o (dm_anomaly p))
      as (G1 & G2 & G3); [by left|done|done|exact Hoi|exact Hos|].
    cbn [oring_apply snd] in *. rewrite Eo in *. done. }
  cbn [set_trackers mCurrentSlicedDurationTrackerMap dm_anomaly] in H2, H3. split_and!; [exact H2|exact (eq_trans H3 Hm1)|done].
Qed.

Lemma stop_event_ok now t c counts wk values p :
  metric_inv now c counts p → (c = true → now = t) →
  let p' := handleStopEvent wk values t p in
  metric_inv now c (if key_eqb k wk then spec_stop (dm_nested dcfg) (internalKey p wk values) counts else counts) p' ∧
  measuredFor k now p' = measuredFor k now p ∧ dm_base p' = dm_base p.
Proof using.
  intros Hinv Hc. unfold handleStopEvent. set (m := mCurrentSlicedDurationTrackerMap p).
  destruct (um_find wk m) as [tr|] eqn:Ef.
  2:{ cbv zeta. split_and!; try done. destruct (key_eqb k wk) eqn:E; [|done].
      assert (counts = []) as ->; [|done]. pose proof (mi_tracker _ _ _ _ Hinv) as Ht. fold m in Ht.
      by rewrite (um_find_cong k wk), Ef in Ht. }
  destruct (um_find_Forall (synced (dm_base p)) wk tr m Ef (mi_sync _ _ _ _ Hinv)) as (key & _ & o & Eo & _).
  cbn in Eo. subst tr. cbn [noteStop dispatch].
  pose proof (noteStop_frame (internalKey p wk values) t false o (dm_anomaly p)) as Hfr.
  set (counts' := if key_eqb k wk then _ else _).
  pose proof (update_tracker_ok now c counts counts' wk o (oring_noteStop (internalKey p wk values) t false (o, dm_anomaly p)).1
    (oring_noteStop (internalKey p wk values) t false (o, dm_anomaly p)).2 _ Hinv Ef Hfr) as Hu.
  destruct (oring_noteStop _ _ _ _) as [o' env'] eqn:Eo. cbn [fst snd] in Hu.
  destruct Hu as [H2 H3]; [|done]. unfold counts'. destruct (key_eqb k wk); [|done]. intros Hoi Hos.
  destruct (tracker_step (dm_nested dcfg) now t c counts (OpStop (internalKey p wk values)) (outputFor k (dm_pastBuckets p)) o (dm_anomaly p))
    as (G1 & G2 & G3); [by left|done|done|exact Hoi|exact Hos|].
  cbn [oring_apply snd] in *. rewrite Eo in *. done.
Qed.

(** The key of an event in the metric and inside its tracker. *)
Definition eventKeyOf (values : list FieldValue) : HashableDimensionKey :=
  match mDimensionsInWhat cfg with
  | [] => DEFAULT_DIMENSION_KEY
  | dims => (filterValues dims values DEFAULT_DIMENSION_KEY).2
  end.

Definition innerKeyOf (values : list FieldValue) : HashableDimensionKey :=
  if mUseWhatDimensionAsInternalDimension dcfg then eventKeyOf values
  else match mInternalDimensions dcfg with
       | [] => DEFAULT_DIMENSION_KEY
       | dims => (filterValues dims values DEFAULT_DIMENSION_KEY).2
       end.

(** The contract of an event: which keys of [k] are started. *)
Definition spec_event (matcherIndex : Z) (values : list FieldValue) (counts : umap HashableDimensionKey Z)
    : umap HashableDimensionKey Z :=
  if matcherIndex =? mStopAllIndex dcfg then []
  else if negb (key_eqb k (eventKeyOf values)) then counts
  else if matcherIndex =? mStopIndex dcfg
       then spec_stop (dm_nested dcfg) (innerKeyOf values) counts
       else incr (innerKeyOf values) counts.

Lemma event_ok uninit states now t c counts i values p :
  metric_inv now c counts p → c = bool_decide (mCondition (dm_base p) = kTrue) && mIsActive (mActivity (dm_base p)) →
  now <= t < now + (2 ^ 31 - 2) * mBucketSizeNs cfg → mTimeBaseNs cfg <= t →
  eventKeyOf values =k eventKeyOf values → us_mem (eventKeyOf values) ks = true →
  ∃ p' now', handleMatchedLogEventValuesLocked wizard uninit states i values t p = Some p' ∧
    now <= now' <= t ∧ (c = true → now' = t) ∧ metric_inv now' c (spec_event i values counts) p' ∧
    measuredFor k t p' = measuredFor k t p ∧ switches p' = switches p.
Proof using Hsize Hsliced Hsum Hks.
  intros Hinv Hc Ht Hbase Hk Hmem. unfold handleMatchedLogEventValuesLocked.
  rewrite (mi_cfg _ _ _ _ Hinv). destruct (Z.ltb_spec t (mTimeBaseNs cfg)); [lia|].
  set (active := mIsActive (mActivity (dm_base p))) in *.
  set (p1 := if active then _ else _).
  assert (H1 : ∃ now', now <= now' <= t ∧ (c = true → now' = t) ∧ metric_inv now' c counts p1 ∧
    measuredFor k t p1 = measuredFor k t p ∧ switches p1 = switches p).
  { unfold p1. destruct active.
    - exists t. destruct (flushIfNeeded_ok now t c counts p) as [G1 G2]; [done|lia|lia|].
      split_and!; [lia|lia|done|done|done|apply flushIfNeeded_switches].
    - exists now. rewrite andb_false_r in Hc. subst c. split_and!; done || lia. }
  destruct H1 as (now' & Hn & Hn' & Hinv1 & Hm1 & Hs1). clearbody p1.
  pose proof (mi_cfg _ _ _ _ Hinv1) as Hcfg. pose proof (mi_dcfg _ _ _ _ Hinv1) as Hdcfg.
  assert (Hwhat : whatKeyOf p1 values = eventKeyOf values) by (unfold whatKeyOf; by rewrite Hcfg).
  assert (Hin : internalKey p1 (eventKeyOf values) values = innerKeyOf values)
    by (unfold internalKey, innerKeyOf; by rewrite Hdcfg).
  rewrite Hdcfg, Hwhat. unfold spec_event.
  destruct (i =? mStopAllIndex dcfg).
  { exists (forTrackers (λ _, noteStopAll t) p1), now'. split; [done|].
    destruct (forTrackers_ok (λ _, oring_noteStopAll t) (λ _, max_noteStopAll t) now' c c counts [] p1) as [G1 G2];
      [intros _; apply noteStopAll_frame| |done|done|].
    { intros _ output o env Hoi Hos. apply (tracker_step (dm_nested dcfg) now' t c counts OpStopAll output o env);
        [by left|done|done|done|done]. }
    split_and!; [lia|lia|done|exact G1| |by rewrite forTrackers_switches].
    rewrite <- Hm1. by apply (measured_same now' t c counts []). }
  destruct (i =? mStopIndex dcfg).
  { destruct (stop_event_ok now' t c counts (eventKeyOf values) values p1 Hinv1 Hn') as (G1 & G2 & G3).
    exists (handleStopEvent (eventKeyOf values) values t p1), now'. split; [done|]. rewrite Hin in G1.
    split_and!; [lia|lia|done|by destruct (key_eqb k (eventKeyOf values))| |unfold switches; rewrite G3; done].
    rewrite <- Hm1. by eapply measured_same. }
  rewrite Hsliced.
  assert (Hc1 : bool_decide (mCondition (dm_base p1) = kTrue) && active = c).
  { unfold switches in Hs1. injection Hs1 as Hs1 _. rewrite Hs1. by subst c. }
  rewrite Hc1. set (ek := mkMetricKey (eventKeyOf values) _).
  destruct (noteStart_event_ok now' t c counts ek ∅ values p1 Hinv1 Hn' Hk Hmem) as (p2 & -> & G1 & G2 & G3).
  cbn [ek mDimensionKeyInWhat] in G1. rewrite Hin in G1.
  exists p2, now'. split_and!; [done|lia|lia|done|by destruct (key_eqb k (eventKeyOf values))| |unfold switches; rewrite G3; done].
  rewrite <- Hm1. by eapply measured_same.
Qed.

(** *** Conditions, states, activations *)

(** A change of the condition of all trackers, brought up to [t]. *)
Lemma conditionChanged_ok t c c' counts p :
  metric_inv t c counts p →
  metric_inv t c' counts (forTrackers (λ _, onConditionChanged c' t) p) ∧
  measuredFor k t (forTrackers (λ _, onConditionChanged c' t) p) = measuredFor k t p.
Proof using.
  apply (forTrackers_ok (λ _, oring_onConditionChanged c' t) (λ _, max_onConditionChanged c' t));
    [intros _; apply conditionChanged_frame| |done].
  intros _ output o env Hoi Hos. apply (tracker_step (dm_nested dcfg) t t c counts (OpCondition c') output o env);
    [by right|done|done|done|done].
Qed.

(** Members the invariant does not speak of. *)
Lemma metric_inv_base now c counts (b : MetricProducer) p :
  mConfig b = mConfig (dm_base p) → mCurrentBucketStartTimeNs b = mCurrentBucketStartTimeNs (dm_base p) →
  mCurrentBucketNum b = mCurrentBucketNum (dm_base p) →
  metric_inv now c counts p → metric_inv now c counts (set_dm_base b p).
Proof using.
  intros H1 H2 H3 []. assert (He : getCurrentBucketEndTimeNs b = getCurrentBucketEndTimeNs (dm_base p))
    by (unfold getCurrentBucketEndTimeNs; by rewrite H1, H3).
  constructor; cbn [set_dm_base dm_base dm_config mCurrentSlicedDurationTrackerMap dm_pastBuckets];
    rewrite ?H1, ?H2, ?He; try done.
  eapply Forall_impl; [exact mi_sync0|]. intros e. unfold synced. by rewrite H1, H2, H3.
Qed.

Definition on_condition (b : bool) : ConditionState := if b then kTrue else kFalse.

Lemma metricCondition_ok now t c counts b p :
  let active := mIsActive (mActivity (dm_base p)) in
  metric_inv now c counts p → c = bool_decide (mCondition (dm_base p) = kTrue) && active →
  now <= t < now + (2 ^ 31 - 2) * mBucketSizeNs cfg →
  let p' := duration_onConditionChangedLocked b t p in
  ∃ now', now <= now' <= t ∧ (active = true → now' = t) ∧ metric_inv now' (b && active) counts p' ∧
    measuredFor k t p' = measuredFor k t p ∧ switches p' = (on_condition b, mActivity (dm_base p)).
Proof using Hsize.
  intros active Hinv Hc Ht. unfold duration_onConditionChangedLocked. cbv zeta.
  set (p1 := set_dm_base _ p).
  assert (H1 : metric_inv now c counts p1) by by apply metric_inv_base.
  change (mIsActive (mActivity (dm_base p1))) with active. destruct active eqn:Ea; cbn [negb].
  - exists t. destruct (flushIfNeeded_ok now t c counts p1) as [G1 G2]; [done|lia|lia|].
    rewrite andb_true_r. destruct (conditionChanged_ok t c b counts _ G1) as [G3 G4].
    split_and!; [lia|lia|done|done|by rewrite G4, G2|by rewrite forTrackers_switches, flushIfNeeded_switches].
  - exists now. rewrite !andb_false_r in *. subst c. split_and!; [lia|lia|done|done|done|done].
Qed.

Lemma metricState_ok now t c counts atomId pk old new p :
  metric_inv now c counts p → now <= t < now + (2 ^ 31 - 2) * mBucketSizeNs cfg →
  let p' := duration_onStateChanged t atomId pk old new p in
  metric_inv t c counts p' ∧ measuredFor k t p' = measuredFor k t p ∧ switches p' = switches p.
Proof using Hsize.
  intros Hinv Ht. unfold duration_onStateChanged. cbv zeta.
  set (links := mMetric2StateLinks _). set (v := mapStateValue _ _ _).
  destruct (flushIfNeeded_ok now t c counts p) as [G1 G2]; [done|lia|lia|].
  rewrite <- G2, <- (flushIfNeeded_switches t p). set (p1 := duration_flushIfNeededLocked t p) in *. clearbody p1.
  pose (f := λ key (s : OringDurationTracker * AnomalyEnv),
    if negb (containsLinkedStateValues key pk links atomId) then s else (oring_onStateChanged t atomId v s.1, s.2)).
  pose (g := λ (_ : HashableDimensionKey) (s : MaxDurationTracker * AnomalyEnv), s).
  assert (E : forTrackers (λ whatKey s, if negb (containsLinkedStateValues whatKey pk links atomId) then s
      else onStateChanged t atomId v s) p1 = forTrackers (λ key, dispatch (f key) (g key)) p1).
  { unfold forTrackers. erewrite forEach_ext; [done|]. intros key [[o|x] env]; unfold f, g; cbn;
      by destruct (negb (containsLinkedStateValues key pk links atomId)). }
  rewrite E. split; [|split; [|apply forTrackers_switches]]; apply (forTrackers_ok f g t c c counts counts p1); try done.
  all: try (intros key o env; unfold f; destruct (negb _); [done|]; apply stateChanged_frame).
  all: intros key output o env Hoi Hos; unfold f; destruct (negb _); [done|];
    apply (tracker_step (dm_nested dcfg) t t c counts (OpState atomId v) output o env); [by right|done|done|done|done].
Qed.

(** The metric has become active or inactive; [p] already has the new flag. *)
Lemma activeChanged_ok now t c counts p :
  let active := mIsActive (mActivity (dm_base p)) in
  let cond := bool_decide (mCondition (dm_base p) = kTrue) in
  metric_inv now c counts p → c = cond && negb active → now <= t < now + (2 ^ 31 - 2) * mBucketSizeNs cfg →
  let p' := duration_onActiveStateChangedLocked wizard t p in
  ∃ now', now <= now' <= t ∧ (cond && active = true → now' = t) ∧ metric_inv now' (cond && active) counts p' ∧
    measuredFor k t p' = measuredFor k t p ∧ switches p' = switches p.
Proof using Hsize Hsliced.
  intros active cond Hinv Hc Ht. cbv zeta. rewrite activeStateChanged_switches.
  unfold duration_onActiveStateChangedLocked, base_onActiveStateChangedLocked. fold active.
  destruct active eqn:Ea.
  - fold active. rewrite Ea, (mi_cfg _ _ _ _ Hinv), Hsliced. cbn [negb]. fold cond. rewrite andb_false_r in Hc. subst c.
    destruct cond eqn:Ec; cbn [negb andb].
    + exists t. destruct (flushIfNeeded_ok now t false counts p) as [G1 G2]; [done|lia|lia|].
      destruct (conditionChanged_ok t false true counts _ G1) as [G3 G4].
      split_and!; [lia|lia|done|done|by rewrite G4, G2|done].
    + exists now. split_and!; done || lia.
  - destruct (flushIfNeeded_ok now t c counts p) as [G1 G2]; [done|lia|lia|].
    destruct (partial_ok t c counts _ G1) as [G3 G4].
    set (p1 := duration_flushCurrentBucketLocked t t _) in *.
    assert (Hs : switches p1 = switches p) by (unfold p1; by rewrite flushCurrentBucket_switches, flushIfNeeded_switches).
    injection Hs as Hs1 Hs2. rewrite Hs1, Hs2. fold active. rewrite Ea. fold cond.
    rewrite (mi_cfg _ _ _ _ G3), Hsliced. cbn [negb]. rewrite andb_false_r. rewrite andb_true_r in Hc. subst c.
    exists t. destruct cond eqn:Ec; cbn [negb].
    + destruct (conditionChanged_ok t true false counts _ G3) as [G5 G6].
      split_and!; [lia|lia|done|done|by rewrite G6, G4, G2|done].
    + split_and!; [lia|lia|done|done|by rewrite G4, G2|done].
Qed.

(** *** Reports *)

Definition infoDuration (i : DurationBucketInfo) : Z :=
  match i with PartialDuration _ _ d | FullDuration _ d => d end.

(** The durations a report gives for the key. *)
Definition reportDuration (r : DurationReport) : Z :=
  match dr_data r with
  | None => 0
  | Some (_, _, data) =>
      sumZ ((λ e : MetricDimensionKey * list DurationBucketInfo, sumZ (infoDuration <$> e.2)) <$>
            List.filter (λ e, key_eqb k (mDimensionKeyInWhat e.1)) data)
  end.

Lemma infos_duration b l : sumZ (infoDuration <$> (durationInfo b <$> l)) = bucketsDuration l.
Proof using.
  unfold bucketsDuration. induction l as [|x l IH]; [done|]. rewrite !fmap_cons, !sumZ_cons, IH.
  f_equal. unfold durationInfo. by destruct (negb _).
Qed.

Lemma report_duration b id active base size output :
  reportDuration (mkDurationReport id active (Some (base, size, durationEntry b <$> output))) =
  outputDuration (outputFor k output).
Proof using.
  unfold reportDuration, outputDuration, outputFor, sumOf. cbn [dr_data].
  induction output as [|[mk l] output IH]; [done|]. rewrite fmap_cons. cbn [List.filter durationEntry fst snd].
  destruct (key_eqb k (mDimensionKeyInWhat mk)); [|exact IH]. rewrite !fmap_cons, !sumZ_cons, IH.
  f_equal. apply infos_duration.
Qed.

Lemma clear_ok t c counts p :
  metric_inv t c counts p →
  metric_inv t c counts (set_dm_past [] p) ∧
  measuredFor k t p = outputDuration (outputFor k (dm_pastBuckets p)) + measuredFor k t (set_dm_past [] p).
Proof using.
  intros []. unfold measuredFor. cbn [set_dm_past mCurrentSlicedDurationTrackerMap dm_pastBuckets].
  split; [constructor; cbn [set_dm_past mCurrentSlicedDurationTrackerMap dm_pastBuckets dm_base dm_config]; try done|].
  - intros e b He. by apply elem_of_nil in He.
  - destruct (um_find k _) as [[o|x]|]; [|done..]. destruct mi_tracker0 as [[] ?]. split; [|done].
    constructor; try done. intros e b He. by apply elem_of_nil in He.
  - destruct (um_find k _) as [[o|x]|]; [|done|change (outputDuration (outputFor k [])) with 0; lia].
    unfold measured. change (outputDuration (outputFor k [])) with 0. lia.
Qed.

Lemma dump_ok now t c counts include p :
  metric_inv now c counts p → now <= t < now + (2 ^ 31 - 2) * mBucketSizeNs cfg →
  let r := duration_onDumpReportLocked t include true p in
  metric_inv t c counts r.2 ∧ reportDuration r.1 + measuredFor k t r.2 = measuredFor k t p ∧
  switches r.2 = switches p.
Proof using Hsize.
  intros Hinv Ht. unfold duration_onDumpReportLocked.
  destruct (flushIfNeeded_ok now t c counts p) as [G1 G2]; [done|lia|lia|].
  destruct (partial_ok t c counts _ G1) as [G3 G4].
  set (p1 := duration_flushIfNeededLocked t p) in *.
  set (p2 := if include then duration_flushCurrentBucketLocked t t p1 else p1).
  assert (H2 : metric_inv t c counts p2 ∧ measuredFor k t p2 = measuredFor k t p ∧ switches p2 = switches p).
  { unfold p2. destruct include; (split_and!; [done|by rewrite ?G4|]); rewrite ?flushCurrentBucket_switches;
      apply flushIfNeeded_switches. }
  destruct H2 as (I1 & I2 & I3). destruct (dm_pastBuckets p2) as [|e l] eqn:Ep; cbn [fst snd].
  - split_and!; [done| |done]. unfold reportDuration. cbn [dr_data]. lia.
  - destruct (clear_ok t c counts p2 I1) as [J1 J2]. split_and!; [done| |done].
    rewrite <- Ep, report_duration, <- I2, J2. done.
Qed.

(** A flush of the current bucket leaves nothing pending. *)
Lemma partial_drains t c counts p :
  metric_inv t c counts p →
  let p' := duration_flushCurrentBucketLocked t t p in
  measuredFor k t p' = outputDuration (outputFor k (dm_pastBuckets p')).
Proof using.
  intros []. unfold duration_flushCurrentBucketLocked, measuredFor.
  assert (Hall : Forall (λ e, e.1 =k e.1 ∧ ∃ o, e.2 = SumTracker o ∧ whatOf (od_base o) = e.1)
    (mCurrentSlicedDurationTrackerMap p)).
  { eapply Forall_impl; [exact mi_sync0|]. intros [key tr] (Hk & o & -> & [= Hw _ _ _ _]).
    split; [done|]. by exists o. }
  pose proof (flushTrackers_find k t _ (dm_pastBuckets p) (dm_anomaly p) mi_wf0 Hall) as Hfind. cbv zeta in Hfind.
  destruct (flushTrackers _ _ _ _) as [[m' out'] env2]. cbn [fst snd] in *.
  cbn [mCurrentSlicedDurationTrackerMap dm_pastBuckets].
  destruct (um_find k (mCurrentSlicedDurationTrackerMap p)) as [[o|x]|] eqn:Ef; [|done|by destruct Hfind as [_ ->]].
  destruct mi_tracker0 as [Hoi _]. destruct Hfind as (env' & Ho & ->).
  destruct (oring_flush_spec t t (outputFor k (dm_pastBuckets p)) o env' Hoi) as (_ & _ & _ & G4 & G5); [lia| |].
  { destruct Hoi. unfold flush_range. nia. }
  destruct (oring_flushCurrentBucket _ _ _) as [[erase out1] [o1 env1]]. cbn [fst snd] in *.
  destruct erase; [done|]. unfold measured, pendingDuration. rewrite G4, G5 by by destruct Hoi.
  destruct (isEmpty _); lia.
Qed.

(** *** Runs *)

Inductive MetricOp :=
  | MEvent (uninit : Z) (states : StateManager) (matcherIndex : Z) (values : list FieldValue)
  | MCondition (conditionMet : bool)
  | MState (atomId : Z) (primaryKey : HashableDimensionKey) (oldState newState : FieldValue)
  | MActivate (index : Z)
  | MExpire
  | MUpgrade
  | MDump (include_current_partial_bucket : bool).

Definition metric_step (t : Z) (op : MetricOp) (p : DurationMetricProducer)
    : option (DurationMetricProducer * list DurationReport) :=
  let ops := duration_metric_ops wizard in
  match op with
  | MEvent uninit states i values =>
      p ← handleMatchedLogEventValuesLocked wizard uninit states i values t p; Some (p, [])
  | MCondition b => Some (duration_onConditionChangedLocked b t p, [])
  | MState atomId pk old new => Some (duration_onStateChanged t atomId pk old new p, [])
  | MActivate i => Some (activateLocked i t p, [])
  | MExpire => Some (flushIfExpire t p, [])
  | MUpgrade => Some (notifyAppUpgrade t p, [])
  | MDump include => let r := duration_onDumpReportLocked t include true p in Some (r.2, [r.1])
  end.

Fixpoint metric_run (evs : list (Z * MetricOp)) (p : DurationMetricProducer)
    : option (DurationMetricProducer * list DurationReport) :=
  match evs with
  | [] => Some (p, [])
  | (t, op) :: evs =>
      r ← metric_step t op p;
      r' ← metric_run evs r.1;
      Some (r'.1, r.2 ++ r'.2)
  end.

(** The contract: the condition, the activations and the started keys of [k]. *)
Record MetricSpec := mkMetricSpec {
  mspec_condition : bool; mspec_activity : Activity; mspec_started : umap HashableDimensionKey Z
}.

Definition mspec_on (s : MetricSpec) : bool := mspec_condition s && mIsActive (mspec_activity s).

Definition mspec_step (t : Z) (op : MetricOp) (s : MetricSpec) : MetricSpec :=
  let '(mkMetricSpec c a m) := s in
  match op with
  | MEvent _ _ i values => mkMetricSpec c a (spec_event i values m)
  | MCondition b => mkMetricSpec b a m
  | MActivate i => mkMetricSpec c (activated i t a) m
  | MExpire =>
      mkMetricSpec c (if mIsActive a then let (b, a) := evaluateActiveStateLocked t a in set_active b a else a) m
  | _ => s
  end.

(** The time during which the condition holds, the metric is active and a key is started. *)
Fixpoint mspec_run (last : Z) (evs : list (Z * MetricOp)) (s : MetricSpec) : Z :=
  match evs with
  | [] => 0
  | (t, op) :: evs =>
      (if mspec_on s && negb (isEmpty (mspec_started s)) then t - last else 0)
      + mspec_run t evs (mspec_step t op s)
  end.

(** The metric was brought up to some time not after [last]. *)
Definition related (t0 last : Z) (s : MetricSpec) (p : DurationMetricProducer) : Prop :=
  mspec_condition s = bool_decide (mCondition (dm_base p) = kTrue) ∧ mspec_activity s = mActivity (dm_base p) ∧
  ∃ now, t0 <= now <= last ∧ metric_inv now (mspec_on s) (mspec_started s) p.

(** The key of an event equals itself and is one of the keys [ks]. *)
Definition event_fine (op : MetricOp) : Prop :=
  match op with
  | MEvent _ _ _ values => eventKeyOf values =k eventKeyOf values ∧ us_mem (eventKeyOf values) ks = true
  | _ => True
  end.

Lemma activity_step_ok t0 last t c a a' counts p :
  let s := mkMetricSpec c a counts in
  related t0 last s p → last <= t < t0 + (2 ^ 31 - 2) * mBucketSizeNs cfg →
  mIsActive a' ≠ mIsActive a →
  let p' := duration_onActiveStateChangedLocked wizard t (set_dm_base (set_activity a' (dm_base p)) p) in
  related t0 t (mkMetricSpec c a' counts) p' ∧ measuredFor k t p' = measuredFor k t p.
Proof using Hsize Hsliced.
  intros s (Hc & Ha & now & Hn & Hinv) Ht Hne. cbn [mspec_condition mspec_activity mspec_started s] in *. cbv zeta.
  set (p1 := set_dm_base _ p).
  assert (Hinv1 : metric_inv now (c && mIsActive a) counts p1) by by apply metric_inv_base.
  destruct (activeChanged_ok now t (c && mIsActive a) counts p1) as (now' & G1 & _ & G3 & G4 & G5); [done| |lia|].
  { cbn [p1 set_dm_base dm_base set_activity mCondition mActivity]. rewrite <- Hc.
    f_equal. by destruct (mIsActive a), (mIsActive a'). }
  cbn [p1 set_dm_base dm_base set_activity mCondition mActivity] in G3. rewrite <- Hc in G3.
  injection G5 as G5 G6. split; [|exact G4].
  split_and!; [by rewrite G5|by rewrite G6|]. exists now'. split; [lia|exact G3].
Qed.

Lemma quiet_step_ok t0 last t c a a' counts p :
  related t0 last (mkMetricSpec c a counts) p → last <= t → mIsActive a' = mIsActive a →
  let p' := set_dm_base (set_activity a' (dm_base p)) p in
  related t0 t (mkMetricSpec c a' counts) p' ∧ measuredFor k t p' = measuredFor k t p.
Proof using.
  intros (Hc & Ha & now & Hn & Hinv) Ht He. cbn [mspec_condition mspec_activity mspec_started] in *.
  split; [|done]. split_and!; [done|done|]. exists now. split; [lia|]. apply metric_inv_base; [done..|].
  unfold mspec_on in *. cbn in *. by rewrite He.
Qed.

Lemma set_activity_same p : set_dm_base (set_activity (mActivity (dm_base p)) (dm_base p)) p = p.
Proof using. by destruct p as [[] ? ? ? ? ?]. Qed.

Lemma activate_step_ok t0 last t i s p :
  related t0 last s p → last <= t < t0 + (2 ^ 31 - 2) * mBucketSizeNs cfg →
  let p' := @activateLocked _ (duration_metric_ops wizard) i t p in
  related t0 t (mspec_step t (MActivate i) s) p' ∧ measuredFor k t p' = measuredFor k t p.
Proof using Hsize Hsliced.
  intros Hrel Ht. destruct s as [c a counts]. pose proof (proj1 (proj2 Hrel)) as Ha. cbn in Ha.
  assert (Hsame : ∀ a', a' = a → related t0 t (mkMetricSpec c a' counts) p ∧ measuredFor k t p = measuredFor k t p).
  { intros a' ->. rewrite <- (set_activity_same p), <- Ha. apply (quiet_step_ok t0 last t c a a counts p); [done|lia|done]. }
  cbn [mspec_step]. unfold activateLocked, activated, on_activity, activity.
  change (base (MetricOps := duration_metric_ops wizard) p) with (dm_base p). rewrite <- Ha.
  destruct (mEventActivationMap a !! i) as [ptr|]; [|by apply Hsame].
  destruct (mActivations a !! ptr) as [x|]; [|by apply Hsame].
  destruct (bool_decide (activationType x = ACTIVATE_ON_BOOT)).
  - destruct (bool_decide (act_state x = kNotActive)); [|by apply Hsame].
    apply (quiet_step_ok t0 last t c a); [done|lia|done].
  - destruct (mIsActive a) eqn:Ea.
    + apply (quiet_step_ok t0 last t c a); [done|lia|done].
    + apply (activity_step_ok t0 last t c a); [done|lia|]. by rewrite Ea.
Qed.

Lemma expire_step_ok t0 last t s p :
  related t0 last s p → last <= t < t0 + (2 ^ 31 - 2) * mBucketSizeNs cfg →
  let p' := @flushIfExpire _ (duration_metric_ops wizard) t p in
  related t0 t (mspec_step t MExpire s) p' ∧ measuredFor k t p' = measuredFor k t p.
Proof using Hsize Hsliced.
  intros Hrel Ht. destruct s as [c a counts]. pose proof (proj1 (proj2 Hrel)) as Ha. cbn in Ha.
  cbn [mspec_step]. unfold flushIfExpire, on_activity, activity.
  change (base (MetricOps := duration_metric_ops wizard) p) with (dm_base p). rewrite <- Ha.
  destruct (mIsActive a) eqn:Ea; cbn [negb].
  - destruct (evaluateActiveStateLocked t a) as [b a']. destruct b.
    + apply (quiet_step_ok t0 last t c a); [done|lia|done].
    + apply (activity_step_ok t0 last t c a); [done|lia|]. by rewrite Ea.
  - rewrite <- (set_activity_same p), <- Ha. apply (quiet_step_ok t0 last t c a a counts p); [done|lia|done].
Qed.

Lemma metric_step_ok t0 last t op s p :
  related t0 last s p → last <= t < t0 + (2 ^ 31 - 2) * mBucketSizeNs cfg → mTimeBaseNs cfg <= t0 →
  event_fine op →
  ∃ p' reports, metric_step t op p = Some (p', reports) ∧ related t0 t (mspec_step t op s) p' ∧
    sumZ (reportDuration <$> reports) + measuredFor k t p' = measuredFor k t p.
Proof using Hsize Hsliced Hsum Hks.
  intros Hrel Ht Hb Hfine. pose proof Hrel as (Hc & Ha & now & Hn & Hinv).
  destruct op as [uninit states i values|b|atomId pk old new|i| | |include]; cbn [metric_step mspec_step].
  - destruct s as [c a counts]. unfold mspec_on in Hinv. cbn [mspec_condition mspec_activity mspec_started] in *.
    destruct (event_ok uninit states now t (c && mIsActive a) counts i values p)
      as (p' & now' & -> & G1 & _ & G3 & G4 & G5); [done|by rewrite Hc, Ha|lia|lia|by destruct Hfine..|].
    exists p', []. injection G5 as G5 G6. cbn [mbind option_bind sumZ fmap list_fmap foldr].
    split_and!; [done| |cbn; lia]. split_and!; [by rewrite G5|by rewrite G6|]. exists now'. split; [lia|exact G3].
  - destruct s as [c a counts]. unfold mspec_on in Hinv. cbn [mspec_condition mspec_activity mspec_started] in *.
    destruct (metricCondition_ok now t (c && mIsActive a) counts b p) as (now' & G1 & _ & G3 & G4 & G5);
      [done|by rewrite Hc, Ha|lia|].
    eexists _, []. split; [done|]. injection G5 as G5 G6. split; [|cbn; lia].
    split_and!; [by rewrite G5; destruct b|by rewrite G6|]. exists now'. split; [lia|]. by rewrite <- Ha in G3.
  - destruct (metricState_ok now t (mspec_on s) (mspec_started s) atomId pk old new p) as (G1 & G2 & G3); [done|lia|].
    eexists _, []. split; [done|]. injection G3 as G3 G4. split; [|cbn; lia]. destruct s as [c a counts].
    split_and!; [by rewrite G3|by rewrite G4|]. exists t. split; [lia|done].
  - destruct (activate_step_ok t0 last t i s p Hrel Ht) as [G1 G2]. eexists _, []. split; [done|].
    split; [done|]. cbn. lia.
  - destruct (expire_step_ok t0 last t s p Hrel Ht) as [G1 G2]. eexists _, []. split; [done|].
    split; [done|]. cbn. lia.
  - destruct (flushIfNeeded_ok now t (mspec_on s) (mspec_started s) p) as [G1 G2]; [done|lia|lia|].
    destruct (partial_ok t _ _ _ G1) as [G3 G4].
    pose proof (flushCurrentBucket_switches t t (duration_flushIfNeededLocked t p)) as Hs.
    rewrite flushIfNeeded_switches in Hs. injection Hs as Hs1 Hs2.
    eexists _, []. split; [done|]. split; [|cbn; cbn in *; lia]. destruct s as [c a counts].
    split_and!; [cbn; by rewrite Hs1|cbn; by rewrite Hs2|]. exists t. split; [lia|exact G3].
  - destruct (dump_ok now t (mspec_on s) (mspec_started s) include p) as (G1 & G2 & G3); [done|lia|].
    eexists _, [_]. split; [done|]. injection G3 as G3 G4. split; [|cbn; lia]. destruct s as [c a counts].
    split_and!; [by rewrite G3|by rewrite G4|]. exists t. split; [lia|done].
Qed.

(** The operations are in the order of their times, within the range of the bucket numbers. *)
Fixpoint metric_timed (t0 last : Z) (evs : list (Z * MetricOp)) : Prop :=
  match evs with
  | [] => True
  | (t, op) :: evs =>
      last <= t < t0 + (2 ^ 31 - 2) * mBucketSizeNs cfg ∧ event_fine op ∧ metric_timed t0 t evs
  end.

Fixpoint metric_last (last : Z) (evs : list (Z * MetricOp)) : Z :=
  match evs with [] => last | (t, _) :: evs => metric_last t evs end.

Lemma metric_run_ok t0 evs : ∀ last s p,
  related t0 last s p → metric_timed t0 last evs → mTimeBaseNs cfg <= t0 →
  ∃ p' reports s', metric_run evs p = Some (p', reports) ∧ related t0 (metric_last last evs) s' p' ∧
    sumZ (reportDuration <$> reports) + measuredFor k (metric_last last evs) p' =
      measuredFor k last p + mspec_run last evs s.
Proof using Hsize Hsliced Hsum Hks.
  induction evs as [|[t op] evs IH]; intros last s p Hrel Ht Hb.
  { exists p, [], s. cbn. split_and!; done || lia. }
  destruct Ht as (Ht & Hf & Hts). cbn [metric_run mspec_run metric_last].
  destruct (metric_step_ok t0 last t op s p Hrel Ht Hb Hf) as (p1 & r1 & -> & Hrel1 & Hm1). cbn [mbind option_bind fst snd].
  destruct (IH t _ p1 Hrel1 Hts Hb) as (p2 & r2 & s2 & -> & Hrel2 & Hm2). cbn [mbind option_bind fst snd].
  exists p2, (r1 ++ r2), s2. split_and!; [done|done|]. rewrite fmap_app, sumZ_app.
  destruct Hrel as (_ & _ & now & Hn & Hinv).
  pose proof (measuredFor_later now t _ _ p Hinv). pose proof (measuredFor_later now last _ _ p Hinv).
  destruct (mspec_on s && negb (isEmpty (mspec_started s))); lia.
Qed.

(** A report of everything leaves nothing for the key. *)
Lemma dump_drains now t c counts p :
  metric_inv now c counts p → now <= t < now + (2 ^ 31 - 2) * mBucketSizeNs cfg →
  reportDuration (duration_onDumpReportLocked t true true p).1 = measuredFor k t p.
Proof using Hsize.
  intros Hinv Ht. destruct (dump_ok now t c counts true p Hinv Ht) as (_ & Hm & _). rewrite <- Hm.
  unfold duration_onDumpReportLocked in *. cbn [fst snd] in *.
  destruct (flushIfNeeded_ok now t c counts p) as [G1 _]; [done|lia|lia|].
  destruct (partial_ok t c counts _ G1) as [G3 _]. pose proof (partial_drains t c counts _ G1) as G4. cbv zeta in G4.
  set (p2 := duration_flushCurrentBucketLocked t t _) in *.
  destruct (clear_ok t c counts p2 G3) as [_ G5]. rewrite G4 in G5.
  destruct (dm_pastBuckets p2) as [|e l] eqn:Ep; cbn [fst snd]; [|lia].
  rewrite G4. change (outputDuration (outputFor k [])) with 0. lia.
Qed.

Lemma metric_last_range t0 evs : ∀ last,
  last < t0 + (2 ^ 31 - 2) * mBucketSizeNs cfg → metric_timed t0 last evs →
  metric_last last evs < t0 + (2 ^ 31 - 2) * mBucketSizeNs cfg.
Proof using.
  induction evs as [|[t op] evs IH]; intros last Hlt; [done|].
  cbn. intros (H1 & _ & H3). apply (IH t); [lia|done].
Qed.
End metric.

(** C26: A duration metric of sums reports, for each dimension key, exactly the time during which the
    condition held, the metric was active and something was started for the key.  For any sequence
    of events, condition and state changes, activations, expirations, app upgrades and reports, in
    the order of their times, of a metric without a sliced condition: the run succeeds, and the
    durations of the key in all the reports, together with one last report, add up to that time.
    Nothing is lost or counted twice when trackers are removed and created again, when buckets are
    split or when data is erased by a report.  The keys of the events are equal to themselves (no
    NaN), there are at most as many of them as the guard rail admits, and no two operations are so
    far apart that the number of buckets between them overflows an [int]. *)
Theorem duration_metric_measures_union (wizard : list ConditionTracker) (p : DurationMetricProducer)
    (ks : list HashableDimensionKey) (k : HashableDimensionKey) (t0 : Z) (evs : list (Z * MetricOp)) :
  let cfg := mConfig (dm_base p) in
  0 < mBucketSizeNs cfg → mConditionSliced cfg = false → mAggregationType (dm_config p) = SUM →
  mCurrentSlicedDurationTrackerMap p = [] → dm_pastBuckets p = [] →
  mCurrentBucketStartTimeNs (dm_base p) <= t0 < getCurrentBucketEndTimeNs (dm_base p) →
  mTimeBaseNs cfg <= t0 → Z.of_nat (length ks) <= kDimensionKeySizeHardLimit →
  metric_timed cfg ks t0 t0 evs →
  ∃ p' reports, metric_run wizard evs p = Some (p', reports) ∧
    let final := duration_onDumpReportLocked (metric_last t0 evs) true true p' in
    sumZ (reportDuration k <$> reports ++ [final.1]) =
      mspec_run cfg (dm_config p) k t0 evs
        (mkMetricSpec (bool_decide (mCondition (dm_base p) = kTrue)) (mActivity (dm_base p)) []).
Proof.
  intros cfg Hsize Hsl Hsum Hm Hp Ht0 Hb Hks Htimed.
  set (s := mkMetricSpec _ _ []).
  assert (Hrel : related cfg (dm_config p) ks k t0 t0 s p).
  { split_and!; [done|done|]. exists t0. split; [lia|]. constructor; rewrite ?Hm, ?Hp; try done; try lia;
      try apply Forall_nil_2. intros e b He. by apply elem_of_nil in He. }
  destruct (metric_run_ok wizard cfg (dm_config p) ks k Hsize Hsl Hsum Hks t0 evs t0 s p Hrel Htimed Hb)
    as (p' & reports & s' & -> & (_ & _ & now & Hn & Hinv) & Hsums).
  exists p', reports. split; [done|]. cbv zeta. rewrite fmap_app, sumZ_app. cbn [fmap list_fmap].
  rewrite (sumZ_cons _ []), (dump_drains cfg (dm_config p) ks k Hsize now _ _ _ p' Hinv).
  - change (sumZ []) with 0. rewrite Z.add_0_r, Hsums. unfold measuredFor at 1. rewrite Hm, Hp. cbn. lia.
  - split; [lia|].
    apply Z.lt_le_trans with (t0 + (2 ^ 31 - 2) * mBucketSizeNs cfg); [|lia].
    apply metric_last_range with ks; [lia|done].
Qed.

(** A metric with buckets of length 10 and one dimension, activated by events of matcher 7. *)
Definition example_duration_metric : DurationMetricProducer :=
  let cfg := mkProducerConfig 1 0 10 (-1) false false false [mkMatcher (mkField 10 0x10000) 0xff7f0000] false [] [] ∅ [] in
  let b := MetricProducer_new cfg [] {[0%nat := Activation_new ACTIVATE_IMMEDIATELY 20]} {[7 := 0%nat]} ∅ in
  mkDurationMetric b (mkDurationConfig SUM 1 2 3 true [mkMatcher (mkField 10 0x10000) 0xff7f0000] true true)
    kUnknown [] [] (mkAnomalyEnv [] 0).

Definition example_event (n : Z) : list FieldValue := [mkFieldValue (mkField 10 0x10000) (VINT n) Annotations_new].

(** Two keys; the metric is active from 2 to 23 and again from 35. *)
Definition example_metric_ops : list (Z * MetricOp) :=
  let event i n := MEvent 0 (StateManager_new) i (example_event n) in
  [(1, event 1 5); (2, MActivate 7); (4, event 1 6); (9, event 2 6); (12, MDump false); (23, MExpire);
   (30, event 2 6); (35, MActivate 7); (41, event 2 5); (44, MCondition false)].

Lemma duration_metric_measures_union_witness :
  let k := mkKey (example_event 5) in
  ∃ p' reports, metric_run [] example_metric_ops example_duration_metric = Some (p', reports) ∧
    sumZ (reportDuration k <$> reports ++ [(duration_onDumpReportLocked 44 true true p').1]) = 27.
Proof.
  refine (duration_metric_measures_union [] example_duration_metric [mkKey (example_event 5); mkKey (example_event 6)]
    (mkKey (example_event 5)) 0 example_metric_ops _ _ _ _ _ _ _ _ _); try reflexivity.
  - by vm_compute.
  - by vm_compute.
  - by vm_compute.
Defined.

Lemma um_find_irreflexive {V} k (m : umap HashableDimensionKey V) : k <>k k → um_find k m = None.
Proof.
  intros Hk. apply um_find_None. intros k' v _. destruct (key_eqb k k') eqn:E; [|done].
  rewrite (key_eqb_trans k k' k) in Hk; [done|done|by apply key_eqb_sym].
Qed.

(** A start event with a NaN in its dimension makes the metric dereference the end iterator of
    its map of trackers.  The code inserts a tracker for the key and looks the key up again; a key
    that is not equal to itself is not found. *)
Theorem nan_start_undefined (eventKey : MetricDimensionKey) (ck : ConditionKey) (c : bool) (t : Z)
    (values : list FieldValue) (p : DurationMetricProducer) :
  mDimensionKeyInWhat eventKey <>k mDimensionKeyInWhat eventKey →
  duration_hitGuardRailLocked eventKey p = false →
  handleStartEvent eventKey ck c t values p = None.
Proof.
  intros Hk Hg. unfold handleStartEvent, um_mem. by rewrite Hg, andb_false_r, !um_find_irreflexive.
Qed.

Lemma nan_start_undefined_witness :
  let nan := mkKey [mkFieldValue (mkField 10 0x10000) (VFLOAT SpecFloat.S754_nan) Annotations_new] in
  handleStartEvent (mkMetricKey nan (mkKey [])) ∅ true 3 [] example_duration_metric = None.
Proof. apply nan_start_undefined; reflexivity. Defined.
