(* ===== verification/AnyMetric.v ===== *)
(** * A metric of any kind (the virtual methods of metrics/MetricProducer.h)

    The metrics manager keeps producers of all five kinds in one vector and calls them through the base
    class.  A call is dispatched on the kind; what the producers reach through pointers (states, the
    condition wizard, the matcher wizard, the puller, the clock) is passed as one environment. *)
From S2P Require Import Prelude UMap FieldValue DimensionKey Matchers Conditions Anomaly State.
From S2P Require Import MetricProducer CountMetric MetricShared EventMetric GaugeMetric ValueMetric.
From S2P Require Import Alarms DurationTrackers DurationMetric.

Inductive MetricType :=
  | METRIC_TYPE_EVENT | METRIC_TYPE_COUNT | METRIC_TYPE_DURATION | METRIC_TYPE_GAUGE | METRIC_TYPE_VALUE.
#[export] Instance MetricType_eq_dec : EqDecision MetricType.
Proof. solve_decision. Defined.

Inductive AnyMetric :=
  | CountM (p : CountMetricProducer)
  | DurationM (p : DurationMetricProducer)
  | EventM (p : EventMetricProducer)
  | ValueM (p : ValueMetricProducer)
  | GaugeM (p : GaugeMetricProducer).

Definition getMetricType (m : AnyMetric) : MetricType :=
  match m with
  | CountM _ => METRIC_TYPE_COUNT
  | DurationM _ => METRIC_TYPE_DURATION
  | EventM _ => METRIC_TYPE_EVENT
  | ValueM _ => METRIC_TYPE_VALUE
  | GaugeM _ => METRIC_TYPE_GAUGE
  end.

(** What the producers ask of the rest of the system.  A pull is made for a metric, by its id, at a
    time; [me_depth] bounds the pulls inside each other of a gauge metric. *)
Record MetricEnv := mkMetricEnv {
  me_uninit : Z;
  me_states : StateManager;
  me_conditions : list ConditionTracker;
  me_pull : Z → Z → option (list LogEvent);
  me_elapsed : Z;
  me_matchesWhat : nat → LogEvent → MatchingState;
  me_depth : nat
}.

Definition outsideOf (env : MetricEnv) (b : MetricProducer) (whatMatcherIndex : nat)
    : Outside (list ConditionTracker) :=
  mkOutside _ (me_pull env (mMetricId (mConfig b))) (me_elapsed env) (me_matchesWhat env whatMatcherIndex)
    (me_states env) (me_conditions env).

Definition valueOutside (env : MetricEnv) (p : ValueMetricProducer) :=
  outsideOf env (vm_base p) (mWhatMatcherIndex (vm_config p)).
Definition gaugeOutside (env : MetricEnv) (p : GaugeMetricProducer) :=
  outsideOf env (gm_base p) (gc_whatMatcherIndex (gm_config p)).

Definition any_base (m : AnyMetric) : MetricProducer :=
  match m with
  | CountM p => cm_base p
  | DurationM p => dm_base p
  | EventM p => em_base p
  | ValueM p => vm_base p
  | GaugeM p => gm_base p
  end.

Definition any_set_base (b : MetricProducer) (m : AnyMetric) : AnyMetric :=
  match m with
  | CountM p => CountM (set_cm_base b p)
  | DurationM p => DurationM (set_dm_base b p)
  | EventM p => EventM (set_em_base b p)
  | ValueM p => ValueM (set_vm_base b p)
  | GaugeM p => GaugeM (set_gm_base b p)
  end.

Definition getMetricId (m : AnyMetric) : Z := mMetricId (mConfig (any_base m)).
Definition getSlicedStateAtoms (m : AnyMetric) : list Z := mSlicedStateAtoms (mConfig (any_base m)).
Definition isConditionSliced (m : AnyMetric) : bool := mConditionSliced (mConfig (any_base m)).
Definition isActive (m : AnyMetric) : bool := mIsActive (mActivity (any_base m)).

Section env.
Context (env : MetricEnv).

(** The overrides of each kind. *)
#[export] Instance any_metric_ops : MetricOps AnyMetric := {|
  base := any_base;
  set_base := any_set_base;
  flushIfNeededLocked t m :=
    match m with
    | CountM p => CountM (count_flushIfNeededLocked t p)
    | DurationM p => DurationM (duration_flushIfNeededLocked t p)
    | EventM p => EventM p
    | ValueM p => ValueM (value_flushIfNeededLocked t p)
    | GaugeM p => GaugeM (gauge_flushIfNeededLocked t p)
    end;
  flushCurrentBucketLocked t n m :=
    match m with
    | CountM p => CountM (count_flushCurrentBucketLocked t n p)
    | DurationM p => DurationM (duration_flushCurrentBucketLocked t n p)
    | EventM p => EventM p
    | ValueM p => ValueM (value_flushCurrentBucketLocked t n p)
    | GaugeM p => GaugeM (gauge_flushCurrentBucketLocked t n p)
    end;
  onActiveStateChangedLocked t m :=
    match m with
    | CountM p => CountM (onActiveStateChangedLocked t p)
    | DurationM p => DurationM (duration_onActiveStateChangedLocked (me_conditions env) t p)
    | EventM p => EventM (onActiveStateChangedLocked t p)
    | ValueM p => ValueM (value_onActiveStateChangedLocked (me_uninit env) (valueOutside env p) t p)
    | GaugeM p =>
        GaugeM (gauge_onActiveStateChangedLocked (me_uninit env) (gaugeOutside env p) (me_depth env) t p)
    end;
  onMatchedLogEventInternalLocked i key conditionKey condition event stateKeys m :=
    match m with
    | CountM p =>
        CountM (count_onMatchedLogEventInternalLocked i key conditionKey condition event stateKeys p)
    | DurationM p => DurationM p
    | EventM p =>
        EventM (event_onMatchedLogEventInternalLocked i key conditionKey condition event stateKeys p)
    | ValueM p =>
        ValueM (value_onMatchedLogEventInternalLocked (me_uninit env) i key conditionKey condition event
                  stateKeys p)
    | GaugeM p =>
        GaugeM (gauge_onMatchedLogEventInternalLocked (me_uninit env) (gaugeOutside env p) (me_depth env)
                  i key conditionKey condition event stateKeys p)
    end
|}.

(** [onMatchedLogEvent]: only a duration metric overrides the shared handler; [None] is its fault. *)
Definition any_onMatchedLogEvent (matcherIndex : nat) (event : LogEvent) (m : AnyMetric)
    : option AnyMetric :=
  match m with
  | DurationM p =>
      DurationM <$> duration_onMatchedLogEventLocked (me_conditions env) (me_uninit env) (me_states env)
                      matcherIndex event p
  | _ => Some (onMatchedLogEventLocked (me_uninit env) (me_states env) (me_conditions env)
                 matcherIndex event m)
  end.

Definition any_onConditionChanged (condition : bool) (eventTime : Z) (m : AnyMetric) : AnyMetric :=
  match m with
  | CountM p => CountM (count_onConditionChangedLocked condition eventTime p)
  | DurationM p => DurationM (duration_onConditionChangedLocked condition eventTime p)
  | EventM p => EventM (event_onConditionChangedLocked condition eventTime p)
  | ValueM p =>
      ValueM (value_onConditionChangedLocked (me_uninit env) (valueOutside env p) condition eventTime p)
  | GaugeM p =>
      GaugeM (gauge_onConditionChangedLocked (me_uninit env) (gaugeOutside env p) (me_depth env)
                condition eventTime p)
  end.

(** Count and value metrics only log. *)
Definition any_onSlicedConditionMayChange (overallCondition : bool) (eventTime : Z) (m : AnyMetric)
    : AnyMetric :=
  match m with
  | CountM p => CountM p
  | DurationM p =>
      DurationM (duration_onSlicedConditionMayChangeLocked (me_conditions env) overallCondition eventTime p)
  | EventM p => EventM (event_onSlicedConditionMayChangeLocked overallCondition eventTime p)
  | ValueM p => ValueM p
  | GaugeM p =>
      GaugeM (gauge_onSlicedConditionMayChangeLocked (me_uninit env) (gaugeOutside env p) (me_depth env)
                overallCondition eventTime p)
  end.

Definition any_notifyAppUpgrade (eventTimeNs : Z) (m : AnyMetric) : AnyMetric :=
  match m with
  | ValueM p => ValueM (value_notifyAppUpgrade (me_uninit env) (valueOutside env p) eventTimeNs p)
  | GaugeM p =>
      GaugeM (gauge_notifyAppUpgrade (me_uninit env) (gaugeOutside env p) (me_depth env) eventTimeNs p)
  | _ => notifyAppUpgrade eventTimeNs m
  end.

Definition any_notifyAppRemoved (eventTimeNs : Z) (m : AnyMetric) : AnyMetric :=
  any_notifyAppUpgrade eventTimeNs m.

Definition any_onStatsdInitCompleted (eventTimeNs : Z) (m : AnyMetric) : AnyMetric :=
  match m with
  | ValueM p => ValueM (value_onStatsdInitCompleted (me_uninit env) (valueOutside env p) eventTimeNs p)
  | GaugeM p =>
      GaugeM (gauge_onStatsdInitCompleted (me_uninit env) (gaugeOutside env p) (me_depth env) eventTimeNs p)
  | _ => onStatsdInitCompleted eventTimeNs m
  end.

(** The base class does nothing. *)
Definition any_prepareFirstBucket (m : AnyMetric) : AnyMetric :=
  match m with
  | ValueM p => ValueM (prepareFirstBucketLocked (me_uninit env) (valueOutside env p) p)
  | GaugeM p =>
      GaugeM (gauge_prepareFirstBucketLocked (me_uninit env) (gaugeOutside env p) (me_depth env) p)
  | _ => m
  end.

(** A state change reaches the listeners by its own interface; count, event and gauge metrics only log. *)
Definition any_onStateChanged (eventTimeNs atomId : Z) (primaryKey : HashableDimensionKey)
    (oldState newState : FieldValue) (m : AnyMetric) : AnyMetric :=
  match m with
  | DurationM p => DurationM (duration_onStateChanged eventTimeNs atomId primaryKey oldState newState p)
  | ValueM p =>
      ValueM (value_onStateChanged (me_uninit env) (valueOutside env p) eventTimeNs atomId primaryKey
                oldState newState p)
  | _ => m
  end.

(** ** Reports *)

Inductive AnyReport :=
  | CountR (r : CountReport) | DurationR (r : DurationReport) | EventR (r : EventReport)
  | ValueR (r : ValueReport) | GaugeR (r : GaugeReport).

Definition any_onDumpReport (dumpTimeNs : Z) (include_current_partial_bucket erase_data : bool)
    (dumpLatency : DumpLatency) (m : AnyMetric) : AnyReport * AnyMetric :=
  match m with
  | CountM p =>
      let (r, p) := count_onDumpReportLocked dumpTimeNs include_current_partial_bucket erase_data p in
      (CountR r, CountM p)
  | DurationM p =>
      let (r, p) := duration_onDumpReportLocked dumpTimeNs include_current_partial_bucket erase_data p in
      (DurationR r, DurationM p)
  | EventM p =>
      let (r, p) := event_onDumpReportLocked erase_data p in (EventR r, EventM p)
  | ValueM p =>
      let (r, p) := value_onDumpReportLocked (me_uninit env) (valueOutside env p) dumpTimeNs
                      include_current_partial_bucket erase_data dumpLatency p in
      (ValueR r, ValueM p)
  | GaugeM p =>
      let (r, p) := gauge_onDumpReportLocked dumpTimeNs include_current_partial_bucket erase_data p in
      (GaugeR r, GaugeM p)
  end.
End env.

Definition any_clearPastBuckets (dumpTimeNs : Z) (m : AnyMetric) : AnyMetric :=
  match m with
  | CountM p => CountM (count_clearPastBucketsLocked p)
  | DurationM p => DurationM (duration_clearPastBucketsLocked dumpTimeNs p)
  | EventM p => EventM (event_clearPastBucketsLocked dumpTimeNs p)
  | ValueM p => ValueM (value_clearPastBucketsLocked dumpTimeNs p)
  | GaugeM p => GaugeM (gauge_clearPastBucketsLocked dumpTimeNs p)
  end.

Definition any_dropData (dropTimeNs : Z) (m : AnyMetric) : AnyMetric :=
  match m with
  | CountM p => CountM (count_dropDataLocked dropTimeNs p)
  | DurationM p => DurationM (duration_dropDataLocked dropTimeNs p)
  | EventM p => EventM (event_dropDataLocked dropTimeNs p)
  | ValueM p => ValueM (value_dropDataLocked dropTimeNs p)
  | GaugeM p => GaugeM (gauge_dropDataLocked dropTimeNs p)
  end.

(** The sizes of objects in memory that the compiler determines. *)
Record ObjectSizes := mkObjectSizes {
  os_eventBytes : EventMetricData → Z; os_valueBucket : Z; os_gaugeAtom : Z; os_fieldValue : Z
}.

Definition any_byteSize (sizes : ObjectSizes) (m : AnyMetric) : Z :=
  match m with
  | CountM p => count_byteSizeLocked p
  | DurationM p => duration_byteSizeLocked p
  | EventM p => event_byteSizeLocked (os_eventBytes sizes) p
  | ValueM p => value_byteSizeLocked (os_valueBucket sizes) p
  | GaugeM p => gauge_byteSizeLocked (os_gaugeAtom sizes) (os_fieldValue sizes) p
  end.

(** ** Alerts *)

(** The anomaly trackers of a metric, which the manager reaches too. *)
Inductive AnyAlert := PlainAlert (t : AnomalyTracker) | DurationAlert (t : DurationAnomalyTracker).

Definition alert_base (a : AnyAlert) : AnomalyTracker :=
  match a with PlainAlert t => t | DurationAlert t => Anomaly.base t end.

Definition any_trackers (m : AnyMetric) : list AnyAlert :=
  match m with
  | DurationM p => DurationAlert <$> env_trackers (dm_anomaly p)
  | _ => PlainAlert <$> mAnomalyTrackers (any_base m)
  end.

(** [addAnomalyTracker(alert, monitor)]: [None] when the metric refuses the alert. *)
Definition any_addAlert (alert : Alert) (monitor : option AlarmMonitor) (m : AnyMetric)
    : option AnyMetric :=
  match m with
  | DurationM p =>
      let (ok, p) := duration_addAnomalyTracker alert monitor p in
      if (ok : bool) then Some (DurationM p) else None
  | _ => Some (any_set_base (addAnomalyTracker (AnomalyTracker_new alert) (any_base m)) m)
  end.

(** [addAnomalyTracker(anomalyTracker)]: a duration metric hands the tracker to its duration trackers
    as well, which share the list of the metric here.  A tracker of the other kind cannot be given:
    an alert is kept only if its metric is, and then the kinds agree. *)
Definition any_addTracker (a : AnyAlert) (m : AnyMetric) : AnyMetric :=
  match m, a with
  | DurationM p, DurationAlert t =>
      let env := dm_anomaly p in
      DurationM (set_trackers (mCurrentSlicedDurationTrackerMap p)
                   (mkAnomalyEnv (env_trackers env ++ [t]) (env_fresh env)) p)
  | DurationM p, PlainAlert _ => DurationM p
  | _, _ => any_set_base (addAnomalyTracker (alert_base a) (any_base m)) m
  end.

(** Writes a tracker back. *)
Definition any_setTracker (k : nat) (a : AnyAlert) (m : AnyMetric) : AnyMetric :=
  match m, a with
  | DurationM p, DurationAlert t =>
      let env := dm_anomaly p in
      DurationM (set_trackers (mCurrentSlicedDurationTrackerMap p)
                   (mkAnomalyEnv (<[k := t]> (env_trackers env)) (env_fresh env)) p)
  | DurationM p, PlainAlert _ => DurationM p
  | _, _ =>
      let b := any_base m in
      any_set_base
        (mkMetricProducer (mConfig b) (mCurrentBucketStartTimeNs b) (mCurrentBucketNum b) (mCondition b)
           (<[k := alert_base a]> (mAnomalyTrackers b)) (mActivity b)) m
  end.

Definition clearTrackers (m : AnyMetric) : AnyMetric :=
  match m with
  | DurationM p =>
      DurationM (set_trackers (mCurrentSlicedDurationTrackerMap p) (mkAnomalyEnv [] (env_fresh (dm_anomaly p))) p)
  | _ =>
      let b := any_base m in
      any_set_base
        (mkMetricProducer (mConfig b) (mCurrentBucketStartTimeNs b) (mCurrentBucketNum b) (mCondition b)
           [] (mActivity b)) m
  end.
