(* ===== verification/AnyMetricFacts.v ===== *)
(** * What the calls to a metric leave alone

    Events, conditions, states, reports and upgrades change neither the configuration of a metric nor its
    activations: only activations, cancellations, expiry and configuration updates do.  The metrics
    manager relies on it, through the interface [MetricLaws] of the shared code. *)
From S2P Require Import Prelude UMap FieldValue DimensionKey Matchers Conditions Anomaly State.
From S2P Require Import MetricProducer MetricProducerFacts CountMetric CountMetricFacts MetricShared.
From S2P Require Import EventMetric GaugeMetric GaugeMetricFacts ValueMetric.
From S2P Require Import ValueMetricFacts DurationTrackers DurationMetric DurationMetricFacts AnyMetric.

(** The configuration and the activations of a producer. *)
Definition rigid (b : MetricProducer) : ProducerConfig * Activity := (mConfig b, mActivity b).

(** ** Count metrics *)

Lemma count_flush_rigid t n p : rigid (cm_base (count_flushCurrentBucketLocked t n p)) = rigid (cm_base p).
Proof.
  unfold rigid. f_equal; [by destruct (flushCurrent_fields t n p)|apply count_flushCurrentBucket_activity].
Qed.
Lemma count_ifNeeded_rigid t p : rigid (cm_base (count_flushIfNeededLocked t p)) = rigid (cm_base p).
Proof. unfold count_flushIfNeededLocked. destr_if; [done|]. apply (count_flush_rigid _ _ p). Qed.
Lemma count_matched_rigid i k ck c e pk p :
  rigid (cm_base (count_onMatchedLogEventInternalLocked i k ck c e pk p)) = rigid (cm_base p).
Proof.
  unfold count_onMatchedLogEventInternalLocked. repeat case_match; apply (count_ifNeeded_rigid _ p).
Qed.

(** ** Duration metrics *)

Lemma duration_flush_rigid t n p :
  rigid (dm_base (duration_flushCurrentBucketLocked t n p)) = rigid (dm_base p).
Proof. unfold duration_flushCurrentBucketLocked. by destruct (flushTrackers _ _ _ _) as [[]]. Qed.
Lemma duration_ifNeeded_rigid t p : rigid (dm_base (duration_flushIfNeededLocked t p)) = rigid (dm_base p).
Proof.
  unfold duration_flushIfNeededLocked. destruct (_ <? _); [done|]. apply (duration_flush_rigid _ _ p).
Qed.
Lemma duration_internal_base wizard c t p :
  dm_base (onSlicedConditionMayChangeInternalLocked wizard c t p) = dm_base p.
Proof.
  unfold onSlicedConditionMayChangeInternalLocked. destruct (_ && _); [|apply forTrackers_base].
  unfold onSlicedConditionMayChangeLocked_opt1. destruct (_ || _); [done|]. destruct (_ && _ && _); [done|].
  destruct (negb (IsSimpleCondition _ _)).
  all: destruct (match getChangedToTrueDimensions _ _ _ with Some _ => _ | None => _ end);
    rewrite ?forTrackers_base; try (destruct (0 <? _)); rewrite ?forTrackers_base; done.
Qed.
Lemma duration_sliced_rigid wizard c t p :
  rigid (dm_base (duration_onSlicedConditionMayChangeLocked wizard c t p)) = rigid (dm_base p).
Proof.
  unfold duration_onSlicedConditionMayChangeLocked. destruct (negb _); [done|]. cbv zeta.
  destruct (negb _); rewrite ?duration_internal_base; apply duration_ifNeeded_rigid.
Qed.
Lemma duration_active_rigid wizard t p :
  rigid (dm_base (duration_onActiveStateChangedLocked wizard t p)) = rigid (dm_base p).
Proof.
  unfold duration_onActiveStateChangedLocked.
  set (p1 := base_onActiveStateChangedLocked _ _ _ t p).
  assert (H1 : rigid (dm_base p1) = rigid (dm_base p)).
  { unfold p1, base_onActiveStateChangedLocked. destruct (mIsActive _); [done|].
    by rewrite duration_flush_rigid, duration_ifNeeded_rigid. }
  rewrite <- H1. destruct (negb (mConditionSliced _)), (mIsActive _);
    try (destruct (negb (bool_decide _)); [done|]);
    by rewrite ?duration_internal_base, ?forTrackers_base, ?duration_ifNeeded_rigid.
Qed.
Lemma duration_condition_rigid c t p :
  rigid (dm_base (duration_onConditionChangedLocked c t p)) = rigid (dm_base p).
Proof.
  unfold duration_onConditionChangedLocked. cbv zeta. destruct (negb _); [done|].
  rewrite forTrackers_base, duration_ifNeeded_rigid. done.
Qed.
Lemma handleStart_keeps ek ck c t values p p' :
  handleStartEvent ek ck c t values p = Some p' → dm_base p' = dm_base p ∧ dm_config p' = dm_config p.
Proof.
  unfold handleStartEvent. cbv zeta. destruct (_ && _); [by intros [= ->]|]. intros H.
  destruct (um_find _ _) as [tr|]; [|done]. cbn -[noteStart] in H.
  destruct (noteStart _ _ _ _ _). by injection H as <-.
Qed.
Lemma handleStop_keeps k values t p :
  dm_base (handleStopEvent k values t p) = dm_base p ∧ dm_config (handleStopEvent k values t p) = dm_config p.
Proof. unfold handleStopEvent. destruct (um_find _ _); [|done]. by destruct (noteStop _ _ _ _). Qed.
Lemma duration_ifNeeded_config t p : dm_config (duration_flushIfNeededLocked t p) = dm_config p.
Proof.
  unfold duration_flushIfNeededLocked. destruct (_ <? _); [done|].
  unfold duration_flushCurrentBucketLocked. by destruct (flushTrackers _ _ _ _) as [[]].
Qed.
Lemma handleValues_rigid wizard uninit states i values t p p' :
  handleMatchedLogEventValuesLocked wizard uninit states i values t p = Some p' →
  rigid (dm_base p') = rigid (dm_base p) ∧ dm_config p' = dm_config p.
Proof.
  unfold handleMatchedLogEventValuesLocked. cbv zeta. destruct (t <? _); [by intros [= ->]|].
  set (q := if mIsActive _ then _ else p).
  assert (rigid (dm_base q) = rigid (dm_base p) ∧ dm_config q = dm_config p) as [Hq Hc].
  { subst q. destruct (mIsActive _); [|done]. split; [apply duration_ifNeeded_rigid|].
    apply duration_ifNeeded_config. }
  clearbody q. intros H. assert (dm_base p' = dm_base q ∧ dm_config p' = dm_config q) as [-> ->]; [|done].
  destruct (_ =? _).
  { injection H as <-. unfold forTrackers. by destruct (forEach _ _ _). }
  destruct (_ =? _); [injection H as <-; apply handleStop_keeps|]. by apply handleStart_keeps in H.
Qed.

(** ** Value metrics *)

Definition value_rigid (p : ValueMetricProducer) := rigid (vm_base p).

Lemma sameLedger_rigid p q : sameLedger p q → value_rigid q = value_rigid p.
Proof.
  intros (Hl & Ha & _). unfold value_rigid, rigid, activity_of, ledger in *. by injection Hl as -> _ _ _ _ _; rewrite Ha.
Qed.
Lemma value_flush_rigid t n p : value_rigid (value_flushCurrentBucketLocked t n p) = value_rigid p.
Proof.
  destruct (flush_ledger t n p) as (Hc & _ & _ & _ & Ha & _). unfold value_rigid, rigid.
  f_equal; [exact Hc|exact Ha].
Qed.
Lemma value_ifNeeded_rigid t p : value_rigid (value_flushIfNeededLocked t p) = value_rigid p.
Proof. unfold value_flushIfNeededLocked. destruct (_ <? _); [done|]. apply value_flush_rigid. Qed.

Section value.
Context (uninit : Z) {W : Type} `{!ConditionWizardOps W} (out : Outside W).

Lemma value_matched_rigid i key ck c e pk p :
  value_rigid (value_onMatchedLogEventInternalLocked uninit i key ck c e pk p) = value_rigid p.
Proof using.
  unfold value_onMatchedLogEventInternalLocked. cbv zeta.
  destruct (match pk !! _ with Some _ => _ | None => _ end); [done|]. destruct (_ <? _); [done|].
  set (m := set_matched _ p). set (q := if mIsPulled _ then m else _).
  assert (Hq : value_rigid q = value_rigid p).
  { subst q. destruct (mIsPulled _); [done|]. by rewrite value_ifNeeded_rigid. }
  destruct (_ || _); [done|]. destruct (value_hitGuardRailLocked _ _); [done|].
  rewrite (sameLedger_rigid q); [done|]. apply keeps_accumulate.
Qed.
Lemma value_pull_rigid (b : bool) t p :
  value_rigid (if mIsPulled (vm_config p) && b then pullAndMatchEventsLocked uninit out t p else p)
  = value_rigid p.
Proof using. apply sameLedger_rigid, pullWhen_keeps. Qed.
Lemma value_pullIfTrue_rigid t p : value_rigid (pullIfTrue uninit out t p) = value_rigid p.
Proof using. apply sameLedger_rigid, pullIfTrue_keeps. Qed.
Lemma value_pulled_rigid t p :
  value_rigid (if mIsPulled (vm_config p) then pullAndMatchEventsLocked uninit out t p else p)
  = value_rigid p.
Proof using. rewrite <- (andb_true_r (mIsPulled _)). apply value_pull_rigid. Qed.

Lemma value_active_rigid t p :
  value_rigid (value_onActiveStateChangedLocked uninit out t p) = value_rigid p.
Proof using.
  unfold value_onActiveStateChangedLocked. cbv zeta. set (p1 := if t <? _ then _ else p).
  assert (H1 : value_rigid p1 = value_rigid p) by (subst p1; by destruct (t <? _)). clearbody p1.
  set (p2 := base_onActiveStateChangedLocked _ _ _ t p1).
  assert (H2 : value_rigid p2 = value_rigid p).
  { subst p2. unfold base_onActiveStateChangedLocked. destruct (mIsActive _); [done|].
    by rewrite value_flush_rigid, value_ifNeeded_rigid. }
  clearbody p2. destruct (negb (bool_decide _)); [done|].
  set (p3 := if t <? _ then p2 else _).
  assert (H3 : value_rigid p3 = value_rigid p).
  { subst p3. destruct (t <? _); [done|]. set (q := if mIsPulled _ then _ else p2).
    assert (value_rigid q = value_rigid p) by (by unfold q; rewrite value_pulled_rigid).
    by destruct (_ && _). }
  clearbody p3. transitivity (value_rigid (value_flushIfNeededLocked t p3)); [done|].
  by rewrite value_ifNeeded_rigid.
Qed.
Lemma value_condition_rigid c t p :
  value_rigid (value_onConditionChangedLocked uninit out c t p) = value_rigid p.
Proof using.
  unfold value_onConditionChangedLocked. cbv zeta. destruct (negb (mIsActive _)); [done|].
  destruct (t <? _); [done|]. set (p1 := if bool_decide _ then _ else p).
  assert (H1 : value_rigid p1 = value_rigid p) by (subst p1; by destruct (bool_decide _)). clearbody p1.
  set (p2 := if mIsPulled _ && _ then _ else p1).
  assert (H2 : value_rigid p2 = value_rigid p) by (by unfold p2; rewrite value_pull_rigid). clearbody p2.
  set (p3 := if _ && _ && _ then _ else p2).
  assert (H3 : value_rigid p3 = value_rigid p) by (unfold p3; by destruct (_ && _ && _)). clearbody p3.
  set (p4 := set_value_condition _ p3).
  transitivity (value_rigid (value_flushIfNeededLocked t p4)); [done|]. by rewrite value_ifNeeded_rigid.
Qed.
Lemma value_state_rigid t atom key old new p :
  value_rigid (value_onStateChanged uninit out t atom key old new p) = value_rigid p.
Proof using.
  unfold value_onStateChanged. cbv zeta. destruct (FieldValue_eqb _ _); [done|]. destruct (_ || _); [done|].
  destruct (t <? _); [done|]. rewrite value_ifNeeded_rigid.
  match goal with |- value_rigid (set_statePrimaryKey _ ?q) = _ => transitivity (value_rigid q); [done|] end.
  by rewrite value_pulled_rigid.
Qed.
Lemma value_dump_rigid t include erase latency p :
  value_rigid (value_onDumpReportLocked uninit out t include erase latency p).2 = value_rigid p.
Proof using.
  unfold value_onDumpReportLocked. cbv zeta. set (q := if include then _ else p).
  assert (Hq : value_rigid q = value_rigid p).
  { subst q. destruct include; [|done]. rewrite value_flush_rigid.
    destruct latency; [by destruct (_ && _)|apply value_pull_rigid]. }
  clearbody q. by destruct (vm_pastBuckets q), (mSkippedBuckets q), erase.
Qed.
Lemma value_upgrade_rigid t p : value_rigid (value_notifyAppUpgrade uninit out t p) = value_rigid p.
Proof using.
  unfold value_notifyAppUpgrade. destruct (negb _); [done|]. by rewrite value_flush_rigid, value_pullIfTrue_rigid.
Qed.
Lemma value_initCompleted_rigid t p : value_rigid (value_onStatsdInitCompleted uninit out t p) = value_rigid p.
Proof using. unfold value_onStatsdInitCompleted. by rewrite value_flush_rigid, value_pullIfTrue_rigid. Qed.
Lemma value_prepare_rigid p : value_rigid (prepareFirstBucketLocked uninit out p) = value_rigid p.
Proof using.
  unfold prepareFirstBucketLocked. destruct (mIsActive _); [|done]. cbn [andb].
  rewrite <- andb_assoc. apply value_pull_rigid.
Qed.
End value.

(** ** Gauge metrics *)

Lemma frame_rigid p q : GaugeMetricFacts.frame q = GaugeMetricFacts.frame p → rigid (gm_base q) = rigid (gm_base p).
Proof. unfold rigid. by intros [= _ -> _ ->]. Qed.
Lemma gauge_flush_rigid t p : rigid (gm_base (gauge_flushLocked t p)) = rigid (gm_base p).
Proof.
  apply frame_rigid. unfold gauge_flushLocked.
  destruct (gauge_flushCurrent_fields t t (gauge_flushIfNeededLocked t p)) as [-> _].
  apply gauge_ifNeeded_frame.
Qed.
Lemma gauge_ifNeeded_rigid t p : rigid (gm_base (gauge_flushIfNeededLocked t p)) = rigid (gm_base p).
Proof. apply frame_rigid, gauge_ifNeeded_frame. Qed.

Section gauge.
Context (uninit : Z) {W : Type} `{!ConditionWizardOps W} (out : Outside W) (depth : nat).

Lemma gauge_pull_rigid t p :
  rigid (gm_base (gauge_pullAndMatchEventsLocked uninit out depth t p)) = rigid (gm_base p).
Proof using. apply frame_rigid, gauge_pull_frame. Qed.
Lemma gauge_newBucket_rigid t p :
  rigid (gm_base (pullForNewBucket uninit out depth t p)) = rigid (gm_base p).
Proof using. unfold pullForNewBucket. destruct (_ && _); [apply gauge_pull_rigid|done]. Qed.
Lemma gauge_condition_rigid c t p :
  rigid (gm_base (gauge_onConditionChangedLocked uninit out depth c t p)) = rigid (gm_base p).
Proof using.
  unfold gauge_onConditionChangedLocked. cbv zeta. destruct (negb _); [done|].
  destruct (_ && _); rewrite ?gauge_pull_rigid; by rewrite gauge_ifNeeded_rigid.
Qed.
Lemma gauge_matched_rigid i key ck c e pk p :
  rigid (gm_base (gauge_onMatchedLogEventInternalLocked uninit out depth i key ck c e pk p))
  = rigid (gm_base p).
Proof using. apply frame_rigid, handler_frame. Qed.
End gauge.

(** ** Any metric *)

Definition any_rigid (m : AnyMetric) : MetricType * (ProducerConfig * Activity) :=
  (getMetricType m, rigid (any_base m)).

Lemma rigid_cong ty b b' : rigid b = rigid b' → (ty, rigid b) = (ty, rigid b') :> MetricType * _.
Proof. by intros ->. Qed.

Section env.
Context (env : MetricEnv).

Lemma any_ifNeeded_rigid t m :
  any_rigid (flushIfNeededLocked (MetricOps := any_metric_ops env) t m) = any_rigid m.
Proof using.
  destruct m; apply rigid_cong; [apply count_ifNeeded_rigid|apply duration_ifNeeded_rigid|done
    |apply value_ifNeeded_rigid|apply gauge_ifNeeded_rigid].
Qed.
Lemma any_flush_rigid t n m :
  any_rigid (flushCurrentBucketLocked (MetricOps := any_metric_ops env) t n m) = any_rigid m.
Proof using.
  destruct m; apply rigid_cong; [apply count_flush_rigid|apply duration_flush_rigid|done
    |apply value_flush_rigid|apply frame_rigid, gauge_flushCurrent_fields].
Qed.
Lemma any_active_rigid t m :
  any_rigid (onActiveStateChangedLocked (MetricOps := any_metric_ops env) t m) = any_rigid m.
Proof using.
  destruct m; apply rigid_cong.
  - cbn. unfold base_onActiveStateChangedLocked. destruct (mIsActive _); [done|].
    by rewrite count_flush_rigid, count_ifNeeded_rigid.
  - apply duration_active_rigid.
  - cbn. unfold base_onActiveStateChangedLocked. by destruct (mIsActive _).
  - apply value_active_rigid.
  - apply frame_rigid, gauge_active_frame.
Qed.
Lemma any_internal_rigid i k ck c e pk m :
  any_rigid (onMatchedLogEventInternalLocked (MetricOps := any_metric_ops env) i k ck c e pk m) = any_rigid m.
Proof using.
  destruct m; apply rigid_cong; [apply count_matched_rigid|done| |apply value_matched_rigid
    |apply gauge_matched_rigid].
  cbn. unfold event_onMatchedLogEventInternalLocked. by repeat case_match.
Qed.

(** The producers of all kinds satisfy what the shared code relies on. *)
#[export] Instance any_metric_laws : MetricLaws (H := any_metric_ops env) AnyMetric.
Proof using.
  assert (Hr : ∀ m m', any_rigid m = any_rigid m' → mActivity (any_base m) = mActivity (any_base m'))
    by (by intros m m' [= _ _ H]).
  split; [by intros b []|..]; intros; apply Hr;
    [apply any_ifNeeded_rigid|apply any_flush_rigid|apply any_active_rigid|apply any_internal_rigid].
Qed.

Lemma any_shared_rigid states wizard i e m :
  any_rigid (onMatchedLogEventLocked (H := any_metric_ops env) (W := list ConditionTracker)
               (me_uninit env) states wizard i e m) = any_rigid m.
Proof using.
  unfold onMatchedLogEventLocked. cbv zeta. destruct (negb _); [done|]. destruct (_ <? _); [done|].
  destruct (filterValues _ _ _). apply any_internal_rigid.
Qed.

Lemma any_matched_rigid i e m m' : any_onMatchedLogEvent env i e m = Some m' → any_rigid m' = any_rigid m.
Proof using.
  destruct m; unfold any_onMatchedLogEvent; try (intros [= <-]; apply any_shared_rigid).
  unfold duration_onMatchedLogEventLocked. intros (p' & H & ->)%fmap_Some.
  apply rigid_cong. by apply handleValues_rigid in H as [? _].
Qed.
Lemma any_condition_rigid c t m : any_rigid (any_onConditionChanged env c t m) = any_rigid m.
Proof using.
  destruct m; try done; apply rigid_cong; [apply duration_condition_rigid|apply value_condition_rigid
    |apply gauge_condition_rigid].
Qed.
Lemma any_sliced_rigid c t m : any_rigid (any_onSlicedConditionMayChange env c t m) = any_rigid m.
Proof using.
  destruct m; try done; apply rigid_cong; [apply duration_sliced_rigid|apply gauge_condition_rigid].
Qed.
Lemma any_flushLocked_rigid t m : any_rigid (flushLocked (H := any_metric_ops env) t m) = any_rigid m.
Proof using. unfold flushLocked. by rewrite any_flush_rigid, any_ifNeeded_rigid. Qed.
Lemma any_upgrade_rigid t m : any_rigid (any_notifyAppUpgrade env t m) = any_rigid m.
Proof using.
  destruct m; try apply any_flushLocked_rigid; apply rigid_cong; [apply value_upgrade_rigid|].
  cbn [any_notifyAppUpgrade any_base]. unfold gauge_notifyAppUpgrade. destruct (negb _); [done|].
  by rewrite gauge_newBucket_rigid, gauge_flush_rigid.
Qed.
Lemma any_initCompleted_rigid t m : any_rigid (any_onStatsdInitCompleted env t m) = any_rigid m.
Proof using.
  destruct m; try apply any_flushLocked_rigid; apply rigid_cong; [apply value_initCompleted_rigid|].
  cbn [any_onStatsdInitCompleted any_base]. unfold gauge_onStatsdInitCompleted. by rewrite gauge_newBucket_rigid, gauge_flush_rigid.
Qed.
Lemma any_prepare_rigid m : any_rigid (any_prepareFirstBucket env m) = any_rigid m.
Proof using.
  destruct m; try done; apply rigid_cong; [apply value_prepare_rigid|].
  cbn [any_prepareFirstBucket any_base]. unfold gauge_prepareFirstBucketLocked. destruct (_ && _); [apply gauge_pull_rigid|done].
Qed.
Lemma any_state_rigid t atom key old new m :
  any_rigid (any_onStateChanged env t atom key old new m) = any_rigid m.
Proof using.
  destruct m; try done; apply rigid_cong; [|apply value_state_rigid].
  cbn [any_onStateChanged any_base]. unfold duration_onStateChanged. cbv zeta. rewrite forTrackers_base. apply duration_ifNeeded_rigid.
Qed.
Lemma any_dump_rigid t include erase latency m :
  any_rigid (any_onDumpReport env t include erase latency m).2 = any_rigid m.
Proof using.
  destruct m; cbn [any_onDumpReport].
  - destruct (count_onDumpReportLocked _ _ _ _) as [r p'] eqn:E. apply rigid_cong. cbn [snd any_base]. revert E.
    unfold count_onDumpReportLocked. cbv zeta. set (q := if include then _ else _).
    assert (rigid (cm_base q) = rigid (cm_base p)) as <-.
    { subst q. destruct include; [|apply count_ifNeeded_rigid]. unfold flushLocked. cbn.
      by rewrite count_flush_rigid, count_ifNeeded_rigid. }
    clearbody q. destruct (cm_pastBuckets q), erase; by intros [= _ <-].
  - destruct (duration_onDumpReportLocked _ _ _ _) as [r p'] eqn:E. apply rigid_cong. cbn [snd any_base]. revert E.
    unfold duration_onDumpReportLocked. cbv zeta. set (q := if include then _ else _).
    assert (rigid (dm_base q) = rigid (dm_base p)) as <-.
    { subst q. destruct include; by rewrite ?duration_flush_rigid, ?duration_ifNeeded_rigid. }
    clearbody q. destruct (dm_pastBuckets q), erase; by intros [= _ <-].
  - destruct (event_onDumpReportLocked _ _) as [r p'] eqn:E. apply rigid_cong. cbn [snd any_base]. revert E.
    unfold event_onDumpReportLocked. destruct (mProto p), erase; by intros [= _ <-].
  - pose proof (value_dump_rigid (me_uninit env) (valueOutside env p) t include erase latency p) as H.
    destruct (value_onDumpReportLocked _ _ _ _ _ _ _) as [r p']. by apply rigid_cong.
  - destruct (gauge_onDumpReportLocked _ _ _ _) as [r p'] eqn:E. apply rigid_cong. cbn [snd any_base]. revert E.
    unfold gauge_onDumpReportLocked. cbv zeta. set (q := if include then _ else _).
    assert (rigid (gm_base q) = rigid (gm_base p)) as <-.
    { subst q. destruct include; [apply gauge_flush_rigid|apply gauge_ifNeeded_rigid]. }
    clearbody q. destruct (gm_pastBuckets q), (gm_skippedBuckets q), erase; by intros [= _ <-].
Qed.
End env.

Lemma any_clear_rigid t m : any_rigid (any_clearPastBuckets t m) = any_rigid m.
Proof.
  destruct m; try done; apply rigid_cong; [apply (duration_ifNeeded_rigid t p)|apply (gauge_ifNeeded_rigid t p)].
Qed.
Lemma any_drop_rigid t m : any_rigid (any_dropData t m) = any_rigid m.
Proof.
  destruct m; try done; apply rigid_cong; [apply (count_ifNeeded_rigid t p)|apply (duration_ifNeeded_rigid t p)
    |apply (value_ifNeeded_rigid t p)|apply (gauge_ifNeeded_rigid t p)].
Qed.
