(* ===== verification/Sorting.v ===== *)
(** * Sorting

    [std::sort] is any function that permutes its argument and, when the comparator is a strict weak
    ordering on the elements, puts them in order; the order of equivalent elements is open.  Insertion
    sort is an instance. *)
From stdpp Require Import sorting.
From S2P Require Import Prelude.

Section sort.
Context {A : Type} (ltb : A → A → bool).

(** No element is less than one before it. *)
Definition inOrder (l : list A) : Prop := StronglySorted (λ a b, ltb b a = false) l.

(** The comparator is a strict weak ordering on the elements, as [std::sort] requires. *)
Definition weakOrder (l : list A) : Prop :=
  (∀ a, a ∈ l → ltb a a = false)
  ∧ (∀ a b c, a ∈ l → b ∈ l → c ∈ l → ltb a b = true → ltb b c = true → ltb a c = true)
  ∧ (∀ a b c, a ∈ l → b ∈ l → c ∈ l →
       ltb a b = false → ltb b a = false → ltb b c = false → ltb c b = false →
       ltb a c = false ∧ ltb c a = false).

Class StdSort (sort : list A → list A) : Prop := {
  sort_permutes : ∀ l, sort l ≡ₚ l;
  sort_in_order : ∀ l, weakOrder l → inOrder (sort l)
}.

Fixpoint insertSorted (e : A) (l : list A) : list A :=
  match l with
  | [] => [e]
  | x :: l => if ltb e x then e :: x :: l else x :: insertSorted e l
  end.

Definition insertionSort (l : list A) : list A := foldl (λ l e, insertSorted e l) [] l.

Lemma insertSorted_permutes e l : insertSorted e l ≡ₚ e :: l.
Proof using.
  induction l as [|x l IH]; cbn [insertSorted]; [done|]. destruct (ltb e x); [done|].
  rewrite IH. apply Permutation_swap.
Qed.

Lemma insertionSort_permutes l : insertionSort l ≡ₚ l.
Proof using.
  unfold insertionSort. rewrite <- (app_nil_r l) at 2. generalize (@nil A) as acc.
  induction l as [|e l IH]; intros acc; cbn [foldl]; [done|]. rewrite IH, insertSorted_permutes.
  by rewrite <- Permutation_middle.
Qed.

Lemma inOrder_trans l a b c :
  weakOrder l → a ∈ l → b ∈ l → c ∈ l →
  ltb b a = false → ltb c b = false → ltb c a = false.
Proof using.
  intros (_ & Htrans & Hinc) Ha Hb Hc H1 H2. apply not_true_iff_false. intros Hca.
  destruct (ltb a b) eqn:E; [rewrite (Htrans c a b) in H2; congruence|].
  destruct (ltb b c) eqn:E'; [rewrite (Htrans b c a) in H1; congruence|].
  destruct (Hinc a b c) as [_ H]; try done. congruence.
Qed.

Lemma insertSorted_inOrder all e l :
  weakOrder all → e ∈ all → (∀ x, x ∈ l → x ∈ all) → inOrder l → inOrder (insertSorted e l).
Proof using.
  intros Hw He Hl. induction l as [|x l IH]; intros Hs; cbn [insertSorted].
  { repeat constructor. }
  apply StronglySorted_inv in Hs as [Hs Hx]. destruct (ltb e x) eqn:E.
  - assert (Hex : ltb x e = false).
    { apply not_true_iff_false. intros E'. destruct Hw as (Hirr & Htrans & _).
      specialize (Hirr e He). assert (Hxa : x ∈ all) by (apply Hl; set_solver).
      by rewrite (Htrans e x e) in Hirr. }
    assert (Hxl : inOrder (x :: l)) by (by constructor).
    constructor; [done|]. apply Forall_cons_2; [done|].
    rewrite Forall_forall in Hx |- *. intros y Hy.
    apply (inOrder_trans all e x y); try done; [apply Hl; set_solver..|by apply Hx].
  - constructor; [apply IH; [set_solver|done]|]. rewrite Forall_forall in Hx |- *. intros y.
    rewrite insertSorted_permutes. intros [-> |Hy]%elem_of_cons; [done|by apply Hx].
Qed.

Lemma insertionSort_inOrder l : weakOrder l → inOrder (insertionSort l).
Proof using.
  intros Hw. unfold insertionSort.
  assert (H : ∀ r acc, (∀ x, x ∈ r → x ∈ l) → (∀ x, x ∈ acc → x ∈ l) → inOrder acc →
    inOrder (foldl (λ l e, insertSorted e l) acc r)).
  { induction r as [|e r IH]; intros acc Hr Hacc Hs; cbn [foldl]; [done|]. apply IH; [set_solver| |].
    - intros x. rewrite insertSorted_permutes. set_solver.
    - apply (insertSorted_inOrder l); [done|apply Hr; set_solver|done|done]. }
  apply H; [done|set_solver|constructor].
Qed.

#[export] Instance insertionSort_sorts : StdSort insertionSort.
Proof using. split; [apply insertionSort_permutes|apply insertionSort_inOrder]. Qed.
End sort.
