(* ===== verification/PullerUtil.v ===== *)
(** * Merging of isolated uids in pulled events (external/puller_util.cpp)

    [mapAndMergeIsolatedUidsToHostUid] replaces the uids of isolated processes by those of their hosts,
    sorts the events and adds up the additive fields of neighbours that agree on all other fields.  The
    events are the log events of LogEvent.v.  [std::vector::at] throws past the end of the vector: that,
    the access [data[0]] of an empty vector and the read of a uid from a value that is not a number are
    [None].  [std::sort] is a parameter (Sorting.v). *)
From S2P Require Import Prelude FieldValue DimensionKey LogEvent UidMap.

(** The comparator of the sort is that of dimension keys: first the number of values, then the values. *)
Definition event_ltb (lhs rhs : Parsing) : bool := LessThan (le_values lhs) (le_values rhs).

(** ** The merge *)

Definition getUidFieldIndex (e : Parsing) : Z := mUidFieldIndex e.

(** The host uid of a value that holds a uid; the value becomes an INT. *)
Definition hostValue (u : UidMap) (v : FieldValue) : option FieldValue :=
  uid ← int_value (fv_value v);
  Some (mkFieldValue (fv_field v) (VINT (getHostUidOrSelf uid u)) (fv_annotations v)).

(** The values from the first to the last index of the attribution chain. *)
Fixpoint hostChain (u : UidMap) (n : nat) (i : nat) (values : list FieldValue) : option (list FieldValue) :=
  match n with
  | O => Some values
  | S n =>
      v ← values !! i;
      if isAttributionUidField (fv_field v) (fv_value v)
      then w ← hostValue u v; hostChain u n (S i) (<[i := w]> values)
      else hostChain u n (S i) values
  end.

(** The uids of one event; the range of the chain is that of the first event. *)
Definition hostEvent (u : UidMap) (chain : option (Z * Z)) (e : Parsing) : option Parsing :=
  match chain with
  | Some (first, last) =>
      values ← hostChain u (Z.to_nat (last - first + 1)) (Z.to_nat first) (le_values e);
      Some (set_values values e)
  | None =>
      if getUidFieldIndex e =? -1 then Some e
      else
        v ← le_values e !! Z.to_nat (getUidFieldIndex e);
        w ← hostValue u v;
        Some (set_values (<[Z.to_nat (getUidFieldIndex e) := w]> (le_values e)) e)
  end.

(** The loop over the events; the flag tells whether all have the expected tag. *)
Fixpoint hostEvents (u : UidMap) (tagId : Z) (chain : option (Z * Z)) (data : list Parsing)
    : option (list Parsing * bool) :=
  match data with
  | [] => Some ([], true)
  | e :: data =>
      if negb (mTagId e =? tagId) then Some (e :: data, false)
      else
        e ← hostEvent u chain e;
        '(data, ok) ← hostEvents u tagId chain data;
        Some (e :: data, ok)
  end.

Definition isAdditive (additiveFields : list Z) (v : FieldValue) : bool :=
  bool_decide (getPosAtDepth (fv_field v) 0 ∈ additiveFields).

(** The loop that decides [needMerge]. *)
Fixpoint needMerge (additiveFields : list Z) (lhs rhs : list FieldValue) : bool :=
  match lhs, rhs with
  | l :: lhs, r :: rhs =>
      if FieldValue_neqb l r && negb (isAdditive additiveFields l) then false
      else needMerge additiveFields lhs rhs
  | _, _ => true
  end.

(** The new values of the right event. *)
Fixpoint mergeValues (additiveFields : list Z) (lhs rhs : list FieldValue) : list FieldValue :=
  match lhs, rhs with
  | l :: lhs, r :: rhs =>
      (if isAdditive additiveFields l
       then mkFieldValue (fv_field r) (Value_plus (fv_value r) (fv_value l)) (fv_annotations r)
       else r) :: mergeValues additiveFields lhs rhs
  | _, rhs => rhs
  end.

(** The loop over the sorted events from [data[i]] = [event] on. *)
Fixpoint mergeFrom (additiveFields : list Z) (event : Parsing) (data : list Parsing) : list Parsing :=
  match data with
  | [] => [event]
  | next :: data =>
      if negb (length (le_values event) =? length (le_values next))%nat
      then event :: mergeFrom additiveFields next data
      else if negb (needMerge additiveFields (le_values event) (le_values next))
      then event :: mergeFrom additiveFields next data
      else mergeFrom additiveFields
             (set_values (mergeValues additiveFields (le_values event) (le_values next)) next) data
  end.

Definition mergeSorted (additiveFields : list Z) (data : list Parsing) : option (list Parsing) :=
  match data with
  | [] => None
  | event :: data => Some (mergeFrom additiveFields event data)
  end.

Section merge.
Context (sort : list Parsing → list Parsing).

Definition mapAndMergeIsolatedUidsToHostUid (data : list Parsing) (u : UidMap) (tagId : Z)
    (additiveFields : list Z) : option (list Parsing) :=
  first ← head data;
  let chain := hasAttributionChain first in
  if bool_decide (chain = None) && (getUidFieldIndex first =? -1) then Some data
  else
    '(data, ok) ← hostEvents u tagId chain data;
    if negb ok then Some data else mergeSorted additiveFields (sort data).
End merge.
