(* ===== verification/PullerUtilFacts.v ===== *)
(** * Facts on the merging of isolated uids

    The comparator of the sort is a strict weak ordering on events without floating-point values; merging
    conserves the sums of the additive fields of every group of events, and when the additive fields
    come last it leaves one event per group; a counterexample otherwise. *)
From Stdlib Require Import Ascii.
From stdpp Require Import sorting.
From S2P Require Import Prelude FieldValue FieldValueFacts DimensionKey DimensionKeyFacts LogEvent UidMap Sorting PullerUtil.

(** ** The order of events

    A value that is not a floating-point number is encoded by a list of numbers whose lexicographic
    order is the order of the values. *)

Definition plain (v : Value) : bool :=
  match v with VINT _ | VLONG _ | VSTRING _ | VSTORAGE _ => true | _ => false end.

Definition encValue (v : Value) : list Z :=
  match v with
  | VINT x => [1; x] | VLONG x => [2; x] | VSTRING s => 5 :: codes s | VSTORAGE l => 6 :: l | _ => []
  end.

Definition encField (v : FieldValue) : list Z :=
  mTag (fv_field v) :: mField (fv_field v) :: encValue (fv_value v).

Lemma encField_eq a b :
  plain (fv_value a) = true → plain (fv_value b) = true →
  FieldValue_neqb a b = false ↔ encField a = encField b.
Proof.
  intros Ha Hb. rewrite FieldValue_neqb_false. unfold encField.
  destruct (fv_field a) as [t f], (fv_field b) as [t' f'], (fv_value a), (fv_value b);
    try discriminate; cbn; (split; [intros [E1 E2]|intros E]); simplify_eq; try done; try (split; [done|]).
  all: rewrite ?negb_true_iff, ?negb_false_iff, ?Z.eqb_eq, ?String.eqb_eq, ?bool_decide_eq_true in *; simplify_eq; try done.
  by apply codes_inj.
Qed.

Lemma encField_ltb a b :
  plain (fv_value a) = true → plain (fv_value b) = true →
  FieldValue_ltb a b = list_ltb (encField a) (encField b).
Proof.
  intros Ha Hb. unfold FieldValue_ltb, encField. cbn [list_ltb]. unfold Field_neqb, Field_ltb.
  destruct (Z.eqb_spec (mTag (fv_field a)) (mTag (fv_field b))) as [E|E]; cbn [negb orb].
  2: { destruct (Z.ltb_spec (mTag (fv_field a)) (mTag (fv_field b))); [done|]. by rewrite (proj2 (Z.ltb_lt _ _)) by lia. }
  rewrite E, Z.ltb_irrefl.
  destruct (Z.eqb_spec (mField (fv_field a)) (mField (fv_field b))) as [E'|E']; cbn [negb orb].
  2: { destruct (Z.ltb_spec (mField (fv_field a)) (mField (fv_field b))); [done|]. by rewrite (proj2 (Z.ltb_lt _ _)) by lia. }
  rewrite E', Z.ltb_irrefl.
  destruct (fv_value a) as [|x|x| | |x|x], (fv_value b) as [|y|y| | |y|y]; try discriminate; cbn; try done.
  - destruct (Z.eqb_spec x y) as [-> |]; cbn; [by rewrite Z.ltb_irrefl|].
    destruct (Z.ltb_spec x y); [done|]. by destruct (_ <? _).
  - destruct (Z.eqb_spec x y) as [-> |]; cbn; [by rewrite Z.ltb_irrefl|].
    destruct (Z.ltb_spec x y); [done|]. by destruct (_ <? _).
  - rewrite codes_ltb. destruct (String.eqb_spec x y) as [-> |]; cbn; [by rewrite list_ltb_irrefl|done].
  - case_bool_decide as H; cbn; [by rewrite H, list_ltb_irrefl|done].
Qed.

Definition plainEvent (e : Parsing) : Prop := Forall (λ v, plain (fv_value v) = true) (le_values e).

(** Exactly one of less, the same and greater. *)
Lemma field_trichotomy a b :
  plain (fv_value a) = true → plain (fv_value b) = true →
  FieldValue_ltb a b = false → FieldValue_ltb b a = false → FieldValue_neqb a b = false.
Proof.
  intros Ha Hb. rewrite !encField_ltb, encField_eq by done. apply list_ltb_total.
Qed.

Definition encLoop : list FieldValue → list (list Z) := map encField.

Lemma loop_irrefl l : Forall (λ v, plain (fv_value v) = true) l → LessThan_loop l l = false.
Proof.
  induction 1 as [|a l Ha _ IH]; cbn [LessThan_loop]; [done|].
  by rewrite (proj2 (encField_eq a a Ha Ha)).
Qed.

Lemma loop_cons a l b l' :
  plain (fv_value a) = true → plain (fv_value b) = true →
  LessThan_loop (a :: l) (b :: l') =
    if decide (encField a = encField b) then LessThan_loop l l' else list_ltb (encField a) (encField b).
Proof.
  intros Ha Hb. cbn [LessThan_loop]. rewrite encField_ltb by done. case_decide as H.
  - by rewrite (proj2 (encField_eq a b Ha Hb)).
  - destruct (FieldValue_neqb a b) eqn:E; [done|]. by apply encField_eq in E.
Qed.

Lemma loop_trans l1 : ∀ l2 l3,
  Forall (λ v, plain (fv_value v) = true) l1 → Forall (λ v, plain (fv_value v) = true) l2 →
  Forall (λ v, plain (fv_value v) = true) l3 →
  LessThan_loop l1 l2 = true → LessThan_loop l2 l3 = true → LessThan_loop l1 l3 = true.
Proof.
  induction l1 as [|a l1 IH]; intros [|b l2] [|c l3] H1 H2 H3; try done.
  apply Forall_cons_1 in H1 as [Ha H1], H2 as [Hb H2], H3 as [Hc H3].
  rewrite !loop_cons by done. repeat case_decide; try congruence.
  - by apply IH.
  - intros E1 E2. pose proof (list_ltb_asym _ _ E1) as E3. congruence.
  - intros E1 E2. by apply (list_ltb_trans _ _ _ E1).
Qed.

Lemma loop_equiv l1 : ∀ l2,
  length l1 = length l2 →
  Forall (λ v, plain (fv_value v) = true) l1 → Forall (λ v, plain (fv_value v) = true) l2 →
  LessThan_loop l1 l2 = false → LessThan_loop l2 l1 = false → encLoop l1 = encLoop l2.
Proof.
  induction l1 as [|a l1 IH]; intros [|b l2] Hl H1 H2; try done.
  apply Forall_cons_1 in H1 as [Ha H1], H2 as [Hb H2]. rewrite !loop_cons by done.
  unfold encLoop. cbn [map]. repeat case_decide; try congruence.
  - intros. f_equal; [done|]. apply IH; auto.
  - intros E1 E2. exfalso. by apply H, list_ltb_total.
Qed.

Lemma loop_same l1 : ∀ l2,
  Forall (λ v, plain (fv_value v) = true) l1 → Forall (λ v, plain (fv_value v) = true) l2 →
  encLoop l1 = encLoop l2 → LessThan_loop l1 l2 = false.
Proof.
  induction l1 as [|a l1 IH]; intros [|b l2] H1 H2 E; try done. unfold encLoop in E. cbn [map] in E.
  injection E as E1 E2. apply Forall_cons_1 in H1 as [Ha H1], H2 as [Hb H2].
  rewrite loop_cons by done. rewrite decide_True by (unfold encField; congruence). by apply IH.
Qed.

Lemma event_ltb_unfold a b :
  event_ltb a b =
    if decide (length (le_values a) = length (le_values b)) then LessThan_loop (le_values a) (le_values b)
    else bool_decide (length (le_values a) < length (le_values b))%nat.
Proof.
  unfold event_ltb, LessThan. case_decide as E; [by rewrite E, Z.eqb_refl|].
  rewrite (proj2 (Z.eqb_neq _ _)) by lia. cbn [negb].
  case_bool_decide; [apply Z.ltb_lt; lia|apply Z.ltb_ge; lia].
Qed.

Lemma event_incomparable a b :
  plainEvent a → plainEvent b → event_ltb a b = false → event_ltb b a = false →
  encLoop (le_values a) = encLoop (le_values b).
Proof.
  intros Ha Hb. rewrite !event_ltb_unfold.
  destruct (decide (length (le_values a) = length (le_values b))) as [E|E].
  - rewrite decide_True by done. by apply loop_equiv.
  - rewrite decide_False by done. rewrite !bool_decide_eq_false. lia.
Qed.

Lemma plain_weakOrder l : Forall plainEvent l → weakOrder event_ltb l.
Proof.
  rewrite Forall_forall. intros Hl. split_and!.
  - intros a Ha. rewrite event_ltb_unfold, decide_True by done. by apply loop_irrefl, Hl.
  - intros a b c Ha Hb Hc. rewrite !event_ltb_unfold.
    destruct (decide (length (le_values a) = length (le_values b))),
      (decide (length (le_values b) = length (le_values c))),
      (decide (length (le_values a) = length (le_values c))); rewrite ?bool_decide_eq_true; try lia; try congruence.
    apply loop_trans; by apply Hl.
  - intros a b c Ha Hb Hc H1 H2 H3 H4.
    apply event_incomparable in H1; [|by apply Hl..|done]. apply event_incomparable in H3; [|by apply Hl..|done].
    assert (E : encLoop (le_values a) = encLoop (le_values c)) by congruence.
    pose proof (f_equal length E) as El. unfold encLoop in El. rewrite !length_map in El.
    rewrite !event_ltb_unfold, El, !decide_True by done. split; apply loop_same; try done; by apply Hl.
Qed.

(** ** Groups of events *)

#[export] Instance Field_eq_decision : EqDecision Field.
Proof. solve_decision. Defined.

#[export] Instance value_key_decision : EqDecision (Field * option (list Z)).
Proof. apply _. Defined.

Section groups.
Context (adds : list Z).

(** The key of an event: its fields and the values of those that are not additive. *)
Definition keyOf (e : Parsing) : list (Field * option (list Z)) :=
  map (λ v, (fv_field v, if isAdditive adds v then None else Some (encValue (fv_value v)))) (le_values e).

Definition shapeOf (e : Parsing) : list (Field * Type_) :=
  map (λ v, (fv_field v, getType (fv_value v))) (le_values e).

(** Events with the same number of values have the same fields and types. *)
Definition uniform (l : list Parsing) : Prop :=
  ∀ a b, a ∈ l → b ∈ l → length (le_values a) = length (le_values b) → shapeOf a = shapeOf b.

Definition numOf (v : Value) : Z := match v with VINT x | VLONG x => x | _ => 0 end.
Definition numAt (p : nat) (e : Parsing) : Z :=
  match le_values e !! p with Some v => numOf (fv_value v) | None => 0 end.

(** The sum of the field at index [p] over the events with a key. *)
Definition total (p : nat) (k : list (Field * option (list Z))) (l : list Parsing) : Z :=
  foldr Z.add 0 (map (numAt p) (List.filter (λ e, bool_decide (keyOf e = k)) l)).

Definition modulus (t : Type_) : Z := if bool_decide (t = INT) then 2 ^ 32 else 2 ^ 64.

Lemma total_cons p k e l : total p k (e :: l) = (if bool_decide (keyOf e = k) then numAt p e else 0) + total p k l.
Proof using. unfold total. cbn [List.filter]. by case_bool_decide. Qed.

Lemma total_permutes p k l l' : l ≡ₚ l' → total p k l = total p k l'.
Proof using. induction 1; rewrite ?total_cons; lia. Qed.

(** Two lists of values of one shape are merged exactly when their keys are the same. *)
Lemma needMerge_key l : ∀ r,
  Forall (λ v, plain (fv_value v) = true) l → Forall (λ v, plain (fv_value v) = true) r →
  map fv_field l = map fv_field r →
  needMerge adds l r = true ↔
  map (λ v, (fv_field v, if isAdditive adds v then None else Some (encValue (fv_value v)))) l
  = map (λ v, (fv_field v, if isAdditive adds v then None else Some (encValue (fv_value v)))) r.
Proof using.
  induction l as [|a l IH]; intros [|b r] Hl Hr E; try done.
  apply Forall_cons_1 in Hl as [Ha Hl], Hr as [Hb Hr]. cbn [map] in *. injection E as Ef E.
  cbn [needMerge]. specialize (IH r Hl Hr E).
  assert (Hadd : isAdditive adds b = isAdditive adds a) by (unfold isAdditive; by rewrite Ef). rewrite Hadd.
  destruct (isAdditive adds a); cbn [negb]; rewrite ?andb_false_r, ?andb_true_r.
  - rewrite IH. split; [intros ->; by rewrite Ef|by intros [=]].
  - destruct (FieldValue_neqb a b) eqn:En.
    + split; [done|]. intros [=]. rewrite (proj2 (encField_eq a b Ha Hb)) in En; [done|]. unfold encField. congruence.
    + apply encField_eq in En; [|done..]. unfold encField in En. rewrite IH. split; [|by intros [=]].
      intros ->. injection En as _ _ ->. by rewrite Ef.
Qed.

Lemma wrap32_congr z : wrap32 z mod 2 ^ 32 = z mod 2 ^ 32.
Proof using. unfold wrap32. rewrite Zminus_mod_idemp_l. f_equal. lia. Qed.
Lemma wrap64_congr z : wrap64 z mod 2 ^ 64 = z mod 2 ^ 64.
Proof using. unfold wrap64. rewrite Zminus_mod_idemp_l. f_equal. lia. Qed.

Lemma plus_shape a b : getType (Value_plus a b) = getType a.
Proof using. by destruct a, b. Qed.

Lemma mergeValues_shape l : ∀ r,
  map fv_field l = map fv_field r →
  map (λ v, (fv_field v, getType (fv_value v))) (mergeValues adds l r)
    = map (λ v, (fv_field v, getType (fv_value v))) r
  ∧ map (λ v, (fv_field v, if isAdditive adds v then None else Some (encValue (fv_value v)))) (mergeValues adds l r)
    = map (λ v, (fv_field v, if isAdditive adds v then None else Some (encValue (fv_value v)))) r.
Proof using.
  induction l as [|a l IH]; intros [|b r] E; try done. cbn [map mergeValues] in *. injection E as Ef E.
  destruct (IH r E) as [-> ->].
  assert (Hadd : isAdditive adds b = isAdditive adds a) by (unfold isAdditive; by rewrite Ef).
  split; (destruct (isAdditive adds a) eqn:Ea; [|done]); f_equal; cbn; [by rewrite plus_shape|].
  unfold isAdditive in *. cbn. by rewrite Hadd.
Qed.

Lemma mergeValues_plain l : ∀ r,
  Forall (λ v, plain (fv_value v) = true) r → Forall (λ v, plain (fv_value v) = true) (mergeValues adds l r).
Proof using.
  induction l as [|a l IH]; intros [|b r] H; try done. apply Forall_cons_1 in H as [Hb H].
  cbn [mergeValues]. apply Forall_cons_2; [|by apply IH]. destruct (isAdditive adds a); [|done]. cbn.
  by destruct (fv_value b), (fv_value a).
Qed.

(** The merged value is the sum, modulo the width of the type. *)
Lemma mergeValues_num l : ∀ r p a b,
  map (λ v, (fv_field v, getType (fv_value v))) l = map (λ v, (fv_field v, getType (fv_value v))) r →
  l !! p = Some a → r !! p = Some b → isAdditive adds a = true →
  ∃ c, mergeValues adds l r !! p = Some c
    ∧ numOf (fv_value c) mod modulus (getType (fv_value b))
      = (numOf (fv_value a) + numOf (fv_value b)) mod modulus (getType (fv_value b)).
Proof using.
  induction l as [|x l IH]; intros [|y r] [|p] a b E Ha Hb Hadd; try done; cbn [map] in E; injection E as Ef Et E.
  - cbn in Ha, Hb. simplify_eq. cbn [mergeValues]. rewrite Hadd. eexists. split; [reflexivity|]. cbn [fv_value].
    destruct (fv_value a), (fv_value b); try discriminate; cbn [Value_plus numOf]; try done; cbn [getType];
      unfold modulus; [rewrite bool_decide_true by done|rewrite bool_decide_false by done];
      rewrite ?wrap32_congr, ?wrap64_congr; f_equal; lia.
  - cbn [mergeValues]. by apply (IH r p a b).
Qed.

Lemma shapeOf_fields a b : shapeOf a = shapeOf b → map fv_field (le_values a) = map fv_field (le_values b).
Proof using.
  unfold shapeOf. intros E%(f_equal (map fst)). by rewrite !map_map in E.
Qed.

Lemma keyOf_length a b : keyOf a = keyOf b → length (le_values a) = length (le_values b).
Proof using. intros E%(f_equal length). unfold keyOf in E. by rewrite !length_map in E. Qed.

Lemma shapeOf_length a b : shapeOf a = shapeOf b → length (le_values a) = length (le_values b).
Proof using. intros E%(f_equal length). unfold shapeOf in E. by rewrite !length_map in E. Qed.

(** ** The merge of neighbours *)

Definition merged (a b : Parsing) : Parsing := set_values (mergeValues adds (le_values a) (le_values b)) b.

Lemma merged_facts a b :
  plainEvent b → shapeOf a = shapeOf b →
  keyOf (merged a b) = keyOf b ∧ shapeOf (merged a b) = shapeOf b ∧ plainEvent (merged a b).
Proof using.
  intros Hb Hs. pose proof (shapeOf_fields _ _ Hs) as Hf.
  destruct (mergeValues_shape (le_values a) (le_values b) Hf) as [H1 H2]. split_and!; [exact H2|exact H1|].
  by apply mergeValues_plain.
Qed.

(** One step of the merge: neighbours stay apart when their keys differ and are added up otherwise. *)
Lemma mergeFrom_cons e next l :
  plainEvent e → plainEvent next → (length (le_values e) = length (le_values next) → shapeOf e = shapeOf next) →
  mergeFrom adds e (next :: l) =
    if decide (keyOf e = keyOf next) then mergeFrom adds (merged e next) l else e :: mergeFrom adds next l.
Proof using.
  intros He Hn Hs. cbn [mergeFrom]. destruct (Nat.eqb_spec (length (le_values e)) (length (le_values next))) as [El|El];
    cbn [negb].
  2: { by rewrite decide_False by (intros H%keyOf_length; congruence). }
  specialize (Hs El). pose proof (needMerge_key _ _ He Hn (shapeOf_fields _ _ Hs)) as Hkey.
  destruct (needMerge adds (le_values e) (le_values next)); cbn [negb].
  - rewrite decide_True by (by apply Hkey). done.
  - rewrite decide_False; [done|]. intros H. by apply Hkey in H.
Qed.

(** The keys that remain: neighbours that are the same collapse. *)
Fixpoint collapse {A} `{EqDecision A} (k : A) (l : list A) : list A :=
  match l with
  | [] => [k]
  | k' :: l => if decide (k = k') then collapse k' l else k :: collapse k' l
  end.

Lemma collapse_elem {A} `{EqDecision A} (l : list A) : ∀ k x, x ∈ collapse k l ↔ x ∈ k :: l.
Proof using.
  induction l as [|k' l IH]; intros k x; cbn [collapse]; [done|]. case_decide as E.
  - subst. rewrite IH. set_solver.
  - rewrite elem_of_cons, IH. set_solver.
Qed.

(** Everything a merge needs of the events. *)
Definition mergeable (l : list Parsing) : Prop := Forall plainEvent l ∧ uniform l.

Lemma mergeable_step e next l :
  mergeable (e :: next :: l) → mergeable (next :: l)
  ∧ (shapeOf e = shapeOf next → mergeable (merged e next :: l)).
Proof using.
  intros [Hp Hu]. apply Forall_cons_1 in Hp as [He Hp]. apply Forall_cons_1 in Hp as [Hn Hp]. split.
  - split; [by apply Forall_cons_2|]. intros a b Ha Hb. apply Hu; set_solver.
  - intros Hs. destruct (merged_facts e next Hn Hs) as (_ & Hms & Hmp). split; [by apply Forall_cons_2|].
    assert (Hrep : ∀ a, a ∈ merged e next :: l → ∃ a', a' ∈ e :: next :: l ∧ shapeOf a = shapeOf a').
    { intros a [-> |Ha]%elem_of_cons; [exists next; set_solver|exists a; set_solver]. }
    intros a b (a' & Ha' & Ea)%Hrep (b' & Hb' & Eb)%Hrep Hl. rewrite Ea, Eb. apply Hu; [done|done|].
    apply shapeOf_length in Ea, Eb. congruence.
Qed.

Lemma mergeable_head e next l :
  mergeable (e :: next :: l) →
  plainEvent e ∧ plainEvent next ∧ (length (le_values e) = length (le_values next) → shapeOf e = shapeOf next).
Proof using.
  intros [Hp Hu]. apply Forall_cons_1 in Hp as [He Hp]. apply Forall_cons_1 in Hp as [Hn Hp].
  split_and!; [done|done|]. apply Hu; set_solver.
Qed.

Lemma mergeFrom_keys l : ∀ e,
  mergeable (e :: l) → map keyOf (mergeFrom adds e l) = collapse (keyOf e) (map keyOf l).
Proof using.
  induction l as [|next l IH]; intros e Hm; [done|]. destruct (mergeable_head _ _ _ Hm) as (He & Hn & Hs).
  destruct (mergeable_step _ _ _ Hm) as [Hm1 Hm2]. rewrite mergeFrom_cons by done. cbn [map collapse].
  case_decide as E.
  - specialize (Hs (keyOf_length _ _ E)). rewrite IH by auto.
    by destruct (merged_facts e next Hn Hs) as (-> & _).
  - cbn [map]. by rewrite IH.
Qed.

(** The field at an index is additive and has a type. *)
Definition additiveAt (p : nat) (t : Type_) (e : Parsing) : Prop :=
  ∃ v, le_values e !! p = Some v ∧ isAdditive adds v = true ∧ getType (fv_value v) = t.

Lemma additiveAt_shape p t a b : shapeOf a = shapeOf b → additiveAt p t a → additiveAt p t b.
Proof using.
  intros Hs (v & Hv & Hadd & Ht). apply (f_equal (.!! p)) in Hs. unfold shapeOf in Hs.
  change (map ?f ?l) with (f <$> l) in Hs. rewrite !list_lookup_fmap, Hv in Hs.
  destruct (le_values b !! p) as [w|] eqn:Ew; [|done]. cbn in Hs. injection Hs as Hf Ht'.
  exists w. split_and!; [done| |congruence]. unfold isAdditive in *. by rewrite <- Hf.
Qed.

Lemma merged_num p t a b :
  shapeOf a = shapeOf b → additiveAt p t b →
  numAt p (merged a b) mod modulus t = (numAt p a + numAt p b) mod modulus t.
Proof using.
  intros Hs Hb. destruct (additiveAt_shape p t b a (eq_sym Hs) Hb) as (v & Hv & Hadd & Ht).
  destruct Hb as (w & Hw & _ & Ht'). unfold numAt. rewrite Hv, Hw.
  destruct (mergeValues_num (le_values a) (le_values b) p v w Hs Hv Hw Hadd) as (c & Hc & E).
  unfold merged. cbn [le_values set_values]. rewrite Hc. by rewrite <- Ht'.
Qed.

Lemma mergeFrom_total p t k l : ∀ e,
  mergeable (e :: l) → (∀ x, x ∈ e :: l → keyOf x = k → additiveAt p t x) →
  total p k (mergeFrom adds e l) mod modulus t = total p k (e :: l) mod modulus t.
Proof using.
  assert (Hm0 : modulus t ≠ 0) by (unfold modulus; by case_bool_decide).
  induction l as [|next l IH]; intros e Hm Hadd; [done|].
  destruct (mergeable_head _ _ _ Hm) as (He & Hn & Hs).
  destruct (mergeable_step _ _ _ Hm) as [Hm1 Hm2]. rewrite mergeFrom_cons by done. case_decide as E.
  - specialize (Hs (keyOf_length _ _ E)). destruct (merged_facts e next Hn Hs) as (Hk & Hms & _).
    rewrite IH; [|auto|]; rewrite ?total_cons.
    + rewrite Hk, E. case_bool_decide as Ek; [|done]. rewrite Z.add_assoc.
      assert (Hat : additiveAt p t next) by (apply Hadd; [set_solver|done]).
      rewrite <- Z.add_mod_idemp_l by done. rewrite (merged_num p t) by done.
      by rewrite Z.add_mod_idemp_l.
    + intros x [-> |Hx]%elem_of_cons Hkx; [|apply Hadd; set_solver].
      apply (additiveAt_shape p t next); [done|]. apply Hadd; [set_solver|congruence].
  - rewrite total_cons, (total_cons p k e). rewrite <- Z.add_mod_idemp_r by done. rewrite IH.
    + by rewrite Z.add_mod_idemp_r.
    + done.
    + intros x Hx. apply Hadd. set_solver.
Qed.

(** ** Groups are contiguous after sorting *)

(** After an additive field all fields are additive. *)
Fixpoint additiveLast (l : list FieldValue) : bool :=
  match l with
  | [] => true
  | v :: l => if isAdditive adds v then forallb (isAdditive adds) l else additiveLast l
  end.

Lemma keys_of_additive l : ∀ r,
  map fv_field l = map fv_field r → forallb (isAdditive adds) l = true →
  map (λ v, (fv_field v, if isAdditive adds v then None else Some (encValue (fv_value v)))) l
  = map (λ v, (fv_field v, if isAdditive adds v then None else Some (encValue (fv_value v)))) r.
Proof using.
  induction l as [|a l IH]; intros [|b r] E H; try done. cbn [map forallb] in *. injection E as Ef E.
  apply andb_true_iff in H as [Ha H]. rewrite (IH r E H).
  assert (isAdditive adds b = true) as -> by (unfold isAdditive in *; by rewrite <- Ef). by rewrite Ha, Ef.
Qed.

Lemma between_loop a : ∀ b c,
  Forall (λ v, plain (fv_value v) = true) a → Forall (λ v, plain (fv_value v) = true) b →
  Forall (λ v, plain (fv_value v) = true) c → map fv_field a = map fv_field b →
  additiveLast a = true →
  map (λ v, (fv_field v, if isAdditive adds v then None else Some (encValue (fv_value v)))) a
  = map (λ v, (fv_field v, if isAdditive adds v then None else Some (encValue (fv_value v)))) c →
  LessThan_loop b a = false → LessThan_loop c b = false →
  map (λ v, (fv_field v, if isAdditive adds v then None else Some (encValue (fv_value v)))) a
  = map (λ v, (fv_field v, if isAdditive adds v then None else Some (encValue (fv_value v)))) b.
Proof using.
  induction a as [|x a IH]; intros [|y b] [|z c] Ha Hb Hc E Hlast Hk; try done.
  apply Forall_cons_1 in Ha as [Hx Ha], Hb as [Hy Hb], Hc as [Hz Hc]. cbn [map] in E, Hk |- *.
  injection E as Ef E. injection Hk as Hfz Hxz Hk. rewrite !loop_cons by done. cbn [additiveLast] in Hlast.
  assert (Hadd : isAdditive adds y = isAdditive adds x) by (unfold isAdditive; by rewrite Ef).
  assert (Haddz : isAdditive adds z = isAdditive adds x) by (unfold isAdditive; by rewrite Hfz).
  rewrite Hadd. destruct (isAdditive adds x) eqn:Ex.
  - intros _ _. by rewrite Ef, (keys_of_additive a b E Hlast).
  - rewrite Haddz in Hxz. injection Hxz as Hxz.
    assert (encField z = encField x) as -> by (unfold encField; congruence).
    repeat case_decide; try congruence.
    + intros H1 H2. rewrite (IH b c); try done. unfold encField in *. congruence.
    + intros H1 H2. exfalso. by apply H, list_ltb_total.
Qed.

Lemma between a b c :
  mergeable [a; b; c] → additiveLast (le_values a) = true →
  keyOf a = keyOf c → event_ltb b a = false → event_ltb c b = false → keyOf b = keyOf a.
Proof using.
  intros [Hp Hu] Hlast Hk. pose proof (keyOf_length _ _ Hk) as Hlc.
  rewrite !Forall_cons in Hp. destruct Hp as (Ha & Hb & Hc & _). rewrite !event_ltb_unfold, <- Hlc.
  destruct (decide (length (le_values b) = length (le_values a))) as [El|El].
  - rewrite decide_True by done. intros H1 H2. symmetry. unfold keyOf. apply (between_loop _ _ (le_values c)); try done.
    apply shapeOf_fields, Hu; [set_solver..|done].
  - rewrite decide_False by done. rewrite !bool_decide_eq_false. lia.
Qed.

Lemma collapse_NoDup l : ∀ e,
  mergeable (e :: l) → Forall (λ e, additiveLast (le_values e) = true) (e :: l) → inOrder event_ltb (e :: l) →
  NoDup (collapse (keyOf e) (map keyOf l)).
Proof using.
  induction l as [|next l IH]; intros e Hm Hlast Hs; cbn [map collapse]; [apply NoDup_singleton|].
  destruct (mergeable_step _ _ _ Hm) as [Hm1 _]. apply Forall_cons_1 in Hlast as [Hle Hlast].
  apply StronglySorted_inv in Hs as [Hs He]. case_decide as E; [by apply IH|].
  apply NoDup_cons_2; [|by apply IH]. rewrite collapse_elem. intros [Heq|Hin]%elem_of_cons; [congruence|].
  apply list_elem_of_In, in_map_iff in Hin as (c & Hk & Hin%list_elem_of_In). apply E. symmetry.
  apply (between e next c); [|done|done| |].
  - destruct Hm as [Hp Hu]. rewrite Forall_forall in Hp. split.
    + repeat apply Forall_cons_2; [apply Hp; set_solver..|apply Forall_nil_2].
    + intros x y Hx Hy. apply Hu; set_solver.
  - apply Forall_cons_1 in He as [? _]. done.
  - apply StronglySorted_inv in Hs as [_ Hn]. rewrite Forall_forall in Hn. by apply Hn.
Qed.
End groups.

(** ** Host uids *)

Section host.
Context (u : UidMap) (chain : option (Z * Z)).

Definition hostedValue (v : FieldValue) : FieldValue :=
  mkFieldValue (fv_field v)
    (match fv_value v with VINT uid => VINT (getHostUidOrSelf uid u) | w => w end) (fv_annotations v).

(** The values of an event that are replaced by those of the host. *)
Definition uidAt (e : Parsing) (j : nat) (v : FieldValue) : bool :=
  match chain with
  | Some (first, last) => (first <=? Z.of_nat j) && (Z.of_nat j <=? last) && isAttributionUidField (fv_field v) (fv_value v)
  | None => Z.of_nat j =? getUidFieldIndex e
  end.

Definition hosted (e : Parsing) : Parsing :=
  set_values (imap (λ j v, if uidAt e j v then hostedValue v else v) (le_values e)) e.

(** The chain of the first event lies in the event; its uid field is a number. *)
Definition uidsPresent (e : Parsing) : Prop :=
  match chain with
  | Some (first, last) => 0 <= first ∧ last < Z.of_nat (length (le_values e))
  | None => getUidFieldIndex e = -1
      ∨ 0 <= getUidFieldIndex e ∧ ∃ f uid a, le_values e !! Z.to_nat (getUidFieldIndex e) = Some (mkFieldValue f (VINT uid) a)
  end.

Lemma hostChain_spec n : ∀ i values,
  (i + n <= length values)%nat →
  hostChain u n i values =
    Some (imap (λ j v, if bool_decide (i <= j < i + n)%nat && isAttributionUidField (fv_field v) (fv_value v)
                       then hostedValue v else v) values).
Proof using.
  induction n as [|n IH]; intros i values Hl; cbn [hostChain].
  - f_equal. apply list_eq. intros j. rewrite list_lookup_imap. destruct (values !! j); [|done]. cbn.
    by rewrite bool_decide_false by lia.
  - destruct (values !! i) as [v|] eqn:Ev; [|apply lookup_ge_None in Ev; lia]. cbn [mbind option_bind].
    assert (Hv : isAttributionUidField (fv_field v) (fv_value v) = true → hostValue u v = Some (hostedValue v)).
    { unfold isAttributionUidField, hostValue, hostedValue. rewrite andb_true_iff, bool_decide_eq_true. intros [_ H].
      by destruct (fv_value v). }
    destruct (isAttributionUidField (fv_field v) (fv_value v)) eqn:Ea.
    + rewrite (Hv eq_refl). cbn [mbind option_bind]. rewrite IH by (rewrite length_insert; lia). f_equal.
      apply list_eq. intros j. rewrite !list_lookup_imap. destruct (decide (j = i)) as [-> |Hj].
      * rewrite list_lookup_insert_eq by lia. rewrite Ev. cbn.
        rewrite bool_decide_false by lia. cbn. by rewrite bool_decide_true, Ea by lia.
      * rewrite list_lookup_insert_ne by done. destruct (values !! j); [|done]. cbn. f_equal.
        by rewrite (bool_decide_ext (S i <= j < S i + n)%nat (i <= j < i + S n)%nat) by lia.
    + rewrite IH by lia. f_equal. apply list_eq. intros j. rewrite !list_lookup_imap.
      destruct (values !! j) as [w|] eqn:Ew; [|done]. cbn. f_equal. destruct (decide (j = i)) as [-> |Hj].
      * simplify_eq. by rewrite Ea, !andb_false_r.
      * by rewrite (bool_decide_ext (S i <= j < S i + n)%nat (i <= j < i + S n)%nat) by lia.
Qed.

Lemma imap_ext_at {A B} (f g : nat → A → B) l :
  (∀ j v, l !! j = Some v → f j v = g j v) → imap f l = imap g l.
Proof using.
  intros H. apply list_eq. intros j. rewrite !list_lookup_imap. destruct (l !! j) eqn:E; [|done]. cbn.
  by rewrite (H j).
Qed.

Lemma imap_id_at {A} (f : nat → A → A) l : (∀ j v, l !! j = Some v → f j v = v) → imap f l = l.
Proof using.
  intros H. apply list_eq. intros j. rewrite list_lookup_imap. destruct (l !! j) eqn:E; [|done]. cbn.
  by rewrite (H j).
Qed.

Lemma hostEvent_spec e : uidsPresent e → hostEvent u chain e = Some (hosted e).
Proof using.
  unfold uidsPresent, hostEvent, hosted, uidAt. destruct chain as [[first last]|].
  - intros [Hf Hl]. destruct (decide (last < first)) as [Hlt|Hge].
    { replace (Z.to_nat (last - first + 1)) with O by lia. cbn. do 2 f_equal.
      symmetry. apply imap_id_at. intros j v _. destruct (Z.leb_spec first (Z.of_nat j)); [|done].
      by destruct (Z.leb_spec (Z.of_nat j) last); [lia|]. }
    rewrite hostChain_spec by lia. cbn [mbind option_bind]. do 2 f_equal. apply imap_ext_at. intros j v _.
    replace ((first <=? Z.of_nat j) && (Z.of_nat j <=? last))
      with (bool_decide (Z.to_nat first <= j < Z.to_nat first + Z.to_nat (last - first + 1))%nat); [done|].
    apply eq_true_iff_eq. rewrite bool_decide_eq_true, andb_true_iff, !Z.leb_le. lia.
  - intros [E|[H0 (f & uid & a & E)]].
    + rewrite E, Z.eqb_refl. rewrite imap_id_at; [by destruct e|].
      intros j v _. by rewrite (proj2 (Z.eqb_neq _ _)) by lia.
    + rewrite (proj2 (Z.eqb_neq _ _)) by lia. rewrite E. cbn [mbind option_bind hostValue int_value fv_value]. do 2 f_equal.
      apply list_eq. intros j. rewrite list_lookup_imap. destruct (decide (j = Z.to_nat (getUidFieldIndex e))) as [-> |Hj].
      * pose proof (lookup_lt_Some _ _ _ E). rewrite list_lookup_insert_eq by done. rewrite E. cbn.
        by rewrite (proj2 (Z.eqb_eq _ _)) by lia.
      * rewrite list_lookup_insert_ne by done. destruct (le_values e !! j); [|done]. cbn.
        by rewrite (proj2 (Z.eqb_neq _ _)) by lia.
Qed.
End host.

Lemma hosted_shape u chain e : shapeOf (hosted u chain e) = shapeOf e.
Proof.
  unfold shapeOf. cbn [le_values hosted set_values]. apply list_eq. intros j. change (map ?f ?l) with (f <$> l).
  rewrite !list_lookup_fmap, list_lookup_imap. destruct (le_values e !! j) as [v|]; [|done]. cbn. f_equal.
  destruct (uidAt chain e j v); [|done]. unfold hostedValue. by destruct (fv_value v).
Qed.

Lemma hosted_plain u chain e : plainEvent e → plainEvent (hosted u chain e).
Proof.
  unfold plainEvent. rewrite !Forall_lookup. intros H j v. cbn [le_values hosted set_values].
  rewrite list_lookup_imap. destruct (le_values e !! j) as [w|] eqn:E; [|done]. cbn. intros [= <-].
  specialize (H j w E). destruct (uidAt chain e j w); [|done]. unfold hostedValue. by destruct (fv_value w).
Qed.

Lemma hosted_mergeable u chain data : mergeable data → mergeable (map (hosted u chain) data).
Proof.
  intros [Hp Hu]. split; [apply Forall_map; eapply Forall_impl; [exact Hp|]; intros e; apply hosted_plain|].
  intros a b (a' & <- & Ha%list_elem_of_In)%list_elem_of_In%in_map_iff (b' & <- & Hb%list_elem_of_In)%list_elem_of_In%in_map_iff Hl.
  rewrite !hosted_shape. apply Hu; [done|done|].
  by rewrite !(shapeOf_length _ _ (hosted_shape u chain _)) in Hl.
Qed.

Lemma additiveLast_shape adds l : ∀ r,
  map fv_field l = map fv_field r → additiveLast adds l = additiveLast adds r.
Proof.
  assert (Hall : ∀ l r, map fv_field l = map fv_field r → forallb (isAdditive adds) l = forallb (isAdditive adds) r).
  { clear. induction l as [|a l IH]; intros [|b r] E; try done. cbn in *. injection E as Ef E.
    rewrite (IH r E). unfold isAdditive. by rewrite Ef. }
  induction l as [|a l IH]; intros [|b r] E; try done. cbn in *. injection E as Ef E.
  rewrite (IH r E), (Hall l r E). unfold isAdditive. by rewrite Ef.
Qed.

Lemma hostEvents_spec u tagId chain data :
  Forall (λ e, mTagId e = tagId ∧ uidsPresent chain e) data →
  hostEvents u tagId chain data = Some (map (hosted u chain) data, true).
Proof.
  induction 1 as [|e data [Ht He] _ IH]; cbn [hostEvents map]; [done|].
  rewrite Ht, Z.eqb_refl, (hostEvent_spec u chain e He). cbn [negb mbind option_bind]. by rewrite IH.
Qed.

(** The merging of isolated uids loses nothing and leaves nothing to merge.  For pulled events of
    one atom without floating-point values, whose additive fields come last, the result holds every
    combination of the other fields, with the uids of the hosts, exactly once; and for each of them the
    sum of every additive field is the sum over the events pulled, modulo the width of its type.  This
    holds for any function that sorts as [std::sort] does. *)
Theorem isolated_uids_merged (sort : list Parsing → list Parsing) (u : UidMap) (tagId : Z)
    (adds : list Z) (first : Parsing) (data : list Parsing) :
  StdSort event_ltb sort →
  let chain := hasAttributionChain first in
  let all := map (hosted u chain) (first :: data) in
  chain ≠ None ∨ getUidFieldIndex first ≠ -1 →
  Forall (λ e, mTagId e = tagId ∧ uidsPresent chain e) (first :: data) →
  mergeable (first :: data) → Forall (λ e, additiveLast adds (le_values e) = true) (first :: data) →
  ∃ out, mapAndMergeIsolatedUidsToHostUid sort (first :: data) u tagId adds = Some out
    ∧ NoDup (map (keyOf adds) out)
    ∧ (∀ k, k ∈ map (keyOf adds) out ↔ k ∈ map (keyOf adds) all)
    ∧ ∀ e p t, e ∈ all → additiveAt adds p t e →
        total adds p (keyOf adds e) out mod modulus t = total adds p (keyOf adds e) all mod modulus t.
Proof.
  intros Hsort chain all Huid Hok Hm Hlast. unfold mapAndMergeIsolatedUidsToHostUid. cbn [head mbind option_bind].
  fold chain. rewrite (proj2 (andb_false_iff _ _)).
  2: { destruct Huid as [H|H]; [left; by apply bool_decide_false|right; by apply Z.eqb_neq]. }
  rewrite hostEvents_spec by done. cbn [mbind option_bind negb]. fold all.
  apply (hosted_mergeable u chain) in Hm. fold all in Hm.
  assert (Hl : Forall (λ e, additiveLast adds (le_values e) = true) all).
  { unfold all. apply Forall_map. eapply Forall_impl; [exact Hlast|]. intros e He. cbn beta in *.
    rewrite <- He. apply additiveLast_shape, shapeOf_fields, hosted_shape. }
  pose proof (sort_permutes event_ltb all) as Hperm.
  assert (Ho : inOrder event_ltb (sort all)) by (by apply (sort_in_order event_ltb), plain_weakOrder, Hm).
  assert (Hms : mergeable (sort all)).
  { destruct Hm as [Hp Hu]. split; [by rewrite Hperm|]. intros a b. rewrite !Hperm. apply Hu. }
  assert (Hls : Forall (λ e, additiveLast adds (le_values e) = true) (sort all)) by (by rewrite Hperm).
  destruct (sort all) as [|e l] eqn:E; [by apply Permutation_nil_l in Hperm|]. cbn [mergeSorted].
  eexists. split; [reflexivity|]. rewrite mergeFrom_keys by done. split_and!.
  - by apply collapse_NoDup.
  - intros k. rewrite collapse_elem. change (keyOf adds e :: map (keyOf adds) l) with (map (keyOf adds) (e :: l)).
    by rewrite Hperm.
  - intros x p t Hx Hat. rewrite <- (total_permutes adds p _ _ _ Hperm). apply mergeFrom_total; [done|].
    intros y Hy Hk. apply (additiveAt_shape adds p t x); [|done]. destruct Hms as [_ Hu]. apply Hu; [|done|].
    + by rewrite Hperm.
    + symmetry. by eapply keyOf_length.
Qed.

(** Two events of a host and an isolated process, the uid in field 1 and a count in field 2. *)
Definition sampleEvent (fields : list (Z * Z)) (uidIndex : Z) : Parsing :=
  mkParsing [] 0 true (map (λ '(f, v), FieldValue_of (mkField 10 (getSimpleField f)) (VINT v)) fields)
    5 10 false (-1) uidIndex (-1) (-1) (-1).

Definition sampleUids : UidMap := assignIsolatedUid 1001 1000 UidMap_new.

Lemma isolated_uids_merged_witness :
  let first := sampleEvent [(1, 1000); (2, 3)] 0 in
  let data := [sampleEvent [(1, 1001); (2, 4)] 0; sampleEvent [(1, 1002); (2, 5)] 0] in
  let all := map (hosted sampleUids None) (first :: data) in
  mapAndMergeIsolatedUidsToHostUid (insertionSort event_ltb) (first :: data) sampleUids 10 [2]
    = Some [sampleEvent [(1, 1000); (2, 7)] 0; sampleEvent [(1, 1002); (2, 5)] 0]
  ∧ ∃ out, mapAndMergeIsolatedUidsToHostUid (insertionSort event_ltb) (first :: data) sampleUids 10 [2] = Some out
    ∧ NoDup (map (keyOf [2]) out)
    ∧ (∀ k, k ∈ map (keyOf [2]) out ↔ k ∈ map (keyOf [2]) all)
    ∧ ∀ e p t, e ∈ all → additiveAt [2] p t e →
        total [2] p (keyOf [2] e) out mod modulus t = total [2] p (keyOf [2] e) all mod modulus t.
Proof.
  cbv zeta. split; [vm_compute; reflexivity|].
  apply (isolated_uids_merged (insertionSort event_ltb)); [apply _|by right| | |by repeat constructor].
  - repeat apply Forall_cons_2; try apply Forall_nil_2; (split; [done|]); right; (split; [done|]);
      eexists _, _, _; reflexivity.
  - split; [by repeat constructor|]. intros a b Ha Hb _.
    repeat (apply elem_of_cons in Ha as [-> |Ha]; [|try (by apply elem_of_nil in Ha)]);
      repeat (apply elem_of_cons in Hb as [-> |Hb]; [|try (by apply elem_of_nil in Hb)]); done.
Defined.

(** An additive field before another field can keep equal events apart.  The events are sorted by
    all their fields, additive ones too, and only neighbours are merged: two events of one host stay
    apart when an event of another host has a count between theirs. *)
Theorem additive_first_not_merged :
  mapAndMergeIsolatedUidsToHostUid (insertionSort event_ltb)
    [sampleEvent [(1, 3); (2, 1000)] 1; sampleEvent [(1, 4); (2, 2000)] 1; sampleEvent [(1, 5); (2, 1001)] 1]
    sampleUids 10 [1]
  = Some [sampleEvent [(1, 3); (2, 1000)] 1; sampleEvent [(1, 4); (2, 2000)] 1; sampleEvent [(1, 5); (2, 1000)] 1].
Proof. vm_compute. reflexivity. Qed.
