(* ===== verification/Pullers.v ===== *)
(** * Pulled atoms (external/StatsPuller.cpp, StatsCallbackPuller.cpp, StatsPullerManager.cpp)

    A puller asks for the events of an atom, at most once in its cool down, and keeps the answer.  The
    manager finds the puller of an atom for a configuration, and wakes the metrics that asked to be
    told at their next pull time; there is one alarm for all of them.

    What a pull finds outside the process (the clock before and after it and the answer) is a value
    [PullEnv].  Receivers, providers of uids and pullers are objects known by numbers; whether a weak
    pointer to a receiver or provider can be promoted is asked of the record [PullWorld].  The calls to
    receivers and to the companion service are recorded in order.  The wall clock time stamps of the
    events and the counters of StatsdStats are left out.  [None] is a fault of the merging of events. *)
From S2P Require Import Prelude FieldValue Matchers LogEvent UidMap MetricShared PullerUtil.

(** ** The pullers *)

Record StatsPuller := mkStatsPuller {
  sp_id : Z;
  sp_tagId : Z;
  mPullTimeoutNs : Z;
  mCoolDownNs : Z;
  mAdditiveFields : list Z;
  mHasGoodData : bool;
  mLastPullTimeNs : Z;
  mLastEventTimeNs : Z;
  mCachedData : list Parsing
}.

Definition StatsPuller_new (id tagId coolDownNs pullTimeoutNs : Z) (additiveFields : list Z) : StatsPuller :=
  mkStatsPuller id tagId pullTimeoutNs coolDownNs additiveFields false 0 0 [].

Definition set_cache (good : bool) (lastPull lastEvent : Z) (data : list Parsing) (p : StatsPuller) : StatsPuller :=
  mkStatsPuller (sp_id p) (sp_tagId p) (mPullTimeoutNs p) (mCoolDownNs p) (mAdditiveFields p) good
    lastPull lastEvent data.

(** One pull: the elapsed real time before and after it, and what [PullInternal] returns and leaves in
    the vector. *)
Record PullEnv := mkPullEnv { pe_before : Z; pe_after : Z; pe_success : bool; pe_data : list Parsing }.

(** The answer of the process behind a callback. *)
Inductive PullReply :=
  | NoCallback
  | BinderCallFailed
  | NotFinished
  | PullFinished (success : bool) (output : list (list Z)).

(** The events of the parcels that parse. *)
Fixpoint parseParcels (uninit : Z) (output : list (list Z)) : option (list Parsing) :=
  match output with
  | [] => Some []
  | buffer :: output =>
      '(valid, event) ← parseBuffer buffer (Z.of_nat (length buffer)) (LogEvent_new uninit);
      events ← parseParcels uninit output;
      Some (if (valid : bool) then event :: events else events)
  end.

(** [StatsCallbackPuller::PullInternal]: the result and the data.  A pull that has not finished in time
    returns true; the caller discards it by the clock. *)
Definition callback_PullInternal (uninit : Z) (r : PullReply) : option (bool * list Parsing) :=
  match r with
  | NoCallback | BinderCallFailed => Some (false, [])
  | NotFinished => Some (true, [])
  | PullFinished success output =>
      events ← parseParcels uninit output;
      Some (success, if success then events else [])
  end.

Section pullers.
Context (sort : list Parsing → list Parsing) (uidMap : UidMap).

Definition shouldUseCache (env : PullEnv) (eventTimeNs : Z) (p : StatsPuller) : bool :=
  (mLastEventTimeNs p =? eventTimeNs) || (pe_before env - mLastPullTimeNs p <? mCoolDownNs p).

(** [StatsPuller::Pull]: the data, or [None] when it returns false, and the puller. *)
Definition puller_Pull (env : PullEnv) (eventTimeNs : Z) (p : StatsPuller)
    : option (option (list Parsing) * StatsPuller) :=
  if shouldUseCache env eventTimeNs p
  then Some (if mHasGoodData p then Some (mCachedData p) else None, p)
  else if negb (pe_success env)
  then Some (None, set_cache false (pe_before env) eventTimeNs (pe_data env) p)
  else if mPullTimeoutNs p <? pe_after env - pe_before env
  then Some (None, set_cache false (pe_before env) eventTimeNs [] p)
  else
    data ← match pe_data env with
           | [] => Some []
           | _ :: _ => mapAndMergeIsolatedUidsToHostUid sort (pe_data env) uidMap (sp_tagId p) (mAdditiveFields p)
           end;
    Some (Some data, set_cache true (pe_before env) eventTimeNs data p).

(** [clearCacheLocked]: the number of events, and the puller; [mHasGoodData] is kept. *)
Definition clearCacheLocked (p : StatsPuller) : Z * StatsPuller :=
  (Z.of_nat (length (mCachedData p)), set_cache (mHasGoodData p) 0 0 [] p).

Definition ForceClearCache (p : StatsPuller) : Z * StatsPuller := clearCacheLocked p.

Definition ClearCacheIfNecessary (timestampNs : Z) (p : StatsPuller) : Z * StatsPuller :=
  if mCoolDownNs p <? timestampNs - mLastPullTimeNs p then clearCacheLocked p else (0, p).
End pullers.

(** ** The manager *)

(** [PullerKey]: uid and atom; [ReceiverKey]: atom and configuration. *)
Abbreviation PullerKey := (Z * Z)%type.
Abbreviation ReceiverKey := (Z * ConfigKey)%type.

Definition ReceiverKey_ltb (a b : ReceiverKey) : bool :=
  if a.1 =? b.1 then ConfigKey_ltb a.2 b.2 else a.1 <? b.1.

Record ReceiverInfo := mkReceiverInfo { nextPullTimeNs : Z; intervalNs : Z; receiver : Z }.

Definition NO_ALARM_UPDATE : Z := 2 ^ 63 - 1.
Definition kMinCoolDownNs : Z := NS_PER_SEC.
Definition kMaxTimeoutNs : Z := 10 * NS_PER_SEC.
Definition AID_STATSD : Z := 1066.

(** [mReceivers] is ordered by its keys.  [mPullCount] counts the pulls and numbers what they find,
    [mPullerCount] numbers the pullers. *)
Record StatsPullerManager := mkPullerManager {
  kAllPullAtomInfo : gmap PullerKey StatsPuller;
  mStatsCompanionService : bool;
  mReceivers : list (ReceiverKey * list ReceiverInfo);
  mPullUidProviders : gmap ConfigKey Z;
  mNextPullTimeNs : Z;
  mPullCount : nat;
  mPullerCount : Z
}.

Definition set_pullers (pullers : gmap PullerKey StatsPuller) (m : StatsPullerManager) : StatsPullerManager :=
  mkPullerManager pullers (mStatsCompanionService m) (mReceivers m) (mPullUidProviders m) (mNextPullTimeNs m)
    (mPullCount m) (mPullerCount m).
Definition set_receivers (l : list (ReceiverKey * list ReceiverInfo)) (m : StatsPullerManager) : StatsPullerManager :=
  mkPullerManager (kAllPullAtomInfo m) (mStatsCompanionService m) l (mPullUidProviders m) (mNextPullTimeNs m)
    (mPullCount m) (mPullerCount m).
Definition set_nextPull (t : Z) (m : StatsPullerManager) : StatsPullerManager :=
  mkPullerManager (kAllPullAtomInfo m) (mStatsCompanionService m) (mReceivers m) (mPullUidProviders m) t
    (mPullCount m) (mPullerCount m).
Definition set_providers (l : gmap ConfigKey Z) (m : StatsPullerManager) : StatsPullerManager :=
  mkPullerManager (kAllPullAtomInfo m) (mStatsCompanionService m) (mReceivers m) l (mNextPullTimeNs m)
    (mPullCount m) (mPullerCount m).
Definition count_pull (m : StatsPullerManager) : StatsPullerManager :=
  mkPullerManager (kAllPullAtomInfo m) (mStatsCompanionService m) (mReceivers m) (mPullUidProviders m)
    (mNextPullTimeNs m) (S (mPullCount m)) (mPullerCount m).

(** The manager starts with the puller of the train info. *)
Definition StatsPullerManager_new (TRAIN_INFO : Z) : StatsPullerManager :=
  mkPullerManager {[ (AID_STATSD, TRAIN_INFO) := StatsPuller_new 0 TRAIN_INFO NS_PER_SEC kPullMaxDelayNs [] ]}
    false [] ∅ NO_ALARM_UPDATE 0 1.

Record PullWorld := mkPullWorld {
  receiverAlive : Z → bool;
  providerAlive : Z → bool;
  getPullAtomUids : Z → Z → list Z;
  pullFinds : nat → PullEnv
}.

Inductive ManagerCall :=
  | setPullingAlarm (timeMillis : Z)
  | call_onDataPulled (receiver : Z) (data : list Parsing) (pullSuccess : bool) (originalPullTimeNs : Z).

Section manager.
Context (sort : list Parsing → list Parsing) (uidMap : UidMap) (W : PullWorld).

(** [PullLocked] for uids: the first uid with a puller decides.  The result holds the key of the puller
    beside the data, which the cache of that puller shares. *)
Fixpoint pullFromUids (tagId : Z) (uids : list Z) (eventTimeNs : Z) (m : StatsPullerManager)
    : option (option (PullerKey * list Parsing) * StatsPullerManager) :=
  match uids with
  | [] => Some (None, m)
  | uid :: uids =>
      match kAllPullAtomInfo m !! (uid, tagId) with
      | Some puller =>
          '(data, puller) ← puller_Pull sort uidMap (pullFinds W (mPullCount m)) eventTimeNs puller;
          Some (option_map (λ data, ((uid, tagId), data)) data,
                count_pull (set_pullers (<[(uid, tagId) := puller]> (kAllPullAtomInfo m)) m))
      | None => pullFromUids tagId uids eventTimeNs m
      end
  end.

(** [PullLocked] for a configuration. *)
Definition PullLocked (tagId : Z) (configKey : ConfigKey) (eventTimeNs : Z) (m : StatsPullerManager)
    : option (option (PullerKey * list Parsing) * StatsPullerManager) :=
  match mPullUidProviders m !! configKey with
  | None => Some (None, m)
  | Some provider =>
      if providerAlive W provider
      then pullFromUids tagId (getPullAtomUids W provider tagId) eventTimeNs m
      else Some (None, m)
  end.

Definition manager_Pull (tagId : Z) (configKey : ConfigKey) (eventTimeNs : Z) (m : StatsPullerManager)
    : option (option (list Parsing) * StatsPullerManager) :=
  '(r, m) ← PullLocked tagId configKey eventTimeNs m;
  Some (option_map snd r, m).

Definition manager_PullUids (tagId : Z) (uids : list Z) (eventTimeNs : Z) (m : StatsPullerManager)
    : option (option (list Parsing) * StatsPullerManager) :=
  '(r, m) ← pullFromUids tagId uids eventTimeNs m;
  Some (option_map snd r, m).

Definition isVendorPulledAtom (atomId : Z) : bool := (150000 <=? atomId) && (atomId <? 200000).
Definition isPulledAtom (atomId : Z) : bool := (10000 <=? atomId) && (atomId <? 100000).

Definition PullerForMatcherExists (tagId : Z) : bool := isVendorPulledAtom tagId || isPulledAtom tagId.

Definition updateAlarmLocked (m : StatsPullerManager) : list ManagerCall :=
  if mNextPullTimeNs m =? NO_ALARM_UPDATE then []
  else if mStatsCompanionService m then [setPullingAlarm (Z.quot (mNextPullTimeNs m) 1000000)] else [].

(** [SetStatsCompanionService] is overridden by no puller. *)
Definition SetStatsCompanionService (service : bool) (m : StatsPullerManager)
    : list ManagerCall * StatsPullerManager :=
  let m := mkPullerManager (kAllPullAtomInfo m) service (mReceivers m) (mPullUidProviders m)
             (mNextPullTimeNs m) (mPullCount m) (mPullerCount m) in
  (if service then updateAlarmLocked m else [], m).

Fixpoint receiversAt (key : ReceiverKey) (l : list (ReceiverKey * list ReceiverInfo))
    : option (list ReceiverInfo) :=
  match l with
  | [] => None
  | (k, rs) :: l => if bool_decide (k = key) then Some rs else receiversAt key l
  end.

Fixpoint putReceivers (key : ReceiverKey) (rs : list ReceiverInfo) (l : list (ReceiverKey * list ReceiverInfo))
    : list (ReceiverKey * list ReceiverInfo) :=
  match l with
  | [] => [(key, rs)]
  | (k, rs') :: l =>
      if bool_decide (k = key) then (key, rs) :: l
      else if ReceiverKey_ltb key k then (key, rs) :: (k, rs') :: l
      else (k, rs') :: putReceivers key rs l
  end.

(** The interval in whole minutes, at least one. *)
Definition roundedInterval (intervalNs : Z) : Z :=
  let rounded := Z.quot (Z.quot intervalNs NS_PER_SEC) 60 * NS_PER_SEC * 60 in
  if rounded <? 60 * NS_PER_SEC then 60 * NS_PER_SEC else rounded.

Definition RegisterReceiver (tagId : Z) (configKey : ConfigKey) (r nextPullTimeNs intervalNs : Z)
    (m : StatsPullerManager) : list ManagerCall * StatsPullerManager :=
  let key := (tagId, configKey) in
  let rs := default [] (receiversAt key (mReceivers m)) in
  if existsb (λ i, receiver i =? r) rs then ([], m)
  else
    let info := mkReceiverInfo nextPullTimeNs (roundedInterval intervalNs) r in
    let m := set_receivers (putReceivers key (rs ++ [info]) (mReceivers m)) m in
    if nextPullTimeNs <? mNextPullTimeNs m
    then let m := set_nextPull nextPullTimeNs m in (updateAlarmLocked m, m)
    else ([], m).

Fixpoint eraseReceiver (r : Z) (l : list ReceiverInfo) : list ReceiverInfo :=
  match l with
  | [] => []
  | i :: l => if receiver i =? r then l else i :: eraseReceiver r l
  end.

Definition UnRegisterReceiver (tagId : Z) (configKey : ConfigKey) (r : Z) (m : StatsPullerManager)
    : StatsPullerManager :=
  let key := (tagId, configKey) in
  match receiversAt key (mReceivers m) with
  | None => m
  | Some rs => set_receivers (putReceivers key (eraseReceiver r rs) (mReceivers m)) m
  end.

Definition RegisterPullUidProvider (configKey : ConfigKey) (provider : Z) (m : StatsPullerManager)
    : StatsPullerManager :=
  set_providers (<[configKey := provider]> (mPullUidProviders m)) m.

Definition UnregisterPullUidProvider (configKey : ConfigKey) (provider : Z) (m : StatsPullerManager)
    : StatsPullerManager :=
  if bool_decide (mPullUidProviders m !! configKey = Some provider)
  then set_providers (delete configKey (mPullUidProviders m)) m else m.

(** *** The alarm *)

Definition isDue (elapsedTimeNs : Z) (i : ReceiverInfo) : bool := nextPullTimeNs i <=? elapsedTimeNs.

(** The first loop: the next pull time of the receivers that are not due. *)
Definition minOfLater (elapsedTimeNs : Z) (l : list (ReceiverKey * list ReceiverInfo)) : Z :=
  foldl (λ t i, if isDue elapsedTimeNs i then t else if nextPullTimeNs i <? t then nextPullTimeNs i else t)
    NO_ALARM_UPDATE (concat (map snd l)).

(** The next pull time of a receiver that was served; the number of buckets is an [int]. *)
Definition advance (elapsedTimeNs : Z) (i : ReceiverInfo) : ReceiverInfo :=
  let numBucketsAhead := wrap32 (Z.quot (elapsedTimeNs - nextPullTimeNs i) (intervalNs i)) in
  mkReceiverInfo (nextPullTimeNs i + (numBucketsAhead + 1) * intervalNs i) (intervalNs i) (receiver i).

(** The loop over the receivers of one key. *)
Fixpoint serve (elapsedTimeNs : Z) (data : list Parsing) (pullSuccess : bool) (rs : list ReceiverInfo)
    (minNext : Z) : list ManagerCall * list ReceiverInfo * Z :=
  match rs with
  | [] => ([], [], minNext)
  | i :: rs =>
      if isDue elapsedTimeNs i && receiverAlive W (receiver i) then
        let i' := advance elapsedTimeNs i in
        let minNext := if nextPullTimeNs i' <? minNext then nextPullTimeNs i' else minNext in
        let '(calls, rs, minNext) := serve elapsedTimeNs data pullSuccess rs minNext in
        (call_onDataPulled (receiver i) data pullSuccess elapsedTimeNs :: calls, i' :: rs, minNext)
      else
        let '(calls, rs, minNext) := serve elapsedTimeNs data pullSuccess rs minNext in
        (calls, i :: rs, minNext)
  end.

Definition stamp (elapsedTimeNs : Z) (e : Parsing) : Parsing := set_header elapsedTimeNs (mTagId e) e.

(** The time stamps are set on the events that the cache of the puller shares. *)
Definition stampCache (elapsedTimeNs : Z) (key : PullerKey) (m : StatsPullerManager) : StatsPullerManager :=
  set_pullers (alter (λ p, set_cache (mHasGoodData p) (mLastPullTimeNs p) (mLastEventTimeNs p)
                             (map (stamp elapsedTimeNs) (mCachedData p)) p) key (kAllPullAtomInfo m)) m.

(** The second loop, over the keys with receivers that are due. *)
Fixpoint pullForKeys (elapsedTimeNs : Z) (l : list (ReceiverKey * list ReceiverInfo)) (minNext : Z)
    (m : StatsPullerManager)
    : option (list ManagerCall * list (ReceiverKey * list ReceiverInfo) * Z * StatsPullerManager) :=
  match l with
  | [] => Some ([], [], minNext, m)
  | (key, rs) :: l =>
      if existsb (isDue elapsedTimeNs) rs then
        '(r, m) ← PullLocked key.1 key.2 elapsedTimeNs m;
        let '(data, pullSuccess, m) :=
          match r with
          | Some (pullerKey, data) => (map (stamp elapsedTimeNs) data, true, stampCache elapsedTimeNs pullerKey m)
          | None => ([], false, m)
          end in
        let '(calls, rs, minNext) := serve elapsedTimeNs data pullSuccess rs minNext in
        '(calls', l, minNext, m) ← pullForKeys elapsedTimeNs l minNext m;
        Some (calls ++ calls', (key, rs) :: l, minNext, m)
      else
        '(calls, l, minNext, m) ← pullForKeys elapsedTimeNs l minNext m;
        Some (calls, (key, rs) :: l, minNext, m)
  end.

Definition OnAlarmFired (elapsedTimeNs : Z) (m : StatsPullerManager)
    : option (list ManagerCall * StatsPullerManager) :=
  '(calls, l, minNext, m) ← pullForKeys elapsedTimeNs (mReceivers m)
                              (minOfLater elapsedTimeNs (mReceivers m)) m;
  let m := set_nextPull minNext (set_receivers l m) in
  Some (calls ++ updateAlarmLocked m, m).

(** *** Caches and callbacks *)

Definition clearCaches (f : StatsPuller → Z * StatsPuller) (m : StatsPullerManager) : Z * StatsPullerManager :=
  (foldr Z.add 0 (map (λ kp : PullerKey * StatsPuller, (f kp.2).1) (map_to_list (kAllPullAtomInfo m))),
   set_pullers ((λ p, (f p).2) <$> kAllPullAtomInfo m) m).

Definition ForceClearPullerCache : StatsPullerManager → Z * StatsPullerManager := clearCaches ForceClearCache.

Definition ClearPullerCacheIfNecessary (timestampNs : Z) : StatsPullerManager → Z * StatsPullerManager :=
  clearCaches (ClearCacheIfNecessary timestampNs).

(** [callback]: the callback is not null. *)
Definition RegisterPullAtomCallback (uid atomTag coolDownNs timeoutNs : Z) (additiveFields : list Z)
    (callback : bool) (m : StatsPullerManager) : StatsPullerManager :=
  if negb callback then m
  else
    let actualCoolDownNs := if coolDownNs <? kMinCoolDownNs then kMinCoolDownNs else coolDownNs in
    let actualTimeoutNs := if kMaxTimeoutNs <? timeoutNs then kMaxTimeoutNs else timeoutNs in
    let puller := StatsPuller_new (mPullerCount m) atomTag actualCoolDownNs actualTimeoutNs additiveFields in
    mkPullerManager (<[(uid, atomTag) := puller]> (kAllPullAtomInfo m)) (mStatsCompanionService m)
      (mReceivers m) (mPullUidProviders m) (mNextPullTimeNs m) (mPullCount m) (mPullerCount m + 1).

Definition UnregisterPullAtomCallback (uid atomTag : Z) (m : StatsPullerManager) : StatsPullerManager :=
  set_pullers (delete (uid, atomTag) (kAllPullAtomInfo m)) m.

(** The callback of the puller [id], registered under [key], died. *)
Definition pullAtomCallbackDied (key : PullerKey) (id : Z) (m : StatsPullerManager) : StatsPullerManager :=
  match kAllPullAtomInfo m !! key with
  | Some p => if sp_id p =? id then set_pullers (delete key (kAllPullAtomInfo m)) m else m
  | None => m
  end.
End manager.
