(* ===== verification/PullersFacts.v ===== *)
(** * Facts on pulled atoms

    A puller asks at most once in its cool down and serves only answers that came in time; an alarm
    serves exactly the receivers that are due and moves them past the present; the one alarm is never
    later than the next pull of a receiver. *)
From stdpp Require Import sorting.
From S2P Require Import Prelude FieldValue Matchers LogEvent UidMap MetricShared Sorting PullerUtil Pullers.

Section puller.
Context (sort : list Parsing → list Parsing) (uidMap : UidMap).

(** ** A puller over time *)

Inductive PullerOp :=
  | AskPull (env : PullEnv) (eventTimeNs : Z)
  | AskClear (timestampNs : Z).

Definition opTime (o : PullerOp) : Z := match o with AskPull env _ => pe_before env | AskClear t => t end.

(** The pulls that asked for data, with their answers, and all the answers given. *)
Record PullerRun := mkPullerRun {
  run_puller : StatsPuller;
  asked : list (PullEnv * option (list Parsing));
  answers : list (option (list Parsing))
}.

Definition stepPuller (o : PullerOp) (r : PullerRun) : option PullerRun :=
  match o with
  | AskClear t => Some (mkPullerRun (ClearCacheIfNecessary t (run_puller r)).2 (asked r) (answers r))
  | AskPull env eventTimeNs =>
      '(answer, p) ← puller_Pull sort uidMap env eventTimeNs (run_puller r);
      Some (mkPullerRun p
              (if shouldUseCache env eventTimeNs (run_puller r) then asked r else asked r ++ [(env, answer)])
              (answers r ++ [answer]))
  end.

Definition runPuller (l : list PullerOp) (p : StatsPuller) : option PullerRun :=
  foldl (λ r o, r ← r; stepPuller o r) (Some (mkPullerRun p [] [])) l.

(** The events of a pull can be merged. *)
Definition mergesFor (tagId : Z) (adds : list Z) (env : PullEnv) : Prop :=
  pe_data env ≠ [] → is_Some (mapAndMergeIsolatedUidsToHostUid sort (pe_data env) uidMap tagId adds).

(** A pull that delivers data succeeded and was in time. *)
Definition inTime (p : StatsPuller) (env : PullEnv) (d : list Parsing) : Prop :=
  pe_success env = true ∧ pe_after env - pe_before env <= mPullTimeoutNs p
  ∧ (pe_data env = [] ∧ d = []
     ∨ mapAndMergeIsolatedUidsToHostUid sort (pe_data env) uidMap (sp_tagId p) (mAdditiveFields p) = Some d).

Definition sameSettings (p q : StatsPuller) : Prop :=
  sp_tagId p = sp_tagId q ∧ mPullTimeoutNs p = mPullTimeoutNs q ∧ mCoolDownNs p = mCoolDownNs q
  ∧ mAdditiveFields p = mAdditiveFields q.

Lemma puller_Pull_spec env t p :
  mergesFor (sp_tagId p) (mAdditiveFields p) env →
  ∃ answer p', puller_Pull sort uidMap env t p = Some (answer, p') ∧ sameSettings p' p
    ∧ if shouldUseCache env t p then p' = p ∧ answer = (if mHasGoodData p then Some (mCachedData p) else None)
      else mLastPullTimeNs p' = pe_before env
           ∧ match answer with
             | Some d => mHasGoodData p' = true ∧ mCachedData p' = d ∧ inTime p env d
             | None => mHasGoodData p' = false
             end.
Proof using.
  intros Hm. unfold puller_Pull. destruct (shouldUseCache env t p).
  { eexists _, _. split; [reflexivity|]. by split. }
  destruct (pe_success env) eqn:Es; cbn [negb]; [|by eexists _, _].
  destruct (Z.ltb_spec (mPullTimeoutNs p) (pe_after env - pe_before env)); [by eexists _, _|].
  destruct (pe_data env) as [|x l] eqn:Ed; cbn [mbind option_bind].
  - eexists _, _. split; [reflexivity|]. split; [done|]. split; [done|]. split_and!; [done|done|].
    split_and!; [done|lia|by left].
  - destruct Hm as [d Hd]; [by rewrite Ed|]. rewrite Ed in Hd. rewrite Hd. cbn [mbind option_bind].
    eexists _, _. split; [reflexivity|]. split; [done|]. split; [done|]. split_and!; [done|done|].
    split_and!; [done|lia|]. right. by rewrite Ed.
Qed.

Lemma sameSettings_trans p q r : sameSettings p q → sameSettings q r → sameSettings p r.
Proof using. unfold sameSettings. intuition congruence. Qed.

Lemma inTime_same p q env d : sameSettings p q → inTime p env d → inTime q env d.
Proof using. intros (Ht & Ho & _ & Ha). unfold inTime. by rewrite Ht, Ho, Ha. Qed.

(** At the time [now]. *)
Definition pullerInv (p0 : StatsPuller) (now : Z) (r : PullerRun) : Prop :=
  sameSettings (run_puller r) p0
  ∧ StronglySorted (λ a b, pe_before a.1 + mCoolDownNs p0 <= pe_before b.1) (asked r)
  ∧ Forall (λ a, pe_before a.1 <= mLastPullTimeNs (run_puller r) ∨ pe_before a.1 + mCoolDownNs p0 <= now) (asked r)
  ∧ Forall (λ a, ∀ d, a.2 = Some d → inTime p0 a.1 d) (asked r)
  ∧ (mHasGoodData (run_puller r) = true →
       mCachedData (run_puller r) = [] ∨ ∃ env, (env, Some (mCachedData (run_puller r))) ∈ asked r)
  ∧ Forall (λ a, ∀ d, a = Some d → d = [] ∨ ∃ env, (env, Some d) ∈ asked r) (answers r).

Lemma StronglySorted_snoc {A} (R : A → A → Prop) l x :
  StronglySorted R l → Forall (λ y, R y x) l → StronglySorted R (l ++ [x]).
Proof using.
  induction 1 as [|a l Hs IH Ha]; intros Hx; cbn; [repeat constructor|].
  apply Forall_cons_1 in Hx as [Hax Hx]. constructor; [by apply IH|]. apply Forall_app. split; [done|].
  by apply Forall_cons_2, Forall_nil_2.
Qed.

Lemma clear_inv p0 now t r :
  pullerInv p0 now r → now <= t → ∃ r', stepPuller (AskClear t) r = Some r' ∧ pullerInv p0 t r'.
Proof using.
  intros (Hset & Hsort & Hlast & Htime & Hcache & Hans) Hnow. eexists. split; [reflexivity|].
  unfold ClearCacheIfNecessary. destruct (Z.ltb_spec (mCoolDownNs (run_puller r)) (t - mLastPullTimeNs (run_puller r))) as [Hlt|Hge].
  - destruct Hset as (? & ? & Hcd & ?).
    split_and!; [done|done| |done| |done]; cbn [run_puller asked snd clearCacheLocked]; [|by left].
    eapply Forall_impl; [exact Hlast|]. intros a [Ha|Ha]; right; cbn beta in *; [rewrite <- Hcd|]; lia.
  - split_and!; [done|done| |done|done|done]. eapply Forall_impl; [exact Hlast|]. intros a [Ha|Ha]; [by left|right; lia].
Qed.

Lemma pull_inv p0 now env t r :
  mergesFor (sp_tagId p0) (mAdditiveFields p0) env → pullerInv p0 now r → now <= pe_before env →
  ∃ r', stepPuller (AskPull env t) r = Some r' ∧ pullerInv p0 (pe_before env) r'.
Proof using.
  intros Hm (Hset & Hsort & Hlast & Htime & Hcache & Hans) Hnow. pose proof Hset as (Htag & _ & Hcd & Hadd).
  rewrite <- Htag, <- Hadd in Hm. destruct (puller_Pull_spec env t (run_puller r) Hm) as (answer & p' & E & Hset' & H).
  cbn [stepPuller]. rewrite E. cbn [mbind option_bind]. eexists. split; [reflexivity|].
  destruct (shouldUseCache env t (run_puller r)) eqn:Ec.
  - destruct H as [-> ->]. split_and!; [done|done| |done|done|]; cbn [run_puller asked answers].
    + eapply Forall_impl; [exact Hlast|]. intros a [Ha|Ha]; [by left|right; lia].
    + apply Forall_app. split; [done|]. apply Forall_cons_2; [|apply Forall_nil_2].
      intros d. destruct (mHasGoodData (run_puller r)) eqn:Eg; [|done]. intros [= <-]. by apply Hcache.
  - destruct H as [Hl H]. unfold shouldUseCache in Ec. apply orb_false_iff in Ec as [_ Ec%Z.ltb_ge].
    assert (Hgap : Forall (λ a, pe_before a.1 + mCoolDownNs p0 <= pe_before env) (asked r)).
    { eapply Forall_impl; [exact Hlast|]. intros a [Ha|Ha]; cbn beta in *; rewrite <- ?Hcd in *; lia. }
    split_and!; cbn [run_puller asked answers].
    + by eapply sameSettings_trans.
    + by apply StronglySorted_snoc.
    + apply Forall_app. split; [eapply Forall_impl; [exact Hgap|]; intros a Ha; by right|].
      apply Forall_cons_2; [left; cbn; lia|apply Forall_nil_2].
    + apply Forall_app. split; [done|]. apply Forall_cons_2; [|apply Forall_nil_2]. cbn. intros d ->.
      destruct H as (_ & _ & H). by eapply inTime_same.
    + destruct answer as [d|]; [|congruence]. intros _. right. exists env. destruct H as (_ & -> & _). set_solver.
    + apply Forall_app. split.
      * eapply Forall_impl; [exact Hans|]. intros a Ha d Hd. destruct (Ha d Hd) as [?|[e He]]; [by left|right].
        exists e. set_solver.
      * apply Forall_cons_2; [|apply Forall_nil_2]. intros d ->. right. exists env. set_solver.
Qed.
End puller.

(** A puller does not ask too often and serves only answers that came in time.  Over any sequence
    of requests and clearings of the cache in the order of time, two pulls that really ask are at least
    the cool down apart, and every answer given is empty or the merged data of such a pull that
    succeeded within the timeout. *)
Theorem puller_cools_down (sort : list Parsing → list Parsing) (uidMap : UidMap) (id tagId coolDown timeout : Z)
    (adds : list Z) (ops : list PullerOp) :
  let p0 := StatsPuller_new id tagId coolDown timeout adds in
  StronglySorted Z.le (map opTime ops) →
  (∀ env t, AskPull env t ∈ ops → mergesFor sort uidMap tagId adds env) →
  ∃ r, runPuller sort uidMap ops p0 = Some r
    ∧ StronglySorted (λ a b, pe_before a.1 + coolDown <= pe_before b.1) (asked r)
    ∧ ∀ d, Some d ∈ answers r → d = [] ∨ ∃ env, (env, Some d) ∈ asked r ∧ inTime sort uidMap p0 env d.
Proof.
  intros p0 Hsort Hm.
  assert (H : ∀ ops now r, StronglySorted Z.le (map opTime ops) → Forall (λ o, now <= opTime o) ops →
    (∀ env t, AskPull env t ∈ ops → mergesFor sort uidMap tagId adds env) → pullerInv sort uidMap p0 now r →
    ∃ r' now', foldl (λ r o, r ← r; stepPuller sort uidMap o r) (Some r) ops = Some r' ∧ pullerInv sort uidMap p0 now' r').
  { clear. induction ops as [|o ops IH]; intros now r Hs Hnow Hm Hr; cbn [foldl]; [by exists r, now|].
    apply StronglySorted_inv in Hs as [Hs Ho]. apply Forall_cons_1 in Hnow as [Hn _].
    assert (Hstep : ∃ r', stepPuller sort uidMap o r = Some r' ∧ pullerInv sort uidMap p0 (opTime o) r').
    { destruct o as [env t|t]; [|by eapply clear_inv].
      eapply pull_inv; [|exact Hr|done]. apply (Hm env t). set_solver. }
    destruct Hstep as (r1 & E & H1). cbn [mbind option_bind]. rewrite E.
    apply (IH (opTime o) r1); [done|by apply (proj1 (List.Forall_map _ _ _) Ho)|set_solver|done]. }
  destruct ops as [|o ops].
  { eexists. split; [reflexivity|]. split; [constructor|set_solver]. }
  destruct (H (o :: ops) (opTime o) (mkPullerRun p0 [] [])) as (r & now & E & Hr); try done.
  { apply StronglySorted_inv in Hsort as [_ Ho]. apply Forall_cons_2; [lia|]. by apply (proj1 (List.Forall_map _ _ _) Ho). }
  { split_and!; cbn; try done; constructor. }
  exists r. split; [exact E|]. destruct Hr as (_ & Hgap & _ & Htime & _ & Hans). split; [exact Hgap|].
  rewrite Forall_forall in Htime. rewrite Forall_forall in Hans. intros d Hd. destruct (Hans _ Hd d eq_refl) as [?|[env Henv]]; [by left|].
  right. exists env. split; [done|]. by apply (Htime _ Henv).
Qed.

Lemma puller_cools_down_witness :
  let env t := mkPullEnv t (t + 5) true [] in
  let ops := [AskPull (env 2000000000) 7; AskPull (env 2500000000) 8; AskClear 4000000000; AskPull (env 5000000000) 9] in
  ∃ r, runPuller (insertionSort event_ltb) UidMap_new ops (StatsPuller_new 1 10 NS_PER_SEC kPullMaxDelayNs []) = Some r
    ∧ StronglySorted (λ a b, pe_before a.1 + NS_PER_SEC <= pe_before b.1) (asked r)
    ∧ ∀ d, Some d ∈ answers r → d = [] ∨ ∃ env, (env, Some d) ∈ asked r
        ∧ inTime (insertionSort event_ltb) UidMap_new (StatsPuller_new 1 10 NS_PER_SEC kPullMaxDelayNs []) env d.
Proof.
  cbv zeta. apply (puller_cools_down (insertionSort event_ltb) UidMap_new 1 10 NS_PER_SEC kPullMaxDelayNs []).
  - repeat constructor; cbn; lia.
  - intros env t H Hd. exfalso.
    repeat (apply elem_of_cons in H as [H|H]; [simplify_eq; by apply Hd|]). by apply elem_of_nil in H.
Defined.

(** ** The alarm *)

Section manager.
Context (sort : list Parsing → list Parsing) (uidMap : UidMap).
Implicit Types (W : PullWorld) (m : StatsPullerManager).

(** The pulls of a world can be merged. *)
Definition noFault (W : PullWorld) : Prop :=
  ∀ n tagId adds, mergesFor sort uidMap tagId adds (pullFinds W n).

Definition served (W : PullWorld) (t : Z) (i : ReceiverInfo) : bool := isDue t i && receiverAlive W (receiver i).

Definition afterAlarm (W : PullWorld) (t : Z) (i : ReceiverInfo) : ReceiverInfo :=
  if served W t i then advance t i else i.

(** The receivers told, in order. *)
Definition told_receivers (calls : list ManagerCall) : list Z :=
  omap (λ c, match c with call_onDataPulled r _ _ _ => Some r | _ => None end) calls.

Lemma serve_spec W t data ok rs : ∀ minNext,
  let '(calls, rs', minNext') := serve W t data ok rs minNext in
  rs' = map (afterAlarm W t) rs
  ∧ told_receivers calls = map receiver (List.filter (served W t) rs)
  ∧ minNext' <= minNext
  ∧ Forall (λ i, served W t i = true → minNext' <= nextPullTimeNs (advance t i)) rs.
Proof using.
  induction rs as [|i rs IH]; intros minNext; cbn [serve]; [split_and!; [done|done|done|constructor]|].
  fold (served W t i). cbn [map List.filter]. unfold afterAlarm at 1. destruct (served W t i) eqn:E.
  - set (minNext1 := if _ <? _ then _ else _). specialize (IH minNext1).
    destruct (serve W t data ok rs minNext1) as [[calls rs'] minNext']. destruct IH as (-> & Hc & Hm & Hf).
    assert (Hm1 : minNext1 <= minNext ∧ minNext1 <= nextPullTimeNs (advance t i)).
    { subst minNext1. destruct (Z.ltb_spec (nextPullTimeNs (advance t i)) minNext); lia. }
    split_and!; [done|exact (f_equal (cons (receiver i)) Hc)|lia|]. apply Forall_cons_2; [lia|done].
  - specialize (IH minNext). destruct (serve W t data ok rs minNext) as [[calls rs'] minNext'].
    destruct IH as (-> & Hc & Hm & Hf). split_and!; [done|done|done|].
    apply Forall_cons_2; [congruence|done].
Qed.

Lemma afterAlarm_none W t rs : existsb (isDue t) rs = false → map (afterAlarm W t) rs = rs ∧ List.filter (served W t) rs = [].
Proof using.
  induction rs as [|i rs IH]; cbn [existsb map List.filter]; [done|]. intros [Hi Hr]%orb_false_iff.
  destruct (IH Hr) as [-> ->]. unfold afterAlarm, served. by rewrite Hi.
Qed.

(** What a pull leaves alone. *)
Definition sameButPullers (m m' : StatsPullerManager) : Prop :=
  mStatsCompanionService m' = mStatsCompanionService m ∧ mReceivers m' = mReceivers m
  ∧ mPullUidProviders m' = mPullUidProviders m ∧ mNextPullTimeNs m' = mNextPullTimeNs m.

Lemma PullLocked_returns W tagId key t m :
  noFault W → ∃ r m', PullLocked sort uidMap W tagId key t m = Some (r, m') ∧ sameButPullers m m'.
Proof using.
  intros Hf. unfold PullLocked. destruct (mPullUidProviders m !! key) as [provider|]; [|by eexists _, _].
  destruct (providerAlive W provider); [|by eexists _, _].
  induction (getPullAtomUids W provider tagId) as [|uid uids IH]; cbn [pullFromUids]; [by eexists _, _|].
  destruct (kAllPullAtomInfo m !! (uid, tagId)) as [p|]; [|exact IH].
  destruct (puller_Pull_spec sort uidMap (pullFinds W (mPullCount m)) t p (Hf _ _ _)) as (a & p' & -> & _).
  by eexists _, _.
Qed.

Lemma told_receivers_app a b : told_receivers (a ++ b) = told_receivers a ++ told_receivers b.
Proof using. apply omap_app. Qed.

Lemma pullForKeys_spec W t (Hf : noFault W) l : ∀ minNext m,
  ∃ calls minNext' m',
    pullForKeys sort uidMap W t l minNext m
      = Some (calls, map (λ kr : ReceiverKey * list ReceiverInfo, (kr.1, map (afterAlarm W t) kr.2)) l, minNext', m')
    ∧ sameButPullers m m'
    ∧ told_receivers calls = map receiver (List.filter (served W t) (concat (map snd l)))
    ∧ minNext' <= minNext
    ∧ Forall (λ i, served W t i = true → minNext' <= nextPullTimeNs (advance t i)) (concat (map snd l)).
Proof using.
  induction l as [|[key rs] l IH]; intros minNext m; cbn [pullForKeys].
  { eexists _, _, _. split; [reflexivity|]. split; [done|]. split; [done|]. split; [lia|constructor]. }
  cbn [map concat snd fst]. rewrite List.filter_app, map_app. destruct (existsb (isDue t) rs) eqn:Ed.
  - destruct (PullLocked_returns W key.1 key.2 t m Hf) as (r & m1 & -> & Hs1). cbn [mbind option_bind].
    set (q := match r with Some _ => _ | None => _ end).
    assert (Hq : sameButPullers m q.2) by (subst q; by destruct r as [[pk d]|]).
    destruct q as [[data ok] m2]. cbn [snd] in Hq.
    pose proof (serve_spec W t data ok rs minNext) as Hserve.
    destruct (serve W t data ok rs minNext) as [[calls rs'] minNext1]. destruct Hserve as (-> & Hc & Hm & Hfor).
    destruct (IH minNext1 m2) as (calls' & minNext' & m' & -> & Hs & Hc' & Hm' & Hfor').
    cbn [mbind option_bind]. eexists _, _, _. split; [reflexivity|].
    split; [unfold sameButPullers in *; intuition congruence|].
    split; [by rewrite told_receivers_app, Hc, Hc'|]. split; [lia|]. apply Forall_app. split; [|done].
    eapply Forall_impl; [exact Hfor|]. intros i Hi Hsv. specialize (Hi Hsv). lia.
  - destruct (afterAlarm_none W t rs Ed) as [E1 E2]. rewrite E1, E2.
    destruct (IH minNext m) as (calls' & minNext' & m' & -> & Hs & Hc' & Hm' & Hfor').
    cbn [mbind option_bind]. eexists _, _, _. split; [reflexivity|]. split_and!; [done..|].
    apply Forall_app. split; [|done]. rewrite Forall_forall. intros i Hi Hsv. exfalso.
    apply not_true_iff_false in Ed. apply Ed, existsb_exists. exists i. apply list_elem_of_In in Hi.
    split; [done|]. by apply andb_true_iff in Hsv as [? _].
Qed.

Lemma minOfLater_le t l :
  Forall (λ i, isDue t i = false → minOfLater t l <= nextPullTimeNs i) (concat (map snd l))
  ∧ minOfLater t l <= NO_ALARM_UPDATE.
Proof using.
  unfold minOfLater. generalize NO_ALARM_UPDATE as a. generalize (concat (map snd l)) as rs.
  induction rs as [|i rs IH]; intros a; cbn [foldl]; [split; [constructor|done]|].
  set (a1 := if isDue t i then a else _). destruct (IH a1) as [Hf Ha].
  assert (H1 : a1 <= a ∧ (isDue t i = false → a1 <= nextPullTimeNs i)).
  { subst a1. destruct (isDue t i); [lia|]. destruct (Z.ltb_spec (nextPullTimeNs i) a); lia. }
  destruct H1 as [H1 H2]. split; [|lia]. apply Forall_cons_2; [|done]. intros E. specialize (H2 E). lia.
Qed.

(** The next pull time lies after the alarm, at most an interval later, on the grid of the receiver. *)
Lemma advance_grid t i :
  0 < intervalNs i → nextPullTimeNs i <= t → t - nextPullTimeNs i < (2 ^ 31 - 1) * intervalNs i →
  t < nextPullTimeNs (advance t i) <= t + intervalNs i
  ∧ (nextPullTimeNs (advance t i) - nextPullTimeNs i) mod intervalNs i = 0.
Proof using.
  intros Hi Hdue Hb. unfold advance. cbn [nextPullTimeNs]. rewrite Z.quot_div_nonneg by lia.
  assert (Hq : 0 <= (t - nextPullTimeNs i) / intervalNs i < 2 ^ 31 - 1).
  { split; [apply Z.div_pos; lia|]. apply Z.div_lt_upper_bound; lia. }
  rewrite wrap32_id by (unfold int32; lia).
  pose proof (Z.div_mod (t - nextPullTimeNs i) (intervalNs i) ltac:(lia)) as Hdm.
  pose proof (Z.mod_pos_bound (t - nextPullTimeNs i) (intervalNs i) Hi) as Hmod. split; [lia|].
  replace (nextPullTimeNs i + _ - nextPullTimeNs i)
    with (((t - nextPullTimeNs i) / intervalNs i + 1) * intervalNs i) by lia. by apply Z.mod_mul; lia.
Qed.
End manager.

Definition allReceivers (m : StatsPullerManager) : list ReceiverInfo := concat (map snd (mReceivers m)).

(** The alarm after an alarm: not later than the receivers that are there, and set. *)
Lemma alarm_run sort uidMap W t m :
  noFault sort uidMap W →
  ∃ calls minNext m1,
    OnAlarmFired sort uidMap W t m = Some (calls ++ updateAlarmLocked m1, m1)
    ∧ told_receivers calls = map receiver (List.filter (served W t) (allReceivers m))
    ∧ allReceivers m1 = map (afterAlarm W t) (allReceivers m)
    ∧ mNextPullTimeNs m1 = minNext
    ∧ ∀ i, i ∈ allReceivers m1 → receiverAlive W (receiver i) = true → minNext <= nextPullTimeNs i.
Proof.
  intros Hf. unfold OnAlarmFired.
  destruct (pullForKeys_spec sort uidMap W t Hf (mReceivers m) (minOfLater t (mReceivers m)) m)
    as (calls & minNext & m1 & -> & Hs & Hc & Hmin & Hfor). cbn [mbind option_bind].
  eexists calls, minNext, _. split; [reflexivity|].
  assert (Hall : concat (map snd (map (λ kr : ReceiverKey * list ReceiverInfo, (kr.1, map (afterAlarm W t) kr.2))
                   (mReceivers m))) = map (afterAlarm W t) (allReceivers m)).
  { unfold allReceivers. rewrite map_map. cbn [snd]. by rewrite concat_map, map_map. }
  split; [exact Hc|]. split; [exact Hall|]. split; [done|].
  intros i. unfold allReceivers at 1. cbn [mReceivers set_nextPull set_receivers]. rewrite Hall.
  intros (j & <- & Hj%list_elem_of_In)%list_elem_of_In%in_map_iff Halive. unfold afterAlarm in *.
  rewrite Forall_forall in Hfor. destruct (served W t j) eqn:Esv; [by apply Hfor|].
  destruct (minOfLater_le t (mReceivers m)) as [Hlater _]. rewrite Forall_forall in Hlater.
  transitivity (minOfLater t (mReceivers m)); [done|]. apply Hlater; [done|].
  unfold served in Esv. rewrite Halive, andb_true_r in Esv. done.
Qed.

(** C29: an alarm serves exactly the receivers that are due.  When the alarm fires and the pulled data can be merged, every receiver that
    is due and still there is told once, in order, whatever the pulls find; its next pull time moves
    past the present by whole intervals and at most one interval ahead; the other receivers keep theirs;
    and the next alarm is not later than the next pull of any receiver that is still there. *)
Theorem alarm_serves_due_receivers (sort : list Parsing → list Parsing) (uidMap : UidMap) (W : PullWorld)
    (t : Z) (m : StatsPullerManager) :
  noFault sort uidMap W →
  ∃ calls m', OnAlarmFired sort uidMap W t m = Some (calls, m')
    ∧ told_receivers calls = map receiver (List.filter (served W t) (allReceivers m))
    ∧ allReceivers m' = map (afterAlarm W t) (allReceivers m)
    ∧ (∀ i, i ∈ allReceivers m → served W t i = true → 0 < intervalNs i →
         t - nextPullTimeNs i < (2 ^ 31 - 1) * intervalNs i →
         t < nextPullTimeNs (afterAlarm W t i) <= t + intervalNs i
         ∧ (nextPullTimeNs (afterAlarm W t i) - nextPullTimeNs i) mod intervalNs i = 0)
    ∧ ∀ i, i ∈ allReceivers m' → receiverAlive W (receiver i) = true → mNextPullTimeNs m' <= nextPullTimeNs i.
Proof.
  intros Hf. destruct (alarm_run sort uidMap W t m Hf) as (calls & minNext & m1 & E & Hc & Hall & Hmin & Hle).
  eexists _, _. split; [exact E|]. split; [|split; [exact Hall|split; [|by rewrite Hmin]]].
  - rewrite told_receivers_app, Hc. unfold updateAlarmLocked. destruct (_ =? _); [by rewrite app_nil_r|].
    destruct (mStatsCompanionService _); by rewrite app_nil_r.
  - intros i _ Hsv Hi Hb. unfold afterAlarm. rewrite Hsv. apply andb_true_iff in Hsv as [Hd%Z.leb_le _].
    by apply advance_grid.
Qed.

Lemma alarm_serves_due_receivers_witness :
  let W := mkPullWorld (λ r, r =? 1) (λ _, true) (λ _ _, [1066]) (λ n, mkPullEnv 5 6 true []) in
  let m := set_receivers [((10, (1, 1)), [mkReceiverInfo 100 60 1; mkReceiverInfo 90 60 2; mkReceiverInfo 500 60 1])]
             (StatsPullerManager_new 10051) in
  told_receivers (default ([], m) (OnAlarmFired (insertionSort event_ltb) UidMap_new W 230 m)).1 = [1]
  ∧ ∃ calls m', OnAlarmFired (insertionSort event_ltb) UidMap_new W 230 m = Some (calls, m')
    ∧ told_receivers calls = map receiver (List.filter (served W 230) (allReceivers m))
    ∧ allReceivers m' = map (afterAlarm W 230) (allReceivers m)
    ∧ (∀ i, i ∈ allReceivers m → served W 230 i = true → 0 < intervalNs i →
         230 - nextPullTimeNs i < (2 ^ 31 - 1) * intervalNs i →
         230 < nextPullTimeNs (afterAlarm W 230 i) <= 230 + intervalNs i
         ∧ (nextPullTimeNs (afterAlarm W 230 i) - nextPullTimeNs i) mod intervalNs i = 0)
    ∧ ∀ i, i ∈ allReceivers m' → receiverAlive W (receiver i) = true → mNextPullTimeNs m' <= nextPullTimeNs i.
Proof.
  cbv zeta. split; [vm_compute; reflexivity|]. apply alarm_serves_due_receivers.
  intros n tagId adds H. by cbn in H.
Defined.

(** ** The alarm over time *)

Section alarm.
Context (sort : list Parsing → list Parsing) (uidMap : UidMap).

Inductive ManagerOp :=
  | MRegister (tagId : Z) (key : ConfigKey) (r next interval : Z)
  | MUnregister (tagId : Z) (key : ConfigKey) (r : Z)
  | MService (available : bool)
  | MAlarm (t : Z)
  | MPull (tagId : Z) (key : ConfigKey) (t : Z)
  | MClear (t : Z)
  | MCallback (uid atomTag coolDown timeout : Z) (adds : list Z)
  | MProvider (key : ConfigKey) (provider : Z).

Definition stepManager (W : PullWorld) (o : ManagerOp) (m : StatsPullerManager)
    : option (list ManagerCall * StatsPullerManager) :=
  match o with
  | MRegister tagId key r next interval => Some (RegisterReceiver tagId key r next interval m)
  | MUnregister tagId key r => Some ([], UnRegisterReceiver tagId key r m)
  | MService b => Some (SetStatsCompanionService b m)
  | MAlarm t => OnAlarmFired sort uidMap W t m
  | MPull tagId key t => '(_, m) ← manager_Pull sort uidMap W tagId key t m; Some ([], m)
  | MClear t => Some ([], (ClearPullerCacheIfNecessary t m).2)
  | MCallback uid atomTag coolDown timeout adds =>
      Some ([], RegisterPullAtomCallback uid atomTag coolDown timeout adds true m)
  | MProvider key provider => Some ([], RegisterPullUidProvider key provider m)
  end.

(** The alarm that is set at the companion service. *)
Definition alarmAfter (a : option Z) (calls : list ManagerCall) : option Z :=
  foldl (λ a c, match c with setPullingAlarm t => Some t | _ => a end) a calls.

Definition runManager (l : list (PullWorld * ManagerOp)) (m : StatsPullerManager)
    : option (option Z * StatsPullerManager) :=
  foldl (λ r '(W, o), '(a, m) ← r; '(calls, m) ← stepManager W o m; Some (alarmAfter a calls, m)) (Some (None, m)) l.

(** The alarm is not later than the next pull of a receiver that is there, and it is set. *)
Definition alarmInv (W : PullWorld) (a : option Z) (m : StatsPullerManager) : Prop :=
  (∀ i, i ∈ allReceivers m → receiverAlive W (receiver i) = true → mNextPullTimeNs m <= nextPullTimeNs i)
  ∧ (mStatsCompanionService m = true → mNextPullTimeNs m ≠ NO_ALARM_UPDATE →
       a = Some (Z.quot (mNextPullTimeNs m) 1000000)).

Lemma updateAlarm_sets a m :
  mStatsCompanionService m = true → mNextPullTimeNs m ≠ NO_ALARM_UPDATE →
  alarmAfter a (updateAlarmLocked m) = Some (Z.quot (mNextPullTimeNs m) 1000000).
Proof using. unfold updateAlarmLocked. intros ->. by destruct (Z.eqb_spec (mNextPullTimeNs m) NO_ALARM_UPDATE). Qed.

Lemma receiversAt_elem key l rs i : receiversAt key l = Some rs → i ∈ rs → i ∈ concat (map snd l).
Proof using.
  induction l as [|[k rs'] l IH]; cbn [receiversAt map concat snd]; [done|]. case_bool_decide.
  - intros [= ->]. set_solver.
  - intros E Hi. specialize (IH E Hi). set_solver.
Qed.

Lemma putReceivers_elem key rs l i : i ∈ concat (map snd (putReceivers key rs l)) → i ∈ rs ∨ i ∈ concat (map snd l).
Proof using.
  induction l as [|[k rs'] l IH]; cbn [putReceivers map concat snd]; [set_solver|]. case_bool_decide; [set_solver|].
  destruct (ReceiverKey_ltb key k); cbn [map concat snd]; set_solver.
Qed.

Lemma eraseReceiver_elem r l i : i ∈ eraseReceiver r l → i ∈ l.
Proof using. induction l as [|j l IH]; cbn [eraseReceiver]; [done|]. destruct (receiver j =? r); set_solver. Qed.

Lemma register_inv W a tagId key r next interval m :
  alarmInv W a m →
  let '(calls, m') := RegisterReceiver tagId key r next interval m in alarmInv W (alarmAfter a calls) m'.
Proof using.
  intros [Hle Hset]. unfold RegisterReceiver. set (rs := default [] _). destruct (existsb _ rs); [by split|].
  set (l := putReceivers _ _ _).
  assert (Hin : ∀ i, i ∈ concat (map snd l) → nextPullTimeNs i = next ∨ i ∈ allReceivers m).
  { intros i [Hi|Hi]%putReceivers_elem; [|by right]. apply elem_of_app in Hi as [Hi|Hi].
    - right. unfold rs in Hi. destruct (receiversAt _ _) as [rs'|] eqn:E; [|by apply elem_of_nil in Hi].
      by eapply receiversAt_elem.
    - left. apply list_elem_of_singleton in Hi as ->. done. }
  cbn [mNextPullTimeNs set_receivers]. destruct (Z.ltb_spec next (mNextPullTimeNs m)).
  - split; [|by intros; apply updateAlarm_sets]. intros i [-> |Hi]%Hin Ha; cbn; [done|]. specialize (Hle i Hi Ha). lia.
  - split; [|exact Hset]. intros i [-> |Hi]%Hin Ha; cbn; [done|]. by apply Hle.
Qed.

Lemma alarmAfter_app a c d : alarmAfter a (c ++ d) = alarmAfter (alarmAfter a c) d.
Proof using. apply foldl_app. Qed.

Lemma step_inv W o a m :
  noFault sort uidMap W → alarmInv W a m →
  ∃ calls m', stepManager W o m = Some (calls, m') ∧ alarmInv W (alarmAfter a calls) m'.
Proof using.
  intros Hf Hinv. pose proof Hinv as [Hle Hset]. destruct o as [tagId key r next interval|tagId key r|b|t|tagId key t|t|uid tag cd to adds|key provider]; cbn [stepManager].
  - pose proof (register_inv W a tagId key r next interval m Hinv) as H.
    destruct (RegisterReceiver _ _ _ _ _ m) as [calls m']. by exists calls, m'.
  - eexists _, _. split; [reflexivity|]. unfold UnRegisterReceiver.
    destruct (receiversAt _ _) as [rs|] eqn:E; [|done]. split; [|exact Hset].
    intros i [Hi%eraseReceiver_elem|Hi]%putReceivers_elem Ha; apply Hle; try done. by eapply receiversAt_elem.
  - eexists _, _. split; [reflexivity|]. destruct b; [|by split]. split; [exact Hle|]. intros. by apply updateAlarm_sets.
  - destruct (alarm_run sort uidMap W t m Hf) as (calls & minNext & m1 & E & _ & _ & <- & Hmin).
    eexists _, _. split; [exact E|]. split; [exact Hmin|]. intros. rewrite alarmAfter_app. by apply updateAlarm_sets.
  - unfold manager_Pull. destruct (PullLocked_returns sort uidMap W tagId key t m Hf) as (r & m' & -> & Hs).
    cbn [mbind option_bind]. eexists _, _. split; [reflexivity|]. destruct Hs as (Hsv & Hr & _ & Hn).
    split; [|by rewrite Hsv, Hn]. intros i. unfold allReceivers. rewrite Hr, Hn. apply Hle.
  - by eexists _, _.
  - by eexists _, _.
  - by eexists _, _.
Qed.
End alarm.

(** There is always an alarm in time for every receiver.  After any sequence of registrations,
    alarms, pulls and changes of the companion service, the next pull time of the manager is not later
    than that of any receiver still there, and when the companion service is available the alarm last
    set there is the one of that time.  A receiver that is gone does not come back. *)
Theorem pull_alarm_in_time (sort : list Parsing → list Parsing) (uidMap : UidMap) (TRAIN_INFO : Z)
    (l : list (PullWorld * ManagerOp)) (W : PullWorld) (o : ManagerOp) :
  (∀ V p, (V, p) ∈ l ++ [(W, o)] → noFault sort uidMap V) →
  StronglySorted (λ a b, ∀ r, receiverAlive b.1 r = true → receiverAlive a.1 r = true) (l ++ [(W, o)]) →
  ∃ a m, runManager sort uidMap (l ++ [(W, o)]) (StatsPullerManager_new TRAIN_INFO) = Some (a, m)
    ∧ (∀ i, i ∈ allReceivers m → receiverAlive W (receiver i) = true → mNextPullTimeNs m <= nextPullTimeNs i)
    ∧ (mStatsCompanionService m = true → mNextPullTimeNs m ≠ NO_ALARM_UPDATE →
         a = Some (Z.quot (mNextPullTimeNs m) 1000000)).
Proof.
  intros Hf Hs.
  assert (H : ∀ l V a m, (∀ U p, (U, p) ∈ l → noFault sort uidMap U) →
    StronglySorted (λ a b, ∀ r, receiverAlive b.1 r = true → receiverAlive a.1 r = true) l →
    Forall (λ b, ∀ r, receiverAlive b.1 r = true → receiverAlive V r = true) l → alarmInv V a m →
    ∃ a' m', foldl (λ r '(W, o), '(a, m) ← r; '(calls, m) ← stepManager sort uidMap W o m; Some (alarmAfter a calls, m))
      (Some (a, m)) l = Some (a', m') ∧ alarmInv (default V (fst <$> last l)) a' m').
  { clear. induction l as [|[U p] l IH]; intros V a m Hf Hs HV Hm; cbn [foldl]; [by exists a, m|].
    apply StronglySorted_inv in Hs as [Hs HU]. apply Forall_cons_1 in HV as [HVU _]. cbn [fst] in HVU.
    destruct (step_inv sort uidMap U p a m) as (calls & m1 & E & H1).
    { apply (Hf U p). set_solver. }
    { destruct Hm as [Hle Hset]. split; [|done]. intros i Hi Ha. apply Hle; [done|by apply HVU]. }
    cbn [mbind option_bind]. rewrite E. cbn [mbind option_bind].
    destruct (IH U (alarmAfter a calls) m1) as (a' & m' & E' & H'); [set_solver|done|done|done|].
    exists a', m'. split; [exact E'|].
    destruct l as [|x l]; [done|]. rewrite last_cons_cons.
    destruct (last (x :: l)) eqn:El; [done|by apply last_None in El]. }
  destruct (H (l ++ [(W, o)]) (mkPullWorld (λ _, true) (λ _, true) (λ _ _, []) (λ _, mkPullEnv 0 0 false [])) None
    (StatsPullerManager_new TRAIN_INFO) Hf Hs) as (a & m & E & Hm).
  { by apply Forall_forall. }
  { split; [|done]. intros i Hi. by apply elem_of_nil in Hi. }
  rewrite last_snoc in Hm. cbn in Hm. exists a, m. split; [exact E|]. exact Hm.
Qed.

Lemma pull_alarm_in_time_witness :
  let W := mkPullWorld (λ _, true) (λ _, true) (λ _ _, [1066]) (λ n, mkPullEnv 5 6 true []) in
  let l := [(W, MService true); (W, MRegister 10 (1, 1) 1 60000000000 60000000000);
            (W, MRegister 11 (1, 1) 2 90000000000 120000000000)] in
  fst <$> runManager (insertionSort event_ltb) UidMap_new (l ++ [(W, MAlarm 61000000000)]) (StatsPullerManager_new 10051)
    = Some (Some 90000)
  ∧ ∃ a m, runManager (insertionSort event_ltb) UidMap_new (l ++ [(W, MAlarm 61000000000)]) (StatsPullerManager_new 10051) = Some (a, m)
    ∧ (∀ i, i ∈ allReceivers m → receiverAlive W (receiver i) = true → mNextPullTimeNs m <= nextPullTimeNs i)
    ∧ (mStatsCompanionService m = true → mNextPullTimeNs m ≠ NO_ALARM_UPDATE →
         a = Some (Z.quot (mNextPullTimeNs m) 1000000)).
Proof.
  cbv zeta. split; [vm_compute; reflexivity|].
  apply (pull_alarm_in_time (insertionSort event_ltb) UidMap_new 10051 _ _ (MAlarm 61000000000)).
  - intros V p H n tagId adds Hd. exfalso.
    repeat (apply elem_of_cons in H as [H|H]; [simplify_eq; by apply Hd|]). by apply elem_of_nil in H.
  - repeat constructor.
Defined.
