(* ===== verification/LogEventQueue.v ===== *)
(** * The queue between the socket and the log processor (logd/LogEventQueue.{h,cpp})

    The threads that use the queue hold its mutex during an operation, so a run is a sequence of whole
    operations.  A [waitPop] on an empty queue waits: it has no step. *)
From S2P Require Import Prelude Matchers.

Record LogEventQueue (Item : Type) := mkLogEventQueue { mQueueLimit : nat; mQueue : list Item }.
Arguments mkLogEventQueue {Item}.
Arguments mQueueLimit {Item}.
Arguments mQueue {Item}.

Definition LogEventQueue_new {Item} (maxSize : nat) : LogEventQueue Item := mkLogEventQueue maxSize [].

(** The result of a push: success, or the time stamp of the oldest event. *)
Inductive PushResult := Pushed | Full (oldestTimestampNs : Z).

Section queue.
(** An event with its [GetElapsedTimestampNs]. *)
Context {Item : Type} (timestamp : Item → Z).
Notation LogEventQueue := (LogEventQueue Item).

Definition waitPop (q : LogEventQueue) : option (Item * LogEventQueue) :=
  match mQueue q with
  | [] => None
  | item :: rest => Some (item, mkLogEventQueue (mQueueLimit q) rest)
  end.

(** [front] of an empty queue, possible only with a limit of zero, is undefined. *)
Definition queue_push (item : Item) (q : LogEventQueue) : option (PushResult * LogEventQueue) :=
  if (length (mQueue q) <? mQueueLimit q)%nat
  then Some (Pushed, mkLogEventQueue (mQueueLimit q) (mQueue q ++ [item]))
  else
    match mQueue q with
    | [] => None
    | oldest :: _ => Some (Full (timestamp oldest), q)
    end.

(** ** Runs *)

Inductive QueueStep : LogEventQueue → list Item → list Item → LogEventQueue → Prop :=
  | step_pushed item q q' :
      queue_push item q = Some (Pushed, q') → QueueStep q [item] [] q'
  | step_full item oldest q q' :
      queue_push item q = Some (Full oldest, q') → QueueStep q [] [] q'
  | step_popped item q q' :
      waitPop q = Some (item, q') → QueueStep q [] [item] q'.

(** The events accepted and the events taken out. *)
Inductive QueueRun : LogEventQueue → list Item → list Item → LogEventQueue → Prop :=
  | run_nil q : QueueRun q [] [] q
  | run_cons q accepted popped q1 accepted' popped' q2 :
      QueueRun q accepted popped q1 → QueueStep q1 accepted' popped' q2 →
      QueueRun q (accepted ++ accepted') (popped ++ popped') q2.

Lemma step_fifo q accepted popped q' :
  QueueStep q accepted popped q' →
  mQueueLimit q' = mQueueLimit q ∧ mQueue q ++ accepted = popped ++ mQueue q'
  ∧ (length (mQueue q) <= mQueueLimit q → length (mQueue q') <= mQueueLimit q)%nat.
Proof using.
  destruct 1 as [item q q' E|item oldest q q' E|item q q' E].
  - unfold queue_push in E. destruct (Nat.ltb_spec (length (mQueue q)) (mQueueLimit q)).
    + simplify_eq. cbn. split_and!; [done|done|]. rewrite length_app. cbn. lia.
    + by destruct (mQueue q).
  - unfold queue_push in E. destruct (Nat.ltb_spec (length (mQueue q)) (mQueueLimit q)); [done|].
    destruct (mQueue q) eqn:Eq; [done|]. simplify_eq. rewrite app_nil_r. by rewrite Eq.
  - unfold waitPop in E. destruct (mQueue q) eqn:Eq; [done|]. simplify_eq. cbn. rewrite app_nil_r.
    split_and!; [done|done|lia].
Qed.

(** The queue hands over every accepted event exactly once and in order, and it is bounded.  Over
    any interleaving of pushes and pops, the events accepted so far are those taken out followed by
    those still queued, and there are never more than the limit; a push is refused exactly when the
    queue is full, and then it reports the time of the event that will be taken out next. *)
Theorem queue_is_bounded_fifo (limit : nat) (accepted popped : list Item) (q : LogEventQueue) (item : Item) :
  (0 < limit)%nat → QueueRun (LogEventQueue_new limit) accepted popped q →
  accepted = popped ++ mQueue q ∧ (length (mQueue q) <= limit)%nat
  ∧ ∃ r q', queue_push item q = Some (r, q')
      ∧ match r with
        | Pushed => (length (mQueue q) < limit)%nat ∧ mQueue q' = mQueue q ++ [item]
        | Full t => length (mQueue q) = limit ∧ q' = q
            ∧ ∃ e q'', waitPop q = Some (e, q'') ∧ t = timestamp e
        end.
Proof using.
  intros Hlim Hrun.
  assert (H : mQueueLimit q = limit ∧ accepted = popped ++ mQueue q ∧ (length (mQueue q) <= limit)%nat).
  { remember (LogEventQueue_new limit) as q0. induction Hrun as [q0|q0 acc pop q1 acc' pop' q2 _ IH Hs].
    - subst. cbn. split_and!; [done|done|lia].
    - destruct (IH Heqq0) as (Hl & -> & Hb). destruct (step_fifo _ _ _ _ Hs) as (Hl' & Hq & Hb').
      rewrite Hl in *. split_and!; [done| |by apply Hb']. by rewrite <- !app_assoc, Hq. }
  destruct H as (Hl & Hacc & Hb). split; [done|]. split; [done|]. unfold queue_push. rewrite Hl.
  destruct (Nat.ltb_spec (length (mQueue q)) limit); [eexists _, _; by split|].
  unfold waitPop. destruct (mQueue q) as [|e rest] eqn:Eq; [cbn in *; lia|].
  eexists _, _. split; [reflexivity|]. cbn [length] in *. split; [lia|]. split; [done|]. by eexists _, _.
Qed.
End queue.

Lemma queue_is_bounded_fifo_witness :
  let e t := mkLogEvent 1 0 t [] (-1) (-1) false in
  [e 5; e 6] = [e 5] ++ [e 6] ∧ (1 <= 1)%nat
  ∧ ∃ r q', queue_push GetElapsedTimestampNs (e 7) (mkLogEventQueue 1 [e 6]) = Some (r, q')
      ∧ match r with
        | Pushed => (1 < 1)%nat ∧ mQueue q' = [e 6] ++ [e 7]
        | Full t => 1%nat = 1%nat ∧ q' = mkLogEventQueue 1 [e 6]
            ∧ ∃ e' q'', waitPop (mkLogEventQueue 1 [e 6]) = Some (e', q'') ∧ t = GetElapsedTimestampNs e'
        end.
Proof.
  cbv zeta. apply (queue_is_bounded_fifo GetElapsedTimestampNs 1 _ _ (mkLogEventQueue 1 [mkLogEvent 1 0 6 [] (-1) (-1) false])); [lia|].
  apply (run_cons GetElapsedTimestampNs _ [mkLogEvent 1 0 5 [] (-1) (-1) false] [mkLogEvent 1 0 5 [] (-1) (-1) false]
    (mkLogEventQueue 1 []) [mkLogEvent 1 0 6 [] (-1) (-1) false] []); [|by apply step_pushed].
  apply (run_cons GetElapsedTimestampNs _ [mkLogEvent 1 0 5 [] (-1) (-1) false] []
    (mkLogEventQueue 1 [mkLogEvent 1 0 5 [] (-1) (-1) false]) [] [mkLogEvent 1 0 5 [] (-1) (-1) false]);
    [|by apply step_popped].
  apply (run_cons GetElapsedTimestampNs _ [] [] (LogEventQueue_new 1) [mkLogEvent 1 0 5 [] (-1) (-1) false] []);
    [apply run_nil|by apply step_pushed].
Defined.
