(* ===== verification/Storage.v ===== *)
(** * Files on disk (storage/StorageManager.{h,cpp}, config/ConfigKey.cpp)

    A directory is the list of its entries, name and content, in the order in which [readdir] returns
    them.  The operations of the file system succeed, except that a file that does not exist cannot be
    opened, removed or renamed.  The clock is an argument.  [None] is the construction of a string from
    a null pointer. *)
From Stdlib Require Import Ascii.
From S2P Require Import Prelude LogEvent StatsEvent UidMap Sorting.

(** ** Numbers in file names *)

Definition digitChar (d : Z) : ascii := ascii_of_N (Z.to_N (48 + d)).

(** The decimal digits of a natural number, before [acc]; [fuel] is at least the number of digits less
    one. *)
Fixpoint showDigits (fuel : nat) (n : Z) (acc : string) : string :=
  match fuel with
  | O => String (digitChar (n mod 10)) acc
  | S fuel =>
      if n <? 10 then String (digitChar n) acc
      else showDigits fuel (n / 10) (String (digitChar (n mod 10)) acc)
  end.

(** The conversions [%d], [%ld] and [%lld]: 64 bits have at most 19 digits. *)
Definition showZ (n : Z) : string :=
  if n <? 0 then String "-" (showDigits 19 (- n) EmptyString) else showDigits 19 n EmptyString.

(** The value of a digit of [strtoll]; 99 when it is none. *)
Definition digitVal (c : ascii) : Z :=
  let n := Z.of_N (N_of_ascii c) in
  if (48 <=? n) && (n <=? 57) then n - 48
  else if (65 <=? n) && (n <=? 90) then n - 55
  else if (97 <=? n) && (n <=? 122) then n - 87
  else 99.

(** The longest prefix of digits: its value, continuing [acc], and the rest. *)
Fixpoint readDigits (base acc : Z) (s : string) : Z * string :=
  match s with
  | String c s' => if digitVal c <? base then readDigits base (acc * base + digitVal c) s' else (acc, s)
  | EmptyString => (acc, s)
  end.

Definition startsDigit (base : Z) (s : string) : bool :=
  match s with String c _ => digitVal c <? base | EmptyString => false end.

Definition isSpace (c : ascii) : bool :=
  let n := N_of_ascii c in ((n =? 32) || ((9 <=? n) && (n <=? 13)))%N.

Fixpoint skipSpaces (s : string) : string :=
  match s with String c s' => if isSpace c then skipSpaces s' else s | EmptyString => s end.

(** [strtoll(s, &endp, 0)]: the value, clamped to 64 bits, and what [endp] points to; [None] when
    nothing was converted ([endp] is the beginning). *)
Definition strtoll (s : string) : option (Z * string) :=
  let s := skipSpaces s in
  let '(negative, s) :=
    match s with
    | String "-" s => (true, s)
    | String "+" s => (false, s)
    | _ => (false, s)
    end in
  let '(base, s) :=
    match s with
    | String "0" (String c s') =>
        if (bool_decide (c = "x"%char) || bool_decide (c = "X"%char)) && startsDigit 16 s' then (16, s')
        else (8, s)
    | String "0" _ => (8, s)
    | _ => (10, s)
    end in
  if startsDigit base s then
    let '(v, rest) := readDigits base 0 s in
    let v := if negative then - v else v in
    Some (Z.max (- 2 ^ 63) (Z.min (2 ^ 63 - 1) v), rest)
  else None.

Definition StrToInt64 (s : string) : Z :=
  match strtoll s with
  | Some (v, EmptyString) => v
  | _ => 0
  end.

(** ** File names *)

Record FileName := mkFileName { mTimestampSec : Z; fn_uid : Z; mConfigId : Z; mIsHistory : bool }.

(** The name of a file without its directory. *)
Definition getFullFileName (f : FileName) : string :=
  (showZ (mTimestampSec f) ++ "_" ++ showZ (fn_uid f) ++ "_" ++ showZ (mConfigId f)
    ++ (if mIsHistory f then "_history" else ""))%string.

Definition getDataFileName (wallClockSec uid id : Z) : string :=
  (showZ wallClockSec ++ "_" ++ showZ uid ++ "_" ++ showZ id)%string.

Definition getDataHistoryFileName (wallClockSec uid id : Z) : string :=
  (showZ wallClockSec ++ "_" ++ showZ uid ++ "_" ++ showZ id ++ "_history")%string.

(** The tokens of [strtok] with the delimiter [_]: the pieces that are not empty. *)
Fixpoint tokensFrom (current : string) (s : string) : list string :=
  match s with
  | EmptyString => if String.eqb current "" then [] else [current]
  | String c s =>
      if bool_decide (c = "_"%char)
      then if String.eqb current "" then tokensFrom "" s else current :: tokensFrom "" s
      else tokensFrom (current ++ String c EmptyString)%string s
  end.

Definition tokens (s : string) : list string := tokensFrom "" s.

(** [parseFileName]: [None] when there are fewer than three tokens, which the code marks by the time
    stamp -1.  The uid is an [int]. *)
Definition parseFileName (name : string) : option FileName :=
  match tokens name with
  | a :: b :: c :: rest =>
      Some (mkFileName (StrToInt64 a) (wrap32 (StrToInt64 b)) (StrToInt64 c)
              (match rest with d :: _ => String.eqb d "history" | [] => false end))
  | _ => None
  end.

(** The files that the callers do not skip. *)
Definition parsedName (name : string) : option FileName :=
  match parseFileName name with
  | Some f => if mTimestampSec f =? -1 then None else Some f
  | None => None
  end.

Definition hidden (name : string) : bool := match name with String "." _ => true | _ => false end.

Definition hasSuffix (suffix name : string) : bool :=
  (String.length suffix <=? String.length name)%nat
  && String.eqb (String.substring (String.length name - String.length suffix) (String.length suffix) name) suffix.

(** ** Directories *)

Abbreviation Directory := (list (string * list Z)).

Fixpoint fileContent (name : string) (d : Directory) : option (list Z) :=
  match d with
  | [] => None
  | (n, c) :: d => if String.eqb n name then Some c else fileContent name d
  end.

Definition deleteFile (name : string) (d : Directory) : Directory :=
  List.filter (λ e, negb (String.eqb e.1 name)) d.

Definition deleteAllFiles (d : Directory) : Directory := List.filter (λ e, hidden e.1) d.

Definition deleteSuffixedFiles (suffix : string) (d : Directory) : Directory :=
  List.filter (λ e, hidden e.1 || negb (hasSuffix suffix e.1)) d.

(** [rename] replaces a file that has the new name. *)
Definition renameFile (old new : string) (d : Directory) : Directory :=
  match fileContent old d with
  | None => d
  | Some _ => if String.eqb old new then d
              else map (λ e, if String.eqb e.1 old then (new, e.2) else e) (deleteFile new d)
  end.

(** [open] with [O_CREAT]. *)
Definition createFile (name : string) (d : Directory) : Directory :=
  match fileContent name d with Some _ => d | None => d ++ [(name, [])] end.

(** A write at the beginning of an open file: the file is not truncated, and a file that was removed
    after it was opened stays removed. *)
Definition overwriteFile (name : string) (buffer : list Z) (d : Directory) : Directory :=
  map (λ e, if String.eqb e.1 name then (e.1, buffer ++ drop (length buffer) e.2) else e) d.

(** ** Reports *)

Definition sendBroadcast (d : Directory) : list ConfigKey :=
  omap (λ e : string * list Z,
    if hidden e.1 then None
    else match parsedName e.1 with
         | Some f => if mIsHistory f then None else Some (fn_uid f, mConfigId f)
         | None => None
         end) d.

Definition keySuffix (key : ConfigKey) : string := (showZ key.1 ++ "_" ++ showZ key.2)%string.

Definition hasConfigMetricsReport (key : ConfigKey) (d : Directory) : bool :=
  existsb (λ e, negb (hidden e.1) && hasSuffix (keySuffix key) e.1
    && match parsedName e.1 with Some f => negb (mIsHistory f) | None => false end) d.

(** The files a report for a configuration reads. *)
Definition reportFile (key : ConfigKey) (isAdb : bool) (name : string) : option FileName :=
  if hidden name then None
  else match parsedName name with
       | Some f =>
           if (mIsHistory f && negb isAdb) || negb (fn_uid f =? key.1) || negb (mConfigId f =? key.2) then None
           else Some f
       | None => None
       end.

(** The loop of [appendConfigMetricsReport]: the reports written and the directory. *)
Fixpoint appendReports (key : ConfigKey) (erase_data isAdb : bool) (entries : Directory) (d : Directory)
    : list (list Z) * Directory :=
  match entries with
  | [] => ([], d)
  | (name, _) :: entries =>
      match reportFile key isAdb name with
      | None => appendReports key erase_data isAdb entries d
      | Some f =>
          let content := fileContent name d in
          let d := if erase_data then deleteFile name d
                   else if negb (mIsHistory f) && negb isAdb then renameFile name (name ++ "_history")%string d
                   else d in
          let '(reports, d) := appendReports key erase_data isAdb entries d in
          (match content with Some c => c :: reports | None => reports end, d)
      end
  end.

Definition appendConfigMetricsReport (key : ConfigKey) (erase_data isAdb : bool) (d : Directory)
    : list (list Z) * Directory := appendReports key erase_data isAdb d d.

(** ** Trimming *)

Definition kMaxAgeSecond : Z := 60 * 60 * 24 * 30.
Definition kMaxLocalHistoryAgeSecond : Z := 60 * 60 * 24 * 2.
Definition kMaxFileNumber : Z := 1000.
Definition kMaxFileSize : Z := 50 * 1024 * 1024.

Record FileInfo := mkFileInfo {
  mFileName : string; fi_isHistory : bool; mFileSizeBytes : Z; mFileAgeSec : Z
}.

(** The comparator of [sortFiles]: local history last, then the oldest last. *)
Definition file_ltb (lhs rhs : FileInfo) : bool :=
  if fi_isHistory lhs && negb (fi_isHistory rhs) then false
  else if fi_isHistory rhs && negb (fi_isHistory lhs) then true
  else if mFileAgeSec lhs <? mFileAgeSec rhs then true
  else if mFileAgeSec rhs <? mFileAgeSec lhs then false
  else String.ltb (mFileName rhs) (mFileName lhs).

(** What a name says: [Some None] when the file is skipped. *)
Definition trimName (parseTimestampOnly : bool) (name : string) : option (option (Z * bool * string)) :=
  if hidden name then Some None
  else if parseTimestampOnly then
    match tokens name with
    | [] => None
    | a :: _ => Some (if StrToInt64 a =? -1 then None else Some (StrToInt64 a, false, name))
    end
  else
    Some (match parsedName name with
          | Some f => Some (mTimestampSec f, mIsHistory f, getFullFileName f)
          | None => None
          end).

Definition fileTooOld (fileAge : Z) (isHistory : bool) : bool :=
  (kMaxAgeSecond <? fileAge) || (isHistory && (kMaxLocalHistoryAgeSecond <? fileAge)).

(** The first loop: files that are too old are removed; the others are collected. *)
Fixpoint collectFiles (nowSec : Z) (parseTimestampOnly : bool) (entries : Directory) (d : Directory)
    : option (list FileInfo * Directory) :=
  match entries with
  | [] => Some ([], d)
  | (name, _) :: entries =>
      r ← trimName parseTimestampOnly name;
      match r with
      | None => collectFiles nowSec parseTimestampOnly entries d
      | Some (timestamp, isHistory, file) =>
          if fileTooOld (nowSec - timestamp) isHistory
          then collectFiles nowSec parseTimestampOnly entries (deleteFile file d)
          else
            let size := match fileContent file d with Some c => Z.of_nat (length c) | None => 0 end in
            '(files, d) ← collectFiles nowSec parseTimestampOnly entries d;
            Some (mkFileInfo file isHistory size (nowSec - timestamp) :: files, d)
      end
  end.

Definition totalSize (files : list FileInfo) : Z := foldr Z.add 0 (map mFileSizeBytes files).

Definition overLimit (number total : Z) : bool := (kMaxFileNumber <? number) || (kMaxFileSize <? total).

(** The last loop, over the files from the back: those removed. *)
Fixpoint filesToDelete (back : list FileInfo) (total : Z) : list string :=
  match back with
  | [] => []
  | f :: back' =>
      if overLimit (Z.of_nat (length back)) total
      then mFileName f :: filesToDelete back' (total - mFileSizeBytes f) else []
  end.

Section trim.
Context (sortFiles : list FileInfo → list FileInfo).

Definition trimToFit (nowSec : Z) (parseTimestampOnly : bool) (d : Directory) : option Directory :=
  '(files, d) ← collectFiles nowSec parseTimestampOnly d d;
  let total := totalSize files in
  let files := if overLimit (Z.of_nat (length files)) total then sortFiles files else files in
  Some (foldl (λ d name, deleteFile name d) d (filesToDelete (rev files) total)).

(** ** Writing files and configurations *)

Record Disk := mkDisk { serviceDir : Directory; dataDir : Directory; trainInfoDir : Directory }.

(** [writeFile] for a file of the service or the data directory: it is created before the directories
    are trimmed and written afterwards. *)
Definition writeFile (service : bool) (name : string) (buffer : list Z) (nowSec : Z) (k : Disk) : option Disk :=
  let k := if service then mkDisk (createFile name (serviceDir k)) (dataDir k) (trainInfoDir k)
           else mkDisk (serviceDir k) (createFile name (dataDir k)) (trainInfoDir k) in
  s ← trimToFit nowSec false (serviceDir k);
  a ← trimToFit nowSec false (dataDir k);
  Some (if service then mkDisk (overwriteFile name buffer s) a (trainInfoDir k)
        else mkDisk s (overwriteFile name buffer a) (trainInfoDir k)).

(** [readConfigFromDisk] for all configurations: the keys and contents, in order; the caller keeps those
    that parse, a later one replacing an earlier one with its key. *)
Definition configsOnDisk (d : Directory) : list (ConfigKey * list Z) :=
  omap (λ e : string * list Z,
    if hidden e.1 then None
    else match parsedName e.1 with
         | Some f => (λ c, ((fn_uid f, mConfigId f), c)) <$> fileContent (getFullFileName f) d
         | None => None
         end) d.

Definition readConfigsFromDisk (nowSec : Z) (d : Directory) : option (list (ConfigKey * list Z) * Directory) :=
  d ← trimToFit nowSec false d;
  Some (configsOnDisk d, d).

(** [readConfigFromDisk] for one key. *)
Definition readConfigFromDisk (key : ConfigKey) (d : Directory) : option (list Z) :=
  snd <$> find (λ e, negb (hidden e.1) && hasSuffix (keySuffix key) e.1) d.

Definition hasIdenticalConfig (key : ConfigKey) (config : list Z) (d : Directory) : bool :=
  bool_decide (readConfigFromDisk key d = Some config).

(** ** Train info *)

Record InstallTrainInfo := mkTrainInfo {
  trainVersionCode : Z;
  trainName : string;
  train_status : Z;
  experimentIds : list Z;
  requiresStaging : bool;
  rollbackEnabled : bool;
  requiresLowLatencyMonitor : bool
}.

Definition TRAIN_INFO_FILE_MAGIC : Z := 0xfb7447bf.

Definition boolByte (b : bool) : list Z := [if b then 1 else 0].

Fixpoint nameBytes (s : string) : list Z :=
  match s with EmptyString => [] | String c s => Z.of_N (N_of_ascii c) :: nameBytes s end.

(** The bytes written: numbers as they are in memory, sizes as 64 bits. *)
Definition trainBytes (t : InstallTrainInfo) : list Z :=
  le_encode 4 TRAIN_INFO_FILE_MAGIC
  ++ le_encode 8 (trainVersionCode t mod 2 ^ 64)
  ++ le_encode 8 (Z.of_nat (length (nameBytes (trainName t))))
  ++ nameBytes (trainName t)
  ++ le_encode 4 (train_status t mod 2 ^ 32)
  ++ le_encode 8 (Z.of_nat (length (experimentIds t)))
  ++ concat (map (λ i, le_encode 8 (i mod 2 ^ 64)) (experimentIds t))
  ++ boolByte (requiresStaging t) ++ boolByte (rollbackEnabled t) ++ boolByte (requiresLowLatencyMonitor t).

Definition writeTrainInfo (nowSec : Z) (t : InstallTrainInfo) (d : Directory) : bool * Directory :=
  if String.eqb (trainName t) "" then (false, d)
  else
    let d := deleteSuffixedFiles (trainName t) d in
    let file := (showZ nowSec ++ "_" ++ trainName t)%string in
    (true, overwriteFile file (trainBytes t) (createFile file d)).

(** [read] of [n] bytes: [None] when there are fewer. *)
Definition readBytes (n : Z) (s : list Z) : option (list Z * list Z) :=
  if Z.of_nat (length s) <? n then None else Some (take (Z.to_nat n) s, drop (Z.to_nat n) s).

(** The loop over the experiment ids ends at the latest when nothing is left to read. *)
Fixpoint readIds (fuel : nat) (count : Z) (s : list Z) : option (list Z * list Z) :=
  if count <=? 0 then Some ([], s)
  else
    match fuel with
    | O => None
    | S fuel =>
        '(b, s) ← readBytes 8 s;
        '(ids, s) ← readIds fuel (count - 1) s;
        Some (wrap64 (le_decode b) :: ids, s)
    end.

Definition readBool (s : list Z) : option (bool * list Z) :=
  '(b, s) ← readBytes 1 s;
  Some (negb (le_decode b =? 0), s).

(** The reads of [readTrainInfoLocked]; the file must end after them.  The string for the name is
    resized before the read; that this can fail for a size that is no name's is left out. *)
Definition parseTrainInfo (s : list Z) : option InstallTrainInfo :=
  '(magic, s) ← readBytes 4 s;
  if negb (le_decode magic =? TRAIN_INFO_FILE_MAGIC) then None
  else
    '(version, s) ← readBytes 8 s;
    '(nameSize, s) ← readBytes 8 s;
    '(name, s) ← readBytes (le_decode nameSize) s;
    '(status, s) ← readBytes 4 s;
    '(count, s) ← readBytes 8 s;
    '(ids, s) ← readIds (length s) (le_decode count) s;
    '(staging, s) ← readBool s;
    '(rollback, s) ← readBool s;
    '(latency, s) ← readBool s;
    match s with
    | [] => Some (mkTrainInfo (wrap64 (le_decode version)) (string_of_bytes name) (wrap32 (le_decode status)) ids
                    staging rollback latency)
    | _ => None
    end.

Definition findTrainInfoFileName (trainName : string) (d : Directory) : option string :=
  fst <$> find (λ e, negb (hidden e.1) && hasSuffix trainName e.1) d.

(** [readTrainInfoLocked]: the train info or a failure, and the directory. *)
Definition readTrainInfo (nowSec : Z) (trainName : string) (d : Directory)
    : option (option InstallTrainInfo * Directory) :=
  d ← trimToFit nowSec true d;
  Some (match findTrainInfoFileName trainName d with
        | Some name => match fileContent name d with Some c => parseTrainInfo c | None => None end
        | None => None
        end, d).

(** The loop of [readAllTrainInfo]; [readTrainInfo] looks for a file by its whole name. *)
Fixpoint readAllTrains (nowSec : Z) (entries : Directory) (d : Directory)
    : option (list InstallTrainInfo * Directory) :=
  match entries with
  | [] => Some ([], d)
  | (name, _) :: entries =>
      if hidden name then readAllTrains nowSec entries d
      else
        '(r, d) ← readTrainInfo nowSec name d;
        '(trains, d) ← readAllTrains nowSec entries d;
        Some (match r with Some t => t :: trains | None => trains end, d)
  end.

Definition readAllTrainInfo (nowSec : Z) (d : Directory) : option (list InstallTrainInfo * Directory) :=
  readAllTrains nowSec d d.
End trim.
