(* ===== verification/MetricsConfig.v ===== *)
(** * Building the metrics of a configuration (metrics/parsing_utils/metrics_manager_util.{h,cpp})

    From the message of a configuration to its matchers, conditions, states, metric producers, alerts and
    alarms, and the tables that say which of them an event concerns.  A function that returns false has
    written part of its tables, which nobody reads then: it is [Rejected] here.  [Crashed] stands for
    undefined behaviour (a null producer that is used, a vector indexed out of range).

    What the generated classes do ([SerializeToString]) is a parameter. *)
From Stdlib Require Import SpecFloat.
From S2P Require Import Prelude Hash UMap FieldValue DimensionKey Matchers MatcherTrackers Conditions.
From S2P Require Import ConfigUpdate Alarms Anomaly State MetricProducer CountMetric MetricShared.
From S2P Require Import EventMetric GaugeMetric ValueMetric DurationTrackers DurationMetric AnyMetric.
From S2P Require Import StatsEvent Storage Pullers.

(** ** Outcomes *)

Inductive Outcome (A : Type) := Done (a : A) | Rejected | Crashed.
Arguments Done {A} a.
Arguments Rejected {A}.
Arguments Crashed {A}.

#[export] Instance outcome_ret : MRet Outcome := @Done.
#[export] Instance outcome_bind : MBind Outcome := λ A B f o,
  match o with Done a => f a | Rejected => Rejected | Crashed => Crashed end.

(** [if (!cond) return false;] *)
Definition mustHold (b : bool) : Outcome unit := if b then Done tt else Rejected.
Definition orReject {A} (o : option A) : Outcome A := from_option Done Rejected o.
Definition orCrash {A} (o : option A) : Outcome A := from_option Done Crashed o.

(** ** Messages *)

Record EventActivation := mkEventActivation {
  ea_atom_matcher_id : Z; ea_ttl_seconds : Z; ea_deactivation_atom_matcher_id : option Z;
  ea_activation_type : option ActivationType
}.
Record MetricActivation := mkMetricActivation {
  ma_metric_id : Z; ma_activation_type : ActivationType; ma_event_activation : list EventActivation
}.

(** The fields of a metric message that only the parsing reads. *)
Record MetricHead := mkMetricHead {
  mh_has_id : bool; mh_what : option Z; mh_condition : option Z; mh_slice_by_state : list Z
}.
Record CountMessage := mkCountMessage { cn_head : MetricHead; cn_metric : CountMetric }.
Record DurationMessage := mkDurationMessage { du_head : MetricHead; du_metric : DurationMetric }.
Record EventMessage := mkEventMessage { ev_head : MetricHead; ev_metric : EventMetric }.
Record ValueMessage := mkValueMessage {
  va_head : MetricHead; va_has_value_field : bool; va_metric : ValueMetric
}.
(** [gmm_gauge_fields] is the fields of the filter, absent when they have no field number. *)
Record GaugeMessage := mkGaugeMessage {
  ga_head : MetricHead; ga_include_all : option bool; ga_trigger_event : option Z; ga_metric : GaugeMetric
}.

(** A message passed as [MessageLite]. *)
Inductive MetricMessage :=
  | CountMsg (m : CountMessage) | DurationMsg (m : DurationMessage) | EventMsg (m : EventMessage)
  | ValueMsg (m : ValueMessage) | GaugeMsg (m : GaugeMessage).

Definition msg_head (m : MetricMessage) : MetricHead :=
  match m with
  | CountMsg m => cn_head m | DurationMsg m => du_head m | EventMsg m => ev_head m
  | ValueMsg m => va_head m | GaugeMsg m => ga_head m
  end.
Definition msg_id (m : MetricMessage) : Z :=
  match m with
  | CountMsg m => cm_id (cn_metric m) | DurationMsg m => dur_id (du_metric m)
  | EventMsg m => evm_id (ev_metric m) | ValueMsg m => vmm_id (va_metric m)
  | GaugeMsg m => gmm_id (ga_metric m)
  end.
Definition msg_type (m : MetricMessage) : MetricType :=
  match m with
  | CountMsg _ => METRIC_TYPE_COUNT | DurationMsg _ => METRIC_TYPE_DURATION
  | EventMsg _ => METRIC_TYPE_EVENT | ValueMsg _ => METRIC_TYPE_VALUE | GaugeMsg _ => METRIC_TYPE_GAUGE
  end.
Definition msg_links (m : MetricMessage) : list MetricConditionLink :=
  match m with
  | CountMsg m => cm_links (cn_metric m) | DurationMsg m => dur_links (du_metric m)
  | EventMsg m => evm_links (ev_metric m) | ValueMsg m => vmm_links (va_metric m)
  | GaugeMsg m => gmm_links (ga_metric m)
  end.

Inductive RuleType := RULE_TYPE_UNSPECIFIED | ALARM | ALERT.
#[export] Instance RuleType_eq_dec : EqDecision RuleType.
Proof. solve_decision. Defined.

Record Subscription := mkSubscription {
  sub_id : Z; sub_rule_type : RuleType; sub_rule_id : Z; sub_has_information : bool
}.

Record StatsdConfig := mkStatsdConfig {
  cfg_atom_matcher : list AtomMatcher;
  cfg_predicate : list Predicate;
  cfg_state : list ConfigUpdate.State;
  cfg_count_metric : list CountMessage;
  cfg_duration_metric : list DurationMessage;
  cfg_event_metric : list EventMessage;
  cfg_value_metric : list ValueMessage;
  cfg_gauge_metric : list GaugeMessage;
  cfg_metric_activation : list MetricActivation;
  cfg_no_report_metric : list Z;
  cfg_whitelisted_atom_ids : list Z;
  cfg_alert : list Alert;
  cfg_alarm : list Alarm;
  cfg_subscription : list Subscription
}.

(** The metrics in the order in which both loops go over them. *)
Definition cfg_metrics (config : StatsdConfig) : list MetricMessage :=
  (CountMsg <$> cfg_count_metric config) ++ (DurationMsg <$> cfg_duration_metric config)
  ++ (EventMsg <$> cfg_event_metric config) ++ (ValueMsg <$> cfg_value_metric config)
  ++ (GaugeMsg <$> cfg_gauge_metric config).

(** ** The tables *)

Record MetricTables := mkMetricTables {
  trackerToMetricMap : gmap nat (list nat);
  conditionToMetricMap : gmap nat (list nat);
  activationAtomTrackerToMetricMap : gmap nat (list nat);
  deactivationAtomTrackerToMetricMap : gmap nat (list nat);
  metricsWithActivation : list nat
}.

Definition MetricTables_new : MetricTables := mkMetricTables ∅ ∅ ∅ ∅ [].

(** [map\[key\].push_back(value)] *)
Definition pushAt {K A} `{Countable K} (key : K) (value : A) (m : gmap K (list A)) : gmap K (list A) :=
  <[key := default [] (m !! key) ++ [value]]> m.

Definition addTrackerMetric (tracker metric : nat) (t : MetricTables) : MetricTables :=
  mkMetricTables (pushAt tracker metric (trackerToMetricMap t)) (conditionToMetricMap t)
    (activationAtomTrackerToMetricMap t) (deactivationAtomTrackerToMetricMap t) (metricsWithActivation t).
Definition addConditionMetric (condition metric : nat) (t : MetricTables) : MetricTables :=
  mkMetricTables (trackerToMetricMap t) (pushAt condition metric (conditionToMetricMap t))
    (activationAtomTrackerToMetricMap t) (deactivationAtomTrackerToMetricMap t) (metricsWithActivation t).
Definition addActivationMetric (tracker metric : nat) (t : MetricTables) : MetricTables :=
  mkMetricTables (trackerToMetricMap t) (conditionToMetricMap t)
    (pushAt tracker metric (activationAtomTrackerToMetricMap t)) (deactivationAtomTrackerToMetricMap t)
    (metricsWithActivation t).
Definition addDeactivationMetric (tracker metric : nat) (t : MetricTables) : MetricTables :=
  mkMetricTables (trackerToMetricMap t) (conditionToMetricMap t) (activationAtomTrackerToMetricMap t)
    (pushAt tracker metric (deactivationAtomTrackerToMetricMap t)) (metricsWithActivation t).
Definition addMetricWithActivation (metric : nat) (t : MetricTables) : MetricTables :=
  mkMetricTables (trackerToMetricMap t) (conditionToMetricMap t) (activationAtomTrackerToMetricMap t)
    (deactivationAtomTrackerToMetricMap t) (metricsWithActivation t ++ [metric]).

(** The activations of a metric: the objects, and the maps from matchers to them. *)
Record ActivationMaps := mkActivationMaps {
  acm_store : gmap nat Activation;
  acm_activation : gmap Z nat;
  acm_deactivation : gmap Z (list nat)
}.
Definition ActivationMaps_new : ActivationMaps := mkActivationMaps ∅ ∅ ∅.

(** [eventActivationMap.emplace] keeps an entry that is there. *)
Definition emplaceActivation (matcher : nat) (ptr : nat) (m : ActivationMaps) : ActivationMaps :=
  mkActivationMaps (acm_store m)
    (match acm_activation m !! Z.of_nat matcher with
     | Some _ => acm_activation m
     | None => <[Z.of_nat matcher := ptr]> (acm_activation m)
     end) (acm_deactivation m).
Definition pushDeactivation (matcher : nat) (ptr : nat) (m : ActivationMaps) : ActivationMaps :=
  mkActivationMaps (acm_store m) (acm_activation m)
    (pushAt (Z.of_nat matcher) ptr (acm_deactivation m)).
(** [make_shared<Activation>] *)
Definition allocActivation (ptr : nat) (a : Activation) (m : ActivationMaps) : ActivationMaps :=
  mkActivationMaps (<[ptr := a]> (acm_store m)) (acm_activation m) (acm_deactivation m).

(** ** Checks *)

(** The loop over the children makes no difference: a matcher with a field number has a leaf. *)
Definition hasLeafNode (matcher : option FieldMatcher) : bool := bool_decide (is_Some matcher).

Section create.
Context (serialize : MetricMessage → option (list Z)).
Context (serializeActivation : MetricActivation → option (list Z)).
Context (sizeLimits : gmap Z (Z * Z)) (uninit : Z) (states : StateManager).
(** The uid of the configuration. *)
Context (uid : Z) (config : StatsdConfig) (timeBaseNs currentTimeNs : Z).
Context (allAtomMatchingTrackers : list AtomMatchingTracker) (atomMatchingTrackerMap : gmap Z nat).
Context (allConditionTrackers : list ConditionTracker) (conditionTrackerMap : gmap Z nat).
Context (initialConditionCache : list ConditionState) (stateTables : StateTables).
Context (metricToActivationMap : gmap Z nat).

Definition getMetricProtoHash (metric : MetricMessage) : Outcome Z :=
  serialized ← orReject (serialize metric);
  let metricHash := Hash64 serialized in
  match metricToActivationMap !! msg_id metric with
  | None => Done metricHash
  | Some i =>
      activation ← orCrash (cfg_metric_activation config !! i);
      serializedActivation ← orReject (serializeActivation activation);
      Done (Hash64 (bytesOf (showZ metricHash) ++ bytesOf (showZ (Hash64 serializedActivation))))
  end.

(** The index of the matcher and the tables. *)
Definition handleMetricWithAtomMatchingTrackers (matcherId : Z) (metricIndex : nat)
    (enforceOneAtom : bool) (t : MetricTables) : Outcome (nat * MetricTables) :=
  logTrackerIndex ← orReject (atomMatchingTrackerMap !! matcherId);
  tracker ← orCrash (allAtomMatchingTrackers !! logTrackerIndex);
  _ ← mustHold (negb (enforceOneAtom && (1 <? base.size (mAtomIds tracker))%nat));
  Done (logTrackerIndex, addTrackerMetric logTrackerIndex metricIndex t).

(** The index of the condition and the tables. *)
Definition handleMetricWithConditions (condition : Z) (metricIndex : nat)
    (links : list MetricConditionLink) (t : MetricTables) : Outcome (nat * MetricTables) :=
  conditionIndex ← orReject (conditionTrackerMap !! condition);
  _ ← mustHold (forallb (λ link, bool_decide (is_Some (conditionTrackerMap !! link_condition link))) links);
  Done (conditionIndex, addConditionMetric conditionIndex metricIndex t).

(** Every creator: a metric without a condition has no links; its condition index is -1. *)
Definition handleCondition (metric : MetricMessage) (metricIndex : nat) (t : MetricTables)
    : Outcome (Z * MetricTables) :=
  match mh_condition (msg_head metric) with
  | Some condition =>
      '(conditionIndex, t) ← handleMetricWithConditions condition metricIndex (msg_links metric) t;
      Done (Z.of_nat conditionIndex, t)
  | None =>
      _ ← mustHold (bool_decide (msg_links metric = []));
      Done (-1, t)
  end.

(** The sliced state atoms and the groups of their values. *)
Fixpoint handleMetricWithStates (stateIds : list Z) (slicedStateAtoms : list Z)
    (stateGroupMap : gmap Z (gmap Z Z)) : Outcome (list Z * gmap Z (gmap Z Z)) :=
  match stateIds with
  | [] => Done (slicedStateAtoms, stateGroupMap)
  | stateId :: stateIds' =>
      atomId ← orReject (stateAtomIdMap stateTables !! stateId);
      handleMetricWithStates stateIds' (slicedStateAtoms ++ [atomId])
        (match allStateGroupMaps stateTables !! stateId with
         | Some groups => <[atomId := groups]> stateGroupMap
         | None => stateGroupMap
         end)
  end.

(** A metric that is not sliced by a state has no state links. *)
Definition handleStates (head : MetricHead) (stateLinks : list MetricStateLink)
    : Outcome (list Z * gmap Z (gmap Z Z)) :=
  match mh_slice_by_state head with
  | [] => _ ← mustHold (bool_decide (stateLinks = [])); Done ([], ∅)
  | stateIds => handleMetricWithStates stateIds [] ∅
  end.

Definition handleMetricWithStateLink (stateMatcher : FieldMatcher) (dimensionsInWhat : list Matcher)
    : bool :=
  subsetDimensions (translateFieldMatcher stateMatcher) dimensionsInWhat.

Definition stateLinksCovered (dimensions : option FieldMatcher) (stateLinks : list MetricStateLink)
    : bool :=
  let dimensionsInWhat := from_option translateFieldMatcher [] dimensions in
  forallb (λ link, handleMetricWithStateLink (sl_fields_in_what link) dimensionsInWhat) stateLinks.

(** One event activation of [handleMetricActivation]; its object is addressed by its position. *)
Definition handleEventActivation (metricActivation : MetricActivation) (metricIndex : nat) (i : nat)
    (activation : EventActivation) (s : ActivationMaps * MetricTables)
    : Outcome (ActivationMaps * MetricTables) :=
  let (maps, t) := s in
  atomMatcherIndex ← orReject (atomMatchingTrackerMap !! ea_atom_matcher_id activation);
  let activationType := default (ma_activation_type metricActivation) (ea_activation_type activation) in
  let maps := allocActivation i (Activation_new activationType
                (ea_ttl_seconds activation * MetricShared.NS_PER_SEC)) maps in
  let t := addActivationMetric atomMatcherIndex metricIndex t in
  let maps := emplaceActivation atomMatcherIndex i maps in
  match ea_deactivation_atom_matcher_id activation with
  | None => Done (maps, t)
  | Some deactivationId =>
      deactivationAtomMatcherIndex ← orReject (atomMatchingTrackerMap !! deactivationId);
      Done (pushDeactivation deactivationAtomMatcherIndex i maps,
            addDeactivationMetric deactivationAtomMatcherIndex metricIndex t)
  end.

Fixpoint handleEventActivations (metricActivation : MetricActivation) (metricIndex : nat) (i : nat)
    (activations : list EventActivation) (s : ActivationMaps * MetricTables)
    : Outcome (ActivationMaps * MetricTables) :=
  match activations with
  | [] => Done s
  | activation :: activations' =>
      s ← handleEventActivation metricActivation metricIndex i activation s;
      handleEventActivations metricActivation metricIndex (S i) activations' s
  end.

Definition handleMetricActivation (metricId : Z) (metricIndex : nat) (t : MetricTables)
    : Outcome (ActivationMaps * MetricTables) :=
  match metricToActivationMap !! metricId with
  | None => Done (ActivationMaps_new, t)
  | Some activationIndex =>
      metricActivation ← orCrash (cfg_metric_activation config !! activationIndex);
      '(maps, t) ← handleEventActivations metricActivation metricIndex 0
                     (ma_event_activation metricActivation) (ActivationMaps_new, t);
      Done (maps, addMetricWithActivation metricIndex t)
  end.

(** ** The producers *)

(** A producer with the hash of its message, what its constructor registers for pulls, and its address,
    which the state manager and the pullers know it by; a new producer gets it from whoever holds the
    configuration. *)
Record Producer := mkProducer {
  pr_metric : AnyMetric; pr_protoHash : Z; pr_registration : option Registration; pr_address : option Z
}.

(** What all creators check first. *)
Definition idAndWhat (head : MetricHead) : Outcome Z :=
  _ ← mustHold (mh_has_id head);
  orReject (mh_what head).

Definition has_dimensions (d : option FieldMatcher) : bool := bool_decide (is_Some d).

Definition createCountMetricProducerAndUpdateMetadata (msg : CountMessage) (metricIndex : nat)
    (t : MetricTables) : Outcome (Producer * MetricTables) :=
  let metric := cn_metric msg in
  what ← idAndWhat (cn_head msg);
  '(trackerIndex, t) ← handleMetricWithAtomMatchingTrackers what metricIndex
                         (has_dimensions (cm_dimensions_in_what metric)) t;
  '(conditionIndex, t) ← handleCondition (CountMsg msg) metricIndex t;
  '(slicedStateAtoms, stateGroupMap) ← handleStates (cn_head msg) (cm_state_link metric);
  '(maps, t) ← handleMetricActivation (cm_id metric) metricIndex t;
  metricHash ← getMetricProtoHash (CountMsg msg);
  Done (mkProducer
          (CountM (CountMetricProducer_new uid metric conditionIndex initialConditionCache timeBaseNs
                     currentTimeNs (acm_store maps) (acm_activation maps) (acm_deactivation maps)
                     slicedStateAtoms stateGroupMap)) metricHash None None, t).

(** An optional event matcher of the predicate that is the "what" of a duration metric. *)
Definition handleOptionalMatcher (matcher : option Z) (metricIndex : nat) (enforceOneAtom : bool)
    (t : MetricTables) : Outcome (Z * MetricTables) :=
  match matcher with
  | None => Done (-1, t)
  | Some id =>
      '(index, t) ← handleMetricWithAtomMatchingTrackers id metricIndex enforceOneAtom t;
      Done (Z.of_nat index, t)
  end.

Definition createDurationMetricProducerAndUpdateMetadata (msg : DurationMessage) (metricIndex : nat)
    (t : MetricTables) : Outcome (Producer * MetricTables) :=
  let metric := du_metric msg in
  what ← idAndWhat (du_head msg);
  whatIndex ← orReject (conditionTrackerMap !! what);
  durationWhat ← orCrash (cfg_predicate config !! whatIndex);
  match pr_contents durationWhat with
  | kSimplePredicate simplePredicate =>
      let oneAtom := has_dimensions (dur_dimensions_in_what metric) in
      start ← orReject (sp_start simplePredicate);
      '(startIndex, t) ← handleMetricWithAtomMatchingTrackers start metricIndex oneAtom t;
      '(stopIndex, t) ← handleOptionalMatcher (sp_stop simplePredicate) metricIndex oneAtom t;
      '(stopAllIndex, t) ← handleOptionalMatcher (sp_stop_all simplePredicate) metricIndex oneAtom t;
      '(conditionIndex, t) ← handleCondition (DurationMsg msg) metricIndex t;
      _ ← mustHold (match mh_slice_by_state (du_head msg), dur_aggregation metric with
                   | _ :: _, MAX_SPARSE => false
                   | _, _ => true
                   end);
      '(slicedStateAtoms, stateGroupMap) ← handleStates (du_head msg) (dur_state_link metric);
      _ ← mustHold (stateLinksCovered (dur_dimensions_in_what metric) (dur_state_link metric));
      '(maps, t) ← handleMetricActivation (dur_id metric) metricIndex t;
      metricHash ← getMetricProtoHash (DurationMsg msg);
      producer ← orCrash (DurationMetricProducer_new allConditionTrackers uninit states uid metric
                            conditionIndex initialConditionCache (Z.of_nat whatIndex)
                            (Z.of_nat startIndex) stopIndex stopAllIndex
                            (sp_count_nesting simplePredicate) (sp_dimensions simplePredicate)
                            timeBaseNs currentTimeNs (acm_store maps) (acm_activation maps)
                            (acm_deactivation maps) slicedStateAtoms stateGroupMap);
      _ ← mustHold (dm_valid (dm_config producer));
      Done (mkProducer (DurationM producer) metricHash None None, t)
  | _ => Rejected
  end.

(** When the activation cannot be built the function returns [nullptr], which is not [nullopt]: the
    caller takes it for a producer.  [None] is that null producer. *)
Definition createEventMetricProducerAndUpdateMetadata (msg : EventMessage) (metricIndex : nat)
    (t : MetricTables) : Outcome (option Producer * MetricTables) :=
  let metric := ev_metric msg in
  what ← idAndWhat (ev_head msg);
  '(trackerIndex, t) ← handleMetricWithAtomMatchingTrackers what metricIndex false t;
  '(conditionIndex, t) ← handleCondition (EventMsg msg) metricIndex t;
  match handleMetricActivation (evm_id metric) metricIndex t with
  | Rejected => Done (None, t)
  | Crashed => Crashed
  | Done (maps, t) =>
      metricHash ← getMetricProtoHash (EventMsg msg);
      Done (Some (mkProducer
              (EventM (EventMetricProducer_new metric conditionIndex initialConditionCache timeBaseNs
                         (acm_store maps) (acm_activation maps) (acm_deactivation maps) [] ∅))
              metricHash None None), t)
  end.

(** The only atom of a matcher. *)
Definition onlyAtom (trackerIndex : nat) : Outcome Z :=
  tracker ← orCrash (allAtomMatchingTrackers !! trackerIndex);
  match elements (mAtomIds tracker) with
  | [atom] => Done atom
  | _ => Rejected
  end.

Definition pullTagOf (atomTagId : Z) : Z := if PullerForMatcherExists atomTagId then atomTagId else -1.

Definition createValueMetricProducerAndUpdateMetadata (msg : ValueMessage) (metricIndex : nat)
    (t : MetricTables) : Outcome (Producer * MetricTables) :=
  let metric := va_metric msg in
  what ← idAndWhat (va_head msg);
  _ ← mustHold (va_has_value_field msg);
  _ ← mustHold (negb (bool_decide (translateFieldMatcher (vmm_value_field metric) = [])));
  '(trackerIndex, t) ← handleMetricWithAtomMatchingTrackers what metricIndex
                         (has_dimensions (vmm_dimensions_in_what metric)) t;
  atomTagId ← onlyAtom trackerIndex;
  let pullTagId := pullTagOf atomTagId in
  '(conditionIndex, t) ← handleCondition (ValueMsg msg) metricIndex t;
  '(slicedStateAtoms, stateGroupMap) ← handleStates (va_head msg) (vmm_state_link metric);
  _ ← mustHold (stateLinksCovered (vmm_dimensions_in_what metric) (vmm_state_link metric));
  '(maps, t) ← handleMetricActivation (vmm_id metric) metricIndex t;
  metricHash ← getMetricProtoHash (ValueMsg msg);
  let (producer, registration) :=
    ValueMetricProducer_new sizeLimits uid metric conditionIndex initialConditionCache trackerIndex
      pullTagId timeBaseNs currentTimeNs (acm_store maps) (acm_activation maps) (acm_deactivation maps)
      slicedStateAtoms stateGroupMap in
  Done (mkProducer (ValueM producer) metricHash registration None, t).

(** The trigger of a gauge metric: the atom of its matcher, which may have none: then the first element
    of an empty set is read. *)
Definition handleTrigger (msg : GaugeMessage) (pullTagId : Z) (metricIndex : nat) (t : MetricTables)
    : Outcome (Z * MetricTables) :=
  let firstN := bool_decide (gmm_sampling_type (ga_metric msg) = FIRST_N_SAMPLES) in
  match ga_trigger_event msg with
  | None =>
      _ ← mustHold (negb (negb (pullTagId =? -1) && firstN));
      Done (-1, t)
  | Some trigger =>
      _ ← mustHold (negb (pullTagId =? -1));
      _ ← mustHold firstN;
      '(triggerTrackerIndex, t) ← handleMetricWithAtomMatchingTrackers trigger metricIndex true t;
      triggerAtomMatcher ← orCrash (allAtomMatchingTrackers !! triggerTrackerIndex);
      triggerAtomId ← orCrash (head (elements (mAtomIds triggerAtomMatcher)));
      Done (triggerAtomId, t)
  end.

Definition createGaugeMetricProducerAndUpdateMetadata (msg : GaugeMessage) (metricIndex : nat)
    (t : MetricTables) : Outcome (Producer * MetricTables) :=
  let metric := ga_metric msg in
  what ← idAndWhat (ga_head msg);
  let includeAll := bool_decide (ga_include_all msg = Some true) in
  _ ← mustHold (negb (negb includeAll && negb (hasLeafNode (gmm_gauge_fields metric))));
  _ ← mustHold (negb (includeAll && hasLeafNode (gmm_gauge_fields metric)));
  '(trackerIndex, t) ← handleMetricWithAtomMatchingTrackers what metricIndex
                         (has_dimensions (gmm_dimensions_in_what metric)) t;
  atomTagId ← onlyAtom trackerIndex;
  let pullTagId := pullTagOf atomTagId in
  '(triggerAtomId, t) ← handleTrigger msg pullTagId metricIndex t;
  '(conditionIndex, t) ← handleCondition (GaugeMsg msg) metricIndex t;
  '(maps, t) ← handleMetricActivation (gmm_id metric) metricIndex t;
  metricHash ← getMetricProtoHash (GaugeMsg msg);
  let (producer, registration) :=
    GaugeMetricProducer_new sizeLimits uid metric conditionIndex initialConditionCache trackerIndex
      pullTagId triggerAtomId atomTagId timeBaseNs currentTimeNs (acm_store maps) (acm_activation maps)
      (acm_deactivation maps) in
  Done (mkProducer (GaugeM producer) metricHash registration None, t).

(** The five loops call the creator of their kind; only an event metric can be null. *)
Definition createMetricProducer (msg : MetricMessage) (metricIndex : nat) (t : MetricTables)
    : Outcome (option Producer * MetricTables) :=
  let some '(p, t) := Done (Some p, t) in
  match msg with
  | CountMsg m => createCountMetricProducerAndUpdateMetadata m metricIndex t ≫= some
  | DurationMsg m => createDurationMetricProducerAndUpdateMetadata m metricIndex t ≫= some
  | EventMsg m => createEventMetricProducerAndUpdateMetadata m metricIndex t
  | ValueMsg m => createValueMetricProducerAndUpdateMetadata m metricIndex t ≫= some
  | GaugeMsg m => createGaugeMetricProducerAndUpdateMetadata m metricIndex t ≫= some
  end.
End create.

(** ** Metrics *)

(** The map from the metrics to their activations; two activations of one metric are refused. *)
Definition activationIndex (config : StatsdConfig) : option (gmap Z nat) :=
  indexIds (ma_metric_id <$> cfg_metric_activation config) 0 ∅.

(** [metricMap.insert({id, index})] keeps an entry that is there. *)
Definition insertFirst (id : Z) (index : nat) (m : gmap Z nat) : gmap Z nat :=
  match m !! id with Some _ => m | None => <[id := index]> m end.

(** The five loops over the metrics. *)
Fixpoint createMetrics (create : MetricMessage → nat → MetricTables → Outcome (option Producer * MetricTables))
    (msgs : list MetricMessage) (metricIndex : nat) (metricMap : gmap Z nat) (t : MetricTables)
    : Outcome (list (option Producer) * gmap Z nat * MetricTables) :=
  match msgs with
  | [] => Done ([], metricMap, t)
  | msg :: msgs' =>
      let metricMap := insertFirst (msg_id msg) metricIndex metricMap in
      '(producer, t) ← create msg metricIndex t;
      '(producers, metricMap, t) ← createMetrics create msgs' (S metricIndex) metricMap t;
      Done (producer :: producers, metricMap, t)
  end.

(** The metrics without a report must exist. *)
Definition noReportIds (ids : list Z) (metricMap : gmap Z nat) : Outcome (gset Z) :=
  _ ← mustHold (forallb (λ id, bool_decide (is_Some (metricMap !! id))) ids);
  Done (list_to_set ids).

(** The listeners of the states that slice a metric: no atom that any uid may log. *)
Definition metricListeners (whitelistedAtomIds : list Z) (metricIndex : nat) (producer : option Producer)
    : Outcome (list (Z * nat)) :=
  producer ← orCrash producer;
  let atoms := getSlicedStateAtoms (pr_metric producer) in
  _ ← mustHold (forallb (λ a, bool_decide (a ∉ whitelistedAtomIds)) atoms);
  Done ((λ a, (a, metricIndex)) <$> atoms).

Fixpoint allListeners (whitelistedAtomIds : list Z) (metricIndex : nat)
    (producers : list (option Producer)) : Outcome (list Producer * list (Z * nat)) :=
  match producers with
  | [] => Done ([], [])
  | producer :: producers' =>
      listeners ← metricListeners whitelistedAtomIds metricIndex producer;
      p ← orCrash producer;
      '(ps, listeners') ← allListeners whitelistedAtomIds (S metricIndex) producers';
      Done (p :: ps, listeners ++ listeners')
  end.

(** The producers, their map, the tables, the ids without a report, and the pairs of a state atom and a
    metric that are registered with the state manager. *)
Record Metrics := mkMetrics {
  ms_producers : list Producer;
  ms_map : gmap Z nat;
  ms_tables : MetricTables;
  ms_noReport : gset Z;
  ms_listeners : list (Z * nat)
}.

Definition initMetrics
    (create : gmap Z nat → MetricMessage → nat → MetricTables → Outcome (option Producer * MetricTables))
    (config : StatsdConfig) : Outcome Metrics :=
  metricToActivationMap ← orReject (activationIndex config);
  '(producers, metricMap, t) ← createMetrics (create metricToActivationMap) (cfg_metrics config) 0 ∅
                                 MetricTables_new;
  noReport ← noReportIds (cfg_no_report_metric config) metricMap;
  '(producers, listeners) ← allListeners (cfg_whitelisted_atom_ids config) 0 producers;
  Done (mkMetrics producers metricMap t noReport listeners).

(** ** Alerts and alarms *)

(** The entry of an alert in the manager: the tracker is also in the list of its metric, where its state
    is kept here; the entry says where. *)
Record AlertRef := mkAlertRef {
  ar_metric : nat; ar_position : nat; ar_subscriptions : list Subscription
}.

Definition onMetric (f : AnyMetric → AnyMetric) (p : Producer) : Producer :=
  mkProducer (f (pr_metric p)) (pr_protoHash p) (pr_registration p) (pr_address p).

Definition createAnomalyTracker (alert : Alert) (anomalyAlarmMonitor : option AlarmMonitor)
    (metricProducerMap : gmap Z nat) (producers : list Producer) : Outcome (AlertRef * list Producer) :=
  metricIndex ← orReject (metricProducerMap !! metric_id alert);
  threshold ← orReject (trigger_if_sum_gt alert);
  _ ← mustHold (negb (SFltb threshold (S754_zero false)) && (0 <? num_buckets alert));
  producer ← orCrash (producers !! metricIndex);
  metric ← orReject (any_addAlert alert anomalyAlarmMonitor (pr_metric producer));
  Done (mkAlertRef metricIndex (length (any_trackers (pr_metric producer))) [],
        <[metricIndex := onMetric (λ _, metric) producer]> producers).

Fixpoint createAlerts (alerts : list Alert) (anomalyAlarmMonitor : option AlarmMonitor)
    (metricProducerMap : gmap Z nat) (refs : list AlertRef) (alertTrackerMap : gmap Z nat)
    (producers : list Producer) : Outcome (list AlertRef * gmap Z nat * list Producer) :=
  match alerts with
  | [] => Done (refs, alertTrackerMap, producers)
  | alert :: alerts' =>
      let alertTrackerMap := insertFirst (alert_id alert) (length refs) alertTrackerMap in
      '(r, producers) ← createAnomalyTracker alert anomalyAlarmMonitor metricProducerMap producers;
      createAlerts alerts' anomalyAlarmMonitor metricProducerMap (refs ++ [r]) alertTrackerMap producers
  end.

Fixpoint initSubscribersForSubscriptionType {T} (addSubscription : Subscription → T → T)
    (ruleType : RuleType) (ruleMap : gmap Z nat) (subscriptions : list Subscription) (allRules : list T)
    : Outcome (list T) :=
  match subscriptions with
  | [] => Done allRules
  | subscription :: subscriptions' =>
      if negb (bool_decide (sub_rule_type subscription = ruleType)) then
        initSubscribersForSubscriptionType addSubscription ruleType ruleMap subscriptions' allRules
      else
        _ ← mustHold (sub_has_information subscription);
        ruleIndex ← orReject (ruleMap !! sub_rule_id subscription);
        initSubscribersForSubscriptionType addSubscription ruleType ruleMap subscriptions'
          (alter (addSubscription subscription) ruleIndex allRules)
  end.

Definition alert_addSubscription (s : Subscription) (r : AlertRef) : AlertRef :=
  mkAlertRef (ar_metric r) (ar_position r) (ar_subscriptions r ++ [s]).
Definition alarm_addSubscription (s : Subscription) (t : AlarmTracker) : AlarmTracker :=
  mkAlarmTracker (mAlarmConfig t) (mAlarmSec t) (mInternalAlarm t) (S (at_subscriptions t)).

Definition initAlerts (config : StatsdConfig) (metricProducerMap : gmap Z nat)
    (anomalyAlarmMonitor : option AlarmMonitor) (producers : list Producer)
    : Outcome (list AlertRef * gmap Z nat * list Producer) :=
  '(refs, alertTrackerMap, producers) ←
     createAlerts (cfg_alert config) anomalyAlarmMonitor metricProducerMap [] ∅ producers;
  refs ← initSubscribersForSubscriptionType alert_addSubscription ALERT alertTrackerMap
           (cfg_subscription config) refs;
  Done (refs, alertTrackerMap, producers).

(** The position of the first element with an id. *)
Fixpoint firstIndex (ids : list Z) (i : nat) (m : gmap Z nat) : gmap Z nat :=
  match ids with
  | [] => m
  | id :: ids' => firstIndex ids' (S i) (insertFirst id i m)
  end.

(** [fresh] is the address of the first internal alarm. *)
Definition initAlarmTrackers (config : StatsdConfig) (periodicAlarmMonitor : option AlarmMonitor)
    (timeBaseNs currentTimeNs fresh : Z) : Outcome (list AlarmTracker * option AlarmMonitor) :=
  '(alarms, monitor) ← orReject (initAlarms (cfg_alarm config) timeBaseNs currentTimeNs fresh
                                   periodicAlarmMonitor);
  alarms ← initSubscribersForSubscriptionType alarm_addSubscription ALARM
             (firstIndex (al_id <$> cfg_alarm config) 0 ∅) (cfg_subscription config) alarms;
  Done (alarms, monitor).

(** ** The whole configuration *)

(** [SerializeToString] of the generated classes. *)
Record Serializers := mkSerializers {
  ser_matcher : AtomMatcher → option (list Z);
  ser_predicate : Predicate → option (list Z);
  ser_state : ConfigUpdate.State → option (list Z);
  ser_metric : MetricMessage → option (list Z);
  ser_activation : MetricActivation → option (list Z);
  ser_alert : Alert → option (list Z)
}.

(** The parts a manager keeps. *)
Record ConfigParts := mkConfigParts {
  cp_allTagIds : gset Z;
  cp_matchers : list AtomMatchingTracker;
  cp_matcherHashes : list Z;
  cp_matcherMap : gmap Z nat;
  cp_conditions : list ConditionTracker;
  cp_conditionHashes : list Z;
  cp_conditionMap : gmap Z nat;
  cp_trackerToCondition : gmap Z (list nat);
  cp_producers : list Producer;
  cp_metricMap : gmap Z nat;
  cp_tables : MetricTables;
  cp_alerts : list AlertRef;
  cp_alertMap : gmap Z nat;
  cp_alarms : list AlarmTracker;
  cp_stateProtoHashes : gmap Z Z;
  cp_noReport : gset Z;
  cp_listeners : list (Z * nat);
  cp_periodicMonitor : option AlarmMonitor
}.

Section init.
Context (ser : Serializers) (sizeLimits : gmap Z (Z * Z)) (uninit : Z) (uninitIndices : Z * Z * Z).
Context (sm : StateManager) (uid : Z) (anomalyAlarmMonitor periodicAlarmMonitor : option AlarmMonitor).
Context (timeBaseNs currentTimeNs fresh : Z).

(** [initAtomMatchingTrackers] and [initConditions], with the hashes the trackers keep. *)
Definition initMatchers (config : StatsdConfig)
    : Outcome (list AtomMatchingTracker * gmap Z nat * gset Z * list Z) :=
  hashes ← orReject (mapM (matcherHash (ser_matcher ser)) (cfg_atom_matcher config));
  '(trackers, map, tags) ← orReject (initAtomMatchingTrackers (cfg_atom_matcher config));
  Done (trackers, map, tags, hashes).

Definition initPredicates (config : StatsdConfig) (atomMatchingTrackerMap : gmap Z nat)
    : Outcome (list ConditionTracker * gmap Z nat * gmap Z (list nat) * list ConditionState * list Z) :=
  hashes ← orReject (mapM (predicateHash (ser_predicate ser)) (cfg_predicate config));
  '(trackers, map, trackerToCondition, cache) ←
     orReject (initConditions uninitIndices (cfg_predicate config) atomMatchingTrackerMap
                 (initFuel (length (cfg_predicate config))));
  Done (trackers, map, trackerToCondition, cache, hashes).

Definition initStatsdConfig (config : StatsdConfig) : Outcome ConfigParts :=
  '(matchers, matcherMap, tags, matcherHashes) ← initMatchers config;
  '(conds, conditionMap, trackerToCondition, cache, conditionHashes) ← initPredicates config matcherMap;
  stateTables ← orReject (initStates (ser_state ser) (cfg_state config) StateTables_new);
  ms ← initMetrics
         (createMetricProducer (ser_metric ser) (ser_activation ser) sizeLimits uninit sm uid config
            timeBaseNs currentTimeNs matchers matcherMap conds conditionMap cache stateTables) config;
  '(alerts, alertMap, producers) ← initAlerts config (ms_map ms) anomalyAlarmMonitor (ms_producers ms);
  '(alarms, monitor) ← initAlarmTrackers config periodicAlarmMonitor timeBaseNs currentTimeNs fresh;
  Done (mkConfigParts tags matchers matcherHashes matcherMap conds conditionHashes conditionMap
          trackerToCondition producers (ms_map ms) (ms_tables ms) alerts alertMap alarms
          (stateProtoHashes stateTables) (ms_noReport ms) (ms_listeners ms) monitor).
End init.
