(* ===== verification/MetricsUpdate.v ===== *)
(** * Update of a configuration: metrics and alerts
      (metrics/parsing_utils/config_update_utils.cpp, onConfigUpdatedLocked of the producers)

    A metric whose message, matchers, conditions and states have not changed keeps its producer, which
    learns the new indices; the others are built anew.  Outcomes are those of MetricsConfig.  The old
    producers are read where the source still holds pointers to their trackers. *)
From stdpp Require Import sorting.
From S2P Require Import Prelude Hash UMap FieldValue DimensionKey Matchers MatcherTrackers Conditions.
From S2P Require Import ConfigUpdate Alarms Anomaly State MetricProducer CountMetric MetricShared.
From S2P Require Import EventMetric GaugeMetric ValueMetric DurationTrackers DurationMetric AnyMetric.
From S2P Require Import MetricsConfig.

(** ** The activations of a preserved metric *)

Section on_config_updated.
Context (env : MetricEnv) (config : StatsdConfig).
Context (allAtomMatchingTrackers : list AtomMatchingTracker).
Context (oldAtomMatchingTrackerMap newAtomMatchingTrackerMap : gmap Z nat).
Context (conditionTrackerMap : gmap Z nat) (metricToActivationMap : gmap Z nat).

Definition updateEventActivation (oldEventActivationMap : gmap Z nat) (metricIndex : nat)
    (activation : EventActivation) (s : ActivationMaps * MetricTables)
    : Outcome (ActivationMaps * MetricTables) :=
  let (maps, t) := s in
  newActivationMatcherIndex ← orReject (newAtomMatchingTrackerMap !! ea_atom_matcher_id activation);
  oldActivationMatcherIndex ← orReject (oldAtomMatchingTrackerMap !! ea_atom_matcher_id activation);
  ptr ← orReject (oldEventActivationMap !! Z.of_nat oldActivationMatcherIndex);
  let maps := emplaceActivation newActivationMatcherIndex ptr maps in
  let t := addActivationMetric newActivationMatcherIndex metricIndex t in
  match ea_deactivation_atom_matcher_id activation with
  | None => Done (maps, t)
  | Some deactivationMatcherId =>
      newDeactivationMatcherIndex ← orReject (newAtomMatchingTrackerMap !! deactivationMatcherId);
      Done (pushDeactivation newDeactivationMatcherIndex ptr maps,
            addDeactivationMetric newDeactivationMatcherIndex metricIndex t)
  end.

Fixpoint updateEventActivations (oldEventActivationMap : gmap Z nat) (metricIndex : nat)
    (activations : list EventActivation) (s : ActivationMaps * MetricTables)
    : Outcome (ActivationMaps * MetricTables) :=
  match activations with
  | [] => Done s
  | activation :: activations' =>
      s ← updateEventActivation oldEventActivationMap metricIndex activation s;
      updateEventActivations oldEventActivationMap metricIndex activations' s
  end.

Definition handleMetricActivationOnConfigUpdate (metricId : Z) (metricIndex : nat)
    (oldEventActivationMap : gmap Z nat) (t : MetricTables) : Outcome (ActivationMaps * MetricTables) :=
  match metricToActivationMap !! metricId with
  | None => Done (ActivationMaps_new, t)
  | Some activationIndex =>
      metricActivation ← orCrash (cfg_metric_activation config !! activationIndex);
      '(maps, t) ← updateEventActivations oldEventActivationMap metricIndex
                     (ma_event_activation metricActivation) (ActivationMaps_new, t);
      Done (maps, addMetricWithActivation metricIndex t)
  end.

(** ** onConfigUpdated of the producers *)

(** [MetricProducer::onConfigUpdatedLocked]: the activations keep their state. *)
Definition base_onConfigUpdatedLocked (metricIndex : nat) (m : AnyMetric) (t : MetricTables)
    : Outcome (AnyMetric * MetricTables) :=
  let a := mActivity (any_base m) in
  '(maps, t) ← handleMetricActivationOnConfigUpdate (getMetricId m) metricIndex (mEventActivationMap a) t;
  let a := mkActivity (mActivations a) (acm_activation maps) (acm_deactivation maps) (mIsActive a) in
  Done (clearTrackers (any_set_base (set_activity a (any_base m)) m), t).

Definition set_conditionIndex (i : Z) (b : MetricProducer) : MetricProducer :=
  let c := mConfig b in
  mkMetricProducer
    (mkProducerConfig (mMetricId c) (mTimeBaseNs c) (mBucketSizeNs c) i (mConditionSliced c)
       (mContainANYPositionInDimensionsInWhat c) (mSliceByPositionALL c) (mDimensionsInWhat c)
       (mHasLinksToAllConditionDimensionsInTracker c) (mMetric2ConditionLinks c) (mSlicedStateAtoms c)
       (mStateGroupMap c) (mMetric2StateLinks c))
    (mCurrentBucketStartTimeNs b) (mCurrentBucketNum b) (mCondition b) (mAnomalyTrackers b) (mActivity b).

Definition withMatcher := handleMetricWithAtomMatchingTrackers allAtomMatchingTrackers
                            newAtomMatchingTrackerMap.

(** An absent "what" reads as 0. *)
Definition whatOf (head : MetricHead) : Z := default 0 (mh_what head).

(** The condition index is written when the message has a condition. *)
Definition updateConditionIndex (msg : MetricMessage) (metricIndex : nat) (b : MetricProducer)
    (t : MetricTables) : Outcome (MetricProducer * MetricTables) :=
  match mh_condition (msg_head msg) with
  | None => Done (b, t)
  | Some condition =>
      '(i, t) ← handleMetricWithConditions conditionTrackerMap condition metricIndex (msg_links msg) t;
      Done (set_conditionIndex (Z.of_nat i) b, t)
  end.

Definition count_onConfigUpdatedLocked (msg : CountMessage) (metricIndex : nat)
    (p : CountMetricProducer) (t : MetricTables) : Outcome (CountMetricProducer * MetricTables) :=
  '(_, t) ← withMatcher (whatOf (cn_head msg)) metricIndex false t;
  '(b, t) ← updateConditionIndex (CountMsg msg) metricIndex (cm_base p) t;
  Done (set_cm_base b p, t).

Definition event_onConfigUpdatedLocked (msg : EventMessage) (metricIndex : nat)
    (p : EventMetricProducer) (t : MetricTables) : Outcome (EventMetricProducer * MetricTables) :=
  '(_, t) ← withMatcher (whatOf (ev_head msg)) metricIndex false t;
  '(b, t) ← updateConditionIndex (EventMsg msg) metricIndex (em_base p) t;
  Done (set_em_base b p, t).

(** [DurationTracker::onConfigUpdated] *)
Definition tracker_onConfigUpdated (i : Z) (t : AnyTracker) : AnyTracker :=
  let upd d :=
    mkDurationTracker (mEventKey d) i (dt_bucketSizeNs d) (mNested d) (dt_bucketStartNs d) (mDuration d)
      (mStateKeyDurationMap d) (dt_bucketNum d) (mStartTimeNs d) (dt_conditionSliced d)
      (dt_hasLinksToAll d) in
  match t with
  | SumTracker o => SumTracker (set_od_base (upd (od_base o)) o)
  | MaxTracker x => MaxTracker (mkMax (upd (md_base x)) (mInfos x))
  end.

Definition set_eventIndices (start stop stopAll : Z) (c : DurationConfig) : DurationConfig :=
  mkDurationConfig (mAggregationType c) start stop stopAll (dm_nested c) (mInternalDimensions c)
    (mUseWhatDimensionAsInternalDimension c) (dm_valid c).

(** An index that the predicate does not have keeps its value. *)
Definition updateOptionalMatcher (matcher : option Z) (metricIndex : nat) (enforceOneAtom : bool)
    (old : Z) (t : MetricTables) : Outcome (Z * MetricTables) :=
  match matcher with
  | None => Done (old, t)
  | Some id => '(i, t) ← withMatcher id metricIndex enforceOneAtom t; Done (Z.of_nat i, t)
  end.

Definition duration_onConfigUpdatedLocked (msg : DurationMessage) (metricIndex : nat)
    (p : DurationMetricProducer) (t : MetricTables) : Outcome (DurationMetricProducer * MetricTables) :=
  let metric := du_metric msg in
  whatIndex ← orReject (conditionTrackerMap !! whatOf (du_head msg));
  durationWhat ← orCrash (cfg_predicate config !! whatIndex);
  match pr_contents durationWhat with
  | kSimplePredicate simplePredicate =>
      let oneAtom := has_dimensions (dur_dimensions_in_what metric) in
      let c := dm_config p in
      '(start, t) ← withMatcher (default 0 (sp_start simplePredicate)) metricIndex oneAtom t;
      '(stop, t) ← updateOptionalMatcher (sp_stop simplePredicate) metricIndex oneAtom (mStopIndex c) t;
      '(stopAll, t) ← updateOptionalMatcher (sp_stop_all simplePredicate) metricIndex oneAtom
                        (mStopAllIndex c) t;
      '(b, t) ← updateConditionIndex (DurationMsg msg) metricIndex (dm_base p) t;
      let index := mConditionTrackerIndex (mConfig b) in
      Done (mkDurationMetric b (set_eventIndices (Z.of_nat start) stop stopAll c)
              (dm_unSlicedPartCondition p) (dm_pastBuckets p)
              (prod_map id (tracker_onConfigUpdated index) <$> mCurrentSlicedDurationTrackerMap p)
              (dm_anomaly p), t)
  | _ => Rejected
  end.

Definition set_vm_what (i : nat) (p : ValueMetricProducer) : ValueMetricProducer :=
  let c := vm_config p in
  mkValueMetric (vm_base p)
    (mkValueConfig (mFieldMatchers c) i (mIsPulled c) (mMinBucketSizeNs c) (mDimensionSoftLimit c)
       (mDimensionHardLimit c) (mUseAbsoluteValueOnReset c) (vm_aggregation c) (mUseDiff c)
       (mValueDirection c) (mSkipZeroDiffOutput c) (mUseZeroDefaultBase c) (mMaxPullDelayNs c)
       (mSplitBucketForAppUpgrade c))
    (mCurrentSlicedBucket p) (mCurrentBaseInfo p) (mHasGlobalBase p) (mCurrentFullBucket p)
    (vm_pastBuckets p) (mSkippedBuckets p) (mCurrentSkippedBucket p) (mCurrentBucketIsSkipped p)
    (mConditionTimer p) (mMatchedMetricDimensionKeys p) (mStateChangePrimaryKey p).

Definition value_onConfigUpdatedLocked (msg : ValueMessage) (metricIndex : nat)
    (p : ValueMetricProducer) (t : MetricTables) : Outcome (ValueMetricProducer * MetricTables) :=
  '(what, t) ← withMatcher (whatOf (va_head msg)) metricIndex false t;
  '(b, t) ← updateConditionIndex (ValueMsg msg) metricIndex (vm_base p) t;
  Done (set_vm_base b (set_vm_what what p), t).

Definition set_gm_what (i : nat) (p : GaugeMetricProducer) : GaugeMetricProducer :=
  let c := gm_config p in
  mkGaugeMetric (gm_base p)
    (mkGaugeConfig i (mTriggerAtomId c) (mAtomId c) (gc_isPulled c) (gc_minBucketSizeNs c)
       (gc_maxPullDelayNs c) (gc_dimensionSoftLimit c) (gc_dimensionHardLimit c)
       (mGaugeAtomsPerDimensionLimit c) (gc_splitBucketForAppUpgrade c) (mSamplingType c)
       (gc_fieldMatchers c))
    (gm_pastBuckets p) (gm_sliced p) (mCurrentSlicedBucketForAnomaly p) (gm_skippedBuckets p)
    (gm_currentSkipped p) (gm_fault p).

(** An active metric of a pulled atom pulls for the bucket that the update has started. *)
Definition gauge_onConfigUpdatedLocked (msg : GaugeMessage) (metricIndex : nat)
    (p : GaugeMetricProducer) (t : MetricTables) : Outcome (GaugeMetricProducer * MetricTables) :=
  '(what, t) ← withMatcher (whatOf (ga_head msg)) metricIndex false t;
  '(_, t) ← updateOptionalMatcher (ga_trigger_event msg) metricIndex true (-1) t;
  '(b, t) ← updateConditionIndex (GaugeMsg msg) metricIndex (gm_base p) t;
  let p := set_gm_base b (set_gm_what what p) in
  Done (if mIsActive (mActivity b) && gc_isPulled (gm_config p)
           && bool_decide (mSamplingType (gm_config p) = RANDOM_ONE_SAMPLE)
        then gauge_pullAndMatchEventsLocked (me_uninit env) (gaugeOutside env p) (me_depth env)
               (mCurrentBucketStartTimeNs b) p
        else p, t).

(** The virtual call.  A producer of another kind than the message would read a message of its own kind
    at the index of this one. *)
Definition any_onConfigUpdated (msg : MetricMessage) (metricIndex : nat) (m : AnyMetric)
    (t : MetricTables) : Outcome (AnyMetric * MetricTables) :=
  '(m, t) ← base_onConfigUpdatedLocked metricIndex m t;
  match msg, m with
  | CountMsg msg, CountM p =>
      '(p, t) ← count_onConfigUpdatedLocked msg metricIndex p t; Done (CountM p, t)
  | DurationMsg msg, DurationM p =>
      '(p, t) ← duration_onConfigUpdatedLocked msg metricIndex p t; Done (DurationM p, t)
  | EventMsg msg, EventM p =>
      '(p, t) ← event_onConfigUpdatedLocked msg metricIndex p t; Done (EventM p, t)
  | ValueMsg msg, ValueM p =>
      '(p, t) ← value_onConfigUpdatedLocked msg metricIndex p t; Done (ValueM p, t)
  | GaugeMsg msg, GaugeM p =>
      '(p, t) ← gauge_onConfigUpdatedLocked msg metricIndex p t; Done (GaugeM p, t)
  | _, _ => Crashed
  end.
End on_config_updated.

(** ** Which metrics are kept *)

(** [std::set_intersection], which expects both ranges to be sorted. *)
Fixpoint set_intersection (l1 : list Z) : list Z → list Z :=
  fix go (l2 : list Z) :=
    match l1, l2 with
    | x :: l1', y :: l2' =>
        if x <? y then set_intersection l1' l2
        else if y <? x then go l2'
        else x :: set_intersection l1' l2'
    | _, _ => []
    end.

Definition sorted (s : gset Z) : list Z := merge_sort Z.le (elements s).

Definition intersects (l : list Z) (s : gset Z) : bool :=
  negb (bool_decide (set_intersection l (sorted s) = [])).

(** The dependencies the five loops pass: matchers and conditions as sets, states as they are listed. *)
Definition matcherDependencies (msg : MetricMessage) : gset Z :=
  match msg with
  | DurationMsg _ => ∅
  | GaugeMsg m => {[whatOf (ga_head m)]} ∪ from_option singleton ∅ (ga_trigger_event m)
  | _ => {[whatOf (msg_head msg)]}
  end.
Definition conditionDependencies (msg : MetricMessage) : gset Z :=
  (match msg with DurationMsg m => {[whatOf (du_head m)]} | _ => ∅ end)
  ∪ from_option singleton ∅ (mh_condition (msg_head msg)).
Definition stateDependencies (msg : MetricMessage) : list Z :=
  match msg with
  | EventMsg _ | GaugeMsg _ => []
  | _ => mh_slice_by_state (msg_head msg)
  end.

Section statuses.
Context (serialize : MetricMessage → option (list Z)).
Context (serializeActivation : MetricActivation → option (list Z)).
Context (config : StatsdConfig) (metricToActivationMap : gmap Z nat).
Context (oldMetricProducerMap : gmap Z nat) (oldMetricProducers : list Producer).
Context (replacedMatchers replacedConditions replacedStates : gset Z).

Definition metricActivationDepsChange (metricId : Z) : Outcome bool :=
  match metricToActivationMap !! metricId with
  | None => Done false
  | Some i =>
      metricActivation ← orCrash (cfg_metric_activation config !! i);
      Done (existsb (λ activation,
              bool_decide (ea_atom_matcher_id activation ∈ replacedMatchers)
              || match ea_deactivation_atom_matcher_id activation with
                 | Some id => bool_decide (id ∈ replacedMatchers)
                 | None => false
                 end) (ma_event_activation metricActivation))
  end.

Definition determineMetricUpdateStatus (msg : MetricMessage) : Outcome UpdateStatus :=
  match oldMetricProducerMap !! msg_id msg with
  | None => Done UPDATE_NEW
  | Some old =>
      metricHash ← getMetricProtoHash serialize serializeActivation config metricToActivationMap msg;
      oldProducer ← orCrash (oldMetricProducers !! old);
      if negb (bool_decide (getMetricType (pr_metric oldProducer) = msg_type msg))
         || negb (pr_protoHash oldProducer =? metricHash) then Done UPDATE_REPLACE
      else if intersects (sorted (matcherDependencies msg)) replacedMatchers then Done UPDATE_REPLACE
      else if intersects (sorted (conditionDependencies msg)) replacedConditions then Done UPDATE_REPLACE
      else if intersects (stateDependencies msg) replacedStates then Done UPDATE_REPLACE
      else if existsb (λ link, bool_decide (link_condition link ∈ replacedConditions)) (msg_links msg)
      then Done UPDATE_REPLACE
      else
        changed ← metricActivationDepsChange (msg_id msg);
        Done (if (changed : bool) then UPDATE_REPLACE else UPDATE_PRESERVE)
  end.

Fixpoint determineMetricStatuses (msgs : list MetricMessage) : Outcome (list UpdateStatus) :=
  match msgs with
  | [] => Done []
  | msg :: msgs' =>
      st ← determineMetricUpdateStatus msg;
      sts ← determineMetricStatuses msgs';
      Done (st :: sts)
  end.

Definition determineAllMetricUpdateStatuses : Outcome (list UpdateStatus) :=
  determineMetricStatuses (cfg_metrics config).

(** ** The new metrics *)

Context (create : MetricMessage → nat → MetricTables → Outcome (option Producer * MetricTables)).
Context (onConfigUpdated : MetricMessage → nat → AnyMetric → MetricTables → Outcome (AnyMetric * MetricTables)).

Definition updateMetric (msg : MetricMessage) (metricIndex : nat) (t : MetricTables)
    : Outcome (Producer * MetricTables) :=
  oldIndex ← orReject (oldMetricProducerMap !! msg_id msg);
  producer ← orCrash (oldMetricProducers !! oldIndex);
  '(m, t) ← onConfigUpdated msg metricIndex (pr_metric producer) t;
  Done (onMetric (λ _, m) producer, t).

(** A preserved producer does not register for pulls again. *)
Definition updateOrCreate (st : UpdateStatus) (msg : MetricMessage) (metricIndex : nat)
    (t : MetricTables) : Outcome (option Producer * MetricTables) :=
  match st with
  | UPDATE_PRESERVE => '(p, t) ← updateMetric msg metricIndex t; Done (Some p, t)
  | UPDATE_REPLACE | UPDATE_NEW => create msg metricIndex t
  | UPDATE_UNKNOWN => Rejected
  end.

(** [newMetricProducerMap\[id\] = metricIndex] overwrites an entry. *)
Fixpoint updateAllMetrics (sts : list UpdateStatus) (msgs : list MetricMessage) (metricIndex : nat)
    (metricMap : gmap Z nat) (t : MetricTables)
    : Outcome (list (option Producer) * gmap Z nat * MetricTables) :=
  match msgs, sts with
  | msg :: msgs', st :: sts' =>
      let metricMap := <[msg_id msg := metricIndex]> metricMap in
      '(producer, t) ← updateOrCreate st msg metricIndex t;
      '(producers, metricMap, t) ← updateAllMetrics sts' msgs' (S metricIndex) metricMap t;
      Done (producer :: producers, metricMap, t)
  | _, _ => Done ([], metricMap, t)
  end.

Definition isPreserved (st : UpdateStatus) : bool := bool_decide (st = UPDATE_PRESERVE).

(** Only the new producers are registered as listeners. *)
Definition newListeners (sts : list UpdateStatus) (listeners : list (Z * nat)) : list (Z * nat) :=
  List.filter (λ l, negb (bool_decide (sts !! l.2 = Some UPDATE_PRESERVE))) listeners.

(** The result, and the ids of the metrics that were replaced. *)
Definition updateMetrics (env : MetricEnv) : Outcome (Metrics * gset Z) :=
  sts ← determineAllMetricUpdateStatuses;
  '(producers, metricMap, t) ← updateAllMetrics sts (cfg_metrics config) 0 ∅ MetricTables_new;
  noReport ← noReportIds (cfg_no_report_metric config) metricMap;
  '(producers, listeners) ← allListeners (cfg_whitelisted_atom_ids config) 0 producers;
  let producers := zip_with (λ (st : UpdateStatus) p,
    if isPreserved st then p else onMetric (any_prepareFirstBucket env) p) sts producers in
  Done (mkMetrics producers metricMap t noReport (newListeners sts listeners),
        replacedIds sts (msg_id <$> cfg_metrics config)).
End statuses.

(** ** Alerts *)

Section alerts.
Context (serializeAlert : Alert → option (list Z)).
(** The old trackers: where each is, and the producers of the time before the update. *)
Context (oldAlertTrackerMap : gmap Z nat) (oldAlerts : list AlertRef) (oldProducers : list Producer).
Context (replacedMetrics : gset Z).

Definition alertAt (r : AlertRef) : option AnyAlert :=
  p ← oldProducers !! ar_metric r;
  any_trackers (pr_metric p) !! ar_position r.

(** [AnomalyTracker::getProtoHash] serializes the alert the tracker holds. *)
Definition determineAlertUpdateStatus (alert : Alert) : Outcome UpdateStatus :=
  match oldAlertTrackerMap !! alert_id alert with
  | None => Done UPDATE_NEW
  | Some old =>
      serialized ← orReject (serializeAlert alert);
      r ← orCrash (oldAlerts !! old);
      tracker ← orCrash (alertAt r);
      oldSerialized ← orReject (serializeAlert (mAlert (alert_base tracker)));
      Done (if negb (Hash64 serialized =? Hash64 oldSerialized) then UPDATE_REPLACE
            else if bool_decide (metric_id alert ∈ replacedMetrics) then UPDATE_REPLACE
            else UPDATE_PRESERVE)
  end.

Fixpoint determineAlertStatuses (alerts : list Alert) : Outcome (list UpdateStatus) :=
  match alerts with
  | [] => Done []
  | alert :: alerts' =>
      st ← determineAlertUpdateStatus alert;
      sts ← determineAlertStatuses alerts';
      Done (st :: sts)
  end.

(** Whether a tracker is of the kind a metric expects: a duration metric, whose trackers start alarms, must
    get a duration anomaly tracker. *)
Definition kindAgrees (a : AnyAlert) (m : AnyMetric) : bool :=
  match a, m with
  | DurationAlert _, DurationM _ => true
  | PlainAlert _, DurationM _ => false
  | PlainAlert _, _ => true
  | DurationAlert _, _ => true
  end.

(** A preserved tracker loses its subscriptions and joins its metric again.  A plain tracker for a duration
    metric, which the source rules out in a comment, is not followed further. *)
Definition preserveAlert (metricProducerMap : gmap Z nat) (alert : Alert) (producers : list Producer)
    : Outcome (AlertRef * list Producer) :=
  old ← orReject (oldAlertTrackerMap !! alert_id alert);
  r ← orCrash (oldAlerts !! old);
  tracker ← orCrash (alertAt r);
  metricIndex ← orReject (metricProducerMap !! metric_id alert);
  producer ← orCrash (producers !! metricIndex);
  if kindAgrees tracker (pr_metric producer) then
    Done (mkAlertRef metricIndex (length (any_trackers (pr_metric producer))) [],
          <[metricIndex := onMetric (any_addTracker tracker) producer]> producers)
  else Crashed.

Fixpoint updateAllAlerts (anomalyAlarmMonitor : option AlarmMonitor) (metricProducerMap : gmap Z nat)
    (sts : list UpdateStatus) (alerts : list Alert) (refs : list AlertRef) (alertTrackerMap : gmap Z nat)
    (producers : list Producer) : Outcome (list AlertRef * gmap Z nat * list Producer) :=
  match alerts, sts with
  | alert :: alerts', st :: sts' =>
      let alertTrackerMap := <[alert_id alert := length refs]> alertTrackerMap in
      '(r, producers) ←
         match st with
         | UPDATE_PRESERVE => preserveAlert metricProducerMap alert producers
         | UPDATE_REPLACE | UPDATE_NEW =>
             createAnomalyTracker alert anomalyAlarmMonitor metricProducerMap producers
         | UPDATE_UNKNOWN => Rejected
         end;
      updateAllAlerts anomalyAlarmMonitor metricProducerMap sts' alerts' (refs ++ [r]) alertTrackerMap
        producers
  | _, _ => Done (refs, alertTrackerMap, producers)
  end.

Definition updateAlerts (config : StatsdConfig) (metricProducerMap : gmap Z nat)
    (anomalyAlarmMonitor : option AlarmMonitor) (producers : list Producer)
    : Outcome (list AlertRef * gmap Z nat * list Producer) :=
  sts ← determineAlertStatuses (cfg_alert config);
  '(refs, alertTrackerMap, producers) ←
     updateAllAlerts anomalyAlarmMonitor metricProducerMap sts (cfg_alert config) [] ∅ producers;
  refs ← initSubscribersForSubscriptionType alert_addSubscription ALERT alertTrackerMap
           (cfg_subscription config) refs;
  Done (refs, alertTrackerMap, producers).
End alerts.

(** ** The whole configuration *)

Section update.
Context (ser : Serializers) (sizeLimits : gmap Z (Z * Z)) (uninit : Z) (uninitIndices : Z * Z * Z).
Context (uid : Z) (anomalyAlarmMonitor periodicAlarmMonitor : option AlarmMonitor).
Context (timeBaseNs currentTimeNs fresh : Z).
(** What the metrics reach, given the new matchers and conditions. *)
Context (envWith : list AtomMatchingTracker → list ConditionTracker → MetricEnv).

Definition updateStatsdConfig (config : StatsdConfig) (old : ConfigParts) : Outcome ConfigParts :=
  mu ← orReject (updateAtomMatchingTrackers (ser_matcher ser) (cfg_atom_matcher config)
                   (cp_matcherMap old) (cp_matchers old) (cp_matcherHashes old));
  cu ← orReject (updateConditions (ser_predicate ser) uninitIndices (cfg_predicate config) (mu_map mu)
                   (mu_replaced mu) (cp_conditionMap old) (cp_conditions old) (cp_conditionHashes old));
  '(stateTables, replacedStates) ← orReject (updateStates (ser_state ser) (cfg_state config)
                                               (cp_stateProtoHashes old));
  metricToActivationMap ← orReject (activationIndex config);
  let env := envWith (mu_trackers mu) (cu_trackers cu) in
  '(ms, replacedMetrics) ←
     updateMetrics (ser_metric ser) (ser_activation ser) config metricToActivationMap (cp_metricMap old)
       (cp_producers old) (mu_replaced mu) (cu_replaced cu) replacedStates
       (createMetricProducer (ser_metric ser) (ser_activation ser) sizeLimits uninit (me_states env) uid
          config timeBaseNs currentTimeNs (mu_trackers mu) (mu_map mu) (cu_trackers cu) (cu_map cu)
          (cu_cache cu) stateTables metricToActivationMap)
       (any_onConfigUpdated env config (mu_trackers mu) (cp_matcherMap old) (mu_map mu) (cu_map cu)
          metricToActivationMap) env;
  '(alerts, alertMap, producers) ←
     updateAlerts (ser_alert ser) (cp_alertMap old) (cp_alerts old) (cp_producers old) replacedMetrics
       config (ms_map ms) anomalyAlarmMonitor (ms_producers ms);
  '(alarms, monitor) ← initAlarmTrackers config periodicAlarmMonitor timeBaseNs currentTimeNs fresh;
  Done (mkConfigParts (mu_tagIds mu) (mu_trackers mu) (mu_hashes mu) (mu_map mu) (cu_trackers cu)
          (cu_hashes cu) (cu_map cu) (cu_trackerToCondition cu) producers (ms_map ms) (ms_tables ms)
          alerts alertMap alarms (stateProtoHashes stateTables) (ms_noReport ms) (ms_listeners ms)
          monitor).
End update.
