(* ===== verification/MetricsConfigFacts.v ===== *)
(** * The tables of a configuration

    Which metrics the tables send an event or a condition to, for a configuration that has been parsed:
    exactly those whose messages name the matcher or the condition. *)
From S2P Require Import Prelude Hash UMap FieldValue DimensionKey Matchers MatcherTrackers Conditions.
From S2P Require Import ConfigUpdate Alarms Anomaly State MetricProducer CountMetric MetricShared.
From S2P Require Import EventMetric GaugeMetric ValueMetric DurationTrackers DurationMetric AnyMetric.
From S2P Require Import GaugeMetricFacts AnyMetricFacts MetricsConfig MetricsUpdate.

(** ** Outcomes *)

Lemma outcome_bind_Done {A B} (o : Outcome A) (f : A → Outcome B) b :
  (o ≫= f) = Done b ↔ ∃ a, o = Done a ∧ f a = Done b.
Proof.
  destruct o; cbn; split; try (intros (? & ? & ?); congruence); try congruence. eauto.
Qed.
Lemma require_Done b u : mustHold b = Done u ↔ b = true.
Proof. destruct b, u; cbn; split; congruence. Qed.
Lemma orReject_Done {A} (o : option A) a : orReject o = Done a ↔ o = Some a.
Proof. destruct o; cbn; split; congruence. Qed.
Lemma orCrash_Done {A} (o : option A) a : orCrash o = Done a ↔ o = Some a.
Proof. destruct o; cbn; split; congruence. Qed.

(** Takes apart an outcome that is [Done]. *)
Ltac inv_done :=
  repeat match goal with
  | H : (_ ≫= _) = Done _ |- _ =>
      let E := fresh "E" in apply outcome_bind_Done in H as (? & E & H)
  | H : mustHold _ = Done _ |- _ => apply require_Done in H
  | H : orReject _ = Done _ |- _ => apply orReject_Done in H
  | H : orCrash _ = Done _ |- _ => apply orCrash_Done in H
  | H : Done _ = Done _ |- _ => injection H as H; try subst
  | H : Rejected = Done _ |- _ => discriminate H
  | H : Crashed = Done _ |- _ => discriminate H
  | H : _ = Done ?q |- _ =>
      match q with context [?p] => is_var p; lazymatch type of p with (_ * _)%type => destruct p end end
  | H : _ = Some ?p |- _ => is_var p; lazymatch type of p with (_ * _)%type => destruct p end
  | H : (_, _) = (_, _) |- _ => injection H as; try subst
  end.

(** ** What a metric is registered for *)

Section spec.
Context (config : StatsdConfig) (matcherMap conditionMap metricToActivationMap : gmap Z nat).

(** The matchers a message names. *)
Definition metricMatchers (msg : MetricMessage) : list Z :=
  match msg with
  | DurationMsg m =>
      match conditionMap !! whatOf (du_head m) ≫= (cfg_predicate config !!.) with
      | Some (mkPredicate _ (kSimplePredicate p)) =>
          default 0 (sp_start p) :: option_list (sp_stop p) ++ option_list (sp_stop_all p)
      | _ => []
      end
  | GaugeMsg m => whatOf (ga_head m) :: option_list (ga_trigger_event m)
  | _ => [whatOf (msg_head msg)]
  end.

Definition metricEvents (msg : MetricMessage) : list EventActivation :=
  match metricToActivationMap !! msg_id msg ≫= (cfg_metric_activation config !!.) with
  | Some a => ma_event_activation a
  | None => []
  end.

(** The indices of ids; an unknown id has none. *)
Definition indices (m : gmap Z nat) (ids : list Z) : list nat := omap (m !!.) ids.

Definition registerMatchers (i : nat) (js : list nat) (t : MetricTables) : MetricTables :=
  foldl (λ t j, addTrackerMetric j i t) t js.
Definition registerConditions (i : nat) (js : list nat) (t : MetricTables) : MetricTables :=
  foldl (λ t j, addConditionMetric j i t) t js.
Definition registerEvent (i : nat) (t : MetricTables) (e : EventActivation) : MetricTables :=
  let t := foldl (λ t j, addActivationMetric j i t) t (indices matcherMap [ea_atom_matcher_id e]) in
  foldl (λ t j, addDeactivationMetric j i t) t
    (indices matcherMap (option_list (ea_deactivation_atom_matcher_id e))).

Definition registerActivation (msg : MetricMessage) (i : nat) (t : MetricTables) : MetricTables :=
  match metricToActivationMap !! msg_id msg with
  | None => t
  | Some _ => addMetricWithActivation i (foldl (registerEvent i) t (metricEvents msg))
  end.

Definition registerMetric (msg : MetricMessage) (i : nat) (t : MetricTables) : MetricTables :=
  registerActivation msg i
    (registerConditions i (indices conditionMap (option_list (mh_condition (msg_head msg))))
       (registerMatchers i (indices matcherMap (metricMatchers msg)) t)).

Fixpoint registerMetrics (msgs : list MetricMessage) (i : nat) (t : MetricTables) : MetricTables :=
  match msgs with
  | [] => t
  | msg :: msgs' => registerMetrics msgs' (S i) (registerMetric msg i t)
  end.
End spec.

(** [pushAt] for every key of a list. *)
Definition pushAll {A} (v : A) (js : list nat) (m : gmap nat (list A)) : gmap nat (list A) :=
  foldl (λ m j, pushAt j v m) m js.

Lemma elem_of_pushAt {A} (v w : A) (j k : nat) m :
  w ∈ default [] (pushAt j v m !! k) ↔ w ∈ default [] (m !! k) ∨ w = v ∧ k = j.
Proof.
  unfold pushAt. destruct (decide (k = j)) as [->|Hne].
  - rewrite lookup_insert_eq. cbn. rewrite elem_of_app, list_elem_of_singleton. naive_solver.
  - rewrite lookup_insert_ne by done. naive_solver.
Qed.
Lemma elem_of_pushAll {A} (v w : A) (js : list nat) (k : nat) m :
  w ∈ default [] (pushAll v js m !! k) ↔ w ∈ default [] (m !! k) ∨ w = v ∧ k ∈ js.
Proof.
  revert m. induction js as [|j js IH]; intros m; [set_solver|].
  change (pushAll v (j :: js) m) with (pushAll v js (pushAt j v m)). rewrite IH, elem_of_pushAt, elem_of_cons. tauto.
Qed.

Section forms.
Context (config : StatsdConfig) (matcherMap conditionMap metricToActivationMap : gmap Z nat).

Lemma registerMatchers_form i js t :
  registerMatchers i js t =
  mkMetricTables (pushAll i js (trackerToMetricMap t)) (conditionToMetricMap t)
    (activationAtomTrackerToMetricMap t) (deactivationAtomTrackerToMetricMap t) (metricsWithActivation t).
Proof. revert t. induction js as [|j js IH]; intros []; cbn; [done|]. apply IH. Qed.
Lemma registerConditions_form i js t :
  registerConditions i js t =
  mkMetricTables (trackerToMetricMap t) (pushAll i js (conditionToMetricMap t))
    (activationAtomTrackerToMetricMap t) (deactivationAtomTrackerToMetricMap t) (metricsWithActivation t).
Proof. revert t. induction js as [|j js IH]; intros []; cbn; [done|]. apply IH. Qed.

Lemma addActivations_form (i : nat) js t :
  foldl (λ t j, addActivationMetric j i t) t js =
  mkMetricTables (trackerToMetricMap t) (conditionToMetricMap t)
    (pushAll i js (activationAtomTrackerToMetricMap t)) (deactivationAtomTrackerToMetricMap t)
    (metricsWithActivation t).
Proof. revert t. induction js as [|j js IH]; intros []; cbn; [done|]. apply IH. Qed.
Lemma addDeactivations_form (i : nat) js t :
  foldl (λ t j, addDeactivationMetric j i t) t js =
  mkMetricTables (trackerToMetricMap t) (conditionToMetricMap t)
    (activationAtomTrackerToMetricMap t) (pushAll i js (deactivationAtomTrackerToMetricMap t))
    (metricsWithActivation t).
Proof. revert t. induction js as [|j js IH]; intros []; cbn; [done|]. apply IH. Qed.

Lemma pushAll_app {A} (v : A) js js' m : pushAll v (js ++ js') m = pushAll v js' (pushAll v js m).
Proof using. apply foldl_app. Qed.

(** The matchers that activate and deactivate. *)
Definition activators (es : list EventActivation) : list nat :=
  indices matcherMap (ea_atom_matcher_id <$> es).
Definition deactivators (es : list EventActivation) : list nat :=
  indices matcherMap (es ≫= λ e, option_list (ea_deactivation_atom_matcher_id e)).

Lemma registerEvents_form i es t :
  foldl (registerEvent matcherMap i) t es =
  mkMetricTables (trackerToMetricMap t) (conditionToMetricMap t)
    (pushAll i (activators es) (activationAtomTrackerToMetricMap t))
    (pushAll i (deactivators es) (deactivationAtomTrackerToMetricMap t)) (metricsWithActivation t).
Proof.
  revert t. induction es as [|e es IH]; intros t; [by destruct t|].
  cbn [foldl]. rewrite IH. unfold registerEvent.
  rewrite addActivations_form, addDeactivations_form.
  cbn [trackerToMetricMap conditionToMetricMap activationAtomTrackerToMetricMap
       deactivationAtomTrackerToMetricMap metricsWithActivation].
  rewrite <- !pushAll_app. unfold activators, deactivators, indices.
  rewrite bind_cons, omap_app, fmap_cons. rewrite <- (omap_app _ [_]). done.
Qed.
End forms.

(** ** The handlers register *)

Lemma withMatcher_tables ts matcherMap id i b t j t' :
  handleMetricWithAtomMatchingTrackers ts matcherMap id i b t = Done (j, t') →
  matcherMap !! id = Some j ∧ (j < length ts)%nat ∧ t' = registerMatchers i (indices matcherMap [id]) t.
Proof.
  intros H. unfold handleMetricWithAtomMatchingTrackers in H. inv_done.
  unfold indices. cbn. rewrite E. cbn.
  split; [done|]. split; [|done]. by apply lookup_lt_Some in E0.
Qed.

Lemma optionalMatcher_tables ts matcherMap id i b t j t' :
  handleOptionalMatcher ts matcherMap id i b t = Done (j, t') →
  t' = registerMatchers i (indices matcherMap (option_list id)) t.
Proof.
  unfold handleOptionalMatcher. destruct id; intros H; inv_done; [|done].
  by apply withMatcher_tables in E as (_ & _ & ->).
Qed.
Lemma updateOptionalMatcher_tables ts matcherMap id i b old t j t' :
  updateOptionalMatcher ts matcherMap id i b old t = Done (j, t') →
  t' = registerMatchers i (indices matcherMap (option_list id)) t.
Proof.
  unfold updateOptionalMatcher. destruct id; intros H; inv_done; [|done].
  by apply withMatcher_tables in E as (_ & _ & ->).
Qed.

Lemma withConditions_tables conditionMap c i links t j t' :
  handleMetricWithConditions conditionMap c i links t = Done (j, t') →
  conditionMap !! c = Some j ∧ t' = registerConditions i (indices conditionMap [c]) t.
Proof.
  intros H. unfold handleMetricWithConditions in H. inv_done. unfold indices. cbn. by rewrite E.
Qed.
Lemma handleCondition_tables conditionMap msg i t j t' :
  handleCondition conditionMap msg i t = Done (j, t') →
  t' = registerConditions i (indices conditionMap (option_list (mh_condition (msg_head msg)))) t.
Proof.
  unfold handleCondition. destruct (mh_condition _); intros H; inv_done; [|done].
  by apply withConditions_tables in E as [_ ->].
Qed.
Lemma updateConditionIndex_tables conditionMap msg i b t b' t' :
  updateConditionIndex conditionMap msg i b t = Done (b', t') →
  t' = registerConditions i (indices conditionMap (option_list (mh_condition (msg_head msg)))) t.
Proof.
  unfold updateConditionIndex. destruct (mh_condition _); intros H; inv_done; [|done].
  by apply withConditions_tables in E as [_ ->].
Qed.

Section activation_tables.
Context (config : StatsdConfig) (matcherMap metricToActivationMap : gmap Z nat).

Lemma eventActivation_tables ma i k e maps t maps' t' :
  handleEventActivation matcherMap ma i k e (maps, t) = Done (maps', t') →
  t' = registerEvent matcherMap i t e.
Proof.
  unfold handleEventActivation, registerEvent, indices. intros H. inv_done. cbn. rewrite E. cbn.
  destruct (ea_deactivation_atom_matcher_id e) as [d|]; inv_done; cbn; [|done].
  by rewrite E0.
Qed.
Lemma eventActivations_tables ma i k es maps t maps' t' :
  handleEventActivations matcherMap ma i k es (maps, t) = Done (maps', t') →
  t' = foldl (registerEvent matcherMap i) t es.
Proof.
  revert k maps t. induction es as [|e es IH]; intros k maps t H; cbn [handleEventActivations] in H; inv_done; [done|].
  apply eventActivation_tables in E as ->. eauto.
Qed.
Lemma updateEventActivation_tables old oldMap i e maps t maps' t' :
  updateEventActivation oldMap matcherMap old i e (maps, t) = Done (maps', t') →
  t' = registerEvent matcherMap i t e.
Proof.
  unfold updateEventActivation, registerEvent, indices. intros H. inv_done. cbn. rewrite E. cbn.
  destruct (ea_deactivation_atom_matcher_id e) as [d|]; inv_done; cbn; [|done].
  by rewrite E2.
Qed.
Lemma updateEventActivations_tables old oldMap i es maps t maps' t' :
  updateEventActivations oldMap matcherMap old i es (maps, t) = Done (maps', t') →
  t' = foldl (registerEvent matcherMap i) t es.
Proof.
  revert maps t. induction es as [|e es IH]; intros maps t H; cbn [updateEventActivations] in H; inv_done; [done|].
  apply updateEventActivation_tables in E as ->. eauto.
Qed.

Lemma metricActivation_tables msg i t maps t' :
  handleMetricActivation config matcherMap metricToActivationMap (msg_id msg) i t = Done (maps, t') →
  t' = registerActivation config matcherMap metricToActivationMap msg i t.
Proof.
  unfold handleMetricActivation, registerActivation, metricEvents.
  destruct (metricToActivationMap !! msg_id msg) as [k|]; intros H; inv_done; [|done].
  cbn. rewrite E. by apply eventActivations_tables in E0 as ->.
Qed.
Lemma metricActivationUpdate_tables old oldMap msg i t maps t' :
  handleMetricActivationOnConfigUpdate config oldMap matcherMap metricToActivationMap (msg_id msg) i old t
    = Done (maps, t') →
  t' = registerActivation config matcherMap metricToActivationMap msg i t.
Proof.
  unfold handleMetricActivationOnConfigUpdate, registerActivation, metricEvents.
  destruct (metricToActivationMap !! msg_id msg) as [k|]; intros H; inv_done; [|done].
  cbn. rewrite E. by apply updateEventActivations_tables in E0 as ->.
Qed.
End activation_tables.

#[export] Hint Resolve withMatcher_tables optionalMatcher_tables updateOptionalMatcher_tables
  handleCondition_tables updateConditionIndex_tables metricActivation_tables
  metricActivationUpdate_tables : statsd.

Lemma registerMatchers_app i js js' t :
  registerMatchers i (js ++ js') t = registerMatchers i js' (registerMatchers i js t).
Proof. apply foldl_app. Qed.
Lemma indices_app m l l' : indices m (l ++ l') = indices m l ++ indices m l'.
Proof. apply omap_app. Qed.

(** ** The id of a producer *)

Lemma rigid_id b b' : rigid b = rigid b' → mMetricId (mConfig b) = mMetricId (mConfig b').
Proof. by intros [= -> _]. Qed.

Lemma count_new_id uid metric ci cache tb start acts eam edm atoms groups :
  getMetricId (CountM (CountMetricProducer_new uid metric ci cache tb start acts eam edm atoms groups))
  = cm_id metric.
Proof.
  unfold getMetricId, CountMetricProducer_new. cbv zeta.
  match goal with |- context [count_flushIfNeededLocked start ?q] =>
    pose proof (rigid_id _ _ (count_ifNeeded_rigid start q)) as H end.
  exact H.
Qed.
Lemma event_new_id metric ci cache start acts eam edm atoms groups :
  getMetricId (EventM (EventMetricProducer_new metric ci cache start acts eam edm atoms groups))
  = evm_id metric.
Proof. done. Qed.
Lemma value_new_id limits uid metric ci cache wi tag tb start acts eam edm atoms groups p r :
  ValueMetricProducer_new limits uid metric ci cache wi tag tb start acts eam edm atoms groups = (p, r) →
  getMetricId (ValueM p) = vmm_id metric.
Proof.
  unfold getMetricId, ValueMetricProducer_new. cbv zeta.
  match goal with |- context [value_flushIfNeededLocked start ?q] =>
    pose proof (rigid_id _ _ (value_ifNeeded_rigid start q)) as H end.
  intros [= <- _]. exact H.
Qed.
Lemma gauge_new_id limits uid metric ci cache wi tag trigger atom tb start acts eam edm p r :
  GaugeMetricProducer_new limits uid metric ci cache wi tag trigger atom tb start acts eam edm = (p, r) →
  getMetricId (GaugeM p) = gmm_id metric.
Proof.
  unfold getMetricId, GaugeMetricProducer_new. cbv zeta.
  match goal with |- context [gauge_flushIfNeededLocked start ?q] =>
    pose proof (rigid_id _ _ (gauge_ifNeeded_rigid start q)) as H end.
  intros [= <- _]. exact H.
Qed.

Lemma fakeStarts_rigid wizard uninit states n key t p p' :
  fakeStarts wizard uninit states n key t p = Some p' → rigid (dm_base p') = rigid (dm_base p).
Proof.
  revert p. induction n as [|n IH]; intros p H; cbn in H; [by injection H as ->|].
  destruct (handleMatchedLogEventValuesLocked _ _ _ _ _ _ p) as [q|] eqn:E; [|done]. cbn in H.
  rewrite (IH q) by done. by apply handleValues_rigid in E as [? _].
Qed.
Lemma initTrueDimensions_rigid wizard uninit states i t p p' :
  initTrueDimensions wizard uninit states i t p = Some p' → rigid (dm_base p') = rigid (dm_base p).
Proof.
  unfold initTrueDimensions. destruct (_ =? _); [by intros [= ->]|].
  cbv zeta. generalize (inKeyOrder (default [] (getSlicedDimensionMap wizard (wizardFuel wizard) (Z.to_nat i)))).
  intros l. revert p. induction l as [|e l IH]; intros p H; cbn in H; [by injection H as ->|].
  destruct (fakeStarts _ _ _ _ _ _ p) as [q|] eqn:E.
  - rewrite (IH q) by done. by eapply fakeStarts_rigid.
  - exfalso. clear IH E. by induction l.
Qed.
Lemma duration_new_id wizard uninit states uid metric ci cache wi si so sa nest dims tb start acts eam edm
    atoms groups p :
  DurationMetricProducer_new wizard uninit states uid metric ci cache wi si so sa nest dims tb start acts eam
    edm atoms groups = Some p →
  getMetricId (DurationM p) = dur_id metric.
Proof.
  unfold DurationMetricProducer_new, getMetricId. cbv zeta.
  match goal with |- context [duration_flushIfNeededLocked start ?q] =>
    pose proof (rigid_id _ _ (duration_ifNeeded_rigid start q)) as H end.
  intros Hp%initTrueDimensions_rigid%rigid_id. cbn [any_base]. rewrite Hp. exact H.
Qed.

(** ** Creation and update register a metric the same way *)

(** Rewrites the tables that the handlers return. *)
Ltac tables :=
  repeat match goal with
  | H : handleMetricWithAtomMatchingTrackers _ _ _ _ _ _ = Done _ |- _ =>
      apply withMatcher_tables in H as (? & ? & ->)
  | H : withMatcher _ _ _ _ _ _ = Done _ |- _ => apply withMatcher_tables in H as (? & ? & ->)
  | H : handleOptionalMatcher _ _ _ _ _ _ = Done _ |- _ => apply optionalMatcher_tables in H as ->
  | H : updateOptionalMatcher _ _ _ _ _ _ _ = Done _ |- _ => apply updateOptionalMatcher_tables in H as ->
  | H : handleCondition _ _ _ _ = Done _ |- _ => apply handleCondition_tables in H as ->
  | H : updateConditionIndex _ _ _ _ _ = Done _ |- _ => apply updateConditionIndex_tables in H as ->
  end.

Lemma idAndWhat_what head what : idAndWhat head = Done what → whatOf head = what.
Proof. unfold idAndWhat, whatOf. intros H. inv_done. by rewrite H. Qed.

Lemma trigger_tables ts matcherMap msg tag i t atom t' :
  handleTrigger ts matcherMap msg tag i t = Done (atom, t') →
  t' = registerMatchers i (indices matcherMap (option_list (ga_trigger_event msg))) t.
Proof. unfold handleTrigger. destruct (ga_trigger_event msg); intros H; inv_done; tables; done. Qed.

Ltac activation Hact msg :=
  match goal with
  | H : handleMetricActivation _ _ _ _ _ _ = Done _ |- _ => apply (Hact msg) in H as ->
  end.

Lemma durationMatchers config conditionMap m k predicate sp :
  conditionMap !! whatOf (du_head m) = Some k → cfg_predicate config !! k = Some predicate →
  pr_contents predicate = kSimplePredicate sp →
  metricMatchers config conditionMap (DurationMsg m) =
    default 0 (sp_start sp) :: option_list (sp_stop sp) ++ option_list (sp_stop_all sp).
Proof.
  intros H1 H2 H3. unfold metricMatchers. rewrite H1. cbn. rewrite H2. destruct predicate as [id c].
  cbn in H3. by rewrite H3.
Qed.

Section create_spec.
Context (serialize : MetricMessage → option (list Z)).
Context (serializeActivation : MetricActivation → option (list Z)).
Context (sizeLimits : gmap Z (Z * Z)) (uninit : Z) (states : StateManager).
Context (uid : Z) (config : StatsdConfig) (timeBaseNs currentTimeNs : Z).
Context (ts : list AtomMatchingTracker) (matcherMap : gmap Z nat).
Context (conds : list ConditionTracker) (conditionMap : gmap Z nat).
Context (cache : list ConditionState) (stateTables : StateTables) (metricToActivationMap : gmap Z nat).

Abbreviation create := (createMetricProducer serialize serializeActivation sizeLimits uninit states uid config
  timeBaseNs currentTimeNs ts matcherMap conds conditionMap cache stateTables metricToActivationMap).
Abbreviation register := (registerMetric config matcherMap conditionMap metricToActivationMap).

Definition madeFor (msg : MetricMessage) (m : AnyMetric) : Prop :=
  getMetricId m = msg_id msg ∧ getMetricType m = msg_type msg.

Lemma createProducer_ok msg i t p t' :
  create msg i t = Done (Some p, t') → t' = register msg i t ∧ madeFor msg (pr_metric p).
Proof using.
  assert (Hact : ∀ msg maps t t', handleMetricActivation config matcherMap metricToActivationMap (msg_id msg)
    i t = Done (maps, t') → t' = registerActivation config matcherMap metricToActivationMap msg i t)
    by (intros; by eapply metricActivation_tables).
  unfold createMetricProducer, registerMetric. destruct msg as [m|m|m|m|m]; intros H; inv_done.
  - unfold createCountMetricProducerAndUpdateMetadata in E. inv_done. apply idAndWhat_what in E0 as <-. tables.
    activation Hact (CountMsg m). split; [done|]. split; [|done]. apply count_new_id.
  - unfold createDurationMetricProducerAndUpdateMetadata in E. inv_done.
    apply idAndWhat_what in E0 as <-. destruct (pr_contents _) as [sp| |] eqn:Hp; inv_done. tables.
    activation Hact (DurationMsg m). split; [|split; [|done]; by eapply duration_new_id].
    match goal with Hs : sp_start sp = Some ?s |- _ => rename s into start; rename Hs into Hstart end.
    rewrite (durationMatchers config conditionMap m x0 x1 sp), Hstart by done.
    change (default 0 (Some start) :: ?l) with ([start] ++ l).
    by rewrite !indices_app, !registerMatchers_app.
  - unfold createEventMetricProducerAndUpdateMetadata in H. inv_done. apply idAndWhat_what in E as <-.
    destruct (handleMetricActivation _ _ _ _ _ _) as [[maps t1]| |] eqn:Ea; inv_done; try discriminate. tables.
    activation Hact (EventMsg m). done.
  - unfold createValueMetricProducerAndUpdateMetadata in E. inv_done. apply idAndWhat_what in E0 as <-. 
    destruct (ValueMetricProducer_new _ _ _ _ _ _ _ _ _ _ _ _ _ _) as [vp r] eqn:Hv. inv_done. tables.
    activation Hact (ValueMsg m). split; [done|]. split; [|done]. by eapply value_new_id.
  - unfold createGaugeMetricProducerAndUpdateMetadata in E. inv_done. apply idAndWhat_what in E0 as <-.
    destruct (GaugeMetricProducer_new _ _ _ _ _ _ _ _ _ _ _ _ _ _) as [vp r] eqn:Hv. inv_done.
    apply trigger_tables in E5 as ->. tables.
    activation Hact (GaugeMsg m). split; [|split; [|done]; by eapply gauge_new_id].
    cbn [metricMatchers msg_head]. change (whatOf ?h :: option_list ?l) with ([whatOf h] ++ option_list l).
    by rewrite indices_app, registerMatchers_app.
Qed.
End create_spec.

Lemma activation_form config matcherMap m2a msg i t :
  registerActivation config matcherMap m2a msg i t =
  match m2a !! msg_id msg with
  | None => t
  | Some _ =>
      let es := metricEvents config m2a msg in
      mkMetricTables (trackerToMetricMap t) (conditionToMetricMap t)
        (pushAll i (activators matcherMap es) (activationAtomTrackerToMetricMap t))
        (pushAll i (deactivators matcherMap es) (deactivationAtomTrackerToMetricMap t))
        (metricsWithActivation t ++ [i])
  end.
Proof. unfold registerActivation. destruct (m2a !! _); [|done]. by rewrite registerEvents_form. Qed.

Lemma register_commute config matcherMap m2a msg i js cs t :
  registerConditions i cs (registerMatchers i js (registerActivation config matcherMap m2a msg i t)) =
  registerActivation config matcherMap m2a msg i (registerConditions i cs (registerMatchers i js t)).
Proof.
  rewrite !activation_form, !registerConditions_form, !registerMatchers_form.
  by destruct (m2a !! msg_id msg).
Qed.

(** What a metric has collected, and the state of its activations: all but the indices into the tables
    and the alerts. *)
Definition sameBase (b b' : MetricProducer) : Prop :=
  mCurrentBucketStartTimeNs b' = mCurrentBucketStartTimeNs b ∧ mCurrentBucketNum b' = mCurrentBucketNum b
  ∧ mCondition b' = mCondition b ∧ mActivations (mActivity b') = mActivations (mActivity b)
  ∧ mIsActive (mActivity b') = mIsActive (mActivity b).

(** The trackers of a duration metric, less the index of the condition. *)
Definition durationsOf (p : DurationMetricProducer) : umap HashableDimensionKey AnyTracker :=
  prod_map id (tracker_onConfigUpdated 0) <$> mCurrentSlicedDurationTrackerMap p.

Definition sameData (m m' : AnyMetric) : Prop :=
  sameBase (any_base m) (any_base m') ∧
  match m, m' with
  | CountM p, CountM p' => p' = set_cm_base (cm_base p') p
  | DurationM p, DurationM p' =>
      dm_unSlicedPartCondition p' = dm_unSlicedPartCondition p ∧ dm_pastBuckets p' = dm_pastBuckets p
      ∧ durationsOf p' = durationsOf p
  | EventM p, EventM p' => p' = set_em_base (em_base p') p
  | ValueM p, ValueM p' => set_vm_what 0 p' = set_vm_what 0 (set_vm_base (vm_base p') p)
  | GaugeM p, GaugeM p' => set_gm_what 0 p' = set_gm_what 0 (set_gm_base (gm_base p') p)
  | _, _ => False
  end.

(** A gauge metric that pulls when the configuration is updated. *)
Definition pullsOnUpdate (m : AnyMetric) : bool :=
  match m with
  | GaugeM p => mIsActive (mActivity (gm_base p)) && gc_isPulled (gm_config p)
                && bool_decide (mSamplingType (gm_config p) = RANDOM_ONE_SAMPLE)
  | _ => false
  end.

(** The current bucket has not ended when it starts. *)
Definition bucketOpen (m : AnyMetric) : Prop := mCurrentBucketStartTimeNs (any_base m) < getCurrentBucketEndTimeNs (any_base m).

Definition set_gm_current (atoms : umap MetricDimensionKey (list GaugeAtom)) (fault : option Fault) (p : GaugeMetricProducer)
    : GaugeMetricProducer :=
  mkGaugeMetric (gm_base p) (gm_config p) (gm_pastBuckets p) atoms (mCurrentSlicedBucketForAnomaly p)
    (gm_skippedBuckets p) (gm_currentSkipped p) fault.

(** All is kept; a gauge metric that pulls on an update, and had nothing in its current bucket, may have the pulled atoms in it. *)
Definition keptData (m m' : AnyMetric) : Prop :=
  sameData m m' ∨
  match m, m' with
  | GaugeM p, GaugeM p' =>
      pullsOnUpdate m = true ∧ gm_sliced p = [] ∧ sameBase (gm_base p) (gm_base p') ∧
      set_gm_what 0 p' = set_gm_what 0 (set_gm_base (gm_base p') (set_gm_current (gm_sliced p') (gm_fault p') p))
  | _, _ => False
  end.

Lemma tracker_updated_twice i j t :
  tracker_onConfigUpdated i (tracker_onConfigUpdated j t) = tracker_onConfigUpdated i t.
Proof. by destruct t. Qed.

Lemma updateConditionIndex_base conditionMap msg i b t b' t' :
  updateConditionIndex conditionMap msg i b t = Done (b', t') →
  sameBase b b' ∧ mMetricId (mConfig b') = mMetricId (mConfig b) ∧ mActivity b' = mActivity b.
Proof. unfold updateConditionIndex. destruct (mh_condition _); intros H; inv_done; done. Qed.
Lemma updateConditionIndex_bucket conditionMap msg i b t b' t' :
  updateConditionIndex conditionMap msg i b t = Done (b', t') →
  mCurrentBucketStartTimeNs b' = mCurrentBucketStartTimeNs b ∧ getCurrentBucketEndTimeNs b' = getCurrentBucketEndTimeNs b.
Proof. unfold updateConditionIndex. destruct (mh_condition _); intros H; inv_done; done. Qed.

Section update_spec.
Context (env : MetricEnv) (config : StatsdConfig) (ts : list AtomMatchingTracker).
Context (oldMap matcherMap conditionMap metricToActivationMap : gmap Z nat).

Abbreviation update := (any_onConfigUpdated env config ts oldMap matcherMap conditionMap metricToActivationMap).
Abbreviation register := (registerMetric config matcherMap conditionMap metricToActivationMap).

Lemma base_updated msg i m t m' t' :
  base_onConfigUpdatedLocked config oldMap matcherMap metricToActivationMap i m t = Done (m', t') →
  madeFor msg m →
  t' = registerActivation config matcherMap metricToActivationMap msg i t ∧ madeFor msg m' ∧ sameData m m'
  ∧ pullsOnUpdate m' = pullsOnUpdate m ∧ (bucketOpen m → bucketOpen m').
Proof using.
  intros H [Hid Hty]. unfold base_onConfigUpdatedLocked in H. inv_done. rewrite Hid in E.
  apply metricActivationUpdate_tables in E as ->. split; [done|]. unfold madeFor. rewrite <- Hid, <- Hty.
  destruct m; cbn; done.
Qed.

Lemma sameBase_trans b1 b2 b3 : sameBase b1 b2 → sameBase b2 b3 → sameBase b1 b3.
Proof using. unfold sameBase. intuition congruence. Qed.

Lemma sameData_trans m1 m2 m3 : sameData m1 m2 → sameData m2 m3 → sameData m1 m3.
Proof using.
  intros [Hb Hd] [Hb' Hd']. split; [by eapply sameBase_trans|]. clear Hb Hb'.
  destruct m1, m2, m3; try done.
  - rewrite Hd', Hd. done.
  - naive_solver congruence.
  - rewrite Hd', Hd. done.
  - rewrite Hd'. change (set_vm_what 0 (set_vm_base ?b ?q)) with (set_vm_base b (set_vm_what 0 q)). by rewrite Hd.
  - rewrite Hd'. change (set_gm_what 0 (set_gm_base ?b ?q)) with (set_gm_base b (set_gm_what 0 q)). by rewrite Hd.
Qed.

Lemma keptData_after m a m' : sameData m a → pullsOnUpdate a = pullsOnUpdate m → keptData a m' → keptData m m'.
Proof using.
  intros Hd Hp [Hk|Hk]; [left; by eapply sameData_trans|]. right. destruct Hd as [Hb Hd]. destruct m, a, m'; try done.
  destruct Hk as (Hk1 & Hk2 & Hk3 & Hk4). split_and!; [congruence| |by eapply sameBase_trans|].
  - apply (f_equal gm_sliced) in Hd. cbn in Hd. congruence.
  - rewrite Hk4. change (set_gm_what 0 (set_gm_base ?b (set_gm_current ?x ?f ?q))) with (set_gm_base b (set_gm_current x f (set_gm_what 0 q))).
    by rewrite Hd.
Qed.

Lemma keptData_before m a m' : keptData m a → sameData a m' → keptData m m'.
Proof using.
  intros [Hk|Hk] Hd; [left; by eapply sameData_trans|]. right. destruct Hd as [Hb Hd]. destruct m, a, m'; try done.
  destruct Hk as (Hk1 & Hk2 & Hk3 & Hk4). split_and!; [done|done|by eapply sameBase_trans|].
  pose proof (f_equal gm_sliced Hd) as Hs. pose proof (f_equal gm_fault Hd) as Hf. cbn in Hs, Hf. rewrite Hd, Hs, Hf.
  change (set_gm_what 0 (set_gm_base ?b ?q)) with (set_gm_base b (set_gm_what 0 q)) at 1. rewrite Hk4. done.
Qed.

(** [step] is what a producer does after the base class. *)
Definition kindUpdated (msg : MetricMessage) (i : nat) (m : AnyMetric) (t : MetricTables) (m' : AnyMetric)
    (t' : MetricTables) : Prop :=
  t' = registerConditions i (indices conditionMap (option_list (mh_condition (msg_head msg))))
         (registerMatchers i (indices matcherMap (metricMatchers config conditionMap msg)) t)
  ∧ madeFor msg m' ∧ ((pullsOnUpdate m = true → bucketOpen m) → keptData m m').

Lemma count_updated msg i p t p' t' :
  count_onConfigUpdatedLocked ts matcherMap conditionMap msg i p t = Done (p', t') →
  madeFor (CountMsg msg) (CountM p) → kindUpdated (CountMsg msg) i (CountM p) t (CountM p') t'.
Proof using.
  unfold count_onConfigUpdatedLocked. intros H [Hid _]. inv_done.
  pose proof (updateConditionIndex_base _ _ _ _ _ _ _ E0) as (Hb & Hi & _). tables.
  split; [done|]. split; [split; [|done]; etrans; [exact Hi|exact Hid]|]. intros _. by left.
Qed.
Lemma event_updated msg i p t p' t' :
  event_onConfigUpdatedLocked ts matcherMap conditionMap msg i p t = Done (p', t') →
  madeFor (EventMsg msg) (EventM p) → kindUpdated (EventMsg msg) i (EventM p) t (EventM p') t'.
Proof using.
  unfold event_onConfigUpdatedLocked. intros H [Hid _]. inv_done.
  pose proof (updateConditionIndex_base _ _ _ _ _ _ _ E0) as (Hb & Hi & _). tables.
  split; [done|]. split; [split; [|done]; etrans; [exact Hi|exact Hid]|]. intros _. by left.
Qed.
Lemma value_updated msg i p t p' t' :
  value_onConfigUpdatedLocked ts matcherMap conditionMap msg i p t = Done (p', t') →
  madeFor (ValueMsg msg) (ValueM p) → kindUpdated (ValueMsg msg) i (ValueM p) t (ValueM p') t'.
Proof using.
  unfold value_onConfigUpdatedLocked. intros H [Hid _]. inv_done.
  pose proof (updateConditionIndex_base _ _ _ _ _ _ _ E0) as (Hb & Hi & _). tables.
  split; [done|]. split; [split; [|done]; etrans; [exact Hi|exact Hid]|]. intros _. by left.
Qed.
Lemma duration_updated msg i p t p' t' :
  duration_onConfigUpdatedLocked config ts matcherMap conditionMap msg i p t = Done (p', t') →
  madeFor (DurationMsg msg) (DurationM p) → kindUpdated (DurationMsg msg) i (DurationM p) t (DurationM p') t'.
Proof using.
  unfold duration_onConfigUpdatedLocked. intros H [Hid _]. inv_done.
  destruct (pr_contents _) as [sp| |] eqn:Hp; inv_done.
  match goal with H : updateConditionIndex _ _ _ _ _ = Done _ |- _ =>
    pose proof (updateConditionIndex_base _ _ _ _ _ _ _ H) as (Hb & Hi & _) end.
  tables. split; [|split; [split; [|done]; etrans; [exact Hi|exact Hid]|]].
  - rewrite (durationMatchers config conditionMap msg x x0 sp) by done.
    change (default 0 ?s :: ?l) with ([default 0 s] ++ l).
    by rewrite !indices_app, !registerMatchers_app.
  - intros _. left. split; [done|]. split_and!; [done|done|]. unfold durationsOf. cbn.
    rewrite <- list_fmap_compose. apply list_fmap_ext. intros ? [k tr] _. cbn.
    by rewrite tracker_updated_twice.
Qed.
Lemma gauge_updated msg i p t p' t' :
  gauge_onConfigUpdatedLocked env ts matcherMap conditionMap msg i p t = Done (p', t') →
  madeFor (GaugeMsg msg) (GaugeM p) → kindUpdated (GaugeMsg msg) i (GaugeM p) t (GaugeM p') t'.
Proof using.
  unfold gauge_onConfigUpdatedLocked. intros H [Hid _]. inv_done.
  match goal with H : updateConditionIndex _ _ _ _ _ = Done _ |- _ =>
    pose proof (updateConditionIndex_base _ _ _ _ _ _ _ H) as (Hb & Hi & Ha);
    pose proof (updateConditionIndex_bucket _ _ _ _ _ _ _ H) as [H1 H2] end.
  tables. set (q := set_gm_base m1 _).
  assert (Hq : ∀ b : bool, rigid (gm_base (if b then gauge_pullAndMatchEventsLocked (me_uninit env)
    (gaugeOutside env q) (me_depth env) (mCurrentBucketStartTimeNs m1) q else q)) = rigid m1).
  { intros []; [apply gauge_pull_rigid|done]. }
  split; [|split; [split; [|done]|]].
  - cbn [metricMatchers msg_head]. change (whatOf ?h :: option_list ?l) with ([whatOf h] ++ option_list l).
    by rewrite indices_app, registerMatchers_app.
  - etrans; [exact (rigid_id _ _ (Hq _))|]. by rewrite Hi.
  - intros Hopen. match goal with |- context [if ?b then _ else q] => replace b with (pullsOnUpdate (GaugeM p)) by (rewrite Ha; done) end.
    destruct (pullsOnUpdate (GaugeM p)) eqn:Hpull; [|by left].
    pose proof Hpull as [_ Hone%bool_decide_eq_true]%andb_true_iff.
    destruct (gm_sliced p) as [|a l] eqn:Es; [|rewrite pull_only_empty; [by left|done|cbn; congruence]].
    destruct (pull_within (me_uninit env) (gaugeOutside env q) (me_depth env) (mCurrentBucketStartTimeNs m1) q) as (trackers & atoms & fault & ->).
    { specialize (Hopen eq_refl). unfold bucketOpen in Hopen. cbn [any_base] in Hopen. cbn [q gm_base set_gm_base]. lia. }
    right. split_and!; [done|done|exact Hb|done].
Qed.

Lemma updateProducer_ok msg i m t m' t' :
  update msg i m t = Done (m', t') → madeFor msg m →
  t' = register msg i t ∧ madeFor msg m' ∧ ((pullsOnUpdate m = true → bucketOpen m) → keptData m m').
Proof using.
  intros H Hm. unfold any_onConfigUpdated in H. inv_done.
  apply (base_updated msg) in E as (-> & Hm0 & Hd & Hpull & Hopen); [|done].
  assert (∃ m1 t1, m' = m1 ∧ t' = t1 ∧ kindUpdated msg i a
    (registerActivation config matcherMap metricToActivationMap msg i t) m1 t1)
    as (m1 & t1 & -> & -> & -> & Hm1 & Hd1).
  { destruct msg, a; inv_done; do 2 eexists; split_and!; try done;
      eauto using count_updated, event_updated, value_updated, duration_updated, gauge_updated. }
  split; [apply register_commute|]. split; [done|]. intros Hp. rewrite Hpull in Hd1.
  apply (keptData_after m a); [done|done|]. apply Hd1. auto.
Qed.
End update_spec.
