(* ===== verification/ConfigParts.v ===== *)
(** * The parts of a configuration fit together

    The invariant of what [initStatsdConfig] builds and [updateStatsdConfig] rebuilds: producers belong to
    the messages of the metrics in order, tables hold exactly what the messages ask for, and every index
    is in range. *)
From S2P Require Import Prelude Hash UMap FieldValue DimensionKey Matchers MatcherTrackers Conditions.
From S2P Require Import MatcherTrackersFacts ConditionsFacts.
From S2P Require Import ConfigUpdate ConfigUpdateFacts Alarms Anomaly State MetricProducer CountMetric.
From S2P Require Import MetricShared EventMetric GaugeMetric ValueMetric DurationTrackers DurationMetric.
From S2P Require Import AnyMetric AnyMetricFacts MetricsConfig MetricsUpdate MetricsConfigFacts.

(** ** Matchers and conditions: one tracker per message *)

(** [m] maps the ids of the [n] messages of a part to the positions of its trackers. *)
Record indexed (ids : list Z) (n : nat) (m : gmap Z nat) : Prop := {
  ix_positions : positions ids m;
  ix_length : n = length ids
}.

Lemma indexed_lt ids n m id j : indexed ids n m → m !! id = Some j → (j < n)%nat.
Proof. intros [Hp ->] Hj. apply Hp in Hj. by eapply lookup_lt_Some. Qed.

Lemma initAtomMatchingTrackers_indexed cfg ts map tags :
  initAtomMatchingTrackers cfg = Some (ts, map, tags) → indexed (am_id <$> cfg) (length ts) map.
Proof.
  intros H. pose proof (initAtomMatchingTrackers_built cfg) as Hb. rewrite H in Hb.
  destruct Hb as (_ & Hb & Hp & _). split; [done|]. rewrite length_fmap. by apply bu_length in Hb.
Qed.

Lemma updateMatchers_length serialize oldMap oldTs oldHashes newMap sts cfg : ∀ i l,
  updateMatchers serialize oldMap oldTs oldHashes newMap sts cfg i = Some l → length l = length cfg.
Proof.
  induction cfg as [|m cfg IH]; intros i l H; cbn [updateMatchers] in H; [by injection H as <-|].
  repeat (apply bind_Some in H as (? & ? & H)). injection H as <-. cbn. f_equal. eauto.
Qed.

Lemma updateAtomMatchingTrackers_indexed serialize cfg oldMap oldTs oldHashes u :
  updateAtomMatchingTrackers serialize cfg oldMap oldTs oldHashes = Some u →
  indexed (am_id <$> cfg) (length (mu_trackers u)) (mu_map u).
Proof.
  unfold updateAtomMatchingTrackers. intros H. pose proof (indexIds_nodup (am_id <$> cfg)) as Hidx.
  destruct (indexIds _ 0 ∅) as [newMap|]; [|done]. cbn [mbind option_bind] in H.
  destruct (updateStatuses _ _ _) as [sts|]; [|done]. cbn [mbind option_bind] in H.
  destruct (updateMatchers _ _ _ _ _ _ _ _) as [l|] eqn:El; [|done]. cbn [mbind option_bind] in H.
  destruct (init_all _ _ _ _ _ _) as [[[b s] tags]|] eqn:Ei; [|done]. cbn [mbind option_bind] in H.
  destruct b; [|done]. injection H as <-. split; [apply Hidx|]. cbn [mu_trackers].
  apply init_all_ids in Ei. unfold same_ids in Ei. apply (f_equal length) in Ei. cbn [is_trackers] in Ei.
  rewrite !length_fmap in Ei. apply updateMatchers_length in El. rewrite length_fmap. congruence.
Qed.

(** *** Conditions *)

Section condition_lengths.
Context (cfg : list Predicate).

Lemma refreshChildren_length rec cs :
  (∀ c s b s', rec c s = Some (b, s') → length (ci_trackers s') = length (ci_trackers s)) →
  ∀ s s', refreshChildren rec cs s = Some s' → length (ci_trackers s') = length (ci_trackers s).
Proof using.
  intros Hrec. induction cs as [|c cs IH]; intros s s' H; cbn [refreshChildren] in H; [by simplify_eq|].
  case_bool_decide; [|by eapply IH]. destruct (rec c s) as [[b s1]|] eqn:E; [simpl in H|done].
  apply IH in H as ->. eauto.
Qed.
Lemma initConditionChildren_length map rec i cs :
  (∀ c s b s', rec c s = Some (b, s') → length (ci_trackers s') = length (ci_trackers s)) →
  ∀ s b s', initConditionChildren map rec i cs s = Some (b, s') →
  length (ci_trackers s') = length (ci_trackers s).
Proof using.
  intros Hrec. induction cs as [|c cs IH]; intros s b s' H; cbn [initConditionChildren] in H.
  { by simplify_eq. }
  destruct (map !! c) as [ci|]; [|by simplify_eq]. destruct (default false _); [by simplify_eq|].
  destruct (rec ci s) as [[[] s1]|] eqn:E; [| |done].
  - destruct (childAt _ _) as [sl tr]. apply IH in H as ->. cbn. rewrite length_alter. eauto.
  - simplify_eq. eauto.
Qed.
Lemma initCondition_length map fuel : ∀ i s b s',
  initCondition cfg map fuel i s = Some (b, s') → length (ci_trackers s') = length (ci_trackers s).
Proof using.
  induction fuel as [|fuel IH]; intros i s b s' H; cbn [initCondition] in H; [done|].
  destruct (ci_trackers s !! i) as [[t|t]|] eqn:Ht; [by injection H as <- <-| |by simplify_eq].
  destruct (cc_initialized t).
  { destruct (refreshChildren _ _ _) as [s1|] eqn:E; [simpl in H; simplify_eq|done].
    by eapply refreshChildren_length in E. }
  destruct (pc_operation _) as [op|]; [|by simplify_eq].
  destruct (_ && _); [simplify_eq; cbn; by rewrite length_alter|].
  destruct (initConditionChildren _ _ _ _ _) as [[[] s1]|] eqn:E; [| |done];
    eapply initConditionChildren_length in E; try done; cbn in E; rewrite length_alter in E.
  - destruct (ci_trackers s1 !! i) as [[?|t1]|]; simplify_eq; cbn; by rewrite ?length_alter.
  - by simplify_eq.
Qed.
Lemma initAllConditions_length map fuel : ∀ idxs s m b s' m',
  initAllConditions cfg map fuel idxs s m = Some (b, s', m') →
  length (ci_trackers s') = length (ci_trackers s).
Proof using.
  induction idxs as [|i idxs IH]; intros s m b s' m' H; cbn [initAllConditions] in H; [by simplify_eq|].
  destruct (initCondition _ _ _ _ _) as [[[] s1]|] eqn:E; [| |done]; apply initCondition_length in E.
  - apply IH in H. congruence.
  - by simplify_eq.
Qed.

Lemma updateChildren_length map rec i cs :
  (∀ c ts b ts', rec c ts = Some (b, ts') → length ts' = length ts) →
  ∀ ts b ts', updateChildren map rec i cs ts = Some (b, ts') → length ts' = length ts.
Proof using.
  intros Hrec. induction cs as [|c cs IH]; intros ts b ts' H; cbn [updateChildren] in H; [by simplify_eq|].
  destruct (map !! c) as [ci|]; [|by simplify_eq].
  destruct (rec ci ts) as [[[] ts1]|] eqn:E; [| |done].
  - destruct (childAt _ _) as [sl tr]. apply IH in H as ->. rewrite length_alter. eauto.
  - simplify_eq. eauto.
Qed.
Lemma onConditionConfigUpdated_length matcherMap map fuel : ∀ i ts b ts',
  onConditionConfigUpdated cfg matcherMap map fuel i ts = Some (b, ts') → length ts' = length ts.
Proof using.
  induction fuel as [|fuel IH]; intros i ts b ts' H; cbn [onConditionConfigUpdated] in H; [done|].
  destruct (ts !! i) as [[t|t]|]; [| |by simplify_eq].
  - destruct (SimpleConditionTracker_onConfigUpdated _ _ _ _) as [ok t']. simplify_eq. apply length_insert.
  - apply updateChildren_length in H; [|done]. by rewrite length_insert in H.
Qed.
Lemma updatePreserved_length matcherMap map fuel : ∀ l ts ts',
  updatePreserved cfg matcherMap map fuel l ts = Some ts' → length ts' = length ts.
Proof using.
  induction l as [|i l IH]; intros ts ts' H; cbn [updatePreserved] in H; [by simplify_eq|].
  destruct (onConditionConfigUpdated _ _ _ _ _ _) as [[[] ts1]|] eqn:E; [|done..].
  apply onConditionConfigUpdated_length in E. apply IH in H. congruence.
Qed.
End condition_lengths.

Lemma updateConditionTrackers_length serialize uninit matcherMap oldMap oldTs oldHashes sts cfg : ∀ i l,
  updateConditionTrackers serialize uninit matcherMap oldMap oldTs oldHashes sts cfg i = Some l →
  length l = length cfg.
Proof.
  induction cfg as [|m cfg IH]; intros i l H; cbn [updateConditionTrackers] in H; [by injection H as <-|].
  repeat (apply bind_Some in H as (? & ? & H)). injection H as <-. cbn. f_equal. eauto.
Qed.

Lemma updateConditions_indexed serialize uninit cfg matcherMap replaced oldMap oldTs oldHashes u :
  updateConditions serialize uninit cfg matcherMap replaced oldMap oldTs oldHashes = Some u →
  indexed (pr_id <$> cfg) (length (cu_trackers u)) (cu_map u).
Proof.
  unfold updateConditions. intros H. pose proof (indexIds_nodup (pr_id <$> cfg)) as Hidx.
  destruct (indexIds _ 0 ∅) as [newMap|]; [|done]. cbn [mbind option_bind] in H.
  destruct (updateStatuses _ _ _) as [sts|]; [|done]. cbn [mbind option_bind] in H.
  destruct (updateConditionTrackers _ _ _ _ _ _ _ _ _) as [l|] eqn:El; [|done]. cbn [mbind option_bind] in H.
  destruct (updatePreserved _ _ _ _ _ _) as [ts|] eqn:Ep; [|done]. cbn [mbind option_bind] in H.
  destruct (initAllConditions _ _ _ _ _ _) as [[[b s] m]|] eqn:Ei; [|done]. cbn [mbind option_bind] in H.
  destruct b; [|done]. injection H as <-. split; [apply Hidx|]. cbn [cu_trackers].
  apply initAllConditions_length in Ei. apply updatePreserved_length in Ep.
  apply updateConditionTrackers_length in El. rewrite (length_fmap fst l) in Ep. rewrite (length_fmap pr_id cfg). cbn [ci_trackers] in Ei. congruence.
Qed.

Lemma createConditions_indexIds uninit matcherMap cfg : ∀ i ts m ts' m',
  createConditions uninit matcherMap cfg i ts m = Some (ts', m') →
  indexIds (pr_id <$> cfg) i m = Some m' ∧ length ts' = (length ts + length cfg)%nat.
Proof.
  induction cfg as [|p cfg IH]; intros i ts m ts' m' H; cbn [createConditions] in H.
  { injection H as <- <-. split; [done|]. cbn. lia. }
  destruct (createConditionTracker _ _ _ _); [|done]. cbn. destruct (m !! pr_id p); [done|].
  apply IH in H as [-> ->]. split; [done|]. rewrite length_app. cbn. lia.
Qed.

Lemma initConditions_indexed uninit cfg matcherMap fuel ts map t2c cache :
  initConditions uninit cfg matcherMap fuel = Some (ts, map, t2c, cache) →
  indexed (pr_id <$> cfg) (length ts) map.
Proof.
  unfold initConditions. intros H.
  destruct (createConditions _ _ _ _ _ _) as [[ts0 m0]|] eqn:Ec; [|done]. cbn [mbind option_bind] in H.
  destruct (initAllConditions _ _ _ _ _ _) as [[[b s] m]|] eqn:Ei; [|done]. cbn [mbind option_bind] in H.
  destruct b; [|done]. injection H as <- <- <- <-. apply createConditions_indexIds in Ec as [Ec El].
  pose proof (indexIds_nodup (pr_id <$> cfg)) as Hidx. rewrite Ec in Hidx. split; [apply Hidx|].
  apply initAllConditions_length in Ei. cbn [ci_trackers] in Ei. rewrite length_fmap. cbn in El. congruence.
Qed.

(** *** Which matchers lead to which conditions *)

(** The matchers of a condition are positions below [n]. *)
Definition indexOk (n : nat) (t : ConditionTracker) : Prop := ∀ j, j ∈ getAtomMatchingTrackerIndex t → 0 ≤ j < Z.of_nat n.

(** Matchers below [n] lead to conditions below [k]. *)
Definition routesWithin (n k : nat) (m : gmap Z (list nat)) : Prop :=
  ∀ j l, m !! j = Some l → 0 ≤ j < Z.of_nat n ∧ Forall (λ i, (i < k)%nat) l.

Section condition_routes.
Context (cfg : list Predicate) (matcherMap : gmap Z nat) (n : nat).
Context (Hmap : ∀ id j, matcherMap !! id = Some j → (j < n)%nat).

Lemma setMatcherIndices_ok p t : indexOk n (SimpleCondition (setMatcherIndices p matcherMap t)).
Proof using Hmap.
  assert (Hadd : ∀ (s : gset Z) id i, (∀ j, j ∈ s → 0 ≤ j < Z.of_nat n) → Z.of_nat <$> matcherMap !! id = Some i →
    ∀ j, j ∈ s ∪ {[i]} → 0 ≤ j < Z.of_nat n).
  { intros s id i Hs (k & Hk & ->)%fmap_Some j [Hj|Hj%elem_of_singleton]%elem_of_union; [by apply Hs|]. apply Hmap in Hk. lia. }
  assert (H0 : ∀ j, j ∈ (∅ : gset Z) → 0 ≤ j < Z.of_nat n) by (intros j Hj; by apply not_elem_of_empty in Hj).
  unfold indexOk, setMatcherIndices. cbv zeta.
  destruct (sp_start p) as [a|], (sp_stop p) as [b|], (sp_stop_all p) as [c|];
    repeat match goal with |- context [Z.of_nat <$> matcherMap !! ?x] =>
      let E := fresh in destruct (Z.of_nat <$> matcherMap !! x) eqn:E end; cbn [getAtomMatchingTrackerIndex set_indices sc_trackerIndex]; eauto 10.
Qed.

Lemma createConditionTracker_ok uninit p i t : createConditionTracker uninit p i matcherMap = Some t → indexOk n t.
Proof using Hmap.
  unfold createConditionTracker. destruct (pr_contents p); [|intros [= <-]|done].
  - intros [= <-]. unfold SimpleConditionTracker_new. destruct uninit as [[? ?] ?]. apply setMatcherIndices_ok.
  - intros j Hj. by apply not_elem_of_empty in Hj.
Qed.

Lemma childAt_ok ts c : (∀ t, ts !! c = Some t → indexOk n t) → ∀ j, j ∈ (childAt ts c).2 → 0 ≤ j < Z.of_nat n.
Proof using. unfold childAt. destruct (ts !! c) as [t|]; [intros H; by apply H|]. intros _ j Hj. by apply not_elem_of_empty in Hj. Qed.

Lemma push_child_ok c b1 b2 s t :
  (∀ j, j ∈ s → 0 ≤ j < Z.of_nat n) → indexOk n t → indexOk n (on_comb (push_condition_child c b1 b2 s) t).
Proof using.
  intros Hs Ht. destruct t as [t|t]; [done|]. intros j [Hj|Hj]%elem_of_union; [by apply Ht|by apply Hs].
Qed.

(** Initialisation unites the matchers of the children. *)
Abbreviation statesOk s := (Forall (indexOk n) (ci_trackers s)).

Lemma initCondition_routes map fuel : ∀ i s b s', initCondition cfg map fuel i s = Some (b, s') → statesOk s → statesOk s'.
Proof using.
  induction fuel as [|fuel IH]; intros i s b s' H Hs; cbn [initCondition] in H; [done|].
  assert (Hrefresh : ∀ cs s s', refreshChildren (initCondition cfg map fuel) cs s = Some s' → statesOk s → statesOk s').
  { induction cs as [|c cs IHc]; intros q q' Hq Hok; cbn [refreshChildren] in Hq; [by simplify_eq|].
    case_bool_decide; [|by eapply IHc]. destruct (initCondition _ _ _ c q) as [[b1 q1]|] eqn:E; [simpl in Hq|done].
    eapply IHc; [exact Hq|]. by eapply IH. }
  assert (Hchildren : ∀ cs s b s', initConditionChildren map (initCondition cfg map fuel) i cs s = Some (b, s') → statesOk s → statesOk s').
  { induction cs as [|c cs IHc]; intros q b1 q' Hq Hok; cbn [initConditionChildren] in Hq; [by simplify_eq|].
    destruct (map !! c) as [ci|]; [|by simplify_eq]. destruct (default false _); [by simplify_eq|].
    destruct (initCondition _ _ _ ci q) as [[[] q1]|] eqn:E; [| |done]; [|simplify_eq; by eapply IH].
    apply IH in E; [|done]. destruct (childAt (ci_trackers q1) ci) as [sl tr] eqn:Ec. eapply IHc; [exact Hq|]. cbn [ci_trackers ci_on_trackers].
    apply Forall_alter; [done|]. intros t Ht Hok1. apply push_child_ok; [|done].
    pose proof (childAt_ok (ci_trackers q1) ci) as Hc. rewrite Ec in Hc. apply Hc. intros t' Ht'. exact (Forall_lookup_1 _ _ _ _ E Ht'). }
  assert (Hcomb : ∀ f q, (∀ t, cc_trackerIndex (f t) = cc_trackerIndex t) → statesOk q → statesOk (ci_on_trackers (alter (on_comb f) i) q)).
  { intros f q Hf Hq. apply Forall_alter; [done|]. intros [t|t] _ Ht; [done|]. unfold indexOk. cbn. by rewrite Hf. }
  destruct (ci_trackers s !! i) as [[t|t]|] eqn:Ht; [by injection H as <- <-| |by simplify_eq].
  destruct (cc_initialized t).
  { destruct (refreshChildren _ _ _) as [s1|] eqn:E; [simpl in H; simplify_eq|done]. by eapply Hrefresh in E. }
  destruct (pc_operation _) as [op|]; [|by simplify_eq].
  destruct (_ && _); [simplify_eq; by apply Hcomb|].
  destruct (initConditionChildren _ _ _ _ _) as [[[] s1]|] eqn:E; [| |done];
    (eapply Hchildren in E; [|by apply Hcomb]).
  - destruct (ci_trackers s1 !! i) as [[?|t1]|]; simplify_eq; [done|by apply Hcomb|done].
  - by simplify_eq.
Qed.

Lemma addTracker_routes k i l : ∀ m, (i < k)%nat → (∀ j, j ∈ l → 0 ≤ j < Z.of_nat n) → routesWithin n k m →
  routesWithin n k (foldl (addTrackerToCondition i) m l).
Proof using.
  clear Hmap. induction l as [|a l IH]; intros m Hi Hl Hm; cbn [foldl]; [done|]. apply IH; [done|set_solver|].
  intros j l' Hj. unfold addTrackerToCondition in Hj. destruct (decide (j = a)) as [->|Hne].
  - rewrite lookup_insert_eq in Hj. injection Hj as <-. split; [apply Hl; left|]. apply Forall_app. split; [|by constructor].
    destruct (m !! a) as [l0|] eqn:E; [by apply (Hm a)|apply Forall_nil_2].
  - rewrite lookup_insert_ne in Hj by done. by apply Hm.
Qed.

Lemma initAllConditions_routes map fuel k : ∀ idxs s m b s' m',
  initAllConditions cfg map fuel idxs s m = Some (b, s', m') → Forall (λ i, (i < k)%nat) idxs → statesOk s → routesWithin n k m →
  routesWithin n k m'.
Proof using.
  induction idxs as [|i idxs IH]; intros s m b s' m' H Hi Hs Hm; cbn [initAllConditions] in H; [by simplify_eq|].
  apply Forall_cons in Hi as [Hik Hi]. destruct (initCondition _ _ _ _ _) as [[[] s1]|] eqn:E; [| |done]; [|by simplify_eq].
  apply initCondition_routes in E; [|done]. eapply IH; [exact H|done|done|]. apply addTracker_routes; [done| |done].
  intros j Hj%elem_of_elements. revert j Hj. apply childAt_ok. intros t Ht. exact (Forall_lookup_1 _ _ _ _ E Ht).
Qed.

(** *** Updates of conditions *)

Definition okAt (ts : list ConditionTracker) (k : nat) : Prop := ∀ t, ts !! k = Some t → indexOk n t.

Lemma okAt_insert ts i t k : (k = i → indexOk n t) → okAt ts k → okAt (<[i := t]> ts) k.
Proof using.
  intros Ht Hk u Hu. apply list_lookup_insert_Some in Hu as [(-> & <- & _)|[_ Hu]]; [by apply Ht|by apply Hk].
Qed.
Lemma okAt_alter ts f i k : (∀ t, indexOk n t → indexOk n (f t)) → okAt ts k → okAt (alter f i ts) k.
Proof using.
  intros Hf Hk u Hu. rewrite list_lookup_alter in Hu. case_decide; [|by apply Hk]. apply fmap_Some in Hu as (t & Ht & ->). subst. exact (Hf _ (Hk _ Ht)).
Qed.

Lemma onConditionConfigUpdated_routes map fuel : ∀ i ts b ts',
  onConditionConfigUpdated cfg matcherMap map fuel i ts = Some (b, ts') →
  okAt ts' i ∧ ∀ k, okAt ts k → okAt ts' k.
Proof using Hmap.
  induction fuel as [|fuel IH]; intros i ts b ts' H; cbn [onConditionConfigUpdated] in H; [done|].
  assert (Hchildren : ∀ cs ts b ts', updateChildren map (onConditionConfigUpdated cfg matcherMap map fuel) i cs ts = Some (b, ts') →
    ∀ k, okAt ts k → okAt ts' k).
  { induction cs as [|c cs IHc]; intros q b1 q' Hq k Hk; cbn [updateChildren] in Hq; [by simplify_eq|].
    destruct (map !! c) as [ci|]; [|by simplify_eq].
    destruct (onConditionConfigUpdated _ _ _ _ ci q) as [[[] q1]|] eqn:E; [| |done]; apply IH in E as [Hci Hrest];
      [|simplify_eq; by apply Hrest].
    destruct (childAt q1 ci) as [sl tr] eqn:Ec. eapply IHc; [exact Hq|]. apply okAt_alter; [|by apply Hrest].
    intros t. apply push_child_ok. pose proof (childAt_ok q1 ci Hci) as Hc. by rewrite Ec in Hc. }
  destruct (ts !! i) as [[t|t]|] eqn:Et.
  - destruct (SimpleConditionTracker_onConfigUpdated _ _ _ _) as [ok t'] eqn:Eu. simplify_eq.
    unfold SimpleConditionTracker_onConfigUpdated in Eu. injection Eu as _ <-. split; [|intros k; apply okAt_insert; intros _; apply setMatcherIndices_ok].
    intros u Hu. apply list_lookup_insert_Some in Hu as [(_ & <- & _)|[? _]]; [apply setMatcherIndices_ok|done].
  - assert (H0 : indexOk n (CombinationCondition (reset_children i t))) by (intros j Hj; by apply not_elem_of_empty in Hj).
    split; [|intros k Hk]; eapply Hchildren; try exact H.
    + intros u Hu. apply list_lookup_insert_Some in Hu as [(_ & <- & _)|[? _]]; done.
    + by apply okAt_insert.
  - simplify_eq. split; [|done]. intros t Ht. congruence.
Qed.

Lemma updatePreserved_routes map fuel : ∀ l ts ts',
  updatePreserved cfg matcherMap map fuel l ts = Some ts' → (∀ k, k ∈ l → okAt ts' k) ∧ ∀ k, okAt ts k → okAt ts' k.
Proof using Hmap.
  induction l as [|i l IH]; intros ts ts' H; cbn [updatePreserved] in H.
  { simplify_eq. split; [|done]. intros k Hk. by apply not_elem_of_nil in Hk. }
  destruct (onConditionConfigUpdated _ _ _ _ _ _) as [[[] ts1]|] eqn:E; [|done..].
  apply onConditionConfigUpdated_routes in E as [Hi Hrest]. apply IH in H as [Hl Hkeep]. split; [|auto].
  intros k [->|Hk]%elem_of_cons; auto.
Qed.

Lemma updateConditionTrackers_routes serialize uninit oldMap oldTs oldHashes sts preds : ∀ i l k,
  updateConditionTrackers serialize uninit matcherMap oldMap oldTs oldHashes sts preds i = Some l →
  sts !! (i + k)%nat ≠ Some UPDATE_PRESERVE → okAt l.*1 k.
Proof using Hmap.
  induction preds as [|p preds IH]; intros i l k H Hk; cbn [updateConditionTrackers] in H; [injection H as <-; by intros t Ht|].
  apply bind_Some in H as (st & Hst & H). apply bind_Some in H as ([t h] & Ht & H). apply bind_Some in H as (ts & Hts & [= <-]).
  destruct k as [|k].
  - rewrite Nat.add_0_r in Hk. intros t' [= <-]. unfold updateCondition in Ht. destruct st; try congruence.
    + apply bind_Some in Ht as (? & _ & Ht). apply bind_Some in Ht as (? & Ht & [= <- _]). by eapply createConditionTracker_ok.
    + apply bind_Some in Ht as (? & _ & Ht). apply bind_Some in Ht as (? & Ht & [= <- _]). by eapply createConditionTracker_ok.
  - apply (IH (S i) ts k Hts). by rewrite Nat.add_succ_comm.
Qed.
End condition_routes.

Lemma seq_within k : Forall (λ i, (i < k)%nat) (seq 0 k).
Proof. apply Forall_forall. intros i Hi. apply elem_of_seq in Hi. lia. Qed.

Lemma initConditions_routes uninit cfg matcherMap fuel ts map t2c cache n :
  initConditions uninit cfg matcherMap fuel = Some (ts, map, t2c, cache) → (∀ id j, matcherMap !! id = Some j → (j < n)%nat) →
  routesWithin n (length cfg) t2c.
Proof.
  unfold initConditions. intros H Hmap.
  destruct (createConditions _ _ _ _ _ _) as [[ts0 m0]|] eqn:Ec; [|done]. cbn [mbind option_bind] in H.
  destruct (initAllConditions _ _ _ _ _ _) as [[[b s] m]|] eqn:Ei; [|done]. cbn [mbind option_bind] in H.
  destruct b; [|done]. injection H as <- <- <- <-.
  assert (Hts : Forall (indexOk n) ts0).
  { assert (H : ∀ l i ts m ts' m', createConditions uninit matcherMap l i ts m = Some (ts', m') → Forall (indexOk n) ts → Forall (indexOk n) ts').
    { induction l as [|p l IH]; intros i ts m1 ts' m' H Hts; cbn [createConditions] in H; [by simplify_eq|].
      destruct (createConditionTracker _ _ _ _) as [t|] eqn:Et; [|done]. destruct (m1 !! pr_id p); [done|]. eapply IH; [exact H|].
      apply Forall_app. split; [done|]. constructor; [|apply Forall_nil_2]. by eapply createConditionTracker_ok. }
    eapply H; [exact Ec|apply Forall_nil_2]. }
  apply createConditions_indexIds in Ec as [_ El]. cbn in El. eapply initAllConditions_routes; [exact Ei| |done|by intros j l].
  rewrite El. apply seq_within.
Qed.

Lemma updateConditions_routes serialize uninit cfg matcherMap replaced oldMap oldTs oldHashes u n :
  updateConditions serialize uninit cfg matcherMap replaced oldMap oldTs oldHashes = Some u →
  (∀ id j, matcherMap !! id = Some j → (j < n)%nat) → routesWithin n (length cfg) (cu_trackerToCondition u).
Proof.
  unfold updateConditions. intros H Hmap.
  destruct (indexIds _ 0 ∅) as [newMap|]; [|done]. cbn [mbind option_bind] in H.
  destruct (updateStatuses _ _ _) as [sts|]; [|done]. cbn [mbind option_bind] in H.
  destruct (updateConditionTrackers _ _ _ _ _ _ _ _ _) as [l|] eqn:El; [|done]. cbn [mbind option_bind] in H.
  destruct (updatePreserved _ _ _ _ _ _) as [ts|] eqn:Ep; [|done]. cbn [mbind option_bind] in H.
  destruct (initAllConditions _ _ _ _ _ _) as [[[b s] m]|] eqn:Ei; [|done]. cbn [mbind option_bind] in H.
  destruct b; [|done]. injection H as <-. cbn [cu_trackerToCondition].
  eapply initAllConditions_routes; [exact Ei|apply seq_within| |by intros j l0].
  cbn [ci_trackers]. apply (updatePreserved_routes _ _ n Hmap) in Ep as [Hp Hkeep]. apply Forall_lookup_2. intros k t Ht.
  destruct (decide (sts !! k = Some UPDATE_PRESERVE)) as [Hk|Hk].
  - apply (Hp k); [|done]. unfold preservedIndices. apply list_elem_of_In, List.filter_In. split; [|by apply bool_decide_eq_true].
    apply list_elem_of_In, elem_of_seq. apply lookup_lt_Some in Hk. lia.
  - apply (Hkeep k); [|done]. by eapply (updateConditionTrackers_routes _ n Hmap _ _ _ _ _ _ _ 0).
Qed.

(** ** Metrics *)

(** The producers of the metrics, in order. *)
Definition madeForAll (msgs : list MetricMessage) (ps : list Producer) : Prop :=
  Forall2 (λ msg p, madeFor msg (pr_metric p)) msgs ps.

(** A map from ids to positions that knows every id; of two metrics with one id it knows one. *)
Record locates (ids : list Z) (m : gmap Z nat) : Prop := {
  lo_index : ∀ id j, m !! id = Some j → ids !! j = Some id;
  lo_known : ∀ id, id ∈ ids → is_Some (m !! id)
}.

Lemma locates_empty : locates [] ∅.
Proof. split; [intros id j H; by rewrite lookup_empty in H|intros id []%not_elem_of_nil]. Qed.
Lemma locates_snoc ids id m m' :
  locates ids m → m' = insertFirst id (length ids) m ∨ m' = <[id := length ids]> m → locates (ids ++ [id]) m'.
Proof.
  intros [Hi Hk] Hm'. assert (Hcase : ∀ id' j, m' !! id' = Some j → (id' = id ∧ j = length ids) ∨ m !! id' = Some j).
  { intros id' j. destruct Hm' as [-> | ->]; unfold insertFirst; [destruct (m !! id) eqn:E; [by right|]|];
      rewrite lookup_insert_Some; naive_solver. }
  split.
  - intros id' j [[-> ->]|H]%Hcase; [apply list_lookup_middle; done|]. apply Hi in H.
    by apply lookup_app_l_Some.
  - intros id' [H| ->%list_elem_of_singleton]%elem_of_app.
    + destruct (Hk id' H) as [j Hj]. destruct Hm' as [-> | ->]; unfold insertFirst;
        [destruct (m !! id) eqn:E; [by exists j|]|]; destruct (decide (id' = id)) as [-> |];
        rewrite ?lookup_insert_eq, ?lookup_insert_ne by done; eauto.
    + destruct Hm' as [-> | ->]; unfold insertFirst; [destruct (m !! id) eqn:E; [by eexists|]|];
        rewrite lookup_insert_eq; eauto.
Qed.

Section loops.
Context (config : StatsdConfig) (matcherMap conditionMap m2a : gmap Z nat).
Abbreviation registerAll := (registerMetrics config matcherMap conditionMap m2a).

(** Both loops call a function that registers the metric it makes. *)
Definition registers (f : MetricMessage → nat → MetricTables → Outcome (option Producer * MetricTables))
    (msg : MetricMessage) : Prop :=
  ∀ i t p t', f msg i t = Done (Some p, t') →
    t' = registerMetric config matcherMap conditionMap m2a msg i t ∧ madeFor msg (pr_metric p).

Lemma createMetrics_spec create msgs : ∀ pre m t ps m' t',
  (∀ msg, registers create msg) → locates pre m →
  createMetrics create msgs (length pre) m t = Done (Some <$> ps, m', t') →
  t' = registerAll msgs (length pre) t ∧ madeForAll msgs ps ∧ locates (pre ++ (msg_id <$> msgs)) m'.
Proof using.
  induction msgs as [|msg msgs IH]; intros pre m t ps m' t' Hc Hl H; cbn [createMetrics] in H; inv_done.
  { symmetry in H. apply fmap_nil_inv in H as ->. rewrite app_nil_r. by split_and!; [|constructor|]. }
  destruct ps as [|p ps]; [done|]. injection H as -> ->. apply Hc in E as [-> Hp].
  specialize (IH (pre ++ [msg_id msg])). rewrite length_app, Nat.add_1_r in IH.
  apply IH in E0 as (-> & Hps & Hlo); [|done|by eapply locates_snoc; [|left]].
  split; [done|]. split; [by constructor|]. by rewrite <- app_assoc in Hlo.
Qed.

Lemma updateAllMetrics_spec oldMap oldPs create update msgs : ∀ sts pre m t ps m' t',
  (∀ st msg, registers (updateOrCreate oldMap oldPs create update st) msg) →
  locates pre m → length sts = length msgs →
  updateAllMetrics oldMap oldPs create update sts msgs (length pre) m t = Done (Some <$> ps, m', t') →
  t' = registerAll msgs (length pre) t ∧ madeForAll msgs ps ∧ locates (pre ++ (msg_id <$> msgs)) m'.
Proof using.
  induction msgs as [|msg msgs IH]; intros sts pre m t ps m' t' Hc Hl Hlen H;
    destruct sts as [|st sts]; try (cbn in Hlen; lia); cbn [updateAllMetrics] in H; inv_done.
  { symmetry in H. apply fmap_nil_inv in H as ->. rewrite app_nil_r. by split_and!; [|constructor|]. }
  destruct ps as [|p ps]; [done|]. injection H as -> ->. apply Hc in E as [-> Hp].
  specialize (IH sts (pre ++ [msg_id msg])). rewrite length_app, Nat.add_1_r in IH.
  apply IH in E0 as (-> & Hps & Hlo); [|done|by eapply locates_snoc; [|right]|by cbn in Hlen; lia].
  split; [done|]. split; [by constructor|]. by rewrite <- app_assoc in Hlo.
Qed.
End loops.

Lemma allListeners_spec w : ∀ ops i ps ls,
  allListeners w i ops = Done (ps, ls) →
  ops = Some <$> ps ∧
  ∀ a k, (a, k) ∈ ls ↔ ∃ j p, k = (i + j)%nat ∧ ps !! j = Some p ∧ a ∈ getSlicedStateAtoms (pr_metric p).
Proof.
  induction ops as [|op ops IH]; intros i ps ls H; cbn [allListeners] in H; inv_done.
  { split; [done|]. intros a k. split; [by intros []%not_elem_of_nil|]. intros (? & ? & _ & Hp & _). by rewrite lookup_nil in Hp. }
  unfold metricListeners in E. inv_done. apply IH in E1 as [-> Hls]. injection E0 as <-. split; [done|].
  intros a k. rewrite elem_of_app, Hls, list_elem_of_fmap. split.
  - intros [(b & [= -> ->] & Hb)|(j & p & -> & Hp & Ha)].
    + exists 0%nat, x0. split_and!; [lia|done|done].
    + exists (S j), p. split_and!; [lia|done|done].
  - intros ([|j] & p & -> & Hp & Ha).
    + injection Hp as <-. left. exists a. split; [f_equal; lia|done].
    + right. exists j, p. split_and!; [lia|done|done].
Qed.

(** ** Alerts *)

(** Every alert of the manager is in the list of a metric. *)
Definition alertsIn (ps : list Producer) (refs : list AlertRef) : Prop :=
  ∀ r, r ∈ refs → ∃ p, ps !! ar_metric r = Some p ∧ (ar_position r < length (any_trackers (pr_metric p)))%nat.

(** An alert added to a metric: the metric keeps its configuration and gets one more tracker. *)
Definition grows (m m' : AnyMetric) : Prop :=
  any_rigid m' = any_rigid m ∧ length (any_trackers m') = S (length (any_trackers m)).

Lemma addAlert_grows alert monitor m m' : any_addAlert alert monitor m = Some m' → grows m m'.
Proof.
  destruct m; unfold any_addAlert; try (intros [= <-]; split; [done|]; cbn; rewrite !length_fmap, length_app; cbn; lia).
  destruct (duration_addAnomalyTracker alert monitor p) as [ok p'] eqn:E. destruct ok; [|done].
  intros [= <-]. revert E. unfold duration_addAnomalyTracker. cbv zeta.
  destruct (match mAggregationType _ with SUM => _ | _ => _ end); [done|]. intros [= <-].
  split; [done|]. cbn. rewrite !length_fmap, length_app. cbn. lia.
Qed.

Lemma addTracker_grows a m : kindAgrees a m = true → grows m (any_addTracker a m).
Proof.
  destruct m, a; try done; intros _; (split; [done|]); cbn; rewrite !length_fmap, length_app; cbn; lia.
Qed.

Lemma alertsIn_insert ps refs k p m :
  alertsIn ps refs → ps !! k = Some p → grows (pr_metric p) m →
  alertsIn (<[k := onMetric (λ _, m) p]> ps) (refs ++ [mkAlertRef k (length (any_trackers (pr_metric p))) []]).
Proof.
  intros H Hp [_ Hg]. assert (k < length ps)%nat as Hk by by eapply lookup_lt_Some.
  intros r [Hr| ->%list_elem_of_singleton]%elem_of_app.
  - destruct (H r Hr) as (q & Hq & Hlt). destruct (decide (ar_metric r = k)) as [Heq|Hne].
    + exists (onMetric (λ _, m) p). rewrite Heq, list_lookup_insert_eq by done. split; [done|].
      rewrite Heq, Hp in Hq. injection Hq as <-. cbn. lia.
    + exists q. by rewrite list_lookup_insert_ne by done.
  - exists (onMetric (λ _, m) p). cbn [ar_metric ar_position]. rewrite list_lookup_insert_eq by done.
    split; [done|]. cbn. lia.
Qed.

Lemma madeForAll_insert msgs ps k p m :
  madeForAll msgs ps → ps !! k = Some p → any_rigid m = any_rigid (pr_metric p) →
  madeForAll msgs (<[k := onMetric (λ _, m) p]> ps).
Proof.
  intros H Hp [= Hty Hc _]. assert (k < length ps)%nat as Hk by by eapply lookup_lt_Some.
  destruct (Forall2_lookup_r _ _ _ _ _ H Hp) as (msg & Hmsg & Hid & Hty').
  rewrite <- (list_insert_id msgs k msg) by done. apply Forall2_insert; [done|].
  unfold madeFor, getMetricId. cbn. by rewrite Hc, Hty.
Qed.

(** What both loops over the alerts keep. *)
Definition alertsOk (msgs : list MetricMessage) (ids : list Z) (s : list AlertRef * gmap Z nat * list Producer)
    : Prop :=
  let '(refs, m, ps) := s in
  madeForAll msgs ps ∧ alertsIn ps refs ∧ locates ids m ∧ length refs = length ids.

Lemma createAnomalyTracker_spec alert monitor metricMap ps r ps' :
  createAnomalyTracker alert monitor metricMap ps = Done (r, ps') →
  ∃ k p m, ps !! k = Some p ∧ grows (pr_metric p) m ∧ ps' = <[k := onMetric (λ _, m) p]> ps ∧
    r = mkAlertRef k (length (any_trackers (pr_metric p))) [].
Proof.
  unfold createAnomalyTracker. intros H. inv_done. apply addAlert_grows in E3. eauto 10.
Qed.

Lemma alert_step msgs ids id refs m m' ps k p mt :
  alertsOk msgs ids (refs, m, ps) → ps !! k = Some p → grows (pr_metric p) mt →
  m' = insertFirst id (length refs) m ∨ m' = <[id := length refs]> m →
  alertsOk msgs (ids ++ [id])
    (refs ++ [mkAlertRef k (length (any_trackers (pr_metric p))) []], m', <[k := onMetric (λ _, mt) p]> ps).
Proof.
  intros (Hm & Ha & Hl & Hlen) Hp Hg Hm'. split_and!.
  - by eapply madeForAll_insert; [..|apply Hg].
  - by apply alertsIn_insert.
  - rewrite Hlen in Hm'. by eapply locates_snoc.
  - rewrite !length_app. cbn. lia.
Qed.

Lemma createAlerts_spec monitor metricMap msgs alerts : ∀ ids refs m ps s,
  alertsOk msgs ids (refs, m, ps) →
  createAlerts alerts monitor metricMap refs m ps = Done s →
  alertsOk msgs (ids ++ (alert_id <$> alerts)) s.
Proof.
  induction alerts as [|a alerts IH]; intros ids refs m ps s Hok H; cbn [createAlerts] in H; inv_done.
  { by rewrite app_nil_r. }
  apply createAnomalyTracker_spec in E as (k & p & mt & Hp & Hg & -> & ->).
  eapply IH in H; [|by eapply alert_step; [..|left]]. by rewrite <- app_assoc in H.
Qed.

Lemma subscribers_spec ruleType ruleMap subs : ∀ refs refs',
  initSubscribersForSubscriptionType alert_addSubscription ruleType ruleMap subs refs = Done refs' →
  length refs' = length refs ∧ ∀ ps, alertsIn ps refs → alertsIn ps refs'.
Proof.
  induction subs as [|s subs IH]; intros refs refs' H; cbn [initSubscribersForSubscriptionType] in H;
    [inv_done; done|].
  destruct (negb _); [by apply IH in H|]. inv_done. apply IH in H as [-> H]. split; [apply length_alter|].
  intros ps Hps. apply H. intros r (k & Hk)%list_elem_of_lookup.
  rewrite list_lookup_alter in Hk. case_decide; [|by apply Hps; eapply list_elem_of_lookup_2].
  apply fmap_Some in Hk as (r' & Hr' & ->).
  destruct (Hps r') as (p & Hp & Hlt); [by eapply list_elem_of_lookup_2|]. by exists p.
Qed.

Lemma updateAllAlerts_spec oldMap oldAlerts oldPs monitor metricMap msgs alerts : ∀ sts ids refs m ps s,
  length sts = length alerts → alertsOk msgs ids (refs, m, ps) →
  updateAllAlerts oldMap oldAlerts oldPs monitor metricMap sts alerts refs m ps = Done s →
  alertsOk msgs (ids ++ (alert_id <$> alerts)) s.
Proof.
  induction alerts as [|a alerts IH]; intros sts ids refs m ps s Hlen Hok H;
    (destruct sts as [|st sts]; try (cbn in Hlen; lia)); cbn [updateAllAlerts] in H.
  { inv_done. by rewrite app_nil_r. }
  apply outcome_bind_Done in H as ([a0 l] & E & H).
  assert (∃ k p mt, ps !! k = Some p ∧ grows (pr_metric p) mt ∧ l = <[k := onMetric (λ _, mt) p]> ps ∧
    a0 = mkAlertRef k (length (any_trackers (pr_metric p))) []) as (k & p & mt & Hp & Hg & -> & ->).
  { destruct st; inv_done; try by eapply createAnomalyTracker_spec.
    unfold preserveAlert in E. inv_done. destruct (kindAgrees x1 (pr_metric x3)) eqn:Hk; inv_done.
    exists x2, x3, (any_addTracker x1 (pr_metric x3)). split_and!; try done. by apply addTracker_grows. }
  eapply IH in H; [|by cbn in Hlen; lia|by eapply alert_step; [..|right]]. by rewrite <- app_assoc in H.
Qed.

(** ** The invariant *)

Record wiringOk (config : StatsdConfig) (cp : ConfigParts) : Prop := {
  po_matchers : indexed (am_id <$> cfg_atom_matcher config) (length (cp_matchers cp)) (cp_matcherMap cp);
  po_conditions : indexed (pr_id <$> cfg_predicate config) (length (cp_conditions cp)) (cp_conditionMap cp);
  po_metrics : madeForAll (cfg_metrics config) (cp_producers cp);
  po_metricMap : locates (msg_id <$> cfg_metrics config) (cp_metricMap cp);
  po_tables : ∃ m2a, activationIndex config = Some m2a ∧
    cp_tables cp = registerMetrics config (cp_matcherMap cp) (cp_conditionMap cp) m2a (cfg_metrics config) 0
                     MetricTables_new;
  po_noReport : ∀ id, id ∈ cp_noReport cp → is_Some (cp_metricMap cp !! id)
}.

(** After construction and update the alerts are in place as well. *)
Record partsOk (config : StatsdConfig) (cp : ConfigParts) : Prop := {
  po_wiring : wiringOk config cp;
  po_alerts : alertsIn (cp_producers cp) (cp_alerts cp);
  po_alertCount : length (cp_alerts cp) = length (cfg_alert config);
  po_alertMap : locates (alert_id <$> cfg_alert config) (cp_alertMap cp)
}.

Lemma noReportIds_spec ids m s : noReportIds ids m = Done s → ∀ id, id ∈ s → is_Some (m !! id).
Proof.
  unfold noReportIds. intros H id Hid. inv_done. rewrite elem_of_list_to_set in Hid.
  apply list_elem_of_In in Hid. rewrite forallb_forall in E. by apply E, bool_decide_eq_true in Hid.
Qed.

Lemma initAlerts_spec config metricMap monitor ps refs m ps' :
  initAlerts config metricMap monitor ps = Done (refs, m, ps') →
  madeForAll (cfg_metrics config) ps →
  alertsOk (cfg_metrics config) (alert_id <$> cfg_alert config) (refs, m, ps').
Proof.
  intros H Hm. unfold initAlerts in H. inv_done.
  eapply (createAlerts_spec _ _ (cfg_metrics config) _ []) in E as (Hm' & Ha & Hl & Hlen);
    [|split_and!; [done|by intros r []%not_elem_of_nil|apply locates_empty|done]].
  apply subscribers_spec in E0 as [Hlen' Ha']. split_and!; [done|by apply Ha'|done|by rewrite Hlen'].
Qed.

Lemma determineAlertStatuses_length ser oldMap oldAlerts oldPs replaced alerts : ∀ sts,
  determineAlertStatuses ser oldMap oldAlerts oldPs replaced alerts = Done sts → length sts = length alerts.
Proof.
  induction alerts as [|a alerts IH]; intros sts H; cbn [determineAlertStatuses] in H; inv_done; [done|].
  cbn. f_equal. auto.
Qed.

Lemma updateAlerts_spec ser oldMap oldAlerts oldPs replaced config metricMap monitor ps refs m ps' :
  updateAlerts ser oldMap oldAlerts oldPs replaced config metricMap monitor ps = Done (refs, m, ps') →
  madeForAll (cfg_metrics config) ps →
  alertsOk (cfg_metrics config) (alert_id <$> cfg_alert config) (refs, m, ps').
Proof.
  intros H Hm. unfold updateAlerts in H. inv_done.
  eapply (updateAllAlerts_spec _ _ _ _ _ (cfg_metrics config) _ _ []) in E0 as (Hm' & Ha & Hl & Hlen);
    [|by eapply determineAlertStatuses_length
     |split_and!; [done|by intros r []%not_elem_of_nil|apply locates_empty|done]].
  apply subscribers_spec in E1 as [Hlen' Ha']. split_and!; [done|by apply Ha'|done|by rewrite Hlen'].
Qed.

Lemma determineMetricStatuses_length ser sera config m2a oldMap oldPs rm rc rs msgs : ∀ sts,
  determineMetricStatuses ser sera config m2a oldMap oldPs rm rc rs msgs = Done sts →
  length sts = length msgs.
Proof.
  induction msgs as [|a msgs IH]; intros sts H; cbn [determineMetricStatuses] in H; inv_done; [done|].
  cbn. f_equal. auto.
Qed.

Lemma madeForAll_prepare msgs env sts ps :
  madeForAll msgs ps → length sts = length ps →
  madeForAll msgs (zip_with (λ (st : UpdateStatus) p,
    if isPreserved st then p else onMetric (any_prepareFirstBucket env) p) sts ps).
Proof.
  intros H. revert sts. induction H as [|msg p msgs ps Hp _ IH]; intros sts Hlen;
    destruct sts as [|st sts]; cbn in Hlen; try lia; cbn; constructor; [|apply IH; lia].
  destruct (isPreserved st); [done|]. pose proof (any_prepare_rigid env (pr_metric p)) as [= Hty Hc _].
  destruct Hp as [Hid Ht]. unfold madeFor, getMetricId in *. cbn. by rewrite Hc, Hty.
Qed.

(** The producer is of the kind of the message it is updated with. *)
Lemma update_type env config ts oldMap matcherMap conditionMap m2a msg i m t r :
  any_onConfigUpdated env config ts oldMap matcherMap conditionMap m2a msg i m t = Done r →
  getMetricType m = msg_type msg.
Proof.
  unfold any_onConfigUpdated. intros H. apply outcome_bind_Done in H as ([a t1] & E & H).
  assert (Ht : getMetricType a = getMetricType m).
  { unfold base_onConfigUpdatedLocked in E. inv_done. by destruct m. }
  rewrite <- Ht. by destruct msg, a.
Qed.

Lemma updateMetrics_spec ser sera config m2a oldMap oldPs rm rc rs create update env matcherMap conditionMap
    ms replaced :
  updateMetrics ser sera config m2a oldMap oldPs rm rc rs create update env = Done (ms, replaced) →
  (∀ st msg, registers config matcherMap conditionMap m2a (updateOrCreate oldMap oldPs create update st) msg) →
  ms_tables ms = registerMetrics config matcherMap conditionMap m2a (cfg_metrics config) 0 MetricTables_new ∧
  madeForAll (cfg_metrics config) (ms_producers ms) ∧ locates (msg_id <$> cfg_metrics config) (ms_map ms) ∧
  ∀ id, id ∈ ms_noReport ms → is_Some (ms_map ms !! id).
Proof.
  intros H Hu. unfold updateMetrics in H.
  apply outcome_bind_Done in H as (sts & E6 & H). apply outcome_bind_Done in H as ([[ops m] t] & E7 & H).
  apply outcome_bind_Done in H as (noReport & E8 & H). apply outcome_bind_Done in H as ([ps ls] & E9 & H).
  injection H as <- <-. unfold determineAllMetricUpdateStatuses in E6.
  apply determineMetricStatuses_length in E6. pose proof (noReportIds_spec _ _ _ E8) as Hn.
  apply allListeners_spec in E9 as [-> _].
  apply (updateAllMetrics_spec config matcherMap conditionMap m2a _ _ _ _ _ _ [] ∅) in E7
    as (-> & Hps & Hlo); [|done|apply locates_empty|done].
  cbn [ms_tables ms_producers ms_map ms_noReport]. split_and!; [done| |done|done].
  apply madeForAll_prepare; [done|]. apply Forall2_length in Hps. congruence.
Qed.

(** ** Positions in the other tables *)

(** Where matchers lead to conditions, and alerts and listeners of states to metrics. *)
Record routesOk (config : StatsdConfig) (cp : ConfigParts) : Prop := {
  ro_conditions : routesWithin (length (cfg_atom_matcher config)) (length (cfg_predicate config)) (cp_trackerToCondition cp);
  ro_alerts : Forall (λ r, (ar_metric r < length (cfg_metrics config))%nat) (cp_alerts cp);
  ro_alertCount : length (cp_alerts cp) = length (cfg_alert config);
  ro_alertMap : locates (alert_id <$> cfg_alert config) (cp_alertMap cp);
  ro_listeners : Forall (λ l, (l.2 < length (cfg_metrics config))%nat) (cp_listeners cp)
}.

Lemma routes_of_parts config cp :
  partsOk config cp →
  routesWithin (length (cfg_atom_matcher config)) (length (cfg_predicate config)) (cp_trackerToCondition cp) →
  Forall (λ l, (l.2 < length (cfg_metrics config))%nat) (cp_listeners cp) → routesOk config cp.
Proof.
  intros [Hw Ha Hc Hm] Ht Hl. split; try done. apply Forall_forall. intros r (p & Hp & _)%Ha.
  apply lookup_lt_Some in Hp. by rewrite (Forall2_length _ _ _ (po_metrics _ _ Hw)).
Qed.

Lemma listeners_within w ops ps ls n :
  allListeners w 0 ops = Done (ps, ls) → (length ops <= n)%nat → Forall (λ l, (l.2 < n)%nat) ls.
Proof.
  intros [-> Hl]%allListeners_spec Hn. rewrite length_fmap in Hn. apply Forall_forall. intros [a k] Hk.
  apply Hl in Hk as (j & p & -> & Hp & _). apply lookup_lt_Some in Hp. cbn. lia.
Qed.

Lemma createMetrics_length create msgs : ∀ k m t ops m' t',
  createMetrics create msgs k m t = Done (ops, m', t') → (length ops <= length msgs)%nat.
Proof.
  induction msgs as [|a msgs IH]; intros k m t ops m' t' H; cbn [createMetrics] in H; inv_done; [done|].
  cbn. match goal with E : createMetrics _ _ _ _ _ = Done _ |- _ => apply IH in E end. lia.
Qed.

Lemma updateAllMetrics_length oldMap oldPs create update msgs : ∀ sts k m t ops m' t',
  updateAllMetrics oldMap oldPs create update sts msgs k m t = Done (ops, m', t') → (length ops <= length msgs)%nat.
Proof.
  induction msgs as [|a msgs IH]; intros [|st sts] k m t ops m' t' H; cbn [updateAllMetrics] in H;
    [injection H as <- _ _; cbn; lia..|]. inv_done.
  cbn. match goal with E : updateAllMetrics _ _ _ _ _ _ _ _ _ = Done _ |- _ => apply IH in E end. lia.
Qed.

Section init_update.
Context (ser : Serializers) (sizeLimits : gmap Z (Z * Z)) (uninit : Z) (uninitIndices : Z * Z * Z).
Context (uid : Z) (anomalyMonitor periodicMonitor : option AlarmMonitor).
Context (timeBaseNs currentTimeNs fresh : Z).

Lemma initStatsdConfig_ok sm config cp :
  initStatsdConfig ser sizeLimits uninit uninitIndices sm uid anomalyMonitor periodicMonitor timeBaseNs
    currentTimeNs fresh config = Done cp → partsOk config cp.
Proof using.
  unfold initStatsdConfig, initMatchers, initPredicates. intros H.
  apply outcome_bind_Done in H as ([[[ts mm] tags] hs] & E & H).
  apply outcome_bind_Done in H as ([[[[cs cmap] t2c] cache] chs] & E0 & H).
  apply outcome_bind_Done in H as (st & _ & H). apply outcome_bind_Done in H as (ms & E2 & H).
  apply outcome_bind_Done in H as ([[refs am] ps] & E3 & H).
  apply outcome_bind_Done in H as ([alarms monitor] & _ & H). injection H as <-.
  apply outcome_bind_Done in E as (h1 & _ & E). apply outcome_bind_Done in E as ([[ts' m'] tags'] & E & H).
  injection H as -> -> -> ->. apply orReject_Done, initAtomMatchingTrackers_indexed in E.
  apply outcome_bind_Done in E0 as (h2 & _ & E0).
  apply outcome_bind_Done in E0 as ([[[cs' cm'] t2c'] cache'] & E0 & H).
  injection H as -> -> -> -> ->. apply orReject_Done, initConditions_indexed in E0.
  unfold initMetrics in E2. apply outcome_bind_Done in E2 as (m2a & Em & E2). apply orReject_Done in Em.
  apply outcome_bind_Done in E2 as ([[ops mmap] t] & E4 & E2).
  apply outcome_bind_Done in E2 as (nr & E5 & E2). apply outcome_bind_Done in E2 as ([ps0 ls] & E6 & E2).
  injection E2 as <-. pose proof (noReportIds_spec _ _ _ E5) as Hn. apply allListeners_spec in E6 as [-> _].
  apply (createMetrics_spec config mm cmap m2a _ _ [] ∅) in E4 as (-> & Hps & Hlo);
    [|intros msg i t1 p t'; apply createProducer_ok|apply locates_empty].
  apply initAlerts_spec in E3 as (Hps' & Ha & Hl & Hlen); [|done].
  split; [split| | |]; cbn [cp_matchers cp_matcherMap cp_conditions cp_conditionMap cp_producers cp_metricMap
    cp_tables cp_alerts cp_alertMap cp_noReport ms_map ms_tables ms_noReport]; eauto.
  by rewrite length_fmap in Hlen.
Qed.

Lemma initStatsdConfig_routes sm config cp :
  initStatsdConfig ser sizeLimits uninit uninitIndices sm uid anomalyMonitor periodicMonitor timeBaseNs
    currentTimeNs fresh config = Done cp → routesOk config cp.
Proof using.
  intros H. apply routes_of_parts; [by eapply initStatsdConfig_ok|..];
    unfold initStatsdConfig, initMatchers, initPredicates in H;
    apply outcome_bind_Done in H as ([[[ts mm] tags] hs] & E & H);
    apply outcome_bind_Done in H as ([[[[cs cmap] t2c] cache] chs] & E0 & H);
    apply outcome_bind_Done in H as (st & _ & H); apply outcome_bind_Done in H as (ms & E2 & H);
    apply outcome_bind_Done in H as ([[refs am] ps] & _ & H);
    apply outcome_bind_Done in H as ([alarms monitor] & _ & H); injection H as <-; cbn [cp_trackerToCondition cp_listeners].
  - apply outcome_bind_Done in E as (h1 & _ & E). apply outcome_bind_Done in E as ([[ts' m'] tags'] & E & H).
    injection H as -> -> -> ->. apply orReject_Done, initAtomMatchingTrackers_indexed in E.
    apply outcome_bind_Done in E0 as (h2 & _ & E0). apply outcome_bind_Done in E0 as ([[[cs' cm'] t2c'] cache'] & E0 & H).
    injection H as -> -> -> -> ->. apply orReject_Done in E0. eapply initConditions_routes; [exact E0|].
    intros id j Hj. rewrite <- (length_fmap am_id), <- (ix_length _ _ _ E). by eapply indexed_lt.
  - unfold initMetrics in E2. apply outcome_bind_Done in E2 as (m2a & _ & E2). apply outcome_bind_Done in E2 as ([[ops mmap] t] & E4 & E2).
    apply outcome_bind_Done in E2 as (nr & _ & E2). apply outcome_bind_Done in E2 as ([ps0 ls] & E6 & E2).
    injection E2 as <-. cbn [ms_listeners]. eapply listeners_within; [exact E6|]. by eapply createMetrics_length.
Qed.

Context (envWith : list AtomMatchingTracker → list ConditionTracker → MetricEnv).

Lemma updateStatsdConfig_ok oldConfig config old cp :
  wiringOk oldConfig old →
  updateStatsdConfig ser sizeLimits uninit uninitIndices uid anomalyMonitor periodicMonitor timeBaseNs
    currentTimeNs fresh envWith config old = Done cp → partsOk config cp.
Proof using.
  intros Hold. unfold updateStatsdConfig. cbv zeta. intros H.
  apply outcome_bind_Done in H as (mu & E & H). apply outcome_bind_Done in H as (cu & E0 & H).
  apply outcome_bind_Done in H as ([st rs] & E1 & H). apply outcome_bind_Done in H as (m2a & E2 & H).
  apply outcome_bind_Done in H as ([ms replaced] & E3 & H).
  apply outcome_bind_Done in H as ([[refs am] ps] & E4 & H).
  apply outcome_bind_Done in H as ([alarms monitor] & _ & H). injection H as <-.
  apply orReject_Done in E, E0, E2.
  apply updateAtomMatchingTrackers_indexed in E. apply updateConditions_indexed in E0.
  eapply (updateMetrics_spec _ _ _ _ _ _ _ _ _ _ _ _ (mu_map mu) (cu_map cu)) in E3 as (Ht & Hps & Hlo & Hn).
  - apply updateAlerts_spec in E4 as (Hps' & Ha & Hl & Hlen); [|done].
    split; [split| | |]; cbn [cp_matchers cp_matcherMap cp_conditions cp_conditionMap cp_producers
      cp_metricMap cp_tables cp_alerts cp_alertMap cp_noReport]; eauto.
    by rewrite length_fmap in Hlen.
  - intros s msg i t p t' Hu. unfold updateOrCreate in Hu. destruct s; inv_done; try (by eapply createProducer_ok).
    unfold updateMetric in E5. inv_done. pose proof (update_type _ _ _ _ _ _ _ _ _ _ _ _ E8) as Hty.
    destruct (po_metricMap _ _ Hold) as [Hidx _]. apply Hidx in E6.
    apply list_lookup_fmap_Some in E6 as (om & Hid & Hom).
    destruct (Forall2_lookup_l _ _ _ _ _ (po_metrics _ _ Hold) Hom) as (q & Hq & Hqid & _).
    rewrite E7 in Hq. injection Hq as <-. eapply updateProducer_ok in E8 as (-> & Hm & _); [done|].
    split; [congruence|done].
Qed.

Lemma updateStatsdConfig_routes oldConfig config old cp :
  wiringOk oldConfig old →
  updateStatsdConfig ser sizeLimits uninit uninitIndices uid anomalyMonitor periodicMonitor timeBaseNs
    currentTimeNs fresh envWith config old = Done cp → routesOk config cp.
Proof using.
  intros Hold H. apply routes_of_parts; [by eapply updateStatsdConfig_ok|..];
    unfold updateStatsdConfig in H; cbv zeta in H;
    apply outcome_bind_Done in H as (mu & E & H); apply outcome_bind_Done in H as (cu & E0 & H);
    apply outcome_bind_Done in H as ([st rs] & _ & H); apply outcome_bind_Done in H as (m2a & _ & H);
    apply outcome_bind_Done in H as ([ms replaced] & E3 & H);
    apply outcome_bind_Done in H as ([[refs am] ps] & _ & H);
    apply outcome_bind_Done in H as ([alarms monitor] & _ & H); injection H as <-; cbn [cp_trackerToCondition cp_listeners].
  - apply orReject_Done in E, E0. apply updateAtomMatchingTrackers_indexed in E. eapply updateConditions_routes; [exact E0|].
    intros id j Hj. rewrite <- (length_fmap am_id), <- (ix_length _ _ _ E). by eapply indexed_lt.
  - unfold updateMetrics in E3. apply outcome_bind_Done in E3 as (sts & _ & E3). apply outcome_bind_Done in E3 as ([[ops m] t] & E7 & E3).
    apply outcome_bind_Done in E3 as (nr & _ & E3). apply outcome_bind_Done in E3 as ([ps0 ls] & E9 & E3).
    injection E3 as <- _. cbn [ms_listeners].
    assert (Hls : Forall (λ l, (l.2 < length (cfg_metrics config))%nat) ls) by (eapply listeners_within; [exact E9|by eapply updateAllMetrics_length]).
    apply Forall_forall. intros l [Hl _]%list_elem_of_In%List.filter_In. rewrite Forall_forall in Hls. by apply Hls, list_elem_of_In.
Qed.
End init_update.
