(* ===== verification/MetricsManager.v ===== *)
(** * The metrics manager (metrics/MetricsManager.{h,cpp})

    One manager holds the matchers, conditions, metrics, alerts and alarms of a configuration, decides
    which log sources may write to it, and routes every event: activations, conditions, metrics.

    What the manager reaches through pointers (the uid map, the states, the puller, the clock) is the
    record [World].  The loops over unordered containers run in the order of the finite maps here, which
    is one of those the source may use.  The statistics of the guardrail and the text of reports are not
    kept.  [None] is a fault of a producer or the end of the fuel of matchers and conditions. *)
From S2P Require Import Prelude Hash UMap FieldValue DimensionKey Matchers LogEvent UidMap MatcherTrackers.
From S2P Require Import Conditions ConfigUpdate Alarms Anomaly State MetricProducer CountMetric MetricShared.
From S2P Require Import EventMetric GaugeMetric ValueMetric DurationTrackers DurationMetric AnyMetric.
From S2P Require Import Pullers MetricsConfig MetricsUpdate.

(** ** Configuration *)

(** The message, with the fields that only the manager reads. *)
Record ManagerConfig := mkManagerConfig {
  mc_config : StatsdConfig;
  mc_ttl_in_seconds : option Z;
  mc_allowed_log_source : list string;
  mc_default_pull_packages : list string;
  mc_pull_atom_packages : list (Z * list string);
  mc_annotation : list (Z * Z);
  mc_hash_strings : bool;
  mc_version_strings : bool;
  mc_installer : bool;
  mc_persist_locally : bool
}.

Definition kMaxMetricCountPerConfig : nat := 1000.
Definition kMaxConditionCountPerConfig : nat := 300.
Definition kMaxMatcherCountPerConfig : nat := 1200.
Definition kMaxAlertCountPerConfig : nat := 100.
Definition kMaxLogSourceCount : nat := 50.
Definition kMaxPullAtomPackages : nat := 100.

Definition NS_PER_SEC : Z := 1000000000.

(** ** State *)

(** The log sources and the uids atoms may be pulled from. *)
Record Sources := mkSources {
  mAllowedUid : list Z;
  mAllowedPkg : list string;
  mAllowedLogSources : gset Z;
  mDefaultPullUids : gset Z;
  mPullAtomUids : gmap Z (gset Z);
  mPullAtomPackages : gmap Z (gset string);
  mCombinedPullAtomUids : gmap Z (gset Z)
}.

Record MetricsManager := mkManager {
  mConfigKey : ConfigKey;
  mConfigValid : bool;
  mParts : ConfigParts;
  mSources : Sources;
  mWhitelistedAtomIds : gset Z;
  mTtlNs : Z;
  mTtlEndNs : Z;
  mLastReportTimeNs : Z;
  mLastReportWallClockNs : Z;
  mAnnotations : list (Z * Z);
  mHashStringsInReport : bool;
  mVersionStringsInReport : bool;
  mInstallerInReport : bool;
  mShouldPersistHistory : bool;
  mm_isActive : bool;
  mIsAlwaysActive : bool
}.

Definition set_valid (b : bool) (m : MetricsManager) : MetricsManager :=
  mkManager (mConfigKey m) b (mParts m) (mSources m) (mWhitelistedAtomIds m) (mTtlNs m) (mTtlEndNs m)
    (mLastReportTimeNs m) (mLastReportWallClockNs m) (mAnnotations m) (mHashStringsInReport m)
    (mVersionStringsInReport m) (mInstallerInReport m) (mShouldPersistHistory m) (mm_isActive m)
    (mIsAlwaysActive m).
Definition set_parts (p : ConfigParts) (m : MetricsManager) : MetricsManager :=
  mkManager (mConfigKey m) (mConfigValid m) p (mSources m) (mWhitelistedAtomIds m) (mTtlNs m) (mTtlEndNs m)
    (mLastReportTimeNs m) (mLastReportWallClockNs m) (mAnnotations m) (mHashStringsInReport m)
    (mVersionStringsInReport m) (mInstallerInReport m) (mShouldPersistHistory m) (mm_isActive m)
    (mIsAlwaysActive m).
Definition set_sources (s : Sources) (m : MetricsManager) : MetricsManager :=
  mkManager (mConfigKey m) (mConfigValid m) (mParts m) s (mWhitelistedAtomIds m) (mTtlNs m) (mTtlEndNs m)
    (mLastReportTimeNs m) (mLastReportWallClockNs m) (mAnnotations m) (mHashStringsInReport m)
    (mVersionStringsInReport m) (mInstallerInReport m) (mShouldPersistHistory m) (mm_isActive m)
    (mIsAlwaysActive m).
Definition set_active_status (active always : bool) (m : MetricsManager) : MetricsManager :=
  mkManager (mConfigKey m) (mConfigValid m) (mParts m) (mSources m) (mWhitelistedAtomIds m) (mTtlNs m)
    (mTtlEndNs m) (mLastReportTimeNs m) (mLastReportWallClockNs m) (mAnnotations m) (mHashStringsInReport m)
    (mVersionStringsInReport m) (mInstallerInReport m) (mShouldPersistHistory m) active always.
Definition set_report_times (elapsed wall : Z) (m : MetricsManager) : MetricsManager :=
  mkManager (mConfigKey m) (mConfigValid m) (mParts m) (mSources m) (mWhitelistedAtomIds m) (mTtlNs m)
    (mTtlEndNs m) elapsed wall (mAnnotations m) (mHashStringsInReport m) (mVersionStringsInReport m)
    (mInstallerInReport m) (mShouldPersistHistory m) (mm_isActive m) (mIsAlwaysActive m).
Definition set_ttlEnd (t : Z) (m : MetricsManager) : MetricsManager :=
  mkManager (mConfigKey m) (mConfigValid m) (mParts m) (mSources m) (mWhitelistedAtomIds m) (mTtlNs m) t
    (mLastReportTimeNs m) (mLastReportWallClockNs m) (mAnnotations m) (mHashStringsInReport m)
    (mVersionStringsInReport m) (mInstallerInReport m) (mShouldPersistHistory m) (mm_isActive m)
    (mIsAlwaysActive m).

Definition set_producers (ps : list Producer) (c : ConfigParts) : ConfigParts :=
  mkConfigParts (cp_allTagIds c) (cp_matchers c) (cp_matcherHashes c) (cp_matcherMap c) (cp_conditions c)
    (cp_conditionHashes c) (cp_conditionMap c) (cp_trackerToCondition c) ps (cp_metricMap c) (cp_tables c)
    (cp_alerts c) (cp_alertMap c) (cp_alarms c) (cp_stateProtoHashes c) (cp_noReport c) (cp_listeners c)
    (cp_periodicMonitor c).
Definition set_conditions (cs : list ConditionTracker) (c : ConfigParts) : ConfigParts :=
  mkConfigParts (cp_allTagIds c) (cp_matchers c) (cp_matcherHashes c) (cp_matcherMap c) cs
    (cp_conditionHashes c) (cp_conditionMap c) (cp_trackerToCondition c) (cp_producers c) (cp_metricMap c)
    (cp_tables c) (cp_alerts c) (cp_alertMap c) (cp_alarms c) (cp_stateProtoHashes c) (cp_noReport c)
    (cp_listeners c) (cp_periodicMonitor c).
Definition set_alarms (alarms : list AlarmTracker) (monitor : option AlarmMonitor) (c : ConfigParts)
    : ConfigParts :=
  mkConfigParts (cp_allTagIds c) (cp_matchers c) (cp_matcherHashes c) (cp_matcherMap c) (cp_conditions c)
    (cp_conditionHashes c) (cp_conditionMap c) (cp_trackerToCondition c) (cp_producers c) (cp_metricMap c)
    (cp_tables c) (cp_alerts c) (cp_alertMap c) alarms (cp_stateProtoHashes c) (cp_noReport c)
    (cp_listeners c) monitor.

Definition mAllMetricProducers (m : MetricsManager) : list Producer := cp_producers (mParts m).

(** ** The world *)

Record World := mkWorld {
  w_uninit : Z;
  w_uidMap : UidMap;
  w_states : StateManager;
  w_pull : Z → Z → option (list LogEvent);
  w_elapsed : Z;
  w_depth : nat
}.

(** What the producers reach, for given matchers and conditions. *)
Definition envOf (w : World) (matchers : list AtomMatchingTracker) (conds : list ConditionTracker)
    : MetricEnv :=
  mkMetricEnv (w_uninit w) (w_states w) conds (w_pull w) (w_elapsed w)
    (λ i event, default kNotComputed
       (matchLogEvent (w_uidMap w) matchers event (initFuel (length matchers)) (Z.of_nat i)))
    (w_depth w).

Definition managerEnv (w : World) (m : MetricsManager) : MetricEnv :=
  envOf w (cp_matchers (mParts m)) (cp_conditions (mParts m)).

(** ** Log sources *)

Definition initAllowedLogSources (u : UidMap) (s : Sources) : Sources :=
  mkSources (mAllowedUid s) (mAllowedPkg s)
    (list_to_set (mAllowedUid s) ∪ ⋃ ((λ pkg, list_to_set (getAppUid pkg u)) <$> mAllowedPkg s))
    (mDefaultPullUids s) (mPullAtomUids s) (mPullAtomPackages s) (mCombinedPullAtomUids s).

(** [mCombinedPullAtomUids\[atomId\].insert(uids)]; the entry comes into being with the first set. *)
Definition addUids (atomId : Z) (uids : gset Z) (m : gmap Z (gset Z)) : gmap Z (gset Z) :=
  <[atomId := default ∅ (m !! atomId) ∪ uids]> m.

Definition initPullAtomSources (u : UidMap) (s : Sources) : Sources :=
  let combined := foldl (λ m '(atomId, uids), addUids atomId uids m) ∅
                    (map_to_list (mPullAtomUids s)) in
  let combined :=
    foldl (λ m '(atomId, packages),
      foldl (λ m pkg, addUids atomId (list_to_set (getAppUid pkg u)) m) m (elements packages))
      combined (map_to_list (mPullAtomPackages s)) in
  mkSources (mAllowedUid s) (mAllowedPkg s) (mAllowedLogSources s) (mDefaultPullUids s) (mPullAtomUids s)
    (mPullAtomPackages s) combined.

(** The sources split into uids with a name and packages. *)
Definition splitSources (sources : list string) : list Z * list string :=
  foldl (λ '(uids, pkgs) source,
    match sAidToUidMapping (U := UidMap) source with
    | Some uid => (uids ++ [uid], pkgs)
    | None => (uids, pkgs ++ [source])
    end) ([], []) sources.

(** The per-atom packages. *)
Definition addPullPackage (atomId : Z) (maps : gmap Z (gset Z) * gmap Z (gset string)) (pkg : string)
    : gmap Z (gset Z) * gmap Z (gset string) :=
  match sAidToUidMapping (U := UidMap) pkg with
  | Some uid => (addUids atomId {[uid]} maps.1, maps.2)
  | None => (maps.1, <[atomId := default ∅ (maps.2 !! atomId) ∪ {[pkg]}]> maps.2)
  end.

(** The sources, and whether the configuration stays valid.  A source without a name in
    [default_pull_packages] is an error and is not counted.  Of the [old] sources, the two derived sets stay
    until they are computed again. *)
Definition createAllLogSourcesFromConfig (u : UidMap) (config : ManagerConfig) (old : Sources)
    : Sources * bool :=
  let '(uids, pkgs) := splitSources (mc_allowed_log_source config) in
  let tooMany := (kMaxLogSourceCount <? length uids + length pkgs)%nat in
  let ok1 := negb (bool_decide (mc_allowed_log_source config = [])) && negb tooMany in
  let defaults := omap (sAidToUidMapping (U := UidMap)) (mc_default_pull_packages config) in
  let ok2 := (length defaults =? length (mc_default_pull_packages config))%nat in
  let '(pullUids, pullPkgs) :=
    foldl (λ maps '(atomId, packages), foldl (addPullPackage atomId) maps packages) (∅, ∅)
      (mc_pull_atom_packages config) in
  let numPullPackages :=
    (length defaults + sum_list_with (λ p : Z * list string, length p.2) (mc_pull_atom_packages config))%nat in
  let ok3 := negb (kMaxPullAtomPackages <? numPullPackages)%nat in
  let s := mkSources uids pkgs (mAllowedLogSources old) (list_to_set defaults) pullUids pullPkgs
             (mCombinedPullAtomUids old) in
  let s := if ok1 then initAllowedLogSources u s else s in
  let s := if ok3 then initPullAtomSources u s else s in
  (s, ok1 && ok2 && ok3).

Definition Sources_new : Sources := mkSources [] [] ∅ ∅ ∅ ∅ ∅.

(** ** Construction and update *)

Definition refreshTtl (currentTimestampNs : Z) (m : MetricsManager) : MetricsManager :=
  if 0 <? mTtlNs m then set_ttlEnd (currentTimestampNs + mTtlNs m) m else m.

Definition isInTtl (timestampNs : Z) (m : MetricsManager) : bool :=
  (mTtlNs m <=? 0) || (timestampNs <? mTtlEndNs m).

Definition ttlOf (config : ManagerConfig) : Z :=
  match mc_ttl_in_seconds config with Some s => s * NS_PER_SEC | None => -1 end.

(** Whether the configuration is small enough. *)
Definition verifyGuardrails (c : ConfigParts) : bool :=
  negb ((kMaxMetricCountPerConfig <? length (cp_producers c))%nat
        || (kMaxConditionCountPerConfig <? length (cp_conditions c))%nat
        || (kMaxMatcherCountPerConfig <? length (cp_matchers c))%nat)
  && negb (kMaxAlertCountPerConfig <? length (cp_alerts c))%nat.

Definition verifyGuardrailsAndUpdateStatsdStats (m : MetricsManager) : MetricsManager :=
  if verifyGuardrails (mParts m) then m else set_valid false m.

(** [mAllMetricProducers\[i\]->isActive()] *)
Definition activeAt (ps : list Producer) (i : nat) : bool :=
  match ps !! i with Some p => isActive (pr_metric p) | None => false end.

Definition initializeConfigActiveStatus (m : MetricsManager) : MetricsManager :=
  let c := mParts m in
  let withActivation := metricsWithActivation (cp_tables c) in
  let always := negb (length withActivation =? length (cp_producers c))%nat
                || (length (cp_producers c) =? 0)%nat in
  set_active_status (foldl (λ active i, active || activeAt (cp_producers c) i) always withActivation) always m.

Section construct.
Context (ser : Serializers) (sizeLimits : gmap Z (Z * Z)) (uninitIndices : Z * Z * Z) (w : World).
Context (anomalyAlarmMonitor periodicAlarmMonitor : option AlarmMonitor) (fresh : Z).

(** The constructor.  [Rejected] is a manager that is not valid because its configuration cannot be read:
    nothing but its validity is looked at. *)
Definition MetricsManager_new (key : ConfigKey) (config : ManagerConfig)
    (timeBaseNs currentTimeNs wallClockNs : Z) : Outcome MetricsManager :=
  parts ← initStatsdConfig ser sizeLimits (w_uninit w) uninitIndices (w_states w) key.1
            anomalyAlarmMonitor periodicAlarmMonitor timeBaseNs currentTimeNs fresh (mc_config config);
  let '(sources, ok) := createAllLogSourcesFromConfig (w_uidMap w) config Sources_new in
  let m := mkManager key ok parts sources
             (list_to_set (cfg_whitelisted_atom_ids (mc_config config))) (ttlOf config) (-1)
             currentTimeNs wallClockNs (mc_annotation config) (mc_hash_strings config)
             (mc_version_strings config) (mc_installer config) (mc_persist_locally config) false false in
  Done (initializeConfigActiveStatus (verifyGuardrailsAndUpdateStatsdStats (refreshTtl timeBaseNs m))).

Definition updateConfig (config : ManagerConfig) (timeBaseNs currentTimeNs : Z) (m : MetricsManager)
    : Outcome MetricsManager :=
  parts ← updateStatsdConfig ser sizeLimits (w_uninit w) uninitIndices (mConfigKey m).1
            anomalyAlarmMonitor periodicAlarmMonitor timeBaseNs currentTimeNs fresh (envOf w)
            (mc_config config) (mParts m);
  let '(sources, ok) := createAllLogSourcesFromConfig (w_uidMap w) config (mSources m) in
  let m := mkManager (mConfigKey m) ok parts sources
             (list_to_set (cfg_whitelisted_atom_ids (mc_config config))) (ttlOf config) (mTtlEndNs m)
             (mLastReportTimeNs m) (mLastReportWallClockNs m) (mc_annotation config)
             (mc_hash_strings config) (mc_version_strings config) (mc_installer config)
             (mc_persist_locally config) (mm_isActive m) (mIsAlwaysActive m) in
  Done (initializeConfigActiveStatus (verifyGuardrailsAndUpdateStatsdStats (refreshTtl currentTimeNs m))).
End construct.

(** ** Calls to all metrics *)

Definition onProducers (f : AnyMetric → AnyMetric) (m : MetricsManager) : MetricsManager :=
  set_parts (set_producers (onMetric f <$> cp_producers (mParts m)) (mParts m)) m.

(** The packages of the sources that concern [apk]. *)
Definition refreshSources (u : UidMap) (apk : string) (s : Sources) : Sources :=
  let s := if bool_decide (apk ∈ mAllowedPkg s) then initAllowedLogSources u s else s in
  if existsb (λ e : Z * gset string, bool_decide (apk ∈ e.2)) (map_to_list (mPullAtomPackages s))
  then initPullAtomSources u s else s.

Definition manager_notifyAppUpgrade (w : World) (eventTimeNs : Z) (apk : string) (m : MetricsManager)
    : MetricsManager :=
  let m := onProducers (any_notifyAppUpgrade (managerEnv w m) eventTimeNs) m in
  set_sources (refreshSources (w_uidMap w) apk (mSources m)) m.

Definition manager_notifyAppRemoved (w : World) (eventTimeNs : Z) (apk : string) (m : MetricsManager)
    : MetricsManager :=
  let m := onProducers (any_notifyAppRemoved (managerEnv w m) eventTimeNs) m in
  set_sources (refreshSources (w_uidMap w) apk (mSources m)) m.

Definition manager_onUidMapReceived (w : World) (m : MetricsManager) : MetricsManager :=
  let s := initPullAtomSources (w_uidMap w) (mSources m) in
  let s := if bool_decide (mAllowedPkg s = []) then s else initAllowedLogSources (w_uidMap w) s in
  set_sources s m.

Definition manager_onStatsdInitCompleted (w : World) (eventTimeNs : Z) (m : MetricsManager)
    : MetricsManager := onProducers (any_onStatsdInitCompleted (managerEnv w m) eventTimeNs) m.

Definition manager_init (w : World) (m : MetricsManager) : MetricsManager :=
  onProducers (any_prepareFirstBucket (managerEnv w m)) m.

Definition getPullAtomUids (atomId : Z) (m : MetricsManager) : list Z :=
  elements (default ∅ (mCombinedPullAtomUids (mSources m) !! atomId))
  ++ elements (mDefaultPullUids (mSources m)).

Definition shouldWriteToDisk (m : MetricsManager) : bool :=
  negb (base.size (cp_noReport (mParts m)) =? length (mAllMetricProducers m))%nat.

Definition manager_dropData (dropTimeNs : Z) (m : MetricsManager) : MetricsManager :=
  onProducers (any_dropData dropTimeNs) m.

Definition manager_byteSize (sizes : ObjectSizes) (m : MetricsManager) : Z :=
  foldl (λ total p, total + any_byteSize sizes (pr_metric p)) 0 (mAllMetricProducers m).

(** ** Reports *)

Definition dumpProducer (env : MetricEnv) (dumpTimeNs : Z) (include_current_partial_bucket erase_data : bool)
    (dumpLatency : DumpLatency) (noReport : gset Z) (p : Producer) : option AnyReport * Producer :=
  if bool_decide (getMetricId (pr_metric p) ∈ noReport)
  then (None, onMetric (any_clearPastBuckets dumpTimeNs) p)
  else
    let (r, metric) := any_onDumpReport env dumpTimeNs include_current_partial_bucket erase_data dumpLatency
                         (pr_metric p) in
    (Some r, onMetric (λ _, metric) p).

(** The reports of the metrics and the annotations. *)
Definition manager_onDumpReport (w : World) (dumpTimeStampNs wallClockNs : Z)
    (include_current_partial_bucket erase_data : bool) (dumpLatency : DumpLatency) (m : MetricsManager)
    : list AnyReport * list (Z * Z) * MetricsManager :=
  let dumped := dumpProducer (managerEnv w m) dumpTimeStampNs include_current_partial_bucket erase_data
                  dumpLatency (cp_noReport (mParts m)) <$> mAllMetricProducers m in
  let m := set_parts (set_producers dumped.*2 (mParts m)) m in
  let m := if erase_data then set_report_times dumpTimeStampNs wallClockNs m else m in
  (omap fst dumped, mAnnotations m, m).

(** ** Events *)

Definition checkLogCredentials (event : LogEvent) (m : MetricsManager) : bool :=
  bool_decide (GetTagId event ∈ mWhitelistedAtomIds m)
  || bool_decide (GetUid event ∈ mAllowedLogSources (mSources m)).

(** [event.GetLong(key, &err)]: [None] when [err] is set; a negative position becomes a large one. *)
Definition event_GetLong (key : Z) (event : LogEvent) : option Z :=
  match findValue (u64 key) (getValues event) with
  | Some (VLONG x) | Some (VINT x) => Some x
  | _ => None
  end.

Definition event_size (event : LogEvent) : Z := Z.of_nat (length (getValues event)).

(** The numbers of the two atoms come with the generated list of atoms. *)
Record CheckedAtoms := mkCheckedAtoms { APP_BREADCRUMB_REPORTED : Z; DAVEY_OCCURRED : Z }.

Definition eventSanityCheck (atoms : CheckedAtoms) (u : UidMap) (event : LogEvent) : bool :=
  if GetTagId event =? APP_BREADCRUMB_REPORTED atoms then
    match event_GetLong (event_size event - 2) event with
    | None => false
    | Some appHookUid =>
        let loggerUid := getHostUidOrSelf (GetUid event) u in
        if negb (loggerUid =? appHookUid) && negb (loggerUid =? AID_STATSD) then false
        else
          match event_GetLong (event_size event) event with
          | None => false
          | Some appHookState => negb ((appHookState <? 0) || (3 <? appHookState))
          end
    end
  else if GetTagId event =? DAVEY_OCCURRED atoms then
    match event_GetLong 1 event with
    | None => false
    | Some jankUid =>
        let loggerUid := GetUid event in
        if negb (loggerUid =? jankUid) && negb (loggerUid =? AID_STATSD) then false
        else
          match event_GetLong (event_size event) event with
          | None => false
          | Some duration => negb (100000 <? duration)
          end
    end
  else true.

(** *** The steps of [onLogEvent]

    A producer is called by its index; the indices of the tables are those of producers, as the invariant
    of the configuration says. *)

Definition onProducerAt (f : AnyMetric → AnyMetric) (i : nat) (ps : list Producer) : list Producer :=
  alter (onMetric f) i ps.

(** The pairs of a table's matched trackers and their metrics, in the order of the loops. *)
Definition matchedRoutes (matcherCache : list MatchingState) (table : gmap nat (list nat))
    : list (nat * nat) :=
  flat_map (λ it : nat * list nat,
    if bool_decide (resultAt matcherCache it.1 = kMatched) then (it.1,.) <$> it.2 else [])
    (map_to_list table).

Section steps.
Context (env : MetricEnv) (eventTimeNs : Z).

(** All metrics with activations, and those still active. *)
Definition flushExpired (withActivation : list nat) (ps : list Producer) : list Producer * gset nat :=
  foldl (λ '(ps, activeMetricsIndices) i,
    let ps := onProducerAt (flushIfExpire (H := any_metric_ops env) eventTimeNs) i ps in
    (ps, if activeAt ps i then {[i]} ∪ activeMetricsIndices else activeMetricsIndices)) (ps, ∅)
    withActivation.

(** The producers, and the metrics that received a cancellation. *)
Definition cancelActivations (routes : list (nat * nat)) (ps : list Producer) : list Producer * gset nat :=
  foldl (λ '(ps, canceled) '(tracker, i),
    (onProducerAt (cancelEventActivationLocked (H := any_metric_ops env) (Z.of_nat tracker)) i ps,
     {[i]} ∪ canceled)) (ps, ∅) routes.

Definition flushCanceled (canceled activeMetricsIndices : gset nat) (ps : list Producer)
    : list Producer * gset nat :=
  foldl (λ '(ps, activeMetricsIndices) i,
    let ps := onProducerAt (flushIfExpire (H := any_metric_ops env) eventTimeNs) i ps in
    (ps, if activeAt ps i then activeMetricsIndices else activeMetricsIndices ∖ {[i]}))
    (ps, activeMetricsIndices) (elements canceled).

Definition activateMetrics (routes : list (nat * nat)) (active : bool) (ps : list Producer)
    : list Producer * bool :=
  foldl (λ '(ps, active) '(tracker, i),
    let ps := onProducerAt (activateLocked (H := any_metric_ops env) (Z.of_nat tracker) eventTimeNs) i ps in
    (ps, active || activeAt ps i)) (ps, active) routes.

(** A metric without slices gets the new condition, another one asks for what it needs. *)
Definition notifyCondition (condition : ConditionState) (i : nat) (ps : list Producer) : list Producer :=
  onProducerAt (λ metric,
    let c := negb (cs_value condition =? 0) in
    if negb (isConditionSliced metric) then any_onConditionChanged env c eventTimeNs metric
    else any_onSlicedConditionMayChange env c eventTimeNs metric) i ps.

Definition notifyConditions (conditionToMetric : gmap nat (list nat)) (caches : EvalCaches)
    (ps : list Producer) : list Producer :=
  foldl (λ ps i,
    if default false (ec_changed caches !! i) then
      foldl (λ ps metricIndex, notifyCondition (conditionAt (ec_condition caches) i) metricIndex ps) ps
        (default [] (conditionToMetric !! i))
    else ps) ps (seq 0 (length (ec_changed caches))).

(** [None]: the fault of a producer. *)
Definition notifyMatched (event : LogEvent) (tracker metricIndex : nat) (ps : list Producer)
    : option (list Producer) :=
  match ps !! metricIndex with
  | None => Some ps
  | Some p =>
      metric ← any_onMatchedLogEvent env tracker event (pr_metric p);
      Some (<[metricIndex := onMetric (λ _, metric) p]> ps)
  end.

Definition notifyMatchedMetrics (event : LogEvent) (trackerToMetric : gmap nat (list nat))
    (matcherCache : list MatchingState) (ps : list Producer) : option (list Producer) :=
  foldl (λ ps i,
    if bool_decide (resultAt matcherCache i = kMatched) then
      foldl (λ ps metricIndex, ps ← ps; notifyMatched event i metricIndex ps) ps
        (default [] (trackerToMetric !! i))
    else ps) (Some ps) (seq 0 (length matcherCache)).
End steps.

Definition conditionToBeEvaluated (trackerToCondition : gmap Z (list nat)) (matcherCache : list MatchingState)
    (n : nat) : list bool :=
  foldl (λ bits (it : Z * list nat),
    if matchedAt matcherCache it.1 then foldl (λ bits i, <[i := true]> bits) bits it.2 else bits)
    (replicate n false) (map_to_list trackerToCondition).

(** The event after the checks.  The conditions change while the metrics are told, so the environment of the
    last steps has the new ones. *)
Definition processLogEvent (w : World) (event : LogEvent) (m : MetricsManager) : option MetricsManager :=
  let c := mParts m in
  let t := cp_tables c in
  let eventTimeNs := GetElapsedTimestampNs event in
  let env := managerEnv w m in
  let (ps, active) := flushExpired env eventTimeNs (metricsWithActivation t) (cp_producers c) in
  let m := set_active_status (mIsAlwaysActive m || negb (bool_decide (active = ∅))) (mIsAlwaysActive m)
             (set_parts (set_producers ps c) m) in
  if negb (bool_decide (GetTagId event ∈ cp_allTagIds c)) then Some m
  else
    matcherCache ← evaluateAllMatchers (w_uidMap w) (cp_matchers c) event (initFuel (length (cp_matchers c)));
    let (ps, canceled) :=
      cancelActivations env (matchedRoutes matcherCache (deactivationAtomTrackerToMetricMap t)) ps in
    let (ps, active) := flushCanceled env eventTimeNs canceled active ps in
    let isActive := mIsAlwaysActive m || negb (bool_decide (active = ∅)) in
    let (ps, isActive) :=
      activateMetrics env eventTimeNs (matchedRoutes matcherCache (activationAtomTrackerToMetricMap t))
        isActive ps in
    '(conditions, caches) ←
      evaluateConditions event matcherCache (initFuel (length (cp_conditions c)))
        (conditionToBeEvaluated (cp_trackerToCondition c) matcherCache (length (cp_conditions c)))
        (cp_conditions c);
    let env := envOf w (cp_matchers c) conditions in
    let ps := notifyConditions env eventTimeNs (conditionToMetricMap t) caches ps in
    ps ← notifyMatchedMetrics env event (trackerToMetricMap t) matcherCache ps;
    Some (set_active_status isActive (mIsAlwaysActive m)
            (set_parts (set_producers ps (set_conditions conditions c)) m)).

Definition metrics_onLogEvent (atoms : CheckedAtoms) (w : World) (event : LogEvent) (m : MetricsManager)
    : option MetricsManager :=
  if negb (mConfigValid m) then Some m
  else if negb (checkLogCredentials event m) then Some m
  else if negb (eventSanityCheck atoms (w_uidMap w) event) then Some m
  else processLogEvent w event m.

(** ** Alarms *)

(** One anomaly tracker; one that is not for a duration has no alarms. *)
Definition alertAlarmsFired (timestampNs : Z) (s : list Producer * list InternalAlarm) (r : AlertRef)
    : list Producer * list InternalAlarm :=
  match alertAt s.1 r with
  | Some (DurationAlert t) =>
      let (t, fired) := duration_informAlarmsFired timestampNs s.2 t in
      (onProducerAt (any_setTracker (ar_position r) (DurationAlert t)) (ar_metric r) s.1, fired)
  | _ => s
  end.

(** The manager and the alarms no tracker had. *)
Definition onAnomalyAlarmFired (timestampNs : Z) (alarmSet : list InternalAlarm) (m : MetricsManager)
    : MetricsManager * list InternalAlarm :=
  let (ps, fired) :=
    foldl (alertAlarmsFired timestampNs) (cp_producers (mParts m), alarmSet) (cp_alerts (mParts m)) in
  (set_parts (set_producers ps (mParts m)) m, fired).

(** Each tracker that fires makes an alarm, at the next address from [fresh]; the last result says which
    trackers triggered their subscribers. *)
Fixpoint alarmsFired (timestampNs fresh : Z) (ts : list AlarmTracker) (fired : list InternalAlarm)
    (monitor : option AlarmMonitor)
    : list AlarmTracker * list InternalAlarm * option AlarmMonitor * list bool :=
  match ts with
  | [] => ([], fired, monitor, [])
  | t :: ts =>
      let '(t, fired, monitor, triggered) := informAlarmsFired fresh timestampNs fired t monitor in
      let '(ts, fired, monitor, rest) := alarmsFired timestampNs (fresh + 1) ts fired monitor in
      (t :: ts, fired, monitor, triggered :: rest)
  end.

Definition onPeriodicAlarmFired (timestampNs fresh : Z) (alarmSet : list InternalAlarm) (m : MetricsManager)
    : MetricsManager * list InternalAlarm * list bool :=
  let c := mParts m in
  let '(ts, fired, monitor, triggered) :=
    alarmsFired timestampNs fresh (cp_alarms c) alarmSet (cp_periodicMonitor c) in
  (set_parts (set_alarms ts monitor c) m, fired, triggered).

(** ** What survives a restart *)

(** The message of a metric of the saved configuration. *)
Record ActiveMetric := mkActiveMetric { am_metricId : Z; am_activations : list ActiveEventActivation }.

Definition loadActiveMetric (env : MetricEnv) (activeMetric : ActiveMetric) (currentTimeNs : Z)
    (s : list Producer * bool) (i : nat) : list Producer * bool :=
  match s.1 !! i with
  | None => s
  | Some p =>
      if getMetricId (pr_metric p) =? am_metricId activeMetric then
        let ps := onProducerAt
                    (loadActiveMetricLocked (H := any_metric_ops env) (am_activations activeMetric) currentTimeNs)
                    i s.1 in
        (ps, s.2 || activeAt ps i)
      else s
  end.

Definition loadActiveConfig (w : World) (config : list ActiveMetric) (currentTimeNs : Z) (m : MetricsManager)
    : MetricsManager :=
  let c := mParts m in
  let (ps, active) :=
    foldl (λ s activeMetric,
      foldl (loadActiveMetric (managerEnv w m) activeMetric currentTimeNs) s
        (metricsWithActivation (cp_tables c))) (cp_producers c, mm_isActive m) config in
  set_active_status active (mIsAlwaysActive m) (set_parts (set_producers ps c) m).

(** The id of the configuration, its uid and the metrics. *)
Definition writeActiveConfigToProtoOutputStream (w : World) (currentTimeNs : Z) (reason : DumpReportReason)
    (m : MetricsManager) : Z * Z * list ActiveMetric :=
  ((mConfigKey m).2, (mConfigKey m).1,
   omap (λ i, p ← mAllMetricProducers m !! i;
              Some (mkActiveMetric (getMetricId (pr_metric p))
                      (writeActiveMetricToProtoOutputStream (H := any_metric_ops (managerEnv w m))
                         currentTimeNs reason (pr_metric p))))
     (metricsWithActivation (cp_tables (mParts m)))).

Definition alertAtRef (m : MetricsManager) (r : AlertRef) : option AnomalyTracker :=
  alert_base <$> alertAt (mAllMetricProducers m) r.

(** The metadata of the alerts; an alert that writes nothing is taken out again. *)
Definition writeMetadataToProto (currentWallClockTimeNs systemElapsedTimeNs : Z) (m : MetricsManager)
    : list (Z * AlertMetadata) :=
  omap (λ r, t ← alertAtRef m r;
             let d := writeAlertMetadataToProto currentWallClockTimeNs systemElapsedTimeNs t in
             if bool_decide (d = []) then None else Some (alert_id (mAlert t), d))
    (cp_alerts (mParts m)).

Definition set_alert_base (t : AnomalyTracker) (a : AnyAlert) : AnyAlert :=
  match a with
  | PlainAlert _ => PlainAlert t
  | DurationAlert d => DurationAlert (mkDurationAnomaly t (mAlarms d) (mAlarmMonitor d))
  end.

Definition loadAlert (currentWallClockTimeNs systemElapsedTimeNs : Z) (c : ConfigParts)
    (alertMetadata : Z * AlertMetadata) : ConfigParts :=
  match cp_alertMap c !! alertMetadata.1 with
  | None => c
  | Some i =>
      match (r ← cp_alerts c !! i; a ← alertAt (cp_producers c) r; Some (r, a)) with
      | None => c
      | Some (r, a) =>
          let t := loadAlertMetadata alertMetadata.2 currentWallClockTimeNs systemElapsedTimeNs (alert_base a) in
          set_producers
            (onProducerAt (any_setTracker (ar_position r) (set_alert_base t a)) (ar_metric r)
               (cp_producers c)) c
      end
  end.

Definition loadMetadata (metadata : list (Z * AlertMetadata))
    (currentWallClockTimeNs systemElapsedTimeNs : Z) (m : MetricsManager) : MetricsManager :=
  set_parts (foldl (loadAlert currentWallClockTimeNs systemElapsedTimeNs) (mParts m) metadata) m.
