(* ===== verification/MetricsManagerFacts.v ===== *)
(** * Facts on the metrics manager

    An event is a sequence of calls to single metrics, which the configuration determines; the wiring of the
    parts survives every operation; the manager is active exactly when it says so. *)
From S2P Require Import Prelude Hash UMap FieldValue DimensionKey Matchers LogEvent UidMap MatcherTrackers.
From S2P Require Import Conditions ConditionsFacts ConfigUpdate Alarms Anomaly State MetricProducer.
From S2P Require Import MetricProducerFacts CountMetric MetricShared EventMetric GaugeMetric ValueMetric.
From S2P Require Import DurationTrackers DurationMetric AnyMetric AnyMetricFacts MetricsConfig MetricsUpdate.
From S2P Require Import MetricsConfigFacts ConfigParts MetricsManager.

(** ** The calls of an event *)

(** What [onLogEvent] calls on a metric. *)
Inductive MetricCall :=
  | CallFlushIfExpire
  | CallCancel (tracker : nat)
  | CallActivate (tracker : nat)
  | CallCondition (condition : ConditionState)
  | CallMatched (tracker : nat).

(** [env] holds when the activations change, [env'] once the conditions are evaluated. *)
Definition runCall (env env' : MetricEnv) (event : LogEvent) (m : AnyMetric) (c : MetricCall)
    : option AnyMetric :=
  let t := GetElapsedTimestampNs event in
  match c with
  | CallFlushIfExpire => Some (flushIfExpire (H := any_metric_ops env) t m)
  | CallCancel j => Some (cancelEventActivationLocked (H := any_metric_ops env) (Z.of_nat j) m)
  | CallActivate j => Some (activateLocked (H := any_metric_ops env) (Z.of_nat j) t m)
  | CallCondition s =>
      Some (if negb (isConditionSliced m)
            then any_onConditionChanged env' (negb (cs_value s =? 0)) t m
            else any_onSlicedConditionMayChange env' (negb (cs_value s =? 0)) t m)
  | CallMatched j => any_onMatchedLogEvent env' j event m
  end.

(** The calls one metric gets, in order. *)
Definition runCalls (env env' : MetricEnv) (event : LogEvent) (calls : list MetricCall) (m : AnyMetric)
    : option AnyMetric :=
  foldl (λ m c, m ← m; runCall env env' event m c) (Some m) calls.

(** Calls with the metrics they go to. *)
Definition Trace : Type := list (nat * MetricCall).

Definition runAt (env env' : MetricEnv) (event : LogEvent) (ps : list Producer) (x : nat * MetricCall)
    : option (list Producer) :=
  match ps !! x.1 with
  | None => Some ps
  | Some p => m ← runCall env env' event (pr_metric p) x.2; Some (<[x.1 := onMetric (λ _, m) p]> ps)
  end.

Definition run (env env' : MetricEnv) (event : LogEvent) (trace : Trace) (ps : option (list Producer))
    : option (list Producer) :=
  foldl (λ ps x, ps ← ps; runAt env env' event ps x) ps trace.

Definition flushCalls (ks : list nat) : Trace := (λ i, (i, CallFlushIfExpire)) <$> ks.
Definition routeCalls (c : nat → MetricCall) (routes : list (nat * nat)) : Trace :=
  (λ r : nat * nat, (r.2, c r.1)) <$> routes.
Definition callsAt (table : gmap nat (list nat)) (c : MetricCall) (k : nat) : Trace :=
  (λ i, (i, c)) <$> default [] (table !! k).
Definition conditionCalls (table : gmap nat (list nat)) (caches : EvalCaches) : Trace :=
  flat_map (λ k, if default false (ec_changed caches !! k)
                 then callsAt table (CallCondition (conditionAt (ec_condition caches) k)) k else [])
    (seq 0 (length (ec_changed caches))).
Definition matchedCalls (table : gmap nat (list nat)) (matcherCache : list MatchingState) : Trace :=
  flat_map (λ k, if bool_decide (resultAt matcherCache k = kMatched)
                 then callsAt table (CallMatched k) k else []) (seq 0 (length matcherCache)).

(** The calls that change activations, and all calls after the expiry of activations. *)
Definition activationTrace (t : MetricTables) (matcherCache : list MatchingState) : Trace :=
  let canceled := matchedRoutes matcherCache (deactivationAtomTrackerToMetricMap t) in
  routeCalls CallCancel canceled
  ++ flushCalls (elements (list_to_set canceled.*2 : gset nat))
  ++ routeCalls CallActivate (matchedRoutes matcherCache (activationAtomTrackerToMetricMap t)).
Definition eventTrace (t : MetricTables) (matcherCache : list MatchingState) (caches : EvalCaches) : Trace :=
  activationTrace t matcherCache
  ++ conditionCalls (conditionToMetricMap t) caches ++ matchedCalls (trackerToMetricMap t) matcherCache.

(** The calls to metric [i]. *)
Definition callsTo (i : nat) (trace : Trace) : list MetricCall :=
  omap (λ x : nat * MetricCall, if bool_decide (x.1 = i) then Some x.2 else None) trace.

Section run.
Context (env env' : MetricEnv) (event : LogEvent).
Abbreviation runs := (run env env' event).

Lemma runs_app l l' ps : runs (l ++ l') ps = runs l' (runs l ps).
Proof using. apply foldl_app. Qed.
Lemma run_None l : runs l None = None.
Proof using. by induction l. Qed.

(** A trace acts on each metric by the calls to that metric. *)
Lemma run_lookup l ps ps' i p :
  runs l (Some ps) = Some ps' → ps !! i = Some p →
  ∃ m, runCalls env env' event (callsTo i l) (pr_metric p) = Some m ∧ ps' !! i = Some (onMetric (λ _, m) p).
Proof using.
  revert ps p. induction l as [|[k c] l IH]; intros ps p Hr Hp.
  { injection Hr as <-. exists (pr_metric p). split; [done|]. rewrite Hp. by destruct p. }
  change (runs l (runAt env env' event ps (k, c)) = Some ps') in Hr.
  destruct (runAt env env' event ps (k, c)) as [ps1|] eqn:E; [|by rewrite run_None in Hr].
  unfold runAt in E. cbn [fst snd] in E. unfold callsTo. cbn [omap list_omap fst snd].
  case_bool_decide as Hki; [subst k|].
  - rewrite Hp in E. destruct (runCall env env' event (pr_metric p) c) as [m|] eqn:Em; [|done].
    cbn in E. injection E as <-.
    destruct (IH _ (onMetric (λ _, m) p) Hr) as (m' & Hm' & Hl).
    { apply list_lookup_insert_eq. by eapply lookup_lt_Some. }
    exists m'. split; [|done]. unfold runCalls. cbn. rewrite Em. exact Hm'.
  - apply (IH ps1); [done|]. destruct (ps !! k) as [q|]; [|by injection E as <-].
    destruct (runCall _ _ _ _ _) as [m|]; [|done]. injection E as <-. by rewrite list_lookup_insert_ne.
Qed.

Lemma onProducerAt_run f c i ps :
  (∀ m, runCall env env' event m c = Some (f m)) → Some (onProducerAt f i ps) = runAt env env' event ps (i, c).
Proof using.
  intros Hf. unfold runAt, onProducerAt. cbn [fst snd].
  destruct (ps !! i) as [p|] eqn:Hp.
  - rewrite Hf. cbn. f_equal. apply list_eq. intros k. destruct (decide (k = i)) as [->|Hne].
    + rewrite list_lookup_alter_eq, Hp, list_lookup_insert_eq by (by eapply lookup_lt_Some). done.
    + by rewrite list_lookup_alter_ne, list_lookup_insert_ne.
  - f_equal. apply list_eq. intros k. destruct (decide (k = i)) as [->|Hne];
      [by rewrite list_lookup_alter_eq, Hp|by rewrite list_lookup_alter_ne].
Qed.

Lemma flushExpired_run ks ps :
  Some (flushExpired env (GetElapsedTimestampNs event) ks ps).1 = runs (flushCalls ks) (Some ps).
Proof using.
  unfold flushExpired. generalize (∅ : gset nat). revert ps.
  induction ks as [|i ks IH]; intros ps a; [done|]. cbn [foldl]. rewrite IH.
  change (runs (flushCalls (i :: ks)) (Some ps)) with
    (runs (flushCalls ks) (runAt env env' event ps (i, CallFlushIfExpire))).
  by rewrite <- (onProducerAt_run (flushIfExpire (H := any_metric_ops env) (GetElapsedTimestampNs event))).
Qed.
Lemma flushCanceled_run canceled a ps :
  Some (flushCanceled env (GetElapsedTimestampNs event) canceled a ps).1
  = runs (flushCalls (elements canceled)) (Some ps).
Proof using.
  unfold flushCanceled. revert a ps. induction (elements canceled) as [|i ks IH]; intros a ps; [done|].
  cbn [foldl]. rewrite IH.
  change (runs (flushCalls (i :: ks)) (Some ps)) with
    (runs (flushCalls ks) (runAt env env' event ps (i, CallFlushIfExpire))).
  by rewrite <- (onProducerAt_run (flushIfExpire (H := any_metric_ops env) (GetElapsedTimestampNs event))).
Qed.
Lemma cancelActivations_run routes ps :
  Some (cancelActivations env routes ps).1 = runs (routeCalls CallCancel routes) (Some ps) ∧
  (cancelActivations env routes ps).2 = list_to_set routes.*2.
Proof using.
  unfold cancelActivations. rewrite <- (union_empty_r_L (list_to_set (routes.*2))). generalize (∅ : gset nat).
  revert ps. induction routes as [|[j i] routes IH]; intros ps a; [split; [done|set_solver]|].
  cbn [foldl]. destruct (IH (onProducerAt (cancelEventActivationLocked (H := any_metric_ops env) (Z.of_nat j)) i ps)
    ({[i]} ∪ a)) as [H1 H2]. rewrite H1, H2. split; [|set_solver].
  change (runs (routeCalls CallCancel ((j, i) :: routes)) (Some ps)) with
    (runs (routeCalls CallCancel routes) (runAt env env' event ps (i, CallCancel j))).
  by rewrite <- (onProducerAt_run (cancelEventActivationLocked (H := any_metric_ops env) (Z.of_nat j))).
Qed.
Lemma activateMetrics_run routes b ps :
  Some (activateMetrics env (GetElapsedTimestampNs event) routes b ps).1
  = runs (routeCalls CallActivate routes) (Some ps).
Proof using.
  unfold activateMetrics. revert b ps. induction routes as [|[j i] routes IH]; intros b ps; [done|].
  cbn [foldl]. rewrite IH.
  change (runs (routeCalls CallActivate ((j, i) :: routes)) (Some ps)) with
    (runs (routeCalls CallActivate routes) (runAt env env' event ps (i, CallActivate j))).
  by rewrite <- (onProducerAt_run
    (activateLocked (H := any_metric_ops env) (Z.of_nat j) (GetElapsedTimestampNs event))).
Qed.
Lemma notifyConditions_run table caches ps :
  Some (notifyConditions env' (GetElapsedTimestampNs event) table caches ps)
  = runs (conditionCalls table caches) (Some ps).
Proof using.
  unfold notifyConditions, conditionCalls. revert ps. generalize (seq 0 (length (ec_changed caches))).
  induction l as [|k l IH]; intros ps; [done|]. cbn [foldl flat_map]. rewrite IH, runs_app. f_equal.
  destruct (default false _); [|done]. unfold callsAt. clear IH. generalize (default [] (table !! k)). intros ks.
  revert ps. induction ks as [|i ks IHis]; intros ps; [done|]. cbn [foldl fmap list_fmap]. rewrite IHis.
  change (runs (?x :: ?l) (Some ps)) with (runs l (runAt env env' event ps x)). f_equal.
  by apply onProducerAt_run.
Qed.
Lemma notifyMatchedMetrics_run table mc ps :
  notifyMatchedMetrics env' event table mc ps = runs (matchedCalls table mc) (Some ps).
Proof using.
  unfold notifyMatchedMetrics, matchedCalls. generalize (Some ps). generalize (seq 0 (length mc)).
  induction l as [|k l IH]; intros ops; [done|]. cbn [foldl flat_map]. rewrite runs_app, <- IH. f_equal.
  destruct (bool_decide _); [|done]. unfold callsAt. clear IH. generalize (default [] (table !! k)). intros ks.
  revert ops. induction ks as [|i ks IHis]; intros ops; [done|]. cbn [foldl fmap list_fmap]. rewrite IHis.
  by destruct ops.
Qed.
End run.

(** ** An event is its trace *)

(** The trace of an event that passed the checks, and the conditions after it. *)
Definition eventCalls (w : World) (event : LogEvent) (m : MetricsManager)
    : option (Trace * list ConditionTracker) :=
  let c := mParts m in
  let expiry := flushCalls (metricsWithActivation (cp_tables c)) in
  if negb (bool_decide (GetTagId event ∈ cp_allTagIds c)) then Some (expiry, cp_conditions c)
  else
    matcherCache ← evaluateAllMatchers (w_uidMap w) (cp_matchers c) event (initFuel (length (cp_matchers c)));
    '(conditions, caches) ←
      evaluateConditions event matcherCache (initFuel (length (cp_conditions c)))
        (conditionToBeEvaluated (cp_trackerToCondition c) matcherCache (length (cp_conditions c)))
        (cp_conditions c);
    Some (expiry ++ eventTrace (cp_tables c) matcherCache caches, conditions).

Definition accepts (atoms : CheckedAtoms) (w : World) (event : LogEvent) (m : MetricsManager) : bool :=
  mConfigValid m && checkLogCredentials event m && eventSanityCheck atoms (w_uidMap w) event.

Lemma onLogEvent_accepted atoms w event m :
  metrics_onLogEvent atoms w event m = if accepts atoms w event m then processLogEvent w event m else Some m.
Proof.
  unfold metrics_onLogEvent, accepts.
  by destruct (mConfigValid m), (checkLogCredentials event m), (eventSanityCheck atoms (w_uidMap w) event).
Qed.

(** [m'] is [m] but for the producers, the conditions and whether it is active. *)
Definition eventFrame (m m' : MetricsManager) : Prop :=
  m' = set_active_status (mm_isActive m') (mIsAlwaysActive m)
         (set_parts (set_producers (cp_producers (mParts m'))
                       (set_conditions (cp_conditions (mParts m')) (mParts m))) m).

Lemma processLogEvent_run w event m :
  match eventCalls w event m with
  | None => processLogEvent w event m = None
  | Some (trace, conditions) =>
      let ps := run (managerEnv w m) (envOf w (cp_matchers (mParts m)) conditions) event trace
                  (Some (mAllMetricProducers m)) in
      match processLogEvent w event m with
      | None => ps = None
      | Some m' => ps = Some (mAllMetricProducers m') ∧ cp_conditions (mParts m') = conditions
                   ∧ eventFrame m m'
      end
  end.
Proof.
  unfold eventCalls, processLogEvent. cbv zeta.
  set (t := cp_tables (mParts m)). set (env := managerEnv w m).
  pose proof (λ env', flushExpired_run env env' event (metricsWithActivation t) (cp_producers (mParts m))) as Hf.
  destruct (flushExpired env _ (metricsWithActivation t) _) as [ps1 active]. cbn [fst] in Hf.
  destruct (negb (bool_decide (GetTagId event ∈ _))).
  { unfold mAllMetricProducers. rewrite <- Hf. split; [done|]. split; [done|]. unfold eventFrame. by destruct m as [? ? []]. }
  destruct (evaluateAllMatchers _ _ _ _) as [mc|]; [|done]. cbn [mbind option_bind].
  set (dr := matchedRoutes mc (deactivationAtomTrackerToMetricMap t)).
  pose proof (λ env', cancelActivations_run env env' event dr ps1) as Hc.
  destruct (cancelActivations env dr ps1) as [ps2 canceled]. cbn [fst snd] in Hc.
  pose proof (λ env', flushCanceled_run env env' event canceled active ps2) as Hfc.
  destruct (flushCanceled env _ canceled active ps2) as [ps3 active2]. cbn [fst] in Hfc.
  set (ar := matchedRoutes mc (activationAtomTrackerToMetricMap t)).
  set (b := mIsAlwaysActive _ || _).
  pose proof (λ env', activateMetrics_run env env' event ar b ps3) as Ha.
  destruct (activateMetrics env _ ar b ps3) as [ps4 isActive]. cbn [fst] in Ha.
  destruct (evaluateConditions _ _ _ _ _) as [[conds caches]|]; [|done]. cbn [mbind option_bind].
  set (env' := envOf w _ conds). specialize (Hf env'). destruct (Hc env') as [Hc1 Hc2].
  specialize (Hfc env'). specialize (Ha env').
  assert (Hrun : run env env' event (flushCalls (metricsWithActivation t) ++ eventTrace t mc caches)
      (Some (mAllMetricProducers m))
    = notifyMatchedMetrics env' event (trackerToMetricMap t) mc
        (notifyConditions env' (GetElapsedTimestampNs event) (conditionToMetricMap t) caches ps4)).
  { rewrite (notifyMatchedMetrics_run env), (notifyConditions_run env), Ha, Hfc, Hc2, Hc1, Hf.
    unfold eventTrace, activationTrace. by rewrite !runs_app. }
  rewrite Hrun. destruct (notifyMatchedMetrics _ _ _ _ _) as [ps5|]; [|done]. cbn.
  split; [done|]. split; [done|]. unfold eventFrame. by destruct m as [? ? []].
Qed.

(** A trace that stops has stopped at a metric. *)
Lemma run_stops env env' event l : ∀ ps,
  run env env' event l (Some ps) = None →
  ∃ i p, ps !! i = Some p ∧ runCalls env env' event (callsTo i l) (pr_metric p) = None.
Proof.
  induction l as [|[k c] l IH]; intros ps H; [done|].
  change (run env env' event l (runAt env env' event ps (k, c)) = None) in H.
  destruct (runAt env env' event ps (k, c)) as [ps1|] eqn:E; unfold runAt in E; cbn [fst snd] in E.
  - apply IH in H as (i & p & Hp & Hn). unfold callsTo. cbn [omap list_omap fst snd].
    destruct (ps !! k) as [q|] eqn:Hq.
    + destruct (runCall _ _ _ _ _) as [m|] eqn:Em; [|done]. injection E as <-.
      destruct (decide (i = k)) as [->|Hne].
      * rewrite list_lookup_insert_eq in Hp by (by eapply lookup_lt_Some). injection Hp as <-.
        exists k, q. split; [done|]. rewrite bool_decide_true by done. unfold runCalls. cbn. by rewrite Em.
      * rewrite list_lookup_insert_ne in Hp by done. exists i, p. by rewrite bool_decide_false.
    + injection E as <-. exists i, p. split; [done|]. rewrite bool_decide_false by congruence. done.
  - destruct (ps !! k) as [p|] eqn:Hp; [|done]. destruct (runCall _ _ _ _ _) as [m|] eqn:Em; [done|].
    exists k, p. split; [done|]. unfold callsTo. cbn [omap list_omap fst snd]. rewrite bool_decide_true by done.
    unfold runCalls. cbn. rewrite Em. clear. induction (omap _ l); done.
Qed.

(** C8: An event that a manager accepts acts on every metric by itself: there is a sequence of calls to single
    metrics such that each metric afterwards is what its own calls make of it, whatever happens to the
    others; the manager fails only if the evaluation of matchers and conditions or one metric fails.
    Log sources, tables and everything else stay as they were. *)
Theorem event_acts_per_metric atoms w event m :
  accepts atoms w event m = true →
  match eventCalls w event m with
  | None => metrics_onLogEvent atoms w event m = None
  | Some (trace, conditions) =>
      let env := managerEnv w m in
      let env' := envOf w (cp_matchers (mParts m)) conditions in
      match metrics_onLogEvent atoms w event m with
      | None => ∃ i p, mAllMetricProducers m !! i = Some p ∧
                  runCalls env env' event (callsTo i trace) (pr_metric p) = None
      | Some m' =>
          (∀ i p, mAllMetricProducers m !! i = Some p →
             ∃ metric, runCalls env env' event (callsTo i trace) (pr_metric p) = Some metric ∧
               mAllMetricProducers m' !! i = Some (onMetric (λ _, metric) p))
          ∧ cp_conditions (mParts m') = conditions ∧ eventFrame m m'
      end
  end.
Proof.
  intros Ha. rewrite onLogEvent_accepted, Ha. pose proof (processLogEvent_run w event m) as H.
  destruct (eventCalls w event m) as [[trace conditions]|]; [|done]. cbv zeta in *.
  destruct (processLogEvent w event m) as [m'|]; [|by apply run_stops].
  destruct H as (Hr & Hc & Hf). split_and!; [|done|done]. intros i p Hp. by eapply run_lookup.
Qed.

(** ** What the operations keep *)

(** The kind and the configuration of a metric. *)
Definition keeps (m m' : AnyMetric) : Prop :=
  getMetricType m' = getMetricType m ∧ mConfig (any_base m') = mConfig (any_base m).

#[export] Instance keepsMetrics_refl : Reflexive keeps.
Proof. done. Qed.
#[export] Instance keepsMetrics_trans : Transitive keeps.
Proof. intros m1 m2 m3 [H1 H2] [H3 H4]. split; congruence. Qed.

Lemma rigid_keeps m m' : any_rigid m' = any_rigid m → keeps m m'.
Proof. by intros [= ? ? _]. Qed.
#[export] Hint Resolve rigid_keeps : statsd.

Lemma on_activity_keeps env f m : keeps m (on_activity (H := any_metric_ops env) f m).
Proof. by destruct m. Qed.
Lemma flushIfExpire_keeps env t m : keeps m (flushIfExpire (H := any_metric_ops env) t m).
Proof.
  unfold flushIfExpire. destruct (negb _); [done|]. destruct (evaluateActiveStateLocked _ _) as [[] a].
  - apply on_activity_keeps.
  - etrans; [|apply rigid_keeps, any_active_rigid]. apply on_activity_keeps.
Qed.
Lemma activate_keeps env j t m : keeps m (activateLocked (H := any_metric_ops env) j t m).
Proof.
  unfold activateLocked. destruct (_ !! j) as [ptr|]; [|done]. destruct (_ !! ptr) as [a|]; [|done].
  cbv zeta. destruct (bool_decide _).
  - destruct (bool_decide _); [apply on_activity_keeps|done].
  - destruct (mIsActive _); [apply on_activity_keeps|].
    etrans; [|apply rigid_keeps, any_active_rigid]. apply on_activity_keeps.
Qed.
Lemma cancel_keeps env j m : keeps m (cancelEventActivationLocked (H := any_metric_ops env) j m).
Proof. unfold cancelEventActivationLocked. destruct (_ !! j); [|done]. apply on_activity_keeps. Qed.
Lemma load_keeps env l t m : keeps m (loadActiveMetricLocked (H := any_metric_ops env) l t m).
Proof. unfold loadActiveMetricLocked. destruct (bool_decide _); [done|]. apply on_activity_keeps. Qed.
Lemma setTracker_rigid k a m : any_rigid (any_setTracker k a m) = any_rigid m.
Proof. by destruct m, a. Qed.

Lemma runCall_keeps env env' event m c m' : runCall env env' event m c = Some m' → keeps m m'.
Proof.
  destruct c; cbn [runCall]; intros H.
  1-4: injection H as <-.
  - apply flushIfExpire_keeps.
  - apply cancel_keeps.
  - apply activate_keeps.
  - destruct (negb _); apply rigid_keeps; [apply any_condition_rigid|apply any_sliced_rigid].
  - by apply any_matched_rigid, rigid_keeps in H.
Qed.

(** The same metrics, with other data. *)
Definition sameMetrics : list Producer → list Producer → Prop :=
  Forall2 (λ p p', keeps (pr_metric p) (pr_metric p')).

#[export] Instance sameMetrics_refl : Reflexive sameMetrics.
Proof. intros ps. apply Forall2_same_length_lookup_2; [done|]. intros i p q Hp Hq. by simplify_eq. Qed.
#[export] Instance sameMetrics_trans : Transitive sameMetrics.
Proof. intros ps1 ps2 ps3. apply Forall2_trans. intros p q r. apply keepsMetrics_trans. Qed.

Lemma sameMetrics_fmap f ps : (∀ m, keeps m (f m)) → sameMetrics ps (onMetric f <$> ps).
Proof. intros Hf. apply Forall2_fmap_r, Forall_Forall2_diag, Forall_forall. intros p _. apply Hf. Qed.
Lemma sameMetrics_insert ps i p m :
  ps !! i = Some p → keeps (pr_metric p) m → sameMetrics ps (<[i := onMetric (λ _, m) p]> ps).
Proof.
  intros Hp Hm. apply Forall2_same_length_lookup_2; [by rewrite length_insert|]. intros k q q' Hq Hq'.
  destruct (decide (k = i)) as [->|Hne].
  - rewrite list_lookup_insert_eq in Hq' by (by eapply lookup_lt_Some). by simplify_eq.
  - rewrite list_lookup_insert_ne in Hq' by done. by simplify_eq.
Qed.
Lemma sameMetrics_at f i ps : (∀ m, keeps m (f m)) → sameMetrics ps (onProducerAt f i ps).
Proof.
  intros Hf. apply Forall2_same_length_lookup_2; [unfold onProducerAt; by rewrite length_alter|].
  unfold onProducerAt. intros k q q' Hq Hq'. destruct (decide (k = i)) as [->|Hne].
  - rewrite list_lookup_alter_eq, Hq in Hq'. injection Hq' as <-. apply Hf.
  - rewrite list_lookup_alter_ne in Hq' by done. by simplify_eq.
Qed.
Lemma run_sameMetrics env env' event l : ∀ ps ps',
  run env env' event l (Some ps) = Some ps' → sameMetrics ps ps'.
Proof.
  induction l as [|[k c] l IH]; intros ps ps' H; [by injection H as <-|].
  change (run env env' event l (runAt env env' event ps (k, c)) = Some ps') in H.
  destruct (runAt env env' event ps (k, c)) as [ps1|] eqn:E; [|by rewrite run_None in H].
  etrans; [|by apply IH]. unfold runAt in E. cbn [fst snd] in E.
  destruct (ps !! k) as [p|] eqn:Hp; [|by injection E as <-].
  destruct (runCall _ _ _ _ _) as [m|] eqn:Em; [|done]. injection E as <-.
  apply sameMetrics_insert; [done|]. by eapply runCall_keeps.
Qed.

(** *** The number of conditions *)

Lemma evaluateChildren_length rec cs :
  (∀ c s s', rec c s = Some s' → length s'.1 = length s.1) →
  ∀ s s', evaluateChildren rec cs s = Some s' → length s'.1 = length s.1.
Proof.
  intros Hrec. induction cs as [|c cs IH]; intros s s' H; cbn in H; [by injection H as <-|].
  destruct (bool_decide _); [|eauto]. destruct (rec c s) as [s1|] eqn:E; [|done].
  cbn in H. rewrite (IH _ _ H). eauto.
Qed.
Lemma evaluateCondition_length event values fuel : ∀ i s s',
  evaluateCondition event values fuel i s = Some s' → length s'.1 = length s.1.
Proof.
  induction fuel as [|fuel IH]; intros i s s' H; [done|]. cbn [evaluateCondition] in H.
  destruct (s.1 !! i) as [[t|t]|]; [| |by injection H as <-].
  - destruct (evaluateSimple _ _ _ _). injection H as <-. cbn. by rewrite length_insert.
  - destruct (negb _); [by injection H as <-|].
    destruct (evaluateChildren _ _ s) as [s1|] eqn:E; [|done]. injection H as <-.
    apply evaluateChildren_length in E; [|done]. rewrite <- E. unfold finishCombination. destruct s1 as [ts c].
    destruct (negb _); cbn [fst]; by rewrite length_alter.
Qed.
Lemma evaluateConditions_length event values fuel bits ts ts' caches :
  evaluateConditions event values fuel bits ts = Some (ts', caches) → length ts' = length ts.
Proof.
  unfold evaluateConditions. set (s0 := (ts, mkCaches _ _)).
  assert (H : ∀ l os, (∀ s, os = Some s → length s.1 = length ts) →
    ∀ s, foldl (λ st i, s ← st; if default false (bits !! i) then evaluateCondition event values fuel i s
      else Some s) os l = Some s → length s.1 = length ts).
  { induction l as [|i l IH]; intros os Hos s Hs; [eauto|]. cbn in Hs. eapply IH, Hs.
    intros s1. destruct os as [s2|]; [|done]. cbn. specialize (Hos s2 eq_refl).
    destruct (default false _); [|intros [= <-]; done]. intros E%evaluateCondition_length. congruence. }
  intros E. by eapply (H _ (Some s0)) in E; [|by intros s [= <-]].
Qed.

(** *** The wiring *)

Lemma wiring_producers config cp ps conds :
  wiringOk config cp → sameMetrics (cp_producers cp) ps → length conds = length (cp_conditions cp) →
  wiringOk config (set_producers ps (set_conditions conds cp)).
Proof.
  intros [H1 H2 H3 H4 H5 H6] Hs Hl. split; cbn; [done|by rewrite Hl| |done|done|done].
  eapply Forall2_trans; [|exact H3|exact Hs]. cbn. intros msg p q [Hid Hty] [Hty' Hc].
  split; [unfold getMetricId in *; by rewrite Hc|by rewrite Hty'].
Qed.
Lemma wiring_set_producers config cp ps :
  wiringOk config cp → sameMetrics (cp_producers cp) ps → wiringOk config (set_producers ps cp).
Proof. intros H Hs. pose proof (wiring_producers config cp ps (cp_conditions cp) H Hs eq_refl) as H'. by destruct cp. Qed.

(** ** The tables say what the configuration says *)

Section tables.
Context (config : StatsdConfig) (matcherMap conditionMap m2a : gmap Z nat).
Abbreviation register := (registerMetric config matcherMap conditionMap m2a).
Abbreviation registerAll := (registerMetrics config matcherMap conditionMap m2a).

(** What one message adds to a table, every message adds. *)
Lemma registerMetrics_elem (entries : MetricTables → nat → list nat) (asks : MetricMessage → nat → Prop) :
  (∀ msg i t j k, k ∈ entries (register msg i t) j ↔ k ∈ entries t j ∨ k = i ∧ asks msg j) →
  ∀ msgs i t j k, k ∈ entries (registerAll msgs i t) j ↔
    k ∈ entries t j ∨ ∃ n msg, msgs !! n = Some msg ∧ k = (i + n)%nat ∧ asks msg j.
Proof using.
  intros Hstep. induction msgs as [|msg msgs IH]; intros i t j k; cbn [registerMetrics].
  { split; [by left|]. by intros [?|(n & msg & Hn & _)]. }
  rewrite IH, Hstep. split.
  - intros [[?|[-> ?]]|(n & msg' & Hn & -> & ?)]; [by left|right; exists 0%nat, msg|right; exists (S n), msg'];
      (split_and!; [done|lia|done]).
  - intros [?|([|n] & msg' & Hn & -> & ?)]; [by left; left| |].
    + injection Hn as <-. left. right. split; [lia|done].
    + right. exists n, msg'. split_and!; [done|lia|done].
Qed.

Definition asksEvents (select : list EventActivation → list nat) (msg : MetricMessage) (j : nat) : Prop :=
  is_Some (m2a !! msg_id msg) ∧ j ∈ select (metricEvents config m2a msg).

Lemma register_form msg i t :
  register msg i t =
  let es := metricEvents config m2a msg in
  let b := bool_decide (is_Some (m2a !! msg_id msg)) in
  mkMetricTables
    (pushAll i (indices matcherMap (metricMatchers config conditionMap msg)) (trackerToMetricMap t))
    (pushAll i (indices conditionMap (option_list (mh_condition (msg_head msg)))) (conditionToMetricMap t))
    (pushAll i (if b then activators matcherMap es else []) (activationAtomTrackerToMetricMap t))
    (pushAll i (if b then deactivators matcherMap es else []) (deactivationAtomTrackerToMetricMap t))
    (metricsWithActivation t ++ if b then [i] else []).
Proof using.
  unfold registerMetric. rewrite activation_form, registerConditions_form, registerMatchers_form. cbv zeta.
  destruct (m2a !! msg_id msg) as [n|].
  - by rewrite bool_decide_true by eauto.
  - rewrite bool_decide_false by (by intros [? ?]). cbn. by rewrite app_nil_r.
Qed.

Lemma elem_of_guard {A} (x : A) (P : Prop) `{!Decision P} l : x ∈ (if bool_decide P then l else []) ↔ P ∧ x ∈ l.
Proof using. case_bool_decide; [naive_solver|]. split; [by intros []%not_elem_of_nil|naive_solver]. Qed.

Lemma registered_matchers msgs i t j k :
  k ∈ default [] (trackerToMetricMap (registerAll msgs i t) !! j) ↔
  k ∈ default [] (trackerToMetricMap t !! j) ∨
  ∃ n msg, msgs !! n = Some msg ∧ k = (i + n)%nat ∧
    j ∈ indices matcherMap (metricMatchers config conditionMap msg).
Proof using.
  apply (registerMetrics_elem (λ t j, default [] (trackerToMetricMap t !! j)) (λ msg j, j ∈ indices _ _)).
  intros. rewrite register_form. cbn. rewrite elem_of_pushAll. naive_solver.
Qed.
Lemma registered_conditions msgs i t j k :
  k ∈ default [] (conditionToMetricMap (registerAll msgs i t) !! j) ↔
  k ∈ default [] (conditionToMetricMap t !! j) ∨
  ∃ n msg, msgs !! n = Some msg ∧ k = (i + n)%nat ∧
    j ∈ indices conditionMap (option_list (mh_condition (msg_head msg))).
Proof using.
  apply (registerMetrics_elem (λ t j, default [] (conditionToMetricMap t !! j)) (λ msg j, j ∈ indices _ _)).
  intros. rewrite register_form. cbn. rewrite elem_of_pushAll. naive_solver.
Qed.
Lemma registered_activators msgs i t j k :
  k ∈ default [] (activationAtomTrackerToMetricMap (registerAll msgs i t) !! j) ↔
  k ∈ default [] (activationAtomTrackerToMetricMap t !! j) ∨
  ∃ n msg, msgs !! n = Some msg ∧ k = (i + n)%nat ∧ asksEvents (activators matcherMap) msg j.
Proof using.
  apply (registerMetrics_elem (λ t j, default [] (activationAtomTrackerToMetricMap t !! j))).
  intros. rewrite register_form. cbn. rewrite elem_of_pushAll, elem_of_guard. unfold asksEvents. naive_solver.
Qed.
Lemma registered_deactivators msgs i t j k :
  k ∈ default [] (deactivationAtomTrackerToMetricMap (registerAll msgs i t) !! j) ↔
  k ∈ default [] (deactivationAtomTrackerToMetricMap t !! j) ∨
  ∃ n msg, msgs !! n = Some msg ∧ k = (i + n)%nat ∧ asksEvents (deactivators matcherMap) msg j.
Proof using.
  apply (registerMetrics_elem (λ t j, default [] (deactivationAtomTrackerToMetricMap t !! j))).
  intros. rewrite register_form. cbn. rewrite elem_of_pushAll, elem_of_guard. unfold asksEvents. naive_solver.
Qed.
Lemma registered_withActivation msgs i t k :
  k ∈ metricsWithActivation (registerAll msgs i t) ↔
  k ∈ metricsWithActivation t ∨
  ∃ n msg, msgs !! n = Some msg ∧ k = (i + n)%nat ∧ is_Some (m2a !! msg_id msg).
Proof using.
  apply (registerMetrics_elem (λ t _, metricsWithActivation t) (λ msg _, is_Some (m2a !! msg_id msg)) ) with (j := 0%nat).
  intros. rewrite register_form. cbn. rewrite elem_of_app, elem_of_guard, list_elem_of_singleton. naive_solver.
Qed.
Lemma registered_nodup msgs : ∀ i t,
  NoDup (metricsWithActivation t) → (∀ k, k ∈ metricsWithActivation t → (k < i)%nat) →
  NoDup (metricsWithActivation (registerAll msgs i t)).
Proof using.
  induction msgs as [|msg msgs IH]; intros i t Hn Hlt; [done|]. cbn [registerMetrics].
  apply IH; rewrite register_form; cbn.
  - apply NoDup_app. split_and!; [done| |destruct (bool_decide _); [apply NoDup_singleton|constructor]].
    intros k Hk%Hlt [_ ->%list_elem_of_singleton]%elem_of_guard. lia.
  - intros k [?%Hlt|[_ ->%list_elem_of_singleton]%elem_of_guard]%elem_of_app; lia.
Qed.
End tables.

(** The matchers and conditions a message names, by their positions. *)
Definition namedBy (m : gmap Z nat) (ids : list Z) (j : nat) : Prop := ∃ id, id ∈ ids ∧ m !! id = Some j.

Lemma elem_of_indices m ids j : j ∈ indices m ids ↔ namedBy m ids j.
Proof. apply list_elem_of_omap. Qed.

Section wiring.
Context (config : StatsdConfig) (cp : ConfigParts) (Hw : wiringOk config cp).
Context (m2a : gmap Z nat) (Hm2a : activationIndex config = Some m2a).
Let t := cp_tables cp.

Lemma tables_registered :
  t = registerMetrics config (cp_matcherMap cp) (cp_conditionMap cp) m2a (cfg_metrics config) 0 MetricTables_new.
Proof using Hw Hm2a.
  destruct (po_tables _ _ Hw) as (m2a' & Ha & Ht). rewrite Hm2a in Ha. injection Ha as <-. exact Ht.
Qed.

Lemma routed_matcher i j msg :
  cfg_metrics config !! i = Some msg →
  i ∈ default [] (trackerToMetricMap t !! j) ↔
  namedBy (cp_matcherMap cp) (metricMatchers config (cp_conditionMap cp) msg) j.
Proof using Hw Hm2a.
  intros Hi. rewrite tables_registered, registered_matchers. rewrite <- elem_of_indices. split.
  - intros [[]%not_elem_of_nil|(n & msg' & Hn & -> & ?)]. cbn in Hi. congruence.
  - intros ?. right. by exists i, msg.
Qed.
Lemma routed_condition i j msg :
  cfg_metrics config !! i = Some msg →
  i ∈ default [] (conditionToMetricMap t !! j) ↔
  namedBy (cp_conditionMap cp) (option_list (mh_condition (msg_head msg))) j.
Proof using Hw Hm2a.
  intros Hi. rewrite tables_registered, registered_conditions. rewrite <- elem_of_indices. split.
  - intros [[]%not_elem_of_nil|(n & msg' & Hn & -> & ?)]. cbn in Hi. congruence.
  - intros ?. right. by exists i, msg.
Qed.
Lemma routed_events (table : gmap nat (list nat)) select i j msg :
  (∀ k, k ∈ default [] (table !! j) ↔ ∃ n msg, cfg_metrics config !! n = Some msg ∧ k = (0 + n)%nat ∧
     asksEvents config m2a select msg j) →
  cfg_metrics config !! i = Some msg →
  i ∈ default [] (table !! j) ↔ asksEvents config m2a select msg j.
Proof using.
  intros Ht Hi. rewrite Ht. split; [|by exists i, msg].
  intros (n & msg' & Hn & -> & ?). cbn in Hi. congruence.
Qed.
Lemma routed_activator i j msg :
  cfg_metrics config !! i = Some msg →
  i ∈ default [] (activationAtomTrackerToMetricMap t !! j) ↔
  is_Some (m2a !! msg_id msg) ∧
  namedBy (cp_matcherMap cp) (ea_atom_matcher_id <$> metricEvents config m2a msg) j.
Proof using Hw Hm2a.
  intros Hi. rewrite <- elem_of_indices. eapply (routed_events _ (activators (cp_matcherMap cp))); [|done].
  intros k. rewrite tables_registered, registered_activators. split; [|by right].
  by intros [[]%not_elem_of_nil|?].
Qed.
Lemma routed_deactivator i j msg :
  cfg_metrics config !! i = Some msg →
  i ∈ default [] (deactivationAtomTrackerToMetricMap t !! j) ↔
  is_Some (m2a !! msg_id msg) ∧
  namedBy (cp_matcherMap cp)
    (metricEvents config m2a msg ≫= λ e, option_list (ea_deactivation_atom_matcher_id e)) j.
Proof using Hw Hm2a.
  intros Hi. rewrite <- elem_of_indices. eapply (routed_events _ (deactivators (cp_matcherMap cp))); [|done].
  intros k. rewrite tables_registered, registered_deactivators. split; [|by right].
  by intros [[]%not_elem_of_nil|?].
Qed.
Lemma withActivation_nodup : NoDup (metricsWithActivation t).
Proof using Hw Hm2a. rewrite tables_registered. apply registered_nodup; [constructor|by intros k []%not_elem_of_nil]. Qed.
Lemma withActivation_msg k :
  k ∈ metricsWithActivation t ↔ ∃ msg, cfg_metrics config !! k = Some msg ∧ is_Some (m2a !! msg_id msg).
Proof using Hw Hm2a.
  rewrite tables_registered, registered_withActivation. split.
  - intros [[]%not_elem_of_nil|(n & msg & Hn & -> & ?)]. by exists msg.
  - intros (msg & ? & ?). right. by exists k, msg.
Qed.
Lemma activators_withActivation k j :
  k ∈ default [] (activationAtomTrackerToMetricMap t !! j) → k ∈ metricsWithActivation t.
Proof using Hw Hm2a.
  rewrite withActivation_msg, tables_registered, registered_activators.
  intros [[]%not_elem_of_nil|(n & msg & Hn & -> & ? & _)]. by exists msg.
Qed.
End wiring.

(** ** The calls to a metric *)

Lemma elem_of_callsTo i c l : c ∈ callsTo i l ↔ (i, c) ∈ l.
Proof.
  unfold callsTo. rewrite list_elem_of_omap. split.
  - intros ([k c'] & Hk & H). cbn in H. case_bool_decide; [|done]. by simplify_eq.
  - intros H. exists (i, c). cbn. by rewrite bool_decide_true.
Qed.
Lemma callsTo_app i l l' : callsTo i (l ++ l') = callsTo i l ++ callsTo i l'.
Proof. apply omap_app. Qed.

Lemma elem_of_matchedRoutes mc table j i :
  (j, i) ∈ matchedRoutes mc table ↔ resultAt mc j = kMatched ∧ i ∈ default [] (table !! j).
Proof.
  unfold matchedRoutes. rewrite list_elem_of_In, in_flat_map. split.
  - intros ([k l] & Hk & H). apply list_elem_of_In in Hk, H. apply elem_of_map_to_list in Hk. cbn [fst snd] in H.
    case_bool_decide as Hm; [|by apply not_elem_of_nil in H].
    apply list_elem_of_fmap in H as (i' & [= <- <-] & Hi). by rewrite Hk.
  - intros [Hm Hi]. destruct (table !! j) as [l|] eqn:Hl; [|by apply not_elem_of_nil in Hi].
    exists (j, l). rewrite <- !list_elem_of_In, elem_of_map_to_list. cbn [fst snd]. rewrite bool_decide_true by done.
    split; [done|]. apply list_elem_of_fmap. eauto.
Qed.

Lemma elem_of_flushCalls i c ks : (i, c) ∈ flushCalls ks ↔ c = CallFlushIfExpire ∧ i ∈ ks.
Proof.
  unfold flushCalls. rewrite list_elem_of_fmap. split; [by intros (k & [= -> ->] & ?)|]. intros [-> ?]. by exists i.
Qed.
Lemma elem_of_routeCalls f i c routes : (i, c) ∈ routeCalls f routes ↔ ∃ j, c = f j ∧ (j, i) ∈ routes.
Proof.
  unfold routeCalls. rewrite list_elem_of_fmap. split.
  - intros ([j k] & [= -> ->] & ?). eauto.
  - intros (j & -> & ?). by exists (j, i).
Qed.
Lemma elem_of_callsAt table c' k i c : (i, c) ∈ callsAt table c' k ↔ c = c' ∧ i ∈ default [] (table !! k).
Proof.
  unfold callsAt. rewrite list_elem_of_fmap. split; [by intros (j & [= -> ->] & ?)|]. intros [-> ?]. by exists i.
Qed.
Lemma elem_of_conditionCalls table caches i c :
  (i, c) ∈ conditionCalls table caches ↔
  ∃ k, ec_changed caches !! k = Some true ∧ c = CallCondition (conditionAt (ec_condition caches) k) ∧
       i ∈ default [] (table !! k).
Proof.
  unfold conditionCalls. rewrite list_elem_of_In, in_flat_map. setoid_rewrite <- list_elem_of_In. split.
  - intros (k & Hk & H). destruct (ec_changed caches !! k) as [[]|] eqn:Ek; cbn [default from_option id] in H;
      try (by apply not_elem_of_nil in H). apply elem_of_callsAt in H. by exists k.
  - intros (k & Hk & H). exists k. rewrite Hk. split; [|by apply elem_of_callsAt].
    apply elem_of_seq. apply lookup_lt_Some in Hk. lia.
Qed.
Lemma elem_of_matchedCalls table mc i c :
  (i, c) ∈ matchedCalls table mc ↔
  ∃ k, resultAt mc k = kMatched ∧ c = CallMatched k ∧ i ∈ default [] (table !! k).
Proof.
  unfold matchedCalls. rewrite list_elem_of_In, in_flat_map. setoid_rewrite <- list_elem_of_In. split.
  - intros (k & Hk & H). case_bool_decide; [|by apply not_elem_of_nil in H].
    apply elem_of_callsAt in H. by exists k.
  - intros (k & Hk & H). exists k. rewrite bool_decide_true by done. split; [|by apply elem_of_callsAt].
    apply elem_of_seq. unfold resultAt in Hk. destruct (mc !! k) eqn:E; [|done]. apply lookup_lt_Some in E. lia.
Qed.

Lemma elem_of_eventTrace t mc caches i c :
  (i, c) ∈ eventTrace t mc caches ↔
  match c with
  | CallFlushIfExpire => ∃ j, resultAt mc j = kMatched ∧ i ∈ default [] (deactivationAtomTrackerToMetricMap t !! j)
  | CallCancel j => resultAt mc j = kMatched ∧ i ∈ default [] (deactivationAtomTrackerToMetricMap t !! j)
  | CallActivate j => resultAt mc j = kMatched ∧ i ∈ default [] (activationAtomTrackerToMetricMap t !! j)
  | CallCondition s => ∃ k, ec_changed caches !! k = Some true ∧ s = conditionAt (ec_condition caches) k
                            ∧ i ∈ default [] (conditionToMetricMap t !! k)
  | CallMatched j => resultAt mc j = kMatched ∧ i ∈ default [] (trackerToMetricMap t !! j)
  end.
Proof.
  unfold eventTrace, activationTrace. cbv zeta.
  rewrite !elem_of_app, !elem_of_routeCalls, elem_of_flushCalls, elem_of_conditionCalls, elem_of_matchedCalls.
  rewrite elem_of_elements, elem_of_list_to_set, list_elem_of_fmap. setoid_rewrite elem_of_matchedRoutes.
  assert (Hr : (∃ y : nat * nat, i = y.2 ∧ y ∈ matchedRoutes mc (deactivationAtomTrackerToMetricMap t)) ↔
    ∃ j, resultAt mc j = kMatched ∧ i ∈ default [] (deactivationAtomTrackerToMetricMap t !! j)).
  { split; [intros ([j k] & Hk & H); cbn in Hk; subst k; exists j; by apply elem_of_matchedRoutes|].
    intros (j & H). exists (j, i). by rewrite elem_of_matchedRoutes. }
  rewrite Hr. clear Hr. destruct c; naive_solver.
Qed.

(** C9: Which calls a metric gets from an event is what its message asks for: the matched matchers it names (for a
    duration metric those of its predicate), the condition it names when that changed, and the matchers of
    its activation; a metric that names none of them is left alone. *)
Theorem event_calls_follow_config config m w event i msg mc conds caches m2a :
  wiringOk config (mParts m) → activationIndex config = Some m2a → cfg_metrics config !! i = Some msg →
  GetTagId event ∈ cp_allTagIds (mParts m) →
  let c := mParts m in
  evaluateAllMatchers (w_uidMap w) (cp_matchers c) event (initFuel (length (cp_matchers c))) = Some mc →
  evaluateConditions event mc (initFuel (length (cp_conditions c)))
    (conditionToBeEvaluated (cp_trackerToCondition c) mc (length (cp_conditions c))) (cp_conditions c)
    = Some (conds, caches) →
  ∃ trace, eventCalls w event m = Some (trace, conds) ∧
    let called call := call ∈ callsTo i trace in
    let matched ids j := resultAt mc j = kMatched ∧ namedBy (cp_matcherMap c) ids j in
    let hasActivation := is_Some (m2a !! msg_id msg) in
    let events := metricEvents config m2a msg in
    (∀ j, called (CallMatched j) ↔ matched (metricMatchers config (cp_conditionMap c) msg) j) ∧
    (∀ s, called (CallCondition s) ↔ ∃ k, namedBy (cp_conditionMap c) (option_list (mh_condition (msg_head msg))) k
       ∧ ec_changed caches !! k = Some true ∧ s = conditionAt (ec_condition caches) k) ∧
    (∀ j, called (CallActivate j) ↔ hasActivation ∧ matched (ea_atom_matcher_id <$> events) j) ∧
    (∀ j, called (CallCancel j) ↔
       hasActivation ∧ matched (events ≫= λ e, option_list (ea_deactivation_atom_matcher_id e)) j) ∧
    (called CallFlushIfExpire ↔ hasActivation).
Proof.
  intros Hw Ha Hi Htag c Hmc Hcond. exists (flushCalls (metricsWithActivation (cp_tables c)) ++ eventTrace (cp_tables c) mc caches).
  split.
  { unfold eventCalls. cbv zeta. rewrite bool_decide_true by done. cbn [negb]. fold c. rewrite Hmc. cbn [mbind option_bind].
    by rewrite Hcond. }
  cbv zeta. assert (Hcall : ∀ call, call ∈ callsTo i (flushCalls (metricsWithActivation (cp_tables c)) ++ eventTrace (cp_tables c) mc caches)
    ↔ (call = CallFlushIfExpire ∧ i ∈ metricsWithActivation (cp_tables c)) ∨ (i, call) ∈ eventTrace (cp_tables c) mc caches).
  { intros call. by rewrite elem_of_callsTo, elem_of_app, elem_of_flushCalls. }
  setoid_rewrite Hcall. setoid_rewrite elem_of_eventTrace. clear Hcall.
  setoid_rewrite (routed_matcher config c Hw m2a Ha i _ msg Hi).
  setoid_rewrite (routed_condition config c Hw m2a Ha i _ msg Hi).
  setoid_rewrite (routed_activator config c Hw m2a Ha i _ msg Hi).
  setoid_rewrite (routed_deactivator config c Hw m2a Ha i _ msg Hi).
  setoid_rewrite (withActivation_msg config c Hw m2a Ha).
  split_and!; [naive_solver..|]. split; [naive_solver|]. intros ?. left. split; [done|]. by exists msg.
Qed.

Lemma new_wiring ser limits uninit w am pm fresh key config timeBase now wall m :
  MetricsManager_new ser limits uninit w am pm fresh key config timeBase now wall = Done m →
  wiringOk (mc_config config) (mParts m).
Proof.
  unfold MetricsManager_new. intros H. apply outcome_bind_Done in H as (parts & E & H).
  apply initStatsdConfig_ok, po_wiring in E. destruct (createAllLogSourcesFromConfig _ _ _) as [sources ok].
  injection H as <-. unfold verifyGuardrailsAndUpdateStatsdStats, refreshTtl.
  by destruct (0 <? _), (verifyGuardrails _).
Qed.

(** ** An example *)

(** Two counts, of atoms 10 and 11; the first is activated by atom 11 for a minute and deactivated by atom
    12, the second is activated by atom 12. *)
Definition exampleCount (id what : Z) : CountMessage :=
  mkCountMessage (mkMetricHead true (Some what) None []) (mkCountMetric id (Some ONE_MINUTE) None [] []).
Definition exampleStatsdConfig : StatsdConfig :=
  mkStatsdConfig
    [mkAtomMatcher 1 (kSimpleAtomMatcher (mkSimpleAtomMatcher (Some 10) []));
     mkAtomMatcher 2 (kSimpleAtomMatcher (mkSimpleAtomMatcher (Some 11) []));
     mkAtomMatcher 3 (kSimpleAtomMatcher (mkSimpleAtomMatcher (Some 12) []))]
    [] [] [exampleCount 100 1; exampleCount 101 2] [] [] [] []
    [mkMetricActivation 100 ACTIVATE_IMMEDIATELY [mkEventActivation 2 60 (Some 3) None];
     mkMetricActivation 101 ACTIVATE_IMMEDIATELY [mkEventActivation 3 60 None None]] [] [] [] [] [].
Definition exampleConfig : ManagerConfig :=
  mkManagerConfig exampleStatsdConfig None ["AID_ROOT"%string] [] [] [] false false false false.
Definition exampleSerializers : Serializers :=
  mkSerializers (λ m, Some [am_id m]) (λ p, Some [pr_id p]) (λ _, Some [0]) (λ m, Some [msg_id m])
    (λ a, Some [ma_metric_id a]) (λ a, Some [alert_id a]).
Definition exampleWorld : World := mkWorld (-1) UidMap_new StateManager_new (λ _ _, None) 0 0.
Definition exampleAtoms : CheckedAtoms := mkCheckedAtoms 47 58.
Definition exampleNew : Outcome MetricsManager :=
  MetricsManager_new exampleSerializers ∅ (0, 0, 0) exampleWorld None None 0 (0, 7) exampleConfig 0 0 0.
Definition exampleEvent (tag t : Z) : LogEvent := mkLogEvent tag 0 t [] (-1) (-1) false.

(** The manager after events. *)
Definition afterEvents (events : list LogEvent) : option MetricsManager :=
  match exampleNew with
  | Done m => foldl (λ m e, m ← m; metrics_onLogEvent exampleAtoms exampleWorld e m) (Some m) events
  | _ => None
  end.

Lemma event_acts_per_metric_witness :
  ∃ m m' trace conditions p metric,
    afterEvents [] = Some m ∧ accepts exampleAtoms exampleWorld (exampleEvent 11 5) m = true ∧
    eventCalls exampleWorld (exampleEvent 11 5) m = Some (trace, conditions) ∧
    callsTo 0 trace = [CallFlushIfExpire; CallActivate 1] ∧
    callsTo 1 trace = [CallFlushIfExpire; CallMatched 1] ∧
    metrics_onLogEvent exampleAtoms exampleWorld (exampleEvent 11 5) m = Some m' ∧
    mAllMetricProducers m !! 0%nat = Some p ∧
    runCalls (managerEnv exampleWorld m) (envOf exampleWorld (cp_matchers (mParts m)) conditions)
      (exampleEvent 11 5) (callsTo 0 trace) (pr_metric p) = Some metric ∧
    mAllMetricProducers m' !! 0%nat = Some (onMetric (λ _, metric) p).
Proof.
  assert (El : (m ← afterEvents []; r ← eventCalls exampleWorld (exampleEvent 11 5) m;
      m' ← metrics_onLogEvent exampleAtoms exampleWorld (exampleEvent 11 5) m;
      p ← mAllMetricProducers m !! 0%nat;
      Some (accepts exampleAtoms exampleWorld (exampleEvent 11 5) m, callsTo 0 r.1, callsTo 1 r.1))
    = Some (true, [CallFlushIfExpire; CallActivate 1], [CallFlushIfExpire; CallMatched 1]))
    by (vm_compute; reflexivity).
  apply bind_Some in El as (m & Em & El). apply bind_Some in El as ([trace conditions] & Ec & El).
  apply bind_Some in El as (m' & Em' & El). apply bind_Some in El as (p & Ep & El).
  injection El as Ha H0 H1. cbn [fst] in H0, H1.
  pose proof (event_acts_per_metric exampleAtoms exampleWorld (exampleEvent 11 5) m Ha) as H.
  rewrite Ec, Em' in H. destruct H as [H _]. destruct (H 0%nat p Ep) as (metric & Hr & Hl).
  by exists m, m', trace, conditions, p, metric.
Defined.

Lemma event_calls_follow_config_witness :
  ∃ m trace conditions, afterEvents [] = Some m ∧
    eventCalls exampleWorld (exampleEvent 12 5) m = Some (trace, conditions) ∧
    CallCancel 2 ∈ callsTo 0 trace ∧ CallActivate 2 ∈ callsTo 1 trace.
Proof.
  assert (El : (m ← afterEvents []; mc ← evaluateAllMatchers UidMap_new (cp_matchers (mParts m)) (exampleEvent 12 5) 5;
      Some (mc, elements (cp_allTagIds (mParts m)), cp_conditions (mParts m), cp_matcherMap (mParts m) !! 3,
            length (cp_matchers (mParts m))))
    = Some ([kNotMatched; kNotMatched; kMatched], [11; 10; 12], [], Some 2%nat, 3%nat)) by (vm_compute; reflexivity).
  apply bind_Some in El as (m & Em & El). apply bind_Some in El as (mc & Emc & El).
  injection El as -> Htags Hconds Hmap Hlen.
  assert (Hw : wiringOk exampleStatsdConfig (mParts m)).
  { clear -Em. unfold afterEvents in Em. destruct exampleNew as [m0| |] eqn:E0; [|discriminate Em|discriminate Em].
    injection Em as <-. exact (new_wiring _ _ _ _ _ _ _ _ exampleConfig _ _ _ m0 E0). }
  assert (Htag : GetTagId (exampleEvent 12 5) ∈ cp_allTagIds (mParts m)).
  { apply elem_of_elements. rewrite Htags. do 2 right. left. }
  assert (Hm2a : activationIndex exampleStatsdConfig = Some {[100 := 0%nat; 101 := 1%nat]})
    by (vm_compute; reflexivity).
  assert (Hname : namedBy (cp_matcherMap (mParts m)) [3] 2) by (exists 3; split; [left|done]).
  assert (Hcond : evaluateConditions (exampleEvent 12 5) [kNotMatched; kNotMatched; kMatched]
    (initFuel (length (cp_conditions (mParts m))))
    (conditionToBeEvaluated (cp_trackerToCondition (mParts m)) [kNotMatched; kNotMatched; kMatched]
      (length (cp_conditions (mParts m)))) (cp_conditions (mParts m)) = Some ([], mkCaches [] [])).
  { rewrite Hconds. done. }
  pose proof (λ i msg Hi, event_calls_follow_config exampleStatsdConfig m exampleWorld (exampleEvent 12 5) i msg
    [kNotMatched; kNotMatched; kMatched] [] (mkCaches [] []) _ Hw Hm2a Hi Htag) as H. cbv zeta in H.
  rewrite Hlen in H.
  destruct (H 0%nat (CountMsg (exampleCount 100 1)) eq_refl Emc Hcond) as (trace & Ht & _ & _ & _ & Hcancel & _).
  destruct (H 1%nat (CountMsg (exampleCount 101 2)) eq_refl Emc Hcond) as (trace' & Ht' & _ & _ & Hact & _).
  rewrite Ht in Ht'. injection Ht' as <-. exists m, trace, []. split; [done|]. split; [done|]. split.
  - apply Hcancel. split; [by eexists|]. split; [done|]. exact Hname.
  - apply Hact. split; [by eexists|]. split; [done|]. exact Hname.
Defined.
