(* ===== verification/ManagerInvariants.v ===== *)
(** * Invariants of the metrics manager

    A manager is made by its constructor, changed by configuration updates and by the operations of the
    service.  Along every such history its parts stay wired the way the configuration says, and it is active
    exactly when one of its metrics can collect. *)
From S2P Require Import Prelude Hash UMap FieldValue DimensionKey Matchers LogEvent UidMap MatcherTrackers.
From S2P Require Import Conditions ConditionsFacts ConfigUpdate Alarms Anomaly State MetricProducer.
From S2P Require Import MetricProducerFacts CountMetric MetricShared EventMetric GaugeMetric ValueMetric.
From S2P Require Import DurationTrackers DurationMetric AnyMetric AnyMetricFacts MetricsConfig MetricsUpdate.
From S2P Require Import MetricsConfigFacts ConfigParts MetricsManager MetricsManagerFacts.

(** ** Operations *)

Inductive ManagerOp (atoms : CheckedAtoms) (w : World) : MetricsManager → MetricsManager → Prop :=
  | op_event event m m' : metrics_onLogEvent atoms w event m = Some m' → ManagerOp atoms w m m'
  | op_upgrade t apk m : ManagerOp atoms w m (manager_notifyAppUpgrade w t apk m)
  | op_removed t apk m : ManagerOp atoms w m (manager_notifyAppRemoved w t apk m)
  | op_uidMap m : ManagerOp atoms w m (manager_onUidMapReceived w m)
  | op_initCompleted t m : ManagerOp atoms w m (manager_onStatsdInitCompleted w t m)
  | op_init m : ManagerOp atoms w m (manager_init w m)
  | op_drop t m : ManagerOp atoms w m (manager_dropData t m)
  | op_dump t wall include erase latency m :
      ManagerOp atoms w m (manager_onDumpReport w t wall include erase latency m).2
  | op_anomalyAlarm t fired m : ManagerOp atoms w m (onAnomalyAlarmFired t fired m).1
  | op_periodicAlarm t fresh fired m : ManagerOp atoms w m (onPeriodicAlarmFired t fresh fired m).1.1
  | op_loadActive saved t m : ManagerOp atoms w m (loadActiveConfig w saved t m)
  | op_loadMetadata saved wall t m : ManagerOp atoms w m (loadMetadata saved wall t m)
  | op_refreshTtl t m : ManagerOp atoms w m (refreshTtl t m)
  | op_state i t atom key old new m :
      ManagerOp atoms w m
        (set_parts (set_producers
           (onProducerAt (any_onStateChanged (managerEnv w m) t atom key old new) i (mAllMetricProducers m))
           (mParts m)) m).

(** The managers of a configuration. *)
Inductive manages (atoms : CheckedAtoms) : ManagerConfig → MetricsManager → Prop :=
  | manages_new ser limits uninit w am pm fresh key config timeBase now wall m :
      MetricsManager_new ser limits uninit w am pm fresh key config timeBase now wall = Done m →
      manages atoms config m
  | manages_update ser limits uninit w am pm fresh old config timeBase now m m' :
      manages atoms old m →
      updateConfig ser limits uninit w am pm fresh config timeBase now m = Done m' →
      manages atoms config m'
  | manages_op w config m m' : manages atoms config m → ManagerOp atoms w m m' → manages atoms config m'.

(** ** Activity *)

(** The same kinds, configurations and activations. *)
Definition sameRigid : list Producer → list Producer → Prop :=
  Forall2 (λ p p', any_rigid (pr_metric p') = any_rigid (pr_metric p)).

#[export] Instance sameRigid_refl : Reflexive sameRigid.
Proof. intros ps. apply Forall2_same_length_lookup_2; [done|]. intros i p q Hp Hq. by simplify_eq. Qed.
#[export] Instance sameRigid_trans : Transitive sameRigid.
Proof. intros ps1 ps2 ps3. apply Forall2_trans. intros p q r H1 H2. congruence. Qed.

Lemma sameRigid_sameMetrics ps ps' : sameRigid ps ps' → sameMetrics ps ps'.
Proof. intros H. eapply Forall2_impl; [exact H|]. intros p q. apply rigid_keeps. Qed.
Lemma sameRigid_fmap f ps : (∀ m, any_rigid (f m) = any_rigid m) → sameRigid ps (onMetric f <$> ps).
Proof. intros Hf. apply Forall2_fmap_r, Forall_Forall2_diag, Forall_forall. intros p _. apply Hf. Qed.
Lemma sameRigid_at f i ps : (∀ m, any_rigid (f m) = any_rigid m) → sameRigid ps (onProducerAt f i ps).
Proof.
  intros Hf. apply Forall2_same_length_lookup_2; [unfold onProducerAt; by rewrite length_alter|].
  unfold onProducerAt. intros k q q' Hq Hq'. destruct (decide (k = i)) as [->|Hne].
  - rewrite list_lookup_alter_eq, Hq in Hq'. injection Hq' as <-. apply Hf.
  - rewrite list_lookup_alter_ne in Hq' by done. by simplify_eq.
Qed.
Lemma sameRigid_active ps ps' i : sameRigid ps ps' → activeAt ps' i = activeAt ps i.
Proof.
  intros H. unfold activeAt. destruct (ps !! i) as [p|] eqn:Hp.
  - destruct (Forall2_lookup_l _ _ _ _ _ H Hp) as (q & -> & Hq). unfold isActive.
    by injection Hq as _ _ ->.
  - apply lookup_ge_None in Hp. apply Forall2_length in H. by rewrite (proj2 (lookup_ge_None _ _)) by lia.
Qed.

Lemma activeAt_at f i ps k :
  activeAt (onProducerAt f i ps) k =
  if bool_decide (k = i) then default false ((isActive ∘ f ∘ pr_metric) <$> ps !! i) else activeAt ps k.
Proof.
  unfold activeAt, onProducerAt. case_bool_decide as Hk; [subst k|by rewrite list_lookup_alter_ne].
  rewrite list_lookup_alter_eq. by destruct (ps !! i).
Qed.
Lemma activeAt_ne f i ps k : k ≠ i → activeAt (onProducerAt f i ps) k = activeAt ps k.
Proof. intros. by rewrite activeAt_at, bool_decide_false. Qed.

(** Expiry turns a metric off, an activation or a saved one turns it on, a cancellation leaves it. *)
Lemma flushIfExpire_off env t m : isActive (flushIfExpire (H := any_metric_ops env) t m) = true → isActive m = true.
Proof.
  unfold flushIfExpire. destruct (negb (mIsActive _)) eqn:E; [done|]. intros _.
  apply negb_false_iff in E. exact E.
Qed.
Lemma isActive_activity env m : isActive m = mIsActive (activity (H := any_metric_ops env) m).
Proof. done. Qed.
Lemma cancel_active env j m : isActive (cancelEventActivationLocked (H := any_metric_ops env) j m) = isActive m.
Proof.
  rewrite !(isActive_activity env). unfold cancelEventActivationLocked. destruct (_ !! j) as [ptrs|]; [|done].
  rewrite on_activity_activity. generalize (activity (H := any_metric_ops env) m).
  induction ptrs as [|q ptrs IH]; intros a; [done|]. apply (IH (on_activation q (set_state kNotActive) a)).
Qed.
Lemma activate_on env j t m : isActive m = true → isActive (activateLocked (H := any_metric_ops env) j t m) = true.
Proof.
  rewrite !(isActive_activity env), activateLocked_activity. unfold activated. intros Hm. by repeat case_match.
Qed.
Lemma load_on env l t m : isActive m = true → isActive (loadActiveMetricLocked (H := any_metric_ops env) l t m) = true.
Proof.
  rewrite !(isActive_activity env). unfold loadActiveMetricLocked. destruct (bool_decide _); [done|].
  rewrite on_activity_activity. generalize (activity (H := any_metric_ops env) m).
  induction l as [|s l IH]; intros a Ha; [done|]. apply IH. unfold loadActivation.
  destruct (_ !! _); [|done]. by destruct (saved_state s) as [[]|].
Qed.

Lemma flush_at_off env t i ps k :
  activeAt (onProducerAt (flushIfExpire (H := any_metric_ops env) t) i ps) k = true → activeAt ps k = true.
Proof.
  rewrite activeAt_at. case_bool_decide as Hk; [subst k|done]. unfold activeAt.
  destruct (ps !! i); [|done]. apply flushIfExpire_off.
Qed.
Lemma at_on f i ps k :
  (∀ m, isActive m = true → isActive (f m) = true) → activeAt ps k = true → activeAt (onProducerAt f i ps) k = true.
Proof.
  intros Hf. rewrite activeAt_at. case_bool_decide as Hk; [subst k|done]. unfold activeAt.
  destruct (ps !! i); [|done]. apply Hf.
Qed.

(** *** The steps of an event *)
Section steps.
Context (env : MetricEnv) (t : Z).

Lemma flushExpired_active ks ps :
  NoDup ks → let r := flushExpired env t ks ps in
  ∀ i, i ∈ r.2 ↔ i ∈ ks ∧ activeAt r.1 i = true.
Proof using.
  intros Hnd. unfold flushExpired. cbv zeta.
  assert (H : ∀ a ps, let r := foldl (λ '(ps, a) i,
      let ps := onProducerAt (flushIfExpire (H := any_metric_ops env) t) i ps in
      (ps, if activeAt ps i then {[i]} ∪ a else a)) (ps, a) ks in
    (∀ i, i ∉ ks → activeAt r.1 i = activeAt ps i) ∧
    ∀ i, i ∈ r.2 ↔ i ∈ (a : gset nat) ∨ i ∈ ks ∧ activeAt r.1 i = true).
  { clear ps. induction Hnd as [|k ks Hk _ IH]; intros a ps; cbn [foldl]; [set_solver|]. cbv zeta.
    set (ps' := onProducerAt _ k ps). destruct (IH (if activeAt ps' k then {[k]} ∪ a else a) ps') as [H1 H2].
    cbv zeta in H1, H2. split.
    - intros i [Hik Hi]%not_elem_of_cons. rewrite H1 by done. by apply activeAt_ne.
    - intros i. rewrite H2, elem_of_cons. specialize (H1 k Hk). destruct (activeAt ps' k) eqn:E.
      + rewrite elem_of_union, elem_of_singleton. split; [naive_solver|].
        intros [?|[[->|?] ?]]; [by left; right|by left; left|by right].
      + split; [naive_solver|]. intros [?|[[->|?] ?]]; [by left|congruence|by right]. }
  intros i. destruct (H ∅ ps) as [_ H2]. rewrite H2. set_solver.
Qed.

Lemma flushCanceled_active canceled a ps :
  let r := flushCanceled env t canceled a ps in
  (∀ i, i ∉ canceled → activeAt r.1 i = activeAt ps i) ∧ (∀ i, activeAt r.1 i = true → activeAt ps i = true) ∧
  ∀ i, i ∈ r.2 ↔ i ∈ a ∧ (i ∈ canceled → activeAt r.1 i = true).
Proof using.
  unfold flushCanceled. cbv zeta. setoid_rewrite <- (elem_of_elements canceled).
  pose proof (NoDup_elements canceled) as Hnd. revert a ps. generalize dependent (elements canceled).
  intros ks Hnd. induction Hnd as [|k ks Hk _ IH]; intros a ps; cbn [foldl]; [set_solver|]. cbv zeta.
  set (ps' := onProducerAt _ k ps). destruct (IH (if activeAt ps' k then a else a ∖ {[k]}) ps') as (H1 & H2 & H3).
  split_and!.
  - intros i [Hik Hi]%not_elem_of_cons. rewrite H1 by done. by apply activeAt_ne.
  - intros i Hi%H2. by eapply flush_at_off.
  - intros i. rewrite H3. specialize (H1 k Hk). destruct (activeAt ps' k) eqn:E.
    + split; intros [? Hi]; (split; [done|]); [|by intros ?; apply Hi; right].
      intros [->|?]%elem_of_cons; [done|auto].
    + rewrite elem_of_difference, elem_of_singleton. split.
      * intros [[? ?] Hi]. split; [done|]. intros [->|?]%elem_of_cons; [done|auto].
      * intros [? Hi]. split; [split; [done|intros ->]|intros; apply Hi; by right].
        rewrite Hi in H1 by left. congruence.
Qed.

Lemma activateMetrics_active routes b ps :
  let r := activateMetrics env t routes b ps in
  (∀ i, i ∉ routes.*2 → activeAt r.1 i = activeAt ps i) ∧ (∀ i, activeAt ps i = true → activeAt r.1 i = true) ∧
  (r.2 = true ↔ b = true ∨ ∃ i, i ∈ routes.*2 ∧ activeAt r.1 i = true).
Proof using.
  unfold activateMetrics. cbv zeta. revert b ps. induction routes as [|[j k] routes IH]; intros b ps; [set_solver|].
  cbn [foldl fmap list_fmap snd]. set (ps' := onProducerAt _ k ps).
  destruct (IH (b || activeAt ps' k) ps') as (H1 & H2 & H3). split_and!.
  - intros i [Hik Hi]%not_elem_of_cons. rewrite H1 by done. by apply activeAt_ne.
  - intros i Hi. apply H2. by apply at_on; [apply activate_on|].
  - rewrite H3, orb_true_iff. setoid_rewrite elem_of_cons. split.
    + intros [[?|?]|(i & ? & ?)]; [by left|right; exists k; auto|right; exists i; auto].
    + intros [?|(i & [->|?] & Hi)]; [auto| |right; eauto].
      destruct (decide (k ∈ routes.*2)); [right; eauto|]. rewrite H1 in Hi by done. auto.
Qed.
End steps.

(** ** The manager is active iff one of its metrics can be *)

Definition activeOk (m : MetricsManager) : Prop :=
  let c := mParts m in
  mm_isActive m = mIsAlwaysActive m || existsb (activeAt (cp_producers c)) (metricsWithActivation (cp_tables c)) ∧
  mIsAlwaysActive m = negb (length (metricsWithActivation (cp_tables c)) =? length (cp_producers c))%nat
                      || (length (cp_producers c) =? 0)%nat.

Lemma initialize_activeOk m : activeOk (initializeConfigActiveStatus m).
Proof.
  unfold activeOk, initializeConfigActiveStatus. cbn -[Nat.eqb]. split; [|done]. generalize (negb
    (length (metricsWithActivation (cp_tables (mParts m))) =? length (cp_producers (mParts m)))%nat
    || (length (cp_producers (mParts m)) =? 0)%nat).
  induction (metricsWithActivation _) as [|k ks IH]; intros b; cbn; [by rewrite orb_false_r|].
  rewrite IH. by rewrite orb_assoc.
Qed.

Lemma activeOk_sameRigid m m' :
  activeOk m → sameRigid (cp_producers (mParts m)) (cp_producers (mParts m')) →
  cp_tables (mParts m') = cp_tables (mParts m) → mm_isActive m' = mm_isActive m →
  mIsAlwaysActive m' = mIsAlwaysActive m → activeOk m'.
Proof.
  intros [H1 H2] Hs Ht Ha Hb. unfold activeOk. rewrite Ht, Ha, Hb, H1, H2.
  rewrite <- (Forall2_length _ _ _ Hs). split; [|done]. f_equal.
  clear -Hs. generalize (metricsWithActivation (cp_tables (mParts m))).
  induction l as [|k ks IH]; [done|]. cbn [existsb]. f_equal; [|done]. symmetry. by apply sameRigid_active.
Qed.

Lemma notifyConditions_rigid env t table caches ps : sameRigid ps (notifyConditions env t table caches ps).
Proof.
  unfold notifyConditions. revert ps. generalize (seq 0 (length (ec_changed caches))).
  induction l as [|k l IH]; intros ps; [done|]. cbn [foldl]. etrans; [|apply IH].
  destruct (default false _); [|done]. generalize (default [] (table !! k)). clear IH. intros ks. revert ps.
  induction ks as [|i ks IHks]; intros ps; [done|]. cbn [foldl]. etrans; [|apply IHks].
  unfold notifyCondition. apply sameRigid_at. intros m. cbv zeta.
  destruct (negb _); [apply any_condition_rigid|apply any_sliced_rigid].
Qed.
Lemma notifyMatched_rigid env event j i ps ps' : notifyMatched env event j i ps = Some ps' → sameRigid ps ps'.
Proof.
  unfold notifyMatched. destruct (ps !! i) as [p|] eqn:Hp; [|by intros [= <-]].
  destruct (any_onMatchedLogEvent _ _ _ _) as [m|] eqn:Em; [|done]. intros [= <-].
  apply Forall2_same_length_lookup_2; [by rewrite length_insert|]. intros k q q' Hq Hq'.
  destruct (decide (k = i)) as [->|Hne].
  - rewrite list_lookup_insert_eq in Hq' by (by eapply lookup_lt_Some). simplify_eq.
    by apply any_matched_rigid in Em.
  - rewrite list_lookup_insert_ne in Hq' by done. by simplify_eq.
Qed.
Lemma notifyMatchedMetrics_rigid env event table mc ps ps' :
  notifyMatchedMetrics env event table mc ps = Some ps' → sameRigid ps ps'.
Proof.
  unfold notifyMatchedMetrics.
  assert (Hout : ∀ l ops, foldl (λ ps i, if bool_decide (resultAt mc i = kMatched)
    then foldl (λ ps metricIndex, ps ← ps; notifyMatched env event i metricIndex ps) ps (default [] (table !! i))
    else ps) ops l = Some ps' → ∃ q, ops = Some q ∧ sameRigid q ps').
  { assert (Hin : ∀ j ks ops ps1, foldl (λ ps i, ps ← ps; notifyMatched env event j i ps) ops ks = Some ps1 →
      ∃ q, ops = Some q ∧ sameRigid q ps1).
    { intros j. induction ks as [|i ks IH]; intros ops ps1 H; [by exists ps1|]. apply IH in H as (q & H & Hq).
      destruct ops as [o|]; [|done]. exists o. split; [done|]. apply notifyMatched_rigid in H. by etrans. }
    induction l as [|k l IH]; intros ops H; [by exists ps'|]. cbn [foldl] in H. apply IH in H as (q & H & Hq).
    destruct (bool_decide _); [|by exists q]. apply Hin in H as (q' & -> & Hq'). exists q'. split; [done|]. by etrans. }
  intros H. apply Hout in H as (q & [= <-] & Hq). done.
Qed.

Lemma empty_set_iff (s : gset nat) (P : nat → Prop) :
  (∀ i, i ∈ s ↔ P i) → negb (bool_decide (s = ∅)) = true ↔ ∃ i, P i.
Proof.
  intros Hs. rewrite negb_true_iff, bool_decide_eq_false. split.
  - intros [i Hi]%set_choose_L. exists i. by apply Hs.
  - intros (i & Hi%Hs) ->. by apply not_elem_of_empty in Hi.
Qed.
Lemma existsb_elem {A} (f : A → bool) l : existsb f l = true ↔ ∃ x, x ∈ l ∧ f x = true.
Proof. rewrite existsb_exists. by setoid_rewrite list_elem_of_In. Qed.

Lemma processLogEvent_active w event config m m' :
  wiringOk config (mParts m) → processLogEvent w event m = Some m' →
  mm_isActive m' = mIsAlwaysActive m
    || existsb (activeAt (mAllMetricProducers m')) (metricsWithActivation (cp_tables (mParts m))).
Proof.
  intros Hw. unfold processLogEvent. cbv zeta. set (t := cp_tables (mParts m)). set (env := managerEnv w m).
  destruct (po_tables _ _ Hw) as (m2a & Hm2a & _).
  pose proof (withActivation_nodup config _ Hw m2a Hm2a) as Hnd. fold t in Hnd.
  pose proof (flushExpired_active env (GetElapsedTimestampNs event) _ (cp_producers (mParts m)) Hnd) as Hf.
  destruct (flushExpired env _ _ _) as [ps1 active]. cbn [fst snd] in Hf.
  destruct (negb (bool_decide (GetTagId event ∈ _))).
  { intros [= <-]. cbn. f_equal. apply eq_true_iff_eq. rewrite existsb_elem. by apply empty_set_iff. }
  destruct (evaluateAllMatchers _ _ _ _) as [mc|]; [|done]. cbn [mbind option_bind].
  set (dr := matchedRoutes mc (deactivationAtomTrackerToMetricMap t)).
  assert (Hc : ∀ i, activeAt (cancelActivations env dr ps1).1 i = activeAt ps1 i).
  { unfold cancelActivations. generalize (∅ : gset nat). clear -dr. revert ps1.
    induction dr as [|[j k] dr IH]; intros ps s i; [done|]. cbn [foldl]. rewrite IH, activeAt_at.
    case_bool_decide as Hk; [subst k|done]. unfold activeAt. destruct (ps !! i); [|done]. cbn. apply cancel_active. }
  destruct (cancelActivations env dr ps1) as [ps2 canceled]. cbn [fst] in Hc.
  pose proof (flushCanceled_active env (GetElapsedTimestampNs event) canceled active ps2) as (Hk1 & Hk2 & Hk3).
  destruct (flushCanceled env _ canceled active ps2) as [ps3 active2]. cbn [fst snd] in Hk1, Hk2, Hk3.
  assert (H3 : ∀ i, i ∈ active2 ↔ i ∈ metricsWithActivation t ∧ activeAt ps3 i = true).
  { intros i. rewrite Hk3, Hf. split.
    - intros [[? Hi] Hcan]. split; [done|]. destruct (decide (i ∈ canceled)); [auto|]. by rewrite Hk1, Hc.
    - intros [? Hi]. split; [|done]. split; [done|]. rewrite <- Hc. auto. }
  set (ar := matchedRoutes mc (activationAtomTrackerToMetricMap t)).
  set (b := mIsAlwaysActive _ || _).
  pose proof (activateMetrics_active env (GetElapsedTimestampNs event) ar b ps3) as (Ha1 & Ha2 & Ha3).
  destruct (activateMetrics env _ ar b ps3) as [ps4 isActive']. cbn [fst snd] in Ha1, Ha2, Ha3.
  destruct (evaluateConditions _ _ _ _ _) as [[conds caches]|]; [|done]. cbn [mbind option_bind].
  destruct (notifyMatchedMetrics _ _ _ _ _) as [ps5|] eqn:E; [|done]. cbn. intros [= <-].
  assert (Hr : sameRigid ps4 ps5) by (etrans; [apply notifyConditions_rigid|by eapply notifyMatchedMetrics_rigid]).
  cbn. apply eq_true_iff_eq. rewrite Ha3, orb_true_iff, existsb_elem.
  setoid_rewrite (λ i, sameRigid_active _ _ i Hr). unfold b. rewrite orb_true_iff.
  change (mIsAlwaysActive (set_active_status _ ?x _)) with x.
  rewrite (empty_set_iff _ _ H3). split.
  - intros [[?|(i & ? & ?)]|(i & Hi & ?)]; [by left|right; eauto|]. right. exists i. split; [|done].
    apply list_elem_of_fmap in Hi as ([j k] & -> & [_ Hk]%elem_of_matchedRoutes).
    by eapply (activators_withActivation config _ Hw m2a Hm2a).
  - intros [?|(i & Hi & Hact)]; [auto|]. destruct (decide (i ∈ ar.*2)); [right; eauto|].
    left. right. exists i. split; [done|]. by rewrite <- Ha1.
Qed.

(** ** Histories *)

(** What every operation keeps, next to the wiring: operations that do not touch activations keep
    [sameRigid]. *)
Lemma quiet_op config m m' :
  wiringOk config (mParts m) → activeOk m →
  sameRigid (cp_producers (mParts m)) (cp_producers (mParts m')) →
  (mParts m' = set_producers (cp_producers (mParts m')) (mParts m) ∨
   ∃ alarms monitor, mParts m' = set_alarms alarms monitor (mParts m)) →
  mm_isActive m' = mm_isActive m → mIsAlwaysActive m' = mIsAlwaysActive m →
  wiringOk config (mParts m') ∧ activeOk m'.
Proof.
  intros Hw Ha Hs Hp H1 H2. split.
  - destruct Hp as [-> |(alarms & monitor & ->)]; [by apply wiring_set_producers, sameRigid_sameMetrics|].
    destruct Hw. by split.
  - eapply activeOk_sameRigid; try done. by destruct Hp as [-> |(? & ? & ->)].
Qed.

Lemma onProducers_ok config f m :
  (∀ x, any_rigid (f x) = any_rigid x) → wiringOk config (mParts m) → activeOk m →
  wiringOk config (mParts (onProducers f m)) ∧ activeOk (onProducers f m).
Proof.
  intros Hf Hw Ha. eapply quiet_op; try done; [by apply sameRigid_fmap|by left].
Qed.
Lemma set_sources_ok config s m :
  wiringOk config (mParts m) ∧ activeOk m → wiringOk config (mParts (set_sources s m)) ∧ activeOk (set_sources s m).
Proof. done. Qed.

Lemma dumped_rigid env t include erase latency noReport ps :
  sameRigid ps (dumpProducer env t include erase latency noReport <$> ps).*2.
Proof.
  rewrite <- list_fmap_compose. apply Forall2_fmap_r, Forall_Forall2_diag, Forall_forall. intros p _. cbn.
  unfold dumpProducer. destruct (bool_decide _); [apply any_clear_rigid|].
  pose proof (any_dump_rigid env t include erase latency (pr_metric p)) as H.
  destruct (any_onDumpReport _ _ _ _ _ _) as [r m]. exact H.
Qed.
Lemma anomalyAlarms_rigid t refs : ∀ s, sameRigid s.1 (foldl (alertAlarmsFired t) s refs).1.
Proof.
  induction refs as [|r refs IH]; intros s; [done|]. cbn [foldl]. etrans; [|apply IH].
  unfold alertAlarmsFired. destruct (alertAt s.1 r) as [[a|a]|]; [done| |done].
  destruct (duration_informAlarmsFired _ _ _) as [a' fired]. apply sameRigid_at. intros m. apply setTracker_rigid.
Qed.
Lemma loadAlert_ok config wall t c d :
  wiringOk config c →
  let c' := loadAlert wall t c d in sameRigid (cp_producers c) (cp_producers c') ∧ c' = set_producers (cp_producers c') c.
Proof.
  intros _. cbv zeta. unfold loadAlert. destruct (cp_alertMap c !! _) as [i|]; [|split; [done|by destruct c]].
  destruct (cp_alerts c !! i ≫= _) as [[r a]|]; [|split; [done|by destruct c]]. split; [|by destruct c].
  apply sameRigid_at. intros m. apply setTracker_rigid.
Qed.
Lemma loadAlerts_ok config wall t l : ∀ c,
  wiringOk config c →
  let c' := foldl (loadAlert wall t) c l in
  sameRigid (cp_producers c) (cp_producers c') ∧ c' = set_producers (cp_producers c') c.
Proof.
  induction l as [|d l IH]; intros c Hw; [split; [done|by destruct c]|]. cbn [foldl]. cbv zeta.
  destruct (loadAlert_ok config wall t c d Hw) as [Hs Heq].
  assert (wiringOk config (loadAlert wall t c d)) as Hw'.
  { rewrite Heq. by apply wiring_set_producers, sameRigid_sameMetrics. }
  destruct (IH _ Hw') as [Hs' Heq']. split; [by etrans|]. etrans; [exact Heq'|].
  generalize (cp_producers (foldl (loadAlert wall t) (loadAlert wall t c d) l)). intros ps. by rewrite Heq.
Qed.

(** Loading saved activations. *)
Lemma loadActive_step env am t ks : ∀ s,
  let r := foldl (loadActiveMetric env am t) s ks in
  sameMetrics s.1 r.1 ∧ (∀ i, i ∉ ks → activeAt r.1 i = activeAt s.1 i) ∧
  (∀ i, activeAt s.1 i = true → activeAt r.1 i = true) ∧
  (r.2 = true → s.2 = true ∨ ∃ i, i ∈ ks ∧ activeAt r.1 i = true) ∧ (s.2 = true → r.2 = true) ∧
  (∀ i, i ∈ ks → activeAt r.1 i = true → activeAt s.1 i = true ∨ r.2 = true).
Proof.
  induction ks as [|k ks IH]; intros [ps b].
  { cbv zeta. cbn [foldl fst snd]. split_and!; try done; [auto|]. by intros i []%not_elem_of_nil. }
  cbv zeta. cbn [foldl]. set (s' := loadActiveMetric env am t (ps, b) k).
  assert (Hs : sameMetrics ps s'.1 ∧ (∀ i, i ≠ k → activeAt s'.1 i = activeAt ps i) ∧
    (∀ i, activeAt ps i = true → activeAt s'.1 i = true) ∧
    (b = true → s'.2 = true) ∧ (s'.2 = true → b = true ∨ activeAt s'.1 k = true) ∧
    (activeAt s'.1 k = true → activeAt ps k = true ∨ s'.2 = true)).
  { subst s'. unfold loadActiveMetric. cbn [fst snd]. destruct (ps !! k) as [p|] eqn:Hp; [|naive_solver].
    destruct (_ =? _); [|naive_solver]. cbn [fst snd].
    set (ps' := onProducerAt _ k ps). split_and!.
    - apply sameMetrics_at. intros m. apply load_keeps.
    - intros i Hi. by apply activeAt_ne.
    - intros i Hi. apply at_on; [apply load_on|done].
    - intros ->. done.
    - rewrite orb_true_iff. naive_solver.
    - intros ->. right. apply orb_true_r. }
  destruct Hs as (Hs1 & Hs2 & Hs3 & Hs5 & Hs6 & Hs7).
  destruct (IH s') as (H1 & H2 & H3 & H4 & H5 & H6). cbv zeta in *. cbn [fst snd] in *.
  split_and!.
  - by etrans.
  - intros i [Hik Hi]%not_elem_of_cons. rewrite H2 by done. by apply Hs2.
  - auto.
  - intros Hr. setoid_rewrite elem_of_cons. destruct (H4 Hr) as [Hs'|(i & ? & ?)]; [|naive_solver].
    destruct (Hs6 Hs') as [?|Hk]; [by left|]. right. exists k. auto.
  - auto.
  - intros i [->|Hi]%elem_of_cons Hact.
    + destruct (decide (k ∈ ks)) as [Hin|Hout].
      * destruct (H6 k Hin Hact) as [Hk|]; [|auto]. destruct (Hs7 Hk); auto.
      * rewrite H2 in Hact by done. destruct (Hs7 Hact); auto.
    + destruct (H6 i Hi Hact) as [Hk|]; [|auto]. destruct (decide (i = k)) as [->|Hne].
      * destruct (Hs7 Hk); auto.
      * rewrite Hs2 in Hk by done. auto.
Qed.

(** The flag of the manager, up to metrics that are always on. *)
Definition flagOk (always : bool) (ks : list nat) (s : list Producer * bool) : Prop :=
  s.2 = always || existsb (activeAt s.1) ks.

Lemma loadActive_flag env am t always ks s :
  flagOk always ks s →
  flagOk always ks (foldl (loadActiveMetric env am t) s ks) ∧
  sameMetrics s.1 (foldl (loadActiveMetric env am t) s ks).1.
Proof.
  intros Hs. destruct (loadActive_step env am t ks s) as (H1 & _ & H3 & H4 & H5 & H6). split; [|done].
  unfold flagOk in *. apply eq_true_iff_eq. apply eq_iff_eq_true in Hs.
  rewrite orb_true_iff, existsb_elem in *. split.
  - intros [[?|(i & ? & ?)]%Hs|?]%H4; [by left|right; eauto|by right].
  - intros [?|(i & Hi & Hact)]; [apply H5, Hs; by left|].
    destruct (H6 i Hi Hact); [|done]. apply H5, Hs. right. eauto.
Qed.
Lemma loadActives_flag env t always ks saved : ∀ s,
  flagOk always ks s →
  let r := foldl (λ s am, foldl (loadActiveMetric env am t) s ks) s saved in
  flagOk always ks r ∧ sameMetrics s.1 r.1.
Proof.
  induction saved as [|am saved IH]; intros s Hs; [done|]. cbn [foldl]. cbv zeta.
  destruct (loadActive_flag env am t always ks s Hs) as [Hf Hm]. destruct (IH _ Hf) as [Hf' Hm'].
  split; [done|]. by etrans.
Qed.

Lemma op_invariant atoms w config m m' :
  ManagerOp atoms w m m' → wiringOk config (mParts m) → activeOk m → wiringOk config (mParts m') ∧ activeOk m'.
Proof.
  intros Hop Hw Ha. destruct Hop as [event m m' H|t apk m|t apk m|m|t m|m|t m|t wall include erase latency m
    |t fired m|t fresh fired m|saved t m|saved wall t m|t m|i t atom key old new m].
  - rewrite onLogEvent_accepted in H. destruct (accepts _ _ _ _); [|by injection H as <-].
    pose proof (processLogEvent_run w event m) as Hrun. rewrite H in Hrun.
    pose proof (processLogEvent_active w event config m m' Hw H) as Hact.
    destruct (eventCalls w event m) as [[trace conds]|] eqn:Ec; [|done]. cbv zeta in Hrun.
    destruct Hrun as (Hr & Hc & Hf). apply run_sameMetrics in Hr.
    assert (Hlen : length (cp_conditions (mParts m')) = length (cp_conditions (mParts m))).
    { rewrite Hc. unfold eventCalls in Ec. cbv zeta in Ec. destruct (negb _); [by injection Ec as _ <-|].
      destruct (evaluateAllMatchers _ _ _ _); [|done]. cbn [mbind option_bind] in Ec.
      destruct (evaluateConditions _ _ _ _ _) as [[cs caches]|] eqn:Ev; [|done].
      apply evaluateConditions_length in Ev. injection Ec as _ <-. done. }
    destruct Ha as [_ Ha2]. unfold activeOk. unfold eventFrame in Hf. split; [|split].
    + rewrite Hf. by apply wiring_producers.
    + rewrite Hf at 2 4. exact Hact.
    + rewrite Hf at 1 2. cbn -[Nat.eqb]. rewrite Ha2. unfold mAllMetricProducers in Hr.
      by rewrite (Forall2_length _ _ _ Hr).
  - apply set_sources_ok, onProducers_ok; [apply any_upgrade_rigid|done..].
  - apply set_sources_ok, onProducers_ok; [apply any_upgrade_rigid|done..].
  - done.
  - apply onProducers_ok; [apply any_initCompleted_rigid|done..].
  - apply onProducers_ok; [apply any_prepare_rigid|done..].
  - apply onProducers_ok; [apply any_drop_rigid|done..].
  - assert (Hq : wiringOk config (mParts (set_parts (set_producers (dumpProducer (managerEnv w m) t include erase
      latency (cp_noReport (mParts m)) <$> mAllMetricProducers m).*2 (mParts m)) m)) ∧
      activeOk (set_parts (set_producers (dumpProducer (managerEnv w m) t include erase
      latency (cp_noReport (mParts m)) <$> mAllMetricProducers m).*2 (mParts m)) m)).
    { eapply quiet_op; try done; [apply dumped_rigid|by left]. }
    by destruct erase.
  - unfold onAnomalyAlarmFired.
    pose proof (anomalyAlarms_rigid t (cp_alerts (mParts m)) (cp_producers (mParts m), fired)) as Hs.
    destruct (foldl _ _ _) as [ps rest]. eapply quiet_op; try done. by left.
  - unfold onPeriodicAlarmFired. destruct (alarmsFired _ _ _ _ _) as [[[ts rest] monitor] triggered].
    eapply quiet_op; try done. right. eauto.
  - unfold loadActiveConfig. destruct Ha as [Ha1 Ha2].
    pose proof (loadActives_flag (managerEnv w m) t (mIsAlwaysActive m)
      (metricsWithActivation (cp_tables (mParts m))) saved (cp_producers (mParts m), mm_isActive m) Ha1) as [Hf Hs].
    destruct (foldl _ _ _) as [ps active]. split; [by apply wiring_set_producers|]. split; [exact Hf|].
    cbn -[Nat.eqb]. rewrite Ha2. cbn [fst] in Hs. by rewrite (Forall2_length _ _ _ Hs).
  - destruct (loadAlerts_ok config wall t saved (mParts m) Hw) as [Hs Heq].
    eapply quiet_op; try done. by left.
  - unfold refreshTtl. by destruct (0 <? mTtlNs m).
  - eapply quiet_op; try done; [apply sameRigid_at; intros; apply any_state_rigid|by left].
Qed.

Lemma valid_parts config m b : wiringOk config (mParts m) → wiringOk config (mParts (set_valid b m)).
Proof. done. Qed.

Lemma manages_invariant atoms config m :
  manages atoms config m → wiringOk (mc_config config) (mParts m) ∧ activeOk m.
Proof.
  induction 1 as [ser limits uninit w am pm fresh key config timeBase now wall m H
    |ser limits uninit w am pm fresh old config timeBase now m m' _ [IHw _] H|w config m m' _ [IHw IHa] H].
  - split; [by eapply new_wiring|]. unfold MetricsManager_new in H. apply outcome_bind_Done in H as (parts & _ & H).
    destruct (createAllLogSourcesFromConfig _ _ _). injection H as <-. apply initialize_activeOk.
  - unfold updateConfig in H. apply outcome_bind_Done in H as (parts & E & H).
    eapply updateStatsdConfig_ok, po_wiring in E; [|done].
    destruct (createAllLogSourcesFromConfig _ _ _) as [sources ok].
    injection H as <-. split; [|apply initialize_activeOk]. unfold verifyGuardrailsAndUpdateStatsdStats, refreshTtl.
    by destruct (0 <? _), (verifyGuardrails _).
  - by eapply op_invariant.
Qed.

(** The tables that operations do not touch. *)
Definition routes (c : ConfigParts) := (cp_trackerToCondition c, cp_alerts c, cp_alertMap c, cp_listeners c).

Lemma routesOk_same config c c' : routes c' = routes c → routesOk config c → routesOk config c'.
Proof. intros [= E1 E2 E3 E4] [H1 H2 H3 H4 H5]. split; by rewrite ?E1, ?E2, ?E3, ?E4. Qed.

Lemma op_routes atoms w config m m' : ManagerOp atoms w m m' → wiringOk config (mParts m) → routes (mParts m') = routes (mParts m).
Proof.
  intros Hop Hw. destruct Hop as [event m m' H|t apk m|t apk m|m|t m|m|t m|t wall include erase latency m
    |t fired m|t fresh fired m|saved t m|saved wall t m|t m|i t atom key old new m]; try done.
  - rewrite onLogEvent_accepted in H. destruct (accepts _ _ _ _); [|by injection H as <-].
    pose proof (processLogEvent_run w event m) as Hrun. rewrite H in Hrun.
    destruct (eventCalls w event m) as [[trace conds]|]; [|done]. cbv zeta in Hrun. destruct Hrun as (_ & _ & Hf).
    unfold eventFrame in Hf. by rewrite Hf.
  - by destruct erase.
  - unfold onAnomalyAlarmFired. by destruct (foldl _ _ _) as [ps rest].
  - unfold onPeriodicAlarmFired. by destruct (alarmsFired _ _ _ _ _) as [[[ts rest] monitor] triggered].
  - unfold loadActiveConfig. by destruct (foldl _ _ _) as [ps active].
  - destruct (loadAlerts_ok config wall t saved (mParts m) Hw) as [_ Heq].
    change (routes (foldl (loadAlert wall t) (mParts m) saved) = routes (mParts m)). by rewrite Heq.
  - unfold refreshTtl. by destruct (0 <? mTtlNs m).
Qed.

Lemma manages_routes atoms config m : manages atoms config m → routesOk (mc_config config) (mParts m).
Proof.
  induction 1 as [ser limits uninit w am pm fresh key config timeBase now wall m H
    |ser limits uninit w am pm fresh old config timeBase now m m' Hm _ H|w config m m' Hm IH H].
  - unfold MetricsManager_new in H. apply outcome_bind_Done in H as (parts & E & H). apply initStatsdConfig_routes in E.
    destruct (createAllLogSourcesFromConfig _ _ _) as [sources ok]. injection H as <-.
    unfold verifyGuardrailsAndUpdateStatsdStats, refreshTtl. by destruct (0 <? _), (verifyGuardrails _).
  - unfold updateConfig in H. apply outcome_bind_Done in H as (parts & E & H).
    eapply updateStatsdConfig_routes in E; [|by apply (manages_invariant atoms old)].
    destruct (createAllLogSourcesFromConfig _ _ _) as [sources ok]. injection H as <-.
    unfold verifyGuardrailsAndUpdateStatsdStats, refreshTtl. by destruct (0 <? _), (verifyGuardrails _).
  - eapply routesOk_same; [|exact IH]. eapply op_routes; [exact H|]. by apply (manages_invariant atoms config).
Qed.

(** ** Theorems *)

(** C10: The parts of a manager fit together in every state it can reach, through updates: there is one producer per metric message,
    in order, with its id and kind, and one tracker per matcher, condition and alert; the maps of matchers, conditions, metrics and
    alerts lead from an id to the position of the message with that id; the tables from matchers to metrics, activations,
    deactivations and conditions, from conditions to metrics, the list of metrics with activations, the alerts and the listeners of
    states only hold positions that exist, so no access of an event goes out of range. *)
Theorem manager_parts_fit atoms config m :
  manages atoms config m →
  let c := mParts m in
  let t := cp_tables c in
  let metric i := (i < length (cp_producers c))%nat in
  let matcher j := (j < length (cp_matchers c))%nat in
  Forall2 (λ msg p, getMetricId (pr_metric p) = msg_id msg ∧ getMetricType (pr_metric p) = msg_type msg)
    (cfg_metrics (mc_config config)) (cp_producers c) ∧
  (∀ j i, i ∈ default [] (trackerToMetricMap t !! j) → metric i ∧ matcher j) ∧
  (∀ j i, i ∈ default [] (activationAtomTrackerToMetricMap t !! j) → metric i ∧ matcher j) ∧
  (∀ j i, i ∈ default [] (deactivationAtomTrackerToMetricMap t !! j) → metric i ∧ matcher j) ∧
  (∀ j i, i ∈ default [] (conditionToMetricMap t !! j) → metric i ∧ (j < length (cp_conditions c))%nat) ∧
  (∀ i, i ∈ metricsWithActivation t → metric i) ∧
  (∀ id i, cp_metricMap c !! id = Some i →
     ∃ p, cp_producers c !! i = Some p ∧ getMetricId (pr_metric p) = id) ∧
  (length (cp_matchers c) = length (cfg_atom_matcher (mc_config config)) ∧
   ∀ id j, cp_matcherMap c !! id = Some j ↔ (am_id <$> cfg_atom_matcher (mc_config config)) !! j = Some id) ∧
  (length (cp_conditions c) = length (cfg_predicate (mc_config config)) ∧
   ∀ id j, cp_conditionMap c !! id = Some j ↔ (pr_id <$> cfg_predicate (mc_config config)) !! j = Some id) ∧
  (∀ j l, cp_trackerToCondition c !! j = Some l →
     0 ≤ j < Z.of_nat (length (cp_matchers c)) ∧ Forall (λ i, (i < length (cp_conditions c))%nat) l) ∧
  (length (cp_alerts c) = length (cfg_alert (mc_config config)) ∧
   ∀ id i, cp_alertMap c !! id = Some i → (alert_id <$> cfg_alert (mc_config config)) !! i = Some id) ∧
  (∀ r, r ∈ cp_alerts c → metric (ar_metric r)) ∧
  (∀ l, l ∈ cp_listeners c → metric l.2) ∧
  (∀ id, id ∈ cp_noReport c → is_Some (cp_metricMap c !! id)).
Proof.
  intros Hmanages. destruct (manages_routes _ _ _ Hmanages) as [R1 R2 R3 R4 R5]. apply manages_invariant in Hmanages as [Hw _]. cbv zeta.
  destruct (po_matchers _ _ Hw) as [Mp Ml]. destruct (po_conditions _ _ Hw) as [Cp Cl]. rewrite (length_fmap am_id) in Ml. rewrite (length_fmap pr_id) in Cl. destruct (po_tables _ _ Hw) as (m2a & Hm2a & _).
  pose proof (po_metrics _ _ Hw) as Hp. pose proof (Forall2_length _ _ _ Hp) as Hlen. split; [exact Hp|].
  rewrite (tables_registered _ _ Hw m2a Hm2a).
  assert (Hn : ∀ n msg, cfg_metrics (mc_config config) !! n = Some msg → (0 + n < length (cp_producers (mParts m)))%nat).
  { intros n msg ?%lookup_lt_Some. lia. }
  assert (Hj : ∀ ids j, j ∈ indices (cp_matcherMap (mParts m)) ids → (j < length (cp_matchers (mParts m)))%nat).
  { intros ids j (id & _ & H)%elem_of_indices. eapply indexed_lt; [apply (po_matchers _ _ Hw)|exact H]. }
  split_and!.
  - intros j i. rewrite registered_matchers. intros [[]%not_elem_of_nil|(n & msg & H & -> & ?)]. split; eauto.
  - intros j i. rewrite registered_activators. intros [[]%not_elem_of_nil|(n & msg & H & -> & _ & ?)]. split; eauto.
  - intros j i. rewrite registered_deactivators. intros [[]%not_elem_of_nil|(n & msg & H & -> & _ & ?)]. split; eauto.
  - intros j i. rewrite registered_conditions. intros [[]%not_elem_of_nil|(n & msg & H & -> & Hc)]. split; [eauto|].
    apply elem_of_indices in Hc as (id & _ & Hid). eapply indexed_lt; [apply (po_conditions _ _ Hw)|exact Hid].
  - intros i. rewrite registered_withActivation. intros [[]%not_elem_of_nil|(n & msg & H & -> & ?)]. eauto.
  - intros id i Hi. apply (po_metricMap _ _ Hw) in Hi. apply list_lookup_fmap_Some in Hi as (msg & -> & Hmsg).
    destruct (Forall2_lookup_l _ _ _ _ _ Hp Hmsg) as (p & Hpp & Hid & _). eauto.
  - done.
  - exact Mp.
  - done.
  - exact Cp.
  - intros j l Hjl. rewrite Ml, Cl. by apply R1.
  - done.
  - apply R4.
  - rewrite <- Hlen. by apply Forall_forall.
  - rewrite <- Hlen. by apply Forall_forall.
  - apply (po_noReport _ _ Hw).
Qed.

(** The metrics of a configuration that have activations. *)
Definition hasActivation (config : StatsdConfig) (msg : MetricMessage) : Prop :=
  ∃ m2a, activationIndex config = Some m2a ∧ is_Some (m2a !! msg_id msg).

Lemma nodup_covers ks n : NoDup ks → (∀ k, k ∈ ks → (k < n)%nat) →
  length ks = n ↔ ∀ k, (k < n)%nat → k ∈ ks.
Proof.
  intros Hnd Hlt. assert (Hsub : ks ⊆+ seq 0 n).
  { apply NoDup_submseteq; [done|]. intros k Hk%Hlt. apply elem_of_seq. lia. }
  split.
  - intros Hlen k Hk. assert (ks ≡ₚ seq 0 n) as ->.
    { apply submseteq_length_Permutation; [done|]. rewrite length_seq. lia. }
    apply elem_of_seq. lia.
  - intros Hall. apply submseteq_length in Hsub. rewrite length_seq in Hsub.
    assert (seq 0 n ⊆+ ks) as H%submseteq_length.
    { apply NoDup_submseteq; [apply NoDup_seq|]. intros k Hk%elem_of_seq. apply Hall. lia. }
    rewrite length_seq in H. lia.
Qed.

(** C11: In every state it can reach, a manager says it is active exactly when it has no metric, has a metric
    without activations, or one of its metrics with activations is active: no history of events,
    cancellations, expired activations, restored activations and configuration updates gets the flag out
    of step. *)
Theorem manager_active_iff atoms config m :
  manages atoms config m →
  mm_isActive m = true ↔
    cfg_metrics (mc_config config) = []
    ∨ (∃ msg, msg ∈ cfg_metrics (mc_config config) ∧ ¬ hasActivation (mc_config config) msg)
    ∨ ∃ i msg p, cfg_metrics (mc_config config) !! i = Some msg ∧ hasActivation (mc_config config) msg ∧
        mAllMetricProducers m !! i = Some p ∧ isActive (pr_metric p) = true.
Proof.
  intros [Hw [Ha1 Ha2]]%manages_invariant. destruct (po_tables _ _ Hw) as (m2a & Hm2a & _).
  pose proof (Forall2_length _ _ _ (po_metrics _ _ Hw)) as Hlen.
  assert (Hact : ∀ msg, hasActivation (mc_config config) msg ↔ is_Some (m2a !! msg_id msg)).
  { intros msg. unfold hasActivation. rewrite Hm2a. naive_solver. }
  setoid_rewrite Hact. pose proof (withActivation_msg _ _ Hw m2a Hm2a) as Hk.
  assert (Halways : mIsAlwaysActive m = true ↔ cfg_metrics (mc_config config) = [] ∨
    ∃ msg, msg ∈ cfg_metrics (mc_config config) ∧ ¬ is_Some (m2a !! msg_id msg)).
  { rewrite Ha2, orb_true_iff, negb_true_iff, Nat.eqb_neq, Nat.eqb_eq.
    rewrite nodup_covers by (by apply (withActivation_nodup _ _ Hw m2a Hm2a)
      || (intros k (msg & H%lookup_lt_Some & _)%Hk; lia)).
    rewrite <- Hlen, length_zero_iff_nil. split.
    - intros [Hn|]; [right|by left]. apply Exists_exists.
      destruct (decide (Exists (λ msg, ¬ is_Some (m2a !! msg_id msg)) (cfg_metrics (mc_config config)))) as [|Hno]; [done|].
      exfalso. apply Hn. intros k Hlt. apply Hk. destruct (lookup_lt_is_Some_2 _ _ Hlt) as [msg Hmsg].
      exists msg. split; [done|]. apply dec_stable. intros Hs. apply Hno, Exists_exists.
      exists msg. split; [by eapply list_elem_of_lookup_2|done].
    - intros [?|(msg & [k Hmsg]%list_elem_of_lookup & Hs)]; [by right|left]. intros Hall.
      assert (k ∈ metricsWithActivation (cp_tables (mParts m))) as (msg' & Hmsg' & ?)%Hk.
      { apply Hall. by eapply lookup_lt_Some. }
      by simplify_eq. }
  assert (Hsome : (∃ i, i ∈ metricsWithActivation (cp_tables (mParts m)) ∧ activeAt (cp_producers (mParts m)) i = true) ↔
    ∃ i msg p, cfg_metrics (mc_config config) !! i = Some msg ∧ is_Some (m2a !! msg_id msg) ∧
      mAllMetricProducers m !! i = Some p ∧ isActive (pr_metric p) = true).
  { unfold activeAt, mAllMetricProducers. split.
    - intros (i & (msg & Hmsg & Hs)%Hk & Hi).
      destruct (cp_producers (mParts m) !! i) as [p|] eqn:Hp; [|done]. by exists i, msg, p.
    - intros (i & msg & p & Hmsg & Hs & Hp & Hi). exists i. split; [apply Hk; eauto|]. by rewrite Hp. }
  rewrite Ha1, orb_true_iff, existsb_elem, Halways, Hsome. tauto.
Qed.

(** ** The example *)

Lemma after_manages events m : afterEvents events = Some m → manages exampleAtoms exampleConfig m.
Proof.
  unfold afterEvents. destruct exampleNew as [m0| |] eqn:E; [|done|done].
  assert (Hm0 : manages exampleAtoms exampleConfig m0) by (eapply manages_new; exact E). clear E.
  revert m0 Hm0. induction events as [|e events IH]; intros m0 Hm0 H; [by injection H as <-|].
  cbn [foldl mbind option_bind] in H. destruct (metrics_onLogEvent exampleAtoms exampleWorld e m0) as [m1|] eqn:E1.
  - apply (IH m1); [|done]. eapply manages_op; [done|]. by eapply op_event.
  - exfalso. clear IH. induction events as [|e' events IH]; [done|auto].
Qed.

Example example_history :
  (λ es, mm_isActive <$> afterEvents es) <$>
    [[]; [exampleEvent 11 5]; [exampleEvent 11 5; exampleEvent 10 6]; [exampleEvent 11 5; exampleEvent 12 7];
     [exampleEvent 11 5; exampleEvent 13 (61 * NS_PER_SEC)]]
  = [Some false; Some true; Some true; Some true; Some false].
Proof. vm_compute. reflexivity. Qed.

Lemma manager_parts_fit_witness :
  ∃ m, afterEvents [exampleEvent 11 5] = Some m ∧
    (∀ j i, i ∈ default [] (deactivationAtomTrackerToMetricMap (cp_tables (mParts m)) !! j) →
       (i < length (cp_producers (mParts m)))%nat ∧ (j < length (cp_matchers (mParts m)))%nat) ∧
    deactivationAtomTrackerToMetricMap (cp_tables (mParts m)) !! 2%nat = Some [0%nat].
Proof.
  assert (El : (λ m, deactivationAtomTrackerToMetricMap (cp_tables (mParts m)) !! 2%nat) <$>
    afterEvents [exampleEvent 11 5] = Some (Some [0%nat])) by (vm_compute; reflexivity).
  destruct (afterEvents [exampleEvent 11 5]) as [m|] eqn:E; [|discriminate El]. exists m. split; [done|].
  injection El as El. split; [|done].
  apply (manager_parts_fit exampleAtoms exampleConfig m). by eapply after_manages.
Defined.

Lemma manager_active_iff_witness :
  ∃ m i msg p, afterEvents [exampleEvent 11 5; exampleEvent 12 7] = Some m ∧
    cfg_metrics exampleStatsdConfig !! i = Some msg ∧ msg_id msg = 101 ∧
    mAllMetricProducers m !! i = Some p ∧ isActive (pr_metric p) = true.
Proof.
  assert (El : (λ m, (mm_isActive m, isActive ∘ pr_metric <$> mAllMetricProducers m)) <$>
    afterEvents [exampleEvent 11 5; exampleEvent 12 7] = Some (true, [false; true])) by (vm_compute; reflexivity).
  destruct (afterEvents _) as [m|] eqn:E; [|discriminate El]. exists m. injection El as Ha Hl.
  destruct (proj1 (manager_active_iff exampleAtoms exampleConfig m (after_manages _ _ E)) Ha)
    as [H|[(msg & Hmsg & H)|(i & msg & p & Hi & _ & Hp & Hact)]].
  - discriminate H.
  - exfalso. apply H. exists {[100 := 0%nat; 101 := 1%nat]}. split; [vm_compute; reflexivity|].
    apply list_elem_of_In in Hmsg. destruct Hmsg as [<-|[<-|[]]]; vm_compute; by eexists.
  - exists i, msg, p. split; [done|]. split; [exact Hi|]. split; [|by split]. clear E. destruct i as [|[|i]]; [exfalso|by injection Hi as <-|done].
    apply (f_equal (λ l, l !! 0%nat)) in Hl. rewrite list_lookup_fmap, Hp in Hl. injection Hl as Hl. unfold compose in Hl. congruence.
Defined.
