(* ===== verification/MetricsUpdateFacts.v ===== *)
(** * Facts on configuration updates

    Which metrics an update keeps, that a kept metric keeps what it has collected, and that the tables after an
    update are those a restart with the new configuration would build. *)
From Stdlib Require Import Sorted.
From stdpp Require Import sorting.
From S2P Require Import Prelude Hash UMap FieldValue DimensionKey Matchers MatcherTrackers Conditions.
From S2P Require Import MatcherTrackersFacts ConditionsFacts.
From S2P Require Import ConfigUpdate ConfigUpdateFacts Alarms Anomaly State MetricProducer CountMetric.
From S2P Require Import MetricShared EventMetric GaugeMetric ValueMetric DurationTrackers DurationMetric.
From S2P Require Import AnyMetric AnyMetricFacts MetricsConfig MetricsUpdate MetricsConfigFacts ConfigParts.
From S2P Require Import MetricsManager MetricsManagerFacts ManagerInvariants.

(** ** Intersections of sorted ranges *)

Lemma set_intersection_elem l1 : ∀ l2 x,
  StronglySorted Z.le l1 → StronglySorted Z.le l2 → x ∈ set_intersection l1 l2 ↔ x ∈ l1 ∧ x ∈ l2.
Proof.
  induction l1 as [|a l1 IH1]; intros l2 x H1.
  { intros _. destruct l2; cbn; set_solver. }
  apply StronglySorted_inv in H1 as [H1 Ha]. rewrite List.Forall_forall in Ha.
  induction l2 as [|b l2 IH2]; intros H2; [cbn; set_solver|].
  pose proof H2 as [H2' Hb]%StronglySorted_inv. rewrite List.Forall_forall in Hb. cbn [set_intersection].
  destruct (Z.ltb_spec a b).
  - rewrite IH1 by done. rewrite (elem_of_cons l1 x a). split; [tauto|]. intros [[->|?] Hx]; [|done]. exfalso.
    apply elem_of_cons in Hx as [->|Hx]; [lia|]. apply list_elem_of_In, Hb in Hx. lia.
  - destruct (Z.ltb_spec b a).
    + change (x ∈ set_intersection (a :: l1) l2 ↔ x ∈ a :: l1 ∧ x ∈ b :: l2). rewrite IH2 by done.
      rewrite (elem_of_cons l2 x b). split; [tauto|]. intros [Hx [->|?]]; [exfalso|done].
      apply elem_of_cons in Hx as [->|Hx]; [lia|]. apply list_elem_of_In, Ha in Hx. lia.
    + assert (a = b) as -> by lia. rewrite !elem_of_cons, IH1 by done. tauto.
Qed.

Lemma sorted_sorted s : StronglySorted Z.le (sorted s).
Proof. apply StronglySorted_merge_sort; apply _. Qed.
Lemma elem_of_sorted x s : x ∈ sorted s ↔ x ∈ s.
Proof. unfold sorted. by rewrite merge_sort_Permutation, elem_of_elements. Qed.

Lemma intersects_sorted l s : StronglySorted Z.le l → intersects l s = true ↔ ∃ x, x ∈ l ∧ x ∈ s.
Proof.
  intros Hl. unfold intersects. rewrite negb_true_iff, bool_decide_eq_false.
  pose proof (λ x, set_intersection_elem l (sorted s) x Hl (sorted_sorted s)) as H.
  setoid_rewrite elem_of_sorted in H. split.
  - destruct (set_intersection l (sorted s)) as [|x l'] eqn:E; [done|]. intros _. exists x. apply H. left.
  - intros (x & Hx%H) E. rewrite E in Hx. by apply not_elem_of_nil in Hx.
Qed.
Lemma intersects_sets s s' : intersects (sorted s) s' = true ↔ ∃ x, x ∈ s ∧ x ∈ s'.
Proof. rewrite intersects_sorted by apply sorted_sorted. by setoid_rewrite elem_of_sorted. Qed.

(** Nothing else is found in ranges that are not sorted. *)
Lemma set_intersection_sub l1 : ∀ l2 x, x ∈ set_intersection l1 l2 → x ∈ l1 ∧ x ∈ l2.
Proof.
  induction l1 as [|a l1 IH1]; intros l2 x; [destruct l2; cbn; set_solver|].
  induction l2 as [|b l2 IH2]; [cbn; set_solver|]. cbn [set_intersection]. destruct (Z.ltb_spec a b) as [|Hba].
  - intros [? ?]%IH1. set_solver.
  - destruct (Z.ltb_spec b a).
    + change (x ∈ set_intersection (a :: l1) l2 → x ∈ a :: l1 ∧ x ∈ b :: l2). intros [? ?]%IH2. set_solver.
    + intros [->|[? ?]%IH1]%elem_of_cons; [|set_solver]. assert (a = b) as -> by lia. set_solver.
Qed.
Lemma intersects_none l s : (∀ x, x ∈ l → x ∉ s) → intersects l s = false.
Proof.
  intros H. unfold intersects. rewrite negb_false_iff, bool_decide_eq_true. destruct (set_intersection l (sorted s)) as [|x l'] eqn:E; [done|].
  destruct (set_intersection_sub l (sorted s) x) as [H1 H2]; [rewrite E; left|]. apply elem_of_sorted in H2. by destruct (H x).
Qed.

(** ** Which metrics are kept *)

Section preserved.
Context (serialize : MetricMessage → option (list Z)) (serializeActivation : MetricActivation → option (list Z)).
Context (config : StatsdConfig) (m2a oldMap : gmap Z nat) (oldPs : list Producer).
Context (replacedMatchers replacedConditions replacedStates : gset Z).

Abbreviation status := (determineMetricUpdateStatus serialize serializeActivation config m2a oldMap oldPs
  replacedMatchers replacedConditions replacedStates).

(** The matchers of the activation of a metric. *)
Definition activationMatchers (msg : MetricMessage) : list Z :=
  metricEvents config m2a msg ≫= λ e,
    ea_atom_matcher_id e :: option_list (ea_deactivation_atom_matcher_id e).

(** The metric was there with the same message, and nothing that the message names was replaced. *)
Record unchanged (msg : MetricMessage) (old : Producer) : Prop := {
  un_type : getMetricType (pr_metric old) = msg_type msg;
  un_hash : getMetricProtoHash serialize serializeActivation config m2a msg = Done (pr_protoHash old);
  un_matchers : ∀ id, id ∈ matcherDependencies msg → id ∉ replacedMatchers;
  un_conditions : ∀ id, id ∈ conditionDependencies msg → id ∉ replacedConditions;
  un_states : ∀ id, id ∈ stateDependencies msg → id ∉ replacedStates;
  un_links : ∀ link, link ∈ msg_links msg → link_condition link ∉ replacedConditions;
  un_activation : ∀ id, id ∈ activationMatchers msg → id ∉ replacedMatchers
}.

Lemma activationDeps msg b :
  metricActivationDepsChange config m2a replacedMatchers (msg_id msg) = Done b →
  b = true ↔ ∃ id, id ∈ activationMatchers msg ∧ id ∈ replacedMatchers.
Proof using.
  unfold metricActivationDepsChange, activationMatchers, metricEvents.
  destruct (m2a !! msg_id msg) as [k|]; cbn; [|intros [= <-]; split; [done|by intros (? & []%not_elem_of_nil & _)]].
  intros (a & Hk & H)%outcome_bind_Done. apply orCrash_Done in Hk. injection H as <-. rewrite Hk.
  rewrite existsb_exists. setoid_rewrite <- list_elem_of_In. setoid_rewrite list_elem_of_bind.
  setoid_rewrite orb_true_iff. setoid_rewrite bool_decide_eq_true. split.
  - intros (e & He & [Hm|Hm]).
    + exists (ea_atom_matcher_id e). split; [|done]. exists e. split; [left|done].
    + destruct (ea_deactivation_atom_matcher_id e) as [d|] eqn:Ed; [|done]. apply bool_decide_eq_true in Hm.
      exists d. split; [|done]. exists e. rewrite Ed. split; [right; left|done].
  - intros (id & (e & Hid & He) & Hr). exists e. split; [done|].
    apply elem_of_cons in Hid as [->|Hid]; [by left|]. right.
    destruct (ea_deactivation_atom_matcher_id e) as [d|]; [|by apply not_elem_of_nil in Hid].
    apply list_elem_of_singleton in Hid as ->. by apply bool_decide_eq_true.
Qed.

(** The states of a metric in increasing order, as [std::set_intersection] expects them. *)
Definition statesSorted (msg : MetricMessage) : Prop := StronglySorted Z.le (stateDependencies msg).

Lemma not_true_negb b (P : Prop) : (b = true ↔ P) → b = false ↔ ¬ P.
Proof using. destruct b; intuition congruence. Qed.

Lemma bytesAgree old msg h :
  negb (bool_decide (getMetricType (pr_metric old) = msg_type msg)) || negb (pr_protoHash old =? h) = false
  ↔ getMetricType (pr_metric old) = msg_type msg ∧ Done h = Done (pr_protoHash old) :> Outcome Z.
Proof using.
  rewrite orb_false_iff, !negb_false_iff, bool_decide_eq_true, Z.eqb_eq. split; intros [? ?]; split; congruence.
Qed.

Lemma linksKept msg :
  existsb (λ link, bool_decide (link_condition link ∈ replacedConditions)) (msg_links msg) = false ↔
  ∀ link, link ∈ msg_links msg → link_condition link ∉ replacedConditions.
Proof using.
  rewrite (not_true_negb _ _ (existsb_exists _ _)). split.
  - intros H link Hin Hr. apply H. exists link. by rewrite <- list_elem_of_In, bool_decide_eq_true.
  - intros H (link & Hin & Hr). rewrite <- list_elem_of_In in Hin. rewrite bool_decide_eq_true in Hr. by eapply H.
Qed.

(** A metric that is not changed is preserved, in whatever order its states are listed. *)
Lemma unchanged_preserved msg k old :
  oldMap !! msg_id msg = Some k → oldPs !! k = Some old → (∃ st, status msg = Done st) →
  unchanged msg old → status msg = Done UPDATE_PRESERVE.
Proof using.
  intros Hk Hold [st Hst] [U1 U2 U3 U4 U5 U6 U7]. unfold determineMetricUpdateStatus in *. rewrite Hk in *.
  apply outcome_bind_Done in Hst as (h & Hh & Hst). rewrite Hh. cbn [mbind outcome_bind].
  rewrite Hold in *. cbn [orCrash from_option mbind outcome_bind] in *. rewrite Hh in U2.
  rewrite (proj2 (bytesAgree old msg h)) in * by done.
  rewrite (intersects_none (sorted (matcherDependencies msg))) in * by (intros x Hx%elem_of_sorted; auto).
  rewrite (intersects_none (sorted (conditionDependencies msg))) in * by (intros x Hx%elem_of_sorted; auto).
  rewrite (intersects_none (stateDependencies msg)) in * by done.
  rewrite (proj2 (linksKept msg)) in * by done.
  apply outcome_bind_Done in Hst as (b & Hb & _). rewrite Hb. cbn.
  pose proof (activationDeps msg b Hb) as Ha. destruct b; [|done].
  destruct (proj1 Ha eq_refl) as (id & Hid & Hr). by destruct (U7 id Hid).
Qed.

(** C14: A metric is preserved by an update exactly when it was there before with the same kind and the same stored hash of
    its bytes, and none of the matchers, conditions, linked conditions, states and activation matchers it names was
    replaced, provided that its states are listed in increasing order. *)
Theorem metric_preserved_iff msg k old :
  oldMap !! msg_id msg = Some k → oldPs !! k = Some old → statesSorted msg →
  (∃ st, status msg = Done st) →
  status msg = Done UPDATE_PRESERVE ↔ unchanged msg old.
Proof using.
  intros Hk Hold Hsorted [st Hst]. split; [|intros Hun; apply (unchanged_preserved msg k old); eauto].
  unfold determineMetricUpdateStatus in *. rewrite Hk in *.
  apply outcome_bind_Done in Hst as (h & Hh & Hst). rewrite Hh. cbn [mbind outcome_bind].
  rewrite Hold in *. cbn [orCrash from_option mbind outcome_bind] in *.
  pose proof (not_true_negb _ _ (intersects_sets (matcherDependencies msg) replacedMatchers)) as Hm.
  pose proof (not_true_negb _ _ (intersects_sets (conditionDependencies msg) replacedConditions)) as Hc.
  pose proof (not_true_negb _ _ (intersects_sorted _ replacedStates Hsorted)) as Hs.
  pose proof (linksKept msg) as Hl. pose proof (bytesAgree old msg h) as Ht.
  intros H. destruct (negb (bool_decide _) || negb (_ =? _)); [done|].
  destruct (intersects (sorted (matcherDependencies msg)) _); [done|].
  destruct (intersects (sorted (conditionDependencies msg)) _); [done|].
  destruct (intersects (stateDependencies msg) _); [done|]. destruct (existsb _ (msg_links msg)); [done|].
  apply outcome_bind_Done in H as (b & Hb & H). destruct b; [done|].
  pose proof (activationDeps msg false Hb) as Ha.
  destruct (proj1 Ht eq_refl) as [Hty Hhash]. split; [done|by rewrite Hh| | | |by apply Hl|];
    intros id Hid Hr; [by apply Hm; eauto|by apply Hc; eauto|by apply Hs; eauto|].
  enough (false = true) by done. apply Ha. eauto.
Qed.
End preserved.

(** ** A kept metric keeps its data *)

Lemma sameData_refl m : sameData m m.
Proof.
  split; [by repeat split|]. by destruct m as [[]|[]|[]|[]|[]].
Qed.
Lemma addAlert_sameData alert monitor m m' : any_addAlert alert monitor m = Some m' → sameData m m'.
Proof.
  destruct m; unfold any_addAlert; try (intros [= <-]; split; [done|]; by destruct p).
  destruct (duration_addAnomalyTracker alert monitor p) as [ok p'] eqn:E. destruct ok; [|done].
  intros [= <-]. revert E. unfold duration_addAnomalyTracker. cbv zeta.
  destruct (match mAggregationType _ with SUM => _ | _ => _ end); [done|]. by intros [= <-].
Qed.
Lemma addTracker_sameData a m : sameData m (any_addTracker a m).
Proof. destruct m as [[]|[]|[]|[]|[]], a; done. Qed.

Definition sameDataAll : list Producer → list Producer → Prop :=
  Forall2 (λ p p', sameData (pr_metric p) (pr_metric p')).

Lemma sameDataAll_refl ps : sameDataAll ps ps.
Proof. apply Forall2_same_length_lookup_2; [done|]. intros i p q Hp Hq. simplify_eq. apply sameData_refl. Qed.
Lemma sameDataAll_insert ps k p m :
  ps !! k = Some p → sameData (pr_metric p) m → sameDataAll ps (<[k := onMetric (λ _, m) p]> ps).
Proof.
  intros Hp Hm. apply Forall2_same_length_lookup_2; [by rewrite length_insert|]. intros i q q' Hq Hq'.
  destruct (decide (i = k)) as [->|Hne].
  - rewrite list_lookup_insert_eq in Hq' by (by eapply lookup_lt_Some). by simplify_eq.
  - rewrite list_lookup_insert_ne in Hq' by done. simplify_eq. apply sameData_refl.
Qed.

Lemma updateAllAlerts_sameData oldMap oldAlerts oldPs monitor metricMap alerts : ∀ sts refs m ps refs' m' ps',
  updateAllAlerts oldMap oldAlerts oldPs monitor metricMap sts alerts refs m ps = Done (refs', m', ps') →
  sameDataAll ps ps'.
Proof.
  induction alerts as [|a alerts IH]; intros [|st sts] refs m ps refs' m' ps' H; cbn [updateAllAlerts] in H;
    try (injection H as _ _ <-; apply sameDataAll_refl).
  apply outcome_bind_Done in H as ([r ps1] & E & H). apply IH in H.
  eapply (Forall2_trans _ _ _); [intros p q s; apply sameData_trans| |exact H].
  assert (Hc : createAnomalyTracker a monitor metricMap ps = Done (r, ps1) → sameDataAll ps ps1).
  { unfold createAnomalyTracker. intros Hn. inv_done. apply addAlert_sameData in E4.
    by apply sameDataAll_insert. }
  destruct st; inv_done; [|by apply Hc|by apply Hc].
  unfold preserveAlert in E. inv_done. destruct (kindAgrees _ _); inv_done.
  apply (sameDataAll_insert _ _ _ (any_addTracker _ _)); [done|]. apply addTracker_sameData.
Qed.

Lemma determineMetricStatuses_lookup ser sera config m2a oldMap oldPs rm rc rs msgs : ∀ sts i msg,
  determineMetricStatuses ser sera config m2a oldMap oldPs rm rc rs msgs = Done sts → msgs !! i = Some msg →
  ∃ st, sts !! i = Some st ∧ determineMetricUpdateStatus ser sera config m2a oldMap oldPs rm rc rs msg = Done st.
Proof.
  induction msgs as [|a msgs IH]; intros sts i msg H Hi; cbn [determineMetricStatuses] in H; inv_done; [done|].
  destruct i as [|i]; [injection Hi as <-; eauto|]. cbn. eauto.
Qed.
Lemma updateAllMetrics_lookup oldMap oldPs create update msgs : ∀ sts k m t ops m' t' i msg st,
  updateAllMetrics oldMap oldPs create update sts msgs k m t = Done (ops, m', t') →
  msgs !! i = Some msg → sts !! i = Some st →
  ∃ op t1 t2, ops !! i = Some op ∧
    updateOrCreate oldMap oldPs create update st msg (k + i) t1 = Done (op, t2).
Proof.
  induction msgs as [|a msgs IH]; intros sts k m t ops m' t' i msg st H Hi Hst; [done|].
  destruct sts as [|s sts]; [done|]. cbn [updateAllMetrics] in H. cbv zeta in H.
  apply outcome_bind_Done in H as ([op t1] & E & H). apply outcome_bind_Done in H as ([[ops1 m1] t2] & E1 & H).
  injection H as <- <- <-. destruct i as [|i].
  - injection Hi as <-. injection Hst as <-. rewrite Nat.add_0_r. by exists op, t, t1.
  - rewrite <- Nat.add_succ_comm. exact (IH _ _ _ _ _ _ _ _ _ _ E1 Hi Hst).
Qed.

Section update.
Context (ser : Serializers) (sizeLimits : gmap Z (Z * Z)) (uninit : Z) (uninitIndices : Z * Z * Z).
Context (uid : Z) (anomalyMonitor periodicMonitor : option AlarmMonitor).
Context (timeBaseNs currentTimeNs fresh : Z).
Context (envWith : list AtomMatchingTracker → list ConditionTracker → MetricEnv).

Abbreviation update := (updateStatsdConfig ser sizeLimits uninit uninitIndices uid anomalyMonitor periodicMonitor
  timeBaseNs currentTimeNs fresh envWith).

(** What an update replaces: matchers, conditions and states. *)
Definition replacedBy (config : StatsdConfig) (old : ConfigParts) (rm rc rs : gset Z) : Prop :=
  ∃ mu cu st,
    updateAtomMatchingTrackers (ser_matcher ser) (cfg_atom_matcher config) (cp_matcherMap old) (cp_matchers old)
      (cp_matcherHashes old) = Some mu ∧
    updateConditions (ser_predicate ser) uninitIndices (cfg_predicate config) (mu_map mu) (mu_replaced mu)
      (cp_conditionMap old) (cp_conditions old) (cp_conditionHashes old) = Some cu ∧
    updateStates (ser_state ser) (cfg_state config) (cp_stateProtoHashes old) = Some (st, rs) ∧
    rm = mu_replaced mu ∧ rc = cu_replaced cu.

(** C15: A metric that an update does not change keeps, in the new configuration, all it has collected: its past and
    current buckets, its current interval, its condition and the state of its activations; only the
    positions of matchers and conditions and its alerts are new.  One kind of metric may also get something: an active gauge metric that
    samples one pulled atom per bucket pulls again while it is updated, and if its current bucket was empty the pulled atoms are in
    it; for these, the current bucket must not have ended before it started. *)
Theorem unchanged_metric_keeps_data oldConfig config old cp rm rc rs m2a i msg k p :
  wiringOk oldConfig old → update config old = Done cp → replacedBy config old rm rc rs →
  activationIndex config = Some m2a → cfg_metrics config !! i = Some msg →
  cp_metricMap old !! msg_id msg = Some k → cp_producers old !! k = Some p →
  unchanged (ser_metric ser) (ser_activation ser) config m2a rm rc rs msg p →
  (pullsOnUpdate (pr_metric p) = true → bucketOpen (pr_metric p)) →
  ∃ p', cp_producers cp !! i = Some p' ∧ keptData (pr_metric p) (pr_metric p').
Proof using.
  intros Hold H (mu & cu & st & Emu & Ecu & Est & -> & ->) Hm2a Hi Hk Hp Hun Hpull.
  unfold updateStatsdConfig in H. rewrite Emu in H. cbn [orReject from_option mbind outcome_bind] in H.
  rewrite Ecu in H. cbn [orReject from_option mbind outcome_bind] in H. rewrite Est in H.
  cbn [orReject from_option mbind outcome_bind] in H. rewrite Hm2a in H.
  cbn [orReject from_option mbind outcome_bind] in H. cbv zeta in H.
  apply outcome_bind_Done in H as ([ms replaced] & E & H). apply outcome_bind_Done in H as ([[refs am] ps] & Ea & H).
  apply outcome_bind_Done in H as ([alarms monitor] & _ & H). injection H as <-. cbn [cp_producers].
  unfold updateAlerts in Ea. apply outcome_bind_Done in Ea as (asts & _ & Ea).
  apply outcome_bind_Done in Ea as ([[refs1 am1] ps1] & Ea & H). apply updateAllAlerts_sameData in Ea as Hdata.
  apply outcome_bind_Done in H as (refs2 & _ & H). injection H as _ _ <-. clear Ea.
  unfold updateMetrics in E. apply outcome_bind_Done in E as (sts & Ests & E).
  apply outcome_bind_Done in E as ([[ops mm] t] & Eall & E). apply outcome_bind_Done in E as (nr & _ & E).
  apply outcome_bind_Done in E as ([ps0 ls] & Els & E). injection E as <- _. cbn [ms_producers] in Hdata.
  unfold determineAllMetricUpdateStatuses in Ests.
  destruct (determineMetricStatuses_lookup _ _ _ _ _ _ _ _ _ _ _ _ _ Ests Hi) as (s & Hs & Hstatus).
  assert (s = UPDATE_PRESERVE) as ->.
  { eapply unchanged_preserved in Hun; [|done|exact Hp|eauto]. congruence. }
  destruct (updateAllMetrics_lookup _ _ _ _ _ _ _ _ _ _ _ _ _ _ _ Eall Hi Hs) as (op & t1 & t2 & Hop & Hu).
  apply allListeners_spec in Els as [-> _]. rewrite list_lookup_fmap in Hop.
  apply fmap_Some in Hop as (p1 & Hp1 & ->). cbn [updateOrCreate] in Hu.
  apply outcome_bind_Done in Hu as ([p2 t3] & Hu & H2). injection H2 as -> ->. unfold updateMetric in Hu.
  apply outcome_bind_Done in Hu as (k' & Hk' & Hu). apply orReject_Done in Hk'.
  rewrite Hk in Hk'. injection Hk' as <-.
  apply outcome_bind_Done in Hu as (p' & Hp' & Hu). apply orCrash_Done in Hp'.
  rewrite Hp in Hp'. injection Hp' as <-.
  apply outcome_bind_Done in Hu as ([m t4] & Hu & H2). injection H2 as <- ->.
  assert (Hmade : madeFor msg (pr_metric p)).
  { apply (po_metricMap _ _ Hold) in Hk. apply list_lookup_fmap_Some in Hk as (msg' & Hid & Hmsg').
    destruct (Forall2_lookup_l _ _ _ _ _ (po_metrics _ _ Hold) Hmsg') as (q & Hq & Hqid & _). simplify_eq.
    split; [congruence|]. apply Hun. }
  apply updateProducer_ok in Hu as (_ & _ & Hd); [|done]. specialize (Hd Hpull).
  assert (Hz : zip_with (λ (st : UpdateStatus) p, if isPreserved st then p else
    onMetric (any_prepareFirstBucket (envWith (mu_trackers mu) (cu_trackers cu))) p) sts ps0 !! i
    = Some (onMetric (λ _, m) p)).
  { rewrite lookup_zip_with, Hs. cbn. rewrite Hp1. done. }
  destruct (Forall2_lookup_l _ _ _ _ _ Hdata Hz) as (q & Hq & Hqd). exists q. split; [exact Hq|].
  by eapply keptData_before.
Qed.
End update.

(** ** An update wires the parts like a restart *)

Lemma locates_unique ids m m' : NoDup ids → locates ids m → locates ids m' → m = m'.
Proof.
  intros Hnd Hm Hm'. apply map_eq. intros id. apply option_eq. intros j.
  assert (Hone : ∀ m m', locates ids m → locates ids m' → m !! id = Some j → m' !! id = Some j).
  { clear -Hnd. intros m m' Hm Hm' Hj. apply Hm in Hj as Hid.
    destruct (lo_known _ _ Hm' id) as [j' Hj']; [by eapply list_elem_of_lookup_2|].
    apply Hm' in Hj' as Hid'. by rewrite (NoDup_lookup ids j j' id). }
  split; eauto.
Qed.

(** C16: After an update the positions of matchers and conditions, the tables that route events and conditions, and the
    ids and kinds of the metrics are exactly those of a manager built from scratch for the new
    configuration; so are the positions of metrics and alerts, unless the configuration uses an id twice. *)
Theorem update_wires_like_restart ser limits uninit ui uid am pm tb now fresh envWith
    ser' limits' uninit' ui' sm uid' am' pm' tb' now' fresh' oldConfig config old cp cp' :
  wiringOk oldConfig old →
  updateStatsdConfig ser limits uninit ui uid am pm tb now fresh envWith config old = Done cp →
  initStatsdConfig ser' limits' uninit' ui' sm uid' am' pm' tb' now' fresh' config = Done cp' →
  let shape c := (λ p, (getMetricId (pr_metric p), getMetricType (pr_metric p))) <$> cp_producers c in
  cp_matcherMap cp = cp_matcherMap cp' ∧ cp_conditionMap cp = cp_conditionMap cp' ∧
  cp_tables cp = cp_tables cp' ∧ shape cp = shape cp' ∧
  (NoDup (msg_id <$> cfg_metrics config) → cp_metricMap cp = cp_metricMap cp') ∧
  (NoDup (alert_id <$> cfg_alert config) → cp_alertMap cp = cp_alertMap cp').
Proof.
  intros Hold Hu Hn. eapply updateStatsdConfig_ok in Hu; [|done]. apply initStatsdConfig_ok in Hn. cbv zeta.
  destruct Hu as [Hu _ _ Hua], Hn as [Hn _ _ Hna].
  assert (Hm : cp_matcherMap cp = cp_matcherMap cp') by (eapply positions_unique; [apply Hu|apply Hn]).
  assert (Hc : cp_conditionMap cp = cp_conditionMap cp') by (eapply positions_unique; [apply Hu|apply Hn]).
  split_and!; [done|done| | | |].
  - destruct (po_tables _ _ Hu) as (m2a & Ha & ->), (po_tables _ _ Hn) as (m2a' & Ha' & ->).
    rewrite Ha in Ha'. injection Ha' as <-. by rewrite Hm, Hc.
  - assert (Hshape : ∀ c, wiringOk config c → (λ p, (getMetricId (pr_metric p), getMetricType (pr_metric p))) <$> cp_producers c
      = (λ msg, (msg_id msg, msg_type msg)) <$> cfg_metrics config).
    { intros c Hc'. pose proof (po_metrics _ _ Hc') as Hp. induction Hp as [|msg p msgs ps [Hid Hty] _ IH]; [done|].
      rewrite !fmap_cons, IH. by rewrite Hid, Hty. }
    by rewrite !Hshape.
  - intros Hnd. eapply locates_unique; [exact Hnd|apply Hu|apply Hn].
  - intros Hnd. by eapply locates_unique.
Qed.

(** ** States out of order *)

(** [slice_by_state] is passed to [std::set_intersection] as it is listed, although that expects
    sorted ranges: a metric that lists its states out of order is kept although one of its states was replaced. *)
Theorem unsorted_states_kept :
  ∃ serialize config m2a oldMap oldPs replacedStates msg old,
    oldMap !! msg_id msg = Some 0%nat ∧ oldPs !! 0%nat = Some old ∧
    (∃ state, state ∈ stateDependencies msg ∧ state ∈ replacedStates) ∧
    determineMetricUpdateStatus serialize (λ _, Some []) config m2a oldMap oldPs ∅ ∅ replacedStates msg
      = Done UPDATE_PRESERVE.
Proof.
  pose (metric := mkCountMetric 100 None None [] []).
  pose (msg := CountMsg (mkCountMessage (mkMetricHead true (Some 1) None [7; 5]) metric)).
  exists (λ _, Some []), (mkStatsdConfig [] [] [] [] [] [] [] [] [] [] [] [] [] []), ∅, {[100 := 0%nat]}.
  exists [mkProducer (CountM (CountMetricProducer_new 0 metric (-1) [] 0 0 ∅ ∅ ∅ [] ∅)) (Hash64 []) None None], {[5]}, msg.
  eexists. split; [vm_compute; reflexivity|]. split; [reflexivity|]. split; [|vm_compute; reflexivity].
  exists 5. split; [cbn; right; left|set_solver].
Qed.

(** ** Examples *)

(** The example configuration with its matchers and metrics in another order and one more metric. *)
Definition reorderedConfig : StatsdConfig :=
  mkStatsdConfig (rev (cfg_atom_matcher exampleStatsdConfig)) [] []
    [exampleCount 101 2; exampleCount 102 3; exampleCount 100 1] [] [] [] []
    (cfg_metric_activation exampleStatsdConfig) [] [] [] [] [].

(** The parts of the example manager after an activation and two counted events. *)
Definition countedParts : option ConfigParts :=
  mParts <$> afterEvents [exampleEvent 11 5; exampleEvent 10 6; exampleEvent 10 7].

Definition updatedParts (old : ConfigParts) : Outcome ConfigParts :=
  updateStatsdConfig exampleSerializers ∅ (-1) (0, 0, 0) 0 None None 0 8 0 (envOf exampleWorld) reorderedConfig old.

Lemma counted_wiring old : countedParts = Some old → wiringOk exampleStatsdConfig old.
Proof.
  unfold countedParts. intros (m & Hm & ->)%fmap_Some. apply after_manages, manages_invariant in Hm as [Hw _].
  exact Hw.
Qed.

Definition outcome_option {A} (o : Outcome A) : option A := match o with Done a => Some a | _ => None end.
Lemma outcome_option_Some {A} (o : Outcome A) a : outcome_option o = Some a → o = Done a.
Proof. destruct o; cbn; congruence. Qed.

Definition exampleHash : Z := Eval vm_compute in
  match getMetricProtoHash (ser_metric exampleSerializers) (ser_activation exampleSerializers) reorderedConfig
    {[100 := 0%nat; 101 := 1%nat]} (CountMsg (exampleCount 100 1)) with Done h => h | _ => 0 end.

Lemma example_unchanged old p :
  countedParts = Some old → cp_producers old !! 0%nat = Some p →
  unchanged (ser_metric exampleSerializers) (ser_activation exampleSerializers) reorderedConfig
    {[100 := 0%nat; 101 := 1%nat]} ∅ ∅ ∅ (CountMsg (exampleCount 100 1)) p.
Proof.
  intros Hold Hp.
  assert (El : (λ old, (λ p, (getMetricType (pr_metric p), pr_protoHash p)) <$> cp_producers old !! 0%nat) <$> countedParts
    = Some (Some (METRIC_TYPE_COUNT, exampleHash))) by (vm_compute; reflexivity).
  rewrite Hold in El. cbn [fmap option_fmap option_map] in El. rewrite Hp in El. injection El as Hty Hh.
  split; [done| |intros; apply not_elem_of_empty..]. rewrite Hh. vm_compute. reflexivity.
Qed.

Lemma metric_preserved_iff_witness :
  ∃ old p, countedParts = Some old ∧ cp_producers old !! 0%nat = Some p ∧
    determineMetricUpdateStatus (ser_metric exampleSerializers) (ser_activation exampleSerializers) reorderedConfig
      {[100 := 0%nat; 101 := 1%nat]} (cp_metricMap old) (cp_producers old) ∅ ∅ ∅ (CountMsg (exampleCount 100 1))
      = Done UPDATE_PRESERVE.
Proof.
  assert (El : (old ← countedParts; p ← cp_producers old !! 0%nat; k ← cp_metricMap old !! 100;
    st ← outcome_option (determineMetricUpdateStatus (ser_metric exampleSerializers) (ser_activation exampleSerializers)
      reorderedConfig {[100 := 0%nat; 101 := 1%nat]} (cp_metricMap old) (cp_producers old) ∅ ∅ ∅
      (CountMsg (exampleCount 100 1))); Some k) = Some 0%nat) by (vm_compute; reflexivity).
  apply bind_Some in El as (old & Hold & El). apply bind_Some in El as (p & Hp & El).
  apply bind_Some in El as (k & Hk & El). apply bind_Some in El as (st & Hst & [= ->]).
  exists old, p. split; [exact Hold|]. split; [exact Hp|].
  apply (metric_preserved_iff _ _ _ _ (cp_metricMap old) (cp_producers old) ∅ ∅ ∅ (CountMsg (exampleCount 100 1)) 0 p).
  - exact Hk.
  - exact Hp.
  - constructor.
  - exists st. by apply outcome_option_Some.
  - by apply (example_unchanged old).
Defined.

Lemma unchanged_metric_keeps_data_witness :
  ∃ old cp p p', countedParts = Some old ∧ updatedParts old = Done cp ∧ cp_producers old !! 0%nat = Some p ∧
    cp_producers cp !! 2%nat = Some p' ∧ keptData (pr_metric p) (pr_metric p').
Proof.
  assert (El : (old ← countedParts; cp ← outcome_option (updatedParts old); p ← cp_producers old !! 0%nat;
    mu ← updateAtomMatchingTrackers (ser_matcher exampleSerializers) (cfg_atom_matcher reorderedConfig)
      (cp_matcherMap old) (cp_matchers old) (cp_matcherHashes old);
    cu ← updateConditions (ser_predicate exampleSerializers) (0, 0, 0) (cfg_predicate reorderedConfig) (mu_map mu)
      (mu_replaced mu) (cp_conditionMap old) (cp_conditions old) (cp_conditionHashes old);
    s ← updateStates (ser_state exampleSerializers) (cfg_state reorderedConfig) (cp_stateProtoHashes old);
    k ← cp_metricMap old !! 100;
    Some (elements (mu_replaced mu), elements (cu_replaced cu), elements s.2, k, pullsOnUpdate (pr_metric p)))
    = Some ([], [], [], 0%nat, false)) by (vm_compute; reflexivity).
  apply bind_Some in El as (old & Hold & El). apply bind_Some in El as (cp & Hcp & El).
  apply bind_Some in El as (p & Hp & El). apply bind_Some in El as (mu & Hmu & El).
  apply bind_Some in El as (cu & Hcu & El). apply bind_Some in El as ([st rs] & Hst & El).
  apply bind_Some in El as (k & Hk & El). injection El as E1 E2 E3 -> Hpull. cbn [snd] in E3.
  apply elements_empty_inv, leibniz_equiv in E1, E2, E3. apply outcome_option_Some in Hcp.
  destruct (unchanged_metric_keeps_data exampleSerializers ∅ (-1) (0, 0, 0) 0 None None 0 8 0 (envOf exampleWorld)
    exampleStatsdConfig reorderedConfig old cp ∅ ∅ ∅ {[100 := 0%nat; 101 := 1%nat]} 2 (CountMsg (exampleCount 100 1)) 0 p)
    as (p' & Hp' & Hd).
  - by apply counted_wiring.
  - exact Hcp.
  - rewrite E3 in Hst. exists mu, cu, st.
    exact (conj Hmu (conj Hcu (conj Hst (conj (eq_sym E1) (eq_sym E2))))).
  - vm_compute. reflexivity.
  - reflexivity.
  - exact Hk.
  - exact Hp.
  - by apply (example_unchanged old).
  - rewrite Hpull. discriminate.
  - exists old, cp, p, p'. exact (conj Hold (conj Hcp (conj Hp (conj Hp' Hd)))).
Defined.

Lemma update_wires_like_restart_witness :
  ∃ old cp cp', countedParts = Some old ∧ updatedParts old = Done cp ∧
    initStatsdConfig exampleSerializers ∅ (-1) (0, 0, 0) StateManager_new 0 None None 9 9 0 reorderedConfig = Done cp' ∧
    cp_tables cp = cp_tables cp' ∧ cp_metricMap cp = cp_metricMap cp'.
Proof.
  assert (El : (old ← countedParts; cp ← outcome_option (updatedParts old);
    cp' ← outcome_option (initStatsdConfig exampleSerializers ∅ (-1) (0, 0, 0) StateManager_new 0 None None 9 9 0
      reorderedConfig); Some tt) = Some tt) by (vm_compute; reflexivity).
  apply bind_Some in El as (old & Hold & El). apply bind_Some in El as (cp & Hcp & El).
  apply bind_Some in El as (cp' & Hcp' & _). apply outcome_option_Some in Hcp, Hcp'.
  exists old, cp, cp'. split; [exact Hold|]. split; [exact Hcp|]. split; [exact Hcp'|].
  destruct (update_wires_like_restart exampleSerializers ∅ (-1) (0, 0, 0) 0 None None 0 8 0 (envOf exampleWorld)
    exampleSerializers ∅ (-1) (0, 0, 0) StateManager_new 0 None None 9 9 0 exampleStatsdConfig reorderedConfig old cp cp'
    (counted_wiring old Hold) Hcp Hcp') as (_ & _ & Ht & _ & Hm & _).
  split; [exact Ht|]. apply Hm. by apply (bool_decide_unpack _).
Defined.
