(* ===== verification/ManagerSources.v ===== *)
(** * Who may log, and from whom atoms are pulled

    The log sources of a manager are computed from package names with the uid map.  The uid map announces
    changes of packages; the manager looks the packages up again.  Its sets are current after every announced change,
    and stale after the first installation of a package, which is not announced. *)
From S2P Require Import Prelude Hash UMap FieldValue DimensionKey Matchers LogEvent UidMap MatcherTrackers.
From S2P Require Import Conditions ConfigUpdate Alarms Anomaly State MetricProducer CountMetric MetricShared.
From S2P Require Import EventMetric GaugeMetric ValueMetric DurationTrackers DurationMetric AnyMetric.
From S2P Require Import MetricsConfig MetricsUpdate MetricsConfigFacts ConfigParts MetricsManager.
From S2P Require Import MetricsManagerFacts.

(** ** The uids of a package *)

Lemma elem_of_getAppUid uid pkg u :
  uid ∈ getAppUid pkg u ↔ ∃ a, mMap u !! (uid, pkg) = Some a ∧ deleted a = false.
Proof.
  unfold getAppUid. rewrite elem_of_remove_dups, list_elem_of_omap. split.
  - intros ([[uid' pkg'] a] & Hin & H). apply elem_of_map_to_list in Hin. cbn in H.
    case_bool_decide; [|done]. subst. destruct (deleted a) eqn:Hd; [done|]. injection H as <-. eauto.
  - intros (a & Ha & Hd). exists (uid, pkg, a). rewrite elem_of_map_to_list. cbn.
    by rewrite bool_decide_true, Hd.
Qed.

(** The entries of a package in two maps. *)
Definition sameApp (pkg : string) (u u' : UidMap) : Prop := ∀ uid, mMap u' !! (uid, pkg) = mMap u !! (uid, pkg).

Lemma sameApp_uids pkg u u' :
  sameApp pkg u u' → list_to_set (getAppUid pkg u') = (list_to_set (getAppUid pkg u) : gset Z).
Proof.
  intros H. apply set_eq. intros uid. rewrite !elem_of_list_to_set, !elem_of_getAppUid. by rewrite (H uid).
Qed.

(** ** Current sources *)

Definition allowedCurrent (u : UidMap) (s : Sources) : Prop := initAllowedLogSources u s = s.
Definition pullCurrent (u : UidMap) (s : Sources) : Prop := initPullAtomSources u s = s.
Definition sourcesCurrent (u : UidMap) (s : Sources) : Prop := allowedCurrent u s ∧ pullCurrent u s.

Lemma allowed_cong u u' s :
  (∀ pkg, pkg ∈ MetricsManager.mAllowedPkg s → sameApp pkg u u') → initAllowedLogSources u' s = initAllowedLogSources u s.
Proof.
  intros H. unfold initAllowedLogSources. f_equal. f_equal. f_equal.
  apply list_fmap_ext. intros i pkg Hi. apply sameApp_uids, H. by eapply list_elem_of_lookup_2.
Qed.
Lemma pull_cong u u' s :
  (∀ atom pkgs pkg, mPullAtomPackages s !! atom = Some pkgs → pkg ∈ pkgs → sameApp pkg u u') →
  initPullAtomSources u' s = initPullAtomSources u s.
Proof.
  intros H. unfold initPullAtomSources. f_equal.
  assert (Hin : ∀ atom pkgs, (atom, pkgs) ∈ map_to_list (mPullAtomPackages s) → ∀ pkg, pkg ∈ pkgs → sameApp pkg u u').
  { intros atom pkgs Hl%elem_of_map_to_list pkg Hp. by eapply H. }
  clear H. generalize (foldl (λ m '(atomId, uids), addUids atomId uids m) ∅ (map_to_list (mPullAtomUids s))).
  induction (map_to_list (mPullAtomPackages s)) as [|[atom pkgs] l IH]; intros acc; [done|]. cbn [foldl].
  rewrite IH by (intros; eapply Hin; [by right|done]). f_equal.
  assert (Hp : ∀ pkg, pkg ∈ elements pkgs → sameApp pkg u u').
  { intros pkg ?%elem_of_elements. eapply Hin; [by left|done]. }
  clear -Hp. revert acc. induction (elements pkgs) as [|pkg ps IH]; intros acc; [done|]. cbn [foldl].
  rewrite (sameApp_uids pkg u u') by (apply Hp; by left). apply IH. intros. apply Hp. by right.
Qed.

Lemma allowed_init u s : allowedCurrent u (initAllowedLogSources u s).
Proof. done. Qed.
Lemma pull_init u s : pullCurrent u (initPullAtomSources u s).
Proof. done. Qed.

(** After the packages that concern [apk] are looked up again, the sets are current, if they were so for all
    other packages. *)
Lemma refresh_current u u' apk s :
  sourcesCurrent u s → (∀ pkg, pkg ≠ apk → sameApp pkg u u') → sourcesCurrent u' (refreshSources u' apk s).
Proof.
  intros [Ha Hp] Hother. unfold refreshSources.
  set (s1 := if bool_decide (apk ∈ _) then initAllowedLogSources u' s else s).
  assert (Hs1 : allowedCurrent u' s1 ∧ pullCurrent u s1 ∧ mPullAtomPackages s1 = mPullAtomPackages s).
  { subst s1. case_bool_decide as Hin.
    - split; [apply allowed_init|]. split; [|done]. unfold pullCurrent in *. rewrite <- Hp at 2. done.
    - split; [|done]. unfold allowedCurrent. rewrite (allowed_cong u u'); [done|]. intros pkg Hpkg. apply Hother. by intros ->. }
  destruct Hs1 as (Ha1 & Hp1 & Heq). clearbody s1. destruct (existsb _ _) eqn:E.
  - split; [|apply pull_init]. unfold allowedCurrent in *. rewrite <- Ha1 at 2. done.
  - split; [done|]. unfold pullCurrent. rewrite (pull_cong u u'); [done|]. intros atom pkgs pkg Hl Hin.
    apply Hother. intros ->. apply not_true_iff_false in E. apply E, existsb_exists. exists (atom, pkgs).
    rewrite <- list_elem_of_In, elem_of_map_to_list. split; [done|]. by apply bool_decide_eq_true.
Qed.

(** ** Changes of packages *)

Section changes.
Context (k : Z).

Lemma ensure_apps u u' : ensureBytesUsedBelowLimit k u = Some u' → mMap u' = mMap u ∧ mSubscriber u' = mSubscriber u.
Proof.
  unfold ensureBytesUsedBelowLimit. destruct (dropChanges _ _ _ _) as [[changes bytes]|]; [|done]. by intros [= <-].
Qed.

Lemma updateApp_apps t app uid version vs installer u u' b :
  updateApp k t app uid version vs installer u = Some (u', b) →
  mMap u' = <[(uid, app) := newApp version vs installer]> (mMap u) ∧
  b = match mMap u !! (uid, app) with Some _ => told (notifyAppUpgraded t app uid version) u | None => None end.
Proof.
  unfold updateApp. destruct (ensureBytesUsedBelowLimit k _) as [u1|] eqn:E; [|done].
  apply ensure_apps in E as [Em Es]. intros [= <- <-]. split; [done|]. unfold told. by rewrite Es.
Qed.
Lemma removeApp_apps t app uid u u' b :
  removeApp k t app uid u = Some (u', b) → Z.of_nat (length (mDeletedApps u)) < kMaxDeletedAppsInUidMap →
  (∀ pkg, pkg ≠ app → sameApp pkg u u') ∧ b = told (notifyAppRemoved t app uid) u.
Proof.
  unfold removeApp. intros H Hlen.
  destruct (match mMap u !! (uid, app) with Some _ => _ | None => _ end) as [[pv pvs] u1] eqn:E1.
  assert (Hu1 : (∀ pkg, pkg ≠ app → sameApp pkg u u1) ∧ mSubscriber u1 = mSubscriber u ∧
    (length (mDeletedApps u1) <= S (length (mDeletedApps u)))%nat).
  { destruct (mMap u !! (uid, app)) as [a|]; [destruct (deleted a)|]; injection E1 as _ _ <-;
      (split_and!; [|done|try lia]); try done.
    - intros pkg Hne uid'. cbn. apply lookup_insert_ne. congruence.
    - cbn. rewrite length_app. cbn. lia. }
  destruct Hu1 as (Happ & Hsub & Hl). cbv zeta in H.
  set (u2 := match mDeletedApps u1 with [] => u1 | _ :: _ => _ end) in H.
  assert (u2 = u1) as Hu2.
  { subst u2. destruct (mDeletedApps u1) as [|oldest rest] eqn:Ed; [done|].
    rewrite (proj2 (Z.ltb_ge _ _)); [done|]. cbn [length] in *. lia. }
  rewrite Hu2 in H. destruct (ensureBytesUsedBelowLimit k _) as [u3|] eqn:E; [|done].
  apply ensure_apps in E as [Em Es]. injection H as <- <-. split.
  - intros pkg Hne uid'. rewrite Em. by apply Happ.
  - unfold told. rewrite Es. cbn. by rewrite Hsub.
Qed.
Lemma updateMap_told t apps u u' b : updateMap k t apps u = Some (u', b) → b = told (onUidMapReceived t) u.
Proof.
  unfold updateMap. cbv zeta. destruct (ensureBytesUsedBelowLimit k _) as [u1|] eqn:E; [|done].
  apply ensure_apps in E as [_ Es]. intros [= <- <-]. unfold told. by rewrite Es.
Qed.

(** The log sources of a manager and the uids it pulls from follow the uid map.  Each announced change leaves
    them current: a new snapshot, the upgrade of a known package, and the removal of a package (as long as the list of
    deleted packages has room); the first installation of a package is not announced, and leaves them current
    if the configuration does not name the package. *)
Theorem log_sources_follow_uid_map (w : World) u u' t m :
  sourcesCurrent u (mSources m) → w_uidMap w = u' → mSubscriber u = true →
  (∀ apps b, updateMap k t apps u = Some (u', b) →
     b = Some (onUidMapReceived t) ∧ sourcesCurrent u' (mSources (manager_onUidMapReceived w m))) ∧
  (∀ app uid version vs installer b, updateApp k t app uid version vs installer u = Some (u', b) →
     match mMap u !! (uid, app) with
     | Some _ => b = Some (notifyAppUpgraded t app uid version) ∧
                 sourcesCurrent u' (mSources (manager_notifyAppUpgrade w t app m))
     | None => b = None ∧
         (app ∉ MetricsManager.mAllowedPkg (mSources m) →
          (∀ atom pkgs, mPullAtomPackages (mSources m) !! atom = Some pkgs → app ∉ pkgs) →
          sourcesCurrent u' (mSources m))
     end) ∧
  (∀ app uid b, removeApp k t app uid u = Some (u', b) →
     Z.of_nat (length (mDeletedApps u)) < kMaxDeletedAppsInUidMap →
     b = Some (notifyAppRemoved t app uid) ∧
     sourcesCurrent u' (mSources (manager_notifyAppRemoved w t app m))).
Proof.
  intros Hcur Hw Hsub. split_and!.
  - intros apps b ->%updateMap_told. unfold told. rewrite Hsub. split; [done|].
    unfold manager_onUidMapReceived. rewrite Hw. cbn [mSources set_sources].
    case_bool_decide as Hn; [|split; [apply allowed_init|done]]. split; [|apply pull_init].
    destruct Hcur as [Ha _]. unfold allowedCurrent in *. destruct (mSources m) as [uids pkgs al de pu pp co].
    cbn in Hn, Ha |- *. subst pkgs. injection Ha as Ha. unfold initAllowedLogSources. cbn in *. by rewrite Ha.
  - intros app uid version vs installer b [Hm ->]%updateApp_apps.
    assert (Hother : ∀ pkg, pkg ≠ app → sameApp pkg u u').
    { intros pkg Hne uid'. rewrite Hm. apply lookup_insert_ne. congruence. }
    destruct (mMap u !! (uid, app)) as [a|].
    + unfold told. rewrite Hsub. split; [done|]. unfold manager_notifyAppUpgrade. rewrite Hw.
      by apply (refresh_current u).
    + split; [done|]. intros Hna Hnp. destruct Hcur as [Ha Hp]. split.
      * unfold allowedCurrent. rewrite (allowed_cong u u'); [done|]. intros pkg Hpkg. apply Hother. by intros ->.
      * unfold pullCurrent. rewrite (pull_cong u u'); [done|]. intros atom pkgs pkg Hl Hpkg. apply Hother.
        intros ->. by eapply Hnp.
  - intros app uid b H Hlen. apply removeApp_apps in H as [Hother ->]; [|done]. unfold told. rewrite Hsub. split; [done|].
    unfold manager_notifyAppRemoved. rewrite Hw. by apply (refresh_current u).
Qed.

(** The first installation of a package that the configuration allows is not announced: the package has a uid
    in the uid map, but the manager goes on refusing its events, until something else makes it look its
    packages up again. *)
Theorem first_install_refused (w : World) u u' t app uid version vs installer b event m :
  app ∈ MetricsManager.mAllowedPkg (mSources m) → uid ∉ mAllowedLogSources (mSources m) →
  mMap u !! (uid, app) = None → updateApp k t app uid version vs installer u = Some (u', b) →
  GetUid event = uid → GetTagId event ∉ mWhitelistedAtomIds m → w_uidMap w = u' →
  b = None ∧ uid ∈ getAppUid app u' ∧ checkLogCredentials event m = false ∧
  checkLogCredentials event (manager_onUidMapReceived w m) = true.
Proof using.
  intros Hpkg Hno Hnew [Hm ->]%updateApp_apps <- Htag Hw. rewrite Hnew.
  assert (Hin : GetUid event ∈ getAppUid app u').
  { apply elem_of_getAppUid. exists (newApp version vs installer). by rewrite Hm, lookup_insert_eq. }
  split; [done|]. split; [done|]. unfold checkLogCredentials, manager_onUidMapReceived. rewrite Hw.
  rewrite !(bool_decide_false (GetTagId event ∈ _)) by done. cbn [orb]. split; [by apply bool_decide_false|].
  apply bool_decide_true. cbn [mSources set_sources].
  rewrite bool_decide_false by (cbn; intros Heq; rewrite Heq in Hpkg; by apply not_elem_of_nil in Hpkg).
  cbn. apply elem_of_union. right. apply elem_of_union_list. exists (list_to_set (getAppUid app u')).
  split; [|by apply elem_of_list_to_set]. apply list_elem_of_fmap. by exists app.
Qed.
End changes.

(** ** Examples *)

(** A manager whose configuration allows a package, and pulls atom 30 from another one. *)
Definition packageConfig : ManagerConfig :=
  mkManagerConfig exampleStatsdConfig None ["com.app"%string] [] [(30, ["com.pulled"%string])] [] false false
    false false.
Definition listeningMap : UidMap := setListener true UidMap_new.
Definition worldWith (u : UidMap) : World := mkWorld (-1) u StateManager_new (λ _ _, None) 0 0.
Definition packageManager : Outcome MetricsManager :=
  MetricsManager_new exampleSerializers ∅ (0, 0, 0) (worldWith listeningMap) None None 0 (0, 7) packageConfig 0 0 0.

Lemma new_current ser limits uninit w am pm fresh key config timeBase now wall m :
  MetricsManager_new ser limits uninit w am pm fresh key config timeBase now wall = Done m →
  mConfigValid m = true → sourcesCurrent (w_uidMap w) (mSources m).
Proof.
  unfold MetricsManager_new. intros (parts & _ & H)%outcome_bind_Done.
  destruct (createAllLogSourcesFromConfig (w_uidMap w) config Sources_new) as [sources ok] eqn:E.
  injection H as <-. intros Hv.
  assert (Hok : ok = true).
  { revert Hv. unfold initializeConfigActiveStatus, verifyGuardrailsAndUpdateStatsdStats, refreshTtl.
    destruct (0 <? _), (verifyGuardrails _), ok; done. }
  assert (Hs : sourcesCurrent (w_uidMap w) sources).
  { revert E. rewrite Hok. unfold createAllLogSourcesFromConfig. destruct (splitSources _) as [uids pkgs].
    destruct (foldl _ (∅, ∅) _) as [pullUids pullPkgs].
    destruct (negb (bool_decide (mc_allowed_log_source config = [])) && _); [|intros [= _ ?]; done].
    destruct (negb (kMaxPullAtomPackages <? _)%nat); [|intros [= _ H]; by rewrite andb_false_r in H].
    intros [= <- _]. by split. }
  unfold initializeConfigActiveStatus, verifyGuardrailsAndUpdateStatsdStats, refreshTtl.
  destruct (0 <? _), (verifyGuardrails _); exact Hs.
Qed.

Lemma package_current m :
  packageManager = Done m → mConfigValid m = true → sourcesCurrent listeningMap (mSources m).
Proof. unfold packageManager. intros H Hv. exact (new_current _ _ _ _ _ _ _ _ _ _ _ _ m H Hv). Qed.

Definition installed (u : UidMap) (app : string) (uid : Z) : option (UidMap * option Broadcast) :=
  updateApp 16 5 app uid 1 "1" "store" u.

Lemma first_install_refused_witness :
  ∃ m u' b, packageManager = Done m ∧ installed listeningMap "com.app" 10001 = Some (u', b) ∧
    b = None ∧ checkLogCredentials (mkLogEvent 10 10001 6 [] (-1) (-1) false) m = false ∧
    checkLogCredentials (mkLogEvent 10 10001 6 [] (-1) (-1) false)
      (manager_onUidMapReceived (worldWith u') m) = true.
Proof.
  assert (El : match packageManager with
    | Done m => (r ← installed listeningMap "com.app" 10001;
        Some (mConfigValid m, bool_decide ("com.app"%string ∈ MetricsManager.mAllowedPkg (mSources m)),
              elements (mAllowedLogSources (mSources m)), elements (mWhitelistedAtomIds m)))
    | _ => None end = Some (true, true, [], [])) by (vm_compute; reflexivity).
  destruct packageManager as [m| |] eqn:Em; [|discriminate El|discriminate El].
  destruct (installed listeningMap "com.app" 10001) as [[u' b]|] eqn:Eu; [|discriminate El].
  injection El as Hv Hp Hl Ht. apply bool_decide_eq_true in Hp.
  apply elements_empty_inv, leibniz_equiv in Hl, Ht. exists m, u', b. split; [done|]. split; [done|].
  destruct (first_install_refused 16 (worldWith u') listeningMap u' 5 "com.app" 10001 1 "1" "store" b
    (mkLogEvent 10 10001 6 [] (-1) (-1) false) m) as (Hb & _ & H1 & H2).
  - exact Hp.
  - rewrite Hl. apply not_elem_of_empty.
  - reflexivity.
  - exact Eu.
  - reflexivity.
  - rewrite Ht. apply not_elem_of_empty.
  - reflexivity.
  - by split_and!.
Defined.

Lemma log_sources_follow_uid_map_witness :
  ∃ m u' b, packageManager = Done m ∧ installed listeningMap "com.other" 10002 = Some (u', b) ∧
    b = None ∧ sourcesCurrent u' (mSources m).
Proof.
  assert (El : match packageManager with
    | Done m => (r ← installed listeningMap "com.other" 10002;
        Some (mConfigValid m, bool_decide ("com.other"%string ∈ MetricsManager.mAllowedPkg (mSources m)),
              map_to_list (elements <$> mPullAtomPackages (mSources m))))
    | _ => None end = Some (true, false, [(30, ["com.pulled"%string])])) by (vm_compute; reflexivity).
  destruct packageManager as [m| |] eqn:Em; [|discriminate El|discriminate El].
  destruct (installed listeningMap "com.other" 10002) as [[u' b]|] eqn:Eu; [|discriminate El].
  injection El as Hv Hp Hl. apply bool_decide_eq_false in Hp. exists m, u', b. split; [done|]. split; [done|].
  destruct (log_sources_follow_uid_map 16 (worldWith u') listeningMap u' 5 m) as (_ & H & _).
  - by apply package_current.
  - reflexivity.
  - reflexivity.
  - destruct (H "com.other"%string 10002 1 "1"%string "store"%string b Eu) as [Hb Hc]. split; [exact Hb|]. apply Hc; [exact Hp|].
    intros atom pkgs Hpkgs Hin.
    assert (Hm : (atom, elements pkgs) ∈ map_to_list (elements <$> mPullAtomPackages (mSources m))).
    { apply elem_of_map_to_list. by rewrite lookup_fmap, Hpkgs. }
    rewrite Hl in Hm. apply list_elem_of_singleton in Hm as [= -> He].
    apply elem_of_elements in Hin. rewrite He in Hin. by apply list_elem_of_singleton in Hin.
Defined.
