(* ===== verification/ManagerOps.v ===== *)
(** * What the log processor asks of a metrics manager

    The interface of metrics/MetricsManager.h that StatsLogProcessor.cpp uses, as a class, and its instance.
    The theorems on the log processor are proved against the interface.

    The objects a manager owns are known to the rest of statsd by their addresses: its producers, as listeners
    of the state manager and receivers of the pullers, and itself, as the provider of uids to pull from.  An
    anomaly tracker has its own view of the shared alarm monitor, which holds its own alarms. *)
From S2P Require Import Prelude Hash UMap FieldValue DimensionKey Matchers LogEvent UidMap MatcherTrackers.
From S2P Require Import Conditions ConfigUpdate Alarms Anomaly State MetricProducer CountMetric MetricShared.
From S2P Require Import EventMetric GaugeMetric ValueMetric DurationTrackers DurationMetric AnyMetric.
From S2P Require Import Pullers MetricsConfig MetricsUpdate MetricsManager.

Class ManagerOps (M Config : Type) := {
  (* construction; [Rejected] is a manager that is not valid *)
  mo_new : World → Z → ConfigKey → Config → Z → Z → Z → Outcome M;
  mo_isConfigValid : M → bool;
  mo_init : World → M → M;
  mo_updateConfig : World → Z → Config → Z → Z → M → Outcome M;
  (* events *)
  mo_onLogEvent : World → LogEvent → M → option M;
  mo_onStateChanged : World → Z → Z → Z → HashableDimensionKey → FieldValue → FieldValue → M → M;
  mo_onDataPulled : World → Z → option (list LogEvent) → Z → M → M;
  mo_isActive : M → bool;
  (* time to live *)
  mo_refreshTtl : Z → M → M;
  mo_isInTtl : Z → M → bool;
  (* memory and reports *)
  mo_byteSize : M → Z;
  mo_dropData : Z → M → M;
  mo_shouldWriteToDisk : M → bool;
  mo_shouldPersistLocalHistory : M → bool;
  mo_onDumpReport : World → Z → Z → bool → bool → DumpLatency → M → list AnyReport * list (Z * Z) * M;
  mo_getLastReportTimeNs : M → Z;
  mo_getLastReportWallClockNs : M → Z;
  mo_getNumMetrics : M → nat;
  mo_hashStringInReport : M → bool;
  mo_versionStringsInReport : M → bool;
  mo_installerInReport : M → bool;
  (* packages and time *)
  mo_notifyAppUpgrade : World → Z → string → M → M;
  mo_notifyAppRemoved : World → Z → string → M → M;
  mo_onUidMapReceived : World → M → M;
  mo_onStatsdInitCompleted : World → Z → M → M;
  mo_getPullAtomUids : Z → M → list Z;
  (* alarms *)
  mo_anomalyAlarmsFired : Z → Z → M → M;
  mo_onPeriodicAlarmFired : Z → Z → list InternalAlarm → M → M * list InternalAlarm * list bool;
  (* what survives a restart *)
  mo_loadActiveConfig : World → list ActiveMetric → Z → M → M;
  mo_writeActiveConfig : World → Z → DumpReportReason → M → Z * Z * list ActiveMetric;
  mo_writeMetadata : Z → Z → M → list (Z * AlertMetadata);
  mo_loadMetadata : list (Z * AlertMetadata) → Z → Z → M → M;
  (* the addresses of its objects *)
  mo_listeners : M → list (Z * Z);
  mo_receivers : M → list (Z * Registration);
  mo_addresses : M → Z
}.

(** ** The addresses of producers *)

Definition setAddress (address : Z) (p : Producer) : Producer :=
  match pr_address p with
  | Some _ => p
  | None => mkProducer (pr_metric p) (pr_protoHash p) (pr_registration p) (Some address)
  end.

(** New producers get the addresses from [fresh]. *)
Definition assignAddresses (fresh : Z) (m : MetricsManager) : MetricsManager :=
  set_parts (set_producers (imap (λ i, setAddress (fresh + Z.of_nat i)) (cp_producers (mParts m))) (mParts m)) m.

Definition hasAddress (address : Z) (p : Producer) : bool := bool_decide (pr_address p = Some address).

(** A call to the producer with an address. *)
Definition onAddress (address : Z) (f : AnyMetric → AnyMetric) (m : MetricsManager) : MetricsManager :=
  set_parts (set_producers ((λ p, if hasAddress address p then onMetric f p else p) <$> cp_producers (mParts m))
    (mParts m)) m.

(** The state atoms the producers listen to. *)
Definition managerListeners (m : MetricsManager) : list (Z * Z) :=
  flat_map (λ p, match pr_address p with
                 | Some a => (λ atom, (atom, a)) <$> getSlicedStateAtoms (pr_metric p)
                 | None => []
                 end) (mAllMetricProducers m).

(** What the producers are registered for with the pullers. *)
Definition managerReceivers (m : MetricsManager) : list (Z * Registration) :=
  omap (λ p, a ← pr_address p; r ← pr_registration p; Some (a, r)) (mAllMetricProducers m).

(** [onDataPulled]: only pulled metrics are receivers. *)
Definition any_onDataPulled (env : MetricEnv) (allData : option (list LogEvent)) (originalPullTimeNs : Z)
    (m : AnyMetric) : AnyMetric :=
  match m with
  | ValueM p => ValueM (ValueMetric.onDataPulled (me_uninit env) (valueOutside env p) allData originalPullTimeNs p)
  | GaugeM p =>
      GaugeM (gauge_onDataPulled (me_uninit env) (gaugeOutside env p) (me_depth env) allData originalPullTimeNs p)
  | _ => m
  end.

(** ** Anomaly alarms *)

(** The alarms of a tracker that are due leave its view of the monitor, and the tracker is told. *)
Definition dueAlarmsFired (sec timestampNs : Z) (t : DurationAnomalyTracker) : DurationAnomalyTracker :=
  match mAlarmMonitor t with
  | None => t
  | Some monitor =>
      let (due, monitor) := popSoonerThan sec monitor in
      (duration_informAlarmsFired timestampNs due
         (mkDurationAnomaly (Anomaly.base t) (mAlarms t) (Some monitor))).1
  end.

Definition anomalyAlarmsFired (sec timestampNs : Z) (m : MetricsManager) : MetricsManager :=
  let ps := foldl (λ ps r,
              match alertAt ps r with
              | Some (DurationAlert t) =>
                  onProducerAt (any_setTracker (ar_position r) (DurationAlert (dueAlarmsFired sec timestampNs t)))
                    (ar_metric r) ps
              | _ => ps
              end) (cp_producers (mParts m)) (cp_alerts (mParts m)) in
  set_parts (set_producers ps (mParts m)) m.

(** ** The instance *)

Section instance.
Context (ser : Serializers) (sizeLimits : gmap Z (Z * Z)) (uninitIndices : Z * Z * Z).
Context (atoms : CheckedAtoms) (sizes : ObjectSizes) (anomalyAlarmMonitor periodicAlarmMonitor : option AlarmMonitor).

#[export] Instance metrics_manager_ops : ManagerOps MetricsManager ManagerConfig := {|
  mo_new w fresh key config timeBaseNs currentTimeNs wallClockNs :=
    m ← MetricsManager_new ser sizeLimits uninitIndices w anomalyAlarmMonitor periodicAlarmMonitor fresh key
          config timeBaseNs currentTimeNs wallClockNs;
    Done (assignAddresses fresh m);
  mo_isConfigValid := mConfigValid;
  mo_init := manager_init;
  mo_updateConfig w fresh config timeBaseNs currentTimeNs m :=
    m ← updateConfig ser sizeLimits uninitIndices w anomalyAlarmMonitor periodicAlarmMonitor fresh config
          timeBaseNs currentTimeNs m;
    Done (assignAddresses fresh m);
  mo_onLogEvent := metrics_onLogEvent atoms;
  mo_onStateChanged w listener eventTimeNs atomId primaryKey oldState newState m :=
    onAddress listener (any_onStateChanged (managerEnv w m) eventTimeNs atomId primaryKey oldState newState) m;
  mo_onDataPulled w receiver allData originalPullTimeNs m :=
    onAddress receiver (any_onDataPulled (managerEnv w m) allData originalPullTimeNs) m;
  mo_isActive := mm_isActive;
  mo_refreshTtl := refreshTtl;
  mo_isInTtl := isInTtl;
  mo_byteSize := manager_byteSize sizes;
  mo_dropData := manager_dropData;
  mo_shouldWriteToDisk := shouldWriteToDisk;
  mo_shouldPersistLocalHistory := mShouldPersistHistory;
  mo_onDumpReport := manager_onDumpReport;
  mo_getLastReportTimeNs := mLastReportTimeNs;
  mo_getLastReportWallClockNs := mLastReportWallClockNs;
  mo_getNumMetrics m := length (mAllMetricProducers m);
  mo_hashStringInReport := mHashStringsInReport;
  mo_versionStringsInReport := mVersionStringsInReport;
  mo_installerInReport := mInstallerInReport;
  mo_notifyAppUpgrade := manager_notifyAppUpgrade;
  mo_notifyAppRemoved := manager_notifyAppRemoved;
  mo_onUidMapReceived := manager_onUidMapReceived;
  mo_onStatsdInitCompleted := manager_onStatsdInitCompleted;
  mo_getPullAtomUids := MetricsManager.getPullAtomUids;
  mo_anomalyAlarmsFired := anomalyAlarmsFired;
  mo_onPeriodicAlarmFired := onPeriodicAlarmFired;
  mo_loadActiveConfig := loadActiveConfig;
  mo_writeActiveConfig := writeActiveConfigToProtoOutputStream;
  mo_writeMetadata := writeMetadataToProto;
  mo_loadMetadata := loadMetadata;
  mo_listeners := managerListeners;
  mo_receivers := managerReceivers;
  mo_addresses m := Z.of_nat (length (mAllMetricProducers m)) + Z.of_nat (length (cp_alarms (mParts m)))
|}.
End instance.
