(* ===== verification/TrainEvents.v ===== *)
(** * Events that are rewritten before they are processed
      (StatsLogProcessor.cpp: train info, rollbacks, isolated uids; constructors of logd/LogEvent.cpp)

    Three atoms are known to the log processor by number.  Those about trains complete the event from the
    train info on disk and update the disk; the one about isolated uids updates the uid map.  In every other
    event isolated uids are replaced by their hosts.

    The numbers of atoms and of their states come with the generated list of atoms, the answer to permission
    checks, the user of a uid and the bytes of a protobuf field from other services and libraries: they are
    parameters.  [None] is a string built from a null pointer. *)
From S2P Require Import Prelude FieldValue DimensionKey Matchers UidMap LogEvent StatsEvent Sorting Storage.

Record HardCodedAtoms := mkHardCodedAtoms {
  BINARY_PUSH_STATE_CHANGED : Z;
  WATCHDOG_ROLLBACK_OCCURRED : Z;
  ISOLATED_UID_CHANGED : Z;
  TRAIN_INFO : Z;
  STATE__INSTALL_SUCCESS : Z;
  STATE__INSTALLER_ROLLBACK_INITIATED : Z;
  STATE__INSTALLER_ROLLBACK_SUCCESS : Z;
  ROLLBACK_TYPE__ROLLBACK_INITIATE : Z;
  ROLLBACK_TYPE__ROLLBACK_SUCCESS : Z
}.

(** Who logged an event. *)
Record Logger := mkLogger { log_uid : Z; log_pid : Z }.

(** ** Events made by statsd itself *)

Definition FIELD_ID_EXPERIMENT_ID : Z := 1.

Definition simpleValue (tag field : Z) (v : Value) : FieldValue :=
  FieldValue_of (mkField tag (getSimpleField field)) v.

Definition boolValue (b : bool) : Value := VINT (if b then 1 else 0).

Section events.
Context (atoms : HardCodedAtoms) (protoWrite : Z → Z → list Z).

(** [ProtoOutputStream] appends each id as a field of its own. *)
Definition writeExperimentIdsToProto (experimentIds : list Z) : list Z :=
  concat (map (protoWrite FIELD_ID_EXPERIMENT_ID) experimentIds).

(** The event of the shell command that logs a binary push. *)
Definition LogEvent_binaryPush (elapsedNs : Z) (name : string) (version : Z)
    (staging rollback latency : bool) (state : Z) (ids : list Z) (userId : Z) : Parsing :=
  let tag := BINARY_PUSH_STATE_CHANGED atoms in
  set_values
    [simpleValue tag 1 (VSTRING name); simpleValue tag 2 (VLONG version); simpleValue tag 3 (boolValue staging);
     simpleValue tag 4 (boolValue rollback); simpleValue tag 5 (boolValue latency); simpleValue tag 6 (VINT state);
     simpleValue tag 7 (VSTORAGE ids); simpleValue tag 8 (VINT userId)]
    (set_header elapsedNs tag (LogEvent_new 0)).

(** The event a pull of the train info returns. *)
Definition LogEvent_trainInfo (elapsedNs : Z) (t : InstallTrainInfo) : Parsing :=
  let tag := TRAIN_INFO atoms in
  set_values
    [simpleValue tag 1 (VLONG (trainVersionCode t));
     simpleValue tag 2 (VSTORAGE (writeExperimentIdsToProto (experimentIds t)));
     simpleValue tag 3 (VSTRING (trainName t)); simpleValue tag 4 (VINT (train_status t))]
    (set_header elapsedNs tag (LogEvent_new 0)).

(** ** Isolated uids *)

Definition setInt (v : Z) (f : FieldValue) : FieldValue :=
  mkFieldValue (fv_field f) (VINT v) (fv_annotations f).

(** The host of the uid in a field; [int_value] is read whatever the type of the value. *)
Definition mapToHost (uninit : Z) (u : UidMap) (f : FieldValue) : FieldValue :=
  setInt (getHostUidOrSelf (default uninit (int_value (fv_value f))) u) f.

(** One position of the attribution chain; [vector::at] faults when it does not exist. *)
Definition mapChainField (uninit : Z) (u : UidMap) (values : list FieldValue) (i : nat)
    : option (list FieldValue) :=
  f ← values !! i;
  Some (if isAttributionUidField (fv_field f) (fv_value f) then <[i := mapToHost uninit u f]> values else values).

Definition mapIsolatedUidToHostUidIfNecessaryLocked (uninit : Z) (u : UidMap) (event : Parsing) : option Parsing :=
  match hasAttributionChain event with
  | Some (first, last) =>
      values ← foldl (λ values i, values ← values; mapChainField uninit u values (Z.to_nat i))
                 (Some (le_values event)) (seqZ first (last - first + 1));
      Some (set_values values event)
  | None =>
      if mUidFieldIndex event =? -1 then Some event
      else
        let i := Z.to_nat (mUidFieldIndex event) in
        f ← le_values event !! i;
        Some (set_values (<[i := mapToHost uninit u f]> (le_values event)) event)
  end.

(** No error in any of the getters that share [err]. *)
Definition noError (errs : list status_t) : bool :=
  forallb (λ e, match e with OK => true | _ => false end) errs.

Definition onIsolatedUidChangedEventLocked (event : Parsing) (u : UidMap) : UidMap :=
  let '(is_create, err) := GetBool 3 event in
  let '(parent_uid, err2) := GetLong 1 event in
  let '(isolated_uid, err3) := GetLong 2 event in
  if noError [err; err2; err3] then
    if is_create then assignIsolatedUid (wrap32 isolated_uid) (wrap32 parent_uid) u
    else removeIsolatedUid (wrap32 isolated_uid) u
  else u.

(** ** Train info *)

(** Appends an id that is not there yet. *)
Definition pushId (id : Z) (ids : list Z) : list Z := if bool_decide (id ∈ ids) then ids else ids ++ [id].

Definition withIds (ids : list Z) (t : InstallTrainInfo) : InstallTrainInfo :=
  mkTrainInfo (trainVersionCode t) (trainName t) (train_status t) ids (requiresStaging t)
    (rollbackEnabled t) (requiresLowLatencyMonitor t).
Definition withVersion (v : Z) (t : InstallTrainInfo) : InstallTrainInfo :=
  mkTrainInfo v (trainName t) (train_status t) (experimentIds t) (requiresStaging t)
    (rollbackEnabled t) (requiresLowLatencyMonitor t).
Definition withFlags (flags : bool * bool * bool) (t : InstallTrainInfo) : InstallTrainInfo :=
  let '(staging, rollback, latency) := flags in
  mkTrainInfo (trainVersionCode t) (trainName t) (train_status t) (experimentIds t) staging rollback latency.
Definition flagsOf (t : InstallTrainInfo) : bool * bool * bool :=
  (requiresStaging t, rollbackEnabled t, requiresLowLatencyMonitor t).

(** The ids a state adds: the first one plus 1, 2 or 3. *)
Definition addStateId (status : Z) (ids : list Z) : list Z :=
  match ids with
  | [] => []
  | firstId :: _ =>
      if status =? STATE__INSTALL_SUCCESS atoms then pushId (firstId + 1) ids
      else if status =? STATE__INSTALLER_ROLLBACK_INITIATED atoms then pushId (firstId + 2) ids
      else if status =? STATE__INSTALLER_ROLLBACK_SUCCESS atoms then pushId (firstId + 3) ids
      else ids
  end.

(** Whether the event is about other experiments than the train info on disk. *)
Definition resetExperimentIds (t onDisk : InstallTrainInfo) : bool :=
  negb (trainVersionCode t =? -1) && negb (trainVersionCode t =? trainVersionCode onDisk)
  || match experimentIds t, experimentIds onDisk with
     | [], _ => false
     | _ :: _, [] => true
     | a :: _, b :: _ => negb (a =? b)
     end.

(** What the train info of the event becomes; [onDisk] is [None] when nothing could be read, and the three
    flags of [trainInfoOnDisk] are then uninitialized. *)
Definition updateTrainInfo (uninitFlags : bool * bool * bool) (is_rollback : bool)
    (onDisk : option InstallTrainInfo) (t : InstallTrainInfo) : InstallTrainInfo :=
  let t :=
    match onDisk with
    | None => t
    | Some old =>
        let reset := resetExperimentIds t old in
        let t := if trainVersionCode t =? -1 then withVersion (trainVersionCode old) t else t in
        if negb reset || is_rollback then withIds (experimentIds old) t else t
    end in
  let t := withIds (addStateId (train_status t) (experimentIds t)) t in
  if is_rollback then withFlags (from_option flagsOf uninitFlags onDisk) t else t.

Section disk.
Context (sortFiles : list FileInfo → list FileInfo) (nowSec : Z).

(** [TrainInfoPuller::PullInternal] (external/TrainInfoPuller.cpp) always succeeds: one event for every train on disk. *)
Definition trainInfo_PullInternal (elapsedNs : Z) (d : Directory) : option (list Parsing * Directory) :=
  '(trainInfoList, d) ← readAllTrainInfo sortFiles nowSec d;
  Some (map (LogEvent_trainInfo elapsedNs) trainInfoList, d).

Definition getAndUpdateTrainInfoOnDisk (uninitFlags : bool * bool * bool) (is_rollback : bool)
    (t : InstallTrainInfo) (d : Directory) : option (InstallTrainInfo * Directory) :=
  if String.eqb (trainName t) "" then Some (t, d)
  else
    '(onDisk, d) ← readTrainInfo sortFiles nowSec (trainName t) d;
    let t := updateTrainInfo uninitFlags is_rollback onDisk t in
    Some (t, (writeTrainInfo nowSec t d).2).

(** The ids a rollback adds: the first one plus 4 or 5. *)
Definition addRollbackId (rollbackType : Z) (ids : list Z) : list Z :=
  match ids with
  | [] => []
  | firstId :: _ =>
      if rollbackType =? ROLLBACK_TYPE__ROLLBACK_INITIATE atoms then pushId (firstId + 4) ids
      else if rollbackType =? ROLLBACK_TYPE__ROLLBACK_SUCCESS atoms then pushId (firstId + 5) ids
      else ids
  end.

Definition processWatchdogRollbackOccurred (rollbackTypeIn : Z) (packageNameIn : string) (d : Directory)
    : option (list Z * Directory) :=
  if String.eqb packageNameIn "" then Some ([], d)
  else
    '(onDisk, d) ← readTrainInfo sortFiles nowSec packageNameIn d;
    match onDisk with
    | None => Some ([], d)
    | Some t =>
        if bool_decide (experimentIds t = []) then Some ([], d)
        else
          let t := withIds (addRollbackId rollbackTypeIn (experimentIds t)) t in
          if (rollbackTypeIn =? ROLLBACK_TYPE__ROLLBACK_INITIATE atoms)
             || (rollbackTypeIn =? ROLLBACK_TYPE__ROLLBACK_SUCCESS atoms)
          then Some (experimentIds t, (writeTrainInfo nowSec t d).2)
          else Some (experimentIds t, d)
    end.

(** ** The events about trains *)

Context (checkPermissionForIds : string → Z → Z → bool) (parseExperimentIds : list Z → option (list Z)).
Context (multiuser_get_user_id : Z → Z).

Definition mayChangeTrains (l : Logger) : bool :=
  checkPermissionForIds "android.permission.DUMP" (log_pid l) (log_uid l)
  && checkPermissionForIds "android.permission.PACKAGE_USAGE_STATS" (log_pid l) (log_uid l).

(** [event->updateValue(...)], whose status nobody reads. *)
Definition updated (key : Z) (v : Value) (type : Type_) (event : Parsing) : Parsing :=
  (updateValue key v type event).1.

Definition onBinaryPushStateChangedEventLocked (uninitFlags : bool * bool * bool) (l : Logger) (event : Parsing)
    (d : Directory) : option (Parsing * Directory) :=
  if negb (mayChangeTrains l) then Some (event, d)
  else
    let '(name, err1) := GetString 1 event in
    name ← name;
    let '(version, err2) := GetLong 2 event in
    let '(staging, err3) := GetBool 3 event in
    let '(rollback, err4) := GetBool 4 event in
    let '(latency, err5) := GetBool 5 event in
    let '(status, err6) := GetLong 6 event in
    let '(idBytes, err7) := GetStorage 7 event in
    let '(is_rollback, err8) := GetBool 10 event in
    if negb (noError [err1; err2; err3; err4; err5; err6; err7; err8]) then Some (event, d)
    else
      match parseExperimentIds idBytes with
      | None => Some (event, d)
      | Some ids =>
          '(t, d) ← getAndUpdateTrainInfoOnDisk uninitFlags is_rollback
                      (mkTrainInfo version name (wrap32 status) ids staging rollback latency) d;
          let event := updated 2 (VLONG (trainVersionCode t)) LONG event in
          let event := updated 7 (VSTORAGE (writeExperimentIdsToProto (experimentIds t))) STORAGE event in
          let event := updated 8 (VINT (multiuser_get_user_id (log_uid l))) INT event in
          Some (if is_rollback then
                  updated 5 (boolValue (requiresLowLatencyMonitor t)) INT
                    (updated 4 (boolValue (rollbackEnabled t)) INT
                       (updated 3 (boolValue (requiresStaging t)) INT event))
                else event, d)
      end.

Definition onWatchdogRollbackOccurredLocked (l : Logger) (event : Parsing) (d : Directory)
    : option (Parsing * Directory) :=
  if negb (mayChangeTrains l) then Some (event, d)
  else
    let '(rollbackType, err1) := GetInt 1 event in
    let '(packageName, err2) := GetString 2 event in
    packageName ← packageName;
    if negb (noError [err1; err2]) then Some (event, d)
    else
      '(ids, d) ← processWatchdogRollbackOccurred rollbackType packageName d;
      Some (updated 6 (VSTORAGE (writeExperimentIdsToProto ids)) STORAGE event, d).
End disk.
End events.
