(* ===== verification/StorageFacts.v ===== *)
(** * Facts on the files on disk

    File names are parsed back to what they were made from; trimming respects the limits and removes
    the oldest files first; reports are delivered once; train info is read back; a configuration written
    to disk is read back, and the matching of file names by their ends confuses configurations. *)
From Stdlib Require Import Ascii.
From stdpp Require Import sorting.
From S2P Require Import Prelude FieldValueFacts LogEvent StatsEvent StatsEventFacts UidMap Sorting Storage.

(** ** File names *)

Lemma digit_cases d : 0 <= d < 10 → d ∈ [0; 1; 2; 3; 4; 5; 6; 7; 8; 9].
Proof. intros Hd. rewrite !elem_of_cons. lia. Qed.

Ltac digit_case H := apply digit_cases in H; repeat (apply elem_of_cons in H as [-> |H]); try (by apply elem_of_nil in H).

Lemma digitVal_digitChar d : 0 <= d < 10 → digitVal (digitChar d) = d.
Proof. intros H. digit_case H; reflexivity. Qed.

Lemma readDigits_digit d acc s : 0 <= d < 10 → readDigits 10 acc (String (digitChar d) s) = readDigits 10 (acc * 10 + d) s.
Proof. intros Hd. cbn [readDigits]. rewrite digitVal_digitChar by done. by rewrite (proj2 (Z.ltb_lt _ _)) by lia. Qed.

Lemma readDigits_show fuel : ∀ n s,
  0 <= n < 10 ^ (Z.of_nat fuel + 1) → readDigits 10 0 (showDigits fuel n s) = readDigits 10 n s.
Proof.
  induction fuel as [|fuel IH]; intros n s Hn; cbn [showDigits].
  - cbn in Hn. rewrite Z.mod_small by lia. by rewrite readDigits_digit by lia.
  - destruct (Z.ltb_spec n 10); [by rewrite readDigits_digit by lia|].
    pose proof (Z.mod_pos_bound n 10 ltac:(lia)). pose proof (Z.div_mod n 10 ltac:(lia)).
    rewrite IH; [rewrite readDigits_digit by lia; f_equal; lia|].
    split; [apply Z.div_pos; lia|]. apply Z.div_lt_upper_bound; [lia|].
    replace (Z.of_nat (S fuel) + 1) with (Z.succ (Z.of_nat fuel + 1)) in Hn by lia. rewrite Z.pow_succ_r in Hn by lia. lia.
Qed.

(** A positive number does not start with the digit 0, so it is not read as octal. *)
Lemma showDigits_head fuel : ∀ n s,
  0 < n < 10 ^ (Z.of_nat fuel + 1) → ∃ d s', 1 <= d < 10 ∧ showDigits fuel n s = String (digitChar d) s'.
Proof.
  induction fuel as [|fuel IH]; intros n s Hn; cbn [showDigits].
  - cbn in Hn. rewrite Z.mod_small by lia. exists n, s. split; [lia|done].
  - destruct (Z.ltb_spec n 10); [exists n, s; split; [lia|done]|]. apply IH.
    split; [apply Z.div_str_pos; lia|]. apply Z.div_lt_upper_bound; [lia|].
    replace (Z.of_nat (S fuel) + 1) with (Z.succ (Z.of_nat fuel + 1)) in Hn by lia. rewrite Z.pow_succ_r in Hn by lia. lia.
Qed.

Lemma strtoll_digit d s : 1 <= d < 10 →
  strtoll (String (digitChar d) s) =
    (let '(v, rest) := readDigits 10 0 (String (digitChar d) s) in Some (Z.max (- 2 ^ 63) (Z.min (2 ^ 63 - 1) v), rest))
  ∧ strtoll (String "-" (String (digitChar d) s)) =
    (let '(v, rest) := readDigits 10 0 (String (digitChar d) s) in Some (Z.max (- 2 ^ 63) (Z.min (2 ^ 63 - 1) (- v)), rest)).
Proof.
  intros Hd. assert (H : 0 <= d < 10) by lia. assert (d ≠ 0) by lia. clear Hd. digit_case H; try done; split; reflexivity.
Qed.

Lemma StrToInt64_showZ n : int64 n → StrToInt64 (showZ n) = n.
Proof.
  unfold int64. intros Hn. unfold StrToInt64, showZ. destruct (Z.ltb_spec n 0) as [Hneg|Hpos].
  - destruct (showDigits_head 19 (- n) EmptyString) as (d & s & Hd & E); [cbn; lia|]. rewrite E.
    destruct (strtoll_digit d s Hd) as [_ ->]. rewrite <- E, readDigits_show by (cbn; lia). cbn [readDigits]. lia.
  - destruct (decide (n = 0)) as [-> |Hz]; [reflexivity|].
    destruct (showDigits_head 19 n EmptyString) as (d & s & Hd & E); [cbn; lia|]. rewrite E.
    destruct (strtoll_digit d s Hd) as [-> _]. rewrite <- E, readDigits_show by (cbn; lia). cbn [readDigits]. lia.
Qed.

(** No underscore. *)
Fixpoint noUnderscore (s : string) : bool :=
  match s with EmptyString => true | String c s => negb (bool_decide (c = "_"%char)) && noUnderscore s end.

Lemma showDigits_noUnderscore fuel : ∀ n s, 0 <= n → noUnderscore s = true → noUnderscore (showDigits fuel n s) = true.
Proof.
  assert (Hd : ∀ d s, 0 <= d < 10 → noUnderscore s = true → noUnderscore (String (digitChar d) s) = true).
  { intros d s H Hs. cbn [noUnderscore]. rewrite Hs, andb_true_r. digit_case H; reflexivity. }
  induction fuel as [|fuel IH]; intros n s Hn Hs; cbn [showDigits].
  - apply Hd; [|done]. apply Z.mod_pos_bound. lia.
  - destruct (Z.ltb_spec n 10); [apply Hd; [lia|done]|]. apply IH; [apply Z.div_pos; lia|].
    apply Hd; [|done]. apply Z.mod_pos_bound. lia.
Qed.

Lemma showDigits_nonempty fuel : ∀ n s, String.eqb (showDigits fuel n s) "" = false.
Proof. induction fuel as [|fuel IH]; intros n s; cbn [showDigits]; [done|]. destruct (n <? 10); [done|apply IH]. Qed.

Lemma showZ_facts n : noUnderscore (showZ n) = true ∧ String.eqb (showZ n) "" = false.
Proof.
  unfold showZ. destruct (Z.ltb_spec n 0).
  - split; [|done]. cbn [noUnderscore]. rewrite showDigits_noUnderscore by (try done; lia). reflexivity.
  - split; [apply showDigits_noUnderscore; [lia|done]|apply showDigits_nonempty].
Qed.

Lemma string_nil_app (b : string) : ("" ++ b)%string = b.
Proof. reflexivity. Qed.
Lemma string_cons_app c (a b : string) : (String c a ++ b)%string = String c (a ++ b)%string.
Proof. reflexivity. Qed.

Lemma string_app_assoc (a b c : string) : ((a ++ b) ++ c)%string = (a ++ (b ++ c))%string.
Proof. induction a as [|x a IH]; [done|]. exact (f_equal (String x) IH). Qed.

Lemma string_app_empty (a : string) : (a ++ "")%string = a.
Proof. induction a as [|x a IH]; [done|]. exact (f_equal (String x) IH). Qed.

Lemma string_eqb_app_empty a b : String.eqb (a ++ b)%string "" = String.eqb a "" && String.eqb b "".
Proof. by destruct a, b. Qed.

(** The first token ends at the first underscore. *)
Lemma tokens_cons a s : ∀ cur,
  noUnderscore a = true → String.eqb (cur ++ a)%string "" = false →
  tokensFrom cur (a ++ String "_" s)%string = (cur ++ a)%string :: tokens s.
Proof.
  induction a as [|c a IH]; intros cur Ha Hne.
  - rewrite string_app_empty in *. rewrite string_nil_app. cbn [tokensFrom]. rewrite bool_decide_true by done. by rewrite Hne.
  - cbn [noUnderscore] in Ha. apply andb_true_iff in Ha as [Hc Ha]. rewrite string_cons_app. cbn [tokensFrom].
    destruct (bool_decide (c = "_"%char)); [done|]. rewrite IH; [by rewrite string_app_assoc|done|].
    rewrite string_app_assoc, string_eqb_app_empty. cbn. by rewrite andb_false_r.
Qed.

Lemma tokens_last a : ∀ cur,
  noUnderscore a = true → String.eqb (cur ++ a)%string "" = false → tokensFrom cur a = [(cur ++ a)%string].
Proof.
  induction a as [|c a IH]; intros cur Ha Hne.
  - rewrite string_app_empty in *. cbn [tokensFrom]. by rewrite Hne.
  - cbn [noUnderscore] in Ha. apply andb_true_iff in Ha as [Hc Ha]. cbn [tokensFrom].
    destruct (bool_decide (c = "_"%char)); [done|]. rewrite IH; [by rewrite string_app_assoc|done|].
    rewrite string_app_assoc, string_eqb_app_empty. cbn. by rewrite andb_false_r.
Qed.

Lemma tokens_name a b c (h : bool) :
  noUnderscore a = true ∧ String.eqb a "" = false → noUnderscore b = true ∧ String.eqb b "" = false →
  noUnderscore c = true ∧ String.eqb c "" = false →
  tokens (a ++ "_" ++ b ++ "_" ++ c ++ (if h then "_history" else ""))%string
    = [a; b; c] ++ (if h then ["history"%string] else []).
Proof.
  intros [H1 E1] [H2 E2] [H3 E3]. unfold tokens. rewrite !string_cons_app, !string_nil_app.
  rewrite (tokens_cons a _ "") by done. unfold tokens at 1. rewrite (tokens_cons b _ "") by done.
  destruct h; unfold tokens at 1.
  - rewrite (tokens_cons c "history" "") by done. reflexivity.
  - rewrite string_app_empty, (tokens_last c "") by done. reflexivity.
Qed.

(** The numbers of a file name fit their types. *)
Definition nameInRange (f : FileName) : Prop := int64 (mTimestampSec f) ∧ int32 (fn_uid f) ∧ int64 (mConfigId f).

Lemma parse_full f : nameInRange f → parseFileName (getFullFileName f) = Some f.
Proof.
  intros (Ht & Hu & Hi). unfold parseFileName, getFullFileName.
  rewrite tokens_name by apply showZ_facts. cbn [app].
  rewrite !StrToInt64_showZ by (try done; unfold int32, int64 in *; lia). rewrite wrap32_id by done.
  destruct f as [t uid i []]; reflexivity.
Qed.

(** The name of a file is parsed back to what it was made from, for every time stamp, uid and id in
    the range of its type, negative ones too, and for history files. *)
Theorem file_name_roundtrip (f : FileName) : nameInRange f → parseFileName (getFullFileName f) = Some f.
Proof. apply parse_full. Qed.

Lemma file_name_roundtrip_witness :
  parseFileName "1600000000_-1_-9223372036854775808_history" = Some (mkFileName 1600000000 (-1) (- 2 ^ 63) true).
Proof.
  change "1600000000_-1_-9223372036854775808_history"%string
    with (getFullFileName (mkFileName 1600000000 (-1) (- 2 ^ 63) true)).
  apply file_name_roundtrip. unfold nameInRange, int32, int64. cbn. lia.
Defined.

(** ** Trimming *)

Definition infoOf (nowSec : Z) (e : string * list Z) : option FileInfo :=
  if hidden e.1 then None
  else (λ f, mkFileInfo e.1 (mIsHistory f) (Z.of_nat (length e.2)) (nowSec - mTimestampSec f)) <$> parsedName e.1.

Definition infos (nowSec : Z) (d : Directory) : list FileInfo := omap (infoOf nowSec) d.

(** The names are distinct, and those that parse are written as the code writes them. *)
Definition canonical (d : Directory) : Prop :=
  NoDup d.*1 ∧ ∀ e f, e ∈ d → parsedName e.1 = Some f → getFullFileName f = e.1.

Definition canonicalb (d : Directory) : bool :=
  bool_decide (NoDup d.*1)
  && forallb (λ e, match parsedName e.1 with Some f => String.eqb (getFullFileName f) e.1 | None => true end) d.

Lemma canonicalb_sound d : canonicalb d = true → canonical d.
Proof.
  unfold canonicalb. intros [H1%bool_decide_eq_true H2]%andb_true_iff. split; [done|]. intros e f He Hf.
  rewrite forallb_forall in H2. specialize (H2 e (proj1 (list_elem_of_In _ _) He)). rewrite Hf in H2. by apply String.eqb_eq.
Qed.

Definition isOld (i : FileInfo) : bool := fileTooOld (mFileAgeSec i) (fi_isHistory i).

Definition deleteFiles (names : list string) (d : Directory) : Directory := foldl (λ d name, deleteFile name d) d names.

Lemma deleteFiles_filter names : ∀ d, deleteFiles names d = List.filter (λ e, bool_decide (e.1 ∉ names)) d.
Proof.
  unfold deleteFiles. induction names as [|n names IH]; intros d; cbn [foldl].
  - induction d as [|e d IHd]; cbn [List.filter]; [done|]. rewrite bool_decide_true by set_solver. by f_equal.
  - rewrite IH. unfold deleteFile. induction d as [|e d IHd]; cbn [List.filter]; [done|].
    destruct (String.eqb_spec e.1 n) as [E|E]; cbn [negb List.filter].
    + rewrite (bool_decide_false (e.1 ∉ n :: names)) by set_solver. done.
    + rewrite (bool_decide_ext (e.1 ∉ n :: names) (e.1 ∉ names)) by set_solver. case_bool_decide; [by f_equal|done].
Qed.

Lemma deleteFiles_app a b d : deleteFiles b (deleteFiles a d) = deleteFiles (a ++ b) d.
Proof. unfold deleteFiles. by rewrite foldl_app. Qed.

Lemma fileContent_delete n name d : n ≠ name → fileContent name (deleteFile n d) = fileContent name d.
Proof.
  intros Hne. induction d as [|[m c] d IH]; [done|]. unfold deleteFile in *. cbn [List.filter fst fileContent].
  destruct (String.eqb_spec m n) as [-> |E]; cbn [negb fileContent].
  - rewrite IH. by rewrite (proj2 (String.eqb_neq _ _)).
  - by rewrite IH.
Qed.

Lemma infoOf_name nowSec e i : infoOf nowSec e = Some i → mFileName i = e.1.
Proof. unfold infoOf. destruct (hidden e.1); [done|]. destruct (parsedName e.1); [|done]. by intros [= <-]. Qed.

Lemma infos_filter nowSec (names : list string) d :
  infos nowSec (List.filter (λ e, bool_decide (e.1 ∉ names)) d)
  = List.filter (λ i, bool_decide (mFileName i ∉ names)) (infos nowSec d).
Proof.
  unfold infos. induction d as [|e d IH]; [done|]. cbn [List.filter].
  destruct (infoOf nowSec e) as [i|] eqn:E.
  - rewrite (bool_decide_ext (e.1 ∉ names) (mFileName i ∉ names)) by (by rewrite (infoOf_name _ _ _ E)).
    destruct (bool_decide (mFileName i ∉ names)) eqn:H; cbn [omap list_omap]; rewrite E; cbn [List.filter];
      rewrite H; by rewrite <- IH.
  - case_bool_decide; cbn [omap list_omap]; rewrite E; exact IH.
Qed.

Lemma trimName_info nowSec e :
  (∀ f, parsedName e.1 = Some f → getFullFileName f = e.1) →
  trimName false e.1 = Some ((λ i, (nowSec - mFileAgeSec i, fi_isHistory i, mFileName i)) <$> infoOf nowSec e).
Proof.
  intros Hc. unfold trimName, infoOf. destruct (hidden e.1); [done|].
  destruct (parsedName e.1) as [f|]; [|done]. cbn. rewrite (Hc f eq_refl). do 4 f_equal. lia.
Qed.

Lemma infoOf_size nowSec e i : infoOf nowSec e = Some i → mFileSizeBytes i = Z.of_nat (length e.2).
Proof. unfold infoOf. destruct (hidden e.1); [done|]. destruct (parsedName e.1); [|done]. by intros [= <-]. Qed.

Lemma collect_spec nowSec entries : ∀ d,
  NoDup entries.*1 → (∀ e f, e ∈ entries → parsedName e.1 = Some f → getFullFileName f = e.1) →
  (∀ e, e ∈ entries → fileContent e.1 d = Some e.2) →
  collectFiles nowSec false entries d =
    Some (List.filter (λ i, negb (isOld i)) (infos nowSec entries),
          deleteFiles (map mFileName (List.filter isOld (infos nowSec entries))) d).
Proof.
  induction entries as [|e entries IH]; intros d Hnd Hc Hcont; [done|].
  rewrite fmap_cons in Hnd. apply NoDup_cons in Hnd as [Hnot Hnd].
  destruct e as [name c]. cbn [collectFiles]. change name with ((name, c).1) at 1. set (e := (name, c)) in *.
  rewrite (trimName_info nowSec e) by (intros f; apply Hc; set_solver). cbn [mbind option_bind].
  unfold infos. cbn [omap list_omap]. fold (infos nowSec entries).
  assert (Hrest : ∀ e', e' ∈ entries → e'.1 ≠ name).
  { intros e' He' E. apply Hnot. change (e.1) with name. rewrite <- E. by apply list_elem_of_fmap_2. }
  destruct (infoOf nowSec e) as [i|] eqn:Ei; cbn [fmap option_fmap option_map].
  2: { apply IH; [done|set_solver|set_solver]. }
  pose proof (infoOf_name _ _ _ Ei) as Hname. pose proof (infoOf_size _ _ _ Ei) as Hsize. rewrite Hname.
  replace (nowSec - (nowSec - mFileAgeSec i)) with (mFileAgeSec i) by lia. fold (isOld i).
  cbn [List.filter]. change (e.1) with name. destruct (isOld i) eqn:Eo; cbn [negb map].
  - rewrite IH; [|done|set_solver|]; [by rewrite Hname|]. intros e' He'.
    rewrite fileContent_delete; [apply Hcont; set_solver|]. intros E. by apply (Hrest e').
  - rewrite IH; [|done|set_solver|set_solver]. cbn [mbind option_bind].
    pose proof (Hcont e ltac:(set_solver)) as Hce. change (e.1) with name in Hce. rewrite Hce.
    rewrite <- Hsize. destruct i; cbn in *. by rewrite Hname.
Qed.

Lemma totalSize_permutes a b : a ≡ₚ b → totalSize a = totalSize b.
Proof. unfold totalSize. induction 1; cbn; lia. Qed.

Lemma totalSize_app a b : totalSize (a ++ b) = totalSize a + totalSize b.
Proof. unfold totalSize. induction a as [|i a IH]; cbn; lia. Qed.

Lemma filesToDelete_spec back :
  ∃ del rest, back = del ++ rest ∧ filesToDelete back (totalSize back) = map mFileName del
    ∧ overLimit (Z.of_nat (length rest)) (totalSize rest) = false
    ∧ (overLimit (Z.of_nat (length back)) (totalSize back) = false → del = []).
Proof.
  induction back as [|f back IH]; cbn [filesToDelete]; [by exists [], []|].
  destruct (overLimit (Z.of_nat (length (f :: back))) (totalSize (f :: back))) eqn:E; [|by exists [], (f :: back)].
  destruct IH as (del & rest & -> & Hd & Hr & _). exists (f :: del), rest. split_and!; [done| |done|done].
  cbn [map]. rewrite <- Hd. do 2 f_equal. unfold totalSize. cbn. lia.
Qed.

Lemma file_ltb_weakOrder l : weakOrder file_ltb l.
Proof.
  assert (Hcases : ∀ a b, file_ltb a b = true ↔
    (fi_isHistory a = false ∧ fi_isHistory b = true)
    ∨ fi_isHistory a = fi_isHistory b ∧ (mFileAgeSec a < mFileAgeSec b
        ∨ mFileAgeSec a = mFileAgeSec b ∧ String.ltb (mFileName b) (mFileName a) = true)).
  { intros a b. unfold file_ltb. destruct (fi_isHistory a), (fi_isHistory b); cbn [andb negb];
      [|by split; [|intros [[? ?]|[? _]]]|split; [by left|done]|];
      destruct (Z.ltb_spec (mFileAgeSec a) (mFileAgeSec b)), (Z.ltb_spec (mFileAgeSec b) (mFileAgeSec a)); try lia;
      (split; [intros; right; split; [done|first [left; lia|right; split; [lia|done]]]
              |intros [[? ?]|[_ [?|[? ?]]]]; first [done|lia]]). }
  assert (Hirr : ∀ a, file_ltb a a = false).
  { intros a. apply not_true_iff_false. rewrite Hcases, string_ltb_irrefl. intros [[? ?]|[_ [?|[_ ?]]]]; [congruence|lia|done]. }
  assert (Htot : ∀ a b, file_ltb a b = false → file_ltb b a = false →
    fi_isHistory a = fi_isHistory b ∧ mFileAgeSec a = mFileAgeSec b ∧ mFileName a = mFileName b).
  { intros a b H1%not_true_iff_false H2%not_true_iff_false. rewrite Hcases in H1. rewrite Hcases in H2.
    assert (Hh : fi_isHistory a = fi_isHistory b) by (destruct (fi_isHistory a), (fi_isHistory b); naive_solver).
    assert (Ha : mFileAgeSec a = mFileAgeSec b).
    { destruct (Z.lt_trichotomy (mFileAgeSec a) (mFileAgeSec b)) as [?|[?|?]]; [naive_solver|done|naive_solver]. }
    split_and!; [done|done|]. apply string_ltb_total; apply not_true_iff_false; naive_solver. }
  split_and!; [auto| |].
  - intros a b c _ _ _. rewrite !Hcases. intros [[H1 H2]|[H1 [H2|[H2 H3]]]] [[H4 H5]|[H4 [H5|[H5 H6]]]];
      try (left; split; congruence); right; (split; [congruence|]); try (left; lia).
    right. split; [lia|]. by eapply string_ltb_trans.
  - intros a b c _ _ _ H1 H2 H3 H4. destruct (Htot a b H1 H2) as (E1 & E2 & E3), (Htot b c H3 H4) as (E4 & E5 & E6).
    split; apply not_true_iff_false; rewrite Hcases, E1, E2, E3, E4, E5, E6, string_ltb_irrefl;
      intros [[? ?]|[_ [?|[_ ?]]]]; [congruence|lia|done|congruence|lia|done].
Qed.

Lemma file_ltb_false a b :
  file_ltb b a = false →
  (fi_isHistory a = true → fi_isHistory b = true) ∧ (fi_isHistory a = fi_isHistory b → mFileAgeSec a <= mFileAgeSec b).
Proof.
  unfold file_ltb. destruct (fi_isHistory a), (fi_isHistory b); cbn; try done;
    (destruct (Z.ltb_spec (mFileAgeSec b) (mFileAgeSec a)); [done|]); intros _; (split; [done|lia]).
Qed.

Lemma StronglySorted_app_lt {A} (R : A → A → Prop) l1 l2 a b :
  StronglySorted R (l1 ++ l2) → a ∈ l1 → b ∈ l2 → R a b.
Proof.
  induction l1 as [|x l1 IH]; cbn; [set_solver|]. intros [Hs Hx]%StronglySorted_inv Ha Hb.
  apply elem_of_cons in Ha as [-> |Ha]; [|by apply IH]. rewrite Forall_forall in Hx. apply Hx. set_solver.
Qed.

Lemma fileContent_elem d e : NoDup d.*1 → e ∈ d → fileContent e.1 d = Some e.2.
Proof.
  induction d as [|[m c] d IH]; [set_solver|]. rewrite fmap_cons. intros [Hnot Hnd]%NoDup_cons Hin.
  cbn [fileContent]. apply elem_of_cons in Hin as [-> |Hin]; [cbn; by rewrite String.eqb_refl|].
  destruct (String.eqb_spec m e.1) as [-> |]; [|by apply IH]. exfalso. apply Hnot. cbn. by apply list_elem_of_fmap_2.
Qed.

Lemma infos_NoDup nowSec d : NoDup d.*1 → NoDup (map mFileName (infos nowSec d)).
Proof.
  induction d as [|e d IH]; [constructor|]. rewrite fmap_cons. intros [Hnot Hnd]%NoDup_cons.
  unfold infos in *. cbn [omap list_omap]. destruct (infoOf nowSec e) as [i|] eqn:E; [|by apply IH]. cbn [map].
  apply NoDup_cons_2; [|by apply IH]. rewrite (infoOf_name _ _ _ E).
  intros (j & Hj & Hin)%list_elem_of_In%in_map_iff. apply list_elem_of_In, list_elem_of_omap in Hin as (e' & He' & Hi').
  apply Hnot. rewrite <- Hj, (infoOf_name _ _ _ Hi'). by apply list_elem_of_fmap_2.
Qed.

(** Removing the names of one part of a list leaves the other part. *)
Lemma filter_rest (all del rest : list FileInfo) :
  all ≡ₚ del ++ rest → NoDup (map mFileName all) →
  List.filter (λ i, bool_decide (mFileName i ∉ map mFileName del)) all ≡ₚ rest.
Proof.
  intros Hp Hnd.
  assert (Hf : ∀ l l' : list FileInfo, l ≡ₚ l' → List.filter (λ i, bool_decide (mFileName i ∉ map mFileName del)) l
    ≡ₚ List.filter (λ i, bool_decide (mFileName i ∉ map mFileName del)) l').
  { induction 1; cbn [List.filter]; repeat case_bool_decide; try done; by econstructor. }
  rewrite (Hf _ _ Hp), List.filter_app. apply (Permutation_map mFileName) in Hp. rewrite map_app in Hp.
  rewrite Hp in Hnd. apply NoDup_app in Hnd as (_ & Hdisj & _).
  assert (E1 : List.filter (λ i, bool_decide (mFileName i ∉ map mFileName del)) del = []).
  { apply elem_of_nil_inv. intros i [Hi Hb]%list_elem_of_In%filter_In. apply bool_decide_eq_true in Hb.
    apply Hb. by apply list_elem_of_In, in_map. }
  rewrite E1. cbn [app]. assert (Hrest : ∀ i, i ∈ rest → mFileName i ∉ map mFileName del).
  { intros i Hi Hd. apply (Hdisj _ Hd). by apply list_elem_of_In, in_map, list_elem_of_In. }
  clear -Hrest. induction rest as [|i rest IH]; cbn [List.filter]; [done|].
  rewrite bool_decide_true by (apply Hrest; set_solver). f_equiv. apply IH. set_solver.
Qed.

Lemma filter_split {A} (f : A → bool) l : l ≡ₚ List.filter f l ++ List.filter (λ x, negb (f x)) l.
Proof.
  induction l as [|x l IH]; cbn [List.filter]; [done|]. destruct (f x); cbn [negb].
  - cbn. by f_equiv.
  - rewrite <- Permutation_middle. by f_equiv.
Qed.

(** What trimming does to a directory. *)
Lemma trim_run sortFiles nowSec d :
  StdSort file_ltb sortFiles → canonical d →
  ∃ del rest,
    trimToFit sortFiles nowSec false d
      = Some (deleteFiles (map mFileName (List.filter isOld (infos nowSec d)) ++ map mFileName del) d)
    ∧ List.filter (λ i, negb (isOld i)) (infos nowSec d) ≡ₚ del ++ rest
    ∧ overLimit (Z.of_nat (length rest)) (totalSize rest) = false
    ∧ ∀ a b, a ∈ rest → b ∈ del → file_ltb b a = false.
Proof.
  intros Hsort [Hnd Hc]. unfold trimToFit.
  rewrite collect_spec; [|done|done|intros e He; by apply fileContent_elem]. cbn [mbind option_bind].
  set (files := List.filter (λ i, negb (isOld i)) (infos nowSec d)).
  set (files' := if overLimit _ _ then sortFiles files else files).
  assert (Hperm : files' ≡ₚ files).
  { subst files'. destruct (overLimit _ _); [|done]. apply (sort_permutes file_ltb). }
  destruct (filesToDelete_spec (rev files')) as (del & rest & Erev & Hdel & Hlim & Hnone).
  assert (Etot : totalSize (rev files') = totalSize files).
  { apply totalSize_permutes. by rewrite <- Permutation_rev, Hperm. }
  assert (Elen : length (rev files') = length files) by (by rewrite length_rev, Hperm).
  rewrite Etot in Hdel. rewrite Etot, Elen in Hnone. rewrite Hdel. exists del, rest.
  fold (deleteFiles (map mFileName del) (deleteFiles (map mFileName (List.filter isOld (infos nowSec d))) d)).
  rewrite deleteFiles_app. split; [done|]. split.
  { by rewrite <- Hperm, (Permutation_rev files'), Erev. }
  split; [done|]. intros a b Ha Hb. destruct (overLimit (Z.of_nat (length files)) (totalSize files)) eqn:E.
  2: { rewrite (Hnone eq_refl) in Hb. by apply elem_of_nil in Hb. }
  assert (Ho : inOrder file_ltb files') by (subst files'; apply (sort_in_order file_ltb), file_ltb_weakOrder).
  assert (Ef : files' = rev rest ++ rev del) by (by rewrite <- rev_app_distr, <- Erev, rev_involutive).
  rewrite Ef in Ho. apply (StronglySorted_app_lt _ _ _ a b Ho); by apply list_elem_of_In, in_rev; rewrite ?rev_involutive; apply list_elem_of_In.
Qed.

(** C31: trimming keeps a directory within its limits and removes the right files.  Afterwards no file
    is too old, there are at most as many files and bytes as allowed, files with other names are
    untouched, and a file that was removed for lack of room is a local history or no younger than every
    file that stays; a local history stays only when all files removed are local histories. *)
Theorem trim_respects_limits (sortFiles : list FileInfo → list FileInfo) (nowSec : Z) (d : Directory) :
  StdSort file_ltb sortFiles → canonical d →
  ∃ d', trimToFit sortFiles nowSec false d = Some d'
    ∧ (∀ e, e ∈ d' → e ∈ d)
    ∧ (∀ e, e ∈ d → infoOf nowSec e = None → e ∈ d')
    ∧ Z.of_nat (length (infos nowSec d')) <= kMaxFileNumber
    ∧ totalSize (infos nowSec d') <= kMaxFileSize
    ∧ (∀ i, i ∈ infos nowSec d' → isOld i = false)
    ∧ ∀ a b, a ∈ infos nowSec d' → b ∈ infos nowSec d → isOld b = false → b ∉ infos nowSec d' →
        (fi_isHistory a = true → fi_isHistory b = true)
        ∧ (fi_isHistory a = fi_isHistory b → mFileAgeSec a <= mFileAgeSec b).
Proof.
  intros Hsort Hcan. destruct (trim_run sortFiles nowSec d Hsort Hcan) as (del & rest & -> & Hp & Hlim & Hord).
  eexists. split; [reflexivity|]. rewrite <- map_app, deleteFiles_filter, infos_filter.
  set (old := List.filter isOld (infos nowSec d)) in *.
  assert (Hall : infos nowSec d ≡ₚ (old ++ del) ++ rest).
  { rewrite (filter_split isOld (infos nowSec d)) at 1. fold old. by rewrite Hp, app_assoc. }
  pose proof (filter_rest _ _ _ Hall (infos_NoDup nowSec d (proj1 Hcan))) as Hrest.
  set (left := List.filter (λ i, bool_decide (mFileName i ∉ map mFileName (old ++ del))) (infos nowSec d)) in *.
  assert (Hmem : ∀ i, i ∈ left ↔ i ∈ rest) by (intros i; by rewrite Hrest).
  split_and!.
  - intros e [He _]%list_elem_of_In%filter_In. by apply list_elem_of_In.
  - intros e He Hn. apply list_elem_of_In, filter_In. split; [by apply list_elem_of_In|]. apply bool_decide_eq_true.
    intros (i & Hi & Hin%list_elem_of_In)%list_elem_of_In%in_map_iff.
    assert (Hid : i ∈ infos nowSec d) by (rewrite Hall; set_solver).
    apply list_elem_of_omap in Hid as (e' & He' & Hi'). pose proof (infoOf_name _ _ _ Hi') as Hname.
    assert (e' = e) as ->; [|congruence]. apply (fileContent_elem d) in He as Hce; [|apply Hcan].
    apply (fileContent_elem d) in He' as Hce'; [|apply Hcan]. destruct e as [n c], e' as [n' c']. cbn in *. congruence.
  - rewrite Hrest. unfold overLimit in Hlim. apply orb_false_iff in Hlim as [H%Z.ltb_ge _]. done.
  - rewrite (totalSize_permutes _ _ Hrest). unfold overLimit in Hlim. by apply orb_false_iff in Hlim as [_ H%Z.ltb_ge].
  - intros i Hi%Hmem. assert (Hi' : i ∈ del ++ rest) by set_solver. rewrite <- Hp in Hi'.
    apply list_elem_of_In, filter_In in Hi' as [_ H]. by destruct (isOld i).
  - intros a b Ha%Hmem Hb Hob Hnb. apply file_ltb_false, Hord; [done|].
    rewrite Hall in Hb. rewrite Hmem in Hnb. apply elem_of_app in Hb as [Hb|?]; [|done].
    apply elem_of_app in Hb as [Hb|?]; [|done]. apply list_elem_of_In, filter_In in Hb as [_ Hb]. congruence.
Qed.

Lemma trim_respects_limits_witness :
  let now := 1600000000 in
  let d := [("1599999000_1000_5"%string, [1; 2]); ("1500000000_1000_6"%string, [3]); ("other"%string, [])] in
  trimToFit (insertionSort file_ltb) now false d = Some [("1599999000_1000_5"%string, [1; 2]); ("other"%string, [])]
  ∧ ∃ d', trimToFit (insertionSort file_ltb) now false d = Some d'
    ∧ (∀ e, e ∈ d' → e ∈ d)
    ∧ (∀ e, e ∈ d → infoOf now e = None → e ∈ d')
    ∧ Z.of_nat (length (infos now d')) <= kMaxFileNumber
    ∧ totalSize (infos now d') <= kMaxFileSize
    ∧ (∀ i, i ∈ infos now d' → isOld i = false)
    ∧ ∀ a b, a ∈ infos now d' → b ∈ infos now d → isOld b = false → b ∉ infos now d' →
        (fi_isHistory a = true → fi_isHistory b = true)
        ∧ (fi_isHistory a = fi_isHistory b → mFileAgeSec a <= mFileAgeSec b).
Proof.
  cbv zeta. split; [vm_compute; reflexivity|]. apply trim_respects_limits; [apply _|].
  apply canonicalb_sound. vm_compute. reflexivity.
Defined.

(** ** Reports *)

Lemma StrToInt64_range s : int64 (StrToInt64 s).
Proof.
  unfold StrToInt64, int64. destruct (strtoll s) as [[v rest]|] eqn:E; [|lia]. destruct rest; [|lia].
  unfold strtoll in E. destruct (match skipSpaces s with String _ _ => _ | EmptyString => _ end) as [negative s1].
  destruct (match s1 with String _ _ => _ | EmptyString => _ end) as [base s2].
  destruct (startsDigit base s2); [|done]. destruct (readDigits base 0 s2) as [w r].
  injection E as <- _. destruct negative; lia.
Qed.

Lemma parseFileName_range name f : parseFileName name = Some f → nameInRange f.
Proof.
  unfold parseFileName. destruct (tokens name) as [|a [|b [|c rest]]]; try done. intros [= <-].
  unfold nameInRange. cbn. split_and!; [apply StrToInt64_range|apply wrap32_range|apply StrToInt64_range].
Qed.

(** Once a report was read without erasing it, its file is a local history. *)
Lemma history_name name f :
  parsedName name = Some f → getFullFileName f = name → mIsHistory f = false →
  parsedName (name ++ "_history")%string = Some (mkFileName (mTimestampSec f) (fn_uid f) (mConfigId f) true).
Proof.
  unfold parsedName at 1. destruct (parseFileName name) as [g|] eqn:E; [|done].
  destruct (Z.eqb_spec (mTimestampSec g) (-1)); [done|]. intros [= ->] Hfull Hh. unfold parsedName.
  assert (Hn : (name ++ "_history")%string = getFullFileName (mkFileName (mTimestampSec f) (fn_uid f) (mConfigId f) true)).
  { rewrite <- Hfull. unfold getFullFileName. rewrite Hh. cbn [mTimestampSec fn_uid mConfigId mIsHistory].
    by rewrite !string_app_assoc, string_nil_app. }
  rewrite Hn, parse_full.
  - cbn [mTimestampSec]. by rewrite (proj2 (Z.eqb_neq _ _)).
  - apply parseFileName_range in E. exact E.
Qed.

Lemma fileContent_None name d : name ∉ d.*1 → fileContent name d = None.
Proof.
  induction d as [|[n c] d IH]; [done|]. rewrite fmap_cons. intros [H1 H2]%not_elem_of_cons. cbn [fileContent].
  rewrite (proj2 (String.eqb_neq _ _)) by (intros ->; by apply H1). by apply IH.
Qed.

Lemma rename_content old new name d : name ≠ old → name ≠ new → fileContent name (renameFile old new d) = fileContent name d.
Proof.
  intros Ho Hn. unfold renameFile. destruct (fileContent old d); [|done]. destruct (String.eqb old new); [done|].
  rewrite <- (fileContent_delete new name d) by done. generalize (deleteFile new d) as d'. clear -Ho Hn.
  induction d' as [|[n c] d' IH]; [done|]. cbn [map fst snd fileContent].
  destruct (String.eqb_spec n old) as [-> |E]; cbn [fst snd fileContent].
  - rewrite !(proj2 (String.eqb_neq _ _)) by done. exact IH.
  - by rewrite IH.
Qed.

Lemma rename_names old new d e :
  old ≠ new → e ∈ renameFile old new d → e.1 = new ∨ (e ∈ d ∧ e.1 ≠ old).
Proof.
  intros Hne. unfold renameFile. destruct (fileContent old d) as [c|] eqn:Ec.
  - rewrite (proj2 (String.eqb_neq _ _)) by done. intros (x & Hx & Hin)%list_elem_of_In%in_map_iff.
    apply filter_In in Hin as [Hin _]. destruct (String.eqb_spec x.1 old) as [E|E]; [left; by rewrite <- Hx|].
    right. subst e. split; [by apply list_elem_of_In|done].
  - intros He. right. split; [done|]. intros E. clear -Ec He E. induction d as [|[n c] d IH]; [by apply elem_of_nil in He|].
    cbn [fileContent] in Ec. destruct (String.eqb_spec n old) as [|Hn]; [done|].
    apply elem_of_cons in He as [-> |He]; [done|by apply IH].
Qed.

Definition reportable (key : ConfigKey) (e : string * list Z) : bool := bool_decide (is_Some (reportFile key false e.1)).

Lemma reportable_facts key name f :
  reportFile key false name = Some f → hidden name = false ∧ parsedName name = Some f ∧ mIsHistory f = false.
Proof.
  unfold reportFile. destruct (hidden name); [done|]. destruct (parsedName name) as [g|]; [|done].
  destruct (mIsHistory g) eqn:Eh; cbn [andb orb negb]; [done|].
  destruct (negb (fn_uid g =? key.1) || negb (mConfigId g =? key.2)); [done|]. by intros [= ->].
Qed.

Lemma history_not_reportable key name f :
  reportFile key false name = Some f → getFullFileName f = name → reportFile key false (name ++ "_history") = None.
Proof.
  intros (Hh & Hp & Hhist)%reportable_facts Hfull. unfold reportFile.
  rewrite (history_name name f Hp Hfull Hhist). by destruct (hidden (name ++ "_history")).
Qed.

Lemma append_once key entries : ∀ d,
  NoDup entries.*1 → (∀ e f, e ∈ entries → parsedName e.1 = Some f → getFullFileName f = e.1) →
  (∀ e, e ∈ entries → reportable key e = true → fileContent e.1 d = Some e.2) →
  (∀ e, e ∈ d → reportable key e = true → e.1 ∈ entries.*1) →
  let '(reports, d') := appendReports key false false entries d in
  reports = map snd (List.filter (reportable key) entries) ∧ ∀ e, e ∈ d' → reportable key e = false.
Proof.
  induction entries as [|[name c] entries IH]; intros d Hnd Hcan Hcont Hleft; cbn [appendReports].
  - split; [done|]. intros e He. apply not_true_iff_false. intros Hr. specialize (Hleft e He Hr).
    by apply elem_of_nil in Hleft.
  - rewrite fmap_cons in Hnd, Hleft. apply NoDup_cons in Hnd as [Hnot Hnd]. cbn [List.filter].
    unfold reportable at 1. cbn [fst]. destruct (reportFile key false name) as [f|] eqn:Ef.
    + pose proof (reportable_facts _ _ _ Ef) as (_ & Hp & Hh). rewrite Hh. cbn [negb andb].
      assert (Hfull : getFullFileName f = name) by (apply (Hcan (name, c)); [set_solver|done]).
      pose proof (history_not_reportable key name f Ef Hfull) as Hnew.
      assert (Hne : name ≠ (name ++ "_history")%string) by (intros E; rewrite <- E in Hnew; congruence).
      assert (Hrep : reportable key (name, c) = true) by (unfold reportable; cbn [fst]; rewrite Ef; by apply bool_decide_eq_true).
      pose proof (Hcont (name, c) ltac:(set_solver) Hrep) as Hce. cbn [fst snd] in Hce. rewrite Hce.
      specialize (IH (renameFile name (name ++ "_history") d) Hnd).
      destruct (appendReports key false false entries _) as [reports d'].
      destruct IH as [-> Hd']; [set_solver| | |].
      * intros e He Hr. rewrite rename_content; [apply Hcont; [set_solver|done]| |].
        { intros E. apply Hnot. cbn. rewrite <- E. by apply list_elem_of_fmap_2. }
        { intros E. unfold reportable in Hr. rewrite E, Hnew in Hr. by apply bool_decide_eq_true in Hr as [? ?]. }
      * intros e He Hr. apply rename_names in He as [E|[He E]]; [|specialize (Hleft e He Hr); by apply elem_of_cons in Hleft as [?|?]|done].
        unfold reportable in Hr. rewrite E, Hnew in Hr. by apply bool_decide_eq_true in Hr as [? ?].
      * split; [|done]. rewrite bool_decide_true by done. done.
    + rewrite bool_decide_false by (intros [? ?]; done). apply IH; [done|set_solver|set_solver|].
      intros e He Hr. specialize (Hleft e He Hr). apply elem_of_cons in Hleft as [E|?]; [|done].
      unfold reportable in Hr. rewrite E in Hr. cbn [fst] in Hr. rewrite Ef in Hr. by apply bool_decide_eq_true in Hr as [? ?].
Qed.

(** A report that is kept as local history is delivered once.  Reading the reports of a
    configuration without erasing them returns the contents of all its files that are not local
    histories, in order, and a second reading returns none. *)
Theorem reports_delivered_once (key : ConfigKey) (d : Directory) :
  canonical d →
  let '(reports, d') := appendConfigMetricsReport key false false d in
  reports = map snd (List.filter (reportable key) d) ∧ (appendConfigMetricsReport key false false d').1 = [].
Proof.
  intros [Hnd Hcan]. unfold appendConfigMetricsReport at 1.
  pose proof (append_once key d d Hnd Hcan) as H.
  destruct (appendReports key false false d d) as [reports d']. destruct H as [-> Hd'].
  { intros e He _. by apply fileContent_elem. }
  { intros e He _. by apply list_elem_of_fmap_2. }
  split; [done|]. unfold appendConfigMetricsReport. generalize d' at 2 as d0.
  induction d' as [|[name c] d' IH]; intros d0; cbn [appendReports]; [done|].
  destruct (reportFile key false name) as [f|] eqn:Ef; [|apply IH; set_solver].
  specialize (Hd' (name, c) ltac:(set_solver)). unfold reportable in Hd'. cbn [fst] in Hd'. rewrite Ef in Hd'.
  by rewrite bool_decide_true in Hd'.
Qed.

Lemma reports_delivered_once_witness :
  let d := [("1600000000_1000_5"%string, [1]); ("1600000001_1000_5_history"%string, [2]); ("1600000002_1000_5"%string, [3])] in
  let '(reports, d') := appendConfigMetricsReport (1000, 5) false false d in
  reports = map snd (List.filter (reportable (1000, 5)) d) ∧ (appendConfigMetricsReport (1000, 5) false false d').1 = [].
Proof. cbv zeta. apply reports_delivered_once. apply canonicalb_sound. vm_compute. reflexivity. Defined.

(** ** Train info *)

Lemma readBytes_app n b s : Z.of_nat (length b) = n → readBytes n (b ++ s) = Some (b, s).
Proof.
  intros <-. unfold readBytes. rewrite length_app, (proj2 (Z.ltb_ge _ _)) by lia. rewrite Nat2Z.id.
  by rewrite take_app_length, drop_app_length.
Qed.

Lemma le_roundtrip64 v : int64 v → wrap64 (le_decode (le_encode 8 (v mod 2 ^ 64))) = v.
Proof. intros Hv. rewrite le_decode_encode, wrap64_mod, wrap64_id; [done|done|]. apply Z.mod_pos_bound. lia. Qed.

Lemma le_roundtrip32 v : int32 v → wrap32 (le_decode (le_encode 4 (v mod 2 ^ 32))) = v.
Proof. intros Hv. rewrite le_decode_encode, wrap32_mod, wrap32_id; [done|done|]. apply Z.mod_pos_bound. lia. Qed.

Lemma readIds_bytes ids : ∀ fuel s,
  Forall int64 ids → (length ids <= fuel)%nat →
  readIds fuel (Z.of_nat (length ids)) (concat (map (λ i, le_encode 8 (i mod 2 ^ 64)) ids) ++ s) = Some (ids, s).
Proof.
  induction ids as [|i ids IH]; intros fuel s Hids Hf; [by destruct fuel|].
  destruct fuel as [|fuel]; [cbn in Hf; lia|]. apply Forall_cons_1 in Hids as [Hi Hids].
  cbn [readIds]. rewrite (proj2 (Z.leb_gt _ _)) by (cbn [length]; lia). cbn [map concat]. rewrite <- app_assoc.
  rewrite readBytes_app by (by rewrite length_le_encode). cbn [mbind option_bind].
  replace (Z.of_nat (length (i :: ids)) - 1) with (Z.of_nat (length ids)) by (cbn [length]; lia).
  rewrite IH by (try done; cbn in Hf; lia). cbn [mbind option_bind]. by rewrite le_roundtrip64.
Qed.

Lemma readBool_byte b s : readBool (boolByte b ++ s) = Some (b, s).
Proof. unfold readBool. rewrite readBytes_app by done. by destruct b. Qed.

Lemma string_of_nameBytes s : string_of_bytes (nameBytes s) = s.
Proof.
  unfold string_of_bytes. induction s as [|c s IH]; [done|]. cbn [nameBytes]. rewrite fmap_cons.
  cbn [String.string_of_list_ascii]. f_equal; [|exact IH]. by rewrite N2Z.id, ascii_N_embedding.
Qed.

(** The numbers of a train info fit their types. *)
Definition trainInRange (t : InstallTrainInfo) : Prop :=
  int64 (trainVersionCode t) ∧ int32 (train_status t) ∧ Forall int64 (experimentIds t)
  ∧ Z.of_nat (length (nameBytes (trainName t))) < 2 ^ 64 ∧ Z.of_nat (length (experimentIds t)) < 2 ^ 64.

Lemma parse_trainBytes t : trainInRange t → parseTrainInfo (trainBytes t) = Some t.
Proof.
  intros (Hv & Hs & Hids & Hn & Hc). unfold parseTrainInfo, trainBytes.
  rewrite readBytes_app by (by rewrite length_le_encode). cbn [mbind option_bind].
  rewrite le_decode_encode by (unfold TRAIN_INFO_FILE_MAGIC; cbn; lia). rewrite Z.eqb_refl. cbn [negb].
  rewrite readBytes_app by (by rewrite length_le_encode). cbn [mbind option_bind].
  rewrite readBytes_app by (by rewrite length_le_encode). cbn [mbind option_bind].
  rewrite (le_decode_encode 8 (Z.of_nat (length (nameBytes (trainName t))))) by (cbn; lia).
  rewrite readBytes_app by done. cbn [mbind option_bind].
  rewrite readBytes_app by (by rewrite length_le_encode). cbn [mbind option_bind].
  rewrite readBytes_app by (by rewrite length_le_encode). cbn [mbind option_bind].
  rewrite (le_decode_encode 8 (Z.of_nat (length (experimentIds t)))) by (cbn; lia). rewrite readIds_bytes; [|done|].
  2: { rewrite length_app. enough (length (experimentIds t) <= length (concat (map (λ i, le_encode 8 (i mod 2 ^ 64)) (experimentIds t))))%nat by lia.
       clear. induction (experimentIds t) as [|i l IH]; [done|]. cbn [map concat]. rewrite length_app, length_le_encode. cbn [length]. lia. }
  cbn [mbind option_bind]. rewrite !readBool_byte. cbn [mbind option_bind]. rewrite readBool_byte. cbn [mbind option_bind].
  rewrite <- (app_nil_r (boolByte (requiresLowLatencyMonitor t))), readBool_byte. cbn [mbind option_bind].
  rewrite le_roundtrip64, le_roundtrip32, string_of_nameBytes by done. by destruct t.
Qed.

Lemma substring_app a b : String.substring (String.length a) (String.length b) (a ++ b)%string = b.
Proof.
  induction a as [|c a IH]; [|exact IH]. rewrite string_nil_app. cbn [String.length].
  induction b as [|d b IH]; [done|]. cbn [String.length String.substring]. by rewrite IH.
Qed.

Lemma string_length_app a b : String.length (a ++ b)%string = (String.length a + String.length b)%nat.
Proof. induction a as [|c a IH]; [done|]. rewrite string_cons_app. cbn [String.length]. by rewrite IH. Qed.

Lemma hasSuffix_app a s : hasSuffix s (a ++ s)%string = true.
Proof.
  unfold hasSuffix. rewrite string_length_app. rewrite (proj2 (Nat.leb_le _ _)) by lia.
  replace (String.length a + String.length s - String.length s)%nat with (String.length a) by lia.
  by rewrite substring_app, String.eqb_refl.
Qed.

Lemma hidden_number n s : hidden (showZ n ++ s)%string = false.
Proof.
  unfold showZ. destruct (Z.ltb_spec n 0) as [|Hn]; [done|].
  assert (H : ∀ fuel m acc, 0 <= m → ∃ d s', 0 <= d < 10 ∧ showDigits fuel m acc = String (digitChar d) s').
  { induction fuel as [|fuel IH]; intros m acc Hm; cbn [showDigits].
    - eexists _, _. split; [|reflexivity]. apply Z.mod_pos_bound. lia.
    - destruct (Z.ltb_spec m 10); [eexists _, _; split; [|reflexivity]; lia|]. apply IH, Z.div_pos; lia. }
  destruct (H 19%nat n EmptyString Hn) as (d & s' & Hd & ->). rewrite string_cons_app. digit_case Hd; reflexivity.
Qed.

(** ** Files found by the end of their name *)

Definition matchesEnd (suffix : string) (e : string * list Z) : bool := negb (hidden e.1) && hasSuffix suffix e.1.

(** After the files with an end are removed and one is written, it is the only one with that end. *)
Definition replaceFile (suffix file : string) (buffer : list Z) (d : Directory) : Directory :=
  overwriteFile file buffer (createFile file (deleteSuffixedFiles suffix d)).

Lemma deleteSuffixed_none suffix d e : e ∈ deleteSuffixedFiles suffix d → matchesEnd suffix e = false.
Proof.
  intros [_ H]%list_elem_of_In%filter_In. unfold matchesEnd. by destruct (hidden e.1), (hasSuffix suffix e.1).
Qed.

Lemma replaceFile_eq suffix file buffer d :
  matchesEnd suffix (file, []) = true →
  replaceFile suffix file buffer d = deleteSuffixedFiles suffix d ++ [(file, buffer)].
Proof.
  intros Hm. unfold replaceFile, createFile, overwriteFile.
  assert (Hnot : ∀ e, e ∈ deleteSuffixedFiles suffix d → e.1 ≠ file).
  { intros [n c] He%deleteSuffixed_none E. cbn in E. subst n. unfold matchesEnd in *. cbn in *. congruence. }
  rewrite fileContent_None.
  2: { intros (e & E & He)%list_elem_of_fmap_1. by apply (Hnot e). }
  rewrite map_app. cbn [map fst]. rewrite String.eqb_refl. cbn [snd]. rewrite drop_nil, app_nil_r. f_equal.
  rewrite <- (map_id (deleteSuffixedFiles suffix d)) at 2. apply map_ext_in. intros e He%list_elem_of_In.
  by rewrite (proj2 (String.eqb_neq _ _)) by (by apply Hnot).
Qed.

Lemma find_replaced suffix file buffer d :
  matchesEnd suffix (file, []) = true →
  find (matchesEnd suffix) (replaceFile suffix file buffer d) = Some (file, buffer).
Proof.
  intros Hm. rewrite replaceFile_eq by done.
  assert (Hn : ∀ e, e ∈ deleteSuffixedFiles suffix d → matchesEnd suffix e = false) by (intros e; apply deleteSuffixed_none).
  induction (deleteSuffixedFiles suffix d) as [|e l IH]; cbn [app find].
  - unfold matchesEnd in *. cbn in *. by rewrite Hm.
  - rewrite (Hn e) by set_solver. apply IH. set_solver.
Qed.

(** Train info is read back as it was written, whatever other trains are stored, unless the file
    was trimmed in between. *)
Theorem train_info_roundtrip (sortFiles : list FileInfo → list FileInfo) (nowSec laterSec : Z)
    (t : InstallTrainInfo) (d : Directory) :
  trainInRange t → trainName t ≠ EmptyString →
  let d' := (writeTrainInfo nowSec t d).2 in
  trimToFit sortFiles laterSec true d' = Some d' →
  (writeTrainInfo nowSec t d).1 = true ∧ readTrainInfo sortFiles laterSec (trainName t) d' = Some (Some t, d').
Proof.
  intros Ht Hne. unfold writeTrainInfo. rewrite (proj2 (String.eqb_neq _ _)) by done. cbn [fst snd].
  set (file := (showZ nowSec ++ "_" ++ trainName t)%string). fold (replaceFile (trainName t) file (trainBytes t) d).
  intros Htrim. split; [done|]. unfold readTrainInfo. rewrite Htrim. cbn [mbind option_bind].
  assert (Hm : matchesEnd (trainName t) (file, []) = true).
  { unfold matchesEnd, file. cbn [fst]. rewrite hidden_number. cbn [negb andb]. rewrite <- string_app_assoc. apply hasSuffix_app. }
  unfold findTrainInfoFileName. fold (matchesEnd (trainName t)). rewrite find_replaced by done. cbn [fmap option_fmap option_map fst].
  assert (Hc : fileContent file (replaceFile (trainName t) file (trainBytes t) d) = Some (trainBytes t)).
  { rewrite replaceFile_eq by done.
    assert (Hn : ∀ e, e ∈ deleteSuffixedFiles (trainName t) d → e.1 ≠ file).
    { intros [n c] He%deleteSuffixed_none E. cbn in E. subst n. unfold matchesEnd in *. cbn [fst] in *. congruence. }
    induction (deleteSuffixedFiles (trainName t) d) as [|[n c] l IH]; cbn [app fileContent]; [by rewrite String.eqb_refl|].
    rewrite (proj2 (String.eqb_neq _ _)) by (by apply (Hn (n, c)); set_solver). apply IH. set_solver. }
  rewrite Hc, parse_trainBytes by done. done.
Qed.

Lemma train_info_roundtrip_witness :
  let t := mkTrainInfo (-5) "mainline" 3 [1; -2] true false true in
  let d := [("1599999999_mainline"%string, [7]); ("1599999999_other"%string, [8])] in
  let d' := (writeTrainInfo 1600000000 t d).2 in
  (writeTrainInfo 1600000000 t d).1 = true
  ∧ readTrainInfo (insertionSort file_ltb) 1600000001 "mainline" d' = Some (Some t, d').
Proof.
  cbv zeta. apply (train_info_roundtrip (insertionSort file_ltb) 1600000000 1600000001
    (mkTrainInfo (-5) "mainline" 3 [1; -2] true false true)).
  - unfold trainInRange, int64, int32. cbn [trainVersionCode train_status experimentIds trainName].
    split_and!; try lia; [repeat apply Forall_cons_2; try lia; apply Forall_nil_2|cbn; lia|cbn; lia].
  - done.
  - vm_compute. reflexivity.
Defined.
