(* ===== verification/TrainEventsFacts.v ===== *)
(** * Facts about the events that are rewritten

    Isolated uids disappear from every event; the experiment ids of a train are its first id and numbers
    derived from it, each once; the event of the shell command for binary pushes is never completed. *)
From S2P Require Import Prelude FieldValue DimensionKey Matchers UidMap LogEvent LogEventFacts StatsEvent.
From S2P Require Import Sorting Storage StorageFacts TrainEvents.

(** ** Isolated uids *)

(** No host is isolated itself. *)
Definition hostsAreHosts (u : UidMap) : Prop :=
  ∀ isolated host, mIsolatedUidMap u !! isolated = Some host → mIsolatedUidMap u !! host = None.

(** The positions of an event whose uid is replaced. *)
Definition isUidPosition (event : Parsing) (i : nat) (f : FieldValue) : bool :=
  match hasAttributionChain event with
  | Some (first, last) =>
      (first <=? Z.of_nat i) && (Z.of_nat i <=? last) && isAttributionUidField (fv_field f) (fv_value f)
  | None => Z.of_nat i =? mUidFieldIndex event
  end.

Section isolated.
Context (uninit : Z) (u : UidMap).

Lemma mapChain_spec l : ∀ values,
  NoDup l → Forall (λ i, 0 <= i < Z.of_nat (length values)) l →
  ∃ values', foldl (λ values i, values ← values; mapChainField uninit u values (Z.to_nat i)) (Some values) l
      = Some values' ∧ length values' = length values ∧
    ∀ i, values' !! i = (λ f, if bool_decide (Z.of_nat i ∈ l) && isAttributionUidField (fv_field f) (fv_value f)
                              then mapToHost uninit u f else f) <$> values !! i.
Proof using.
  induction l as [|k l IH]; intros values Hnd Hl; cbn [foldl].
  - exists values. split_and!; [done..|]. intros i. rewrite bool_decide_false by set_solver. cbn.
    by destruct (values !! i).
  - apply NoDup_cons in Hnd as [Hk Hnd]. apply Forall_cons in Hl as [Hr Hl]. unfold mapChainField at 2.
    destruct (lookup_lt_is_Some_2 values (Z.to_nat k)) as [f Hf]; [lia|]. cbn [mbind option_bind]. rewrite Hf.
    cbn [mbind option_bind]. set (values1 := if isAttributionUidField _ _ then _ else _).
    assert (Hlen : length values1 = length values) by (unfold values1; destr_if; [apply length_insert|done]).
    destruct (IH values1) as (values' & -> & Hlen' & Hv); [done|by rewrite Hlen|].
    exists values'. split_and!; [done|congruence|]. intros i. rewrite Hv. clear Hv IH.
    destruct (decide (i = Z.to_nat k)) as [->|Hne].
    + rewrite Z2Nat.id by lia. rewrite (bool_decide_false (k ∈ l)), bool_decide_true by set_solver. cbn [andb].
      unfold values1. rewrite Hf. cbn. destruct (isAttributionUidField _ _) eqn:E.
      * rewrite list_lookup_insert_eq by lia. done.
      * by rewrite Hf.
    + assert (Hi : values1 !! i = values !! i) by (unfold values1; destr_if; [by rewrite list_lookup_insert_ne|done]).
      rewrite Hi. assert (Hd : bool_decide (Z.of_nat i ∈ k :: l) = bool_decide (Z.of_nat i ∈ l)).
      { apply bool_decide_ext. rewrite elem_of_cons. split; [intros [E|]; [exfalso; lia|done]|tauto]. }
      by rewrite Hd.
Qed.

Lemma mapIsolated_spec event :
  indices_ok event →
  ∃ values, mapIsolatedUidToHostUidIfNecessaryLocked uninit u event = Some (set_values values event) ∧
    ∀ i, values !! i = (λ f, if isUidPosition event i f then mapToHost uninit u f else f) <$> le_values event !! i.
Proof using.
  intros [Hu _ Hc]. unfold mapIsolatedUidToHostUidIfNecessaryLocked, isUidPosition.
  unfold hasAttributionChain. unfold nvalues in *. destruct ((_ =? -1) || (_ =? -1)) eqn:E.
  - destruct (Z.eqb_spec (mUidFieldIndex event) (-1)) as [Hn|Hn].
    + exists (le_values event). split; [by destruct event|]. intros i.
      rewrite (proj2 (Z.eqb_neq _ _)) by lia. by destruct (_ !! i).
    + destruct (lookup_lt_is_Some_2 (le_values event) (Z.to_nat (mUidFieldIndex event))) as [f Hf]; [lia|].
      rewrite Hf. eexists. split; [reflexivity|]. intros i.
      destruct (Z.eqb_spec (Z.of_nat i) (mUidFieldIndex event)) as [Hi|Hi].
      * replace (Z.to_nat (mUidFieldIndex event)) with i in * by lia. rewrite Hf.
        rewrite list_lookup_insert_eq by (by eapply lookup_lt_Some). done.
      * rewrite list_lookup_insert_ne by lia. by destruct (_ !! i).
  - apply orb_false_iff in E as [E1%Z.eqb_neq E2%Z.eqb_neq]. destruct Hc as [[? ?]|[Ha Hb]]; [lia|].
    destruct (mapChain_spec (seqZ (mAttributionChainStartIndex event)
        (mAttributionChainEndIndex event - mAttributionChainStartIndex event + 1)) (le_values event))
      as (values & -> & _ & Hv); [apply NoDup_seqZ| |].
    { apply Forall_forall. intros i Hi%elem_of_seqZ. lia. }
    exists values. split; [done|]. intros i. rewrite Hv. destruct (le_values event !! i) as [f|]; [|done]. cbn.
    rewrite (bool_decide_ext _ (mAttributionChainStartIndex event <= Z.of_nat i ∧ Z.of_nat i <= mAttributionChainEndIndex event))
      by (rewrite elem_of_seqZ; lia).
    destruct (Z.leb_spec (mAttributionChainStartIndex event) (Z.of_nat i)),
      (Z.leb_spec (Z.of_nat i) (mAttributionChainEndIndex event));
      first [rewrite bool_decide_true by lia|rewrite bool_decide_false by lia]; done || lia.
Qed.

Lemma mapToHost_attr f :
  isAttributionUidField (fv_field f) (fv_value f) = true →
  isAttributionUidField (fv_field (mapToHost uninit u f)) (fv_value (mapToHost uninit u f)) = true.
Proof using. unfold isAttributionUidField. cbn. by intros [-> _]%andb_true_iff. Qed.

Lemma mapToHost_idem f : hostsAreHosts u → mapToHost uninit u (mapToHost uninit u f) = mapToHost uninit u f.
Proof using.
  intros Hh. unfold mapToHost, setInt. cbn. do 2 f_equal. unfold getHostUidOrSelf.
  destruct (mIsolatedUidMap u !! default uninit (int_value (fv_value f))) as [h|] eqn:E; cbn.
  - by rewrite (Hh _ _ E).
  - by rewrite E.
Qed.

Lemma isUidPosition_mapped event values i f :
  isUidPosition event i f = true → isUidPosition (set_values values event) i (mapToHost uninit u f) = true.
Proof using.
  unfold isUidPosition, hasAttributionChain. cbn. destruct ((_ =? -1) || (_ =? -1)); [done|].
  intros [-> H]%andb_true_iff. by apply mapToHost_attr.
Qed.

(** Isolated uids are replaced by their hosts: the event keeps everything but the uids of its attribution chain
    (or its uid field if it has no chain), each of which becomes its host and is not isolated any more;
    replacing them again changes nothing.  This holds for every event the parser returns. *)
Theorem isolated_uids_replaced event :
  indices_ok event → hostsAreHosts u →
  ∃ values, let event' := set_values values event in
    mapIsolatedUidToHostUidIfNecessaryLocked uninit u event = Some event' ∧
    (∀ i f, le_values event !! i = Some f → ∃ f', values !! i = Some f' ∧
       fv_field f' = fv_field f ∧ fv_annotations f' = fv_annotations f ∧
       if isUidPosition event i f
       then ∃ host, int_value (fv_value f') = Some host ∧ mIsolatedUidMap u !! host = None ∧
              host = getHostUidOrSelf (default uninit (int_value (fv_value f))) u
       else f' = f) ∧
    length values = length (le_values event) ∧
    mapIsolatedUidToHostUidIfNecessaryLocked uninit u event' = Some event'.
Proof using.
  intros Hi Hh. destruct (mapIsolated_spec event Hi) as (values & E & Hv). exists values. cbv zeta.
  assert (Hlen : length values = length (le_values event)).
  { apply Nat.le_antisymm; apply Nat.nlt_ge; intros Hlt.
    - apply lookup_lt_is_Some_2 in Hlt as [f Hf]. rewrite Hv in Hf.
      destruct (_ !! length (le_values event)) eqn:El; [|done]. apply lookup_lt_Some in El. lia.
    - apply lookup_lt_is_Some_2 in Hlt as [f Hf]. pose proof (Hv (length values)) as Hl. rewrite Hf in Hl.
      cbn in Hl. apply lookup_lt_Some in Hl. lia. }
  split_and!; [done| |done|].
  - intros i f Hf. exists (if isUidPosition event i f then mapToHost uninit u f else f).
    rewrite Hv, Hf. split; [done|]. destruct (isUidPosition event i f); [|done]. split_and!; [done..|].
    eexists. split; [reflexivity|]. split; [|done]. unfold getHostUidOrSelf.
    destruct (mIsolatedUidMap u !! default uninit (int_value (fv_value f))) eqn:El; cbn; [by eapply Hh|done].
  - destruct (mapIsolated_spec (set_values values event)) as (values' & -> & Hv').
    { destruct Hi as [H1 H2 H3]. unfold nvalues in *. constructor; unfold nvalues; cbn; rewrite Hlen; done. }
    enough (values' = values) as -> by done. apply list_eq. intros i. rewrite Hv'. cbn [le_values set_values].
    rewrite Hv. destruct (_ !! i) as [f|]; [|done]. cbn. f_equal.
    destruct (isUidPosition event i f) eqn:Ep.
    + rewrite (isUidPosition_mapped event values i f Ep). by apply mapToHost_idem.
    + change (isUidPosition (set_values values event) i f) with (isUidPosition event i f). by rewrite Ep.
Qed.
End isolated.

(** ** Experiment ids *)

(** The ids of a train: its first id, and derived ones, each once. *)
Definition idsOk (ids : list Z) : Prop :=
  match ids with
  | [] => True
  | f :: rest => NoDup ids ∧ (∀ i, i ∈ rest → f < i <= f + 5) ∧ int64 f ∧ int64 (f + 5)
  end.

Lemma pushId_ok f k rest : idsOk (f :: rest) → 1 <= k <= 5 → idsOk (pushId (f + k) (f :: rest)).
Proof.
  intros (Hnd & Hr & Hf & Hf5) Hk. unfold pushId. case_bool_decide as Hin; [done|]. cbn [app]. split_and!; try done.
  - rewrite app_comm_cons. apply NoDup_app. split_and!; [done| |apply NoDup_singleton].
    intros x Hx ->%list_elem_of_singleton. done.
  - intros i [Hi| ->%list_elem_of_singleton]%elem_of_app; [by apply Hr|lia].
Qed.

Lemma addStateId_ok atoms status ids : idsOk ids → idsOk (addStateId atoms status ids).
Proof.
  intros H. destruct ids as [|f rest]; [done|]. unfold addStateId.
  repeat (destruct (_ =? _); [by apply pushId_ok; try lia|]). done.
Qed.

Lemma addRollbackId_ok atoms type ids : idsOk ids → idsOk (addRollbackId atoms type ids).
Proof.
  intros H. destruct ids as [|f rest]; [done|]. unfold addRollbackId.
  repeat (destruct (_ =? _); [by apply pushId_ok; try lia|]). done.
Qed.

Lemma idsOk_length ids : idsOk ids → (length ids <= 6)%nat.
Proof.
  destruct ids as [|f rest]; [cbn; lia|]. intros (Hnd & Hr & _).
  assert (f :: rest ⊆+ seqZ f 6) as H%submseteq_length by
    (apply NoDup_submseteq; [done|]; intros i [->|Hi%Hr]%elem_of_cons; apply elem_of_seqZ; lia).
  rewrite length_seqZ in H. exact H.
Qed.

Lemma idsOk_int64 ids : idsOk ids → Forall int64 ids.
Proof.
  destruct ids as [|f rest]; [constructor|]. intros (_ & Hr & Hf & Hf5). constructor; [done|].
  apply Forall_forall. intros i Hi%Hr. unfold int64 in *. lia.
Qed.

(** A train info that an event may carry: at most one id, with room for the derived ones. *)
Definition trainEventOk (t : InstallTrainInfo) : Prop :=
  trainInRange t ∧ idsOk (experimentIds t) ∧ (length (experimentIds t) <= 1)%nat.

Definition storedOk (t : InstallTrainInfo) : Prop := trainInRange t ∧ idsOk (experimentIds t).

Lemma updateTrainInfo_ok atoms uninit is_rollback onDisk t :
  storedOk t → from_option storedOk True onDisk → storedOk (updateTrainInfo atoms uninit is_rollback onDisk t).
Proof.
  intros [(Hv & Hs & _ & Hn & _) Hi] Hd.
  assert (Hok : ∀ v ids a b c, int64 v → idsOk ids →
    storedOk (mkTrainInfo v (trainName t) (train_status t) (addStateId atoms (train_status t) ids) a b c)).
  { intros v ids a b c Hv' Hids%(addStateId_ok atoms (train_status t)).
    split; [|exact Hids]. split_and!; try done; [by apply idsOk_int64|].
    pose proof (idsOk_length _ Hids). cbn [experimentIds]. lia. }
  unfold updateTrainInfo. destruct (from_option flagsOf uninit onDisk) as [[a b] c].
  destruct onDisk as [old|]; cbn in *.
  - destruct Hd as [(Hvo & _) Hio]. destruct (trainVersionCode t =? -1), (negb _ || is_rollback), is_rollback; by apply Hok.
  - destruct is_rollback; by apply Hok.
Qed.

(** ** The directory of trains *)

Lemma deleteFile_sub name d : deleteFile name d ⊆ d.
Proof. intros e [H _]%list_elem_of_In%filter_In. by apply list_elem_of_In. Qed.

Lemma collectFiles_sub now only entries : ∀ d files d',
  collectFiles now only entries d = Some (files, d') → d' ⊆ d.
Proof.
  induction entries as [|[name c] entries IH]; intros d files d' H; cbn [collectFiles] in H; [by simplify_eq|].
  apply bind_Some in H as (r & _ & H). destruct r as [[[ts history] file]|]; [|by eapply IH].
  destruct (fileTooOld _ _); [transitivity (deleteFile file d); [by eapply IH|apply deleteFile_sub]|].
  apply bind_Some in H as ([files' d1] & E & [= _ <-]). by eapply IH.
Qed.

Lemma trimToFit_sub sortFiles now only d d' : trimToFit sortFiles now only d = Some d' → d' ⊆ d.
Proof.
  intros ([files d1] & E & [= <-])%bind_Some. apply collectFiles_sub in E. etrans; [|exact E]. clear E.
  generalize (filesToDelete (rev (if overLimit (Z.of_nat (length files)) (totalSize files) then sortFiles files else files)) (totalSize files)) as names.
  intros names. revert d1. induction names as [|n names IH]; intros d1; cbn [foldl]; [done|].
  etrans; [apply IH|apply deleteFile_sub].
Qed.

Section trains.
Context (atoms : HardCodedAtoms) (sortFiles : list FileInfo → list FileInfo).

(** What the events about trains do to their directory. *)
Inductive trainStep (d d' : Directory) : Prop :=
  | step_push nowSec uninit is_rollback t t' :
      trainEventOk t →
      getAndUpdateTrainInfoOnDisk atoms sortFiles nowSec uninit is_rollback t d = Some (t', d') → trainStep d d'
  | step_rollback nowSec type name ids :
      processWatchdogRollbackOccurred atoms sortFiles nowSec type name d = Some (ids, d') → trainStep d d'.

(** All files hold train info with good ids. *)
Definition trainsOk (d : Directory) : Prop := ∀ e, e ∈ d → ∃ t, e.2 = trainBytes t ∧ storedOk t.

Lemma fileContent_in name d c : fileContent name d = Some c → (name, c) ∈ d.
Proof using.
  induction d as [|[n c'] d IH]; cbn [fileContent]; [done|].
  destruct (String.eqb_spec n name) as [->|]; [intros [= ->]; left|intros H; right; by apply IH].
Qed.

Lemma readTrainInfo_ok nowSec name d onDisk d' :
  trainsOk d → readTrainInfo sortFiles nowSec name d = Some (onDisk, d') →
  d' ⊆ d ∧ from_option storedOk True onDisk.
Proof using.
  intros Hd. unfold readTrainInfo. intros (d1 & E & H)%bind_Some. injection H as <- <-.
  apply trimToFit_sub in E. split; [done|]. destruct (findTrainInfoFileName name d1) as [file|]; [|done].
  destruct (fileContent file d1) as [c|] eqn:Ec; [|done]. apply fileContent_in, E, Hd in Ec as (t & Hc & Ht).
  cbn [snd] in Hc. subst c. rewrite parse_trainBytes by apply Ht. exact Ht.
Qed.

Lemma writeTrainInfo_ok nowSec t d : trainsOk d → storedOk t → trainsOk (writeTrainInfo nowSec t d).2.
Proof using.
  intros Hd Ht. unfold writeTrainInfo. destruct (String.eqb _ _); [done|]. cbn [snd].
  fold (replaceFile (trainName t) (showZ nowSec ++ "_" ++ trainName t)%string (trainBytes t) d).
  rewrite replaceFile_eq.
  - intros e [He| ->%list_elem_of_singleton]%elem_of_app; [|by exists t].
    apply Hd. apply list_elem_of_In, filter_In in He as [He _]. by apply list_elem_of_In.
  - unfold matchesEnd. cbn [fst]. rewrite hidden_number. cbn [negb andb]. rewrite <- string_app_assoc. apply hasSuffix_app.
Qed.

Lemma trainStep_ok d d' : trainsOk d → trainStep d d' → trainsOk d'.
Proof using.
  intros Hd [nowSec uninit rb t t' [Hr [Hi _]] H|nowSec type name ids H].
  - unfold getAndUpdateTrainInfoOnDisk in H. destruct (String.eqb _ _); [by simplify_eq|].
    apply bind_Some in H as ([onDisk d1] & E & [= <- <-]). apply readTrainInfo_ok in E as [Hs Ho]; [|done].
    apply writeTrainInfo_ok; [intros e He; by apply Hd, Hs|by apply updateTrainInfo_ok].
  - unfold processWatchdogRollbackOccurred in H. destruct (String.eqb _ _); [by simplify_eq|].
    apply bind_Some in H as ([onDisk d1] & E & H). apply readTrainInfo_ok in E as [Hs Ho]; [|done].
    assert (Hd1 : trainsOk d1) by (intros e He; by apply Hd, Hs).
    destruct onDisk as [t|]; [|by simplify_eq]. case_bool_decide; [by simplify_eq|].
    destruct (_ || _); injection H as _ <-; [|done]. apply writeTrainInfo_ok; [done|].
    destruct Ho as [(Hv & Hst & _ & Hn & _) Ho]. apply (addRollbackId_ok atoms type) in Ho.
    split; [|exact Ho]. split_and!; try done; [by apply idsOk_int64|].
    pose proof (idsOk_length _ Ho). cbn [withIds experimentIds]. lia.
Qed.

(** After any sequence of install, rollback and watchdog events (each of which names at most one experiment), the ids
    stored for a train are its experiment followed by ids derived from it, all different and at most six:
    however often an event is repeated, nothing is stored twice. *)
Theorem train_ids_distinct d nowSec name t d' :
  rtc trainStep [] d → readTrainInfo sortFiles nowSec name d = Some (Some t, d') →
  NoDup (experimentIds t) ∧ (length (experimentIds t) <= 6)%nat ∧
  ∀ f rest, experimentIds t = f :: rest → ∀ i, i ∈ rest → f < i <= f + 5.
Proof using.
  intros Hr Hread. assert (Hd : trainsOk d).
  { assert (Hgen : ∀ d0, trainsOk d0 → rtc trainStep d0 d → trainsOk d).
    { clear. intros d0 H0 H. induction H; [done|]. apply IHrtc. by eapply trainStep_ok. }
    apply (Hgen [] ltac:(by intros e He%not_elem_of_nil) Hr). }
  apply readTrainInfo_ok in Hread as [_ [_ Hi]]; [|done]. split_and!.
  - destruct (experimentIds t); [constructor|apply Hi].
  - by apply idsOk_length.
  - intros f rest E. rewrite E in Hi. apply Hi.
Qed.
End trains.

(** ** The shell command *)

(** The event of the shell command that logs a binary push has eight fields, but its handler reads a tenth one:
    whatever the command says, and whoever runs it, neither the event nor the train info on disk changes. *)
Theorem shell_binary_push_ignored atoms protoWrite sortFiles nowSec checkPermission parseIds userOf uninit l
    elapsedNs name version staging rollback latency state ids userId d :
  let event := LogEvent_binaryPush atoms elapsedNs name version staging rollback latency state ids userId in
  onBinaryPushStateChangedEventLocked atoms protoWrite sortFiles nowSec checkPermission parseIds userOf uninit l event d
    = Some (event, d).
Proof.
  cbv zeta. unfold onBinaryPushStateChangedEventLocked. destruct (mayChangeTrains _ _); [|done].
  destruct staging, rollback, latency; reflexivity.
Qed.

(** ** Examples *)

Definition exampleHardCoded : HardCodedAtoms := mkHardCodedAtoms 102 147 43 10051 4 6 7 1 2.

Lemma isolated_uids_replaced_witness :
  let u := assignIsolatedUid 99001 10005 UidMap_new in
  let event := set_uid 0 (set_values [simpleValue 50 1 (VINT 99001); simpleValue 50 2 (VINT 99001)]
                            (set_header 10 50 (LogEvent_new 0))) in
  ∃ values, mapIsolatedUidToHostUidIfNecessaryLocked 0 u event = Some (set_values values event) ∧
    length values = 2%nat ∧
    mapIsolatedUidToHostUidIfNecessaryLocked 0 u (set_values values event) = Some (set_values values event).
Proof.
  intros u event. destruct (isolated_uids_replaced 0 u event) as (values & H & _ & Hlen & Hidem).
  - constructor; vm_compute; intuition congruence.
  - intros i h. unfold u, assignIsolatedUid. cbn. intros [[<- <-]|[_ H]]%lookup_insert_Some; [done|done].
  - exists values. split; [exact H|]. split; [exact Hlen|exact Hidem].
Defined.

(** Two successful installs and a successful rollback of a train. *)
Definition examplePush (state : Z) (d : Directory) : option (InstallTrainInfo * Directory) :=
  getAndUpdateTrainInfoOnDisk exampleHardCoded (insertionSort file_ltb) 1000 (false, false, false) false
    (mkTrainInfo 5 "train" state [70] true false false) d.
Definition trains1 : Directory := Eval vm_compute in from_option snd [] (examplePush 4 []).
Definition trains2 : Directory := Eval vm_compute in from_option snd [] (examplePush 4 trains1).
Definition trains3 : Directory := Eval vm_compute in from_option snd [] (examplePush 7 trains2).
Definition exampleTrain : InstallTrainInfo := mkTrainInfo 5 "train" 7 [70; 71; 73] true false false.

Lemma train_ids_distinct_witness :
  readTrainInfo (insertionSort file_ltb) 1001 "train" trains3 = Some (Some exampleTrain, trains3) ∧
  NoDup (experimentIds exampleTrain) ∧ (length (experimentIds exampleTrain) <= 6)%nat.
Proof.
  assert (Hread : readTrainInfo (insertionSort file_ltb) 1001 "train" trains3 = Some (Some exampleTrain, trains3)).
  { vm_compute. reflexivity. }
  assert (Hstep : ∀ state t d d', int32 state → examplePush state d = Some (t, d') →
    trainStep exampleHardCoded (insertionSort file_ltb) d d').
  { intros state t d d' Hs E. eapply step_push; [|exact E]. split; [|split; [|cbn; lia]].
    - split; [unfold int64; cbn; lia|]. split; [exact Hs|]. split; [repeat constructor; unfold int64; lia|]. vm_compute. done.
    - split; [apply NoDup_singleton|]. split; [by intros i Hi%not_elem_of_nil|]. unfold int64. lia. }
  split; [exact Hread|].
  edestruct (train_ids_distinct exampleHardCoded (insertionSort file_ltb) trains3 1001 "train" exampleTrain trains3)
    as (H1 & H2 & _); [|exact Hread|split; [exact H1|exact H2]].
  eapply rtc_l; [eapply (Hstep 4 (mkTrainInfo 5 "train" 4 [70; 71] true false false) [] trains1);
                 [unfold int32; lia|vm_compute; reflexivity]|].
  eapply rtc_l; [eapply (Hstep 4 (mkTrainInfo 5 "train" 4 [70; 71] true false false) trains1 trains2);
                 [unfold int32; lia|vm_compute; reflexivity]|].
  eapply rtc_once, (Hstep 7 exampleTrain); [unfold int32; lia|vm_compute; reflexivity].
Defined.
