(* ===== verification/LogProcessor.v ===== *)
(** * The log processor (StatsLogProcessor.{h,cpp})

    It holds the metrics managers of all configurations, passes every event to them, sends broadcasts when a
    configuration has much data or changes between active and inactive, writes reports to disk and resets
    configurations whose time to live is over.  It listens to the configuration manager and the uid map.

    The shared objects it uses (uid map, state manager, pullers, disk) are part of its state here.  What an
    operation finds outside (clocks, answers of pullers and of other services) is the record [Env].  A loop
    over managers or uids runs in the order of the finite maps, which is one of those the source may use.
    Protobuf messages are written and read by functions of [Library].  Registrations that a rejected
    configuration made before it was rejected are left out.  [None] is a fault of a manager or of storage. *)
From S2P Require Import Prelude Hash UMap FieldValue DimensionKey Matchers LogEvent UidMap MatcherTrackers.
From S2P Require Import Conditions Alarms Anomaly State MetricProducer CountMetric MetricShared AnyMetric.
From S2P Require Import Sorting Storage Pullers MetricsConfig MetricsManager ManagerOps TrainEvents.

(** ** Limits of guardrail/StatsdStats.h *)

Definition kMaxMetricsBytesPerConfig : Z := 2 * 1024 * 1024.
Definition kBytesPerConfigTriggerGetData : Z := 192 * 1024.
Definition kMinBroadcastPeriodNs : Z := 60 * NS_PER_SEC.
Definition kMinByteSizeCheckPeriodNs : Z := 60 * NS_PER_SEC.
Definition kMinActivationBroadcastPeriodNs : Z := 10 * NS_PER_SEC.
Definition kPullerCacheClearIntervalSec : Z := 1.
Definition WRITE_DATA_COOL_DOWN_SEC : Z := 5.

(** ** Outside *)

(** The report of a configuration; the strings that its metrics hash are left to the serialization. *)
Record ConfigReport := mkConfigReport {
  rp_metrics : list AnyReport;
  rp_annotations : list (Z * Z);
  rp_uidMap : option (list ChangeInfo * list PackageInfo);
  rp_lastReportElapsedNs : Z;
  rp_currentReportElapsedNs : Z;
  rp_lastReportWallClockNs : Z;
  rp_currentReportWallClockNs : Z;
  rp_reason : DumpReportReason;
  rp_strings : list string
}.

Record SavedConfig := mkSavedConfig { sc_id : Z; sc_uid : Z; sc_metrics : list ActiveMetric }.
Record SavedMetadata := mkSavedMetadata { sm_key : ConfigKey; sm_alerts : list (Z * AlertMetadata) }.

(** Libraries and other services that are the same for all operations. *)
Record Library (Config : Type) := mkLibrary {
  lib_atoms : HardCodedAtoms;
  lib_protoWrite : Z → Z → list Z;
  lib_parseIds : list Z → option (list Z);
  lib_userOf : Z → Z;
  lib_checkPermission : string → Z → Z → bool;
  lib_sortFiles : list FileInfo → list FileInfo;
  lib_sortEvents : list Parsing → list Parsing;
  lib_hash : string → Z;
  lib_bytesChangeRecord : Z;
  lib_writeReport : ConfigReport → list Z;
  lib_parseConfig : list Z → option Config;
  lib_writeActive : list SavedConfig → list Z;
  lib_parseActive : list Z → option (list SavedConfig);
  lib_writeMetadata : list SavedMetadata → list Z;
  lib_parseMetadata : list Z → option (list SavedMetadata)
}.
Arguments lib_atoms {Config} _.
Arguments lib_protoWrite {Config} _ _ _.
Arguments lib_parseIds {Config} _ _.
Arguments lib_userOf {Config} _ _.
Arguments lib_checkPermission {Config} _ _ _ _.
Arguments lib_sortFiles {Config} _ _.
Arguments lib_sortEvents {Config} _ _.
Arguments lib_hash {Config} _ _.
Arguments lib_bytesChangeRecord {Config} _.
Arguments lib_writeReport {Config} _ _.
Arguments lib_parseConfig {Config} _ _.
Arguments lib_writeActive {Config} _ _.
Arguments lib_parseActive {Config} _ _.
Arguments lib_writeMetadata {Config} _ _.
Arguments lib_parseMetadata {Config} _ _.

(** What one operation finds: uninitialized memory, the clocks (the elapsed time is read again for every
    manager), what pulls answer and whether broadcasts get through. *)
Record Env := mkEnv {
  e_uninit : Z;
  e_uninitFlags : bool * bool * bool;
  e_elapsed : Z;
  e_elapsedAt : ConfigKey → Z;
  e_wallNs : Z;
  e_pull : ConfigKey → Z → Z → option (list LogEvent);
  e_pullFinds : nat → PullEnv;
  e_depth : nat;
  e_sendBroadcast : ConfigKey → bool;
  e_sendActivationBroadcast : Z → list Z → bool
}.

Definition e_wallSec (e : Env) : Z := Z.quot (e_wallNs e) NS_PER_SEC.

Definition worldOf (e : Env) (key : ConfigKey) (u : UidMap) (s : StateManager) : World :=
  mkWorld (e_uninit e) u s (e_pull e key) (e_elapsed e) (e_depth e).

(** ** State *)

Inductive ProcessorCall :=
  | SendBroadcast (key : ConfigKey) (elapsedNs : Z) (sent : bool)
  | SendActivationBroadcast (uid : Z) (configs : list Z) (elapsedNs : Z) (sent : bool)
  | PullerCall (call : ManagerCall).

Record Managed (M : Type) := mkManaged { md_manager : M; md_address : Z }.
Arguments mkManaged {M} _ _.
Arguments md_manager {M} _.
Arguments md_address {M} _.

Record RateLimits := mkRateLimits {
  mLastBroadcastTimes : gmap ConfigKey Z;
  mLastActivationBroadcastTimes : gmap Z Z;
  mLastByteSizeTimes : gmap ConfigKey Z;
  mOnDiskDataConfigs : gset ConfigKey
}.

Record LastTimes := mkLastTimes {
  mLastPullerCacheClearTimeSec : Z;
  mLastWriteTimeNs : Z;
  mLastActiveMetricsWriteNs : Z;
  mLastMetadataWriteNs : Z;
  mNextAnomalyAlarmTime : Z
}.

(** The objects shared with the rest of statsd; [active_metrics] and [metadata] are files of their own. *)
Record SharedObjects := mkShared {
  sh_uidMap : UidMap;
  sh_states : StateManager;
  sh_pullers : StatsPullerManager;
  sh_disk : Disk;
  sh_activeMetrics : option (list Z);
  sh_metadata : option (list Z)
}.

Record StatsLogProcessor (M : Type) := mkProcessor {
  mMetricsManagers : gmap ConfigKey (Managed M);
  lp_limits : RateLimits;
  lp_times : LastTimes;
  lp_shared : SharedObjects;
  lp_timeBaseNs : Z;
  lp_fresh : Z;
  lp_calls : list ProcessorCall
}.
Arguments mkProcessor {M}.
Arguments mMetricsManagers {M} _.
Arguments lp_limits {M} _.
Arguments lp_times {M} _.
Arguments lp_shared {M} _.
Arguments lp_timeBaseNs {M} _.
Arguments lp_fresh {M} _.
Arguments lp_calls {M} _.

Section setters.
Context {M : Type}.
Implicit Types p : StatsLogProcessor M.

Definition set_managers (ms : gmap ConfigKey (Managed M)) p : StatsLogProcessor M :=
  mkProcessor ms (lp_limits p) (lp_times p) (lp_shared p) (lp_timeBaseNs p) (lp_fresh p) (lp_calls p).
Definition set_limits (l : RateLimits) p : StatsLogProcessor M :=
  mkProcessor (mMetricsManagers p) l (lp_times p) (lp_shared p) (lp_timeBaseNs p) (lp_fresh p) (lp_calls p).
Definition set_times (t : LastTimes) p : StatsLogProcessor M :=
  mkProcessor (mMetricsManagers p) (lp_limits p) t (lp_shared p) (lp_timeBaseNs p) (lp_fresh p) (lp_calls p).
Definition set_shared (s : SharedObjects) p : StatsLogProcessor M :=
  mkProcessor (mMetricsManagers p) (lp_limits p) (lp_times p) s (lp_timeBaseNs p) (lp_fresh p) (lp_calls p).
Definition set_fresh (n : Z) p : StatsLogProcessor M :=
  mkProcessor (mMetricsManagers p) (lp_limits p) (lp_times p) (lp_shared p) (lp_timeBaseNs p) n (lp_calls p).
Definition record_calls (c : list ProcessorCall) p : StatsLogProcessor M :=
  mkProcessor (mMetricsManagers p) (lp_limits p) (lp_times p) (lp_shared p) (lp_timeBaseNs p) (lp_fresh p)
    (lp_calls p ++ c).
End setters.

Definition set_uidMap (u : UidMap) (s : SharedObjects) : SharedObjects :=
  mkShared u (sh_states s) (sh_pullers s) (sh_disk s) (sh_activeMetrics s) (sh_metadata s).
Definition set_states (st : StateManager) (s : SharedObjects) : SharedObjects :=
  mkShared (sh_uidMap s) st (sh_pullers s) (sh_disk s) (sh_activeMetrics s) (sh_metadata s).
Definition set_pullerManager (pm : StatsPullerManager) (s : SharedObjects) : SharedObjects :=
  mkShared (sh_uidMap s) (sh_states s) pm (sh_disk s) (sh_activeMetrics s) (sh_metadata s).
Definition set_disk (k : Disk) (s : SharedObjects) : SharedObjects :=
  mkShared (sh_uidMap s) (sh_states s) (sh_pullers s) k (sh_activeMetrics s) (sh_metadata s).
Definition set_files (active metadata : option (list Z)) (s : SharedObjects) : SharedObjects :=
  mkShared (sh_uidMap s) (sh_states s) (sh_pullers s) (sh_disk s) active metadata.

Definition set_dataDir (d : Directory) (k : Disk) : Disk := mkDisk (serviceDir k) d (trainInfoDir k).
Definition set_trainInfoDir (d : Directory) (k : Disk) : Disk := mkDisk (serviceDir k) (dataDir k) d.

Definition set_lastBroadcast (m : gmap ConfigKey Z) (l : RateLimits) : RateLimits :=
  mkRateLimits m (mLastActivationBroadcastTimes l) (mLastByteSizeTimes l) (mOnDiskDataConfigs l).
Definition set_lastActivation (m : gmap Z Z) (l : RateLimits) : RateLimits :=
  mkRateLimits (mLastBroadcastTimes l) m (mLastByteSizeTimes l) (mOnDiskDataConfigs l).
Definition set_lastByteSize (m : gmap ConfigKey Z) (l : RateLimits) : RateLimits :=
  mkRateLimits (mLastBroadcastTimes l) (mLastActivationBroadcastTimes l) m (mOnDiskDataConfigs l).
Definition set_onDisk (s : gset ConfigKey) (l : RateLimits) : RateLimits :=
  mkRateLimits (mLastBroadcastTimes l) (mLastActivationBroadcastTimes l) (mLastByteSizeTimes l) s.

Section processor.
Context {M Config : Type} `{Hops : ManagerOps M Config} (lib : Library Config).
Implicit Types p : StatsLogProcessor M.

Definition mUidMap p : UidMap := sh_uidMap (lp_shared p).
Definition mDisk p : Disk := sh_disk (lp_shared p).

Definition worldAt (e : Env) (key : ConfigKey) p : World := worldOf e key (mUidMap p) (sh_states (lp_shared p)).

Definition on_shared (f : SharedObjects → SharedObjects) p : StatsLogProcessor M := set_shared (f (lp_shared p)) p.
Definition on_limits (f : RateLimits → RateLimits) p : StatsLogProcessor M := set_limits (f (lp_limits p)) p.

(** [it->second->...]: a manager changes in place. *)
Definition setManager (key : ConfigKey) (m : M) p : StatsLogProcessor M :=
  set_managers (alter (λ x, mkManaged m (md_address x)) key (mMetricsManagers p)) p.

Definition onManagers (f : ConfigKey → M → M) p : StatsLogProcessor M :=
  set_managers (map_imap (λ key x, Some (mkManaged (f key (md_manager x)) (md_address x))) (mMetricsManagers p)) p.

Definition managerOf (key : ConfigKey) p : option M := md_manager <$> mMetricsManagers p !! key.

(** ** Construction *)

Definition StatsLogProcessor_new (shared : SharedObjects) (timeBaseNs : Z) : StatsLogProcessor M :=
  let u := sh_uidMap shared in
  let pullers := (ForceClearPullerCache (sh_pullers shared)).2 in
  mkProcessor ∅ (mkRateLimits ∅ ∅ ∅ ∅) (mkLastTimes 0 0 0 0 0)
    (set_states (updateLogSources (λ pkg, getAppUid pkg u) (sh_states shared)) (set_pullerManager pullers shared))
    timeBaseNs 0 [].

(** ** Registrations of a manager *)

Definition registerListeners (m : M) (s : StateManager) : StateManager :=
  foldl (λ s '(atom, listener), manager_registerListener atom listener s) s (mo_listeners m).
Definition unregisterListeners (m : M) (s : StateManager) : StateManager :=
  foldl (λ s '(atom, listener), manager_unregisterListener atom listener s) s (mo_listeners m).

Definition registerReceivers (key : ConfigKey) (rs : list (Z * Registration)) (pm : StatsPullerManager)
    : list ManagerCall * StatsPullerManager :=
  foldl (λ '(calls, pm) '(address, r),
    let (calls', pm) := RegisterReceiver (reg_tag r) key address (reg_nextPullTimeNs r) (reg_intervalNs r) pm in
    (calls ++ calls', pm)) ([], pm) rs.
Definition unregisterReceivers (key : ConfigKey) (rs : list (Z * Registration)) (pm : StatsPullerManager)
    : StatsPullerManager :=
  foldl (λ pm '(address, r), UnRegisterReceiver (reg_tag r) key address pm) pm rs.

(** What the constructor of a manager registers. *)
Definition registerManager (key : ConfigKey) (x : Managed M) p : StatsLogProcessor M :=
  let s := lp_shared p in
  let (calls, pm) := registerReceivers key (mo_receivers (md_manager x)) (sh_pullers s) in
  record_calls (PullerCall <$> calls)
    (set_shared (set_states (registerListeners (md_manager x) (sh_states s))
                   (set_pullerManager (RegisterPullUidProvider key (md_address x) pm) s)) p).

(** What the destructors of a manager and its metrics undo. *)
Definition destroyManager (key : ConfigKey) (x : Managed M) p : StatsLogProcessor M :=
  let s := lp_shared p in
  let pm := unregisterReceivers key (mo_receivers (md_manager x)) (sh_pullers s) in
  set_shared (set_states (unregisterListeners (md_manager x) (sh_states s))
                (set_pullerManager (UnregisterPullUidProvider key (md_address x) pm) s)) p.

(** [mMetricsManagers.erase(key)] *)
Definition eraseManager (key : ConfigKey) p : StatsLogProcessor M :=
  match mMetricsManagers p !! key with
  | None => p
  | Some x => destroyManager key x (set_managers (delete key (mMetricsManagers p)) p)
  end.

(** ** Reports *)

(** The report of a configuration, and the processor after it. *)
Definition configReport (e : Env) (key : ConfigKey) (m : M) (dumpTimeStampNs : Z)
    (include_current_partial_bucket erase_data : bool) (reason : DumpReportReason) (latency : DumpLatency) p
    : ConfigReport * StatsLogProcessor M :=
  let '(metrics, annotations, m') :=
    mo_onDumpReport (worldAt e key p) dumpTimeStampNs (e_wallNs e) include_current_partial_bucket erase_data latency m in
  let hashed := mo_hashStringInReport m' in
  let '(uidMap, strings, u) :=
    if (0 <? mo_getNumMetrics m')%nat then
      let '(changes, snapshot, strings, u) :=
        appendUidMap (lib_bytesChangeRecord lib) (lib_hash lib) dumpTimeStampNs key (mo_versionStringsInReport m')
          (mo_installerInReport m') hashed (mUidMap p) in
      (Some (changes, snapshot), strings, u)
    else (None, [], mUidMap p) in
  (mkConfigReport metrics annotations uidMap (mo_getLastReportTimeNs m) dumpTimeStampNs
     (mo_getLastReportWallClockNs m) (e_wallNs e) reason strings,
   on_shared (set_uidMap u) (setManager key m' p)).

Definition writeToDisk (name : string) (buffer : list Z) (e : Env) p : option (StatsLogProcessor M) :=
  k ← writeFile (lib_sortFiles lib) false name buffer (e_wallSec e) (mDisk p);
  Some (on_shared (set_disk k) p).

(** [None] in the first component: there is no such configuration. *)
Definition onConfigMetricsReportLocked (e : Env) (key : ConfigKey) (dumpTimeStampNs : Z)
    (include_current_partial_bucket erase_data : bool) (reason : DumpReportReason) (latency : DumpLatency)
    (dataSavedOnDisk : bool) p : option (option (list Z) * StatsLogProcessor M) :=
  match managerOf key p with
  | None => Some (None, p)
  | Some m =>
      let '(report, p) :=
        configReport e key m dumpTimeStampNs include_current_partial_bucket erase_data reason latency p in
      let buffer := lib_writeReport lib report in
      p ← (if erase_data && negb dataSavedOnDisk && mo_shouldPersistLocalHistory m
           then writeToDisk (getDataHistoryFileName (e_wallSec e) key.1 key.2) buffer e p
           else Some p);
      Some (Some buffer, p)
  end.

Definition noteOnDiskData (key : ConfigKey) p : StatsLogProcessor M :=
  on_limits (λ l, set_onDisk ({[key]} ∪ mOnDiskDataConfigs l) l) p.

(** [WriteDataToDiskLocked] for one configuration. *)
Definition writeConfigToDisk (e : Env) (key : ConfigKey) (timestampNs : Z) (reason : DumpReportReason)
    (latency : DumpLatency) p : option (StatsLogProcessor M) :=
  match managerOf key p with
  | None => Some p
  | Some m =>
      if negb (mo_shouldWriteToDisk m) then Some p
      else
        '(buffer, p) ← onConfigMetricsReportLocked e key timestampNs true true reason latency true p;
        p ← writeToDisk (getDataFileName (e_wallSec e) key.1 key.2) (default [] buffer) e p;
        Some (noteOnDiskData key p)
  end.

(** Whether the last write at [last] was less than five seconds ago. *)
Definition coolingDown (nowNs last : Z) : bool := u64 nowNs <? u64 (last + WRITE_DATA_COOL_DOWN_SEC * NS_PER_SEC).

Definition set_lastWrite (t : Z) p : StatsLogProcessor M :=
  let l := lp_times p in
  set_times (mkLastTimes (mLastPullerCacheClearTimeSec l) t (mLastActiveMetricsWriteNs l) (mLastMetadataWriteNs l)
               (mNextAnomalyAlarmTime l)) p.

Definition managerKeys p : list ConfigKey := fst <$> map_to_list (mMetricsManagers p).

Definition foldKeys (f : ConfigKey → StatsLogProcessor M → option (StatsLogProcessor M)) (keys : list ConfigKey) p
    : option (StatsLogProcessor M) := foldl (λ r key, p ← r; f key p) (Some p) keys.

Definition WriteDataToDisk (e : Env) (reason : DumpReportReason) (latency : DumpLatency) (elapsedRealtimeNs : Z) p
    : option (StatsLogProcessor M) :=
  if coolingDown elapsedRealtimeNs (mLastWriteTimeNs (lp_times p)) then Some p
  else
    let p := set_lastWrite elapsedRealtimeNs p in
    foldKeys (λ key, writeConfigToDisk e key elapsedRealtimeNs reason latency) (managerKeys p) p.

(** The reports a caller gets: those on disk, then the one of the data in memory. *)
Definition onDumpReport (e : Env) (key : ConfigKey) (dumpTimeStampNs : Z)
    (include_current_partial_bucket erase_data : bool) (reason : DumpReportReason) (latency : DumpLatency) p
    : option (list (list Z) * StatsLogProcessor M) :=
  let keepFile := from_option mo_shouldPersistLocalHistory false (managerOf key p) in
  let '(reports, d) := appendConfigMetricsReport key (erase_data && negb keepFile)
                         (match reason with ADB_DUMP => true | _ => false end) (dataDir (mDisk p)) in
  let p := on_shared (set_disk (set_dataDir d (mDisk p))) p in
  match managerOf key p with
  | None => Some (reports, p)
  | Some _ =>
      let p := on_limits (λ l, set_lastBroadcast (delete key (mLastBroadcastTimes l)) l) p in
      '(buffer, p) ← onConfigMetricsReportLocked e key dumpTimeStampNs include_current_partial_bucket erase_data
                       reason latency false p;
      Some (reports ++ [default [] buffer], p)
  end.

(** ** Configurations *)

(** The manager of a new or fully replaced configuration.  A new manager registers itself before the one it
    replaces is destroyed. *)
Definition replaceConfig (e : Env) (timestampNs : Z) (key : ConfigKey) (config : Config) p
    : option (StatsLogProcessor M) :=
  let address := lp_fresh p in
  match mo_new (worldAt e key p) (address + 1) key config (lp_timeBaseNs p) timestampNs (e_wallNs e) with
  | Crashed => None
  | Rejected =>
      let pm := RegisterPullUidProvider key address (sh_pullers (lp_shared p)) in
      let p := on_shared (set_pullerManager (UnregisterPullUidProvider key address pm)) p in
      Some (eraseManager key p)
  | Done m =>
      let x := mkManaged m address in
      let p := registerManager key x (set_fresh (address + 1 + mo_addresses m) p) in
      if negb (mo_isConfigValid m) then Some (eraseManager key (destroyManager key x p))
      else
        let m := mo_init (worldAt e key p) m in
        let p := on_shared (λ s, set_uidMap (uidmap_OnConfigUpdated key (sh_uidMap s)) s) p in
        let p := eraseManager key p in
        Some (set_managers (<[key := mkManaged (mo_refreshTtl timestampNs m) address]> (mMetricsManagers p)) p)
  end.

(** The receivers of metrics that an update dropped. *)
Definition droppedReceivers (old new : M) : list (Z * Registration) :=
  List.filter (λ r : Z * Registration, negb (bool_decide (r.1 ∈ fst <$> mo_receivers new))) (mo_receivers old).

(** The update of a manager in place.  The state listeners of metrics that it drops stay registered. *)
Definition updateConfigInPlace (e : Env) (timestampNs : Z) (key : ConfigKey) (config : Config) (x : Managed M) p
    : option (StatsLogProcessor M) :=
  let fresh := lp_fresh p in
  match mo_updateConfig (worldAt e key p) fresh config (lp_timeBaseNs p) timestampNs (md_manager x) with
  | Crashed => None
  | Rejected => Some (eraseManager key p)
  | Done m =>
      let s := lp_shared p in
      let (calls, pm) := registerReceivers key (mo_receivers m) (sh_pullers s) in
      let pm := unregisterReceivers key (droppedReceivers (md_manager x) m) pm in
      let p := record_calls (PullerCall <$> calls)
                 (set_shared (set_states (registerListeners m (sh_states s)) (set_pullerManager pm s)) p) in
      let p := setManager key m (set_fresh (fresh + mo_addresses m) p) in
      Some (if mo_isConfigValid m
            then on_shared (λ s, set_uidMap (uidmap_OnConfigUpdated key (sh_uidMap s)) s) p
            else eraseManager key p)
  end.

Definition OnConfigUpdatedLocked (e : Env) (timestampNs : Z) (key : ConfigKey) (config : Config)
    (modularUpdate : bool) p : option (StatsLogProcessor M) :=
  match mMetricsManagers p !! key with
  | Some x => if modularUpdate then updateConfigInPlace e timestampNs key config x p
              else replaceConfig e timestampNs key config p
  | None => replaceConfig e timestampNs key config p
  end.

Definition processor_OnConfigUpdated (e : Env) (timestampNs : Z) (key : ConfigKey) (config : Config)
    (modularUpdate : bool) p : option (StatsLogProcessor M) :=
  p ← writeConfigToDisk e key timestampNs CONFIG_UPDATED NO_TIME_CONSTRAINTS p;
  OnConfigUpdatedLocked e timestampNs key config modularUpdate p.

Definition hasConfigOf (uid : Z) p : bool := existsb (λ key : ConfigKey, key.1 =? uid) (managerKeys p).

Definition processor_OnConfigRemoved (e : Env) (key : ConfigKey) p : option (StatsLogProcessor M) :=
  p ← match mMetricsManagers p !! key with
      | None => Some p
      | Some _ =>
          p ← writeConfigToDisk e key (e_elapsed e) CONFIG_REMOVED NO_TIME_CONSTRAINTS p;
          Some (on_shared (λ s, set_uidMap (uidmap_OnConfigRemoved key (sh_uidMap s)) s) (eraseManager key p))
      end;
  let p := on_limits (λ l, set_lastBroadcast (delete key (mLastBroadcastTimes l)) l) p in
  let p := if hasConfigOf key.1 p then p
           else on_limits (λ l, set_lastActivation (delete key.1 (mLastActivationBroadcastTimes l)) l) p in
  Some (if bool_decide (mMetricsManagers p = ∅)
        then on_shared (λ s, set_pullerManager (ForceClearPullerCache (sh_pullers s)).2 s) p else p).

(** [resetConfigsLocked] for one key: the configuration is read again from disk. *)
Definition resetConfig (e : Env) (timestampNs : Z) (key : ConfigKey) p : option (StatsLogProcessor M) :=
  match (content ← readConfigFromDisk key (serviceDir (mDisk p)); lib_parseConfig lib content) with
  | Some config => OnConfigUpdatedLocked e timestampNs key config false p
  | None => Some (match managerOf key p with
                  | Some m => setManager key (mo_refreshTtl timestampNs m) p
                  | None => p
                  end)
  end.

Definition resetConfigsLocked (e : Env) (timestampNs : Z) (keys : list ConfigKey) p : option (StatsLogProcessor M) :=
  foldKeys (resetConfig e timestampNs) keys p.

Definition resetConfigs (e : Env) p : option (StatsLogProcessor M) := resetConfigsLocked e (e_elapsed e) (managerKeys p) p.

Definition expiredKeys (eventTimeNs : Z) p : list ConfigKey :=
  fst <$> List.filter (λ kv : ConfigKey * Managed M, negb (mo_isInTtl eventTimeNs (md_manager kv.2)))
            (map_to_list (mMetricsManagers p)).

Definition resetIfConfigTtlExpiredLocked (e : Env) (eventTimeNs : Z) p : option (StatsLogProcessor M) :=
  match expiredKeys eventTimeNs p with
  | [] => Some p
  | keys =>
      p ← WriteDataToDisk e CONFIG_RESET NO_TIME_CONSTRAINTS (e_elapsed e) p;
      resetConfigsLocked e eventTimeNs keys p
  end.
(** ** States *)

(** The state manager listens to these uids only. *)
Definition stateSource (event : LogEvent) (s : StateManager) : bool :=
  let uid := GetUid event in
  (uid =? AID_ROOT) || ((1000 <=? uid) && (uid <? 2000)) || bool_decide (uid ∈ State.mAllowedLogSources s).

(** The tracker after each of the changes that [handleReset] makes. *)
Fixpoint resetSteps (eventTimeNs : Z) (newState : FieldValue)
    (entries : umap HashableDimensionKey StateValueInfo) (t : StateTracker) : list StateTracker :=
  match entries with
  | [] => []
  | entry :: entries =>
      let t := updateStateForPrimaryKey eventTimeNs entry.1 newState false entry.2 t in
      t :: resetSteps eventTimeNs newState entries t
  end.

(** The tracker after each change that an event makes: listeners are called in between. *)
Definition stateSteps (event : LogEvent) (t : StateTracker) : list StateTracker :=
  match getStateFieldValueFromLogEvent event with
  | Some newState =>
      match int_value (fv_value newState) with
      | Some _ =>
          if getResetState event =? -1 then [onLogEvent event t]
          else
            let t := set_stateField (setField (st_field t) (mField (fv_field newState))) t in
            t :: resetSteps (GetElapsedTimestampNs event)
                   (FieldValue_of (st_field t) (VINT (getResetState event))) (mStateMap t) t
      | None => [onLogEvent event t]
      end
  | None => [onLogEvent event t]
  end.

(** [onStateChanged] of every listener of a notification. *)
Definition deliverNotification (e : Env) (atomId : Z) (s : StateManager) (n : Notification) p : StatsLogProcessor M :=
  foldl (λ p listener,
    onManagers (λ key, mo_onStateChanged (worldOf e key (mUidMap p) s) listener (nt_time n) atomId (nt_key n)
                         (nt_old n) (nt_new n)) p) p (elements (nt_listeners n)).

(** One step of the tracker: what it adds to the notifications is delivered in the state it leaves. *)
Definition deliverStep (e : Env) (tag : Z) (s : StateManager) (prev next : StateTracker) p : StatsLogProcessor M :=
  let s := mkStateManager (<[tag := next]> (mStateTrackers s)) (State.mAllowedPkg s) (State.mAllowedLogSources s) in
  foldl (λ p n, deliverNotification e (mTag (st_field next)) s n p) p
    (drop (length (notifications prev)) (notifications next)).

Fixpoint deliverSteps (e : Env) (tag : Z) (s : StateManager) (prev : StateTracker) (steps : list StateTracker) p
    : StatsLogProcessor M :=
  match steps with
  | [] => p
  | next :: steps => deliverSteps e tag s next steps (deliverStep e tag s prev next p)
  end.

(** [StateManager::onLogEvent] with the calls to its listeners. *)
Definition onStateEvent (e : Env) (event : LogEvent) p : StatsLogProcessor M :=
  let s := sh_states (lp_shared p) in
  let tag := GetTagId event in
  let p := if stateSource event s then
             match mStateTrackers s !! tag with
             | Some t => deliverSteps e tag s t (stateSteps event t) p
             | None => p
             end
           else p in
  on_shared (set_states (manager_onLogEvent event s)) p.

(** ** Events *)

Definition flushIfNecessaryLocked (e : Env) (key : ConfigKey) p : StatsLogProcessor M :=
  match managerOf key p with
  | None => p
  | Some m =>
      let now := e_elapsedAt e key in
      let recent (last : option Z) period := match last with Some t => now - t <? period | None => false end in
      if recent (mLastByteSizeTimes (lp_limits p) !! key) kMinByteSizeCheckPeriodNs then p
      else
        let totalBytes := mo_byteSize m in
        let p := on_limits (λ l, set_lastByteSize (<[key := now]> (mLastByteSizeTimes l)) l) p in
        if kMaxMetricsBytesPerConfig <? totalBytes then setManager key (mo_dropData now m) p
        else if (kBytesPerConfigTriggerGetData <? totalBytes)
                || bool_decide (key ∈ mOnDiskDataConfigs (lp_limits p)) then
          if recent (mLastBroadcastTimes (lp_limits p) !! key) kMinBroadcastPeriodNs then p
          else
            let sent := e_sendBroadcast e key in
            let p := record_calls [SendBroadcast key now sent] p in
            if sent
            then on_limits (λ l, set_lastBroadcast (<[key := now]> (mLastBroadcastTimes l))
                                   (set_onDisk (mOnDiskDataConfigs l ∖ {[key]}) l)) p
            else p
        else p
  end.

(** The uids with a configuration whose status changed, and the active configurations of each uid. *)
Record ActiveStatus := mkActiveStatus {
  uidsWithActiveConfigsChanged : gset Z; activeConfigsPerUid : gmap Z (list Z)
}.

Definition noteStatus (key : ConfigKey) (wasActive isActive : bool) (a : ActiveStatus) : ActiveStatus :=
  mkActiveStatus
    (if Bool.eqb wasActive isActive then uidsWithActiveConfigsChanged a
     else {[key.1]} ∪ uidsWithActiveConfigsChanged a)
    (if isActive
     then <[key.1 := default [] (activeConfigsPerUid a !! key.1) ++ [key.2]]> (activeConfigsPerUid a)
     else activeConfigsPerUid a).

(** The event for one manager. *)
Definition passEvent (e : Env) (event : LogEvent) (s : StatsLogProcessor M * ActiveStatus) (key : ConfigKey)
    : option (StatsLogProcessor M * ActiveStatus) :=
  let (p, a) := s in
  match managerOf key p with
  | None => Some s
  | Some m =>
      m' ← mo_onLogEvent (worldAt e key p) event m;
      Some (flushIfNecessaryLocked e key (setManager key m' p), noteStatus key (mo_isActive m) (mo_isActive m') a)
  end.

Definition passEvents (e : Env) (event : LogEvent) p : option (StatsLogProcessor M * ActiveStatus) :=
  foldl (λ r key, s ← r; passEvent e event s key) (Some (p, mkActiveStatus ∅ ∅)) (managerKeys p).

(** The loop over the uids ends at the first one that the rate limit stops. *)
Fixpoint sendActivationBroadcasts (e : Env) (uids : list Z) (active : gmap Z (list Z)) p : StatsLogProcessor M :=
  match uids with
  | [] => p
  | uid :: uids =>
      let now := e_elapsed e in
      let recent := match mLastActivationBroadcastTimes (lp_limits p) !! uid with
                    | Some t => now - t <? kMinActivationBroadcastPeriodNs
                    | None => false
                    end in
      if recent then p
      else
        let configs := default [] (active !! uid) in
        let sent := e_sendActivationBroadcast e uid configs in
        let p := record_calls [SendActivationBroadcast uid configs now sent] p in
        let p := if sent
                 then on_limits (λ l, set_lastActivation (<[uid := now]> (mLastActivationBroadcastTimes l)) l) p
                 else p in
        sendActivationBroadcasts e uids active p
  end.

Definition set_nextAnomalyAlarm (t : Z) p : StatsLogProcessor M :=
  let l := lp_times p in
  set_times (mkLastTimes (mLastPullerCacheClearTimeSec l) (mLastWriteTimeNs l) (mLastActiveMetricsWriteNs l)
               (mLastMetadataWriteNs l) t) p.

Definition setAnomalyAlarm (elapsedTimeMillis : Z) p : StatsLogProcessor M := set_nextAnomalyAlarm elapsedTimeMillis p.
Definition cancelAnomalyAlarm p : StatsLogProcessor M := set_nextAnomalyAlarm 0 p.

Definition informAnomalyAlarmFiredLocked (elapsedTimeMillis : Z) p : StatsLogProcessor M :=
  onManagers (λ _, mo_anomalyAlarmsFired (u32 (Z.quot elapsedTimeMillis 1000)) (elapsedTimeMillis * 1000000)) p.

(** The anomaly alarm, if it is due. *)
Definition fireAnomalyAlarm (e : Env) p : StatsLogProcessor M :=
  let next := mNextAnomalyAlarmTime (lp_times p) in
  if negb (next =? 0) && (next * 1000000 <=? e_elapsed e)
  then informAnomalyAlarmFiredLocked (Z.quot (e_elapsed e) 1000000) (set_nextAnomalyAlarm 0 p)
  else p.

Definition clearPullerCaches (e : Env) p : StatsLogProcessor M :=
  let curTimeSec := Z.quot (e_elapsed e) NS_PER_SEC in
  let l := lp_times p in
  if kPullerCacheClearIntervalSec <? curTimeSec - mLastPullerCacheClearTimeSec l then
    set_times (mkLastTimes curTimeSec (mLastWriteTimeNs l) (mLastActiveMetricsWriteNs l) (mLastMetadataWriteNs l)
                 (mNextAnomalyAlarmTime l))
      (on_shared (λ s, set_pullerManager (ClearPullerCacheIfNecessary (curTimeSec * NS_PER_SEC) (sh_pullers s)).2 s) p)
  else p.

(** The events about trains are completed, isolated uids replaced. *)
Definition rewriteTrainEvent (e : Env) (l : Logger) (event : Parsing) p : option (Parsing * StatsLogProcessor M) :=
  let d := trainInfoDir (mDisk p) in
  let sec := e_wallSec e in
  '(event, d) ←
    (if mTagId event =? BINARY_PUSH_STATE_CHANGED (lib_atoms lib) then
       onBinaryPushStateChangedEventLocked (lib_atoms lib) (lib_protoWrite lib) (lib_sortFiles lib) sec
         (lib_checkPermission lib) (lib_parseIds lib) (lib_userOf lib) (e_uninitFlags e) l event d
     else Some (event, d));
  '(event, d) ←
    (if mTagId event =? WATCHDOG_ROLLBACK_OCCURRED (lib_atoms lib) then
       onWatchdogRollbackOccurredLocked (lib_atoms lib) (lib_protoWrite lib) (lib_sortFiles lib) sec
         (lib_checkPermission lib) l event d
     else Some (event, d));
  Some (event, on_shared (set_disk (set_trainInfoDir d (mDisk p))) p).

Definition rewriteUids (e : Env) (event : Parsing) p : option (Parsing * StatsLogProcessor M) :=
  if mTagId event =? ISOLATED_UID_CHANGED (lib_atoms lib)
  then Some (event, on_shared (set_uidMap (onIsolatedUidChangedEventLocked event (mUidMap p))) p)
  else
    event ← mapIsolatedUidToHostUidIfNecessaryLocked (e_uninit e) (mUidMap p) event;
    Some (event, p).

Definition OnLogEvent (e : Env) (l : Logger) (event : Parsing) p : option (StatsLogProcessor M) :=
  if negb (mValid event) then Some p
  else
    '(event, p) ← rewriteTrainEvent e l event p;
    p ← resetIfConfigTtlExpiredLocked e (mElapsedTimestampNs event) p;
    '(event, p) ← rewriteUids e event p;
    let logEvent := toLogEvent (log_uid l) event in
    let p := onStateEvent e logEvent p in
    if bool_decide (mMetricsManagers p = ∅) then Some p
    else
      '(p, a) ← passEvents e logEvent (clearPullerCaches e (fireAnomalyAlarm e p));
      Some (sendActivationBroadcasts e (elements (uidsWithActiveConfigsChanged a)) (activeConfigsPerUid a) p).

Definition GetActiveConfigs (uid : Z) p : list Z :=
  omap (λ kv : ConfigKey * Managed M,
    if (kv.1.1 =? uid) && mo_isActive (md_manager kv.2) then Some kv.1.2 else None) (map_to_list (mMetricsManagers p)).

Definition GetMetricsSize (key : ConfigKey) p : Z := from_option mo_byteSize 0 (managerOf key p).

Definition processor_getLastReportTimeNs (key : ConfigKey) p : Z :=
  from_option mo_getLastReportTimeNs 0 (managerOf key p).

(** ** Alarms *)

Definition processor_onPeriodicAlarmFired (timestampNs : Z) (alarmSet : list InternalAlarm) p : StatsLogProcessor M :=
  (foldl (λ '(p, alarms) key,
     match managerOf key p with
     | None => (p, alarms)
     | Some m =>
         let '(m', alarms, _) := mo_onPeriodicAlarmFired timestampNs (lp_fresh p) alarms m in
         (set_fresh (lp_fresh p + mo_addresses m') (setManager key m' p), alarms)
     end) (p, alarmSet) (managerKeys p)).1.

(** What the pullers find: the objects of the managers are alive, and a manager knows the uids to pull from. *)
Definition pullWorld (e : Env) p : PullWorld :=
  let managers := snd <$> map_to_list (mMetricsManagers p) in
  mkPullWorld
    (λ r, existsb (λ x, bool_decide (r ∈ fst <$> mo_receivers (md_manager x))) managers)
    (λ a, existsb (λ x, md_address x =? a) managers)
    (λ a atomId, match find (λ x, md_address x =? a) managers with
                 | Some x => mo_getPullAtomUids atomId (md_manager x)
                 | None => []
                 end)
    (e_pullFinds e).

(** The uid of pulled events. *)
Definition PULLED_UID : Z := -1.

Definition deliverPull (e : Env) p (call : ManagerCall) : StatsLogProcessor M :=
  match call with
  | call_onDataPulled receiver data pullSuccess originalPullTimeNs =>
      onManagers (λ key, mo_onDataPulled (worldAt e key p) receiver
                           (if pullSuccess then Some (toLogEvent PULLED_UID <$> data) else None)
                           originalPullTimeNs) p
  | setPullingAlarm _ => record_calls [PullerCall call] p
  end.

Definition informPullAlarmFired (e : Env) (timestampNs : Z) p : option (StatsLogProcessor M) :=
  '(calls, pm) ← OnAlarmFired (lib_sortEvents lib) (mUidMap p) (pullWorld e p) timestampNs (sh_pullers (lp_shared p));
  Some (foldl (deliverPull e) (on_shared (set_pullerManager pm) p) calls).

(** ** The uid map *)

(** A change of the uid map, of which it may tell the processor. *)
Definition onUidMapChange (e : Env) (change : UidMap → option (UidMap * option Broadcast)) p
    : option (StatsLogProcessor M) :=
  '(u, broadcast) ← change (mUidMap p);
  let p := on_shared (set_uidMap u) p in
  let uids pkg := getAppUid pkg u in
  Some (match broadcast with
        | None => p
        | Some (onUidMapReceived _) =>
            let p := on_shared (λ s, set_states (updateLogSources uids (sh_states s)) s) p in
            onManagers (λ key, mo_onUidMapReceived (worldAt e key p)) p
        | Some (notifyAppUpgraded eventTimeNs apk _ _) =>
            let p := on_shared (λ s, set_states (notifyAppChanged apk uids (sh_states s)) s) p in
            onManagers (λ key, mo_notifyAppUpgrade (worldAt e key p) eventTimeNs apk) p
        | Some (notifyAppRemoved eventTimeNs apk _) =>
            let p := on_shared (λ s, set_states (notifyAppChanged apk uids (sh_states s)) s) p in
            onManagers (λ key, mo_notifyAppRemoved (worldAt e key p) eventTimeNs apk) p
        end).

Definition processor_onStatsdInitCompleted (e : Env) (elapsedTimeNs : Z) p : StatsLogProcessor M :=
  onManagers (λ key, mo_onStatsdInitCompleted (worldAt e key p) elapsedTimeNs) p.

(** ** What survives a restart *)

Definition WriteActiveConfigsToProtoOutputStream (e : Env) (currentTimeNs : Z) (reason : DumpReportReason) p
    : list SavedConfig :=
  (λ kv : ConfigKey * Managed M,
     let '(id, uid, metrics) := mo_writeActiveConfig (worldAt e kv.1 p) currentTimeNs reason (md_manager kv.2) in
     mkSavedConfig id uid metrics) <$> map_to_list (mMetricsManagers p).

Definition SaveActiveConfigsToDisk (e : Env) (currentTimeNs : Z) p : StatsLogProcessor M :=
  let l := lp_times p in
  if coolingDown (e_elapsed e) (mLastActiveMetricsWriteNs l) then p
  else
    let p := set_times (mkLastTimes (mLastPullerCacheClearTimeSec l) (mLastWriteTimeNs l) (e_elapsed e)
                          (mLastMetadataWriteNs l) (mNextAnomalyAlarmTime l)) p in
    let content := lib_writeActive lib (WriteActiveConfigsToProtoOutputStream e currentTimeNs DEVICE_SHUTDOWN p) in
    on_shared (λ s, set_files (Some content) (sh_metadata s) s) p.

Definition SetConfigsActiveState (e : Env) (configs : list SavedConfig) (currentTimeNs : Z) p : StatsLogProcessor M :=
  foldl (λ p c,
    let key := (sc_uid c, sc_id c) in
    match managerOf key p with
    | None => p
    | Some m => setManager key (mo_loadActiveConfig (worldAt e key p) (sc_metrics c) currentTimeNs m) p
    end) p configs.

Definition LoadActiveConfigsFromDisk (e : Env) p : StatsLogProcessor M :=
  let p' := match (content ← sh_activeMetrics (lp_shared p); lib_parseActive lib content) with
            | None => p
            | Some configs => SetConfigsActiveState e configs (lp_timeBaseNs p) p
            end in
  on_shared (λ s, set_files None (sh_metadata s) s) p'.

Definition WriteMetadataToProto (currentWallClockTimeNs systemElapsedTimeNs : Z) p : list SavedMetadata :=
  omap (λ kv : ConfigKey * Managed M,
    match mo_writeMetadata currentWallClockTimeNs systemElapsedTimeNs (md_manager kv.2) with
    | [] => None
    | alerts => Some (mkSavedMetadata kv.1 alerts)
    end) (map_to_list (mMetricsManagers p)).

(** The write of the file trims the directories, as every write does. *)
Definition SaveMetadataToDisk (e : Env) (currentWallClockTimeNs systemElapsedTimeNs : Z) p
    : option (StatsLogProcessor M) :=
  let l := lp_times p in
  if coolingDown systemElapsedTimeNs (mLastMetadataWriteNs l) then Some p
  else
    let p := set_times (mkLastTimes (mLastPullerCacheClearTimeSec l) (mLastWriteTimeNs l)
                          (mLastActiveMetricsWriteNs l) systemElapsedTimeNs (mNextAnomalyAlarmTime l)) p in
    let metadataList := WriteMetadataToProto currentWallClockTimeNs systemElapsedTimeNs p in
    let p := on_shared (λ s, set_files (sh_activeMetrics s) None s) p in
    match metadataList with
    | [] => Some p
    | _ =>
        let k := mDisk p in
        service ← trimToFit (lib_sortFiles lib) (e_wallSec e) false (serviceDir k);
        data ← trimToFit (lib_sortFiles lib) (e_wallSec e) false (dataDir k);
        Some (on_shared (λ s, set_files (sh_activeMetrics s) (Some (lib_writeMetadata lib metadataList))
                                (set_disk (mkDisk service data (trainInfoDir k)) s)) p)
    end.

Definition SetMetadataState (metadataList : list SavedMetadata) (currentWallClockTimeNs systemElapsedTimeNs : Z) p
    : StatsLogProcessor M :=
  foldl (λ p d,
    match managerOf (sm_key d) p with
    | None => p
    | Some m => setManager (sm_key d) (mo_loadMetadata (sm_alerts d) currentWallClockTimeNs systemElapsedTimeNs m) p
    end) p metadataList.

Definition LoadMetadataFromDisk (currentWallClockTimeNs systemElapsedTimeNs : Z) p : StatsLogProcessor M :=
  let p' := match (content ← sh_metadata (lp_shared p); lib_parseMetadata lib content) with
            | None => p
            | Some metadataList => SetMetadataState metadataList currentWallClockTimeNs systemElapsedTimeNs p
            end in
  on_shared (λ s, set_files (sh_activeMetrics s) None s) p'.

End processor.
