(* ===== verification/LogProcessorFacts.v ===== *)
(** * Facts about the log processor

    Proved against the interface [ManagerOps]: what an event does to every manager, which broadcasts are sent
    and how far apart, who provides the uids to pull from, and what becomes of the data of a configuration
    that is updated, removed or reset. *)
From S2P Require Import Prelude Hash UMap FieldValue DimensionKey Matchers LogEvent UidMap MatcherTrackers.
From S2P Require Import Conditions Alarms Anomaly State MetricProducer CountMetric MetricShared AnyMetric.
From S2P Require Import Sorting Storage StorageFacts Pullers MetricsConfig MetricsManager ManagerOps TrainEvents.
From S2P Require Import LogProcessor.

(** ** Loops that can fail *)

(** A reflexive and transitive relation that every step of a loop respects holds for the loop. *)
Lemma foldl_option_rel {A B} (R : A → A → Prop) `{!PreOrder R} (f : B → A → option A) l : ∀ a a',
  (∀ b a a', f b a = Some a' → R a a') →
  foldl (λ r b, a ← r; f b a) (Some a) l = Some a' → R a a'.
Proof.
  induction l as [|b l IH]; intros a a' Hf H; cbn [foldl] in H; [by simplify_eq|].
  cbn [mbind option_bind] in H. destruct (f b a) as [a1|] eqn:E.
  - transitivity a1; [by eapply Hf|by eapply IH].
  - exfalso. clear -H. induction l; [done|by apply IHl].
Qed.

Lemma foldl_rel {A B} (R : A → A → Prop) `{!PreOrder R} (f : A → B → A) l : ∀ a,
  (∀ a b, R a (f a b)) → R a (foldl f a l).
Proof.
  induction l as [|b l IH]; intros a Hf; cbn [foldl]; [reflexivity|]. etrans; [apply Hf|by apply IH].
Qed.

Section facts.
Context {M Config : Type} `{Hops : ManagerOps M Config} (lib : Library Config).
Implicit Types p q : StatsLogProcessor M.

(** ** Operations that send no broadcast *)

Definition isSend (c : ProcessorCall) : bool := match c with PullerCall _ => false | _ => true end.
Definition sends p : list ProcessorCall := List.filter isSend (lp_calls p).

(** What the rate limits of broadcasts depend on, and the broadcasts sent. *)
Definition broadcastState p :=
  (mLastBroadcastTimes (lp_limits p), mLastActivationBroadcastTimes (lp_limits p), sends p).

Definition quiet p q : Prop := broadcastState q = broadcastState p.

#[local] Instance quiet_preorder : PreOrder quiet.
Proof using. split; [done|]. intros p q r H1 H2. unfold quiet in *. congruence. Qed.

Lemma quiet_managers ms p : quiet p (set_managers ms p).
Proof using. done. Qed.
Lemma quiet_setManager key m p : quiet p (setManager key m p).
Proof using. done. Qed.
Lemma quiet_onManagers f p : quiet p (onManagers f p).
Proof using. done. Qed.
Lemma quiet_shared f p : quiet p (on_shared f p).
Proof using. done. Qed.
Lemma quiet_set_shared s p : quiet p (set_shared s p).
Proof using. done. Qed.
Lemma quiet_fresh n p : quiet p (set_fresh n p).
Proof using. done. Qed.
Lemma quiet_times t p : quiet p (set_times t p).
Proof using. done. Qed.
Lemma quiet_noteOnDisk key p : quiet p (noteOnDiskData key p).
Proof using. done. Qed.
Lemma quiet_record calls p : quiet p (record_calls (PullerCall <$> calls) p).
Proof using.
  unfold quiet, broadcastState, sends. cbn. rewrite List.filter_app.
  assert (List.filter isSend (PullerCall <$> calls) = []) as -> by (by induction calls). by rewrite app_nil_r.
Qed.
#[local] Hint Resolve quiet_managers quiet_setManager quiet_onManagers quiet_shared quiet_set_shared quiet_fresh
  quiet_times quiet_noteOnDisk quiet_record : statsd.

Lemma quiet_register key x p : quiet p (registerManager key x p).
Proof using. unfold registerManager. destruct (registerReceivers _ _ _). etrans; [|apply quiet_record]. done. Qed.
Lemma quiet_destroy key x p : quiet p (destroyManager key x p).
Proof using. done. Qed.
Lemma quiet_erase key p : quiet p (eraseManager key p).
Proof using. unfold eraseManager. by destruct (_ !! key). Qed.

Lemma quiet_report e key m t include erase reason latency p :
  quiet p (configReport lib e key m t include erase reason latency p).2.
Proof using.
  unfold configReport. destruct (mo_onDumpReport _ _ _ _ _ _ _) as [[metrics annotations] m'].
  destruct (0 <? _)%nat; [|done]. by destruct (appendUidMap _ _ _ _ _ _ _ _) as [[[changes snapshot] strings] u].
Qed.

Lemma quiet_write name buffer e p q : writeToDisk lib name buffer e p = Some q → quiet p q.
Proof using. by intros (k & _ & [= <-])%bind_Some. Qed.

Lemma quiet_metricsReport e key t include erase reason latency saved p r q :
  onConfigMetricsReportLocked lib e key t include erase reason latency saved p = Some (r, q) → quiet p q.
Proof using.
  unfold onConfigMetricsReportLocked. destruct (managerOf key p) as [m|]; [|by intros [= _ <-]].
  pose proof (quiet_report e key m t include erase reason latency p) as Hq.
  destruct (configReport _ _ _ _ _ _ _ _ _ _) as [report p1]. cbn in Hq.
  intros (p2 & E & [= _ <-])%bind_Some. etrans; [exact Hq|].
  destruct (_ && _); [by eapply quiet_write|by simplify_eq].
Qed.

Lemma quiet_writeConfig e key t reason latency p q :
  writeConfigToDisk lib e key t reason latency p = Some q → quiet p q.
Proof using.
  unfold writeConfigToDisk. destruct (managerOf key p) as [m|]; [|by intros [= <-]].
  destruct (negb _); [by intros [= <-]|]. intros ([buffer p1] & E1 & H)%bind_Some.
  apply bind_Some in H as (p2 & E2 & [= <-]). apply quiet_metricsReport in E1. apply quiet_write in E2.
  etrans; [exact E1|]. etrans; [exact E2|]. done.
Qed.

Lemma quiet_foldKeys f keys p q :
  (∀ key p q, f key p = Some q → quiet p q) → foldKeys f keys p = Some q → quiet p q.
Proof using. intros Hf. by apply (foldl_option_rel quiet f keys). Qed.

Lemma quiet_writeData e reason latency t p q : WriteDataToDisk lib e reason latency t p = Some q → quiet p q.
Proof using.
  unfold WriteDataToDisk. destruct (coolingDown _ _); [by intros [= <-]|]. intros H.
  apply quiet_foldKeys in H; [exact H|]. intros. by eapply quiet_writeConfig.
Qed.

Lemma quiet_replace e t key config p q : replaceConfig e t key config p = Some q → quiet p q.
Proof using.
  unfold replaceConfig. destruct (mo_new _ _ _ _ _ _ _) as [m| |]; [|intros [= <-]|done].
  - cbv zeta. destruct (negb _).
    + intros [= <-]. etrans; [|apply quiet_erase]. etrans; [|apply quiet_destroy]. etrans; [|apply quiet_register]. done.
    + intros [= <-]. etrans; [|apply quiet_managers]. etrans; [|apply quiet_erase].
      etrans; [|apply quiet_shared]. etrans; [|apply quiet_register]. done.
  - etrans; [|apply quiet_erase]. done.
Qed.

Lemma quiet_updateInPlace e t key config x p q : updateConfigInPlace e t key config x p = Some q → quiet p q.
Proof using.
  unfold updateConfigInPlace. destruct (mo_updateConfig _ _ _ _ _ _) as [m| |]; [|intros [= <-]; apply quiet_erase|done].
  cbv zeta. destruct (registerReceivers _ _ _) as [calls pm]. intros [= <-].
  match goal with |- quiet p (if _ then on_shared _ ?r else _) => assert (Hr : quiet p r) end.
  { etrans; [|apply quiet_setManager]. etrans; [|apply quiet_fresh]. etrans; [|apply quiet_record]. done. }
  destruct (mo_isConfigValid m); [exact Hr|]. etrans; [exact Hr|apply quiet_erase].
Qed.

Lemma quiet_configUpdated e t key config modular p q :
  OnConfigUpdatedLocked e t key config modular p = Some q → quiet p q.
Proof using.
  unfold OnConfigUpdatedLocked. destruct (_ !! key); [destruct modular|];
    first [apply quiet_updateInPlace|apply quiet_replace].
Qed.

Lemma quiet_reset e t keys p q : resetConfigsLocked lib e t keys p = Some q → quiet p q.
Proof using.
  apply quiet_foldKeys. clear. intros key p q. unfold resetConfig.
  destruct (_ ≫= _); [apply quiet_configUpdated|]. intros [= <-]. by destruct (managerOf key p).
Qed.

Lemma quiet_ttl e t p q : resetIfConfigTtlExpiredLocked lib e t p = Some q → quiet p q.
Proof using.
  unfold resetIfConfigTtlExpiredLocked. destruct (expiredKeys t p) as [|key keys]; [by intros [= <-]|].
  intros (p1 & E1%quiet_writeData & E2%quiet_reset)%bind_Some. by etrans.
Qed.

Lemma quiet_train e l event p event' q : rewriteTrainEvent lib e l event p = Some (event', q) → quiet p q.
Proof using.
  unfold rewriteTrainEvent. intros ([event1 d1] & _ & H)%bind_Some.
  by apply bind_Some in H as ([event2 d2] & _ & [= _ <-]).
Qed.

Lemma quiet_uids e event p event' q : rewriteUids lib e event p = Some (event', q) → quiet p q.
Proof using. unfold rewriteUids. destruct (_ =? _); [by intros [= _ <-]|]. by intros (? & _ & [= _ <-])%bind_Some. Qed.

Lemma quiet_steps e tag st steps : ∀ prev p, quiet p (deliverSteps e tag st prev steps p).
Proof using.
  induction steps as [|next steps IH]; intros prev p; cbn [deliverSteps]; [done|]. etrans; [|apply IH].
  unfold deliverStep. apply (foldl_rel quiet). intros p1 n. unfold deliverNotification.
  apply (foldl_rel quiet). intros p2 l. apply quiet_onManagers.
Qed.

Lemma quiet_stateEvent e event p : quiet p (onStateEvent e event p).
Proof using.
  unfold onStateEvent. cbv zeta. etrans; [|apply quiet_shared]. destruct (stateSource _ _); [|done].
  destruct (_ !! GetTagId event); [apply quiet_steps|done].
Qed.

Lemma quiet_anomaly e p : quiet p (fireAnomalyAlarm e p).
Proof using. unfold fireAnomalyAlarm. by destruct (_ && _). Qed.
Lemma quiet_clear e p : quiet p (clearPullerCaches e p).
Proof using. unfold clearPullerCaches. by destruct (_ <? _). Qed.

Lemma quiet_pull e t p q : informPullAlarmFired lib e t p = Some q → quiet p q.
Proof using.
  unfold informPullAlarmFired. intros ([calls pm] & _ & [= <-])%bind_Some. etrans; [apply quiet_shared|].
  apply (foldl_rel quiet). intros p1 [t1|r data success t1]; cbn [deliverPull]; [|apply quiet_onManagers].
  apply (quiet_record [setPullingAlarm t1]).
Qed.

Lemma quiet_uidMap e change p q : onUidMapChange e change p = Some q → quiet p q.
Proof using.
  unfold onUidMapChange. intros ([u b] & _ & [= <-])%bind_Some. by destruct b as [[?|? ? ? ?|? ? ?]|].
Qed.

Lemma quiet_periodic t alarms p : quiet p (processor_onPeriodicAlarmFired t alarms p).
Proof using.
  unfold processor_onPeriodicAlarmFired.
  assert (Hgen : ∀ keys p0 alarms0, quiet p0 (foldl (λ '(p, alarms) key,
     match managerOf key p with
     | None => (p, alarms)
     | Some m =>
         let '(m', alarms, _) := mo_onPeriodicAlarmFired t (lp_fresh p) alarms m in
         (set_fresh (lp_fresh p + mo_addresses m') (setManager key m' p), alarms)
     end) (p0, alarms0) keys).1).
  { induction keys as [|key keys IH]; intros p0 alarms0; cbn [foldl]; [done|].
    destruct (managerOf key p0) as [m|]; [|apply IH].
    destruct (mo_onPeriodicAlarmFired _ _ _ _) as [[m' a] b]. etrans; [|apply IH]. done. }
  apply Hgen.
Qed.

Lemma quiet_setActive e configs t p : quiet p (SetConfigsActiveState e configs t p).
Proof using. apply (foldl_rel quiet). intros p1 c. cbn. by destruct (managerOf _ p1). Qed.
Lemma quiet_setMetadata d t t' p : quiet p (SetMetadataState d t t' p).
Proof using. apply (foldl_rel quiet). intros p1 c. cbn. by destruct (managerOf _ p1). Qed.
Lemma quiet_loadActive e p : quiet p (LoadActiveConfigsFromDisk lib e p).
Proof using.
  unfold LoadActiveConfigsFromDisk. cbv zeta. etrans; [|apply quiet_shared].
  destruct (_ ≫= _); [apply quiet_setActive|done].
Qed.
Lemma quiet_loadMetadata t t' p : quiet p (LoadMetadataFromDisk lib t t' p).
Proof using.
  unfold LoadMetadataFromDisk. cbv zeta. etrans; [|apply quiet_shared].
  destruct (_ ≫= _); [apply quiet_setMetadata|done].
Qed.
Lemma quiet_saveActive e t p : quiet p (SaveActiveConfigsToDisk lib e t p).
Proof using. unfold SaveActiveConfigsToDisk. by destruct (coolingDown _ _). Qed.
Lemma quiet_saveMetadata e t t' p q : SaveMetadataToDisk lib e t t' p = Some q → quiet p q.
Proof using.
  unfold SaveMetadataToDisk. destruct (coolingDown _ _); [by intros [= <-]|]. cbv zeta.
  destruct (WriteMetadataToProto _ _ _); [by intros [= <-]|]. intros (s1 & _ & H)%bind_Some.
  by apply bind_Some in H as (s2 & _ & [= <-]).
Qed.

(** ** Histories *)

Inductive ProcessorOp :=
  | OpLogEvent (e : Env) (l : Logger) (event : Parsing)
  | OpConfigUpdated (e : Env) (timestampNs : Z) (key : ConfigKey) (config : Config) (modularUpdate : bool)
  | OpConfigRemoved (e : Env) (key : ConfigKey)
  | OpDumpReport (e : Env) (key : ConfigKey) (t : Z) (include erase : bool) (reason : DumpReportReason) (latency : DumpLatency)
  | OpWriteData (e : Env) (reason : DumpReportReason) (latency : DumpLatency) (elapsedNs : Z)
  | OpResetConfigs (e : Env)
  | OpPullAlarm (e : Env) (timestampNs : Z)
  | OpUidMapChange (e : Env) (change : UidMap → option (UidMap * option Broadcast))
  | OpPeriodicAlarm (timestampNs : Z) (alarms : list InternalAlarm)
  | OpInitCompleted (e : Env) (elapsedNs : Z)
  | OpAnomalyAlarm (timeMillis : Z)
  | OpCancelAnomalyAlarm
  | OpNoteOnDiskData (key : ConfigKey)
  | OpSaveActive (e : Env) (currentTimeNs : Z)
  | OpLoadActive (e : Env)
  | OpSetActive (e : Env) (configs : list SavedConfig) (currentTimeNs : Z)
  | OpSaveMetadata (e : Env) (wallNs elapsedNs : Z)
  | OpLoadMetadata (wallNs elapsedNs : Z)
  | OpSetMetadata (metadata : list SavedMetadata) (wallNs elapsedNs : Z).

Definition runOp (op : ProcessorOp) p : option (StatsLogProcessor M) :=
  match op with
  | OpLogEvent e l event => OnLogEvent lib e l event p
  | OpConfigUpdated e t key config modular => processor_OnConfigUpdated lib e t key config modular p
  | OpConfigRemoved e key => processor_OnConfigRemoved lib e key p
  | OpDumpReport e key t include erase reason latency =>
      snd <$> onDumpReport lib e key t include erase reason latency p
  | OpWriteData e reason latency t => WriteDataToDisk lib e reason latency t p
  | OpResetConfigs e => resetConfigs lib e p
  | OpPullAlarm e t => informPullAlarmFired lib e t p
  | OpUidMapChange e change => onUidMapChange e change p
  | OpPeriodicAlarm t alarms => Some (processor_onPeriodicAlarmFired t alarms p)
  | OpInitCompleted e t => Some (processor_onStatsdInitCompleted e t p)
  | OpAnomalyAlarm t => Some (setAnomalyAlarm t p)
  | OpCancelAnomalyAlarm => Some (cancelAnomalyAlarm p)
  | OpNoteOnDiskData key => Some (noteOnDiskData key p)
  | OpSaveActive e t => Some (SaveActiveConfigsToDisk lib e t p)
  | OpLoadActive e => Some (LoadActiveConfigsFromDisk lib e p)
  | OpSetActive e configs t => Some (SetConfigsActiveState e configs t p)
  | OpSaveMetadata e t t' => SaveMetadataToDisk lib e t t' p
  | OpLoadMetadata t t' => Some (LoadMetadataFromDisk lib t t' p)
  | OpSetMetadata d t t' => Some (SetMetadataState d t t' p)
  end.

Definition runOps (ops : list ProcessorOp) p : option (StatsLogProcessor M) :=
  foldl (λ r op, p ← r; runOp op p) (Some p) ops.

(** The operations that only events, removals and dumps are not. *)
Definition isQuiet (op : ProcessorOp) : bool :=
  match op with OpLogEvent _ _ _ | OpConfigRemoved _ _ | OpDumpReport _ _ _ _ _ _ _ => false | _ => true end.

Lemma quiet_run op p q : isQuiet op = true → runOp op p = Some q → quiet p q.
Proof using.
  destruct op; cbn [isQuiet runOp]; intros Hq H; try done; try (injection H as <-).
  - apply bind_Some in H as (p1 & E1%quiet_writeConfig & E2%quiet_configUpdated). by etrans.
  - by eapply quiet_writeData.
  - by eapply quiet_reset.
  - by eapply quiet_pull.
  - by eapply quiet_uidMap.
  - apply quiet_periodic.
  - apply quiet_onManagers.
  - done.
  - done.
  - done.
  - apply quiet_saveActive.
  - apply quiet_loadActive.
  - apply quiet_setActive.
  - by eapply quiet_saveMetadata.
  - apply quiet_loadMetadata.
  - apply quiet_setMetadata.
Qed.

(** ** Rate limits *)

(** A limiter: the time of the last broadcast it knows, and the times of all that were sent. *)
Definition Limiter : Type := StatsLogProcessor M → option Z * list Z.

Definition dataLimiter (key : ConfigKey) : Limiter := λ p,
  (mLastBroadcastTimes (lp_limits p) !! key,
   omap (λ c, match c with SendBroadcast k t true => if bool_decide (k = key) then Some t else None | _ => None end) (sends p)).
Definition activationLimiter (uid : Z) : Limiter := λ p,
  (mLastActivationBroadcastTimes (lp_limits p) !! uid,
   omap (λ c, match c with SendActivationBroadcast u _ t true => if bool_decide (u = uid) then Some t else None | _ => None end)
     (sends p)).

(** Each time is at least a period after the one before, the first after [last]. *)
Fixpoint spaced (period : Z) (last : option Z) (times : list Z) : Prop :=
  match times with
  | [] => True
  | t :: times => from_option (λ l, period <= t - l) True last ∧ spaced period (Some t) times
  end.

Definition lastOf (last : option Z) (times : list Z) : option Z := foldl (λ _ t, Some t) last times.

(** Between two states the broadcasts of the limiter are spaced. *)
Definition keepsApart (period : Z) (v : Limiter) p q : Prop :=
  ∃ new, (v q).2 = (v p).2 ++ new ∧ spaced period (v p).1 new ∧ (v q).1 = lastOf (v p).1 new.

Lemma spaced_app period l l' : ∀ last, spaced period last l → spaced period (lastOf last l) l' → spaced period last (l ++ l').
Proof using. induction l as [|t l IH]; intros last H H'; [done|]. destruct H as [H1 H2]. split; [done|]. by apply IH. Qed.

#[local] Instance keepsApart_preorder period v : PreOrder (keepsApart period v).
Proof using.
  split.
  - intros p. exists []. by rewrite app_nil_r.
  - intros p q r (n1 & E1 & S1 & L1) (n2 & E2 & S2 & L2). exists (n1 ++ n2). split_and!.
    + by rewrite E2, E1, app_assoc.
    + apply spaced_app; [done|]. by rewrite <- L1.
    + unfold lastOf in *. by rewrite foldl_app, <- L1.
Qed.

Lemma quiet_apart_data period key p q : quiet p q → keepsApart period (dataLimiter key) p q.
Proof using. intros [= E1 E2 E3]. exists []. unfold dataLimiter. cbn. by rewrite E1, E3, app_nil_r. Qed.
Lemma quiet_apart_activation period uid p q : quiet p q → keepsApart period (activationLimiter uid) p q.
Proof using. intros [= E1 E2 E3]. exists []. unfold activationLimiter. cbn. by rewrite E2, E3, app_nil_r. Qed.

Lemma sends_record c p : sends (record_calls [c] p) = sends p ++ List.filter isSend [c].
Proof using. unfold sends. cbn [record_calls lp_calls]. apply List.filter_app. Qed.

Lemma flush_apart_data e k key p : keepsApart kMinBroadcastPeriodNs (dataLimiter key) p (flushIfNecessaryLocked e k p).
Proof using.
  unfold flushIfNecessaryLocked. destruct (managerOf k p) as [m|]; [|reflexivity]. cbv zeta.
  match goal with |- context [if ?b then p else _] => destruct b; [reflexivity|] end.
  destruct (_ <? mo_byteSize m); [by apply quiet_apart_data|].
  destruct (_ || _); [|by apply quiet_apart_data].
  match goal with |- context [if ?b then on_limits _ _ else _] => destruct b eqn:Er; [by apply quiet_apart_data|] end.
  destruct (e_sendBroadcast e k).
  - destruct (decide (k = key)) as [->|Hne].
    + exists [e_elapsedAt e key]. unfold dataLimiter, on_limits, set_limits, sends. cbn. rewrite List.filter_app, omap_app.
      cbn. rewrite bool_decide_true by done. split_and!; [done| |done|by rewrite lookup_insert_eq].
      cbn in Er. destruct (mLastBroadcastTimes (lp_limits p) !! key); cbn; [|done]. by apply Z.ltb_ge in Er.
    + exists []. unfold dataLimiter, on_limits, set_limits, sends. cbn. rewrite List.filter_app, omap_app. cbn.
      rewrite bool_decide_false by done. rewrite lookup_insert_ne by done. by rewrite app_nil_r.
  - exists []. unfold dataLimiter, set_limits, sends. cbn. rewrite List.filter_app, omap_app. cbn. done.
Qed.

Lemma flush_apart_activation e k uid period p :
  keepsApart period (activationLimiter uid) p (flushIfNecessaryLocked e k p).
Proof using.
  unfold flushIfNecessaryLocked. destruct (managerOf k p) as [m|]; [|reflexivity]. cbv zeta.
  match goal with |- context [if ?b then p else _] => destruct b; [reflexivity|] end.
  destruct (_ <? mo_byteSize m); [by apply quiet_apart_activation|].
  destruct (_ || _); [|by apply quiet_apart_activation].
  match goal with |- context [if ?b then on_limits _ _ else _] => destruct b; [by apply quiet_apart_activation|] end.
  exists []. destruct (e_sendBroadcast e k); unfold activationLimiter, on_limits, set_limits, sends; cbn;
    rewrite List.filter_app, omap_app; cbn; by rewrite !app_nil_r.
Qed.

Lemma activation_apart_data key period e active uids : ∀ p,
  keepsApart period (dataLimiter key) p (sendActivationBroadcasts e uids active p).
Proof using.
  induction uids as [|uid uids IH]; intros p; cbn [sendActivationBroadcasts]; [reflexivity|].
  match goal with |- context [if ?b then p else _] => destruct b; [reflexivity|] end. etrans; [|apply IH].
  exists []. unfold dataLimiter. destruct (e_sendActivationBroadcast _ _ _); unfold on_limits, set_limits, sends; cbn;
    rewrite List.filter_app, omap_app; cbn; by rewrite !app_nil_r.
Qed.

Lemma activation_apart e active uid uids : ∀ p,
  keepsApart kMinActivationBroadcastPeriodNs (activationLimiter uid) p (sendActivationBroadcasts e uids active p).
Proof using.
  induction uids as [|u uids IH]; intros p; cbn [sendActivationBroadcasts]; [reflexivity|].
  match goal with |- context [if ?b then p else _] => destruct b eqn:Er; [reflexivity|] end. etrans; [|apply IH].
  destruct (e_sendActivationBroadcast _ _ _).
  - destruct (decide (u = uid)) as [->|Hne].
    + exists [e_elapsed e]. unfold activationLimiter, on_limits, set_limits, sends. cbn.
      rewrite List.filter_app, omap_app. cbn. rewrite bool_decide_true by done.
      split_and!; [done| |done|by rewrite lookup_insert_eq].
      destruct (mLastActivationBroadcastTimes (lp_limits p) !! uid); cbn in *; [|done]. by apply Z.ltb_ge in Er.
    + exists []. unfold activationLimiter, on_limits, set_limits, sends. cbn. rewrite List.filter_app, omap_app. cbn.
      rewrite bool_decide_false by done. rewrite lookup_insert_ne by done. by rewrite app_nil_r.
  - exists []. unfold activationLimiter, sends. cbn. rewrite List.filter_app, omap_app. cbn. done.
Qed.

(** A relation on processors that the parts of an event respect holds for events. *)
Lemma event_rel (R : StatsLogProcessor M → StatsLogProcessor M → Prop) `{!PreOrder R} :
  (∀ p q, quiet p q → R p q) → (∀ e key p, R p (flushIfNecessaryLocked e key p)) →
  (∀ e uids active p, R p (sendActivationBroadcasts e uids active p)) →
  ∀ e l event p q, OnLogEvent lib e l event p = Some q → R p q.
Proof using.
  intros Hq Hf Ha e l event p q. unfold OnLogEvent. destruct (negb _); [intros [= <-]; reflexivity|].
  intros ([event1 p1] & E1%quiet_train%Hq & H)%bind_Some.
  apply bind_Some in H as (p2 & E2%quiet_ttl%Hq & H). apply bind_Some in H as ([event3 p3] & E3%quiet_uids%Hq & H).
  set (logEvent := toLogEvent (log_uid l) event3) in *. cbv zeta in H.
  pose proof (Hq _ _ (quiet_stateEvent e logEvent p3)) as E4. set (p4 := onStateEvent e logEvent p3) in *.
  assert (Hp4 : R p p4) by (etrans; [exact E1|]; etrans; [exact E2|]; by etrans). clear E1 E2 E3 E4.
  case_bool_decide; [by simplify_eq|]. apply bind_Some in H as ([p5 a] & E5 & [= <-]).
  etrans; [|apply Ha]. etrans; [exact Hp4|]. etrans; [apply Hq, quiet_anomaly|].
  etrans; [apply Hq, quiet_clear|].
  assert (Hpre : PreOrder (λ s s' : StatsLogProcessor M * ActiveStatus, R s.1 s'.1)).
  { split; [intros s; reflexivity|intros s1 s2 s3 H1 H2; by etrans]. }
  apply (foldl_option_rel (λ s s' : StatsLogProcessor M * ActiveStatus, R s.1 s'.1) (λ key s, passEvent e logEvent s key)) in E5;
    [exact E5|].
  clear -Hq Hf PreOrder0. intros key [p a] [p' a'] H. unfold passEvent in H. cbn. destruct (managerOf key p) as [m|]; [|by simplify_eq].
    apply bind_Some in H as (m' & _ & [= <- _]). etrans; [|apply Hf]. apply Hq, quiet_setManager.
Qed.

(** The operations that forget the last broadcast of a key: its removal and a dump of its data. *)
Definition forgetsKey (key : ConfigKey) (op : ProcessorOp) : bool :=
  match op with
  | OpConfigRemoved _ k | OpDumpReport _ k _ _ _ _ _ => bool_decide (k = key)
  | _ => false
  end.

(** A removal of a configuration of the uid may forget its last activation broadcast. *)
Definition forgetsUid (uid : Z) (op : ProcessorOp) : bool :=
  match op with OpConfigRemoved _ k => bool_decide (k.1 = uid) | _ => false end.

Lemma removed_view e k p q :
  processor_OnConfigRemoved lib e k p = Some q →
  sends q = sends p ∧ mLastBroadcastTimes (lp_limits q) = delete k (mLastBroadcastTimes (lp_limits p)) ∧
  ∀ uid, uid ≠ k.1 → mLastActivationBroadcastTimes (lp_limits q) !! uid = mLastActivationBroadcastTimes (lp_limits p) !! uid.
Proof using.
  intros (p1 & E & [= <-])%bind_Some. assert (Hq : quiet p p1).
  { destruct (_ !! k); [|by simplify_eq]. apply bind_Some in E as (p2 & E2%quiet_writeConfig & [= <-]).
    etrans; [exact E2|]. etrans; [apply quiet_erase|apply quiet_shared]. }
  clear E. unfold quiet, broadcastState in Hq. injection Hq as E1 E2 E3.
  match goal with |- context [if bool_decide ?b then on_shared ?f ?r else ?r] =>
    assert (Hv : ∀ f', sends (if bool_decide b then on_shared f' r else r) = sends r ∧
      lp_limits (if bool_decide b then on_shared f' r else r) = lp_limits r) by (intros f'; by case_bool_decide) end.
  match goal with |- context [if bool_decide _ then on_shared ?f _ else _] => destruct (Hv f) as [-> ->] end. clear Hv.
  destruct (hasConfigOf _ _); cbn; rewrite <- E1, <- E2, <- E3; split_and!; try done.
  intros uid Hne. by rewrite lookup_delete_ne.
Qed.

Lemma dump_view e k t include erase reason latency p r q :
  onDumpReport lib e k t include erase reason latency p = Some (r, q) →
  sends q = sends p ∧ mLastActivationBroadcastTimes (lp_limits q) = mLastActivationBroadcastTimes (lp_limits p) ∧
  ∀ key, key ≠ k → mLastBroadcastTimes (lp_limits q) !! key = mLastBroadcastTimes (lp_limits p) !! key.
Proof using.
  unfold onDumpReport. destruct (appendConfigMetricsReport _ _ _ _) as [reports d]. cbv zeta.
  match goal with |- context [managerOf k ?r] => destruct (managerOf k r) end; [|by intros [= _ <-]].
  intros ([buffer p1] & E%quiet_metricsReport & [= _ <-])%bind_Some. injection E as E1 E2 E3.
  rewrite E1, E2, E3. cbn. split_and!; [done|done|]. intros key Hne. by rewrite lookup_delete_ne.
Qed.

Lemma op_apart_data key op p q :
  forgetsKey key op = false → runOp op p = Some q → keepsApart kMinBroadcastPeriodNs (dataLimiter key) p q.
Proof using.
  intros Hforget H. destruct (isQuiet op) eqn:Eq; [by apply quiet_apart_data; eapply quiet_run|].
  destruct op; cbn [isQuiet forgetsKey] in *; try done; cbn [runOp] in H.
  - eapply (event_rel (keepsApart kMinBroadcastPeriodNs (dataLimiter key))); [..|exact H].
    + apply quiet_apart_data.
    + intros. apply flush_apart_data.
    + intros. apply activation_apart_data.
  - apply removed_view in H as (E1 & E2 & _). apply bool_decide_eq_false in Hforget.
    exists []. unfold dataLimiter. rewrite E1, E2. cbn. rewrite lookup_delete_ne by done. by rewrite app_nil_r.
  - apply fmap_Some in H as ([r q'] & E & ->). apply dump_view in E as (E1 & _ & E2). apply bool_decide_eq_false in Hforget.
    exists []. unfold dataLimiter. cbn. rewrite E1, E2 by done. by rewrite app_nil_r.
Qed.

Lemma op_apart_activation uid op p q :
  forgetsUid uid op = false → runOp op p = Some q →
  keepsApart kMinActivationBroadcastPeriodNs (activationLimiter uid) p q.
Proof using.
  intros Hforget H. destruct (isQuiet op) eqn:Eq; [by apply quiet_apart_activation; eapply quiet_run|].
  destruct op; cbn [isQuiet forgetsUid] in *; try done; cbn [runOp] in H.
  - eapply (event_rel (keepsApart kMinActivationBroadcastPeriodNs (activationLimiter uid))); [..|exact H].
    + apply quiet_apart_activation.
    + intros. apply flush_apart_activation.
    + intros. apply activation_apart.
  - apply removed_view in H as (E1 & _ & E2). apply bool_decide_eq_false in Hforget.
    exists []. unfold activationLimiter. rewrite E1, E2 by done. by rewrite app_nil_r.
  - apply fmap_Some in H as ([r q'] & E & ->). apply dump_view in E as (E1 & E2 & _).
    exists []. unfold activationLimiter. cbn. rewrite E1, E2. by rewrite app_nil_r.
Qed.

Lemma ops_rel (R : StatsLogProcessor M → StatsLogProcessor M → Prop) `{!PreOrder R} (ok : ProcessorOp → bool) :
  (∀ op p q, ok op = false → runOp op p = Some q → R p q) →
  ∀ ops p q, Forall (λ op, ok op = false) ops → runOps ops p = Some q → R p q.
Proof using.
  intros Hop. unfold runOps. induction ops as [|op ops IH]; intros p q Hall H; [cbn in H; injection H as <-; reflexivity|].
  apply Forall_cons in Hall as [Ho Hall]. cbn [foldl mbind option_bind] in H.
  destruct (runOp op p) as [p1|] eqn:E; [etrans; [by eapply Hop|by eapply IH]|].
  exfalso. clear -H. induction ops; [done|by apply IHops].
Qed.

(** C3: However events, updates and all other operations interleave, the broadcasts that ask the owner of a configuration to
    fetch its data are at least a minute apart, and those that tell a uid which configurations are active at
    least ten seconds: a new one is sent earlier only after the data was fetched or the configuration removed. *)
Theorem broadcasts_apart ops p q :
  runOps ops p = Some q →
  (∀ key, Forall (λ op, forgetsKey key op = false) ops →
     keepsApart (60 * NS_PER_SEC) (dataLimiter key) p q) ∧
  (∀ uid, Forall (λ op, forgetsUid uid op = false) ops →
     keepsApart (10 * NS_PER_SEC) (activationLimiter uid) p q).
Proof using.
  intros H. split.
  - intros key Hall. eapply (ops_rel _ (forgetsKey key)); [|exact Hall|exact H]. intros. by eapply op_apart_data.
  - intros uid Hall. eapply (ops_rel _ (forgetsUid uid)); [|exact Hall|exact H]. intros. by eapply op_apart_activation.
Qed.
End facts.
