(* ===== verification/ProcessorEvents.v ===== *)
(** * What an event does to the managers and whom the processor tells

    An event reaches every manager by itself, and the activation broadcasts it causes tell the truth. *)
From S2P Require Import Prelude Hash UMap FieldValue DimensionKey Matchers LogEvent UidMap MatcherTrackers.
From S2P Require Import Conditions Alarms Anomaly State MetricProducer CountMetric MetricShared AnyMetric.
From S2P Require Import Sorting Storage Pullers MetricsConfig MetricsManager ManagerOps TrainEvents.
From S2P Require Import LogProcessor LogProcessorFacts MetricsManagerFacts TrainEventsFacts.

(** What the processor relies on: dropping data does not activate or deactivate a configuration, and the
    addresses that a manager used up are a number. *)
Class ManagerLaws (M Config : Type) `{ManagerOps M Config} := {
  ml_dropData_active : ∀ t m, mo_isActive (mo_dropData t m) = mo_isActive m;
  ml_addresses : ∀ m, 0 <= mo_addresses m
}.

#[export] Instance metrics_manager_laws ser limits uninit atoms sizes am pm :
  ManagerLaws MetricsManager ManagerConfig (H := metrics_manager_ops ser limits uninit atoms sizes am pm).
Proof. split; [done|]. intros m. cbn. lia. Qed.

Section events.
Context {M Config : Type} `{Hops : ManagerOps M Config} (lib : Library Config).
Implicit Types p q : StatsLogProcessor M.

(** ** One manager after another *)

(** A manager after the check of its size. *)
Definition afterSizeCheck (e : Env) (key : ConfigKey) p (m : M) : M :=
  let now := e_elapsedAt e key in
  let recent := match mLastByteSizeTimes (lp_limits p) !! key with
                | Some t => now - t <? kMinByteSizeCheckPeriodNs | None => false end in
  if negb recent && (kMaxMetricsBytesPerConfig <? mo_byteSize m) then mo_dropData now m else m.

Lemma managerOf_set key key' m p :
  managerOf key' (setManager key m p)
  = if bool_decide (key' = key) then (λ _, m) <$> managerOf key p else managerOf key' p.
Proof using.
  unfold managerOf, setManager. cbn. case_bool_decide as H.
  - subst. rewrite lookup_alter_eq. by destruct (_ !! key).
  - by rewrite lookup_alter_ne.
Qed.

Lemma flush_managers e key p m :
  managerOf key p = Some m →
  let q := flushIfNecessaryLocked e key p in
  (∀ key', managerOf key' q = if bool_decide (key' = key) then Some (afterSizeCheck e key p m) else managerOf key' p) ∧
  lp_shared q = lp_shared p ∧
  ∀ key', key' ≠ key → mLastByteSizeTimes (lp_limits q) !! key' = mLastByteSizeTimes (lp_limits p) !! key'.
Proof using.
  intros Hm. unfold flushIfNecessaryLocked, afterSizeCheck. rewrite Hm. cbv zeta.
  set (recent := match mLastByteSizeTimes _ !! key with Some t => _ | None => _ end). destruct recent; cbn [negb andb].
  { split_and!; try done. intros key'. case_bool_decide; [by subst|done]. }
  assert (Hself : ∀ f key', managerOf key' (on_limits f p) = if bool_decide (key' = key) then Some m else managerOf key' p).
  { intros f key'. change (managerOf key' (on_limits f p)) with (managerOf key' p). case_bool_decide; [by subst|done]. }
  destruct (kMaxMetricsBytesPerConfig <? mo_byteSize m).
  - split_and!; [|done|].
    + intros key'. rewrite managerOf_set. case_bool_decide; [|done].
      by change (managerOf key (on_limits _ p)) with (managerOf key p); rewrite Hm.
    + intros key' Hne. cbn. by rewrite lookup_insert_ne.
  - destruct (_ || _); [|split_and!; [apply Hself|done|intros key' Hne; cbn; by rewrite lookup_insert_ne]].
    match goal with |- context [if ?b then on_limits _ _ else _] => destruct b end;
      [split_and!; [apply Hself|done|intros key' Hne; cbn; by rewrite lookup_insert_ne]|].
    destruct (e_sendBroadcast e key);
      (split_and!; [intros key'; apply (Hself id)|done|intros key' Hne; cbn; by rewrite lookup_insert_ne]).
Qed.

(** What an event makes of a manager, before its size is checked. *)
Definition eventResult (e : Env) (event : LogEvent) p (key : ConfigKey) : option (M * M) :=
  m ← managerOf key p; m' ← mo_onLogEvent (worldAt e key p) event m; Some (m, m').

Definition activeId (e : Env) (event : LogEvent) p (uid : Z) (key : ConfigKey) : option Z :=
  if key.1 =? uid then '(_, m') ← eventResult e event p key; if mo_isActive m' then Some key.2 else None else None.

Definition statusChanged (e : Env) (event : LogEvent) p (key : ConfigKey) : Prop :=
  ∃ m m', eventResult e event p key = Some (m, m') ∧ mo_isActive m ≠ mo_isActive m'.

Record passed (e : Env) (event : LogEvent) (keys : list ConfigKey) p (a : ActiveStatus) q (a' : ActiveStatus) : Prop := {
  pa_shared : lp_shared q = lp_shared p;
  pa_other : ∀ key, key ∉ keys → managerOf key q = managerOf key p;
  pa_otherSize : ∀ key, key ∉ keys → mLastByteSizeTimes (lp_limits q) !! key = mLastByteSizeTimes (lp_limits p) !! key;
  pa_manager : ∀ key m, key ∈ keys → managerOf key p = Some m →
    ∃ m', mo_onLogEvent (worldAt e key p) event m = Some m' ∧ managerOf key q = Some (afterSizeCheck e key p m');
  pa_none : ∀ key, managerOf key p = None → managerOf key q = None;
  pa_changed : ∀ uid, uid ∈ uidsWithActiveConfigsChanged a' ↔
    uid ∈ uidsWithActiveConfigsChanged a ∨ ∃ key, key ∈ keys ∧ key.1 = uid ∧ statusChanged e event p key;
  pa_active : ∀ uid, default [] (activeConfigsPerUid a' !! uid)
    = default [] (activeConfigsPerUid a !! uid) ++ omap (activeId e event p uid) keys
}.

Lemma eventResult_cong e event p q key :
  lp_shared q = lp_shared p → managerOf key q = managerOf key p → eventResult e event q key = eventResult e event p key.
Proof using. intros Hs Hm. unfold eventResult, worldAt, mUidMap. by rewrite Hm, Hs. Qed.

Lemma passEvent_passed e event key p a q a' :
  passEvent e event (p, a) key = Some (q, a') → passed e event [key] p a q a'.
Proof using.
  unfold passEvent. destruct (managerOf key p) as [m|] eqn:Hm.
  - intros (m' & E & [= <- <-])%bind_Some.
    destruct (flush_managers e key (setManager key m' p) m') as (Hq & Hs & Hl).
    { rewrite managerOf_set, bool_decide_true, Hm by done. done. }
    assert (Hr : eventResult e event p key = Some (m, m')) by (unfold eventResult; rewrite Hm; cbn; by rewrite E).
    constructor.
    + exact Hs.
    + intros k Hk. rewrite Hq, bool_decide_false by set_solver. rewrite managerOf_set, bool_decide_false by set_solver. done.
    + intros k Hk. rewrite Hl by set_solver. done.
    + intros k m0 ->%list_elem_of_singleton Hm0. rewrite Hm in Hm0. injection Hm0 as <-. exists m'. split; [done|].
      rewrite Hq, bool_decide_true by done. done.
    + intros k Hk. assert (k ≠ key) by congruence. rewrite Hq, bool_decide_false by done.
      by rewrite managerOf_set, bool_decide_false.
    + intros uid. unfold noteStatus. cbn. split.
      * destruct (Bool.eqb_spec (mo_isActive m) (mo_isActive m')) as [|Hne]; [by left|].
        intros [->%elem_of_singleton|]%elem_of_union; [right|by left]. exists key. split; [left|]. split; [done|].
        by exists m, m'.
      * intros [H|(k & ->%list_elem_of_singleton & <- & m0 & m1 & Hr' & Hne)].
        -- destruct (Bool.eqb _ _); [done|set_solver].
        -- rewrite Hr in Hr'. injection Hr' as <- <-. destruct (Bool.eqb_spec (mo_isActive m) (mo_isActive m')); [done|set_solver].
    + intros uid. unfold noteStatus, activeId. cbn [activeConfigsPerUid omap list_omap]. rewrite Hr. cbn.
      destruct (Z.eqb_spec key.1 uid) as [<-|Hne].
      * destruct (mo_isActive m'); [by rewrite lookup_insert_eq|by rewrite app_nil_r].
      * rewrite app_nil_r. destruct (mo_isActive m'); [by rewrite lookup_insert_ne|done].
  - intros [= <- <-]. assert (Hr : eventResult e event p key = None) by (unfold eventResult; by rewrite Hm).
    constructor; try done.
    + intros k m ->%list_elem_of_singleton. congruence.
    + intros uid. split; [by left|]. intros [|(k & ->%list_elem_of_singleton & _ & m & m' & Hr' & _)]; [done|congruence].
    + intros uid. cbn. unfold activeId. rewrite Hr. cbn. by destruct (_ =? _); rewrite app_nil_r.
Qed.

Lemma passed_cons e event key keys p a q b r c :
  key ∉ keys → passed e event [key] p a q b → passed e event keys q b r c → passed e event (key :: keys) p a r c.
Proof using.
  intros Hkey H1 H2. assert (Hres : ∀ k, k ∈ keys → eventResult e event q k = eventResult e event p k).
  { intros k Hk. apply eventResult_cong; [apply H1|]. apply (pa_other _ _ _ _ _ _ _ H1). set_solver. }
  assert (Hoth : ∀ k, k ∈ keys → managerOf k q = managerOf k p).
  { intros k Hk. apply (pa_other _ _ _ _ _ _ _ H1). set_solver. }
  constructor.
  - by rewrite (pa_shared _ _ _ _ _ _ _ H2), (pa_shared _ _ _ _ _ _ _ H1).
  - intros k Hk. rewrite (pa_other _ _ _ _ _ _ _ H2) by set_solver. apply (pa_other _ _ _ _ _ _ _ H1). set_solver.
  - intros k Hk. rewrite (pa_otherSize _ _ _ _ _ _ _ H2) by set_solver. apply (pa_otherSize _ _ _ _ _ _ _ H1). set_solver.
  - intros k m [->|Hk]%elem_of_cons Hm.
    + destruct (pa_manager _ _ _ _ _ _ _ H1 key m) as (m' & E & Hm'); [left|done|]. exists m'. split; [done|].
      by rewrite (pa_other _ _ _ _ _ _ _ H2).
    + destruct (pa_manager _ _ _ _ _ _ _ H2 k m Hk) as (m' & E & Hm'); [by rewrite Hoth|].
      exists m'. unfold worldAt, mUidMap in *. rewrite (pa_shared _ _ _ _ _ _ _ H1) in E. split; [done|].
      rewrite Hm'. unfold afterSizeCheck. rewrite (pa_otherSize _ _ _ _ _ _ _ H1) by set_solver. done.
  - intros k Hk. apply (pa_none _ _ _ _ _ _ _ H2), (pa_none _ _ _ _ _ _ _ H1), Hk.
  - intros uid. rewrite (pa_changed _ _ _ _ _ _ _ H2), (pa_changed _ _ _ _ _ _ _ H1). unfold statusChanged. split.
    + intros [[?|(k & ->%list_elem_of_singleton & Hk)]|(k & Hk & Hu & m & m' & Hr & Hne)]; [by left|right|right].
      * exists key. split; [left|done].
      * exists k. split; [by right|]. split; [done|]. exists m, m'. by rewrite <- Hres.
    + intros [?|(k & [->|Hk]%elem_of_cons & Hu & m & m' & Hr & Hne)]; [by left; left| |].
      * left; right. exists key. split; [left|]. split; [done|]. by exists m, m'.
      * right. exists k. split; [done|]. split; [done|]. exists m, m'. by rewrite Hres.
  - intros uid. rewrite (pa_active _ _ _ _ _ _ _ H2), (pa_active _ _ _ _ _ _ _ H1), <- app_assoc. f_equal.
    assert (Ho : omap (activeId e event q uid) keys = omap (activeId e event p uid) keys).
    { clear -Hres. induction keys as [|k keys IH]; [done|]. cbn [omap list_omap]. rewrite IH by set_solver.
      assert (activeId e event q uid k = activeId e event p uid k) as -> by (unfold activeId; by rewrite Hres by set_solver). done. }
    rewrite Ho. cbn [omap list_omap]. by destruct (activeId e event p uid key).
Qed.

Lemma passEvents_spec e event keys : ∀ p a,
  NoDup keys →
  match foldl (λ r key, s ← r; passEvent e event s key) (Some (p, a)) keys with
  | Some (q, a') => passed e event keys p a q a'
  | None => ∃ key m, key ∈ keys ∧ managerOf key p = Some m ∧ mo_onLogEvent (worldAt e key p) event m = None
  end.
Proof using.
  induction keys as [|key keys IH]; intros p a Hnd; cbn [foldl].
  - constructor; try done; [by intros k m Hk%not_elem_of_nil| |intros uid; by rewrite app_nil_r].
    intros uid. split; [by left|]. by intros [|(k & Hk%not_elem_of_nil & _)].
  - apply NoDup_cons in Hnd as [Hkey Hnd]. cbn [mbind option_bind].
    destruct (passEvent e event (p, a) key) as [[p1 a1]|] eqn:E.
    + apply passEvent_passed in E as H1. specialize (IH p1 a1 Hnd).
      destruct (foldl _ _ keys) as [[q a']|]; [by eapply passed_cons|].
      destruct IH as (k & m & Hk & Hm & Hf). exists k, m. split; [by right|].
      rewrite (pa_other _ _ _ _ _ _ _ H1) in Hm by set_solver. split; [done|].
      unfold worldAt, mUidMap in *. by rewrite (pa_shared _ _ _ _ _ _ _ H1) in Hf.
    + assert (foldl (λ r key, s ← r; passEvent e event s key) None keys = None) as -> by (clear; by induction keys).
      unfold passEvent in E. destruct (managerOf key p) as [m|] eqn:Hm; [|done]. exists key, m. split; [left|].
      split; [done|]. destruct (mo_onLogEvent _ _ m); [done|done].
Qed.

(** ** Whole events *)

(** Everything before the managers see the event: it is completed, expired configurations are reset, isolated
    uids are replaced and the states change. *)
Definition prepareEvent (e : Env) (l : Logger) (event : Parsing) p : option (LogEvent * StatsLogProcessor M) :=
  '(event, p) ← rewriteTrainEvent lib e l event p;
  p ← resetIfConfigTtlExpiredLocked lib e (mElapsedTimestampNs event) p;
  '(event, p) ← rewriteUids lib e event p;
  let logEvent := toLogEvent (log_uid l) event in
  Some (logEvent, clearPullerCaches e (fireAnomalyAlarm e (onStateEvent e logEvent p))).

Lemma before_managers e p :
  mMetricsManagers (clearPullerCaches e (fireAnomalyAlarm e p)) = ∅ ↔ mMetricsManagers p = ∅.
Proof using.
  assert (Hc : ∀ q, mMetricsManagers (clearPullerCaches e q) = mMetricsManagers q).
  { intros q. unfold clearPullerCaches. by destruct (_ <? _). }
  rewrite Hc. unfold fireAnomalyAlarm. destruct (_ && _); [|done]. cbn. split; intros H; [|by rewrite H].
  apply map_eq. intros k. rewrite lookup_empty. apply (f_equal (.!! k)) in H.
  rewrite map_lookup_imap, lookup_empty in H. by destruct (mMetricsManagers p !! k).
Qed.

Lemma send_managers e uids active : ∀ p, mMetricsManagers (sendActivationBroadcasts e uids active p) = mMetricsManagers p.
Proof using.
  induction uids as [|uid uids IH]; intros p; cbn [sendActivationBroadcasts]; [done|].
  match goal with |- context [if ?b then p else _] => destruct b; [done|] end. rewrite IH.
  by destruct (e_sendActivationBroadcast _ _ _).
Qed.

Lemma managerKeys_nodup p : NoDup (managerKeys p).
Proof using. apply NoDup_fst_map_to_list. Qed.

Lemma elem_of_managerKeys key p : key ∈ managerKeys p ↔ is_Some (managerOf key p).
Proof using.
  unfold managerKeys, managerOf. rewrite list_elem_of_fmap. split.
  - intros ([k x] & -> & H%elem_of_map_to_list). cbn. rewrite H. by eexists.
  - intros [m H]. apply fmap_Some in H as (x & Hx & _). exists (key, x). split; [done|]. by apply elem_of_map_to_list.
Qed.

Lemma OnLogEvent_prepared e l event p :
  mValid event = true →
  match prepareEvent e l event p with
  | None => OnLogEvent lib e l event p = None
  | Some (logEvent, p') =>
      if bool_decide (mMetricsManagers p' = ∅)
      then ∃ q, OnLogEvent lib e l event p = Some q ∧ mMetricsManagers q = ∅ ∧ quiet p q
      else OnLogEvent lib e l event p =
             '(q, a) ← passEvents e logEvent p';
             Some (sendActivationBroadcasts e (elements (uidsWithActiveConfigsChanged a)) (activeConfigsPerUid a) q)
  end.
Proof using.
  intros Hv. unfold OnLogEvent, prepareEvent. rewrite Hv. cbn [negb].
  destruct (rewriteTrainEvent lib e l event p) as [[event1 p1]|] eqn:E1; [|done]. cbn [mbind option_bind].
  destruct (resetIfConfigTtlExpiredLocked lib e _ p1) as [p2|] eqn:E2; [|done]. cbn [mbind option_bind].
  destruct (rewriteUids lib e event1 p2) as [[event3 p3]|] eqn:E3; [|done]. cbn [mbind option_bind]. cbv zeta.
  set (logEvent := toLogEvent (log_uid l) event3).
  rewrite (bool_decide_ext _ _ (before_managers e (onStateEvent e logEvent p3))).
  case_bool_decide as H; [|done]. eexists. split; [done|]. split; [done|].
  apply quiet_train in E1. apply quiet_ttl in E2. apply quiet_uids in E3. pose proof (quiet_stateEvent e logEvent p3) as E4.
  unfold quiet in *. congruence.
Qed.

(** C1: An event reaches every configuration by itself: each manager afterwards is what the event makes of it, with its data dropped
    if it is over the memory limit when its size is checked, at most once a minute, whatever happens to the others; the processor fails only if its
    preparation or one of the managers does. *)
Theorem event_reaches_managers e l event p :
  mValid event = true →
  match prepareEvent e l event p with
  | None => OnLogEvent lib e l event p = None
  | Some (logEvent, p') =>
      match OnLogEvent lib e l event p with
      | None => ∃ key m, managerOf key p' = Some m ∧ mo_onLogEvent (worldAt e key p') logEvent m = None
      | Some q => ∀ key,
          match managerOf key p' with
          | None => managerOf key q = None
          | Some m => ∃ m', mo_onLogEvent (worldAt e key p') logEvent m = Some m' ∧
                        managerOf key q = Some (afterSizeCheck e key p' m')
          end
      end
  end.
Proof using.
  intros Hv. pose proof (OnLogEvent_prepared e l event p Hv) as H.
  destruct (prepareEvent e l event p) as [[logEvent p']|]; [|done]. case_bool_decide as He.
  - destruct H as (q & -> & Hq & _). intros key. unfold managerOf. by rewrite He, Hq, lookup_empty.
  - rewrite H. clear H. unfold passEvents.
    pose proof (passEvents_spec e logEvent (managerKeys p') p' (mkActiveStatus ∅ ∅) (managerKeys_nodup p')) as H.
    destruct (foldl _ _ _) as [[q a]|]; cbn [mbind option_bind].
    + intros key. unfold managerOf at 2 3. rewrite send_managers. fold (managerOf key q).
      destruct (managerOf key p') as [m|] eqn:Hm; [|by apply (pa_none _ _ _ _ _ _ _ H)].
      apply (pa_manager _ _ _ _ _ _ _ H); [|done]. apply elem_of_managerKeys. by rewrite Hm.
    + destruct H as (key & m & _ & H). by exists key, m.
Qed.

(** ** Activation broadcasts *)

Definition isActivation (c : ProcessorCall) : bool := match c with SendActivationBroadcast _ _ _ _ => true | _ => false end.
Definition activationCalls p : list ProcessorCall := List.filter isActivation (sends p).

Definition activationView p := (mLastActivationBroadcastTimes (lp_limits p), activationCalls p).

Lemma quiet_activation p q : quiet p q → activationView q = activationView p.
Proof using. intros [= E1 E2 E3]. unfold activationView, activationCalls. by rewrite E2, E3. Qed.

Lemma prepareEvent_quiet e l event p logEvent p' : prepareEvent e l event p = Some (logEvent, p') → quiet p p'.
Proof using.
  unfold prepareEvent. intros ([event1 p1] & E1%quiet_train & H)%bind_Some.
  apply bind_Some in H as (p2 & E2%quiet_ttl & H). apply bind_Some in H as ([event3 p3] & E3%quiet_uids & [= _ <-]).
  pose proof (quiet_stateEvent e (toLogEvent (log_uid l) event3) p3) as E4.
  pose proof (quiet_anomaly e (onStateEvent e (toLogEvent (log_uid l) event3) p3)) as E5.
  pose proof (quiet_clear e (fireAnomalyAlarm e (onStateEvent e (toLogEvent (log_uid l) event3) p3))) as E6.
  unfold quiet in *. congruence.
Qed.

Lemma flush_activation e key p : activationView (flushIfNecessaryLocked e key p) = activationView p.
Proof using.
  unfold flushIfNecessaryLocked. destruct (managerOf key p) as [m|]; [|done]. cbv zeta.
  match goal with |- context [if ?b then p else _] => destruct b; [done|] end.
  destruct (_ <? mo_byteSize m); [done|]. destruct (_ || _); [|done].
  match goal with |- context [if ?b then on_limits _ _ else _] => destruct b; [done|] end.
  destruct (e_sendBroadcast e key); unfold activationView, activationCalls, sends; cbn;
    rewrite !List.filter_app; cbn; by rewrite app_nil_r.
Qed.

Lemma passEvents_activation e event keys : ∀ p a q a',
  foldl (λ r key, s ← r; passEvent e event s key) (Some (p, a)) keys = Some (q, a') → activationView q = activationView p.
Proof using.
  induction keys as [|key keys IH]; intros p a q a' H; cbn [foldl] in H; [by simplify_eq|]. cbn [mbind option_bind] in H.
  destruct (passEvent e event (p, a) key) as [[p1 a1]|] eqn:E.
  - apply IH in H. rewrite H. unfold passEvent in E. destruct (managerOf key p); [|by simplify_eq].
    apply bind_Some in E as (m' & _ & [= <- _]). by rewrite flush_activation.
  - exfalso. clear -H. by induction keys.
Qed.

(** The loop over the uids: those told, and those after the first that is over its limit. *)
Lemma send_spec e active uids : ∀ p, NoDup uids →
  ∃ told silenced calls, uids = told ++ silenced ∧
    activationCalls (sendActivationBroadcasts e uids active p) = activationCalls p ++ calls ∧
    Forall2 (λ uid c, ∃ sent, c = SendActivationBroadcast uid (default [] (active !! uid)) (e_elapsed e) sent) told calls ∧
    (silenced = [] ∨ ∃ uid rest t, silenced = uid :: rest ∧ mLastActivationBroadcastTimes (lp_limits p) !! uid = Some t ∧
       e_elapsed e - t < kMinActivationBroadcastPeriodNs).
Proof using.
  induction uids as [|uid uids IH]; intros p Hnd; cbn [sendActivationBroadcasts].
  { exists [], [], []. split; [done|]. split; [by rewrite app_nil_r|]. split; [constructor|by left]. }
  apply NoDup_cons in Hnd as [Huid Hnd].
  match goal with |- context [if ?b then p else _] => destruct b eqn:Er end.
  - exists [], (uid :: uids), []. split; [done|]. split; [by rewrite app_nil_r|]. split; [constructor|]. right.
    destruct (mLastActivationBroadcastTimes (lp_limits p) !! uid) as [t|] eqn:Et; [|done]. apply Z.ltb_lt in Er. by exists uid, uids, t.
  - match goal with |- context [sendActivationBroadcasts e uids active ?r] => set (p1 := r) end.
    destruct (IH p1 Hnd) as (told & silenced & calls & -> & Hc & Hf & Hs). eexists (uid :: told), silenced, _. split; [done|].
    assert (Hp1 : activationCalls p1 = activationCalls p ++ [SendActivationBroadcast uid (default [] (active !! uid)) (e_elapsed e)
      (e_sendActivationBroadcast e uid (default [] (active !! uid)))]).
    { unfold p1, activationCalls, sends. destruct (e_sendActivationBroadcast _ _ _); cbn; rewrite !List.filter_app; done. }
    split_and!; [by rewrite Hc, Hp1, <- app_assoc|constructor; [by eexists|exact Hf]|].
    destruct Hs as [?|(u & rest & t & -> & Ht & Hlt)]; [by left|right]. exists u, rest, t. split_and!; try done.
    rewrite <- Ht. unfold p1. destruct (e_sendActivationBroadcast _ _ _); [|done]. cbn. rewrite lookup_insert_ne; [done|].
    intros ->. apply Huid. set_solver.
Qed.

Lemma omap_ext_elem {A B} (f g : A → option B) (l : list A) : (∀ x, x ∈ l → f x = g x) → omap f l = omap g l.
Proof using.
  induction l as [|x l IH]; intros H; [done|]. cbn. rewrite (H x) by left. by rewrite IH by (intros; apply H; by right).
Qed.

Lemma GetActiveConfigs_keys uid q :
  GetActiveConfigs uid q = omap (λ key : ConfigKey, m ← managerOf key q;
    if (key.1 =? uid) && mo_isActive m then Some key.2 else None) (managerKeys q).
Proof using.
  unfold GetActiveConfigs, managerKeys, managerOf.
  assert (H : ∀ kv, kv ∈ map_to_list (mMetricsManagers q) → mMetricsManagers q !! kv.1 = Some kv.2).
  { intros [k x] Hk. by apply elem_of_map_to_list in Hk. }
  induction (map_to_list (mMetricsManagers q)) as [|[k x] l IH]; [done|]. rewrite fmap_cons. cbn [omap list_omap fst snd].
  pose proof (H (k, x) ltac:(left)) as Hk. cbn [fst snd] in Hk. rewrite Hk. cbn [fmap option_fmap option_map mbind option_bind].
  rewrite <- IH by (intros; apply H; by right). done.
Qed.

Context `{!ManagerLaws M Config}.

Lemma afterSizeCheck_active e key p m : mo_isActive (afterSizeCheck e key p m) = mo_isActive m.
Proof. unfold afterSizeCheck. destruct (_ && _); [apply ml_dropData_active|done]. Qed.

Lemma eventResult_manager e event p key m m' : eventResult e event p key = Some (m, m') → managerOf key p = Some m.
Proof using. unfold eventResult. intros (m0 & E1 & (m1 & _ & [= <- _])%bind_Some)%bind_Some. done. Qed.

(** Every manager has a result, and is as active as it afterwards. *)
Lemma passed_after e event p a q a' key m :
  passed e event (managerKeys p) p a q a' → managerOf key p = Some m →
  ∃ m', eventResult e event p key = Some (m, m') ∧ ∃ m'', managerOf key q = Some m'' ∧ mo_isActive m'' = mo_isActive m'.
Proof.
  intros Hpass Hkm. destruct (pa_manager _ _ _ _ _ _ _ Hpass key m) as (m' & E & Hm'); [|done|].
  - apply elem_of_managerKeys. by rewrite Hkm.
  - exists m'. split; [unfold eventResult; rewrite Hkm; cbn; by rewrite E|].
    eexists. split; [exact Hm'|]. apply afterSizeCheck_active.
Qed.

(** C2: An event tells a uid about its active configurations only if one of them became active or inactive, and tells the truth:
    the broadcast lists exactly the configurations that are active after the event.  Every uid with such a change is told,
    except that the first one that was told less than ten seconds ago silences all that come after it. *)
Theorem activation_broadcasts_truthful e l event p logEvent p' q :
  mValid event = true → prepareEvent e l event p = Some (logEvent, p') → OnLogEvent lib e l event p = Some q →
  ∃ told silenced calls,
    NoDup (told ++ silenced) ∧
    (∀ uid, uid ∈ told ++ silenced ↔ ∃ id m m', managerOf (uid, id) p' = Some m ∧ managerOf (uid, id) q = Some m' ∧
       mo_isActive m ≠ mo_isActive m') ∧
    activationCalls q = activationCalls p ++ calls ∧
    Forall2 (λ uid c, ∃ configs sent, c = SendActivationBroadcast uid configs (e_elapsed e) sent ∧
                        configs ≡ₚ GetActiveConfigs uid q) told calls ∧
    (silenced = [] ∨ ∃ uid rest t, silenced = uid :: rest ∧
       mLastActivationBroadcastTimes (lp_limits p) !! uid = Some t ∧ e_elapsed e - t < 10 * NS_PER_SEC).
Proof.
  intros Hv Hp Hq. pose proof (OnLogEvent_prepared e l event p Hv) as H. rewrite Hp in H.
  pose proof (quiet_activation _ _ (prepareEvent_quiet _ _ _ _ _ _ Hp)) as Hquiet.
  case_bool_decide as He.
  { destruct H as (q' & E & Hempty & Hqq). rewrite Hq in E. injection E as <-. exists [], [], [].
    apply quiet_activation in Hqq. injection Hqq as _ Hc. split; [apply NoDup_nil_2|].
    split; [|split; [by rewrite Hc, app_nil_r|split; [constructor|by left]]].
    intros uid. split; [by intros ?%not_elem_of_nil|]. intros (id & m & m' & Hm & _). unfold managerOf in Hm. by rewrite He, lookup_empty in Hm. }
  rewrite H in Hq. clear H. apply bind_Some in Hq as ([q1 a] & Epass & [= <-]).
  pose proof (passEvents_spec e logEvent (managerKeys p') p' (mkActiveStatus ∅ ∅) (managerKeys_nodup p')) as Hpass.
  unfold passEvents in Epass. rewrite Epass in Hpass. apply passEvents_activation in Epass as Hview.
  rewrite Hquiet in Hview. injection Hview as Hlast Hcalls.
  destruct (send_spec e (activeConfigsPerUid a) (elements (uidsWithActiveConfigsChanged a)) q1) as (told & silenced & calls & Eu & Hc & Hf & Hs);
    [apply NoDup_elements|].
  set (q := sendActivationBroadcasts _ _ _ _) in *. assert (Hm : ∀ key, managerOf key q = managerOf key q1).
  { intros key. unfold managerOf, q. by rewrite send_managers. }
  assert (Hafter : ∀ key m, managerOf key p' = Some m → ∃ m', eventResult e logEvent p' key = Some (m, m') ∧
    ∃ m'', managerOf key q = Some m'' ∧ mo_isActive m'' = mo_isActive m').
  { intros key m Hkm. rewrite Hm. by eapply passed_after. }
  exists told, silenced, calls. rewrite <- Eu. split_and!; [apply NoDup_elements| |by rewrite Hc, Hcalls| |].
  - intros uid. rewrite elem_of_elements, (pa_changed _ _ _ _ _ _ _ Hpass). cbn. split.
    + intros [?%not_elem_of_empty|([u id] & _ & Hu & m & m' & Hr & Hne)]; [done|]. cbn in Hu. subst u. apply eventResult_manager in Hr as Hkm.
      destruct (Hafter _ _ Hkm) as (m1 & Hr1 & m2 & Hm2 & Ha). rewrite Hr in Hr1. injection Hr1 as <-.
      exists id, m, m2. by rewrite Ha.
    + intros (id & m & m2 & Hkm & Hm2 & Hne). right. exists (uid, id). split; [apply elem_of_managerKeys; by rewrite Hkm|].
      split; [done|]. destruct (Hafter _ _ Hkm) as (m' & Hr & m3 & Hm3 & Ha). exists m, m'. split; [done|]. congruence.
  - eapply Forall2_impl; [exact Hf|]. intros uid c (sent & ->). eexists _, sent. split; [done|].
    rewrite (pa_active _ _ _ _ _ _ _ Hpass). cbn. rewrite lookup_empty. cbn. rewrite GetActiveConfigs_keys.
    assert (Hperm : managerKeys q ≡ₚ managerKeys p').
    { apply NoDup_Permutation; [apply managerKeys_nodup..|]. intros key. rewrite !elem_of_managerKeys. split.
      - intros [m Hkm]. destruct (managerOf key p') eqn:E0; [by eexists|]. rewrite Hm, (pa_none _ _ _ _ _ _ _ Hpass) in Hkm; done.
      - intros [m Hkm]. destruct (Hafter _ _ Hkm) as (m' & _ & m2 & Hm2 & _). by exists m2. }
    rewrite Hperm. clear Hperm.
    apply reflexive_eq, omap_ext_elem. intros key Hkey. apply elem_of_managerKeys in Hkey as [m Hkm].
    destruct (Hafter _ _ Hkm) as (m' & Hr & m2 & Hm2 & Ha). rewrite Hm2. unfold activeId. rewrite Hr. cbn. rewrite Ha.
    by destruct (key.1 =? uid), (mo_isActive m').
  - destruct Hs as [?|(u & rest & t & -> & Ht & Hlt)]; [by left|right]. exists u, rest, t. split_and!; try done. by rewrite <- Hlast.
Qed.
End events.

(** ** An example *)

(** Two copies of a configuration whose first metric becomes active with atom 11 and whose second one with atom 12,
    both for a minute. *)
#[local] Instance exampleOps : ManagerOps MetricsManager ManagerConfig :=
  metrics_manager_ops exampleSerializers ∅ (0, 0, 0) exampleAtoms (mkObjectSizes (λ _, 100) 16 32 8) None None.

Definition exampleLibrary : Library ManagerConfig :=
  mkLibrary ManagerConfig exampleHardCoded (λ id v, [id; v]) Some (λ uid, uid `div` 100000) (λ _ _ _, true)
    (insertionSort file_ltb) id (λ s, Z.of_nat (String.length s)) 20 (λ r, [rp_currentReportElapsedNs r]) (λ _, None)
    (λ _, []) (λ _, None) (λ _, []) (λ _, None).

Definition exampleEnv (elapsedNs : Z) : Env :=
  mkEnv (-1) (false, false, false) elapsedNs (λ _, elapsedNs) (1000 * NS_PER_SEC + elapsedNs) (λ _ _ _, None)
    (λ _, mkPullEnv 0 0 false []) 0 (λ _, true) (λ _ _, true).

Definition exampleShared : SharedObjects :=
  mkShared UidMap_new StateManager_new (StatsPullerManager_new 10051) (mkDisk [] [] []) None None.
Definition exampleStart : StatsLogProcessor MetricsManager := StatsLogProcessor_new exampleShared 0.

Definition exampleLogged (tag elapsedNs : Z) : Parsing := set_header elapsedNs tag (LogEvent_new 0).
Definition exampleLogger : Logger := mkLogger 0 50.

Definition exampleOp (tag elapsedNs : Z) : ProcessorOp (Config := ManagerConfig) :=
  OpLogEvent (exampleEnv elapsedNs) exampleLogger (exampleLogged tag elapsedNs).
Definition exampleInstall : list (ProcessorOp (Config := ManagerConfig)) :=
  [OpConfigUpdated (exampleEnv 1) 1 (1000, 7) exampleConfig true; OpConfigUpdated (exampleEnv 2) 2 (1000, 8) exampleConfig true].

Definition exampleInstalled : option (StatsLogProcessor MetricsManager) :=
  runOps exampleLibrary exampleInstall exampleStart.

Definition exampleHistory : list (ProcessorOp (Config := ManagerConfig)) :=
  exampleInstall ++ [exampleOp 11 5; exampleOp 13 (61 * NS_PER_SEC); exampleOp 11 (62 * NS_PER_SEC)].

(** The last event activates again, but the uid was told one second ago. *)
Lemma example_broadcasts :
  (λ p, (sends p, GetActiveConfigs 1000 p)) <$> runOps exampleLibrary exampleHistory exampleStart
  = Some ([SendActivationBroadcast 1000 [7; 8] 5 true; SendActivationBroadcast 1000 [] (61 * NS_PER_SEC) true], [7; 8]).
Proof. vm_compute. reflexivity. Qed.

Lemma broadcasts_apart_witness :
  ∃ q, runOps exampleLibrary exampleHistory exampleStart = Some q ∧
    (activationLimiter 1000 q).2 = [5; 61 * NS_PER_SEC] ∧
    keepsApart (10 * NS_PER_SEC) (activationLimiter 1000) exampleStart q.
Proof.
  pose proof example_broadcasts as H. destruct (runOps _ _ _) as [q|] eqn:E; [|discriminate H]. exists q.
  split; [reflexivity|]. injection H as H _. split; [unfold activationLimiter; rewrite H; reflexivity|].
  apply (broadcasts_apart exampleLibrary exampleHistory exampleStart q E). repeat constructor.
Defined.

(** The first event, for the installed configurations. *)
Lemma example_event :
  (p ← exampleInstalled; '(_, p') ← prepareEvent exampleLibrary (exampleEnv 5) exampleLogger (exampleLogged 11 5) p;
   q ← OnLogEvent exampleLibrary (exampleEnv 5) exampleLogger (exampleLogged 11 5) p;
   m ← managerOf (1000, 7) p'; m' ← managerOf (1000, 7) q; Some (mo_isActive m, mo_isActive m'))
  = Some (false, true).
Proof. vm_compute. reflexivity. Qed.

Lemma event_reaches_managers_witness :
  ∃ p logEvent p' q m m', exampleInstalled = Some p ∧
    prepareEvent exampleLibrary (exampleEnv 5) exampleLogger (exampleLogged 11 5) p = Some (logEvent, p') ∧
    OnLogEvent exampleLibrary (exampleEnv 5) exampleLogger (exampleLogged 11 5) p = Some q ∧
    managerOf (1000, 7) p' = Some m ∧ mo_onLogEvent (worldAt (exampleEnv 5) (1000, 7) p') logEvent m = Some m' ∧
    managerOf (1000, 7) q = Some (afterSizeCheck (exampleEnv 5) (1000, 7) p' m').
Proof.
  pose proof example_event as H. apply bind_Some in H as (p & Ep & H). apply bind_Some in H as ([logEvent p'] & Epre & H).
  apply bind_Some in H as (q & Eq & H). apply bind_Some in H as (m & Em & _).
  pose proof (event_reaches_managers exampleLibrary (exampleEnv 5) exampleLogger (exampleLogged 11 5) p eq_refl) as Ht.
  rewrite Epre, Eq in Ht. specialize (Ht (1000, 7)). rewrite Em in Ht. destruct Ht as (m' & H1 & H2).
  exists p, logEvent, p', q, m, m'. split; [exact Ep|]. split; [exact Epre|]. split; [exact Eq|].
  split; [exact Em|]. split; [exact H1|exact H2].
Defined.

Lemma activation_broadcasts_truthful_witness :
  ∃ p q told silenced calls, exampleInstalled = Some p ∧
    OnLogEvent exampleLibrary (exampleEnv 5) exampleLogger (exampleLogged 11 5) p = Some q ∧
    1000 ∈ told ++ silenced ∧ activationCalls q = activationCalls p ++ calls ∧
    Forall2 (λ uid c, ∃ configs sent, c = SendActivationBroadcast uid configs 5 sent ∧
                        configs ≡ₚ GetActiveConfigs uid q) told calls.
Proof.
  pose proof example_event as H. apply bind_Some in H as (p & Ep & H). apply bind_Some in H as ([logEvent p'] & Epre & H).
  apply bind_Some in H as (q & Eq & H). apply bind_Some in H as (m & Em & H). apply bind_Some in H as (m' & Em' & H).
  injection H as Ha Ha'.
  destruct (activation_broadcasts_truthful exampleLibrary (exampleEnv 5) exampleLogger (exampleLogged 11 5) p logEvent p' q
    eq_refl Epre Eq) as (told & silenced & calls & _ & Hu & Hc & Hf & _).
  exists p, q, told, silenced, calls. split; [exact Ep|]. split; [exact Eq|]. split; [|split; [exact Hc|exact Hf]].
  apply Hu. exists 7, m, m'. split; [exact Em|]. split; [exact Em'|]. change (mm_isActive m ≠ mm_isActive m'). rewrite Ha, Ha'. discriminate.
Defined.
