(* ===== verification/ProcessorInvariants.v ===== *)
(** * Invariants of the log processor

    The pullers find the manager of every configuration, and nothing else, through all histories. *)
From S2P Require Import Prelude Hash UMap FieldValue DimensionKey Matchers LogEvent UidMap MatcherTrackers.
From S2P Require Import Conditions Alarms Anomaly State MetricProducer CountMetric MetricShared AnyMetric.
From S2P Require Import Sorting Storage Pullers PullersFacts MetricsConfig MetricsManager ManagerOps TrainEvents.
From S2P Require Import LogProcessor LogProcessorFacts MetricsManagerFacts ProcessorEvents.

(** ** What the puller manager does to the providers *)

Lemma registerReceivers_providers key rs pm : mPullUidProviders (registerReceivers key rs pm).2 = mPullUidProviders pm.
Proof.
  unfold registerReceivers. generalize (@nil ManagerCall) as calls. revert pm.
  induction rs as [|[a r] rs IH]; intros pm calls; cbn [foldl]; [done|].
  destruct (RegisterReceiver _ _ _ _ _ pm) as [calls' pm'] eqn:E. rewrite IH. revert E. unfold RegisterReceiver.
  destruct (existsb _ _); [by intros [= _ <-]|]. cbv zeta. destruct (_ <? _); by intros [= _ <-].
Qed.

Lemma unregisterReceivers_providers key rs : ∀ pm, mPullUidProviders (unregisterReceivers key rs pm) = mPullUidProviders pm.
Proof.
  unfold unregisterReceivers. induction rs as [|[a r] rs IH]; intros pm; cbn [foldl]; [done|]. rewrite IH.
  unfold UnRegisterReceiver. by destruct (receiversAt _ _).
Qed.

Lemma pullFromUids_providers sort u W tag t uids m r m' :
  pullFromUids sort u W tag uids t m = Some (r, m') → mPullUidProviders m' = mPullUidProviders m.
Proof.
  induction uids as [|uid uids IH]; cbn [pullFromUids]; [by intros [= _ <-]|].
  destruct (_ !! (uid, tag)); [|exact IH]. intros ([a p'] & _ & [= _ <-])%bind_Some. done.
Qed.

Lemma pullForKeys_providers sort u W t l : ∀ minNext m calls l' minNext' m',
  pullForKeys sort u W t l minNext m = Some (calls, l', minNext', m') → mPullUidProviders m' = mPullUidProviders m.
Proof.
  induction l as [|[key rs] l IH]; intros minNext m calls l' minNext' m'; cbn [pullForKeys]; [by intros [= _ _ _ <-]|].
  destruct (existsb _ _).
  - intros ([r m1] & E1 & H)%bind_Some. assert (H1 : mPullUidProviders m1 = mPullUidProviders m).
    { revert E1. unfold PullLocked. destruct (_ !! key.2); [|by intros [= _ <-]].
      destruct (providerAlive _ _); [|by intros [= _ <-]]. apply pullFromUids_providers. }
    set (q := match r with Some _ => _ | None => _ end) in H.
    assert (Hq : mPullUidProviders q.2 = mPullUidProviders m) by (subst q; by destruct r as [[pk d]|]).
    destruct q as [[data ok] m2]. cbn [snd] in Hq. destruct (serve _ _ _ _ _ _) as [[c rs'] mn].
    apply bind_Some in H as ([[[c' l1] mn1] m3] & E2 & [= _ _ _ <-]). by rewrite (IH _ _ _ _ _ _ E2).
  - intros ([[[c' l1] mn1] m3] & E2 & [= _ _ _ <-])%bind_Some. by eapply IH.
Qed.

Section invariants.
Context {M Config : Type} `{Hops : ManagerOps M Config} (lib : Library Config).
Implicit Types p q : StatsLogProcessor M.

(** ** Providers and addresses *)

Definition addresses p : gmap ConfigKey Z := md_address <$> mMetricsManagers p.
Definition providers p : gmap ConfigKey Z := mPullUidProviders (sh_pullers (lp_shared p)).

(** Every manager is known by its address, which no other object has. *)
Record linksOk p : Prop := {
  ln_same : providers p = addresses p;
  ln_used : ∀ key a, addresses p !! key = Some a → a < lp_fresh p;
  ln_distinct : ∀ key key' a, addresses p !! key = Some a → addresses p !! key' = Some a → key = key'
}.

(** An operation that leaves the links alone. *)
Definition keepsLinks p q : Prop := addresses q = addresses p ∧ providers q = providers p ∧ lp_fresh p <= lp_fresh q.

#[local] Instance keepsLinks_preorder : PreOrder keepsLinks.
Proof using. split; [by repeat split|]. intros p q r (A1 & P1 & F1) (A2 & P2 & F2). repeat split; [congruence..|lia]. Qed.

Lemma keepsLinks_linked p q : keepsLinks p q → linksOk p → linksOk q.
Proof using.
  intros (Ha & Hp & Hf) [H1 H2 H3]. constructor; rewrite ?Ha, ?Hp; [done| |done]. intros key a Hk. apply H2 in Hk. lia.
Qed.

Lemma links_frame p q :
  mMetricsManagers q = mMetricsManagers p → sh_pullers (lp_shared q) = sh_pullers (lp_shared p) → lp_fresh q = lp_fresh p →
  keepsLinks p q.
Proof using. intros H1 H2 H3. unfold keepsLinks, addresses, providers. by rewrite H1, H2, H3. Qed.
Ltac frame := apply links_frame; done.

Lemma links_pullers pm p :
  mPullUidProviders pm = providers p → keepsLinks p (on_shared (set_pullerManager pm) p).
Proof using. intros H. split; [done|]. split; [exact H|done]. Qed.

Lemma links_states st p : keepsLinks p (on_shared (set_states st) p).
Proof using. frame. Qed.
Lemma links_files f g p : keepsLinks p (on_shared (λ s, set_files (f s) (g s) s) p).
Proof using. frame. Qed.

Lemma links_setManager key m p : keepsLinks p (setManager key m p).
Proof using.
  split; [|done]. unfold addresses. cbn. apply map_eq. intros k. rewrite !lookup_fmap.
  destruct (decide (k = key)) as [->|Hne]; [rewrite lookup_alter_eq|by rewrite lookup_alter_ne].
  by destruct (mMetricsManagers p !! key).
Qed.

Lemma links_onManagers f p : keepsLinks p (onManagers f p).
Proof using.
  split; [|done]. unfold addresses. cbn. apply map_eq. intros k. rewrite !lookup_fmap, map_lookup_imap.
  by destruct (mMetricsManagers p !! k).
Qed.

Lemma links_fresh n p : 0 <= n → keepsLinks p (set_fresh (lp_fresh p + n) p).
Proof using. intros Hn. repeat split. cbn. lia. Qed.

(** ** Reports *)

Lemma links_report e key m t include erase reason latency p :
  keepsLinks p (configReport lib e key m t include erase reason latency p).2.
Proof using.
  unfold configReport. destruct (mo_onDumpReport _ _ _ _ _ _ _) as [[metrics annotations] m'].
  destruct (0 <? _)%nat; [destruct (appendUidMap _ _ _ _ _ _ _ _) as [[[changes snapshot] strings] u]|];
    cbn [snd]; (etrans; [apply (links_setManager key m')|frame]).
Qed.

Lemma links_write name buffer e p q : writeToDisk lib name buffer e p = Some q → keepsLinks p q.
Proof using. intros (k & _ & [= <-])%bind_Some. frame. Qed.

Lemma links_metricsReport e key t include erase reason latency saved p r q :
  onConfigMetricsReportLocked lib e key t include erase reason latency saved p = Some (r, q) → keepsLinks p q.
Proof using.
  unfold onConfigMetricsReportLocked. destruct (managerOf key p) as [m|]; [|intros [= _ <-]; reflexivity].
  pose proof (links_report e key m t include erase reason latency p) as Hq.
  destruct (configReport _ _ _ _ _ _ _ _ _ _) as [report p1]. cbn in Hq.
  intros (p2 & E & [= _ <-])%bind_Some. etrans; [exact Hq|].
  destruct (_ && _); [by eapply links_write|injection E as <-; reflexivity].
Qed.

Lemma links_writeConfig e key t reason latency p q :
  writeConfigToDisk lib e key t reason latency p = Some q → keepsLinks p q.
Proof using.
  unfold writeConfigToDisk. destruct (managerOf key p) as [m|]; [|intros [= <-]; reflexivity].
  destruct (negb _); [intros [= <-]; reflexivity|]. intros ([buffer p1] & E1%links_metricsReport & H)%bind_Some.
  apply bind_Some in H as (p2 & E2%links_write & [= <-]). etrans; [exact E1|]. etrans; [exact E2|]. frame.
Qed.

Lemma links_foldKeys f keys p q :
  (∀ key p q, f key p = Some q → keepsLinks p q) → foldKeys f keys p = Some q → keepsLinks p q.
Proof using. intros Hf. by apply (foldl_option_rel keepsLinks f keys). Qed.

Lemma links_writeData e reason latency t p q : WriteDataToDisk lib e reason latency t p = Some q → keepsLinks p q.
Proof using.
  unfold WriteDataToDisk. destruct (coolingDown _ _); [intros [= <-]; reflexivity|]. intros H.
  transitivity (set_lastWrite t p); [frame|].
  eapply links_foldKeys; [|exact H]. intros key p1 q1. apply links_writeConfig.
Qed.

(** ** Configurations *)

Lemma links_register key x p :
  mMetricsManagers (registerManager key x p) = mMetricsManagers p ∧
  providers (registerManager key x p) = <[key := md_address x]> (providers p) ∧
  lp_fresh (registerManager key x p) = lp_fresh p.
Proof using.
  unfold registerManager, providers. pose proof (registerReceivers_providers key (mo_receivers (md_manager x)) (sh_pullers (lp_shared p))) as H.
  destruct (registerReceivers _ _ _) as [calls pm]. cbn in *. by rewrite H.
Qed.

Lemma links_destroy key x p :
  mMetricsManagers (destroyManager key x p) = mMetricsManagers p ∧
  providers (destroyManager key x p) = (if bool_decide (providers p !! key = Some (md_address x)) then delete key (providers p) else providers p) ∧
  lp_fresh (destroyManager key x p) = lp_fresh p.
Proof using.
  unfold destroyManager, providers. split; [done|]. split; [|done]. cbn [set_shared lp_shared set_states sh_pullers set_pullerManager].
  unfold UnregisterPullUidProvider. rewrite unregisterReceivers_providers. case_bool_decide; [done|].
  by rewrite unregisterReceivers_providers.
Qed.

(** A manager is erased: its own link goes, but not that of a manager made after it. *)
Lemma links_erase key p :
  mMetricsManagers (eraseManager key p) = delete key (mMetricsManagers p) ∧
  providers (eraseManager key p) = (if bool_decide (is_Some (addresses p !! key) ∧ providers p !! key = addresses p !! key)
                                    then delete key (providers p) else providers p) ∧
  lp_fresh (eraseManager key p) = lp_fresh p.
Proof using.
  unfold eraseManager, addresses. rewrite lookup_fmap. destruct (mMetricsManagers p !! key) as [x|] eqn:E.
  - set (p1 := set_managers _ p). destruct (links_destroy key x p1) as (-> & -> & ->). split; [done|]. split; [|done].
    change (providers p1) with (providers p).
    assert (Hiff : is_Some (md_address <$> Some x) ∧ providers p !! key = md_address <$> Some x
      ↔ providers p !! key = Some (md_address x)) by (split; [by intros [_ ?]|by split]).
    by rewrite (bool_decide_ext _ _ Hiff).
  - split; [by rewrite delete_id|]. split; [|done]. case_bool_decide as H; [|done]. by destruct H as [[? ?] _].
Qed.

Lemma linked_erase key p : linksOk p → linksOk (eraseManager key p).
Proof using.
  intros [H1 H2 H3]. destruct (links_erase key p) as (Em & Ep & Ef). assert (Ea : addresses (eraseManager key p) = delete key (addresses p)).
  { unfold addresses. by rewrite Em, fmap_delete. }
  constructor.
  - rewrite Ep, Ea, H1. clear Ep. case_bool_decide as Hb; [done|]. symmetry. apply delete_id.
    destruct (addresses p !! key) eqn:E; [|done]. exfalso. apply Hb. by split.
  - intros k a. rewrite Ea, Ef. intros [_ Hk]%lookup_delete_Some. by eapply H2.
  - intros k k' a. rewrite Ea. intros [_ Hk]%lookup_delete_Some [_ Hk']%lookup_delete_Some. by eapply H3.
Qed.

Context `{!ManagerLaws M Config}.

(** A manager made for a key: the link of the key is the new one, that of the old manager does not matter. *)
Lemma linked_installed key x p q :
  linksOk p → providers q = <[key := md_address x]> (providers p) → mMetricsManagers q = <[key := x]> (mMetricsManagers p) →
  lp_fresh p <= md_address x < lp_fresh q → linksOk q.
Proof using.
  intros [H1 H2 H3] Ep Em Hx. assert (Ea : addresses q = <[key := md_address x]> (addresses p)).
  { unfold addresses. by rewrite Em, fmap_insert. }
  constructor.
  - by rewrite Ep, Ea, H1.
  - intros k a. rewrite Ea. intros [[_ <-]|[_ Hk%H2]]%lookup_insert_Some; lia.
  - intros k k' a. rewrite Ea. intros [[-> <-]|[Hne Hk]]%lookup_insert_Some [[-> Ha]|[Hne' Hk']]%lookup_insert_Some; try done.
    + apply H2 in Hk'. lia.
    + apply H2 in Hk. lia.
    + by eapply H3.
Qed.

Lemma linked_removed key p q :
  linksOk p → providers q = delete key (providers p) → mMetricsManagers q = delete key (mMetricsManagers p) →
  lp_fresh p <= lp_fresh q → linksOk q.
Proof using.
  intros [H1 H2 H3] Ep Em Hf. assert (Ea : addresses q = delete key (addresses p)).
  { unfold addresses. by rewrite Em, fmap_delete. }
  constructor.
  - by rewrite Ep, Ea, H1.
  - intros k a. rewrite Ea. intros [_ Hk%H2]%lookup_delete_Some. lia.
  - intros k k' a. rewrite Ea. intros [_ Hk]%lookup_delete_Some [_ Hk']%lookup_delete_Some. by eapply H3.
Qed.

Lemma erase_without_link key p : providers p !! key = None → providers (eraseManager key p) = providers p.
Proof using.
  intros H. destruct (links_erase key p) as (_ & -> & _). case_bool_decide as Hb; [|done].
  destruct Hb as [[a Ha] Hb]. congruence.
Qed.

Lemma erase_other_link key p a :
  providers p !! key = Some a → addresses p !! key ≠ Some a → providers (eraseManager key p) = providers p.
Proof using.
  intros H Hne. destruct (links_erase key p) as (_ & -> & _). case_bool_decide as Hb; [|done].
  destruct Hb as [_ Hb]. congruence.
Qed.

Lemma linked_replace e t key config p q : linksOk p → replaceConfig e t key config p = Some q → linksOk q.
Proof.
  intros Hl. unfold replaceConfig. destruct (mo_new _ _ _ _ _ _ _) as [m| |]; [|intros [= <-]|done].
  - cbv zeta. set (x := mkManaged m (lp_fresh p)). set (n := lp_fresh p + 1 + mo_addresses m).
    assert (Hn : lp_fresh p < n) by (pose proof (ml_addresses m); subst n; lia).
    destruct (links_register key x (set_fresh n p)) as (Em & Ep & Ef). set (p1 := registerManager key x _) in *.
    change (providers (set_fresh n p)) with (providers p) in Ep. destruct (negb _); intros [= <-].
    + destruct (links_destroy key x p1) as (Em' & Ep' & Ef'). rewrite Ep, lookup_insert_eq, bool_decide_true, delete_insert_eq in Ep' by done.
      destruct (links_erase key (destroyManager key x p1)) as (Em2 & _ & Ef2).
      apply (linked_removed key p); [done| | |rewrite Ef2, Ef', Ef; cbn; lia].
      * rewrite erase_without_link; [done|]. by rewrite Ep', lookup_delete_eq.
      * by rewrite Em2, Em', Em.
    + set (p2 := on_shared _ p1). destruct (links_erase key p2) as (Em2 & _ & Ef2).
      apply (linked_installed key (mkManaged (mo_refreshTtl t (mo_init (worldAt e key p1) m)) (lp_fresh p)) p); [done| | |].
      * change (providers (eraseManager key p2) = <[key := md_address x]> (providers p)). rewrite <- Ep.
        apply (erase_other_link key p2 (lp_fresh p)).
        -- change (providers p2) with (providers p1). rewrite Ep. apply lookup_insert_eq.
        -- change (addresses p2) with (md_address <$> mMetricsManagers p1). rewrite Em.
           intros H%(ln_used _ Hl). lia.
      * cbn [mMetricsManagers set_managers]. rewrite Em2. change (mMetricsManagers p2) with (mMetricsManagers p1).
        rewrite Em. apply insert_delete_eq.
      * cbn [lp_fresh set_managers md_address]. rewrite Ef2. change (lp_fresh p2) with (lp_fresh p1). rewrite Ef. cbn. lia.
  - set (p1 := on_shared _ p). destruct (links_erase key p1) as (Em & _ & Ef).
    assert (Ep : providers p1 = delete key (providers p)).
    { unfold providers, p1. cbn. unfold UnregisterPullUidProvider, RegisterPullUidProvider. cbn.
      rewrite lookup_insert_eq, bool_decide_true by done. cbn. apply delete_insert_eq. }
    apply (linked_removed key p); [done| |done|by rewrite Ef].
    rewrite erase_without_link; [done|]. by rewrite Ep, lookup_delete_eq.
Qed.

Lemma linked_updateInPlace e t key config x p q : linksOk p → updateConfigInPlace e t key config x p = Some q → linksOk q.
Proof.
  intros Hl. unfold updateConfigInPlace. destruct (mo_updateConfig _ _ _ _ _ _) as [m| |]; [|intros [= <-]; by apply linked_erase|done].
  cbv zeta. pose proof (registerReceivers_providers key (mo_receivers m) (sh_pullers (lp_shared p))) as Hr.
  destruct (registerReceivers _ _ _) as [calls pm]. cbn in Hr. intros [= <-].
  match goal with |- linksOk (if _ then on_shared _ ?r else _) => assert (Hk : keepsLinks p r) end.
  { etrans; [|apply links_setManager]. split; [done|]. split; [|cbn; pose proof (ml_addresses m); lia].
    unfold providers. cbn. by rewrite unregisterReceivers_providers. }
  pose proof (keepsLinks_linked _ _ Hk Hl) as Hl'.
  destruct (mo_isConfigValid m); [|by apply linked_erase]. eapply keepsLinks_linked; [|exact Hl']. frame.
Qed.

Lemma linked_configUpdated e t key config modular p q :
  linksOk p → OnConfigUpdatedLocked e t key config modular p = Some q → linksOk q.
Proof.
  intros Hl. unfold OnConfigUpdatedLocked. destruct (_ !! key); [destruct modular|];
    first [by apply linked_updateInPlace|by apply linked_replace].
Qed.

(** ** All operations *)

Definition safe p q : Prop := linksOk p → linksOk q.
#[local] Instance safe_preorder : PreOrder safe.
Proof using. split; unfold safe; [by intros p|naive_solver]. Qed.

Lemma links_safe p q : keepsLinks p q → safe p q.
Proof using. intros H Hl. by apply (keepsLinks_linked p). Qed.

Lemma safe_reset e t keys p q : resetConfigsLocked lib e t keys p = Some q → safe p q.
Proof.
  apply (foldl_option_rel safe (resetConfig lib e t)). clear p q. intros key p q. unfold resetConfig.
  destruct (_ ≫= _) as [config|]; [intros H Hl; by eapply linked_configUpdated|]. intros [= <-]. apply links_safe.
  destruct (managerOf key p); [apply links_setManager|reflexivity].
Qed.

Lemma safe_ttl e t p q : resetIfConfigTtlExpiredLocked lib e t p = Some q → safe p q.
Proof.
  unfold resetIfConfigTtlExpiredLocked. destruct (expiredKeys t p) as [|key keys]; [by intros [= <-]|].
  intros (p1 & E1%links_writeData%links_safe & E2%safe_reset)%bind_Some. by etrans.
Qed.

Lemma links_train e l event p event' q : rewriteTrainEvent lib e l event p = Some (event', q) → keepsLinks p q.
Proof using.
  unfold rewriteTrainEvent. intros ([event1 d1] & _ & H)%bind_Some.
  apply bind_Some in H as ([event2 d2] & _ & [= _ <-]). frame.
Qed.

Lemma links_uids e event p event' q : rewriteUids lib e event p = Some (event', q) → keepsLinks p q.
Proof using.
  unfold rewriteUids. destruct (_ =? _); [intros [= _ <-]; frame|]. intros (? & _ & [= _ <-])%bind_Some. reflexivity.
Qed.

Lemma links_stateEvent e event p : keepsLinks p (onStateEvent e event p).
Proof using.
  assert (Hsteps : ∀ tag st steps prev p, keepsLinks p (deliverSteps e tag st prev steps p)).
  { intros tag st steps. induction steps as [|next steps IH]; intros prev p0; cbn [deliverSteps]; [reflexivity|]. etrans; [|apply IH].
    unfold deliverStep. apply (foldl_rel keepsLinks). intros p1 n. unfold deliverNotification.
    apply (foldl_rel keepsLinks). intros p2 l. apply links_onManagers. }
  unfold onStateEvent. cbv zeta. etrans; [|apply links_states]. destruct (stateSource _ _); [|reflexivity].
  destruct (_ !! GetTagId event); [apply Hsteps|reflexivity].
Qed.

Lemma links_anomaly e p : keepsLinks p (fireAnomalyAlarm e p).
Proof using.
  unfold fireAnomalyAlarm. destruct (_ && _); [|reflexivity]. unfold informAnomalyAlarmFiredLocked. etrans; [|apply links_onManagers]. frame.
Qed.

Lemma links_clear e p : keepsLinks p (clearPullerCaches e p).
Proof using. unfold clearPullerCaches. destruct (_ <? _); [by repeat split|reflexivity]. Qed.

Lemma links_flush e key p : keepsLinks p (flushIfNecessaryLocked e key p).
Proof using.
  unfold flushIfNecessaryLocked. destruct (managerOf key p) as [m|]; [|reflexivity]. cbv zeta.
  match goal with |- context [if ?b then p else _] => destruct b; [reflexivity|] end.
  destruct (_ <? mo_byteSize m); [etrans; [|apply links_setManager]; frame|]. destruct (_ || _); [|frame].
  match goal with |- context [if ?b then on_limits _ _ else _] => destruct b; [frame|] end.
  destruct (e_sendBroadcast e key); frame.
Qed.

Lemma links_send e uids active : ∀ p, keepsLinks p (sendActivationBroadcasts e uids active p).
Proof using.
  induction uids as [|uid uids IH]; intros p; cbn [sendActivationBroadcasts]; [reflexivity|].
  match goal with |- context [if ?b then p else _] => destruct b; [reflexivity|] end. etrans; [|apply IH].
  destruct (e_sendActivationBroadcast _ _ _); frame.
Qed.

(** An event changes the links only where it resets configurations. *)
Lemma event_links e l event p q : OnLogEvent lib e l event p = Some q →
  keepsLinks p q ∨ ∃ t p1 p2, keepsLinks p p1 ∧ resetIfConfigTtlExpiredLocked lib e t p1 = Some p2 ∧ keepsLinks p2 q.
Proof using.
  unfold OnLogEvent. destruct (negb _); [intros [= <-]; left; reflexivity|].
  intros ([event1 p1] & E1%links_train & H)%bind_Some. right.
  apply bind_Some in H as (p2 & E2 & H). apply bind_Some in H as ([event3 p3] & E3%links_uids & H).
  exists (mElapsedTimestampNs event1), p1, p2. split; [done|]. split; [done|].
  cbv zeta in H. set (logEvent := toLogEvent _ event3) in *. etrans; [exact E3|].
  etrans; [apply (links_stateEvent e logEvent)|]. case_bool_decide; [by injection H as <-|].
  apply bind_Some in H as ([p5 a] & E5 & [= <-]). etrans; [|apply links_send].
  etrans; [apply (links_anomaly e)|]. etrans; [apply (links_clear e)|].
  assert (Hpre : PreOrder (λ s s' : StatsLogProcessor M * ActiveStatus, keepsLinks s.1 s'.1)).
  { split; [intros s; reflexivity|intros s1 s2 s3 H1 H2; by etrans]. }
  apply (foldl_option_rel (λ s s' : StatsLogProcessor M * ActiveStatus, keepsLinks s.1 s'.1) (λ key s, passEvent e logEvent s key)) in E5;
    [exact E5|].
  clear. intros key [p a] [p' a'] H. unfold passEvent in H. cbn. destruct (managerOf key p) as [m|]; [|by simplify_eq].
  apply bind_Some in H as (m' & _ & [= <- _]). etrans; [apply links_setManager|apply links_flush].
Qed.

Lemma safe_event e l event p q : OnLogEvent lib e l event p = Some q → safe p q.
Proof.
  intros [H%links_safe|(t & p1 & p2 & H1%links_safe & H2%safe_ttl & H3%links_safe)]%event_links; [done|]. etrans; [exact H1|]. by etrans.
Qed.

Lemma removed_links e key p q : processor_OnConfigRemoved lib e key p = Some q →
  keepsLinks p q ∧ mMetricsManagers p !! key = None ∨ ∃ p1, keepsLinks p p1 ∧ keepsLinks (eraseManager key p1) q.
Proof using.
  unfold processor_OnConfigRemoved. intros (p1 & E & [= <-])%bind_Some.
  set (p2 := if hasConfigOf _ _ then _ else _). set (p3 := if bool_decide _ then _ else p2).
  assert (H3 : keepsLinks p1 p3).
  { transitivity p2; [subst p2; destruct (hasConfigOf _ _); frame|]. subst p3. case_bool_decide; [by repeat split|reflexivity]. }
  clearbody p3. clear p2. destruct (_ !! key); [|injection E as <-; by left]. right.
  apply bind_Some in E as (p2 & E2%links_writeConfig & [= <-]). exists p2. split; [done|]. etrans; [|exact H3]. frame.
Qed.

Lemma safe_removed e key p q : processor_OnConfigRemoved lib e key p = Some q → safe p q.
Proof using.
  intros [[H%links_safe _]|(p1 & H1%links_safe & H2%links_safe)]%removed_links; [done|]. etrans; [exact H1|]. etrans; [|exact H2].
  intros H. by apply linked_erase.
Qed.

Lemma links_dump e k t include erase reason latency p r q :
  onDumpReport lib e k t include erase reason latency p = Some (r, q) → keepsLinks p q.
Proof using.
  unfold onDumpReport. destruct (appendConfigMetricsReport _ _ _ _) as [reports d]. cbv zeta.
  match goal with |- context [managerOf k ?r] => destruct (managerOf k r) end; [|intros [= _ <-]; frame].
  intros ([buffer p1] & E%links_metricsReport & [= _ <-])%bind_Some. etrans; [|exact E]. frame.
Qed.

Lemma links_pull e t p q : informPullAlarmFired lib e t p = Some q → keepsLinks p q.
Proof using.
  unfold informPullAlarmFired. intros ([calls pm] & E & [= <-])%bind_Some. transitivity (on_shared (set_pullerManager pm) p).
  - apply links_pullers. revert E. unfold OnAlarmFired. intros ([[[c l'] mn] m'] & E%pullForKeys_providers & [= _ <-])%bind_Some. exact E.
  - apply (foldl_rel keepsLinks). intros p1 [t1|r data success t1]; cbn [deliverPull]; [frame|apply links_onManagers].
Qed.

Lemma links_uidMap e change p q : onUidMapChange e change p = Some q → keepsLinks p q.
Proof using.
  unfold onUidMapChange. intros ([u b] & _ & [= <-])%bind_Some.
  destruct b as [[?|? ? ? ?|? ? ?]|]; [..|frame]; cbv zeta; (etrans; [|apply links_onManagers]); frame.
Qed.

Lemma links_periodic t alarms p : keepsLinks p (processor_onPeriodicAlarmFired t alarms p).
Proof.
  unfold processor_onPeriodicAlarmFired. generalize (managerKeys p) as keys. intros keys. revert p alarms.
  induction keys as [|key keys IH]; intros p alarms; cbn [foldl]; [reflexivity|].
  destruct (managerOf key p) as [m|]; [|apply IH].
  destruct (mo_onPeriodicAlarmFired _ _ _ _) as [[m' a] b]. etrans; [|apply IH]. etrans; [apply (links_setManager key m')|].
  exact (links_fresh (mo_addresses m') (setManager key m' p) (ml_addresses m')).
Qed.

Lemma links_load e configs t p : keepsLinks p (SetConfigsActiveState e configs t p).
Proof using. apply (foldl_rel keepsLinks). intros p1 c. cbn. destruct (managerOf _ p1); [apply links_setManager|reflexivity]. Qed.
Lemma links_metadata d t t' p : keepsLinks p (SetMetadataState d t t' p).
Proof using. apply (foldl_rel keepsLinks). intros p1 c. cbn. destruct (managerOf _ p1); [apply links_setManager|reflexivity]. Qed.

Lemma safe_op op p q : runOp lib op p = Some q → safe p q.
Proof.
  destruct op; cbn [runOp]; intros H; try (injection H as <-).
  - by eapply safe_event.
  - apply bind_Some in H as (p1 & E1%links_writeConfig%links_safe & E2). etrans; [exact E1|]. intros Hl. by eapply linked_configUpdated.
  - by eapply safe_removed.
  - apply fmap_Some in H as ([r q'] & E & ->). by eapply links_safe, links_dump.
  - by eapply links_safe, links_writeData.
  - by eapply safe_reset.
  - by eapply links_safe, links_pull.
  - by eapply links_safe, links_uidMap.
  - apply links_safe, links_periodic.
  - apply links_safe, links_onManagers.
  - apply links_safe. frame.
  - apply links_safe. frame.
  - apply links_safe. frame.
  - apply links_safe. unfold SaveActiveConfigsToDisk. destruct (coolingDown _ _); [reflexivity|frame].
  - apply links_safe. unfold LoadActiveConfigsFromDisk. cbv zeta. etrans; [|apply links_files].
    destruct (_ ≫= _); [apply links_load|reflexivity].
  - apply links_safe, links_load.
  - apply links_safe. revert H. unfold SaveMetadataToDisk. destruct (coolingDown _ _); [intros [= <-]; reflexivity|]. cbv zeta.
    destruct (WriteMetadataToProto _ _ _); [intros [= <-]; frame|]. intros (s1 & _ & H)%bind_Some.
    apply bind_Some in H as (s2 & _ & [= <-]). frame.
  - apply links_safe. unfold LoadMetadataFromDisk. cbv zeta. etrans; [|apply links_files].
    destruct (_ ≫= _); [apply links_metadata|reflexivity].
  - apply links_safe, links_metadata.
Qed.

(** C6: Whatever the history, a pull for a configuration asks its current manager for the uids, and nobody is asked for a
    configuration that was removed or rejected: a manager registers itself before the one it replaces is destroyed, but
    the old one takes only its own registration with it. *)
Theorem pulls_ask_current_manager ops shared timeBaseNs q e :
  mPullUidProviders (sh_pullers shared) = ∅ → runOps lib ops (StatsLogProcessor_new shared timeBaseNs) = Some q →
  ∀ key, match managerOf key q with
         | None => mPullUidProviders (sh_pullers (lp_shared q)) !! key = None
         | Some m => ∃ provider, mPullUidProviders (sh_pullers (lp_shared q)) !! key = Some provider ∧
             providerAlive (pullWorld e q) provider = true ∧
             ∀ atomId, Pullers.getPullAtomUids (pullWorld e q) provider atomId = mo_getPullAtomUids atomId m
         end.
Proof.
  intros Hempty H. assert (Hl : linksOk q).
  { apply (ops_rel lib safe (λ _, false)) in H; [|intros op p0 q0 _; apply safe_op|by apply Forall_true].
    apply H. constructor; unfold providers, addresses; cbn; rewrite ?fmap_empty; [exact Hempty|by intros key a|by intros key key' a]. }
  intros key. change (mPullUidProviders _) with (providers q). rewrite (ln_same _ Hl). unfold addresses, managerOf.
  rewrite lookup_fmap. destruct (mMetricsManagers q !! key) as [x|] eqn:Ex; [|done]. cbn. exists (md_address x). split; [done|].
  assert (Hin : x ∈ (snd <$> map_to_list (mMetricsManagers q))).
  { apply list_elem_of_fmap. exists (key, x). split; [done|]. by apply elem_of_map_to_list. }
  split.
  - apply existsb_exists. exists x. split; [by apply list_elem_of_In|apply Z.eqb_refl].
  - intros atomId. destruct (find _ _) as [y|] eqn:Ef.
    + apply find_some in Ef as [Hy Ea%Z.eqb_eq]. apply list_elem_of_In, list_elem_of_fmap in Hy as ([key' y'] & -> & Hy%elem_of_map_to_list).
      cbn in *. assert (key' = key) as ->; [|congruence].
      eapply (ln_distinct _ Hl key' key (md_address x)); unfold addresses; rewrite lookup_fmap; [by rewrite Hy, <- Ea|by rewrite Ex].
    + exfalso. apply list_elem_of_In in Hin. apply (find_none _ _ Ef) in Hin. by rewrite Z.eqb_refl in Hin.
Qed.
End invariants.

(** ** An example: one configuration is replaced, the other removed *)

#[local] Existing Instance exampleOps.

Definition replaceHistory : list (ProcessorOp (Config := ManagerConfig)) :=
  exampleInstall ++ [OpConfigUpdated (exampleEnv 3) 3 (1000, 7) exampleConfig false; OpConfigRemoved (exampleEnv 4) (1000, 8)].

Lemma pulls_ask_current_manager_witness :
  ∃ q m provider, runOps exampleLibrary replaceHistory exampleStart = Some q ∧ managerOf (1000, 7) q = Some m ∧
    mPullUidProviders (sh_pullers (lp_shared q)) !! (1000, 7) = Some provider ∧
    Pullers.getPullAtomUids (pullWorld (exampleEnv 5) q) provider 30 = mo_getPullAtomUids 30 m ∧
    mPullUidProviders (sh_pullers (lp_shared q)) !! (1000, 8) = None.
Proof.
  assert (El : (λ q, (from_option (λ _, true) false (managerOf (1000, 7) q), from_option (λ _, true) false (managerOf (1000, 8) q))) <$>
    runOps exampleLibrary replaceHistory exampleStart = Some (true, false)) by (vm_compute; reflexivity).
  destruct (runOps exampleLibrary replaceHistory exampleStart) as [q|] eqn:E; [|discriminate El]. injection El as E7 E8.
  pose proof (pulls_ask_current_manager exampleLibrary replaceHistory exampleShared 0 q (exampleEnv 5) eq_refl E) as H.
  pose proof (H (1000, 7)) as H7. pose proof (H (1000, 8)) as H8.
  destruct (managerOf (1000, 7) q) as [m|] eqn:Em; [|discriminate E7]. destruct (managerOf (1000, 8) q); [discriminate E8|].
  destruct H7 as (provider & Hp & _ & Hu). exists q, m, provider. split; [reflexivity|]. split; [exact Em|].
  split; [exact Hp|]. split; [apply Hu|exact H8].
Defined.
