(* ===== verification/ProcessorData.v ===== *)
(** * What becomes of the data of a configuration

    Data of a configuration that is updated or removed go to disk and are delivered with the next report;
    a reset within the cool down of such writes loses them. *)
From Stdlib Require Import Ascii.
From S2P Require Import Prelude Hash UMap FieldValue DimensionKey Matchers LogEvent UidMap MatcherTrackers.
From S2P Require Import Conditions Alarms Anomaly State MetricProducer CountMetric MetricShared AnyMetric.
From S2P Require Import Sorting Storage StorageFacts Pullers MetricsConfig MetricsManager ManagerOps TrainEvents.
From S2P Require Import LogProcessor LogProcessorFacts MetricsManagerFacts TrainEventsFacts ProcessorEvents.

(** ** Files *)

Lemma fileContent_overwrite name buffer d :
  fileContent name (overwriteFile name buffer d) = (λ c, buffer ++ drop (length buffer) c) <$> fileContent name d.
Proof.
  induction d as [|[n c] d IH]; [done|]. cbn. destruct (String.eqb n name) eqn:E; cbn [fileContent fst snd].
  - by rewrite E.
  - by rewrite E.
Qed.

Lemma fileContent_create name d : fileContent name (createFile name d) = Some (default [] (fileContent name d)).
Proof.
  unfold createFile. destruct (fileContent name d) eqn:E; [by rewrite E|]. cbn.
  induction d as [|[n c] d IH]; cbn in *; [by rewrite String.eqb_refl|]. destruct (String.eqb n name); [done|by apply IH].
Qed.

(** A file of a directory that others were deleted from is gone or as it was. *)
Definition shrunk (d d' : Directory) : Prop := ∀ name, fileContent name d' = None ∨ fileContent name d' = fileContent name d.

#[local] Instance shrunk_preorder : PreOrder shrunk.
Proof. split; [by right|]. intros d1 d2 d3 H1 H2 name. destruct (H2 name) as [?| ->]; [by left|apply H1]. Qed.

Lemma shrunk_delete name d : shrunk d (deleteFile name d).
Proof.
  intros n. destruct (decide (name = n)) as [->|Hne]; [left|right; by apply fileContent_delete].
  induction d as [|[m c] d IH]; [done|]. cbn. destruct (String.eqb m n) eqn:E; cbn; [exact IH|by rewrite E].
Qed.

Lemma shrunk_collect now only entries : ∀ d files d',
  collectFiles now only entries d = Some (files, d') → shrunk d d'.
Proof.
  induction entries as [|[name c] entries IH]; intros d files d'; cbn [collectFiles]; [intros [= _ <-]; reflexivity|].
  intros (r & _ & H)%bind_Some. destruct r as [[[t h] file]|]; [|by eapply IH].
  destruct (fileTooOld _ _); [etrans; [apply (shrunk_delete file)|by eapply IH]|].
  apply bind_Some in H as ([files1 d1] & E & [= _ <-]). by eapply IH.
Qed.

Lemma shrunk_trim sort now only d d' : trimToFit sort now only d = Some d' → shrunk d d'.
Proof.
  unfold trimToFit. intros ([files d1] & E%shrunk_collect & [= <-])%bind_Some. etrans; [exact E|].
  apply (foldl_rel shrunk). intros d2 name. apply shrunk_delete.
Qed.

(** A file that was written and not trimmed: the buffer, and what a longer file of that name had after it. *)
Lemma writeFile_content sort name buffer now k k' c :
  writeFile sort false name buffer now k = Some k' → fileContent name (dataDir k') = Some c →
  c = buffer ++ drop (length buffer) (default [] (fileContent name (dataDir k))).
Proof.
  unfold writeFile. cbn [dataDir serviceDir]. intros (s & _ & H)%bind_Some Hc.
  apply bind_Some in H as (a & Ha%shrunk_trim & [= <-]). cbn [dataDir] in Hc. rewrite fileContent_overwrite in Hc.
  destruct (Ha name) as [E|E]; rewrite E in Hc; [done|]. rewrite fileContent_create in Hc. by injection Hc as <-.
Qed.

(** ** Names *)

Lemma last_underscore a : ∀ b c c',
  noUnderscore c = true → noUnderscore c' = true → (a ++ String "_"%char c)%string = (b ++ String "_"%char c')%string → c = c'.
Proof.
  assert (Hno : ∀ b c, noUnderscore (b ++ String "_"%char c)%string = false).
  { induction b as [|x b IH]; intros c; [done|]. rewrite string_cons_app. cbn [noUnderscore]. by rewrite IH, andb_false_r. }
  induction a as [|x a IH]; intros [|y b] c c' Hc Hc' E; rewrite ?string_cons_app, ?string_nil_app in E; injection E as E.
  - exact E.
  - subst c. by rewrite Hno in Hc.
  - subst c'. by rewrite Hno in Hc'.
  - by eapply IH.
Qed.

Lemma showZ_not_history n : showZ n ≠ "history"%string.
Proof.
  unfold showZ. destruct (Z.ltb_spec n 0) as [|Hn]; [discriminate|].
  assert (H : ∀ fuel m acc, 0 <= m → showDigits fuel m acc ≠ "history"%string).
  { assert (Hd : ∀ d s, 0 <= d < 10 → String (digitChar d) s ≠ "history"%string) by (intros d s H; digit_case H; discriminate).
    induction fuel as [|fuel IH]; intros m acc Hm; cbn [showDigits]; [apply Hd, Z.mod_pos_bound; lia|].
    destruct (Z.ltb_spec m 10); [apply Hd; lia|]. apply IH, Z.div_pos; lia. }
  by apply H.
Qed.

Lemma dataFile_not_history sec uid id n : getDataFileName sec uid id ≠ (n ++ "_history")%string.
Proof.
  unfold getDataFileName. intros E.
  replace (showZ sec ++ "_" ++ showZ uid ++ "_" ++ showZ id)%string
    with ((showZ sec ++ "_" ++ showZ uid) ++ String "_"%char (showZ id))%string in E by (by rewrite !string_app_assoc).
  change "_history"%string with (String "_"%char "history") in E. apply last_underscore in E; [|apply showZ_facts|done].
  by apply showZ_not_history in E.
Qed.

Lemma dataFile_reported sec (key : ConfigKey) isAdb :
  int64 sec → sec ≠ -1 → int32 key.1 → int64 key.2 →
  reportFile key isAdb (getDataFileName sec key.1 key.2) = Some (mkFileName sec key.1 key.2 false).
Proof.
  intros Hs Hne Hu Hi. assert (E : getDataFileName sec key.1 key.2 = getFullFileName (mkFileName sec key.1 key.2 false)).
  { unfold getDataFileName, getFullFileName. cbn [mTimestampSec fn_uid mConfigId mIsHistory]. by rewrite string_app_empty. }
  unfold reportFile, parsedName. rewrite E, parse_full by done. cbn [mTimestampSec]. rewrite (proj2 (Z.eqb_neq _ _)) by done.
  cbn [mIsHistory fn_uid mConfigId andb orb]. rewrite !Z.eqb_refl. cbn [negb orb]. unfold getFullFileName. by rewrite hidden_number.
Qed.

Lemma fileContent_In name d c : fileContent name d = Some c → name ∈ d.*1.
Proof.
  induction d as [|[n c'] d IH]; [done|]. cbn [fileContent]. rewrite fmap_cons.
  destruct (String.eqb_spec n name) as [->|]; [left|right; by apply IH].
Qed.

(** A report on disk is among those that are read, whether they are erased, kept or kept as histories. *)
Lemma append_delivers key erase isAdb name f c entries : ∀ d,
  reportFile key isAdb name = Some f → (∀ n, name ≠ (n ++ "_history")%string) →
  name ∈ entries.*1 → fileContent name d = Some c → c ∈ (appendReports key erase isAdb entries d).1.
Proof.
  induction entries as [|[n c'] entries IH]; intros d Hr Hh Hin Hc; [by apply not_elem_of_nil in Hin|].
  rewrite fmap_cons in Hin. cbn [appendReports]. destruct (decide (n = name)) as [->|Hne].
  - rewrite Hr. cbv zeta. rewrite Hc. destruct (appendReports _ _ _ _ _) as [reports d']. left.
  - apply elem_of_cons in Hin as [Hin|Hin]; [by symmetry in Hin|]. destruct (reportFile key isAdb n) as [g|]; [|by apply IH].
    cbv zeta. match goal with |- context [appendReports _ _ _ entries ?d'] => assert (Hc' : fileContent name d' = Some c) end.
    { destruct erase; [by rewrite fileContent_delete|]. destruct (_ && _); [|done]. by rewrite rename_content. }
    specialize (IH _ Hr Hh Hin Hc'). destruct (appendReports _ _ _ _ _) as [reports d']. destruct (fileContent n d); [by right|done].
Qed.

Section data.
Context {M Config : Type} `{Hops : ManagerOps M Config} (lib : Library Config).
Implicit Types p q : StatsLogProcessor M.

(** ** The disk *)

Lemma disk_register key x p : mDisk (registerManager key x p) = mDisk p.
Proof using. unfold registerManager. by destruct (registerReceivers _ _ _). Qed.
Lemma disk_erase key p : mDisk (eraseManager key p) = mDisk p.
Proof using. unfold eraseManager. by destruct (_ !! key). Qed.

Lemma disk_configUpdated e t key config modular p q :
  OnConfigUpdatedLocked e t key config modular p = Some q → mDisk q = mDisk p.
Proof using.
  assert (Hr : replaceConfig e t key config p = Some q → mDisk q = mDisk p).
  { unfold replaceConfig. destruct (mo_new _ _ _ _ _ _ _) as [m| |]; [|intros [= <-]; by rewrite disk_erase|done].
    cbv zeta. set (x := mkManaged _ _). destruct (negb _); intros [= <-].
    - rewrite disk_erase. change (mDisk (destroyManager key x ?r)) with (mDisk r). by rewrite disk_register.
    - change (mDisk (set_managers ?ms ?r)) with (mDisk r). rewrite disk_erase. change (mDisk (on_shared ?f ?r)) with (mDisk r).
      by rewrite disk_register. }
  unfold OnConfigUpdatedLocked. destruct (_ !! key) as [x|]; [destruct modular|]; [|exact Hr..].
  unfold updateConfigInPlace. destruct (mo_updateConfig _ _ _ _ _ _) as [m| |]; [|intros [= <-]; by rewrite disk_erase|done].
  cbv zeta. destruct (registerReceivers _ _ _) as [calls pm]. intros [= <-]. destruct (mo_isConfigValid m); [done|]. by rewrite disk_erase.
Qed.

(** The report that a write of a configuration puts on disk. *)
Definition savedReport (e : Env) (key : ConfigKey) (t : Z) (reason : DumpReportReason) p (m : M) : list Z :=
  lib_writeReport lib (configReport lib e key m t true true reason NO_TIME_CONSTRAINTS p).1.

Lemma writeConfig_disk e key t reason p q m c :
  writeConfigToDisk lib e key t reason NO_TIME_CONSTRAINTS p = Some q →
  managerOf key p = Some m → mo_shouldWriteToDisk m = true →
  let name := getDataFileName (e_wallSec e) key.1 key.2 in
  fileContent name (dataDir (mDisk q)) = Some c →
  c = savedReport e key t reason p m ++
      drop (length (savedReport e key t reason p m)) (default [] (fileContent name (dataDir (mDisk p)))).
Proof using.
  intros H Hm Hw name Hc. unfold writeConfigToDisk in H. rewrite Hm, Hw in H. cbn [negb] in H.
  apply bind_Some in H as ([buffer p1] & E1 & H). apply bind_Some in H as (p2 & E2 & [= <-]).
  unfold onConfigMetricsReportLocked in E1. rewrite Hm in E1.
  assert (Hd : mDisk (configReport lib e key m t true true reason NO_TIME_CONSTRAINTS p).2 = mDisk p).
  { unfold configReport. destruct (mo_onDumpReport _ _ _ _ _ _ _) as [[? ?] ?]. destruct (0 <? _)%nat; [|done].
    by destruct (appendUidMap _ _ _ _ _ _ _ _) as [[[? ?] ?] ?]. }
  unfold savedReport. destruct (configReport _ _ _ _ _ _ _ _ _ _) as [report p0]. cbn [fst snd andb negb] in *.
  apply bind_Some in E1 as (p0' & [= <-] & [= <- <-]). cbn [default] in E2.
  unfold writeToDisk in E2. apply bind_Some in E2 as (k & Ek & [= <-]).
  change (fileContent name (dataDir k) = Some c) in Hc. rewrite <- Hd. by eapply writeFile_content.
Qed.

Lemma dump_delivers e key t include erase reason latency q reports q' name f c :
  onDumpReport lib e key t include erase reason latency q = Some (reports, q') →
  (∀ isAdb, reportFile key isAdb name = Some f) → (∀ n, name ≠ (n ++ "_history")%string) →
  fileContent name (dataDir (mDisk q)) = Some c → c ∈ reports.
Proof using.
  intros H Hr Hh Hc. unfold onDumpReport in H. set (er := erase && _) in H. set (isAdb := match reason with ADB_DUMP => true | _ => false end) in H.
  pose proof (append_delivers key er isAdb name f c (dataDir (mDisk q)) (dataDir (mDisk q)) (Hr _) Hh (fileContent_In _ _ _ Hc) Hc) as Hin.
  unfold appendConfigMetricsReport in H. destruct (appendReports _ _ _ _ _) as [reports0 d]. cbn [fst] in Hin. cbv zeta in H.
  destruct (managerOf key _) in H; [|by injection H as <- <-].
  apply bind_Some in H as ([buffer p1] & _ & [= <- <-]). apply elem_of_app. by left.
Qed.

(** C5: The data of a configuration that is removed or updated are not lost: they are written to disk, and unless the trimming of
    the directory removed the file, the next dump of the configuration delivers them.  A file that was there under
    the same name, from a write in the same second, is overwritten, and what it had beyond the new report remains. *)
Theorem replaced_data_delivered e key p q m e' t' include erase reason latency reports q' :
  int64 (e_wallSec e) → e_wallSec e ≠ -1 → int32 key.1 → int64 key.2 →
  managerOf key p = Some m → mo_shouldWriteToDisk m = true →
  let name := getDataFileName (e_wallSec e) key.1 key.2 in
  let onDisk report := report ++ drop (length report) (default [] (fileContent name (dataDir (mDisk p)))) in
  is_Some (fileContent name (dataDir (mDisk q))) →
  onDumpReport lib e' key t' include erase reason latency q = Some (reports, q') →
  (processor_OnConfigRemoved lib e key p = Some q → onDisk (savedReport e key (e_elapsed e) CONFIG_REMOVED p m) ∈ reports) ∧
  (∀ t config modular, processor_OnConfigUpdated lib e t key config modular p = Some q →
     onDisk (savedReport e key t CONFIG_UPDATED p m) ∈ reports).
Proof using.
  intros Hs Hne Hu Hi Hm Hw name onDisk [c Hc] Hdump.
  assert (Hin : c ∈ reports).
  { eapply dump_delivers; [exact Hdump| | |exact Hc]; [intros isAdb; by apply dataFile_reported|apply dataFile_not_history]. }
  assert (Hdisk : ∀ t r p1, writeConfigToDisk lib e key t r NO_TIME_CONSTRAINTS p = Some p1 → mDisk q = mDisk p1 →
    onDisk (savedReport e key t r p m) ∈ reports).
  { intros t r p1 E1 E2. rewrite E2 in Hc. by rewrite (writeConfig_disk _ _ _ _ _ _ _ _ E1 Hm Hw Hc) in Hin. }
  split.
  - intros (p1 & E & [= Eq])%bind_Some. unfold managerOf in Hm. destruct (mMetricsManagers p !! key); [|done].
    apply bind_Some in E as (p2 & E2 & [= <-]). apply (Hdisk _ _ _ E2). rewrite <- Eq.
    change (mDisk p2) with (mDisk (on_shared (λ s, s) p2)). case_bool_decide; destruct (hasConfigOf _ _); apply (disk_erase key p2).
  - intros t config modular (p1 & E1 & E2%disk_configUpdated)%bind_Some. by apply (Hdisk _ _ _ E1).
Qed.

(** ** Resets *)

(** A manager that was made from scratch. *)
Definition madeFresh (e : Env) (t timeBaseNs : Z) (key : ConfigKey) (config : Config) (m : M) : Prop :=
  ∃ w fresh w' m0, mo_new w fresh key config timeBaseNs t (e_wallNs e) = Done m0 ∧ m = mo_refreshTtl t (mo_init w' m0).

Lemma managerOf_erase key key' p : managerOf key' (eraseManager key p) = if bool_decide (key' = key) then None else managerOf key' p.
Proof using.
  assert (E : mMetricsManagers (eraseManager key p) = delete key (mMetricsManagers p)).
  { unfold eraseManager. destruct (mMetricsManagers p !! key) eqn:E; [done|]. symmetry. by apply delete_id. }
  unfold managerOf. rewrite E. case_bool_decide as H; [subst; by rewrite lookup_delete_eq|by rewrite lookup_delete_ne].
Qed.

Lemma managerOf_register key x key' p : managerOf key' (registerManager key x p) = managerOf key' p.
Proof using. unfold registerManager. by destruct (registerReceivers _ _ _). Qed.

Lemma base_erase key p : lp_timeBaseNs (eraseManager key p) = lp_timeBaseNs p.
Proof using. unfold eraseManager. by destruct (_ !! key). Qed.
Lemma base_register key x p : lp_timeBaseNs (registerManager key x p) = lp_timeBaseNs p.
Proof using. unfold registerManager. by destruct (registerReceivers _ _ _). Qed.

(** A step of a reset: the other managers stay, the one of the key is new or gone. *)
Record resetTo (e : Env) (t : Z) (key : ConfigKey) (config : Config) p q : Prop := {
  rt_base : lp_timeBaseNs q = lp_timeBaseNs p;
  rt_other : ∀ key', key' ≠ key → managerOf key' q = managerOf key' p;
  rt_fresh : managerOf key q = None ∨ ∃ m, managerOf key q = Some m ∧ madeFresh e t (lp_timeBaseNs p) key config m
}.

Lemma replace_managers e t key config p q : replaceConfig e t key config p = Some q → resetTo e t key config p q.
Proof using.
  assert (Herase : ∀ r, lp_timeBaseNs r = lp_timeBaseNs p → (∀ key', managerOf key' r = managerOf key' p) →
    resetTo e t key config p (eraseManager key r)).
  { intros r Hb Hr. constructor; [by rewrite base_erase| |]; [intros key' Hne|left]; rewrite managerOf_erase.
    - by rewrite bool_decide_false.
    - by rewrite bool_decide_true. }
  unfold replaceConfig. destruct (mo_new _ _ _ _ _ _ _) as [m| |] eqn:En; [|intros [= <-]; by apply Herase|done].
  cbv zeta. set (x := mkManaged _ _). destruct (negb _); intros [= <-].
  - apply Herase; [exact (base_register key x _)|]. intros key'. exact (managerOf_register key x key' _).
  - set (p1 := registerManager key x _). set (p2 := on_shared _ p1). constructor; [exact (eq_trans (base_erase key p2) (base_register key x _))| |].
    + intros key' Hne. unfold managerOf at 1. cbn [mMetricsManagers set_managers]. rewrite lookup_insert_ne by done.
      fold (managerOf key' (eraseManager key p2)). rewrite managerOf_erase, bool_decide_false by done.
      exact (managerOf_register key x key' _).
    + right. unfold managerOf at 1. cbn [mMetricsManagers set_managers]. rewrite lookup_insert_eq. eexists. split; [done|].
      by eexists _, _, _, m.
Qed.

(** The configuration of a key on disk. *)
Definition configOnDisk (key : ConfigKey) (k : Disk) : option Config :=
  content ← readConfigFromDisk key (serviceDir k); lib_parseConfig lib content.

Lemma resetConfig_step e t key p q :
  resetConfig lib e t key p = Some q →
  mDisk q = mDisk p ∧ lp_timeBaseNs q = lp_timeBaseNs p ∧ (∀ key', key' ≠ key → managerOf key' q = managerOf key' p) ∧
  ∀ config, configOnDisk key (mDisk p) = Some config → resetTo e t key config p q.
Proof using.
  unfold resetConfig. fold (configOnDisk key (mDisk p)). destruct (configOnDisk key (mDisk p)) as [config|].
  - intros H. assert (Hr : resetTo e t key config p q).
    { apply replace_managers. unfold OnConfigUpdatedLocked in H. by destruct (_ !! key). }
    split; [by eapply disk_configUpdated|]. split; [apply Hr|]. split; [apply Hr|]. by intros ? [= <-].
  - intros [= <-]. split; [by destruct (managerOf key p)|]. split; [by destruct (managerOf key p)|]. split; [|done].
    intros key' Hne. destruct (managerOf key p); [|done]. by rewrite managerOf_set, bool_decide_false.
Qed.

Lemma resetConfigs_fresh e t key config keys : ∀ p q,
  NoDup keys → key ∈ keys → configOnDisk key (mDisk p) = Some config → resetConfigsLocked lib e t keys p = Some q →
  mDisk q = mDisk p ∧ (managerOf key q = None ∨ ∃ m, managerOf key q = Some m ∧ madeFresh e t (lp_timeBaseNs p) key config m).
Proof using.
  unfold resetConfigsLocked, foldKeys. assert (Hnone : ∀ ks, foldl (λ r k, p ← r; resetConfig lib e t k p) None ks = None) by (by induction ks).
  assert (Hrest : ∀ ks p q, key ∉ ks → foldl (λ r k, p ← r; resetConfig lib e t k p) (Some p) ks = Some q →
    mDisk q = mDisk p ∧ managerOf key q = managerOf key p).
  { induction ks as [|k ks IH]; intros p q Hk H; cbn [foldl] in H; [by injection H as <-|]. cbn [mbind option_bind] in H.
    apply not_elem_of_cons in Hk as [Hne Hk]. destruct (resetConfig lib e t k p) as [p1|] eqn:E; [|by rewrite Hnone in H].
    apply resetConfig_step in E as (E1 & _ & E2 & _). apply IH in H as [-> ->]; [|done]. by rewrite E2. }
  induction keys as [|k keys IH]; intros p q Hnd Hin Hcfg H; [by apply not_elem_of_nil in Hin|].
  apply NoDup_cons in Hnd as [Hk Hnd]. cbn [foldl mbind option_bind] in H.
  destruct (resetConfig lib e t k p) as [p1|] eqn:E; [|by rewrite Hnone in H]. apply resetConfig_step in E as (E1 & Eb & E2 & Ef).
  destruct (decide (key = k)) as [<-|Hne].
  - apply Hrest in H as [-> ->]; [|done]. split; [done|]. apply Ef. done.
  - apply elem_of_cons in Hin as [?|Hin]; [done|]. destruct (IH p1 q Hnd Hin) as [H1 H2]; [by rewrite E1|done|].
    rewrite H1, <- Eb. done.
Qed.

Lemma expiredKeys_nodup t p : NoDup (expiredKeys t p).
Proof using.
  unfold expiredKeys. pose proof (NoDup_fst_map_to_list (mMetricsManagers p)) as H. revert H.
  induction (map_to_list (mMetricsManagers p)) as [|kv l IH]; [done|]. rewrite fmap_cons. intros [H1 H2]%NoDup_cons.
  cbn [List.filter]. destruct (negb _); [|by apply IH]. rewrite fmap_cons. apply NoDup_cons. split; [|by apply IH].
  intros (kv' & E & [Hin _]%list_elem_of_In%filter_In)%list_elem_of_fmap. apply H1. rewrite E.
  apply list_elem_of_fmap_2. by apply list_elem_of_In.
Qed.

(** C40: A configuration whose time to live is over while statsd wrote data to disk less than five seconds ago loses its data:
    nothing is written, and its manager is replaced by a new one, in which nothing depends on the old one. *)
Theorem ttl_reset_loses_data e t key config p q :
  key ∈ expiredKeys t p → configOnDisk key (mDisk p) = Some config →
  0 <= mLastWriteTimeNs (lp_times p) <= e_elapsed e → e_elapsed e < mLastWriteTimeNs (lp_times p) + 5 * NS_PER_SEC →
  e_elapsed e < 2 ^ 63 → resetIfConfigTtlExpiredLocked lib e t p = Some q →
  mDisk q = mDisk p ∧ (managerOf key q = None ∨ ∃ m, managerOf key q = Some m ∧ madeFresh e t (lp_timeBaseNs p) key config m).
Proof using.
  intros Hin Hcfg Hlast Hrecent Hmax H.
  assert (Hcool : coolingDown (e_elapsed e) (mLastWriteTimeNs (lp_times p)) = true).
  { unfold coolingDown, WRITE_DATA_COOL_DOWN_SEC, NS_PER_SEC in *. unfold u64. rewrite !Z.mod_small by lia. by apply Z.ltb_lt. }
  unfold resetIfConfigTtlExpiredLocked in H. pose proof (expiredKeys_nodup t p) as Hnd.
  destruct (expiredKeys t p) as [|k keys]; [by apply not_elem_of_nil in Hin|]. unfold WriteDataToDisk in H. rewrite Hcool in H.
  cbn [mbind option_bind] in H. by eapply resetConfigs_fresh.
Qed.
End data.

(** ** Examples *)

#[local] Existing Instance exampleOps.

Definition removedExample : option (StatsLogProcessor MetricsManager) :=
  p ← exampleInstalled; processor_OnConfigRemoved exampleLibrary (exampleEnv 10) (1000, 7) p.

(** A configuration is removed at time 10; a dump delivers the report of that time. *)
Lemma replaced_data_delivered_witness :
  ∃ q reports q', removedExample = Some q ∧
    onDumpReport exampleLibrary (exampleEnv 20) (1000, 7) 20 true true GET_DATA_CALLED FAST q = Some (reports, q') ∧
    [10] ∈ reports.
Proof.
  assert (El : (p ← exampleInstalled; q ← removedExample; m ← managerOf (1000, 7) p;
      r ← onDumpReport exampleLibrary (exampleEnv 20) (1000, 7) 20 true true GET_DATA_CALLED FAST q;
      Some (mo_shouldWriteToDisk m, fileContent "1000_1000_7" (dataDir (mDisk q)), dataDir (mDisk p),
            savedReport exampleLibrary (exampleEnv 10) (1000, 7) 10 CONFIG_REMOVED p m))
    = Some (true, Some [10], [], [10])) by (vm_compute; reflexivity).
  unfold removedExample in *. destruct exampleInstalled as [p|]; [|discriminate El]. cbn [mbind option_bind] in *.
  destruct (processor_OnConfigRemoved _ _ _ p) as [q|] eqn:Eq; [|discriminate El]. cbn [mbind option_bind] in El.
  destruct (managerOf (1000, 7) p) as [m|] eqn:Em; [|discriminate El]. cbn [mbind option_bind] in El.
  destruct (onDumpReport _ _ _ _ _ _ _ _ q) as [[reports q']|] eqn:Ed; [|discriminate El].
  pose proof (f_equal (λ o, default [] (snd <$> o)) El) as Hs. cbn [fmap option_fmap option_map snd default] in Hs.
  change (savedReport exampleLibrary (exampleEnv 10) (1000, 7) 10 CONFIG_REMOVED p m = [10]) in Hs.
  injection El as Hw Hc Hd _.
  exists q, reports, q'. split; [reflexivity|]. split; [exact Ed|].
  destruct (replaced_data_delivered exampleLibrary (exampleEnv 10) (1000, 7) p q m (exampleEnv 20) 20 true true GET_DATA_CALLED FAST
    reports q') as [H _]; [vm_compute; intuition congruence|discriminate|vm_compute; intuition congruence..|exact Em|exact Hw| |exact Ed|].
  - exists [10]. exact Hc.
  - specialize (H Eq). cbv zeta in H. rewrite Hd in H. change (e_elapsed (exampleEnv 10)) with 10 in H.
    rewrite Hs in H. exact H.
Defined.

(** A configuration that lives for a second; it is on disk. *)
Definition shortConfig : ManagerConfig :=
  mkManagerConfig exampleStatsdConfig (Some 1) ["AID_ROOT"%string] [] [] [] false false false false.
Definition resetLibrary : Library ManagerConfig :=
  mkLibrary ManagerConfig exampleHardCoded (λ id v, [id; v]) Some (λ uid, uid `div` 100000) (λ _ _ _, true)
    (insertionSort file_ltb) id (λ s, Z.of_nat (String.length s)) 20 (λ r, [rp_currentReportElapsedNs r]) (λ _, Some shortConfig)
    (λ _, []) (λ _, None) (λ _, []) (λ _, None).
Definition resetStart : StatsLogProcessor MetricsManager :=
  StatsLogProcessor_new (mkShared UidMap_new StateManager_new (StatsPullerManager_new 10051)
    (mkDisk [("990_1000_7"%string, [1])] [] []) None None) 0.

(** The data were written to disk, and one second later its time is over. *)
Definition resetReady : option (StatsLogProcessor MetricsManager) :=
  runOps resetLibrary [OpConfigUpdated (exampleEnv 1) 1 (1000, 7) shortConfig true;
    OpWriteData (exampleEnv (9 * NS_PER_SEC)) DEVICE_SHUTDOWN FAST (9 * NS_PER_SEC)] resetStart.

Lemma ttl_reset_loses_data_witness :
  ∃ p q m, resetReady = Some p ∧
    resetIfConfigTtlExpiredLocked resetLibrary (exampleEnv (10 * NS_PER_SEC)) (10 * NS_PER_SEC) p = Some q ∧
    dataDir (mDisk q) = [("1009_1000_7"%string, [9 * NS_PER_SEC])] ∧
    managerOf (1000, 7) q = Some m ∧ madeFresh (exampleEnv (10 * NS_PER_SEC)) (10 * NS_PER_SEC) 0 (1000, 7) shortConfig m.
Proof.
  assert (El : (p ← resetReady; q ← resetIfConfigTtlExpiredLocked resetLibrary (exampleEnv (10 * NS_PER_SEC)) (10 * NS_PER_SEC) p;
      m ← managerOf (1000, 7) q;
      Some (expiredKeys (10 * NS_PER_SEC) p, mLastWriteTimeNs (lp_times p),
            dataDir (mDisk p), readConfigFromDisk (1000, 7) (serviceDir (mDisk p)), lp_timeBaseNs p))
    = Some ([(1000, 7)], 9 * NS_PER_SEC, [("1009_1000_7"%string, [9 * NS_PER_SEC])], Some [1], 0)) by (vm_compute; reflexivity).
  apply bind_Some in El as (p & Ep & El). apply bind_Some in El as (q & Eq & El). apply bind_Some in El as (m & Em & El).
  injection El as Hx Hlast Hd Hcfg Hbase.
  destruct (ttl_reset_loses_data resetLibrary (exampleEnv (10 * NS_PER_SEC)) (10 * NS_PER_SEC) (1000, 7) shortConfig p q)
    as [Hdisk Hm]; [rewrite Hx; left|unfold configOnDisk; rewrite Hcfg; reflexivity|rewrite Hlast; vm_compute; intuition congruence|rewrite Hlast; reflexivity|
        reflexivity|exact Eq|].
  exists p, q, m. split; [exact Ep|]. split; [exact Eq|]. split; [by rewrite Hdisk|]. split; [exact Em|].
  rewrite Hbase in Hm. destruct Hm as [Hm|(m' & Hm & Hf)]; [congruence|]. rewrite Em in Hm. injection Hm as <-. exact Hf.
Defined.
