(* ===== verification/ProtoOutput.v ===== *)
(** * Values in reports (stats_log_util.cpp)

    The values of an atom and the keys of a metric are flat lists of fields, which carry their position up to
    three levels deep.  The report writes them as nested messages.

    A message of the protobuf stream is the list of what is written between its [start] and its [end].  The
    strings that go into the set [str_set] are recorded where they are inserted. *)
From Stdlib Require Import SpecFloat.
From S2P Require Import Prelude Hash FieldValue DimensionKey DimensionKeyFacts.

Inductive ProtoNode :=
  | PInt32 (field : Z) (v : Z)
  | PInt64 (field : Z) (v : Z)
  | PUint64 (field : Z) (v : Z)
  | PFloat (field : Z) (v : spec_float)
  | PString (field : Z) (s : string)
  | PBytes (field : Z) (bytes : list Z)
  | PMessage (repeated : bool) (field : Z) (nodes : list ProtoNode)
  | InsertString (s : string).

Definition DIMENSIONS_VALUE_FIELD : Z := 1.
Definition DIMENSIONS_VALUE_VALUE_STR : Z := 2.
Definition DIMENSIONS_VALUE_VALUE_INT : Z := 3.
Definition DIMENSIONS_VALUE_VALUE_LONG : Z := 4.
Definition DIMENSIONS_VALUE_VALUE_FLOAT : Z := 6.
Definition DIMENSIONS_VALUE_VALUE_TUPLE : Z := 7.
Definition DIMENSIONS_VALUE_VALUE_STR_HASH : Z := 8.
Definition DIMENSIONS_VALUE_TUPLE_VALUE : Z := 1.
Definition STATE_VALUE_ATOM_ID : Z := 1.
Definition STATE_VALUE_CONTENTS_GROUP_ID : Z := 2.
Definition STATE_VALUE_CONTENTS_VALUE : Z := 3.

(** ** The loop over the fields *)

Section tree.
Context {A N : Type} (fieldOf : A → Field) (leaf : Z → A → list N) (sub : Z → Z → Z → list N → list N).

(** What all four helpers do: [dims] is what is left from [*index] on; the result is what was written and what is
    left.  A value that lies deeper starts a message, which the same function fills. *)
Fixpoint writeTree (fuel : nat) (dims : list A) (depth prefix : Z) : option (list N * list A) :=
  match fuel with
  | O => None
  | S fuel =>
      match dims with
      | [] => Some ([], [])
      | dim :: rest =>
          let valueDepth := getDepth (fieldOf dim) in
          let valuePrefix := getPrefix (fieldOf dim) depth in
          let fieldNum := getPosAtDepth (fieldOf dim) depth in
          if 2 <? valueDepth then Some ([], dims)
          else if (depth =? valueDepth) && (valuePrefix =? prefix) then
            '(out, rest) ← writeTree fuel rest depth prefix;
            Some (leaf fieldNum dim ++ out, rest)
          else if (depth <? valueDepth) && (valuePrefix =? prefix) then
            '(inner, rest) ← writeTree fuel dims valueDepth (getPrefix (fieldOf dim) valueDepth);
            '(out, rest) ← writeTree fuel rest depth prefix;
            Some (sub depth valueDepth fieldNum inner ++ out, rest)
          else Some ([], dims)
      end
  end.

(** Each call goes deeper or consumes a value. *)
Definition treeFuel (dims : list A) : nat := 4 * length dims + 4.

Definition writeAll (dims : list A) : option (list N) := fst <$> writeTree (treeFuel dims) dims 0 0.
End tree.

(** ** Keys *)

Section keys.
(** [str_set != nullptr] *)
Context (hashStrings : bool).

(** The value of a dimension; strings are replaced by their hashes if there is a set to collect them. *)
Definition dimensionValue (v : Value) : list ProtoNode :=
  match v with
  | VINT i => [PInt32 DIMENSIONS_VALUE_VALUE_INT i]
  | VLONG i => [PInt64 DIMENSIONS_VALUE_VALUE_LONG i]
  | VFLOAT f => [PFloat DIMENSIONS_VALUE_VALUE_FLOAT f]
  | VSTRING s =>
      if hashStrings then [InsertString s; PUint64 DIMENSIONS_VALUE_VALUE_STR_HASH (Hash64_string s)]
      else [PString DIMENSIONS_VALUE_VALUE_STR s]
  | _ => []
  end.

Definition dimensionLeaf (fieldNum : Z) (dim : FieldValue) : list ProtoNode :=
  [PMessage true DIMENSIONS_VALUE_TUPLE_VALUE (PInt32 DIMENSIONS_VALUE_FIELD fieldNum :: dimensionValue (fv_value dim))].

Definition dimensionSub (depth valueDepth fieldNum : Z) (inner : list ProtoNode) : list ProtoNode :=
  [PMessage true DIMENSIONS_VALUE_TUPLE_VALUE
     [PInt32 DIMENSIONS_VALUE_FIELD fieldNum; PMessage false DIMENSIONS_VALUE_VALUE_TUPLE inner]].

Definition writeDimensionToProtoHelper (dims : list FieldValue) : option (list ProtoNode) :=
  writeAll fv_field dimensionLeaf dimensionSub dims.

Definition writeDimensionToProto (dimension : HashableDimensionKey) : option (list ProtoNode) :=
  match mValues dimension with
  | [] => Some []
  | first :: _ =>
      inner ← writeDimensionToProtoHelper (mValues dimension);
      Some [PInt32 DIMENSIONS_VALUE_FIELD (mTag (fv_field first)); PMessage false DIMENSIONS_VALUE_VALUE_TUPLE inner]
  end.

Definition leafNode (dimensionLeafField _ : Z) (dim : FieldValue) : list ProtoNode :=
  [PMessage true dimensionLeafField (dimensionValue (fv_value dim))].

(** Sub trees start no message of their own. *)
Definition writeDimensionLeafToProtoHelper (dimensionLeafField : Z) (dims : list FieldValue) : option (list ProtoNode) :=
  writeAll fv_field (leafNode dimensionLeafField) (λ _ _ _ inner, inner) dims.

Definition writeDimensionLeafNodesToProto (dimension : HashableDimensionKey) (dimensionLeafFieldId : Z)
    : option (list ProtoNode) :=
  match mValues dimension with
  | [] => Some []
  | dims => writeDimensionLeafToProtoHelper dimensionLeafFieldId dims
  end.
End keys.

Definition pathLeaf (fieldNum : Z) (_ : Matcher) : list ProtoNode :=
  [PMessage true DIMENSIONS_VALUE_TUPLE_VALUE [PInt32 DIMENSIONS_VALUE_FIELD fieldNum]].

Definition writeDimensionPathToProtoHelper (fieldMatchers : list Matcher) : option (list ProtoNode) :=
  writeAll mMatcher pathLeaf dimensionSub fieldMatchers.

Definition writeDimensionPathToProto (fieldMatchers : list Matcher) : option (list ProtoNode) :=
  match fieldMatchers with
  | [] => Some []
  | first :: _ =>
      inner ← writeDimensionPathToProtoHelper fieldMatchers;
      Some [PInt32 DIMENSIONS_VALUE_FIELD (mTag (mMatcher first)); PMessage false DIMENSIONS_VALUE_VALUE_TUPLE inner]
  end.

(** ** Atoms *)

Definition atomLeaf (fieldNum : Z) (dim : FieldValue) : list ProtoNode :=
  match fv_value dim with
  | VINT i => [PInt32 fieldNum i]
  | VLONG i => [PInt64 fieldNum i]
  | VFLOAT f => [PFloat fieldNum f]
  | VSTRING s => [PString fieldNum s]
  | VSTORAGE bytes => [PBytes fieldNum bytes]
  | _ => []
  end.

(** The position in a repeated field is left out: it follows from that of the message. *)
Definition atomSub (depth valueDepth fieldNum : Z) (inner : list ProtoNode) : list ProtoNode :=
  if valueDepth =? depth + 2 then [PMessage true fieldNum inner]
  else if valueDepth =? depth + 1 then [PMessage false fieldNum inner]
  else inner.

Definition writeFieldValueTreeToStreamHelper (dims : list FieldValue) : option (list ProtoNode) :=
  writeAll fv_field atomLeaf atomSub dims.

Definition writeFieldValueTreeToStream (tagId : Z) (values : list FieldValue) : option (list ProtoNode) :=
  inner ← writeFieldValueTreeToStreamHelper values;
  Some [PMessage false tagId inner].

Definition writeStateToProto (state : FieldValue) : list ProtoNode :=
  PInt32 STATE_VALUE_ATOM_ID (mTag (fv_field state)) ::
  match fv_value state with
  | VINT i => [PInt32 STATE_VALUE_CONTENTS_VALUE i]
  | VLONG i => [PInt64 STATE_VALUE_CONTENTS_GROUP_ID i]
  | _ => []
  end.

(** * Facts on the values in reports

    The nested messages hold every value once and in order; for the fields that events have, they are the runs of
    equal positions; the path of a metric's dimensions and the leaves of a key together give back its fields. *)

(** A shorter prefix is part of a longer one. *)
Lemma getPrefix_shorter f g d d' :
  0 <= d <= d' → d' <= 2 → getPrefix f d' = getPrefix g d' → getPrefix f d = getPrefix g d.
Proof.
  intros Hd Hd'. unfold getPrefix. destruct (Z.eqb_spec d 0); [done|]. destruct (Z.eqb_spec d' 0); [lia|].
  assert (Hcases : d = d' ∨ d = 1 ∧ d' = 2) by lia. destruct Hcases as [->|[-> ->]]; [done|].
  assert (H : ∀ h, getPath h (1 - 1) = Z.land (getPath h (2 - 1)) (Z.shiftl (-1) (8 * kMaxLogDepth))).
  { intros h. unfold getPath. change ((2 <? 1 - 1) || (1 - 1 <? 0)) with false. change ((2 <? 2 - 1) || (2 - 1 <? 0)) with false.
    cbv iota zeta. rewrite <- (Z.land_assoc (Z.land (mField h) _)). reflexivity. }
  rewrite !H. by intros ->.
Qed.

Section tree.
Context {A N : Type} (fieldOf : A → Field) (leaf : Z → A → list N) (sub : Z → Z → Z → list N → list N).

Notation write := (writeTree fieldOf leaf sub).
Definition dimDepth (a : A) : Z := getDepth (fieldOf a).
Definition dimPrefix (d : Z) (a : A) : Z := getPrefix (fieldOf a) d.

Fixpoint takeWhile (f : A → bool) (l : list A) : list A :=
  match l with [] => [] | a :: l => if f a then a :: takeWhile f l else [] end.

(** The depths that reports support. *)
Definition supported (a : A) : bool := (0 <=? dimDepth a) && (dimDepth a <=? 2).

(** A value that the call with a depth and a prefix writes. *)
Definition belongs (depth prefix : Z) (a : A) : bool :=
  (dimDepth a <=? 2) && (depth <=? dimDepth a) && (dimPrefix depth a =? prefix).

(** ** Nothing is lost *)

Context {L : Type} (leaves : list N → list L) (value : A → list L).
Hypothesis leaves_nil : leaves [] = [].
Hypothesis leaves_leaf : ∀ n a out, leaves (leaf n a ++ out) = value a ++ leaves out.
Hypothesis leaves_sub : ∀ d d' n inner out, leaves (sub d d' n inner ++ out) = leaves inner ++ leaves out.

(** A call writes all values up to the first that does not belong to it, and at least the one it was made for. *)
Lemma writeTree_spec fuel : ∀ dims depth prefix,
  (4 * length dims + Z.to_nat (3 - depth) < fuel)%nat → 0 <= depth →
  ∃ out consumed rest, write fuel dims depth prefix = Some (out, rest) ∧ dims = consumed ++ rest ∧
    leaves out = concat (value <$> consumed) ∧
    Forall (λ a, belongs depth prefix a = true) consumed ∧
    match rest with [] => True | a :: _ => belongs depth prefix a = false end.
Proof.
  induction fuel as [|fuel IH]; intros dims depth prefix Hf Hd; [lia|]. cbn [writeTree].
  destruct dims as [|dim dims']; [by exists [], [], []|]. cbv zeta.
  change (getDepth (fieldOf dim)) with (dimDepth dim). change (getPrefix (fieldOf dim) depth) with (dimPrefix depth dim).
  cbn [length] in Hf. destruct (Z.ltb_spec 2 (dimDepth dim)) as [H2|H2].
  { exists [], [], (dim :: dims'). split_and!; try done. unfold belongs. by rewrite (proj2 (Z.leb_gt _ _)). }
  assert (Hb : belongs depth prefix dim = (depth <=? dimDepth dim) && (dimPrefix depth dim =? prefix)).
  { unfold belongs. by rewrite (proj2 (Z.leb_le (dimDepth dim) 2)). }
  destruct (Z.eqb_spec depth (dimDepth dim)) as [He|He]; cbn [andb].
  - rewrite (proj2 (Z.leb_le _ _)) in Hb by lia. cbn [andb] in Hb. destruct (dimPrefix depth dim =? prefix) eqn:Ep; cbn [andb].
    + destruct (IH dims' depth prefix) as (out & consumed & rest & -> & -> & Hl & Hc & Hr); [lia|done|]. cbn [mbind option_bind].
      eexists _, (dim :: consumed), rest. split; [reflexivity|]. split; [done|]. rewrite leaves_leaf, Hl. split; [done|].
      split; [by constructor|done].
    + rewrite andb_false_r. by exists [], [], (dim :: dims').
  - destruct (Z.ltb_spec depth (dimDepth dim)) as [Hlt|Hge]; cbn [andb].
    2: { exists [], [], (dim :: dims'). split_and!; try done. by rewrite Hb, (proj2 (Z.leb_gt _ _)) by lia. }
    rewrite (proj2 (Z.leb_le _ _)) in Hb by lia. cbn [andb] in Hb. destruct (dimPrefix depth dim =? prefix) eqn:Ep;
      [|by exists [], [], (dim :: dims')].
    destruct (IH (dim :: dims') (dimDepth dim) (getPrefix (fieldOf dim) (dimDepth dim))) as (inner & c1 & r1 & -> & E1 & Hl1 & Hc1 & Hr1);
      [cbn [length]; lia|lia|]. cbn [mbind option_bind].
    destruct c1 as [|a c1]; [exfalso; cbn [app] in E1; subst r1|].
    { revert Hr1. unfold belongs. by rewrite (proj2 (Z.leb_le _ _)), Z.leb_refl, Z.eqb_refl by lia. }
    injection E1 as <- ->. rewrite length_app in Hf.
    destruct (IH r1 depth prefix) as (out & c2 & r2 & -> & -> & Hl2 & Hc2 & Hr2); [lia|done|]. cbn [mbind option_bind].
    eexists _, ((dim :: c1) ++ c2), r2. split; [reflexivity|]. split; [cbn [app]; by rewrite app_assoc|].
    rewrite leaves_sub, Hl1, Hl2, fmap_app, concat_app. split; [done|]. split; [|done]. apply Forall_app. split; [|done].
    eapply Forall_impl; [exact Hc1|]. intros b Hbel. unfold belongs in *. bool_to_prop.
    rewrite (proj2 (Z.leb_le _ _)), (proj2 (Z.leb_le _ _)) by lia. cbn [andb]. apply Z.eqb_eq.
    unfold dimPrefix in *. rewrite <- Ep. eapply getPrefix_shorter; [|exact H2|done]. lia.
Qed.

(** The whole list is written up to the first value that is too deep. *)
Lemma writeAll_leaves dims :
  ∃ out, writeAll fieldOf leaf sub dims = Some out ∧ leaves out = concat (value <$> takeWhile supported dims).
Proof.
  destruct (writeTree_spec (treeFuel dims) dims 0 0) as (out & consumed & rest & E & -> & Hl & Hc & Hr);
    [unfold treeFuel; cbn; lia|lia|].
  exists out. split; [unfold writeAll; by rewrite E|]. rewrite Hl. do 2 f_equal.
  assert (Hs : ∀ a, belongs 0 0 a = supported a).
  { intros a. unfold belongs, supported, dimPrefix, getPrefix. rewrite Z.eqb_refl, andb_true_r. apply andb_comm. }
  clear -Hc Hr Hs. induction Hc as [|a consumed Ha Hc IH]; cbn.
  - destruct rest as [|a rest]; [done|]. cbn. by rewrite <- Hs, Hr.
  - by rewrite <- Hs, Ha, <- IH.
Qed.

(** ** Runs *)

(** Events have fields at the top and, in attribution chains, two levels below it. *)
Definition flat (a : A) : bool := (dimDepth a =? 0) || (dimDepth a =? 2).

(** The fields below the top in runs with the same two upper positions. *)
Inductive Run := Top (a : A) | Chain (prefix : Z) (first : A) (others : list A).

Definition addToRuns (a : A) (runs : list Run) : list Run :=
  if dimDepth a =? 0 then Top a :: runs
  else match runs with
       | Chain prefix first others :: runs' =>
           if dimPrefix 2 a =? prefix then Chain prefix a (first :: others) :: runs' else Chain (dimPrefix 2 a) a [] :: runs
       | _ => Chain (dimPrefix 2 a) a [] :: runs
       end.
Definition runsOf (dims : list A) : list Run := foldr addToRuns [] dims.

Definition leafAt (depth : Z) (a : A) : list N := leaf (getPosAtDepth (fieldOf a) depth) a.
Definition writeRun (r : Run) : list N :=
  match r with
  | Top a => leafAt 0 a
  | Chain _ a others => sub 0 2 (getPosAtDepth (fieldOf a) 0) (concat (leafAt 2 <$> a :: others))
  end.

(** The values that continue a chain. *)
Definition continues (prefix : Z) (a : A) : bool := (dimDepth a =? 2) && (dimPrefix 2 a =? prefix).
Lemma continues_eq prefix a : continues prefix a = (dimDepth a =? 2) && (dimPrefix 2 a =? prefix).
Proof using. done. Qed.

Fixpoint dropWhile (f : A → bool) (l : list A) : list A :=
  match l with [] => [] | a :: l' => if f a then dropWhile f l' else l end.

Lemma take_dropWhile f l : takeWhile f l ++ dropWhile f l = l.
Proof using. induction l as [|a l IH]; cbn; [done|]. destruct (f a); cbn; [by rewrite IH|done]. Qed.

Lemma runsOf_chain a l :
  dimDepth a = 2 → forallb flat l = true →
  runsOf (a :: l) = Chain (dimPrefix 2 a) a (takeWhile (continues (dimPrefix 2 a)) l) :: runsOf (dropWhile (continues (dimPrefix 2 a)) l).
Proof using.
  revert a. induction l as [|b l IH]; intros a Ha Hl.
  - unfold runsOf, addToRuns. cbn. by rewrite Ha.
  - cbn [forallb] in Hl. apply andb_true_iff in Hl as [Hb Hl]. change (runsOf (a :: b :: l)) with (addToRuns a (runsOf (b :: l))).
    cbn [takeWhile dropWhile]. unfold addToRuns at 1. rewrite Ha. cbn [Z.eqb]. rewrite (continues_eq _ b). unfold flat in Hb.
    destruct (Z.eqb_spec (dimDepth b) 2) as [H2|H2]; cbn [andb].
    + rewrite (IH b H2 Hl). destruct (Z.eqb_spec (dimPrefix 2 a) (dimPrefix 2 b)) as [E|E].
      * rewrite E, Z.eqb_refl. done.
      * rewrite (proj2 (Z.eqb_neq (dimPrefix 2 b) _)) by done. by rewrite <- (IH b H2 Hl).
    + rewrite orb_false_r in Hb. unfold runsOf at 1. cbn [foldr]. unfold addToRuns at 1. by rewrite Hb.
Qed.

(** The call for a chain writes exactly its run. *)
Lemma writeTree_chain fuel : ∀ dims prefix,
  (length dims < fuel)%nat → forallb flat dims = true →
  write fuel dims 2 prefix = Some (concat (leafAt 2 <$> takeWhile (continues prefix) dims), dropWhile (continues prefix) dims).
Proof using.
  induction fuel as [|fuel IH]; intros dims prefix Hf Hl; [lia|]. cbn [writeTree]. destruct dims as [|a dims]; [done|].
  cbn [forallb length] in *. apply andb_true_iff in Hl as [Ha Hl]. cbn [takeWhile dropWhile]. rewrite (continues_eq _ a). cbv zeta.
  change (getDepth (fieldOf a)) with (dimDepth a). change (getPrefix (fieldOf a) 2) with (dimPrefix 2 a). unfold flat in Ha.
  rewrite (Z.eqb_sym 2). destruct (Z.eqb_spec (dimDepth a) 2) as [H2|H2]; cbn [andb].
  - rewrite H2. cbn [Z.ltb Z.compare]. change (2 <? 2) with false. cbn [andb]. destruct (dimPrefix 2 a =? prefix) eqn:E; cbn [andb].
    + rewrite IH by (try done; lia). cbn [mbind option_bind]. by rewrite fmap_cons.
    + done.
  - rewrite orb_false_r in Ha. apply Z.eqb_eq in Ha. rewrite Ha. done.
Qed.

Lemma forallb_dropWhile f g l : forallb f l = true → forallb f (dropWhile g l) = true.
Proof using. induction l as [|a l IH]; cbn; [done|]. intros [H1 H2]%andb_true_iff. destruct (g a); [by apply IH|]. cbn. by rewrite H1, H2. Qed.
Lemma length_dropWhile g l : (length (dropWhile g l) <= length l)%nat.
Proof using. induction l as [|a l IH]; cbn; [done|]. destruct (g a); cbn; lia. Qed.

Lemma writeTree_runs fuel : ∀ dims,
  (2 * length dims + 1 < fuel)%nat → forallb flat dims = true →
  write fuel dims 0 0 = Some (concat (writeRun <$> runsOf dims), []).
Proof using.
  induction fuel as [|fuel IH]; intros dims Hf Hl; [lia|]. destruct dims as [|a dims]; [done|]. cbn [writeTree].
  cbn [length] in *. pose proof Hl as Hall. cbn [forallb] in Hl. apply andb_true_iff in Hl as [Ha Hl]. cbv zeta.
  change (getDepth (fieldOf a)) with (dimDepth a). change (getPrefix (fieldOf a) 0) with 0. rewrite Z.eqb_refl, !andb_true_r.
  unfold flat in Ha. destruct (Z.eqb_spec (dimDepth a) 0) as [H0|H0].
  - rewrite H0. cbn [Z.ltb Z.compare Z.eqb]. rewrite IH by (try done; lia). cbn [mbind option_bind].
    unfold runsOf at 2. cbn [foldr]. unfold addToRuns at 1. by rewrite H0.
  - cbn [orb] in Ha. apply Z.eqb_eq in Ha. rewrite runsOf_chain by done. rewrite Ha. cbn [Z.ltb Z.compare Z.eqb].
    change (getPrefix (fieldOf a) 2) with (dimPrefix 2 a). rewrite writeTree_chain by (try done; cbn [length]; lia). cbn [mbind option_bind].
    cbn [dropWhile takeWhile]. rewrite !(continues_eq _ a), Ha, !Z.eqb_refl. cbn [andb].
    pose proof (length_dropWhile (continues (dimPrefix 2 a)) dims). rewrite IH; [done|lia|by apply forallb_dropWhile].
Qed.

(** The recursive helpers write the runs of the list. *)
Lemma writeAll_runs dims : forallb flat dims = true → writeAll fieldOf leaf sub dims = Some (concat (writeRun <$> runsOf dims)).
Proof using. intros Hl. unfold writeAll. rewrite writeTree_runs; [done|unfold treeFuel; lia|done]. Qed.
End tree.

(** ** Atoms *)

(** The values in a message, in order. *)
Fixpoint nodeValues (n : ProtoNode) : list Value :=
  match n with
  | PInt32 _ v => [VINT v]
  | PInt64 _ v => [VLONG v]
  | PFloat _ v => [VFLOAT v]
  | PString _ s => [VSTRING s]
  | PBytes _ b => [VSTORAGE b]
  | PMessage _ _ nodes => flat_map nodeValues nodes
  | _ => []
  end.

(** The values that can be written in an atom. *)
Definition writable (v : Value) : list Value := match v with VUNKNOWN | VDOUBLE _ => [] | _ => [v] end.

Definition fieldsWritten (values : list FieldValue) : list FieldValue := takeWhile (supported fv_field) values.

(** The nested messages of an atom hold all its values of a type that atoms have, each once and in order, up to the first field
    that lies more than three levels deep; the recursion over the fields always ends. *)
Theorem atom_values_written tagId values :
  ∃ out, writeFieldValueTreeToStream tagId values = Some [PMessage false tagId out] ∧
    flat_map nodeValues out = concat (writable ∘ fv_value <$> fieldsWritten values).
Proof.
  destruct (writeAll_leaves fv_field atomLeaf atomSub (flat_map nodeValues) (writable ∘ fv_value) eq_refl) with (dims := values)
    as (out & E & H).
  - intros n a out. rewrite flat_map_app. f_equal. unfold atomLeaf. cbn. by destruct (fv_value a).
  - intros d d' n inner out. rewrite flat_map_app. f_equal. unfold atomSub.
    destruct (_ =? _); [cbn; apply app_nil_r|]. destruct (_ =? _); [cbn; apply app_nil_r|done].
  - exists out. split; [|exact H]. unfold writeFieldValueTreeToStream, writeFieldValueTreeToStreamHelper. by rewrite E.
Qed.

(** An atom whose fields lie at the top or in a chain of messages is written run by run: a field at the top by itself, and
    neighbours with the same position of their message in one repeated message. *)
Theorem atom_messages_are_runs tagId values :
  forallb (flat fv_field) values = true →
  writeFieldValueTreeToStream tagId values =
    Some [PMessage false tagId (concat ((λ r, match r with
      | Top a => atomLeaf (getPosAtDepth (fv_field a) 0) a
      | Chain _ a others => [PMessage true (getPosAtDepth (fv_field a) 0)
          (concat ((λ b, atomLeaf (getPosAtDepth (fv_field b) 2) b) <$> a :: others))]
      end) <$> runsOf fv_field values))].
Proof. intros Hl. unfold writeFieldValueTreeToStream, writeFieldValueTreeToStreamHelper. rewrite writeAll_runs by done. done. Qed.

Definition exampleField (pos : list Z) (depth : Z) (v : Value) : FieldValue := FieldValue_of (Field_of_pos 10 pos depth) v.
Definition exampleAtom : list FieldValue :=
  [exampleField [1; 1; 1] 2 (VINT 1000); exampleField [1; 1; 2] 2 (VSTRING "tag"); exampleField [1; 2; 1] 2 (VINT 2000);
   exampleField [2; 0; 0] 0 (VLONG 7)].

Lemma atom_messages_are_runs_witness :
  writeFieldValueTreeToStream 10 exampleAtom =
    Some [PMessage false 10 [PMessage true 1 [PInt32 1 1000; PString 2 "tag"]; PMessage true 1 [PInt32 1 2000]; PInt64 2 7]].
Proof. rewrite (atom_messages_are_runs 10 exampleAtom) by reflexivity. vm_compute. reflexivity. Defined.

(** ** Keys *)

(** What a key's messages hold apart from positions: values, and strings for the set. *)
Fixpoint keyValues (n : ProtoNode) : list ProtoNode :=
  match n with
  | PMessage _ _ nodes => flat_map keyValues nodes
  | PInt32 field _ => if field =? DIMENSIONS_VALUE_FIELD then [] else [n]
  | _ => [n]
  end.

(** The paths in the messages of a metric's dimensions. *)
Fixpoint nodePaths (n : ProtoNode) : list (list Z) :=
  match n with
  | PMessage true _ [PInt32 _ field] => [[field]]
  | PMessage true _ [PInt32 _ field; PMessage false _ nodes] => cons field <$> flat_map nodePaths nodes
  | _ => []
  end.

Definition pathOf (f : Field) : list Z :=
  if getDepth f =? 0 then [getPosAtDepth f 0] else [getPosAtDepth f 0; getPosAtDepth f 2].

(** The upper positions are part of the prefix of a chain. *)
Lemma prefix_top f g : getPrefix f 2 = getPrefix g 2 → getPosAtDepth f 0 = getPosAtDepth g 0.
Proof.
  assert (H : ∀ h, getRawPosAtDepth h 0 = rawAtDepth (getPrefix h 2) 0).
  { intros h. unfold getRawPosAtDepth, rawAtDepth, getPrefix. change (2 =? 0) with false. cbv iota. unfold getPath.
    change ((2 <? 2 - 1) || (2 - 1 <? 0)) with false. cbv iota zeta. rewrite <- !Z.land_assoc. reflexivity. }
  intros E. unfold getPosAtDepth. by rewrite !H, E.
Qed.

Definition runFields {A} (r : Run) : list A := match r with Top a => [a] | Chain _ a others => a :: others end.
Definition runOk {A} (fieldOf : A → Field) (r : Run) : Prop :=
  match r with
  | Top a => getDepth (fieldOf a) = 0
  | Chain p a others => Forall (λ b, getDepth (fieldOf b) ≠ 0 ∧ getPrefix (fieldOf b) 2 = p) (a :: others)
  end.

Lemma runs_concat {A} (fieldOf : A → Field) (l : list A) :
  concat (runFields <$> runsOf fieldOf l) = l ∧ Forall (runOk fieldOf) (runsOf fieldOf l).
Proof.
  induction l as [|a l [IH1 IH2]]; [done|]. unfold runsOf. cbn [foldr]. fold (runsOf fieldOf l). unfold addToRuns, dimDepth, dimPrefix.
  destruct (Z.eqb_spec (getDepth (fieldOf a)) 0) as [H0|H0]; [by rewrite fmap_cons; cbn [concat]; rewrite IH1; split; [|constructor]|].
  assert (Hnew : ∀ rs, concat (runFields <$> rs) = l → Forall (runOk fieldOf) rs →
    concat (runFields <$> Chain (getPrefix (fieldOf a) 2) a [] :: rs) = a :: l ∧
    Forall (runOk fieldOf) (Chain (getPrefix (fieldOf a) 2) a [] :: rs)).
  { intros rs E F. rewrite fmap_cons. cbn [concat]. rewrite E. split; [done|]. constructor; [|done]. by repeat constructor. }
  destruct (runsOf fieldOf l) as [|[b|p b others] rs]; try by apply Hnew.
  destruct (Z.eqb_spec (getPrefix (fieldOf a) 2) p) as [<-|]; [|by apply Hnew].
  rewrite fmap_cons in *. cbn [concat app runFields] in *. rewrite IH1. split; [done|]. apply Forall_cons in IH2 as [Hr IH2].
  constructor; [|done]. by constructor.
Qed.

(** The messages of the paths, read back. *)
Lemma paths_read_back (matchers : list Matcher) :
  forallb (flat mMatcher) matchers = true →
  ∃ inner, writeAll mMatcher pathLeaf dimensionSub matchers = Some inner ∧ flat_map nodePaths inner = pathOf ∘ mMatcher <$> matchers.
Proof.
  intros Hl. rewrite writeAll_runs by done. eexists. split; [reflexivity|].
  destruct (runs_concat mMatcher matchers) as [Hc Hok]. rewrite <- Hc at 2. clear Hc Hl.
  induction (runsOf mMatcher matchers) as [|r rs IH]; [done|]. apply Forall_cons in Hok as [Hr Hok]. rewrite !fmap_cons.
  cbn [concat]. rewrite flat_map_app, fmap_app, IH by done. f_equal. clear IH Hok. destruct r as [a|p a others]; cbn in Hr.
  - cbn. unfold pathOf. by rewrite Hr.
  - cbn [writeRun dimensionSub flat_map nodePaths]. rewrite app_nil_r. cbn [runFields].
    assert (Hp : ∀ b, b ∈ a :: others → pathOf (mMatcher b) = [getPosAtDepth (mMatcher a) 0; getPosAtDepth (mMatcher b) 2]).
    { intros b Hb. apply Forall_cons in Hr as [Ha Hr]. assert (Hb' : getDepth (mMatcher b) ≠ 0 ∧ getPrefix (mMatcher b) 2 = p).
      { apply elem_of_cons in Hb as [->|Hb]; [done|]. rewrite Forall_forall in Hr. by apply Hr. }
      destruct Hb' as [Hb0 Hbp]. unfold pathOf. rewrite (proj2 (Z.eqb_neq _ _)) by done. destruct Ha as [_ Ha]. rewrite (prefix_top (mMatcher b) (mMatcher a)); [done|]. by rewrite Hbp. }
    revert Hp. generalize (a :: others) as l. generalize (getPosAtDepth (mMatcher a) 0) as n. clear.
    intros n l Hp. induction l as [|b l IH]; [done|]. rewrite !fmap_cons. cbn [concat leafAt pathLeaf app flat_map nodePaths].
    rewrite fmap_cons. cbn [app]. rewrite IH by (intros; apply Hp; by right). f_equal. unfold compose. by rewrite (Hp b) by left.
Qed.

(** *** Reading leaves *)

(** The numbers are those of the message [DimensionsValue] in stats_log.proto.  A hash stands for the string of the report that has it. *)
Definition readValue (strings : list string) (n : ProtoNode) : option Value :=
  match n with
  | PString field s => if field =? 2 then Some (VSTRING s) else None
  | PInt32 field i => if field =? 3 then Some (VINT i) else None
  | PInt64 field i => if field =? 4 then Some (VLONG i) else None
  | PFloat field f => if field =? 6 then Some (VFLOAT f) else None
  | PUint64 field h => if field =? 8 then VSTRING <$> List.find (λ s, Hash64_string s =? h) strings else None
  | _ => None
  end.

Definition readLeaf (strings : list string) (n : ProtoNode) : option Value :=
  match n with PMessage true _ nodes => head (omap (readValue strings) nodes) | _ => None end.

(** The strings that leaves put into the set of the report. *)
Definition collectedStrings (leaves : list ProtoNode) : list string :=
  flat_map (λ n, match n with
    | PMessage _ _ nodes => omap (λ n, match n with InsertString s => Some s | _ => None end) nodes
    | _ => []
    end) leaves.

Definition noCollision (strings : list string) : Prop :=
  ∀ s1 s2, s1 ∈ strings → s2 ∈ strings → Hash64_string s1 = Hash64_string s2 → s1 = s2.

(** Dimensions have these types; a value of another type has an empty leaf. *)
Definition dimensionType (v : Value) : option Value := match v with VINT _ | VLONG _ | VFLOAT _ | VSTRING _ => Some v | _ => None end.

Lemma find_string strings s : s ∈ strings → noCollision strings → List.find (λ s', Hash64_string s' =? Hash64_string s) strings = Some s.
Proof.
  intros Hin Hc. destruct (List.find _ strings) as [s'|] eqn:E.
  - apply List.find_some in E as [Hin' Hh]. apply Z.eqb_eq in Hh. f_equal. apply Hc; [by apply list_elem_of_In|done|done].
  - apply list_elem_of_In in Hin. pose proof (List.find_none _ _ E s Hin) as Hn. cbn beta in Hn. by rewrite Z.eqb_refl in Hn.
Qed.

Lemma leaf_read_back hashStrings leafField fieldNum d strings :
  collectedStrings (leafNode hashStrings leafField fieldNum d) ⊆ strings → noCollision strings →
  readLeaf strings <$> leafNode hashStrings leafField fieldNum d = [dimensionType (fv_value d)].
Proof.
  unfold leafNode. destruct (fv_value d) as [| | | | |s|] eqn:E; intros Hs Hc; try done.
  destruct hashStrings; [|done]. cbn. rewrite find_string; [done| |done]. apply Hs. by left.
Qed.

(** The leaves of a key, read one by one. *)
Lemma leaves_read_back hashStrings key leafField :
  ∃ leaves, writeDimensionLeafNodesToProto hashStrings key leafField = Some leaves ∧
    ∀ strings, collectedStrings leaves ⊆ strings → noCollision strings →
      readLeaf strings <$> leaves = dimensionType ∘ fv_value <$> fieldsWritten (mValues key).
Proof.
  unfold writeDimensionLeafNodesToProto.
  destruct (writeAll_leaves fv_field (leafNode hashStrings leafField) (λ _ _ _ inner, inner) (λ out, out)
    (leafNode hashStrings leafField 0) eq_refl) with (dims := mValues key) as (out & E & H); [done|done|].
  exists out. split; [rewrite <- E; by destruct (mValues key)|]. intros strings Hs Hc. subst out. clear E. unfold fieldsWritten in *.
  revert Hs. generalize (takeWhile (supported fv_field) (mValues key)) as l. induction l as [|d l IH]; intros Hs; [done|].
  rewrite !fmap_cons in *. cbn [concat] in *. unfold collectedStrings in Hs. rewrite flat_map_app in Hs. fold collectedStrings in Hs.
  rewrite fmap_app, (leaf_read_back hashStrings leafField 0 d strings); [|set_solver|done]. rewrite IH by set_solver. done.
Qed.

Lemma flat_all_written (values : list FieldValue) : forallb (flat fv_field) values = true → fieldsWritten values = values.
Proof.
  unfold fieldsWritten. induction values as [|d l IH]; [done|]. intros Hk. cbn [forallb] in Hk. apply andb_true_iff in Hk as [Hd Hk]. cbn [takeWhile].
  assert (supported fv_field d = true) as ->; [|by rewrite IH]. unfold flat, supported in *. bool_to_prop.
  destruct Hd as [Hd|Hd]; apply Z.eqb_eq in Hd; by rewrite Hd.
Qed.

(** The matchers that the values of an event meet, in the order of the values. *)
Definition met (matchers : list Matcher) (values : list FieldValue) : list Matcher :=
  flat_map (λ v, List.filter (matches (fv_field v)) matchers) values.

(** The matcher takes all positions of a repeated field ([Position::ALL]): the report then holds whole keys instead. *)
Definition slicesByAll (m : Matcher) : bool := hasAllPositionMatcher m && (getRawPosAtDepth (mMatcher m) 1 =? 0).

(** The second attempt of [Field::matches] only succeeds for such matchers. *)
Lemma matches_exactly f m : slicesByAll m = false → matches f m = true → mTag f = mTag (mMatcher m) ∧ Z.land (mField f) (mMask m) = mField (mMatcher m).
Proof.
  unfold slicesByAll, matches. intros Ha. destruct (Z.eqb_spec (mTag f) (mTag (mMatcher m))) as [Et|]; [|done]. cbn [negb].
  destruct (Z.eqb_spec (Z.land (mField f) (mMask m)) (mField (mMatcher m))) as [Ef|]; [done|].
  destruct (hasAllPositionMatcher m); [|done]. cbn [andb] in *.
  destruct (Z.eqb_spec (Z.land (mField f) (Z.land (mMask m) kClearAllPositionMatcherMask)) (mField (mMatcher m))) as [E|]; [|done].
  exfalso. apply Z.eqb_neq in Ha. apply Ha. unfold getRawPosAtDepth, rawAtDepth. cbv zeta. rewrite <- E.
  change (Z.shiftl 0xff (8 * (kMaxLogDepth - 1))) with 0xff00. rewrite <- !Z.land_assoc.
  change (Z.land kClearAllPositionMatcherMask 0xff00) with 0. by rewrite !Z.land_0_r.
Qed.

(** A field of an extracted key is that of the matcher it met. *)
Lemma extracted_fields matchers values :
  forallb (λ m, negb (slicesByAll m)) matchers = true → fv_field <$> filterSpec matchers values = mMatcher <$> met matchers values.
Proof.
  intros Ha. unfold filterSpec, met. induction values as [|v values IH]; [done|]. cbn [flat_map]. rewrite !fmap_app, IH. f_equal. clear IH.
  induction matchers as [|m ms IH]; [done|]. cbn [forallb] in Ha. apply andb_true_iff in Ha as [Hm Ha]. apply negb_true_iff in Hm.
  cbn [omap list_omap List.filter]. destruct (matches (fv_field v) m) eqn:E; [|by apply IH]. rewrite !fmap_cons. f_equal; [|by apply IH].
  destruct (matches_exactly _ _ Hm E) as [Et Ef].
  cbn. rewrite Et, Ef. by destruct (mMatcher m).
Qed.



(** A key that is written as one message holds the values of its fields in order, strings as their hashes when strings are hashed,
    and exactly then they are collected for the report. *)
Theorem dimension_values_written hashStrings key :
  ∃ out, writeDimensionToProto hashStrings key = Some out ∧
    flat_map keyValues out = concat (dimensionValue hashStrings ∘ fv_value <$> fieldsWritten (mValues key)) ∧
    omap (λ n, match n with InsertString s => Some s | _ => None end) (flat_map keyValues out)
      = if hashStrings then omap (λ d, match fv_value d with VSTRING s => Some s | _ => None end) (fieldsWritten (mValues key)) else [].
Proof.
  assert (Hs : ∀ l, omap (λ n, match n with InsertString s => Some s | _ => None end) (concat (dimensionValue hashStrings ∘ fv_value <$> l))
    = if hashStrings then omap (λ d, match fv_value d with VSTRING s => Some s | _ => None end) l else []).
  { induction l as [|d l IH]; [by destruct hashStrings|]. rewrite fmap_cons. cbn [concat]. rewrite omap_app, IH. unfold compose.
    destruct (fv_value d) eqn:E, hashStrings; cbn; rewrite ?E; done. }
  enough (H : ∃ out, writeDimensionToProto hashStrings key = Some out ∧
    flat_map keyValues out = concat (dimensionValue hashStrings ∘ fv_value <$> fieldsWritten (mValues key))).
  { destruct H as (out & E & H). exists out. by rewrite H, Hs. }
  destruct (writeAll_leaves fv_field (dimensionLeaf hashStrings) dimensionSub (flat_map keyValues) (dimensionValue hashStrings ∘ fv_value) eq_refl)
    with (dims := mValues key) as (out & E & H).
  - intros n a out. rewrite flat_map_app. f_equal. unfold compose. destruct (fv_value a) eqn:Ev; cbn; rewrite Ev; try done. by destruct hashStrings.
  - intros d d' n inner out. rewrite flat_map_app. f_equal. cbn. by rewrite !app_nil_r.
  - unfold writeDimensionToProto, writeDimensionToProtoHelper, fieldsWritten. destruct (mValues key) as [|d ds]; [by exists []|]. rewrite E. eexists. split; [reflexivity|].
    cbn [flat_map keyValues]. change (DIMENSIONS_VALUE_FIELD =? DIMENSIONS_VALUE_FIELD) with true. cbn [app]. by rewrite app_nil_r.
Qed.
