(* ===== verification/StatsdStats.v ===== *)
(** * Statistics of statsd about itself (guardrail/StatsdStats.{h,cpp})

    Counters that the rest of statsd keeps up to date and that are dumped on request.  Everything that grows is
    bounded.  The wall clock and the elapsed time are arguments.  A write outside the vector of pushed atoms is
    [None].  The counters of a struct that are only counted are a function from their names. *)
From S2P Require Import Prelude FieldValue DimensionKey UidMap Sorting ProtoOutput.

Definition kMaxIceBoxSize : nat := 20.
Definition kMaxLoggerErrors : nat := 20.
Definition kMaxSystemServerRestarts : nat := 20.
Definition kMaxTimestampCount : nat := 20.
Definition kMaxNonPlatformPushedAtoms : nat := 100.
Definition kMaxPushedAtomId : Z := 500.
Definition kMaxPushedAtomErrorStatsSize : nat := 100.
Definition kInt64Max : Z := 2 ^ 63 - 1.

(** ** State *)

Inductive TimeList := broadcast_sent_time_sec | activation_time_sec | deactivation_time_sec.
Inductive StatMap :=
  matcher_stats | condition_stats | metric_stats | metric_dimension_in_condition_stats | alert_stats.

#[export] Instance TimeList_eq_dec : EqDecision TimeList.
Proof. solve_decision. Defined.
#[export] Instance StatMap_eq_dec : EqDecision StatMap.
Proof. solve_decision. Defined.

Record ConfigStats := mkConfigStats {
  cs_uid : Z; cs_id : Z;
  creation_time_sec : Z; deletion_time_sec : Z; reset_time_sec : Z;
  metric_count : Z; condition_count : Z; matcher_count : Z; alert_count : Z;
  is_valid : bool;
  cs_times : TimeList → list Z;
  data_drop_time_sec : list Z;
  data_drop_bytes : list Z;
  dump_report_stats : list (Z * Z);
  cs_maps : StatMap → gmap Z Z;
  cs_annotations : list (Z * Z)
}.

Record UidMapStats := mkUidMapStats { changes : Z; bytes_used : Z; dropped_changes : Z; deleted_apps : Z }.

Inductive PullCounter :=
  | totalPull | totalPullFromCache | dataError | pullTimeout | pullExceedMaxDelay | pullFailed
  | pullUidProviderNotFound | pullerNotFound | emptyData | registeredCount | unregisteredCount
  | atomErrorCount | binderCallFailCount.
#[export] Instance PullCounter_eq_dec : EqDecision PullCounter.
Proof. solve_decision. Defined.

Record PulledAtomStats := mkPulledAtomStats {
  pull_counts : PullCounter → Z;
  minPullIntervalSec : Z;
  avgPullTimeNs : Z; maxPullTimeNs : Z; numPullTime : Z;
  avgPullDelayNs : Z; maxPullDelayNs : Z; numPullDelay : Z;
  pullTimeoutMetadata : list (Z * Z)
}.
Definition PulledAtomStats_new : PulledAtomStats := mkPulledAtomStats (λ _, 0) kInt64Max 0 0 0 0 0 0 [].

Inductive MetricCounter :=
  | hardDimensionLimitReached | lateLogEventSkipped | skippedForwardBuckets | badValueType
  | conditionChangeInNextBucket | invalidatedBucket | bucketDropped | bucketUnknownCondition | bucketCount.
#[export] Instance MetricCounter_eq_dec : EqDecision MetricCounter.
Proof. solve_decision. Defined.

Record AtomMetricStats := mkAtomMetricStats {
  metric_counts : MetricCounter → Z; minBucketBoundaryDelayNs : Z; maxBucketBoundaryDelayNs : Z
}.
Definition AtomMetricStats_new : AtomMetricStats := mkAtomMetricStats (λ _, 0) 0 0.

Record LogLossStats := mkLogLossStats {
  mWallClockSec : Z; ll_count : Z; mLastError : Z; mLastTag : Z; ll_uid : Z; ll_pid : Z
}.

Record QueueStats := mkQueueStats { mMaxQueueHistoryNs : Z; mMinQueueHistoryNs : Z; mOverflowCount : Z }.

Record StatsdStats := mkStatsdStats {
  mStartTimeSec : Z;
  mUidMapStats : UidMapStats;
  mConfigStats : gmap ConfigKey ConfigStats;
  mIceBox : list ConfigStats;
  mPushedAtomStats : list Z;
  mNonPlatformPushedAtomStats : gmap Z Z;
  mPulledAtomStats : gmap Z PulledAtomStats;
  mPushedAtomErrorStats : gmap Z Z;
  mAtomMetricStats : gmap Z AtomMetricStats;
  mActivationBroadcastGuardrailStats : gmap Z (list Z);
  mQueueStats : QueueStats;
  mLogLossStats : list LogLossStats;
  mSystemServerRestartSec : list Z;
  mAnomalyAlarmRegisteredStats : Z;
  mPeriodicAlarmRegisteredStats : Z
}.

Definition st_start (x : Z) (s : StatsdStats) : StatsdStats :=
  mkStatsdStats x (mUidMapStats s) (mConfigStats s) (mIceBox s) (mPushedAtomStats s)
    (mNonPlatformPushedAtomStats s) (mPulledAtomStats s) (mPushedAtomErrorStats s) (mAtomMetricStats s)
    (mActivationBroadcastGuardrailStats s) (mQueueStats s) (mLogLossStats s) (mSystemServerRestartSec s)
    (mAnomalyAlarmRegisteredStats s) (mPeriodicAlarmRegisteredStats s).
Definition st_uidMapStats (x : UidMapStats) (s : StatsdStats) : StatsdStats :=
  mkStatsdStats (mStartTimeSec s) x (mConfigStats s) (mIceBox s) (mPushedAtomStats s)
    (mNonPlatformPushedAtomStats s) (mPulledAtomStats s) (mPushedAtomErrorStats s) (mAtomMetricStats s)
    (mActivationBroadcastGuardrailStats s) (mQueueStats s) (mLogLossStats s) (mSystemServerRestartSec s)
    (mAnomalyAlarmRegisteredStats s) (mPeriodicAlarmRegisteredStats s).
Definition st_configStats (x : gmap ConfigKey ConfigStats) (s : StatsdStats) : StatsdStats :=
  mkStatsdStats (mStartTimeSec s) (mUidMapStats s) x (mIceBox s) (mPushedAtomStats s)
    (mNonPlatformPushedAtomStats s) (mPulledAtomStats s) (mPushedAtomErrorStats s) (mAtomMetricStats s)
    (mActivationBroadcastGuardrailStats s) (mQueueStats s) (mLogLossStats s) (mSystemServerRestartSec s)
    (mAnomalyAlarmRegisteredStats s) (mPeriodicAlarmRegisteredStats s).
Definition st_iceBox (x : list ConfigStats) (s : StatsdStats) : StatsdStats :=
  mkStatsdStats (mStartTimeSec s) (mUidMapStats s) (mConfigStats s) x (mPushedAtomStats s)
    (mNonPlatformPushedAtomStats s) (mPulledAtomStats s) (mPushedAtomErrorStats s) (mAtomMetricStats s)
    (mActivationBroadcastGuardrailStats s) (mQueueStats s) (mLogLossStats s) (mSystemServerRestartSec s)
    (mAnomalyAlarmRegisteredStats s) (mPeriodicAlarmRegisteredStats s).
Definition st_pushed (x : list Z) (s : StatsdStats) : StatsdStats :=
  mkStatsdStats (mStartTimeSec s) (mUidMapStats s) (mConfigStats s) (mIceBox s) x (mNonPlatformPushedAtomStats
    s) (mPulledAtomStats s) (mPushedAtomErrorStats s) (mAtomMetricStats s) (mActivationBroadcastGuardrailStats s)
    (mQueueStats s) (mLogLossStats s) (mSystemServerRestartSec s) (mAnomalyAlarmRegisteredStats s)
    (mPeriodicAlarmRegisteredStats s).
Definition st_nonPlatform (x : gmap Z Z) (s : StatsdStats) : StatsdStats :=
  mkStatsdStats (mStartTimeSec s) (mUidMapStats s) (mConfigStats s) (mIceBox s) (mPushedAtomStats s) x
    (mPulledAtomStats s) (mPushedAtomErrorStats s) (mAtomMetricStats s) (mActivationBroadcastGuardrailStats s)
    (mQueueStats s) (mLogLossStats s) (mSystemServerRestartSec s) (mAnomalyAlarmRegisteredStats s)
    (mPeriodicAlarmRegisteredStats s).
Definition st_pulled (x : gmap Z PulledAtomStats) (s : StatsdStats) : StatsdStats :=
  mkStatsdStats (mStartTimeSec s) (mUidMapStats s) (mConfigStats s) (mIceBox s) (mPushedAtomStats s)
    (mNonPlatformPushedAtomStats s) x (mPushedAtomErrorStats s) (mAtomMetricStats s)
    (mActivationBroadcastGuardrailStats s) (mQueueStats s) (mLogLossStats s) (mSystemServerRestartSec s)
    (mAnomalyAlarmRegisteredStats s) (mPeriodicAlarmRegisteredStats s).
Definition st_errors (x : gmap Z Z) (s : StatsdStats) : StatsdStats :=
  mkStatsdStats (mStartTimeSec s) (mUidMapStats s) (mConfigStats s) (mIceBox s) (mPushedAtomStats s)
    (mNonPlatformPushedAtomStats s) (mPulledAtomStats s) x (mAtomMetricStats s)
    (mActivationBroadcastGuardrailStats s) (mQueueStats s) (mLogLossStats s) (mSystemServerRestartSec s)
    (mAnomalyAlarmRegisteredStats s) (mPeriodicAlarmRegisteredStats s).
Definition st_metricStats (x : gmap Z AtomMetricStats) (s : StatsdStats) : StatsdStats :=
  mkStatsdStats (mStartTimeSec s) (mUidMapStats s) (mConfigStats s) (mIceBox s) (mPushedAtomStats s)
    (mNonPlatformPushedAtomStats s) (mPulledAtomStats s) (mPushedAtomErrorStats s) x
    (mActivationBroadcastGuardrailStats s) (mQueueStats s) (mLogLossStats s) (mSystemServerRestartSec s)
    (mAnomalyAlarmRegisteredStats s) (mPeriodicAlarmRegisteredStats s).
Definition st_guardrail (x : gmap Z (list Z)) (s : StatsdStats) : StatsdStats :=
  mkStatsdStats (mStartTimeSec s) (mUidMapStats s) (mConfigStats s) (mIceBox s) (mPushedAtomStats s)
    (mNonPlatformPushedAtomStats s) (mPulledAtomStats s) (mPushedAtomErrorStats s) (mAtomMetricStats s) x
    (mQueueStats s) (mLogLossStats s) (mSystemServerRestartSec s) (mAnomalyAlarmRegisteredStats s)
    (mPeriodicAlarmRegisteredStats s).
Definition st_queueStats (x : QueueStats) (s : StatsdStats) : StatsdStats :=
  mkStatsdStats (mStartTimeSec s) (mUidMapStats s) (mConfigStats s) (mIceBox s) (mPushedAtomStats s)
    (mNonPlatformPushedAtomStats s) (mPulledAtomStats s) (mPushedAtomErrorStats s) (mAtomMetricStats s)
    (mActivationBroadcastGuardrailStats s) x (mLogLossStats s) (mSystemServerRestartSec s)
    (mAnomalyAlarmRegisteredStats s) (mPeriodicAlarmRegisteredStats s).
Definition st_logLoss (x : list LogLossStats) (s : StatsdStats) : StatsdStats :=
  mkStatsdStats (mStartTimeSec s) (mUidMapStats s) (mConfigStats s) (mIceBox s) (mPushedAtomStats s)
    (mNonPlatformPushedAtomStats s) (mPulledAtomStats s) (mPushedAtomErrorStats s) (mAtomMetricStats s)
    (mActivationBroadcastGuardrailStats s) (mQueueStats s) x (mSystemServerRestartSec s)
    (mAnomalyAlarmRegisteredStats s) (mPeriodicAlarmRegisteredStats s).
Definition st_restarts (x : list Z) (s : StatsdStats) : StatsdStats :=
  mkStatsdStats (mStartTimeSec s) (mUidMapStats s) (mConfigStats s) (mIceBox s) (mPushedAtomStats s)
    (mNonPlatformPushedAtomStats s) (mPulledAtomStats s) (mPushedAtomErrorStats s) (mAtomMetricStats s)
    (mActivationBroadcastGuardrailStats s) (mQueueStats s) (mLogLossStats s) x (mAnomalyAlarmRegisteredStats s)
    (mPeriodicAlarmRegisteredStats s).
Definition st_anomalyAlarms (x : Z) (s : StatsdStats) : StatsdStats :=
  mkStatsdStats (mStartTimeSec s) (mUidMapStats s) (mConfigStats s) (mIceBox s) (mPushedAtomStats s)
    (mNonPlatformPushedAtomStats s) (mPulledAtomStats s) (mPushedAtomErrorStats s) (mAtomMetricStats s)
    (mActivationBroadcastGuardrailStats s) (mQueueStats s) (mLogLossStats s) (mSystemServerRestartSec s) x
    (mPeriodicAlarmRegisteredStats s).
Definition st_periodicAlarms (x : Z) (s : StatsdStats) : StatsdStats :=
  mkStatsdStats (mStartTimeSec s) (mUidMapStats s) (mConfigStats s) (mIceBox s) (mPushedAtomStats s)
    (mNonPlatformPushedAtomStats s) (mPulledAtomStats s) (mPushedAtomErrorStats s) (mAtomMetricStats s)
    (mActivationBroadcastGuardrailStats s) (mQueueStats s) (mLogLossStats s) (mSystemServerRestartSec s)
    (mAnomalyAlarmRegisteredStats s) x.

(** An object with static storage: what the constructor leaves out is zero. *)
Definition StatsdStats_new (nowSec : Z) : StatsdStats :=
  mkStatsdStats nowSec (mkUidMapStats 0 0 0 0) ∅ [] (replicate (Z.to_nat (kMaxPushedAtomId + 1)) 0) ∅ ∅ ∅ ∅ ∅
    (mkQueueStats 0 kInt64Max 0) [] [] 0 0.

(** ** Helpers *)

(** [pop_front] when the list is full, then [push_back]. *)
Definition pushBounded {A} (n : nat) (x : A) (l : list A) : list A :=
  (if (length l =? n)%nat then tail l else l) ++ [x].

Definition update {K V} `{EqDecision K} (k : K) (v : V) (f : K → V) : K → V := λ k', if decide (k' = k) then v else f k'.

(** [map[k]++], which makes an entry with 0 if there is none. *)
Definition increment (k : Z) (m : gmap Z Z) : gmap Z Z := <[k := default 0 (m !! k) + 1]> m.

(** ** Configurations *)

Definition addToIceBoxLocked (stats : ConfigStats) (s : StatsdStats) : StatsdStats :=
  st_iceBox (pushBounded kMaxIceBoxSize stats (mIceBox s)) s.

Definition set_deletion (t : Z) (c : ConfigStats) : ConfigStats :=
  mkConfigStats (cs_uid c) (cs_id c) (creation_time_sec c) t (reset_time_sec c) (metric_count c) (condition_count c)
    (matcher_count c) (alert_count c) (is_valid c) (cs_times c) (data_drop_time_sec c) (data_drop_bytes c)
    (dump_report_stats c) (cs_maps c) (cs_annotations c).
Definition set_reset (t : Z) (c : ConfigStats) : ConfigStats :=
  mkConfigStats (cs_uid c) (cs_id c) (creation_time_sec c) (deletion_time_sec c) t (metric_count c) (condition_count c)
    (matcher_count c) (alert_count c) (is_valid c) (cs_times c) (data_drop_time_sec c) (data_drop_bytes c)
    (dump_report_stats c) (cs_maps c) (cs_annotations c).
(** The lists and maps of a configuration. *)
Definition set_cs_data (times : TimeList → list Z) (dropTimes dropBytes : list Z) (dumps : list (Z * Z))
    (maps : StatMap → gmap Z Z) (annotations : list (Z * Z)) (c : ConfigStats) : ConfigStats :=
  mkConfigStats (cs_uid c) (cs_id c) (creation_time_sec c) (deletion_time_sec c) (reset_time_sec c) (metric_count c)
    (condition_count c) (matcher_count c) (alert_count c) (is_valid c) times dropTimes dropBytes dumps maps annotations.

Definition noteConfigRemoved (nowSec : Z) (key : ConfigKey) (s : StatsdStats) : StatsdStats :=
  match mConfigStats s !! key with
  | None => s
  | Some c => st_configStats (delete key (mConfigStats s)) (addToIceBoxLocked (set_deletion nowSec c) s)
  end.

Definition noteConfigReceived (nowSec : Z) (key : ConfigKey)
    (metricsCount conditionsCount matchersCount alertsCount : Z) (annotations : list (Z * Z)) (isValid : bool)
    (s : StatsdStats) : StatsdStats :=
  let s := noteConfigRemoved nowSec key s in
  let c := mkConfigStats key.1 key.2 nowSec 0 0 metricsCount conditionsCount matchersCount alertsCount isValid (λ _, [])
             [] [] [] (λ _, ∅) annotations in
  if isValid then st_configStats (<[key := c]> (mConfigStats s)) s
  else addToIceBoxLocked (set_deletion nowSec c) s.

(** A change of the statistics of a configuration; nothing if there are none. *)
Definition onConfig (key : ConfigKey) (f : ConfigStats → ConfigStats) (s : StatsdStats) : StatsdStats :=
  st_configStats (alter f key (mConfigStats s)) s.

Definition noteConfigReset (nowSec : Z) (key : ConfigKey) : StatsdStats → StatsdStats := onConfig key (set_reset nowSec).

Definition pushTime (l : TimeList) (timeSec : Z) (c : ConfigStats) : ConfigStats :=
  set_cs_data (update l (pushBounded kMaxTimestampCount timeSec (cs_times c l)) (cs_times c)) (data_drop_time_sec c)
    (data_drop_bytes c) (dump_report_stats c) (cs_maps c) (cs_annotations c) c.

Definition noteBroadcastSent (key : ConfigKey) (timeSec : Z) : StatsdStats → StatsdStats :=
  onConfig key (pushTime broadcast_sent_time_sec timeSec).

Definition noteActiveStatusChanged (key : ConfigKey) (activated : bool) (timeSec : Z) : StatsdStats → StatsdStats :=
  onConfig key (pushTime (if activated then activation_time_sec else deactivation_time_sec) timeSec).

Definition noteDataDropped (key : ConfigKey) (totalBytes timeSec : Z) : StatsdStats → StatsdStats :=
  onConfig key (λ c,
    let full := (length (data_drop_time_sec c) =? kMaxTimestampCount)%nat in
    let pop {A} (l : list A) := if full then tail l else l in
    set_cs_data (cs_times c) (pop (data_drop_time_sec c) ++ [timeSec]) (pop (data_drop_bytes c) ++ [totalBytes])
      (dump_report_stats c) (cs_maps c) (cs_annotations c) c).

Definition noteMetricsReportSent (key : ConfigKey) (num_bytes timeSec : Z) : StatsdStats → StatsdStats :=
  onConfig key (λ c,
    set_cs_data (cs_times c) (data_drop_time_sec c) (data_drop_bytes c)
      (pushBounded kMaxTimestampCount (timeSec, num_bytes) (dump_report_stats c)) (cs_maps c) (cs_annotations c) c).

Definition onMap (l : StatMap) (f : gmap Z Z → gmap Z Z) (c : ConfigStats) : ConfigStats :=
  set_cs_data (cs_times c) (data_drop_time_sec c) (data_drop_bytes c) (dump_report_stats c)
    (update l (f (cs_maps c l)) (cs_maps c)) (cs_annotations c) c.

(** [if (size > map[id]) map[id] = size]: the lookup makes an entry. *)
Definition noteMax (id size : Z) (m : gmap Z Z) : gmap Z Z := <[id := Z.max (default 0 (m !! id)) size]> m.

Definition noteConditionDimensionSize (key : ConfigKey) (id size : Z) : StatsdStats → StatsdStats :=
  onConfig key (onMap condition_stats (noteMax id size)).
Definition noteMetricDimensionSize (key : ConfigKey) (id size : Z) : StatsdStats → StatsdStats :=
  onConfig key (onMap metric_stats (noteMax id size)).
Definition noteMetricDimensionInConditionSize (key : ConfigKey) (id size : Z) : StatsdStats → StatsdStats :=
  onConfig key (onMap metric_dimension_in_condition_stats (noteMax id size)).
Definition noteMatcherMatched (key : ConfigKey) (id : Z) : StatsdStats → StatsdStats :=
  onConfig key (onMap matcher_stats (increment id)).
Definition noteAnomalyDeclared (key : ConfigKey) (id : Z) : StatsdStats → StatsdStats :=
  onConfig key (onMap alert_stats (increment id)).

(** ** The whole of statsd *)

Definition noteLogLost (wallClockTimeSec count lastError lastTag uid pid : Z) (s : StatsdStats) : StatsdStats :=
  st_logLoss (pushBounded kMaxLoggerErrors (mkLogLossStats wallClockTimeSec count lastError lastTag uid pid)
                (mLogLossStats s)) s.

Definition noteActivationBroadcastGuardrailHit (uid timeSec : Z) (s : StatsdStats) : StatsdStats :=
  let times := default [] (mActivationBroadcastGuardrailStats s !! uid) in
  st_guardrail (<[uid := pushBounded kMaxTimestampCount timeSec times]> (mActivationBroadcastGuardrailStats s)) s.

Definition noteEventQueueOverflow (elapsedNs oldestEventTimestampNs : Z) (s : StatsdStats) : StatsdStats :=
  let q := mQueueStats s in
  let history := elapsedNs - oldestEventTimestampNs in
  st_queueStats (mkQueueStats (Z.max (mMaxQueueHistoryNs q) history) (Z.min (mMinQueueHistoryNs q) history)
                   (mOverflowCount q + 1)) s.

(** The number so far is added to itself. *)
Definition noteUidMapDropped (deltas : Z) (s : StatsdStats) : StatsdStats :=
  let u := mUidMapStats s in
  st_uidMapStats (mkUidMapStats (changes u) (bytes_used u) (dropped_changes u + (dropped_changes u + deltas))
                    (deleted_apps u)) s.
Definition noteUidMapAppDeletionDropped (s : StatsdStats) : StatsdStats :=
  let u := mUidMapStats s in
  st_uidMapStats (mkUidMapStats (changes u) (bytes_used u) (dropped_changes u) (deleted_apps u + 1)) s.
Definition setUidMapChanges (n : Z) (s : StatsdStats) : StatsdStats :=
  let u := mUidMapStats s in
  st_uidMapStats (mkUidMapStats n (bytes_used u) (dropped_changes u) (deleted_apps u)) s.
Definition setCurrentUidMapMemory (bytes : Z) (s : StatsdStats) : StatsdStats :=
  let u := mUidMapStats s in
  st_uidMapStats (mkUidMapStats (changes u) bytes (dropped_changes u) (deleted_apps u)) s.

Definition noteRegisteredAnomalyAlarmChanged (s : StatsdStats) : StatsdStats :=
  st_anomalyAlarms (mAnomalyAlarmRegisteredStats s + 1) s.
Definition noteRegisteredPeriodicAlarmChanged (s : StatsdStats) : StatsdStats :=
  st_periodicAlarms (mPeriodicAlarmRegisteredStats s + 1) s.

Definition noteSystemServerRestart (timeSec : Z) (s : StatsdStats) : StatsdStats :=
  st_restarts (pushBounded kMaxSystemServerRestarts timeSec (mSystemServerRestartSec s)) s.

(** ** Atoms *)

(** The index of the vector is not compared with 0. *)
Definition noteAtomLogged (atomId : Z) (s : StatsdStats) : option StatsdStats :=
  if atomId <=? kMaxPushedAtomId then
    if atomId <? 0 then None
    else
      let l := mPushedAtomStats s in
      let i := Z.to_nat atomId in
      n ← l !! i;
      Some (st_pushed (<[i := n + 1]> l) s)
  else Some (if (base.size (mNonPlatformPushedAtomStats s) <? kMaxNonPlatformPushedAtoms)%nat
             then st_nonPlatform (increment atomId (mNonPlatformPushedAtomStats s)) s else s).

Definition onPulled (atomId : Z) (f : PulledAtomStats → PulledAtomStats) (s : StatsdStats) : StatsdStats :=
  st_pulled (<[atomId := f (default PulledAtomStats_new (mPulledAtomStats s !! atomId))]> (mPulledAtomStats s)) s.

Definition countPull (c : PullCounter) (p : PulledAtomStats) : PulledAtomStats :=
  mkPulledAtomStats (update c (pull_counts p c + 1) (pull_counts p)) (minPullIntervalSec p) (avgPullTimeNs p)
    (maxPullTimeNs p) (numPullTime p) (avgPullDelayNs p) (maxPullDelayNs p) (numPullDelay p) (pullTimeoutMetadata p).

Definition noteAtomError (atomTag : Z) (pull : bool) (s : StatsdStats) : StatsdStats :=
  if pull then onPulled atomTag (countPull atomErrorCount) s
  else
    let m := mPushedAtomErrorStats s in
    let present := bool_decide (is_Some (m !! atomTag)) in
    let full := (kMaxPushedAtomErrorStatsSize <=? base.size m)%nat in
    if negb full || present then st_errors (increment atomTag m) s else s.

Definition updateMinPullIntervalSec (pullAtomId intervalSec : Z) : StatsdStats → StatsdStats :=
  onPulled pullAtomId (λ p,
    mkPulledAtomStats (pull_counts p) (Z.min (minPullIntervalSec p) intervalSec) (avgPullTimeNs p) (maxPullTimeNs p)
      (numPullTime p) (avgPullDelayNs p) (maxPullDelayNs p) (numPullDelay p) (pullTimeoutMetadata p)).

Definition average (avg num x : Z) : Z := Z.quot (avg * num + x) (num + 1).

Definition notePullTime (pullAtomId pullTimeNs : Z) : StatsdStats → StatsdStats :=
  onPulled pullAtomId (λ p,
    mkPulledAtomStats (pull_counts p) (minPullIntervalSec p) (average (avgPullTimeNs p) (numPullTime p) pullTimeNs)
      (Z.max (maxPullTimeNs p) pullTimeNs) (numPullTime p + 1) (avgPullDelayNs p) (maxPullDelayNs p) (numPullDelay p)
      (pullTimeoutMetadata p)).

Definition notePullDelay (pullAtomId pullDelayNs : Z) : StatsdStats → StatsdStats :=
  onPulled pullAtomId (λ p,
    mkPulledAtomStats (pull_counts p) (minPullIntervalSec p) (avgPullTimeNs p) (maxPullTimeNs p) (numPullTime p)
      (average (avgPullDelayNs p) (numPullDelay p) pullDelayNs) (Z.max (maxPullDelayNs p) pullDelayNs)
      (numPullDelay p + 1) (pullTimeoutMetadata p)).

Definition notePull (atomId : Z) : StatsdStats → StatsdStats := onPulled atomId (countPull totalPull).
Definition notePullFromCache (atomId : Z) : StatsdStats → StatsdStats := onPulled atomId (countPull totalPullFromCache).
Definition notePullDataError (atomId : Z) : StatsdStats → StatsdStats := onPulled atomId (countPull dataError).
Definition notePullExceedMaxDelay (atomId : Z) : StatsdStats → StatsdStats := onPulled atomId (countPull pullExceedMaxDelay).
Definition notePullFailed (atomId : Z) : StatsdStats → StatsdStats := onPulled atomId (countPull pullFailed).
Definition notePullUidProviderNotFound (atomId : Z) : StatsdStats → StatsdStats :=
  onPulled atomId (countPull pullUidProviderNotFound).
Definition notePullerNotFound (atomId : Z) : StatsdStats → StatsdStats := onPulled atomId (countPull pullerNotFound).
Definition notePullBinderCallFailed (atomId : Z) : StatsdStats → StatsdStats := onPulled atomId (countPull binderCallFailCount).
Definition noteEmptyData (atomId : Z) : StatsdStats → StatsdStats := onPulled atomId (countPull emptyData).
Definition notePullerCallbackRegistrationChanged (atomId : Z) (registered : bool) : StatsdStats → StatsdStats :=
  onPulled atomId (countPull (if registered then registeredCount else unregisteredCount)).

Definition notePullTimeout (pullAtomId pullUptimeMillis pullElapsedMillis : Z) : StatsdStats → StatsdStats :=
  onPulled pullAtomId (λ p,
    let p := countPull pullTimeout p in
    mkPulledAtomStats (pull_counts p) (minPullIntervalSec p) (avgPullTimeNs p) (maxPullTimeNs p) (numPullTime p)
      (avgPullDelayNs p) (maxPullDelayNs p) (numPullDelay p)
      (pushBounded kMaxTimestampCount (pullUptimeMillis, pullElapsedMillis) (pullTimeoutMetadata p))).

(** ** Metrics *)

(** [getAtomMetricStats] and a change of what it returns. *)
Definition onMetricStats (metricId : Z) (f : AtomMetricStats → AtomMetricStats) (s : StatsdStats) : StatsdStats :=
  st_metricStats (<[metricId := f (default AtomMetricStats_new (mAtomMetricStats s !! metricId))]> (mAtomMetricStats s)) s.

Definition countMetric (c : MetricCounter) (m : AtomMetricStats) : AtomMetricStats :=
  mkAtomMetricStats (update c (metric_counts m c + 1) (metric_counts m)) (minBucketBoundaryDelayNs m)
    (maxBucketBoundaryDelayNs m).

Definition noteHardDimensionLimitReached (id : Z) : StatsdStats → StatsdStats := onMetricStats id (countMetric hardDimensionLimitReached).
Definition noteLateLogEventSkipped (id : Z) : StatsdStats → StatsdStats := onMetricStats id (countMetric lateLogEventSkipped).
Definition noteSkippedForwardBuckets (id : Z) : StatsdStats → StatsdStats := onMetricStats id (countMetric skippedForwardBuckets).
Definition noteBadValueType (id : Z) : StatsdStats → StatsdStats := onMetricStats id (countMetric badValueType).
Definition noteBucketDropped (id : Z) : StatsdStats → StatsdStats := onMetricStats id (countMetric bucketDropped).
Definition noteBucketUnknownCondition (id : Z) : StatsdStats → StatsdStats := onMetricStats id (countMetric bucketUnknownCondition).
Definition noteConditionChangeInNextBucket (id : Z) : StatsdStats → StatsdStats :=
  onMetricStats id (countMetric conditionChangeInNextBucket).
Definition noteInvalidatedBucket (id : Z) : StatsdStats → StatsdStats := onMetricStats id (countMetric invalidatedBucket).
Definition noteBucketCount (id : Z) : StatsdStats → StatsdStats := onMetricStats id (countMetric bucketCount).

(** The minimum starts at 0. *)
Definition noteBucketBoundaryDelayNs (metricId timeDelayNs : Z) : StatsdStats → StatsdStats :=
  onMetricStats metricId (λ m,
    mkAtomMetricStats (metric_counts m) (Z.min (minBucketBoundaryDelayNs m) timeDelayNs)
      (Z.max (maxBucketBoundaryDelayNs m) timeDelayNs)).

(** ** Reset *)

(** The number of empty pulls is not reset. *)
Definition resetPulled (p : PulledAtomStats) : PulledAtomStats :=
  mkPulledAtomStats (λ c, if decide (c = emptyData) then pull_counts p emptyData else 0) kInt64Max 0 0 0 0 0 0 [].

Definition reset (nowSec : Z) (s : StatsdStats) : StatsdStats :=
  mkStatsdStats nowSec (mUidMapStats s) (set_cs_data (λ _, []) [] [] [] (λ _, ∅) [] <$> mConfigStats s) []
    ((λ _, 0) <$> mPushedAtomStats s) ∅ (resetPulled <$> mPulledAtomStats s) ∅ ∅ ∅ (mkQueueStats 0 kInt64Max 0) [] [] 0 0.

Definition getPushedAtomErrors (atomId : Z) (s : StatsdStats) : Z := default 0 (mPushedAtomErrorStats s !! atomId).

(** ** Dump *)

(** The entries of a [std::map] in order. *)
Definition entries {V} (m : gmap Z V) : list (Z * V) := insertionSort (λ a b : Z * V, a.1 <? b.1) (map_to_list m).
Definition configEntries {V} (m : gmap ConfigKey V) : list (ConfigKey * V) :=
  insertionSort (λ a b : ConfigKey * V, ConfigKey_ltb a.1 b.1) (map_to_list m).

Definition pairMessage (field : Z) (kv : Z * Z) : ProtoNode := PMessage true field [PInt64 1 kv.1; PInt32 2 kv.2].

Definition addConfigStatsToProto (c : ConfigStats) : ProtoNode :=
  PMessage true 3
    ([PInt32 1 (cs_uid c); PInt64 2 (cs_id c); PInt32 3 (creation_time_sec c)]
     ++ (if negb (reset_time_sec c =? 0) then [PInt32 19 (reset_time_sec c)] else [])
     ++ (if negb (deletion_time_sec c =? 0) then [PInt32 4 (deletion_time_sec c)] else [])
     ++ [PInt32 5 (metric_count c); PInt32 6 (condition_count c); PInt32 7 (matcher_count c); PInt32 8 (alert_count c);
         PInt32 9 (Z.b2z (is_valid c))]
     ++ (PInt32 10 <$> cs_times c broadcast_sent_time_sec)
     ++ (PInt32 22 <$> cs_times c activation_time_sec)
     ++ (PInt32 23 <$> cs_times c deactivation_time_sec)
     ++ (PInt32 11 <$> data_drop_time_sec c)
     ++ (PInt64 21 <$> data_drop_bytes c)
     ++ (PInt32 12 ∘ fst <$> dump_report_stats c)
     ++ (PInt64 20 ∘ snd <$> dump_report_stats c)
     ++ (pairMessage 18 <$> cs_annotations c)
     ++ (pairMessage 13 <$> entries (cs_maps c matcher_stats))
     ++ (pairMessage 14 <$> entries (cs_maps c condition_stats))
     ++ (pairMessage 15 <$> entries (cs_maps c metric_stats))
     ++ (pairMessage 17 <$> entries (cs_maps c metric_dimension_in_condition_stats))
     ++ (pairMessage 16 <$> entries (cs_maps c alert_stats))).

Definition writePullerStatsToStream (kv : Z * PulledAtomStats) : ProtoNode :=
  let p := kv.2 in
  let count := pull_counts p in
  PMessage true 10
    ([PInt32 1 kv.1; PInt64 2 (count totalPull); PInt64 3 (count totalPullFromCache); PInt64 4 (minPullIntervalSec p);
      PInt64 5 (avgPullTimeNs p); PInt64 6 (maxPullTimeNs p); PInt64 7 (avgPullDelayNs p); PInt64 8 (maxPullDelayNs p);
      PInt64 9 (count dataError); PInt64 10 (count pullTimeout); PInt64 11 (count pullExceedMaxDelay);
      PInt64 12 (count pullFailed); PInt64 15 (count emptyData); PInt64 16 (count registeredCount);
      PInt64 17 (count unregisteredCount); PInt32 18 (count atomErrorCount); PInt64 19 (count binderCallFailCount);
      PInt64 20 (count pullUidProviderNotFound); PInt64 21 (count pullerNotFound)]
     ++ ((λ t : Z * Z, PMessage true 22 [PInt64 1 t.1; PInt64 2 t.2]) <$> pullTimeoutMetadata p)).

Definition writeAtomMetricStatsToStream (kv : Z * AtomMetricStats) : ProtoNode :=
  let m := kv.2 in
  let count := metric_counts m in
  PMessage true 17
    [PInt64 1 kv.1; PInt64 2 (count hardDimensionLimitReached); PInt64 3 (count lateLogEventSkipped);
     PInt64 4 (count skippedForwardBuckets); PInt64 5 (count badValueType); PInt64 6 (count conditionChangeInNextBucket);
     PInt64 7 (count invalidatedBucket); PInt64 8 (count bucketDropped); PInt64 9 (minBucketBoundaryDelayNs m);
     PInt64 10 (maxBucketBoundaryDelayNs m); PInt64 11 (count bucketUnknownCondition); PInt64 12 (count bucketCount)].

(** Errors are reported only with the count of their atom. *)
Definition atomMessage (s : StatsdStats) (kv : Z * Z) : ProtoNode :=
  let errors := getPushedAtomErrors kv.1 s in
  PMessage true 7 ([PInt32 1 kv.1; PInt32 2 kv.2] ++ (if 0 <? errors then [PInt32 3 errors] else [])).

Definition logLossMessage (l : LogLossStats) : ProtoNode :=
  PMessage true 16 [PInt32 1 (mWallClockSec l); PInt32 2 (ll_count l); PInt32 3 (mLastError l); PInt32 4 (mLastTag l);
                    PInt32 5 (ll_uid l); PInt32 6 (ll_pid l)].

(** Platform atoms are reported from id 2 on, if they were logged. *)
Definition pushedAtoms (s : StatsdStats) : list (Z * Z) :=
  List.filter (λ kv : Z * Z, (2 <=? kv.1) && (0 <? kv.2)) (imap (λ i n, (Z.of_nat i, n)) (mPushedAtomStats s)).

Definition statsMessage (nowSec : Z) (s : StatsdStats) : list ProtoNode :=
  let u := mUidMapStats s in
  let q := mQueueStats s in
  [PInt32 1 (mStartTimeSec s); PInt32 2 (wrap32 nowSec)]
  ++ (addConfigStatsToProto <$> mIceBox s)
  ++ (addConfigStatsToProto ∘ snd <$> configEntries (mConfigStats s))
  ++ (atomMessage s <$> pushedAtoms s)
  ++ (atomMessage s <$> map_to_list (mNonPlatformPushedAtomStats s))
  ++ (writePullerStatsToStream <$> entries (mPulledAtomStats s))
  ++ (writeAtomMetricStatsToStream <$> entries (mAtomMetricStats s))
  ++ (if 0 <? mAnomalyAlarmRegisteredStats s then [PMessage false 9 [PInt32 1 (mAnomalyAlarmRegisteredStats s)]] else [])
  ++ (if 0 <? mPeriodicAlarmRegisteredStats s then [PMessage false 12 [PInt32 1 (mPeriodicAlarmRegisteredStats s)]] else [])
  ++ [PMessage false 8 [PInt32 1 (changes u); PInt32 2 (bytes_used u); PInt32 3 (dropped_changes u); PInt32 4 (deleted_apps u)]]
  ++ (logLossMessage <$> mLogLossStats s)
  ++ (if 0 <? mOverflowCount q
      then [PMessage false 18 [PInt32 1 (mOverflowCount q); PInt64 2 (mMaxQueueHistoryNs q); PInt64 3 (mMinQueueHistoryNs q)]]
      else [])
  ++ (PInt32 15 <$> mSystemServerRestartSec s)
  ++ ((λ kv : Z * list Z, PMessage true 19 (PInt32 1 kv.1 :: (PInt32 2 <$> kv.2)))
        <$> entries (mActivationBroadcastGuardrailStats s)).

Definition dumpStats (nowSec : Z) (doReset : bool) (s : StatsdStats) : list ProtoNode * StatsdStats :=
  (statsMessage nowSec s, if doReset then reset nowSec s else s).
