(* ===== verification/StatsdStatsFacts.v ===== *)
(** * Facts on statsd's own statistics

    Whatever is noted, memory stays bounded and the times kept are the latest ones; an atom with a negative id is
    written outside the table of counters. *)
From S2P Require Import Prelude FieldValue DimensionKey UidMap Sorting ProtoOutput LogEvent StatsdStats.

(** ** Histories *)

Inductive Note :=
  | NConfigReceived (now : Z) (key : ConfigKey) (metrics conditions matchers alerts : Z) (annotations : list (Z * Z)) (valid : bool)
  | NConfigRemoved (now : Z) (key : ConfigKey)
  | NConfigReset (now : Z) (key : ConfigKey)
  | NBroadcastSent (key : ConfigKey) (t : Z)
  | NActiveStatusChanged (key : ConfigKey) (activated : bool) (t : Z)
  | NDataDropped (key : ConfigKey) (bytes t : Z)
  | NMetricsReportSent (key : ConfigKey) (bytes t : Z)
  | NConditionDimensionSize (key : ConfigKey) (id size : Z)
  | NMetricDimensionSize (key : ConfigKey) (id size : Z)
  | NMetricDimensionInConditionSize (key : ConfigKey) (id size : Z)
  | NMatcherMatched (key : ConfigKey) (id : Z)
  | NAnomalyDeclared (key : ConfigKey) (id : Z)
  | NLogLost (t count error tag uid pid : Z)
  | NGuardrailHit (uid t : Z)
  | NQueueOverflow (elapsedNs oldestNs : Z)
  | NUidMapDropped (deltas : Z) | NUidMapAppDeletionDropped | NUidMapChanges (n : Z) | NUidMapMemory (bytes : Z)
  | NAnomalyAlarm | NPeriodicAlarm
  | NSystemServerRestart (t : Z)
  | NAtomLogged (atomId : Z)
  | NAtomError (atomTag : Z) (pull : bool)
  | NPullCount (atomId : Z) (c : PullCounter)
  | NMinPullInterval (atomId sec : Z)
  | NPullTime (atomId ns : Z)
  | NPullDelay (atomId ns : Z)
  | NPullTimeout (atomId uptime elapsed : Z)
  | NMetricCount (metricId : Z) (c : MetricCounter)
  | NBucketBoundaryDelay (metricId ns : Z)
  | NReset (now : Z).

Definition runNote (n : Note) (s : StatsdStats) : option StatsdStats :=
  match n with
  | NConfigReceived now key m c ma al an valid => Some (noteConfigReceived now key m c ma al an valid s)
  | NConfigRemoved now key => Some (noteConfigRemoved now key s)
  | NConfigReset now key => Some (noteConfigReset now key s)
  | NBroadcastSent key t => Some (noteBroadcastSent key t s)
  | NActiveStatusChanged key activated t => Some (noteActiveStatusChanged key activated t s)
  | NDataDropped key bytes t => Some (noteDataDropped key bytes t s)
  | NMetricsReportSent key bytes t => Some (noteMetricsReportSent key bytes t s)
  | NConditionDimensionSize key id size => Some (noteConditionDimensionSize key id size s)
  | NMetricDimensionSize key id size => Some (noteMetricDimensionSize key id size s)
  | NMetricDimensionInConditionSize key id size => Some (noteMetricDimensionInConditionSize key id size s)
  | NMatcherMatched key id => Some (noteMatcherMatched key id s)
  | NAnomalyDeclared key id => Some (noteAnomalyDeclared key id s)
  | NLogLost t count error tag uid pid => Some (noteLogLost t count error tag uid pid s)
  | NGuardrailHit uid t => Some (noteActivationBroadcastGuardrailHit uid t s)
  | NQueueOverflow elapsed oldest => Some (noteEventQueueOverflow elapsed oldest s)
  | NUidMapDropped deltas => Some (noteUidMapDropped deltas s)
  | NUidMapAppDeletionDropped => Some (noteUidMapAppDeletionDropped s)
  | NUidMapChanges n => Some (setUidMapChanges n s)
  | NUidMapMemory bytes => Some (setCurrentUidMapMemory bytes s)
  | NAnomalyAlarm => Some (noteRegisteredAnomalyAlarmChanged s)
  | NPeriodicAlarm => Some (noteRegisteredPeriodicAlarmChanged s)
  | NSystemServerRestart t => Some (noteSystemServerRestart t s)
  | NAtomLogged atomId => noteAtomLogged atomId s
  | NAtomError atomTag pull => Some (noteAtomError atomTag pull s)
  | NPullCount atomId c => Some (onPulled atomId (countPull c) s)
  | NMinPullInterval atomId sec => Some (updateMinPullIntervalSec atomId sec s)
  | NPullTime atomId ns => Some (notePullTime atomId ns s)
  | NPullDelay atomId ns => Some (notePullDelay atomId ns s)
  | NPullTimeout atomId uptime elapsed => Some (notePullTimeout atomId uptime elapsed s)
  | NMetricCount metricId c => Some (onMetricStats metricId (countMetric c) s)
  | NBucketBoundaryDelay metricId ns => Some (noteBucketBoundaryDelayNs metricId ns s)
  | NReset now => Some (reset now s)
  end.

Definition runNotes (notes : list Note) (s : StatsdStats) : option StatsdStats :=
  foldl (λ r n, s ← r; runNote n s) (Some s) notes.

Lemma runNotes_ind (P : list Note → StatsdStats → Prop) s0 :
  P [] s0 → (∀ notes n s s', P notes s → runNote n s = Some s' → P (notes ++ [n]) s') →
  ∀ notes s, runNotes notes s0 = Some s → P notes s.
Proof.
  intros H0 Hs notes. induction notes as [|n notes IH] using rev_ind; intros s H; [by injection H as <-|].
  unfold runNotes in *. rewrite foldl_app in H. cbn [foldl] in H. apply bind_Some in H as (s1 & E1 & E2).
  eapply Hs; [by apply IH|exact E2].
Qed.

(** ** Bounded lists *)

Definition lastn {A} (n : nat) (l : list A) : list A := drop (length l - n) l.

Lemma pushBounded_lastn {A} n (x : A) l : (0 < n)%nat → pushBounded n x (lastn n l) = lastn n (l ++ [x]).
Proof.
  intros Hn. unfold pushBounded, lastn. rewrite length_drop, length_app. cbn [length].
  destruct (Nat.eqb_spec (length l - (length l - n)) n) as [E|E].
  - replace (length l + 1 - n)%nat with (S (length l - n)) by lia. rewrite drop_app_le by lia. f_equal.
    rewrite <- Nat.add_1_r, <- drop_drop. by destruct (drop (length l - n) l).
  - replace (length l - n)%nat with 0%nat by lia. replace (length l + 1 - n)%nat with 0%nat by lia. done.
Qed.

Lemma pushBounded_length {A} n (x : A) l : (0 < n)%nat → (length l <= n)%nat → (length (pushBounded n x l) <= n)%nat.
Proof.
  intros Hn Hl. unfold pushBounded. rewrite length_app. cbn [length]. destruct (Nat.eqb_spec (length l) n); [|lia].
  destruct l; cbn [tail length] in *; lia.
Qed.

(** ** Memory *)

Record configWithin (c : ConfigStats) : Prop := {
  cw_times : ∀ l, (length (cs_times c l) <= 20)%nat;
  cw_drops : (length (data_drop_time_sec c) <= 20)%nat;
  cw_dropBytes : length (data_drop_bytes c) = length (data_drop_time_sec c);
  cw_dumps : (length (dump_report_stats c) <= 20)%nat
}.

Record within (s : StatsdStats) : Prop := {
  wi_iceBox : (length (mIceBox s) <= 20)%nat;
  wi_iceBoxConfigs : Forall configWithin (mIceBox s);
  wi_configs : map_Forall (λ _, configWithin) (mConfigStats s);
  wi_pushed : length (mPushedAtomStats s) = 501%nat;
  wi_nonPlatform : (base.size (mNonPlatformPushedAtomStats s) <= 100)%nat;
  wi_errors : (base.size (mPushedAtomErrorStats s) <= 100)%nat;
  wi_pulled : map_Forall (λ _ p, (length (pullTimeoutMetadata p) <= 20)%nat) (mPulledAtomStats s);
  wi_guardrail : map_Forall (λ _ times, (length times <= 20)%nat) (mActivationBroadcastGuardrailStats s);
  wi_logLoss : (length (mLogLossStats s) <= 20)%nat;
  wi_restarts : (length (mSystemServerRestartSec s) <= 20)%nat
}.

Lemma pushBounded_20 {A} (x : A) l : (length l <= 20)%nat → (length (pushBounded 20 x l) <= 20)%nat.
Proof. apply pushBounded_length. lia. Qed.

Lemma pushBounded_Forall {A} (P : A → Prop) n x l : P x → Forall P l → Forall P (pushBounded n x l).
Proof.
  intros Hx Hl. unfold pushBounded. apply Forall_app. split; [|by constructor]. destruct (_ =? _)%nat; [|done].
  destruct l; [done|]. by apply Forall_cons in Hl as [_ ?].
Qed.

Lemma within_iceBox c s : configWithin c → within s → within (addToIceBoxLocked c s).
Proof.
  intros Hc [H1 H2 H3 H4 H5 H6 H7 H8 H9 H10]. constructor; try assumption; cbn.
  - by apply pushBounded_20.
  - by apply pushBounded_Forall.
Qed.

Lemma within_setConfigs m s : map_Forall (λ _, configWithin) m → within s → within (st_configStats m s).
Proof. intros Hm [H1 H2 H3 H4 H5 H6 H7 H8 H9 H10]. by constructor. Qed.

Lemma within_onConfig key f s : (∀ c, configWithin c → configWithin (f c)) → within s → within (onConfig key f s).
Proof.
  intros Hf Hs. apply within_setConfigs; [|done]. intros k c.
  destruct (decide (k = key)) as [->|Hne].
  - rewrite lookup_alter_eq. intros (c0 & E & ->)%fmap_Some. apply Hf. by apply (wi_configs s Hs key).
  - rewrite lookup_alter_ne by done. apply (wi_configs s Hs k).
Qed.

Lemma within_removed now key s : within s → within (noteConfigRemoved now key s).
Proof.
  intros Hs. unfold noteConfigRemoved. destruct (mConfigStats s !! key) as [c|] eqn:E; [|done].
  apply within_setConfigs.
  - intros k c'. rewrite lookup_delete_Some. intros [_ H]. by apply (wi_configs s Hs k).
  - apply within_iceBox; [|done]. apply (wi_configs s Hs) in E. destruct E as [? ? ? ?]. by constructor.
Qed.

Lemma within_received now key m c ma al an valid s : within s → within (noteConfigReceived now key m c ma al an valid s).
Proof.
  intros Hs%(within_removed now key). unfold noteConfigReceived. set (s1 := noteConfigRemoved now key s) in *. cbv zeta.
  destruct valid; [|apply within_iceBox; [|done]; constructor; cbn; intros; lia].
  apply within_setConfigs; [|done]. apply map_Forall_insert_2; [|apply Hs]. constructor; cbn; intros; lia.
Qed.

Lemma within_time l t c : configWithin c → configWithin (pushTime l t c).
Proof.
  intros [H1 H2 H3 H4]. constructor; cbn; try done. intros l'. unfold update. destruct (decide (l' = l)) as [->|]; [by apply pushBounded_20|done].
Qed.

Lemma within_map l f c : configWithin c → configWithin (onMap l f c).
Proof. intros [H1 H2 H3 H4]. by constructor. Qed.

Lemma within_pulled atomId f s :
  (∀ p, (length (pullTimeoutMetadata p) <= 20)%nat → (length (pullTimeoutMetadata (f p)) <= 20)%nat) → within s → within (onPulled atomId f s).
Proof.
  intros Hf [H1 H2 H3 H4 H5 H6 H7 H8 H9 H10]. constructor; try assumption. cbn. apply map_Forall_insert_2; [|done]. apply Hf.
  destruct (mPulledAtomStats s !! atomId) eqn:E; cbn; [by apply (H7 _ _ E)|lia].
Qed.

Lemma size_increment k (m : gmap Z Z) n :
  (base.size m < n)%nat ∨ is_Some (m !! k) → (base.size m <= n)%nat → (base.size (increment k m) <= n)%nat.
Proof.
  intros H Hn. unfold increment. destruct (m !! k) eqn:E; [rewrite map_size_insert_Some; eauto|].
  destruct H as [H|[? ?]]; [|done]. rewrite map_size_insert_None by done. lia.
Qed.

Lemma within_note n s s' : runNote n s = Some s' → within s → within s'.
Proof.
  intros H Hs. destruct n; cbn [runNote] in H; try injection H as <-;
    try (destruct Hs as [H1 H2 H3 H4 H5 H6 H7 H8 H9 H10]; by constructor);
    try (apply within_onConfig; [intros c; first [apply within_time|apply within_map]|done]; fail);
    try (apply within_pulled; [done|done]; fail).
  - by apply within_received.
  - by apply within_removed.
  - apply within_onConfig; [|done]. intros c [? ? ? ?]. by constructor.
  - apply within_onConfig; [|done]. intros c [C1 C2 C3 C4]. constructor; cbn; try done.
    + by apply (pushBounded_20 t) in C2.
    + destruct (Nat.eqb_spec (length (data_drop_time_sec c)) kMaxTimestampCount); rewrite !length_app; cbn [length]; [|lia].
      destruct (data_drop_time_sec c), (data_drop_bytes c); cbn [tail length] in *; lia.
  - apply within_onConfig; [|done]. intros c [C1 C2 C3 C4]. constructor; cbn; try done. by apply pushBounded_20.
  - destruct Hs as [H1 H2 H3 H4 H5 H6 H7 H8 H9 H10]. constructor; try assumption. by apply pushBounded_20.
  - destruct Hs as [H1 H2 H3 H4 H5 H6 H7 H8 H9 H10]. constructor; try assumption. cbn. apply map_Forall_insert_2; [|done].
    apply pushBounded_20. destruct (mActivationBroadcastGuardrailStats s !! uid) eqn:E; cbn; [by apply (H8 _ _ E)|lia].
  - destruct Hs as [H1 H2 H3 H4 H5 H6 H7 H8 H9 H10]. constructor; try assumption. by apply pushBounded_20.
  - unfold noteAtomLogged in H. destruct (atomId <=? kMaxPushedAtomId).
    + destruct (atomId <? 0); [done|]. apply bind_Some in H as (k & _ & [= <-]).
      destruct Hs as [H1 H2 H3 H4 H5 H6 H7 H8 H9 H10]. constructor; try assumption. cbn. by rewrite length_insert.
    + injection H as <-. destruct (Nat.ltb_spec (base.size (mNonPlatformPushedAtomStats s)) kMaxNonPlatformPushedAtoms); [|done].
      destruct Hs as [H1 H2 H3 H4 H5 H6 H7 H8 H9 H10]. constructor; try assumption. cbn. apply size_increment; [by left|done].
  - unfold noteAtomError. destruct pull; [by apply within_pulled|]. cbv zeta.
    destruct (Nat.leb_spec kMaxPushedAtomErrorStatsSize (base.size (mPushedAtomErrorStats s))); cbn [negb orb].
    + case_bool_decide; [|done]. destruct Hs as [H1 H2 H3 H4 H5 H6 H7 H8 H9 H10]. constructor; try assumption.
      cbn. apply size_increment; [by right|done].
    + destruct Hs as [H1 H2 H3 H4 H5 H6 H7 H8 H9 H10]. constructor; try assumption. cbn. apply size_increment; [by left|done].
  - apply within_pulled; [|done]. intros p Hp. cbn. by apply pushBounded_20.
  - destruct Hs as [H1 H2 H3 H4 H5 H6 H7 H8 H9 H10].
    assert (Hc : map_Forall (λ _, configWithin) (mConfigStats (reset now s))).
    { intros k c. cbn. rewrite lookup_fmap. intros (c0 & E & ->)%fmap_Some. constructor; cbn; intros; lia. }
    assert (Hp : map_Forall (λ _ p, (length (pullTimeoutMetadata p) <= 20)%nat) (mPulledAtomStats (reset now s))).
    { intros k p. cbn. rewrite lookup_fmap. intros (p0 & E & ->)%fmap_Some. cbn. lia. }
    constructor; try assumption; cbn; try lia; [apply Forall_nil_2|by rewrite length_fmap|rewrite map_size_empty; lia|rewrite map_size_empty; lia|apply map_Forall_empty].
Qed.

Lemma runNotes_within now notes s : runNotes notes (StatsdStats_new now) = Some s → within s.
Proof.
  revert notes s. apply (runNotes_ind (λ _, within)); [|intros; by eapply within_note].
  constructor; cbn; [lia|apply Forall_nil_2|apply map_Forall_empty|apply length_replicate|rewrite map_size_empty; lia..| | |lia|lia];
    apply map_Forall_empty.
Qed.

(** Whatever is noted and however often, the memory of the statistics is bounded: at most 20 old configurations, 20 entries in every
    list of times, 100 atoms beyond those of the platform and 100 atoms with errors, and the table of platform atoms
    keeps its size. *)
Theorem stats_bounded now notes s : runNotes notes (StatsdStats_new now) = Some s → within s.
Proof. apply runNotes_within. Qed.

Lemma stats_bounded_witness :
  ∃ s, runNotes (replicate 30 (NSystemServerRestart 5) ++ [NAtomLogged 77; NAtomLogged 600]) (StatsdStats_new 1) = Some s ∧
    length (mSystemServerRestartSec s) = 20%nat ∧ within s.
Proof.
  assert (El : (λ s, length (mSystemServerRestartSec s)) <$>
    runNotes (replicate 30 (NSystemServerRestart 5) ++ [NAtomLogged 77; NAtomLogged 600]) (StatsdStats_new 1) = Some 20%nat)
    by (vm_compute; reflexivity).
  destruct (runNotes _ _) as [s|] eqn:E; [|discriminate El]. exists s. split; [reflexivity|]. split; [by injection El|].
  exact (stats_bounded _ _ s E).
Defined.

(** ** What the times are *)

(** All times noted for a configuration since it was received or the statistics were reset; [None] while it is not there. *)
Definition timesStep (key : ConfigKey) (l : TimeList) (times : option (list Z)) (n : Note) : option (list Z) :=
  match n with
  | NConfigReceived _ k _ _ _ _ _ valid => if decide (k = key) then (if valid then Some [] else None) else times
  | NConfigRemoved _ k => if decide (k = key) then None else times
  | NBroadcastSent k t => if decide (k = key ∧ l = broadcast_sent_time_sec) then (λ ts, ts ++ [t]) <$> times else times
  | NActiveStatusChanged k activated t =>
      if decide (k = key ∧ l = if activated then activation_time_sec else deactivation_time_sec)
      then (λ ts, ts ++ [t]) <$> times else times
  | NReset _ => (λ _, []) <$> times
  | _ => times
  end.
Definition timesOf (key : ConfigKey) (l : TimeList) (notes : list Note) : option (list Z) :=
  foldl (timesStep key l) None notes.

Definition keptTimes (key : ConfigKey) (l : TimeList) (s : StatsdStats) : option (list Z) :=
  (λ c, cs_times c l) <$> mConfigStats s !! key.

Lemma keptTimes_onConfig key l k f s :
  keptTimes key l (onConfig k f s) = if decide (k = key) then (λ c, cs_times (f c) l) <$> mConfigStats s !! key else keptTimes key l s.
Proof.
  unfold keptTimes, onConfig. cbn. destruct (decide (k = key)) as [->|Hne].
  - rewrite lookup_alter_eq. by destruct (mConfigStats s !! key).
  - by rewrite lookup_alter_ne.
Qed.

Lemma keptTimes_same key l k f s : (∀ c, cs_times (f c) = cs_times c) → keptTimes key l (onConfig k f s) = keptTimes key l s.
Proof. intros Hf. rewrite keptTimes_onConfig. destruct (decide _); [|done]. unfold keptTimes. destruct (_ !! key); cbn; [by rewrite Hf|done]. Qed.

Lemma keptTimes_push key l k l' t s times :
  keptTimes key l s = lastn 20 <$> times →
  keptTimes key l (onConfig k (pushTime l' t) s)
  = lastn 20 <$> (if decide (k = key ∧ l = l') then (λ ts, ts ++ [t]) <$> times else times).
Proof.
  intros H. rewrite keptTimes_onConfig. destruct (decide (k = key)) as [->|Hk].
  2: { rewrite decide_False by tauto. exact H. }
  unfold keptTimes in H. destruct (mConfigStats s !! key) as [c|]; cbn in *; [|destruct times; [done|by destruct (decide _)]].
  destruct times as [ts|]; [|done]. injection H as H. unfold update. destruct (decide (l = l')) as [->|Hl].
  - rewrite decide_True by done. cbn. rewrite H. f_equal. apply (pushBounded_lastn 20); lia.
  - rewrite decide_False by tauto. cbn. by rewrite H.
Qed.

Lemma keptTimes_removed now key l k s :
  keptTimes key l (noteConfigRemoved now k s) = if decide (k = key) then None else keptTimes key l s.
Proof.
  unfold keptTimes, noteConfigRemoved. destruct (mConfigStats s !! k) as [c|] eqn:E; cbn.
  - destruct (decide (k = key)) as [->|]; [by rewrite lookup_delete_eq|by rewrite lookup_delete_ne].
  - destruct (decide (k = key)) as [->|]; [by rewrite E|done].
Qed.

(** C36: The times kept for a configuration (broadcasts, activations, deactivations) are the last twenty of all that were noted since it
    was received or the statistics were reset, through every interleaving with other notes. *)
Theorem times_are_latest now notes s key l :
  runNotes notes (StatsdStats_new now) = Some s → keptTimes key l s = lastn 20 <$> timesOf key l notes.
Proof.
  revert notes s. apply (runNotes_ind (λ notes s, keptTimes key l s = lastn 20 <$> timesOf key l notes)); [done|].
  intros notes n s s' IH H. unfold timesOf in *. rewrite foldl_app. cbn [foldl]. set (times := foldl _ _ notes) in *. clearbody times.
  destruct n; cbn [runNote timesStep] in *; try injection H as <-; try exact IH;
    try (rewrite <- IH; apply keptTimes_same; done); try (by apply keptTimes_push).
  - unfold noteConfigReceived. cbv zeta. destruct valid.
    + unfold keptTimes at 1. cbn. destruct (decide (key0 = key)) as [->|Hne]; [by rewrite lookup_insert_eq|].
      rewrite lookup_insert_ne by done. rewrite <- IH. pose proof (keptTimes_removed now0 key l key0 s) as Hr. rewrite decide_False in Hr by done.
      exact Hr.
    + change (keptTimes key l (addToIceBoxLocked ?c ?r)) with (keptTimes key l r). rewrite keptTimes_removed. by destruct (decide _).
  - rewrite keptTimes_removed. by destruct (decide _).
  - unfold noteAtomLogged in H. destruct (_ <=? _); [destruct (_ <? _); [done|]; apply bind_Some in H as (x & _ & [= <-]); exact IH|].
    injection H as <-. by destruct (_ <? _)%nat.
  - unfold noteAtomError. destruct pull; [exact IH|]. cbv zeta. by destruct (_ || _).
  - unfold keptTimes in *. cbn. rewrite lookup_fmap. destruct (mConfigStats s !! key), times; cbn in *; done.
Qed.

Lemma times_are_latest_witness :
  let notes := NConfigReceived 1 (1000, 7) 1 1 1 1 [] true :: (NBroadcastSent (1000, 7) <$> seqZ 1 30) in
  ∃ s, runNotes notes (StatsdStats_new 0) = Some s ∧
    keptTimes (1000, 7) broadcast_sent_time_sec s = lastn 20 <$> timesOf (1000, 7) broadcast_sent_time_sec notes ∧
    keptTimes (1000, 7) broadcast_sent_time_sec s = Some (seqZ 11 20).
Proof.
  intros notes. assert (El : (λ s, keptTimes (1000, 7) broadcast_sent_time_sec s) <$> runNotes notes (StatsdStats_new 0) = Some (Some (seqZ 11 20)))
    by (vm_compute; reflexivity).
  destruct (runNotes notes _) as [s|] eqn:E; [|discriminate El]. exists s. split; [reflexivity|].
  split; [exact (times_are_latest 0 notes s _ _ E)|]. by injection El.
Defined.

(** ** Atoms *)

(** The table of platform atoms counts exactly the events logged with each id since the last reset, and a negative id, which a
    client may send, is a write before the table. *)
Theorem platform_atoms_counted now notes atomId :
  0 <= atomId <= 500 →
  match runNotes notes (StatsdStats_new now) with
  | Some s => mPushedAtomStats s !! Z.to_nat atomId
              = Some (foldl (λ k n, match n with NAtomLogged a => if a =? atomId then k + 1 else k | NReset _ => 0 | _ => k end) 0 notes)
  | None => ∃ a, a < 0 ∧ NAtomLogged a ∈ notes
  end.
Proof.
  intros Ha. induction notes as [|n notes IH] using rev_ind.
  - cbn [runNotes foldl]. cbn. apply lookup_replicate_2. unfold kMaxPushedAtomId. lia.
  - unfold runNotes in *. rewrite !foldl_app. cbn [foldl]. destruct (foldl _ (Some _) notes) as [s|] eqn:E; cbn [mbind option_bind].
    2: { destruct IH as (a & H1 & H2). exists a. split; [done|]. apply elem_of_app. by left. }
    fold (runNotes notes (StatsdStats_new now)) in E. pose proof (wi_pushed s (runNotes_within _ _ _ E)) as Hlen.
    set (k := foldl _ 0 notes) in *. clearbody k. destruct n; cbn [runNote]; try exact IH.
    + unfold noteConfigReceived, noteConfigRemoved. destruct (mConfigStats s !! _); by destruct valid.
    + unfold noteConfigRemoved. by destruct (mConfigStats s !! _).
    + unfold noteAtomLogged. destruct (Z.leb_spec atomId0 kMaxPushedAtomId) as [Hle|Hgt].
      * destruct (Z.ltb_spec atomId0 0) as [Hneg|Hpos]; [exists atomId0; split; [done|]; apply elem_of_app; right; left|].
        destruct (lookup_lt_is_Some_2 (mPushedAtomStats s) (Z.to_nat atomId0)) as [x Hx]; [unfold kMaxPushedAtomId in *; lia|].
        rewrite Hx. cbn. destruct (Z.eqb_spec atomId0 atomId) as [->|Hne].
        -- rewrite list_lookup_insert_eq by lia. congruence.
        -- rewrite list_lookup_insert_ne by lia. exact IH.
      * rewrite (proj2 (Z.eqb_neq _ _)) by (unfold kMaxPushedAtomId in *; lia). by destruct (_ <? _)%nat.
    + unfold noteAtomError. destruct pull; [exact IH|]. cbv zeta. by destruct (_ || _).
    + cbn. rewrite list_lookup_fmap, IH. done.
Qed.

Lemma platform_atoms_counted_witness :
  let notes := [NAtomLogged 7; NAtomLogged 600; NAtomLogged 500; NAtomLogged 7] in
  0 <= 7 <= 500 ∧ (λ s, mPushedAtomStats s !! 7%nat) <$> runNotes notes (StatsdStats_new 0) = Some (Some 2) ∧
  runNotes (notes ++ [NAtomLogged (-1)]) (StatsdStats_new 0) = None.
Proof.
  intros notes. split; [lia|]. pose proof (platform_atoms_counted 0 notes 7 ltac:(lia)) as H.
  split; [|vm_compute; reflexivity].
  assert (Hn : is_Some (runNotes notes (StatsdStats_new 0))) by (exists (default (StatsdStats_new 0) (runNotes notes (StatsdStats_new 0))); vm_compute; reflexivity).
  destruct (runNotes notes _) as [s|]; [|by destruct Hn]. cbn [fmap option_fmap option_map]. f_equal. exact H.
Defined.

(** The bytes of an event with atom id -1: the parser takes it as valid. *)
Definition negativeAtom : list Z := [7; 2; 1; 9; 0; 0; 0; 0; 0; 0; 0; 0; 255; 255; 255; 255].

Lemma negative_tag_parsed uninit :
  (λ r, (fst r, mTagId (snd r))) <$> parseBuffer negativeAtom 16 (LogEvent_new uninit) = Some (true, -1).
Proof. vm_compute. reflexivity. Qed.

(** Noting dropped changes of the uid map adds the count to itself: [n] notes of one change each count [2 ^ n - 1]. *)
Lemma dropped_changes_doubled now n :
  dropped_changes (mUidMapStats (Nat.iter n (noteUidMapDropped 1) (StatsdStats_new now))) = 2 ^ Z.of_nat n - 1.
Proof.
  induction n as [|n IH]; [done|]. change (let d := dropped_changes (mUidMapStats (Nat.iter n (noteUidMapDropped 1) (StatsdStats_new now))) in d + (d + 1) = 2 ^ Z.of_nat (S n) - 1).
  cbv zeta. rewrite IH, Nat2Z.inj_succ, Z.pow_succ_r; lia.
Qed.
