(* ===== verification/StatsdWriter.v ===== *)
(** * Sending events from a client (lib/libstatssocket/statsd_writer.c, stats_buffer_writer.c)

    A client sends each event as one datagram.  Events that could not be sent are counted, and the count is sent
    to statsd ahead of the next event.

    The kernel is a parameter: what a system call returns and does to the state of the outside; a negative result
    is [-errno].  The headers of liblog are the parameter [LogFormat]. *)
From S2P Require Import Prelude FieldValue DimensionKey LogEvent StatsEvent.

(** [android_log_header_t] and [android_log_event_long_t] of liblog: the size of the first; the bytes of the second
    with its tag, the type of its payload and its payload, and how they are read from memory. *)
Record LogFormat := mkLogFormat {
  sizeof_header : nat;
  sizeof_event_long : nat;
  EVENT_TYPE_LONG : Z;
  event_long_bytes : Z → Z → Z → list Z;
  event_long_tag : list Z → Z;
  event_long_type : list Z → Z;
  event_long_data : list Z → Z
}.

Record Kernel (S : Type) := mkKernel {
  sys_socket : S → Z * S;
  sys_connect : Z → S → Z * S;
  sys_writev : Z → list Z → S → Z * S;
  sys_close : Z → S → S;
  (** [pthread_mutex_trylock]: whether the lock was taken. *)
  sys_trylock : S → bool * S
}.
Arguments sys_socket {S}.
Arguments sys_connect {S}.
Arguments sys_writev {S}.
Arguments sys_close {S}.
Arguments sys_trylock {S}.

Definition ENOENT : Z := 2.
Definition EBADF : Z := 9.
Definition ENODEV : Z := 19.
Definition EINVAL : Z := 22.
Definition ENOTCONN : Z := 107.
Definition ECONNREFUSED : Z := 111.

Definition kStatsEventTag : Z := 1937006964.

(** The static variables: [statsdLoggerWrite.sock], a descriptor or a negative error; the counters of dropped
    events; whether [__write_to_statsd] is the function that writes. *)
Record Writer := mkWriter { sock : Z; dropped : Z; log_error : Z; atom_tag : Z; ready : bool }.

Definition Writer_init : Writer := mkWriter (- EBADF) 0 0 0 false.

Definition set_sock (x : Z) (w : Writer) : Writer := mkWriter x (dropped w) (log_error w) (atom_tag w) (ready w).
Definition set_dropped (x : Z) (w : Writer) : Writer := mkWriter (sock w) x (log_error w) (atom_tag w) (ready w).
Definition set_ready (x : bool) (w : Writer) : Writer := mkWriter (sock w) (dropped w) (log_error w) (atom_tag w) x.

(** The errors after which the socket is opened again. *)
Definition reconnectable (ret : Z) : bool := (ret =? - ENOTCONN) || (ret =? - ECONNREFUSED) || (ret =? - ENOENT).

Definition statsdNoteDrop (error tag : Z) (w : Writer) : Writer :=
  mkWriter (sock w) (wrap32 (dropped w + 1)) error tag (ready w).

Section writer.
Context (fmt : LogFormat) {S : Type} (kernel : Kernel S).

Definition statsdOpen (w : Writer) (s : S) : Z * Writer * S :=
  if sock w <? 0 then
    let '(fd, s) := sys_socket kernel s in
    if fd <? 0 then (fd, w, s)
    else
      let '(ret, s) := sys_connect kernel fd s in
      if ret <? 0 then (ret, if reconnectable ret then set_sock ret w else w, sys_close kernel fd s)
      else
        let old := sock w in
        (0, set_sock fd w, if (0 <=? old) && negb (old =? fd) then sys_close kernel old s else s)
  else (0, w, s).

(** [__statsdClose] *)
Definition closeSocket (negative_errno : Z) (w : Writer) (s : S) : Writer * S :=
  (set_sock negative_errno w, if 0 <=? sock w then sys_close kernel (sock w) s else s).

Definition statsdClose : Writer → S → Writer * S := closeSocket (- EBADF).

Definition statsdIsClosed (w : Writer) : bool := sock w <? 0.

(** The error and the atom of the last dropped event and the number of events go to statsd in one message; if it
    cannot be sent, the number is added again. *)
Definition tellDropped (header : list Z) (fd : Z) (w : Writer) (s : S) : Writer * S :=
  let snapshot := dropped w in
  let w := set_dropped 0 w in
  if snapshot =? 0 then (w, s)
  else
    let composed_long := wrap64 (Z.lor (Z.shiftl (atom_tag w) 32) snapshot) in
    let '(ret, s) := sys_writev kernel fd (header ++ event_long_bytes fmt (log_error w) (EVENT_TYPE_LONG fmt) composed_long) s in
    (if ret =? Z.of_nat (sizeof_header fmt + sizeof_event_long fmt) then w
     else set_dropped (wrap32 (dropped w + snapshot)) w, s).

(** The loop that cuts the payload off at its limit. *)
Fixpoint payloadVec (payloadSize : Z) (vec : list (list Z)) : list (list Z) :=
  match vec with
  | [] => []
  | v :: vec =>
      let payloadSize := payloadSize + Z.of_nat (length v) in
      if LOGGER_ENTRY_MAX_PAYLOAD <? payloadSize then
        let v := take (Z.to_nat (Z.of_nat (length v) - (payloadSize - LOGGER_ENTRY_MAX_PAYLOAD))) v in
        if (length v =? 0)%nat then [] else [v]
      else v :: payloadVec payloadSize vec
  end.

(** [if (ret > sizeof(header)) ret -= sizeof(header)] *)
Definition propagated (ret : Z) : Z := if Z.of_nat (sizeof_header fmt) <? ret then ret - Z.of_nat (sizeof_header fmt) else ret.

Definition statsdWrite (header : list Z) (vec : list (list Z)) (w : Writer) (s : S) : Z * Writer * S :=
  let fd := sock w in
  if (fd <? 0) && negb (reconnectable fd) then (- EBADF, w, s)
  else
    let '(w, s) := if 0 <=? fd then tellDropped header fd w s else (w, s) in
    let newVec := header ++ concat (payloadVec 0 vec) in
    let '(ret, s) := if fd <? 0 then (fd, s) else sys_writev kernel fd newVec s in
    if reconnectable ret then
      let '(locked, s) := sys_trylock kernel s in
      if negb locked then (ret, w, s)
      else
        let '(w, s) := closeSocket ret w s in
        let '(ret, w, s) := statsdOpen w s in
        if ret <? 0 then (ret, w, s)
        else
          let '(ret, s) := sys_writev kernel (sock w) newVec s in
          (propagated ret, w, s)
    else (propagated ret, w, s).

(** ** stats_buffer_writer.c *)

(** [__write_to_stats_daemon] *)
Definition write_to_stats_daemon (header : list Z) (vec : list (list Z)) (w : Writer) (s : S) : Z * Writer * S :=
  if (length (concat vec) =? 0)%nat then (- EINVAL, w, s) else statsdWrite header vec w s.

(** [__write_to_statsd_initialize_locked] *)
Definition initialize_locked (w : Writer) (s : S) : Z * Writer * S :=
  let '(ret, w, s) := statsdOpen w s in
  if ret <? 0 then let '(w, s) := statsdClose w s in (- ENODEV, w, s) else (1, w, s).

(** A call through [__write_to_statsd], which is [__write_to_statsd_init] at first. *)
Definition write_to_statsd (header : list Z) (vec : list (list Z)) (w : Writer) (s : S) : Z * Writer * S :=
  if ready w then write_to_stats_daemon header vec w s
  else
    let '(ret, w, s) := initialize_locked w s in
    if ret <? 0 then (ret, w, s) else write_to_stats_daemon header vec (set_ready true w) s.

Definition tagBytes : list Z := le_encode 4 kStatsEventTag.

Definition write_buffer_to_statsd (header buffer : list Z) (atomId : Z) (w : Writer) (s : S) : Z * Writer * S :=
  let '(ret, w, s) := write_to_statsd header [tagBytes; buffer] w s in
  (ret, if ret <? 0 then statsdNoteDrop ret atomId w else w, s).

Definition stats_log_close (w : Writer) (s : S) : Writer * S := statsdClose (set_ready false w) s.
Definition stats_log_is_closed (w : Writer) : bool := statsdIsClosed w.

(** [AStatsEvent_write] of stats_event.c: the event is built and sent. *)
Definition AStatsEvent_write (junk : Z) (header : list Z) (e : AStatsEvent) (w : Writer) (s : S)
    : option (AStatsEvent * (Z * Writer * S)) :=
  '(e, (buffer, id)) ← write junk e;
  Some (e, write_buffer_to_statsd header buffer id w s).
End writer.
