(* ===== verification/SocketListener.v ===== *)
(** * Receiving events (socket/StatsSocketListener.cpp)

    Every datagram is an event, which is parsed and queued, or the number of events a client could not send.  The
    buffer on the stack keeps the bytes of earlier calls behind the datagram: they are the argument [stale].
    [None] is a read outside of the buffer, or the undefined front of an empty queue. *)
From S2P Require Import Prelude FieldValue DimensionKey Matchers LogEvent LogEventQueue StatsEvent StatsdWriter StatsdStats TrainEvents.

Definition DEFAULT_OVERFLOWUID : Z := 65534.

(** An event in the queue: who logged it, and what was parsed. *)
Definition QueuedEvent : Type := Logger * Parsing.

Section listener.
Context (fmt : LogFormat).

(** The size of the buffer without its last byte, which is for a terminator. *)
Definition bufferLimit : nat := sizeof_header fmt + Z.to_nat LOGGER_ENTRY_MAX_PAYLOAD.

(** [buffer] after [recvmsg] and [buffer\[n\] = 0] *)
Definition bufferAfter (stale datagram : list Z) : list Z := datagram ++ 0 :: drop (length datagram + 1) stale.

(** [(int32_t)(0xffffffff & composed_long)] and the upper half *)
Definition droppedCount (composed_long : Z) : Z := wrap32 (Z.land 0xffffffff composed_long).
Definition lastAtomTag (composed_long : Z) : Z :=
  wrap32 (Z.shiftr (Z.land 0xffffffff00000000 (composed_long mod 2 ^ 64)) 32).

(** The tail of [onDataAvailable]: an event with its credentials is parsed and pushed. *)
Definition pushEvent (uninit elapsedNs uid pid : Z) (msg : list Z) (len : Z) (st : StatsdStats) (q : LogEventQueue QueuedEvent)
    : option (bool * StatsdStats * LogEventQueue QueuedEvent) :=
  '(_, logEvent) ← parseBuffer msg len (LogEvent_new uninit);
  '(r, q) ← queue_push (mElapsedTimestampNs ∘ snd) (mkLogger uid pid, logEvent) q;
  match r with
  | Pushed => Some (true, st, q)
  | Full oldestTimestamp => Some (true, noteEventQueueOverflow elapsedNs oldestTimestamp st, q)
  end.

(** [received]: what [recvmsg] returns, cut off at the size of the buffer, and the credentials of the sender (pid, uid). *)
Definition onDataAvailable (uninit wallClockSec elapsedNs : Z) (stale : list Z) (received : option (list Z)) (cred : option (Z * Z))
    (st : StatsdStats) (q : LogEventQueue QueuedEvent) : option (bool * StatsdStats * LogEventQueue QueuedEvent) :=
  match received with
  | None => Some (false, st, q)
  | Some message =>
      let datagram := take bufferLimit message in
      if (length datagram <=? sizeof_header fmt)%nat then Some (false, st, q)
      else
        let '(pid, uid) := default (0, DEFAULT_OVERFLOWUID) cred in
        let ptr := drop (sizeof_header fmt) (bufferAfter stale datagram) in
        let n := Z.of_nat (length datagram) - Z.of_nat (sizeof_header fmt) in
        if (n =? Z.of_nat (sizeof_event_long fmt)) && (event_long_type fmt ptr =? EVENT_TYPE_LONG fmt) then
          let composed_long := event_long_data fmt ptr in
          Some (true,
                noteLogLost (wrap32 wallClockSec) (droppedCount composed_long) (event_long_tag fmt ptr) (lastAtomTag composed_long) uid pid st,
                q)
        else pushEvent uninit elapsedNs uid pid (drop 4 ptr) (u32 (n - 4)) st q
  end.
End listener.
