(* ===== verification/SocketFacts.v ===== *)
(** * Facts on the way of an event from a client to statsd

    What a client writes arrives in the queue of statsd as it was written, and events that could not be sent are
    counted exactly once. *)
From S2P Require Import Prelude UMap FieldValue FieldValueFacts DimensionKey Matchers LogEvent LogEventFacts LogEventQueue.
From S2P Require Import StatsEvent StatsEventFacts TrainEvents StatsdStats StatsdWriter SocketListener.

(** ** The parser ignores what lies behind its buffer *)

Definition behind (rest : list Z) (e : Parsing) : Parsing := set_buf (mBuf e ++ rest) (mRemainingLen e) e.

(** What [m] does when it succeeds does not depend on the memory behind the buffer. *)
Definition stable {A} (m : Parser A) : Prop :=
  ∀ rest e a e', m e = Some (a, e') → m (behind rest e) = Some (a, behind rest e').

Lemma stable_ret {A} (a : A) : stable (mret a).
Proof. by intros rest e ? ? [= <- <-]. Qed.

Lemma stable_bind {A B} (m : Parser A) (f : A → Parser B) : stable m → (∀ a, stable (f a)) → stable (m ≫= f).
Proof.
  intros Hm Hf rest e b e' H. unfold mbind, parser_bind in *. destruct (m e) as [[a e1]|] eqn:E; [|done].
  rewrite (Hm rest _ _ _ E). by apply Hf.
Qed.

Lemma stable_get {A} (f : Parsing → Parser A) :
  (∀ rest e, f (behind rest e) = f e) → (∀ e, stable (f e)) → stable (get ≫= f).
Proof. intros He Hf rest e a e' H. unfold mbind, parser_bind, get in *. rewrite He. by apply Hf. Qed.

Lemma stable_modify f : (∀ rest e, f (behind rest e) = behind rest (f e)) → stable (modify f).
Proof. intros Hf rest e a e' [= <- <-]. unfold modify. by rewrite Hf. Qed.

Lemma stable_readNext n : stable (readNext n).
Proof.
  intros rest e a e' H. unfold readNext in *. unfold mbind, parser_bind, get, invalidate, modify, mret, parser_ret, fault in *.
  cbn [behind mRemainingLen set_buf mBuf]. destruct (_ <? _); [by injection H as <- <-|].
  destruct (Nat.ltb_spec (length (mBuf e)) n); [done|]. destruct (Nat.ltb_spec (length (mBuf e ++ rest)) n) as [Hl|_];
    [rewrite length_app in Hl; lia|]. injection H as <- <-. by rewrite take_app_le, drop_app_le by lia.
Qed.

Lemma stable_annotate i f : stable (annotate i f).
Proof.
  unfold annotate. apply stable_get; [done|]. intros e. destruct (i <? 0); [done|]. destruct (le_values e !! _); [|done].
  by apply stable_modify.
Qed.

Lemma stable_invalidate : stable invalidate.
Proof. by apply stable_modify. Qed.

Lemma stable_addToValues pos depth v l : stable (addToValues pos depth v l).
Proof. by apply stable_modify. Qed.

Lemma stable_require b : stable (require b).
Proof. destruct b; [apply stable_ret|apply stable_invalidate]. Qed.

Create HintDb stable.
#[local] Hint Resolve stable_ret stable_readNext stable_annotate stable_invalidate stable_addToValues stable_require : stable.

(** Goes through a parser step by step. *)
Ltac stable :=
  repeat match goal with
  | |- stable (if ?b then _ else _) => destruct b
  | |- stable (match ?b with Some _ => _ | None => _ end) => destruct b
  | |- stable (get ≫= _) => apply stable_get; [done|intros ?]
  | |- stable (modify _) => by apply stable_modify
  | |- stable (_ ≫= _) => apply stable_bind; [|intros ?]
  | |- stable (let _ := _ in _) => cbv zeta
  | |- _ => solve [eauto with stable]
  end.

Lemma stable_read : stable read_uint8 ∧ stable read_int32 ∧ stable read_int64 ∧ stable read_bool ∧ stable read_float.
Proof. unfold read_uint8, read_int32, read_int64, read_bool, read_float. split_and!; stable. Qed.

Lemma stable_readBlock : stable readBlock.
Proof.
  unfold readBlock. apply stable_bind; [apply stable_read|]. intros n rest e a e' H.
  unfold mbind, parser_bind, get, invalidate, modify, mret, parser_ret, fault in *. cbn [behind mRemainingLen set_buf mBuf].
  destruct (_ <? _); [by injection H as <- <-|].
  destruct (Z.ltb_spec n 0); [done|]. destruct (Z.ltb_spec (Z.of_nat (length (mBuf e))) n); [done|].
  destruct (Z.ltb_spec (Z.of_nat (length (mBuf e ++ rest))) n) as [Hl|_]; [rewrite length_app in Hl; lia|].
  injection H as <- <-. by rewrite take_app_le, drop_app_le by lia.
Qed.

Lemma stable_uint8 : stable read_uint8. Proof. apply stable_read. Qed.
Lemma stable_int32 : stable read_int32. Proof. apply stable_read. Qed.
Lemma stable_int64 : stable read_int64. Proof. apply stable_read. Qed.
Lemma stable_bool : stable read_bool. Proof. apply stable_read. Qed.
Lemma stable_float : stable read_float. Proof. apply stable_read. Qed.
#[local] Hint Resolve stable_readBlock stable_uint8 stable_int32 stable_int64 stable_bool stable_float : stable.

Lemma stable_annotation first : stable (parseAnnotation first).
Proof.
  unfold parseAnnotation, parseIsUidAnnotation, parseTruncateTimestampAnnotation, parsePrimaryFieldAnnotation,
    parsePrimaryFieldFirstUidAnnotation, parseExclusiveStateAnnotation, parseTriggerStateResetAnnotation, parseStateNestedAnnotation. stable.
Qed.
#[local] Hint Resolve stable_annotation : stable.

Lemma stable_annotations n first : stable (parseAnnotations n first).
Proof. induction n as [|n IH]; cbn [parseAnnotations]; stable. Qed.
#[local] Hint Resolve stable_annotations : stable.

Lemma stable_field_values pos depth l n :
  stable (parseInt32 pos depth l n) ∧ stable (parseInt64 pos depth l n) ∧ stable (parseString pos depth l n) ∧
  stable (parseFloat pos depth l n) ∧ stable (parseBool pos depth l n) ∧ stable (parseByteArray pos depth l n).
Proof. unfold parseInt32, parseInt64, parseString, parseFloat, parseBool, parseByteArray. split_and!; stable. Qed.

Lemma stable_nodes node pos total n : (∀ pos l, stable (node pos l)) → ∀ l i, stable (parseNodes node pos l total n i).
Proof. intros Hn. induction n as [|n IH]; intros l i; cbn [parseNodes]; stable; apply IH. Qed.

Lemma stable_chain pos l n : stable (parseAttributionChain pos l n).
Proof.
  unfold parseAttributionChain. stable. apply stable_nodes. intros p b. unfold parseAttributionNode.
  stable; eapply stable_field_values.
Qed.

Lemma stable_pairs pos l n : stable (parseKeyValuePairs pos l n).
Proof.
  unfold parseKeyValuePairs. stable. apply stable_nodes. intros p b. unfold parseKeyValuePair.
  stable; eapply stable_field_values.
Qed.

Lemma stable_field pos l : stable (parseField pos l).
Proof.
  unfold parseField. stable; first [apply stable_pairs|apply stable_chain|eapply stable_field_values].
Qed.

Lemma stable_fields total n : ∀ i, stable (parseFields total n i).
Proof. induction n as [|n IH]; intros i; cbn [parseFields]; stable. apply stable_field. Qed.

Lemma stable_body : stable parseBody.
Proof. unfold parseBody. stable. apply stable_fields. Qed.

(** A buffer that was parsed without reading past its end is parsed to the same event wherever it lies. *)
Lemma parseBuffer_behind rest b len e r : parseBuffer b len e = Some r → parseBuffer (b ++ rest) len e = Some r.
Proof.
  unfold parseBuffer. destruct (parseBody (set_buf b (u32 len) e)) as [[v e']|] eqn:E; [|done].
  intros H. pose proof (stable_body rest _ _ _ E) as Hs. unfold behind in Hs. cbn [set_buf mBuf mRemainingLen] in Hs.
  match goal with |- match parseBody ?x with _ => _ end = _ => change (parseBody x = Some (v, behind rest e')) in Hs end.
  rewrite Hs. exact H.
Qed.

(** ** What is relied on *)

(** The layout of the messages of liblog: packed structures, in which the type of the payload follows a tag of four bytes. *)
Record FormatLaws (fmt : LogFormat) : Prop := {
  fl_length tag type data : length (event_long_bytes fmt tag type data) = sizeof_event_long fmt;
  fl_tag tag type data rest : wrap32 tag = tag → event_long_tag fmt (event_long_bytes fmt tag type data ++ rest) = tag;
  fl_type tag type data rest : 0 <= type < 128 → event_long_type fmt (event_long_bytes fmt tag type data ++ rest) = type;
  fl_data tag type data rest : wrap64 data = data → event_long_data fmt (event_long_bytes fmt tag type data ++ rest) = data;
  fl_type_byte a b c d type rest : 0 <= type < 128 → event_long_type fmt (a :: b :: c :: d :: type :: rest) = type;
  fl_size : (0 < sizeof_event_long fmt <= 64)%nat;
  fl_long : 0 <= EVENT_TYPE_LONG fmt < 128 ∧ EVENT_TYPE_LONG fmt ≠ OBJECT_TYPE
}.

(** A datagram is sent whole or not at all; nothing else sends. *)
Record KernelLaws {S : Type} (kernel : Kernel S) (delivered : S → list (list Z)) : Prop := {
  kl_socket s : delivered (sys_socket kernel s).2 = delivered s;
  kl_connect fd s : delivered (sys_connect kernel fd s).2 = delivered s;
  kl_close fd s : delivered (sys_close kernel fd s) = delivered s;
  kl_trylock s : delivered (sys_trylock kernel s).2 = delivered s;
  kl_writev fd data s :
    ((sys_writev kernel fd data s).1 = Z.of_nat (length data) ∧ delivered (sys_writev kernel fd data s).2 = delivered s ++ [data])
    ∨ ((sys_writev kernel fd data s).1 < 0 ∧ delivered (sys_writev kernel fd data s).2 = delivered s)
}.

(** ** The number of dropped events on the wire *)

Lemma compose_halves t n : 0 <= n < 2 ^ 32 → Z.lor (Z.shiftl t 32) n = t * 2 ^ 32 + n.
Proof.
  intros Hn. rewrite <- Z.shiftl_mul_pow2 by lia. pose proof (Z.add_lor_land (Z.shiftl t 32) n) as H.
  enough (Z.land (Z.shiftl t 32) n = 0) by lia. apply Z.bits_inj'. intros i Hi. rewrite Z.land_spec, Z.bits_0.
  destruct (Z.lt_ge_cases i 32); [by rewrite Z.shiftl_spec_low|].
  replace n with (n mod 2 ^ 32) by (by apply Z.mod_small). rewrite Z.mod_pow2_bits_high by lia. apply andb_false_r.
Qed.

Definition composed (tag count : Z) : Z := wrap64 (Z.lor (Z.shiftl tag 32) count).

Lemma composed_eq tag count : wrap32 tag = tag → 0 <= count < 2 ^ 31 → composed tag count = tag * 2 ^ 32 + count.
Proof.
  intros Ht Hc. unfold composed. rewrite compose_halves by lia. pose proof (wrap32_range tag) as Hr. rewrite Ht in Hr.
  apply wrap64_id. unfold int32, int64 in *. lia.
Qed.

Lemma droppedCount_composed tag count : wrap32 tag = tag → 0 <= count < 2 ^ 31 → droppedCount (composed tag count) = count.
Proof.
  intros Ht Hc. rewrite composed_eq by done. unfold droppedCount. change 0xffffffff with (Z.ones 32).
  rewrite Z.land_comm, Z.land_ones by lia. rewrite Z.add_comm, Z.mod_add by lia. rewrite Z.mod_small by lia.
  apply wrap32_id. unfold int32. lia.
Qed.

Lemma lastAtomTag_composed tag count : wrap32 tag = tag → 0 <= count < 2 ^ 31 → lastAtomTag (composed tag count) = tag.
Proof.
  intros Ht Hc. rewrite composed_eq by done. unfold lastAtomTag. rewrite Z.shiftr_land.
  change (Z.shiftr 0xffffffff00000000 32) with (Z.ones 32). rewrite Z.land_comm, Z.land_ones by lia.
  rewrite Z.shiftr_div_pow2 by lia. change (2 ^ 64) with (2 ^ 32 * 2 ^ 32). rewrite Z.rem_mul_r by lia.
  rewrite (Z.add_comm (tag * 2 ^ 32)), Z.mod_add, Z.div_add, (Z.mod_small count), (Z.div_small count) by lia.
  rewrite Z.add_0_l, (Z.mul_comm (2 ^ 32)), Z.div_add, Z.div_small, Z.add_0_l, Zmod_mod, wrap32_mod by lia. done.
Qed.

(** ** The payload *)

Lemma payloadVec_take vec : ∀ k, 0 <= k <= LOGGER_ENTRY_MAX_PAYLOAD →
  concat (payloadVec k vec) = take (Z.to_nat (LOGGER_ENTRY_MAX_PAYLOAD - k)) (concat vec).
Proof.
  induction vec as [|v vec IH]; intros k Hk; cbn [payloadVec concat]; [by rewrite take_nil|].
  destruct (Z.ltb_spec LOGGER_ENTRY_MAX_PAYLOAD (k + Z.of_nat (length v))).
  - rewrite take_app_le by lia. replace (Z.of_nat (length v) - _) with (LOGGER_ENTRY_MAX_PAYLOAD - k) by lia.
    destruct (Nat.eqb_spec (length (take (Z.to_nat (LOGGER_ENTRY_MAX_PAYLOAD - k)) v)) 0) as [E|E].
    + apply length_zero_iff_nil in E. by rewrite E.
    + apply app_nil_r.
  - cbn [concat]. rewrite IH by lia. rewrite take_app_ge by lia. do 2 f_equal. lia.
Qed.

Section sending.
Context (fmt : LogFormat) {S : Type} (kernel : Kernel S) (delivered : S → list (list Z)).
Context (laws : FormatLaws fmt) (klaws : KernelLaws kernel delivered).

(** A datagram that statsd takes for a number of dropped events, and that number. *)
Definition isNotice (d : list Z) : bool :=
  (length d =? sizeof_header fmt + sizeof_event_long fmt)%nat && (event_long_type fmt (drop (sizeof_header fmt) d) =? EVENT_TYPE_LONG fmt).
Definition noticeCount (d : list Z) : Z := droppedCount (event_long_data fmt (drop (sizeof_header fmt) d)).

Definition notice (header : list Z) (w : Writer) : list Z :=
  header ++ event_long_bytes fmt (log_error w) (EVENT_TYPE_LONG fmt) (composed (atom_tag w) (dropped w)).

(** The state of the counters between calls. *)
Definition counting (w : Writer) : Prop := 0 <= dropped w < 2 ^ 31 ∧ wrap32 (atom_tag w) = atom_tag w.

(** What telling statsd about dropped events does: the message arrives and the count starts again, or nothing changes. *)
Definition told (header : list Z) (w w' : Writer) (sent : list (list Z)) : Prop :=
  (sent = [] ∧ dropped w' = dropped w) ∨ (dropped w ≠ 0 ∧ sent = [notice header w] ∧ dropped w' = 0).

Lemma open_delivers w s : let '(_, w', s') := statsdOpen kernel w s in
  delivered s' = delivered s ∧ dropped w' = dropped w ∧ log_error w' = log_error w ∧ atom_tag w' = atom_tag w.
Proof using klaws.
  unfold statsdOpen. destruct (sock w <? 0); [|done].
  pose proof (kl_socket _ _ klaws s) as H1. destruct (sys_socket kernel s) as [fd s1]. cbn [snd] in H1.
  destruct (fd <? 0); [done|]. pose proof (kl_connect _ _ klaws fd s1) as H2. destruct (sys_connect kernel fd s1) as [ret s2].
  cbn [snd] in H2. destruct (ret <? 0); [rewrite (kl_close _ _ klaws), H2, H1; by destruct (reconnectable ret)|].
  split; [|done]. destruct (_ && _); [rewrite (kl_close _ _ klaws)|]; congruence.
Qed.

Lemma close_delivers err w s : let '(w', s') := closeSocket kernel err w s in
  delivered s' = delivered s ∧ dropped w' = dropped w ∧ log_error w' = log_error w ∧ atom_tag w' = atom_tag w.
Proof using klaws. unfold closeSocket. split; [|done]. destruct (0 <=? sock w); [apply (kl_close _ _ klaws)|done]. Qed.

Lemma tell_delivers header fd w s : length header = sizeof_header fmt → counting w →
  let '(w', s') := tellDropped fmt kernel header fd w s in
  ∃ sent, delivered s' = delivered s ++ sent ∧ told header w w' sent ∧ log_error w' = log_error w ∧ atom_tag w' = atom_tag w.
Proof using klaws laws.
  intros Hh (Hd & _). unfold tellDropped. destruct (Z.eqb_spec (dropped w) 0) as [E|E].
  - exists []. rewrite app_nil_r. split; [done|]. split; [left; by rewrite E|done].
  - cbv zeta. change (wrap64 _) with (composed (atom_tag w) (dropped w)). cbn [set_dropped log_error].
    fold (notice header w). destruct (kl_writev _ _ klaws fd (notice header w) s) as [[H1 H2]|[H1 H2]];
      destruct (sys_writev kernel fd (notice header w) s) as [ret s']; cbn [fst snd] in *.
    + rewrite H1. assert (length (notice header w) = sizeof_header fmt + sizeof_event_long fmt)%nat as ->
        by (unfold notice; rewrite length_app, (fl_length _ laws); lia). rewrite Z.eqb_refl.
      exists [notice header w]. split; [done|]. split; [by right|done].
    + destruct (Z.eqb_spec ret (Z.of_nat (sizeof_header fmt + sizeof_event_long fmt))); [lia|].
      exists []. rewrite app_nil_r. split; [done|]. split; [left; split; [done|]|done]. cbn. apply wrap32_id. unfold int32. lia.
Qed.

(** What a call sends: perhaps a number of dropped events, then the event if the call succeeds. *)
Definition sends (header data : list Z) (w : Writer) (s : S) (r : Z * Writer * S) : Prop :=
  ∃ sent, delivered r.2 = delivered s ++ sent ++ (if r.1.1 <? 0 then [] else [data]) ∧ told header w r.1.2 sent ∧
    log_error r.1.2 = log_error w ∧ atom_tag r.1.2 = atom_tag w.

Lemma propagated_sign ret : (propagated fmt ret <? 0) = (ret <? 0).
Proof using. unfold propagated. destruct (Z.ltb_spec (Z.of_nat (sizeof_header fmt)) ret); [|done]. destruct (Z.ltb_spec ret 0), (Z.ltb_spec (ret - Z.of_nat (sizeof_header fmt)) 0); lia. Qed.

Lemma told_same header w w' w'' sent : dropped w'' = dropped w' → told header w w' sent → told header w w'' sent.
Proof using. unfold told. intros ->. done. Qed.

Lemma reopen_sends header data ret w w0 s s0 sent :
  delivered s = delivered s0 ++ sent → told header w0 w sent → log_error w = log_error w0 → atom_tag w = atom_tag w0 → ret < 0 →
  sends header data w0 s0
    (let '(locked, s) := sys_trylock kernel s in
     if negb locked then (ret, w, s)
     else
       let '(w, s) := closeSocket kernel ret w s in
       let '(ret, w, s) := statsdOpen kernel w s in
       if ret <? 0 then (ret, w, s)
       else let '(ret, s) := sys_writev kernel (sock w) data s in (propagated fmt ret, w, s)).
Proof using klaws.
  intros Hs Ht He Ha Hret. pose proof (kl_trylock _ _ klaws s) as H1. destruct (sys_trylock kernel s) as [locked s1]. cbn [snd] in H1.
  destruct locked; cbn [negb].
  - pose proof (close_delivers ret w s1) as H2. destruct (closeSocket kernel ret w s1) as [w2 s2]. destruct H2 as (D2 & P2 & E2 & A2).
    pose proof (open_delivers w2 s2) as H3. destruct (statsdOpen kernel w2 s2) as [[r3 w3] s3]. destruct H3 as (D3 & P3 & E3 & A3).
    assert (Ht3 : told header w0 w3 sent) by (eapply told_same; [|done]; congruence).
    destruct (Z.ltb_spec r3 0) as [Hn|Hn].
    + exists sent. cbn [fst snd]. destruct (Z.ltb_spec r3 0); [|lia]. rewrite app_nil_r. split; [congruence|]. split; [done|]. split; congruence.
    + destruct (kl_writev _ _ klaws (sock w3) data s3) as [[R4 D4]|[R4 D4]]; destruct (sys_writev kernel (sock w3) data s3) as [r4 s4];
        cbn [fst snd] in *; exists sent; cbn [fst snd]; rewrite propagated_sign.
      * destruct (Z.ltb_spec r4 0); [lia|]. split; [rewrite D4, D3, D2, H1, Hs; by rewrite app_assoc|]. split; [done|]. split; congruence.
      * destruct (Z.ltb_spec r4 0); [|lia]. rewrite app_nil_r. split; [congruence|]. split; [done|]. split; congruence.
  - exists sent. cbn [fst snd]. destruct (Z.ltb_spec ret 0); [|lia]. rewrite app_nil_r. split; [congruence|]. done.
Qed.

Lemma reconnectable_negative ret : reconnectable ret = true → ret < 0.
Proof using. unfold reconnectable, ENOTCONN, ECONNREFUSED, ENOENT. intros H. repeat (apply orb_true_iff in H as [H|H]); apply Z.eqb_eq in H; lia. Qed.

Lemma statsdWrite_sends header vec w s : length header = sizeof_header fmt → counting w →
  sends header (header ++ concat (payloadVec 0 vec)) w s (statsdWrite fmt kernel header vec w s).
Proof using klaws laws.
  intros Hh Hc. unfold statsdWrite. cbv zeta. destruct ((sock w <? 0) && negb (reconnectable (sock w))) eqn:Eb.
  { exists []. cbn [fst snd]. change (- EBADF <? 0) with true. cbn [app]. rewrite app_nil_r. split; [done|]. split; [by left|done]. }
  set (fd := sock w) in *. set (data := header ++ concat (payloadVec 0 vec)).
  destruct (Z.leb_spec 0 fd) as [Hf|Hf].
  - pose proof (tell_delivers header fd w s Hh Hc) as H1. destruct (tellDropped fmt kernel header fd w s) as [w1 s1].
    destruct H1 as (sent & D1 & T1 & E1 & A1). destruct (Z.ltb_spec fd 0); [lia|].
    destruct (kl_writev _ _ klaws fd data s1) as [[R2 D2]|[R2 D2]]; destruct (sys_writev kernel fd data s1) as [r2 s2]; cbn [fst snd] in *.
    + destruct (reconnectable r2) eqn:Er; [apply reconnectable_negative in Er; lia|]. exists sent. cbn [fst snd]. rewrite propagated_sign.
      destruct (Z.ltb_spec r2 0); [lia|]. split; [rewrite D2, D1; by rewrite app_assoc|done].
    + destruct (reconnectable r2) eqn:Er; [apply (reopen_sends header data r2 w1 w s2 s sent); [congruence|done..]|]. exists sent. cbn [fst snd]. rewrite propagated_sign.
      destruct (Z.ltb_spec r2 0); [|lia]. rewrite app_nil_r. split; [congruence|done].
  - destruct (Z.ltb_spec fd 0); [|lia]. cbn [andb] in Eb. destruct (reconnectable fd) eqn:Er; [|done].
    apply (reopen_sends header data fd w w s s []); [by rewrite app_nil_r|by left|done|done|lia].
Qed.

Lemma write_to_statsd_sends header vec w s : length header = sizeof_header fmt → counting w →
  sends header (header ++ concat (payloadVec 0 vec)) w s (write_to_statsd fmt kernel header vec w s).
Proof using klaws laws.
  intros Hh Hc. assert (Hd : ∀ w s, counting w → sends header (header ++ concat (payloadVec 0 vec)) w s (write_to_stats_daemon fmt kernel header vec w s)).
  { intros w' s' Hc'. unfold write_to_stats_daemon. destruct (_ =? 0)%nat; [|by apply statsdWrite_sends].
    exists []. cbn [fst snd]. change (- EINVAL <? 0) with true. cbn [app]. rewrite app_nil_r. split; [done|]. split; [by left|done]. }
  unfold write_to_statsd. destruct (ready w); [by apply Hd|]. unfold initialize_locked.
  pose proof (open_delivers w s) as H1. destruct (statsdOpen kernel w s) as [[r1 w1] s1]. destruct H1 as (D1 & P1 & E1 & A1).
  destruct (Z.ltb_spec r1 0).
  - unfold statsdClose. pose proof (close_delivers (- EBADF) w1 s1) as H2. destruct (closeSocket kernel (- EBADF) w1 s1) as [w2 s2].
    destruct H2 as (D2 & P2 & E2 & A2). exists []. cbn [fst snd]. change (- ENODEV <? 0) with true. cbn [app fst snd]. rewrite app_nil_r. split; [congruence|]. split; [left; split; congruence|]. split; congruence.
  - cbn [Z.ltb Z.compare]. destruct (Hd (set_ready true w1) s1) as (sent & D & T & E & A).
    { destruct Hc as (C1 & C2). unfold counting. cbn. by rewrite P1, A1. }
    exists sent. rewrite <- D1. split; [exact D|]. cbn in E, A. split; [|split; congruence].
    unfold told, notice in *. cbn in T. by rewrite P1, E1, A1 in T.
Qed.

(** ** Accounts *)

Definition eventDatagram (header buffer : list Z) : list Z := header ++ concat (payloadVec 0 [tagBytes; buffer]).

Lemma eventDatagram_eq header buffer :
  eventDatagram header (OBJECT_TYPE :: buffer) = header ++ tagBytes ++ OBJECT_TYPE :: take (Z.to_nat (MAX_PUSH_EVENT_PAYLOAD - 1)) buffer.
Proof using.
  unfold eventDatagram. rewrite payloadVec_take by (unfold LOGGER_ENTRY_MAX_PAYLOAD; lia). cbn [concat]. rewrite app_nil_r.
  change (Z.to_nat (LOGGER_ENTRY_MAX_PAYLOAD - 0)) with (length tagBytes + Datatypes.S (Z.to_nat (MAX_PUSH_EVENT_PAYLOAD - 1)))%nat.
  by rewrite take_app_add'.
Qed.

Lemma event_type rest : event_long_type fmt (tagBytes ++ OBJECT_TYPE :: rest) ≠ EVENT_TYPE_LONG fmt.
Proof using laws.
  pose proof (fl_long _ laws) as [_ Hl]. unfold tagBytes. cbn [le_encode app]. rewrite (fl_type_byte _ laws); [congruence|]. unfold OBJECT_TYPE. lia.
Qed.

Lemma event_not_notice header buffer : length header = sizeof_header fmt → isNotice (eventDatagram header (OBJECT_TYPE :: buffer)) = false.
Proof using laws.
  intros Hh. rewrite eventDatagram_eq. unfold isNotice. rewrite <- Hh, drop_app_length.
  rewrite (proj2 (Z.eqb_neq _ _)) by apply event_type. apply andb_false_r.
Qed.

Lemma notice_counts header w : length header = sizeof_header fmt → counting w →
  isNotice (notice header w) = true ∧ noticeCount (notice header w) = dropped w.
Proof using laws.
  intros Hh [Hd Ht]. unfold isNotice, noticeCount, notice. rewrite <- Hh, drop_app_length. rewrite length_app, (fl_length _ laws), Nat.eqb_refl.
  pose proof (fl_long _ laws) as [Hl _]. set (b := event_long_bytes _ _ _ _). rewrite <- (app_nil_r b). unfold b.
  rewrite (fl_type _ laws), Z.eqb_refl by done. split; [done|]. rewrite (fl_data _ laws); [by apply droppedCount_composed|].
  unfold composed. apply wrap64_id, wrap64_range.
Qed.

(** Events that arrived, and events that were reported as dropped. *)
Definition arrived (l : list (list Z)) : Z := Z.of_nat (length (List.filter (λ d, negb (isNotice d)) l)).
Definition reported (l : list (list Z)) : Z := foldr (λ d n, noticeCount d + n) 0 (List.filter isNotice l).

Inductive ClientCall :=
  | CWrite (header buffer : list Z) (atomId : Z)
  | CClose.

Definition runCall (c : ClientCall) (ws : Writer * S) : Writer * S :=
  match c with
  | CWrite header buffer atomId => let '(_, w, s) := write_buffer_to_statsd fmt kernel header buffer atomId ws.1 ws.2 in (w, s)
  | CClose => stats_log_close kernel ws.1 ws.2
  end.
Definition runCalls (calls : list ClientCall) (ws : Writer * S) : Writer * S := foldl (λ ws c, runCall c ws) ws calls.

Definition callOk (c : ClientCall) : Prop :=
  match c with
  | CWrite header buffer atomId => length header = sizeof_header fmt ∧ head buffer = Some OBJECT_TYPE ∧ wrap32 atomId = atomId
  | CClose => True
  end.
Definition isWrite (c : ClientCall) : bool := match c with CWrite _ _ _ => true | CClose => false end.

Lemma arrived_app l l' : arrived (l ++ l') = arrived l + arrived l'.
Proof using. unfold arrived. rewrite List.filter_app, length_app. lia. Qed.

Lemma reported_app l l' : reported (l ++ l') = reported l + reported l'.
Proof using. unfold reported. rewrite List.filter_app. induction (List.filter isNotice l) as [|d k IH]; cbn; lia. Qed.

Lemma told_account header w w' sent : length header = sizeof_header fmt → counting w → told header w w' sent →
  arrived sent = 0 ∧ reported sent + dropped w' = dropped w.
Proof using laws.
  intros Hh Hc [[-> ->]|(_ & -> & ->)]; [done|]. destruct (notice_counts header w Hh Hc) as [Hn Hk].
  unfold arrived, reported. cbn [List.filter]. rewrite Hn. cbn. lia.
Qed.

Lemma call_account header buffer atomId w s : length header = sizeof_header fmt → head buffer = Some OBJECT_TYPE →
  wrap32 atomId = atomId → counting w → dropped w + 1 < 2 ^ 31 →
  let '(_, w', s') := write_buffer_to_statsd fmt kernel header buffer atomId w s in
  ∃ sent, delivered s' = delivered s ++ sent ∧ arrived sent + reported sent + dropped w' = dropped w + 1 ∧ counting w' ∧ dropped w' <= dropped w + 1.
Proof using klaws laws.
  intros Hh Hb Ha Hc Hl. destruct buffer as [|b buffer]; [done|]. injection Hb as ->. unfold write_buffer_to_statsd.
  destruct (write_to_statsd_sends header [tagBytes; OBJECT_TYPE :: buffer] w s Hh Hc) as (sent & D & T & E & A).
  destruct (write_to_statsd _ _ _ _ _ _) as [[ret w1] s1]. cbn [fst snd] in *.
  destruct (told_account header w w1 sent Hh Hc T) as [T1 T2]. destruct Hc as [C1 C2].
  assert (C3 : 0 <= dropped w1 <= dropped w) by (destruct T as [[_ ->]|(_ & _ & ->)]; lia).
  eexists. split; [exact D|]. rewrite arrived_app, reported_app, T1. destruct (Z.ltb_spec ret 0).
  - cbn [statsdNoteDrop dropped]. rewrite wrap32_id by (unfold int32; lia). cbn [arrived reported]. change (arrived []) with 0. change (reported []) with 0.
    split; [lia|]. split; [|lia]. split; [cbn; rewrite wrap32_id; unfold int32; lia|done].
  - fold (eventDatagram header (OBJECT_TYPE :: buffer)).
    assert (arrived [eventDatagram header (OBJECT_TYPE :: buffer)] = 1 ∧ reported [eventDatagram header (OBJECT_TYPE :: buffer)] = 0) as [-> ->]
      by (unfold arrived, reported; cbn [List.filter]; by rewrite event_not_notice).
    split; [lia|]. split; [split; [lia|congruence]|lia].
Qed.

Lemma close_account w s : let '(w', s') := stats_log_close kernel w s in
  delivered s' = delivered s ∧ dropped w' = dropped w ∧ atom_tag w' = atom_tag w.
Proof using klaws.
  unfold stats_log_close, statsdClose. pose proof (close_delivers (- EBADF) (set_ready false w) s) as H.
  destruct (closeSocket _ _ _ _) as [w' s']. by destruct H as (? & ? & ? & ?).
Qed.

Lemma calls_account calls : ∀ w s, Forall callOk calls → counting w → dropped w + Z.of_nat (length calls) < 2 ^ 31 →
  ∃ sent, delivered (runCalls calls (w, s)).2 = delivered s ++ sent ∧
    arrived sent + reported sent + dropped (runCalls calls (w, s)).1 = dropped w + Z.of_nat (length (List.filter isWrite calls)).
Proof using klaws laws.
  induction calls as [|c calls IH]; intros w s Hok Hc Hl; [exists []; rewrite app_nil_r; split; [done|change (arrived []) with 0; change (reported []) with 0; cbn; lia]|].
  apply Forall_cons in Hok as [Hc1 Hok]. cbn [length] in Hl. unfold runCalls. cbn [foldl]. fold (runCalls calls (runCall c (w, s))).
  destruct c as [header buffer atomId|]; cbn [runCall fst snd List.filter isWrite].
  - destruct Hc1 as (H1 & H2 & H3). pose proof (call_account header buffer atomId w s H1 H2 H3 Hc ltac:(lia)) as Hcall.
    destruct (write_buffer_to_statsd _ _ _ _ _ _ _) as [[r w1] s1]. destruct Hcall as (sent & D & Acc & Hc' & Hd).
    destruct (IH w1 s1 Hok Hc' ltac:(lia)) as (sent' & D' & Acc'). exists (sent ++ sent'). split; [by rewrite D', D, app_assoc|].
    rewrite arrived_app, reported_app. cbn [length]. lia.
  - pose proof (close_account w s) as Hcl. destruct (stats_log_close kernel w s) as [w1 s1]. destruct Hcl as (D & Pd & At).
    destruct (IH w1 s1 Hok) as (sent & D' & Acc'); [unfold counting in *; congruence|lia|]. exists sent. split; [congruence|lia].
Qed.
End sending.

(** ** Receiving *)

Lemma received_ptr fmt stale header body : length header = sizeof_header fmt →
  drop (sizeof_header fmt) (bufferAfter stale (header ++ body)) = body ++ 0 :: drop (length (header ++ body) + 1) stale.
Proof. intros Hh. unfold bufferAfter. by rewrite <- Hh, <- app_assoc, drop_app_length. Qed.

Lemma event_received fmt header ev uninit wallClockSec elapsedNs stale pid uid st q :
  FormatLaws fmt → length header = sizeof_header fmt → event_ok ev → Z.of_nat (length (wire ev)) <= MAX_PUSH_EVENT_PAYLOAD →
  (length (mQueue q) < mQueueLimit q)%nat →
  onDataAvailable fmt uninit wallClockSec elapsedNs stale (Some (eventDatagram header (wire ev))) (Some (pid, uid)) st q
  = Some (true, st, mkLogEventQueue (mQueueLimit q) (mQueue q ++ [(mkLogger uid pid, set_buf [] 0 (spec_event uninit ev))])).
Proof.
  intros Hl Hh Hok Hw Hq. assert (E : eventDatagram header (wire ev) = header ++ tagBytes ++ wire ev).
  { unfold wire in *. rewrite eventDatagram_eq. do 3 f_equal. apply take_ge. cbn [length] in *. lia. }
  rewrite E. unfold onDataAvailable. rewrite take_ge
    by (rewrite !length_app, Hh; unfold bufferLimit, MAX_PUSH_EVENT_PAYLOAD in *; change (length tagBytes) with 4%nat; lia).
  rewrite received_ptr by done. set (rest := 0 :: _). cbn [from_option]. unfold id at 1. cbv zeta beta iota.
  destruct (Nat.leb_spec (length (header ++ tagBytes ++ wire ev)) (sizeof_header fmt)) as [H|_].
  { rewrite !length_app, Hh in H. change (length tagBytes) with 4%nat in H. lia. }
  assert (Hn : event_long_type fmt ((tagBytes ++ wire ev) ++ rest) ≠ EVENT_TYPE_LONG fmt).
  { unfold wire. rewrite <- app_assoc. cbn [app]. by apply event_type. }
  apply Z.eqb_neq in Hn. rewrite Hn, andb_false_r. unfold pushEvent.
  replace (u32 _) with (Z.of_nat (length (wire ev))).
  2: { rewrite u32_id; rewrite !length_app, Hh; change (length tagBytes) with 4%nat; unfold MAX_PUSH_EVENT_PAYLOAD, LOGGER_ENTRY_MAX_PAYLOAD in *; lia. }
  change (drop 4 ((tagBytes ++ wire ev) ++ rest)) with (wire ev ++ rest).
  rewrite (parseBuffer_behind rest _ _ _ _ (parse_wire uninit ev Hok ltac:(unfold MAX_PUSH_EVENT_PAYLOAD, LOGGER_ENTRY_MAX_PAYLOAD in *; lia))).
  cbn [mbind option_bind]. unfold queue_push. unfold QueuedEvent in *. by rewrite (proj2 (Nat.ltb_lt _ _) Hq).
Qed.

(** C19: An event reaches statsd as it was written.  When a client fills an event and the call that sends it succeeds, the last
    datagram it sends makes the listener of statsd queue, if the queue is not full, exactly that event, with the uid and pid of the sender, whatever the buffer
    of the listener held before. *)
Theorem event_reaches_queue (fmt : LogFormat) {S : Type} (kernel : Kernel S) delivered (junk : Z) header ev w s :
  FormatLaws fmt → KernelLaws kernel delivered → length header = sizeof_header fmt → counting w → dropped w + 1 < 2 ^ 31 →
  event_ok ev → 0 < ev_atom ev < 2 ^ 31 → Z.of_nat (length (wire ev)) <= MAX_PUSH_EVENT_PAYLOAD →
  ∃ e e' ret w' s', fill junk ev = Some e ∧ AStatsEvent_write fmt kernel junk header e w s = Some (e', (ret, w', s')) ∧
    if ret <? 0 then ∃ first, delivered s' = delivered s ++ first ∧ reported fmt first + dropped w' = dropped w + 1
    else ∃ first event, delivered s' = delivered s ++ first ++ [event] ∧ (length first <= 1)%nat ∧
      ∀ uninit wallClockSec elapsedNs stale pid uid st q, (length (mQueue q) < mQueueLimit q)%nat →
        onDataAvailable fmt uninit wallClockSec elapsedNs stale (Some event) (Some (pid, uid)) st q
        = Some (true, st, mkLogEventQueue (mQueueLimit q) (mQueue q ++ [(mkLogger uid pid, set_buf [] 0 (spec_event uninit ev))])).
Proof.
  intros Hl Hk Hh Hc Hd Hok Hid Hw. destruct (fill_holds junk ev Hok Hid) as (e & pos & E & Hf).
  { unfold MAX_PUSH_EVENT_PAYLOAD, LOGGER_ENTRY_MAX_PAYLOAD, MAX_PULL_EVENT_PAYLOAD in *. lia. }
  pose proof (ek_few _ Hok) as Hn. destruct (write_holds junk _ _ _ _ _ Hf) as (e' & E' & He); [lia|lia|unfold wire in Hw; cbn [length] in Hw; lia|].
  fold (wire ev) in E'. unfold AStatsEvent_write, write_buffer_to_statsd.
  destruct (write_to_statsd_sends fmt kernel delivered Hl Hk header [tagBytes; wire ev] w s Hh Hc) as (sent & D & T & _ & _).
  destruct (write_to_statsd fmt kernel header [tagBytes; wire ev] w s) as [[ret w1] s1] eqn:Ew. cbn [fst snd] in *.
  exists e, e', ret, (if ret <? 0 then statsdNoteDrop ret (ev_atom ev) w1 else w1), s1. split; [done|].
  split; [rewrite E'; cbn [mbind option_bind]; by rewrite Ew|]. destruct (ret <? 0).
  - exists sent. rewrite app_nil_r in D. split; [done|]. destruct (told_account fmt Hl header w w1 sent Hh Hc T) as [_ <-].
    destruct Hc as [Hc _]. assert (0 <= dropped w1 <= dropped w) by (destruct T as [[_ ->]|(_ & _ & ->)]; lia).
    cbn [statsdNoteDrop dropped]. rewrite wrap32_id by (unfold int32; lia). lia.
  - exists sent, (eventDatagram header (wire ev)). split; [exact D|]. split; [destruct T as [[-> _]|(_ & -> & _)]; cbn; lia|].
    intros. by apply event_received.
Qed.

(** The number of dropped events arrives as it was sent: what statsd records of a client that could not send is the number of
    events, the error and the atom of the last one, and the uid and pid of the client. *)
Theorem drop_notice_received (fmt : LogFormat) header w uninit wallClockSec elapsedNs stale pid uid st q :
  FormatLaws fmt → length header = sizeof_header fmt → counting w → wrap32 (log_error w) = log_error w →
  onDataAvailable fmt uninit wallClockSec elapsedNs stale (Some (notice fmt header w)) (Some (pid, uid)) st q
  = Some (true, noteLogLost (wrap32 wallClockSec) (dropped w) (log_error w) (atom_tag w) uid pid st, q).
Proof.
  intros Hl Hh [Hd Ht] He. pose proof (fl_size _ Hl) as Hs. pose proof (fl_long _ Hl) as [Hlong _]. unfold onDataAvailable.
  assert (Hlen : length (notice fmt header w) = (sizeof_header fmt + sizeof_event_long fmt)%nat)
    by (unfold notice; rewrite length_app, (fl_length _ Hl); lia).
  rewrite take_ge by (unfold bufferLimit, LOGGER_ENTRY_MAX_PAYLOAD; lia). rewrite Hlen. unfold notice. rewrite received_ptr by done.
  set (rest := 0 :: _). cbn [from_option]. unfold id at 1. cbv zeta beta iota.
  destruct (Nat.leb_spec (sizeof_header fmt + sizeof_event_long fmt) (sizeof_header fmt)); [lia|].
  replace (Z.of_nat (sizeof_header fmt + sizeof_event_long fmt) - Z.of_nat (sizeof_header fmt)) with (Z.of_nat (sizeof_event_long fmt)) by lia.
  rewrite Z.eqb_refl, (fl_type _ Hl), Z.eqb_refl by done. cbn [andb]. rewrite (fl_tag _ Hl) by done.
  rewrite (fl_data _ Hl) by (unfold composed; apply wrap64_id, wrap64_range).
  by rewrite droppedCount_composed, lastAtomTag_composed.
Qed.

(** C20: No event is lost without being counted.  Over any sequence of calls of a client, and whatever fails, the calls that were to
    send an event are the events that arrived, plus those statsd was told were dropped, plus those it will be told of. *)
Theorem dropped_events_counted (fmt : LogFormat) {S : Type} (kernel : Kernel S) delivered (calls : list ClientCall) (s : S) :
  FormatLaws fmt → KernelLaws kernel delivered → Forall (callOk fmt) calls → Z.of_nat (length calls) < 2 ^ 31 → delivered s = [] →
  let ws := runCalls fmt kernel calls (Writer_init, s) in
  Z.of_nat (length (List.filter isWrite calls)) = arrived fmt (delivered ws.2) + reported fmt (delivered ws.2) + dropped ws.1.
Proof.
  intros Hl Hk Hok Hn Hs ws. destruct (calls_account fmt kernel delivered Hl Hk calls Writer_init s Hok) as (sent & D & Acc); [done|done|].
  subst ws. rewrite D, Hs. cbn [app]. rewrite Acc. done.
Qed.

(** ** Examples *)

(** The layout of liblog on a little endian machine. *)
Definition exampleFormat : LogFormat :=
  mkLogFormat 11 13 1
    (λ tag type data, le_encode 4 (tag mod 2 ^ 32) ++ type mod 256 :: le_encode 8 (data mod 2 ^ 64))
    (λ b, wrap32 (le_decode (take 4 b))) (λ b, default 0 (b !! 4%nat)) (λ b, wrap64 (le_decode (take 8 (drop 5 b)))).

Lemma exampleFormat_laws : FormatLaws exampleFormat.
Proof.
  constructor; cbn [exampleFormat sizeof_event_long event_long_bytes event_long_tag event_long_type event_long_data EVENT_TYPE_LONG].
  - intros. by rewrite length_app, length_le_encode.
  - intros tag type data rest Ht. rewrite <- app_assoc, take_app_length' by (by rewrite length_le_encode).
    rewrite le_decode_encode by (apply Z.mod_pos_bound; lia). by rewrite wrap32_mod.
  - intros tag type data rest Ht. rewrite <- app_assoc, lookup_app_r by (by rewrite length_le_encode). rewrite length_le_encode. cbn.
    apply Z.mod_small. lia.
  - intros tag type data rest Hd. rewrite <- app_assoc. cbn [app]. rewrite drop_app_ge by (rewrite length_le_encode; lia).
    rewrite length_le_encode. cbn [Nat.sub drop]. rewrite drop_0. rewrite take_app_length' by (by rewrite length_le_encode).
    rewrite le_decode_encode by (apply Z.mod_pos_bound; lia). by rewrite wrap64_mod.
  - done.
  - lia.
  - unfold OBJECT_TYPE. lia.
Qed.

(** A kernel that tells for each datagram whether there is room for it. *)
Definition exampleKernel : Kernel (list bool * list (list Z)) :=
  mkKernel _ (λ s, (3, s)) (λ _ s, (0, s))
    (λ _ data s, match s.1 with
                 | true :: room => (Z.of_nat (length data), (room, s.2 ++ [data]))
                 | _ => (-11, (tail s.1, s.2))
                 end)
    (λ _ s, s) (λ s, (true, s)).

Lemma exampleKernel_laws : KernelLaws exampleKernel snd.
Proof.
  constructor; try done. intros fd data [[|[] room] sent]; cbn; [right|left|right]; done.
Qed.

Definition exampleHeader : list Z := replicate 11 0.

Lemma dropped_events_counted_witness :
  let call := CWrite exampleHeader (wire example_event) 42 in
  let ws := runCalls exampleFormat exampleKernel [call; call; CClose; call; call] (Writer_init, ([false; false; true; true; false; true; true], [])) in
  4 = arrived exampleFormat ws.2.2 + reported exampleFormat ws.2.2 + dropped ws.1 ∧
  arrived exampleFormat ws.2.2 = 2 ∧ reported exampleFormat ws.2.2 = 2.
Proof.
  intros call ws. split; [|split; vm_compute; reflexivity].
  apply (dropped_events_counted exampleFormat exampleKernel snd [call; call; CClose; call; call]);
    [apply exampleFormat_laws|apply exampleKernel_laws|repeat constructor|done|done].
Defined.

Lemma drop_notice_received_witness :
  let w := mkWriter 3 17 (-11) 42 true in
  onDataAvailable exampleFormat 0 1000 0 [] (Some (notice exampleFormat exampleHeader w)) (Some (50, 1000)) (StatsdStats_new 1) (LogEventQueue_new 10)
  = Some (true, noteLogLost 1000 17 (-11) 42 1000 50 (StatsdStats_new 1), LogEventQueue_new 10).
Proof.
  intros w. apply (drop_notice_received exampleFormat exampleHeader w); [apply exampleFormat_laws|done|vm_compute; repeat split; congruence|done].
Defined.

Lemma event_reaches_queue_witness :
  ∃ e e' ret w' s', fill 0 example_event = Some e ∧
    AStatsEvent_write exampleFormat exampleKernel 0 exampleHeader e Writer_init ([true], []) = Some (e', (ret, w', s')) ∧
    0 <= ret ∧ ∃ event, s'.2 = [event] ∧
      ∀ uninit wallClockSec elapsedNs stale pid uid st q, (length (mQueue q) < mQueueLimit q)%nat →
        onDataAvailable exampleFormat uninit wallClockSec elapsedNs stale (Some event) (Some (pid, uid)) st q
        = Some (true, st, mkLogEventQueue (mQueueLimit q)
                            (mQueue q ++ [(mkLogger uid pid, set_buf [] 0 (spec_event uninit example_event))])).
Proof.
  destruct (event_reaches_queue exampleFormat exampleKernel snd 0 exampleHeader example_event Writer_init ([true], []))
    as (e & e' & ret & w' & s' & E & Ew & H);
    [apply exampleFormat_laws|apply exampleKernel_laws|done|done|done|apply example_event_ok|done|vm_compute; congruence|].
  exists e, e', ret, w', s'. split; [done|]. split; [done|].
  assert (Hret : (λ r : Z * Writer * (list bool * list (list Z)), (r.1.1 <? 0, length r.2.2)) <$>
    (e ← fill 0 example_event; snd <$> AStatsEvent_write exampleFormat exampleKernel 0 exampleHeader e Writer_init ([true], []))
    = Some (false, 1%nat)) by (vm_compute; reflexivity).
  rewrite E in Hret. cbn [mbind option_bind] in Hret. rewrite Ew in Hret. injection Hret as Hret Hlen. rewrite Hret in H.
  split; [by apply Z.ltb_ge|]. destruct H as (first & event & D & _ & H). exists event. split; [|exact H].
  cbn in D. rewrite D in Hlen |- *. rewrite length_app in Hlen. cbn in Hlen. by destruct first; [|cbn in Hlen; lia].
Defined.

(** What an earlier datagram may leave in the buffer: an event with a string of 2^31 - 1 bytes. *)
Definition staleEvent : list Z :=
  replicate 15 0 ++ [OBJECT_TYPE; 3; INT64_TYPE; 0; 0; 0; 0; 0; 0; 0; 0; INT32_TYPE; 1; 0; 0; 0; STRING_TYPE; 255; 255; 255; 127] ++ replicate 4044 0.

(** The length of a payload of less than four bytes wraps around: the parser goes on in the bytes that an earlier datagram left in the
    buffer, and past the end of the buffer. *)
Lemma short_datagram_read_past :
  length staleEvent = (bufferLimit exampleFormat + 1)%nat ∧
  onDataAvailable exampleFormat 0 1000 0 staleEvent (Some (exampleHeader ++ [0])) (Some (50, 1000)) (StatsdStats_new 1) (LogEventQueue_new 10) = None.
Proof. split; vm_compute; reflexivity. Qed.
