(* ===== verification/Subscribers.v ===== *)
(** * Subscribers (subscriber/SubscriberReporter.cpp, subscriber/IncidentdReporter.cpp, anomaly/subscriber_util.cpp)

    Alerts and alarms inform subscribers: by a broadcast to an intent that a client registered, by an incident
    report or by a trace.  An intent is identified by a number; the calls to the other services are recorded in
    order.  [None]: a value is read through a member of the union that was not set. *)
From Stdlib Require Import SpecFloat.
From S2P Require Import Prelude Hash FieldValue DimensionKey DimensionKeyFacts Matchers UidMap MetricsConfig ProtoOutput.

(** ** Messages *)

Inductive Destination := AUTOMATIC | EXPLICIT | OtherDestination.

Record IncidentdDetails := mkIncidentdDetails {
  inc_section : list Z; inc_dest : Destination; receiver_pkg : string; receiver_cls : string; alert_description : string
}.

Inductive SubscriberInformation :=
  | kIncidentdDetails (d : IncidentdDetails)
  | kPerfettoDetails (trace_config : option (list Z))
  | kBroadcastSubscriberDetails (subscriber_id : option Z) (cookie : list string)
  | NoInformation.

(** A subscription with what informing it needs. *)
Record SubscriptionMessage := mkSubscriptionMessage {
  sm_subscription : Subscription;
  probability_of_informing : spec_float;
  subscriber_information : SubscriberInformation
}.

(** ** What subscribers get *)

(** The message [getProtoData] writes. *)
Record IncidentHeader := mkIncidentHeader {
  ih_alert_id : Z; ih_reason : string; ih_config_key : ConfigKey; ih_metric_id : Z; ih_dimension : list ProtoNode;
  ih_value : Z; ih_package_info : option (list PackageInfo)
}.

Inductive SubscriberCall :=
  | TakeReport (header : IncidentHeader) (sections : list Z) (dest : Destination) (pkg cls : string)
  | CollectTrace (trace_config : list Z) (subscription_id alert_id : Z) (configKey : ConfigKey)
  | SendSubscriberBroadcast (pir uid id subscription_id rule_id : Z) (cookies : list string) (key : Parcel).

(** ** The reporter *)

Record SubscriberReporter := mkSubscriberReporter { mIntentMap : gmap ConfigKey (gmap Z Z) }.

Definition SubscriberReporter_new : SubscriberReporter := mkSubscriberReporter ∅.

Definition setBroadcastSubscriber (configKey : ConfigKey) (subscriberId pir : Z) (r : SubscriberReporter) : SubscriberReporter :=
  mkSubscriberReporter (<[configKey := <[subscriberId := pir]> (default ∅ (mIntentMap r !! configKey))]> (mIntentMap r)).

Definition unsetBroadcastSubscriber (configKey : ConfigKey) (subscriberId : Z) (r : SubscriberReporter) : SubscriberReporter :=
  match mIntentMap r !! configKey with
  | None => r
  | Some subscribers =>
      let subscribers := delete subscriberId subscribers in
      mkSubscriberReporter (if bool_decide (subscribers = ∅) then delete configKey (mIntentMap r)
                            else <[configKey := subscribers]> (mIntentMap r))
  end.

(** [auto subscriberMap] is a copy: the entry is erased from it, and the configuration if the copy is then empty. *)
Definition broadcastSubscriberDied (configKey : ConfigKey) (subscriberId pir : Z) (r : SubscriberReporter) : SubscriberReporter :=
  match mIntentMap r !! configKey with
  | None => r
  | Some subscriberMap =>
      if bool_decide (subscriberMap !! subscriberId = Some pir) then
        let subscriberMap := delete subscriberId subscriberMap in
        if bool_decide (subscriberMap = ∅) then mkSubscriberReporter (delete configKey (mIntentMap r)) else r
      else r
  end.

Definition getBroadcastSubscriber (configKey : ConfigKey) (subscriberId : Z) (r : SubscriberReporter) : option Z :=
  subscribers ← mIntentMap r !! configKey; subscribers !! subscriberId.

(** The conversion of the key always ends: [None] is not a result of it. *)
Definition sendBroadcastLocked (pir : Z) (configKey : ConfigKey) (subscription : Subscription) (cookies : list string)
    (dimKey : MetricDimensionKey) : option (list SubscriberCall) :=
  parcel ← toStatsDimensionsValueParcel (mDimensionKeyInWhat dimKey);
  Some [SendSubscriberBroadcast pir configKey.1 configKey.2 (sub_id subscription) (sub_rule_id subscription) cookies parcel].

Definition alertBroadcastSubscriber (configKey : ConfigKey) (subscription : SubscriptionMessage) (dimKey : MetricDimensionKey)
    (r : SubscriberReporter) : option (list SubscriberCall) :=
  match subscriber_information subscription with
  | kBroadcastSubscriberDetails (Some subscriberId) cookies =>
      match mIntentMap r !! configKey with
      | None => Some []
      | Some subscribers =>
          match subscribers !! subscriberId with
          | None => Some []
          | Some pir => sendBroadcastLocked pir configKey (sm_subscription subscription) cookies dimKey
          end
      end
  | _ => Some []
  end.

(** ** Incident reports *)

(** The uids of the key; any uid up to 2000 is predefined. *)
Fixpoint interestingUids (values : list FieldValue) : option (list Z) :=
  match values with
  | [] => Some []
  | dim :: values =>
      uid ← getUidIfExists dim;
      uids ← interestingUids values;
      Some (if 2000 <? uid then uid :: uids else uids)
  end.

Definition getProtoData (uidMap : UidMap) (rule_id metricId : Z) (dimensionKey : MetricDimensionKey) (metricValue : Z)
    (configKey : ConfigKey) (reason : string) : option IncidentHeader :=
  let key := mDimensionKeyInWhat dimensionKey in
  dimension ← writeDimensionToProto false key;
  uids ← interestingUids (mValues key);
  Some (mkIncidentHeader rule_id reason configKey metricId dimension metricValue
          (match uids with [] => None | _ => Some (writeUidMapSnapshot Hash64_string true true uids false uidMap).1 end)).

Definition GenerateIncidentReport (uidMap : UidMap) (config : IncidentdDetails) (rule_id metricId : Z)
    (dimensionKey : MetricDimensionKey) (metricValue : Z) (configKey : ConfigKey) : option (list SubscriberCall) :=
  match inc_section config with
  | [] => Some []
  | sections =>
      header ← getProtoData uidMap rule_id metricId dimensionKey metricValue configKey (alert_description config);
      let dest := match inc_dest config with EXPLICIT => EXPLICIT | _ => AUTOMATIC end in
      Some [TakeReport header sections dest (receiver_pkg config) (receiver_cls config)]
  end.

(** ** Informing *)

Definition toFloat (z : Z) : spec_float := binary_normalize f32_prec f32_emax z 0 false.

Section inform.
(** The results of [rand()], in order. *)
Context (RAND_MAX : Z) (rand : nat → Z).

(** Whether fate decides that the subscriber is not informed; [n] calls of [rand()] were made before. *)
Definition skipped (n : nat) (subscription : SubscriptionMessage) : bool * nat :=
  let p := probability_of_informing subscription in
  if SFltb p (toFloat 1)
  then (SFleb p (SFdiv f32_prec f32_emax (toFloat (rand n)) (toFloat RAND_MAX)), Datatypes.S n)
  else (false, n).

Definition informSubscriber (uidMap : UidMap) (r : SubscriberReporter) (ruleId metricId : Z) (dimensionKey : MetricDimensionKey)
    (metricValue : Z) (configKey : ConfigKey) (subscription : SubscriptionMessage) : option (list SubscriberCall) :=
  match subscriber_information subscription with
  | kIncidentdDetails d => GenerateIncidentReport uidMap d ruleId metricId dimensionKey metricValue configKey
  | kPerfettoDetails (Some trace_config) => Some [CollectTrace trace_config (sub_id (sm_subscription subscription)) ruleId configKey]
  | kPerfettoDetails None => Some []
  | kBroadcastSubscriberDetails _ _ => alertBroadcastSubscriber configKey subscription dimensionKey r
  | NoInformation => Some []
  end.

Fixpoint triggerSubscribers (uidMap : UidMap) (r : SubscriberReporter) (ruleId metricId : Z) (dimensionKey : MetricDimensionKey)
    (metricValue : Z) (configKey : ConfigKey) (n : nat) (subscriptions : list SubscriptionMessage) : option (list SubscriberCall) :=
  match subscriptions with
  | [] => Some []
  | subscription :: subscriptions =>
      let '(skip, n) := skipped n subscription in
      calls ← (if skip then Some []
               else informSubscriber uidMap r ruleId metricId dimensionKey metricValue configKey subscription);
      rest ← triggerSubscribers uidMap r ruleId metricId dimensionKey metricValue configKey n subscriptions;
      Some (calls ++ rest)
  end.
End inform.

(** * Facts on subscribers

    The intents that are alive follow the calls that set and unset them and the deaths: a living intent is always the
    one that is used.  The reporter also keeps intents that died while their configuration had another subscriber. *)

Inductive SubscriberOp :=
  | SetSubscriber (key : ConfigKey) (id pir : Z)
  | UnsetSubscriber (key : ConfigKey) (id : Z)
  | SubscriberDied (key : ConfigKey) (id pir : Z).

Definition runSubscriberOp (r : SubscriberReporter) (op : SubscriberOp) : SubscriberReporter :=
  match op with
  | SetSubscriber key id pir => setBroadcastSubscriber key id pir r
  | UnsetSubscriber key id => unsetBroadcastSubscriber key id r
  | SubscriberDied key id pir => broadcastSubscriberDied key id pir r
  end.

(** What the calls mean: one intent for each configuration and subscriber. *)
Abbreviation Intents := (gmap (ConfigKey * Z) Z).

(** The subscriber is the only one of its configuration. *)
Definition onlyOne (key : ConfigKey) (id : Z) (m : Intents) : Prop := map_Forall (λ k _, k.1 = key → k = (key, id)) m.

(** What the calls and deaths are to do: [broadcastSubscriberDied] erases the pair of configuration and subscriber if the intent that
    died is its intent. *)
Definition specOp (m : Intents) (op : SubscriberOp) : Intents :=
  match op with
  | SetSubscriber key id pir => <[(key, id) := pir]> m
  | UnsetSubscriber key id => delete (key, id) m
  | SubscriberDied key id pir => if bool_decide (m !! (key, id) = Some pir) then delete (key, id) m else m
  end.

(** What the reporter does: a death only counts for the only subscriber of a configuration. *)
Definition keptOp (m : Intents) (op : SubscriberOp) : Intents :=
  match op with
  | SubscriberDied key id pir => if bool_decide (m !! (key, id) = Some pir ∧ onlyOne key id m) then delete (key, id) m else m
  | _ => specOp m op
  end.

Definition subscribersAfter (ops : list SubscriberOp) : SubscriberReporter := foldl runSubscriberOp SubscriberReporter_new ops.

(** The calls that set or unset the intent of a subscriber. *)
Definition setsIntent (key : ConfigKey) (id : Z) (op : SubscriberOp) : Prop :=
  match op with
  | SetSubscriber key' id' _ | UnsetSubscriber key' id' => (key', id') = (key, id)
  | SubscriberDied _ _ _ => False
  end.

(** The intent died while another subscriber of its configuration was registered, and nothing was set or unset in its place since. *)
Definition diedAmongOthers (key : ConfigKey) (id pir : Z) (ops : list SubscriberOp) : Prop :=
  ∃ before after id', ops = before ++ SubscriberDied key id pir :: after ∧ Forall (λ op, ¬ setsIntent key id op) after ∧
    id' ≠ id ∧ is_Some (getBroadcastSubscriber key id' (subscribersAfter before)).

(** The nested map of the code stands for the flat one, and holds no empty maps. *)
Definition represents (r : SubscriberReporter) (m : Intents) : Prop :=
  (∀ key id, getBroadcastSubscriber key id r = m !! (key, id)) ∧ map_Forall (λ _ s, s ≠ ∅) (mIntentMap r).

Lemma represents_set r m key id pir : represents r m → represents (setBroadcastSubscriber key id pir r) (<[(key, id) := pir]> m).
Proof.
  intros [H1 H2]. unfold setBroadcastSubscriber. split.
  - intros key' id'. unfold getBroadcastSubscriber in *. cbn [mIntentMap]. destruct (decide (key' = key)) as [->|Hne].
    + rewrite lookup_insert_eq. cbn [mbind option_bind]. destruct (decide (id' = id)) as [->|Hid]; [by rewrite !lookup_insert_eq|].
      rewrite !lookup_insert_ne by congruence. rewrite <- H1. by destruct (mIntentMap r !! key).
    + rewrite !lookup_insert_ne by congruence. apply H1.
  - cbn [mIntentMap]. apply map_Forall_insert_2; [|done]. apply insert_non_empty.
Qed.

Lemma represents_delete r m key id :
  represents r m → represents (unsetBroadcastSubscriber key id r) (delete (key, id) m).
Proof.
  intros [H1 H2]. unfold unsetBroadcastSubscriber. destruct (mIntentMap r !! key) as [s|] eqn:E.
  2: { split; [|done]. intros key' id'. rewrite H1. destruct (decide ((key', id') = (key, id))) as [[= -> ->]|Hne].
    - rewrite lookup_delete_eq. rewrite <- H1. unfold getBroadcastSubscriber. by rewrite E.
    - by rewrite lookup_delete_ne. }
  assert (Hs : ∀ id', s !! id' = m !! (key, id')) by (intros id'; rewrite <- H1; unfold getBroadcastSubscriber; by rewrite E).
  split.
  - intros key' id'. unfold getBroadcastSubscriber. cbn [mIntentMap]. case_bool_decide as He; destruct (decide (key' = key)) as [->|Hne].
    + rewrite lookup_delete_eq. cbn [mbind option_bind]. symmetry. destruct (decide (id' = id)) as [->|Hid]; [by rewrite lookup_delete_eq|].
      rewrite lookup_delete_ne by congruence. rewrite <- Hs. rewrite <- (lookup_delete_ne s id) by done. by rewrite He.
    + rewrite !lookup_delete_ne by congruence. apply H1.
    + rewrite lookup_insert_eq. cbn [mbind option_bind]. destruct (decide (id' = id)) as [->|Hid]; [by rewrite !lookup_delete_eq|].
      rewrite !lookup_delete_ne by congruence. apply Hs.
    + rewrite lookup_insert_ne, lookup_delete_ne by congruence. apply H1.
  - cbn [mIntentMap]. case_bool_decide; [by apply map_Forall_delete|]. by apply map_Forall_insert_2.
Qed.

(** A configuration without another subscriber. *)
Lemma only_one_iff r m key id s : represents r m → mIntentMap r !! key = Some s → (delete id s = ∅ ↔ onlyOne key id m).
Proof.
  intros [H1 _] E. assert (Hs : ∀ id', s !! id' = m !! (key, id')) by (intros id'; rewrite <- H1; unfold getBroadcastSubscriber; by rewrite E).
  split.
  - intros He [key' id'] pir Hl Hk. cbn in Hk. subst key'. f_equal. destruct (decide (id' = id)) as [|Hne]; [done|].
    rewrite <- Hs, <- (lookup_delete_ne s id), He in Hl by done. done.
  - intros Ho. apply map_eq. intros id'. rewrite lookup_empty. destruct (decide (id' = id)) as [->|Hne]; [apply lookup_delete_eq|].
    rewrite lookup_delete_ne, Hs by done. destruct (m !! (key, id')) as [pir|] eqn:El; [|done]. pose proof (Ho _ _ El eq_refl). congruence.
Qed.

Lemma represents_op r m op : represents r m → represents (runSubscriberOp r op) (keptOp m op).
Proof.
  intros Hr. destruct op as [key id pir|key id|key id pir]; cbn [runSubscriberOp keptOp specOp]; [by apply represents_set|by apply represents_delete|].
  pose proof (proj1 Hr key id) as H1. unfold getBroadcastSubscriber in H1. unfold broadcastSubscriberDied.
  destruct (mIntentMap r !! key) as [s|] eqn:E; cbn [mbind option_bind] in H1.
  2: { rewrite bool_decide_eq_false_2; [done|]. intros [? _]. congruence. }
  pose proof (only_one_iff r m key id s Hr E) as Ho. destruct (decide (s !! id = Some pir)) as [Hs|Hs].
  2: { rewrite !bool_decide_eq_false_2; [done| |done]. intros [? _]. congruence. }
  rewrite (bool_decide_eq_true_2 (s !! id = Some pir)) by done. destruct (decide (delete id s = ∅)) as [He|He].
  - rewrite !bool_decide_eq_true_2; [|split; [congruence|by apply Ho]|done]. pose proof (represents_delete r m key id Hr) as Hd.
    unfold unsetBroadcastSubscriber in Hd. rewrite E, bool_decide_eq_true_2 in Hd by done. exact Hd.
  - rewrite !bool_decide_eq_false_2; [done| |done]. intros [_ ?]. by apply He, Ho.
Qed.

Lemma represents_kept ops : represents (subscribersAfter ops) (foldl keptOp ∅ ops).
Proof.
  unfold subscribersAfter. assert (H0 : represents SubscriberReporter_new ∅) by (by split).
  revert H0. generalize SubscriberReporter_new as r, (∅ : Intents) as m. induction ops as [|op ops IH]; intros r m H0; [done|].
  cbn [foldl]. by apply IH, represents_op.
Qed.

Lemma diedAmongOthers_snoc key id pir ops op :
  diedAmongOthers key id pir ops → ¬ setsIntent key id op → diedAmongOthers key id pir (ops ++ [op]).
Proof.
  intros (before & after & id' & -> & Ha & Hid & Hs) Hop. exists before, (after ++ [op]), id'. split_and!; try done.
  - by rewrite <- app_assoc.
  - apply Forall_app. split; [done|]. by repeat constructor.
Qed.

(** What is kept and what is alive agree but for the intents that died among others. *)
Lemma kept_or_alive ops key id :
  match foldl keptOp ∅ ops !! (key, id), foldl specOp ∅ ops !! (key, id) with
  | Some pir, Some pir' => pir = pir'
  | Some pir, None => diedAmongOthers key id pir ops
  | None, None => True
  | None, Some _ => False
  end.
Proof.
  induction ops as [|op ops IH] using rev_ind; [done|]. rewrite !foldl_app. cbn [foldl].
  pose proof (represents_kept ops) as Hr. set (c := foldl keptOp ∅ ops) in *. set (m := foldl specOp ∅ ops) in *.
  destruct op as [key' id' p|key' id'|key' id' p]; cbn [keptOp specOp].
  - destruct (decide ((key', id') = (key, id))) as [[= -> ->]|Hne]; [by rewrite !lookup_insert_eq|]. rewrite !lookup_insert_ne by done.
    destruct (c !! (key, id)), (m !! (key, id)); try done. by apply diedAmongOthers_snoc.
  - destruct (decide ((key', id') = (key, id))) as [[= -> ->]|Hne]; [by rewrite !lookup_delete_eq|]. rewrite !lookup_delete_ne by done.
    destruct (c !! (key, id)), (m !! (key, id)); try done. by apply diedAmongOthers_snoc.
  - destruct (decide ((key', id') = (key, id))) as [[= -> ->]|Hne].
    2: { assert (Hc : (if bool_decide (c !! (key', id') = Some p ∧ onlyOne key' id' c) then delete (key', id') c else c) !! (key, id) = c !! (key, id))
           by (destruct (bool_decide _); [by rewrite lookup_delete_ne|done]).
         assert (Hm : (if bool_decide (m !! (key', id') = Some p) then delete (key', id') m else m) !! (key, id) = m !! (key, id))
           by (destruct (bool_decide (m !! _ = _)); [by rewrite lookup_delete_ne|done]).
         rewrite Hc, Hm. clear Hc Hm. destruct (c !! (key, id)), (m !! (key, id)); try done. apply diedAmongOthers_snoc; [done|by intros []]. }
    case_bool_decide as Hc; case_bool_decide as Hm; rewrite ?lookup_delete_eq; [done| | |].
    + destruct Hc as [Hc _]. rewrite Hc in IH. destruct (m !! (key, id)); [congruence|done].
    + rewrite Hm in IH. destruct (c !! (key, id)) as [pir|] eqn:Ec; [|done]. subst pir. apply Decidable.not_and in Hc as [Hc|Hc]; [done| |by left].
      assert (∃ id'', id'' ≠ id ∧ is_Some (c !! (key, id''))) as (id'' & Hid & Hs).
      { apply map_not_Forall in Hc as ([k i] & x & Hx & Hk); [|intros; apply _]. cbn in Hk.
        destruct (decide (k = key)) as [->|]; [|by destruct Hk]. exists i. split; [|by exists x]. intros ->. by destruct Hk. }
      exists ops, [], id''. split_and!; [done|apply Forall_nil_2|done|]. by rewrite (proj1 Hr).
    + destruct (c !! (key, id)), (m !! (key, id)); try done. apply diedAmongOthers_snoc; [done|by intros []].
Qed.

(** C33: Over any history of calls and deaths, the intent of a configuration and a subscriber that was set last, was not unset and did not
    die is the one the reporter has, and without one the reporter has none, with one exception: an intent that died while another
    subscriber of its configuration was registered is kept until it is replaced.  An alert is broadcast to the intent the reporter has, with
    the ids of the configuration, the subscription and the rule and the key as a parcel, and to nobody if it has none. *)
Theorem subscribers_follow_calls (ops : list SubscriberOp) (key : ConfigKey) (id : Z) (cookies : list string) sub p dimKey :
  let r := subscribersAfter ops in
  match getBroadcastSubscriber key id r, foldl specOp ∅ ops !! (key, id) with
  | Some pir, Some alive => pir = alive
  | Some pir, None => diedAmongOthers key id pir ops
  | None, None => True
  | None, Some alive => False
  end ∧
  alertBroadcastSubscriber key (mkSubscriptionMessage sub p (kBroadcastSubscriberDetails (Some id) cookies)) dimKey r
  = match getBroadcastSubscriber key id r with
    | None => Some []
    | Some pir => (λ parcel, [SendSubscriberBroadcast pir key.1 key.2 (sub_id sub) (sub_rule_id sub) cookies parcel])
                    <$> toStatsDimensionsValueParcel (mDimensionKeyInWhat dimKey)
    end.
Proof.
  intros r. split; [rewrite (proj1 (represents_kept ops)); apply kept_or_alive|]. unfold alertBroadcastSubscriber, getBroadcastSubscriber.
  cbn [subscriber_information]. destruct (mIntentMap r !! key) as [s|]; cbn [mbind option_bind]; [|done].
  destruct (s !! id); [|done]. unfold sendBroadcastLocked. cbn [sm_subscription]. by destruct (toStatsDimensionsValueParcel _).
Qed.

(** The intent of a client that died is still used while its configuration has another subscriber. *)
Lemma dead_subscriber_kept :
  getBroadcastSubscriber (1000, 7) 1
    (subscribersAfter [SetSubscriber (1000, 7) 1 5; SetSubscriber (1000, 7) 2 6; SubscriberDied (1000, 7) 1 5]) = Some 5.
Proof. reflexivity. Qed.

(** Subscribers that are to be informed with certainty are all informed, in order, whatever the random numbers are. *)
Lemma certain_subscribers_informed RAND_MAX rand uidMap r ruleId metricId dimKey value key n subs :
  Forall (λ s, SFltb (probability_of_informing s) (toFloat 1) = false) subs →
  triggerSubscribers RAND_MAX rand uidMap r ruleId metricId dimKey value key n subs
  = (λ l, concat l) <$> mapM (informSubscriber uidMap r ruleId metricId dimKey value key) subs.
Proof.
  intros H. revert n. induction H as [|s subs Hs H IH]; intros n; [done|]. cbn [triggerSubscribers mapM]. unfold skipped. rewrite Hs.
  destruct (informSubscriber _ _ _ _ _ _ _ s); cbn [mbind option_bind]; [|done]. rewrite IH. by destruct (mapM _ subs).
Qed.
