(* ===== verification/PullCallbacks.v ===== *)
(** * Pull callbacks in a client process (lib/libstatspull/stats_pull_atom_callback.cpp)

    A client keeps the callbacks of its atoms and registers them with statsd from threads of their own; when statsd
    dies, all callbacks are registered with the new instance.

    An instance of statsd is a number; [available] is what [AServiceManager_getService] finds, and linking to its death
    succeeds.  A callback is the function, its cookie and its metadata.  Threads and the handler of a death are split
    where the code releases [pullAtomMutex]; the calls to statsd are recorded in order. *)
From stdpp Require Import sorting.
From S2P Require Import Prelude FieldValue LogEvent StatsEvent Sorting.

Definition DEFAULT_COOL_DOWN_MILLIS : Z := 1000.
Definition DEFAULT_TIMEOUT_MILLIS : Z := 2000.

Record PullAtomMetadata := mkPullAtomMetadata { cool_down_millis : Z; timeout_millis : Z; additive_fields : list Z }.

Definition PullAtomMetadata_obtain : PullAtomMetadata := mkPullAtomMetadata DEFAULT_COOL_DOWN_MILLIS DEFAULT_TIMEOUT_MILLIS [].
Definition PullAtomMetadata_setCoolDownMillis (x : Z) (m : PullAtomMetadata) : PullAtomMetadata :=
  mkPullAtomMetadata x (timeout_millis m) (additive_fields m).
Definition PullAtomMetadata_setTimeoutMillis (x : Z) (m : PullAtomMetadata) : PullAtomMetadata :=
  mkPullAtomMetadata (cool_down_millis m) x (additive_fields m).
Definition PullAtomMetadata_setAdditiveFields (fields : list Z) (m : PullAtomMetadata) : PullAtomMetadata :=
  mkPullAtomMetadata (cool_down_millis m) (timeout_millis m) fields.

(** [StatsPullAtomCallbackInternal]: the callback and its cookie are a number. *)
Record PullCallback := mkPullCallback { mCallback : Z; mCoolDownMillis : Z; mTimeoutMillis : Z; mAdditiveFields : list Z }.

#[export] Instance PullCallback_eq_dec : EqDecision PullCallback.
Proof. solve_decision. Defined.

(** The static variables. *)
Record PullLibrary := mkPullLibrary { mPullers : gmap Z PullCallback; sStatsd : option Z }.

Definition PullLibrary_init : PullLibrary := mkPullLibrary ∅ None.

Inductive StatsdCall :=
  | RegisterNativePullAtomCallback (service atomTag : Z) (cb : PullCallback)
  | UnregisterNativePullAtomCallback (service atomTag : Z).

(** The threads the library starts. *)
Inductive PullThread :=
  | RegisterThread (atomTag : Z) (cb : PullCallback)
  | UnregisterThread (atomTag : Z).

Definition getStatsService (available : option Z) (l : PullLibrary) : option Z * PullLibrary :=
  match sStatsd l with
  | Some service => (Some service, l)
  | None => (available, mkPullLibrary (mPullers l) available)
  end.

(** A thread that runs: what it is to do, and the instance of statsd it has fetched. *)
Record RunningThread := mkRunningThread { rt_thread : PullThread; rt_service : option Z }.

(** [registerStatsPullAtomCallbackBlocking], [unregisterStatsPullAtomCallbackBlocking].  The lock is held while statsd is fetched and not
    for the call to it, so a thread takes two steps; it ends at once when statsd is not available. *)
Definition runThread (available : option Z) (r : RunningThread) (l : PullLibrary) : list StatsdCall * option RunningThread * PullLibrary :=
  match rt_service r with
  | None =>
      let '(service, l) := getStatsService available l in
      ([], (λ s, mkRunningThread (rt_thread r) (Some s)) <$> service, l)
  | Some service =>
      (match rt_thread r with
       | RegisterThread atomTag cb => [RegisterNativePullAtomCallback service atomTag cb]
       | UnregisterThread atomTag => [UnregisterNativePullAtomCallback service atomTag]
       end, None, l)
  end.

(** The entries of the map in order. *)
Definition pullersInOrder (m : gmap Z PullCallback) : list (Z * PullCallback) :=
  insertionSort (λ a b : Z * PullCallback, a.1 <? b.1) (map_to_list m).

(** How far a call of [binderDied] is after its first lock: before [getStatsService], before the copy of the callbacks, and in the loop
    over the copy. *)
Inductive DeathHandler :=
  | Reset
  | Fetched (service : Z)
  | Copied (service : Z) (pullersCopy : list (Z * PullCallback)).

(** [binderDied] begins: under the lock, the instance is forgotten. *)
Definition binderDied_begin (l : PullLibrary) : DeathHandler * PullLibrary := (Reset, mkPullLibrary (mPullers l) None).

(** A later step of [binderDied]: the lock is released between the steps, and the calls to statsd are made one by one without it.  There
    is no handler after the step if the function returned. *)
Definition binderDied (available : option Z) (h : DeathHandler) (l : PullLibrary) : list StatsdCall * option DeathHandler * PullLibrary :=
  match h with
  | Reset => let '(service, l) := getStatsService available l in ([], Fetched <$> service, l)
  | Fetched service => ([], Some (Copied service (pullersInOrder (mPullers l))), l)
  | Copied service [] => ([], None, l)
  | Copied service (it :: rest) => ([RegisterNativePullAtomCallback service it.1 it.2], Some (Copied service rest), l)
  end.

Definition setPullAtomCallback (atom_tag : Z) (metadata : option PullAtomMetadata) (callback : Z) (l : PullLibrary)
    : PullThread * PullLibrary :=
  let coolDownMillis := match metadata with None => DEFAULT_COOL_DOWN_MILLIS | Some m => cool_down_millis m end in
  let timeoutMillis := match metadata with None => DEFAULT_TIMEOUT_MILLIS | Some m => timeout_millis m end in
  let additiveFields := match metadata with None => [] | Some m => additive_fields m end in
  let callbackBinder := mkPullCallback callback coolDownMillis timeoutMillis additiveFields in
  (RegisterThread atom_tag callbackBinder, mkPullLibrary (<[atom_tag := callbackBinder]> (mPullers l)) (sStatsd l)).

Definition clearPullAtomCallback (atom_tag : Z) (l : PullLibrary) : PullThread * PullLibrary :=
  (UnregisterThread atom_tag, mkPullLibrary (delete atom_tag (mPullers l)) (sStatsd l)).

(** ** The answer to a pull *)

(** [onPullAtom]: the events of the callback become parcels; [accepted] tells whether statsd took the answer, otherwise an empty one is
    sent.  The result is what is sent to the receiver: success and parcels. *)
Definition AStatsManager_PULL_SUCCESS : Z := 0.

Definition onPullAtom (result : Z) (events : list AStatsEvent) (accepted : bool) : list (bool * list (list Z)) :=
  let success := result =? AStatsManager_PULL_SUCCESS in
  (success, getBuffer <$> events) :: (if accepted then [] else [(false, [])]).

(** * Facts on pull callbacks in a client

    The client, its threads, the handlers of deaths and statsd interleave as the locks allow.  An atom whose threads do
    not overtake each other, which is not changed between the copy and the loop of a handler, and for which statsd is
    found, ends up in statsd exactly as the client has set it; each of the three exceptions really loses it. *)

(** ** Client and statsd together *)

(** The library; the threads, in the order of the calls that start them; the handlers of deaths that have begun; whether the library is
    still to be told of a death; the instance of statsd, the number of instances so far, and the callbacks it knows.
    [ps_doubtful] only observes the run: the atoms for which one of the exceptions has happened since their last undisturbed change. *)
Record PullState := mkPullState {
  ps_library : PullLibrary; ps_threads : list RunningThread; ps_handlers : list DeathHandler; ps_notice : bool;
  ps_statsd : option Z; ps_instances : Z; ps_registered : gmap Z PullCallback; ps_doubtful : gset Z
}.

Definition PullState_init : PullState := mkPullState PullLibrary_init [] [] false None 0 ∅ ∅.

(** A call reaches statsd only if its instance is alive. *)
Definition receiveCall (statsd : option Z) (registered : gmap Z PullCallback) (c : StatsdCall) : gmap Z PullCallback :=
  match c with
  | RegisterNativePullAtomCallback service tag cb => if bool_decide (statsd = Some service) then <[tag := cb]> registered else registered
  | UnregisterNativePullAtomCallback service tag => if bool_decide (statsd = Some service) then delete tag registered else registered
  end.

Definition threadTag (t : PullThread) : Z := match t with RegisterThread tag _ | UnregisterThread tag => tag end.
Definition runningTag (r : RunningThread) : Z := threadTag (rt_thread r).

(** What the thread is to leave in statsd for its atom. *)
Definition threadResult (t : PullThread) : option PullCallback := match t with RegisterThread _ cb => Some cb | UnregisterThread _ => None end.

(** A handler is about to register the callback of the atom it has copied. *)
Definition copyPending (tag : Z) (h : DeathHandler) : Prop := match h with Copied _ rest => tag ∈ rest.*1 | _ => False end.

#[export] Instance copyPending_dec tag h : Decision (copyPending tag h).
Proof. destruct h; cbn; apply _. Defined.

(** A change of an atom is disturbed by a handler that will register an older copy of it; otherwise the atom starts afresh, unless older
    threads of it still run. *)
Definition doubtAfterChange (tag : Z) (st : PullState) : gset Z :=
  if bool_decide (Exists (copyPending tag) (ps_handlers st)) then {[tag]} ∪ ps_doubtful st
  else if bool_decide (Exists (λ r, runningTag r = tag) (ps_threads st)) then ps_doubtful st
  else ps_doubtful st ∖ {[tag]}.

(** A thread that fetches statsd is disturbed if it finds none, or if an older thread of its atom has not ended. *)
Definition doubtOfThread (before : list RunningThread) (r : RunningThread) (next : option RunningThread) : gset Z :=
  match rt_service r, next with
  | Some _, _ => ∅
  | None, None => {[runningTag r]}
  | None, Some _ => if bool_decide (Exists (λ r', runningTag r' = runningTag r) before) then {[runningTag r]} else ∅
  end.

(** A handler that finds no statsd leaves all callbacks unregistered. *)
Definition doubtOfHandler (h : DeathHandler) (next : option DeathHandler) (l : PullLibrary) : gset Z :=
  match h, next with Reset, None => dom (mPullers l) | _, _ => ∅ end.

Inductive PullStep : PullState → PullState → Prop :=
  | step_set tag metadata callback st t l :
      setPullAtomCallback tag metadata callback (ps_library st) = (t, l) →
      PullStep st (mkPullState l (ps_threads st ++ [mkRunningThread t None]) (ps_handlers st) (ps_notice st)
        (ps_statsd st) (ps_instances st) (ps_registered st) (doubtAfterChange tag st))
  | step_clear tag st t l :
      clearPullAtomCallback tag (ps_library st) = (t, l) →
      PullStep st (mkPullState l (ps_threads st ++ [mkRunningThread t None]) (ps_handlers st) (ps_notice st)
        (ps_statsd st) (ps_instances st) (ps_registered st) (doubtAfterChange tag st))
  (** Any thread takes a step; the service manager finds statsd or nothing. *)
  | step_thread before r after available st calls next l :
      ps_threads st = before ++ r :: after → available = None ∨ available = ps_statsd st →
      runThread available r (ps_library st) = (calls, next, l) →
      PullStep st (mkPullState l (before ++ option_list next ++ after) (ps_handlers st) (ps_notice st)
        (ps_statsd st) (ps_instances st) (foldl (receiveCall (ps_statsd st)) (ps_registered st) calls)
        (doubtOfThread before r next ∪ ps_doubtful st))
  (** The library is told of a death. *)
  | step_told st h l :
      ps_notice st = true → binderDied_begin (ps_library st) = (h, l) →
      PullStep st (mkPullState l (ps_threads st) (ps_handlers st ++ [h]) false
        (ps_statsd st) (ps_instances st) (ps_registered st) (ps_doubtful st))
  | step_handler before h after available st calls next l :
      ps_handlers st = before ++ h :: after → available = None ∨ available = ps_statsd st →
      binderDied available h (ps_library st) = (calls, next, l) →
      PullStep st (mkPullState l (ps_threads st) (before ++ option_list next ++ after) (ps_notice st)
        (ps_statsd st) (ps_instances st) (foldl (receiveCall (ps_statsd st)) (ps_registered st) calls)
        (doubtOfHandler h next (ps_library st) ∪ ps_doubtful st))
  (** Statsd dies with all it knows; the library hears of it if it has linked to this instance. *)
  | step_dies service st :
      ps_statsd st = Some service →
      PullStep st (mkPullState (ps_library st) (ps_threads st) (ps_handlers st)
        (ps_notice st || bool_decide (sStatsd (ps_library st) = Some service)) None (ps_instances st) ∅ (ps_doubtful st))
  | step_starts st :
      ps_statsd st = None →
      PullStep st (mkPullState (ps_library st) (ps_threads st) (ps_handlers st) (ps_notice st)
        (Some (ps_instances st + 1)) (ps_instances st + 1) (ps_registered st) (ps_doubtful st)).

(** ** Invariant *)

(** The last thread of an atom that is still to run. *)
Definition lastThread (tag : Z) (threads : list PullThread) : option PullThread := last (filter (λ t, threadTag t = tag) threads).

(** No thread of the atom can reach the current statsd. *)
Definition quiet (tag : Z) (st : PullState) : Prop :=
  ∀ r, r ∈ ps_threads st → runningTag r = tag → ∃ s, rt_service r = Some s ∧ ps_statsd st ≠ Some s.

(** A handler is still to register the atom with the current statsd. *)
Definition repairs (statsd : option Z) (tag : Z) (h : DeathHandler) : Prop :=
  match h with
  | Reset => True
  | Fetched s => statsd = Some s
  | Copied s rest => statsd = Some s ∧ tag ∈ rest.*1
  end.

Definition toBeRepaired (tag : Z) (st : PullState) : Prop :=
  ps_notice st = true ∨ ∃ h, h ∈ ps_handlers st ∧ repairs (ps_statsd st) tag h.

Definition handlerService (h : DeathHandler) : option Z :=
  match h with Reset => None | Fetched s | Copied s _ => Some s end.

(** Threads of an atom that is not in doubt run one after the other. *)
Definition inOrder (doubtful : gset Z) (r r' : RunningThread) : Prop :=
  runningTag r = runningTag r' → runningTag r ∉ doubtful → rt_service r' = None.

(** An instance that the library, a thread or a handler holds. *)
Definition holds (st : PullState) (s : Z) : Prop :=
  sStatsd (ps_library st) = Some s ∨ (∃ r, r ∈ ps_threads st ∧ rt_service r = Some s) ∨ ∃ h, h ∈ ps_handlers st ∧ handlerService h = Some s.

(** The connection to statsd. *)
Record connection_ok (st : PullState) : Prop := {
  co_bound s : holds st s ∨ ps_statsd st = Some s → s ≤ ps_instances st;
  (** Who holds the living instance got it from the library. *)
  co_live s : holds st s → ps_statsd st = Some s → sStatsd (ps_library st) = Some s;
  (** Nothing is registered with an instance the library does not hold. *)
  co_unknown : ps_statsd st = None ∨ sStatsd (ps_library st) ≠ ps_statsd st → ps_registered st = ∅;
  co_notice : ps_notice st = true ↔ ∃ s, sStatsd (ps_library st) = Some s ∧ ps_statsd st ≠ Some s
}.

(** An atom that is not in doubt. *)
Record atom_ok (tag : Z) (st : PullState) : Prop := {
  (** The last thread of an atom leaves what the client has set, *)
  ao_pending t : lastThread tag (rt_thread <$> ps_threads st) = Some t → mPullers (ps_library st) !! tag = threadResult t;
  (** and so do the copies of the handlers. *)
  ao_copies s rest cb : Copied s rest ∈ ps_handlers st → (tag, cb) ∈ rest → mPullers (ps_library st) !! tag = Some cb;
  (** Without a thread, statsd knows nothing else than what is set, and knows it unless a handler is still to tell it. *)
  ao_kept : quiet tag st → ps_registered st !! tag = None ∨ ps_registered st !! tag = mPullers (ps_library st) !! tag;
  ao_done : quiet tag st → ps_registered st !! tag = mPullers (ps_library st) !! tag ∨ toBeRepaired tag st
}.

Record pull_ok (st : PullState) : Prop := {
  po_connection : connection_ok st;
  po_order : StronglySorted (inOrder (ps_doubtful st)) (ps_threads st);
  po_atoms tag : tag ∉ ps_doubtful st → atom_ok tag st
}.

(** ** The connection *)

#[local] Ltac pull_simpl :=
  cbn [ps_library ps_threads ps_handlers ps_notice ps_statsd ps_instances ps_registered ps_doubtful mPullers sStatsd rt_thread rt_service
       handlerService option_list fmap option_fmap option_map app] in *.

(** Nobody gets hold of another instance, and statsd is only told things by someone who holds it. *)
Lemma connection_frame st st' :
  connection_ok st → sStatsd (ps_library st') = sStatsd (ps_library st) → ps_statsd st' = ps_statsd st →
  ps_instances st' = ps_instances st → ps_notice st' = ps_notice st →
  (∀ s, holds st' s → holds st s) →
  (ps_registered st' = ps_registered st ∨ ∃ s, holds st s ∧ ps_statsd st = Some s) →
  connection_ok st'.
Proof.
  intros [B L U N] E1 E2 E3 E4 H R. constructor; rewrite ?E1, ?E2, ?E3, ?E4.
  - intros s [Hs|Hs]; apply B; auto.
  - intros s Hs. apply L. auto.
  - intros Hd. destruct R as [->|(s & Hs & Hl)]; [by apply U|]. exfalso.
    destruct Hd as [Hd|Hd]; [congruence|]. apply Hd. rewrite Hl. by apply L.
  - done.
Qed.

(** Statsd is fetched under the lock. *)
Lemma connection_fetch st st' available service l :
  connection_ok st → available = None ∨ available = ps_statsd st → getStatsService available (ps_library st) = (service, l) →
  ps_library st' = l → ps_statsd st' = ps_statsd st → ps_instances st' = ps_instances st → ps_notice st' = ps_notice st →
  ps_registered st' = ps_registered st →
  (∀ s, holds st' s → holds st s ∨ service = Some s) →
  connection_ok st' ∧ mPullers l = mPullers (ps_library st) ∧
  (∀ s, service = Some s → ps_statsd st ≠ Some s → ps_notice st = true).
Proof.
  intros [B L U N] Ha E E0 E2 E3 E4 E5 H. unfold getStatsService in E. destruct (sStatsd (ps_library st)) as [s0|] eqn:Es.
  - injection E as <- <-. split; [|split; [done|]].
    + apply (connection_frame st); [by constructor; rewrite ?Es| | | | | |]; rewrite ?E0; auto.
      intros s Hs. destruct (H s Hs) as [?|[= <-]]; [done|]. by left.
    + intros s [= <-] Hd. apply N. by exists s0.
  - injection E as <- <-. assert (Hn : ps_notice st = false).
    { destruct (ps_notice st); [|done]. destruct N as [N _]. destruct (N eq_refl) as (s & ? & _). congruence. }
    split; [|split; [done|]].
    + constructor; rewrite ?E0, ?E2, ?E3, ?E4, ?E5; pull_simpl.
      * intros s [Hs|Hs]; [|auto]. destruct (H s Hs) as [?| ->]; [auto|]. destruct Ha as [?|?]; [done|]. auto.
      * intros s Hs Hl. destruct (H s Hs) as [Hs'| ->]; [|done]. by apply L in Hs'; [|done].
      * intros Hd. apply U. destruct (ps_statsd st); auto.
      * rewrite Hn. split; [done|]. intros (s & -> & Hd). destruct Ha as [?|?]; congruence.
    + intros s -> Hd. destruct Ha as [?|?]; congruence.
Qed.

Lemma connection_dies st service st' :
  connection_ok st → ps_statsd st = Some service → ps_library st' = ps_library st → ps_threads st' = ps_threads st →
  ps_handlers st' = ps_handlers st → ps_statsd st' = None → ps_instances st' = ps_instances st → ps_registered st' = ∅ →
  ps_notice st' = ps_notice st || bool_decide (sStatsd (ps_library st) = Some service) → connection_ok st'.
Proof.
  intros [B L U N] Es E1 E2 E3 E4 E5 E6 E7. constructor; unfold holds; rewrite ?E1, ?E2, ?E3, ?E4, ?E5, ?E6, ?E7; try done.
  - intros s [Hs|Hs]; [|done]. apply B. by left.
  - rewrite orb_true_iff, bool_decide_eq_true. split.
    + intros [Hn|Hu]; [|by exists service]. apply N in Hn as (s & ? & _). by exists s.
    + intros (s & Hs & _). destruct (decide (s = service)) as [->|Hne]; [by right|]. left. apply N. exists s. split; [done|congruence].
Qed.

Lemma connection_starts st st' :
  connection_ok st → ps_statsd st = None → ps_library st' = ps_library st → ps_threads st' = ps_threads st →
  ps_handlers st' = ps_handlers st → ps_statsd st' = Some (ps_instances st + 1) → ps_instances st' = ps_instances st + 1 →
  ps_registered st' = ps_registered st → ps_notice st' = ps_notice st → connection_ok st'.
Proof.
  intros [B L U N] Es E1 E2 E3 E4 E5 E6 E7. constructor; unfold holds; rewrite ?E1, ?E2, ?E3, ?E4, ?E5, ?E6, ?E7.
  - intros s [Hs|[= <-]]; [|lia]. assert (s ≤ ps_instances st); [|lia]. apply B. by left.
  - intros s Hs [= <-]. assert (ps_instances st + 1 ≤ ps_instances st); [|lia]. apply B. by left.
  - intros _. apply U. by left.
  - rewrite N. split; intros (s & Hs & _); exists s; (split; [done|]); [|congruence]. intros [= <-].
    assert (ps_instances st + 1 ≤ ps_instances st); [|lia]. apply B. by left; left.
Qed.

Lemma notice_unregistered st : connection_ok st → ps_notice st = true → ps_registered st = ∅.
Proof. intros [_ _ U N] (s & Hs & Hd)%N. apply U. right. congruence. Qed.

(** ** Atoms *)

Lemma lastThread_snoc tag threads t : lastThread tag (threads ++ [t]) = if decide (threadTag t = tag) then Some t else lastThread tag threads.
Proof.
  unfold lastThread. rewrite filter_app. destruct (decide (threadTag t = tag)).
  - rewrite filter_cons_True by done. rewrite filter_nil. by rewrite last_snoc.
  - rewrite filter_cons_False by done. by rewrite filter_nil, app_nil_r.
Qed.

(** Taking out the first thread of its atom. *)
Lemma lastThread_take tag before t after : Forall (λ t', threadTag t' ≠ threadTag t) before →
  lastThread tag (before ++ t :: after)
  = if decide (threadTag t = tag) then Some (default t (lastThread tag (before ++ after))) else lastThread tag (before ++ after).
Proof.
  intros Hb. unfold lastThread. rewrite !filter_app. destruct (decide (threadTag t = tag)) as [Ht|Ht].
  - assert (filter (λ t', threadTag t' = tag) before = []) as ->.
    { induction Hb as [|t' l Ht' _ IH]; [done|]. rewrite filter_cons_False by congruence. done. }
    rewrite filter_cons_True by done. cbn [app]. set (l := filter _ after). clearbody l. clear.
    rewrite last_cons. by destruct (last l).
  - rewrite filter_cons_False by done. done.
Qed.

Lemma lastThread_other tag before t after : threadTag t ≠ tag → lastThread tag (before ++ t :: after) = lastThread tag (before ++ after).
Proof. intros Ht. unfold lastThread. by rewrite !filter_app, filter_cons_False. Qed.

Lemma lastThread_None tag threads t : lastThread tag threads = None → t ∈ threads → threadTag t ≠ tag.
Proof.
  unfold lastThread. rewrite last_None. intros H Ht E. assert (Hin : t ∈ filter (λ t, threadTag t = tag) threads) by (by apply list_elem_of_filter).
  rewrite H in Hin. by apply not_elem_of_nil in Hin.
Qed.

Lemma lastThread_Some tag threads t : lastThread tag threads = Some t → t ∈ threads ∧ threadTag t = tag.
Proof. unfold lastThread. intros Ht%last_Some_elem_of. apply list_elem_of_filter in Ht. naive_solver. Qed.

Lemma sorted_weaken {A} (R R' : A → A → Prop) l :
  (∀ x y, x ∈ l → y ∈ l → R x y → R' x y) → StronglySorted R l → StronglySorted R' l.
Proof.
  intros H Hs. induction Hs as [|x l Hs IH Hx]; [constructor|]. constructor.
  - apply IH. intros. apply H; [by right..|done].
  - apply Forall_forall. intros y Hy. apply H; [by left|by right|]. by apply (proj1 (Forall_forall _ _) Hx).
Qed.

(** An atom that a step does not touch. *)
Lemma atom_frame tag st st' :
  atom_ok tag st →
  mPullers (ps_library st') !! tag = mPullers (ps_library st) !! tag → ps_registered st' !! tag = ps_registered st !! tag →
  lastThread tag (rt_thread <$> ps_threads st') = lastThread tag (rt_thread <$> ps_threads st) →
  (quiet tag st' → quiet tag st) →
  (∀ s rest cb, Copied s rest ∈ ps_handlers st' → (tag, cb) ∈ rest → ∃ s' rest', Copied s' rest' ∈ ps_handlers st ∧ (tag, cb) ∈ rest') →
  (toBeRepaired tag st → toBeRepaired tag st') →
  atom_ok tag st'.
Proof.
  intros [A1 A2 A3 A4] Em Er El Hq Hc Hr. constructor.
  - intros t. rewrite El, Em. apply A1.
  - intros s rest cb H1 H2. rewrite Em. destruct (Hc s rest cb H1 H2) as (s' & rest' & H1' & H2'). by apply (A2 s' rest').
  - intros H. rewrite Em, Er. auto.
  - intros H. rewrite Em, Er. destruct (A4 (Hq H)); auto.
Qed.

(** *** Changes by the client *)

Lemma pull_ok_client st t pullers :
  pull_ok st → pullers !! threadTag t = threadResult t →
  (∀ tag, tag ≠ threadTag t → pullers !! tag = mPullers (ps_library st) !! tag) →
  pull_ok (mkPullState (mkPullLibrary pullers (sStatsd (ps_library st))) (ps_threads st ++ [mkRunningThread t None]) (ps_handlers st)
    (ps_notice st) (ps_statsd st) (ps_instances st) (ps_registered st) (doubtAfterChange (threadTag t) st)).
Proof.
  intros [C O A] Ht Ho. constructor; pull_simpl.
  - apply (connection_frame st); try done; [|by left]. unfold holds. pull_simpl.
    intros s [?|[(r & Hr & Er)|?]]; [by left| |by right; right]. apply elem_of_app in Hr as [Hr|Hr]; [by right; left; exists r|].
    apply list_elem_of_singleton in Hr as ->. done.
  - apply StronglySorted_app. split_and!.
    + intros r r' _ ->%list_elem_of_singleton. by intros _ _.
    + revert O. apply sorted_weaken. intros r r' Hr _ Hin E Hd. apply Hin; [done|]. intros Hold. apply Hd.
      unfold doubtAfterChange. case_bool_decide; [set_solver|]. case_bool_decide as Hb; [done|]. apply elem_of_difference. split; [done|].
      intros Heq%elem_of_singleton. apply Hb, Exists_exists. by exists r.
    + repeat constructor.
  - intros tag Hd. destruct (decide (tag = threadTag t)) as [->|Hne].
    + unfold doubtAfterChange in Hd. case_bool_decide as Hb; [set_solver|]. constructor; pull_simpl.
      * intros t'. rewrite fmap_app. cbn. rewrite lastThread_snoc, decide_True by done. by intros [= <-].
      * intros s rest cb H1 H2. exfalso. apply Hb, Exists_exists. exists (Copied s rest). split; [done|]. cbn. apply list_elem_of_fmap. by exists (threadTag t, cb).
      * intros Hq. edestruct (Hq (mkRunningThread t None)) as (s & ? & _); [apply elem_of_app; right; by left|done|done].
      * intros Hq. edestruct (Hq (mkRunningThread t None)) as (s & ? & _); [apply elem_of_app; right; by left|done|done].
    + apply (atom_frame tag st); pull_simpl; try done.
      * apply A. unfold doubtAfterChange in Hd. repeat case_bool_decide; set_solver.
      * by apply Ho.
      * rewrite fmap_app. cbn. by rewrite lastThread_snoc, decide_False.
      * intros Hq r Hr E. apply Hq; [apply elem_of_app; by left|done].
      * intros s rest cb H1 H2. by exists s, rest.
Qed.

(** *** Threads *)

Lemma running_fmap before r after : rt_thread <$> (before ++ r :: after) = (rt_thread <$> before) ++ rt_thread r :: (rt_thread <$> after).
Proof. by rewrite fmap_app. Qed.

Lemma quiet_ended tag st st' before r after :
  ps_threads st = before ++ r :: after → ps_threads st' = before ++ after → ps_statsd st' = ps_statsd st →
  runningTag r ≠ tag ∨ (∃ s, rt_service r = Some s ∧ ps_statsd st ≠ Some s) → quiet tag st' → quiet tag st.
Proof.
  intros E E' Es Hr Hq r' Hin Et. rewrite <- Es. rewrite E in Hin. apply elem_of_app in Hin as [Hin|Hin]; [apply Hq; [rewrite E'; set_solver|done]|].
  apply elem_of_cons in Hin as [->|Hin]; [|apply Hq; [rewrite E'; set_solver|done]]. rewrite Es. by destruct Hr.
Qed.

Lemma quiet_fetched tag st st' before r r' after :
  ps_threads st = before ++ r :: after → ps_threads st' = before ++ r' :: after → ps_statsd st' = ps_statsd st →
  runningTag r ≠ tag → quiet tag st' → quiet tag st.
Proof.
  intros E E' Es Hr Hq x Hin Et. rewrite <- Es. rewrite E in Hin. apply Hq; [|done]. rewrite E'. set_solver.
Qed.

Lemma order_remove doubtful doubtful' before r after :
  StronglySorted (inOrder doubtful) (before ++ r :: after) → doubtful ⊆ doubtful' → StronglySorted (inOrder doubtful') (before ++ after).
Proof.
  intros (H1 & H2 & H3)%StronglySorted_app Hsub. apply (sorted_weaken (inOrder doubtful)).
  - intros x y _ _ Hxy E Hd. apply Hxy; [done|]. set_solver.
  - apply StronglySorted_app. inversion H3; subst. split_and!; [|done..]. intros. apply H1; [done|by right].
Qed.

(** A thread finds no statsd and ends. *)
Lemma pull_ok_thread_none st before r after l :
  pull_ok st → ps_threads st = before ++ r :: after → mPullers l = mPullers (ps_library st) →
  let st' := mkPullState l (before ++ after) (ps_handlers st) (ps_notice st) (ps_statsd st) (ps_instances st) (ps_registered st)
    ({[runningTag r]} ∪ ps_doubtful st) in
  connection_ok st' → pull_ok st'.
Proof.
  intros [C O A] Et Em st' C'. constructor; [done| |].
  - unfold st'. pull_simpl. rewrite Et in O. revert O. intros O. apply (order_remove _ _ _ _ _ O). set_solver.
  - intros tag Hd. unfold st' in Hd. pull_simpl. assert (Hne : runningTag r ≠ tag) by set_solver.
    apply (atom_frame tag st); unfold st'; pull_simpl; try done.
    + apply A. set_solver.
    + by rewrite Em.
    + rewrite Et, running_fmap, fmap_app. symmetry. by apply lastThread_other.
    + by apply (quiet_ended tag st _ before r after); [|done..|left].
    + intros s rest cb H1 H2. by exists s, rest.
Qed.

(** A thread has fetched statsd. *)
Lemma pull_ok_thread_fetched st before r after l s :
  pull_ok st → ps_threads st = before ++ r :: after → rt_service r = None → mPullers l = mPullers (ps_library st) →
  (ps_statsd st ≠ Some s → ps_notice st = true) →
  let r' := mkRunningThread (rt_thread r) (Some s) in
  let st' := mkPullState l (before ++ r' :: after) (ps_handlers st) (ps_notice st) (ps_statsd st) (ps_instances st) (ps_registered st)
    (doubtOfThread before r (Some r') ∪ ps_doubtful st) in
  connection_ok st' → pull_ok st'.
Proof.
  intros [C O A] Et Er Em Hs r' st' C'. constructor; [done| |].
  - unfold st'. pull_simpl. rewrite Et in O. apply StronglySorted_app in O as (O1 & O2 & O3). inversion O3 as [|? ? O4 O5]; subst.
    assert (Hmono : ∀ x y, inOrder (ps_doubtful st) x y → inOrder (doubtOfThread before r (Some r') ∪ ps_doubtful st) x y).
    { intros x y Hxy E Hd. apply Hxy; [done|set_solver]. }
    apply StronglySorted_app. split_and!.
    + intros x y Hx [->|Hy]%elem_of_cons; [|apply Hmono, O1; [done|by right]]. intros E Hd. exfalso. apply Hd.
      unfold doubtOfThread. rewrite Er, bool_decide_eq_true_2; [rewrite E; set_solver|]. apply Exists_exists. by exists x.
    + revert O2. apply sorted_weaken. auto.
    + constructor; [revert O4; apply sorted_weaken; auto|]. apply (Forall_impl _ _ _ O5). intros y Hy. by apply Hmono.
  - intros tag Hd. unfold st' in Hd. pull_simpl. destruct (decide (runningTag r = tag)) as [<-|Hne].
    + assert (A' := A (runningTag r) ltac:(set_solver)). constructor; unfold st'; pull_simpl.
      * intros t. rewrite running_fmap. change (rt_thread r') with (rt_thread r). rewrite <- running_fmap, <- Et, Em. apply (ao_pending _ _ A').
      * rewrite Em. apply (ao_copies _ _ A').
      * intros Hq. left. destruct (Hq r') as (s' & [= <-] & Hd'); [set_solver|done|]. by rewrite (notice_unregistered st C (Hs Hd')).
      * intros Hq. right. left. destruct (Hq r') as (s' & [= <-] & Hd'); [set_solver|done|]. by apply Hs.
    + apply (atom_frame tag st); unfold st'; pull_simpl; try done.
      * apply A. set_solver.
      * by rewrite Em.
      * by rewrite Et, !running_fmap.
      * by apply (quiet_fetched tag st _ before r r' after).
      * intros s' rest cb H1 H2. by exists s', rest.
Qed.

Lemma pull_ok_thread_call st before r after s registered :
  pull_ok st → ps_threads st = before ++ r :: after → rt_service r = Some s →
  (∀ tag, tag ≠ runningTag r → registered !! tag = ps_registered st !! tag) →
  (if bool_decide (ps_statsd st = Some s) then registered !! runningTag r = threadResult (rt_thread r) else registered = ps_registered st) →
  let st' := mkPullState (ps_library st) (before ++ after) (ps_handlers st) (ps_notice st) (ps_statsd st) (ps_instances st) registered
    (∅ ∪ ps_doubtful st) in
  connection_ok st' → pull_ok st'.
Proof.
  intros [C O A] Et Er Ho Hown st' C'. constructor; [done| |].
  - unfold st'. pull_simpl. rewrite Et in O. apply (order_remove _ _ _ _ _ O). set_solver.
  - intros tag Hd. unfold st' in Hd. pull_simpl. assert (A' := A tag ltac:(set_solver)).
    destruct (decide (runningTag r = tag)) as [<-|Hne].
    + rewrite Et in O. apply StronglySorted_app in O as (O1 & _ & O3). inversion O3 as [|? ? _ O5]; subst.
      assert (Hb : Forall (λ t', threadTag t' ≠ runningTag r) (rt_thread <$> before)).
      { apply Forall_fmap, Forall_forall. intros x Hx E. specialize (O1 x r Hx ltac:(left) E). rewrite Er in O1.
        discriminate O1. unfold runningTag in E |- *. rewrite E. set_solver. }
      pose proof (ao_pending _ _ A') as P. rewrite Et, running_fmap in P.
      rewrite lastThread_take, decide_True in P by done. specialize (P _ eq_refl). rewrite <- fmap_app in P.
      assert (Hlast : quiet (runningTag r) st' → lastThread (runningTag r) (rt_thread <$> (before ++ after)) = None).
      { intros Hq. destruct (lastThread _ _) as [t|] eqn:E; [|done]. apply lastThread_Some in E as [Hin Htag].
        apply list_elem_of_fmap in Hin as (x & -> & Hx). destruct (Hq x Hx Htag) as (s' & Hs' & _).
        apply elem_of_app in Hx as [Hx|Hx]; [by apply (proj1 (Forall_fmap _ _ _)) in Hb; rewrite Forall_forall in Hb; apply Hb in Hx|].
        rewrite Forall_forall in O5. specialize (O5 x Hx (eq_sym Htag)). rewrite O5 in Hs'; [done|set_solver]. }
      assert (Hdone : quiet (runningTag r) st' → ps_statsd st = Some s → registered !! runningTag r = mPullers (ps_library st) !! runningTag r).
      { intros Hq Hl. rewrite Hlast in P by done. rewrite bool_decide_eq_true_2 in Hown by done. by rewrite P. }
      assert (Hdead : ps_statsd st ≠ Some s → registered = ps_registered st ∧ (quiet (runningTag r) st' → quiet (runningTag r) st)).
      { intros Hl. rewrite bool_decide_eq_false_2 in Hown by done. split; [done|].
        apply (quiet_ended _ st _ before r after); [done..|]. right. by exists s. }
      constructor; unfold st'; pull_simpl.
      * intros t E. by rewrite E in P.
      * apply (ao_copies _ _ A').
      * intros Hq. destruct (decide (ps_statsd st = Some s)) as [Hl|Hl]; [right; by apply Hdone|].
        destruct (Hdead Hl) as [-> Hq']. by apply (ao_kept _ _ A'), Hq'.
      * intros Hq. destruct (decide (ps_statsd st = Some s)) as [Hl|Hl]; [left; by apply Hdone|].
        destruct (Hdead Hl) as [-> Hq']. by apply (ao_done _ _ A'), Hq'.
    + apply (atom_frame tag st); unfold st'; pull_simpl; try done.
      * by apply Ho.
      * rewrite Et, running_fmap, fmap_app. symmetry. by apply lastThread_other.
      * by apply (quiet_ended tag st _ before r after); [|done..|left].
      * intros s' rest cb H1 H2. by exists s', rest.
Qed.

Lemma receive_other statsd registered c tag :
  tag ≠ match c with RegisterNativePullAtomCallback _ k _ | UnregisterNativePullAtomCallback _ k => k end →
  receiveCall statsd registered c !! tag = registered !! tag.
Proof.
  intros Hne. destruct c; cbn [receiveCall]; case_bool_decide; [by rewrite lookup_insert_ne|done|by rewrite lookup_delete_ne|done].
Qed.

Lemma holds_threads st threads s :
  (∀ r, r ∈ threads → r ∈ ps_threads st ∨ rt_service r = None) →
  ∀ st', ps_threads st' = threads → ps_handlers st' = ps_handlers st → sStatsd (ps_library st') = sStatsd (ps_library st) → holds st' s → holds st s.
Proof.
  intros H st' E1 E2 E3 [?|[(r & Hr & Es)|?]]; [left; congruence| |right; right; by rewrite <- E2].
  rewrite E1 in Hr. destruct (H r Hr); [|congruence]. right; left. by exists r.
Qed.

Lemma pull_ok_thread st before r after available calls next l :
  pull_ok st → ps_threads st = before ++ r :: after → available = None ∨ available = ps_statsd st →
  runThread available r (ps_library st) = (calls, next, l) →
  pull_ok (mkPullState l (before ++ option_list next ++ after) (ps_handlers st) (ps_notice st)
    (ps_statsd st) (ps_instances st) (foldl (receiveCall (ps_statsd st)) (ps_registered st) calls)
    (doubtOfThread before r next ∪ ps_doubtful st)).
Proof.
  intros Hok Et Ha E. pose proof (po_connection st Hok) as C. unfold runThread in E. destruct (rt_service r) as [s|] eqn:Er.
  - injection E as <- <- <-. unfold doubtOfThread. rewrite Er. cbn [option_list app]. apply (pull_ok_thread_call st before r after s); try done.
    + intros tag Hne. unfold runningTag in Hne. destruct (rt_thread r); cbn [foldl]; by rewrite receive_other.
    + unfold runningTag. destruct (rt_thread r); cbn [foldl receiveCall]; case_bool_decide; [|done| |done]; [apply lookup_insert_eq|apply lookup_delete_eq].
    + apply (connection_frame st); try done.
      * intros s'. apply (holds_threads st (before ++ after)); [|done..]. intros x Hx. left. rewrite Et. set_solver.
      * destruct (decide (ps_statsd st = Some s)) as [Hl|Hl].
        -- right. exists s. split; [|done]. right; left. exists r. split; [rewrite Et; set_solver|done].
        -- left. pull_simpl. destruct (rt_thread r); cbn [foldl receiveCall]; by rewrite bool_decide_eq_false_2.
  - destruct (getStatsService available (ps_library st)) as [service l'] eqn:Eg. injection E as <- <- <-.
    edestruct (connection_fetch st (mkPullState l' (before ++ option_list ((λ s, mkRunningThread (rt_thread r) (Some s)) <$> service) ++ after)
      (ps_handlers st) (ps_notice st) (ps_statsd st) (ps_instances st) (ps_registered st)
      (doubtOfThread before r ((λ s, mkRunningThread (rt_thread r) (Some s)) <$> service) ∪ ps_doubtful st)) available service l')
      as (C' & Em & Hs); try done.
    + intros s [Hs|[(x & Hx & Ex)|Hs]]; [|pull_simpl|left; by right; right].
      * pull_simpl. unfold getStatsService in Eg. destruct (sStatsd (ps_library st)) eqn:Es; injection Eg as <- <-; [left; left; congruence|].
        pull_simpl. by right.
      * apply elem_of_app in Hx as [Hx|[Hx|Hx]%elem_of_app].
        -- left; right; left. exists x. split; [rewrite Et; set_solver|done].
        -- destruct service; [|by apply not_elem_of_nil in Hx]. apply list_elem_of_singleton in Hx as ->. by right.
        -- left; right; left. exists x. split; [rewrite Et; set_solver|done].
    + cbn [foldl]. destruct service as [s|].
      * apply pull_ok_thread_fetched; try done. by apply Hs.
      * unfold doubtOfThread in *. rewrite Er in *. by apply pull_ok_thread_none.
Qed.

(** *** Handlers of deaths *)

Lemma registered_in_copy m tag cb : m !! tag = Some cb → tag ∈ (pullersInOrder m).*1.
Proof.
  intros H. apply list_elem_of_fmap. exists (tag, cb). split; [done|]. unfold pullersInOrder. rewrite insertionSort_permutes. by apply elem_of_map_to_list.
Qed.

Lemma copy_is_registered m tag cb : (tag, cb) ∈ pullersInOrder m → m !! tag = Some cb.
Proof. unfold pullersInOrder. rewrite insertionSort_permutes. apply elem_of_map_to_list. Qed.

Lemma repaired_elsewhere tag st before h after next :
  ps_handlers st = before ++ h :: after → toBeRepaired tag st →
  repairs (ps_statsd st) tag h ∨ ps_notice st = true ∨ ∃ h', h' ∈ before ++ option_list next ++ after ∧ repairs (ps_statsd st) tag h'.
Proof.
  intros E [Hn|(h' & Hin & Hr)]; [auto|]. rewrite E in Hin. apply elem_of_app in Hin as [Hin|[->|Hin]%elem_of_cons]; [|auto|];
    right; right; exists h'; (split; [set_solver|done]).
Qed.

(** A handler takes a step: what it has to show for each atom. *)
Lemma pull_ok_handler_frame st before h after next l registered doubts :
  pull_ok st → ps_handlers st = before ++ h :: after → mPullers l = mPullers (ps_library st) →
  let st' := mkPullState l (ps_threads st) (before ++ option_list next ++ after) (ps_notice st) (ps_statsd st) (ps_instances st)
    registered (doubts ∪ ps_doubtful st) in
  connection_ok st' →
  (∀ tag, tag ∉ doubts → tag ∉ ps_doubtful st → atom_ok tag st →
    (∀ s rest cb, next = Some (Copied s rest) → (tag, cb) ∈ rest → mPullers (ps_library st) !! tag = Some cb) ∧
    (registered !! tag = ps_registered st !! tag ∧
       (quiet tag st → repairs (ps_statsd st) tag h →
        registered !! tag = mPullers (ps_library st) !! tag ∨ toBeRepaired tag st')
     ∨ registered !! tag = mPullers (ps_library st) !! tag)) →
  pull_ok st'.
Proof.
  intros [C O A] Eh Em st' C' Hst. constructor; [done| |].
  - revert O. apply sorted_weaken. intros x y _ _ Hxy E Hd. apply Hxy; [done|]. unfold st' in Hd. pull_simpl. set_solver.
  - intros tag Hd. unfold st' in Hd. pull_simpl. assert (A' := A tag ltac:(set_solver)).
    destruct (Hst tag ltac:(set_solver) ltac:(set_solver) A') as [Hcopy Hreg]. constructor; unfold st'; pull_simpl; rewrite Em.
    + apply (ao_pending _ _ A').
    + intros s rest cb Hin Hrest. apply elem_of_app in Hin as [Hin|[Hin|Hin]%elem_of_app].
      * apply (ao_copies _ _ A' s rest); [rewrite Eh; set_solver|done].
      * destruct next; [|by apply not_elem_of_nil in Hin]. apply list_elem_of_singleton in Hin as <-. by apply (Hcopy s rest).
      * apply (ao_copies _ _ A' s rest); [rewrite Eh; set_solver|done].
    + intros Hq. destruct Hreg as [[-> _]| ->]; [|by right]. by apply (ao_kept _ _ A').
    + intros Hq. destruct Hreg as [[Er Hrep]| ->]; [|by left]. destruct (ao_done _ _ A' Hq) as [Hd'|Hd']; [left; congruence|].
      apply (repaired_elsewhere tag st before h after next) in Hd' as [Hd'|Hd']; [|by right|done]. by apply Hrep.
Qed.

Lemma holds_handlers st st' s before h after next :
  ps_handlers st = before ++ h :: after → ps_handlers st' = before ++ option_list next ++ after → ps_threads st' = ps_threads st →
  sStatsd (ps_library st') = sStatsd (ps_library st) → (∀ h', next = Some h' → handlerService h' = handlerService h) → holds st' s → holds st s.
Proof.
  intros E E' Et Es Hh [Hs|[Hs|(x & Hx & Ex)]]; [left; congruence|right; left; by rewrite <- Et|]. right; right. rewrite E' in Hx.
  apply elem_of_app in Hx as [Hx|[Hx|Hx]%elem_of_app]; [exists x; rewrite E; split; [set_solver|done]| |exists x; rewrite E; split; [set_solver|done]].
  destruct next as [h'|]; [|by apply not_elem_of_nil in Hx]. apply list_elem_of_singleton in Hx as ->. exists h. rewrite E.
  split; [set_solver|]. by rewrite <- (Hh h').
Qed.

(** The handler asks for statsd. *)
Lemma pull_ok_handler_fetch st before after available service l :
  pull_ok st → ps_handlers st = before ++ Reset :: after → available = None ∨ available = ps_statsd st →
  getStatsService available (ps_library st) = (service, l) →
  pull_ok (mkPullState l (ps_threads st) (before ++ option_list (Fetched <$> service) ++ after) (ps_notice st) (ps_statsd st) (ps_instances st)
    (ps_registered st) (doubtOfHandler Reset (Fetched <$> service) (ps_library st) ∪ ps_doubtful st)).
Proof.
  intros Hok Eh Ha Eg. pose proof (po_connection st Hok) as C.
  edestruct (connection_fetch st (mkPullState l (ps_threads st) (before ++ option_list (Fetched <$> service) ++ after) (ps_notice st) (ps_statsd st)
    (ps_instances st) (ps_registered st) (doubtOfHandler Reset (Fetched <$> service) (ps_library st) ∪ ps_doubtful st)) available service l)
    as (C' & Em & Hs); try done.
  - intros s [Hs|[Hs|(x & Hx & Ex)]]; [|left; by right; left|pull_simpl].
    + pull_simpl. unfold getStatsService in Eg. destruct (sStatsd (ps_library st)) eqn:Es; injection Eg as <- <-; [left; left; congruence|].
      pull_simpl. by right.
    + apply elem_of_app in Hx as [Hx|[Hx|Hx]%elem_of_app];
        [left; right; right; exists x; rewrite Eh; split; [set_solver|done]| |left; right; right; exists x; rewrite Eh; split; [set_solver|done]].
      destruct service; [|by apply not_elem_of_nil in Hx]. apply list_elem_of_singleton in Hx as ->. by right.
  - apply (pull_ok_handler_frame st before Reset after); try done. intros tag Hd _ A'. split; [by destruct service|]. left. split; [done|].
    intros Hq _. destruct service as [s|]; cbn [doubtOfHandler fmap option_fmap option_map] in Hd.
    + right. destruct (decide (ps_statsd st = Some s)) as [Hl|Hl]; [|left; by apply (Hs s)].
      right. exists (Fetched s). split; [pull_simpl; set_solver|done].
    + left. apply not_elem_of_dom in Hd. rewrite Hd. destruct (ao_kept _ _ A' Hq); congruence.
Qed.

Lemma pull_ok_handler st before h after available calls next l :
  pull_ok st → ps_handlers st = before ++ h :: after → available = None ∨ available = ps_statsd st →
  binderDied available h (ps_library st) = (calls, next, l) →
  pull_ok (mkPullState l (ps_threads st) (before ++ option_list next ++ after) (ps_notice st)
    (ps_statsd st) (ps_instances st) (foldl (receiveCall (ps_statsd st)) (ps_registered st) calls)
    (doubtOfHandler h next (ps_library st) ∪ ps_doubtful st)).
Proof.
  intros Hok Eh Ha E. pose proof (po_connection st Hok) as C. destruct h as [|s|s [|[k cb] rest]]; cbn [binderDied] in E.
  - destruct (getStatsService available (ps_library st)) as [service l'] eqn:Eg. injection E as <- <- <-. by apply (pull_ok_handler_fetch st before after available).
  - injection E as <- <- <-. apply (pull_ok_handler_frame st before (Fetched s) after); try done.
    + apply (connection_frame st); try done; [|by left]. intros s'. apply (holds_handlers st _ s' before (Fetched s) after (Some (Copied s (pullersInOrder (mPullers (ps_library st)))))); try done.
      by intros h' [= <-].
    + intros tag _ _ A'. split; [intros s' rest cb [= <- <-]; apply copy_is_registered|]. left. split; [done|]. intros Hq Hl.
      destruct (mPullers (ps_library st) !! tag) as [cb|] eqn:Em; [|left; destruct (ao_kept _ _ A' Hq); cbn; congruence].
      right. right. eexists. split; [pull_simpl; apply elem_of_app; right; by left|]. split; [done|]. by apply (registered_in_copy _ _ cb).
  - injection E as <- <- <-. apply (pull_ok_handler_frame st before (Copied s []) after None); try done.
    + apply (connection_frame st); try done; [|by left]. intros s'. by apply (holds_handlers st _ s' before (Copied s []) after None).
    + intros tag _ _ A'. split; [done|]. left. split; [done|]. intros _ [_ Hin]. by apply not_elem_of_nil in Hin.
  - injection E as <- <- <-. apply (pull_ok_handler_frame st before (Copied s ((k, cb) :: rest)) after (Some (Copied s rest))); try done.
    + apply (connection_frame st); try done.
      * intros s'. apply (holds_handlers st _ s' before (Copied s ((k, cb) :: rest)) after (Some (Copied s rest))); try done. by intros h' [= <-].
      * cbn [foldl receiveCall ps_registered fst snd]. case_bool_decide as Hl; [|by left]. right. exists s. split; [|done]. right; right.
        eexists. split; [rewrite Eh; apply elem_of_app; right; by left|done].
    + intros tag _ _ A'. assert (Hk : ∀ cb', (tag, cb') ∈ (k, cb) :: rest → mPullers (ps_library st) !! tag = Some cb').
      { intros cb'. apply (ao_copies _ _ A' s). rewrite Eh. set_solver. }
      split; [intros s' rest' cb' [= <- <-] ?; apply Hk; by right|]. cbn [foldl receiveCall fst snd].
      case_bool_decide as Hl; [|left; split; [done|by intros _ [? _]]]. destruct (decide (k = tag)) as [->|Hne].
      * right. rewrite lookup_insert_eq. symmetry. apply Hk. by left.
      * left. rewrite lookup_insert_ne by done. split; [done|]. intros _ [_ Hin]. right. right. exists (Copied s rest).
        split; [pull_simpl; set_solver|]. split; [done|]. cbn in Hin. set_solver.
Qed.

(** The library is told: it forgets the instance. *)
Lemma pull_ok_told st : pull_ok st → ps_notice st = true →
  pull_ok (mkPullState (mkPullLibrary (mPullers (ps_library st)) None) (ps_threads st) (ps_handlers st ++ [Reset]) false (ps_statsd st)
    (ps_instances st) (ps_registered st) (ps_doubtful st)).
Proof.
  intros [C O A] Hn. pose proof (notice_unregistered st C Hn) as Hr. constructor; [|done|].
  - destruct C as [B L U N]. assert (Hh : ∀ s, holds (mkPullState (mkPullLibrary (mPullers (ps_library st)) None) (ps_threads st) (ps_handlers st ++ [Reset])
      false (ps_statsd st) (ps_instances st) (ps_registered st) (ps_doubtful st)) s → holds st s).
    { intros s [?|[?|(x & Hx & Ex)]]; [done|by right; left|]. pull_simpl.
      apply elem_of_app in Hx as [Hx|Hx]; [right; right; by exists x|]. apply list_elem_of_singleton in Hx as ->. done. }
    constructor; pull_simpl; [intros s [?|?]; apply B; auto| |done|].
    + intros s Hs Hl. apply N in Hn as (s' & Es & Hd). specialize (L s (Hh s Hs) Hl). congruence.
    + split; [done|]. by intros (s & ? & _).
  - intros tag Hd. destruct (A tag Hd) as [A1 A2 A3 A4]. constructor; pull_simpl; [done| |done|].
    + intros s rest cb [Hin|Hin]%elem_of_app; [by apply (A2 s)|]. by apply list_elem_of_singleton in Hin.
    + intros _. right. right. exists Reset. split; [|done]. pull_simpl. set_solver.
Qed.

(** *** Statsd *)

(** With an instance that nobody holds, the atoms stay as they are. *)
Lemma atom_statsd tag st st' :
  atom_ok tag st → ps_library st' = ps_library st → ps_threads st' = ps_threads st → ps_handlers st' = ps_handlers st →
  ps_registered st' = ps_registered st → (ps_notice st = true → ps_notice st' = true) →
  (∀ s, holds st s → ps_statsd st = Some s ↔ ps_statsd st' = Some s) → atom_ok tag st'.
Proof.
  intros A E1 E2 E3 E4 Hn Hl. apply (atom_frame tag st); rewrite ?E1, ?E2, ?E4; try done.
  - intros Hq r Hin Et. rewrite <- E2 in Hin. destruct (Hq r Hin Et) as (s & Es & Hd). exists s. split; [done|]. intros Hs. apply Hd, Hl; [|done].
    right; left. exists r. split; [congruence|done].
  - rewrite E3. intros s rest cb H1 H2. by exists s, rest.
  - intros [?|(h & Hin & Hr)]; [left; auto|]. right. exists h. rewrite E3. split; [done|]. destruct h as [|s|s rest]; cbn in *; try done.
    + apply Hl; [|done]. right; right. by exists (Fetched s).
    + destruct Hr. split; [|done]. apply Hl; [|done]. right; right. by exists (Copied s rest).
Qed.

Lemma pull_ok_dies st service : pull_ok st → ps_statsd st = Some service →
  pull_ok (mkPullState (ps_library st) (ps_threads st) (ps_handlers st)
    (ps_notice st || bool_decide (sStatsd (ps_library st) = Some service)) None (ps_instances st) ∅ (ps_doubtful st)).
Proof.
  intros [C O A] Es. constructor; [by apply (connection_dies st service)|done|]. intros tag Hd. specialize (A tag Hd). pull_simpl.
  case_bool_decide as Hu; [rewrite orb_true_r|rewrite orb_false_r].
  - destruct A as [A1 A2 _ _]. constructor; pull_simpl; [done|done|by left|]. intros _. right. by left.
  - assert (Hr : ps_registered st = ∅) by (apply (co_unknown st C); right; congruence). apply (atom_statsd tag st); try done.
    intros s Hs. pull_simpl. split; [|done]. intros Hl. apply (co_live st C) in Hs; congruence.
Qed.

Lemma pull_ok_starts st : pull_ok st → ps_statsd st = None →
  pull_ok (mkPullState (ps_library st) (ps_threads st) (ps_handlers st) (ps_notice st)
    (Some (ps_instances st + 1)) (ps_instances st + 1) (ps_registered st) (ps_doubtful st)).
Proof.
  intros [C O A] Es. constructor; [by apply (connection_starts st)|done|]. intros tag Hd. specialize (A tag Hd).
  apply (atom_statsd tag st); try done. intros s Hs. pull_simpl. rewrite Es. split; [done|]. intros [= <-].
  pose proof (co_bound st C _ (or_introl Hs)). lia.
Qed.

Lemma pull_ok_step st st' : PullStep st st' → pull_ok st → pull_ok st'.
Proof.
  intros Hs Hok.
  destruct Hs as [tag metadata callback st t l E|tag st t l E|before r after available st calls next l Et Ha E|st h l Hn E
    |before h after available st calls next l Eh Ha E|service st Es|st Es].
  - injection E as <- <-. apply (pull_ok_client st (RegisterThread tag _)); [done|apply lookup_insert_eq|]. intros. by apply lookup_insert_ne.
  - injection E as <- <-. apply (pull_ok_client st (UnregisterThread tag)); [done|apply lookup_delete_eq|]. intros. by apply lookup_delete_ne.
  - by apply (pull_ok_thread st before r after available).
  - injection E as <- <-. by apply pull_ok_told.
  - by apply (pull_ok_handler st before h after available).
  - by apply pull_ok_dies.
  - by apply pull_ok_starts.
Qed.

Lemma pull_ok_init : pull_ok PullState_init.
Proof.
  constructor; [|constructor|].
  - constructor; cbn; try done.
    + intros s [[?|[(r & Hr & _)|(h & Hh & _)]]|?]; try done; [by apply not_elem_of_nil in Hr|by apply not_elem_of_nil in Hh].
    + split; [done|]. by intros (s & ? & _).
  - intros tag _. constructor; cbn; try done; [|by left..]. intros s rest cb Hin. by apply not_elem_of_nil in Hin.
Qed.

Lemma reachable_pull_ok st : rtc PullStep PullState_init st → pull_ok st.
Proof.
  intros Hr. pose proof pull_ok_init as H0. revert H0. induction Hr as [|x y z Hs _ IH]; [done|]. intros Hx. by apply IH, (pull_ok_step x).
Qed.

(** C34: A client sets and clears callbacks, its detached threads and the handlers of the deaths of statsd interleave as the locks allow,
    and statsd dies and comes back at any time, so that calls to it fail and it may not be found.  Once all threads and handlers have ended
    and no death is still to be handled, statsd knows for each atom exactly the callback that is set, except for the atoms for which, since
    they were last set or cleared undisturbed, a thread found no statsd or fetched it before an older thread of the same atom had ended, a
    handler found no statsd, or the atom was changed while a handler was about to register its older copy. *)
Theorem callbacks_registered (st : PullState) (tag : Z) :
  rtc PullStep PullState_init st → ps_threads st = [] → ps_handlers st = [] → ps_notice st = false → tag ∉ ps_doubtful st →
  ps_registered st !! tag = mPullers (ps_library st) !! tag.
Proof.
  intros Hr Ht Hh Hn Hd. destruct (ao_done _ _ (po_atoms st (reachable_pull_ok st Hr) tag Hd)) as [?|[?|(h & Hin & _)]]; [|done|congruence|].
  - intros r Hin. rewrite Ht in Hin. by apply not_elem_of_nil in Hin.
  - rewrite Hh in Hin. by apply not_elem_of_nil in Hin.
Qed.

(** ** Runs on concrete inputs *)

(** A schedule chooses the next step: which thread or handler moves, and whether the service manager finds statsd. *)
Inductive PullAction :=
  | ActSet (tag callback : Z)
  | ActClear (tag : Z)
  | ActThread (n : nat) (found : bool)
  | ActTold
  | ActHandler (n : nat) (found : bool)
  | ActDies
  | ActStarts.

Definition pullAct (st : PullState) (a : PullAction) : option PullState :=
  match a with
  | ActSet tag callback =>
      let '(t, l) := setPullAtomCallback tag None callback (ps_library st) in
      Some (mkPullState l (ps_threads st ++ [mkRunningThread t None]) (ps_handlers st) (ps_notice st)
        (ps_statsd st) (ps_instances st) (ps_registered st) (doubtAfterChange tag st))
  | ActClear tag =>
      let '(t, l) := clearPullAtomCallback tag (ps_library st) in
      Some (mkPullState l (ps_threads st ++ [mkRunningThread t None]) (ps_handlers st) (ps_notice st)
        (ps_statsd st) (ps_instances st) (ps_registered st) (doubtAfterChange tag st))
  | ActThread n found =>
      r ← ps_threads st !! n;
      let '(calls, next, l) := runThread (if found then ps_statsd st else None) r (ps_library st) in
      Some (mkPullState l (take n (ps_threads st) ++ option_list next ++ drop (S n) (ps_threads st)) (ps_handlers st) (ps_notice st)
        (ps_statsd st) (ps_instances st) (foldl (receiveCall (ps_statsd st)) (ps_registered st) calls)
        (doubtOfThread (take n (ps_threads st)) r next ∪ ps_doubtful st))
  | ActTold =>
      if ps_notice st then
        let '(h, l) := binderDied_begin (ps_library st) in
        Some (mkPullState l (ps_threads st) (ps_handlers st ++ [h]) false (ps_statsd st) (ps_instances st) (ps_registered st) (ps_doubtful st))
      else None
  | ActHandler n found =>
      h ← ps_handlers st !! n;
      let '(calls, next, l) := binderDied (if found then ps_statsd st else None) h (ps_library st) in
      Some (mkPullState l (ps_threads st) (take n (ps_handlers st) ++ option_list next ++ drop (S n) (ps_handlers st)) (ps_notice st)
        (ps_statsd st) (ps_instances st) (foldl (receiveCall (ps_statsd st)) (ps_registered st) calls)
        (doubtOfHandler h next (ps_library st) ∪ ps_doubtful st))
  | ActDies =>
      service ← ps_statsd st;
      Some (mkPullState (ps_library st) (ps_threads st) (ps_handlers st)
        (ps_notice st || bool_decide (sStatsd (ps_library st) = Some service)) None (ps_instances st) ∅ (ps_doubtful st))
  | ActStarts =>
      match ps_statsd st with
      | Some _ => None
      | None => Some (mkPullState (ps_library st) (ps_threads st) (ps_handlers st) (ps_notice st)
          (Some (ps_instances st + 1)) (ps_instances st + 1) (ps_registered st) (ps_doubtful st))
      end
  end.

Fixpoint pullRun (st : PullState) (acts : list PullAction) : option PullState :=
  match acts with [] => Some st | a :: acts => st' ← pullAct st a; pullRun st' acts end.

Lemma pullAct_steps st a st' : pullAct st a = Some st' → PullStep st st'.
Proof.
  assert (Hf : ∀ found : bool, (if found then ps_statsd st else None) = None ∨ (if found then ps_statsd st else None) = ps_statsd st)
    by (intros []; auto).
  destruct a as [tag callback|tag|n found| |n found| |]; cbn [pullAct].
  - intros [= <-]. by eapply (step_set tag None callback).
  - intros [= <-]. by eapply (step_clear tag).
  - intros (r & Hr & E)%bind_Some. destruct (runThread _ _ _) as [[calls next] l] eqn:Er. injection E as <-.
    eapply step_thread; [by rewrite take_drop_middle|apply (Hf found)|done].
  - destruct (ps_notice st) eqn:Hn; [|done]. intros [= <-]. by eapply step_told.
  - intros (h & Hh & E)%bind_Some. destruct (binderDied _ _ _) as [[calls next] l] eqn:Er. injection E as <-.
    eapply step_handler; [by rewrite take_drop_middle|apply (Hf found)|done].
  - intros (s & Hs & [= <-])%bind_Some. by eapply (step_dies s).
  - destruct (ps_statsd st) eqn:Hs; [done|]. intros [= <-]. by eapply step_starts.
Qed.

Lemma pullRun_reachable acts st st' : pullRun st acts = Some st' → rtc PullStep st st'.
Proof.
  revert st. induction acts as [|a acts IH]; intros st E; [injection E as <-; apply rtc_refl|].
  apply bind_Some in E as (st1 & E1 & E). eapply rtc_l; [exact (pullAct_steps _ _ _ E1)|by apply IH].
Qed.

(** The run is over: threads and handlers have ended.  The result is what statsd knows and what is set for the atom, and whether the atom
    is in doubt. *)
Definition runResult (tag : Z) (acts : list PullAction) : option (option PullCallback * option PullCallback * bool) :=
  st ← pullRun PullState_init acts;
  match ps_threads st, ps_handlers st, ps_notice st with
  | [], [], false => Some (ps_registered st !! tag, mPullers (ps_library st) !! tag, bool_decide (tag ∈ ps_doubtful st))
  | _, _, _ => None
  end.

Definition exampleCallback : PullCallback := mkPullCallback 5 1000 2000 [].

(** A callback is set before statsd is there, and registered; statsd dies while another is being set, and both are registered again. *)
Definition exampleRun : list PullAction :=
  [ActSet 7 5; ActStarts; ActThread 0 true; ActThread 0 true; ActDies; ActSet 8 6; ActStarts; ActTold; ActHandler 0 true; ActThread 0 true;
   ActHandler 0 true; ActHandler 0 true; ActThread 0 true; ActHandler 0 true; ActHandler 0 true].

Definition exampleEnd : PullState := default PullState_init (pullRun PullState_init exampleRun).

Lemma callbacks_registered_witness :
  runResult 7 exampleRun = Some (Some exampleCallback, Some exampleCallback, false)
  ∧ ps_registered exampleEnd !! 7 = mPullers (ps_library exampleEnd) !! 7.
Proof.
  split; [vm_compute; reflexivity|]. apply (callbacks_registered exampleEnd 7).
  - apply (pullRun_reachable exampleRun). vm_compute. reflexivity.
  - vm_compute. reflexivity.
  - vm_compute. reflexivity.
  - vm_compute. reflexivity.
  - apply (bool_decide_eq_false_1 (7 ∈ ps_doubtful exampleEnd)). vm_compute. reflexivity.
Defined.

(** Nothing orders the threads of one atom: a callback that was set and cleared stays registered when its threads run the other way round. *)
Lemma overtaking_threads :
  runResult 7 [ActStarts; ActSet 7 5; ActClear 7; ActThread 1 true; ActThread 1 true; ActThread 0 true; ActThread 0 true]
  = Some (Some exampleCallback, None, true).
Proof. vm_compute. reflexivity. Qed.

(** A thread that does not find statsd gives up: the callback is not registered when statsd comes, although threads of other atoms find it. *)
Lemma absent_statsd_forgotten :
  runResult 7 [ActSet 7 5; ActThread 0 true; ActStarts; ActSet 8 6; ActThread 0 true; ActThread 0 true] = Some (None, Some exampleCallback, true).
Proof. vm_compute. reflexivity. Qed.

(** So does the handler of a death that does not find the new instance. *)
Lemma absent_statsd_not_told :
  runResult 7 [ActStarts; ActSet 7 5; ActThread 0 true; ActThread 0 true; ActDies; ActTold; ActHandler 0 true; ActStarts]
  = Some (None, Some exampleCallback, true).
Proof. vm_compute. reflexivity. Qed.

(** The handler registers its copy without the lock: a callback that is cleared meanwhile is registered again after it was unregistered. *)
Lemma stale_copy_registered :
  runResult 7 [ActStarts; ActSet 7 5; ActThread 0 true; ActThread 0 true; ActDies; ActTold; ActStarts; ActHandler 0 true; ActHandler 0 true;
    ActClear 7; ActThread 0 true; ActThread 0 true; ActHandler 0 true; ActHandler 0 true]
  = Some (Some exampleCallback, None, true).
Proof. vm_compute. reflexivity. Qed.

(** Setting the callback again, undisturbed, ends the doubt. *)
Lemma set_again_registers :
  runResult 7 [ActSet 7 5; ActThread 0 true; ActStarts; ActSet 7 5; ActThread 0 true; ActThread 0 true]
  = Some (Some exampleCallback, Some exampleCallback, false).
Proof. vm_compute. reflexivity. Qed.
