(* ===== verification/ShellSubscriber.v ===== *)
(** * Live atoms for the shell (shell/ShellSubscriber.{h,cpp})

    A shell client subscribes to atoms and gets them as they are logged, or pulled at an interval, over a pipe.  Only
    the newest subscription counts.

    The [SubscriptionInfo] that the threads share is an object with a number; the output stream of protobuf is a
    parameter.  What is written to a file descriptor is recorded in order: the size, and the data unless it is a
    heartbeat. *)
From S2P Require Import Prelude FieldValue DimensionKey Matchers UidMap.

Definition DEFAULT_PULL_UID : Z := 1000.
Definition kMsBetweenHeartbeats : Z := 1000.
Definition INT_MAX : Z := 2 ^ 31 - 1.

Record PullInfo := mkPullInfo {
  mPullerMatcher : SimpleAtomMatcher; mInterval : Z; mPrevPullElapsedRealtimeMs : Z; mPullPackages : list string; mPullUids : list Z
}.

Record SubscriptionInfo := mkSubscriptionInfo {
  mInputFd : Z; mOutputFd : Z; mPushedMatchers : list SimpleAtomMatcher; mPulledInfo : list PullInfo; mClientAlive : bool
}.

(** The messages of a subscription: a pulled atom has a matcher, an interval and packages. *)
Record ShellSubscription := mkShellSubscription {
  ss_pushed : list SimpleAtomMatcher; ss_pulled : list (SimpleAtomMatcher * Z * list string)
}.

(** [android::util::ProtoOutputStream], as far as it is used. *)
Record ProtoStream (P : Type) := mkProtoStream {
  proto_clear : P → P;
  (** [start], [event.ToProto] and [end] *)
  proto_add : LogEvent → P → P;
  proto_size : P → Z * P;
  proto_data : P → list Z
}.
Arguments proto_clear {P}.
Arguments proto_add {P}.
Arguments proto_size {P}.
Arguments proto_data {P}.

(** What was written: to where, the size, and the data if all of it was written. *)
Record PipeWrite := mkPipeWrite { pw_fd : Z; pw_size : Z; pw_data : option (list Z) }.

Record ShellSubscriber (P : Type) := mkShellSubscriber {
  mSubscriptionInfo : option Z;
  mInfos : gmap Z SubscriptionInfo;
  mToken : Z;
  mLastWriteMs : Z;
  mProto : P;
  mWritten : list PipeWrite
}.
Arguments mkShellSubscriber {P}.
Arguments mSubscriptionInfo {P}.
Arguments mInfos {P}.
Arguments mToken {P}.
Arguments mLastWriteMs {P}.
Arguments mProto {P}.
Arguments mWritten {P}.

(** The clock when a thread reads it, when a write is over, whether the sizes and the data written to a descriptor get through, and the
    events a pull returns. *)
Record ShellEnv := mkShellEnv {
  se_nowMillis : Z; se_writtenMillis : Z; se_sizeOk : Z → bool; se_flushOk : Z → bool; se_pull : Z → list Z → list LogEvent
}.

Section shell.
Context {P : Type} (stream : ProtoStream P) (uidMap : UidMap).
Implicit Type s : ShellSubscriber P.

Definition set_info (x : option Z) s : ShellSubscriber P :=
  mkShellSubscriber x (mInfos s) (mToken s) (mLastWriteMs s) (mProto s) (mWritten s).
Definition set_infos (x : gmap Z SubscriptionInfo) s : ShellSubscriber P :=
  mkShellSubscriber (mSubscriptionInfo s) x (mToken s) (mLastWriteMs s) (mProto s) (mWritten s).
Definition set_token (x : Z) s : ShellSubscriber P :=
  mkShellSubscriber (mSubscriptionInfo s) (mInfos s) x (mLastWriteMs s) (mProto s) (mWritten s).
Definition set_proto (x : P) s : ShellSubscriber P :=
  mkShellSubscriber (mSubscriptionInfo s) (mInfos s) (mToken s) (mLastWriteMs s) x (mWritten s).
Definition wrote (w : PipeWrite) s : ShellSubscriber P :=
  mkShellSubscriber (mSubscriptionInfo s) (mInfos s) (mToken s) (mLastWriteMs s) (mProto s) (mWritten s ++ [w]).
Definition set_lastWrite (x : Z) s : ShellSubscriber P :=
  mkShellSubscriber (mSubscriptionInfo s) (mInfos s) (mToken s) x (mProto s) (mWritten s).

Definition clientDied (p : Z) s : ShellSubscriber P :=
  set_infos (alter (λ i, mkSubscriptionInfo (mInputFd i) (mOutputFd i) (mPushedMatchers i) (mPulledInfo i) false) p (mInfos s)) s.

(** The subscription [p] is the current one. *)
Definition attemptWriteToPipeLocked (e : ShellEnv) (p : Z) (info : SubscriptionInfo) (dataSize : Z) s : ShellSubscriber P :=
  let fd := mOutputFd info in
  if negb (se_sizeOk e fd) then clientDied p s
  else if (0 <? dataSize) && negb (se_flushOk e fd) then clientDied p (wrote (mkPipeWrite fd dataSize None) s)
  else
    set_lastWrite (se_writtenMillis e)
      (wrote (mkPipeWrite fd dataSize (if 0 <? dataSize then Some (proto_data stream (mProto s)) else None)) s).

Definition sendAtoms (e : ShellEnv) (p : Z) (info : SubscriptionInfo) s : ShellSubscriber P :=
  let '(size, proto) := proto_size stream (mProto s) in
  attemptWriteToPipeLocked e p info size (set_proto proto s).

Definition onLogEvent (e : ShellEnv) (event : LogEvent) s : ShellSubscriber P :=
  match mSubscriptionInfo s with
  | None => s
  | Some p =>
      match mInfos s !! p with
      | None => s
      | Some info =>
          foldl (λ s matcher,
            if matchesSimple uidMap matcher event
            then sendAtoms e p info (set_proto (proto_add stream event (mProto s)) s) else s)
            (set_proto (proto_clear stream (mProto s)) s) (mPushedMatchers info)
      end
  end.

Definition writePulledAtomsLocked (e : ShellEnv) (p : Z) (info : SubscriptionInfo) (data : list LogEvent) (matcher : SimpleAtomMatcher) s
    : ShellSubscriber P :=
  let matched := List.filter (matchesSimple uidMap matcher) data in
  let s := set_proto (foldl (λ proto event, proto_add stream event proto) (proto_clear stream (mProto s)) matched) s in
  match matched with [] => s | _ => sendAtoms e p info s end.

Definition getUidsForPullAtom (pullInfo : PullInfo) : list Z :=
  mPullUids pullInfo ++ concat ((λ pkg, getAppUid pkg uidMap) <$> mPullPackages pullInfo) ++ [DEFAULT_PULL_UID].

Definition pulledAt (now : Z) (pullInfo : PullInfo) : PullInfo :=
  mkPullInfo (mPullerMatcher pullInfo) (mInterval pullInfo) now (mPullPackages pullInfo) (mPullUids pullInfo).

Definition pullDue (now : Z) (pullInfo : PullInfo) : bool := mPrevPullElapsedRealtimeMs pullInfo + mInterval pullInfo <? now.

(** The loop over the pulled atoms; the members of the infos that were pulled are updated. *)
Fixpoint pullAtoms (e : ShellEnv) (p : Z) (info : SubscriptionInfo) (pulls : list PullInfo) s : list PullInfo * ShellSubscriber P :=
  match pulls with
  | [] => ([], s)
  | pullInfo :: pulls =>
      let '(pullInfo, s) :=
        if pullDue (se_nowMillis e) pullInfo then
          let data := se_pull e (default 0 (sam_atom_id (mPullerMatcher pullInfo))) (getUidsForPullAtom pullInfo) in
          (pulledAt (se_nowMillis e) pullInfo, writePulledAtomsLocked e p info data (mPullerMatcher pullInfo) s)
        else (pullInfo, s) in
      let '(pulls, s) := pullAtoms e p info pulls s in
      (pullInfo :: pulls, s)
  end.

Definition withPulls (pulls : list PullInfo) (i : SubscriptionInfo) : SubscriptionInfo :=
  mkSubscriptionInfo (mInputFd i) (mOutputFd i) (mPushedMatchers i) pulls (mClientAlive i).

Definition minSleep (a b : Z) : Z := if a <? b then a else b.

(** How long the helper thread sleeps. *)
Definition sleepTime (now lastWriteMs : Z) (pulls : list PullInfo) : Z :=
  let sleepTimeMs := foldl (λ sleep pullInfo,
    minSleep (mPrevPullElapsedRealtimeMs pullInfo + mInterval pullInfo - now) sleep) INT_MAX pulls in
  minSleep (lastWriteMs + kMsBetweenHeartbeats - now) sleepTimeMs.

(** One iteration of [pullAndSendHeartbeats]: the time to sleep, or [None] when the thread ends. *)
Definition pullAndSendHeartbeats (e : ShellEnv) (myToken : Z) s : option Z * ShellSubscriber P :=
  match mSubscriptionInfo s with
  | Some p =>
      match mInfos s !! p with
      | Some info =>
          if negb (mToken s =? myToken) then (None, s)
          else
            let now := se_nowMillis e in
            let '(pulls, s) := pullAtoms e p info (mPulledInfo info) s in
            let s := set_infos (alter (withPulls pulls) p (mInfos s)) s in
            let s := if kMsBetweenHeartbeats <? now - mLastWriteMs s then attemptWriteToPipeLocked e p info 0 s else s in
            (Some (sleepTime now (mLastWriteMs s) pulls), s)
      | None => (None, s)
      end
  | None => (None, s)
  end.

(** ** Subscriptions *)

Definition claimToken s : Z * ShellSubscriber P := (mToken s + 1, set_token (mToken s + 1) s).

Definition readPulled (pulled : SimpleAtomMatcher * Z * list string) : PullInfo :=
  let '(matcher, freq_millis, pkgs) := pulled in
  let '(packages, uids) := foldl (λ '(packages, uids) pkg,
    match sAidToUidMapping (U := UidMap) pkg with
    | Some uid => (packages, uids ++ [uid])
    | None => (packages ++ [pkg], uids)
    end) ([], []) pkgs in
  mkPullInfo matcher freq_millis 0 packages uids.

(** [readConfig]: what the client sent, if it could be read and parsed. *)
Definition readConfig (config : option ShellSubscription) (inFd outFd : Z) : option SubscriptionInfo :=
  c ← config;
  Some (mkSubscriptionInfo inFd outFd (ss_pushed c) (readPulled <$> ss_pulled c) true).

(** The condition that ends the wait of a subscription. *)
Definition shouldEnd (myToken p : Z) s : bool :=
  negb (mToken s =? myToken) || negb (from_option mClientAlive false (mInfos s !! p)).

(** The part of [startNewSubscription] after the configuration was read, up to the wait. *)
Definition installSubscription (p : Z) (info : SubscriptionInfo) s : ShellSubscriber P :=
  set_info (Some p) (set_infos (<[p := info]> (mInfos s)) s).

(** The part after the wait. *)
Definition endSubscription (p : Z) s : ShellSubscriber P :=
  if bool_decide (mSubscriptionInfo s = Some p) then set_info None s else s.
End shell.

(** * Facts on shell subscriptions

    The helper thread keeps the client supplied; a subscription that is in use always has a thread that will end it; and
    the newest subscription is the one in use if subscriptions do not start at the same time. *)

Section facts.
Context {P : Type} (stream : ProtoStream P) (uidMap : UidMap).
Notation Shell := (ShellSubscriber P).
Implicit Type s : Shell.

(** ** What sending leaves alone *)

Definition alive (p : Z) s : bool := from_option mClientAlive false (mInfos s !! p).

Record framed s s' : Prop := {
  fr_info : mSubscriptionInfo s' = mSubscriptionInfo s;
  fr_token : mToken s' = mToken s;
  fr_dom p : is_Some (mInfos s' !! p) ↔ is_Some (mInfos s !! p);
  fr_alive p : alive p s' = true → alive p s = true
}.

Lemma framed_refl s : framed s s.
Proof using. by constructor. Qed.

Lemma framed_trans s1 s2 s3 : framed s1 s2 → framed s2 s3 → framed s1 s3.
Proof using.
  intros [A1 A2 A3 A4] [B1 B2 B3 B4]. constructor; [congruence|congruence| |auto]. intros p. by rewrite B3.
Qed.

Lemma framed_alter p f s : (∀ i, mClientAlive (f i) = true → mClientAlive i = true) → framed s (set_infos (alter f p (mInfos s)) s).
Proof using.
  intros Hf. constructor; cbn; [done|done| |].
  - intros p'. destruct (decide (p' = p)) as [->|Hne]; [rewrite lookup_alter_eq; by rewrite fmap_is_Some|by rewrite lookup_alter_ne].
  - intros p'. unfold alive. cbn. destruct (decide (p' = p)) as [->|Hne]; [|by rewrite lookup_alter_ne].
    rewrite lookup_alter_eq. destruct (mInfos s !! p); [apply Hf|done].
Qed.

Lemma framed_attempt e p info size s : framed s (attemptWriteToPipeLocked stream e p info size s).
Proof using.
  unfold attemptWriteToPipeLocked. destruct (negb _); [by apply framed_alter|]. destruct (_ && _); [|by constructor].
  apply (framed_trans _ (wrote (mkPipeWrite (mOutputFd info) size None) s)); [by constructor|]. by apply framed_alter.
Qed.

Lemma framed_send e p info s : framed s (sendAtoms stream e p info s).
Proof using.
  unfold sendAtoms. destruct (proto_size stream (mProto s)) as [size proto].
  apply (framed_trans _ (set_proto proto s)); [by constructor|apply framed_attempt].
Qed.

Lemma framed_event e event s : framed s (onLogEvent stream uidMap e event s).
Proof using.
  unfold onLogEvent. destruct (mSubscriptionInfo s) as [p|]; [|apply framed_refl]. destruct (mInfos s !! p) as [info|]; [|apply framed_refl].
  apply (framed_trans _ (set_proto (proto_clear stream (mProto s)) s)); [by constructor|].
  generalize (set_proto (proto_clear stream (mProto s)) s). induction (mPushedMatchers info) as [|m ms IH]; intros s0; [apply framed_refl|].
  cbn [foldl]. eapply framed_trans; [|apply IH]. destruct (matchesSimple uidMap m event); [|apply framed_refl].
  apply (framed_trans _ (set_proto (proto_add stream event (mProto s0)) s0)); [by constructor|apply framed_send].
Qed.

Lemma framed_pulled e p info data m s : framed s (writePulledAtomsLocked stream uidMap e p info data m s).
Proof using.
  unfold writePulledAtomsLocked. cbv zeta. set (l := List.filter _ data). set (s1 := set_proto _ s).
  apply (framed_trans _ s1); [by constructor|]. destruct l; [apply framed_refl|apply framed_send].
Qed.

Lemma framed_pulls e p info pulls : ∀ s, framed s (pullAtoms stream uidMap e p info pulls s).2.
Proof using.
  induction pulls as [|i pulls IH]; intros s; [apply framed_refl|]. cbn [pullAtoms]. destruct (pullDue _ i).
  - set (s1 := writePulledAtomsLocked _ _ _ _ _ _ _ s). specialize (IH s1). destruct (pullAtoms _ _ _ _ _ pulls s1). cbn in *.
    eapply framed_trans; [|exact IH]. apply framed_pulled.
  - specialize (IH s). by destruct (pullAtoms _ _ _ _ _ pulls s).
Qed.

Lemma framed_helper e token s : framed s (pullAndSendHeartbeats stream uidMap e token s).2.
Proof using.
  unfold pullAndSendHeartbeats. destruct (mSubscriptionInfo s) as [p|]; [|apply framed_refl]. destruct (mInfos s !! p) as [info|]; [|apply framed_refl].
  destruct (negb _); [apply framed_refl|]. cbv zeta. pose proof (framed_pulls e p info (mPulledInfo info) s) as H.
  destruct (pullAtoms _ _ _ _ _ _ s) as [pulls s1]. cbn [snd] in H. set (s2 := set_infos _ s1).
  assert (H2 : framed s s2) by (eapply framed_trans; [exact H|by apply framed_alter]). cbn [snd].
  destruct (_ <? _); [|done]. eapply framed_trans; [exact H2|apply framed_attempt].
Qed.

(** ** Subscriptions that start and end *)

(** A subscription whose configuration is being read, and one that waits for its end. *)
Inductive SubThread := Reading (token : Z) | Waiting (token p : Z).

Definition tokenOf (t : SubThread) : Z := match t with Reading token | Waiting token _ => token end.

(** With [alone], a subscription starts only when no other one is being read. *)
Inductive ShellStep (alone : bool) : list SubThread * Shell → list SubThread * Shell → Prop :=
  | sub_claims threads s token s' :
      (alone = true → ∀ t, Reading t ∉ threads) → claimToken s = (token, s') →
      ShellStep alone (threads, s) (threads ++ [Reading token], s')
  | sub_unreadable before token after s :
      readConfig None 0 0 = None → ShellStep alone (before ++ Reading token :: after, s) (before ++ after, s)
  | sub_installs before token after config inFd outFd info p s :
      readConfig (Some config) inFd outFd = Some info → mInfos s !! p = None →
      shouldEnd token p (installSubscription p info s) = false →
      ShellStep alone (before ++ Reading token :: after, s) (before ++ Waiting token p :: after, installSubscription p info s)
  (** The wait is over at once, without the lock being released. *)
  | sub_installs_late before token after config inFd outFd info p s :
      readConfig (Some config) inFd outFd = Some info → mInfos s !! p = None →
      shouldEnd token p (installSubscription p info s) = true →
      ShellStep alone (before ++ Reading token :: after, s) (before ++ after, endSubscription p (installSubscription p info s))
  (** The wait is over, by its condition or by its timeout. *)
  | sub_ends before token p after s :
      ShellStep alone (before ++ Waiting token p :: after, s) (before ++ after, endSubscription p s)
  | sub_event threads s e event : ShellStep alone (threads, s) (threads, onLogEvent stream uidMap e event s)
  | sub_helper threads s e token r s' :
      pullAndSendHeartbeats stream uidMap e token s = (r, s') → ShellStep alone (threads, s) (threads, s').

(** *** Invariant *)

Record shell_ok (alone : bool) (threads : list SubThread) s : Prop := {
  so_owner p : mSubscriptionInfo s = Some p → ∃ token, Waiting token p ∈ threads;
  so_known token p : Waiting token p ∈ threads → is_Some (mInfos s !! p);
  so_tokens : NoDup (tokenOf <$> threads);
  so_le t : t ∈ threads → tokenOf t <= mToken s;
  so_pointers token token' p : Waiting token p ∈ threads → Waiting token' p ∈ threads → token = token';
  so_reading token : alone = true → Reading token ∈ threads → token = mToken s;
  so_newest p : alone = true → Waiting (mToken s) p ∈ threads → alive p s = true → mSubscriptionInfo s = Some p
}.

Lemma shell_ok_perm alone threads threads' s : threads ≡ₚ threads' → shell_ok alone threads s → shell_ok alone threads' s.
Proof using.
  intros Hp [O1 O2 O3 O4 O5 O6 O7]. constructor; intros *; rewrite <- ?Hp; eauto.
  intros H. destruct (O1 p H) as [token Ht]. exists token. by rewrite <- Hp.
Qed.

Lemma shell_ok_framed alone threads s s' : framed s s' → shell_ok alone threads s → shell_ok alone threads s'.
Proof using.
  intros [F1 F2 F3 F4] [O1 O2 O3 O4 O5 O6 O7]. constructor; intros *; rewrite ?F1, ?F2, ?F3; eauto.
Qed.

Lemma shell_ok_claim alone threads s :
  (alone = true → ∀ t, Reading t ∉ threads) → shell_ok alone threads s → shell_ok alone (Reading (mToken s + 1) :: threads) (set_token (mToken s + 1) s).
Proof using.
  intros Ha [O1 O2 O3 O4 O5 O6 O7]. constructor; cbn [mSubscriptionInfo mInfos mToken set_token].
  - intros p H. destruct (O1 p H) as [token Ht]. exists token. by right.
  - intros token p [?|?]%elem_of_cons; [done|eauto].
  - cbn [fmap list_fmap tokenOf]. apply NoDup_cons. split; [|done]. intros (t & Ht & Hin)%list_elem_of_fmap. specialize (O4 t Hin). lia.
  - intros t [->|Hin]%elem_of_cons; [cbn; lia|]. specialize (O4 t Hin). lia.
  - intros token token' p [?|?]%elem_of_cons [?|?]%elem_of_cons; try done. eauto.
  - intros token Ht [[= ->]|Hin]%elem_of_cons; [done|]. by apply Ha in Hin.
  - intros p _ [?|Hin]%elem_of_cons; [done|]. apply O4 in Hin. cbn in Hin. lia.
Qed.

(** A thread that ends takes its subscription with it. *)
Lemma shell_ok_end alone token p threads s : shell_ok alone (Waiting token p :: threads) s → shell_ok alone threads (endSubscription p s).
Proof using.
  intros [O1 O2 O3 O4 O5 O6 O7]. cbn [fmap list_fmap tokenOf] in O3. apply NoDup_cons in O3 as [Hn O3].
  assert (Hne : ∀ token' p', Waiting token' p' ∈ threads → p' ≠ p).
  { intros token' p' Hin ->. apply Hn, list_elem_of_fmap. exists (Waiting token' p). split; [|done]. cbn.
    apply (O5 token token' p); [by left|by right]. }
  unfold endSubscription. case_bool_decide as Hi.
  - constructor; cbn [mSubscriptionInfo mInfos mToken set_info]; try done.
    + intros token' p' Hin. apply (O2 token'). by right.
    + intros t Hin. apply O4. by right.
    + intros t t' p' H1 H2. apply (O5 t t' p'); by right.
    + intros t Ht Hin. apply O6; [done|by right].
    + intros p' Ha Hin Hal. exfalso. apply (Hne _ _ Hin). assert (mSubscriptionInfo s = Some p') by (apply O7; [done|by right|done]). congruence.
  - constructor; try done.
    + intros p' Hp. destruct (O1 p' Hp) as [token' [[= -> ->]|Hin]%elem_of_cons]; [done|]. by exists token'.
    + intros token' p' Hin. apply (O2 token'). by right.
    + intros t Hin. apply O4. by right.
    + intros t t' p' H1 H2. apply (O5 t t' p'); by right.
    + intros t Ht Hin. apply O6; [done|by right].
    + intros p' Ha Hin Hal. apply O7; [done|by right|done].
Qed.

Lemma shell_ok_drop alone token threads s : shell_ok alone (Reading token :: threads) s → shell_ok alone threads s.
Proof using.
  intros [O1 O2 O3 O4 O5 O6 O7]. cbn [fmap list_fmap tokenOf] in O3. apply NoDup_cons in O3 as [Hn O3]. constructor; try done.
  - intros p H. destruct (O1 p H) as [token' [?|Hin]%elem_of_cons]; [done|]. by exists token'.
  - intros token' p' Hin. apply (O2 token'). by right.
  - intros t Hin. apply O4. by right.
  - intros t t' p' H1 H2. apply (O5 t t' p'); by right.
  - intros t Ht Hin. apply O6; [done|by right].
  - intros p' Ha Hin Hal. apply O7; [done|by right|done].
Qed.

(** A subscription is installed, and its thread waits. *)
Lemma shell_ok_install alone token p info threads s :
  mInfos s !! p = None → mClientAlive info = true → (alone = true → token = mToken s) →
  shell_ok alone (Reading token :: threads) s → shell_ok alone (Waiting token p :: threads) (installSubscription p info s).
Proof using.
  intros Hp Hinfo Htok [O1 O2 O3 O4 O5 O6 O7]. cbn [fmap list_fmap tokenOf] in O3. apply NoDup_cons in O3 as [Hn O3].
  assert (Hne : ∀ token' p', Waiting token' p' ∈ threads → p' ≠ p).
  { intros token' p' Hin ->. destruct (O2 token' p) as [? ?]; [by right|]. congruence. }
  constructor; cbn [mSubscriptionInfo mInfos mToken installSubscription set_info set_infos].
  - intros p' [= <-]. exists token. by left.
  - intros token' p' [[= -> ->]|Hin]%elem_of_cons; [rewrite lookup_insert_eq; by eexists|].
    rewrite lookup_insert_ne by (symmetry; eauto). apply (O2 token'). by right.
  - apply NoDup_cons. by split.
  - intros t [->|Hin]%elem_of_cons; [apply (O4 (Reading token)); by left|apply O4; by right].
  - intros t t' p' [[= -> ->]|H1]%elem_of_cons [[= ->]|H2]%elem_of_cons; try done.
    + by apply Hne in H2.
    + subst. by apply Hne in H1.
    + apply (O5 t t' p'); by right.
  - intros t Ha [?|Hin]%elem_of_cons; [done|]. apply O6; [done|by right].
  - intros p' Ha [[= _ ->]|Hin]%elem_of_cons _; [done|]. exfalso. apply Hn. rewrite (Htok Ha).
    apply list_elem_of_fmap. by exists (Waiting (mToken s) p').
Qed.

Lemma readConfig_alive config inFd outFd info : readConfig config inFd outFd = Some info → mClientAlive info = true.
Proof using. unfold readConfig. destruct config; [|done]. by intros [= <-]. Qed.

Lemma shell_ok_step alone ts ts' : ShellStep alone ts ts' → shell_ok alone ts.1 ts.2 → shell_ok alone ts'.1 ts'.2.
Proof using.
  intros Hs Hok. destruct Hs as [threads s token s' Ha E|before token after s _|before token after config inFd outFd info p s E Hp He
    |before token after config inFd outFd info p s E Hp He|before token p after s|threads s e event|threads s e token r s' E]; cbn [fst snd] in *.
  - injection E as <- <-. eapply shell_ok_perm; [apply Permutation_cons_append|]. by apply shell_ok_claim.
  - apply (shell_ok_drop _ token). eapply shell_ok_perm; [|exact Hok]. symmetry. apply Permutation_middle.
  - apply (shell_ok_perm _ (Waiting token p :: before ++ after)); [apply Permutation_middle|].
    apply (shell_ok_perm _ _ (Reading token :: before ++ after)) in Hok; [|symmetry; apply Permutation_middle].
    apply shell_ok_install; [done|by eapply readConfig_alive| |done]. intros Ha. eapply so_reading; [done..|by left].
  - apply (shell_ok_end _ token). apply (shell_ok_perm _ _ (Reading token :: before ++ after)) in Hok; [|symmetry; apply Permutation_middle].
    apply shell_ok_install; [done|by eapply readConfig_alive| |done]. intros Ha. eapply so_reading; [done..|by left].
  - apply (shell_ok_end _ token). eapply shell_ok_perm; [|exact Hok]. symmetry. apply Permutation_middle.
  - eapply shell_ok_framed; [apply framed_event|done].
  - eapply shell_ok_framed; [|done]. pose proof (framed_helper e token s) as H. by rewrite E in H.
Qed.

Definition Shell_init (proto : P) : Shell := mkShellSubscriber None ∅ 0 0 proto [].

Lemma shell_ok_init alone proto : shell_ok alone [] (Shell_init proto).
Proof using.
  constructor; [done|intros * H|apply NoDup_nil_2|intros * H|intros * H|intros * _ H|intros * _ H]; by apply elem_of_nil in H.
Qed.

Lemma shell_ok_reachable alone proto ts : rtc (ShellStep alone) ([], Shell_init proto) ts → shell_ok alone ts.1 ts.2.
Proof using.
  intros H. pose proof (shell_ok_init alone proto) as H0. change (shell_ok alone ([] : list SubThread, Shell_init proto).1 ([] : list SubThread, Shell_init proto).2) in H0.
  revert H0. induction H as [|x y z Hs _ IH]; [done|]. intros Hx. by apply IH, (shell_ok_step alone x).
Qed.

(** ** The helper thread *)

Section helper.
Context (e : ShellEnv) (Hsize : ∀ fd, se_sizeOk e fd = true) (Hflush : ∀ fd, se_flushOk e fd = true).

(** When the client reads, a write only moves the time of the last one. *)
Definition kept s s' : Prop :=
  mInfos s' = mInfos s ∧ (mLastWriteMs s' = mLastWriteMs s ∨ mLastWriteMs s' = se_writtenMillis e).

Lemma kept_trans s1 s2 s3 : kept s1 s2 → kept s2 s3 → kept s1 s3.
Proof using. intros [A1 A2] [B1 B2]. split; [congruence|]. destruct B2 as [->|]; [done|by right]. Qed.

Lemma attempt_kept p info size s :
  kept s (attemptWriteToPipeLocked stream e p info size s) ∧
  mLastWriteMs (attemptWriteToPipeLocked stream e p info size s) = se_writtenMillis e.
Proof using Hsize Hflush.
  unfold attemptWriteToPipeLocked. rewrite Hsize, Hflush. cbn [negb]. rewrite andb_false_r. split; [|done]. split; [done|by right].
Qed.

Lemma send_kept p info s : kept s (sendAtoms stream e p info s).
Proof using Hsize Hflush.
  unfold sendAtoms. destruct (proto_size stream (mProto s)) as [size proto]. apply (kept_trans _ (set_proto proto s)); [split; [done|by left]|].
  apply attempt_kept.
Qed.

Definition afterPull (now : Z) (i : PullInfo) : PullInfo := if pullDue now i then pulledAt now i else i.

Lemma pullAtoms_kept p info pulls : ∀ s,
  let '(pulls', s') := pullAtoms stream uidMap e p info pulls s in
  pulls' = afterPull (se_nowMillis e) <$> pulls ∧ kept s s'.
Proof using Hsize Hflush.
  induction pulls as [|i pulls IH]; intros s; [split; [done|split; [done|by left]]|]. cbn [pullAtoms fmap list_fmap]. unfold afterPull at 1.
  destruct (pullDue _ i).
  - set (s1 := writePulledAtomsLocked _ _ _ _ _ _ _ s). specialize (IH s1). destruct (pullAtoms _ _ _ _ _ pulls s1) as [pulls' s'].
    destruct IH as [-> Hk]. split; [done|]. eapply kept_trans; [|exact Hk]. unfold s1, writePulledAtomsLocked. cbv zeta.
    set (l := List.filter _ _). set (s0 := set_proto _ s). apply (kept_trans _ s0); [split; [done|by left]|].
    destruct l; [split; [done|by left]|apply send_kept].
  - specialize (IH s). destruct (pullAtoms _ _ _ _ _ pulls s) as [pulls' s']. destruct IH as [-> Hk]. by split.
Qed.

Lemma minSleep_min a b : minSleep a b = Z.min a b.
Proof using. unfold minSleep. destruct (Z.ltb_spec a b); lia. Qed.

Lemma sleepTime_spec now last pulls :
  sleepTime now last pulls <= last + kMsBetweenHeartbeats - now ∧
  Forall (λ i, sleepTime now last pulls <= mPrevPullElapsedRealtimeMs i + mInterval i - now) pulls ∧
  (now <= last + kMsBetweenHeartbeats → Forall (λ i, now <= mPrevPullElapsedRealtimeMs i + mInterval i) pulls → 0 <= sleepTime now last pulls).
Proof using.
  unfold sleepTime. set (f := λ sleep pullInfo, _). assert (H : ∀ l m, foldl f m l <= m ∧
    Forall (λ i, foldl f m l <= mPrevPullElapsedRealtimeMs i + mInterval i - now) l ∧
    (0 <= m → Forall (λ i, now <= mPrevPullElapsedRealtimeMs i + mInterval i) l → 0 <= foldl f m l)).
  { induction l as [|i l IH]; intros m; cbn [foldl]; [split; [lia|]; split; [apply Forall_nil_2|done]|].
    destruct (IH (f m i)) as (I1 & I2 & I3). assert (Hf : f m i = Z.min (mPrevPullElapsedRealtimeMs i + mInterval i - now) m) by apply minSleep_min.
    split; [lia|]. split; [constructor; [lia|done]|]. intros Hm [Hi Hl]%Forall_cons. apply I3; [lia|done]. }
  destruct (H pulls INT_MAX) as (H1 & H2 & H3). rewrite minSleep_min. split; [lia|]. split.
  - eapply Forall_impl; [exact H2|]. cbn. lia.
  - intros Hl Hp. apply Z.min_glb; [lia|]. apply H3; [unfold INT_MAX; lia|done].
Qed.
End helper.
End facts.

(** C32: Whatever the order in which subscriptions start, read their configuration, end and time out, and events and helper threads come in
    between: the subscription in use always belongs to a thread that waits, and is gone when that thread ends.  If no subscription starts
    while another is being read, the newest one, as long as its client is alive, is the one in use. *)
Theorem subscription_in_use {P} (stream : ProtoStream P) (uidMap : UidMap) (alone : bool) (proto : P) threads s p :
  rtc (ShellStep stream uidMap alone) ([], Shell_init proto) (threads, s) →
  (mSubscriptionInfo s = Some p → ∃ token, Waiting token p ∈ threads ∧ mSubscriptionInfo (endSubscription p s) = None) ∧
  (alone = true → Waiting (mToken s) p ∈ threads → alive p s = true → mSubscriptionInfo s = Some p).
Proof.
  intros Hr. apply shell_ok_reachable in Hr as Hok. cbn [fst snd] in Hok. split; [|intros; by eapply so_newest].
  intros Hp. destruct (so_owner _ _ _ Hok p Hp) as [token Hin]. exists token. split; [done|].
  unfold endSubscription. by rewrite bool_decide_eq_true_2.
Qed.

(** A helper thread whose client reads keeps its pace: it pulls exactly the atoms whose interval has passed, a write is never more than a
    second ago when it goes to sleep, it wakes up in time for the next pull and the next heartbeat, and the time it sleeps is not negative
    when no interval is. *)
Theorem helper_keeps_pace {P} (stream : ProtoStream P) (uidMap : UidMap) e (s : ShellSubscriber P) p info :
  (∀ fd, se_sizeOk e fd = true) → (∀ fd, se_flushOk e fd = true) → se_nowMillis e <= se_writtenMillis e →
  mSubscriptionInfo s = Some p → mInfos s !! p = Some info →
  ∃ sleep s', pullAndSendHeartbeats stream uidMap e (mToken s) s = (Some sleep, s') ∧
    mInfos s' !! p = Some (withPulls (afterPull (se_nowMillis e) <$> mPulledInfo info) info) ∧
    se_nowMillis e - mLastWriteMs s' <= kMsBetweenHeartbeats ∧
    sleep <= mLastWriteMs s' + kMsBetweenHeartbeats - se_nowMillis e ∧
    Forall (λ i, sleep <= mPrevPullElapsedRealtimeMs i + mInterval i - se_nowMillis e) (afterPull (se_nowMillis e) <$> mPulledInfo info) ∧
    (Forall (λ i, 0 <= mInterval i) (mPulledInfo info) → 0 <= sleep).
Proof.
  intros Hsize Hflush Hnow Hp Hi. unfold pullAndSendHeartbeats. rewrite Hp, Hi, Z.eqb_refl. cbn [negb]. cbv zeta.
  pose proof (pullAtoms_kept stream uidMap e Hsize Hflush p info (mPulledInfo info) s) as Hk.
  destruct (pullAtoms stream uidMap e p info (mPulledInfo info) s) as [pulls s1]. destruct Hk as [-> [K1 K2]].
  set (pulls := afterPull (se_nowMillis e) <$> mPulledInfo info). set (s2 := set_infos (alter (withPulls pulls) p (mInfos s1)) s1).
  set (s3 := if _ <? _ then _ else _). eexists _, s3. split; [reflexivity|].
  assert (H3 : mInfos s3 = mInfos s2 ∧ se_nowMillis e - mLastWriteMs s3 <= kMsBetweenHeartbeats).
  { unfold s3. destruct (Z.ltb_spec kMsBetweenHeartbeats (se_nowMillis e - mLastWriteMs s2)); [|by split].
    destruct (attempt_kept stream e Hsize Hflush p info 0 s2) as [[A1 _] A2]. split; [done|]. rewrite A2. unfold kMsBetweenHeartbeats. lia. }
  destruct H3 as [I3 L3]. destruct (sleepTime_spec (se_nowMillis e) (mLastWriteMs s3) pulls) as (S1 & S2 & S3).
  split; [rewrite I3; cbn; by rewrite lookup_alter_eq, K1, Hi|]. split; [done|]. split; [done|]. split; [done|].
  intros Hint. apply S3; [lia|]. unfold pulls. clear -Hint. induction Hint as [|i l Hi Hint IH]; [apply Forall_nil_2|]. rewrite fmap_cons.
  constructor; [|done]. unfold afterPull, pullDue. destruct (Z.ltb_spec (mPrevPullElapsedRealtimeMs i + mInterval i) (se_nowMillis e)); cbn; lia.
Qed.

(** ** Examples *)

Definition exampleStream : ProtoStream (list LogEvent) :=
  mkProtoStream _ (λ _, []) (λ event l, l ++ [event]) (λ l, (Z.of_nat (length l), l)) (λ l, GetTagId <$> l).
Definition exampleSubscription : ShellSubscription := mkShellSubscription [mkSimpleAtomMatcher (Some 10) []] [(mkSimpleAtomMatcher (Some 20) [], 500, [])].
Definition exampleInfo (fd : Z) : SubscriptionInfo :=
  mkSubscriptionInfo fd fd [mkSimpleAtomMatcher (Some 10) []] [mkPullInfo (mkSimpleAtomMatcher (Some 20) []) 500 0 [] []] true.

Definition exampleShell (p : Z) : ShellSubscriber (list LogEvent) := mkShellSubscriber (Some p) {[p := exampleInfo 1]} 1 0 [] [].

Lemma exampleShell_reached alone : rtc (ShellStep exampleStream UidMap_new alone) ([], Shell_init []) ([Waiting 1 5], exampleShell 5).
Proof.
  eapply rtc_l; [apply (sub_claims _ _ alone [] (Shell_init []) 1); [intros _ t H; by apply elem_of_nil in H|reflexivity]|].
  eapply rtc_l; [eapply (sub_installs _ _ alone [] 1 [] exampleSubscription 1 1 (exampleInfo 1) 5); reflexivity|]. apply rtc_refl.
Defined.

Lemma subscription_in_use_witness :
  mSubscriptionInfo (exampleShell 5) = Some 5 ∧ ∃ token, Waiting token 5 ∈ [Waiting 1 5].
Proof.
  destruct (subscription_in_use exampleStream UidMap_new true [] [Waiting 1 5] (exampleShell 5) 5 (exampleShell_reached true)) as [H1 H2].
  split; [apply H2; [reflexivity|left|reflexivity]|]. destruct (H1 eq_refl) as (token & H & _). by exists token.
Defined.

Lemma helper_keeps_pace_witness :
  let e := mkShellEnv 2000 2001 (λ _, true) (λ _, true) (λ _ _, [mkLogEvent 20 0 0 [] (-1) (-1) false]) in
  ∃ sleep s', pullAndSendHeartbeats exampleStream UidMap_new e 1 (exampleShell 5) = (Some sleep, s') ∧ 0 <= sleep ∧ sleep <= 500 ∧
    mWritten s' = [mkPipeWrite 1 1 (Some [20])].
Proof.
  intros e. destruct (helper_keeps_pace exampleStream UidMap_new e (exampleShell 5) 5 (exampleInfo 1))
    as (sleep & s' & E & _ & _ & _ & Hs & H0); [done|done|cbn; lia|reflexivity|reflexivity|].
  exists sleep, s'. split; [exact E|]. split; [apply H0; repeat constructor; cbn; lia|].
  change (mToken (exampleShell 5)) with 1 in E. split.
  - apply Forall_cons in Hs as [Hs _]. exact Hs.
  - replace s' with (pullAndSendHeartbeats exampleStream UidMap_new e 1 (exampleShell 5)).2 by (by rewrite E). vm_compute. reflexivity.
Defined.

(** Two subscriptions that start together: the first is installed after the second, ends at once because it is not the newest, and takes the
    second out of use, whose thread waits on. *)
Lemma overtaken_subscription :
  ∃ s, rtc (ShellStep exampleStream UidMap_new false) ([], Shell_init []) ([Waiting 2 6], s) ∧
    mToken s = 2 ∧ alive 6 s = true ∧ mSubscriptionInfo s = None.
Proof.
  eexists. split; [|split; [|split]].
  - eapply rtc_l; [apply (sub_claims _ _ false [] (Shell_init []) 1); [done|reflexivity]|].
    eapply rtc_l; [eapply (sub_claims _ _ false [Reading 1] _ 2); [done|reflexivity]|].
    eapply rtc_l; [eapply (sub_installs _ _ false [Reading 1] 2 [] exampleSubscription 1 1 (exampleInfo 1) 6); reflexivity|].
    eapply rtc_l; [eapply (sub_installs_late _ _ false [] 1 [Waiting 2 6] exampleSubscription 2 2 (exampleInfo 2) 7); reflexivity|]. apply rtc_refl.
  - reflexivity.
  - reflexivity.
  - reflexivity.
Qed.
