(* ===== verification/ConfigManager.v ===== *)
(** * The configurations (config/ConfigManager.{h,cpp})

    Which configurations are set for each uid; listeners are told of changes, and a copy of each
    configuration is kept in the service directory (Storage.v).  Configurations are values of a type
    with a serialization.  Listeners and receivers (pending intents) are objects known by numbers; the
    calls to listeners are recorded in order. *)
From S2P Require Import Prelude UidMap Sorting Storage StorageFacts.

Definition kMaxConfigCountPerUid : nat := 20.

Record ConfigManager := mkConfigManager {
  mConfigs : gmap Z (gset ConfigKey);
  mConfigReceivers : gmap ConfigKey Z;
  mActiveConfigsChangedReceivers : gmap Z Z;
  mListeners : list Z
}.

Definition ConfigManager_new : ConfigManager := mkConfigManager ∅ ∅ ∅ [].

Definition set_configs (c : gmap Z (gset ConfigKey)) (m : ConfigManager) : ConfigManager :=
  mkConfigManager c (mConfigReceivers m) (mActiveConfigsChangedReceivers m) (mListeners m).

(** The keys of a set in its order. *)
Definition configKeysInOrder (s : gset ConfigKey) : list ConfigKey := insertionSort ConfigKey_ltb (elements s).

Definition GetAllConfigKeys (m : ConfigManager) : list ConfigKey :=
  concat (map (λ uid, configKeysInOrder (default ∅ (mConfigs m !! uid)))
            (insertionSort Z.ltb (map fst (map_to_list (mConfigs m))))).

Section configs.
Context {Config : Type} (serialize : Config → list Z) (sortFiles : list FileInfo → list FileInfo).

(** Calls to the listeners. *)
Inductive ConfigCall :=
  | OnConfigUpdated (listener : Z) (timestampNs : Z) (key : ConfigKey) (config : Config)
  | OnConfigRemoved (listener : Z) (key : ConfigKey).

Definition AddListener (listener : Z) (m : ConfigManager) : ConfigManager :=
  mkConfigManager (mConfigs m) (mConfigReceivers m) (mActiveConfigsChangedReceivers m) (mListeners m ++ [listener]).

Definition remove_saved_configs (key : ConfigKey) (k : Disk) : Disk :=
  mkDisk (deleteSuffixedFiles (keySuffix key) (serviceDir k)) (dataDir k) (trainInfoDir k).

Definition update_saved_configs_locked (nowSec : Z) (key : ConfigKey) (buffer : list Z) (k : Disk) : option Disk :=
  writeFile sortFiles true (showZ nowSec ++ "_" ++ showZ key.1 ++ "_" ++ showZ key.2)%string buffer nowSec
    (remove_saved_configs key k).

Definition hasConfig (key : ConfigKey) (m : ConfigManager) : bool :=
  match mConfigs m !! key.1 with Some s => bool_decide (key ∈ s) | None => false end.

(** [UpdateConfig] at the wall clock time [nowSec] and the elapsed time [elapsedNs]. *)
Definition UpdateConfig (nowSec elapsedNs : Z) (key : ConfigKey) (config : Config) (m : ConfigManager) (k : Disk)
    : option (list ConfigCall * ConfigManager * Disk) :=
  let buffer := serialize config in
  let full := match mConfigs m !! key.1 with
              | Some s => negb (bool_decide (key ∈ s)) && (kMaxConfigCountPerUid <=? size s)%nat
              | None => false
              end in
  if full then Some ([], m, k)
  else if hasConfig key m && hasIdenticalConfig key buffer (serviceDir k) then
    k ← update_saved_configs_locked nowSec key buffer k;
    Some ([], m, k)
  else
    k ← update_saved_configs_locked nowSec key buffer k;
    let s := default ∅ (mConfigs m !! key.1) in
    let m := set_configs (<[key.1 := {[key]} ∪ s]> (mConfigs m)) m in
    Some (map (λ l, OnConfigUpdated l elapsedNs key config) (mListeners m), m, k).

Definition RemoveConfig (key : ConfigKey) (m : ConfigManager) (k : Disk)
    : list ConfigCall * ConfigManager * Disk :=
  let '(calls, m) :=
    match mConfigs m !! key.1 with
    | Some s =>
        if bool_decide (key ∈ s)
        then (map (λ l, OnConfigRemoved l key) (mListeners m),
              set_configs (<[key.1 := s ∖ {[key]}]> (mConfigs m)) m)
        else ([], m)
    | None => ([], m)
    end in
  (calls, m, remove_saved_configs key k).

(** Every listener is told of every key. *)
Definition tellRemoved (keys : list ConfigKey) (m : ConfigManager) : list ConfigCall :=
  concat (map (λ key, map (λ l, OnConfigRemoved l key) (mListeners m)) keys).

Definition RemoveConfigs (uid : Z) (m : ConfigManager) (k : Disk) : list ConfigCall * ConfigManager * Disk :=
  match mConfigs m !! uid with
  | None => ([], m, k)
  | Some s =>
      let removed := configKeysInOrder s in
      (tellRemoved removed m, set_configs (delete uid (mConfigs m)) m,
       foldl (λ k key, remove_saved_configs key k) k removed)
  end.

(** The files stay. *)
Definition RemoveAllConfigs (m : ConfigManager) : list ConfigCall * ConfigManager :=
  (tellRemoved (GetAllConfigKeys m) m, set_configs ∅ m).

(** The configurations on disk that parse, a later file replacing an earlier one of its key, in the order of
    their keys. *)
Definition configsToStart (parse : list Z → option Config) (nowSec : Z) (k : Disk) : option (list (ConfigKey * Config) * Disk) :=
  '(files, service) ← readConfigsFromDisk sortFiles nowSec (serviceDir k);
  let configs := foldl (λ (c : gmap ConfigKey Config) '(key, content),
                   match parse content with Some config => <[key := config]> c | None => c end) ∅ files in
  Some (omap (λ key, (λ config, (key, config)) <$> configs !! key) (insertionSort ConfigKey_ltb (map fst (map_to_list configs))),
        mkDisk service (dataDir k) (trainInfoDir k)).

(** [Startup]: they are updated one after the other. *)
Definition Startup (parse : list Z → option Config) (nowSec elapsedNs : Z) (m : ConfigManager) (k : Disk)
    : option (list ConfigCall * ConfigManager * Disk) :=
  '(configs, k) ← configsToStart parse nowSec k;
  foldl (λ r '(key, config), '(calls, m, k) ← r;
                  '(calls', m, k) ← UpdateConfig nowSec elapsedNs key config m k;
                  Some (calls ++ calls', m, k))
    (Some ([], m, k)) configs.
End configs.
Arguments OnConfigUpdated {Config}.
Arguments OnConfigRemoved {Config}.

(** ** Receivers *)

Definition SetConfigReceiver (key : ConfigKey) (pir : Z) (m : ConfigManager) : ConfigManager :=
  mkConfigManager (mConfigs m) (<[key := pir]> (mConfigReceivers m)) (mActiveConfigsChangedReceivers m) (mListeners m).

Definition RemoveConfigReceiver (key : ConfigKey) (m : ConfigManager) : ConfigManager :=
  mkConfigManager (mConfigs m) (delete key (mConfigReceivers m)) (mActiveConfigsChangedReceivers m) (mListeners m).

Definition GetConfigReceiver (key : ConfigKey) (m : ConfigManager) : option Z := mConfigReceivers m !! key.

(** The process of the receiver [pir] of the key died. *)
Definition configReceiverDied (key : ConfigKey) (pir : Z) (m : ConfigManager) : ConfigManager :=
  if bool_decide (mConfigReceivers m !! key = Some pir) then RemoveConfigReceiver key m else m.

Definition SetActiveConfigsChangedReceiver (uid pir : Z) (m : ConfigManager) : ConfigManager :=
  mkConfigManager (mConfigs m) (mConfigReceivers m) (<[uid := pir]> (mActiveConfigsChangedReceivers m)) (mListeners m).

Definition RemoveActiveConfigsChangedReceiver (uid : Z) (m : ConfigManager) : ConfigManager :=
  mkConfigManager (mConfigs m) (mConfigReceivers m) (delete uid (mActiveConfigsChangedReceivers m)) (mListeners m).

Definition GetActiveConfigsChangedReceiver (uid : Z) (m : ConfigManager) : option Z :=
  mActiveConfigsChangedReceivers m !! uid.

Definition activeConfigChangedReceiverDied (uid pir : Z) (m : ConfigManager) : ConfigManager :=
  if bool_decide (mActiveConfigsChangedReceivers m !! uid = Some pir)
  then RemoveActiveConfigsChangedReceiver uid m else m.

(** * Facts on the configurations

    What listeners are told agrees with the configurations that are set, and every uid stays within its
    limit; a configuration that was accepted is on disk; a configuration with a similar key is lost. *)

Lemma collect_total nowSec entries : ∀ d, is_Some (collectFiles nowSec false entries d).
Proof.
  induction entries as [|[name c] entries IH]; intros d; cbn [collectFiles]; [by eexists|].
  unfold trimName. destruct (hidden name); cbn [mbind option_bind]; [apply IH|].
  destruct (parsedName name) as [f|]; [|apply IH]. destruct (fileTooOld _ _); [apply IH|].
  destruct (IH d) as [[files d'] ->]. by eexists.
Qed.

Lemma trim_total sortFiles nowSec d : is_Some (trimToFit sortFiles nowSec false d).
Proof. unfold trimToFit. destruct (collect_total nowSec d d) as [[files d'] ->]. by eexists. Qed.

Lemma configKeysInOrder_elem s key : key ∈ configKeysInOrder s ↔ key ∈ s.
Proof. unfold configKeysInOrder. rewrite insertionSort_permutes. apply elem_of_elements. Qed.

Lemma GetAllConfigKeys_elem m key :
  key ∈ GetAllConfigKeys m ↔ ∃ uid s, mConfigs m !! uid = Some s ∧ key ∈ s.
Proof.
  unfold GetAllConfigKeys. rewrite list_elem_of_In, in_concat. setoid_rewrite in_map_iff. setoid_rewrite <- list_elem_of_In.
  split.
  - intros (l & (uid & <- & Huid) & Hl). rewrite insertionSort_permutes in Huid.
    apply list_elem_of_In, in_map_iff in Huid as ([uid' s] & <- & Hin%list_elem_of_In%elem_of_map_to_list). cbn [fst] in Hl.
    rewrite Hin in Hl. apply configKeysInOrder_elem in Hl. by exists uid', s.
  - intros (uid & s & Hs & Hk). exists (configKeysInOrder (default ∅ (mConfigs m !! uid))). split.
    + exists uid. split; [done|]. rewrite insertionSort_permutes. apply list_elem_of_In, in_map_iff. exists (uid, s).
      split; [done|]. by apply list_elem_of_In, elem_of_map_to_list.
    + rewrite Hs. by apply configKeysInOrder_elem.
Qed.

Section listener.
Context {Config : Type}.

(** What a listener knows from the calls to it. *)
Definition hear (L : Z) (s : gset ConfigKey) (c : ConfigCall (Config := Config)) : gset ConfigKey :=
  match c with
  | OnConfigUpdated l _ key _ => if l =? L then {[key]} ∪ s else s
  | OnConfigRemoved l key => if l =? L then s ∖ {[key]} else s
  end.

Definition heard (L : Z) (s : gset ConfigKey) (calls : list (ConfigCall (Config := Config))) : gset ConfigKey :=
  foldl (hear L) s calls.

Lemma heard_updated L listeners t key config : ∀ s,
  L ∈ listeners → heard L s (map (λ l, OnConfigUpdated l t key config) listeners) = {[key]} ∪ s.
Proof using.
  assert (Hidem : ∀ ls (s : gset ConfigKey), key ∈ s → heard L s (map (λ l, OnConfigUpdated l t key config) ls) = s).
  { induction ls as [|l ls IH]; intros s Hs; [done|]. unfold heard in *. cbn [map foldl hear].
    destruct (l =? L); [|by apply IH]. rewrite IH by set_solver. set_solver. }
  induction listeners as [|l listeners IH]; intros s Hin; [by apply elem_of_nil in Hin|].
  unfold heard in *. cbn [map foldl hear]. destruct (Z.eqb_spec l L) as [-> |E].
  - apply Hidem. set_solver.
  - apply IH. set_solver.
Qed.

Lemma heard_removed L listeners key : ∀ s,
  L ∈ listeners → heard L s (map (λ l, OnConfigRemoved l key) listeners) = s ∖ {[key]}.
Proof using.
  assert (Hidem : ∀ ls (s : gset ConfigKey), key ∉ s → heard L s (map (λ l, OnConfigRemoved l key) ls) = s).
  { induction ls as [|l ls IH]; intros s Hs; [done|]. unfold heard in *. cbn [map foldl hear].
    destruct (l =? L); [|by apply IH]. rewrite IH by set_solver. set_solver. }
  induction listeners as [|l listeners IH]; intros s Hin; [by apply elem_of_nil in Hin|].
  unfold heard in *. cbn [map foldl hear]. destruct (Z.eqb_spec l L) as [-> |E].
  - apply Hidem. set_solver.
  - apply IH. set_solver.
Qed.

Lemma heard_app L s a b : heard L s (a ++ b) = heard L (heard L s a) b.
Proof using. apply foldl_app. Qed.

Lemma heard_tellRemoved L keys m : ∀ s,
  L ∈ mListeners m → ∀ key, key ∈ heard L s (tellRemoved keys m) ↔ key ∈ s ∧ key ∉ keys.
Proof using.
  intros s Hin. revert s. unfold tellRemoved. induction keys as [|x keys IH]; intros s key; cbn [map concat].
  - unfold heard. cbn [foldl]. set_solver.
  - rewrite heard_app, IH, heard_removed by done. set_solver.
Qed.

(** Every set is under its uid and within the limit. *)
Definition configsInv (m : ConfigManager) : Prop :=
  ∀ uid s, mConfigs m !! uid = Some s → (size s <= kMaxConfigCountPerUid)%nat ∧ ∀ key, key ∈ s → key.1 = uid.

Definition knows (L : Z) (s : gset ConfigKey) (m : ConfigManager) : Prop :=
  L ∈ mListeners m ∧ configsInv m ∧ ∀ key, key ∈ s ↔ hasConfig key m = true.

Lemma hasConfig_all key m : configsInv m → hasConfig key m = true ↔ key ∈ GetAllConfigKeys m.
Proof using.
  intros Hinv. rewrite GetAllConfigKeys_elem. unfold hasConfig. split.
  - destruct (mConfigs m !! key.1) as [s|] eqn:E; [|done]. intros H%bool_decide_eq_true. by exists key.1, s.
  - intros (uid & s & Hs & Hk). destruct (Hinv uid s Hs) as [_ Huid]. rewrite (Huid key Hk), Hs. by apply bool_decide_eq_true.
Qed.

End listener.

Section configs.
Context {Config : Type} (serialize : Config → list Z) (sortFiles : list FileInfo → list FileInfo).

Inductive ConfigOp :=
  | CAddListener (listener : Z)
  | CUpdate (nowSec elapsedNs : Z) (key : ConfigKey) (config : Config)
  | CRemove (key : ConfigKey)
  | CRemoveUid (uid : Z)
  | CRemoveAll
  | CReceiver (key : ConfigKey) (pir : Z).

Definition stepConfig (o : ConfigOp) (m : ConfigManager) (k : Disk)
    : option (list (ConfigCall (Config := Config)) * ConfigManager * Disk) :=
  match o with
  | CAddListener l => Some ([], AddListener l m, k)
  | CUpdate nowSec elapsedNs key config => UpdateConfig serialize sortFiles nowSec elapsedNs key config m k
  | CRemove key => Some (RemoveConfig key m k)
  | CRemoveUid uid => Some (RemoveConfigs uid m k)
  | CRemoveAll => let '(calls, m) := RemoveAllConfigs m in Some (calls, m, k)
  | CReceiver key pir => Some ([], SetConfigReceiver key pir m, k)
  end.

Definition runConfig (l : list ConfigOp) (m : ConfigManager) (k : Disk)
    : option (list (ConfigCall (Config := Config)) * ConfigManager * Disk) :=
  foldl (λ r o, '(calls, m, k) ← r; '(calls', m, k) ← stepConfig o m k; Some (calls ++ calls', m, k)) (Some ([], m, k)) l.

Lemma update_knows L s nowSec elapsedNs key config m k :
  knows L s m →
  ∃ calls m' k', UpdateConfig serialize sortFiles nowSec elapsedNs key config m k = Some (calls, m', k')
    ∧ knows L (heard L s calls) m'.
Proof using.
  intros (HL & Hinv & Hs). unfold UpdateConfig.
  assert (Hsave : is_Some (update_saved_configs_locked sortFiles nowSec key (serialize config) k)).
  { unfold update_saved_configs_locked, writeFile.
    destruct (trim_total sortFiles nowSec (serviceDir (mkDisk (createFile (showZ nowSec ++ "_" ++ showZ key.1 ++ "_" ++ showZ key.2)%string
      (serviceDir (remove_saved_configs key k))) (dataDir (remove_saved_configs key k)) (trainInfoDir (remove_saved_configs key k))))) as [s1 ->].
    cbn [mbind option_bind dataDir]. destruct (trim_total sortFiles nowSec (dataDir (remove_saved_configs key k))) as [s2 ->]. by eexists. }
  destruct Hsave as [k' Hsave]. destruct (match mConfigs m !! key.1 with Some _ => _ | None => _ end) eqn:Efull; [by eexists _, _, _|].
  destruct (hasConfig key m && _) eqn:Edup; rewrite Hsave; cbn [mbind option_bind]; eexists _, _, _; (split; [reflexivity|]); [done|].
  rewrite heard_updated by done. split; [done|]. cbn [mConfigs set_configs mListeners].
  set (old := default ∅ (mConfigs m !! key.1)) in *.
  assert (Hold : (size ({[key]} ∪ old) <= kMaxConfigCountPerUid)%nat ∧ ∀ x, x ∈ old → x.1 = key.1).
  { unfold old. destruct (mConfigs m !! key.1) as [t|] eqn:Et; cbn [default from_option id].
    - destruct (Hinv key.1 t Et) as [Hsz Huid]. split; [|done]. destruct (decide (key ∈ t)) as [Hin|Hin].
      + replace ({[key]} ∪ t) with t by set_solver. done.
      + rewrite size_union by set_solver. rewrite size_singleton. rewrite bool_decide_false in Efull by done.
        cbn [negb andb] in Efull. apply Nat.leb_gt in Efull. lia.
    - split; [|set_solver]. rewrite size_union by set_solver. rewrite size_singleton, size_empty. unfold kMaxConfigCountPerUid. lia. }
  split.
  - intros uid t. cbn [mConfigs set_configs]. rewrite lookup_insert_Some. intros [[<- <-]|[_ Ht]]; [|by apply Hinv].
    split; [apply Hold|]. intros x [->%elem_of_singleton|Hx]%elem_of_union; [done|by apply Hold].
  - intros x. rewrite elem_of_union, elem_of_singleton, Hs. unfold hasConfig. cbn [mConfigs set_configs].
    destruct (decide (key.1 = x.1)) as [E|E].
    + rewrite <- E, lookup_insert_eq, bool_decide_eq_true, elem_of_union, elem_of_singleton.
      unfold old. destruct (mConfigs m !! key.1); cbn; [by rewrite bool_decide_eq_true|set_solver].
    + rewrite lookup_insert_ne by done. split; [|auto]. intros [-> |?]; done.
Qed.

Lemma remove_knows L s key m k :
  knows L s m → let '(calls, m', k') := RemoveConfig (Config := Config) key m k in knows L (heard L s calls) m'.
Proof using.
  intros (HL & Hinv & Hs). unfold RemoveConfig. destruct (mConfigs m !! key.1) as [t|] eqn:Et; [|done].
  case_bool_decide as Hin; [|done]. rewrite heard_removed by done. split; [done|].
  split.
  - intros uid t'. cbn [mConfigs set_configs]. rewrite lookup_insert_Some. intros [[<- <-]|[_ Ht]]; [|by apply Hinv].
    destruct (Hinv key.1 t Et) as [Hsz Huid]. split; [|set_solver]. etransitivity; [|exact Hsz]. apply subseteq_size. set_solver.
  - intros x. rewrite elem_of_difference, elem_of_singleton, Hs. unfold hasConfig. cbn [mConfigs set_configs].
    destruct (decide (key.1 = x.1)) as [E|E].
    + rewrite <- E, lookup_insert_eq, Et, !bool_decide_eq_true. set_solver.
    + rewrite lookup_insert_ne by done. split; [by intros [? _]|]. intros H. split; [done|]. by intros ->.
Qed.

Lemma step_knows L s o m k :
  knows L s m →
  ∃ calls m' k', stepConfig o m k = Some (calls, m', k') ∧ knows L (heard L s calls) m'.
Proof using.
  intros Hk. pose proof Hk as (HL & Hinv & Hs). destruct o as [l|nowSec elapsedNs key config|key|uid| |key pir]; cbn [stepConfig].
  - eexists _, _, _. split; [reflexivity|]. split; [|by split]. cbn. set_solver.
  - by apply update_knows.
  - pose proof (remove_knows L s key m k Hk) as H. destruct (RemoveConfig (Config := Config) key m k) as [[calls m'] k']. by eexists _, _, _.
  - unfold RemoveConfigs. destruct (mConfigs m !! uid) as [t|] eqn:Et; [|by eexists _, _, _].
    eexists _, _, _. split; [reflexivity|]. split; [done|]. split.
    + intros uid' t'. cbn [mConfigs set_configs]. rewrite lookup_delete_Some. intros [_ Ht]. by apply Hinv.
    + intros x. rewrite heard_tellRemoved by done. rewrite configKeysInOrder_elem, Hs. unfold hasConfig. cbn [mConfigs set_configs].
      destruct (Hinv uid t Et) as [_ Huid]. destruct (decide (uid = x.1)) as [-> |E].
      * rewrite lookup_delete_eq, Et, bool_decide_eq_true. split; [tauto|done].
      * rewrite lookup_delete_ne by done. split; [by intros [? _]|]. intros H. split; [done|]. intros Hx. apply E. symmetry. by apply Huid.
  - unfold RemoveAllConfigs. eexists _, _, _. split; [reflexivity|]. split; [done|]. split.
    + intros uid t. cbn [mConfigs set_configs]. by rewrite lookup_empty.
    + intros x. rewrite heard_tellRemoved by done. rewrite Hs, hasConfig_all by done. unfold hasConfig.
      cbn [mConfigs set_configs]. rewrite lookup_empty. split; [tauto|done].
  - by eexists _, _, _.
Qed.
End configs.

(** C30: a listener knows exactly the configurations that are set.  Over any sequence of updates,
    removals and new listeners, the configurations announced to a listener and not withdrawn are those
    of the manager, every uid has at most the allowed number, and no operation fails. *)
Theorem listeners_know_configs {Config} (serialize : Config → list Z) (sortFiles : list FileInfo → list FileInfo)
    (L : Z) (ops : list (ConfigOp (Config := Config))) (k : Disk) :
  ∃ calls m k', runConfig serialize sortFiles (CAddListener L :: ops) ConfigManager_new k = Some (calls, m, k')
    ∧ (∀ key, key ∈ heard L ∅ calls ↔ hasConfig key m = true)
    ∧ (∀ key, hasConfig key m = true ↔ key ∈ GetAllConfigKeys m)
    ∧ ∀ uid s, mConfigs m !! uid = Some s → (size s <= kMaxConfigCountPerUid)%nat.
Proof.
  assert (H : ∀ ops calls m k, knows L (heard L ∅ calls) m →
    ∃ calls' m' k', foldl (λ r o, '(calls, m, k) ← r; '(calls', m, k) ← stepConfig serialize sortFiles o m k; Some (calls ++ calls', m, k))
      (Some (calls, m, k)) ops = Some (calls', m', k') ∧ knows L (heard L ∅ calls') m').
  { clear ops k. induction ops as [|o ops IH]; intros calls m k Hk; cbn [foldl]; [by exists calls, m, k|].
    destruct (step_knows serialize sortFiles L _ o m k Hk) as (calls1 & m1 & k1 & E & H1).
    cbn [mbind option_bind]. rewrite E. cbn [mbind option_bind]. apply IH. by rewrite heard_app. }
  destruct (H ops [] (AddListener L ConfigManager_new) k) as (calls & m & k' & E & (_ & Hinv & Hs)).
  { split; [cbn; set_solver|]. split; [by intros uid s|]. intros key. unfold heard. cbn [foldl].
    unfold hasConfig, AddListener, ConfigManager_new. cbn [mConfigs]. rewrite lookup_empty. split; [set_solver|done]. }
  exists calls, m, k'. split; [exact E|]. split; [exact Hs|]. split; [by intros; apply hasConfig_all|].
  intros uid s Hs'. by apply (Hinv uid s).
Qed.

(** An accepted configuration is on disk and the others stay.  When there is nothing to trim, the
    configuration last accepted for a key is what is read from disk for that key, and a key whose
    files do not end like this one's reads what it did before. *)
Theorem accepted_config_saved {Config} (serialize : Config → list Z) (sortFiles : list FileInfo → list FileInfo)
    (nowSec elapsedNs : Z) (key : ConfigKey) (config : Config) (m : ConfigManager) (k : Disk) :
  let file := getFullFileName (mkFileName nowSec key.1 key.2 false) in
  let created := createFile file (deleteSuffixedFiles (keySuffix key) (serviceDir k)) in
  trimToFit sortFiles nowSec false created = Some created →
  trimToFit sortFiles nowSec false (dataDir k) = Some (dataDir k) →
  (hasConfig key m = true ∨ mConfigs m !! key.1 = None) →
  ∃ calls m' k', UpdateConfig serialize sortFiles nowSec elapsedNs key config m k = Some (calls, m', k')
    ∧ readConfigFromDisk key (serviceDir k') = Some (serialize config)
    ∧ hasConfig key m' = true
    ∧ ∀ key', hasSuffix (keySuffix key') file = false →
        (∀ e, e ∈ serviceDir k → matchesEnd (keySuffix key') e = true → matchesEnd (keySuffix key) e = false) →
        readConfigFromDisk key' (serviceDir k') = readConfigFromDisk key' (serviceDir k).
Proof.
  intros file created Ht1 Ht2 Hok.
  assert (Efile : file = (showZ nowSec ++ "_" ++ showZ key.1 ++ "_" ++ showZ key.2)%string).
  { unfold file, getFullFileName. cbn [mTimestampSec fn_uid mConfigId mIsHistory]. by rewrite string_app_empty. }
  assert (Hm : matchesEnd (keySuffix key) (file, []) = true).
  { unfold matchesEnd. cbn [fst]. rewrite Efile, hidden_number. cbn [negb andb]. rewrite <- string_app_assoc. apply hasSuffix_app. }
  assert (Hsave : update_saved_configs_locked sortFiles nowSec key (serialize config) k
    = Some (mkDisk (replaceFile (keySuffix key) file (serialize config) (serviceDir k)) (dataDir k) (trainInfoDir k))).
  { unfold update_saved_configs_locked, writeFile. rewrite <- Efile. unfold remove_saved_configs.
    cbn [serviceDir dataDir trainInfoDir]. fold created. rewrite Ht1. cbn [mbind option_bind]. by rewrite Ht2. }
  assert (Hread : readConfigFromDisk key (replaceFile (keySuffix key) file (serialize config) (serviceDir k)) = Some (serialize config)).
  { unfold readConfigFromDisk. fold (matchesEnd (keySuffix key)). by rewrite find_replaced. }
  assert (Hother : ∀ key', hasSuffix (keySuffix key') file = false →
    (∀ e, e ∈ serviceDir k → matchesEnd (keySuffix key') e = true → matchesEnd (keySuffix key) e = false) →
    readConfigFromDisk key' (replaceFile (keySuffix key) file (serialize config) (serviceDir k)) = readConfigFromDisk key' (serviceDir k)).
  { intros key' Hnew Hold. unfold readConfigFromDisk. fold (matchesEnd (keySuffix key')). rewrite replaceFile_eq by done. f_equal.
    clear -Hnew Hold. induction (serviceDir k) as [|e d IH].
    - unfold matchesEnd. cbn [deleteSuffixedFiles List.filter app find fst]. by rewrite Hnew, andb_false_r.
    - unfold deleteSuffixedFiles in *. cbn [List.filter]. specialize (IH ltac:(set_solver)).
      destruct (matchesEnd (keySuffix key') e) eqn:E; cbn [find]; rewrite E.
      + specialize (Hold e ltac:(set_solver) E). unfold matchesEnd in Hold, E.
        assert (Hkeep : hidden e.1 || negb (hasSuffix (keySuffix key) e.1) = true) by (by destruct (hidden e.1), (hasSuffix (keySuffix key) e.1)).
        rewrite Hkeep. cbn [app find]. unfold matchesEnd. by rewrite E.
      + destruct (hidden e.1 || negb (hasSuffix (keySuffix key) e.1)); [|exact IH]. cbn [app find]. by rewrite E. }
  unfold UpdateConfig.
  assert (Efull : match mConfigs m !! key.1 with
    | Some s => negb (bool_decide (key ∈ s)) && (kMaxConfigCountPerUid <=? size s)%nat | None => false end = false).
  { destruct Hok as [Hh| ->]; [|done]. unfold hasConfig in Hh. destruct (mConfigs m !! key.1); [|done]. by rewrite Hh. }
  cbv zeta. rewrite Efull. destruct (hasConfig key m && _) eqn:Edup; rewrite Hsave; cbn [mbind option_bind]; eexists _, _, _;
    (split; [reflexivity|]); (split; [exact Hread|]); (split; [|exact Hother]).
  - by apply andb_true_iff in Edup as [? _].
  - unfold hasConfig. cbn [mConfigs set_configs]. rewrite lookup_insert_eq. apply bool_decide_eq_true. set_solver.
Qed.

Lemma accepted_config_saved_witness :
  let k := mkDisk [("1599999999_1000_7"%string, [3])] [] [] in
  let key := (1000, 5) in
  let file := getFullFileName (mkFileName 1600000000 1000 5 false) in
  ∃ calls m' k', UpdateConfig (λ c : list Z, c) (insertionSort file_ltb) 1600000000 9 key [1; 2] ConfigManager_new k = Some (calls, m', k')
    ∧ readConfigFromDisk key (serviceDir k') = Some [1; 2]
    ∧ hasConfig key m' = true
    ∧ ∀ key', hasSuffix (keySuffix key') file = false →
        (∀ e, e ∈ serviceDir k → matchesEnd (keySuffix key') e = true → matchesEnd (keySuffix key) e = false) →
        readConfigFromDisk key' (serviceDir k') = readConfigFromDisk key' (serviceDir k).
Proof.
  cbv zeta. apply (accepted_config_saved (λ c : list Z, c)); [vm_compute; reflexivity|vm_compute; reflexivity|by right].
Defined.

(** A configuration can delete the file of another uid.  Files are found by the end of their name:
    that of uid 11000 ends like that of uid 1000.  When uid 1000 sets a configuration with the same id,
    the file of uid 11000 is removed; its configuration is still announced but lost at the next start. *)
Theorem similar_config_lost :
  let set_ now key config r := '(calls, m, k) ← r; UpdateConfig (λ c : list Z, c) (insertionSort file_ltb) now 9 key config m k in
  let r := set_ 1600000001 (1000, 5) [2] (set_ 1600000000 (11000, 5) [1] (Some ([], ConfigManager_new, mkDisk [] [] []))) in
  (λ '(calls, m, k), (GetAllConfigKeys m, serviceDir k)) <$> r
    = Some ([(1000, 5); (11000, 5)], [("1600000001_1000_5"%string, [2])])
  ∧ ((λ '(calls, m, k), GetAllConfigKeys m) <$>
      ('(calls, m, k) ← r; Startup (λ c : list Z, c) (insertionSort file_ltb) Some 1600000002 9 ConfigManager_new k))
    = Some [(1000, 5)].
Proof. vm_compute. split; reflexivity. Qed.
