(* ===== verification/Service.v ===== *)
(** * The service (StatsService.{h,cpp}, utils/MultiConditionTrigger.{h,cpp})

    Other processes call statsd through binder, and the shell through commands.  The service checks who calls, and
    passes the call on to the configuration manager, the log processor, the uid map, the pullers and the subscribers;
    it composes the models of these parts.

    A handler returns a status, what the caller gets, and the service afterwards; [None] is a fault of a part.  What
    the caller sends is given as parsed, [None] when it could not be read.  The alarms that the shared monitor of
    periodic alarms pops are given to the handler that pops them (Alarms.v holds the monitor; each alarm tracker has
    its own view of it).  The text a command prints is left out.  The trigger of the end of the boot runs on a thread
    of its own, and so is a step of its own. *)
From Stdlib Require Import Ascii.
From S2P Require Import Prelude Hash UMap FieldValue DimensionKey Matchers LogEvent UidMap MatcherTrackers.
From S2P Require Import Conditions Alarms Anomaly State MetricProducer CountMetric MetricShared AnyMetric.
From S2P Require Import Sorting Storage Pullers MetricsConfig MetricsManager ManagerOps TrainEvents LogProcessor.
From S2P Require Import ProtoOutput StatsdStats Subscribers ConfigManager.

(** ** utils/MultiConditionTrigger *)

Record MultiConditionTrigger := mkTrigger { mRemainingConditionNames : gset string; mCompleted : bool }.

(** The flag: the trigger runs, on a thread of its own. *)
Definition MultiConditionTrigger_new (conditionNames : gset string) : bool * MultiConditionTrigger :=
  let completed := bool_decide (conditionNames = ∅) in
  (completed, mkTrigger conditionNames completed).

Definition markComplete (conditionName : string) (t : MultiConditionTrigger) : bool * MultiConditionTrigger :=
  if mCompleted t then (false, t)
  else
    let remaining := mRemainingConditionNames t ∖ {[conditionName]} in
    let completed := bool_decide (remaining = ∅) in
    (completed, mkTrigger remaining completed).

Definition kBootCompleteTag : string := "BOOT_COMPLETE".
Definition kUidMapReceivedTag : string := "UID_MAP".
Definition kAllPullersRegisteredTag : string := "PULLERS_REGISTERED".

(** ** Numbers in arguments *)

(** [strtoll(s, &endp, 10)], as [strtoll] of Storage.v but in base ten. *)
Definition strtoll10 (s : string) : option (Z * string) :=
  let s := skipSpaces s in
  let '(negative, s) :=
    match s with
    | String "-" s => (true, s)
    | String "+" s => (false, s)
    | _ => (false, s)
    end in
  if startsDigit 10 s then
    let '(v, rest) := readDigits 10 0 s in
    let v := if negative then - v else v in
    Some (Z.max (- 2 ^ 63) (Z.min (2 ^ 63 - 1) v), rest)
  else None.

(** [strtoll(s, nullptr, 10)] *)
Definition strtoll10OrZero (s : string) : Z := from_option fst 0 (strtoll10 s).

(** [atoi] is [strtol] converted to [int]. *)
Definition atoi (s : string) : Z := wrap32 (strtoll10OrZero s).

(** A configuration id in base ten, nothing after it. *)
Definition parseConfigId (s : string) : option Z :=
  match strtoll10 s with Some (id, EmptyString) => Some id | _ => None end.

(** [android::base::Split(s, ",")] *)
Fixpoint splitCommas (s : string) : list string :=
  match s with
  | EmptyString => [EmptyString]
  | String c s =>
      if bool_decide (c = ","%char) then EmptyString :: splitCommas s
      else match splitCommas s with
           | part :: parts => String c part :: parts
           | [] => [String c EmptyString]
           end
  end.

(** [millis * 1000000] *)
Definition MillisToNano (millis : Z) : Z := wrap64 (millis * 1000000).

(** ** Callers *)

Definition AID_SYSTEM : Z := 1000.

Record Caller := mkCaller { c_uid : Z; c_pid : Z }.

Inductive Status := Ok | EX_SECURITY | EX_ILLEGAL_ARGUMENT | EX_NULL_POINTER.

(** [status_t] of a command *)
Inductive CommandStatus := NO_ERROR | PERMISSION_DENIED | UNKNOWN_ERROR.

Definition checkUid (c : Caller) (expectedUid : Z) : bool := (c_uid c =? expectedUid) || (c_uid c =? AID_ROOT).

(** [getUidFromString]: the uid, if the caller may use it. *)
Definition getUidFromString (engBuild : bool) (c : Caller) (s : string) : option Z :=
  match s with
  | EmptyString => None
  | _ =>
      match strtoll s with
      | Some (longUid, EmptyString) =>
          let goodUid := wrap32 longUid in
          if (longUid <? 0) || negb (longUid =? u32 goodUid) then None
          else
            let callingUid := wrap32 (c_uid c) in
            if engBuild || (callingUid =? goodUid) || ((callingUid =? AID_ROOT) && (goodUid =? AID_SHELL))
            then Some goodUid else None
      | _ => None
      end
  end.

(** ** State *)

(** Calls to other processes that the service itself makes. *)
Inductive ServiceCall :=
  | SendDataBroadcast (pir lastReportTimeNs : Z)
  | SendActiveConfigsChangedBroadcast (pir : Z) (configIds : list Z)
  | StatsdReady
  | WriteAppBreadcrumb (uid label state : Z)
  | StartNewSubscription (timeoutSec : Z).

Record StatsService (M : Type) := mkStatsService {
  mConfigManager : ConfigManager;
  mProcessor : StatsLogProcessor M;
  mReporter : SubscriberReporter;
  mStats : StatsdStats;
  mBootCompleteTrigger : MultiConditionTrigger;
  (** threads of the trigger that did not run yet *)
  mTriggerThreads : nat;
  (** whether the alarm monitors have the companion service *)
  mAlarmsHaveCompanion : bool;
  mPrintAllLogs : bool;
  mEngBuild : bool;
  sv_calls : list ServiceCall
}.
Arguments mkStatsService {M}.
Arguments mConfigManager {M} _.
Arguments mProcessor {M} _.
Arguments mReporter {M} _.
Arguments mStats {M} _.
Arguments mBootCompleteTrigger {M} _.
Arguments mTriggerThreads {M} _.
Arguments mAlarmsHaveCompanion {M} _.
Arguments mPrintAllLogs {M} _.
Arguments mEngBuild {M} _.
Arguments sv_calls {M} _.

(** What a caller gets besides the status. *)
Inductive Reply :=
  | NoReply
  | Reports (reports : list (list Z))
  | Ids (ids : list Z)
  | StatsMessage (message : list ProtoNode)
  | PulledEvents (events : list Parsing)
  | Cleared (n : Z).

Section setters.
Context {M : Type}.
Implicit Types s : StatsService M.

Definition set_configManager (m : ConfigManager) s : StatsService M :=
  mkStatsService m (mProcessor s) (mReporter s) (mStats s) (mBootCompleteTrigger s) (mTriggerThreads s)
    (mAlarmsHaveCompanion s) (mPrintAllLogs s) (mEngBuild s) (sv_calls s).
Definition set_processor (p : StatsLogProcessor M) s : StatsService M :=
  mkStatsService (mConfigManager s) p (mReporter s) (mStats s) (mBootCompleteTrigger s) (mTriggerThreads s)
    (mAlarmsHaveCompanion s) (mPrintAllLogs s) (mEngBuild s) (sv_calls s).
Definition set_reporter (r : SubscriberReporter) s : StatsService M :=
  mkStatsService (mConfigManager s) (mProcessor s) r (mStats s) (mBootCompleteTrigger s) (mTriggerThreads s)
    (mAlarmsHaveCompanion s) (mPrintAllLogs s) (mEngBuild s) (sv_calls s).
Definition set_stats (st : StatsdStats) s : StatsService M :=
  mkStatsService (mConfigManager s) (mProcessor s) (mReporter s) st (mBootCompleteTrigger s) (mTriggerThreads s)
    (mAlarmsHaveCompanion s) (mPrintAllLogs s) (mEngBuild s) (sv_calls s).
Definition set_trigger (t : MultiConditionTrigger) (threads : nat) s : StatsService M :=
  mkStatsService (mConfigManager s) (mProcessor s) (mReporter s) (mStats s) t threads
    (mAlarmsHaveCompanion s) (mPrintAllLogs s) (mEngBuild s) (sv_calls s).
Definition set_companion (b : bool) s : StatsService M :=
  mkStatsService (mConfigManager s) (mProcessor s) (mReporter s) (mStats s) (mBootCompleteTrigger s) (mTriggerThreads s)
    b (mPrintAllLogs s) (mEngBuild s) (sv_calls s).
Definition set_printLogs (b : bool) s : StatsService M :=
  mkStatsService (mConfigManager s) (mProcessor s) (mReporter s) (mStats s) (mBootCompleteTrigger s) (mTriggerThreads s)
    (mAlarmsHaveCompanion s) b (mEngBuild s) (sv_calls s).
Definition call (c : ServiceCall) s : StatsService M :=
  mkStatsService (mConfigManager s) (mProcessor s) (mReporter s) (mStats s) (mBootCompleteTrigger s) (mTriggerThreads s)
    (mAlarmsHaveCompanion s) (mPrintAllLogs s) (mEngBuild s) (sv_calls s ++ [c]).
End setters.

Section service.
Context {M Config : Type} `{Hops : ManagerOps M Config} (lib : Library Config) (serialize : Config → list Z).
Notation Service := (StatsService M).
Implicit Types s : Service.

(** ** Parts *)

(** The callbacks the processor got: a broadcast needs a receiver. *)
Definition withReceivers (m : ConfigManager) (e : Env) : Env :=
  mkEnv (e_uninit e) (e_uninitFlags e) (e_elapsed e) (e_elapsedAt e) (e_wallNs e) (e_pull e) (e_pullFinds e) (e_depth e)
    (λ key, match GetConfigReceiver key m with Some _ => e_sendBroadcast e key | None => false end)
    (λ uid ids, match GetActiveConfigsChangedReceiver uid m with Some _ => e_sendActivationBroadcast e uid ids | None => false end).

Definition onProcessor (f : StatsLogProcessor M → option (StatsLogProcessor M)) s : option Service :=
  p ← f (mProcessor s); Some (set_processor p s).

(** The processor is listener 0 of the configurations; updates are modular. *)
Definition hearConfig (e : Env) (c : ConfigCall (Config := Config)) (p : StatsLogProcessor M) : option (StatsLogProcessor M) :=
  match c with
  | OnConfigUpdated listener timestampNs key config =>
      if listener =? 0 then processor_OnConfigUpdated lib e timestampNs key config true p else Some p
  | OnConfigRemoved listener key => if listener =? 0 then processor_OnConfigRemoved lib e key p else Some p
  end.

Definition hearConfigs (e : Env) (calls : list (ConfigCall (Config := Config))) (p : StatsLogProcessor M)
    : option (StatsLogProcessor M) := foldl (λ r c, p ← r; hearConfig e c p) (Some p) calls.

(** An operation of the configuration manager: the maps and the files change before listeners are told. *)
Definition onConfigs (e : Env) (f : ConfigManager → Disk → option (list (ConfigCall (Config := Config)) * ConfigManager * Disk)) s
    : option Service :=
  '(calls, m, k) ← f (mConfigManager s) (mDisk (mProcessor s));
  p ← hearConfigs e calls (on_shared (set_disk k) (mProcessor s));
  Some (set_configManager m (set_processor p s)).

Definition updateConfigOf (e : Env) (key : ConfigKey) (config : Config) : Service → option Service :=
  onConfigs e (UpdateConfig serialize (lib_sortFiles lib) (e_wallSec e) (e_elapsed e) key config).
Definition removeConfigOf (e : Env) (key : ConfigKey) : Service → option Service :=
  onConfigs e (λ m k, Some (RemoveConfig key m k)).
Definition removeConfigsOf (e : Env) (uid : Z) : Service → option Service :=
  onConfigs e (λ m k, Some (RemoveConfigs uid m k)).

Definition markCondition (tag : string) s : Service :=
  let '(fires, t) := markComplete tag (mBootCompleteTrigger s) in
  set_trigger t (if fires then Datatypes.S (mTriggerThreads s) else mTriggerThreads s) s.

(** A thread of the trigger runs. *)
Definition runTriggerThread (e : Env) s : Service :=
  match mTriggerThreads s with
  | O => s
  | Datatypes.S n =>
      set_trigger (mBootCompleteTrigger s) n
        (set_processor (processor_onStatsdInitCompleted e (e_elapsed e) (mProcessor s)) s)
  end.

(** ** Construction and start *)

(** The processor listens to the uid map and, as listener 0, to the configurations. *)
Definition StatsService_new (shared : SharedObjects) (stats : StatsdStats) (elapsedNs : Z) (buildType : option string) : Service :=
  let p := StatsLogProcessor_new shared elapsedNs in
  let '(fires, trigger) := MultiConditionTrigger_new {[kBootCompleteTag; kUidMapReceivedTag; kAllPullersRegisteredTag]} in
  mkStatsService (AddListener 0 ConfigManager_new)
    (on_shared (λ sh, set_uidMap (setListener true (sh_uidMap sh)) sh) p)
    SubscriberReporter_new stats trigger (if fires then 1 else 0)%nat false false
    (match buildType with Some b => bool_decide (b = "eng"%string) || bool_decide (b = "userdebug"%string) | None => false end) [].

(** [ConfigManager::Startup]: listeners are told of each configuration before the next one. *)
Definition startConfigs (e : Env) s : option Service :=
  '(configs, k) ← configsToStart (lib_sortFiles lib) (lib_parseConfig lib) (e_wallSec e) (mDisk (mProcessor s));
  foldl (λ r kv, s ← r; updateConfigOf e kv.1 kv.2 s) (Some (set_processor (on_shared (set_disk k) (mProcessor s)) s)) configs.

Definition service_Startup (e : Env) s : option Service :=
  s ← startConfigs e s;
  onProcessor (λ p, Some (LoadMetadataFromDisk lib (e_wallNs e) (e_elapsed e) (LoadActiveConfigsFromDisk lib e p))) s.

(** What is saved when statsd or the device stops. *)
Definition saveAll (e : Env) (reason : DumpReportReason) (p : StatsLogProcessor M) : option (StatsLogProcessor M) :=
  p ← WriteDataToDisk lib e reason FAST (e_elapsed e) p;
  SaveMetadataToDisk lib e (e_wallNs e) (e_elapsed e) (SaveActiveConfigsToDisk lib e (e_elapsed e) p).

Definition service_Terminate (e : Env) : Service → option Service := onProcessor (saveAll e TERMINATION_SIGNAL_RECEIVED).

Definition setCompanion (service : bool) s : Service :=
  let p := mProcessor s in
  let '(calls, pm) := SetStatsCompanionService service (sh_pullers (lp_shared p)) in
  set_companion service (set_processor (record_calls (PullerCall <$> calls) (on_shared (set_pullerManager pm) p)) s).

(** [statsCompanionServiceDiedImpl]: every configuration is built again, and what was active stays so. *)
Definition restartProcessor (e : Env) (p : StatsLogProcessor M) : option (StatsLogProcessor M) :=
  let active := WriteActiveConfigsToProtoOutputStream e (e_elapsed e) STATSCOMPANION_DIED p in
  let metadata := WriteMetadataToProto (e_wallNs e) (e_elapsed e) p in
  p ← WriteDataToDisk lib e STATSCOMPANION_DIED FAST (e_elapsed e) p;
  p ← resetConfigs lib e p;
  let p := match lib_parseActive lib (lib_writeActive lib active) with
           | Some configs => SetConfigsActiveState e configs (e_elapsed e) p
           | None => p
           end in
  Some (SetMetadataState metadata (e_wallNs e) (e_elapsed e) p).

Definition statsCompanionServiceDied (e : Env) s : option Service :=
  s ← onProcessor (restartProcessor e) (set_stats (noteSystemServerRestart (wrap32 (e_wallSec e)) (mStats s)) s);
  Some (setCompanion false s).

Definition sayHiToStatsCompanion (companion : bool) s : Service := if companion then call StatsdReady s else s.

(** One turn of the loop of [readLogs]; the shell subscriber gets the event too (ShellSubscriber.v). *)
Definition readLog (e : Env) (l : Logger) (event : Parsing) s : option Service :=
  onProcessor (OnLogEvent lib (withReceivers (mConfigManager s) e) l event) s.

(** ** Calls through binder *)

Definition Handler : Type := Service → option (Status * Reply * Service).

Definition accept (s : Service) : option (Status * Reply * Service) := Some (Ok, NoReply, s).
Definition refuse (code : Status) s : option (Status * Reply * Service) := Some (code, NoReply, s).

(** [ENFORCE_UID] *)
Definition enforceUid (c : Caller) (uid : Z) (h : Handler) : Handler := λ s, if checkUid c uid then h s else refuse EX_SECURITY s.

Definition kPermissionDump : string := "android.permission.DUMP".
Definition kPermissionRegisterPullAtom : string := "android.permission.REGISTER_STATS_PULL_ATOM".
Definition checkPermission (permission : string) (c : Caller) : bool := lib_checkPermission lib permission (c_pid c) (c_uid c).

Definition informAllUidData (e : Env) (c : Caller) (uidData : option (list (Z * string * AppData))) : Handler :=
  enforceUid c AID_SYSTEM (λ s,
    match uidData with
    | None => refuse EX_ILLEGAL_ARGUMENT s
    | Some apps =>
        s ← onProcessor (onUidMapChange e (updateMap (lib_bytesChangeRecord lib) (e_elapsed e) apps)) s;
        accept (markCondition kUidMapReceivedTag s)
    end).

Definition informOnePackage (e : Env) (c : Caller) (app : string) (uid version : Z) (versionString installer : string) : Handler :=
  enforceUid c AID_SYSTEM (λ s,
    s ← onProcessor (onUidMapChange e (updateApp (lib_bytesChangeRecord lib) (e_elapsed e) app uid version versionString installer)) s;
    accept s).

Definition informOnePackageRemoved (e : Env) (c : Caller) (app : string) (uid : Z) : Handler :=
  enforceUid c AID_SYSTEM (λ s,
    s ← onProcessor (onUidMapChange e (removeApp (lib_bytesChangeRecord lib) (e_elapsed e) app uid)) s;
    s ← removeConfigsOf e uid s;
    accept s).

(** Anomaly alarms are handled by the processor. *)
Definition informAnomalyAlarmFired (c : Caller) : Handler := enforceUid c AID_SYSTEM accept.

Definition informAlarmForSubscriberTriggeringFired (e : Env) (c : Caller) (alarmSet : list InternalAlarm) : Handler :=
  enforceUid c AID_SYSTEM (λ s,
    let currentTimeSec := Z.quot (e_elapsed e) NS_PER_SEC in
    match alarmSet with
    | [] => accept s
    | _ => accept (set_processor (processor_onPeriodicAlarmFired (currentTimeSec * NS_PER_SEC) alarmSet (mProcessor s)) s)
    end).

Definition informPollAlarmFired (e : Env) (c : Caller) : Handler :=
  enforceUid c AID_SYSTEM (λ s, s ← onProcessor (informPullAlarmFired lib e (e_elapsed e)) s; accept s).

Definition systemRunning (c : Caller) (companion : bool) : Handler :=
  enforceUid c AID_SYSTEM (λ s, accept (sayHiToStatsCompanion companion s)).

Definition informDeviceShutdown (e : Env) (c : Caller) : Handler :=
  enforceUid c AID_SYSTEM (λ s, s ← onProcessor (saveAll e DEVICE_SHUTDOWN) s; accept s).

Definition statsCompanionReady (c : Caller) (companion : bool) : Handler :=
  enforceUid c AID_SYSTEM (λ s, if companion then accept (setCompanion true s) else refuse EX_NULL_POINTER s).

Definition bootCompleted (c : Caller) : Handler :=
  enforceUid c AID_SYSTEM (λ s, accept (markCondition kBootCompleteTag s)).

Definition allPullersFromBootRegistered (c : Caller) : Handler :=
  enforceUid c AID_SYSTEM (λ s, accept (markCondition kAllPullersRegisteredTag s)).

Definition getData (e : Env) (c : Caller) (key callingUid : Z) : Handler :=
  enforceUid c AID_SYSTEM (λ s,
    '(reports, p) ← onDumpReport lib e (callingUid, key) (e_elapsed e) false true GET_DATA_CALLED FAST (mProcessor s);
    Some (Ok, Reports reports, set_processor p s)).

Definition getMetadata (e : Env) (c : Caller) : Handler :=
  enforceUid c AID_SYSTEM (λ s,
    let '(message, st) := dumpStats (e_wallSec e) false (mStats s) in
    Some (Ok, StatsMessage message, set_stats st s)).

(** [config]: [None] when it does not parse; an empty one is the default configuration. *)
Definition addConfiguration (e : Env) (c : Caller) (key : Z) (config : option Config) (callingUid : Z) : Handler :=
  enforceUid c AID_SYSTEM (λ s,
    match config with
    | None => refuse EX_ILLEGAL_ARGUMENT s
    | Some cfg => s ← updateConfigOf e (callingUid, key) cfg s; accept s
    end).

Definition removeConfiguration (e : Env) (c : Caller) (key callingUid : Z) : Handler :=
  enforceUid c AID_SYSTEM (λ s, s ← removeConfigOf e (callingUid, key) s; accept s).

Definition setDataFetchOperation (c : Caller) (key pir callingUid : Z) : Handler :=
  enforceUid c AID_SYSTEM (λ s,
    let configKey := (callingUid, key) in
    let s := set_configManager (SetConfigReceiver configKey pir (mConfigManager s)) s in
    accept (if hasConfigMetricsReport configKey (dataDir (mDisk (mProcessor s)))
          then set_processor (noteOnDiskData configKey (mProcessor s)) s else s)).

Definition removeDataFetchOperation (c : Caller) (key callingUid : Z) : Handler :=
  enforceUid c AID_SYSTEM (λ s, accept (set_configManager (RemoveConfigReceiver (callingUid, key) (mConfigManager s)) s)).

Definition setActiveConfigsChangedOperation (c : Caller) (pir callingUid : Z) : Handler :=
  enforceUid c AID_SYSTEM (λ s,
    Some (Ok, Ids (GetActiveConfigs callingUid (mProcessor s)),
          set_configManager (SetActiveConfigsChangedReceiver callingUid pir (mConfigManager s)) s)).

Definition removeActiveConfigsChangedOperation (c : Caller) (callingUid : Z) : Handler :=
  enforceUid c AID_SYSTEM (λ s,
    accept (set_configManager (RemoveActiveConfigsChangedReceiver callingUid (mConfigManager s)) s)).

Definition service_setBroadcastSubscriber (c : Caller) (configId subscriberId pir callingUid : Z) : Handler :=
  enforceUid c AID_SYSTEM (λ s,
    accept (set_reporter (setBroadcastSubscriber (callingUid, configId) subscriberId pir (mReporter s)) s)).

Definition service_unsetBroadcastSubscriber (c : Caller) (configId subscriberId callingUid : Z) : Handler :=
  enforceUid c AID_SYSTEM (λ s,
    accept (set_reporter (unsetBroadcastSubscriber (callingUid, configId) subscriberId (mReporter s)) s)).

Definition onPullers (f : StatsPullerManager → StatsPullerManager) s : Service :=
  set_processor (on_shared (λ sh, set_pullerManager (f (sh_pullers sh)) sh) (mProcessor s)) s.

Definition registerCallback (uid atomTag coolDownMillis timeoutMillis : Z) (additiveFields : list Z) (callback : bool) s : Service :=
  onPullers (RegisterPullAtomCallback uid atomTag (MillisToNano coolDownMillis) (MillisToNano timeoutMillis) additiveFields callback) s.

Definition registerPullAtomCallback (c : Caller) (uid atomTag coolDownMillis timeoutMillis : Z) (additiveFields : list Z)
    (callback : bool) : Handler :=
  enforceUid c AID_SYSTEM (λ s, accept (registerCallback uid atomTag coolDownMillis timeoutMillis additiveFields callback s)).

Definition registerNativePullAtomCallback (c : Caller) (atomTag coolDownMillis timeoutMillis : Z) (additiveFields : list Z)
    (callback : bool) : Handler := λ s,
  if negb (checkPermission kPermissionRegisterPullAtom c) then refuse EX_SECURITY s
  else accept (registerCallback (wrap32 (c_uid c)) atomTag coolDownMillis timeoutMillis additiveFields callback s).

Definition unregisterPullAtomCallback (c : Caller) (uid atomTag : Z) : Handler :=
  enforceUid c AID_SYSTEM (λ s, accept (onPullers (UnregisterPullAtomCallback uid atomTag) s)).

Definition unregisterNativePullAtomCallback (c : Caller) (atomTag : Z) : Handler := λ s,
  if negb (checkPermission kPermissionRegisterPullAtom c) then refuse EX_SECURITY s
  else accept (onPullers (UnregisterPullAtomCallback (wrap32 (c_uid c)) atomTag) s).

Definition getRegisteredExperimentIds (e : Env) (c : Caller) : Handler :=
  enforceUid c AID_SYSTEM (λ s,
    let k := mDisk (mProcessor s) in
    '(trains, d) ← readAllTrainInfo (lib_sortFiles lib) (e_wallSec e) (trainInfoDir k);
    Some (Ok, Ids (concat (experimentIds <$> trains)),
          set_processor (on_shared (set_disk (set_trainInfoDir d k)) (mProcessor s)) s)).

(** ** Commands of the shell *)

Definition Command : Type := Service → option (CommandStatus * Reply * Service).

Definition finish s : option (CommandStatus * Reply * Service) := Some (NO_ERROR, NoReply, s).
Definition failed s : option (CommandStatus * Reply * Service) := Some (UNKNOWN_ERROR, NoReply, s).

Definition callingUid (c : Caller) : Z := wrap32 (c_uid c).

(** The uid and the name of arguments with an optional uid. *)
Definition uidAndName (c : Caller) (args : list string) s : option (Z * string) :=
  match args with
  | [name] => Some (callingUid c, name)
  | [uid; name] => (λ uid, (uid, name)) <$> getUidFromString (mEngBuild s) c uid
  | _ => None
  end.

Definition cmd_trigger_broadcast (e : Env) (c : Caller) (args : list string) : Command := λ s,
  match uidAndName c (tail args) s with
  | None => failed s
  | Some (uid, name) =>
      let key := (uid, StrToInt64 name) in
      match GetConfigReceiver key (mConfigManager s) with
      | None => failed s
      | Some pir =>
          let s := call (SendDataBroadcast pir (processor_getLastReportTimeNs key (mProcessor s))) s in
          if e_sendBroadcast e key then finish s else failed s
      end
  end.

Definition sendActiveConfigs (e : Env) (uid : Z) (configIds : list Z) : Command := λ s,
  match GetActiveConfigsChangedReceiver uid (mConfigManager s) with
  | None => failed s
  | Some pir =>
      let s := call (SendActiveConfigsChangedBroadcast pir configIds) s in
      if e_sendActivationBroadcast e uid configIds then finish s else failed s
  end.

(** The arguments after [--uid=]. *)
Definition activeConfigArgs (e : Env) (uid : Z) (args : list string) : Command := λ s,
  let active := sendActiveConfigs e uid (GetActiveConfigs uid (mProcessor s)) s in
  match args with
  | [] => active
  | flag :: names =>
      if String.eqb flag "--configs" then
        match mapM parseConfigId names with
        | Some configIds => sendActiveConfigs e uid configIds s
        | None => failed s
        end
      else active
  end.

Definition cmd_trigger_active_config_broadcast (e : Env) (c : Caller) (args : list string) : Command := λ s,
  match tail args with
  | [] => sendActiveConfigs e (callingUid c) (GetActiveConfigs (callingUid c) (mProcessor s)) s
  | arg :: rest =>
      if String.prefix "--uid=" arg then
        match getUidFromString (mEngBuild s) c (String.substring 6 (String.length arg - 6) arg) with
        | None => failed s
        | Some uid => activeConfigArgs e uid rest s
        end
      else activeConfigArgs e (callingUid c) (arg :: rest) s
  end.

Definition cmd_remove_all_configs (e : Env) s : option Service :=
  s ← onConfigs e (λ m k, let '(calls, m) := RemoveAllConfigs m in Some (calls, m, k)) s;
  let k := mDisk (mProcessor s) in
  Some (set_processor (on_shared (set_disk (mkDisk (deleteAllFiles (serviceDir k)) (dataDir k) (trainInfoDir k))) (mProcessor s)) s).

(** [input]: the configuration on the standard input, [None] when it could not be read or parsed. *)
Definition cmd_config (e : Env) (c : Caller) (args : list string) (input : option Config) : Command := λ s,
  match args with
  | _ :: command :: args =>
      if String.eqb command "update" then
        match uidAndName c args s with
        | None => failed s
        | Some (uid, name) =>
            match parseConfigId name, input with
            | Some configID, Some config => s ← updateConfigOf e (uid, configID) config s; finish s
            | _, _ => failed s
            end
        end
      else if String.eqb command "remove" then
        match args with
        | [] => s ← cmd_remove_all_configs e s; finish s
        | _ =>
            match uidAndName c args s with
            | None => failed s
            | Some (uid, name) => s ← removeConfigOf e (uid, StrToInt64 name) s; finish s
            end
        end
      else failed s
  | _ => failed s
  end.

(** Whether the last argument is a flag, and the arguments before it. *)
Definition stripFlag (flag : string) (args : list string) : bool * list string :=
  if bool_decide (last args = Some flag) then (true, removelast args) else (false, args).

Definition cmd_dump_report (e : Env) (c : Caller) (args : list string) : Command := λ s,
  let '(proto, args) := stripFlag "--proto" args in
  let '(includeCurrentBucket, args) := stripFlag "--include_current_bucket" args in
  let '(keepData, args) := stripFlag "--keep_data" args in
  match uidAndName c (tail args) s with
  | None => failed s
  | Some (uid, name) =>
      '(data, p) ← onDumpReport lib e (uid, StrToInt64 name) (e_elapsed e) includeCurrentBucket (negb keepData) ADB_DUMP
                     NO_TIME_CONSTRAINTS (mProcessor s);
      Some (NO_ERROR, if proto then Reports data else NoReply, set_processor p s)
  end.

(** The statistics as a message; otherwise text. *)
Definition cmd_print_stats (e : Env) (args : list string) : Command := λ s,
  if (stripFlag "--proto" args).1 then
    let '(message, st) := dumpStats (e_wallSec e) false (mStats s) in
    Some (NO_ERROR, StatsMessage message, set_stats st s)
  else finish s.

Definition cmd_print_uid_map (args : list string) : Command := λ s,
  match args with
  | _ :: pkg :: _ => Some (NO_ERROR, Ids (getAppUid pkg (mUidMap (mProcessor s))), s)
  | _ => finish s
  end.

Definition cmd_write_data_to_disk (e : Env) : Command := λ s,
  s ← onProcessor (WriteDataToDisk lib e ADB_DUMP NO_TIME_CONSTRAINTS (e_elapsed e)) s; finish s.

Definition cmd_log_app_breadcrumb (c : Caller) (args : list string) : Command := λ s,
  match tail args with
  | [label; state] => finish (call (WriteAppBreadcrumb (callingUid c) (atoi label) (atoi state)) s)
  | [uid; label; state] =>
      match getUidFromString (mEngBuild s) c uid with
      | Some uid => finish (call (WriteAppBreadcrumb uid (atoi label) (atoi state)) s)
      | None => failed s
      end
  | _ => failed s
  end.

(** The flags are strings passed where a [bool] is expected: they are converted to a pointer, which is not null. *)
Definition binaryPushEvent (e : Env) (name version state : string) (ids : list Z) : Parsing :=
  LogEvent_binaryPush (lib_atoms lib) (e_elapsed e) name (strtoll10OrZero version) true true true (atoi state)
    (writeExperimentIdsToProto (lib_protoWrite lib) ids) 0.

Definition cmd_log_binary_push (e : Env) (c : Caller) (args : list string) : Command := λ s,
  let logged event := (s ← readLog e (mkLogger (c_uid c) (c_pid c)) event s; finish s) in
  match tail args with
  | [name; version; _; _; _; state] => logged (binaryPushEvent e name version state [])
  | [name; version; _; _; _; state; ids] => logged (binaryPushEvent e name version state (strtoll10OrZero <$> splitCommas ids))
  | _ => failed s
  end.

Definition pullUids (package : option string) (u : UidMap) : list Z :=
  match package with
  | None => [AID_SYSTEM]
  | Some package => match sAidToUidMapping (U := UidMap) package with Some uid => [uid] | None => getAppUid package u end
  end.

(** [args] holds an atom. *)
Definition cmd_print_pulled_metrics (e : Env) (args : list string) : Command := λ s,
  let p := mProcessor s in
  '(r, pm) ← manager_PullUids (lib_sortEvents lib) (mUidMap p) (pullWorld e p) (atoi (default EmptyString (args !! 1%nat)))
               (pullUids (args !! 2%nat) (mUidMap p)) (e_elapsed e) (sh_pullers (lp_shared p));
  let s := set_processor (on_shared (set_pullerManager pm) p) s in
  match r with
  | Some events => Some (NO_ERROR, PulledEvents events, s)
  | None => failed s
  end.

Definition cmd_clear_puller_cache (c : Caller) : Command := λ s,
  if checkPermission kPermissionDump c then
    let '(cleared, pm) := ForceClearPullerCache (sh_pullers (lp_shared (mProcessor s))) in
    Some (NO_ERROR, Cleared cleared, set_processor (on_shared (set_pullerManager pm) (mProcessor s)) s)
  else Some (PERMISSION_DENIED, NoReply, s).

Definition cmd_print_logs (c : Caller) (args : list string) : Command := λ s,
  if negb (checkUid c AID_ROOT) then Some (PERMISSION_DENIED, NoReply, s)
  else finish (set_printLogs (match args with _ :: arg :: _ => negb (atoi arg =? 0) | _ => true end) s).

Definition handleShellCommand (e : Env) (c : Caller) (args : list string) (input : option Config) : Command := λ s,
  if negb (c_uid c =? AID_ROOT) && negb (c_uid c =? AID_SHELL) then Some (PERMISSION_DENIED, NoReply, s)
  else
    match args with
    | [] => finish s
    | command :: rest =>
        if String.eqb command "config" then cmd_config e c args input s
        else if String.eqb command "print-uid-map" then cmd_print_uid_map args s
        else if String.eqb command "dump-report" then cmd_dump_report e c args s
        else if String.eqb command "pull-source" && (1 <? length args)%nat then cmd_print_pulled_metrics e args s
        else if String.eqb command "send-broadcast" then cmd_trigger_broadcast e c args s
        else if String.eqb command "print-stats" then cmd_print_stats e args s
        else if String.eqb command "meminfo" then finish s
        else if String.eqb command "write-to-disk" then cmd_write_data_to_disk e s
        else if String.eqb command "log-app-breadcrumb" then cmd_log_app_breadcrumb c args s
        else if String.eqb command "log-binary-push" then cmd_log_binary_push e c args s
        else if String.eqb command "clear-puller-cache" then cmd_clear_puller_cache c s
        else if String.eqb command "print-logs" then cmd_print_logs c args s
        else if String.eqb command "send-active-configs" then cmd_trigger_active_config_broadcast e c args s
        else if String.eqb command "data-subscribe" then
          finish (call (StartNewSubscription (match rest with timeout :: _ => atoi timeout | [] => -1 end)) s)
        else finish s
    end.

(** ** dumpsys *)

(** The reports of all configurations; the data stay. *)
Definition dumpIncidentSection (e : Env) s : option (list (list (list Z)) * Service) :=
  foldl (λ r key,
    '(reports, s) ← r;
    '(report, p) ← onDumpReport lib e key (e_elapsed e) false false ADB_DUMP FAST (mProcessor s);
    Some (reports ++ [report], set_processor p s)) (Some ([], s)) (GetAllConfigKeys (mConfigManager s)).

Definition service_dump (e : Env) (c : Caller) (args : list string) : Command := λ s,
  if negb (checkPermission kPermissionDump c) then Some (PERMISSION_DENIED, NoReply, s)
  else
    let asProto := (stripFlag "--proto" args).1 in
    if bool_decide (head args = Some "--metadata"%string) then
      if asProto then
        let '(message, st) := dumpStats (e_wallSec e) false (mStats s) in
        Some (NO_ERROR, StatsMessage message, set_stats st s)
      else finish s
    else if asProto then
      '(reports, s) ← dumpIncidentSection e s;
      Some (NO_ERROR, Reports (concat reports), s)
    else finish s.
End service.
