(* ===== verification/ServiceFacts.v ===== *)
(** * Facts on the service

    The trigger of the end of the boot fires once; only the callers that may do so change configurations; the log
    processor has managers for configurations that are set only. *)
From S2P Require Import Prelude Hash UMap FieldValue DimensionKey Matchers LogEvent UidMap MatcherTrackers.
From S2P Require Import Conditions Alarms Anomaly State MetricProducer CountMetric MetricShared AnyMetric.
From S2P Require Import Sorting Storage Pullers MetricsConfig MetricsManager ManagerOps TrainEvents LogProcessor.
From S2P Require Import MetricsManagerFacts LogProcessorFacts ProcessorEvents ProcessorInvariants ProcessorData.
From S2P Require Import ProtoOutput StatsdStats Subscribers ConfigManager Service.

(** ** The trigger *)

(** How often the trigger fires over a sequence of completed conditions. *)
Definition runMarks (marks : list string) (r : nat * MultiConditionTrigger) : nat * MultiConditionTrigger :=
  foldl (λ '(n, t) mark, let '(fires, t) := markComplete mark t in (if fires then S n else n, t)) r marks.

Lemma runMarks_spec names marks : names ≠ ∅ →
  runMarks marks (0%nat, (MultiConditionTrigger_new names).2)
  = if bool_decide (names ⊆ list_to_set marks) then (1%nat, mkTrigger ∅ true) else (0%nat, mkTrigger (names ∖ list_to_set marks) false).
Proof.
  intros Hne. induction marks as [|mark marks IH] using rev_ind.
  - cbn. rewrite !bool_decide_false by set_solver. f_equal. f_equal. set_solver.
  - unfold runMarks in *. rewrite foldl_app, IH. clear IH. cbn [foldl]. rewrite list_to_set_app_L. cbn [list_to_set].
    case_bool_decide as H1; [by rewrite bool_decide_true by set_solver|].
    unfold markComplete. cbn [mCompleted mRemainingConditionNames].
    replace (names ∖ list_to_set marks ∖ {[mark]}) with (names ∖ (list_to_set marks ∪ ({[mark]} ∪ ∅))) by set_solver.
    case_bool_decide as H2.
    + rewrite bool_decide_true; [by rewrite H2|]. intros x Hx. destruct (decide (x ∈ (list_to_set marks ∪ ({[mark]} ∪ ∅) : gset string))); [done|]. set_solver.
    + by rewrite bool_decide_false by set_solver.
Qed.

(** The trigger fires exactly once, when the last of its conditions is completed, however often and in whatever order conditions, and
    others that it does not wait for, are completed. *)
Theorem trigger_fires_once names marks : names ≠ ∅ →
  (runMarks marks (0%nat, (MultiConditionTrigger_new names).2)).1 = if bool_decide (names ⊆ list_to_set marks) then 1%nat else 0%nat.
Proof. intros H. rewrite runMarks_spec by done. by case_bool_decide. Qed.

Section facts.
Context {M Config : Type} `{Hops : ManagerOps M Config} (lib : Library Config).
Notation Service := (StatsService M).
Implicit Types s : Service.

(** ** The managers that an operation of the processor leaves *)

(** No configuration gets a manager. *)
Definition fewer (p q : StatsLogProcessor M) : Prop := ∀ key, is_Some (managerOf key q) → is_Some (managerOf key p).
#[local] Instance fewer_preorder : PreOrder fewer.
Proof using. split; unfold fewer; [by intros p|naive_solver]. Qed.

Lemma links_fewer p q : keepsLinks p q → fewer p q.
Proof using.
  intros (H & _) key. unfold managerOf. rewrite !fmap_is_Some. unfold addresses in H.
  apply (f_equal (.!! key)) in H. rewrite !lookup_fmap in H. destruct (mMetricsManagers q !! key), (mMetricsManagers p !! key); try done.
Qed.

Lemma same_managers_fewer p q : mMetricsManagers q = mMetricsManagers p → fewer p q.
Proof using. intros H key. unfold managerOf. by rewrite H. Qed.

Lemma erase_fewer key p : fewer p (eraseManager key p).
Proof using. intros key'. rewrite managerOf_erase. case_bool_decide; [by intros [? ?]|done]. Qed.

Lemma configUpdated_only e t key config modular p q key' :
  OnConfigUpdatedLocked e t key config modular p = Some q → key' ≠ key → is_Some (managerOf key' q) → is_Some (managerOf key' p).
Proof using.
  intros H Hne. assert (Hr : replaceConfig e t key config p = Some q → is_Some (managerOf key' q) → is_Some (managerOf key' p)).
  { intros E%replace_managers. by rewrite (rt_other _ _ _ _ _ _ E key' Hne). }
  revert H. unfold OnConfigUpdatedLocked. destruct (_ !! key) as [x|]; [destruct modular|]; [|exact Hr..].
  unfold updateConfigInPlace. destruct (mo_updateConfig _ _ _ _ _ _) as [m| |]; [|intros [= <-]; apply erase_fewer|done].
  cbv zeta. destruct (registerReceivers _ _ _) as [calls pm]. intros [= <-]. destruct (mo_isConfigValid m).
  - unfold managerOf. cbn. by rewrite lookup_alter_ne.
  - intros H%erase_fewer. revert H. unfold managerOf. cbn. by rewrite lookup_alter_ne.
Qed.

Lemma reset_only e t keys key : ∀ p q,
  resetConfigsLocked lib e t keys p = Some q → is_Some (managerOf key q) → is_Some (managerOf key p) ∨ key ∈ keys.
Proof using.
  unfold resetConfigsLocked, foldKeys. induction keys as [|k keys IH]; intros p q H Hk; cbn [foldl] in H; [injection H as <-; by left|].
  cbn [mbind option_bind] in H. destruct (resetConfig lib e t k p) as [p1|] eqn:E.
  - destruct (IH p1 q H Hk) as [H1|H1]; [|right; by right]. apply resetConfig_step in E as (_ & _ & E & _).
    destruct (decide (key = k)) as [->|Hne]; [right; by left|]. left. by rewrite <- (E key Hne).
  - exfalso. clear -H. by induction keys.
Qed.

Lemma managerKeys_elem key (p : StatsLogProcessor M) : key ∈ managerKeys p ↔ is_Some (managerOf key p).
Proof using.
  unfold managerKeys, managerOf. rewrite fmap_is_Some, list_elem_of_fmap. split.
  - intros ([k x] & -> & H%elem_of_map_to_list). by exists x.
  - intros [x Hx]. exists (key, x). split; [done|]. by apply elem_of_map_to_list.
Qed.

Lemma reset_fewer e p q : resetConfigs lib e p = Some q → fewer p q.
Proof using. intros H key Hk. destruct (reset_only _ _ _ key _ _ H Hk) as [?|Hin]; [done|]. by apply managerKeys_elem. Qed.

Lemma ttl_fewer e t p q : resetIfConfigTtlExpiredLocked lib e t p = Some q → fewer p q.
Proof using.
  unfold resetIfConfigTtlExpiredLocked. destruct (expiredKeys t p) as [|k keys] eqn:Ek; [by intros [= <-]|]. rewrite <- Ek. clear Ek.
  intros (p1 & E1%links_writeData%links_fewer & E2)%bind_Some key Hk. destruct (reset_only _ _ _ key _ _ E2 Hk) as [H|H]; [by apply E1|].
  apply managerKeys_elem. unfold expiredKeys, managerKeys in *. apply list_elem_of_fmap in H as (kv & -> & H).
  apply list_elem_of_fmap. exists kv. split; [done|]. apply list_elem_of_In in H. apply list_elem_of_In. by apply filter_In in H as [? _].
Qed.

Lemma event_fewer e l event p q : OnLogEvent lib e l event p = Some q → fewer p q.
Proof using.
  intros [H%links_fewer|(t & p1 & p2 & H1%links_fewer & H2%ttl_fewer & H3%links_fewer)]%event_links; [done|]. etrans; [exact H1|]. by etrans.
Qed.

Lemma removed_fewer e key p q :
  processor_OnConfigRemoved lib e key p = Some q → fewer p q ∧ managerOf key q = None.
Proof using.
  intros [[H%links_fewer Hn]|(p1 & H1%links_fewer & H2%links_fewer)]%removed_links.
  - split; [done|]. apply eq_None_not_Some. intros [m Hm]%H. unfold managerOf in Hm. by rewrite Hn in Hm.
  - split; [etrans; [exact H1|]; etrans; [apply (erase_fewer key)|exact H2]|]. apply eq_None_not_Some. intros [m Hm]%H2.
    rewrite managerOf_erase, bool_decide_true in Hm; done.
Qed.

(** ** What the processor hears *)

(** The managers are those of configurations in [K]. *)
Definition managedIn (K : gset ConfigKey) (p : StatsLogProcessor M) : Prop := ∀ key, is_Some (managerOf key p) → key ∈ K.

Lemma managedIn_fewer K p q : fewer p q → managedIn K p → managedIn K q.
Proof using. intros H1 H2 key Hk. by apply H2, H1. Qed.

Lemma hearConfigs_managed e calls : ∀ K p q,
  managedIn K p → hearConfigs lib e calls p = Some q → managedIn (heard 0 K calls) q.
Proof using.
  unfold hearConfigs, heard. induction calls as [|call calls IH]; intros K p q Hp H; cbn [foldl] in H |- *; [by injection H as <-|].
  cbn [mbind option_bind] in H. destruct (hearConfig lib e call p) as [p1|] eqn:E; [|exfalso; clear -H; by induction calls].
  apply (IH _ p1); [|exact H]. clear H IH. destruct call as [l t key config|l key]; cbn [hear hearConfig] in *;
    (destruct (l =? 0); [|by injection E as <-]).
  - unfold processor_OnConfigUpdated in E. apply bind_Some in E as (p2 & E1%links_writeConfig%links_fewer & E2). intros key' Hk.
    destruct (decide (key' = key)) as [->|Hne]; [set_solver|]. apply elem_of_union_r, Hp, E1. by eapply configUpdated_only.
  - apply removed_fewer in E as [H1 H2]. intros key' Hk. apply elem_of_difference. split; [by apply Hp, H1|].
    intros ->%elem_of_singleton. rewrite H2 in Hk. by destruct Hk.
Qed.

(** ** Requests *)

Context (serialize : Config → list Z).

(** What another process can ask of the service. *)
Inductive Request :=
  | InformAllUidData (e : Env) (uidData : option (list (Z * string * AppData)))
  | InformOnePackage (e : Env) (app : string) (uid version : Z) (versionString installer : string)
  | InformOnePackageRemoved (e : Env) (app : string) (uid : Z)
  | InformAnomalyAlarmFired
  | InformPeriodicAlarmFired (e : Env) (alarmSet : list InternalAlarm)
  | InformPollAlarmFired (e : Env)
  | SystemRunning (companion : bool)
  | InformDeviceShutdown (e : Env)
  | StatsCompanionReady (companion : bool)
  | BootCompleted
  | AllPullersFromBootRegistered
  | GetData (e : Env) (key uid : Z)
  | GetMetadata (e : Env)
  | AddConfiguration (e : Env) (key : Z) (config : option Config) (uid : Z)
  | RemoveConfiguration (e : Env) (key uid : Z)
  | SetDataFetchOperation (key pir uid : Z)
  | RemoveDataFetchOperation (key uid : Z)
  | SetActiveConfigsChangedOperation (pir uid : Z)
  | RemoveActiveConfigsChangedOperation (uid : Z)
  | SetBroadcastSubscriber (configId subscriberId pir uid : Z)
  | UnsetBroadcastSubscriber (configId subscriberId uid : Z)
  | RegisterPullAtom (uid atomTag coolDownMillis timeoutMillis : Z) (additiveFields : list Z) (callback : bool)
  | RegisterNativePullAtom (atomTag coolDownMillis timeoutMillis : Z) (additiveFields : list Z) (callback : bool)
  | UnregisterPullAtom (uid atomTag : Z)
  | UnregisterNativePullAtom (atomTag : Z)
  | GetRegisteredExperimentIds (e : Env)
  | ShellCommand (e : Env) (args : list string) (input : option Config)
  | Dump (e : Env) (args : list string).

Definition servedBinder (r : option (Status * Reply * Service)) : option Service := snd <$> r.
Definition servedCommand (r : option (CommandStatus * Reply * Service)) : option Service := snd <$> r.

Definition serveRequest (c : Caller) (r : Request) s : option Service :=
  match r with
  | InformAllUidData e d => servedBinder (informAllUidData lib e c d s)
  | InformOnePackage e app uid version vs inst => servedBinder (informOnePackage lib e c app uid version vs inst s)
  | InformOnePackageRemoved e app uid => servedBinder (informOnePackageRemoved lib e c app uid s)
  | InformAnomalyAlarmFired => servedBinder (informAnomalyAlarmFired c s)
  | InformPeriodicAlarmFired e alarms => servedBinder (informAlarmForSubscriberTriggeringFired e c alarms s)
  | InformPollAlarmFired e => servedBinder (informPollAlarmFired lib e c s)
  | SystemRunning companion => servedBinder (systemRunning c companion s)
  | InformDeviceShutdown e => servedBinder (informDeviceShutdown lib e c s)
  | StatsCompanionReady companion => servedBinder (statsCompanionReady c companion s)
  | BootCompleted => servedBinder (bootCompleted c s)
  | AllPullersFromBootRegistered => servedBinder (allPullersFromBootRegistered c s)
  | GetData e key uid => servedBinder (getData lib e c key uid s)
  | GetMetadata e => servedBinder (getMetadata e c s)
  | AddConfiguration e key config uid => servedBinder (addConfiguration lib serialize e c key config uid s)
  | RemoveConfiguration e key uid => servedBinder (removeConfiguration lib e c key uid s)
  | SetDataFetchOperation key pir uid => servedBinder (setDataFetchOperation c key pir uid s)
  | RemoveDataFetchOperation key uid => servedBinder (removeDataFetchOperation c key uid s)
  | SetActiveConfigsChangedOperation pir uid => servedBinder (setActiveConfigsChangedOperation c pir uid s)
  | RemoveActiveConfigsChangedOperation uid => servedBinder (removeActiveConfigsChangedOperation c uid s)
  | SetBroadcastSubscriber configId id pir uid => servedBinder (service_setBroadcastSubscriber c configId id pir uid s)
  | UnsetBroadcastSubscriber configId id uid => servedBinder (service_unsetBroadcastSubscriber c configId id uid s)
  | RegisterPullAtom uid tag cool timeout fields cb => servedBinder (registerPullAtomCallback c uid tag cool timeout fields cb s)
  | RegisterNativePullAtom tag cool timeout fields cb => servedBinder (registerNativePullAtomCallback lib c tag cool timeout fields cb s)
  | UnregisterPullAtom uid tag => servedBinder (unregisterPullAtomCallback c uid tag s)
  | UnregisterNativePullAtom tag => servedBinder (unregisterNativePullAtomCallback lib c tag s)
  | GetRegisteredExperimentIds e => servedBinder (getRegisteredExperimentIds lib e c s)
  | ShellCommand e args input => servedCommand (handleShellCommand lib serialize e c args input s)
  | Dump e args => servedCommand (service_dump lib e c args s)
  end.

(** A caller that is neither the system nor the shell and has no permission. *)
Definition outsider (c : Caller) : Prop :=
  checkUid c AID_SYSTEM = false ∧ c_uid c ≠ AID_SHELL ∧ checkPermission lib kPermissionRegisterPullAtom c = false ∧
  checkPermission lib kPermissionDump c = false.

Lemma outsider_refused c r s : outsider c → serveRequest c r s = Some s.
Proof using.
  intros (H1 & H2 & H3 & H4). destruct r; cbn [serveRequest];
    lazymatch goal with
    | |- context [registerNativePullAtomCallback] => unfold registerNativePullAtomCallback; by rewrite H3
    | |- context [unregisterNativePullAtomCallback] => unfold unregisterNativePullAtomCallback; by rewrite H3
    | |- context [handleShellCommand] => idtac
    | |- context [service_dump] => unfold service_dump; by rewrite H4
    | |- servedBinder ?h = _ => let h := eval unfold informAllUidData, informOnePackage, informOnePackageRemoved, informAnomalyAlarmFired,
          informAlarmForSubscriberTriggeringFired, informPollAlarmFired, systemRunning, informDeviceShutdown, statsCompanionReady,
          bootCompleted, allPullersFromBootRegistered, getData, getMetadata, addConfiguration, removeConfiguration, setDataFetchOperation,
          removeDataFetchOperation, setActiveConfigsChangedOperation, removeActiveConfigsChangedOperation, service_setBroadcastSubscriber,
          service_unsetBroadcastSubscriber, registerPullAtomCallback, unregisterPullAtomCallback, getRegisteredExperimentIds, enforceUid in h in
        change (servedBinder h = Some s); by rewrite H1
    end.
  unfold handleShellCommand. unfold checkUid in H1. apply orb_false_iff in H1 as [_ ->]. rewrite (proj2 (Z.eqb_neq _ _) H2). done.
Qed.

(** ** What a request changes *)

(** The configurations stay, and no configuration gets a manager. *)
Definition steady s s' : Prop :=
  mConfigs (mConfigManager s') = mConfigs (mConfigManager s) ∧ mListeners (mConfigManager s') = mListeners (mConfigManager s) ∧
  fewer (mProcessor s) (mProcessor s').
#[local] Instance steady_preorder : PreOrder steady.
Proof using. split; [by split|]. intros s1 s2 s3 (A1 & A2 & A3) (B1 & B2 & B3). split; [congruence|]. split; [congruence|by etrans]. Qed.

(** The uids whose configurations an operation may change. *)
Definition touches (o : ConfigOp (Config := Config)) (uid : Z) : Prop :=
  match o with
  | CUpdate _ _ key _ | CRemove key => uid = key.1
  | CRemoveUid u => uid = u
  | CRemoveAll => True
  | CAddListener _ | CReceiver _ _ => False
  end.

#[export] Instance touches_dec o uid : Decision (touches o uid).
Proof using. destruct o; cbn [touches]; apply _. Defined.

(** The uids whose configurations a caller may change by a request. *)
Definition mayChange (c : Caller) (r : Request) (engBuild : bool) (uid : Z) : Prop :=
  match r with
  | AddConfiguration _ _ _ u | RemoveConfiguration _ _ u | InformOnePackageRemoved _ _ u => checkUid c AID_SYSTEM = true ∧ uid = u
  | ShellCommand _ args _ =>
      (c_uid c = AID_ROOT ∨ c_uid c = AID_SHELL) ∧
      (args = ["config"; "remove"]%string ∨ engBuild = true ∨ uid = callingUid c ∨ callingUid c = AID_ROOT ∧ uid = AID_SHELL)
  | _ => False
  end.

Definition configStep (e : Env) (o : ConfigOp (Config := Config)) : Service → option Service :=
  onConfigs lib e (stepConfig serialize (lib_sortFiles lib) o).

(** A request changes configurations by at most one operation of the configuration manager. *)
Inductive Served (allowed : Z → Prop) s s' : Prop :=
  | served_steady : steady s s' → Served allowed s s'
  | served_config e o s1 s2 :
      steady s s1 → configStep e o s1 = Some s2 → steady s2 s' → (∀ uid, touches o uid → allowed uid) → Served allowed s s'.

Lemma steady_processor p s : fewer (mProcessor s) p → steady s (set_processor p s).
Proof using. by split. Qed.

Lemma steady_on f s s' : onProcessor f s = Some s' → (∀ p q, f p = Some q → fewer p q) → steady s s'.
Proof using. intros (p & E & [= <-])%bind_Some Hf. by apply steady_processor, Hf. Qed.

Lemma steady_shared f s : steady s (set_processor (on_shared f (mProcessor s)) s).
Proof using. by apply steady_processor, same_managers_fewer. Qed.

Lemma steady_mark tag s : steady s (markCondition tag s).
Proof using. unfold markCondition. destruct (markComplete _ _). by split. Qed.

Lemma served_enforced allowed c uid (h : Handler (M := M)) s s' :
  servedBinder (enforceUid c uid h s) = Some s' → (checkUid c uid = true → servedBinder (h s) = Some s' → Served allowed s s') →
  Served allowed s s'.
Proof using. unfold enforceUid. destruct (checkUid c uid); [auto|]. intros [= <-] _. by apply served_steady. Qed.

Lemma saveActive_fewer e t p : fewer p (SaveActiveConfigsToDisk lib e t p).
Proof using. unfold SaveActiveConfigsToDisk. destruct (coolingDown _ _); [done|]. by apply same_managers_fewer. Qed.

Lemma saveMetadata_fewer e t t' p q : SaveMetadataToDisk lib e t t' p = Some q → fewer p q.
Proof using.
  unfold SaveMetadataToDisk. destruct (coolingDown _ _); [by intros [= <-]|]. cbv zeta.
  destruct (WriteMetadataToProto _ _ _); [intros [= <-]; by apply same_managers_fewer|]. intros (s1 & _ & H)%bind_Some.
  apply bind_Some in H as (s2 & _ & [= <-]). by apply same_managers_fewer.
Qed.

Lemma saveAll_fewer e reason p q : saveAll lib e reason p = Some q → fewer p q.
Proof using.
  unfold saveAll. intros (p1 & E1%links_writeData%links_fewer & E2%saveMetadata_fewer)%bind_Some. etrans; [exact E1|]. etrans; [|exact E2].
  apply saveActive_fewer.
Qed.

Lemma steady_companion b s : steady s (setCompanion b s).
Proof using.
  unfold setCompanion. destruct (SetStatsCompanionService b _) as [calls pm]. split; [done|]. split; [done|]. by apply same_managers_fewer.
Qed.

Lemma steady_pullers f s : steady s (onPullers f s).
Proof using. apply steady_shared. Qed.

Context `{!ManagerLaws M Config}.

(** The last step of a handler or command that first lets the processor do something. *)
Ltac served_by H s1 E := apply fmap_Some in H as ([[st0 rep0] sv0] & H & ->); apply bind_Some in H as (s1 & E & H).

(** Calls through binder. *)
Lemma binder_served c r s s' :
  match r with ShellCommand _ _ _ | Dump _ _ => False | _ => True end →
  serveRequest c r s = Some s' → Served (mayChange c r (mEngBuild s)) s s'.
Proof.
  intros Hr. destruct r; try done; cbn [serveRequest]; intros H;
    try (eapply served_enforced in H; [exact H|]; clear H; intros Hc H).
  - destruct uidData as [apps|]; [|injection H as <-; by apply served_steady]. served_by H s1 E. injection H as <- <- <-.
    apply served_steady. etrans; [|apply steady_mark]. eapply steady_on; [exact E|]. intros p q Hp. by eapply links_fewer, links_uidMap.
  - served_by H s1 E. injection H as <- <- <-.
    apply served_steady. eapply steady_on; [exact E|]. intros p q Hp. by eapply links_fewer, links_uidMap.
  - served_by H s1 E. apply bind_Some in H as (s2 & E2 & [= <- <- <-]).
    eapply (served_config _ _ _ e (CRemoveUid uid) s1 s2); [|exact E2|reflexivity|by intros ? ->].
    eapply steady_on; [exact E|]. intros p q Hp. by eapply links_fewer, links_uidMap.
  - injection H as <-. by apply served_steady.
  - apply served_steady. destruct alarmSet as [|a alarms]; injection H as <-; [reflexivity|]. apply steady_processor, links_fewer, links_periodic.
  - served_by H s1 E. injection H as <- <- <-.
    apply served_steady. eapply steady_on; [exact E|]. intros p q Hp. by eapply links_fewer, links_pull.
  - injection H as <-. apply served_steady. by destruct companion.
  - served_by H s1 E. injection H as <- <- <-. apply served_steady. eapply steady_on; [exact E|]. intros p q. apply saveAll_fewer.
  - apply served_steady. destruct companion; injection H as <-; [apply steady_companion|reflexivity].
  - injection H as <-. apply served_steady, steady_mark.
  - injection H as <-. apply served_steady, steady_mark.
  - apply fmap_Some in H as ([[st0 rep0] sv0] & H & ->). apply bind_Some in H as ([reports p] & E%links_dump%links_fewer & [= <- <- <-]).
    by apply served_steady, steady_processor.
  - injection H as <-. by apply served_steady.
  - destruct config as [config|]; [|injection H as <-; by apply served_steady]. served_by H s1 E. injection H as <- <- <-.
    by eapply (served_config _ _ _ e (CUpdate (e_wallSec e) (e_elapsed e) (uid, key) config) s s1).
  - served_by H s1 E. injection H as <- <- <-. by eapply (served_config _ _ _ e (CRemove (uid, key)) s s1).
  - injection H as <-. apply served_steady. cbn [snd]. split; [by destruct (hasConfigMetricsReport _ _)|].
    split; [by destruct (hasConfigMetricsReport _ _)|]. apply same_managers_fewer. by destruct (hasConfigMetricsReport _ _).
  - injection H as <-. by apply served_steady.
  - injection H as <-. by apply served_steady.
  - injection H as <-. by apply served_steady.
  - injection H as <-. by apply served_steady.
  - injection H as <-. by apply served_steady.
  - injection H as <-. by apply served_steady, steady_pullers.
  - unfold registerNativePullAtomCallback in H. destruct (negb _); injection H as <-; apply served_steady; [reflexivity|apply steady_pullers].
  - injection H as <-. by apply served_steady, steady_pullers.
  - unfold unregisterNativePullAtomCallback in H. destruct (negb _); injection H as <-; apply served_steady; [reflexivity|apply steady_pullers].
  - apply fmap_Some in H as ([[st0 rep0] sv0] & H & ->). apply bind_Some in H as ([trains d] & E & [= <- <- <-]). by apply served_steady, steady_shared.
Qed.

(** *** Commands *)

Lemma uid_allowed c args s uid name :
  uidAndName c args s = Some (uid, name) →
  mEngBuild s = true ∨ uid = callingUid c ∨ callingUid c = AID_ROOT ∧ uid = AID_SHELL.
Proof using.
  unfold uidAndName. destruct args as [|a [|b [|? ?]]]; [done|intros [= <- _]; by right; left| |done].
  intros (u & H & [= -> _])%fmap_Some. unfold getUidFromString in H. destruct a as [|x a]; [done|].
  destruct (strtoll _) as [[longUid [|? ?]]|]; [|done..]. destruct (_ || negb _); [done|]. cbv zeta in H.
  destruct (mEngBuild s); [by left|]. cbn [orb] in H. unfold callingUid.
  destruct (Z.eqb_spec (wrap32 (c_uid c)) (wrap32 longUid)) as [E|E]; [injection H as <-; right; left; by rewrite E|]. cbn [orb] in H.
  destruct (_ && _) eqn:Ea; [|done]. injection H as <-. apply andb_true_iff in Ea as [E1%Z.eqb_eq E2%Z.eqb_eq]. by right; right.
Qed.

Lemma config_served e c args input s s' :
  c_uid c = AID_ROOT ∨ c_uid c = AID_SHELL → servedCommand (cmd_config lib serialize e c ("config"%string :: args) input s) = Some s' →
  Served (mayChange c (ShellCommand e ("config"%string :: args) input) (mEngBuild s)) s s'.
Proof using.
  intros Hc. destruct args as [|command args]; [intros [= <-]; by apply served_steady|]. cbn [cmd_config].
  destruct (String.eqb_spec command "update") as [->|_].
  - destruct (uidAndName c args s) as [[uid name]|] eqn:Eu; [|intros [= <-]; by apply served_steady].
    destruct (parseConfigId name) as [id|]; [|intros [= <-]; by apply served_steady].
    destruct input as [config|]; [|intros [= <-]; by apply served_steady]. intros H. served_by H s1 E. injection H as <- <- <-.
    eapply (served_config _ _ _ e (CUpdate (e_wallSec e) (e_elapsed e) (uid, id) config) s s1); [done|exact E|done|].
    intros u ->. split; [done|]. right. by apply uid_allowed in Eu.
  - destruct (String.eqb_spec command "remove") as [->|_]; [|intros [= <-]; by apply served_steady].
    destruct args as [|a args].
    + intros H. served_by H s1 E. injection H as <- <- <-. apply bind_Some in E as (s2 & E & [= <-]).
      eapply (served_config _ _ _ e CRemoveAll s s2); [done|exact E|apply steady_shared|]. intros u _. split; [done|]. by left.
    + destruct (uidAndName c (a :: args) s) as [[uid name]|] eqn:Eu; [|intros [= <-]; by apply served_steady].
      intros H. served_by H s1 E. injection H as <- <- <-.
      eapply (served_config _ _ _ e (CRemove (uid, StrToInt64 name)) s s1); [done|exact E|done|].
      intros u ->. split; [done|]. right. by apply uid_allowed in Eu.
Qed.

Lemma steady_call x s : steady s (call x s).
Proof using. by split. Qed.

Lemma sendActive_steady e uid ids s s' : servedCommand (sendActiveConfigs e uid ids s) = Some s' → steady s s'.
Proof using.
  unfold sendActiveConfigs. destruct (GetActiveConfigsChangedReceiver _ _) as [pir|]; [|by intros [= <-]].
  destruct (e_sendActivationBroadcast _ _ _); intros [= <-]; apply steady_call.
Qed.

Lemma activeArgs_steady e uid args s s' : servedCommand (activeConfigArgs e uid args s) = Some s' → steady s s'.
Proof using.
  unfold activeConfigArgs. destruct args as [|flag names]; [apply sendActive_steady|]. destruct (String.eqb _ _); [|apply sendActive_steady].
  destruct (mapM _ names); [apply sendActive_steady|by intros [= <-]].
Qed.

Lemma readLog_steady e l event s s' : readLog lib e l event s = Some s' → steady s s'.
Proof using. intros H. eapply steady_on; [exact H|]. intros p q. apply event_fewer. Qed.

(** The commands other than [config]. *)
Lemma command_steady e c command args input s s' :
  servedCommand (handleShellCommand lib serialize e c (command :: args) input s) = Some s' →
  String.eqb command "config" = false → steady s s'.
Proof using.
  unfold handleShellCommand. destruct (_ && _); [by intros [= <-]|]. intros H Hc. rewrite Hc in H. revert H.
  repeat (match goal with |- servedCommand (if ?b then _ else _) = _ → _ => destruct b end); try (by intros [= <-]).
  - unfold cmd_print_uid_map. destruct args; by intros [= <-].
  - unfold cmd_dump_report. destruct (stripFlag _ _) as [proto a1]. destruct (stripFlag _ a1) as [incl a2].
    destruct (stripFlag _ a2) as [keep a3]. destruct (uidAndName _ _ _) as [[uid name]|]; [|by intros [= <-]].
    intros H. served_by H r E. destruct r as [data p]. injection H as <- <- <-. by eapply steady_processor, links_fewer, links_dump.
  - unfold cmd_print_pulled_metrics. cbv zeta. intros H. served_by H r E. destruct r as [[events|] pm]; injection H as <- <- <-; apply steady_shared.
  - unfold cmd_trigger_broadcast. destruct (uidAndName _ _ _) as [[uid name]|]; [|by intros [= <-]].
    destruct (GetConfigReceiver _ _); [|by intros [= <-]]. destruct (e_sendBroadcast _ _); intros [= <-]; apply steady_call.
  - unfold cmd_print_stats. destruct (stripFlag _ _) as [[|] ?]; intros [= <-]; by split.
  - intros H. served_by H s1 E. injection H as <- <- <-. eapply steady_on; [exact E|]. intros p q Hp. by eapply links_fewer, links_writeData.
  - unfold cmd_log_app_breadcrumb. cbn [tail]. destruct args as [|a1 [|a2 [|a3 [|? ?]]]]; try (by intros [= <-]).
    destruct (getUidFromString _ _ _); intros [= <-]; by split.
  - unfold cmd_log_binary_push. cbn [tail]. cbv zeta. destruct args as [|a1 [|a2 [|a3 [|a4 [|a5 [|a6 [|a7 [|? ?]]]]]]]]; try (by intros [= <-]);
      intros H; served_by H s1 E; injection H as <- <- <-; by eapply readLog_steady.
  - unfold cmd_clear_puller_cache. destruct (checkPermission _ _ _); [|by intros [= <-]]. destruct (ForceClearPullerCache _).
    intros [= <-]. apply steady_shared.
  - unfold cmd_print_logs. destruct (negb _); intros [= <-]; by split.
  - unfold cmd_trigger_active_config_broadcast. cbn [tail]. destruct args as [|arg rest]; [apply sendActive_steady|].
    destruct (String.prefix _ _); [|apply activeArgs_steady]. destruct (getUidFromString _ _ _); [apply activeArgs_steady|by intros [= <-]].
Qed.

Lemma dump_steady e c args s s' : servedCommand (service_dump lib e c args s) = Some s' → steady s s'.
Proof using.
  unfold service_dump. destruct (negb _); [by intros [= <-]|]. cbv zeta.
  case_bool_decide as Hm; (destruct (stripFlag _ _).1; [|by intros [= <-]]); [intros [= <-]; by split|].
  intros H. served_by H r E. destruct r as [reports s1]. injection H as <- <- <-. unfold dumpIncidentSection in E.
  assert (Hpre : PreOrder (λ x y : list (list (list Z)) * Service, steady x.2 y.2)).
  { split; [intros x; reflexivity|intros x y z H1 H2; by etrans]. }
  apply (foldl_option_rel (λ x y : list (list (list Z)) * Service, steady x.2 y.2)
    (λ key x, let '(reports, s) := x in
              '(report, p) ← onDumpReport lib e key (e_elapsed e) false false ADB_DUMP FAST (mProcessor s);
              Some (reports ++ [report], set_processor p s))) in E; [exact E|].
  clear. intros key [reports s] [reports' s'] ([report p] & E & [= _ <-])%bind_Some. by eapply steady_processor, links_fewer, links_dump.
Qed.

Lemma request_served c r s s' : serveRequest c r s = Some s' → Served (mayChange c r (mEngBuild s)) s s'.
Proof.
  destruct r; try (by apply binder_served); cbn [serveRequest]; intros H; [|by eapply served_steady, dump_steady].
  destruct (decide (c_uid c = AID_ROOT ∨ c_uid c = AID_SHELL)) as [Hc|Hc].
  - destruct args as [|command args].
    { apply served_steady. revert H. unfold handleShellCommand. destruct (_ && _); by intros [= <-]. }
    destruct (String.eqb_spec command "config") as [->|Hne]; [|eapply served_steady, command_steady; [exact H|by apply String.eqb_neq]].
    apply config_served; [done|]. revert H. unfold handleShellCommand.
    assert (negb (c_uid c =? AID_ROOT) && negb (c_uid c =? AID_SHELL) = false) as ->; [|done].
    destruct Hc as [-> | ->]; done.
  - apply served_steady. revert H. unfold handleShellCommand.
    rewrite (proj2 (Z.eqb_neq _ _)), (proj2 (Z.eqb_neq _ _)) by tauto. by intros [= <-].
Qed.

Lemma configStep_other e o s s' uid :
  configStep e o s = Some s' → ¬ touches o uid → mConfigs (mConfigManager s') !! uid = mConfigs (mConfigManager s) !! uid.
Proof using.
  unfold configStep, onConfigs. intros ([[calls m] k] & E & H)%bind_Some Ht. apply bind_Some in H as (p & _ & [= <-]).
  cbn [mConfigManager set_configManager]. revert E. destruct o as [l|nowSec elapsedNs key config|key|u| |key pir]; cbn [stepConfig touches] in *.
  - by intros [= _ <- _].
  - unfold UpdateConfig. cbv zeta. destruct (match mConfigs _ !! _ with Some _ => _ | None => _ end); [by intros [= _ <- _]|].
    destruct (_ && _); intros (k' & _ & [= _ <- _])%bind_Some; [done|]. cbn. by rewrite lookup_insert_ne.
  - unfold RemoveConfig. intros [= E]. destruct (mConfigs _ !! key.1) as [t|]; [|by injection E as _ <- _].
    case_bool_decide; injection E as _ <- _; [|done]. cbn. by rewrite lookup_insert_ne.
  - unfold RemoveConfigs. intros [= E]. destruct (mConfigs _ !! u) as [t|]; injection E as _ <- _; [|done]. cbn. by rewrite lookup_delete_ne.
  - done.
  - by intros [= _ <- _].
Qed.

(** ** Runs of the service *)

Inductive ServiceStep : Service → Service → Prop :=
  | step_request c r s s' : serveRequest c r s = Some s' → ServiceStep s s'
  | step_event e l event s s' : readLog lib e l event s = Some s' → ServiceStep s s'
  | step_trigger e s : ServiceStep s (runTriggerThread e s)
  | step_startup e s s' : service_Startup lib serialize e s = Some s' → ServiceStep s s'
  | step_terminate e s s' : service_Terminate lib e s = Some s' → ServiceStep s s'
  | step_companionDied e s s' : statsCompanionServiceDied lib e s = Some s' → ServiceStep s s'
  | step_receiverDied key pir s :
      ServiceStep s (set_configManager (configReceiverDied key pir (mConfigManager s)) s)
  | step_activeReceiverDied uid pir s :
      ServiceStep s (set_configManager (activeConfigChangedReceiverDied uid pir (mConfigManager s)) s)
  | step_subscriberDied key id pir s :
      ServiceStep s (set_reporter (broadcastSubscriberDied key id pir (mReporter s)) s).

(** The processor knows the configurations that are set, and has managers for them only. *)
Definition service_ok s : Prop := ∃ K, knows 0 K (mConfigManager s) ∧ managedIn K (mProcessor s).

Lemma ok_steady s s' : steady s s' → service_ok s → service_ok s'.
Proof using.
  intros (H1 & H2 & H3) (K & (L & Hi & Hk) & Hm). exists K. split; [|by eapply managedIn_fewer]. split; [by rewrite H2|].
  split; [unfold configsInv; by rewrite H1|]. intros key. unfold hasConfig. by rewrite H1, Hk.
Qed.

Lemma ok_config e o s s' : configStep e o s = Some s' → service_ok s → service_ok s'.
Proof using.
  unfold configStep, onConfigs. intros ([[calls m] k] & E & H)%bind_Some (K & Hk & Hm). apply bind_Some in H as (p & Ep & [= <-]).
  destruct (step_knows serialize (lib_sortFiles lib) 0 K o _ (mDisk (mProcessor s)) Hk) as (calls' & m' & k' & E' & Hk').
  rewrite E in E'. injection E' as <- <- <-. exists (heard 0 K calls). split; [done|].
  eapply hearConfigs_managed; [|exact Ep]. exact Hm.
Qed.

Lemma ok_served allowed s s' : Served allowed s s' → service_ok s → service_ok s'.
Proof using.
  intros [H|e o s1 s2 H1 H2 H3 _] Hok; [by eapply ok_steady|]. eapply ok_steady; [exact H3|]. eapply ok_config; [exact H2|]. by eapply ok_steady.
Qed.

Lemma ok_startConfigs e s s' : startConfigs lib serialize e s = Some s' → service_ok s → service_ok s'.
Proof using.
  unfold startConfigs. intros ([configs k] & _ & H)%bind_Some Hok. apply (ok_steady _ _ (steady_shared (set_disk k) s)) in Hok.
  revert H Hok. generalize (set_processor (on_shared (set_disk k) (mProcessor s)) s) as s0. clear s. intros s0 H.
  assert (Hpre : PreOrder (λ s s' : Service, service_ok s → service_ok s')) by (split; [by intros ?|intros ? ? ? ? ?; auto]).
  eapply (foldl_option_rel (λ s s' : Service, service_ok s → service_ok s') (λ kv, updateConfigOf lib serialize e kv.1 kv.2));
    [|exact H].
  intros [key config] s1 s2 Hs. exact (ok_config e (CUpdate (e_wallSec e) (e_elapsed e) key config) s1 s2 Hs).
Qed.

Lemma load_fewer e t t' p : fewer p (LoadMetadataFromDisk lib t t' (LoadActiveConfigsFromDisk lib e p)).
Proof using.
  transitivity (LoadActiveConfigsFromDisk lib e p).
  - unfold LoadActiveConfigsFromDisk. cbv zeta.
    match goal with |- fewer p (on_shared _ ?q) => transitivity q; [|by apply same_managers_fewer] end.
    destruct (_ ≫= _); [apply links_fewer, links_load|done].
  - generalize (LoadActiveConfigsFromDisk lib e p) as q. intros q. unfold LoadMetadataFromDisk. cbv zeta.
    match goal with |- fewer q (on_shared _ ?q') => transitivity q'; [|by apply same_managers_fewer] end.
    destruct (_ ≫= _); [apply links_fewer, links_metadata|done].
Qed.

Lemma restart_fewer e p q : restartProcessor lib e p = Some q → fewer p q.
Proof using.
  unfold restartProcessor. cbv zeta. intros (p1 & E1%links_writeData%links_fewer & H)%bind_Some.
  apply bind_Some in H as (p2 & E2%reset_fewer & [= <-]). etrans; [exact E1|]. etrans; [exact E2|].
  match goal with |- fewer _ (SetMetadataState _ _ _ ?q) => transitivity q; [|apply links_fewer, links_metadata] end.
  destruct (lib_parseActive _ _); [apply links_fewer, links_load|done].
Qed.

Lemma ok_step s s' : ServiceStep s s' → service_ok s → service_ok s'.
Proof.
  destruct 1 as [c r s s' H|e l event s s' H|e s|e s s' H|e s s' H|e s s' H|key pir s|uid pir s|key id pir s].
  - by eapply ok_served, request_served.
  - by eapply ok_steady, readLog_steady.
  - apply ok_steady. unfold runTriggerThread. destruct (mTriggerThreads s); [done|]. split; [done|]. split; [done|].
    apply links_fewer, links_onManagers.
  - unfold service_Startup in H. apply bind_Some in H as (s1 & E1 & E2). intros Hok. eapply ok_steady; [|by eapply ok_startConfigs].
    eapply steady_on; [exact E2|]. intros p q [= <-]. apply load_fewer.
  - apply ok_steady. eapply steady_on; [exact H|]. intros p q. apply saveAll_fewer.
  - unfold statsCompanionServiceDied in H. apply bind_Some in H as (s1 & E & [= <-]). apply ok_steady.
    etrans; [|apply steady_companion]. etrans; [|eapply steady_on; [exact E|intros p q; apply restart_fewer]]. by split.
  - apply ok_steady. split; [|split; [|done]]; cbn; unfold configReceiverDied; by case_bool_decide.
  - apply ok_steady. split; [|split; [|done]]; cbn; unfold activeConfigChangedReceiverDied; by case_bool_decide.
  - apply ok_steady. by split.
Qed.

Lemma ok_new shared stats elapsedNs buildType : service_ok (StatsService_new shared stats elapsedNs buildType).
Proof using.
  exists ∅. split.
  - split; [by apply list_elem_of_singleton|]. split; [by intros uid t|]. intros key. cbn. split; [by intros ?%elem_of_empty|done].
  - intros key [m Hm]. unfold managerOf in Hm. cbn in Hm. by rewrite lookup_empty in Hm.
Qed.
End facts.

(** C4: Only the callers that may do so change configurations.  A caller that is neither the system nor the shell and has no permission
    changes nothing at all.  The configurations of a uid change only by a call of the system for this uid, or by a command of the shell:
    the shell and root may change their own, root those of the shell, anybody those of all uids on an engineering build, and, on any
    build, by the command that removes all configurations. *)
Theorem callers_confined {M Config} `{Hops : ManagerOps M Config} `{!ManagerLaws M Config} (lib : Library Config)
    (serialize : Config → list Z) c r (s s' : StatsService M) :
  serveRequest lib serialize c r s = Some s' →
  (outsider lib c → s' = s) ∧
  ∀ uid, mConfigs (mConfigManager s') !! uid ≠ mConfigs (mConfigManager s) !! uid → mayChange c r (mEngBuild s) uid.
Proof.
  intros H. split; [intros Ho; rewrite outsider_refused in H by done; by injection H|]. intros uid Hne.
  destruct (request_served lib serialize c r s s' H) as [(H1 & _)|e o s1 s2 (H1 & _) H2 (H3 & _) Ha]; [by rewrite H1 in Hne|].
  apply Ha. destruct (decide (mConfigs (mConfigManager s2) !! uid = mConfigs (mConfigManager s1) !! uid)) as [E|E].
  - by rewrite H3, E, H1 in Hne.
  - destruct (decide (touches o uid)) as [?|Ht]; [done|]. exfalso. apply E. by eapply configStep_other.
Qed.

(** C7: Whatever requests, events, deaths and restarts come, and in whatever order: the log processor has a manager only for a configuration
    that is set, and at most twenty for each uid. *)
Theorem managers_are_configured {M Config} `{Hops : ManagerOps M Config} `{!ManagerLaws M Config} (lib : Library Config)
    (serialize : Config → list Z) shared stats elapsedNs buildType (s : StatsService M) :
  rtc (ServiceStep lib serialize) (StatsService_new shared stats elapsedNs buildType) s →
  (∀ key, is_Some (managerOf key (mProcessor s)) → hasConfig key (mConfigManager s) = true) ∧
  ∀ uid, (length (filter (λ key : ConfigKey, key.1 = uid) (managerKeys (mProcessor s))) <= kMaxConfigCountPerUid)%nat.
Proof.
  intros Hr. assert (Hok : service_ok s).
  { pose proof (ok_new (M := M) shared stats elapsedNs buildType) as H0. revert H0. induction Hr as [|x y z Hs _ IH]; [done|].
    intros Hx. by eapply IH, ok_step. }
  destruct Hok as (K & (_ & Hi & Hk) & Hm). assert (Hc : ∀ key, is_Some (managerOf key (mProcessor s)) → hasConfig key (mConfigManager s) = true).
  { intros key Hkey. by apply Hk, Hm. }
  split; [done|]. intros uid. set (l := filter _ _).
  assert (Hnd : NoDup l) by (apply NoDup_filter; apply NoDup_fst_map_to_list).
  assert (Hl : ∀ key, key ∈ l → key.1 = uid ∧ hasConfig key (mConfigManager s) = true).
  { intros key [Hu Hin]%list_elem_of_filter. split; [done|]. by apply Hc, managerKeys_elem. }
  destruct (mConfigs (mConfigManager s) !! uid) as [t|] eqn:Et.
  - destruct (Hi uid t Et) as [Hsize _]. etrans; [|exact Hsize]. rewrite <- (size_list_to_set (C := gset ConfigKey) l) by done.
    apply subseteq_size. intros key [Hu Hh]%elem_of_list_to_set%Hl. unfold hasConfig in Hh. rewrite Hu, Et in Hh. by apply bool_decide_eq_true in Hh.
  - destruct l as [|key l']; [cbn; lia|]. exfalso. destruct (Hl key) as [Hu Hh]; [by left|]. unfold hasConfig in Hh. by rewrite Hu, Et in Hh.
Qed.

(** ** Arguments of commands *)

Section arguments.
Context {M Config : Type} `{Hops : ManagerOps M Config} (lib : Library Config) (serialize : Config → list Z).

(** A configuration id with a leading zero is read in base ten by an update but in base eight by a removal: the command that removes a
    configuration under the name it was added with removes another one. *)
Lemma config_ids_differ e c config (s : StatsService M) :
  cmd_config lib serialize e c ["config"; "update"; "010"]%string (Some config) s
    = (s ← updateConfigOf lib serialize e (callingUid c, 10) config s; finish s) ∧
  cmd_config lib serialize e c ["config"; "remove"; "010"]%string None s
    = (s ← removeConfigOf lib e (callingUid c, 8) s; finish s).
Proof using. by split. Qed.

(** The three flags of the command that logs a binary push have no influence: an event always says yes. *)
Lemma binary_push_flags_ignored e c cmd name version state a1 a2 a3 b1 b2 b3 (s : StatsService M) :
  cmd_log_binary_push lib e c [cmd; name; version; a1; a2; a3; state] s = cmd_log_binary_push lib e c [cmd; name; version; b1; b2; b3; state] s.
Proof using. done. Qed.
End arguments.

(** ** An example *)

#[local] Existing Instance exampleOps.

Definition exampleService : StatsService MetricsManager := StatsService_new exampleShared (StatsdStats_new 1) 0 (Some "user"%string).
Definition exampleRequest : Request (Config := ManagerConfig) := AddConfiguration (exampleEnv 2) 7 (Some exampleConfig) 10057.

Lemma trigger_fires_once_witness :
  (runMarks [kUidMapReceivedTag; kBootCompleteTag; kUidMapReceivedTag]
     (0%nat, (MultiConditionTrigger_new {[kUidMapReceivedTag; kBootCompleteTag]}).2)).1 = 1%nat.
Proof. rewrite (trigger_fires_once {[kUidMapReceivedTag; kBootCompleteTag]}); [reflexivity|discriminate]. Defined.

(** The system adds a configuration for an app; the configurations of the app change, and the app could not have done so itself. *)
Lemma callers_confined_witness :
  ∃ s', serveRequest exampleLibrary (λ _, [1]) (mkCaller 1000 50) exampleRequest exampleService = Some s' ∧
    hasConfig (10057, 7) (mConfigManager s') = true ∧
    mayChange (mkCaller 1000 50) exampleRequest (mEngBuild exampleService) 10057 ∧
    serveRequest exampleLibrary (λ _, [1]) (mkCaller 10057 60) exampleRequest exampleService = Some exampleService.
Proof.
  assert (El : (λ s, hasConfig (10057, 7) (mConfigManager s)) <$>
    serveRequest exampleLibrary (λ _, [1]) (mkCaller 1000 50) exampleRequest exampleService = Some true) by (vm_compute; reflexivity).
  destruct (serveRequest exampleLibrary (λ _, [1]) (mkCaller 1000 50) exampleRequest exampleService) as [s'|] eqn:E; [|discriminate El].
  injection El as Eh. exists s'. split; [reflexivity|]. split; [exact Eh|]. split; [|vm_compute; reflexivity].
  apply (proj2 (callers_confined exampleLibrary (λ _, [1]) _ _ _ s' E) 10057). intros En. unfold hasConfig in Eh. cbn [fst] in Eh.
  rewrite En in Eh. discriminate Eh.
Defined.

Lemma managers_are_configured_witness :
  ∃ s', rtc (ServiceStep exampleLibrary (λ _, [1])) exampleService s' ∧ is_Some (managerOf (10057, 7) (mProcessor s')) ∧
    hasConfig (10057, 7) (mConfigManager s') = true.
Proof.
  assert (El : (λ s, from_option (λ _, true) false (managerOf (10057, 7) (mProcessor s))) <$>
    serveRequest exampleLibrary (λ _, [1]) (mkCaller 1000 50) exampleRequest exampleService = Some true) by (vm_compute; reflexivity).
  destruct (serveRequest exampleLibrary (λ _, [1]) (mkCaller 1000 50) exampleRequest exampleService) as [s'|] eqn:E; [|discriminate El].
  injection El as Em. exists s'. assert (Hr : rtc (ServiceStep exampleLibrary (λ _, [1])) exampleService s').
  { apply rtc_once. exact (step_request exampleLibrary (λ _, [1]) _ _ _ _ E). }
  destruct (managerOf (10057, 7) (mProcessor s')) as [m|] eqn:Ek; [|discriminate Em].
  split; [exact Hr|]. split; [by eexists|].
  apply (proj1 (managers_are_configured exampleLibrary (λ _, [1]) exampleShared (StatsdStats_new 1) 0 (Some "user"%string) s' Hr)).
  rewrite Ek. by eexists.
Defined.
